(* ===== verification/_CoqProject ===== *)
-Q . S2P
Prelude.v
Bitops.v
Utf8Checker.v
WsParser.v
WsValidator.v
Coordinator.v
HttpFields.v
HttpHeaders.v
HttpResponse.v
CardDealer.v
Base64.v
PercentEncoding.v
UriHelpers.v
Regex.v
RegexTheory.v
RegexEngines.v
Path2Regex.v
RouteMatch.v
RouteSyntax.v
Router.v
Routing.v
Server.v
FromString.v
Acceptor.v
EasyParser.v
ParserReads.v
ParserErrors.v
ParserNumbers.v
FieldBasics.v
FieldReads.v
ParserEcho.v
ParserKeeps.v
FieldValues.v
Host.v
Auth.v
FieldTheorems.v
Multipart.v
MultipartTheorems.v
EasyRouter.v
Sha1.v
OutputCtx.v
Effects.v
WsConnection.v
WsSafety.v
WsDelivery.v
WsHandshake.v
HttpInput.v
HttpInputTheorems.v
LineParser.v
HttpParserTheory.v
Connection.v
ConnectionSafety.v
ConnectionRuns.v
ConnectionDepth.v
ResponseBuilders.v
UserOutput.v
ChunkedOutput.v
Sendfile.v
SendfileRunner.v
SendfileDefault.v
SyncChain.v
Zlib.v
ZlibLaws.v
ZlibTheory.v
SmallZlib.v
ZlibTheorems.v
BodyAppender.v
AppenderTheorems.v
HttpServer.v
ServerRun.v
PoolRun.v
Settings.v
ServerSetup.v
Main.v
WritableItems.v
GroupRefinement.v
HeaderAccess.v
Dialogue.v
DealerAnswers.v
ServedDialogue.v
