(* ===== verification/Prelude.v ===== *)
(** * Verification of the card-dealer web server and its RESTinio core

    The program (src/web/restinio/sample/express_router/main.cpp with
    src/Serial.hpp, src/PSoCcom.hpp and src/RPIdata.hpp) is a web server on a
    Raspberry Pi.  A browser chooses a card game and the number of players; the
    server keeps the choice in memory and in "settings.txt" and, on request,
    sends it over a UART to the PSoC that deals the cards.  It is built on
    RESTinio (src/web/restinio/restinio): the express router picks a handler for
    a request, a response builder writes the answer, the response coordinator
    keeps pipelined answers in order.  The WebSocket, encoding and query parts of
    RESTinio and its parsers of header fields and request bodies are verified as
    components of their own, and so are HTTP and WebSocket connections.

    ** From a request to its effects

    - [Server] ([server_handler] of main.cpp): the construction of the handler, which
      opens the serial port and may fail, the routing table, and sessions of arbitrary
      requests.  [server_dispatches] says which handler every method and path gets;
      [server_implements_spec] is the refinement theorem of the whole program against
      an abstract dealer that keeps the selection, the text of the settings file and
      the octets sent, over a serial port that may take part of a message or throw.
    - [ServedDialogue]: the whole way from the octets of messages on a connection,
      however they are cut, through parser callbacks, connection, router and handlers
      to the octets of the answers ([served_dialogue]), against the same dealer with
      its answers ([DealerAnswers]).  [Dialogue] has the part of it that holds for
      every handler that answers at once.
    - [Main] ([main]): its settings and traits, the run of the server, and every way
      in which the program ends ([main_program]).
    - [CardDealer] (main.cpp, Serial.hpp, PSoCcom.hpp, RPIdata.hpp and the three
      DTO types): Modules [Model] (data), [Machine] (a state monad with
      exceptions and undefined behaviour over files, UART, selection and
      [PSoCcom::buf]), [Cstr] (C strings in fixed buffers), [Serial], [PSoCcom],
      [RPIdata], [Handler] (one definition per handler), [DealerProps].  json_dto
      and the serial port are the classes [JsonDto] and [SerialPort].
    - [Router] (router/express.hpp, router/method_matcher.hpp,
      router/impl/target_path_holder.hpp, the methods of http_headers.hpp): HTTP
      methods, matchers, the normalised path, route parameters as views, dispatch.
      It is generic in the regex engine, the class [RegexEngine].
    - [Path2Regex] (path2regex/path2regex.hpp): cutting a route into tokens and
      writing the expression for them.
    - [Regex] (router/std_regex_engine.hpp over a model of the ECMAScript grammar
      of std::regex): compilation of patterns and backtracking search; the
      instance [std_regex_engine].  [RegexTheory]: the matcher finds exactly the
      language of an expression, compilation always answers and is
      compositional.  [RouteMatch]: the expression of a token list compiles, and
      what it matches.  [RouteSyntax]: the tokens of a route's text.  [Routing]:
      both together, and the router over a table of routes.  [RegexEngines]: the
      engines for PCRE, PCRE2 and Boost.Regex.

    ** Answers

    - [HttpFields], [HttpHeaders], [HttpResponse] (http_headers.hpp,
      impl/header_helpers.hpp, message_builders.hpp): field names and their
      lookup, the field container, request targets, status codes, header
      serialisation and the restinio-controlled response builder.  [HeaderAccess] has
      the remaining members of the header classes.
    - [ResponseBuilders] (message_builders.hpp): the user-controlled and the chunked
      builder.  [UserOutput]: under the user-controlled builder the coordinator hands
      out exactly the response the user composed, however it is cut into flushes.
      [ChunkedOutput]: a decoder of the chunked coding reads the body back from what
      the chunked builder sent.
    - [SyncChain] (sync_chain/*.hpp): the chains of handlers, fixed and growable.
    - [Coordinator] (buffers.hpp, impl/response_coordinator.hpp): write groups and
      the ring of response contexts.  The main theorem is an invariant of all
      histories: what was handed out and what is queued is, in request order,
      what was accepted.
    - [WritableItems] (buffers.hpp): the same groups with the storage of their items,
      placement new, relocation, destruction, and buffers shared with the user.
      [GroupRefinement]: programs over the storage implement those over octets.
    - [Zlib] (transforms/zlib.hpp): the transformer, its loops around deflate() and
      inflate(), and [handle_body]; zlib is the class [ZlibApi] with the documented laws
      [ZlibLaws], which [SmallZlib] keeps.  [ZlibTheory], [ZlibTheorems]: compression and
      decompression are inverse to each other whatever the pieces, and request bodies are
      handed over decoded.  [BodyAppender], [AppenderTheorems]: compressed responses
      under the three builders.

    ** The server as a whole

    - [Settings] (settings.hpp, with [traits.hpp] as the class [Traits]): every parameter,
      its default and its setter.  [ServerSetup]: the constructors of http_server.hpp,
      impl/connection_settings.hpp and impl/acceptor.hpp, and the address to bind.
    - [HttpServer] (http_server.hpp, [open] and [close] of impl/acceptor.hpp): starting and
      stopping with every failure in between.
    - [ServerRun], [PoolRun] (http_server_run.hpp, impl/ioctx_on_thread_pool.hpp): [run] on
      the calling thread and on a pool, [run_async], [initiate_shutdown], as a program and
      as a step relation over threads; every run is finite.

    ** Connections

    - [Acceptor] (connection_count_limiter.hpp, impl/acceptor.hpp): Module
      [Limiter] has the two limiters as instances of the class [CountLimiter],
      which states what the acceptor relies on; Module [Acceptor] runs the accept
      cycle against it as an executable interleaving semantics with lifetime
      monitors.  The limit is kept, no slot is dropped, no wake-up is lost, and
      accepts without a connection use the limit up.

    - [HttpInput] (impl/parser_callbacks.ipp, [http_parser_ctx_t] of
      impl/connection.hpp, incoming_http_msg_limits.hpp, chunked_input_info.hpp): the
      callbacks that assemble a request, and the limits.  http_parser is the class
      [HttpParser] with the laws [HttpParserLaws].  [HttpInputTheorems]: the pieces in
      which a message arrives do not matter, and a message within the limits becomes
      the request that was sent.  [HttpParserTheory]: runs of the parser with these
      callbacks; [LineParser] is a small parser that keeps the laws.
    - [Connection] (impl/connection.hpp): the state machine of one HTTP connection,
      one step per handler of the strand, over [HttpInput], [Coordinator] and
      [OutputCtx]; the request handler, the callbacks and the state listener are the
      class [UserCode] and run inside the steps.  [ConnectionSafety]: the invariant of
      all runs, from which responses leave in the order of the requests, no step is
      undefined, and only user code that throws something else than a std::exception
      ends the program.  [ConnectionDepth]: every step returns.  [ConnectionRuns]: witnesses,
      and runs in which the connection misbehaves.
    - [Sendfile] (sendfile.hpp, sendfile_defs_posix.hpp): pieces of files, and the
      ownership of descriptors, each of which is closed once.  [SendfileRunner]
      (impl/sendfile_operation_posix.ipp): the transfers, with sendfile(2) and through
      a buffer, send the piece they were given.  [SendfileDefault]
      (impl/sendfile_operation_default.ipp): the same through the C library.
    - [Effects] has the monad of state, exceptions and undefined behaviour that both
      kinds of connections use, with its weakest preconditions.  Exceptions are
      std::exceptions or others, since most handlers of the code catch only the former,
      inside noexcept functions, where the others call std::terminate.

    ** Encodings and WebSocket

    - [Utf8Checker] (utils/utf8_checker.hpp): the incremental checker accepts
      exactly the encodings of sequences of Unicode scalar values.
    - [PercentEncoding] (utils/percent_encoding.hpp) and [UriHelpers]
      (uri_helpers.hpp): unescaping accepts exactly the escaped forms of UTF-8
      text, in place and into a new string alike; round trips; query strings
      parsed in one shared buffer; normalisation of paths.  Whether [char] is signed is a
      parameter, on which the escapes of octets from 0x80 on depend.
    - [FromString] (utils/from_string.hpp, utils/from_string_details.ipp): the
      eight integer types read from text against a reference, with the inputs
      that escape the checks; printing and reading back.
    - [Bitops], [Base64] (utils/impl/bitops.hpp, utils/base64.hpp): round trip, and
      exactly which inputs make the decoder read past its end.
    - [WsParser] (websocket/impl/ws_parser.hpp, websocket/message.hpp): the
      incremental frame header parser against a one-shot decoder, writer round
      trip, masking.  [WsValidator] (websocket/impl/ws_protocol_validator.hpp):
      which headers and payloads are accepted; fragmented text messages end to
      end.
    - [Sha1] (utils/sha1.hpp): the unrolled digest against the algorithm of
      FIPS 180-4, for messages fed in any pieces, with the lengths for which they
      differ.

    ** WebSocket connections

    - [OutputCtx] (impl/write_group_output_ctx.hpp): a write group as gathered
      writes and file transfers.
    - [WsConnection] (websocket/impl/ws_connection.hpp, [ws_t] of
      websocket/websocket.hpp): one step per handler of the strand, in a state
      monad with exceptions.  The peer, the socket and the timer are the events;
      user code is the class [UserCode] and runs inside the steps, so that it may
      call back into the connection.
    - [WsSafety]: a program logic with frame conditions (class [Safe] and its
      instances) and the invariants of all runs: octets in the order of acceptance,
      nothing after a close frame, no overlapping reads or writes.
    - [WsDelivery]: reception end to end, from any cutting of the stream into reads
      to the calls of the handler; two runs in which the connection misbehaves.
    - [WsHandshake] ([upgrade] of websocket/websocket.hpp): the answer to the opening
      handshake, by way of [Sha1] and [Base64], and the connection that writes it.

    ** Grammars

    - [EasyParser] (helpers/easy_parser.hpp, utils/tuple_algorithms.hpp): Module
      [Parser] has the input stream, producers, transformers, consumers, clauses
      and every combinator.  An exception, undefined behaviour and a repetition
      that does not end are outcomes of their own.  Module [ParserLaws] has the
      classes [SafeProducer], [SafeClause], [ProductiveClause] and their like: the
      instances follow the combinators, so that a grammar is shown to answer on
      every input by instance search.
    - Program logics over the combinators: [ParserReads] (what a grammar reads
      and refuses, for round trips), [ParserEcho] (grammars whose value is the
      text they read), [ParserKeeps] (invariants of parsed values).
    - [ParserNumbers] (impl/overflow_controlled_integer_accumulator.hpp and the
      number producers), [ParserErrors] ([make_error_description]).
    - [FieldBasics], [FieldReads] (http_field_parsers/basics.hpp), [FieldValues]
      (one section per field header), [Host] (host.hpp), [Auth]
      (authorization.hpp, basic_auth.hpp, bearer_auth.hpp): the grammars of the
      fields.  [FieldTheorems]: every field parser answers on every text
      ([field_parsers_answer]), weights are quality values, Accept and
      Content-Type are read back.
    - [Multipart] (helpers/multipart_body.hpp, file_upload.hpp, string_algo.hpp)
      and [MultipartTheorems]: splitting gives back the parts, and a form upload, as
      clients may write it, reaches the handler file by file, from the Content-Type
      field and the body to the call ([upload_delivers_files]).
    - [EasyRouter] (router/easy_parser_router.hpp): routes as grammars, the tuple of
      their values, and the choice of the first entry that accepts.

    ** Conventions

    Octets are [byte]; a w-bit unsigned integer is a [Z] with its wrap-around
    written out ([wrap]); strings are lists of octets and views are offsets with
    lengths where aliasing matters.  A throwing function returns [outcome] or a
    sum with the errors as data; accesses outside a buffer are results of their
    own, never defaults.  Code outside src/ is a class whose fields are the calls
    made and the documented laws relied on, with a concrete instance for the
    witnesses.  Completion callbacks are numbers.

    Fuel: [parse_loop] of [UriHelpers] and the in-place unescaper take the length
    of their buffer, each round consuming an octet ([parse_loop_fuel]); decimal
    numbers take 20 digits, enough for 64 bits; a repetition of [Regex] takes one
    unit per required iteration and one per remaining octet, since every further
    iteration consumes something; the pattern compiler takes three units per
    octet ([parse_regex_total] shows it never runs out); the token search takes
    one unit per octet of the route.  An unlimited repetition of the combinators
    takes one round per octet left and one more, and running out is the outcome
    [Endless], shown not to occur; comments take one level per octet
    ([comment_enough_levels], [comment_p_unfold]); the split of a multipart body
    one round per octet ([split_loop_enough]).  A WebSocket connection starts a
    header read at most 15 times in a row, since its buffer has 14 octets and every
    round takes one, and looks at the write queue at most twice
    ([ws_steps_defined]); the nesting of user code is a parameter.  The
    functions of an HTTP connection call each other; their nesting is bounded by a
    parameter, and twice the size of the read buffer and five more is enough
    ([http_steps_return]).  A file transfer takes one round per octet that is left, a
    buffered one also one per interrupted read, and the decoder of chunks one round
    per octet.  The loops of the zlib transformer take a number of rounds as a parameter;
    some number is shown to be enough for every input but octets after the end of a
    compressed stream, for which none is.  The request identifiers of the coordinator
    are 32-bit and the theorems speak of histories that do not exhaust them.

    ** Not modelled

    Sockets, timers, threads and the io_context themselves (Asio), TLS (tls.hpp,
    impl/tls_socket.hpp), zlib and http_parser, which are parameters of the model; the
    SObjectizer timer manager; the variants of sendfile for Windows, FreeBSD and macOS; the
    loggers and writes to std::cout; of std::regex, back references, word boundaries,
    numeric escapes and named classes, which compile to an outcome of their own; of the
    combinators, std::map as a target and the compile-time checks; the samples of RESTinio
    other than the program, its tests and benchmarks, and the vendored libraries. *)

From Stdlib Require Export Strings.Byte.
From stdpp Require Export base list numbers strings option.

#[global] Open Scope Z_scope.

(** ** Octets

    A C++ [char], [unsigned char] or [std::uint8_t] stored in a buffer is a
    [byte]; [u8] is [static_cast<std::uint8_t>] and [b8] is the narrowing
    conversion of an integer to eight bits. *)

Definition u8 (b : byte) : Z := Z.of_N (Byte.to_N b).

Definition b8 (z : Z) : byte :=
  match Byte.of_N (Z.to_N (z mod 256)) with Some b => b | None => x00 end.

(** C++ string literals as octet sequences. *)
Definition bs (s : string) : list byte := String.list_byte_of_string s.
Arguments bs s%_string_scope.

(** Unsigned wrap-around at width [w]. *)
Definition wrap (w : Z) (z : Z) : Z := z mod 2 ^ w.

#[global] Instance byte_eq_dec : EqDecision byte := Byte.byte_eq_dec.

(** Exhaustive check of a boolean predicate over the 256 octets. *)
Definition all_bytes : list byte := b8 <$> seqZ 0 256.
Definition byte_all (f : byte -> bool) : bool := forallb f all_bytes.

Lemma byte_all_true (f : byte -> bool) : byte_all f = true -> forall b, f b = true.
Proof.
  unfold byte_all. rewrite forallb_forall. intros H b. apply H.
  apply list_elem_of_In. apply (bool_decide_unpack _). destruct b; vm_compute; exact I.
Qed.

(** Two-octet version. *)
Lemma byte_all2_true (f : byte -> byte -> bool) :
  byte_all (fun a => byte_all (f a)) = true -> forall a b, f a b = true.
Proof. intros H a. apply byte_all_true, (byte_all_true _ H). Qed.

(** Exhaustive check over an initial segment of the integers. *)
Lemma seqZ_all (f : Z -> bool) n :
  forallb f (seqZ 0 n) = true -> forall z, 0 <= z < n -> f z = true.
Proof. rewrite forallb_forall. intros H z Hz. apply H, list_elem_of_In, elem_of_seqZ. lia. Qed.

(** ** Conversions between octets and integers *)

Lemma u8_range b : 0 <= u8 b < 256.
Proof.
  assert (H : (0 <=? u8 b) && (u8 b <? 256) = true).
  { by apply (byte_all_true (fun b => (0 <=? u8 b) && (u8 b <? 256))). }
  lia.
Qed.

Lemma byte_all_eq (f g : byte -> byte) :
  byte_all (fun b => Byte.eqb (f b) (g b)) = true -> forall b, f b = g b.
Proof. intros H b. apply Byte.byte_dec_bl, (byte_all_true _ H). Qed.

Lemma byte_all_eqZ (f g : byte -> Z) :
  byte_all (fun b => Z.eqb (f b) (g b)) = true -> forall b, f b = g b.
Proof. intros H b. apply Z.eqb_eq, (byte_all_true _ H). Qed.

Lemma b8_u8 b : b8 (u8 b) = b.
Proof. by apply (byte_all_eq (fun b => b8 (u8 b)) (fun b => b)). Qed.

Lemma u8_b8 z : u8 (b8 z) = z mod 256.
Proof.
  assert (Hall : forallb (fun z => u8 (b8 z) =? z) (seqZ 0 256) = true) by done.
  rewrite forallb_forall in Hall.
  assert (Hm : 0 <= z mod 256 < 256) by (apply Z.mod_pos_bound; lia).
  enough (Hz : u8 (b8 (z mod 256)) = z mod 256).
  { etrans; [|exact Hz]. unfold b8. by rewrite Zmod_mod. }
  apply Z.eqb_eq, Hall, list_elem_of_In, elem_of_seqZ. lia.
Qed.

Lemma u8_b8_small z : 0 <= z < 256 -> u8 (b8 z) = z.
Proof. intros H. rewrite u8_b8. by apply Z.mod_small. Qed.

Lemma b8_eq b z : z = u8 b -> b8 z = b.
Proof. intros ->. apply b8_u8. Qed.

Lemma b8_mod z : b8 (z mod 256) = b8 z.
Proof. unfold b8. by rewrite Zmod_mod. Qed.

Lemma b8_land_255 z : b8 (Z.land z 0xFF) = b8 z.
Proof. change 0xFF with (Z.ones 8). rewrite Z.land_ones by lia. apply b8_mod. Qed.

Lemma u8_inj a b : u8 a = u8 b -> a = b.
Proof. intros H. by rewrite <- (b8_u8 a), <- (b8_u8 b), H. Qed.

#[global] Instance u8_Inj : Inj (=) (=) u8 := u8_inj.

(** Range and conversion facts for [auto] and [autorewrite]. *)
Create HintDb octets.
#[export] Hint Resolve u8_range : octets.
#[export] Hint Rewrite b8_u8 b8_mod b8_land_255 : octets.

(** The range of every octet of the goal, for [lia]. *)
Ltac octet_bounds :=
  repeat match goal with
  | |- context [u8 ?b] =>
      lazymatch goal with
      | _ : 0 <= u8 b < 256 |- _ => fail
      | _ => pose proof (u8_range b)
      end
  end.

(** ** Bit fields *)

Lemma testbit_small_high b n i : 0 <= b < 2 ^ n -> n <= i -> Z.testbit b i = false.
Proof.
  intros Hb Hi. destruct (decide (b = 0)) as [->|]; [apply Z.bits_0|].
  apply Z.bits_above_log2; [lia|]. apply Z.log2_lt_pow2; [lia|].
  apply Z.lt_le_trans with (2 ^ n); [lia|]. apply Z.pow_le_mono_r; lia.
Qed.

Lemma land_shiftl_low a b n : 0 <= n -> 0 <= b < 2 ^ n -> Z.land (Z.shiftl a n) b = 0.
Proof.
  intros Hn Hb. apply Z.bits_inj'. intros i Hi. rewrite Z.land_spec, Z.bits_0.
  destruct (decide (i < n)).
  - by rewrite Z.shiftl_spec_low.
  - rewrite (testbit_small_high b n i), andb_false_r; [done|lia|lia].
Qed.

(** Packing a field below a shifted value is addition. *)
Lemma lor_shiftl_add a b n :
  0 <= n -> 0 <= b < 2 ^ n -> Z.lor (Z.shiftl a n) b = a * 2 ^ n + b.
Proof.
  intros Hn Hb. rewrite <- Z.shiftl_mul_pow2 by done.
  rewrite Z.add_nocarry_lxor by by apply land_shiftl_low.
  symmetry. by apply Z.lxor_lor, land_shiftl_low.
Qed.

(** ** Lists *)

(** Brings nested appends and literal prefixes into one normal form. *)
Ltac app_norm := repeat (progress (simpl; rewrite <- ?app_assoc)).

Lemma fold_left_snoc {A B} (f : A -> B) (l : list A) (acc : list B) :
  fold_left (fun acc x => acc ++ [f x]) l acc = acc ++ map f l.
Proof.
  revert acc. induction l as [|x l IH]; intros acc; simpl; [by rewrite app_nil_r|].
  by rewrite IH, <- app_assoc.
Qed.

(** ** Exceptions

    A member function that may [throw] returns an [outcome]; [Throw] carries
    the message of the exception. *)

Inductive outcome (A : Type) : Type :=
| Ok (a : A)
| Throw (what : string).
Arguments Ok {A} a.
Arguments Throw {A} what%_string_scope.

Declare Scope outcome_scope.
Notation "'let?' p := m 'in' k" :=
  (match m with Ok p => k | Throw w => Throw w end)
  (at level 10, p pattern, m at level 200, k at level 200) : outcome_scope.
#[global] Open Scope outcome_scope.

Definition is_ok {A} (m : outcome A) : bool := match m with Ok _ => true | Throw _ => false end.
