(* ===== verification/Bitops.v ===== *)
(** * Bit extraction

    Model of src/web/restinio/restinio/utils/impl/bitops.hpp, used by the
    WebSocket frames and by base64. *)

From S2P Require Import Prelude.

Module Bitops.

(** [details::mask<T>(bits)] for an integer type [T] of [w] bits. *)
Fixpoint mask_rec (w : Z) (bits_to_extract : nat) : Z :=
  match bits_to_extract with
  | O | S O => 1
  | S n => wrap w (Z.lor (Z.shiftl (mask_rec w n) 1) 1)
  end.

Definition mask (w : Z) (bits_to_extract : Z) : Z := mask_rec w (Z.to_nat bits_to_extract).

(** [n_bits_from<T, Shift, Bits>(value)] for [T] of [w] bits. *)
Definition n_bits_from (w shift bits value : Z) : Z :=
  Z.land (wrap w (Z.shiftr value shift)) (mask w bits).

(** [n_bits_from<std::uint8_t, Shift>] and, as an octet, [n_bits_from<char, Shift>]. *)
Definition byte_from (shift value : Z) : byte := b8 (n_bits_from 8 shift 8 value).

Lemma u8_byte_from shift value :
  0 <= shift -> u8 (byte_from shift value) = value / 2 ^ shift mod 256.
Proof.
  intros Hs. unfold byte_from, n_bits_from, wrap. change (mask 8 8) with (Z.ones 8).
  rewrite u8_b8, Z.land_ones by lia. rewrite Z.shiftr_div_pow2 by done.
  change (2 ^ 8) with 256. by rewrite !Zmod_mod.
Qed.

End Bitops.
