(* ===== verification/Utf8Checker.v ===== *)
(** * UTF-8 checker

    Model of [restinio::utils::utf8_checker_t]
    (src/web/restinio/restinio/utils/utf8_checker.hpp) and of
    [check_utf8_is_correct] (websocket/impl/utf8.hpp), with an independent
    specification: the concatenations of the shortest encodings of Unicode
    scalar values. *)

From S2P Require Import Prelude.

Module Utf8.

Inductive state_t := valid | invalid | may_be_overlong | overlong.

#[global] Instance state_t_eq_dec : EqDecision state_t.
Proof. solve_decision. Defined.

Record utf8_checker_t := mk_checker {
  m_current_symbol : Z;            (* std::uint32_t *)
  m_current_symbol_rest_bytes : Z; (* std::size_t *)
  m_state : state_t
}.

Definition initial : utf8_checker_t := mk_checker 0 0 valid.

Definition set_state (s : state_t) (c : utf8_checker_t) : utf8_checker_t :=
  mk_checker (m_current_symbol c) (m_current_symbol_rest_bytes c) s.

Definition validate_current_symbol (c : utf8_checker_t) : utf8_checker_t :=
  if ((0xD800 <=? m_current_symbol c) && (m_current_symbol c <=? 0xDFFF))
     || (0x110000 <=? m_current_symbol c)
  then set_state invalid c else c.

Definition check_overlong (byte : Z) (c : utf8_checker_t) : utf8_checker_t :=
  let rest := m_current_symbol_rest_bytes c in
  if (0 <? rest) && bool_decide (m_state c = may_be_overlong) then
    if (rest =? 2) && (Z.land byte 0xE0 =? 0x80) then set_state overlong c
    else if (rest =? 3) && (Z.land byte 0xF0 =? 0x80) then set_state overlong c
    else if (rest =? 4) && (Z.land byte 0xF8 =? 0x80) then set_state overlong c
    else if (rest =? 5) && (Z.land byte 0xFC =? 0x80) then set_state overlong c
    else set_state valid c
  else
    let c := if (byte =? 0xC0) || (byte =? 0xC1) then set_state overlong c
             else if byte =? 0xE0 then set_state may_be_overlong c
             else if byte =? 0xF0 then set_state may_be_overlong c
             else c in
    let c := if byte =? 0xF8 then set_state may_be_overlong c else c in
    if byte =? 0xFC then set_state may_be_overlong c else c.

(** The checker after one octet, and the value [process_byte] returns. *)
Definition process_byte (byte : Z) (c0 : utf8_checker_t) : utf8_checker_t * bool :=
  let c := check_overlong byte c0 in
  let c' :=
    if 0 <? m_current_symbol_rest_bytes c then
      if Z.land byte 0xC0 =? 0x80 then
        let sym := Z.lor (wrap 32 (Z.shiftl (m_current_symbol c) 6))
                         (Z.land byte 0x3F) in
        let rest := m_current_symbol_rest_bytes c - 1 in
        let c1 := mk_checker sym rest (m_state c) in
        if rest =? 0 then validate_current_symbol c1 else c1
      else set_state invalid c
    else
      let '(rest, byte', st) :=
        if Z.land byte 0x80 =? 0x00 then (0, byte, m_state c)
        else if Z.land byte 0xE0 =? 0xC0 then (1, Z.land byte 0x1F, m_state c)
        else if Z.land byte 0xF0 =? 0xE0 then (2, Z.land byte 0xF, m_state c)
        else if Z.land byte 0xF8 =? 0xF0 then (3, Z.land byte 0x7, m_state c)
        else if Z.land byte 0xFC =? 0xF8 then (4, Z.land byte 0x3, m_state c)
        else if Z.land byte 0xFE =? 0xFC then (5, Z.land byte 0x1, m_state c)
        else (m_current_symbol_rest_bytes c, byte, invalid) in
      mk_checker byte' rest st in
  (c', bool_decide (m_state c' = valid) || bool_decide (m_state c' = may_be_overlong)).

Definition finalized (c : utf8_checker_t) : bool :=
  m_current_symbol_rest_bytes c =? 0.

(** [reset] clears the symbol and the counter; the source leaves [m_state]. *)
Definition reset (c : utf8_checker_t) : utf8_checker_t := mk_checker 0 0 (m_state c).

(** The loop of [check_utf8_is_correct]: [None] is the early [return false]. *)
Fixpoint run (c : utf8_checker_t) (s : list byte) : option utf8_checker_t :=
  match s with
  | [] => Some c
  | ch :: s' => let '(c', ok) := process_byte (u8 ch) c in
                if ok then run c' s' else None
  end.

Definition check_utf8_is_correct (sv : list byte) : bool :=
  match run initial sv with Some c => finalized c | None => false end.

(** ** Specification: shortest-form encodings of Unicode scalar values *)

Definition is_scalar (cp : Z) : bool :=
  (0 <=? cp) && (cp <? 0x110000) && negb ((0xD800 <=? cp) && (cp <=? 0xDFFF)).

Definition cont (z : Z) : byte := b8 (0x80 + z mod 64).

Definition encode (cp : Z) : list byte :=
  if cp <? 0x80 then [b8 cp]
  else if cp <? 0x800 then [b8 (0xC0 + cp / 64); cont cp]
  else if cp <? 0x10000 then [b8 (0xE0 + cp / 4096); cont (cp / 64); cont cp]
  else [b8 (0xF0 + cp / 262144); cont (cp / 4096); cont (cp / 64); cont cp].

(** ** One step, in arithmetic form *)

Definition lead_spec (b : Z) : option utf8_checker_t :=
  if b <? 0x80 then Some (mk_checker b 0 valid)
  else if b <? 0xC2 then None
  else if b <? 0xE0 then Some (mk_checker (b - 0xC0) 1 valid)
  else if b =? 0xE0 then Some (mk_checker 0 2 may_be_overlong)
  else if b <? 0xF0 then Some (mk_checker (b - 0xE0) 2 valid)
  else if b =? 0xF0 then Some (mk_checker 0 3 may_be_overlong)
  else if b <? 0xF8 then Some (mk_checker (b - 0xF0) 3 valid)
  else if b =? 0xF8 then Some (mk_checker 0 4 may_be_overlong)
  else if b <? 0xFC then Some (mk_checker (b - 0xF8) 4 valid)
  else if b =? 0xFC then Some (mk_checker 0 5 may_be_overlong)
  else if b =? 0xFD then Some (mk_checker 1 5 valid)
  else None.

Definition checker_eqb (a b : option utf8_checker_t) : bool :=
  match a, b with
  | Some (mk_checker x r s), Some (mk_checker y r' s') =>
      (x =? y) && (r =? r') && bool_decide (s = s')
  | None, None => true
  | _, _ => false
  end.

Lemma checker_eqb_true a b : checker_eqb a b = true -> a = b.
Proof.
  destruct a as [[]|], b as [[]|]; simpl; try done.
  rewrite !andb_true_iff, !Z.eqb_eq, bool_decide_eq_true. by intros [[-> ->] ->].
Qed.

Definition step (c : utf8_checker_t) (b : Z) : option utf8_checker_t :=
  let '(c', ok) := process_byte b c in if ok then Some c' else None.

Lemma run_cons c b s : run c (b :: s) = step c (u8 b) ≫= fun c' => run c' s.
Proof. cbn [run]. unfold step. by destruct (process_byte (u8 b) c) as [c' []]. Qed.

Lemma check_overlong_idle b sym :
  check_overlong b (mk_checker sym 0 valid)
  = mk_checker sym 0 (m_state (check_overlong b (mk_checker 0 0 valid))).
Proof.
  unfold check_overlong, set_state; simpl.
  destruct ((b =? 192) || (b =? 193)), (b =? 224), (b =? 240), (b =? 248), (b =? 252); done.
Qed.

Lemma step_lead sym b : step (mk_checker sym 0 valid) (u8 b) = lead_spec (u8 b).
Proof.
  transitivity (step (mk_checker 0 0 valid) (u8 b)).
  - unfold step, process_byte. rewrite (check_overlong_idle (u8 b) sym).
    pose proof (check_overlong_idle (u8 b) 0) as E.
    destruct (check_overlong (u8 b) (mk_checker 0 0 valid)) as [x r st].
    injection E as -> ->. reflexivity.
  - apply checker_eqb_true.
    by apply (byte_all_true (fun b =>
      checker_eqb (step (mk_checker 0 0 valid) (u8 b)) (lead_spec (u8 b)))).
Qed.

Definition is_cont (b : byte) : bool := (0x80 <=? u8 b) && (u8 b <? 0xC0).

(** The first continuation octet values an overlong form uses. *)
Definition overlong_bound (rest : Z) : Z :=
  if rest =? 2 then 0xA0 else if rest =? 3 then 0x90
  else if rest =? 4 then 0x88 else if rest =? 5 then 0x84 else 0x80.

Definition cont_spec (sym rest : Z) (st : state_t) (b : byte) : option utf8_checker_t :=
  if is_cont b && (bool_decide (st = valid) || (overlong_bound rest <=? u8 b)) then
    let sym' := sym * 64 + (u8 b - 0x80) in
    if (rest - 1 =? 0) && negb (is_scalar sym') then None
    else Some (mk_checker sym' (rest - 1) valid)
  else None.

Definition mask_facts (b : byte) : bool :=
  Bool.eqb (Z.land (u8 b) 0xC0 =? 0x80) (is_cont b)
  && Bool.eqb (Z.land (u8 b) 0xE0 =? 0x80) (is_cont b && (u8 b <? 0xA0))
  && Bool.eqb (Z.land (u8 b) 0xF0 =? 0x80) (is_cont b && (u8 b <? 0x90))
  && Bool.eqb (Z.land (u8 b) 0xF8 =? 0x80) (is_cont b && (u8 b <? 0x88))
  && Bool.eqb (Z.land (u8 b) 0xFC =? 0x80) (is_cont b && (u8 b <? 0x84))
  && (negb (is_cont b) || (Z.land (u8 b) 0x3F =? u8 b - 0x80)).

Lemma mask_facts_ok b : mask_facts b = true.
Proof. by apply byte_all_true. Qed.

Lemma check_overlong_fields b sym rest st :
  exists st', check_overlong b (mk_checker sym rest st) = mk_checker sym rest st'.
Proof.
  unfold check_overlong, set_state. simpl.
  repeat match goal with |- context [if ?x then _ else _] => destruct x end;
    eexists; reflexivity.
Qed.

Lemma check_overlong_cont sym rest st b :
  0 < rest <= 5 -> is_cont b = true -> st = valid \/ st = may_be_overlong ->
  check_overlong (u8 b) (mk_checker sym rest st)
  = mk_checker sym rest
      (if bool_decide (st = valid) || (overlong_bound rest <=? u8 b) then valid else overlong).
Proof.
  intros Hr Hc Hst. pose proof (mask_facts_ok b) as Hm. unfold mask_facts in Hm.
  rewrite Hc, !andb_true_iff, !eqb_true_iff in Hm.
  destruct Hm as (((((_ & H2) & H3) & H4) & H5) & _). unfold is_cont in Hc.
  unfold check_overlong, set_state, overlong_bound; simpl.
  rewrite H2, H3, H4, H5, (proj2 (Z.ltb_lt 0 rest)) by lia.
  destruct Hst as [-> | ->]; simpl.
  - rewrite !(proj2 (Z.eqb_neq (u8 b) _)) by lia. done.
  - assert (rest = 1 \/ rest = 2 \/ rest = 3 \/ rest = 4 \/ rest = 5) as Hrest by lia.
    destruct Hrest as [-> | [-> | [-> | [-> | ->]]]]; simpl;
      repeat case_match; try done; lia.
Qed.

Lemma step_cont sym rest st b :
  0 < rest <= 5 -> 0 <= sym < 2 ^ 26 -> st = valid \/ st = may_be_overlong ->
  step (mk_checker sym rest st) (u8 b) = cont_spec sym rest st b.
Proof.
  intros Hr Hs Hst. pose proof (mask_facts_ok b) as Hm. unfold mask_facts in Hm.
  rewrite !andb_true_iff, !eqb_true_iff in Hm.
  destruct Hm as (((((H1 & _) & _) & _) & _) & H6).
  unfold step, process_byte, cont_spec. rewrite H1.
  destruct (is_cont b) eqn:Hc; simpl in H6 |- *.
  - rewrite check_overlong_cont by done. simpl.
    rewrite (proj2 (Z.ltb_lt 0 rest)) by lia.
    apply Z.eqb_eq in H6. rewrite H6. unfold wrap, is_cont in *.
    rewrite (Z.mod_small (Z.shiftl sym 6)) by (rewrite Z.shiftl_mul_pow2; lia).
    rewrite lor_shiftl_add by lia. change (2 ^ 6) with 64.
    destruct (bool_decide (st = valid) || (overlong_bound rest <=? u8 b)).
    + unfold validate_current_symbol, is_scalar, set_state; simpl.
      destruct (rest - 1 =? 0); [|done]. simpl.
      assert ((0 <=? sym * 64 + (u8 b - 128)) = true) as -> by lia.
      repeat case_match; simpl; try done; lia.
    + unfold validate_current_symbol, set_state; simpl.
      destruct (rest - 1 =? 0); [|done]. simpl. by repeat case_match.
  - destruct (check_overlong_fields (u8 b) sym rest st) as [st' ->]; simpl.
    by rewrite (proj2 (Z.ltb_lt 0 rest)) by lia.
Qed.

(** ** Whole symbols *)

Definition cont_value (sym : Z) (p : list byte) : Z :=
  fold_left (fun a b => a * 64 + (u8 b - 0x80)) p sym.

(** In a finalised run, [k] pending octets are [k] continuation octets and the
    completed symbol is a scalar value. *)
Lemma run_pending (k : nat) : forall sym s c,
  (0 < k <= 5)%nat -> 0 <= sym -> (sym + 1) * 64 ^ Z.of_nat k <= 2 ^ 32 ->
  run (mk_checker sym (Z.of_nat k) valid) s = Some c -> finalized c = true ->
  exists p s', s = p ++ s' /\ length p = k /\ Forall (fun b => is_cont b = true) p
    /\ is_scalar (cont_value sym p) = true
    /\ run (mk_checker (cont_value sym p) 0 valid) s' = Some c.
Proof.
  induction k as [|k IH]; intros sym s c Hk Hsym Hb Hrun Hfin; [lia|].
  rewrite Nat2Z.inj_succ, Z.pow_succ_r in Hb by lia.
  assert (1 <= 64 ^ Z.of_nat k) by (apply Z.lt_pred_le, Z.pow_pos_nonneg; lia).
  destruct s as [|b s].
  { simpl in Hrun. injection Hrun as <-. unfold finalized in Hfin. simpl in Hfin. lia. }
  rewrite run_cons, step_cont in Hrun by (auto; nia).
  unfold cont_spec in Hrun. destruct (is_cont b) eqn:Hc; [|done]. simpl in Hrun.
  assert (0 <= u8 b - 0x80 < 64) as Hv by (unfold is_cont in Hc; lia).
  replace (Z.of_nat (S k) - 1) with (Z.of_nat k) in Hrun by lia.
  destruct k as [|k].
  - simpl in Hrun. destruct (is_scalar _) eqn:Hs; [|done]. simpl in Hrun.
    exists [b], s. repeat split; auto.
  - assert ((Z.of_nat (S k) =? 0) = false) as Hz by (apply Z.eqb_neq; lia). rewrite Hz in Hrun. simpl in Hrun.
    apply IH in Hrun as (p & s' & -> & Hp & Hall & Hs & Hrun); [|lia|lia| |done].
    + exists (b :: p), s'. simpl. repeat split; auto.
    + rewrite (Nat2Z.inj_succ k) in *. rewrite Z.pow_succ_r in * by lia. nia.
Qed.

Lemma run_maybe_overlong rest s c :
  2 <= rest <= 5 ->
  run (mk_checker 0 rest may_be_overlong) s = Some c -> finalized c = true ->
  exists b s', s = b :: s' /\ overlong_bound rest <= u8 b < 0xC0 /\ 0x80 <= u8 b
    /\ run (mk_checker (u8 b - 0x80) (rest - 1) valid) s' = Some c.
Proof.
  intros Hr Hrun Hfin. destruct s as [|b s].
  { injection Hrun as <-. unfold finalized in Hfin; simpl in Hfin. lia. }
  rewrite run_cons, step_cont in Hrun by (auto; lia).
  unfold cont_spec in Hrun. destruct (is_cont b) eqn:Hc; [|done].
  unfold is_cont in Hc. simpl in Hrun.
  destruct (overlong_bound rest <=? u8 b) eqn:Ho; [|done].
  rewrite (proj2 (Z.eqb_neq (rest - 1) 0)) in Hrun by lia. simpl in Hrun.
  exists b, s. repeat split; auto; lia.
Qed.

Lemma encode1 b : u8 b < 0x80 -> encode (u8 b) = [b].
Proof. intros H. unfold encode. rewrite (proj2 (Z.ltb_lt _ _)) by lia. by autorewrite with octets. Qed.

Ltac solve_encode :=
  unfold encode, cont;
  repeat (rewrite (proj2 (Z.ltb_ge _ _)) by lia);
  rewrite ?(proj2 (Z.ltb_lt _ _)) by lia;
  repeat f_equal; apply b8_eq; Z.to_euclidean_division_equations; lia.

Lemma encode2 b b1 :
  0xC2 <= u8 b < 0xE0 -> 0x80 <= u8 b1 < 0xC0 ->
  encode ((u8 b - 0xC0) * 64 + (u8 b1 - 0x80)) = [b; b1].
Proof. intros. solve_encode. Qed.

Lemma encode3 b b1 b2 :
  0xE0 <= u8 b < 0xF0 -> 0x80 <= u8 b1 < 0xC0 -> 0x80 <= u8 b2 < 0xC0 ->
  0xE0 < u8 b \/ 0xA0 <= u8 b1 ->
  encode (((u8 b - 0xE0) * 64 + (u8 b1 - 0x80)) * 64 + (u8 b2 - 0x80)) = [b; b1; b2].
Proof. intros. solve_encode. Qed.

Lemma encode4 b b1 b2 b3 :
  0xF0 <= u8 b < 0xF8 -> 0x80 <= u8 b1 < 0xC0 -> 0x80 <= u8 b2 < 0xC0 ->
  0x80 <= u8 b3 < 0xC0 -> 0xF0 < u8 b \/ 0x90 <= u8 b1 ->
  encode ((((u8 b - 0xF0) * 64 + (u8 b1 - 0x80)) * 64 + (u8 b2 - 0x80)) * 64 + (u8 b3 - 0x80))
  = [b; b1; b2; b3].
Proof. intros. solve_encode. Qed.

Ltac pow_lia :=
  match goal with |- context [64 ^ Z.of_nat ?n] =>
    let v := eval vm_compute in (64 ^ Z.of_nat n) in
    change (64 ^ Z.of_nat n) with v end; lia.

(** Turn a run with [k] pending octets into [k] named continuation octets. *)
Ltac take_pending k H :=
  let p := fresh "p" in let Hl := fresh "Hl" in let Hall := fresh "Hall" in
  apply (run_pending k) in H as (p & ? & -> & Hl & Hall & ? & H); [|lia|lia|pow_lia|done];
  repeat (destruct p as [|? p]; simpl in Hl; try lia); clear Hl;
  repeat match type of Hall with
  | Forall _ (_ :: _) =>
      let Hb := fresh "Hb" in apply Forall_cons_iff in Hall as [Hb Hall];
      cbv beta delta [is_cont] in Hb; apply andb_prop in Hb as [?%Z.leb_le ?%Z.ltb_lt]
  end; clear Hall; cbn [cont_value fold_left app] in *.

Ltac take_maybe H :=
  apply run_maybe_overlong in H as (? & ? & -> & ? & ? & H); [|lia|done];
  match goal with Ho : overlong_bound ?r <= _ < _ |- _ =>
    let v := eval vm_compute in (overlong_bound r) in change (overlong_bound r) with v in Ho end;
  simpl in H.

(** Five- and six-octet forms never complete to a scalar value. *)
Lemma not_scalar_big v : 0x110000 <= v -> is_scalar v = true -> False.
Proof. unfold is_scalar. lia. Qed.

Lemma run_symbol sym b s c :
  run (mk_checker sym 0 valid) (b :: s) = Some c -> finalized c = true ->
  exists cp s', is_scalar cp = true /\ b :: s = encode cp ++ s'
    /\ run (mk_checker cp 0 valid) s' = Some c.
Proof.
  intros Hrun Hfin. rewrite run_cons, step_lead in Hrun. pose proof (u8_range b).
  unfold lead_spec in Hrun.
  destruct (u8 b <? 0x80) eqn:?; simpl in Hrun.
  { exists (u8 b), s. rewrite encode1 by lia. repeat split; auto. unfold is_scalar. lia. }
  destruct (u8 b <? 0xC2) eqn:?; [done|].
  destruct (u8 b <? 0xE0) eqn:?; simpl in Hrun.
  { take_pending 1%nat Hrun. do 2 eexists; split_and!; [eassumption| |eassumption].
    by rewrite encode2 by lia. }
  destruct (Z.eqb_spec (u8 b) 0xE0) as [HE|?]; simpl in Hrun.
  { take_maybe Hrun. take_pending 1%nat Hrun. do 2 eexists; split_and!; [eassumption| |eassumption].
    match goal with |- _ = encode ((u8 ?x - _) * 64 + (u8 ?y - _)) ++ _ =>
      pose proof (encode3 b x y) as E end.
    rewrite HE, Z.sub_diag, Z.mul_0_l, Z.add_0_l in E. by rewrite E by lia. }
  destruct (u8 b <? 0xF0) eqn:?; simpl in Hrun.
  { take_pending 2%nat Hrun. do 2 eexists; split_and!; [eassumption| |eassumption].
    by rewrite encode3 by lia. }
  destruct (Z.eqb_spec (u8 b) 0xF0) as [HE|?]; simpl in Hrun.
  { take_maybe Hrun. take_pending 2%nat Hrun. do 2 eexists; split_and!; [eassumption| |eassumption].
    match goal with |- _ = encode (((u8 ?x - _) * 64 + (u8 ?y - _)) * 64 + (u8 ?z - _)) ++ _ =>
      pose proof (encode4 b x y z) as E end.
    rewrite HE, Z.sub_diag, Z.mul_0_l, Z.add_0_l in E. by rewrite E by lia. }
  destruct (u8 b <? 0xF8) eqn:?; simpl in Hrun.
  { take_pending 3%nat Hrun. do 2 eexists; split_and!; [eassumption| |eassumption].
    by rewrite encode4 by lia. }
  exfalso. repeat case_match; simplify_eq/=.
  - take_maybe Hrun. take_pending 3%nat Hrun. eapply not_scalar_big; [|eassumption]; lia.
  - take_pending 4%nat Hrun. eapply not_scalar_big; [|eassumption]; lia.
  - take_maybe Hrun. take_pending 4%nat Hrun. eapply not_scalar_big; [|eassumption]; lia.
  - take_pending 5%nat Hrun. eapply not_scalar_big; [|eassumption]; lia.
Qed.

Lemma run_cont_step sym rest st z s :
  0 < rest <= 5 -> 0 <= sym < 2 ^ 26 ->
  st = valid \/ st = may_be_overlong /\ overlong_bound rest <= 0x80 + z mod 64 ->
  rest <> 1 \/ is_scalar (sym * 64 + z mod 64) = true ->
  run (mk_checker sym rest st) (cont z :: s)
  = run (mk_checker (sym * 64 + z mod 64) (rest - 1) valid) s.
Proof.
  intros Hr Hs Hst Hsc. pose proof (Z.mod_pos_bound z 64 eq_refl).
  rewrite run_cons, step_cont by (try done; destruct Hst as [| []]; auto).
  unfold cont_spec, is_cont, cont.
  rewrite u8_b8_small by lia.
  replace (0x80 + z mod 64 - 0x80) with (z mod 64) by lia.
  rewrite (proj2 (Z.leb_le 0x80 _)), (proj2 (Z.ltb_lt _ 0xC0)) by lia.
  assert (bool_decide (st = valid) || (overlong_bound rest <=? 0x80 + z mod 64) = true) as ->.
  { destruct Hst as [-> | [-> ?]]; [done|]. simpl. lia. }
  simpl. destruct (Z.eqb_spec (rest - 1) 0); [|done].
  destruct Hsc as [?| ->]; [lia|done].
Qed.

Ltac euclid := Z.to_euclidean_division_equations; lia.

Lemma lead2 x : 2 <= x < 32 -> lead_spec (0xC0 + x) = Some (mk_checker x 1 valid).
Proof.
  intros Hx. unfold lead_spec. rewrite !(proj2 (Z.ltb_ge _ _)), (proj2 (Z.ltb_lt _ _)) by lia.
  do 2 f_equal. lia.
Qed.

Lemma lead3 x : 0 <= x < 16 ->
  lead_spec (0xE0 + x) = Some (mk_checker x 2 (if x =? 0 then may_be_overlong else valid)).
Proof.
  intros Hx. unfold lead_spec. rewrite !(proj2 (Z.ltb_ge _ _)) by lia.
  destruct (Z.eqb_spec x 0) as [-> | ?]; [done|].
  rewrite (proj2 (Z.eqb_neq _ _)), (proj2 (Z.ltb_lt _ _)) by lia. do 2 f_equal. lia.
Qed.

Lemma lead4 x : 0 <= x < 8 ->
  lead_spec (0xF0 + x) = Some (mk_checker x 3 (if x =? 0 then may_be_overlong else valid)).
Proof.
  intros Hx. unfold lead_spec. rewrite !(proj2 (Z.ltb_ge _ _)) by lia.
  destruct (Z.eqb_spec x 0) as [-> | ?]; [done|].
  rewrite !(proj2 (Z.eqb_neq _ _)), (proj2 (Z.ltb_lt _ _)) by lia.
  do 2 f_equal. lia.
Qed.

(** The checker consumes the encoding of a scalar value and is idle again. *)
Lemma run_encode sym cp s :
  is_scalar cp = true ->
  run (mk_checker sym 0 valid) (encode cp ++ s) = run (mk_checker cp 0 valid) s.
Proof.
  intros Hs. pose proof Hs as Hs'. unfold is_scalar in Hs'. unfold encode.
  assert (E1 : cp / 64 * 64 + cp mod 64 = cp) by euclid.
  assert (E2 : cp / 4096 * 64 + (cp / 64) mod 64 = cp / 64) by euclid.
  assert (E3 : cp / 262144 * 64 + (cp / 4096) mod 64 = cp / 4096) by euclid.
  destruct (cp <? 0x80) eqn:?; [|destruct (cp <? 0x800) eqn:?; [|destruct (cp <? 0x10000) eqn:?]];
    cbn [app]; rewrite run_cons, step_lead, u8_b8_small by euclid.
  - unfold lead_spec. by rewrite (proj2 (Z.ltb_lt cp _)) by lia.
  - rewrite lead2 by euclid. cbn [mbind option_bind].
    rewrite run_cont_step by (rewrite ?E1; auto; euclid). by rewrite E1.
  - rewrite lead3 by euclid. cbn [mbind option_bind].
    rewrite run_cont_step; [|euclid|euclid| |lia].
    + rewrite E2. change (2 - 1) with 1.
      rewrite run_cont_step by (rewrite ?E1; auto; euclid). by rewrite E1.
    + destruct (Z.eqb_spec (cp / 4096) 0); [right|by left].
      split; [done|]. change (overlong_bound 2) with 0xA0. euclid.
  - rewrite lead4 by euclid. cbn [mbind option_bind].
    rewrite run_cont_step; [|euclid|euclid| |lia].
    + rewrite E3. change (3 - 1) with 2.
      rewrite run_cont_step by (auto; euclid). rewrite E2. change (2 - 1) with 1.
      rewrite run_cont_step by (rewrite ?E1; auto; euclid). by rewrite E1.
    + destruct (Z.eqb_spec (cp / 262144) 0); [right|by left].
      split; [done|]. change (overlong_bound 3) with 0x90. euclid.
Qed.

(** C32. [check_utf8_is_correct] accepts exactly the byte strings that are
    concatenations of shortest-form UTF-8 encodings of Unicode scalar values:
    it rejects overlong forms, surrogates, values above 0x10FFFF, stray or
    missing continuation octets, and nothing else. *)
Theorem check_utf8_iff (sv : list byte) :
  check_utf8_is_correct sv = true <->
  exists cps, forallb is_scalar cps = true /\ sv = flat_map encode cps.
Proof.
  unfold check_utf8_is_correct, initial. split.
  - destruct (run _ sv) as [c|] eqn:Hrun; [intros Hfin|done].
    revert Hrun. generalize 0 at 1. remember (length sv) as n eqn:Hn.
    revert sv Hn. induction (lt_wf n) as [n _ IH]. intros sv Hn sym Hrun.
    destruct sv as [|b s]; [by exists []|].
    apply run_symbol in Hrun as (cp & s' & Hs & E & Hrun); [|done].
    assert (length s' < n)%nat as Hlt.
    { subst n. rewrite E, length_app. unfold encode.
      destruct (cp <? 0x80), (cp <? 0x800), (cp <? 0x10000); simpl; lia. }
    destruct (IH _ Hlt s' eq_refl cp Hrun) as (cps & Hcps & ->).
    exists (cp :: cps). simpl. by rewrite Hs, E.
  - intros (cps & Hs & ->). generalize 0 at 1. induction cps as [|cp cps IH]; intros sym.
    + done.
    + simpl in Hs |- *. apply andb_prop in Hs as [Hcp Hs].
      rewrite run_encode by done. by apply IH.
Qed.

(** [reset] does not clear a recorded failure: after an octet that was
    rejected, ASCII input is still rejected. *)
Lemma process_byte_after_failure c b :
  m_state c = invalid \/ m_state c = overlong -> u8 b < 0x80 ->
  snd (process_byte (u8 b) (reset c)) = false.
Proof.
  intros Hc Hb. pose proof (u8_range b). destruct c as [sym rest st]; simpl in Hc.
  unfold reset, process_byte, check_overlong, set_state; simpl.
  rewrite !(proj2 (Z.eqb_neq (u8 b) _)) by lia. simpl.
  assert (Z.land (u8 b) 0x80 = 0) as ->.
  { assert (H80 : negb (u8 b <? 0x80) || (Z.land (u8 b) 0x80 =? 0) = true)
      by by apply (byte_all_true (fun b => negb (u8 b <? 0x80) || (Z.land (u8 b) 0x80 =? 0))).
    lia. }
  destruct Hc as [-> | ->]; done.
Qed.

(** ** States of a successful run

    Shared with the users of the checker that feed it octet by octet. *)

Definition accepts (c : utf8_checker_t) (p : list byte) : bool :=
  match run c p with Some c' => finalized c' | None => false end.

Definition reachable (c : utf8_checker_t) : Prop :=
  exists k : nat, (k <= 5)%nat /\ m_current_symbol_rest_bytes c = Z.of_nat k
    /\ 0 <= m_current_symbol c
    /\ (k = 0%nat -> m_state c = valid)
    /\ ((0 < k)%nat -> (m_current_symbol c + 1) * 64 ^ Z.of_nat k <= 2 ^ 32
                       /\ (m_state c = valid \/ m_state c = may_be_overlong)).

Lemma reachable_initial : reachable initial.
Proof. exists 0%nat. simpl. split_and!; try done; lia. Qed.

Lemma reachable_clean c :
  reachable c -> finalized c = true -> exists sym, c = mk_checker sym 0 valid.
Proof.
  intros (k & Hk & Hr & _ & H0 & _) Hf. unfold finalized in Hf. apply Z.eqb_eq in Hf.
  destruct c as [sym rest st]. simpl in *. assert (k = 0%nat) as -> by lia. simpl in Hr. subst rest.
  rewrite H0 by done. by exists sym.
Qed.

Lemma lead_spec_reachable b c : lead_spec (u8 b) = Some c -> reachable c.
Proof.
  pose proof (u8_range b). unfold lead_spec. intros H1. unfold reachable.
  repeat case_match; simplify_eq; simpl;
    match goal with |- exists k, _ /\ ?r = _ /\ _ => exists (Z.to_nat r) end;
    change (2 ^ 32) with 4294967296; simpl; split_and!; try done; try lia; intros; split; auto; try lia.
  all: rewrite Z2Nat.id by lia; change (64 ^ 1) with 64; change (64 ^ 2) with 4096;
    change (64 ^ 3) with 262144; change (64 ^ 4) with 16777216; change (64 ^ 5) with 1073741824; lia.
Qed.

Lemma reachable_step c b c' : reachable c -> step c (u8 b) = Some c' -> reachable c'.
Proof.
  intros (k & Hk & Hr & Hs & H0 & H1) Hstep. destruct c as [sym rest st]. simpl in *. subst rest.
  destruct k as [|k].
  - rewrite H0, step_lead in Hstep by done. by eapply lead_spec_reachable.
  - destruct H1 as [Hb Hst]; [lia|]. rewrite Nat2Z.inj_succ, Z.pow_succ_r in Hb by lia.
    assert (1 <= 64 ^ Z.of_nat k) by (apply Z.lt_pred_le, Z.pow_pos_nonneg; lia).
    rewrite step_cont in Hstep by (auto; lia || nia). unfold cont_spec in Hstep.
    destruct (is_cont b) eqn:Hc; [|done]. simpl in Hstep. unfold is_cont in Hc.
    destruct (bool_decide (st = valid) || _); [|done].
    destruct ((Z.of_nat (S k) - 1 =? 0) && _); [done|]. injection Hstep as <-.
    exists k. simpl. split_and!; try lia; try done.
    intros _. split; [nia|by left].
Qed.

Lemma reachable_reset c : reachable c -> finalized c = true -> reachable (reset c).
Proof.
  intros Hc Hf. destruct (reachable_clean c Hc Hf) as [sym ->]. apply reachable_initial.
Qed.

Lemma step_ascii c b :
  reachable c -> u8 b < 0x80 ->
  step c (u8 b) = if finalized c then Some (mk_checker (u8 b) 0 valid) else None.
Proof.
  intros Hc Hb. destruct (finalized c) eqn:Hf.
  - destruct (reachable_clean c Hc Hf) as [sym ->]. rewrite step_lead. unfold lead_spec.
    by rewrite (proj2 (Z.ltb_lt _ _)).
  - destruct Hc as (k & Hk & Hr & Hs & H0 & H1). destruct c as [sym rest st]. simpl in *. subst rest.
    unfold finalized in Hf. simpl in Hf. destruct k as [|k]; [done|].
    destruct H1 as [Hle Hst]; [lia|]. rewrite Nat2Z.inj_succ, Z.pow_succ_r in Hle by lia.
    assert (1 <= 64 ^ Z.of_nat k) by (apply Z.lt_pred_le, Z.pow_pos_nonneg; lia).
    rewrite step_cont by (auto; lia || nia). unfold cont_spec, is_cont.
    by rewrite (proj2 (Z.leb_gt _ _)) by lia.
Qed.

Lemma accepts_cons c b p :
  accepts c (b :: p) = match step c (u8 b) with Some c' => accepts c' p | None => false end.
Proof. unfold accepts. rewrite run_cons. by destruct (step c (u8 b)). Qed.

(** At a symbol boundary the last symbol does not matter. *)
Lemma accepts_clean c c' p :
  reachable c -> reachable c' -> finalized c = true -> finalized c' = true ->
  accepts c p = accepts c' p.
Proof.
  intros H1 H2 H3 H4. destruct (reachable_clean c H1 H3) as [s ->], (reachable_clean c' H2 H4) as [s' ->].
  destruct p as [|b p]; [done|]. by rewrite !accepts_cons, !step_lead.
Qed.

Lemma check_accepts p : check_utf8_is_correct p = accepts initial p.
Proof. done. Qed.

End Utf8.
