(* ===== verification/WsParser.v ===== *)
(** * WebSocket frame headers

    Model of src/web/restinio/restinio/websocket/impl/ws_parser.hpp (the
    incremental header parser, the header writer and the payload mask), of the
    opcodes and close codes of websocket/message.hpp.  The parser is related to a one-shot decoder
    written from the header layout. *)

From S2P Require Import Prelude Bitops.

(** ** Opcodes and close codes: websocket/message.hpp *)

Module Message.
Import Bitops.

(** [enum class opcode_t : std::uint8_t]: any value of the underlying type. *)
Definition opcode_t := Z.
Definition continuation_frame : opcode_t := 0x00.
Definition text_frame : opcode_t := 0x01.
Definition binary_frame : opcode_t := 0x02.
Definition connection_close_frame : opcode_t := 0x08.
Definition ping_frame : opcode_t := 0x09.
Definition pong_frame : opcode_t := 0x0A.
Definition unknown_frame : opcode_t := 0x0F.

Definition is_valid_opcode (opcode : opcode_t) : bool :=
  (opcode =? continuation_frame) || (opcode =? text_frame) || (opcode =? binary_frame)
  || (opcode =? connection_close_frame) || (opcode =? ping_frame) || (opcode =? pong_frame).

Inductive final_frame_flag_t := final_frame | not_final_frame.

Definition is_final (f : final_frame_flag_t) : bool :=
  match f with final_frame => true | not_final_frame => false end.

(** [enum class status_code_t : std::uint16_t] *)
Definition status_code_t := Z.

Definition status_code_to_bin (code : status_code_t) : list byte :=
  [byte_from 8 code; byte_from 0 code].

Definition status_code_from_bin (data : list byte) : status_code_t :=
  match data with
  | d0 :: d1 :: _ =>
      let result := Z.lor 0 (u8 d0) in
      let result := wrap 16 (Z.shiftl result 8) in
      Z.lor result (u8 d1)
  | _ => 0
  end.

End Message.

Module WsParser.
Import Bitops Message.

Definition websocket_first_two_bytes_size : Z := 2.
Definition websocket_max_payload_size_without_ext : Z := 125.
Definition websocket_short_ext_payload_length : Z := 2.
Definition websocket_long_ext_payload_length : Z := 8.
Definition websocket_short_ext_len_code : Z := 126.
Definition websocket_long_ext_len_code : Z := 127.
Definition websocket_masking_key_size : Z := 4.
Definition bit_flag_7 : Z := 0x80.
Definition bit_flag_6 : Z := 0x40.
Definition bit_flag_5 : Z := 0x20.
Definition bit_flag_4 : Z := 0x10.
Definition opcode_mask : Z := 0x0F.
Definition payload_len_mask : Z := 0x7F.

Record message_details_t := mk_details {
  m_final_flag : bool;
  m_rsv1_flag : bool;
  m_rsv2_flag : bool;
  m_rsv3_flag : bool;
  m_opcode : opcode_t;
  m_mask_flag : bool;
  m_payload_len : Z;      (* std::uint8_t *)
  m_ext_payload_len : Z;  (* std::uint64_t *)
  m_masking_key : Z       (* std::uint32_t *)
}.

Definition default_details : message_details_t :=
  mk_details true false false false continuation_frame false 0 0 0.

Definition payload_len (m : message_details_t) : Z :=
  if websocket_max_payload_size_without_ext <? m_payload_len m
  then m_ext_payload_len m else m_payload_len m.

Definition set_masking_key (value : Z) (m : message_details_t) : message_details_t :=
  mk_details (m_final_flag m) (m_rsv1_flag m) (m_rsv2_flag m) (m_rsv3_flag m) (m_opcode m)
    true (m_payload_len m) (m_ext_payload_len m) value.

(** The pair [(m_payload_len, m_ext_payload_len)] set by [init_payload_len]. *)
Definition init_payload_len (len : Z) : Z * Z :=
  if websocket_max_payload_size_without_ext <? len then
    (if 0xFFFF <? len then websocket_long_ext_len_code else websocket_short_ext_len_code,
     wrap 64 len)
  else (wrap 8 len, 0).

(** [message_details_t(final_flag, opcode, payload_len)] *)
Definition message_details (final_flag : final_frame_flag_t) (opcode : opcode_t) (len : Z)
  : message_details_t :=
  let '(l, e) := init_payload_len len in
  mk_details (is_final final_flag) false false false opcode false l e 0.

(** [message_details_t(final_flag, opcode, payload_len, masking_key)] *)
Definition message_details_masked (final_flag : final_frame_flag_t) (opcode : opcode_t)
  (len masking_key : Z) : message_details_t :=
  let '(l, e) := init_payload_len len in
  mk_details (is_final final_flag) false false false opcode true l e masking_key.

(** *** Data with expected size *)

Record expected_data_t := mk_expected {
  m_expected_size : Z;         (* size_t *)
  m_loaded_data : list byte    (* raw_data_t *)
}.

Definition size (d : list byte) : Z := Z.of_nat (length d).

Definition all_bytes_loaded (d : expected_data_t) : bool :=
  size (m_loaded_data d) =? m_expected_size d.

Definition add_byte_and_check_size (byte : byte) (d : expected_data_t)
  : outcome (expected_data_t * bool) :=
  if size (m_loaded_data d) =? m_expected_size d
  then Throw "Cannot add one more bytes to expected data."
  else let d' := mk_expected (m_expected_size d) (m_loaded_data d ++ [byte]) in
       Ok (d', all_bytes_loaded d').

Definition reset_expected (expected_size : Z) (d : expected_data_t) : expected_data_t :=
  mk_expected expected_size [].

(** [read_number_from_big_endian_bytes] into an unsigned integer of [w] bits. *)
Definition read_number_from_big_endian_bytes (w : Z) (data : list byte) : Z :=
  fold_left (fun number b => Z.lor (wrap w (Z.shiftl number 8)) (u8 b)) data 0.

(** [write_number_to_big_endian_bytes<Bytes>]: the octets appended to [data]. *)
Definition write_number_to_big_endian_bytes (Bytes : Z) (number : Z) (data : list byte)
  : list byte :=
  fold_left (fun data i =>
    let shift_value := (Bytes - i - 1) * 8 in
    data ++ [b8 (Z.land (Z.shiftr number shift_value) 0xFF)]) (seqZ 0 Bytes) data.

(** *** The parser *)

Inductive state_t :=
| waiting_for_first_2_bytes
| waiting_for_ext_len
| waiting_for_mask_key
| header_parsed_st.

#[global] Instance state_t_eq_dec : EqDecision state_t.
Proof. solve_decision. Defined.

Record ws_parser_t := mk_parser {
  m_expected_data : expected_data_t;
  m_current_msg : message_details_t;
  m_current_state : state_t
}.

Definition initial_parser : ws_parser_t :=
  mk_parser (mk_expected websocket_first_two_bytes_size []) default_details
    waiting_for_first_2_bytes.

Definition header_parsed (p : ws_parser_t) : bool :=
  bool_decide (m_current_state p = header_parsed_st).

Definition reset (p : ws_parser_t) : ws_parser_t :=
  mk_parser (reset_expected websocket_first_two_bytes_size (m_expected_data p))
    default_details waiting_for_first_2_bytes.

Definition current_message (p : ws_parser_t) : message_details_t := m_current_msg p.

Definition parse_first_2_bytes (data : list byte) (m : message_details_t) : message_details_t :=
  let d0 := u8 (nth 0 data x00) in
  let d1 := u8 (nth 1 data x00) in
  mk_details
    (negb (Z.land d0 bit_flag_7 =? 0))
    (negb (Z.land d0 bit_flag_6 =? 0))
    (negb (Z.land d0 bit_flag_5 =? 0))
    (negb (Z.land d0 bit_flag_4 =? 0))
    (Z.land d0 opcode_mask)
    (negb (Z.land d1 bit_flag_7 =? 0))
    (Z.land d1 payload_len_mask)
    (m_ext_payload_len m)
    (m_masking_key m).

Definition set_ext_payload_len (v : Z) (m : message_details_t) : message_details_t :=
  mk_details (m_final_flag m) (m_rsv1_flag m) (m_rsv2_flag m) (m_rsv3_flag m) (m_opcode m)
    (m_mask_flag m) (m_payload_len m) v (m_masking_key m).

Definition parse_ext_payload_len (len : Z) (data : list byte) (m : message_details_t)
  : message_details_t :=
  if len =? websocket_short_ext_len_code
  then set_ext_payload_len (read_number_from_big_endian_bytes 64 data) m
  else if len =? websocket_long_ext_len_code
  then set_ext_payload_len (read_number_from_big_endian_bytes 64 data) m
  else m.

(** Assigns [m_masking_key] only, unlike [set_masking_key]. *)
Definition parse_masking_key (mask_flag : bool) (data : list byte) (m : message_details_t)
  : message_details_t :=
  if mask_flag
  then mk_details (m_final_flag m) (m_rsv1_flag m) (m_rsv2_flag m) (m_rsv3_flag m)
         (m_opcode m) (m_mask_flag m) (m_payload_len m) (m_ext_payload_len m)
         (read_number_from_big_endian_bytes 32 data)
  else m.

Definition process_first_2_bytes (p : ws_parser_t) : ws_parser_t :=
  let m := parse_first_2_bytes (m_loaded_data (m_expected_data p)) (m_current_msg p) in
  let len := m_payload_len m in
  if websocket_max_payload_size_without_ext <? len then
    let expected_data_size :=
      if len =? websocket_short_ext_len_code
      then websocket_short_ext_payload_length else websocket_long_ext_payload_length in
    mk_parser (reset_expected expected_data_size (m_expected_data p)) m waiting_for_ext_len
  else if m_mask_flag m then
    mk_parser (reset_expected websocket_masking_key_size (m_expected_data p)) m
      waiting_for_mask_key
  else
    mk_parser (reset_expected len (m_expected_data p)) m header_parsed_st.

Definition process_extended_length (p : ws_parser_t) : ws_parser_t :=
  let m := parse_ext_payload_len (m_payload_len (m_current_msg p))
             (m_loaded_data (m_expected_data p)) (m_current_msg p) in
  if m_mask_flag m then
    mk_parser (reset_expected websocket_masking_key_size (m_expected_data p)) m
      waiting_for_mask_key
  else mk_parser (m_expected_data p) m header_parsed_st.

Definition process_masking_key (p : ws_parser_t) : ws_parser_t :=
  mk_parser (m_expected_data p)
    (parse_masking_key (m_mask_flag (m_current_msg p)) (m_loaded_data (m_expected_data p))
       (m_current_msg p))
    header_parsed_st.

Definition process_byte (byte : byte) (p : ws_parser_t) : outcome ws_parser_t :=
  let? (d, full) := add_byte_and_check_size byte (m_expected_data p) in
  let p' := mk_parser d (m_current_msg p) (m_current_state p) in
  if full then
    Ok match m_current_state p' with
       | waiting_for_first_2_bytes => process_first_2_bytes p'
       | waiting_for_ext_len => process_extended_length p'
       | waiting_for_mask_key => process_masking_key p'
       | header_parsed_st => p'
       end
  else Ok p'.

(** The loop of [parser_execute]; the result is the parser and the number of
    octets consumed. *)
Fixpoint parser_execute (data : list byte) (p : ws_parser_t) : outcome (ws_parser_t * Z) :=
  match data with
  | [] => Ok (p, 0)
  | byte :: data' =>
      if header_parsed p then Ok (p, 0)
      else let? p' := process_byte byte p in
           let? (q, n) := parser_execute data' p' in
           Ok (q, n + 1)
  end.

(** *** Payload mask and header writer *)

Definition mask_array (masking_key : Z) : list byte :=
  [byte_from 24 masking_key; byte_from 16 masking_key;
   byte_from 8 masking_key; byte_from 0 masking_key].

Definition xor_byte (a b : byte) : byte := b8 (Z.lxor (u8 a) (u8 b)).

(** The inner loop over [mask[j]]: the octets it rewrites and the rest. *)
Fixpoint mask_inner (mask payload : list byte) : list byte * list byte :=
  match mask, payload with
  | m :: mask', b :: payload' =>
      let '(d, r) := mask_inner mask' payload' in (xor_byte b m :: d, r)
  | _, _ => ([], payload)
  end.

Fixpoint mask_outer (fuel : nat) (mask payload : list byte) : list byte :=
  match fuel, payload with
  | S fuel', _ :: _ => let '(d, r) := mask_inner mask payload in d ++ mask_outer fuel' mask r
  | _, _ => payload
  end.

(** Each round of the outer loop consumes at least one octet, so the payload
    size bounds the number of rounds. *)
Definition mask_unmask_payload (masking_key : Z) (payload : list byte) : list byte :=
  mask_outer (length payload) (mask_array masking_key) payload.

Definition write_message_details (message : message_details_t) : list byte :=
  let byte := 0x00 in
  let byte := if m_final_flag message then Z.lor byte bit_flag_7 else byte in
  let byte := if m_rsv1_flag message then Z.lor byte bit_flag_6 else byte in
  let byte := if m_rsv2_flag message then Z.lor byte bit_flag_5 else byte in
  let byte := if m_rsv3_flag message then Z.lor byte bit_flag_4 else byte in
  let byte := Z.lor byte (Z.land (m_opcode message) opcode_mask) in
  let result := [b8 byte] in
  let byte := 0x00 in
  let byte := if m_mask_flag message then Z.lor byte bit_flag_7 else byte in
  let length := m_payload_len message in
  let result :=
    if length <? websocket_short_ext_len_code then
      result ++ [b8 (Z.lor byte length)]
    else if length =? websocket_short_ext_len_code then
      let result := result ++ [b8 (Z.lor byte websocket_short_ext_len_code)] in
      write_number_to_big_endian_bytes websocket_short_ext_payload_length
        (m_ext_payload_len message) result
    else if length =? websocket_long_ext_len_code then
      let result := result ++ [b8 (Z.lor byte websocket_long_ext_len_code)] in
      write_number_to_big_endian_bytes websocket_long_ext_payload_length
        (m_ext_payload_len message) result
    else result in
  if m_mask_flag message then
    let key := m_masking_key message in
    result ++ [byte_from 24 key; byte_from 16 key; byte_from 8 key; byte_from 0 key]
  else result.

(** ** Big-endian numbers *)

Definition be_value (l : list byte) : Z := fold_left (fun a b => a * 256 + u8 b) l 0.

Fixpoint be_bytes (n : nat) (k : Z) : list byte :=
  match n with O => [] | S n' => be_bytes n' (k / 256) ++ [b8 k] end.

Lemma be_value_snoc l b : be_value (l ++ [b]) = be_value l * 256 + u8 b.
Proof. unfold be_value. by rewrite fold_left_app. Qed.

Lemma be_value_bound l : 0 <= be_value l < 256 ^ Z.of_nat (length l).
Proof.
  induction l as [|b l IH] using rev_ind; [done|].
  rewrite be_value_snoc, length_app, Nat2Z.inj_add, Z.pow_add_r by lia.
  change (256 ^ Z.of_nat (length [b])) with 256. pose proof (u8_range b). lia.
Qed.

Lemma be_value_bytes n k : be_value (be_bytes n k) = k mod 256 ^ Z.of_nat n.
Proof.
  revert k. induction n as [|n IH]; intros k.
  - by rewrite Z.mod_1_r.
  - cbn [be_bytes]. rewrite be_value_snoc, IH, u8_b8, Nat2Z.inj_succ, Z.pow_succ_r by lia.
    rewrite Z.rem_mul_r by lia. lia.
Qed.

Lemma length_be_bytes n k : length (be_bytes n k) = n.
Proof. revert k. induction n; intros k; simpl; [done|]. rewrite length_app, IHn. simpl. lia. Qed.

(** [read_number_from_big_endian_bytes] is exact when the target is wide enough. *)
Lemma read_number_be w data :
  8 * size data <= w -> read_number_from_big_endian_bytes w data = be_value data.
Proof.
  unfold size. induction data as [|b data IH] using rev_ind; [done|].
  rewrite length_app, be_value_snoc. simpl. intros Hw.
  unfold read_number_from_big_endian_bytes in *. rewrite fold_left_app. simpl.
  rewrite IH by lia. pose proof (be_value_bound data) as Hb. pose proof (u8_range b).
  unfold wrap. rewrite Z.mod_small.
  - by rewrite lor_shiftl_add by lia.
  - rewrite Z.shiftl_mul_pow2 by lia. split; [lia|].
    apply Z.lt_le_trans with (256 ^ Z.of_nat (length data) * 2 ^ 8); [lia|].
    change 256 with (2 ^ 8). rewrite <- Z.pow_mul_r, <- Z.pow_add_r by lia.
    apply Z.pow_le_mono_r; lia.
Qed.

Lemma write_number_be n k data :
  write_number_to_big_endian_bytes (Z.of_nat n) k data = data ++ be_bytes n k.
Proof.
  unfold write_number_to_big_endian_bytes.
  rewrite (fold_left_snoc (fun i => b8 (Z.land (Z.shiftr k ((Z.of_nat n - i - 1) * 8)) 0xFF))).
  f_equal. revert k. induction n as [|n IH]; intros k; [done|].
  rewrite Nat2Z.inj_succ, <- Z.add_1_r, seqZ_app by lia. rewrite map_app. cbn [be_bytes]. f_equal.
  - rewrite <- IH. apply map_ext_in. intros i Hi%list_elem_of_In%elem_of_seqZ.
    do 2 f_equal. change 256 with (2 ^ 8).
    rewrite <- Z.shiftr_div_pow2, Z.shiftr_shiftr by lia.
    f_equal. lia.
  - change (seqZ (0 + Z.of_nat n) 1) with [Z.of_nat n]. cbn [map].
    rewrite b8_land_255. replace ((Z.of_nat n + 1 - Z.of_nat n - 1) * 8) with 0 by lia.
    by rewrite Z.shiftr_0_r.
Qed.

(** ** The parser against a one-shot decoder *)

Definition testflag (b : byte) (i : Z) : bool := Z.testbit (u8 b) i.

(** The header layout: flags and opcode, mask bit and length code, then an
    extended length of 0, 2 or 8 octets and a masking key of 0 or 4 octets. *)
Definition ext_size (code : Z) : nat :=
  if code <=? 125 then 0 else if code =? 126 then 2 else 8.

Definition decode_header (data : list byte) : option (message_details_t * Z) :=
  match data with
  | b0 :: b1 :: t =>
      let code := u8 b1 mod 128 in
      let masked := testflag b1 7 in
      let en := ext_size code in
      let kn := if masked then 4%nat else O in
      if decide (en + kn <= length t)%nat then
        Some (mk_details (testflag b0 7) (testflag b0 6) (testflag b0 5) (testflag b0 4)
                (u8 b0 mod 16) masked code
                (be_value (take en t)) (be_value (take kn (drop en t))),
              2 + Z.of_nat (en + kn))
      else None
  | _ => None
  end.

Lemma parse_first_2_bytes_spec b0 b1 m :
  parse_first_2_bytes [b0; b1] m
  = mk_details (testflag b0 7) (testflag b0 6) (testflag b0 5) (testflag b0 4)
      (u8 b0 mod 16) (testflag b1 7) (u8 b1 mod 128) (m_ext_payload_len m) (m_masking_key m).
Proof.
  unfold parse_first_2_bytes, testflag. simpl.
  assert (Hf : forall b,
    (Bool.eqb (negb (Z.land (u8 b) bit_flag_7 =? 0)) (Z.testbit (u8 b) 7)
    && Bool.eqb (negb (Z.land (u8 b) bit_flag_6 =? 0)) (Z.testbit (u8 b) 6)
    && Bool.eqb (negb (Z.land (u8 b) bit_flag_5 =? 0)) (Z.testbit (u8 b) 5)
    && Bool.eqb (negb (Z.land (u8 b) bit_flag_4 =? 0)) (Z.testbit (u8 b) 4)
    && (Z.land (u8 b) opcode_mask =? u8 b mod 16)
    && (Z.land (u8 b) payload_len_mask =? u8 b mod 128)) = true).
  { by apply byte_all_true. }
  pose proof (Hf b0) as H0. pose proof (Hf b1) as H1.
  rewrite !andb_true_iff, !eqb_true_iff, !Z.eqb_eq in H0, H1.
  destruct H0 as (((((H7 & H6) & H5) & H4) & Ho) & _), H1 as (((((H7' & _) & _) & _) & _) & Hl).
  by rewrite H7, H6, H5, H4, Ho, H7', Hl.
Qed.

(** Reading a buffer in two pieces is reading it in one. *)
Lemma parser_execute_app a b p :
  parser_execute (a ++ b) p =
  let? (q, n) := parser_execute a p in
  let? (r, k) := parser_execute b q in Ok (r, n + k).
Proof.
  revert p. induction a as [|x a IH]; intros p; simpl.
  - destruct (parser_execute b p) as [[r k]|]; done.
  - destruct (header_parsed p) eqn:Hp.
    + destruct b; simpl; [done|]. by rewrite Hp.
    + destruct (process_byte x p) as [p'|]; [|done]. rewrite IH.
      destruct (parser_execute a p') as [[q n]|]; [|done].
      destruct (parser_execute b q) as [[r k]|]; [|done]. do 2 f_equal. lia.
Qed.

(** What the parser does when the expected octets are complete. *)
Definition complete (p : ws_parser_t) : ws_parser_t :=
  match m_current_state p with
  | waiting_for_first_2_bytes => process_first_2_bytes p
  | waiting_for_ext_len => process_extended_length p
  | waiting_for_mask_key => process_masking_key p
  | header_parsed_st => p
  end.

Lemma execute_partial n l data m st :
  st <> header_parsed_st -> (length l + length data < n)%nat ->
  parser_execute data (mk_parser (mk_expected (Z.of_nat n) l) m st)
  = Ok (mk_parser (mk_expected (Z.of_nat n) (l ++ data)) m st, size data).
Proof.
  intros Hst. unfold size. revert l. induction data as [|b data IH]; intros l Hl; simpl in *.
  - by rewrite app_nil_r.
  - unfold header_parsed; simpl. rewrite bool_decide_eq_false_2 by done.
    unfold process_byte, add_byte_and_check_size, all_bytes_loaded, size; simpl.
    rewrite (proj2 (Z.eqb_neq _ _)) by lia. rewrite length_app; simpl.
    rewrite (proj2 (Z.eqb_neq _ _)) by lia.
    rewrite IH by (rewrite ?length_app; simpl; lia).
    rewrite <- app_assoc. do 2 f_equal. lia.
Qed.

Lemma execute_full n l data m st :
  st <> header_parsed_st -> (length l < n)%nat -> (length l + length data = n)%nat ->
  parser_execute data (mk_parser (mk_expected (Z.of_nat n) l) m st)
  = Ok (complete (mk_parser (mk_expected (Z.of_nat n) (l ++ data)) m st), size data).
Proof.
  intros Hst Hl Hn. destruct data as [|b data _] using rev_ind; [simpl in Hn; lia|].
  rewrite length_app in Hn. simpl in Hn.
  rewrite parser_execute_app, execute_partial by (done || lia). simpl.
  unfold header_parsed; simpl. rewrite bool_decide_eq_false_2 by done.
  unfold process_byte, add_byte_and_check_size, all_bytes_loaded, size; simpl.
  rewrite !length_app; simpl. rewrite (proj2 (Z.eqb_neq _ _)) by lia.
  rewrite (proj2 (Z.eqb_eq _ _)) by lia. rewrite <- app_assoc. do 2 f_equal. lia.
Qed.

Lemma execute_section (n : nat) m st t :
  st <> header_parsed_st -> (0 < n)%nat -> (n <= length t)%nat ->
  parser_execute t (mk_parser (mk_expected (Z.of_nat n) []) m st)
  = let? (r, k) := parser_execute (drop n t)
                     (complete (mk_parser (mk_expected (Z.of_nat n) (take n t)) m st)) in
    Ok (r, Z.of_nat n + k).
Proof.
  intros Hst Hn Ht. rewrite <- (take_drop n t) at 1.
  rewrite parser_execute_app, execute_full; simpl; rewrite ?length_take; [|done|lia|lia].
  unfold size. rewrite length_take. by replace (n `min` length t)%nat with n by lia.
Qed.

Lemma execute_done t d m :
  parser_execute t (mk_parser d m header_parsed_st) = Ok (mk_parser d m header_parsed_st, 0).
Proof. by destruct t. Qed.

(** The outcome the decoder predicts for a parser run. *)
Definition run_spec (o : option (message_details_t * Z)) (len : Z)
  (r : outcome (ws_parser_t * Z)) : Prop :=
  match o with
  | Some (m, n) => exists d, r = Ok (mk_parser d m header_parsed_st, n)
  | None => exists p, r = Ok (p, len) /\ header_parsed p = false
  end.

Lemma execute_mask_key m t :
  m_mask_flag m = true ->
  run_spec
    (if decide (4 <= length t)%nat
     then Some (mk_details (m_final_flag m) (m_rsv1_flag m) (m_rsv2_flag m) (m_rsv3_flag m)
                  (m_opcode m) true (m_payload_len m) (m_ext_payload_len m)
                  (be_value (take 4 t)), 4)
     else None)
    (size t) (parser_execute t (mk_parser (mk_expected 4 []) m waiting_for_mask_key)).
Proof.
  intros Hm. change 4 with (Z.of_nat 4). destruct (decide _) as [Ht|Ht]; simpl.
  - rewrite execute_section by (done || lia). cbn [complete m_current_state process_masking_key].
    unfold complete, process_masking_key, parse_masking_key. simpl. rewrite Hm, execute_done.
    rewrite read_number_be by (unfold size; rewrite length_take; lia). by eexists.
  - rewrite execute_partial by (done || simpl; lia). by eexists.
Qed.

Lemma ext_size_pos code :
  0 <= code < 128 -> (125 <? code) = true ->
  (if code =? websocket_short_ext_len_code then websocket_short_ext_payload_length
   else websocket_long_ext_payload_length) = Z.of_nat (ext_size code)
  /\ (0 < ext_size code <= 8)%nat.
Proof.
  unfold ext_size, websocket_short_ext_len_code. intros H1 H2.
  rewrite (proj2 (Z.leb_gt _ _)) by lia. destruct (code =? 126); split; done || lia.
Qed.

Lemma execute_ext_len m t :
  125 < m_payload_len m < 128 ->
  run_spec
    (let en := ext_size (m_payload_len m) in
     let kn := if m_mask_flag m then 4%nat else O in
     if decide (en + kn <= length t)%nat
     then Some (mk_details (m_final_flag m) (m_rsv1_flag m) (m_rsv2_flag m) (m_rsv3_flag m)
                  (m_opcode m) (m_mask_flag m) (m_payload_len m) (be_value (take en t))
                  (if m_mask_flag m then be_value (take 4 (drop en t)) else m_masking_key m),
                Z.of_nat (en + kn))
     else None)
    (size t)
    (parser_execute t (mk_parser (mk_expected (Z.of_nat (ext_size (m_payload_len m))) []) m
                         waiting_for_ext_len)).
Proof.
  intros Hlen. cbv zeta. destruct (ext_size_pos (m_payload_len m)) as [_ Hpos]; [lia|lia|].
  set (en := ext_size (m_payload_len m)) in *.
  destruct (decide (en <= length t)%nat) as [He|He].
  2:{ rewrite decide_False by lia. rewrite execute_partial by (done || simpl; lia). by eexists. }
  rewrite execute_section by (done || lia).
  unfold complete, process_extended_length, parse_ext_payload_len. simpl.
  assert (Hread : read_number_from_big_endian_bytes 64 (take en t) = be_value (take en t)).
  { apply read_number_be. unfold size. rewrite length_take. lia. }
  assert (Hcode : m_payload_len m = 126 \/ m_payload_len m = 127) by lia.
  assert ((if m_payload_len m =? websocket_short_ext_len_code then _
    else if m_payload_len m =? websocket_long_ext_len_code then _ else m)
    = set_ext_payload_len (be_value (take en t)) m) as ->.
  { rewrite Hread. destruct Hcode as [-> | ->]; done. }
  change (m_mask_flag (set_ext_payload_len _ m)) with (m_mask_flag m).
  destruct (m_mask_flag m) eqn:Hm; simpl.
  - unfold reset_expected, websocket_masking_key_size.
    pose proof (execute_mask_key (set_ext_payload_len (be_value (take en t)) m) (drop en t) Hm) as Hk.
    unfold size in Hk. rewrite length_drop in Hk.
    destruct (decide (4 <= length t - en)%nat), (decide (en + 4 <= length t)%nat); try lia; simpl in Hk.
    + destruct Hk as [d ->]. exists d. do 2 f_equal. lia.
    + destruct Hk as (p & -> & Hp). exists p. split; [|done]. unfold size. do 2 f_equal. lia.
  - rewrite execute_done, decide_True by lia. eexists. do 2 f_equal; [by rewrite <- Hm|lia].
Qed.

Lemma execute_initial (data : list byte) :
  run_spec (decode_header data) (size data) (parser_execute data initial_parser).
Proof.
  unfold initial_parser.
  change websocket_first_two_bytes_size with (Z.of_nat 2).
  destruct data as [|b0 [|b1 t]]; [by eexists|by eexists|].
  rewrite execute_section by (done || simpl; lia). cbn [take drop decode_header].
  rewrite drop_0.
  unfold complete, process_first_2_bytes. cbn [m_current_state m_expected_data m_loaded_data m_current_msg].
  rewrite parse_first_2_bytes_spec. cbn [m_payload_len m_mask_flag].
  set (code := u8 b1 mod 128).
  assert (0 <= code < 128) by (apply Z.mod_pos_bound; lia).
  set (m := mk_details _ _ _ _ _ _ _ (m_ext_payload_len default_details) _).
  destruct (websocket_max_payload_size_without_ext <? code) eqn:Hc;
    unfold websocket_max_payload_size_without_ext in Hc.
  - destruct (ext_size_pos code) as [-> _]; [lia|done|].
    pose proof (execute_ext_len m t) as He. unfold reset_expected.
    change (m_payload_len m) with code in He. specialize (He ltac:(lia)).
    cbv zeta in He. change (m_mask_flag m) with (testflag b1 7) in He.
    unfold size in *. cbn [length] in *.
    destruct (decide _); cbn [run_spec] in He |- *.
    + destruct He as [d ->]. exists d. by destruct (testflag b1 7).
    + destruct He as (q & -> & ?). exists q. split; [|done]. do 2 f_equal. lia.
  - assert (ext_size code = O) as -> by (unfold ext_size; by rewrite (proj2 (Z.leb_le _ _)) by lia).
    cbn [take drop plus]. unfold reset_expected, websocket_masking_key_size.
    destruct (testflag b1 7) eqn:Hm.
    + pose proof (execute_mask_key m t eq_refl) as Hk. unfold size in *. cbn [length] in *.
      destruct (decide _); cbn [run_spec] in Hk |- *.
      * destruct Hk as [d ->]. by exists d.
      * destruct Hk as (q & -> & ?). exists q. split; [|done]. do 2 f_equal. lia.
    + rewrite decide_True by lia. rewrite execute_done. simpl. subst m. by eexists.
Qed.

(** The incremental header parser, started after construction or [reset]
    and fed any octets, never throws and computes the header of the RFC layout:
    when the input holds a complete header the parser stops right behind it
    with that header decoded, otherwise it consumes everything and waits. *)
Theorem parser_execute_decodes (p : ws_parser_t) (data : list byte) :
  run_spec (decode_header data) (size data) (parser_execute data (reset p)).
Proof. exact (execute_initial data). Qed.

(** Feeding a sequence of network reads one after the other. *)
Fixpoint execute_chunks (chunks : list (list byte)) (p : ws_parser_t)
  : outcome (ws_parser_t * Z) :=
  match chunks with
  | [] => Ok (p, 0)
  | c :: cs => let? (q, n) := parser_execute c p in
               let? (r, k) := execute_chunks cs q in Ok (r, n + k)
  end.

(** The parser may be fed any fragmentation of the stream: reading the
    pieces one after the other gives the same parser state, the same number of
    consumed octets and the same exceptions as reading their concatenation. *)
Theorem execute_chunks_concat (chunks : list (list byte)) (p : ws_parser_t) :
  execute_chunks chunks p = parser_execute (concat chunks) p.
Proof.
  revert p. induction chunks as [|c cs IH]; intros p; simpl; [done|].
  rewrite parser_execute_app. destruct (parser_execute c p) as [[q n]|]; [|done].
  by rewrite IH.
Qed.

(** ** Writing and reading back *)

(** Headers a frame can carry: a length code that agrees with the extended
    length, an opcode of four bits and a key only with the mask flag. *)
Definition wire_ok (m : message_details_t) : Prop :=
  0 <= m_opcode m < 16 /\ 0 <= m_masking_key m < 2 ^ 32
  /\ (m_mask_flag m = false -> m_masking_key m = 0)
  /\ (0 <= m_payload_len m <= 125 /\ m_ext_payload_len m = 0
      \/ m_payload_len m = 126 /\ 0 <= m_ext_payload_len m < 2 ^ 16
      \/ m_payload_len m = 127 /\ 0 <= m_ext_payload_len m < 2 ^ 64).

Definition wire0 (f r1 r2 r3 : bool) (o : Z) : Z :=
  let b := 0x00 in
  let b := if f then Z.lor b bit_flag_7 else b in
  let b := if r1 then Z.lor b bit_flag_6 else b in
  let b := if r2 then Z.lor b bit_flag_5 else b in
  let b := if r3 then Z.lor b bit_flag_4 else b in
  Z.lor b (Z.land o opcode_mask).

Definition wire1 (f : bool) (len : Z) : Z :=
  Z.lor (if f then Z.lor 0x00 bit_flag_7 else 0x00) len.

Lemma wire0_ok f r1 r2 r3 o :
  0 <= o < 16 ->
  let b := b8 (wire0 f r1 r2 r3 o) in
  testflag b 7 = f /\ testflag b 6 = r1 /\ testflag b 5 = r2 /\ testflag b 4 = r3
  /\ u8 b mod 16 = o.
Proof.
  set (ok := fun o => let b := b8 (wire0 f r1 r2 r3 o) in
    Bool.eqb (testflag b 7) f && Bool.eqb (testflag b 6) r1 && Bool.eqb (testflag b 5) r2
    && Bool.eqb (testflag b 4) r3 && (u8 b mod 16 =? o)).
  intros Ho. assert (H : ok o = true).
  { apply (seqZ_all ok 16); [|done]. destruct f, r1, r2, r3; reflexivity. }
  unfold ok in H. cbv zeta in *. rewrite !andb_true_iff, !eqb_true_iff, Z.eqb_eq in H. tauto.
Qed.

Lemma wire1_ok f len :
  0 <= len < 128 -> let b := b8 (wire1 f len) in testflag b 7 = f /\ u8 b mod 128 = len.
Proof.
  set (ok := fun len => let b := b8 (wire1 f len) in
    Bool.eqb (testflag b 7) f && (u8 b mod 128 =? len)).
  intros Hl. assert (H : ok len = true).
  { apply (seqZ_all ok 128); [|done]. destruct f; reflexivity. }
  unfold ok in H. cbv zeta in *. by rewrite andb_true_iff, eqb_true_iff, Z.eqb_eq in H.
Qed.

Lemma mask_array_be key : mask_array key = be_bytes 4 key.
Proof.
  unfold mask_array. cbn [be_bytes app]. repeat f_equal; apply u8_inj;
    rewrite u8_byte_from, u8_b8 by lia; rewrite ?Z.div_div by lia; try done.
  by rewrite Z.div_1_r.
Qed.

(** The writer, as two octets followed by the big-endian fields. *)
Lemma write_message_details_layout m :
  wire_ok m ->
  write_message_details m
  = b8 (wire0 (m_final_flag m) (m_rsv1_flag m) (m_rsv2_flag m) (m_rsv3_flag m) (m_opcode m))
    :: b8 (wire1 (m_mask_flag m) (m_payload_len m))
    :: be_bytes (ext_size (m_payload_len m)) (m_ext_payload_len m)
    ++ be_bytes (if m_mask_flag m then 4 else 0) (m_masking_key m).
Proof.
  intros (Ho & Hk & Hnk & Hl). unfold write_message_details.
  change (Z.lor _ (Z.land (m_opcode m) opcode_mask)) with
    (wire0 (m_final_flag m) (m_rsv1_flag m) (m_rsv2_flag m) (m_rsv3_flag m) (m_opcode m)).
  fold (mask_array (m_masking_key m)). rewrite mask_array_be.
  unfold wire1, ext_size. destruct Hl as [[Hl _] | [[-> Hl] | [-> Hl]]].
  - rewrite (proj2 (Z.ltb_lt _ _)), (proj2 (Z.leb_le _ _)) by (unfold websocket_short_ext_len_code; lia).
    by destruct (m_mask_flag m).
  - change websocket_short_ext_payload_length with (Z.of_nat 2). rewrite write_number_be.
    by destruct (m_mask_flag m).
  - change websocket_long_ext_payload_length with (Z.of_nat 8). rewrite write_number_be.
    by destruct (m_mask_flag m).
Qed.

Lemma decode_write m rest :
  wire_ok m ->
  decode_header (write_message_details m ++ rest) = Some (m, size (write_message_details m)).
Proof.
  intros Hm. rewrite write_message_details_layout by done.
  destruct Hm as (Ho & Hk & Hnk & Hl). unfold size. cbn [app decode_header length].
  destruct (wire0_ok (m_final_flag m) (m_rsv1_flag m) (m_rsv2_flag m) (m_rsv3_flag m)
              (m_opcode m) Ho) as (-> & -> & -> & -> & ->).
  destruct (wire1_ok (m_mask_flag m) (m_payload_len m)) as [-> ->]; [lia|].
  set (en := ext_size (m_payload_len m)). set (kn := if m_mask_flag m then 4%nat else O).
  rewrite <- app_assoc, decide_True by (rewrite !length_app, !length_be_bytes; lia).
  rewrite take_app_length' by (symmetry; apply length_be_bytes).
  rewrite drop_app_length' by (symmetry; apply length_be_bytes).
  rewrite take_app_length' by (symmetry; apply length_be_bytes).
  rewrite !be_value_bytes, length_app, !length_be_bytes.
  assert (m_ext_payload_len m mod 256 ^ Z.of_nat en = m_ext_payload_len m) as ->.
  { subst en. unfold ext_size. destruct Hl as [[? ->] | [[-> Hl] | [-> Hl]]].
    - apply Z.mod_0_l. apply Z.pow_nonzero; lia.
    - by apply Z.mod_small.
    - by apply Z.mod_small. }
  assert (m_masking_key m mod 256 ^ Z.of_nat kn = m_masking_key m) as ->.
  { subst kn. destruct (m_mask_flag m); [by apply Z.mod_small|]. by rewrite Hnk. }
  destruct m; simpl. do 3 f_equal. lia.
Qed.

(** C31. Writing a frame header and parsing it back: on the octets of
    [write_message_details m] followed by anything, a fresh parser accepts,
    consumes exactly the header and has [m] as its current message. *)
Theorem header_roundtrip (m : message_details_t) (rest : list byte) (p : ws_parser_t) :
  wire_ok m ->
  exists d, parser_execute (write_message_details m ++ rest) (reset p)
    = Ok (mk_parser d m header_parsed_st, size (write_message_details m)).
Proof.
  intros Hm. pose proof (execute_initial (write_message_details m ++ rest)) as H.
  by rewrite decode_write in H by done.
Qed.

Lemma init_payload_len_ok len l e :
  0 <= len < 2 ^ 64 -> init_payload_len len = (l, e) ->
  (if 125 <? l then e else l) = len
  /\ (0 <= l <= 125 /\ e = 0 \/ l = 126 /\ 0 <= e < 2 ^ 16 \/ l = 127 /\ 0 <= e < 2 ^ 64).
Proof.
  unfold init_payload_len, websocket_max_payload_size_without_ext, websocket_long_ext_len_code,
    websocket_short_ext_len_code, wrap. intros Hlen.
  destruct (Z.ltb_spec 125 len); [destruct (Z.ltb_spec 0xFFFF len)|]; intros [= <- <-];
    rewrite ?(Z.mod_small len) by lia; simpl; try (split; [done|lia]).
  rewrite (proj2 (Z.ltb_ge _ _)) by lia. split; [done|lia].
Qed.

(** The two constructors of [message_details_t] build, for every payload
    length below 2^64 and every opcode of four bits, a header that can be
    written and parsed back and whose [payload_len] is the given length: the
    7-bit, 16-bit and 64-bit length forms are chosen consistently. *)
Theorem constructed_header_ok (final_flag : final_frame_flag_t) (opcode : opcode_t) (len key : Z) :
  0 <= opcode < 16 -> 0 <= len < 2 ^ 64 -> 0 <= key < 2 ^ 32 ->
  let m := message_details final_flag opcode len in
  let mk := message_details_masked final_flag opcode len key in
  wire_ok m /\ payload_len m = len /\ m_mask_flag m = false
  /\ wire_ok mk /\ payload_len mk = len /\ m_mask_flag mk = true /\ m_masking_key mk = key.
Proof.
  intros Ho Hlen Hk. unfold message_details, message_details_masked.
  destruct (init_payload_len len) as [l e] eqn:E.
  apply init_payload_len_ok in E as [Hp Hl]; [|done].
  cbv zeta. unfold wire_ok, payload_len, websocket_max_payload_size_without_ext; simpl.
  split_and!; try done; try lia.
Qed.

(** ** The payload mask *)

Lemma xor_byte_involutive a m : xor_byte (xor_byte a m) m = a.
Proof.
  apply Byte.byte_dec_bl.
  apply (byte_all2_true (fun a m => Byte.eqb (xor_byte (xor_byte a m) m) a)).
  vm_compute. reflexivity.
Qed.

Definition mask_spec (mask payload : list byte) : list byte :=
  imap (fun i b => xor_byte b (nth (i mod 4) mask x00)) payload.

Lemma mask_outer_spec fuel m0 m1 m2 m3 payload :
  (length payload <= fuel)%nat ->
  mask_outer fuel [m0; m1; m2; m3] payload = mask_spec [m0; m1; m2; m3] payload.
Proof.
  revert payload. induction fuel as [|fuel IH]; intros payload Hl.
  { by destruct payload; simpl in *; [|lia]. }
  destruct payload as [|a [|b [|c [|d t]]]]; try done; [by destruct fuel..|].
  simpl in Hl. cbn [mask_outer mask_inner app]. rewrite IH by lia.
  unfold mask_spec. rewrite !imap_cons. do 4 f_equal. apply imap_ext. intros i x Hx.
  unfold compose. do 2 f_equal. change (S (S (S (S i)))) with (4 + i)%nat.
  assert ((4 + i) mod 4 = i mod 4)%nat as ->; [|done].
  rewrite Nat.add_comm. apply (Nat.Div0.mod_add i 1 4).
Qed.

Lemma mask_unmask_payload_mask key payload :
  mask_unmask_payload key payload = mask_spec (mask_array key) payload.
Proof. by apply mask_outer_spec. Qed.

(** [mask_unmask_payload] xors octet [i] with octet [i mod 4] of the key
    (most significant first), so it keeps the length and unmasking is masking
    again with the same key. *)
Theorem mask_unmask_payload_spec (key : Z) (payload : list byte) :
  mask_unmask_payload key payload = mask_spec (be_bytes 4 key) payload
  /\ length (mask_unmask_payload key payload) = length payload
  /\ mask_unmask_payload key (mask_unmask_payload key payload) = payload.
Proof.
  assert (E : forall p, mask_unmask_payload key p = mask_spec (be_bytes 4 key) p).
  { intros p. rewrite <- mask_array_be. apply mask_unmask_payload_mask. }
  rewrite !E. unfold mask_spec. split; [done|]. split; [apply length_imap|].
  apply list_eq. intros i. rewrite !list_lookup_imap. destruct (payload !! i); [|done].
  simpl. f_equal. apply xor_byte_involutive.
Qed.

(** ** Close codes *)

(** A close code of 16 bits survives serialisation. *)
Lemma status_code_roundtrip code rest :
  0 <= code < 2 ^ 16 -> status_code_from_bin (status_code_to_bin code ++ rest) = code.
Proof.
  intros Hc. simpl. rewrite !u8_byte_from by lia. change (2 ^ 0) with 1. rewrite Z.div_1_r, Z.lor_0_l.
  unfold wrap. rewrite (Z.mod_small (Z.shiftl _ _)).
  - rewrite lor_shiftl_add by (try apply Z.mod_pos_bound; lia).
    change (2 ^ 8) with 256. Z.to_euclidean_division_equations; lia.
  - rewrite Z.shiftl_mul_pow2 by lia. change (2 ^ 8) with 256.
    Z.to_euclidean_division_equations; lia.
Qed.

(** *** Witnesses *)

Lemma header_roundtrip_witness :
  exists d, parser_execute (write_message_details (message_details_masked final_frame text_frame 300 7)
                            ++ bs "rest") (reset initial_parser)
    = Ok (mk_parser d (message_details_masked final_frame text_frame 300 7) header_parsed_st, 8).
Proof.
  apply (header_roundtrip (message_details_masked final_frame text_frame 300 7) (bs "rest")
           initial_parser).
  unfold wire_ok. vm_compute. intuition congruence.
Defined.

Lemma constructed_header_ok_witness :
  payload_len (message_details_masked final_frame text_frame 70000 7) = 70000.
Proof.
  assert (0 <= text_frame < 16) by (unfold text_frame; lia).
  destruct (constructed_header_ok final_frame text_frame 70000 7) as (_ & _ & _ & _ & H2 & _);
    [done|lia|lia|]. exact H2.
Defined.

End WsParser.
