(* ===== verification/WsValidator.v ===== *)
(** * WebSocket protocol validator

    Model of src/web/restinio/restinio/websocket/impl/ws_protocol_validator.hpp:
    the frame-order and payload state machine a connection runs over every
    incoming frame, on top of the header parser ([WsParser]) and the UTF-8
    checker ([Utf8Checker]). *)

From S2P Require Import Prelude Bitops Utf8Checker WsParser.

Module WsValidator.
Import Bitops Message.
Import WsParser(message_details_t, m_final_flag, m_rsv1_flag, m_rsv2_flag, m_rsv3_flag,
  m_opcode, m_mask_flag, m_masking_key, payload_len, expected_data_t, all_bytes_loaded,
  add_byte_and_check_size, reset_expected, read_number_from_big_endian_bytes, mask_array,
  xor_byte, websocket_max_payload_size_without_ext, default_details, m_loaded_data, mk_expected).

Inductive validation_state_t :=
| initial_state
| frame_header_is_valid
| payload_part_is_valid
| frame_is_valid
| invalid_opcode
| empty_mask_from_client_side
| non_final_control_frame
| non_zero_rsv_flags
| payload_len_is_too_big
| continuation_frame_without_data_frame
| new_data_frame_without_finishing_previous
| invalid_close_code
| incorrect_utf8_data.

#[global] Instance validation_state_t_eq_dec : EqDecision validation_state_t.
Proof. solve_decision. Defined.

Definition is_control_frame (opcode : opcode_t) : bool :=
  (opcode =? connection_close_frame) || (opcode =? ping_frame) || (opcode =? pong_frame).

Definition is_data_frame (opcode : opcode_t) : bool :=
  (opcode =? text_frame) || (opcode =? binary_frame).

(** *** unmasker_t *)

Record unmasker_t := mk_unmasker {
  m_mask : list byte;              (* std::array<uint8_t, 4> *)
  m_processed_bytes_count : Z      (* size_t *)
}.

Definition unmask_byte (masked_byte : byte) (u : unmasker_t) : unmasker_t * byte :=
  (mk_unmasker (m_mask u) (wrap 64 (m_processed_bytes_count u + 1)),
   xor_byte masked_byte (nth (Z.to_nat (m_processed_bytes_count u mod 4)) (m_mask u) x00)).

Definition reset_unmasker (masking_key : Z) (u : unmasker_t) : unmasker_t :=
  mk_unmasker (mask_array masking_key) 0.

(** *** ws_protocol_validator_t *)

Inductive working_state_t := empty_state | processing_frame.
Inductive previous_data_frame_t := prev_none | prev_text | prev_binary.

#[global] Instance working_state_t_eq_dec : EqDecision working_state_t.
Proof. solve_decision. Defined.
#[global] Instance previous_data_frame_t_eq_dec : EqDecision previous_data_frame_t.
Proof. solve_decision. Defined.

Record ws_protocol_validator_t := mk_validator {
  m_validation_state : validation_state_t;
  m_working_state : working_state_t;
  m_previous_data_frame : previous_data_frame_t;
  m_current_frame : message_details_t;
  m_expected_close_code : expected_data_t;
  m_utf8_checker : Utf8.utf8_checker_t;
  m_unmask_flag : bool;
  m_unmasker : unmasker_t
}.

(** [ws_protocol_validator_t(do_unmask)]; the mask array is not read before
    [process_new_frame] has set it. *)
Definition new_validator (do_unmask : bool) : ws_protocol_validator_t :=
  mk_validator initial_state empty_state prev_none default_details (mk_expected 0 [])
    Utf8.initial do_unmask (mk_unmasker [x00; x00; x00; x00] 0).

Definition set_validation_state (s : validation_state_t) (v : ws_protocol_validator_t) :=
  mk_validator s (m_working_state v) (m_previous_data_frame v) (m_current_frame v)
    (m_expected_close_code v) (m_utf8_checker v) (m_unmask_flag v) (m_unmasker v).

Definition set_working_state (s : working_state_t) (v : ws_protocol_validator_t) :=
  mk_validator (m_validation_state v) s (m_previous_data_frame v) (m_current_frame v)
    (m_expected_close_code v) (m_utf8_checker v) (m_unmask_flag v) (m_unmasker v).

Definition set_previous (s : previous_data_frame_t) (v : ws_protocol_validator_t) :=
  mk_validator (m_validation_state v) (m_working_state v) s (m_current_frame v)
    (m_expected_close_code v) (m_utf8_checker v) (m_unmask_flag v) (m_unmasker v).

Definition set_current (f : message_details_t) (v : ws_protocol_validator_t) :=
  mk_validator (m_validation_state v) (m_working_state v) (m_previous_data_frame v) f
    (m_expected_close_code v) (m_utf8_checker v) (m_unmask_flag v) (m_unmasker v).

Definition set_close (d : expected_data_t) (v : ws_protocol_validator_t) :=
  mk_validator (m_validation_state v) (m_working_state v) (m_previous_data_frame v)
    (m_current_frame v) d (m_utf8_checker v) (m_unmask_flag v) (m_unmasker v).

Definition set_checker (c : Utf8.utf8_checker_t) (v : ws_protocol_validator_t) :=
  mk_validator (m_validation_state v) (m_working_state v) (m_previous_data_frame v)
    (m_current_frame v) (m_expected_close_code v) c (m_unmask_flag v) (m_unmasker v).

Definition set_unmasker (u : unmasker_t) (v : ws_protocol_validator_t) :=
  mk_validator (m_validation_state v) (m_working_state v) (m_previous_data_frame v)
    (m_current_frame v) (m_expected_close_code v) (m_utf8_checker v) (m_unmask_flag v) u.

Definition is_state_still_valid (v : ws_protocol_validator_t) : bool :=
  match m_validation_state v with
  | initial_state | frame_header_is_valid | payload_part_is_valid | frame_is_valid => true
  | _ => false
  end.

Definition validate_frame_header (frame : message_details_t) (v : ws_protocol_validator_t)
  : ws_protocol_validator_t * bool :=
  let v := set_validation_state frame_header_is_valid v in
  let v :=
    if negb (is_valid_opcode (m_opcode frame)) then set_validation_state invalid_opcode v
    else if is_control_frame (m_opcode frame) && negb (m_final_flag frame) then
      set_validation_state non_final_control_frame v
    else if negb (m_mask_flag frame) then
      set_validation_state empty_mask_from_client_side v
    else if m_rsv1_flag frame || m_rsv2_flag frame || m_rsv3_flag frame then
      set_validation_state non_zero_rsv_flags v
    else if is_control_frame (m_opcode frame)
            && (websocket_max_payload_size_without_ext <? payload_len frame) then
      set_validation_state payload_len_is_too_big v
    else v in
  (v, bool_decide (m_validation_state v = frame_header_is_valid)).

Definition check_previous_frame_type (opcode : opcode_t) (v : ws_protocol_validator_t)
  : ws_protocol_validator_t * bool :=
  if bool_decide (m_previous_data_frame v = prev_none) && (opcode =? continuation_frame) then
    (set_validation_state continuation_frame_without_data_frame v, false)
  else if bool_decide (m_previous_data_frame v <> prev_none) && is_data_frame opcode then
    (set_validation_state new_data_frame_without_finishing_previous v, false)
  else (v, true).

Definition validate_close_code (close_code : Z) (v : ws_protocol_validator_t)
  : ws_protocol_validator_t :=
  if (close_code <? 1000) || ((1011 <? close_code) && (close_code <? 3000))
     || (4999 <? close_code) then set_validation_state invalid_close_code v
  else if (close_code =? 1004) || (close_code =? 1005) || (close_code =? 1006)
  then set_validation_state invalid_close_code v
  else v.

Definition process_new_frame (frame : message_details_t) (v : ws_protocol_validator_t)
  : outcome (ws_protocol_validator_t * validation_state_t) :=
  if bool_decide (m_working_state v <> empty_state)
  then Throw "another frame is processing now"
  else
    let '(v, header_ok) := validate_frame_header frame v in
    let '(v, ok) := if header_ok then check_previous_frame_type (m_opcode frame) v
                    else (v, false) in
    let v :=
      if ok then
        let v :=
          if m_opcode frame =? text_frame then
            if negb (m_final_flag frame) then set_previous prev_text v else v
          else if m_opcode frame =? binary_frame then
            if negb (m_final_flag frame) then set_previous prev_binary v else v
          else if m_opcode frame =? connection_close_frame then
            set_close (reset_expected 2 (m_expected_close_code v)) v
          else v in
        let v := set_current frame v in
        let v := set_working_state processing_frame v in
        if m_unmask_flag v
        then set_unmasker (reset_unmasker (m_masking_key frame) (m_unmasker v)) v else v
      else v in
    Ok (v, m_validation_state v).

(** Whether payload octets of the current frame are checked as text. *)
Definition is_text_payload (v : ws_protocol_validator_t) : bool :=
  (m_opcode (m_current_frame v) =? text_frame)
  || ((m_opcode (m_current_frame v) =? continuation_frame)
      && bool_decide (m_previous_data_frame v = prev_text)).

(** [if( !m_utf8_checker.process_byte( byte ) ) set incorrect_utf8_data] *)
Definition check_utf8_byte (byte : byte) (v : ws_protocol_validator_t) : ws_protocol_validator_t :=
  let '(c, ok) := Utf8.process_byte (u8 byte) (m_utf8_checker v) in
  let v := set_checker c v in
  if ok then v else set_validation_state incorrect_utf8_data v.

Definition process_payload_byte (byte : byte) (v : ws_protocol_validator_t)
  : outcome (ws_protocol_validator_t * Byte.byte) :=
  let '(v, byte) :=
    if m_unmask_flag v then
      let '(u, b) := unmask_byte byte (m_unmasker v) in (set_unmasker u v, b)
    else (v, byte) in
  if is_text_payload v then Ok (check_utf8_byte byte v, byte)
  else if m_opcode (m_current_frame v) =? connection_close_frame then
    if negb (all_bytes_loaded (m_expected_close_code v)) then
      let? (d, full) := add_byte_and_check_size byte (m_expected_close_code v) in
      let v := set_close d v in
      if full then
        let status_code := read_number_from_big_endian_bytes 16 (m_loaded_data d) in
        Ok (validate_close_code status_code v, byte)
      else Ok (v, byte)
    else Ok (check_utf8_byte byte v, byte)
  else Ok (v, byte).

(** The loop shared by [process_next_payload_part] and
    [process_and_unmask_next_payload_part]: it stops behind the first octet
    that leaves [payload_part_is_valid]; the second component is the buffer
    with the visited octets replaced by what [process_payload_byte] returns. *)
Fixpoint payload_loop (data : list byte) (v : ws_protocol_validator_t)
  : outcome (ws_protocol_validator_t * list byte) :=
  match data with
  | [] => Ok (v, [])
  | b :: data' =>
      let? (v', b') := process_payload_byte b v in
      if bool_decide (m_validation_state v' <> payload_part_is_valid)
      then Ok (v', b' :: data')
      else let? (w, out) := payload_loop data' v' in Ok (w, b' :: out)
  end.

Definition process_and_unmask_next_payload_part (data : list byte) (v : ws_protocol_validator_t)
  : outcome (ws_protocol_validator_t * validation_state_t * list byte) :=
  if bool_decide (m_working_state v = empty_state) then Throw "current state is empty"
  else if is_state_still_valid v then
    let? (w, out) := payload_loop data (set_validation_state payload_part_is_valid v) in
    Ok (w, m_validation_state w, out)
  else Ok (v, m_validation_state v, data).

(** The buffer is [const]: only the state changes. *)
Definition process_next_payload_part (data : list byte) (v : ws_protocol_validator_t)
  : outcome (ws_protocol_validator_t * validation_state_t) :=
  if bool_decide (m_working_state v = empty_state) then Throw "current state is empty"
  else if is_state_still_valid v then
    let? (w, _) := payload_loop data (set_validation_state payload_part_is_valid v) in
    Ok (w, m_validation_state w)
  else Ok (v, m_validation_state v).

Definition finish_frame (v : ws_protocol_validator_t)
  : ws_protocol_validator_t * validation_state_t :=
  let v := if is_state_still_valid v then set_validation_state frame_is_valid v else v in
  let v :=
    if m_final_flag (m_current_frame v) then
      let v := if negb (Utf8.finalized (m_utf8_checker v))
               then set_validation_state incorrect_utf8_data v else v in
      set_checker (Utf8.reset (m_utf8_checker v)) v
    else v in
  let v := set_working_state empty_state v in
  let v :=
    if bool_decide (m_previous_data_frame v <> prev_none)
       && negb (is_control_frame (m_opcode (m_current_frame v)))
       && m_final_flag (m_current_frame v)
    then set_previous prev_none v else v in
  let this_frame_validation_state := m_validation_state v in
  (set_validation_state initial_state v, this_frame_validation_state).

Definition reset (v : ws_protocol_validator_t) : ws_protocol_validator_t :=
  let v := set_validation_state initial_state v in
  let v := set_working_state empty_state v in
  let v := set_previous prev_none v in
  set_checker (Utf8.reset (m_utf8_checker v)) v.

(** ** Frame headers *)

(** The conditions of the protocol on a frame header, given the kind of the
    unfinished data message. *)
Definition header_acceptable (prev : previous_data_frame_t) (f : message_details_t) : bool :=
  is_valid_opcode (m_opcode f)
  && (negb (is_control_frame (m_opcode f)) || m_final_flag f)
  && m_mask_flag f
  && negb (m_rsv1_flag f || m_rsv2_flag f || m_rsv3_flag f)
  && (negb (is_control_frame (m_opcode f)) || (payload_len f <=? 125))
  && (if bool_decide (prev = prev_none) then negb (m_opcode f =? continuation_frame)
      else negb (is_data_frame (m_opcode f))).

Definition next_previous (prev : previous_data_frame_t) (f : message_details_t)
  : previous_data_frame_t :=
  if m_final_flag f then prev
  else if m_opcode f =? text_frame then prev_text
  else if m_opcode f =? binary_frame then prev_binary else prev.

Definition header_verdict (f : message_details_t) : validation_state_t :=
  if negb (is_valid_opcode (m_opcode f)) then invalid_opcode
  else if is_control_frame (m_opcode f) && negb (m_final_flag f) then non_final_control_frame
  else if negb (m_mask_flag f) then empty_mask_from_client_side
  else if m_rsv1_flag f || m_rsv2_flag f || m_rsv3_flag f then non_zero_rsv_flags
  else if is_control_frame (m_opcode f) && (125 <? payload_len f) then payload_len_is_too_big
  else frame_header_is_valid.

Lemma validate_frame_header_verdict f v :
  validate_frame_header f v
  = (set_validation_state (header_verdict f) v,
     bool_decide (header_verdict f = frame_header_is_valid)).
Proof.
  unfold validate_frame_header, header_verdict, websocket_max_payload_size_without_ext.
  destruct (negb (is_valid_opcode (m_opcode f))); [done|].
  destruct (is_control_frame (m_opcode f) && negb (m_final_flag f)); [done|].
  destruct (negb (m_mask_flag f)); [done|].
  destruct (m_rsv1_flag f || m_rsv2_flag f || m_rsv3_flag f); [done|].
  by destruct (is_control_frame (m_opcode f) && (125 <? payload_len f)).
Qed.

Lemma header_acceptable_verdict prev f :
  header_acceptable prev f
  = bool_decide (header_verdict f = frame_header_is_valid)
    && (if bool_decide (prev = prev_none) then negb (m_opcode f =? continuation_frame)
        else negb (is_data_frame (m_opcode f))).
Proof.
  unfold header_acceptable, header_verdict. rewrite Z.ltb_antisym.
  destruct (is_valid_opcode _), (is_control_frame _), (m_final_flag f), (m_mask_flag f),
    (m_rsv1_flag f || m_rsv2_flag f || m_rsv3_flag f), (payload_len f <=? 125); done.
Qed.

Lemma header_verdict_error f v :
  header_verdict f <> frame_header_is_valid ->
  is_state_still_valid (set_validation_state (header_verdict f) v) = false.
Proof.
  unfold header_verdict. by repeat case_match.
Qed.

Ltac solve_next :=
  match goal with |- exists w, Ok (?a, _) = _ /\ _ => exists a end;
  split; [reflexivity|]; by split_and!.

Lemma new_frame_cases (f : message_details_t) (v : ws_protocol_validator_t) :
  m_working_state v = empty_state ->
  exists w, process_new_frame f v = Ok (w, m_validation_state w) /\
    if header_acceptable (m_previous_data_frame v) f
    then m_validation_state w = frame_header_is_valid /\ m_working_state w = processing_frame
         /\ m_current_frame w = f
         /\ m_previous_data_frame w = next_previous (m_previous_data_frame v) f
         /\ m_utf8_checker w = m_utf8_checker v /\ m_unmask_flag w = m_unmask_flag v
         /\ (m_unmask_flag v = true -> m_unmasker w = mk_unmasker (mask_array (m_masking_key f)) 0)
    else is_state_still_valid w = false /\ m_working_state w = empty_state
         /\ m_previous_data_frame w = m_previous_data_frame v.
Proof.
  intros Hidle. unfold process_new_frame. rewrite bool_decide_eq_false_2 by auto.
  rewrite validate_frame_header_verdict, header_acceptable_verdict.
  destruct (bool_decide (header_verdict f = frame_header_is_valid)) eqn:Hv.
  2:{ apply bool_decide_eq_false in Hv. eexists; split; [reflexivity|].
      split; [by apply header_verdict_error|done]. }
  apply bool_decide_eq_true in Hv. rewrite Hv. simpl.
  unfold check_previous_frame_type, next_previous. simpl.
  destruct v as [vs ws prev cur close chk um unm]; simpl in *. subst ws.
  destruct (decide (prev = prev_none)) as [->|Hp]; simpl.
  - destruct (m_opcode f =? continuation_frame); simpl; [solve_next|].
    destruct (m_opcode f =? text_frame), (m_opcode f =? binary_frame),
      (m_opcode f =? connection_close_frame), (m_final_flag f), um;
      solve_next.
  - rewrite !(bool_decide_eq_false_2 (prev = prev_none)), (bool_decide_eq_true_2 (prev <> _)) by done.
    simpl. unfold is_data_frame. destruct (m_opcode f =? text_frame), (m_opcode f =? binary_frame);
      simpl; try solve_next.
    destruct (m_opcode f =? connection_close_frame), (m_final_flag f), um;
      solve_next.
Qed.

(** [process_new_frame] on an idle validator accepts a header exactly when
    the protocol allows it (known opcode, control frames final and short, mask
    present, reserved bits clear, continuation frames only inside a fragmented
    message and data frames only outside one).  An accepted frame becomes the
    current one and updates the fragmentation state; a rejected one leaves the
    validator idle, in an error state. *)
Theorem process_new_frame_spec (f : message_details_t) (v : ws_protocol_validator_t) :
  m_working_state v = empty_state ->
  exists w, process_new_frame f v = Ok (w, m_validation_state w) /\
    if header_acceptable (m_previous_data_frame v) f
    then m_validation_state w = frame_header_is_valid /\ m_working_state w = processing_frame
         /\ m_current_frame w = f
         /\ m_previous_data_frame w = next_previous (m_previous_data_frame v) f
         /\ m_utf8_checker w = m_utf8_checker v /\ m_unmask_flag w = m_unmask_flag v
         /\ (m_unmask_flag v = true -> m_unmasker w = mk_unmasker (mask_array (m_masking_key f)) 0)
    else is_state_still_valid w = false /\ m_working_state w = empty_state
         /\ m_previous_data_frame w = m_previous_data_frame v.
Proof. apply new_frame_cases. Qed.

(** ** Payload octets *)

Lemma add_byte_guarded d b :
  all_bytes_loaded d = false -> exists r, add_byte_and_check_size b d = Ok r.
Proof.
  unfold all_bytes_loaded, add_byte_and_check_size. intros ->. by eexists.
Qed.

(** What [process_payload_byte] leaves unchanged, and the octet it returns. *)
Definition unmasked (b : byte) (v : ws_protocol_validator_t) : byte :=
  if m_unmask_flag v then snd (unmask_byte b (m_unmasker v)) else b.

Lemma check_utf8_byte_frame b v :
  let w := check_utf8_byte b v in
  m_working_state w = m_working_state v /\ m_previous_data_frame w = m_previous_data_frame v
  /\ m_current_frame w = m_current_frame v /\ m_unmask_flag w = m_unmask_flag v
  /\ m_unmasker w = m_unmasker v.
Proof. unfold check_utf8_byte. by destruct (Utf8.process_byte _ _) as [c []]. Qed.

Lemma validate_close_code_frame c v :
  exists s, validate_close_code c v = set_validation_state s v.
Proof.
  exists (m_validation_state (validate_close_code c v)).
  unfold validate_close_code. by destruct v; repeat case_match.
Qed.

Lemma process_payload_byte_frame b v :
  exists w, process_payload_byte b v = Ok (w, unmasked b v)
  /\ m_working_state w = m_working_state v /\ m_previous_data_frame w = m_previous_data_frame v
  /\ m_current_frame w = m_current_frame v /\ m_unmask_flag w = m_unmask_flag v
  /\ m_unmasker w = (if m_unmask_flag v then fst (unmask_byte b (m_unmasker v)) else m_unmasker v).
Proof.
  unfold process_payload_byte, unmasked.
  set (v1 := if m_unmask_flag v then set_unmasker (fst (unmask_byte b (m_unmasker v))) v else v).
  set (b1 := if m_unmask_flag v then snd (unmask_byte b (m_unmasker v)) else b).
  assert ((if m_unmask_flag v then
      let '(u, b0) := unmask_byte b (m_unmasker v) in (set_unmasker u v, b0) else (v, b))
    = (v1, b1)) as -> by (subst v1 b1; by destruct (m_unmask_flag v)).
  assert (Hv1 : m_working_state v1 = m_working_state v
    /\ m_previous_data_frame v1 = m_previous_data_frame v
    /\ m_current_frame v1 = m_current_frame v /\ m_unmask_flag v1 = m_unmask_flag v
    /\ m_unmasker v1 = (if m_unmask_flag v then fst (unmask_byte b (m_unmasker v)) else m_unmasker v)).
  { subst v1. destruct (m_unmask_flag v) eqn:?; simpl; split_and!; done. }
  destruct Hv1 as (<- & <- & <- & <- & <-).
  destruct (check_utf8_byte_frame b1 v1) as (? & ? & ? & ? & ?).
  destruct (is_text_payload v1); [solve_next|].
  destruct (m_opcode (m_current_frame v1) =? connection_close_frame); [|solve_next].
  destruct (all_bytes_loaded (m_expected_close_code v1)) eqn:Hl; simpl; [solve_next|].
  destruct (add_byte_guarded _ b1 Hl) as [[d full] ->]. destruct full; [|solve_next].
  destruct (validate_close_code_frame
    (read_number_from_big_endian_bytes 16 (m_loaded_data d)) (set_close d v1)) as [st ->].
  solve_next.
Qed.

(** The stream of octets the unmasker produces. *)
Fixpoint unmask_all (data : list byte) (u : unmasker_t) : list byte :=
  match data with
  | [] => []
  | b :: data' => let '(u', b') := unmask_byte b u in b' :: unmask_all data' u'
  end.

Lemma unmask_all_spec data mask n :
  0 <= n ->
  unmask_all data (mk_unmasker mask n)
  = imap (fun i b => xor_byte b (nth (Z.to_nat ((n + Z.of_nat i) mod 4)) mask x00)) data.
Proof.
  revert n. induction data as [|b data IH]; intros n Hn; [done|].
  rewrite imap_cons, Z.add_0_r. cbn [unmask_all]. unfold unmask_byte at 1.
  cbn [m_mask m_processed_bytes_count]. f_equal.
  rewrite IH by (unfold wrap; apply Z.mod_pos_bound; lia). apply imap_ext. intros i x _.
  unfold compose, wrap. do 3 f_equal. rewrite <- Zplus_mod_idemp_l.
  rewrite Z.mod_mod_divide by (by exists (2 ^ 62)). rewrite Zplus_mod_idemp_l. f_equal. lia.
Qed.

Lemma unmask_all_frame data key :
  unmask_all data (mk_unmasker (mask_array key) 0) = WsParser.mask_unmask_payload key data.
Proof.
  rewrite unmask_all_spec by lia.
  rewrite WsParser.mask_unmask_payload_mask. unfold WsParser.mask_spec. apply imap_ext. intros i x _.
  do 2 f_equal. rewrite Z.add_0_l. change 4 with (Z.of_nat 4).
  by rewrite <- Nat2Z.inj_mod, Nat2Z.id.
Qed.

Lemma payload_loop_total data v :
  exists w out, payload_loop data v = Ok (w, out)
  /\ m_working_state w = m_working_state v /\ m_previous_data_frame w = m_previous_data_frame v
  /\ m_current_frame w = m_current_frame v /\ m_unmask_flag w = m_unmask_flag v
  /\ (m_unmask_flag v = true -> m_validation_state w = payload_part_is_valid ->
      out = unmask_all data (m_unmasker v)).
Proof.
  revert v. induction data as [|b data IH]; intros v; [by do 2 eexists|]. cbn [payload_loop].
  destruct (process_payload_byte_frame b v) as (v' & -> & E1 & E2 & E3 & E4 & E5).
  destruct (IH v') as (w & out & -> & F1 & F2 & F3 & F4 & Hout).
  case_bool_decide as Hs; do 2 eexists; (split; [reflexivity|]); split_and!;
    try congruence; intros Hum Hw.
  cbn [unmask_all]. unfold unmasked. rewrite Hum in *.
  rewrite Hout, E5 by congruence. by destruct (unmask_byte b (m_unmasker v)).
Qed.

Lemma payload_loop_app a b v :
  m_validation_state v = payload_part_is_valid ->
  payload_loop (a ++ b) v =
  let? (w, oa) := payload_loop a v in
  if bool_decide (m_validation_state w = payload_part_is_valid)
  then let? (x, ob) := payload_loop b w in Ok (x, oa ++ ob)
  else Ok (w, oa ++ b).
Proof.
  revert v. induction a as [|c a IH]; intros v Hv; cbn [payload_loop app].
  - rewrite bool_decide_eq_true_2 by done. by destruct (payload_loop b v) as [[]|].
  - destruct (process_payload_byte c v) as [[v' c']|]; [|done].
    case_bool_decide as Hs.
    + by rewrite bool_decide_eq_false_2.
    + rewrite IH by (destruct (decide (m_validation_state v' = payload_part_is_valid)); tauto).
      destruct (payload_loop a v') as [[w oa]|]; [|done].
      case_bool_decide; [|done]. by destruct (payload_loop b w) as [[]|].
Qed.

Lemma new_frame_accepted f v w :
  m_unmask_flag v = true -> process_new_frame f v = Ok (w, frame_header_is_valid) ->
  m_unmask_flag w = true /\ m_unmasker w = mk_unmasker (mask_array (m_masking_key f)) 0
  /\ is_state_still_valid w = true.
Proof.
  intros Hum Hnew. destruct (m_working_state v) eqn:Hidle.
  2:{ unfold process_new_frame in Hnew. by rewrite Hidle in Hnew. }
  destruct (new_frame_cases f v Hidle) as (w' & E & H). rewrite E in Hnew.
  injection Hnew as -> Hs. unfold is_state_still_valid in *. rewrite Hs in *.
  destruct (header_acceptable _ _); [|by destruct H].
  destruct H as (_ & _ & _ & _ & _ & -> & Hu). auto.
Qed.

(** While a frame is being processed the validator never throws, and it
    may be given the payload in arbitrary parts: validating and unmasking
    [a ++ b] at once is doing [a] and then, unless it failed, [b]. *)
Theorem payload_parts_compose (a b : list byte) (v : ws_protocol_validator_t) :
  m_working_state v = processing_frame ->
  (exists r, process_and_unmask_next_payload_part (a ++ b) v = Ok r) /\
  process_and_unmask_next_payload_part (a ++ b) v =
  let? (w, s, oa) := process_and_unmask_next_payload_part a v in
  if bool_decide (s = payload_part_is_valid)
  then let? (x, s', ob) := process_and_unmask_next_payload_part b w in Ok (x, s', oa ++ ob)
  else Ok (w, s, oa ++ b).
Proof.
  intros Hw. unfold process_and_unmask_next_payload_part.
  rewrite (bool_decide_eq_false_2 (m_working_state v = empty_state)) by congruence.
  destruct (is_state_still_valid v) eqn:Hv; cbv iota.
  2:{ split; [by eexists|]. unfold is_state_still_valid in Hv.
      rewrite bool_decide_eq_false_2; [done|]. intros E. by rewrite E in Hv. }
  set (v1 := set_validation_state payload_part_is_valid v).
  destruct (payload_loop_total (a ++ b) v1) as (z & oz & Hz & _).
  split; [rewrite Hz; by eexists|].
  rewrite payload_loop_app by done.
  destruct (payload_loop_total a v1) as (w & oa & -> & Hw' & _).
  case_bool_decide as Hs; [|by rewrite ?bool_decide_eq_false_2].
  rewrite (bool_decide_eq_false_2 (m_working_state w = empty_state))
    by (rewrite Hw'; subst v1; simpl; congruence).
  assert (is_state_still_valid w = true) as -> by (unfold is_state_still_valid; by rewrite Hs).
  assert (set_validation_state payload_part_is_valid w = w) as -> by (destruct w; simpl in *; by subst).
  by destruct (payload_loop b w) as [[]|].
Qed.

(** Unmasking in place: when a masked frame was accepted and its payload
    passes validation, the buffer handed back is the payload unmasked with the
    key of the frame header, for every opcode. *)
Theorem validated_payload_is_unmasked (f : message_details_t) (data out : list byte)
    (v w x : ws_protocol_validator_t) (s : validation_state_t) :
  m_unmask_flag v = true ->
  process_new_frame f v = Ok (w, frame_header_is_valid) ->
  process_and_unmask_next_payload_part data w = Ok (x, s, out) ->
  s = payload_part_is_valid ->
  out = WsParser.mask_unmask_payload (m_masking_key f) data.
Proof.
  intros Hum Hnew Hpart ->.
  assert (Hw : m_unmask_flag w = true /\ m_unmasker w = mk_unmasker (mask_array (m_masking_key f)) 0
               /\ is_state_still_valid w = true).
  { by apply (new_frame_accepted f v). }
  destruct Hw as (Hf & Hu & Hv). unfold process_and_unmask_next_payload_part in Hpart.
  case_bool_decide; [done|]. rewrite Hv in Hpart. cbv iota in Hpart.
  destruct (payload_loop_total data (set_validation_state payload_part_is_valid w))
    as (y & o & E & _ & _ & _ & _ & Ho).
  rewrite E in Hpart. injection Hpart as <- Hs <-.
  rewrite Ho by done. simpl. rewrite Hu. apply unmask_all_frame.
Qed.

(** ** Text messages *)

(** What the connection does with one complete frame whose payload arrives in
    one part: stop at the first verdict that is not the expected one. *)
Definition receive_frame (f : message_details_t) (payload : list byte)
  (v : ws_protocol_validator_t) : outcome (ws_protocol_validator_t * validation_state_t) :=
  let? (w, s) := process_new_frame f v in
  if bool_decide (s <> frame_header_is_valid) then Ok (w, s)
  else let? (x, s', _) := process_and_unmask_next_payload_part payload w in
       if bool_decide (s' <> payload_part_is_valid) then Ok (x, s') else Ok (finish_frame x).

(** Header of fragment [payload] of a text message. *)
Definition text_header (first final : bool) (key : Z) (payload : list byte) : message_details_t :=
  WsParser.message_details_masked (if final then final_frame else not_final_frame)
    (if first then text_frame else continuation_frame) (WsParser.size payload) key.

(** A text message as its fragments, each with its masking key. *)
Fixpoint receive_text (first : bool) (frags : list (Z * list byte)) (last : Z * list byte)
  (v : ws_protocol_validator_t) : outcome (ws_protocol_validator_t * validation_state_t) :=
  match frags with
  | [] => receive_frame (text_header first true (fst last) (snd last)) (snd last) v
  | (key, payload) :: frags' =>
      let? (w, s) := receive_frame (text_header first false key payload) payload v in
      if bool_decide (s = frame_is_valid) then receive_text false frags' last w else Ok (w, s)
  end.

Definition unmasked_text (frags : list (Z * list byte)) : list byte :=
  concat (map (fun kp => WsParser.mask_unmask_payload (fst kp) (snd kp)) frags).

(** The validator between two frames, with the given checker. *)
Definition idle (prev : previous_data_frame_t) (c : Utf8.utf8_checker_t)
  (v : ws_protocol_validator_t) : Prop :=
  m_working_state v = empty_state /\ m_unmask_flag v = true
  /\ m_previous_data_frame v = prev /\ m_utf8_checker v = c.

Lemma text_header_acceptable (first final : bool) key payload :
  header_acceptable (if first then prev_none else prev_text) (text_header first final key payload)
  = true.
Proof.
  unfold text_header, WsParser.message_details_masked.
  destruct (WsParser.init_payload_len _) as [l e]. by destruct first, final.
Qed.

Lemma text_header_fields (first final : bool) key payload :
  m_opcode (text_header first final key payload) = (if first then text_frame else continuation_frame)
  /\ m_final_flag (text_header first final key payload) = final
  /\ m_masking_key (text_header first final key payload) = key.
Proof.
  unfold text_header, WsParser.message_details_masked.
  destruct (WsParser.init_payload_len _) as [l e]. by destruct first, final.
Qed.

Lemma payload_loop_text data v :
  is_text_payload v = true -> m_unmask_flag v = true ->
  m_validation_state v = payload_part_is_valid ->
  exists w out, payload_loop data v = Ok (w, out) /\
    match Utf8.run (m_utf8_checker v) (unmask_all data (m_unmasker v)) with
    | Some c => m_validation_state w = payload_part_is_valid /\ m_utf8_checker w = c
    | None => m_validation_state w = incorrect_utf8_data
    end.
Proof.
  revert v. induction data as [|b data IH]; intros v Ht Hum Hv; [by do 2 eexists|].
  cbn [payload_loop unmask_all].
  destruct (unmask_byte b (m_unmasker v)) as [u b'] eqn:Eu.
  assert (process_payload_byte b v = Ok (check_utf8_byte b' (set_unmasker u v), b')) as ->.
  { unfold process_payload_byte. rewrite Hum, Eu.
    by replace (is_text_payload (set_unmasker u v)) with (is_text_payload v) by done; rewrite Ht. }
  unfold check_utf8_byte. cbn [Utf8.run m_utf8_checker set_unmasker].
  destruct (Utf8.process_byte (u8 b') (m_utf8_checker v)) as [c ok]. destruct ok.
  - simpl. rewrite Hv, bool_decide_eq_false_2 by (intros H; by apply H).
    destruct (IH (set_checker c (set_unmasker u v))) as (w & out & -> & H); [done..|].
    do 2 eexists. split; [reflexivity|]. exact H.
  - by do 2 eexists.
Qed.

(** One fragment: the checker runs over the unmasked payload; the last fragment
    also requires a complete symbol and resets the checker. *)
Lemma receive_text_frame (first final : bool) key payload c v :
  idle (if first then prev_none else prev_text) c v ->
  exists w s, receive_frame (text_header first final key payload) payload v = Ok (w, s) /\
    match Utf8.run c (WsParser.mask_unmask_payload key payload) with
    | None => s = incorrect_utf8_data
    | Some c' =>
        if final then
          if Utf8.finalized c' then s = frame_is_valid /\ idle prev_none (Utf8.reset c') w
          else s = incorrect_utf8_data
        else s = frame_is_valid /\ idle prev_text c' w
    end.
Proof.
  intros (Hidle & Hum & Hprev & Hc).
  destruct (text_header_fields first final key payload) as (Hop & Hfin & Hkey).
  destruct (new_frame_cases (text_header first final key payload) v Hidle) as (w & E & H).
  rewrite Hprev, text_header_acceptable in H.
  destruct H as (Hs & Hws & Hcur & Hprev' & Hc' & Hum' & Hu). specialize (Hu Hum).
  unfold next_previous in Hprev'. rewrite Hfin, Hop in Hprev'. rewrite Hkey in Hu.
  unfold receive_frame. rewrite E, Hs. cbv iota. rewrite bool_decide_eq_false_2 by (intros Hn; by apply Hn).
  unfold process_and_unmask_next_payload_part. rewrite bool_decide_eq_false_2 by congruence.
  assert (is_state_still_valid w = true) as -> by (unfold is_state_still_valid; by rewrite Hs).
  set (w1 := set_validation_state payload_part_is_valid w).
  assert (Ht : is_text_payload w1 = true).
  { unfold is_text_payload, w1; simpl. rewrite Hcur, Hop, Hprev'. by destruct first, final. }
  destruct (payload_loop_text payload w1 Ht) as (x & out & El & Hx); [subst w1; simpl; congruence|done|].
  destruct (payload_loop_total payload w1) as (x' & out' & El' & Hf).
  rewrite El in El'. injection El' as <- <-. destruct Hf as (Fw & Fp & Fc & Fu & _).
  subst w1. simpl in *. rewrite El. rewrite Hu, Hc', Hc, unmask_all_frame in Hx.
  destruct (Utf8.run c _) as [c'|].
  2:{ rewrite Hx. do 2 eexists. split; [reflexivity|done]. }
  destruct Hx as [Hx Hxc]. rewrite Hx. simpl.
  exists (fst (finish_frame x)), (snd (finish_frame x)). split; [by destruct (finish_frame x)|].
  destruct x as [xs xw xp xf xd xc xu xm]; simpl in *. subst xs xw xp xf xc xu.
  unfold finish_frame, idle; simpl. rewrite Hcur, Hprev', Hfin.
  destruct final; simpl.
  - destruct (Utf8.finalized c'); simpl; rewrite ?Hop, ?Hfin, ?Hum', ?Hum; by destruct first.
  - rewrite Hop, Hfin. destruct first; simpl; by rewrite Hum', Hum.
Qed.

Lemma utf8_run_app c a b :
  Utf8.run c (a ++ b) = Utf8.run c a ≫= fun c' => Utf8.run c' b.
Proof.
  revert c. induction a as [|x a IH]; intros c; [done|]. cbn [app]. rewrite !Utf8.run_cons.
  destruct (Utf8.step c (u8 x)); [apply IH|done].
Qed.

(** C33. Text messages end to end: a message sent as any sequence of fragments
    (one [text_frame] and continuations, each masked with its own key, any
    payloads) to an idle validator with a fresh checker is never rejected by an
    exception; its verdict is [frame_is_valid] exactly when the concatenation
    of the unmasked payloads is correct UTF-8, and otherwise
    [incorrect_utf8_data]. *)
Theorem text_message_valid_iff_utf8 (frags : list (Z * list byte)) (last : Z * list byte)
    (v : ws_protocol_validator_t) :
  idle prev_none Utf8.initial v ->
  exists w s, receive_text true frags last v = Ok (w, s) /\
    s = (if Utf8.check_utf8_is_correct (unmasked_text (frags ++ [last]))
         then frame_is_valid else incorrect_utf8_data).
Proof.
  unfold Utf8.check_utf8_is_correct. generalize Utf8.initial as c.
  intros c Hv. change prev_none with (if true then prev_none else prev_text) in Hv.
  revert Hv. generalize true as first. revert c v.
  induction frags as [|[key payload] frags IH]; intros c v first Hv; cbn [receive_text app].
  - destruct last as [key payload]. cbn [fst snd].
    destruct (receive_text_frame first true key payload c v Hv) as (w & s & -> & Hs).
    exists w, s. split; [done|]. unfold unmasked_text. simpl. rewrite app_nil_r.
    destruct (Utf8.run c _) as [c'|]; [|done]. by destruct (Utf8.finalized c'); [destruct Hs|].
  - destruct (receive_text_frame first false key payload c v Hv) as (w & s & -> & Hs).
    change (unmasked_text ((key, payload) :: frags ++ [last])) with
      (WsParser.mask_unmask_payload key payload ++ unmasked_text (frags ++ [last])).
    rewrite utf8_run_app. destruct (Utf8.run c _) as [c'|]; simpl.
    + destruct Hs as [-> Hw]. rewrite bool_decide_eq_true_2 by done.
      destruct (IH c' w false Hw) as (x & s & -> & Hx). by exists x, s.
    + subst s. by do 2 eexists.
Qed.

(** ** Close frames *)

Lemma validate_close_code_state c v :
  m_validation_state v = payload_part_is_valid ->
  m_validation_state (validate_close_code c v)
  = if ((1000 <=? c) && (c <=? 1011) && negb ((1004 <=? c) && (c <=? 1006)))
       || ((3000 <=? c) && (c <=? 4999))
    then payload_part_is_valid else invalid_close_code.
Proof.
  intros Hv. unfold validate_close_code. repeat case_match; simpl; try done; lia.
Qed.

Lemma read_number_16 a b :
  read_number_from_big_endian_bytes 16 [a; b] = WsParser.be_value [a; b].
Proof. by apply WsParser.read_number_be. Qed.

(** A close frame that carries only a status code is accepted exactly for
    the codes 1000-1003, 1007-1011 and 3000-4999, read big-endian from the two
    unmasked octets. *)
Theorem close_code_verdict (key : Z) (payload : list byte) (v : ws_protocol_validator_t) :
  idle prev_none Utf8.initial v -> length payload = 2%nat ->
  let c := WsParser.be_value (WsParser.mask_unmask_payload key payload) in
  exists w, receive_frame
    (WsParser.message_details_masked final_frame connection_close_frame 2 key) payload v
  = Ok (w, if ((1000 <=? c) && (c <=? 1003)) || ((1007 <=? c) && (c <=? 1011))
              || ((3000 <=? c) && (c <=? 4999))
           then frame_is_valid else invalid_close_code).
Proof.
  intros (Hidle & Hum & Hprev & Hc) Hl. cbv zeta.
  destruct payload as [|p0 [|p1 [|]]]; try done. clear Hl.
  rewrite <- unmask_all_frame. cbn [unmask_all].
  destruct v as [vs ws prev cur close chk um unm]; simpl in *. subst.
  set (f := WsParser.message_details_masked final_frame connection_close_frame 2 key).
  set (u0 := xor_byte p0 _). set (u1 := xor_byte p1 _).
  set (v3 := mk_validator payload_part_is_valid processing_frame prev_none f
    (mk_expected 2 [u0; u1]) Utf8.initial true (mk_unmasker (mask_array key) 2)).
  unfold receive_frame.
  set (v1 := mk_validator frame_header_is_valid processing_frame prev_none f
    (mk_expected 2 []) Utf8.initial true (mk_unmasker (mask_array key) 0)).
  match goal with |- context [process_new_frame f ?v] =>
    replace (process_new_frame f v) with (Ok (v1, frame_header_is_valid)) by reflexivity end.
  rewrite bool_decide_eq_false_2 by (intros H; by apply H).
  destruct (validate_close_code_frame (WsParser.be_value [u0; u1]) v3) as [st Est].
  pose proof (validate_close_code_state (WsParser.be_value [u0; u1]) v3 eq_refl) as Hst.
  assert (process_and_unmask_next_payload_part [p0; p1] v1
    = Ok (set_validation_state st v3, st, [u0; u1])) as ->.
  { unfold process_and_unmask_next_payload_part. cbn -[process_payload_byte].
    replace (process_payload_byte p0 _) with
      (Ok (mk_validator payload_part_is_valid processing_frame prev_none f
        (mk_expected 2 [u0]) Utf8.initial true (mk_unmasker (mask_array key) 1), u0)) by reflexivity.
    cbn -[process_payload_byte].
    replace (process_payload_byte p1 _) with
      (Ok (validate_close_code (read_number_from_big_endian_bytes 16 [u0; u1]) v3, u1))
      by reflexivity.
    rewrite read_number_16, Est. simpl. by destruct (bool_decide (st <> _)). }
  rewrite Est in Hst. simpl in Hst. set (c := WsParser.be_value [u0; u1]) in *.
  match goal with |- context [if ?x then frame_is_valid else _] =>
    match type of Hst with _ = (if ?y then _ else _) => replace x with y by lia; destruct y end end;
    subst st; eexists; reflexivity.
Qed.

(** ** Two deviations from the protocol *)

(** A control frame between two fragments of a text message is rejected
    when a multi-octet character is split across the fragments: [finish_frame]
    demands a complete character after every final frame, and a ping is final.
    The frame itself is well-formed and accepted as a header. *)
Theorem ping_inside_split_character (key : Z) (c : Utf8.utf8_checker_t)
    (v : ws_protocol_validator_t) :
  idle prev_text c v -> Utf8.finalized c = false ->
  let ping := WsParser.message_details_masked final_frame ping_frame 0 key in
  header_acceptable (m_previous_data_frame v) ping = true /\
  exists w, receive_frame ping [] v = Ok (w, incorrect_utf8_data).
Proof.
  intros (Hidle & Hum & Hprev & Hc) Hfin. cbv zeta.
  destruct v as [vs ws prev cur close chk um unm]; simpl in *. subst.
  split; [reflexivity|]. unfold receive_frame, process_new_frame. simpl.
  unfold finish_frame. simpl. rewrite Hfin. simpl. by eexists.
Qed.

(** [reset] does not make the validator ready again after a text payload
    was rejected: the checker keeps its failure state, so the next text
    message consisting of one ASCII character is reported as bad UTF-8. *)
Theorem reset_keeps_utf8_failure (key : Z) (b : byte) (v : ws_protocol_validator_t) :
  m_unmask_flag v = true ->
  Utf8.m_state (m_utf8_checker v) = Utf8.invalid \/ Utf8.m_state (m_utf8_checker v) = Utf8.overlong ->
  (forall b', WsParser.mask_unmask_payload key [b] = [b'] -> u8 b' < 0x80) ->
  exists w, receive_frame (text_header true true key [b]) [b] (reset v)
    = Ok (w, incorrect_utf8_data).
Proof.
  intros Hum Hst Hb.
  destruct (receive_text_frame true true key [b] (Utf8.reset (m_utf8_checker v)) (reset v))
    as (w & s & -> & Hs); [done|].
  exists w. do 2 f_equal. set (b' := xor_byte b (byte_from 24 key)).
  change (WsParser.mask_unmask_payload key [b]) with [b'] in *.
  pose proof (Utf8.process_byte_after_failure (m_utf8_checker v) b' Hst (Hb b' eq_refl)) as Hf.
  cbn [Utf8.run] in Hs.
  destruct (Utf8.process_byte _ _) as [c' ok]. simpl in Hf. by subst ok.
Qed.

(** *** Witnesses *)

Lemma process_new_frame_spec_witness :
  exists w, process_new_frame (text_header true true 7 (bs "hi")) (new_validator true)
            = Ok (w, frame_header_is_valid).
Proof.
  destruct (process_new_frame_spec (text_header true true 7 (bs "hi")) (new_validator true) eq_refl)
    as (w & E & H).
  change (header_acceptable _ _) with true in H. cbv iota in H. destruct H as [H _].
  exists w. by rewrite E, H.
Defined.

Lemma payload_parts_compose_witness :
  exists r, process_and_unmask_next_payload_part (bs "he" ++ bs "llo")
              (set_working_state processing_frame (new_validator true)) = Ok r.
Proof. exact (proj1 (payload_parts_compose (bs "he") (bs "llo")
         (set_working_state processing_frame (new_validator true)) eq_refl)). Defined.

Definition witness_frame : message_details_t := text_header true true 7 (bs "hi").
Definition witness_validator : ws_protocol_validator_t :=
  match process_new_frame witness_frame (new_validator true) with
  | Ok (w, _) => w | Throw _ => new_validator true end.

Lemma validated_payload_is_unmasked_witness :
  [x68; x6f; x00; x1b] = WsParser.mask_unmask_payload 7 (bs "ho" ++ [x00; x1c]).
Proof.
  eapply (validated_payload_is_unmasked witness_frame (bs "ho" ++ [x00; x1c])
            [x68; x6f; x00; x1b] (new_validator true) witness_validator _ payload_part_is_valid);
    [reflexivity|vm_compute; reflexivity|vm_compute; reflexivity|reflexivity].
Defined.

Lemma text_message_valid_iff_utf8_witness :
  exists w s, receive_text true [(0, [xc3])] (0, [xb8]) (new_validator true) = Ok (w, s)
    /\ s = frame_is_valid.
Proof.
  destruct (text_message_valid_iff_utf8 [(0, [xc3])] (0, [xb8]) (new_validator true))
    as (w & s & E & H); [by repeat split|].
  exists w, s. split; [exact E|]. rewrite H. vm_compute. reflexivity.
Defined.

Lemma close_code_verdict_witness :
  exists w, receive_frame
    (WsParser.message_details_masked final_frame connection_close_frame 2 0) [x03; xe8]
    (new_validator true) = Ok (w, frame_is_valid).
Proof.
  destruct (close_code_verdict 0 [x03; xe8] (new_validator true)) as [w E];
    [by repeat split|reflexivity|].
  exists w. rewrite E. vm_compute. reflexivity.
Defined.

(** After the first octet of a two-octet character. *)
Definition half_character : Utf8.utf8_checker_t := fst (Utf8.process_byte 0xC3 Utf8.initial).
Definition half_validator : ws_protocol_validator_t :=
  set_previous prev_text (set_checker half_character (new_validator true)).

Lemma ping_inside_split_character_witness :
  exists w, receive_frame (WsParser.message_details_masked final_frame ping_frame 0 7) []
              half_validator = Ok (w, incorrect_utf8_data).
Proof.
  apply (ping_inside_split_character 7 half_character half_validator);
    [by repeat split|vm_compute; reflexivity].
Defined.

Definition failed_validator : ws_protocol_validator_t :=
  set_checker (fst (Utf8.process_byte 0xFF Utf8.initial)) (new_validator true).

Lemma reset_keeps_utf8_failure_witness :
  exists w, receive_frame (text_header true true 0 (bs "A")) (bs "A") (reset failed_validator)
    = Ok (w, incorrect_utf8_data).
Proof.
  apply (reset_keeps_utf8_failure 0 x41 failed_validator);
    [reflexivity|left; vm_compute; reflexivity|].
  intros b'. vm_compute. intros [= <-]. reflexivity.
Defined.

End WsValidator.
