(* ===== verification/Coordinator.v ===== *)
(** * Write groups and the response coordinator

    [write_group_t] (restinio/buffers.hpp) and the ring of response contexts
    with which a connection keeps pipelined responses in request order
    (restinio/impl/response_coordinator.hpp).

    A completion callback is a number, its identity; a request identifier is a
    32-bit unsigned integer. *)

From S2P Require Import Prelude.

(** ** Write groups *)

Module Buffers.

(** [writable_item_t]: bytes in memory, or a file to be sent. *)
Inductive writable_item_t :=
| trivial_write_operation (data : list byte)
| file_write_operation (file : Z) (size : Z).

(** The bytes of an item that are in memory. *)
Definition item_bytes (i : writable_item_t) : list byte :=
  match i with trivial_write_operation d => d | file_write_operation _ _ => [] end.

Lemma trivial_bytes (l : list (list byte)) :
  flat_map item_bytes (map trivial_write_operation l) = concat l.
Proof. induction l as [|x l IH]; [done|]. simpl. by rewrite IH. Qed.

Definition item_size (i : writable_item_t) : Z :=
  match i with
  | trivial_write_operation d => Z.of_nat (length d)
  | file_write_operation _ n => n
  end.

Record write_group_t := mk_group {
  m_items : list writable_item_t;
  m_status_line_size : Z;
  m_after_write_notificator : option Z
}.

Definition group_bytes (g : write_group_t) : list byte := flat_map item_bytes (m_items g).

Definition write_group (items : list writable_item_t) : write_group_t := mk_group items 0 None.

Definition set_status_line_size (n : Z) (g : write_group_t) : outcome write_group_t :=
  if negb (0 =? n) then
    match m_items g with
    | [] => Throw "cannot set status line size for empty write group"
    | file_write_operation _ _ :: _ =>
        Throw "first writable item must be trivial_write_operation"
    | i :: _ =>
        if item_size i <? n
        then Throw "first writable item size is less than provided value"
        else Ok (mk_group (m_items g) n (m_after_write_notificator g))
    end
  else Ok g.

Definition set_after_write_notificator (cb : Z) (g : write_group_t) : write_group_t :=
  mk_group (m_items g) (m_status_line_size g) (Some cb).

Definition has_after_write_notificator (g : write_group_t) : bool :=
  bool_decide (m_after_write_notificator g <> None).

(** The group afterwards and the callback that was called. *)
Definition invoke_after_write_notificator_if_exists (g : write_group_t)
  : write_group_t * option Z :=
  (mk_group (m_items g) (m_status_line_size g) None, m_after_write_notificator g).

Definition reset_group (g : write_group_t) : write_group_t := mk_group [] 0 None.

Definition merge (g second : write_group_t) : write_group_t :=
  mk_group (m_items g ++ m_items second) (m_status_line_size g) (m_after_write_notificator second).

(** What writing a group amounts to: its items, then the callback. *)
Inductive token := item (i : writable_item_t) | callback (cb : Z).

Definition group_tokens (g : write_group_t) : list token :=
  map item (m_items g)
  ++ match m_after_write_notificator g with Some cb => [callback cb] | None => [] end.

Lemma merge_tokens g second :
  has_after_write_notificator g = false ->
  group_tokens (merge g second) = group_tokens g ++ group_tokens second.
Proof.
  unfold has_after_write_notificator. case_bool_decide as H; [done|]. intros _.
  unfold group_tokens, merge. simpl. destruct (m_after_write_notificator g); [done|].
  by rewrite map_app, app_nil_r, <- app_assoc.
Qed.

End Buffers.

(** ** The coordinator *)

Module Coordinator.
Import Buffers.

Inductive response_parts_attr_t := not_final_parts | final_parts.
Inductive response_connection_attr_t := connection_keepalive | connection_close.
Record response_output_flags_t := mk_flags {
  m_response_parts : response_parts_attr_t;
  m_response_connection : response_connection_attr_t
}.

Definition response_connection_attr (should_keep_alive : bool) : response_connection_attr_t :=
  if should_keep_alive then connection_keepalive else connection_close.

#[global] Instance parts_eq_dec : EqDecision response_parts_attr_t.
Proof. solve_decision. Defined.
#[global] Instance connection_eq_dec : EqDecision response_connection_attr_t.
Proof. solve_decision. Defined.

(** *** response_context_t *)

Record response_context_t := mk_context {
  m_request_id : Z;                             (* unsigned int *)
  m_write_groups : list write_group_t;
  m_response_output_flags : response_output_flags_t
}.

Definition initial_flags : response_output_flags_t := mk_flags not_final_parts connection_keepalive.
Definition context0 : response_context_t := mk_context 0 [] initial_flags.

Definition reinit (request_id : Z) (c : response_context_t) : response_context_t :=
  mk_context request_id (m_write_groups c) initial_flags.

Definition enqueue_group (wg : write_group_t) (c : response_context_t) : response_context_t :=
  let groups :=
    match rev (m_write_groups c) with
    | g :: before =>
        if negb (has_after_write_notificator g) && (0 =? m_status_line_size wg)
        then rev before ++ [merge g wg]
        else m_write_groups c ++ [wg]
    | [] => m_write_groups c ++ [wg]
    end in
  mk_context (m_request_id c) groups (m_response_output_flags c).

Definition context_empty (c : response_context_t) : bool :=
  match m_write_groups c with [] => true | _ => false end.

(** [dequeue_group]; the source asserts that there is a group. *)
Definition dequeue_group (c : response_context_t) : option (write_group_t * response_context_t) :=
  match m_write_groups c with
  | [] => None
  | g :: gs => Some (g, mk_context (m_request_id c) gs (m_response_output_flags c))
  end.

Definition set_output_flags (f : response_output_flags_t) (c : response_context_t)
  : response_context_t := mk_context (m_request_id c) (m_write_groups c) f.

Definition is_complete (c : response_context_t) : bool :=
  context_empty c && bool_decide (final_parts = m_response_parts (m_response_output_flags c)).

(** *** response_context_table_t *)

Record response_context_table_t := mk_table {
  m_contexts : list response_context_t;
  m_first_element_index : nat;
  m_elements_exists : nat
}.

Definition new_table (max_elements_count : nat) : response_context_table_t :=
  mk_table (repeat context0 max_elements_count) 0 0.

Definition table_empty (t : response_context_table_t) : bool := (m_elements_exists t =? 0)%nat.
Definition is_full (t : response_context_table_t) : bool :=
  (length (m_contexts t) =? m_elements_exists t)%nat.

Definition slot (i : nat) (t : response_context_table_t) : response_context_t :=
  nth i (m_contexts t) context0.
Definition set_slot (i : nat) (c : response_context_t) (t : response_context_table_t)
  : response_context_table_t :=
  mk_table (<[i := c]> (m_contexts t)) (m_first_element_index t) (m_elements_exists t).

Definition front (t : response_context_table_t) : response_context_t :=
  slot (m_first_element_index t) t.
Definition back (t : response_context_table_t) : response_context_t :=
  slot ((m_first_element_index t + (m_elements_exists t - 1)) mod length (m_contexts t))%nat t.

Definition get_real_index (req_id : Z) (t : response_context_table_t) : nat :=
  let distance_from_first := wrap 32 (req_id - m_request_id (front t)) in
  ((m_first_element_index t + Z.to_nat distance_from_first) mod length (m_contexts t))%nat.

(** A pointer into the table is an index. *)
Definition get_by_req_id (req_id : Z) (t : response_context_table_t) : option nat :=
  if table_empty t || (req_id <? m_request_id (front t)) || (m_request_id (back t) <? req_id)
  then None else Some (get_real_index req_id t).

Definition push_response_context (req_id : Z) (t : response_context_table_t)
  : outcome response_context_table_t :=
  if is_full t
  then Throw "unable to insert context because response_context_table is full"
  else
    let i := ((m_first_element_index t + m_elements_exists t) mod length (m_contexts t))%nat in
    let t := set_slot i (reinit req_id (slot i t)) t in
    Ok (mk_table (m_contexts t) (m_first_element_index t) (S (m_elements_exists t))).

Definition pop_response_context_nonchecked (t : response_context_table_t)
  : response_context_table_t :=
  let first := S (m_first_element_index t) in
  mk_table (m_contexts t)
    (if (length (m_contexts t) =? first)%nat then 0%nat else first)
    (m_elements_exists t - 1).

Definition pop_response_context (t : response_context_table_t)
  : outcome response_context_table_t :=
  if table_empty t
  then Throw "unable to pop context because response_context_table is empty"
  else Ok (pop_response_context_nonchecked t).

(** *** response_coordinator_t *)

Record response_coordinator_t := mk_coordinator {
  m_request_id_counter : Z;
  m_connection_closed_response_occured : bool;
  m_context_table : response_context_table_t
}.

Definition new_coordinator (max_req_count : nat) : response_coordinator_t :=
  mk_coordinator 0 false (new_table max_req_count).

Definition closed (c : response_coordinator_t) : bool := m_connection_closed_response_occured c.
Definition is_able_to_get_more_messages (c : response_coordinator_t) : bool :=
  negb (closed c) && negb (is_full (m_context_table c)).

Definition register_new_request (c : response_coordinator_t)
  : outcome (response_coordinator_t * Z) :=
  let? t := push_response_context (m_request_id_counter c) (m_context_table c) in
  Ok (mk_coordinator (wrap 32 (m_request_id_counter c + 1)) (closed c) t, m_request_id_counter c).

Definition append_response (req_id : Z) (flags : response_output_flags_t) (wg : write_group_t)
  (c : response_coordinator_t) : outcome response_coordinator_t :=
  if closed c
  then Throw "unable to append response parts, response coordinator is closed"
  else
    let t := m_context_table c in
    match get_by_req_id req_id t with
    | None => Throw "no context associated with request"
    | Some i =>
        let ctx := slot i t in
        if bool_decide (final_parts = m_response_parts (m_response_output_flags ctx))
        then Throw "unable to append response, it marked as complete"
        else Ok (mk_coordinator (m_request_id_counter c) (closed c)
                   (set_slot i (enqueue_group wg (set_output_flags flags ctx)) t))
    end.

Definition pop_ready_buffers (c : response_coordinator_t)
  : outcome (response_coordinator_t * option (write_group_t * Z)) :=
  if closed c
  then Throw "unable to prepare output buffers, response coordinator is closed"
  else
    let t := m_context_table c in
    if table_empty t then Ok (c, None)
    else
      match dequeue_group (front t) with
      | None => Ok (c, None)
      | Some (g, ctx) =>
          let t := set_slot (m_first_element_index t) ctx t in
          let result := Some (g, m_request_id ctx) in
          if is_complete ctx then
            let flags := m_response_output_flags ctx in
            let closed' := bool_decide (final_parts = m_response_parts flags)
                           && bool_decide (connection_close = m_response_connection flags) in
            let? t := pop_response_context t in
            Ok (mk_coordinator (m_request_id_counter c) closed' t, result)
          else Ok (mk_coordinator (m_request_id_counter c) (closed c) t, result)
      end.

(** [reset]: the callbacks of all queued groups are called with an error. *)
Fixpoint drain_context (groups : list write_group_t) : list Z :=
  match groups with
  | [] => []
  | g :: groups =>
      match snd (invoke_after_write_notificator_if_exists g) with
      | Some cb => cb :: drain_context groups
      | None => drain_context groups
      end
  end.

Fixpoint reset_loop (fuel : nat) (t : response_context_table_t)
  : response_context_table_t * list Z :=
  match fuel with
  | O => (t, [])
  | S fuel =>
      if table_empty t then (t, [])
      else
        let ctx := front t in
        let called := drain_context (m_write_groups ctx) in
        let t := set_slot (m_first_element_index t)
                   (mk_context (m_request_id ctx) [] (m_response_output_flags ctx)) t in
        let '(t, called') := reset_loop fuel (pop_response_context_nonchecked t) in
        (t, called ++ called')
  end.

Definition reset (c : response_coordinator_t) : response_coordinator_t * list Z :=
  let '(t, called) := reset_loop (m_elements_exists (m_context_table c)) (m_context_table c) in
  (mk_coordinator (m_request_id_counter c) (closed c) t, called).

(** *** The table as a queue *)

(** The slots from the first element on, wrapping around. *)
Definition ring (t : response_context_table_t) : list response_context_t :=
  drop (m_first_element_index t) (m_contexts t) ++ take (m_first_element_index t) (m_contexts t).

(** The contexts in use, oldest first, and the unused slots. *)
Definition contents (t : response_context_table_t) : list response_context_t :=
  take (m_elements_exists t) (ring t).
Definition spare (t : response_context_table_t) : list response_context_t :=
  drop (m_elements_exists t) (ring t).

Record table_ok (t : response_context_table_t) : Prop := {
  first_in_range : (m_first_element_index t < length (m_contexts t))%nat;
  exists_in_range : (m_elements_exists t <= length (m_contexts t))%nat;
  spare_drained : Forall (fun c => m_write_groups c = []) (spare t)
}.

Lemma ring_length t : length (ring t) = length (m_contexts t).
Proof. unfold ring. rewrite length_app, length_drop, length_take. lia. Qed.

Lemma contents_length t : table_ok t -> length (contents t) = m_elements_exists t.
Proof. intros []. unfold contents. rewrite length_take, ring_length. lia. Qed.

Lemma add_mod_cases (a b n : nat) :
  (a < n -> b < n ->
   (a + b < n /\ (a + b) mod n = a + b) \/ (n <= a + b /\ (a + b) mod n = a + b - n))%nat.
Proof.
  intros Ha Hb. destruct (decide (a + b < n)%nat) as [H|H].
  - left. by rewrite Nat.mod_small.
  - right. split; [lia|]. replace (a + b)%nat with ((a + b - n) + 1 * n)%nat by lia.
    rewrite Nat.Div0.mod_add, Nat.mod_small by lia. lia.
Qed.

Lemma ring_lookup t i :
  (m_first_element_index t < length (m_contexts t))%nat -> (i < length (m_contexts t))%nat ->
  ring t !! i
  = m_contexts t !! ((m_first_element_index t + i) mod length (m_contexts t))%nat.
Proof.
  intros Hf Hi. unfold ring.
  destruct (add_mod_cases _ _ _ Hf Hi) as [[H ->]|[H ->]].
  - rewrite lookup_app_l by (rewrite length_drop; lia). by rewrite lookup_drop.
  - rewrite lookup_app_r by (rewrite length_drop; lia).
    rewrite lookup_take_lt by (rewrite length_drop; lia). f_equal. rewrite length_drop. lia.
Qed.

Lemma slot_lookup t i c : m_contexts t !! i = Some c -> slot i t = c.
Proof. unfold slot. intros H. by apply nth_lookup_Some. Qed.

Lemma ring_slot t i :
  (m_first_element_index t < length (m_contexts t))%nat -> (i < length (m_contexts t))%nat ->
  ring t !! i = Some (slot ((m_first_element_index t + i) mod length (m_contexts t))%nat t).
Proof.
  intros Hf Hi. rewrite ring_lookup by done.
  destruct (m_contexts t !! _) as [c|] eqn:E; [by rewrite (slot_lookup _ _ _ E)|].
  apply lookup_ge_None in E. pose proof (Nat.mod_upper_bound (m_first_element_index t + i)
    (length (m_contexts t))). lia.
Qed.

Lemma ring_set_slot t i c :
  (m_first_element_index t < length (m_contexts t))%nat -> (i < length (m_contexts t))%nat ->
  ring (set_slot ((m_first_element_index t + i) mod length (m_contexts t))%nat c t)
  = <[i := c]> (ring t).
Proof.
  intros Hf Hi. unfold ring, set_slot. cbn [m_contexts m_first_element_index].
  destruct (add_mod_cases _ _ _ Hf Hi) as [[H ->]|[H ->]].
  - rewrite drop_insert_ge by lia. rewrite take_insert_ge by lia.
    rewrite insert_app_l by (rewrite length_drop; lia).
    by replace (m_first_element_index t + i - m_first_element_index t)%nat with i by lia.
  - rewrite drop_insert_lt by lia.
    rewrite take_insert_lt by lia.
    rewrite insert_app_r_alt by (rewrite length_drop; lia). do 2 f_equal. rewrite length_drop. lia.
Qed.

Lemma ring_pop t :
  (m_first_element_index t < length (m_contexts t))%nat ->
  ring (pop_response_context_nonchecked t) = drop 1 (ring t) ++ take 1 (ring t).
Proof.
  intros Hf. unfold ring, pop_response_context_nonchecked. cbn [m_contexts m_first_element_index].
  destruct t as [cs f e]. cbn [m_contexts m_first_element_index] in *.
  destruct (lookup_lt_is_Some_2 cs f Hf) as [c Hc].
  rewrite (drop_S _ _ _ Hc). cbn [app drop take]. rewrite (drop_0 (_ ++ _)), (take_0 (_ ++ _)).
  destruct (Nat.eqb_spec (length cs) (S f)) as [E|E].
  - rewrite drop_0, take_0, app_nil_r, (drop_ge cs (S f)) by lia. cbn [app].
    rewrite <- (take_S_r _ _ _ Hc), <- E. symmetry. apply firstn_all.
  - rewrite (take_S_r _ _ _ Hc). by rewrite <- !app_assoc.
Qed.

Lemma contents_set_slot t k c :
  table_ok t -> (k < m_elements_exists t)%nat ->
  let t' := set_slot ((m_first_element_index t + k) mod length (m_contexts t))%nat c t in
  table_ok t' /\ contents t' = <[k := c]> (contents t).
Proof.
  intros [Hf He Hs] Hk t'.
  assert (Hr : ring t' = <[k := c]> (ring t)) by (apply ring_set_slot; [done|lia]).
  split.
  - unfold t'. constructor; cbn [set_slot m_first_element_index m_elements_exists m_contexts];
      rewrite ?length_insert; try done.
    unfold spare. fold t'. rewrite Hr. cbn [m_elements_exists set_slot t'].
    by rewrite drop_insert_lt by lia.
  - unfold contents. rewrite Hr. cbn [m_elements_exists set_slot t']. by rewrite take_insert_lt.
Qed.

Lemma push_contents t id :
  table_ok t -> is_full t = false ->
  exists t', push_response_context id t = Ok t' /\ table_ok t'
    /\ contents t' = contents t ++ [mk_context id [] initial_flags]
    /\ m_elements_exists t' = S (m_elements_exists t).
Proof.
  intros [Hf He Hs] Hfull. unfold is_full in Hfull. apply Nat.eqb_neq in Hfull.
  unfold push_response_context, is_full. rewrite (proj2 (Nat.eqb_neq _ _) Hfull).
  eexists. split; [reflexivity|].
  set (e := m_elements_exists t) in *. set (i := ((m_first_element_index t + e) mod _)%nat).
  assert (Hi : ring t !! e = Some (slot i t)) by (apply ring_slot; [done|lia]).
  assert (Hg : m_write_groups (slot i t) = []).
  { rewrite Forall_lookup in Hs. apply (Hs 0%nat). unfold spare. rewrite lookup_drop, Nat.add_0_r.
    exact Hi. }
  assert (Hre : reinit id (slot i t) = mk_context id [] initial_flags).
  { unfold reinit. by rewrite Hg. }
  rewrite Hre. clear Hre Hg.
  match goal with |- table_ok ?x /\ _ => set (t' := x) end.
  assert (Hr : ring t' = <[e := mk_context id [] initial_flags]> (ring t)).
  { apply (ring_set_slot t e); [done|lia]. }
  assert (He' : (e < length (ring t))%nat) by (rewrite ring_length; lia).
  assert (Hl : length (m_contexts t') = length (m_contexts t)).
  { unfold t'. simpl. apply length_insert. }
  split; [|split; [|done]].
  - constructor; rewrite ?Hl; [done|unfold t'; simpl; lia|].
    unfold spare. rewrite Hr. change (m_elements_exists t') with (S e).
    rewrite drop_insert_lt by lia. unfold spare in Hs. fold e in Hs.
    rewrite (drop_S _ _ _ Hi) in Hs. by inversion Hs.
  - unfold contents. rewrite Hr. change (m_elements_exists t') with (S e). fold e.
    rewrite (take_S_r _ _ (mk_context id [] initial_flags)) by by rewrite list_lookup_insert_eq.
    by rewrite take_insert_ge.
Qed.

Lemma pop_contents t c cs :
  table_ok t -> contents t = c :: cs -> m_write_groups c = [] ->
  table_ok (pop_response_context_nonchecked t)
  /\ contents (pop_response_context_nonchecked t) = cs.
Proof.
  intros Hok Hc Hg. pose proof Hok as [Hf He Hs]. pose proof (contents_length t Hok) as Hlen.
  pose proof (ring_pop t Hf) as Hr. rewrite Hc in Hlen. simpl in Hlen.
  assert (Hring : ring t = c :: cs ++ spare t).
  { rewrite <- (take_drop (m_elements_exists t) (ring t)). fold (contents t) (spare t). by rewrite Hc. }
  rewrite Hring in Hr. cbn [drop take app] in Hr. rewrite drop_0, take_0 in Hr.
  assert (Hex : m_elements_exists (pop_response_context_nonchecked t) = length cs).
  { simpl. lia. }
  assert (Hsp : spare (pop_response_context_nonchecked t) = spare t ++ [c]).
  { unfold spare at 1. rewrite Hr, Hex. rewrite <- app_assoc. by rewrite drop_app_length. }
  split.
  - constructor.
    + simpl. destruct (Nat.eqb_spec (length (m_contexts t)) (S (m_first_element_index t))); lia.
    + simpl. lia.
    + rewrite Hsp. apply Forall_app. split; [done|]. by constructor.
  - unfold contents. rewrite Hr, Hex, <- app_assoc. by rewrite take_app_length.
Qed.

(** Identifiers are handed out consecutively. *)
Definition consecutive (base : Z) (cs : list response_context_t) : Prop :=
  forall k c, cs !! k = Some c -> m_request_id c = base + Z.of_nat k.

Lemma contents_slot t k :
  table_ok t -> (k < m_elements_exists t)%nat ->
  contents t !! k = Some (slot ((m_first_element_index t + k) mod length (m_contexts t))%nat t).
Proof.
  intros [Hf He _] Hk. unfold contents. rewrite lookup_take_lt by lia. apply ring_slot; [done|lia].
Qed.

Lemma front_contents t : table_ok t -> table_empty t = false -> contents t !! 0%nat = Some (front t).
Proof.
  intros Hok He. apply Nat.eqb_neq in He. rewrite (contents_slot t 0) by (done || lia).
  unfold front. destruct Hok as [Hf _ _]. rewrite Nat.add_0_r, Nat.mod_small by lia. done.
Qed.

Lemma get_contents t base id :
  table_ok t -> consecutive base (contents t) -> 0 <= base ->
  base + Z.of_nat (m_elements_exists t) <= 2 ^ 32 ->
  get_by_req_id id t
  = if (base <=? id) && (id <? base + Z.of_nat (m_elements_exists t))
    then Some ((m_first_element_index t + Z.to_nat (id - base)) mod length (m_contexts t))%nat
    else None.
Proof.
  intros Hok Hc Hb Hle. unfold get_by_req_id.
  destruct (table_empty t) eqn:Et; simpl.
  { apply Nat.eqb_eq in Et. rewrite Et. replace (base + Z.of_nat 0) with base by lia.
    destruct (Z.leb_spec base id), (Z.ltb_spec id base); simpl; try done; lia. }
  pose proof (Hc 0%nat _ (front_contents t Hok Et)) as Hfront. apply Nat.eqb_neq in Et.
  assert (Hback : m_request_id (back t) = base + Z.of_nat (m_elements_exists t - 1)).
  { apply Hc, contents_slot; [done|lia]. }
  replace (base + Z.of_nat 0) with base in Hfront by lia.
  unfold get_real_index. rewrite Hfront, Hback.
  destruct (Z.ltb_spec id base), (Z.ltb_spec (base + Z.of_nat (m_elements_exists t - 1)) id),
    (Z.leb_spec base id), (Z.ltb_spec id (base + Z.of_nat (m_elements_exists t))); simpl; try done; try lia.
  do 3 f_equal. unfold wrap. rewrite Z.mod_small by lia. lia.
Qed.

(** *** Histories *)

Definition context_tokens (c : response_context_t) : list token :=
  flat_map group_tokens (m_write_groups c).

Lemma enqueue_tokens wg c :
  context_tokens (enqueue_group wg c) = context_tokens c ++ group_tokens wg
  /\ m_write_groups (enqueue_group wg c) <> [].
Proof.
  unfold context_tokens, enqueue_group. cbn [m_write_groups].
  destruct (rev (m_write_groups c)) as [|g before] eqn:E.
  { rewrite flat_map_app. simpl. rewrite app_nil_r. split; [done|]. by destruct (m_write_groups c). }
  assert (Hg : m_write_groups c = rev before ++ [g]).
  { rewrite <- (rev_involutive (m_write_groups c)), E. done. }
  destruct (negb (has_after_write_notificator g) && (0 =? m_status_line_size wg)) eqn:Em.
  - apply andb_prop in Em as [Em _]. apply negb_true_iff in Em.
    rewrite Hg, !flat_map_app. simpl. rewrite !app_nil_r, merge_tokens, <- app_assoc by done.
    split; [done|]. by destruct (rev before).
  - rewrite flat_map_app. simpl. rewrite app_nil_r. split; [done|]. by destruct (m_write_groups c).
Qed.

Inductive op :=
| op_register
| op_append (req_id : Z) (flags : response_output_flags_t) (wg : write_group_t)
| op_pop.

(** A coordinator, for every request registered so far what was accepted as its
    response, and what has been handed out for writing. *)
Record history := mk_history {
  h_coordinator : response_coordinator_t;
  h_responses : list (list token);
  h_emitted : list token
}.

Definition start (max_req_count : nat) : history := mk_history (new_coordinator max_req_count) [] [].

Definition step (h : history) (o : op) : history :=
  match o with
  | op_register =>
      match register_new_request (h_coordinator h) with
      | Ok (c, _) => mk_history c (h_responses h ++ [[]]) (h_emitted h)
      | Throw _ => h
      end
  | op_append id flags wg =>
      match append_response id flags wg (h_coordinator h) with
      | Ok c => mk_history c (alter (fun r => r ++ group_tokens wg) (Z.to_nat id) (h_responses h))
                  (h_emitted h)
      | Throw _ => h
      end
  | op_pop =>
      match pop_ready_buffers (h_coordinator h) with
      | Ok (c, Some (g, _)) => mk_history c (h_responses h) (h_emitted h ++ group_tokens g)
      | Ok (c, None) => mk_history c (h_responses h) (h_emitted h)
      | Throw _ => h
      end
  end.

Abbreviation table h := (m_context_table (h_coordinator h)).

(** The part of the oldest response already handed out goes in front of what
    its context still holds. *)
Definition add_head (pre : list token) (qs : list (list token)) : list (list token) :=
  match qs with [] => [] | q :: qs => (pre ++ q) :: qs end.

Definition base (h : history) : Z :=
  Z.of_nat (length (h_responses h)) - Z.of_nat (m_elements_exists (table h)).

Definition live_ok (c : response_context_t) : Prop :=
  m_response_parts (m_response_output_flags c) = final_parts -> m_write_groups c <> [].

Record history_ok (h : history) : Prop := {
  ok_table : table_ok (table h);
  ok_counter : m_request_id_counter (h_coordinator h) = Z.of_nat (length (h_responses h));
  ok_bound : Z.of_nat (length (h_responses h)) < 2 ^ 32;
  ok_ids : consecutive (base h) (contents (table h));
  ok_live : Forall live_ok (contents (table h));
  ok_tokens : exists finished pre,
    h_emitted h = concat finished ++ pre
    /\ h_responses h = finished ++ add_head pre (map context_tokens (contents (table h)))
    /\ (contents (table h) = [] -> pre = [])
}.

Lemma add_head_length pre qs : length (add_head pre qs) = length qs.
Proof. by destruct qs. Qed.

Lemma add_head_alter pre qs k t :
  add_head pre (alter (fun q => q ++ t) k qs) = alter (fun q => q ++ t) k (add_head pre qs).
Proof. destruct qs as [|q qs]; [done|]. destruct k; simpl; [|done]. by rewrite <- app_assoc. Qed.

Lemma base_finished h finished pre :
  table_ok (table h) ->
  h_responses h = finished ++ add_head pre (map context_tokens (contents (table h))) ->
  base h = Z.of_nat (length finished).
Proof.
  intros Hok E. unfold base. rewrite E, length_app, add_head_length, length_map.
  rewrite contents_length by done. lia.
Qed.

Lemma start_ok n : (0 < n)%nat -> history_ok (start n).
Proof.
  intros Hn. constructor; simpl; try done.
  - constructor; simpl; [by rewrite repeat_length|rewrite repeat_length; lia|].
    unfold spare, ring. simpl. rewrite take_0, app_nil_r, !drop_0.
    apply Forall_forall. intros c Hc%repeat_spec. by subst c.
  - exists [], []. done.
Qed.

Lemma register_ok h :
  history_ok h -> Z.of_nat (length (h_responses h)) + 1 < 2 ^ 32 -> history_ok (step h op_register).
Proof.
  intros [Ht Hc Hb Hi Hl (fin & pre & He & Hr & Hp)] Hlt. cbn [step].
  unfold register_new_request.
  destruct (is_full (table h)) eqn:Ef.
  { unfold push_response_context. rewrite Ef. constructor; eauto. }
  destruct (push_contents (table h) (m_request_id_counter (h_coordinator h)) Ht Ef)
    as (t' & -> & Ht' & Hcont & Hex).
  constructor; cbn [h_coordinator h_responses h_emitted m_context_table m_request_id_counter].
  - done.
  - rewrite Hc, length_app. simpl. unfold wrap. rewrite Z.mod_small; lia.
  - rewrite length_app. simpl. lia.
  - unfold base. cbn [h_responses h_coordinator m_context_table]. rewrite Hex, Hcont, length_app. simpl.
    intros k c Hk. apply lookup_app_Some in Hk as [Hk|[Hk1 Hk2]].
    + rewrite (Hi _ _ Hk). unfold base. lia.
    + apply list_lookup_singleton_Some in Hk2 as [Hk3 <-]. simpl. rewrite Hc.
      pose proof (contents_length _ Ht). lia.
  - rewrite Hcont. apply Forall_app. split; [done|]. by constructor.
  - exists fin, pre. rewrite Hcont, map_app, Hr. split; [done|]. split.
    + destruct (map context_tokens (contents (table h))) as [|q qs] eqn:E; simpl.
      * apply map_eq_nil in E. by rewrite (Hp E), app_nil_r.
      * by rewrite <- app_assoc.
    + intros H. by destruct (contents (table h)).
Qed.

Lemma get_history h id :
  history_ok h ->
  get_by_req_id id (table h)
  = if (base h <=? id) && (id <? Z.of_nat (length (h_responses h)))
    then Some ((m_first_element_index (table h) + Z.to_nat (id - base h))
               mod length (m_contexts (table h)))%nat
    else None.
Proof.
  intros [Ht Hc Hb Hi Hl (fin & pre & He & Hr & Hp)].
  pose proof (base_finished h fin pre Ht Hr) as Hbase.
  rewrite (get_contents _ (base h)); [|done|done|lia|unfold base in *; lia].
  by replace (base h + Z.of_nat (m_elements_exists (table h)))
    with (Z.of_nat (length (h_responses h))) by (unfold base; lia).
Qed.

Lemma append_ok h id flags wg : history_ok h -> history_ok (step h (op_append id flags wg)).
Proof.
  intros Hok. pose proof Hok as [Ht Hc Hb Hi Hl (fin & pre & He & Hr & Hp)]. cbn [step].
  unfold append_response. destruct (closed (h_coordinator h)) eqn:Ecl; [done|].
  rewrite (get_history h id Hok).
  destruct (Z.leb_spec (base h) id) as [H1|]; [|done].
  destruct (Z.ltb_spec id (Z.of_nat (length (h_responses h)))) as [H2|]; [|done]. cbn [andb].
  set (k := Z.to_nat (id - base h)).
  assert (Hk : (k < m_elements_exists (table h))%nat) by (unfold k, base in *; lia).
  pose proof (contents_slot (table h) k Ht Hk) as Hslot.
  set (i := ((m_first_element_index (table h) + k) mod length (m_contexts (table h)))%nat) in *.
  case_bool_decide as Hfin; [done|].
  set (c' := enqueue_group wg (set_output_flags flags (slot i (table h)))).
  destruct (contents_set_slot (table h) k c' Ht Hk) as [Ht' Hcont]. fold i in Ht', Hcont.
  destruct (enqueue_tokens wg (set_output_flags flags (slot i (table h)))) as [Htok Hne].
  fold c' in Htok, Hne.
  assert (Hmap : map context_tokens (<[k := c']> (contents (table h)))
                 = alter (fun q => q ++ group_tokens wg) k (map context_tokens (contents (table h)))).
  { change (map context_tokens) with (fmap (M:=list) context_tokens). rewrite list_fmap_insert.
    apply list_eq. intros j. destruct (decide (j = k)) as [->|Hne'].
    - rewrite list_lookup_alter_eq, !list_lookup_fmap, Hslot. simpl.
      rewrite list_lookup_insert_eq; [rewrite Htok; reflexivity|].
      rewrite length_fmap. by eapply lookup_lt_Some.
    - by rewrite list_lookup_alter_ne, list_lookup_insert_ne. }
  constructor; cbn [h_coordinator h_responses h_emitted m_context_table m_request_id_counter].
  - done.
  - by rewrite length_alter.
  - by rewrite length_alter.
  - unfold base. cbn [h_responses h_coordinator m_context_table]. rewrite length_alter, Hcont.
    intros j c Hj. change (m_elements_exists (set_slot i c' (table h)))
      with (m_elements_exists (table h)). destruct (decide (j = k)) as [->|Hne'].
    + rewrite list_lookup_insert_eq in Hj by (by eapply lookup_lt_Some).
      injection Hj as <-. exact (Hi _ _ Hslot).
    + rewrite list_lookup_insert_ne in Hj by done. by apply Hi.
  - rewrite Hcont. apply Forall_insert; [done|]. by intros _.
  - exists fin, pre. rewrite Hcont, Hmap, add_head_alter, Hr. split; [done|]. split.
    + pose proof (base_finished h fin pre Ht Hr) as Hbase.
      replace (Z.to_nat id) with (length fin + k)%nat by (unfold k; lia). by rewrite alter_app_r.
    + intros E. apply Hp. apply (f_equal length) in E. rewrite length_insert in E.
      by destruct (contents (table h)).
Qed.

Lemma consecutive_replace b c c' cs :
  consecutive b (c :: cs) -> m_request_id c' = m_request_id c -> consecutive b (c' :: cs).
Proof.
  intros Hi Hc j d Hj. destruct j as [|j]; simpl in Hj; [|by apply (Hi (S j))].
  injection Hj as <-. rewrite Hc. by apply (Hi 0%nat).
Qed.

Lemma pop_ok h : history_ok h -> history_ok (step h op_pop).
Proof.
  intros Hok. pose proof Hok as [Ht Hc Hb Hi Hl (fin & pre & He & Hr & Hp)]. cbn [step].
  unfold pop_ready_buffers. destruct (closed (h_coordinator h)) eqn:Ecl; [done|].
  destruct (table_empty (table h)) eqn:Ee; [by destruct h|].
  pose proof (front_contents _ Ht Ee) as Hfront.
  pose proof Ee as Hlt. apply Nat.eqb_neq in Hlt.
  destruct (front (table h)) as [id groups flags] eqn:Efr. unfold dequeue_group. cbn [m_write_groups].
  destruct groups as [|g gs]; [by destruct h|]. cbn [m_request_id m_response_output_flags].
  set (c' := mk_context id gs flags).
  destruct (contents_set_slot (table h) 0 c' Ht ltac:(lia)) as [Ht' Hcont].
  rewrite Nat.add_0_r, Nat.mod_small in Ht', Hcont by apply Ht.
  destruct (contents (table h)) as [|c cs] eqn:Ecs; [done|]. cbn in Hfront. injection Hfront as ->.
  cbn [insert list_insert] in Hcont.
  pose proof (consecutive_replace _ _ c' _ Hi eq_refl) as Hi'.
  apply Forall_cons_iff in Hl as [Hl1 Hl2].
  assert (Htok : context_tokens (mk_context id (g :: gs) flags) = group_tokens g ++ context_tokens c')
    by done.
  cbn [map add_head] in Hr. rewrite Htok in Hr.
  destruct (is_complete c') eqn:Ecomp.
  - unfold is_complete, context_empty in Ecomp. apply andb_prop in Ecomp as [Eg Efin].
    cbn [c' m_write_groups] in Eg. destruct gs; [|done].
    unfold pop_response_context.
    replace (table_empty (set_slot (m_first_element_index (table h)) c' (table h))) with false
      by (symmetry; exact Ee).
    destruct (pop_contents _ _ _ Ht' Hcont eq_refl) as [Ht2 Hcont2].
    constructor; cbn [h_coordinator h_responses h_emitted m_context_table m_request_id_counter];
      try done.
    + unfold base. cbn [h_responses h_coordinator m_context_table]. rewrite Hcont2.
      intros j c Hj. rewrite (Hi' (S j) c Hj). unfold base. cbn -[Z.of_nat]. lia.
    + by rewrite Hcont2.
    + exists (fin ++ [pre ++ group_tokens g]), []. rewrite Hcont2, He, Hr, concat_app. split; [|split].
      1, 2: cbn; rewrite ?app_nil_r, <- ?app_assoc; cbn; by destruct cs.
      done.
  - constructor; cbn [h_coordinator h_responses h_emitted m_context_table m_request_id_counter];
      try done.
    + unfold base in *. cbn [h_responses h_coordinator m_context_table set_slot m_elements_exists].
      by rewrite Hcont.
    + rewrite Hcont. constructor; [|done]. intros Hf Hg. cbn in Hf, Hg.
      unfold is_complete, context_empty in Ecomp. cbn [c' m_write_groups m_response_output_flags] in Ecomp.
      rewrite Hg, Hf in Ecomp. by case_bool_decide.
    + exists fin, (pre ++ group_tokens g). rewrite Hcont, He, Hr. cbn [map add_head].
      rewrite <- !app_assoc. done.
Qed.

Definition run (n : nat) (ops : list op) : history := fold_left step ops (start n).

Lemma step_responses h o : (length (h_responses (step h o)) <= S (length (h_responses h)))%nat.
Proof.
  destruct o; cbn [step].
  - destruct (register_new_request _) as [[c i]|]; simpl; rewrite ?length_app; simpl; lia.
  - destruct (append_response _ _ _ _); simpl; rewrite ?length_alter; lia.
  - destruct (pop_ready_buffers _) as [[c [[g i]|]]|]; simpl; lia.
Qed.

Lemma step_ok h o :
  history_ok h -> Z.of_nat (length (h_responses h)) + 1 < 2 ^ 32 -> history_ok (step h o).
Proof. destruct o; [apply register_ok|intros; by apply append_ok|intros; by apply pop_ok]. Qed.

Lemma run_ok n ops :
  (0 < n)%nat -> Z.of_nat (length ops) + 1 < 2 ^ 32 ->
  history_ok (run n ops) /\ (length (h_responses (run n ops)) <= length ops)%nat.
Proof.
  intros Hn. unfold run. induction ops as [|o ops IH] using rev_ind; intros Hlen.
  - split; [by apply start_ok|simpl; lia].
  - rewrite length_app in Hlen. simpl in Hlen. destruct IH as [IH1 IH2]; [lia|].
    rewrite fold_left_app. simpl. split; [apply step_ok; [done|lia]|].
    pose proof (step_responses (fold_left step ops (start n)) o). rewrite length_app. simpl. lia.
Qed.

Lemma history_tokens h :
  history_ok h -> h_emitted h ++ flat_map context_tokens (contents (table h)) = concat (h_responses h).
Proof.
  intros [_ _ _ _ _ (fin & pre & He & Hr & Hp)].
  rewrite He, Hr, concat_app, <- app_assoc, flat_map_concat_map. f_equal.
  destruct (contents (table h)) as [|c cs]; simpl; [by rewrite Hp|]. by rewrite <- app_assoc.
Qed.

(** C8. Pipelining: whatever the order in which handlers append the parts of
    their responses, what has been handed out for writing followed by what is
    still queued is the concatenation, in the order of the requests, of the
    responses as they were accepted, each completion callback directly after
    the parts it belongs to; nothing is lost, duplicated or mixed. *)
Theorem responses_in_request_order (n : nat) (ops : list op) :
  (0 < n)%nat -> Z.of_nat (length ops) + 1 < 2 ^ 32 ->
  let h := run n ops in
  h_emitted h ++ flat_map context_tokens (contents (table h)) = concat (h_responses h).
Proof.
  intros Hn Hlen. apply history_tokens. by apply run_ok.
Qed.

(** When an append is accepted: the coordinator has not been closed by an
    earlier response, the request is registered, its response has not been
    handed out completely, and it has not been marked final. *)
Theorem append_accepted_iff (n : nat) (ops : list op) (id : Z) (flags : response_output_flags_t)
    (wg : write_group_t) :
  (0 < n)%nat -> Z.of_nat (length ops) + 1 < 2 ^ 32 ->
  let h := run n ops in
  is_ok (append_response id flags wg (h_coordinator h)) = true
  <-> closed (h_coordinator h) = false
      /\ exists c, In c (contents (table h)) /\ m_request_id c = id
                   /\ m_response_parts (m_response_output_flags c) = not_final_parts.
Proof.
  intros Hn Hlen h. destruct (run_ok n ops Hn Hlen) as [Hok _]. fold h in Hok.
  unfold append_response. destruct (closed (h_coordinator h)); [simpl; naive_solver|].
  rewrite (get_history h id Hok). pose proof Hok as [Ht _ _ Hi _ _].
  assert (Hin : forall c, In c (contents (table h)) -> exists k, contents (table h) !! k = Some c
             /\ (k < m_elements_exists (table h))%nat).
  { intros c Hc. apply list_elem_of_In, list_elem_of_lookup in Hc as [k Hk]. exists k. split; [done|].
    apply lookup_lt_Some in Hk. by rewrite contents_length in Hk. }
  destruct (Z.leb_spec (base h) id) as [H1|H1]; cbn [andb].
  2:{ split; [done|]. intros (_ & c & Hc & <- & _). destruct (Hin c Hc) as (k & Hk & _).
      rewrite (Hi _ _ Hk) in H1. lia. }
  destruct (Z.ltb_spec id (Z.of_nat (length (h_responses h)))) as [H2|H2].
  2:{ split; [done|]. intros (_ & c & Hc & <- & _). destruct (Hin c Hc) as (k & Hk & Hlt).
      rewrite (Hi _ _ Hk) in H2. unfold base in H2. lia. }
  set (k := Z.to_nat (id - base h)).
  assert (Hk : (k < m_elements_exists (table h))%nat) by (unfold k, base in *; lia).
  pose proof (contents_slot (table h) k Ht Hk) as Hslot.
  set (c0 := slot _ (table h)) in *.
  assert (Hid : m_request_id c0 = id) by (rewrite (Hi _ _ Hslot); unfold k; lia).
  split.
  - case_bool_decide as Hf; [done|]. intros _. split; [done|]. exists c0. split; [|split; [done|]].
    + by eapply list_elem_of_In, list_elem_of_lookup_2.
    + by destruct (m_response_parts (m_response_output_flags c0)).
  - intros (_ & c & Hc & Hcid & Hnf). destruct (Hin c Hc) as (j & Hj & _).
    assert (j = k) as -> by (rewrite (Hi _ _ Hj) in Hcid; unfold k; lia).
    rewrite Hslot in Hj. injection Hj as ->. case_bool_decide as Hf; [by rewrite Hnf in Hf|done].
Qed.

(** *** reset *)

Definition callbacks (ts : list token) : list Z :=
  omap (fun t => match t with callback cb => Some cb | item _ => None end) ts.

Lemma drain_context_spec gs : drain_context gs = callbacks (flat_map group_tokens gs).
Proof.
  induction gs as [|g gs IH]; [done|]. cbn [drain_context flat_map]. unfold callbacks in *.
  rewrite omap_app, <- IH. unfold group_tokens. rewrite omap_app.
  assert (E : omap (fun t => match t with callback cb => Some cb | item _ => None end)
                (map item (m_items g)) = []) by (induction (m_items g); [done|by simpl]).
  rewrite E. simpl. by destruct (m_after_write_notificator g).
Qed.

Lemma reset_loop_spec t :
  table_ok t ->
  let '(t', called) := reset_loop (m_elements_exists t) t in
  table_ok t' /\ table_empty t' = true
  /\ called = callbacks (flat_map context_tokens (contents t)).
Proof.
  remember (m_elements_exists t) as n eqn:En. revert t En.
  induction n as [|n IH]; intros t En Hok; cbn [reset_loop].
  - split; [done|]. unfold table_empty, contents. by rewrite <- En, take_0.
  - unfold table_empty at 1. rewrite <- En. cbn [Nat.eqb].
    assert (Ee : table_empty t = false) by (unfold table_empty; by rewrite <- En).
    pose proof (front_contents t Hok Ee) as Hf.
    set (c' := mk_context (m_request_id (front t)) [] (m_response_output_flags (front t))).
    destruct (contents_set_slot t 0 c' Hok ltac:(lia)) as [Hok1 Hc1].
    rewrite Nat.add_0_r, Nat.mod_small in Hok1, Hc1 by apply Hok.
    destruct (contents t) as [|c cs] eqn:Ec; [done|]. cbn in Hf. injection Hf as ->.
    cbn [insert list_insert] in Hc1.
    destruct (pop_contents _ _ _ Hok1 Hc1 eq_refl) as [Hok2 Hc2].
    specialize (IH (pop_response_context_nonchecked (set_slot (m_first_element_index t) c' t))).
    destruct (reset_loop n _) as [t' called'].
    destruct IH as (H1 & H2 & H3); [simpl; lia|done|]. split; [done|]. split; [done|].
    rewrite H3, Hc2, drain_context_spec. unfold callbacks. cbn [flat_map]. by rewrite omap_app.
Qed.

(** [reset] leaves no context and calls the completion callback of every
    group still queued, once each and in order: together with those handed out
    they are all the callbacks of the accepted responses. *)
Theorem reset_calls_pending_callbacks (n : nat) (ops : list op) :
  (0 < n)%nat -> Z.of_nat (length ops) + 1 < 2 ^ 32 ->
  let h := run n ops in
  let '(c, called) := reset (h_coordinator h) in
  table_empty (m_context_table c) = true
  /\ callbacks (h_emitted h) ++ called = callbacks (concat (h_responses h)).
Proof.
  intros Hn Hlen h. destruct (run_ok n ops Hn Hlen) as [Hok _]. fold h in Hok.
  unfold reset. pose proof (reset_loop_spec (table h) (ok_table h Hok)) as Hs.
  destruct (reset_loop _ _) as [t' called]. destruct Hs as (_ & H1 & ->). split; [done|].
  unfold callbacks. rewrite <- omap_app. f_equal. by apply history_tokens.
Qed.

(** *** Progress *)

Definition answered (c : response_context_t) : Prop :=
  m_response_output_flags c = mk_flags final_parts connection_keepalive.

Definition queued_groups (h : history) : nat :=
  length (flat_map m_write_groups (contents (table h))).

Lemma pop_progress h :
  history_ok h -> closed (h_coordinator h) = false -> Forall answered (contents (table h)) ->
  contents (table h) <> [] ->
  let h' := step h op_pop in
  h_responses h' = h_responses h /\ closed (h_coordinator h') = false
  /\ Forall answered (contents (table h')) /\ queued_groups h = S (queued_groups h').
Proof.
  intros [Ht _ _ _ Hl _] Hcl Hans Hne. cbn [step]. unfold pop_ready_buffers. rewrite Hcl.
  pose proof (contents_length _ Ht) as Hlen.
  destruct (table_empty (table h)) eqn:Ee.
  { apply Nat.eqb_eq in Ee. rewrite Ee in Hlen. by destruct (contents (table h)). }
  pose proof (front_contents _ Ht Ee) as Hfront. apply Nat.eqb_neq in Ee as Hlt.
  destruct (front (table h)) as [id groups flags]. unfold queued_groups.
  destruct (contents (table h)) as [|c cs] eqn:Ecs; [done|]. cbn in Hfront. injection Hfront as ->.
  apply Forall_cons_iff in Hl as [Hl1 _]. apply Forall_cons_iff in Hans as [Ha1 Ha2].
  unfold answered in Ha1. cbn in Ha1. subst flags. unfold dequeue_group. cbn [m_write_groups].
  destruct groups as [|g gs]; [by destruct (Hl1 eq_refl)|].
  cbn [m_request_id m_response_output_flags].
  set (c' := mk_context id gs _).
  destruct (contents_set_slot (table h) 0 c' Ht ltac:(lia)) as [Ht' Hcont].
  rewrite Nat.add_0_r, Nat.mod_small, Ecs in Hcont by apply Ht.
  rewrite Nat.add_0_r, Nat.mod_small in Ht' by apply Ht. cbn [insert list_insert] in Hcont.
  destruct gs as [|g' gs].
  - unfold pop_response_context. cbn [is_complete].
    change (is_complete c') with true. cbv iota.
    replace (table_empty (set_slot (m_first_element_index (table h)) c' (table h))) with false
      by (symmetry; by apply Nat.eqb_neq).
    destruct (pop_contents _ _ _ Ht' Hcont eq_refl) as [_ Hcont2].
    cbn [h_coordinator h_responses m_context_table]. by rewrite Hcont2.
  - change (is_complete c') with false. cbv iota. cbn [h_coordinator h_responses m_context_table].
    rewrite Hcont. split_and!; try done. by constructor.
Qed.

(** Progress: when every request still in the table has its final,
    keep-alive response, taking out ready buffers as often as there are queued
    groups hands out everything that was accepted and empties the table. *)
Theorem answered_requests_drain (n : nat) (ops : list op) :
  (0 < n)%nat -> Z.of_nat (length ops) + 1 < 2 ^ 32 ->
  let h := run n ops in
  closed (h_coordinator h) = false -> Forall answered (contents (table h)) ->
  let h' := fold_left step (repeat op_pop (queued_groups h)) h in
  contents (table h') = [] /\ h_emitted h' = concat (h_responses h).
Proof.
  intros Hn Hlen h. destruct (run_ok n ops Hn Hlen) as [Hok _]. fold h in Hok.
  clearbody h. remember (queued_groups h) as k eqn:Ek. revert h Hok Ek.
  induction k as [|k IH]; intros h Hok Ek Hcl Hans; cbn [repeat fold_left].
  - assert (E : contents (table h) = []).
    { destruct (contents (table h)) as [|c cs] eqn:Ecs; [done|exfalso].
      destruct (pop_progress h Hok Hcl ltac:(by rewrite Ecs) ltac:(by rewrite Ecs)) as (_ & _ & _ & Hq).
      lia. }
    split; [done|]. rewrite <- (history_tokens h Hok), E. by rewrite app_nil_r.
  - destruct (decide (contents (table h) = [])) as [E|E].
    { unfold queued_groups in Ek. by rewrite E in Ek. }
    destruct (pop_progress h Hok Hcl Hans E) as (Hr & Hcl' & Hans' & Hq).
    rewrite <- Hr. apply IH; [by apply pop_ok|lia|done|done].
Qed.

(** *** Witnesses *)

Definition keep : response_output_flags_t := mk_flags final_parts connection_keepalive.
Definition text (b : list byte) (cb : option Z) : write_group_t :=
  mk_group [trivial_write_operation b] 0 cb.

(** The second request is answered before the first. *)
Definition out_of_order : list op :=
  [op_register; op_register; op_append 1 keep (text (bs "two") (Some 7)); op_pop;
   op_append 0 keep (text (bs "one") None); op_pop].

Lemma responses_in_request_order_witness :
  h_emitted (run 2 out_of_order) = [item (trivial_write_operation (bs "one"))]
  /\ h_emitted (run 2 out_of_order) ++ flat_map context_tokens (contents (table (run 2 out_of_order)))
     = [item (trivial_write_operation (bs "one")); item (trivial_write_operation (bs "two")); callback 7].
Proof.
  split; [vm_compute; reflexivity|].
  rewrite (responses_in_request_order 2 out_of_order); [vm_compute; reflexivity|lia|vm_compute; reflexivity].
Defined.

Lemma append_accepted_iff_witness :
  is_ok (append_response 0 keep (text (bs "x") None) (h_coordinator (run 2 [op_register]))) = true.
Proof.
  apply (append_accepted_iff 2 [op_register]); [lia|vm_compute; reflexivity|].
  split; [reflexivity|]. exists context0. split; [by left|]. split; reflexivity.
Defined.

Lemma reset_calls_pending_callbacks_witness :
  snd (reset (h_coordinator (run 2 out_of_order))) = [7].
Proof.
  pose proof (reset_calls_pending_callbacks 2 out_of_order ltac:(lia) ltac:(vm_compute; reflexivity)) as H.
  exact (proj2 H).
Defined.

Lemma answered_requests_drain_witness :
  h_emitted (fold_left step (repeat op_pop (queued_groups (run 2 out_of_order))) (run 2 out_of_order))
  = [item (trivial_write_operation (bs "one")); item (trivial_write_operation (bs "two")); callback 7].
Proof.
  destruct (answered_requests_drain 2 out_of_order) as [_ H];
    [lia|vm_compute; reflexivity|vm_compute; reflexivity| |exact H].
  vm_compute. by repeat constructor.
Defined.

End Coordinator.
