(* ===== verification/HttpFields.v ===== *)
(** * HTTP field names

    Model of the name tables of src/web/restinio/restinio/http_headers.hpp
    ([http_field_t], [string_to_field], [field_to_string]) and of the caseless
    comparison they use (impl/to_lower_lut.hpp, impl/string_caseless_compare.hpp).
    The enumeration and the [switch] over the name length are transcribed entry
    by entry. *)

From S2P Require Import Prelude.

(** ** Caseless comparison *)

Module Caseless.

Definition to_lower_lut : list Z :=
  [0x00; 0x01; 0x02; 0x03; 0x04; 0x05; 0x06; 0x07; 0x08; 0x09; 0x0A; 0x0B; 0x0C; 0x0D; 0x0E; 0x0F;
   0x10; 0x11; 0x12; 0x13; 0x14; 0x15; 0x16; 0x17; 0x18; 0x19; 0x1A; 0x1B; 0x1C; 0x1D; 0x1E; 0x1F;
   0x20; 0x21; 0x22; 0x23; 0x24; 0x25; 0x26; 0x27; 0x28; 0x29; 0x2A; 0x2B; 0x2C; 0x2D; 0x2E; 0x2F;
   0x30; 0x31; 0x32; 0x33; 0x34; 0x35; 0x36; 0x37; 0x38; 0x39; 0x3A; 0x3B; 0x3C; 0x3D; 0x3E; 0x3F;
   0x40; 0x61; 0x62; 0x63; 0x64; 0x65; 0x66; 0x67; 0x68; 0x69; 0x6A; 0x6B; 0x6C; 0x6D; 0x6E; 0x6F;
   0x70; 0x71; 0x72; 0x73; 0x74; 0x75; 0x76; 0x77; 0x78; 0x79; 0x7A; 0x5B; 0x5C; 0x5D; 0x5E; 0x5F;
   0x60; 0x61; 0x62; 0x63; 0x64; 0x65; 0x66; 0x67; 0x68; 0x69; 0x6A; 0x6B; 0x6C; 0x6D; 0x6E; 0x6F;
   0x70; 0x71; 0x72; 0x73; 0x74; 0x75; 0x76; 0x77; 0x78; 0x79; 0x7A; 0x7B; 0x7C; 0x7D; 0x7E; 0x7F;
   0x80; 0x81; 0x82; 0x83; 0x84; 0x85; 0x86; 0x87; 0x88; 0x89; 0x8A; 0x8B; 0x8C; 0x8D; 0x8E; 0x8F;
   0x90; 0x91; 0x92; 0x93; 0x94; 0x95; 0x96; 0x97; 0x98; 0x99; 0x9A; 0x9B; 0x9C; 0x9D; 0x9E; 0x9F;
   0xA0; 0xA1; 0xA2; 0xA3; 0xA4; 0xA5; 0xA6; 0xA7; 0xA8; 0xA9; 0xAA; 0xAB; 0xAC; 0xAD; 0xAE; 0xAF;
   0xB0; 0xB1; 0xB2; 0xB3; 0xB4; 0xB5; 0xB6; 0xB7; 0xB8; 0xB9; 0xBA; 0xBB; 0xBC; 0xBD; 0xBE; 0xBF;
   0xC0; 0xC1; 0xC2; 0xC3; 0xC4; 0xC5; 0xC6; 0xC7; 0xC8; 0xC9; 0xCA; 0xCB; 0xCC; 0xCD; 0xCE; 0xCF;
   0xD0; 0xD1; 0xD2; 0xD3; 0xD4; 0xD5; 0xD6; 0xD7; 0xD8; 0xD9; 0xDA; 0xDB; 0xDC; 0xDD; 0xDE; 0xDF;
   0xE0; 0xE1; 0xE2; 0xE3; 0xE4; 0xE5; 0xE6; 0xE7; 0xE8; 0xE9; 0xEA; 0xEB; 0xEC; 0xED; 0xEE; 0xEF;
   0xF0; 0xF1; 0xF2; 0xF3; 0xF4; 0xF5; 0xF6; 0xF7; 0xF8; 0xF9; 0xFA; 0xFB; 0xFC; 0xFD; 0xFE; 0xFF].

Definition to_lower_case (ch : byte) : byte := b8 (nth (Z.to_nat (u8 ch)) to_lower_lut 0).

(** [is_equal_caseless(a, b, size)]: compares the first [size] octets. *)
Fixpoint is_equal_caseless_n (size : nat) (a b : list byte) : bool :=
  match size, a, b with
  | O, _, _ => true
  | S n, x :: a', y :: b' =>
      if negb (nth (Z.to_nat (u8 x)) to_lower_lut 0 =? nth (Z.to_nat (u8 y)) to_lower_lut 0)
      then false else is_equal_caseless_n n a' b'
  | S _, _, _ => false
  end.

(** [is_equal_caseless(string_view_t, string_view_t)] *)
Definition is_equal_caseless (a b : list byte) : bool :=
  if (length a =? length b)%nat then is_equal_caseless_n (length a) a b else false.

(** ASCII case folding, the intended meaning of the table. *)
Definition ascii_lower (z : Z) : Z := if (0x41 <=? z) && (z <=? 0x5A) then z + 0x20 else z.

Lemma to_lower_lut_ascii b : nth (Z.to_nat (u8 b)) to_lower_lut 0 = ascii_lower (u8 b).
Proof.
  by apply (byte_all_eqZ (fun b => nth (Z.to_nat (u8 b)) to_lower_lut 0)
                         (fun b => ascii_lower (u8 b))).
Qed.

Definition fold_case (s : list byte) : list Z := map (fun b => ascii_lower (u8 b)) s.

Lemma is_equal_caseless_n_iff n a b :
  (n <= length a)%nat -> (n <= length b)%nat ->
  is_equal_caseless_n n a b = true <-> fold_case (take n a) = fold_case (take n b).
Proof.
  revert a b. induction n as [|n IH]; intros [|x a] [|y b] Ha Hb;
    cbn [length is_equal_caseless_n take] in *; try lia; try done.
  rewrite !to_lower_lut_ascii. cbn [fold_case map]. destruct (Z.eqb_spec (ascii_lower (u8 x)) (ascii_lower (u8 y))); cbn [negb].
  - rewrite IH by lia. unfold fold_case. split; [congruence|by intros [=]].
  - split; [done|by intros [=]].
Qed.

Lemma is_equal_caseless_iff a b : is_equal_caseless a b = true <-> fold_case a = fold_case b.
Proof.
  unfold is_equal_caseless. destruct (Nat.eqb_spec (length a) (length b)) as [E|E].
  - rewrite is_equal_caseless_n_iff by lia. by rewrite E at 2; rewrite !firstn_all.
  - split; [done|]. intros H%(f_equal length). unfold fold_case in H. rewrite !length_map in H. lia.
Qed.

Lemma is_equal_caseless_full a b :
  length a = length b -> is_equal_caseless_n (length a) a b = is_equal_caseless a b.
Proof. intros E. unfold is_equal_caseless. by rewrite (proj2 (Nat.eqb_eq _ _) E). Qed.

#[global] Instance is_equal_caseless_equiv : Equivalence (fun a b => is_equal_caseless a b = true).
Proof.
  split; repeat intro; rewrite ?is_equal_caseless_iff in *; congruence.
Qed.

End Caseless.

(** ** Field identifiers *)

Module HttpField.
Import Caseless.

Inductive http_field_t :=
| a_im
| accept
| accept_additions
| accept_charset
| accept_datetime
| accept_encoding
| accept_features
| accept_language
| accept_patch
| accept_post
| accept_ranges
| age
| allow
| alpn
| alt_svc
| alt_used
| alternates
| apply_to_redirect_ref
| authentication_control
| authentication_info
| authorization
| c_ext
| c_man
| c_opt
| c_pep
| c_pep_info
| cache_control
| caldav_timezones
| close
| content_base
| content_disposition
| content_encoding
| content_id
| content_language
| content_location
| content_md5
| content_range
| content_script_type
| content_style_type
| content_type
| content_version
| cookie
| cookie2
| dasl
| dav
| date
| default_style
| delta_base
| depth
| derived_from
| destination
| differential_id
| digest
| etag
| expect
| expires
| ext
| forwarded
| from
| getprofile
| hobareg
| host
| http2_settings
| im
| if_
| if_match
| if_modified_since
| if_none_match
| if_range
| if_schedule_tag_match
| if_unmodified_since
| keep_alive
| label
| last_modified
| link
| location
| lock_token
| man
| max_forwards
| memento_datetime
| meter
| mime_version
| negotiate
| opt
| optional_www_authenticate
| ordering_type
| origin
| overwrite
| p3p
| pep
| pics_label
| pep_info
| position
| pragma
| prefer
| preference_applied
| profileobject
| protocol
| protocol_info
| protocol_query
| protocol_request
| proxy_authenticate
| proxy_authentication_info
| proxy_authorization
| proxy_features
| proxy_instruction
| public_
| public_key_pins
| public_key_pins_report_only
| range
| redirect_ref
| referer
| retry_after
| safe
| schedule_reply
| schedule_tag
| sec_websocket_accept
| sec_websocket_extensions
| sec_websocket_key
| sec_websocket_protocol
| sec_websocket_version
| security_scheme
| server
| set_cookie
| set_cookie2
| setprofile
| slug
| soapaction
| status_uri
| strict_transport_security
| surrogate_capability
| surrogate_control
| tcn
| te
| timeout
| topic
| trailer
| transfer_encoding
| ttl
| urgency
| uri
| upgrade
| user_agent
| variant_vary
| vary
| via
| www_authenticate
| want_digest
| warning
| x_frame_options
| access_control
| access_control_allow_credentials
| access_control_allow_headers
| access_control_allow_methods
| access_control_allow_origin
| access_control_max_age
| access_control_request_method
| access_control_request_headers
| compliance
| content_transfer_encoding
| cost
| ediint_features
| message_id
| method_check
| method_check_expires
| non_compliance
| optional
| referer_root
| resolution_hint
| resolver_location
| subok
| subst
| title
| ua_color
| ua_media
| ua_pixels
| ua_resolution
| ua_windowpixels
| version
| x_device_accept
| x_device_accept_charset
| x_device_accept_encoding
| x_device_accept_language
| x_device_user_agent
| field_unspecified.

(** [field_to_string] *)
Definition field_to_string (f : http_field_t) : list byte :=
  bs match f with
  | a_im => "A-IM"
  | accept => "Accept"
  | accept_additions => "Accept-Additions"
  | accept_charset => "Accept-Charset"
  | accept_datetime => "Accept-Datetime"
  | accept_encoding => "Accept-Encoding"
  | accept_features => "Accept-Features"
  | accept_language => "Accept-Language"
  | accept_patch => "Accept-Patch"
  | accept_post => "Accept-Post"
  | accept_ranges => "Accept-Ranges"
  | age => "Age"
  | allow => "Allow"
  | alpn => "ALPN"
  | alt_svc => "Alt-Svc"
  | alt_used => "Alt-Used"
  | alternates => "Alternates"
  | apply_to_redirect_ref => "Apply-To-Redirect-Ref"
  | authentication_control => "Authentication-Control"
  | authentication_info => "Authentication-Info"
  | authorization => "Authorization"
  | c_ext => "C-Ext"
  | c_man => "C-Man"
  | c_opt => "C-Opt"
  | c_pep => "C-PEP"
  | c_pep_info => "C-PEP-Info"
  | cache_control => "Cache-Control"
  | caldav_timezones => "CalDAV-Timezones"
  | close => "Close"
  | content_base => "Content-Base"
  | content_disposition => "Content-Disposition"
  | content_encoding => "Content-Encoding"
  | content_id => "Content-ID"
  | content_language => "Content-Language"
  | content_location => "Content-Location"
  | content_md5 => "Content-MD5"
  | content_range => "Content-Range"
  | content_script_type => "Content-Script-Type"
  | content_style_type => "Content-Style-Type"
  | content_type => "Content-Type"
  | content_version => "Content-Version"
  | cookie => "Cookie"
  | cookie2 => "Cookie2"
  | dasl => "DASL"
  | dav => "DAV"
  | date => "Date"
  | default_style => "Default-Style"
  | delta_base => "Delta-Base"
  | depth => "Depth"
  | derived_from => "Derived-From"
  | destination => "Destination"
  | differential_id => "Differential-ID"
  | digest => "Digest"
  | etag => "ETag"
  | expect => "Expect"
  | expires => "Expires"
  | ext => "Ext"
  | forwarded => "Forwarded"
  | from => "From"
  | getprofile => "GetProfile"
  | hobareg => "Hobareg"
  | host => "Host"
  | http2_settings => "HTTP2-Settings"
  | im => "IM"
  | if_ => "If"
  | if_match => "If-Match"
  | if_modified_since => "If-Modified-Since"
  | if_none_match => "If-None-Match"
  | if_range => "If-Range"
  | if_schedule_tag_match => "If-Schedule-Tag-Match"
  | if_unmodified_since => "If-Unmodified-Since"
  | keep_alive => "Keep-Alive"
  | label => "Label"
  | last_modified => "Last-Modified"
  | link => "Link"
  | location => "Location"
  | lock_token => "Lock-Token"
  | man => "Man"
  | max_forwards => "Max-Forwards"
  | memento_datetime => "Memento-Datetime"
  | meter => "Meter"
  | mime_version => "MIME-Version"
  | negotiate => "Negotiate"
  | opt => "Opt"
  | optional_www_authenticate => "Optional-WWW-Authenticate"
  | ordering_type => "Ordering-Type"
  | origin => "Origin"
  | overwrite => "Overwrite"
  | p3p => "P3P"
  | pep => "PEP"
  | pics_label => "PICS-Label"
  | pep_info => "Pep-Info"
  | position => "Position"
  | pragma => "Pragma"
  | prefer => "Prefer"
  | preference_applied => "Preference-Applied"
  | profileobject => "ProfileObject"
  | protocol => "Protocol"
  | protocol_info => "Protocol-Info"
  | protocol_query => "Protocol-Query"
  | protocol_request => "Protocol-Request"
  | proxy_authenticate => "Proxy-Authenticate"
  | proxy_authentication_info => "Proxy-Authentication-Info"
  | proxy_authorization => "Proxy-Authorization"
  | proxy_features => "Proxy-Features"
  | proxy_instruction => "Proxy-Instruction"
  | public_ => "Public"
  | public_key_pins => "Public-Key-Pins"
  | public_key_pins_report_only => "Public-Key-Pins-Report-Only"
  | range => "Range"
  | redirect_ref => "Redirect-Ref"
  | referer => "Referer"
  | retry_after => "Retry-After"
  | safe => "Safe"
  | schedule_reply => "Schedule-Reply"
  | schedule_tag => "Schedule-Tag"
  | sec_websocket_accept => "Sec-WebSocket-Accept"
  | sec_websocket_extensions => "Sec-WebSocket-Extensions"
  | sec_websocket_key => "Sec-WebSocket-Key"
  | sec_websocket_protocol => "Sec-WebSocket-Protocol"
  | sec_websocket_version => "Sec-WebSocket-Version"
  | security_scheme => "Security-Scheme"
  | server => "Server"
  | set_cookie => "Set-Cookie"
  | set_cookie2 => "Set-Cookie2"
  | setprofile => "SetProfile"
  | slug => "SLUG"
  | soapaction => "SoapAction"
  | status_uri => "Status-URI"
  | strict_transport_security => "Strict-Transport-Security"
  | surrogate_capability => "Surrogate-Capability"
  | surrogate_control => "Surrogate-Control"
  | tcn => "TCN"
  | te => "TE"
  | timeout => "Timeout"
  | topic => "Topic"
  | trailer => "Trailer"
  | transfer_encoding => "Transfer-Encoding"
  | ttl => "TTL"
  | urgency => "Urgency"
  | uri => "URI"
  | upgrade => "Upgrade"
  | user_agent => "User-Agent"
  | variant_vary => "Variant-Vary"
  | vary => "Vary"
  | via => "Via"
  | www_authenticate => "WWW-Authenticate"
  | want_digest => "Want-Digest"
  | warning => "Warning"
  | x_frame_options => "X-Frame-Options"
  | access_control => "Access-Control"
  | access_control_allow_credentials => "Access-Control-Allow-Credentials"
  | access_control_allow_headers => "Access-Control-Allow-Headers"
  | access_control_allow_methods => "Access-Control-Allow-Methods"
  | access_control_allow_origin => "Access-Control-Allow-Origin"
  | access_control_max_age => "Access-Control-Max-Age"
  | access_control_request_method => "Access-Control-Request-Method"
  | access_control_request_headers => "Access-Control-Request-Headers"
  | compliance => "Compliance"
  | content_transfer_encoding => "Content-Transfer-Encoding"
  | cost => "Cost"
  | ediint_features => "EDIINT-Features"
  | message_id => "Message-ID"
  | method_check => "Method-Check"
  | method_check_expires => "Method-Check-Expires"
  | non_compliance => "Non-Compliance"
  | optional => "Optional"
  | referer_root => "Referer-Root"
  | resolution_hint => "Resolution-Hint"
  | resolver_location => "Resolver-Location"
  | subok => "SubOK"
  | subst => "Subst"
  | title => "Title"
  | ua_color => "UA-Color"
  | ua_media => "UA-Media"
  | ua_pixels => "UA-Pixels"
  | ua_resolution => "UA-Resolution"
  | ua_windowpixels => "UA-Windowpixels"
  | version => "Version"
  | x_device_accept => "X-Device-Accept"
  | x_device_accept_charset => "X-Device-Accept-Charset"
  | x_device_accept_encoding => "X-Device-Accept-Encoding"
  | x_device_accept_language => "X-Device-Accept-Language"
  | x_device_user_agent => "X-Device-User-Agent"
  | field_unspecified => ""
  end.

(** The value of the underlying [std::uint8_t]. *)
Definition field_index (f : http_field_t) : Z :=
  match f with
  | a_im => 0
  | accept => 1
  | accept_additions => 2
  | accept_charset => 3
  | accept_datetime => 4
  | accept_encoding => 5
  | accept_features => 6
  | accept_language => 7
  | accept_patch => 8
  | accept_post => 9
  | accept_ranges => 10
  | age => 11
  | allow => 12
  | alpn => 13
  | alt_svc => 14
  | alt_used => 15
  | alternates => 16
  | apply_to_redirect_ref => 17
  | authentication_control => 18
  | authentication_info => 19
  | authorization => 20
  | c_ext => 21
  | c_man => 22
  | c_opt => 23
  | c_pep => 24
  | c_pep_info => 25
  | cache_control => 26
  | caldav_timezones => 27
  | close => 28
  | content_base => 29
  | content_disposition => 30
  | content_encoding => 31
  | content_id => 32
  | content_language => 33
  | content_location => 34
  | content_md5 => 35
  | content_range => 36
  | content_script_type => 37
  | content_style_type => 38
  | content_type => 39
  | content_version => 40
  | cookie => 41
  | cookie2 => 42
  | dasl => 43
  | dav => 44
  | date => 45
  | default_style => 46
  | delta_base => 47
  | depth => 48
  | derived_from => 49
  | destination => 50
  | differential_id => 51
  | digest => 52
  | etag => 53
  | expect => 54
  | expires => 55
  | ext => 56
  | forwarded => 57
  | from => 58
  | getprofile => 59
  | hobareg => 60
  | host => 61
  | http2_settings => 62
  | im => 63
  | if_ => 64
  | if_match => 65
  | if_modified_since => 66
  | if_none_match => 67
  | if_range => 68
  | if_schedule_tag_match => 69
  | if_unmodified_since => 70
  | keep_alive => 71
  | label => 72
  | last_modified => 73
  | link => 74
  | location => 75
  | lock_token => 76
  | man => 77
  | max_forwards => 78
  | memento_datetime => 79
  | meter => 80
  | mime_version => 81
  | negotiate => 82
  | opt => 83
  | optional_www_authenticate => 84
  | ordering_type => 85
  | origin => 86
  | overwrite => 87
  | p3p => 88
  | pep => 89
  | pics_label => 90
  | pep_info => 91
  | position => 92
  | pragma => 93
  | prefer => 94
  | preference_applied => 95
  | profileobject => 96
  | protocol => 97
  | protocol_info => 98
  | protocol_query => 99
  | protocol_request => 100
  | proxy_authenticate => 101
  | proxy_authentication_info => 102
  | proxy_authorization => 103
  | proxy_features => 104
  | proxy_instruction => 105
  | public_ => 106
  | public_key_pins => 107
  | public_key_pins_report_only => 108
  | range => 109
  | redirect_ref => 110
  | referer => 111
  | retry_after => 112
  | safe => 113
  | schedule_reply => 114
  | schedule_tag => 115
  | sec_websocket_accept => 116
  | sec_websocket_extensions => 117
  | sec_websocket_key => 118
  | sec_websocket_protocol => 119
  | sec_websocket_version => 120
  | security_scheme => 121
  | server => 122
  | set_cookie => 123
  | set_cookie2 => 124
  | setprofile => 125
  | slug => 126
  | soapaction => 127
  | status_uri => 128
  | strict_transport_security => 129
  | surrogate_capability => 130
  | surrogate_control => 131
  | tcn => 132
  | te => 133
  | timeout => 134
  | topic => 135
  | trailer => 136
  | transfer_encoding => 137
  | ttl => 138
  | urgency => 139
  | uri => 140
  | upgrade => 141
  | user_agent => 142
  | variant_vary => 143
  | vary => 144
  | via => 145
  | www_authenticate => 146
  | want_digest => 147
  | warning => 148
  | x_frame_options => 149
  | access_control => 150
  | access_control_allow_credentials => 151
  | access_control_allow_headers => 152
  | access_control_allow_methods => 153
  | access_control_allow_origin => 154
  | access_control_max_age => 155
  | access_control_request_method => 156
  | access_control_request_headers => 157
  | compliance => 158
  | content_transfer_encoding => 159
  | cost => 160
  | ediint_features => 161
  | message_id => 162
  | method_check => 163
  | method_check_expires => 164
  | non_compliance => 165
  | optional => 166
  | referer_root => 167
  | resolution_hint => 168
  | resolver_location => 169
  | subok => 170
  | subst => 171
  | title => 172
  | ua_color => 173
  | ua_media => 174
  | ua_pixels => 175
  | ua_resolution => 176
  | ua_windowpixels => 177
  | version => 178
  | x_device_accept => 179
  | x_device_accept_charset => 180
  | x_device_accept_encoding => 181
  | x_device_accept_language => 182
  | x_device_user_agent => 183
  | field_unspecified => 184
  end.

Definition all_fields : list http_field_t :=
  [a_im; accept; accept_additions; accept_charset;
   accept_datetime; accept_encoding; accept_features; accept_language;
   accept_patch; accept_post; accept_ranges; age;
   allow; alpn; alt_svc; alt_used;
   alternates; apply_to_redirect_ref; authentication_control; authentication_info;
   authorization; c_ext; c_man; c_opt;
   c_pep; c_pep_info; cache_control; caldav_timezones;
   close; content_base; content_disposition; content_encoding;
   content_id; content_language; content_location; content_md5;
   content_range; content_script_type; content_style_type; content_type;
   content_version; cookie; cookie2; dasl;
   dav; date; default_style; delta_base;
   depth; derived_from; destination; differential_id;
   digest; etag; expect; expires;
   ext; forwarded; from; getprofile;
   hobareg; host; http2_settings; im;
   if_; if_match; if_modified_since; if_none_match;
   if_range; if_schedule_tag_match; if_unmodified_since; keep_alive;
   label; last_modified; link; location;
   lock_token; man; max_forwards; memento_datetime;
   meter; mime_version; negotiate; opt;
   optional_www_authenticate; ordering_type; origin; overwrite;
   p3p; pep; pics_label; pep_info;
   position; pragma; prefer; preference_applied;
   profileobject; protocol; protocol_info; protocol_query;
   protocol_request; proxy_authenticate; proxy_authentication_info; proxy_authorization;
   proxy_features; proxy_instruction; public_; public_key_pins;
   public_key_pins_report_only; range; redirect_ref; referer;
   retry_after; safe; schedule_reply; schedule_tag;
   sec_websocket_accept; sec_websocket_extensions; sec_websocket_key; sec_websocket_protocol;
   sec_websocket_version; security_scheme; server; set_cookie;
   set_cookie2; setprofile; slug; soapaction;
   status_uri; strict_transport_security; surrogate_capability; surrogate_control;
   tcn; te; timeout; topic;
   trailer; transfer_encoding; ttl; urgency;
   uri; upgrade; user_agent; variant_vary;
   vary; via; www_authenticate; want_digest;
   warning; x_frame_options; access_control; access_control_allow_credentials;
   access_control_allow_headers; access_control_allow_methods; access_control_allow_origin; access_control_max_age;
   access_control_request_method; access_control_request_headers; compliance; content_transfer_encoding;
   cost; ediint_features; message_id; method_check;
   method_check_expires; non_compliance; optional; referer_root;
   resolution_hint; resolver_location; subok; subst;
   title; ua_color; ua_media; ua_pixels;
   ua_resolution; ua_windowpixels; version; x_device_accept;
   x_device_accept_charset; x_device_accept_encoding; x_device_accept_language; x_device_user_agent;
   field_unspecified].

Definition field_eqb (a b : http_field_t) : bool := field_index a =? field_index b.

(** The [case] labels of [string_to_field]: for each name length, the
    candidates in the order they are compared. *)
Definition candidates_2_9 (size : nat) : list (http_field_t * string) :=
  match size with
  | 2%nat =>
    [(if_, "If"%string);
     (im, "IM"%string);
     (te, "TE"%string)]
  | 3%nat =>
    [(age, "Age"%string);
     (dav, "DAV"%string);
     (ext, "Ext"%string);
     (man, "Man"%string);
     (opt, "Opt"%string);
     (p3p, "P3P"%string);
     (pep, "PEP"%string);
     (tcn, "TCN"%string);
     (ttl, "TTL"%string);
     (uri, "URI"%string);
     (via, "Via"%string)]
  | 4%nat =>
    [(host, "Host"%string);
     (a_im, "A-IM"%string);
     (alpn, "ALPN"%string);
     (dasl, "DASL"%string);
     (date, "Date"%string);
     (etag, "ETag"%string);
     (from, "From"%string);
     (link, "Link"%string);
     (safe, "Safe"%string);
     (slug, "SLUG"%string);
     (vary, "Vary"%string);
     (cost, "Cost"%string)]
  | 5%nat =>
    [(allow, "Allow"%string);
     (c_ext, "C-Ext"%string);
     (c_man, "C-Man"%string);
     (c_opt, "C-Opt"%string);
     (c_pep, "C-PEP"%string);
     (close, "Close"%string);
     (depth, "Depth"%string);
     (label, "Label"%string);
     (meter, "Meter"%string);
     (range, "Range"%string);
     (topic, "Topic"%string);
     (subok, "SubOK"%string);
     (subst, "Subst"%string);
     (title, "Title"%string)]
  | 6%nat =>
    [(accept, "Accept"%string);
     (cookie, "Cookie"%string);
     (server, "Server"%string);
     (digest, "Digest"%string);
     (expect, "Expect"%string);
     (origin, "Origin"%string);
     (pragma, "Pragma"%string);
     (prefer, "Prefer"%string);
     (public_, "Public"%string)]
  | 7%nat =>
    [(alt_svc, "Alt-Svc"%string);
     (cookie2, "Cookie2"%string);
     (expires, "Expires"%string);
     (hobareg, "Hobareg"%string);
     (referer, "Referer"%string);
     (timeout, "Timeout"%string);
     (trailer, "Trailer"%string);
     (urgency, "Urgency"%string);
     (upgrade, "Upgrade"%string);
     (warning, "Warning"%string);
     (version, "Version"%string)]
  | 8%nat =>
    [(alt_used, "Alt-Used"%string);
     (if_match, "If-Match"%string);
     (if_range, "If-Range"%string);
     (location, "Location"%string);
     (pep_info, "Pep-Info"%string);
     (position, "Position"%string);
     (protocol, "Protocol"%string);
     (optional, "Optional"%string);
     (ua_color, "UA-Color"%string);
     (ua_media, "UA-Media"%string)]
  | 9%nat =>
    [(forwarded, "Forwarded"%string);
     (negotiate, "Negotiate"%string);
     (overwrite, "Overwrite"%string);
     (ua_pixels, "UA-Pixels"%string)]
  | _ => []
  end.

Definition candidates_10_15 (size : nat) : list (http_field_t * string) :=
  match size with
  | 10%nat =>
    [(alternates, "Alternates"%string);
     (c_pep_info, "C-PEP-Info"%string);
     (content_id, "Content-ID"%string);
     (delta_base, "Delta-Base"%string);
     (getprofile, "GetProfile"%string);
     (keep_alive, "Keep-Alive"%string);
     (lock_token, "Lock-Token"%string);
     (pics_label, "PICS-Label"%string);
     (set_cookie, "Set-Cookie"%string);
     (setprofile, "SetProfile"%string);
     (soapaction, "SoapAction"%string);
     (status_uri, "Status-URI"%string);
     (user_agent, "User-Agent"%string);
     (compliance, "Compliance"%string);
     (message_id, "Message-ID"%string)]
  | 11%nat =>
    [(accept_post, "Accept-Post"%string);
     (content_md5, "Content-MD5"%string);
     (destination, "Destination"%string);
     (retry_after, "Retry-After"%string);
     (set_cookie2, "Set-Cookie2"%string);
     (want_digest, "Want-Digest"%string)]
  | 12%nat =>
    [(content_type, "Content-Type"%string);
     (accept_patch, "Accept-Patch"%string);
     (content_base, "Content-Base"%string);
     (derived_from, "Derived-From"%string);
     (max_forwards, "Max-Forwards"%string);
     (mime_version, "MIME-Version"%string);
     (schedule_tag, "Schedule-Tag"%string);
     (redirect_ref, "Redirect-Ref"%string);
     (variant_vary, "Variant-Vary"%string);
     (method_check, "Method-Check"%string);
     (referer_root, "Referer-Root"%string)]
  | 13%nat =>
    [(accept_ranges, "Accept-Ranges"%string);
     (authorization, "Authorization"%string);
     (cache_control, "Cache-Control"%string);
     (content_range, "Content-Range"%string);
     (default_style, "Default-Style"%string);
     (if_none_match, "If-None-Match"%string);
     (last_modified, "Last-Modified"%string);
     (ordering_type, "Ordering-Type"%string);
     (profileobject, "ProfileObject"%string);
     (protocol_info, "Protocol-Info"%string);
     (ua_resolution, "UA-Resolution"%string)]
  | 14%nat =>
    [(accept_charset, "Accept-Charset"%string);
     (http2_settings, "HTTP2-Settings"%string);
     (protocol_query, "Protocol-Query"%string);
     (proxy_features, "Proxy-Features"%string);
     (schedule_reply, "Schedule-Reply"%string);
     (non_compliance, "Non-Compliance"%string);
     (access_control, "Access-Control"%string)]
  | 15%nat =>
    [(accept_encoding, "Accept-Encoding"%string);
     (accept_features, "Accept-Features"%string);
     (accept_language, "Accept-Language"%string);
     (accept_datetime, "Accept-Datetime"%string);
     (content_version, "Content-Version"%string);
     (differential_id, "Differential-ID"%string);
     (public_key_pins, "Public-Key-Pins"%string);
     (security_scheme, "Security-Scheme"%string);
     (x_frame_options, "X-Frame-Options"%string);
     (x_device_accept, "X-Device-Accept"%string);
     (resolution_hint, "Resolution-Hint"%string);
     (ediint_features, "EDIINT-Features"%string);
     (ua_windowpixels, "UA-Windowpixels"%string)]
  | _ => []
  end.

Definition candidates_16_22 (size : nat) : list (http_field_t * string) :=
  match size with
  | 16%nat =>
    [(accept_additions, "Accept-Additions"%string);
     (caldav_timezones, "CalDAV-Timezones"%string);
     (content_encoding, "Content-Encoding"%string);
     (content_language, "Content-Language"%string);
     (content_location, "Content-Location"%string);
     (memento_datetime, "Memento-Datetime"%string);
     (protocol_request, "Protocol-Request"%string);
     (www_authenticate, "WWW-Authenticate"%string)]
  | 17%nat =>
    [(if_modified_since, "If-Modified-Since"%string);
     (proxy_instruction, "Proxy-Instruction"%string);
     (sec_websocket_key, "Sec-WebSocket-Key"%string);
     (surrogate_control, "Surrogate-Control"%string);
     (transfer_encoding, "Transfer-Encoding"%string);
     (resolver_location, "Resolver-Location"%string)]
  | 18%nat =>
    [(content_style_type, "Content-Style-Type"%string);
     (preference_applied, "Preference-Applied"%string);
     (proxy_authenticate, "Proxy-Authenticate"%string)]
  | 19%nat =>
    [(authentication_info, "Authentication-Info"%string);
     (content_disposition, "Content-Disposition"%string);
     (content_script_type, "Content-Script-Type"%string);
     (if_unmodified_since, "If-Unmodified-Since"%string);
     (proxy_authorization, "Proxy-Authorization"%string);
     (x_device_user_agent, "X-Device-User-Agent"%string)]
  | 20%nat =>
    [(sec_websocket_accept, "Sec-WebSocket-Accept"%string);
     (surrogate_capability, "Surrogate-Capability"%string);
     (method_check_expires, "Method-Check-Expires"%string)]
  | 21%nat =>
    [(apply_to_redirect_ref, "Apply-To-Redirect-Ref"%string);
     (if_schedule_tag_match, "If-Schedule-Tag-Match"%string);
     (sec_websocket_version, "Sec-WebSocket-Version"%string)]
  | 22%nat =>
    [(authentication_control, "Authentication-Control"%string);
     (sec_websocket_protocol, "Sec-WebSocket-Protocol"%string);
     (access_control_max_age, "Access-Control-Max-Age"%string)]
  | _ => []
  end.

Definition candidates_23_32 (size : nat) : list (http_field_t * string) :=
  match size with
  | 23%nat =>
    [(x_device_accept_charset, "X-Device-Accept-Charset"%string)]
  | 24%nat =>
    [(sec_websocket_extensions, "Sec-WebSocket-Extensions"%string);
     (x_device_accept_encoding, "X-Device-Accept-Encoding"%string);
     (x_device_accept_language, "X-Device-Accept-Language"%string)]
  | 25%nat =>
    [(optional_www_authenticate, "Optional-WWW-Authenticate"%string);
     (proxy_authentication_info, "Proxy-Authentication-Info"%string);
     (strict_transport_security, "Strict-Transport-Security"%string);
     (content_transfer_encoding, "Content-Transfer-Encoding"%string)]
  | 27%nat =>
    [(public_key_pins_report_only, "Public-Key-Pins-Report-Only"%string);
     (access_control_allow_origin, "Access-Control-Allow-Origin"%string)]
  | 28%nat =>
    [(access_control_allow_headers, "Access-Control-Allow-Headers"%string);
     (access_control_allow_methods, "Access-Control-Allow-Methods"%string)]
  | 29%nat =>
    [(access_control_request_method, "Access-Control-Request-Method"%string)]
  | 30%nat =>
    [(access_control_request_headers, "Access-Control-Request-Headers"%string)]
  | 32%nat =>
    [(access_control_allow_credentials, "Access-Control-Allow-Credentials"%string)]
  | _ => []
  end.

Definition candidates (size : nat) : list (http_field_t * string) :=
  candidates_2_9 size ++ candidates_10_15 size ++ candidates_16_22 size ++ candidates_23_32 size.

(** The chain of [RESTINIO_HTTP_CHECK_FOR_FIELD]. *)
Fixpoint first_match (field : list byte) (cs : list (http_field_t * string)) : http_field_t :=
  match cs with
  | [] => field_unspecified
  | (id, name) :: cs' =>
      if is_equal_caseless_n (length field) field (bs name) then id else first_match field cs'
  end.

Definition string_to_field (field : list byte) : http_field_t :=
  first_match field (candidates (length field)).

Lemma all_fields_complete (P : http_field_t -> Prop) :
  Forall P all_fields -> forall f, P f.
Proof.
  intros H. unfold all_fields in H.
  repeat match goal with HF : Forall P (_ :: _) |- _ =>
    apply Forall_cons_iff in HF as [? HF] end.
  intros []; assumption.
Qed.

(** No candidate is compared beyond its own length: the comparison over the
    length of the searched name stays inside the literal. *)
Lemma candidates_length n : Forall (fun c => length (bs (snd c)) = n) (candidates n).
Proof.
  do 33 (destruct n as [|n]; [repeat constructor|]). repeat constructor.
Qed.

Lemma candidates_names n : Forall (fun c => bs (snd c) = field_to_string (fst c)) (candidates n).
Proof.
  do 33 (destruct n as [|n]; [repeat constructor|]). repeat constructor.
Qed.

Lemma field_index_inv f : nth (Z.to_nat (field_index f)) all_fields field_unspecified = f.
Proof. by destruct f. Qed.

Lemma field_eqb_eq a b : field_eqb a b = true <-> a = b.
Proof.
  unfold field_eqb. rewrite Z.eqb_eq. split; [|by intros ->].
  intros H. by rewrite <- (field_index_inv a), H, field_index_inv.
Qed.

#[global] Instance http_field_t_eq_dec : EqDecision http_field_t.
Proof.
  intros a b. destruct (field_eqb a b) eqn:E.
  - left. by apply field_eqb_eq.
  - right. intros ->. rewrite (proj2 (field_eqb_eq b b) eq_refl) in E. done.
Defined.

Lemma first_match_fold s t cs :
  fold_case s = fold_case t -> Forall (fun c => length (bs (snd c)) = length s) cs ->
  first_match s cs = first_match t cs.
Proof.
  intros E. assert (El : length s = length t).
  { apply (f_equal length) in E. unfold fold_case in E. by rewrite !length_map in E. }
  induction 1 as [|[id name] cs Hc _ IH]; [done|]. cbn [first_match snd] in *.
  rewrite IH, !is_equal_caseless_full by lia.
  assert (is_equal_caseless s (bs name) = is_equal_caseless t (bs name)) as ->; [|done].
  apply eq_true_iff_eq. by rewrite !is_equal_caseless_iff, E.
Qed.

Lemma string_to_field_to_string f : string_to_field (field_to_string f) = f.
Proof. revert f. apply all_fields_complete. unfold all_fields. repeat constructor. Qed.

Lemma first_match_In s cs f :
  first_match s cs = f -> f <> field_unspecified ->
  exists name, In (f, name) cs /\ is_equal_caseless_n (length s) s (bs name) = true.
Proof.
  induction cs as [|[id name] cs IH]; simpl; [congruence|].
  destruct (is_equal_caseless_n _ _ _) eqn:E; [intros <- _; eauto|].
  intros H Hf. destruct (IH H Hf) as (n & ? & ?). eauto.
Qed.

Lemma string_to_field_iff (s : list byte) (f : http_field_t) :
  f <> field_unspecified ->
  string_to_field s = f <-> is_equal_caseless s (field_to_string f) = true.
Proof.
  intros Hf. split.
  - intros H. destruct (first_match_In _ _ _ H Hf) as (name & Hin & Hm).
    pose proof (proj1 (Forall_forall _ _) (candidates_names (length s)) _
      Hin) as Hn. simpl in Hn.
    pose proof (proj1 (Forall_forall _ _) (candidates_length (length s)) _
      Hin) as Hl. simpl in Hl.
    rewrite is_equal_caseless_full in Hm by done. by rewrite <- Hn.
  - rewrite is_equal_caseless_iff. intros E.
    rewrite <- (string_to_field_to_string f). unfold string_to_field.
    assert (El : length s = length (field_to_string f)).
    { apply (f_equal length) in E. unfold fold_case in E. by rewrite !length_map in E. }
    rewrite <- El. apply first_match_fold; [done|]. apply candidates_length.
Qed.

(** Field name recognition: for every standard field [f], a name is
    recognised as [f] exactly when it equals the canonical name of [f] up to
    ASCII case, and it is unspecified exactly when it equals none of them.
    Printing a field and recognising it again is the identity. *)
Theorem string_to_field_spec (s : list byte) :
  (forall f, f <> field_unspecified ->
     (string_to_field s = f <-> is_equal_caseless s (field_to_string f) = true))
  /\ (string_to_field s = field_unspecified <->
       forall f, f <> field_unspecified -> is_equal_caseless s (field_to_string f) = false)
  /\ (forall f, string_to_field (field_to_string f) = f).
Proof.
  split; [exact (string_to_field_iff s)|]. split; [|exact string_to_field_to_string].
  split.
  - intros H f Hf. apply not_true_iff_false. rewrite <- string_to_field_iff by done. congruence.
  - intros H. destruct (decide (string_to_field s = field_unspecified)) as [|Hn]; [done|].
    pose proof (proj1 (string_to_field_iff s _ Hn) eq_refl) as E. rewrite H in E; done.
Qed.

End HttpField.
