(* ===== verification/HttpHeaders.v ===== *)
(** * HTTP header fields and request targets

    Model of the field container ([http_header_fields_t]) and of the request
    target of the request header ([http_request_header_t]) of
    src/web/restinio/restinio/http_headers.hpp. *)

From S2P Require Import Prelude HttpFields.

(** ** The field container *)

Module Fields.
Import Caseless HttpField.

Record http_header_field_t := mk_field {
  m_name : list byte;
  m_value : list byte;
  m_field_id : http_field_t
}.

Definition field_by_name (name value : list byte) : http_header_field_t :=
  mk_field name value (string_to_field name).

Definition field_by_id (id : http_field_t) (value : list byte) : http_header_field_t :=
  mk_field (field_to_string id) value id.

Definition set_name (n : list byte) (f : http_header_field_t) : http_header_field_t :=
  mk_field n (m_value f) (string_to_field n).
Definition set_value (v : list byte) (f : http_header_field_t) : http_header_field_t :=
  mk_field (m_name f) v (m_field_id f).
Definition append_value (v : list byte) (f : http_header_field_t) : http_header_field_t :=
  mk_field (m_name f) (m_value f ++ v) (m_field_id f).
Definition set_field_id (id : http_field_t) (f : http_header_field_t) : http_header_field_t :=
  mk_field (field_to_string id) (m_value f) id.

(** [std::vector< http_header_field_t > m_fields] *)
Definition http_header_fields_t := list http_header_field_t.

Definition name_matches (field_name : list byte) (f : http_header_field_t) : bool :=
  is_equal_caseless (m_name f) field_name.
Definition id_matches (id : http_field_t) (f : http_header_field_t) : bool :=
  field_eqb (m_field_id f) id.

(** [find]/[cfind]: [std::find_if] over the container. *)
Fixpoint find_if (p : http_header_field_t -> bool) (l : http_header_fields_t)
  : option http_header_field_t :=
  match l with
  | [] => None
  | f :: l' => if p f then Some f else find_if p l'
  end.

Definition cfind (field_name : list byte) := find_if (name_matches field_name).
Definition cfind_id (id : http_field_t) := find_if (id_matches id).

(** Modification through the iterator [find] returns: [None] is [end()]. *)
Fixpoint modify_first (p : http_header_field_t -> bool)
  (g : http_header_field_t -> http_header_field_t) (l : http_header_fields_t)
  : option http_header_fields_t :=
  match l with
  | [] => None
  | f :: l' => if p f then Some (g f :: l')
               else match modify_first p g l' with Some r => Some (f :: r) | None => None end
  end.

(** [m_fields.erase( it )] at the iterator [find] returns. *)
Fixpoint erase_first (p : http_header_field_t -> bool) (l : http_header_fields_t)
  : option http_header_fields_t :=
  match l with
  | [] => None
  | f :: l' => if p f then Some l'
               else match erase_first p l' with Some r => Some (f :: r) | None => None end
  end.

Definition is_unspecified (id : http_field_t) : bool := field_eqb id field_unspecified.

Definition has_field (field_name : list byte) (h : http_header_fields_t) : bool :=
  match cfind field_name h with Some _ => true | None => false end.
Definition has_field_id (id : http_field_t) (h : http_header_fields_t) : bool :=
  match cfind_id id h with Some _ => true | None => false end.

(** [set_field( http_header_field_t )] *)
Definition set_field_obj (f : http_header_field_t) (h : http_header_fields_t)
  : http_header_fields_t :=
  let it := if negb (is_unspecified (m_field_id f))
            then modify_first (id_matches (m_field_id f)) (fun _ => f) h
            else modify_first (name_matches (m_name f)) (fun _ => f) h in
  match it with Some h' => h' | None => h ++ [f] end.

(** [set_field( std::string, std::string )] *)
Definition set_field (field_name field_value : list byte) (h : http_header_fields_t)
  : http_header_fields_t :=
  match modify_first (name_matches field_name)
          (fun f => set_value field_value (set_name field_name f)) h with
  | Some h' => h'
  | None => h ++ [field_by_name field_name field_value]
  end.

(** [set_field( http_field_t, std::string )] *)
Definition set_field_by_id (id : http_field_t) (field_value : list byte)
  (h : http_header_fields_t) : http_header_fields_t :=
  if negb (is_unspecified id) then
    match modify_first (id_matches id) (set_value field_value) h with
    | Some h' => h'
    | None => h ++ [field_by_id id field_value]
    end
  else h.

Definition add_field_by_id (id : http_field_t) (field_value : list byte)
  (h : http_header_fields_t) : http_header_fields_t :=
  if negb (is_unspecified id) then h ++ [field_by_id id field_value] else h.

Definition add_field (field_name field_value : list byte) (h : http_header_fields_t)
  : http_header_fields_t := h ++ [field_by_name field_name field_value].

Definition add_field_obj (f : http_header_field_t) (h : http_header_fields_t)
  : http_header_fields_t := h ++ [f].

Definition append_field (field_name field_value : list byte) (h : http_header_fields_t)
  : http_header_fields_t :=
  match modify_first (name_matches field_name) (append_value field_value) h with
  | Some h' => h'
  | None => h ++ [field_by_name field_name field_value]
  end.

Definition append_field_by_id (id : http_field_t) (field_value : list byte)
  (h : http_header_fields_t) : http_header_fields_t :=
  if negb (is_unspecified id) then
    match modify_first (id_matches id) (append_value field_value) h with
    | Some h' => h'
    | None => h ++ [field_by_id id field_value]
    end
  else h.

Definition try_get_field (field_name : list byte) (h : http_header_fields_t) : option (list byte) :=
  match cfind field_name h with Some f => Some (m_value f) | None => None end.

Definition get_field (field_name : list byte) (h : http_header_fields_t) : outcome (list byte) :=
  match cfind field_name h with
  | Some f => Ok (m_value f)
  | None => Throw "field doesn't exist"
  end.

Definition try_get_field_by_id (id : http_field_t) (h : http_header_fields_t)
  : option (list byte) :=
  if negb (is_unspecified id) then
    match cfind_id id h with Some f => Some (m_value f) | None => None end
  else None.

Definition get_field_by_id (id : http_field_t) (h : http_header_fields_t) : outcome (list byte) :=
  if is_unspecified id then Throw "unspecified fields cannot be searched by id"
  else match cfind_id id h with
       | Some f => Ok (m_value f)
       | None => Throw "field doesn't exist"
       end.

Definition get_field_or (field_name default_value : list byte) (h : http_header_fields_t)
  : list byte :=
  match cfind field_name h with Some f => m_value f | None => default_value end.

Definition get_field_or_by_id (id : http_field_t) (default_value : list byte)
  (h : http_header_fields_t) : list byte :=
  if negb (is_unspecified id) then
    match cfind_id id h with Some f => m_value f | None => default_value end
  else default_value.

Definition remove_field (field_name : list byte) (h : http_header_fields_t)
  : http_header_fields_t * bool :=
  match erase_first (name_matches field_name) h with
  | Some h' => (h', true)
  | None => (h, false)
  end.

Definition remove_field_by_id (id : http_field_t) (h : http_header_fields_t)
  : http_header_fields_t * bool :=
  if negb (is_unspecified id) then
    match erase_first (id_matches id) h with
    | Some h' => (h', true)
    | None => (h, false)
    end
  else (h, false).

(** The erase loop of [remove_all_of]. *)
Fixpoint remove_loop (p : http_header_field_t -> bool) (h : http_header_fields_t)
  : http_header_fields_t * Z :=
  match h with
  | [] => ([], 0)
  | f :: h' => let '(r, count) := remove_loop p h' in
               if p f then (r, count + 1) else (f :: r, count)
  end.

Definition remove_all_of (field_name : list byte) (h : http_header_fields_t) :=
  remove_loop (name_matches field_name) h.

Definition remove_all_of_id (id : http_field_t) (h : http_header_fields_t) :=
  if negb (is_unspecified id) then remove_loop (id_matches id) h else (h, 0).

(** [append_last_field]: on an empty container [back()] is undefined. *)
Definition append_last_field (field_value : list byte) (h : http_header_fields_t)
  : outcome http_header_fields_t :=
  match rev h with
  | [] => Throw "back() of an empty container"
  | f :: r => Ok (rev r ++ [append_value field_value f])
  end.

(** [for_each_value_of]: the values passed to the callback, in order, where
    [stop] says that the callback returned [stop_enumeration]. *)
Fixpoint for_each_value (p : http_header_field_t -> bool) (stop : list byte -> bool)
  (h : http_header_fields_t) : list (list byte) :=
  match h with
  | [] => []
  | f :: h' =>
      if p f then m_value f :: (if stop (m_value f) then [] else for_each_value p stop h')
      else for_each_value p stop h'
  end.

(** *** Container lemmas *)

Lemma name_matches_iff n f : name_matches n f = true <-> fold_case (m_name f) = fold_case n.
Proof. apply is_equal_caseless_iff. Qed.

Lemma find_if_app p a b :
  find_if p (a ++ b) = match find_if p a with Some f => Some f | None => find_if p b end.
Proof. induction a as [|f a IH]; simpl; [done|]. by destruct (p f). Qed.

Lemma modify_first_None p g l : modify_first p g l = None <-> find_if p l = None.
Proof.
  induction l as [|f l IH]; simpl; [done|]. destruct (p f); [done|].
  destruct (modify_first p g l); [|by destruct IH as [-> _]]. split; [done|]. intros H.
  by apply IH in H.
Qed.

Lemma find_modified p g l l' :
  modify_first p g l = Some l' -> (forall f, p f = true -> p (g f) = true) ->
  find_if p l' = option_map g (find_if p l).
Proof.
  intros H Hp. revert l' H. induction l as [|f l IH]; intros l' H; simpl in *; [done|].
  destruct (p f) eqn:E.
  - injection H as <-. simpl. by rewrite Hp.
  - destruct (modify_first p g l) as [r|]; [|done]. injection H as <-. simpl. rewrite E. by apply IH.
Qed.

Lemma find_other p q g l l' :
  modify_first p g l = Some l' ->
  (forall f, p f = true -> q f = false /\ q (g f) = false) -> find_if q l' = find_if q l.
Proof.
  intros H Hq. revert l' H. induction l as [|f l IH]; intros l' H; simpl in *; [done|].
  destruct (p f) eqn:E.
  - injection H as <-. simpl. by destruct (Hq f E) as [-> ->].
  - destruct (modify_first p g l) as [r|]; [|done]. injection H as <-. simpl.
    destruct (q f); [done|]. by apply IH.
Qed.

Lemma name_matches_refl n v i : name_matches n (mk_field n v i) = true.
Proof. by apply name_matches_iff. Qed.

Lemma names_disjoint n n' f :
  is_equal_caseless n n' = false -> name_matches n f = true -> name_matches n' f = false.
Proof.
  intros Hn Hf. apply not_true_iff_false. rewrite name_matches_iff in *. intros E.
  apply not_true_iff_false in Hn. apply Hn. rewrite is_equal_caseless_iff. congruence.
Qed.

Lemma name_matches_same_name n f g :
  m_name g = m_name f -> name_matches n g = name_matches n f.
Proof. unfold name_matches. by intros ->. Qed.

Lemma name_differs n n' v i :
  is_equal_caseless n n' = false -> name_matches n' (mk_field n v i) = false.
Proof. intros Hn. eapply names_disjoint; [done|]. apply name_matches_refl. Qed.

(** Setting and appending by name: after [set_field n v] the field reads
    [v] whatever was stored before; after [append_field n v] it reads the old
    value followed by [v], or [v] if it was absent; every field of a different
    name (up to case) reads as before. *)
Theorem set_append_get (n v n' : list byte) (h : http_header_fields_t) :
  get_field n (set_field n v h) = Ok v
  /\ get_field n (append_field n v h) = Ok (get_field_or n [] h ++ v)
  /\ (is_equal_caseless n n' = false ->
      try_get_field n' (set_field n v h) = try_get_field n' h
      /\ try_get_field n' (append_field n v h) = try_get_field n' h).
Proof.
  unfold get_field, try_get_field, get_field_or, set_field, append_field, cfind.
  destruct (modify_first (name_matches n) (fun f => set_value v (set_name n f)) h) as [h1|] eqn:E1;
  destruct (modify_first (name_matches n) (append_value v) h) as [h2|] eqn:E2;
  try (rewrite modify_first_None in E1; apply (modify_first_None _ (append_value v)) in E1; congruence);
  try (rewrite modify_first_None in E2; apply (modify_first_None _ (fun f => set_value v (set_name n f))) in E2; congruence).
  - rewrite (find_modified _ _ _ _ E1) by (intros; apply name_matches_refl).
    rewrite (find_modified _ _ _ _ E2) by done.
    destruct (find_if (name_matches n) h) as [f|] eqn:Ef; [|by apply (modify_first_None _ (append_value v)) in Ef; congruence].
    split; [done|]. split; [done|]. intros Hn. split.
    + by rewrite (find_other _ _ _ _ _ E1) by (intros f' Hf'; split;
        [eapply names_disjoint; eauto|by apply name_differs]).
    + by rewrite (find_other _ _ _ _ _ E2) by (intros f' Hf'; split; eapply names_disjoint; eauto).
  - apply modify_first_None in E2. rewrite !find_if_app, E2. simpl. unfold field_by_name.
    rewrite name_matches_refl.
    split; [done|]. split; [done|]. intros Hn.
    rewrite (name_differs n n') by done. by destruct (find_if (name_matches n') h).
Qed.

(** *** Identifier and name agree *)

Definition field_ok (f : http_header_field_t) : Prop := m_field_id f = string_to_field (m_name f).
Definition fields_ok (h : http_header_fields_t) : Prop := Forall field_ok h.

(** The mutating operations of the class, as data. *)
Inductive fields_op :=
| op_set_obj (n v : list byte) | op_set (n v : list byte) | op_set_id (id : http_field_t) (v : list byte)
| op_add (n v : list byte) | op_add_id (id : http_field_t) (v : list byte)
| op_append (n v : list byte) | op_append_id (id : http_field_t) (v : list byte)
| op_append_last (v : list byte)
| op_remove (n : list byte) | op_remove_id (id : http_field_t)
| op_remove_all (n : list byte) | op_remove_all_id (id : http_field_t).

Definition apply_op (o : fields_op) (h : http_header_fields_t) : http_header_fields_t :=
  match o with
  | op_set_obj n v => set_field_obj (field_by_name n v) h
  | op_set n v => set_field n v h
  | op_set_id id v => set_field_by_id id v h
  | op_add n v => add_field n v h
  | op_add_id id v => add_field_by_id id v h
  | op_append n v => append_field n v h
  | op_append_id id v => append_field_by_id id v h
  | op_append_last v => match append_last_field v h with Ok h' => h' | Throw _ => h end
  | op_remove n => fst (remove_field n h)
  | op_remove_id id => fst (remove_field_by_id id h)
  | op_remove_all n => fst (remove_all_of n h)
  | op_remove_all_id id => fst (remove_all_of_id id h)
  end.

Lemma modify_first_ok p g h h' :
  modify_first p g h = Some h' -> (forall f, field_ok f -> field_ok (g f)) ->
  fields_ok h -> fields_ok h'.
Proof.
  intros H Hg Hh. revert h' H. induction Hh as [|f h Hf Hh IH]; intros h' H; simpl in H; [done|].
  destruct (p f).
  - injection H as <-. constructor; [by apply Hg|done].
  - destruct (modify_first p g h); [|done]. injection H as <-. constructor; [done|by apply IH].
Qed.

Lemma erase_first_ok p h h' : erase_first p h = Some h' -> fields_ok h -> fields_ok h'.
Proof.
  intros H Hh. revert h' H. induction Hh as [|f h Hf Hh IH]; intros h' H; simpl in H; [done|].
  destruct (p f); [by injection H as <-|].
  destruct (erase_first p h); [|done]. injection H as <-. constructor; [done|by apply IH].
Qed.

Lemma remove_loop_spec p h :
  remove_loop p h = (List.filter (fun f => negb (p f)) h,
                     Z.of_nat (length (List.filter p h))).
Proof.
  induction h as [|f h IH]; [done|]. cbn [remove_loop List.filter]. rewrite IH.
  destruct (p f); simpl; [|done]. f_equal. lia.
Qed.

Lemma filter_ok p h : fields_ok h -> fields_ok (List.filter p h).
Proof. induction 1 as [|f h Hf _ IH]; simpl; [constructor|]. destruct (p f); [by constructor|done]. Qed.

Lemma field_by_name_ok n v : field_ok (field_by_name n v).
Proof. done. Qed.

Lemma field_by_id_ok id v : field_ok (field_by_id id v).
Proof. unfold field_ok, field_by_id. simpl. by rewrite string_to_field_to_string. Qed.

Lemma snoc_ok h f : fields_ok h -> field_ok f -> fields_ok (h ++ [f]).
Proof. intros. apply Forall_app. split; [done|]. by repeat constructor. Qed.

Lemma append_last_ok v h h' : append_last_field v h = Ok h' -> fields_ok h -> fields_ok h'.
Proof.
  unfold append_last_field, fields_ok. intros H Hh.
  destruct (rev h) as [|f r] eqn:E; [done|]. injection H as <-.
  assert (Hr : Forall field_ok (rev h)) by (by apply Forall_rev). rewrite E in Hr.
  apply Forall_cons_iff in Hr as [Hf Hr]. apply Forall_app. split; [by apply Forall_rev|].
  by repeat constructor.
Qed.

Create HintDb fields.
#[local] Hint Resolve snoc_ok field_by_name_ok field_by_id_ok filter_ok erase_first_ok
  append_last_ok : fields.

Lemma apply_op_ok o h : fields_ok h -> fields_ok (apply_op o h).
Proof.
  intros Hh. destruct o; simpl;
    unfold set_field_obj, set_field, set_field_by_id, add_field, add_field_by_id, append_field,
      append_field_by_id, remove_field, remove_field_by_id, remove_all_of, remove_all_of_id;
    rewrite ?remove_loop_spec; repeat case_match; simpl; eauto with fields;
    (eapply modify_first_ok; [eassumption| |done]); unfold field_ok; simpl; auto.
Qed.

Lemma cfind_id_name id h :
  fields_ok h -> id <> field_unspecified -> cfind_id id h = cfind (field_to_string id) h.
Proof.
  unfold cfind_id, cfind. intros Hh Hid. induction Hh as [|f h Hf _ IH]; simpl; [done|].
  assert (id_matches id f = name_matches (field_to_string id) f) as ->; [|by rewrite IH].
  unfold id_matches, name_matches. rewrite Hf. apply eq_true_iff_eq.
  by rewrite field_eqb_eq, string_to_field_iff.
Qed.

(** In every container built from the empty one by any sequence of the
    class's mutating operations, the stored identifier of a field is the one of
    its name, so reading a standard field by identifier and by name give the
    same answer. *)
Theorem lookup_by_id_is_by_name (ops : list fields_op) (id : http_field_t) :
  id <> field_unspecified ->
  let h := foldr apply_op [] ops in
  fields_ok h /\
  try_get_field_by_id id h = try_get_field (field_to_string id) h
  /\ has_field_id id h = has_field (field_to_string id) h.
Proof.
  intros Hid. cbv zeta.
  assert (Hh : fields_ok (foldr apply_op [] ops)).
  { induction ops as [|o ops IH]; simpl; [constructor|]. by apply apply_op_ok. }
  split; [done|].
  unfold try_get_field_by_id, try_get_field, has_field_id, has_field. rewrite cfind_id_name by done.
  unfold is_unspecified. destruct (field_eqb id field_unspecified) eqn:E; [|done].
  by apply field_eqb_eq in E.
Qed.

Lemma find_filter_neg p h : find_if p (List.filter (fun f => negb (p f)) h) = None.
Proof. induction h as [|f h IH]; simpl; [done|]. destruct (p f) eqn:E; simpl; [done|]. by rewrite E. Qed.

Lemma find_filter_other p q h :
  (forall f, q f = true -> p f = false) ->
  find_if q (List.filter (fun f => negb (p f)) h) = find_if q h.
Proof.
  intros Hq. induction h as [|f h IH]; simpl; [done|].
  destruct (p f) eqn:E; simpl.
  - destruct (q f) eqn:Eq; [by rewrite Hq in E|done].
  - by rewrite IH.
Qed.

(** [remove_all_of] leaves no field of that name, keeps every other field,
    and returns the number of fields it erased. *)
Theorem remove_all_of_spec (n n' : list byte) (h : http_header_fields_t) :
  let '(h', count) := remove_all_of n h in
  has_field n h' = false
  /\ Z.of_nat (length h) = Z.of_nat (length h') + count
  /\ (is_equal_caseless n n' = false -> try_get_field n' h' = try_get_field n' h).
Proof.
  unfold remove_all_of. rewrite remove_loop_spec. unfold has_field, try_get_field, cfind.
  rewrite find_filter_neg. split; [done|]. split.
  - induction h as [|f h IH]; [done|]. simpl. destruct (name_matches n f); simpl; lia.
  - intros Hn. rewrite find_filter_other; [done|]. intros f Hf.
    apply not_true_iff_false. intros Hf'. by rewrite (names_disjoint n n' f) in Hf.
Qed.

Definition witness_ops : list fields_op := [op_append (bs "HOST") (bs "z"); op_set (bs "host") (bs "a")].

Lemma lookup_by_id_is_by_name_witness :
  try_get_field_by_id host (foldr apply_op [] witness_ops)
  = try_get_field (field_to_string host) (foldr apply_op [] witness_ops).
Proof. apply (lookup_by_id_is_by_name witness_ops host). done. Defined.

End Fields.

(** ** Request targets *)

Module RequestTarget.

(** [std::memchr] as used by [memchr_helper]: the index of the first [chr], or
    the size. *)
Fixpoint memchr_helper (chr : byte) (from : list byte) : nat :=
  match from with
  | [] => O
  | c :: rest => if Byte.eqb c chr then O else S (memchr_helper chr rest)
  end.

Definition hash : byte := "#"%byte.
Definition question : byte := "?"%byte.

(** The request-target members of [http_request_header_t]. *)
Record target_t := mk_target {
  m_request_target : list byte;
  m_query_separator_pos : nat;
  m_fragment_separator_pos : nat
}.

Definition empty_target : target_t := mk_target [] 0 0.

Definition request_target (t : list byte) : target_t :=
  let fragment_pos := memchr_helper hash t in
  mk_target t (memchr_helper question (take fragment_pos t)) fragment_pos.

Definition path (r : target_t) : list byte := take (m_query_separator_pos r) (m_request_target r).

Definition query (r : target_t) : list byte :=
  if (m_fragment_separator_pos r =? m_query_separator_pos r)%nat then []
  else take (m_fragment_separator_pos r - m_query_separator_pos r - 1)
         (drop (m_query_separator_pos r + 1) (m_request_target r)).

Definition fragment (r : target_t) : list byte :=
  if (length (m_request_target r) =? m_fragment_separator_pos r)%nat then []
  else drop (m_fragment_separator_pos r + 1) (m_request_target r).

Definition append_request_target (at_ : list byte) (r : target_t) : target_t :=
  let size := length (m_request_target r) in
  let '(query_pos, fragment_pos) :=
    if (size =? m_fragment_separator_pos r)%nat then
      let inc := memchr_helper hash at_ in
      (if (size =? m_query_separator_pos r)%nat
       then (m_query_separator_pos r + memchr_helper question (take inc at_))%nat
       else m_query_separator_pos r,
       (m_fragment_separator_pos r + inc)%nat)
    else (m_query_separator_pos r, m_fragment_separator_pos r) in
  mk_target (m_request_target r ++ at_) query_pos fragment_pos.

Lemma memchr_le c l : (memchr_helper c l <= length l)%nat.
Proof. induction l as [|x l IH]; simpl; [lia|]. destruct (Byte.eqb x c); lia. Qed.

Lemma memchr_app c a b :
  memchr_helper c (a ++ b)
  = if (memchr_helper c a =? length a)%nat then (length a + memchr_helper c b)%nat
    else memchr_helper c a.
Proof.
  induction a as [|x a IH]; simpl; [done|]. destruct (Byte.eqb x c); [done|]. rewrite IH. simpl.
  by destruct (Nat.eqb_spec (memchr_helper c a) (length a)).
Qed.

Lemma append_whole a b :
  append_request_target b (request_target a) = request_target (a ++ b).
Proof.
  unfold append_request_target, request_target. cbn [m_request_target m_query_separator_pos
    m_fragment_separator_pos]. rewrite memchr_app, (Nat.eqb_sym (length a)).
  pose proof (memchr_le hash a) as Hh. destruct (Nat.eqb_spec (memchr_helper hash a) (length a)) as [E|E].
  - rewrite E, firstn_all.
    rewrite firstn_app_2. rewrite memchr_app, (Nat.eqb_sym (length a)).
    destruct (Nat.eqb_spec (memchr_helper question a) (length a)) as [E2|E2]; [|done].
    by rewrite E2.
  - by rewrite (take_app_le a b) by lia.
Qed.

(** The parser callback delivers the request target in arbitrary pieces:
    accumulating them with [append_request_target] yields the same target,
    path, query and fragment as setting the whole target at once. *)
Theorem target_pieces (pieces : list (list byte)) :
  fold_left (fun r at_ => append_request_target at_ r) pieces empty_target
  = request_target (concat pieces).
Proof.
  change empty_target with (request_target []).
  rewrite <- (app_nil_l (concat pieces)). generalize (@nil byte) as a.
  induction pieces as [|p pieces IH]; intros a; simpl; [by rewrite app_nil_r|].
  by rewrite append_whole, IH, app_assoc.
Qed.

Lemma memchr_not_in c l n : (n <= memchr_helper c l)%nat -> ~ In c (take n l).
Proof.
  revert n. induction l as [|x l IH]; intros n Hn; destruct n; simpl in *; try tauto.
  destruct (Byte.eqb x c) eqn:E; [lia|]. intros [-> | H].
  - rewrite (Byte.byte_dec_lb eq_refl) in E. done.
  - eapply IH; [|done]. lia.
Qed.

Lemma memchr_split c l :
  (memchr_helper c l < length l)%nat ->
  l = take (memchr_helper c l) l ++ c :: drop (memchr_helper c l + 1) l.
Proof.
  induction l as [|x l IH]; simpl; [lia|]. destruct (Byte.eqb x c) eqn:E; simpl.
  - intros _. by rewrite (Byte.byte_dec_bl _ _ E), drop_0.
  - intros H. rewrite <- IH by lia. done.
Qed.

(** Any request target splits as path, optional [?query] and optional
    [#fragment], with no separator inside the path and no [#] in the query. *)
Theorem target_split (t : list byte) :
  let r := request_target t in
  let q := if (m_query_separator_pos r =? m_fragment_separator_pos r)%nat then []
           else question :: query r in
  let f := if (length t =? m_fragment_separator_pos r)%nat then [] else hash :: fragment r in
  t = path r ++ q ++ f
  /\ ~ In question (path r) /\ ~ In hash (path r) /\ ~ In hash (query r).
Proof.
  unfold request_target, path, query, fragment. cbn [m_request_target m_query_separator_pos
    m_fragment_separator_pos].
  set (fp := memchr_helper hash t). set (qp := memchr_helper question (take fp t)).
  pose proof (memchr_le hash t) as Hf. fold fp in Hf.
  pose proof (memchr_le question (take fp t)) as Hq. fold qp in Hq.
  rewrite length_take, Nat.min_l in Hq by done.
  assert (Et : t = take fp t ++ (if (length t =? fp)%nat then [] else hash :: drop (fp + 1) t)).
  { destruct (Nat.eqb_spec (length t) fp) as [E|E].
    - by rewrite <- E, firstn_all, app_nil_r.
    - apply memchr_split. fold fp. lia. }
  assert (Eq : take fp t = take qp t ++ (if (qp =? fp)%nat then []
      else question :: take (fp - qp - 1) (drop (qp + 1) t))).
  { destruct (Nat.eqb_spec qp fp) as [->|E]; [by rewrite app_nil_r|].
    rewrite (memchr_split question (take fp t)) by (rewrite length_take; fold qp; lia).
    fold qp. rewrite take_take, Nat.min_l by lia. do 2 f_equal.
    rewrite take_drop_commute. do 2 f_equal. lia. }
  split_and!.
  - rewrite (Nat.eqb_sym fp qp). etransitivity; [exact Et|]. rewrite Eq at 1.
    rewrite <- app_assoc. by destruct (qp =? fp)%nat, (length t =? fp)%nat.
  - intros H. apply (memchr_not_in question (take fp t) qp); [lia|].
    by rewrite take_take, Nat.min_l by lia.
  - by apply memchr_not_in.
  - destruct (fp =? qp)%nat eqn:E; [tauto|]. intros H.
    apply (memchr_not_in hash t fp); [lia|]. rewrite Eq.
    apply in_or_app. right. apply Nat.eqb_neq in E.
    rewrite (proj2 (Nat.eqb_neq qp fp)) by lia. by right.
Qed.

End RequestTarget.
