(* ===== verification/HttpResponse.v ===== *)
(** * HTTP status lines and responses

    Model of the status codes and response header of
    src/web/restinio/restinio/http_headers.hpp, of the serialisation in
    impl/header_helpers.hpp and of the response builder
    ([restinio_controlled_output_t]) of message_builders.hpp. *)

From S2P Require Import Prelude Coordinator HttpFields HttpHeaders.

(** ** Status codes *)

Module Status.

(** [http_status_code_t]: the [std::uint16_t] it wraps. *)
Definition http_status_code_t := Z.

Inductive status_code :=
| continue_
| switching_protocols
| ok
| created
| accepted
| non_authoritative_information
| no_content
| reset_content
| partial_content
| multiple_choices
| moved_permanently
| found
| see_other
| not_modified
| use_proxy
| temporary_redirect
| bad_request
| unauthorized
| payment_required
| forbidden
| not_found
| method_not_allowed
| not_acceptable
| proxy_authentication_required
| request_time_out
| conflict
| gone
| length_required
| precondition_failed
| payload_too_large
| uri_too_long
| unsupported_media_type
| requested_range_not_satisfiable
| expectation_failed
| internal_server_error
| not_implemented
| bad_gateway
| service_unavailable
| gateway_time_out
| http_version_not_supported
| permanent_redirect
| processing
| multi_status
| unprocessable_entity
| locked
| failed_dependency
| insufficient_storage
| precondition_required
| too_many_requests
| request_header_fields_too_large
| network_authentication_required.

Definition raw_code (c : status_code) : http_status_code_t :=
  match c with
  | continue_ => 100
  | switching_protocols => 101
  | ok => 200
  | created => 201
  | accepted => 202
  | non_authoritative_information => 203
  | no_content => 204
  | reset_content => 205
  | partial_content => 206
  | multiple_choices => 300
  | moved_permanently => 301
  | found => 302
  | see_other => 303
  | not_modified => 304
  | use_proxy => 305
  | temporary_redirect => 307
  | bad_request => 400
  | unauthorized => 401
  | payment_required => 402
  | forbidden => 403
  | not_found => 404
  | method_not_allowed => 405
  | not_acceptable => 406
  | proxy_authentication_required => 407
  | request_time_out => 408
  | conflict => 409
  | gone => 410
  | length_required => 411
  | precondition_failed => 412
  | payload_too_large => 413
  | uri_too_long => 414
  | unsupported_media_type => 415
  | requested_range_not_satisfiable => 416
  | expectation_failed => 417
  | internal_server_error => 500
  | not_implemented => 501
  | bad_gateway => 502
  | service_unavailable => 503
  | gateway_time_out => 504
  | http_version_not_supported => 505
  | permanent_redirect => 308
  | processing => 102
  | multi_status => 207
  | unprocessable_entity => 422
  | locked => 423
  | failed_dependency => 424
  | insufficient_storage => 507
  | precondition_required => 428
  | too_many_requests => 429
  | request_header_fields_too_large => 431
  | network_authentication_required => 511
  end.

(** [operator==], [operator!=] and [operator<] as written: the last two compare
    the argument with itself. *)
Definition op_eq (this sc : http_status_code_t) : bool := this =? sc.
Definition op_ne (this sc : http_status_code_t) : bool := negb (sc =? sc).
Definition op_lt (this sc : http_status_code_t) : bool := sc <? sc.

Record http_status_line_t := mk_status_line {
  m_status_code : http_status_code_t;
  m_reason_phrase : list byte
}.

(** The functions [status_ok()], [status_bad_request()], ... *)
Definition status_line (c : status_code) : http_status_line_t :=
  mk_status_line (raw_code c) (bs match c with
  | continue_ => "Continue"
  | switching_protocols => "Switching Protocols"
  | ok => "OK"
  | created => "Created"
  | accepted => "Accepted"
  | non_authoritative_information => "Non-Authoritative Information"
  | no_content => "No Content"
  | reset_content => "Reset Content"
  | partial_content => "Partial Content"
  | multiple_choices => "Multiple Choices"
  | moved_permanently => "Moved Permanently"
  | found => "Found"
  | see_other => "See Other"
  | not_modified => "Not Modified"
  | use_proxy => "Use Proxy"
  | temporary_redirect => "Temporary Redirect"
  | bad_request => "Bad Request"
  | unauthorized => "Unauthorized"
  | payment_required => "Payment Required"
  | forbidden => "Forbidden"
  | not_found => "Not Found"
  | method_not_allowed => "Method Not Allowed"
  | not_acceptable => "Not Acceptable"
  | proxy_authentication_required => "Proxy Authentication Required"
  | request_time_out => "Request Timeout"
  | conflict => "Conflict"
  | gone => "Gone"
  | length_required => "Length Required"
  | precondition_failed => "Precondition Failed"
  | payload_too_large => "Payload Too Large"
  | uri_too_long => "URI Too Long"
  | unsupported_media_type => "Unsupported Media Type"
  | requested_range_not_satisfiable => "Requested Range Not Satisfiable"
  | expectation_failed => "Expectation Failed"
  | internal_server_error => "Internal Server Error"
  | not_implemented => "Not Implemented"
  | bad_gateway => "Bad Gateway"
  | service_unavailable => "Service Unavailable"
  | gateway_time_out => "Gateway Timeout"
  | http_version_not_supported => "HTTP Version not supported"
  | permanent_redirect => "Permanent Redirect"
  | processing => "Processing"
  | multi_status => "Multi-Status"
  | unprocessable_entity => "Unprocessable Entity"
  | locked => "Locked"
  | failed_dependency => "Failed Dependency"
  | insufficient_storage => "Insufficient Storage"
  | precondition_required => "Precondition Required"
  | too_many_requests => "Too Many Requests"
  | request_header_fields_too_large => "Request Header Fields Too Large"
  | network_authentication_required => "Network Authentication Required"
  end).

(** [operator!=] and [operator<] of [http_status_code_t] are constantly
    false: unequal codes are not reported unequal and no code precedes another. *)
Theorem status_code_comparisons (a b : http_status_code_t) :
  op_ne a b = false /\ op_lt a b = false /\ (op_eq a b = true <-> a = b).
Proof. unfold op_ne, op_lt, op_eq. rewrite Z.eqb_refl, Z.ltb_irrefl, Z.eqb_eq. done. Qed.

End Status.

(** ** Decimal numbers *)

Module Decimal.

Definition digit (d : Z) : byte := b8 (0x30 + d).

(** [%llu]: decimal digits without leading zeros.  20 digits cover the range
    of a 64-bit unsigned integer. *)
Fixpoint dec_go (fuel : nat) (z : Z) : list byte :=
  match fuel with
  | O => []
  | S n => (if z <? 10 then [] else dec_go n (z / 10)) ++ [digit (z mod 10)]
  end.

Definition dec (z : Z) : list byte := dec_go 20 z.

Definition dec_value (s : list byte) : Z := fold_left (fun a b => a * 10 + (u8 b - 0x30)) s 0.

Lemma u8_digit d : 0 <= d < 10 -> u8 (digit d) = 0x30 + d.
Proof. intros H. unfold digit. rewrite u8_b8_small; lia. Qed.

Lemma dec_value_snoc s b : dec_value (s ++ [b]) = dec_value s * 10 + (u8 b - 0x30).
Proof. unfold dec_value. by rewrite fold_left_app. Qed.

Lemma dec_go_value fuel z : 0 <= z < 10 ^ Z.of_nat fuel -> dec_value (dec_go fuel z) = z.
Proof.
  revert z. induction fuel as [|n IH]; intros z Hz; [simpl in Hz; simpl; unfold dec_value; simpl; lia|].
  rewrite Nat2Z.inj_succ, Z.pow_succ_r in Hz by lia.
  cbn [dec_go]. rewrite dec_value_snoc, u8_digit by (apply Z.mod_pos_bound; lia).
  destruct (Z.ltb_spec z 10).
  - unfold dec_value. simpl. rewrite Z.mod_small; lia.
  - rewrite IH; Z.to_euclidean_division_equations; lia.
Qed.

(** Reading back what [%llu] prints. *)
Lemma dec_roundtrip z : 0 <= z < 2 ^ 64 -> dec_value (dec z) = z.
Proof.
  intros Hz. apply dec_go_value. split; [lia|]. eapply Z.lt_trans; [apply Hz|].
  vm_compute. reflexivity.
Qed.

Lemma dec_length z : (length (dec z) <= 20)%nat.
Proof.
  unfold dec. generalize 20%nat as n. intros n. revert z.
  induction n as [|n IH]; intros z; cbn [dec_go]; [simpl; lia|].
  rewrite length_app. destruct (z <? 10); simpl; [lia|]. specialize (IH (z / 10)). lia.
Qed.

End Decimal.

(** ** Response header and its serialisation *)

Module Response.
Import Status Decimal Fields Buffers.

Inductive http_connection_header_t := keep_alive | close | upgrade.

Record http_response_header_t := mk_response_header {
  m_http_major : Z;        (* std::uint16_t *)
  m_http_minor : Z;
  m_content_length : Z;    (* std::uint64_t *)
  m_connection : http_connection_header_t;
  m_status_line : http_status_line_t;
  m_fields : http_header_fields_t
}.

(** [http_response_header_t( status_line )] with the defaults of
    [http_header_common_t]. *)
Definition response_header (sl : http_status_line_t) : http_response_header_t :=
  mk_response_header 1 1 0 close sl [].

Definition with_content_length (l : Z) (h : http_response_header_t) : http_response_header_t :=
  mk_response_header (m_http_major h) (m_http_minor h) l (m_connection h) (m_status_line h)
    (m_fields h).
Definition with_connection (c : http_connection_header_t) (h : http_response_header_t) :=
  mk_response_header (m_http_major h) (m_http_minor h) (m_content_length h) c (m_status_line h)
    (m_fields h).
Definition with_status_line (sl : http_status_line_t) (h : http_response_header_t) :=
  mk_response_header (m_http_major h) (m_http_minor h) (m_content_length h) (m_connection h) sl
    (m_fields h).
Definition with_fields (f : http_header_fields_t) (h : http_response_header_t) :=
  mk_response_header (m_http_major h) (m_http_minor h) (m_content_length h) (m_connection h)
    (m_status_line h) f.

(** The getter [should_keep_alive() const] and the setter of the same name. *)
Definition should_keep_alive (h : http_response_header_t) : bool :=
  match m_connection h with keep_alive => true | _ => false end.
Definition set_should_keep_alive (ka : bool) (h : http_response_header_t)
  : http_response_header_t := with_connection (if ka then keep_alive else close) h.

Inductive content_length_field_presence_t := add_content_length | skip_content_length.

Definition crlf : list byte := [x0d; x0a].

Definition size (s : list byte) : Z := Z.of_nat (length s).

Definition calculate_approx_buffer_size_for_header (h : http_response_header_t) : Z :=
  let result := 13 in
  let result := result + (size (m_reason_phrase (m_status_line h)) + 2) in
  let result := result + 26 in
  let result := result + (20 + 18) in
  let result := result + 2 in
  fold_left (fun result f => result + (size (m_name f) + 2 + size (m_value f) + 2))
    (m_fields h) result.

Definition connection_string (c : http_connection_header_t) : list byte :=
  match c with
  | keep_alive => bs "Connection: keep-alive" ++ crlf
  | close => bs "Connection: close" ++ crlf
  | upgrade => bs "Connection: Upgrade" ++ crlf
  end.

Definition field_string (f : http_header_field_t) : list byte :=
  m_name f ++ bs ": " ++ m_value f ++ crlf.

Definition create_header_string (h : http_response_header_t)
  (presence : content_length_field_presence_t) : list byte :=
  let result := bs "HTTP/" in
  let result := result ++ [b8 (0x30 + m_http_major h)] in
  let result := result ++ bs "." in
  let result := result ++ [b8 (0x30 + m_http_minor h)] in
  let result := result ++ bs " " in
  let sc := m_status_code (m_status_line h) in
  let result := result ++ [b8 (0x30 + (sc / 100) mod 10)] in
  let result := result ++ [b8 (0x30 + (sc / 10) mod 10)] in
  let result := result ++ [b8 (0x30 + sc mod 10)] in
  let result := result ++ bs " " in
  let result := result ++ m_reason_phrase (m_status_line h) in
  let result := result ++ crlf in
  let result := result ++ connection_string (m_connection h) in
  let result :=
    match presence with
    | add_content_length =>
        result ++ bs "Content-Length: " ++ dec (m_content_length h) ++ crlf
    | skip_content_length => result
    end in
  let result := fold_left (fun result f => result ++ field_string f) (m_fields h) result in
  result ++ crlf.

(** *** Layout *)

Definition status_line_string (h : http_response_header_t) : list byte :=
  bs "HTTP/" ++ [b8 (0x30 + m_http_major h)] ++ bs "." ++ [b8 (0x30 + m_http_minor h)] ++ bs " "
  ++ [digit ((m_status_code (m_status_line h) / 100) mod 10);
      digit ((m_status_code (m_status_line h) / 10) mod 10);
      digit (m_status_code (m_status_line h) mod 10)]
  ++ bs " " ++ m_reason_phrase (m_status_line h).

Lemma fold_left_fields fs acc :
  fold_left (fun result f => result ++ field_string f) fs acc = acc ++ flat_map field_string fs.
Proof.
  revert acc. induction fs as [|f fs IH]; intros acc; simpl; [by rewrite app_nil_r|].
  by rewrite IH, <- app_assoc.
Qed.

Lemma create_header_layout h presence :
  create_header_string h presence
  = status_line_string h ++ crlf ++ connection_string (m_connection h)
    ++ (match presence with
        | add_content_length => bs "Content-Length: " ++ dec (m_content_length h) ++ crlf
        | skip_content_length => []
        end)
    ++ flat_map field_string (m_fields h) ++ crlf.
Proof.
  unfold create_header_string, status_line_string. rewrite fold_left_fields.
  destruct presence; rewrite <- !app_assoc; reflexivity.
Qed.

Lemma fold_left_sum {A} (g : A -> Z) l acc :
  fold_left (fun r x => r + g x) l acc = acc + foldr (fun x r => g x + r) 0 l.
Proof.
  revert acc. induction l as [|x l IH]; intros acc; simpl; [lia|]. rewrite IH. lia.
Qed.

Lemma size_app a b : size (a ++ b) = size a + size b.
Proof. unfold size. rewrite length_app. lia. Qed.

Lemma size_fields fs :
  size (flat_map field_string fs)
  = foldr (fun f r => (size (m_name f) + 2 + size (m_value f) + 2) + r) 0 fs.
Proof.
  induction fs as [|f fs IH]; [done|]. simpl. rewrite size_app, IH. unfold field_string.
  rewrite !size_app. change (size (bs ": ")) with 2. change (size crlf) with 2. lia.
Qed.

Lemma size_status_line h : size (status_line_string h) = 13 + size (m_reason_phrase (m_status_line h)).
Proof. unfold status_line_string. rewrite !size_app. unfold size. simpl. lia. Qed.

(** The buffer reserved for a response header is always large enough for
    the serialised header, so [create_header_string] never reallocates. *)
Theorem header_buffer_sufficient (h : http_response_header_t)
    (presence : content_length_field_presence_t) :
  size (create_header_string h presence) <= calculate_approx_buffer_size_for_header h.
Proof.
  rewrite create_header_layout, !size_app, size_status_line, size_fields.
  unfold calculate_approx_buffer_size_for_header.
  rewrite (fold_left_sum (fun f => size (m_name f) + 2 + size (m_value f) + 2)).
  change (size crlf) with 2.
  assert (size (connection_string (m_connection h)) <= 24) by (by destruct (m_connection h)).
  assert (size (match presence with
    | add_content_length => bs "Content-Length: " ++ dec (m_content_length h) ++ crlf
    | skip_content_length => [] end) <= 38).
  { destruct presence; [|done]. rewrite !size_app. pose proof (dec_length (m_content_length h)).
    unfold size in *. simpl. lia. }
  lia.
Qed.

(** *** The response builder *)

(** [response_builder_t< restinio_controlled_output_t >]; [m_conn] tells whether
    the connection handle is still there. *)
Record response_builder_t := mk_builder {
  m_header : http_response_header_t;
  m_conn : bool;
  m_body_size : Z;                       (* std::size_t *)
  m_response_parts : list (list byte)
}.

Definition create_response (sl : http_status_line_t) (keep : bool) : response_builder_t :=
  mk_builder (set_should_keep_alive keep (response_header sl)) true 0 [].

Definition with_header (h : http_response_header_t) (b : response_builder_t) : response_builder_t :=
  mk_builder h (m_conn b) (m_body_size b) (m_response_parts b).

Definition append_header (name value : list byte) (b : response_builder_t) : response_builder_t :=
  with_header (with_fields (add_field name value (m_fields (m_header b))) (m_header b)) b.
Definition append_header_by_id (id : HttpField.http_field_t) (value : list byte)
  (b : response_builder_t) : response_builder_t :=
  with_header (with_fields (add_field_by_id id value (m_fields (m_header b))) (m_header b)) b.

(** The date text depends on the clock: it is an argument. *)
Definition append_header_date_field (date : list byte) (b : response_builder_t)
  : response_builder_t :=
  with_header (with_fields (set_field_by_id HttpField.date date (m_fields (m_header b)))
                 (m_header b)) b.

Definition connection_close (b : response_builder_t) : response_builder_t :=
  with_header (set_should_keep_alive false (m_header b)) b.

(** [connection_keep_alive] calls [m_header.should_keep_alive()], which is the
    getter: its result is dropped. *)
Definition connection_keep_alive (b : response_builder_t) : response_builder_t :=
  let _ := should_keep_alive (m_header b) in b.

Definition calculate_status_line_size (b : response_builder_t) : Z :=
  8 + 1 + 3 + 1 + size (m_reason_phrase (m_status_line (m_header b))).

Definition if_neccessary_reserve_first_element_for_header (b : response_builder_t)
  : response_builder_t :=
  match m_response_parts b with
  | [] => mk_builder (m_header b) (m_conn b) (m_body_size b) [[]]
  | _ => b
  end.

Definition set_body (body : list byte) (b : response_builder_t) : response_builder_t :=
  let b := if_neccessary_reserve_first_element_for_header b in
  let parts := take 1 (m_response_parts b) in
  let parts := if 0 <? size body then parts ++ [body] else parts in
  mk_builder (m_header b) (m_conn b) (size body) parts.

Definition append_body (body_part : list byte) (b : response_builder_t) : response_builder_t :=
  let b := if_neccessary_reserve_first_element_for_header b in
  if 0 <? size body_part
  then mk_builder (m_header b) (m_conn b) (wrap 64 (m_body_size b + size body_part))
         (m_response_parts b ++ [body_part])
  else b.

(** What [write_response_parts] is called with. *)
Record sent_t := mk_sent {
  sent_flags : Coordinator.response_output_flags_t;
  sent_group : write_group_t
}.

(** [done()]: the builder afterwards and what is handed to the connection, or
    the exception of a second call. *)
Definition done_ (b : response_builder_t) : outcome (response_builder_t * sent_t) :=
  if m_conn b then
    let flags := Coordinator.mk_flags Coordinator.final_parts
                   (Coordinator.response_connection_attr (should_keep_alive (m_header b))) in
    let h := with_content_length (m_body_size b) (m_header b) in
    let b := if_neccessary_reserve_first_element_for_header (with_header h b) in
    let parts := <[0%nat := create_header_string (m_header b) add_content_length]>
                   (m_response_parts b) in
    let? wg := set_status_line_size (calculate_status_line_size b)
                 (write_group (map trivial_write_operation parts)) in
    Ok (mk_builder (m_header b) false (m_body_size b) [], mk_sent flags wg)
  else Throw "done() cannot be called twice".

Lemma calculate_status_line_size_ok b h :
  m_reason_phrase (m_status_line (m_header b)) = m_reason_phrase (m_status_line h) ->
  calculate_status_line_size b = size (status_line_string h).
Proof. unfold calculate_status_line_size. intros ->. rewrite size_status_line. lia. Qed.

(** [done] on a builder that still has its connection: the size of the status
    line is always accepted by the group. *)
Lemma done_run b :
  m_conn b = true ->
  let h := with_content_length (m_body_size b) (m_header b) in
  done_ b
  = Ok (mk_builder h false (m_body_size b) [],
        mk_sent (Coordinator.mk_flags Coordinator.final_parts
                   (Coordinator.response_connection_attr (should_keep_alive (m_header b))))
          (mk_group (map trivial_write_operation
                       (create_header_string h add_content_length :: tail (m_response_parts b)))
             (size (status_line_string h)) None)).
Proof.
  intros Hc. cbv zeta. set (h := with_content_length (m_body_size b) (m_header b)).
  assert (Hset : forall rest,
    set_status_line_size (size (status_line_string h))
      (write_group (map trivial_write_operation (create_header_string h add_content_length :: rest)))
    = Ok (mk_group (map trivial_write_operation (create_header_string h add_content_length :: rest))
            (size (status_line_string h)) None)).
  { intros rest. unfold set_status_line_size. cbn [map m_items write_group item_size].
    rewrite (proj2 (Z.eqb_neq _ _)) by (rewrite size_status_line; unfold size; lia). cbn [negb].
    rewrite (proj2 (Z.ltb_ge _ _)); [done|]. rewrite create_header_layout.
    fold (size (status_line_string h ++ crlf ++ connection_string (m_connection h)
      ++ (bs "Content-Length: " ++ dec (m_content_length h) ++ crlf)
      ++ flat_map field_string (m_fields h) ++ crlf)).
    rewrite size_app. unfold size. lia. }
  unfold done_. rewrite Hc. fold h. unfold if_neccessary_reserve_first_element_for_header.
  destruct b as [hd c n parts]. cbn in Hc. subst c. destruct parts as [|p parts]; cbn [m_response_parts with_header m_header];
    rewrite (calculate_status_line_size_ok _ h) by done; cbn [insert list_insert];
    by rewrite Hset.
Qed.

Inductive body_op := op_set_body (s : list byte) | op_append_body (s : list byte).

Definition apply_body_op (b : response_builder_t) (o : body_op) : response_builder_t :=
  match o with op_set_body s => set_body s b | op_append_body s => append_body s b end.

(** The body a sequence of calls means. *)
Definition body_of (ops : list body_op) : list byte :=
  fold_left (fun acc o => match o with op_set_body s => s | op_append_body s => acc ++ s end) ops [].

(** The invariant of the builder: a header slot, the body parts and their size. *)
Definition builder_ok (body : list byte) (b : response_builder_t) : Prop :=
  m_body_size b = size body /\ concat (tail (m_response_parts b)) = body
  /\ (m_response_parts b = [] -> body = []).

Lemma apply_body_op_ok body b o :
  builder_ok body b ->
  size (match o with op_set_body s => s | op_append_body s => body ++ s end) < 2 ^ 64 ->
  builder_ok (match o with op_set_body s => s | op_append_body s => body ++ s end) (apply_body_op b o)
  /\ m_header (apply_body_op b o) = m_header b /\ m_conn (apply_body_op b o) = m_conn b.
Proof.
  intros (Hs & Hc & He) Hlt. destruct b as [h c n parts]; simpl in *.
  destruct o as [s|s]; simpl.
  - unfold set_body, if_neccessary_reserve_first_element_for_header, builder_ok; simpl.
    destruct parts as [|p parts]; simpl; destruct (Z.ltb_spec 0 (size s)) as [H|H]; simpl;
      rewrite ?app_nil_r; split_and!; try done;
      destruct s; try done; unfold size in H; simpl in H; lia.
  - unfold append_body, if_neccessary_reserve_first_element_for_header, builder_ok; simpl.
    rewrite size_app in *.
    destruct parts as [|p parts]; simpl; destruct (Z.ltb_spec 0 (size s)) as [H|H]; simpl.
    + specialize (He eq_refl). subst body. unfold size in Hs; simpl in Hs. subst n.
      unfold wrap. rewrite Z.mod_small by (unfold size in *; simpl in *; lia).
      rewrite app_nil_r. by split_and!.
    + specialize (He eq_refl). subst body. destruct s; [|unfold size in H; simpl in H; lia].
      by split_and!.
    + simpl in Hc. unfold wrap. rewrite Z.mod_small by (unfold size in *; lia).
      split_and!; try done; try lia. rewrite concat_app. simpl. by rewrite app_nil_r, Hc.
    + destruct s; [|unfold size in H; simpl in H; lia]. rewrite app_nil_r. change (size []) with 0.
      split_and!; try done; lia.
Qed.


(** [connection_keep_alive] changes nothing: a response built for a
    request that asked to close the connection is still sent with
    "Connection: close". *)
Theorem connection_keep_alive_no_effect (b : response_builder_t) :
  connection_keep_alive b = b
  /\ m_connection (m_header (connection_keep_alive (connection_close b))) = close.
Proof. done. Qed.

(** *** Witness *)


End Response.
