(* ===== verification/CardDealer.v ===== *)
(** * The card-dealer application

    The program proper: [Serial] and [PSoCcom] (the UART link to the PSoC),
    [RPIdata] (the stored settings) and [selected_handler_t] (the request
    handlers), from src/Serial.hpp, src/PSoCcom.hpp, src/RPIdata.hpp and
    src/web/restinio/sample/express_router.

    [json_dto] and the serial port of Boost.Asio are not part of the sources:
    they are the classes [JsonDto] and [SerialPort], whose fields are the calls
    the program makes and what it relies on.  Opening the port, setting its baud rate
    and writing may throw, and a write may take only part of its octets.  The
    specification is an abstract dealer with the selection in memory, the text of the
    settings file, whether that can be written, and the octets sent.  Writes to [std::cout] are left
    out: nothing reads them back. *)

From stdpp Require Import gmap.
From S2P Require Import Prelude Coordinator HttpFields HttpHeaders HttpResponse.

(** ** Data *)

Module Model.

Record game_t := mk_game { m_game : list byte }.
Record players_t := mk_players { m_players : list byte }.
Record selected_t := mk_selected { s_game : game_t; s_players : players_t }.

Definition game_default : game_t := mk_game [].
Definition players_default : players_t := mk_players [].
Definition selected_default : selected_t := mk_selected game_default players_default.

End Model.
Import Model.

(** [json_dto::to_json] and [json_dto::from_json] at the three DTO types.  The
    law is the documented contract: what [to_json] writes, [from_json] reads. *)
Class JsonDto := {
  to_json : selected_t -> list byte;
  from_json_selected : list byte -> outcome selected_t;
  from_json_players : list byte -> outcome players_t;
  from_json_game : list byte -> outcome game_t;
  json_roundtrip : forall s, from_json_selected (to_json s) = Ok s
}.

(** [boost::asio::serial_port]: opening a device and setting its baud rate, which
    may throw; and [write_some]: given what was transmitted before, the number of
    octets it accepts, or an exception; it "may not transmit all of the data". *)
Class SerialPort := {
  open_port : string -> outcome unit;
  set_baud_rate : Z -> outcome unit;
  write_some : list byte -> list byte -> outcome nat;
  write_some_le : forall sent data k, write_some sent data = Ok k -> (k <= length data)%nat
}.

(** ** The machine *)

Module Machine.

(** What the handlers share: the files of the working directory, whether
    "settings.txt" can be opened for writing, the octets sent on the UART, the
    [selected_t] object of [main] and [PSoCcom::buf]. *)
Record world := mk_world {
  w_files : gmap string (list byte);
  w_writable : bool;
  w_uart : list byte;
  w_selected : selected_t;
  w_buf : list byte
}.

Definition set_files (f : gmap string (list byte)) (w : world) : world :=
  mk_world f (w_writable w) (w_uart w) (w_selected w) (w_buf w).
Definition set_uart (u : list byte) (w : world) : world :=
  mk_world (w_files w) (w_writable w) u (w_selected w) (w_buf w).
Definition set_selected (s : selected_t) (w : world) : world :=
  mk_world (w_files w) (w_writable w) (w_uart w) s (w_buf w).
Definition set_buf (b : list byte) (w : world) : world :=
  mk_world (w_files w) (w_writable w) (w_uart w) (w_selected w) b.

(** A call returns, throws or has undefined behaviour; effects made before an
    exception stay. *)
Inductive result (A : Type) : Type :=
| Ret (a : A)
| Raise (what : string)
| Undef (why : string).
#[global] Arguments Ret {A} a.
#[global] Arguments Raise {A} what%_string_scope.
#[global] Arguments Undef {A} why%_string_scope.

Definition M (A : Type) : Type := world -> result A * world.

Definition ret {A} (a : A) : M A := fun w => (Ret a, w).
Definition bind {A B} (m : M A) (k : A -> M B) : M B := fun w =>
  match m w with
  | (Ret a, w) => k a w
  | (Raise e, w) => (Raise e, w)
  | (Undef e, w) => (Undef e, w)
  end.
(** [try { m } catch( const std::exception & ) { h }]. *)
Definition try_catch {A} (m h : M A) : M A := fun w =>
  match m w with (Raise _, w) => h w | r => r end.
Definition undef {A} (why : string) : M A := fun w => (Undef why, w).
Definition lift {A} (o : outcome A) : M A := fun w =>
  match o with Ok a => (Ret a, w) | Throw e => (Raise e, w) end.
Definition get : M world := fun w => (Ret w, w).
Definition modify (f : world -> world) : M unit := fun w => (Ret (), f w).

(** Symbolic execution. *)
Lemma bind_ret {A B} (m : M A) (k : A -> M B) w a w' :
  m w = (Ret a, w') -> bind m k w = k a w'.
Proof. unfold bind. by intros ->. Qed.
Lemma bind_raise {A B} (m : M A) (k : A -> M B) w e w' :
  m w = (Raise e, w') -> bind m k w = (Raise e, w').
Proof. unfold bind. by intros ->. Qed.
Lemma bind_undef {A B} (m : M A) (k : A -> M B) w e w' :
  m w = (Undef e, w') -> bind m k w = (Undef e, w').
Proof. unfold bind. by intros ->. Qed.
Lemma try_ret {A} (m h : M A) w a w' : m w = (Ret a, w') -> try_catch m h w = (Ret a, w').
Proof. unfold try_catch. by intros ->. Qed.
Lemma try_raise {A} (m h : M A) w e w' : m w = (Raise e, w') -> try_catch m h w = h w'.
Proof. unfold try_catch. by intros ->. Qed.
Lemma try_undef {A} (m h : M A) w e w' : m w = (Undef e, w') -> try_catch m h w = (Undef e, w').
Proof. unfold try_catch. by intros ->. Qed.

End Machine.
Import Machine.

Declare Scope machine_scope.
Notation "'let!' x := m 'in' k" := (bind m (fun x => k))
  (at level 10, x name, m at level 200, k at level 200) : machine_scope.
Notation "'run!' m ; k" := (bind m (fun _ => k))
  (at level 10, m at level 100, k at level 200) : machine_scope.
#[global] Open Scope machine_scope.

(** ** C strings in fixed buffers *)

Module Cstr.

(** The characters of a C string: up to the first NUL. *)
Fixpoint cstr (s : list byte) : list byte :=
  match s with
  | [] => []
  | c :: s => if Byte.eqb c x00 then [] else c :: cstr s
  end.

(** Storing a terminated string at the start of a buffer of fixed size. *)
Definition store (s buf : list byte) : option (list byte) :=
  if (length s <? length buf)%nat
  then Some (s ++ [x00] ++ drop (S (length s)) buf) else None.

(** What [sprintf( buf, fmt )] with no further arguments produces; a conversion
    other than [%%] reads an argument that was not passed. *)
Fixpoint format (s : list byte) : option (list byte) :=
  match s with
  | [] => Some []
  | c :: s' =>
      if Byte.eqb c x25 then
        match s' with
        | d :: s'' => if Byte.eqb d x25 then cons x25 <$> format s'' else None
        | [] => None
        end
      else cons c <$> format s'
  end.

Definition plain (s : list byte) : bool :=
  forallb (fun c => negb (Byte.eqb c x00) && negb (Byte.eqb c x25)) s.

End Cstr.
Import Cstr.

(** ** [Serial] *)

Module Serial.

(** The constructor. *)
Definition Serial `{SerialPort} (baudRate : Z) (portName : string) : outcome unit :=
  let? _ := open_port portName in
  set_baud_rate baudRate.

Definition writeSome `{SerialPort} (buf : list byte) (n : nat) : M nat :=
  let! w := get in
  let! k := lift (write_some (w_uart w) (take n buf)) in
  run! modify (set_uart (w_uart w ++ take k (take n buf)));
  ret k.

(** [writeSome] for terminated strings: with [incZero] the NUL is sent too.  A buffer
    without a NUL makes [strlen] read past its end. *)
Definition writeSome_string `{SerialPort} (buf : list byte) (incZero : bool) : M nat :=
  if existsb (Byte.eqb x00) buf then
    let n := length (cstr buf) in
    writeSome buf (if incZero then S n else n)
  else undef "strlen past the end of buf".

(** Reading: the input still to come is a list; [None] is a read that blocks. *)
Definition readSome1 (input : list byte) : option (byte * list byte) :=
  match input with [] => None | b :: input => Some (b, input) end.

(** The [do]-[while] of [readCString]; [n] is [0] throughout, so every octet is
    stored in [buf[0]]. *)
Fixpoint readCString_loop (input buf : list byte) (n maxSize : nat)
  : option (list byte * list byte) :=
  match input with
  | [] => None
  | b :: input =>
      let buf := <[n := b]> buf in
      if negb (Byte.eqb b x00) && (n <? maxSize)%nat
      then readCString_loop input buf n maxSize
      else Some (buf, input)
  end.

Inductive read_result :=
| Blocked
| Read (n : nat) (buf rest : list byte)
| OutOfRange.

Definition readCString (input buf : list byte) (maxSize : nat) : read_result :=
  let n := 0%nat in
  match readCString_loop input buf n maxSize with
  | None => Blocked
  | Some (buf, rest) =>
      if (n =? maxSize)%nat
      then match n with O => OutOfRange | S n' => Read n (<[n' := x00]> buf) rest end
      else Read n buf rest
  end.

End Serial.

(** ** [PSoCcom] *)

Module PSoCcom.

Definition spil_code (spil : list byte) : list byte :=
  let spilTemp := [] in
  let spilTemp := if bool_decide (spil = bs "Fisk") then bs "1" else spilTemp in
  let spilTemp := if bool_decide (spil = bs "500") then bs "2" else spilTemp in
  let spilTemp := if bool_decide (spil = bs "Røvhul") then bs "3" else spilTemp in
  spilTemp.

(** The constructor: [new Serial], with its default arguments. *)
Definition PSoCcom `{SerialPort} : outcome unit := Serial.Serial 57600 "/dev/ttyS0".

Definition message_size : nat := 5.

Definition startSpil `{SerialPort} (spil antalSpillere : list byte) : M unit :=
  let spilTemp := spil_code spil in
  let message_temp := bs "R" ++ spilTemp ++ antalSpillere ++ bs "C" in
  match store (cstr message_temp) (repeat x00 message_size) with
  | None => undef "strcpy past the end of message"
  | Some message =>
      match format (cstr message) with
      | None => undef "conversion without an argument"
      | Some out =>
          let! w := get in
          match store out (w_buf w) with
          | None => undef "sprintf past the end of buf"
          | Some buf =>
              run! modify (set_buf buf);
              run! Serial.writeSome buf (length out);
              ret ()
          end
      end
  end.

End PSoCcom.

(** ** [RPIdata] *)

Module RPIdata.

Definition settings_txt : string := "settings.txt".

(** [std::ifstream t( name ); buffer << t.rdbuf(); buffer.str()]: a file that
    cannot be opened reads as the empty string. *)
Definition read_file (name : string) : M (list byte) :=
  let! w := get in ret (default [] (w_files w !! name)).

(** [std::ofstream::open], [<<] and [close]: the file is replaced; when it
    cannot be opened nothing happens and nothing is reported. *)
Definition write_file (name : string) (data : list byte) : M unit :=
  modify (fun w => if w_writable w then set_files (<[name := data]> (w_files w)) w else w).

Definition retrieveSelected `{JsonDto} : M unit :=
  let! text := read_file settings_txt in
  let! s := lift (from_json_selected text) in
  modify (set_selected s).

Definition saveSelected `{JsonDto} : M unit :=
  let! w := get in
  write_file settings_txt (to_json (w_selected w)).

End RPIdata.
Import RPIdata.

(** ** [selected_handler_t] *)

Module Handler.
Import Status Buffers Response.

(** What a handler reads of the request: the body and whether the client asked
    to keep the connection. *)
Record request := mk_request { req_body : list byte; req_keep_alive : bool }.

Section Handlers.
Context `{JsonDto} `{SerialPort}.

(** The constructor; [new RPIdata] keeps a reference. *)
Definition selected_handler : outcome unit := PSoCcom.PSoCcom.

(** The value of the Date field. *)
Variable now : list byte.

Definition init_resp (resp : response_builder_t) : response_builder_t :=
  append_header_by_id HttpField.access_control_allow_origin (bs "*")
    (append_header (bs "Content-Type") (bs "text/html; charset=utf-8")
      (append_header_date_field now
        (append_header (bs "Server") (bs "RESTinio sample server /v.0.6") resp))).

Definition mark_as_bad_request (resp : response_builder_t) : response_builder_t :=
  with_header (with_status_line (status_line bad_request) (m_header resp)) resp.

(** [req->create_response()] and [resp.done()]. *)
Definition new_resp (req : request) : response_builder_t :=
  init_resp (create_response (status_line ok) (req_keep_alive req)).
Definition finish (resp : response_builder_t) : M sent_t :=
  let! r := lift (done_ resp) in ret (snd r).

Definition on_players_post (req : request) : M sent_t :=
  let resp := new_resp req in
  let! p := lift (from_json_players (req_body req)) in
  run! modify (fun w => set_selected (mk_selected (s_game (w_selected w)) (mk_players (m_players p))) w);
  run! saveSelected;
  finish resp.

Definition on_game_post (req : request) : M sent_t :=
  let resp := new_resp req in
  let! p := lift (from_json_game (req_body req)) in
  run! modify (fun w => set_selected (mk_selected (mk_game (m_game p)) (s_players (w_selected w))) w);
  run! saveSelected;
  finish resp.

(** Opening and reading "home.html" never throws: the only calls of the [try]
    block that can are those after the first [set_body], whose body the catch
    clause therefore sees. *)
Definition on_home (req : request) : M sent_t :=
  let resp := new_resp req in
  let! html := read_file "home.html" in
  let resp := set_body html resp in
  let! resp := try_catch
      (run! retrieveSelected;
       let! w := get in
       ret (set_body (to_json (w_selected w)) resp))
      (ret (mark_as_bad_request resp)) in
  finish resp.

Definition on_start_game (req : request) : M sent_t :=
  let resp := new_resp req in
  let! resp := try_catch
      (run! retrieveSelected;
       let! w := get in
       run! PSoCcom.startSpil (m_game (s_game (w_selected w))) (m_players (s_players (w_selected w)));
       let! html := read_file "startGame.html" in
       ret (set_body html resp))
      (ret (mark_as_bad_request resp)) in
  finish resp.

Definition serve_file (name : string) (req : request) : M sent_t :=
  let resp := new_resp req in
  let! resp := try_catch
      (let! html := read_file name in ret (set_body html resp))
      (ret (mark_as_bad_request resp)) in
  finish resp.

Definition on_set_players : request -> M sent_t := serve_file "setPlayers.html".
Definition on_set_game : request -> M sent_t := serve_file "setGame.html".
Definition on_settings : request -> M sent_t := serve_file "settings.txt".

Definition options (req : request) : M sent_t :=
  let methods := bs "OPTIONS, GET, POST, PATCH, DELETE" in
  let resp := new_resp req in
  let resp := append_header_by_id HttpField.access_control_allow_methods methods resp in
  let resp := append_header_by_id HttpField.access_control_allow_headers (bs "content-type") resp in
  let resp := append_header_by_id HttpField.access_control_max_age (bs "86400") resp in
  finish resp.

(** The lambda [method_not_allowed] of [server_handler]. *)
Definition method_not_allowed_handler (req : request) : M sent_t :=
  finish (connection_close
    (create_response (status_line method_not_allowed) (req_keep_alive req))).

End Handlers.
End Handler.

(** ** Properties *)

Module DealerProps.
Import Status Buffers Response Handler.

(** What the client receives of a handler's result. *)
Definition reply (r : result sent_t * world) : option (list byte) :=
  match fst r with Ret g => Some (group_bytes (sent_group g)) | _ => None end.

(** The reply the handlers build: status [sl], the four standard fields, the
    length of the body and the body. *)
Definition answer (now : list byte) (keep : bool) (sl : http_status_line_t) (body : list byte)
  : list byte :=
  create_header_string
    (with_content_length (size body)
       (with_status_line sl (m_header (new_resp now (mk_request [] keep))))) add_content_length
  ++ body.

Definition file (name : string) (w : world) : list byte := default [] (w_files w !! name).

Lemma finish_set_body resp body w :
  m_conn resp = true ->
  exists g, finish (set_body body resp) w = (Ret g, w)
    /\ group_bytes (sent_group g)
       = create_header_string (with_content_length (size body) (m_header resp)) add_content_length
         ++ body.
Proof.
  intros Hc. unfold finish, bind, lift.
  assert (Hs : m_conn (set_body body resp) = true /\ m_header (set_body body resp) = m_header resp
    /\ m_body_size (set_body body resp) = size body
    /\ concat (tail (m_response_parts (set_body body resp))) = body).
  { unfold set_body, if_neccessary_reserve_first_element_for_header.
    destruct resp as [h c n [|p parts]]; simpl in *; (split; [done|split; [done|split; [done|]]]);
      destruct (Z.ltb_spec 0 (size body)) as [H|H]; simpl; rewrite ?app_nil_r; try done;
      destruct body; [done|unfold size in H; simpl in H; lia|done|unfold size in H; simpl in H; lia]. }
  destruct Hs as (H1 & H2 & H3 & H4). rewrite (done_run _ H1), H2, H3. eexists. split; [reflexivity|].
  unfold group_bytes. cbn [snd sent_group m_items map flat_map item_bytes]. by rewrite trivial_bytes, H4.
Qed.

Lemma reply_set_body resp body w :
  m_conn resp = true ->
  reply (finish (set_body body resp) w)
  = Some (create_header_string (with_content_length (size body) (m_header resp)) add_content_length
          ++ body)
  /\ snd (finish (set_body body resp) w) = w.
Proof.
  intros Hc. destruct (finish_set_body resp body w Hc) as (parts & -> & He).
  unfold reply. simpl. by rewrite He.
Qed.

Lemma cstr_nul_free s : Forall (fun c => c <> x00) s -> cstr (s ++ [x00]) = s /\ cstr s = s.
Proof.
  induction 1 as [|c s Hc _ [IH1 IH2]]; [done|]. simpl.
  destruct (Byte.eqb c x00) eqn:E; [by apply Byte.byte_dec_bl in E|].
  by rewrite IH1, IH2.
Qed.

Lemma cstr_app_nul s t : Forall (fun c => c <> x00) s -> cstr (s ++ x00 :: t) = s.
Proof.
  induction 1 as [|c s Hc _ IH]; [done|]. simpl.
  destruct (Byte.eqb c x00) eqn:E; [by apply Byte.byte_dec_bl in E|]. by rewrite IH.
Qed.

Lemma format_plain s : plain s = true -> format s = Some s.
Proof.
  induction s as [|c s IH]; [done|]. unfold plain. cbn [forallb format].
  rewrite !andb_true_iff, !negb_true_iff. intros ((H1 & H2) & H3). rewrite H2.
  by rewrite IH.
Qed.

Lemma plain_nul_free s : plain s = true -> Forall (fun c => c <> x00) s.
Proof.
  unfold plain. rewrite forallb_forall. intros Hs. apply Forall_forall. intros c Hc ->.
  by specialize (Hs _ Hc).
Qed.

Lemma spil_code_cases spil :
  PSoCcom.spil_code spil = [] \/ PSoCcom.spil_code spil = bs "1" \/ PSoCcom.spil_code spil = bs "2"
  \/ PSoCcom.spil_code spil = bs "3".
Proof. unfold PSoCcom.spil_code. repeat case_bool_decide; auto. Qed.

(** The message for the PSoC. *)
Definition start_message (spil antal : list byte) : list byte :=
  bs "R" ++ PSoCcom.spil_code spil ++ antal ++ bs "C".

Section Props.
Context `{J : JsonDto} `{P : SerialPort}.
Variable now : list byte.

(** Effect of [startSpil] when the number of players holds neither NUL nor
    percent sign. *)
Lemma startSpil_run spil antal w :
  plain antal = true -> length (w_buf w) = PSoCcom.message_size ->
  let msg := start_message spil antal in
  PSoCcom.startSpil spil antal w
  = if (length (PSoCcom.spil_code spil) + length antal <=? 2)%nat then
      let w1 := set_buf (msg ++ [x00] ++ drop (S (length msg)) (w_buf w)) w in
      match write_some (w_uart w) msg with
      | Ok k => (Ret (), set_uart (w_uart w ++ take k msg) w1)
      | Throw e => (Raise e, w1)
      end
    else (Undef "strcpy past the end of message", w).
Proof.
  intros Hp Hb msg. unfold PSoCcom.startSpil. fold (start_message spil antal). fold msg.
  assert (Hmsg : plain msg = true).
  { unfold msg, start_message, plain. rewrite !forallb_app. fold (plain antal). rewrite Hp.
    by destruct (spil_code_cases spil) as [-> | [-> | [-> | ->]]]. }
  destruct (cstr_nul_free msg (plain_nul_free _ Hmsg)) as [_ ->].
  assert (Hl : length msg = S (S (length (PSoCcom.spil_code spil) + length antal))).
  { unfold msg, start_message. rewrite !length_app. simpl. lia. }
  unfold store at 1. rewrite repeat_length, Hl. unfold PSoCcom.message_size at 1.
  destruct (Nat.leb_spec (length (PSoCcom.spil_code spil) + length antal) 2) as [H2|H2].
  2:{ rewrite (proj2 (Nat.ltb_ge _ _)); [done|lia]. }
  rewrite (proj2 (Nat.ltb_lt _ _)) by lia. cbn [app].
  rewrite cstr_app_nul by by apply plain_nul_free.
  rewrite (format_plain _ Hmsg). unfold bind at 1, get. unfold store.
  rewrite Hb, (proj2 (Nat.ltb_lt _ _)) by (unfold PSoCcom.message_size; lia).
  unfold Serial.writeSome, bind, modify, get, lift, ret. cbn [w_uart set_buf].
  rewrite take_app_length. destruct (write_some (w_uart w) msg) as [k|e]; by rewrite Hl.
Qed.

Definition known_game (spil : list byte) : Prop :=
  spil = bs "Fisk" \/ spil = bs "500" \/ spil = bs "Røvhul".

Lemma retrieve_run w :
  retrieveSelected w
  = match from_json_selected (file settings_txt w) with
    | Ok s => (Ret (), set_selected s w)
    | Throw e => (Raise e, w)
    end.
Proof.
  unfold retrieveSelected, read_file, bind, get, lift, modify, ret, file.
  by destruct (from_json_selected _).
Qed.

Lemma save_run w :
  saveSelected w
  = (Ret (), if w_writable w
             then set_files (<[settings_txt := to_json (w_selected w)]> (w_files w)) w else w).
Proof. done. Qed.

Lemma serve_file_run name req w :
  reply (serve_file now name req w)
  = Some (answer now (req_keep_alive req) (status_line ok) (file name w))
  /\ snd (serve_file now name req w) = w.
Proof.
  unfold serve_file. unfold bind at 1. unfold try_catch, bind at 1, read_file, bind, get, ret.
  by apply reply_set_body.
Qed.

(** Starting a game with valid stored settings: the server reads the
    settings file, sends exactly "R", the digit of the game, the number of
    players and "C" on the UART, answers 200 with the contents of
    "startGame.html", and leaves the files as they are. *)
Theorem start_game_sends_stored_settings (req : request) (w : world) (s : selected_t) (c : byte) :
  length (w_buf w) = PSoCcom.message_size ->
  from_json_selected (file settings_txt w) = Ok s ->
  known_game (m_game (s_game s)) -> m_players (s_players s) = [c] -> plain [c] = true ->
  write_some (w_uart w) (start_message (m_game (s_game s)) [c]) = Ok 4%nat ->
  exists w', reply (on_start_game now req w)
             = Some (answer now (req_keep_alive req) (status_line ok) (file "startGame.html" w))
    /\ snd (on_start_game now req w) = w'
    /\ w_uart w' = w_uart w ++ start_message (m_game (s_game s)) [c]
    /\ length (start_message (m_game (s_game s)) [c]) = 4%nat
    /\ w_files w' = w_files w /\ w_selected w' = s.
Proof.
  intros Hb Hj Hg Hp Hc Hw.
  assert (Hl : length (PSoCcom.spil_code (m_game (s_game s))) = 1%nat).
  { by destruct Hg as [-> | [-> | ->]]. }
  assert (Hm : length (start_message (m_game (s_game s)) [c]) = 4%nat).
  { unfold start_message. rewrite !length_app, Hl. done. }
  pose proof (startSpil_run (m_game (s_game s)) [c] (set_selected s w) Hc Hb) as Hrun.
  cbv zeta in Hrun. rewrite Hl in Hrun. cbn [length Nat.add Nat.leb w_uart set_selected] in Hrun.
  rewrite Hw in Hrun.
  pose proof (retrieve_run w) as Hret. rewrite Hj in Hret.
  match type of Hrun with _ = (_, ?w1) => set (w' := w1) in Hrun end.
  assert (E : on_start_game now req w
              = finish (set_body (file "startGame.html" w) (new_resp now req)) w').
  { unfold on_start_game. erewrite bind_ret; [reflexivity|]. apply try_ret.
    rewrite (bind_ret _ _ _ _ _ Hret), (bind_ret get _ _ _ _ eq_refl).
    cbn [w_selected set_selected]. rewrite Hp. by rewrite (bind_ret _ _ _ _ _ Hrun). }
  destruct (reply_set_body (new_resp now req) (file "startGame.html" w) w' eq_refl) as [Hr Hs].
  exists w'. rewrite E. split; [exact Hr|]. split; [exact Hs|].
  unfold w'. cbn [w_uart w_files w_selected set_uart set_buf set_selected].
  rewrite take_ge by (rewrite Hm; lia). done.
Qed.

(** C40. The fixed buffers of [startSpil]: for a number of players without NUL
    or percent sign the call has undefined behaviour exactly when the digit of
    the game and the number of players together exceed two octets; otherwise it
    hands the whole message to the port once. *)
Theorem startSpil_undefined_iff (spil antal : list byte) (w : world) :
  plain antal = true -> length (w_buf w) = PSoCcom.message_size ->
  ((exists why, fst (PSoCcom.startSpil spil antal w) = Undef why)
   <-> (2 < length (PSoCcom.spil_code spil) + length antal)%nat)
  /\ (known_game spil -> (2 <= length antal)%nat ->
      exists why, fst (PSoCcom.startSpil spil antal w) = Undef why).
Proof.
  intros Hp Hb. rewrite (startSpil_run spil antal w Hp Hb).
  assert (Hk : known_game spil -> length (PSoCcom.spil_code spil) = 1%nat).
  { by intros [-> | [-> | ->]]. }
  destruct (Nat.leb_spec (length (PSoCcom.spil_code spil) + length antal) 2) as [H2|H2].
  - split; [split; [|lia]|intros; rewrite Hk in H2 by done; lia].
    cbv zeta. intros [why E]. by destruct (write_some _ _).
  - split; [split; [done|]|]; intros; eexists; reflexivity.
Qed.

(** The overload for terminated strings, which the program does not call, sends the
    string, with its NUL by default. *)
Lemma writeSome_string_run s rest incZero w k :
  Forall (fun c => c <> x00) s ->
  let data := if incZero : bool then s ++ [x00] else s in
  write_some (w_uart w) data = Ok k ->
  Serial.writeSome_string (s ++ x00 :: rest) incZero w = (Ret k, set_uart (w_uart w ++ take k data) w).
Proof.
  intros Hs data Hw. unfold Serial.writeSome_string. rewrite existsb_app. cbn [existsb]. rewrite orb_true_r.
  change (s ++ x00 :: rest) with (s ++ [x00] ++ rest). rewrite app_assoc.
  assert (Hc : cstr ((s ++ [x00]) ++ rest) = s) by (rewrite <- app_assoc; by apply cstr_app_nul).
  rewrite Hc. unfold Serial.writeSome.
  assert (Ht : take (if incZero then S (length s) else length s) ((s ++ [x00]) ++ rest) = data).
  { destruct incZero; subst data.
    - replace (S (length s)) with (length (s ++ [x00])) by (rewrite length_app; cbn; lia). apply take_app_length.
    - rewrite <- app_assoc. apply take_app_length. }
  rewrite Ht. unfold bind, get, lift, modify, ret. by rewrite Hw.
Qed.

(** The result of [write_some] is dropped: a port that accepts fewer octets
    leaves the PSoC with a truncated message, and [startSpil] returns as if all
    was well. *)
Lemma startSpil_ignores_short_write spil antal w k :
  plain antal = true -> length (w_buf w) = PSoCcom.message_size ->
  (length (PSoCcom.spil_code spil) + length antal <= 2)%nat ->
  write_some (w_uart w) (start_message spil antal) = Ok k ->
  fst (PSoCcom.startSpil spil antal w) = Ret ()
  /\ w_uart (snd (PSoCcom.startSpil spil antal w))
     = w_uart w ++ take k (start_message spil antal).
Proof.
  intros Hp Hb H2 Hw. rewrite (startSpil_run spil antal w Hp Hb).
  rewrite (proj2 (Nat.leb_le _ _) H2). cbv zeta. by rewrite Hw.
Qed.

(** The effect and the reply of [on_home]. *)
Lemma on_home_run (req : request) (w : world) :
  match from_json_selected (file settings_txt w) with
  | Ok s =>
      reply (on_home now req w)
      = Some (answer now (req_keep_alive req) (status_line ok) (to_json s))
      /\ snd (on_home now req w) = set_selected s w
  | Throw _ =>
      reply (on_home now req w)
      = Some (answer now (req_keep_alive req) (status_line bad_request) (file "home.html" w))
      /\ snd (on_home now req w) = w
  end.
Proof.
  pose proof (retrieve_run w) as Hret. unfold on_home.
  rewrite (bind_ret (read_file "home.html") _ _ _ _ eq_refl). fold (file "home.html" w).
  destruct (from_json_selected (file settings_txt w)) as [s|e].
  - erewrite bind_ret; [|apply try_ret; by rewrite (bind_ret _ _ _ _ _ Hret)].
    by apply reply_set_body.
  - erewrite bind_ret; [|erewrite try_raise; [reflexivity|by apply (bind_raise _ _ _ _ _ Hret)]].
    change (mark_as_bad_request (set_body (file "home.html" w) (new_resp now req)))
      with (set_body (file "home.html" w) (mark_as_bad_request (new_resp now req))).
    by apply reply_set_body.
Qed.

(** The start page: with readable settings the client gets the settings
    as JSON, and the contents of "home.html" are not sent; when they cannot be
    read, the answer is 400 with "home.html" as its body, and the selection in
    memory is unchanged. *)
Theorem on_home_reply (req : request) (w : world) :
  match from_json_selected (file settings_txt w) with
  | Ok s =>
      reply (on_home now req w)
      = Some (answer now (req_keep_alive req) (status_line ok) (to_json s))
      /\ snd (on_home now req w) = set_selected s w
  | Throw _ =>
      reply (on_home now req w)
      = Some (answer now (req_keep_alive req) (status_line bad_request) (file "home.html" w))
      /\ snd (on_home now req w) = w
  end.
Proof. exact (on_home_run req w). Qed.

(** A POST whose body is not the expected JSON: unlike the GET handlers,
    [on_players_post] and [on_game_post] let the exception out, so the client
    gets no answer; nothing is changed or stored. *)
Theorem malformed_post_has_no_reply (req : request) (w : world) (e e' : string) :
  from_json_players (req_body req) = Throw e -> from_json_game (req_body req) = Throw e' ->
  on_players_post now req w = (Raise e, w) /\ on_game_post now req w = (Raise e', w).
Proof.
  intros H1 H2. split.
  - unfold on_players_post, bind at 1, lift. by rewrite H1.
  - unfold on_game_post, bind at 1, lift. by rewrite H2.
Qed.

(** *** Sessions *)

(** The handlers [server_handler] registers. *)
Inductive route :=
| get_home | get_game | get_players | get_startgame | get_settings
| post_players | post_game | options_home | other_method.

Definition handler (r : route) : request -> M sent_t :=
  match r with
  | get_home => on_home now
  | get_game => on_set_game now
  | get_players => on_set_players now
  | get_startgame => on_start_game now
  | get_settings => on_settings now
  | post_players => on_players_post now
  | post_game => on_game_post now
  | options_home => options now
  | other_method => method_not_allowed_handler
  end.

(** One request: an exception closes the connection and the server goes on. *)
Definition serve1 (w : world) (ev : route * request) : option world :=
  match handler (fst ev) (snd ev) w with
  | (Undef _, _) => None
  | (_, w') => Some w'
  end.

Fixpoint serve (w : world) (evs : list (route * request)) : option world :=
  match evs with
  | [] => Some w
  | ev :: evs => match serve1 w ev with Some w' => serve w' evs | None => None end
  end.

(** The specification: the dealer keeps a selection in memory and a stored one,
    the text of the settings file.  A POST changes the part it names in memory and
    stores the whole if the file can be written; the start page and starting a game
    bring the stored selection to memory if it can be read; starting a game offers
    its message to the port, which takes some of it or throws. *)
Record dealer := mk_dealer {
  d_memory : selected_t;
  d_stored : list byte;
  d_writable : bool;
  d_sent : list byte
}.

Definition recall (s : selected_t) (st : dealer) : dealer := mk_dealer s (d_stored st) (d_writable st) (d_sent st).
Definition choose (s : selected_t) (st : dealer) : dealer :=
  mk_dealer s (if d_writable st then to_json s else d_stored st) (d_writable st) (d_sent st).
Definition transmit (out : list byte) (st : dealer) : dealer :=
  mk_dealer (d_memory st) (d_stored st) (d_writable st) (d_sent st ++ out).

Definition message_of (s : selected_t) : list byte := start_message (m_game (s_game s)) (m_players (s_players s)).

Definition spec_step (st : dealer) (ev : route * request) : dealer :=
  match fst ev with
  | post_players =>
      match from_json_players (req_body (snd ev)) with
      | Ok p => choose (mk_selected (s_game (d_memory st)) p) st
      | Throw _ => st
      end
  | post_game =>
      match from_json_game (req_body (snd ev)) with
      | Ok g => choose (mk_selected g (s_players (d_memory st))) st
      | Throw _ => st
      end
  | get_home => match from_json_selected (d_stored st) with Ok s => recall s st | Throw _ => st end
  | get_startgame =>
      match from_json_selected (d_stored st) with
      | Ok s =>
          match write_some (d_sent st) (message_of s) with
          | Ok k => transmit (take k (message_of s)) (recall s st)
          | Throw _ => recall s st
          end
      | Throw _ => st
      end
  | _ => st
  end.

(** Selections whose message fits the buffers of [startSpil]. *)
Definition fits (s : selected_t) : bool :=
  plain (m_players (s_players s))
  && (length (PSoCcom.spil_code (m_game (s_game s))) + length (m_players (s_players s)) <=? 2)%nat.

(** Starting a game is defined: the stored selection fits, or cannot be read. *)
Definition startable (st : dealer) : bool :=
  match from_json_selected (d_stored st) with Ok s => fits s | Throw _ => true end.

Definition is_start (r : route) : bool := match r with get_startgame => true | _ => false end.

(** The program is in the state of the specification. *)
Record implements (st : dealer) (w : world) : Prop := {
  im_writable : w_writable w = d_writable st;
  im_buf : length (w_buf w) = PSoCcom.message_size;
  im_file : file settings_txt w = d_stored st;
  im_selected : w_selected w = d_memory st;
  im_uart : w_uart w = d_sent st
}.

(** Memory and file agree, as they do from the first POST or the first start page on. *)
Definition agrees (st : dealer) : Prop :=
  d_writable st = true /\ from_json_selected (d_stored st) = Ok (d_memory st).

Lemma recall_same st : recall (d_memory st) st = st.
Proof. by destruct st. Qed.

Lemma choose_agrees s st : d_writable st = true -> agrees (choose s st).
Proof. intros Hw. split; [done|]. cbn [choose d_stored d_memory]. rewrite Hw. apply json_roundtrip. Qed.

Lemma spec_step_agrees st ev : agrees st -> agrees (spec_step st ev).
Proof.
  intros [Hw Hs]. assert (Ha : agrees st) by done. destruct ev as [r req]. unfold spec_step. cbn [fst snd]. rewrite Hs.
  destruct r; rewrite ?recall_same; try done.
  - by destruct (write_some _ _).
  - destruct (from_json_players (req_body req)); [by apply choose_agrees|done].
  - destruct (from_json_game (req_body req)); [by apply choose_agrees|done].
Qed.

Lemma finish_ok resp w : m_conn resp = true -> exists parts, finish resp w = (Ret parts, w).
Proof. intros Hc. unfold finish, bind, lift. rewrite (done_run _ Hc). by eexists. Qed.

Lemma file_saved w s :
  file settings_txt (set_files (<[settings_txt := to_json s]> (w_files w)) w) = to_json s.
Proof. unfold file. cbn [w_files set_files]. by rewrite lookup_insert_eq. Qed.

(** The world after a selection was stored. *)
Definition saved (s : selected_t) (w : world) : world :=
  if w_writable w then set_files (<[settings_txt := to_json s]> (w_files w)) (set_selected s w) else set_selected s w.

Lemma saved_implements st w s : implements st w -> implements (choose s st) (saved s w).
Proof.
  intros [Hw Hb Hf Hs Hu]. unfold saved, choose. rewrite <- Hw. destruct (w_writable w) eqn:E; (constructor; try done).
  apply (file_saved (set_selected s w)).
Qed.

(** The world after a message was offered to the port. *)
Definition offered (msg : list byte) (w : world) : world :=
  set_buf (msg ++ [x00] ++ drop (S (length msg)) (w_buf w)) w.

Lemma offered_implements st w msg :
  (length msg <= 4)%nat -> implements st w -> implements st (offered msg w).
Proof.
  intros Hl [Hw Hb Hf Hs Hu]. constructor; try done. unfold offered. cbn [w_buf set_buf].
  rewrite !length_app, length_drop, Hb. unfold PSoCcom.message_size. cbn [length]. lia.
Qed.

Lemma recalled_implements st w s : implements st w -> implements (recall s st) (set_selected s w).
Proof. by intros []. Qed.

Lemma sent_implements st w out : implements st w -> implements (transmit out st) (set_uart (w_uart w ++ out) w).
Proof. intros []. constructor; try done. cbn. by f_equal. Qed.

(** What starting a game does, when it is defined. *)
Lemma on_start_game_run st w req :
  implements st w -> startable st = true ->
  let settle := fun s => offered (message_of s) (set_selected s w) in
  on_start_game now req w =
    match from_json_selected (d_stored st) with
    | Throw _ => finish (mark_as_bad_request (new_resp now req)) w
    | Ok s =>
        match write_some (d_sent st) (message_of s) with
        | Throw _ => finish (mark_as_bad_request (new_resp now req)) (settle s)
        | Ok k => finish (set_body (file "startGame.html" w) (new_resp now req))
                    (set_uart (d_sent st ++ take k (message_of s)) (settle s))
        end
    end.
Proof.
  intros [Hw Hb Hf Hs Hu] Hst settle. unfold startable in Hst. pose proof (retrieve_run w) as Hret. rewrite Hf in Hret.
  unfold on_start_game. destruct (from_json_selected (d_stored st)) as [s|e].
  2:{ erewrite bind_ret; [reflexivity|]. by erewrite try_raise by by apply (bind_raise _ _ _ _ _ Hret). }
  apply andb_prop in Hst as [Hp Hl].
  pose proof (startSpil_run (m_game (s_game s)) (m_players (s_players s)) (set_selected s w) Hp Hb) as Hrun.
  cbv zeta in Hrun. rewrite Hl in Hrun. cbn [w_uart w_buf set_selected] in Hrun. rewrite Hu in Hrun. fold (message_of s) in Hrun.
  fold (offered (message_of s) (set_selected s w)) in Hrun. fold (settle s) in Hrun.
  destruct (write_some (d_sent st) (message_of s)) as [k|e].
  - erewrite bind_ret; [reflexivity|]. apply try_ret.
    rewrite (bind_ret _ _ _ _ _ Hret), (bind_ret get _ _ _ _ eq_refl). cbn [w_selected set_selected].
    by rewrite (bind_ret _ _ _ _ _ Hrun).
  - erewrite bind_ret; [reflexivity|]. erewrite try_raise; [reflexivity|].
    rewrite (bind_ret _ _ _ _ _ Hret), (bind_ret get _ _ _ _ eq_refl). cbn [w_selected set_selected].
    by rewrite (bind_raise _ _ _ _ _ Hrun).
Qed.

Lemma message_length s : fits s = true -> (length (message_of s) <= 4)%nat.
Proof.
  intros [_ Hl%Nat.leb_le]%andb_prop. unfold message_of, start_message. rewrite !length_app. simpl. lia.
Qed.

(** The world in which each handler ends. *)
Definition step_world (st : dealer) (w : world) (ev : route * request) : world :=
  match fst ev with
  | get_home => match from_json_selected (d_stored st) with Ok s => set_selected s w | Throw _ => w end
  | get_startgame =>
      match from_json_selected (d_stored st) with
      | Ok s =>
          let w1 := offered (message_of s) (set_selected s w) in
          match write_some (d_sent st) (message_of s) with
          | Ok k => set_uart (d_sent st ++ take k (message_of s)) w1
          | Throw _ => w1
          end
      | Throw _ => w
      end
  | post_players =>
      match from_json_players (req_body (snd ev)) with
      | Ok p => saved (mk_selected (s_game (d_memory st)) p) w
      | Throw _ => w
      end
  | post_game =>
      match from_json_game (req_body (snd ev)) with
      | Ok g => saved (mk_selected g (s_players (d_memory st))) w
      | Throw _ => w
      end
  | _ => w
  end.

Lemma step_world_implements st w ev :
  implements st w -> (is_start (fst ev) = true -> startable st = true) -> implements (spec_step st ev) (step_world st w ev).
Proof.
  intros Hi Hst. destruct ev as [r req]. unfold spec_step, step_world. cbn [fst snd] in *. destruct r; try done.
  - destruct (from_json_selected (d_stored st)); [by apply recalled_implements|done].
  - specialize (Hst eq_refl). unfold startable in Hst. destruct (from_json_selected (d_stored st)) as [s|]; [|done].
    assert (Ho : implements (recall s st) (offered (message_of s) (set_selected s w)))
      by (apply offered_implements; [by apply message_length|by apply recalled_implements]).
    destruct (write_some (d_sent st) (message_of s)); [|done].
    replace (d_sent st) with (w_uart (offered (message_of s) (set_selected s w))) by apply Ho.
    by apply sent_implements.
  - destruct (from_json_players (req_body req)); [by apply saved_implements|done].
  - destruct (from_json_game (req_body req)); [by apply saved_implements|done].
Qed.

(** The common end of the POST handlers. *)
Lemma store_run (f : selected_t -> selected_t) resp w :
  (run! modify (fun w => set_selected (f (w_selected w)) w); run! saveSelected; finish resp) w
  = finish resp (saved (f (w_selected w)) w).
Proof.
  rewrite (bind_ret (modify _) _ _ _ _ eq_refl), (bind_ret _ _ _ _ _ (save_run _)). unfold saved.
  cbn [w_writable set_selected]. by destruct (w_writable w).
Qed.

Lemma step_implements st w ev :
  implements st w -> (is_start (fst ev) = true -> startable st = true) ->
  serve1 w ev = Some (step_world st w ev) /\ implements (spec_step st ev) (step_world st w ev).
Proof.
  intros Hi Hst. split; [|by apply step_world_implements]. destruct ev as [r req]. pose proof Hi as [Hw Hb Hf Hs Hu].
  assert (Hfin : forall resp w', m_conn resp = true ->
            match finish resp w' with (Undef _, _) => None | (_, w') => Some w' end = Some w').
  { intros resp w' Hc. by destruct (finish_ok resp w' Hc) as [parts ->]. }
  assert (Hserve : forall name,
            match serve_file now name req w with (Undef _, _) => None | (_, w') => Some w' end = Some w).
  { intros name. unfold serve_file. erewrite bind_ret by (apply try_ret; reflexivity). by apply Hfin. }
  unfold serve1, step_world. cbn [fst snd] in *. destruct r; cbn [handler].
  - pose proof (on_home_run req w) as Hh. rewrite Hf in Hh.
    destruct (from_json_selected (d_stored st)); destruct Hh as [Hr Hw']; destruct (on_home now req w) as [[parts| |] w'];
      simpl in *; by rewrite ?Hw'.
  - exact (Hserve "setGame.html"%string).
  - exact (Hserve "setPlayers.html"%string).
  - rewrite (on_start_game_run st w req Hi (Hst eq_refl)). destruct (from_json_selected (d_stored st)); [|by apply Hfin].
    by destruct (write_some _ _); apply Hfin.
  - exact (Hserve settings_txt).
  - unfold on_players_post. destruct (from_json_players (req_body req)) as [[p]|e]; [|done].
    erewrite bind_ret by reflexivity. rewrite <- Hs.
    rewrite (store_run (fun s => mk_selected (s_game s) (mk_players p))). by apply Hfin.
  - unfold on_game_post. destruct (from_json_game (req_body req)) as [[g]|e]; [|done].
    erewrite bind_ret by reflexivity. rewrite <- Hs.
    rewrite (store_run (fun s => mk_selected (mk_game g) (s_players s))). by apply Hfin.
  - by apply Hfin.
  - by apply Hfin.
Qed.

(** The server process started anew: [main] default-constructs [selected]. *)
Definition restart (w : world) : world := set_selected selected_default w.

(** After a restart the stored selection is not read back before it is
    overwritten: the first POST of the number of players stores it together
    with an empty game, whatever game was stored, and starting the game then
    sends a message without a game digit. *)
Theorem post_after_restart_forgets_game (req req' : request) (w : world) (c : byte) :
  w_writable w = true -> length (w_buf w) = PSoCcom.message_size ->
  from_json_players (req_body req) = Ok (mk_players [c]) -> plain [c] = true ->
  write_some (w_uart w) [x52; c; x43] = Ok 3%nat ->
  exists w', serve (restart w) [(post_players, req); (get_startgame, req')] = Some w'
    /\ from_json_selected (file settings_txt w')
       = Ok (mk_selected game_default (mk_players [c]))
    /\ w_uart w' = w_uart w ++ [x52; c; x43].
Proof.
  intros Hw Hb Hj Hc Hport.
  set (st0 := mk_dealer selected_default (file settings_txt w) true (w_uart w)).
  set (s := mk_selected game_default (mk_players [c])).
  assert (Hi : implements st0 (restart w)) by (by constructor).
  destruct (step_implements st0 (restart w) (post_players, req) Hi ltac:(done)) as [E1 Hi1].
  assert (Es : spec_step st0 (post_players, req) = choose s st0) by (unfold spec_step; cbn [fst snd]; by rewrite Hj).
  rewrite Es in Hi1.
  assert (Hread : from_json_selected (d_stored (choose s st0)) = Ok s) by (apply (choose_agrees s st0); done).
  assert (Hfit : fits s = true) by (unfold fits; cbn [s_players s_game m_players s]; by rewrite Hc).
  destruct (step_implements (choose s st0) _ (get_startgame, req') Hi1) as [E2 Hi2].
  { intros _. unfold startable. by rewrite Hread. }
  eexists. cbn [serve]. rewrite E1, E2. split; [reflexivity|].
  unfold spec_step in Hi2. cbn [fst snd] in Hi2. rewrite Hread in Hi2.
  change (message_of s) with [x52; c; x43] in Hi2. change (d_sent (choose s st0)) with (w_uart w) in Hi2.
  rewrite Hport in Hi2. destruct Hi2 as [_ _ Hf _ Hu]. split; [|exact Hu]. rewrite Hf. exact Hread.
Qed.

End Props.

(** [n] is never advanced: every octet of the string lands in [buf[0]], so
    reading a terminated string returns 0 and leaves an empty string. *)
Lemma readCString_loop_run pre rest buf maxSize :
  Forall (fun c => c <> x00) pre -> (0 < maxSize)%nat ->
  Serial.readCString_loop (pre ++ x00 :: rest) buf 0 maxSize = Some (<[0%nat := x00]> buf, rest).
Proof.
  intros Hpre Hm. revert buf. induction Hpre as [|c pre Hc _ IH]; intros buf; simpl; [done|].
  destruct (Byte.eqb c x00) eqn:E; [by apply Byte.byte_dec_bl in E|].
  destruct maxSize; [lia|]. cbn. rewrite IH. by destruct buf.
Qed.

(** [readCString] loses the string: whatever was sent before the NUL, the
    call consumes it, returns 0 and leaves an empty C string; with a size of 0
    it writes before the start of the buffer. *)
Theorem readCString_loses_string (pre rest buf : list byte) (maxSize : nat) :
  Forall (fun c => c <> x00) pre ->
  ((0 < maxSize)%nat ->
   Serial.readCString (pre ++ x00 :: rest) buf maxSize
   = Serial.Read 0 (<[0%nat := x00]> buf) rest)
  /\ Serial.readCString (pre ++ x00 :: rest) buf 0 = Serial.OutOfRange.
Proof.
  intros Hpre. split.
  - intros Hm. unfold Serial.readCString. rewrite readCString_loop_run by done.
    by destruct maxSize; [lia|].
  - unfold Serial.readCString. destruct pre; simpl; by rewrite ?andb_false_r.
Qed.

End DealerProps.

(** ** Instances

    A compact JSON writer and reader for the three DTO types and a port that
    transmits everything: the two interfaces can be met. *)

Module Instances.

Fixpoint escape (s : list byte) : list byte :=
  match s with
  | [] => []
  | c :: s => if Byte.eqb c x22 || Byte.eqb c x5c then x5c :: c :: escape s else c :: escape s
  end.

(** Reads the characters up to the closing quote. *)
Fixpoint unescape (s : list byte) : option (list byte * list byte) :=
  match s with
  | [] => None
  | c :: s' =>
      if Byte.eqb c x22 then Some ([], s')
      else if Byte.eqb c x5c then
        match s' with
        | [] => None
        | d :: s'' => '(r, rest) ← unescape s''; Some (d :: r, rest)
        end
      else '(r, rest) ← unescape s'; Some (c :: r, rest)
  end.

Fixpoint skip (p s : list byte) : option (list byte) :=
  match p, s with
  | [], s => Some s
  | a :: p, b :: s => if Byte.eqb a b then skip p s else None
  | _ :: _, [] => None
  end.

Lemma skip_app p s : skip p (p ++ s) = Some s.
Proof. induction p as [|a p IH]; [done|]. simpl. by rewrite Byte.byte_dec_lb. Qed.

Lemma json_unescape_escape s rest : unescape (escape s ++ x22 :: rest) = Some (s, rest).
Proof.
  induction s as [|c s IH]; [done|]. cbn [escape].
  destruct (Byte.eqb c x22) eqn:E1; [|destruct (Byte.eqb c x5c) eqn:E2]; simpl.
  - by rewrite IH.
  - by rewrite IH.
  - by rewrite E1, E2, IH.
Qed.

Definition pre_game : list byte := [x7b; x22; x67; x61; x6d; x65; x22; x3a; x22].
Definition pre_players : list byte :=
  [x7b; x22; x70; x6c; x61; x79; x65; x72; x73; x22; x3a; x22].
Definition pre1 : list byte := [x7b; x22; x67; x61; x6d; x65; x22; x3a] ++ pre_game.
Definition pre2 : list byte :=
  [x7d; x2c; x22; x70; x6c; x61; x79; x65; x72; x73; x22; x3a] ++ pre_players.

Definition write_selected (s : selected_t) : list byte :=
  pre1 ++ escape (m_game (s_game s)) ++ x22 :: pre2 ++ escape (m_players (s_players s))
  ++ x22 :: [x7d; x7d].

Definition of_option {A} (o : option A) : outcome A :=
  match o with Some a => Ok a | None => Throw "error parsing" end.

Definition read_selected (s : list byte) : outcome selected_t := of_option (
  s ← skip pre1 s; '(g, s) ← unescape s; s ← skip pre2 s; '(p, s) ← unescape s;
  s ← skip [x7d; x7d] s; Some (mk_selected (mk_game g) (mk_players p))).
Definition read_one (pre s : list byte) : option (list byte) :=
  s ← skip pre s; '(g, s) ← unescape s; s ← skip [x7d] s; Some g.

Lemma read_write s : read_selected (write_selected s) = Ok s.
Proof.
  destruct s as [[g] [p]]. unfold read_selected, write_selected.
  cbn [s_game s_players m_game m_players].
  rewrite skip_app. cbn [mbind option_bind]. rewrite json_unescape_escape. cbn [mbind option_bind].
  rewrite skip_app. cbn [mbind option_bind]. by rewrite json_unescape_escape.
Qed.

#[export] Instance compact_json : JsonDto := {|
  to_json := write_selected;
  from_json_selected := read_selected;
  from_json_players s := of_option (mk_players <$> read_one pre_players s);
  from_json_game s := of_option (mk_game <$> read_one pre_game s);
  json_roundtrip := read_write
|}.

Lemma accept_all_le (sent data : list byte) (k : nat) :
  Ok (length data) = Ok k -> (k <= length data)%nat.
Proof. by intros [= <-]. Qed.

#[export] Instance eager_port : SerialPort := {|
  open_port _ := Ok tt;
  set_baud_rate _ := Ok tt;
  write_some _ data := Ok (length data);
  write_some_le := accept_all_le
|}.

(** A port that takes two octets at a time, and one whose device is not there. *)
Lemma accept_two_le (sent data : list byte) (k : nat) :
  Ok (Nat.min 2 (length data)) = Ok k -> (k <= length data)%nat.
Proof. intros E. assert (Nat.min 2 (length data) = k) as <- by congruence. apply Nat.le_min_r. Qed.

Definition slow_port : SerialPort := {|
  open_port _ := Ok tt;
  set_baud_rate _ := Ok tt;
  write_some _ data := Ok (Nat.min 2 (length data));
  write_some_le := accept_two_le
|}.

Definition absent_port : SerialPort := {|
  open_port _ := Throw "open: No such file or directory";
  set_baud_rate _ := Ok tt;
  write_some _ data := Ok (length data);
  write_some_le := accept_all_le
|}.

Definition fisk4 : selected_t := mk_selected (mk_game (bs "Fisk")) (mk_players (bs "4")).
Definition world0 : world :=
  mk_world {[ settings_txt := write_selected fisk4 ]} true [] fisk4 (repeat x00 5).
Definition post4 : Handler.request :=
  Handler.mk_request (pre_players ++ bs "4" ++ [x22; x7d]) true.
Definition get0 : Handler.request := Handler.mk_request [] true.

End Instances.

(** ** Witnesses *)

Module DealerWitnesses.
Import Instances DealerProps Handler.

Lemma start_game_sends_stored_settings_witness :
  exists w', snd (on_start_game (bs "now") get0 world0) = w' /\ w_uart w' = bs "R14C".
Proof.
  destruct (start_game_sends_stored_settings (bs "now") get0 world0 fisk4 x34)
    as (w' & _ & Hw & Hu & _); [done|vm_compute; reflexivity|by left|done|done|done|].
  by exists w'.
Defined.

Lemma startSpil_undefined_iff_witness :
  exists why, fst (PSoCcom.startSpil (bs "Fisk") (bs "10") world0) = Undef why.
Proof.
  apply (startSpil_undefined_iff (bs "Fisk") (bs "10") world0); [done|done|by left|simpl; lia].
Defined.

Lemma malformed_post_has_no_reply_witness :
  on_players_post (bs "now") get0 world0 = (Raise "error parsing", world0).
Proof.
  apply (malformed_post_has_no_reply (bs "now") get0 world0 "error parsing" "error parsing");
    reflexivity.
Defined.

Lemma post_after_restart_forgets_game_witness :
  exists w', serve (bs "now") (restart world0) [(post_players, post4); (get_startgame, get0)] = Some w'
    /\ w_uart w' = bs "R4C".
Proof.
  destruct (post_after_restart_forgets_game (J:=compact_json) (P:=eager_port) (bs "now")
      post4 get0 world0 x34)
    as (w' & H1 & _ & H2); [done|done|vm_compute; reflexivity|done|done|].
  by exists w'.
Defined.

Lemma readCString_loses_string_witness :
  Serial.readCString (bs "hi" ++ x00 :: []) (bs "....") 4 = Serial.Read 0 (x00 :: bs "...") [].
Proof.
  apply (proj1 (readCString_loses_string (bs "hi") [] (bs "....") 4
    (ltac:(repeat constructor; done)))). lia.
Defined.

End DealerWitnesses.
