(* ===== verification/Base64.v ===== *)
(** * Base64

    Model of src/web/restinio/restinio/utils/base64.hpp with its tables
    (base64_lut.ipp).  The decoder indexes its input without a check of its own:
    an index past the end is the result [OutOfRange]. *)

From S2P Require Import Prelude Bitops.

Module Base64.
Import Bitops.

Definition is_base64_char_lut : list Z :=
  [0; 0; 0; 0; 0; 0; 0; 0; 0; 0; 0; 0; 0; 0; 0; 0;
   0; 0; 0; 0; 0; 0; 0; 0; 0; 0; 0; 0; 0; 0; 0; 0;
   0; 0; 0; 0; 0; 0; 0; 0; 0; 0; 0; 1; 0; 0; 0; 1;
   1; 1; 1; 1; 1; 1; 1; 1; 1; 1; 0; 0; 0; 1; 0; 0;
   0; 1; 1; 1; 1; 1; 1; 1; 1; 1; 1; 1; 1; 1; 1; 1;
   1; 1; 1; 1; 1; 1; 1; 1; 1; 1; 1; 0; 0; 0; 0; 0;
   0; 1; 1; 1; 1; 1; 1; 1; 1; 1; 1; 1; 1; 1; 1; 1;
   1; 1; 1; 1; 1; 1; 1; 1; 1; 1; 1; 0; 0; 0; 0; 0;
   0; 0; 0; 0; 0; 0; 0; 0; 0; 0; 0; 0; 0; 0; 0; 0;
   0; 0; 0; 0; 0; 0; 0; 0; 0; 0; 0; 0; 0; 0; 0; 0;
   0; 0; 0; 0; 0; 0; 0; 0; 0; 0; 0; 0; 0; 0; 0; 0;
   0; 0; 0; 0; 0; 0; 0; 0; 0; 0; 0; 0; 0; 0; 0; 0;
   0; 0; 0; 0; 0; 0; 0; 0; 0; 0; 0; 0; 0; 0; 0; 0;
   0; 0; 0; 0; 0; 0; 0; 0; 0; 0; 0; 0; 0; 0; 0; 0;
   0; 0; 0; 0; 0; 0; 0; 0; 0; 0; 0; 0; 0; 0; 0; 0;
   0; 0; 0; 0; 0; 0; 0; 0; 0; 0; 0; 0; 0; 0; 0; 0].

Definition base64_alphabet : list Z :=
  [0x41; 0x42; 0x43; 0x44; 0x45; 0x46; 0x47; 0x48; 0x49; 0x4a; 0x4b; 0x4c; 0x4d;
   0x4e; 0x4f; 0x50; 0x51; 0x52; 0x53; 0x54; 0x55; 0x56; 0x57; 0x58; 0x59; 0x5a;
   0x61; 0x62; 0x63; 0x64; 0x65; 0x66; 0x67; 0x68; 0x69; 0x6a; 0x6b; 0x6c; 0x6d;
   0x6e; 0x6f; 0x70; 0x71; 0x72; 0x73; 0x74; 0x75; 0x76; 0x77; 0x78; 0x79; 0x7a;
   0x30; 0x31; 0x32; 0x33; 0x34; 0x35; 0x36; 0x37; 0x38; 0x39; 0x2b; 0x2f].

Definition base64_decode_lut : list Z :=
  [0; 0; 0; 0; 0; 0; 0; 0; 0; 0; 0; 0; 0; 0; 0; 0;
   0; 0; 0; 0; 0; 0; 0; 0; 0; 0; 0; 0; 0; 0; 0; 0;
   0; 0; 0; 0; 0; 0; 0; 0; 0; 0; 0; 62; 0; 0; 0; 63;
   52; 53; 54; 55; 56; 57; 58; 59; 60; 61; 0; 0; 0; 0; 0; 0;
   0; 0; 1; 2; 3; 4; 5; 6; 7; 8; 9; 10; 11; 12; 13; 14;
   15; 16; 17; 18; 19; 20; 21; 22; 23; 24; 25; 0; 0; 0; 0; 0;
   0; 26; 27; 28; 29; 30; 31; 32; 33; 34; 35; 36; 37; 38; 39; 40;
   41; 42; 43; 44; 45; 46; 47; 48; 49; 50; 51; 0; 0; 0; 0; 0;
   0; 0; 0; 0; 0; 0; 0; 0; 0; 0; 0; 0; 0; 0; 0; 0;
   0; 0; 0; 0; 0; 0; 0; 0; 0; 0; 0; 0; 0; 0; 0; 0;
   0; 0; 0; 0; 0; 0; 0; 0; 0; 0; 0; 0; 0; 0; 0; 0;
   0; 0; 0; 0; 0; 0; 0; 0; 0; 0; 0; 0; 0; 0; 0; 0;
   0; 0; 0; 0; 0; 0; 0; 0; 0; 0; 0; 0; 0; 0; 0; 0;
   0; 0; 0; 0; 0; 0; 0; 0; 0; 0; 0; 0; 0; 0; 0; 0;
   0; 0; 0; 0; 0; 0; 0; 0; 0; 0; 0; 0; 0; 0; 0; 0;
   0; 0; 0; 0; 0; 0; 0; 0; 0; 0; 0; 0; 0; 0; 0; 0].

Definition at_table (t : list Z) (i : Z) : Z := nth (Z.to_nat i) t 0.

Definition is_base64_char (c : byte) : bool := 1 =? at_table is_base64_char_lut (u8 c).

Definition pad : byte := x3d.

Inductive expected_type := b64ch | b64ch_or_padding | padding.

(** The loop of [is_valid_base64_string]; the counters are [uint_fast8_t]. *)
Fixpoint validate (expects : expected_type) (b64chars_found paddings_found : Z) (str : list byte)
  : bool :=
  match str with
  | [] => true
  | ch :: str =>
      match expects with
      | b64ch =>
          if Byte.eqb pad ch then false
          else if is_base64_char ch then
            let b64chars_found := b64chars_found + 1 in
            validate (if 2 <=? b64chars_found then b64ch_or_padding else b64ch)
              b64chars_found paddings_found str
          else false
      | b64ch_or_padding =>
          if Byte.eqb pad ch then validate padding b64chars_found (paddings_found + 1) str
          else if is_base64_char ch then validate b64ch_or_padding b64chars_found paddings_found str
          else false
      | padding =>
          if Byte.eqb pad ch then
            let paddings_found := paddings_found + 1 in
            if 2 <? paddings_found then false
            else validate padding b64chars_found paddings_found str
          else false
      end
  end.

Definition is_valid_base64_string (str : list byte) : bool :=
  if Z.of_nat (length str) <? 4 then false else validate b64ch 0 0 str.

Definition uch (ch : byte) : Z := u8 ch.

Definition sixbits_char (shift bs : Z) : Z := n_bits_from 8 shift 6 bs.

Definition alphabet_char (ch : Z) : byte := b8 (at_table base64_alphabet (wrap 8 ch)).

(** The loop over groups of three octets and the remaining one or two. *)
Fixpoint encode (str : list byte) : list byte :=
  match str with
  | a :: b :: c :: str =>
      let bs := Z.lor (Z.lor (Z.shiftl (uch a) 16) (Z.shiftl (uch b) 8)) (uch c) in
      alphabet_char (sixbits_char 18 bs) :: alphabet_char (sixbits_char 12 bs)
      :: alphabet_char (sixbits_char 6 bs) :: alphabet_char (sixbits_char 0 bs) :: encode str
  | [a] =>
      let bs := Z.shiftl (uch a) 16 in
      [alphabet_char (sixbits_char 18 bs); alphabet_char (sixbits_char 12 bs); pad; pad]
  | [a; b] =>
      let bs := Z.lor (Z.shiftl (uch a) 16) (Z.shiftl (uch b) 8) in
      [alphabet_char (sixbits_char 18 bs); alphabet_char (sixbits_char 12 bs);
       alphabet_char (sixbits_char 6 bs); pad]
  | [] => []
  end.

Inductive decode_result :=
| Decoded (s : list byte)
| InvalidBase64Sequence
| OutOfRange (index : nat).

(** The body of the loop of [try_decode] for the four characters of a group. *)
Definition decode_group (c0 c1 c2 c3 : byte) : list byte :=
  let table c := at_table base64_decode_lut (u8 c) in
  let bs := Z.lor 0 (table c0) in
  let bs := Z.shiftl bs 6 in
  let bs := Z.lor bs (table c1) in
  let bs := Z.shiftl bs 6 in
  let '(bs, paddings_found) :=
    if Byte.eqb pad c2 then (bs, 1) else (Z.lor bs (table c2), 0) in
  let bs := Z.shiftl bs 6 in
  let '(bs, paddings_found) :=
    if Byte.eqb pad c3 then (bs, paddings_found + 1) else (Z.lor bs (table c3), paddings_found) in
  [byte_from 16 bs]
  ++ (if paddings_found <? 2 then [byte_from 8 bs] else [])
  ++ (if paddings_found <? 1 then [byte_from 0 bs] else []).

(** The loop of [try_decode] at index [i]; [str] is the rest of the input. *)
Fixpoint decode_loop (i : nat) (str : list byte) : decode_result :=
  match str with
  | [] => Decoded []
  | [_] => OutOfRange (i + 1)
  | [_; _] => OutOfRange (i + 2)
  | [_; _; _] => OutOfRange (i + 3)
  | c0 :: c1 :: c2 :: c3 :: str =>
      match decode_loop (i + 4) str with
      | Decoded s => Decoded (decode_group c0 c1 c2 c3 ++ s)
      | r => r
      end
  end.

Definition try_decode (str : list byte) : decode_result :=
  if negb (is_valid_base64_string str) then InvalidBase64Sequence else decode_loop 0 str.

(** [decode]: the error becomes an exception, whose message quotes at most the
    first 32 characters. *)
Definition invalid_base64_message (str : list byte) : list byte :=
  if 32 <? Z.of_nat (length str)
  then bs "invalid base64 string that starts with '" ++ take 32 str ++ bs "'"
  else bs "invalid base64 string '" ++ str ++ bs "'".

Inductive decode_outcome :=
| Returned (s : list byte)
| Thrown (what : list byte)
| ReadPastEnd (index : nat).

Definition decode (str : list byte) : decode_outcome :=
  match try_decode str with
  | Decoded s => Returned s
  | InvalidBase64Sequence => Thrown (invalid_base64_message str)
  | OutOfRange i => ReadPastEnd i
  end.

(** *** Validity *)

Definition is_alpha (c : byte) : bool := is_base64_char c && negb (Byte.eqb pad c).

Lemma pad_eqb c : Byte.eqb pad c = true <-> c = pad.
Proof.
  split; [|by intros ->]. intros H. symmetry. by apply Byte.byte_dec_bl.
Qed.

Lemma validate_padding f p s :
  1 <= p <= 2 ->
  validate padding f p s = true <-> exists k, s = repeat pad k /\ p + Z.of_nat k <= 2.
Proof.
  revert p. induction s as [|c s IH]; intros p Hp; cbn [validate].
  - split; [|done]. intros _. exists 0%nat. split; [done|lia].
  - destruct (Byte.eqb pad c) eqn:E.
    + apply pad_eqb in E as ->. destruct (Z.ltb_spec 2 (p + 1)).
      * split; [done|]. intros (k & Hk & Hle). destruct k; [done|]. lia.
      * rewrite IH by lia. split.
        -- intros (k & -> & Hk). exists (S k). split; [done|lia].
        -- intros ([|k] & Hk & Hle); [done|]. injection Hk as ->. exists k. split; [done|lia].
    + split; [done|]. intros ([|k] & Hk & _); [done|]. injection Hk as -> _. done.
Qed.

Lemma validate_rest f s :
  validate b64ch_or_padding f 0 s = true
  <-> exists body k, s = body ++ repeat pad k /\ forallb is_alpha body = true /\ (k <= 2)%nat.
Proof.
  induction s as [|c s IH]; cbn [validate].
  - split; [|done]. intros _. exists [], 0%nat. split; [done|]. split; [done|lia].
  - destruct (Byte.eqb pad c) eqn:E.
    + apply pad_eqb in E as ->. rewrite validate_padding by lia. split.
      * intros (k & -> & Hk). exists [], (S k). split; [done|]. split; [done|lia].
      * intros ([|b body] & k & Hs & Hb & Hk); simpl in *.
        -- destruct k as [|k]; [done|]. injection Hs as ->. exists k. split; [done|lia].
        -- injection Hs as <- _. unfold is_alpha in Hb. cbn in Hb. by rewrite andb_false_r in Hb.
    + destruct (is_base64_char c) eqn:Ec.
      * rewrite IH. split.
        -- intros (body & k & -> & Hb & Hk). exists (c :: body), k. split; [done|]. split; [|done].
           cbn [forallb]. unfold is_alpha at 1. by rewrite Ec, E, Hb.
        -- intros ([|b body] & k & Hs & Hb & Hk); simpl in *.
           ++ destruct k; [done|]. injection Hs as -> _. done.
           ++ injection Hs as <- ->. apply andb_prop in Hb as [_ Hb]. by exists body, k.
      * split; [done|]. intros ([|b body] & k & Hs & Hb & Hk); simpl in *.
        -- destruct k; [done|]. injection Hs as -> _. done.
        -- injection Hs as <- ->. unfold is_alpha in Hb. by rewrite Ec in Hb.
Qed.

(** What [is_valid_base64_string] accepts: at least four characters, at least
    two of the alphabet, then at most two padding characters.  The length need
    not be a multiple of four. *)
Lemma is_valid_spec s :
  is_valid_base64_string s = true
  <-> exists body k, s = body ++ repeat pad k /\ forallb is_alpha body = true
        /\ (k <= 2)%nat /\ (2 <= length body)%nat /\ (4 <= length s)%nat.
Proof.
  unfold is_valid_base64_string. destruct (Z.ltb_spec (Z.of_nat (length s)) 4) as [Hl|Hl].
  { split; [done|]. intros (body & k & _ & _ & _ & _ & H). lia. }
  destruct s as [|a [|b s]]; [simpl in Hl; lia|simpl in Hl; lia|]. cbn [validate].
  split.
  - destruct (Byte.eqb pad a) eqn:Ea; [done|]. destruct (is_base64_char a) eqn:Ha; [|done].
    cbn [Z.leb Z.compare]. change (2 <=? 0 + 1) with false. cbv iota. cbn [validate].
    destruct (Byte.eqb pad b) eqn:Eb; [done|]. destruct (is_base64_char b) eqn:Hb; [|done].
    change (2 <=? 0 + 1 + 1) with true. cbv iota.
    rewrite validate_rest. intros (body & k & -> & Hal & Hk). exists (a :: b :: body), k.
    split; [done|]. split; [|split; [done|]; split; [simpl; lia|lia]].
    cbn [forallb]. unfold is_alpha at 1 2. by rewrite Ha, Hb, Ea, Eb, Hal.
  - intros (body & k & Hs & Hal & Hk & Hb & _).
    destruct body as [|x [|y body]]; [simpl in Hb; lia|simpl in Hb; lia|].
    injection Hs as -> -> ->. cbn [forallb] in Hal. unfold is_alpha at 1 2 in Hal.
    rewrite !andb_true_iff, !negb_true_iff in Hal. destruct Hal as ((Hx & Hx') & (Hy & Hy') & Hal).
    rewrite Hx, Hx'. change (2 <=? 0 + 1) with false. cbv iota. cbn [validate].
    rewrite Hy, Hy'. change (2 <=? 0 + 1 + 1) with true. cbv iota.
    apply validate_rest. by exists body, k.
Qed.

(** *** Out-of-range reads *)

(** Induction by groups of four. *)
Lemma list_ind4 (P : list byte -> Prop) :
  P [] -> (forall a, P [a]) -> (forall a b, P [a; b]) -> (forall a b c, P [a; b; c]) ->
  (forall a b c d s, P s -> P (a :: b :: c :: d :: s)) -> forall s, P s.
Proof.
  intros H0 H1 H2 H3 H4. fix IH 1. intros [|a [|b [|c [|d s]]]];
    [exact H0|exact (H1 a)|exact (H2 a b)|exact (H3 a b c)|exact (H4 a b c d s (IH s))].
Qed.

Lemma decode_loop_range s i :
  if (length s mod 4 =? 0)%nat then exists r, decode_loop i s = Decoded r
  else decode_loop i s = OutOfRange (i + length s).
Proof.
  revert i. induction s as [|a|a b|a b c|a b c d s IH] using list_ind4; intros i; try done.
  - by exists [].
  - cbn [length]. replace (S (S (S (S (length s))))) with (length s + 1 * 4)%nat by lia.
    rewrite Nat.Div0.mod_add. specialize (IH (i + 4)%nat). cbn [decode_loop].
    destruct (length s mod 4 =? 0)%nat.
    + destruct IH as [r ->]. by eexists.
    + rewrite IH. f_equal. lia.
Qed.

(** The decoder is safe exactly for lengths divisible by four: a string
    that passes the validity check and has another length makes [try_decode]
    read at the index one past its end. *)
Theorem try_decode_out_of_range_iff (s : list byte) :
  (try_decode s = OutOfRange (length s)
   <-> is_valid_base64_string s = true /\ (length s mod 4 <> 0)%nat)
  /\ (forall i, try_decode s = OutOfRange i -> i = length s)
  /\ (forall body, forallb is_alpha body = true -> (length body = 5)%nat ->
      try_decode body = OutOfRange 5).
Proof.
  assert (H : try_decode s = if negb (is_valid_base64_string s) then InvalidBase64Sequence
                             else decode_loop 0 s) by done.
  pose proof (decode_loop_range s 0) as Hr.
  split; [|split].
  - rewrite H. destruct (is_valid_base64_string s); simpl; [|by split; [|intros []]].
    destruct (Nat.eqb_spec (length s mod 4) 0) as [E|E]; [destruct Hr as [r ->]|rewrite Hr];
      [by split; [|intros []]|done].
  - intros i. rewrite H. destruct (is_valid_base64_string s); simpl; [|done].
    destruct (length s mod 4 =? 0)%nat; [by destruct Hr as [r ->]|]. rewrite Hr. by intros [= <-].
  - intros body Hb Hl. unfold try_decode.
    rewrite (proj2 (is_valid_spec body)).
    + simpl. pose proof (decode_loop_range body 0) as Hr'. rewrite Hl in Hr'. exact Hr'.
    + exists body, 0%nat. rewrite app_nil_r. split_and!; [done|done|lia|lia|lia].
Qed.

(** *** Round trip *)

Lemma sixbits shift v : 0 <= shift -> sixbits_char shift v = v / 2 ^ shift mod 64.
Proof.
  intros Hs. unfold sixbits_char, n_bits_from, wrap. change (mask 8 6) with (Z.ones 6).
  rewrite Z.land_ones, Z.shiftr_div_pow2 by lia. change (2 ^ 8) with (64 * 4). change (2 ^ 6) with 64.
  rewrite Z.rem_mul_r by lia. rewrite Z.mul_comm, Z_mod_plus_full. apply Zmod_mod.
Qed.

Lemma alphabet_char_facts i :
  0 <= i < 64 ->
  at_table base64_decode_lut (u8 (alphabet_char i)) = i /\ is_alpha (alphabet_char i) = true
  /\ Byte.eqb pad (alphabet_char i) = false.
Proof.
  intros Hi.
  assert (H : ((at_table base64_decode_lut (u8 (alphabet_char i)) =? i)
               && is_alpha (alphabet_char i) && negb (Byte.eqb pad (alphabet_char i))) = true).
  { revert i Hi. apply seqZ_all. vm_compute. reflexivity. }
  rewrite !andb_true_iff, negb_true_iff, Z.eqb_eq in H. tauto.
Qed.

(** The 24-bit group as a number. *)
Definition group_value (a b c : Z) : Z := a * 2 ^ 16 + b * 2 ^ 8 + c.

Lemma group_bits a b c :
  0 <= a < 256 -> 0 <= b < 256 -> 0 <= c < 256 ->
  Z.lor (Z.lor (Z.shiftl a 16) (Z.shiftl b 8)) c = group_value a b c.
Proof.
  intros Ha Hb Hc. unfold group_value.
  rewrite (lor_shiftl_add a (Z.shiftl b 8) 16) by (rewrite ?Z.shiftl_mul_pow2; lia).
  rewrite Z.shiftl_mul_pow2 by lia.
  assert (E : a * 2 ^ 16 + b * 2 ^ 8 = Z.shiftl (a * 2 ^ 8 + b) 8) by (rewrite Z.shiftl_mul_pow2; lia).
  rewrite E at 1. rewrite lor_shiftl_add by lia. lia.
Qed.

Lemma sextets_value v :
  0 <= v < 2 ^ 24 ->
  Z.lor (Z.shiftl (Z.lor (Z.shiftl (Z.lor (Z.shiftl (Z.lor 0 (v / 2 ^ 18 mod 64)) 6)
    (v / 2 ^ 12 mod 64)) 6) (v / 2 ^ 6 mod 64)) 6) (v / 2 ^ 0 mod 64) = v.
Proof.
  intros Hv. rewrite Z.lor_0_l.
  rewrite !lor_shiftl_add by (try lia; apply Z.mod_pos_bound; lia).
  change (2 ^ 18) with 262144. change (2 ^ 12) with 4096. change (2 ^ 6) with 64. change (2 ^ 0) with 1.
  change (2 ^ 24) with 16777216 in Hv. rewrite Z.div_1_r.
  Z.to_euclidean_division_equations. lia.
Qed.

Lemma group_bytes_back a b c :
  byte_from 16 (group_value (u8 a) (u8 b) (u8 c)) = a
  /\ byte_from 8 (group_value (u8 a) (u8 b) (u8 c)) = b
  /\ byte_from 0 (group_value (u8 a) (u8 b) (u8 c)) = c.
Proof.
  pose proof (u8_range a). pose proof (u8_range b). pose proof (u8_range c).
  unfold group_value. change (2 ^ 16) with 65536. change (2 ^ 8) with 256.
  split_and!; apply u8_inj; rewrite u8_byte_from by lia;
    [change (2 ^ 16) with 65536|change (2 ^ 8) with 256|change (2 ^ 0) with 1];
    Z.to_euclidean_division_equations; lia.
Qed.

Lemma decode_group_full v :
  0 <= v < 2 ^ 24 ->
  decode_group (alphabet_char (sixbits_char 18 v)) (alphabet_char (sixbits_char 12 v))
    (alphabet_char (sixbits_char 6 v)) (alphabet_char (sixbits_char 0 v))
  = [byte_from 16 v; byte_from 8 v; byte_from 0 v].
Proof.
  intros Hv. rewrite !sixbits by lia.
  destruct (alphabet_char_facts (v / 2 ^ 18 mod 64)) as (E3 & _ & P3); [apply Z.mod_pos_bound; lia|].
  destruct (alphabet_char_facts (v / 2 ^ 12 mod 64)) as (E2 & _ & P2); [apply Z.mod_pos_bound; lia|].
  destruct (alphabet_char_facts (v / 2 ^ 6 mod 64)) as (E1 & _ & P1); [apply Z.mod_pos_bound; lia|].
  destruct (alphabet_char_facts (v / 2 ^ 0 mod 64)) as (E0 & _ & P0); [apply Z.mod_pos_bound; lia|].
  unfold decode_group. rewrite P1, P0, E3, E2, E1, E0, sextets_value by done. done.
Qed.

(** A padding character contributes six zero bits, as would the letter A. *)
Lemma decode_group_pad c0 c1 c2 v :
  0 <= v < 2 ^ 24 -> v mod 64 = 0 ->
  c0 = alphabet_char (sixbits_char 18 v) -> c1 = alphabet_char (sixbits_char 12 v) ->
  (c2 = alphabet_char (sixbits_char 6 v) ->
   decode_group c0 c1 c2 pad = [byte_from 16 v; byte_from 8 v])
  /\ (c2 = pad -> (v / 2 ^ 6) mod 64 = 0 -> decode_group c0 c1 c2 pad = [byte_from 16 v]).
Proof.
  intros Hv H0 -> ->. rewrite !sixbits by lia.
  destruct (alphabet_char_facts (v / 2 ^ 18 mod 64)) as (E3 & _ & P3); [apply Z.mod_pos_bound; lia|].
  destruct (alphabet_char_facts (v / 2 ^ 12 mod 64)) as (E2 & _ & P2); [apply Z.mod_pos_bound; lia|].
  destruct (alphabet_char_facts (v / 2 ^ 6 mod 64)) as (E1 & _ & P1); [apply Z.mod_pos_bound; lia|].
  pose proof (sextets_value v Hv) as Hval. rewrite Z.pow_0_r, Z.div_1_r, H0, Z.lor_0_r in Hval.
  split.
  - intros ->. unfold decode_group. rewrite P1, E3, E2, E1. change (Byte.eqb pad pad) with true.
    cbv iota. rewrite Hval. done.
  - intros -> H6. rewrite H6, Z.lor_0_r in Hval. unfold decode_group. rewrite E3, E2.
    change (Byte.eqb pad pad) with true. cbv iota. rewrite Hval. done.
Qed.

Lemma list_ind3 (P : list byte -> Prop) :
  P [] -> (forall a, P [a]) -> (forall a b, P [a; b]) ->
  (forall a b c s, P s -> P (a :: b :: c :: s)) -> forall s, P s.
Proof.
  intros H0 H1 H2 H3. fix IH 1. intros [|a [|b [|c s]]];
    [exact H0|exact (H1 a)|exact (H2 a b)|exact (H3 a b c s (IH s))].
Qed.

Lemma one_octet a : Z.shiftl (uch a) 16 = group_value (u8 a) (u8 x00) (u8 x00).
Proof. unfold uch, group_value. rewrite Z.shiftl_mul_pow2 by lia. change (u8 x00) with 0. lia. Qed.

Lemma two_octets a b :
  Z.lor (Z.shiftl (uch a) 16) (Z.shiftl (uch b) 8) = group_value (u8 a) (u8 b) (u8 x00).
Proof.
  rewrite <- group_bits by auto with octets. change (u8 x00) with 0. by rewrite Z.lor_0_r.
Qed.

Lemma group_value_range a b c : 0 <= group_value (u8 a) (u8 b) (u8 c) < 2 ^ 24.
Proof.
  unfold group_value. octet_bounds. lia.
Qed.

Lemma decode_encode s i : decode_loop i (encode s) = Decoded s.
Proof.
  revert i. induction s as [|a|a b|a b c s IH] using list_ind3; intros i; [done| | |]; cbn [encode].
  - rewrite one_octet. cbn [decode_loop]. set (v := group_value _ _ _).
    assert (Hz : v mod 64 = 0 /\ (v / 2 ^ 6) mod 64 = 0).
    { unfold v, group_value. change (u8 x00) with 0. pose proof (u8_range a).
      change (2 ^ 16) with 65536. change (2 ^ 8) with 256. change (2 ^ 6) with 64.
      split; Z.to_euclidean_division_equations; lia. }
    destruct (decode_group_pad (alphabet_char (sixbits_char 18 v)) (alphabet_char (sixbits_char 12 v))
      pad v) as [_ H]; [apply group_value_range|apply Hz|done|done|].
    rewrite H by (done || apply Hz). rewrite app_nil_r.
    destruct (group_bytes_back a x00 x00) as (E1 & _). fold v in E1. by rewrite E1.
  - rewrite two_octets. cbn [decode_loop]. set (v := group_value _ _ _).
    assert (Hz : v mod 64 = 0).
    { unfold v, group_value. change (u8 x00) with 0. change (2 ^ 16) with 65536. change (2 ^ 8) with 256.
      pose proof (u8_range a). pose proof (u8_range b). Z.to_euclidean_division_equations. lia. }
    destruct (decode_group_pad (alphabet_char (sixbits_char 18 v)) (alphabet_char (sixbits_char 12 v))
      (alphabet_char (sixbits_char 6 v)) v) as [H _]; [apply group_value_range|done|done|done|].
    rewrite H by done. destruct (group_bytes_back a b x00) as (E1 & E2 & _). fold v in E1, E2.
    by rewrite E1, E2.
  - unfold uch. rewrite group_bits by auto with octets. set (v := group_value _ _ _).
    cbn [decode_loop]. rewrite IH, decode_group_full by apply group_value_range.
    destruct (group_bytes_back a b c) as (E1 & E2 & E3). fold v in E1, E2, E3.
    by rewrite E1, E2, E3.
Qed.

Lemma encode_shape s :
  s <> [] -> exists body k, encode s = body ++ repeat pad k /\ forallb is_alpha body = true
    /\ (k <= 2)%nat /\ (2 <= length body)%nat /\ (4 <= length (encode s))%nat.
Proof.
  assert (Ha : forall sh v, 0 <= sh -> is_alpha (alphabet_char (sixbits_char sh v)) = true).
  { intros sh v Hsh. rewrite sixbits by done. apply alphabet_char_facts, Z.mod_pos_bound. lia. }
  induction s as [|a|a b|a b c s IH] using list_ind3; intros Hne; [done| | |]; cbn [encode].
  - eexists [_; _], 2%nat. split; [reflexivity|]. cbn [forallb length]. rewrite !Ha by lia.
    split_and!; simpl; lia || done.
  - eexists [_; _; _], 1%nat. split; [reflexivity|]. cbn [forallb length]. rewrite !Ha by lia.
    split_and!; simpl; lia || done.
  - destruct s as [|d s].
    + eexists [_; _; _; _], 0%nat. split; [reflexivity|]. cbn [forallb length]. rewrite !Ha by lia.
      split_and!; simpl; lia || done.
    + destruct IH as (body & k & E & Hb & Hk & Hl & Hl4); [done|].
      rewrite E. eexists (_ :: _ :: _ :: _ :: body), k. split; [reflexivity|].
      cbn [forallb length]. rewrite !Ha, Hb by lia. split_and!; simpl; lia || done.
Qed.

Lemma encode_valid s : s <> [] -> is_valid_base64_string (encode s) = true.
Proof. intros Hne. by apply is_valid_spec, encode_shape. Qed.

Lemma try_decode_encode s : s <> [] -> try_decode (encode s) = Decoded s.
Proof. intros Hne. unfold try_decode. rewrite encode_valid by done. apply decode_encode. Qed.

(** Base64 round trip: for every non-empty octet string, what [encode]
    writes is valid and [try_decode] and [decode] give the string back, without
    reading out of range. *)
Theorem base64_roundtrip (s : list byte) :
  s <> [] ->
  is_valid_base64_string (encode s) = true /\ try_decode (encode s) = Decoded s
  /\ decode (encode s) = Returned s.
Proof.
  intros Hne. unfold decode. by rewrite encode_valid, try_decode_encode.
Qed.

Lemma base64_roundtrip_witness :
  encode (bs "Aladdin") = bs "QWxhZGRpbg==" /\ try_decode (encode (bs "Aladdin")) = Decoded (bs "Aladdin").
Proof.
  split; [vm_compute; reflexivity|]. apply (base64_roundtrip (bs "Aladdin")). done.
Defined.

Lemma try_decode_out_of_range_iff_witness : try_decode (bs "QWxhZ") = OutOfRange 5.
Proof. apply (try_decode_out_of_range_iff []); reflexivity. Defined.

End Base64.
