(* ===== verification/PercentEncoding.v ===== *)
(** * Percent encoding

    Model of src/web/restinio/restinio/utils/percent_encoding.hpp: escaping,
    unescaping (into a new string and in place) and normalisation of unreserved
    characters.  The failure descriptions are kept as data.

    [fmt::format( "%{:02X}", c )] belongs to the fmt library, which is not part
    of the sources: the class [FmtHex].  It formats the value of a plain [char] as an
    integer, and whether that is signed is up to the platform (it is not on the ARM of
    the Raspberry Pi, it is on x86): where it is signed, octets from 0x80 on are
    written with a minus sign, which no unescaping accepts. *)

From S2P Require Import Prelude Utf8Checker.

Module Percent.

(** ** Character classes *)

Definition between (lo hi c : byte) : bool := (u8 lo <=? u8 c) && (u8 c <=? u8 hi).
Definition alnum (c : byte) : bool := between x30 x39 c || between x61 x7a c || between x41 x5a c.
Definition one_of (l : list byte) (c : byte) : bool := existsb (Byte.eqb c) l.

(** The traits: which characters stand for themselves.  All of them are ASCII. *)
Class UnescapeTraits := {
  ordinary_char : byte -> bool;
  ordinary_ascii : byte_all (fun c => negb (ordinary_char c) || (u8 c <? 0x80)) = true
}.

Definition default_ordinary (c : byte) : bool := alnum c || one_of (bs "-.~_") c.
Definition x_www_ordinary (c : byte) : bool := alnum c || one_of (bs "*-._") c.

(** [nullptr != std::strchr( "...", c )], which also finds the terminating NUL. *)
Definition relaxed_ordinary (c : byte) : bool :=
  one_of (bs " ABCDEFGHIJKLMNOPQRSTUVWXYZabcdefghijklmnopqrstuvwxyz0123456789-._~:/?#[]@!$&'()*+,;="
          ++ [x00]) c.

Definition javascript_ordinary (c : byte) : bool := alnum c || one_of (bs "-.~_*!'()") c.

Definition restinio_default_unescape_traits : UnescapeTraits :=
  {| ordinary_char := default_ordinary; ordinary_ascii := eq_refl |}.
Definition x_www_form_urlencoded_unescape_traits : UnescapeTraits :=
  {| ordinary_char := x_www_ordinary; ordinary_ascii := eq_refl |}.
Definition relaxed_unescape_traits : UnescapeTraits :=
  {| ordinary_char := relaxed_ordinary; ordinary_ascii := eq_refl |}.
Definition javascript_compatible_unescape_traits : UnescapeTraits :=
  {| ordinary_char := javascript_ordinary; ordinary_ascii := eq_refl |}.

Definition is_hexdigit (c : byte) : bool :=
  between x30 x39 c || between x61 x66 c || between x41 x46 c.

(** [extract_escaped_char]: the arithmetic is on [char], eight bits. *)
Definition extract_escaped_char (c1 c2 : byte) : byte :=
  let result :=
    if between x30 x39 c1 then b8 (u8 c1 - 0x30)
    else let c1 := b8 (Z.lor (u8 c1) 0x20) in b8 (10 + u8 c1 - 0x61) in
  let result := b8 (Z.shiftl (u8 result) 4) in
  if between x30 x39 c2 then b8 (u8 result + (u8 c2 - 0x30))
  else let c2 := b8 (Z.lor (u8 c2) 0x20) in b8 (u8 result + (10 + u8 c2 - 0x61)).

(** ** Unescaping *)

Inductive unescape_failure_t :=
| next_utf8_byte_expected (pos : nat)
| invalid_utf8_sequence (pos : nat)
| invalid_escape_sequence (pos : nat)
| invalid_non_escaped_char (c : byte) (pos : nat)
| unfinished_utf8_sequence.

Inductive unescape_result :=
| Unescaped (s : list byte)
| Failed (f : unescape_failure_t).

Definition emit (c : byte) (r : unescape_result) : unescape_result :=
  match r with Unescaped s => Unescaped (c :: s) | Failed f => Failed f end.

Definition percent : byte := x25.
Definition plus : byte := x2b.

Section Unescape.
Context `{UnescapeTraits}.

(** [do_unescape_percent_encoding]: the loop at position [pos], [d] the
    characters still to handle; the collector appends to a string. *)
Fixpoint do_unescape (pos : nat) (d : list byte) (checker : Utf8.utf8_checker_t)
  (expect_next_utf8_byte : bool) : unescape_result :=
  match d with
  | [] => if expect_next_utf8_byte then Failed unfinished_utf8_sequence else Unescaped []
  | c :: d =>
      if expect_next_utf8_byte && negb (Byte.eqb percent c)
      then Failed (next_utf8_byte_expected pos)
      else if Byte.eqb percent c then
        match d with
        | c1 :: c2 :: d =>
            if is_hexdigit c1 && is_hexdigit c2 then
              let ch := extract_escaped_char c1 c2 in
              let '(checker, ok) := Utf8.process_byte (u8 ch) checker in
              if negb ok then Failed (invalid_utf8_sequence pos)
              else
                let expect := negb (Utf8.finalized checker) in
                let checker := if negb expect then Utf8.reset checker else checker in
                emit ch (do_unescape (pos + 3) d checker expect)
            else Failed (invalid_escape_sequence pos)
        | _ => Failed (invalid_escape_sequence pos)
        end
      else if Byte.eqb plus c then emit x20 (do_unescape (pos + 1) d checker expect_next_utf8_byte)
      else if ordinary_char c then emit c (do_unescape (pos + 1) d checker expect_next_utf8_byte)
      else Failed (invalid_non_escaped_char c pos)
  end.

Definition try_unescape_percent_encoding (data : list byte) : unescape_result :=
  do_unescape 0 data Utf8.initial false.

(** The same loop over a buffer, with the collector [*dest++ = ch]: the buffer
    is read through [d] and written through [dest]. *)
Fixpoint do_unescape_inplace (chars_to_handle : nat) (fuel : nat) (buf : list byte) (d dest : nat)
  (checker : Utf8.utf8_checker_t) (expect_next_utf8_byte : bool)
  : list byte * (nat + unescape_failure_t) :=
  match fuel, chars_to_handle with
  | O, _ | _, O =>
      (buf, if expect_next_utf8_byte then inr unfinished_utf8_sequence else inl dest)
  | S fuel, _ =>
      let c := nth d buf x00 in
      if expect_next_utf8_byte && negb (Byte.eqb percent c)
      then (buf, inr (next_utf8_byte_expected d))
      else if Byte.eqb percent c then
        if (3 <=? chars_to_handle)%nat && is_hexdigit (nth (d + 1) buf x00)
           && is_hexdigit (nth (d + 2) buf x00)
        then
          let ch := extract_escaped_char (nth (d + 1) buf x00) (nth (d + 2) buf x00) in
          let '(checker, ok) := Utf8.process_byte (u8 ch) checker in
          if negb ok then (buf, inr (invalid_utf8_sequence d))
          else
            let expect := negb (Utf8.finalized checker) in
            let checker := if negb expect then Utf8.reset checker else checker in
            do_unescape_inplace (chars_to_handle - 3) fuel (<[dest := ch]> buf) (d + 3) (dest + 1)
              checker expect
        else (buf, inr (invalid_escape_sequence d))
      else if Byte.eqb plus c then
        do_unescape_inplace (chars_to_handle - 1) fuel (<[dest := x20]> buf) (d + 1) (dest + 1)
          checker expect_next_utf8_byte
      else if ordinary_char c then
        do_unescape_inplace (chars_to_handle - 1) fuel (<[dest := c]> buf) (d + 1) (dest + 1)
          checker expect_next_utf8_byte
      else (buf, inr (invalid_non_escaped_char c d))
  end.

(** The buffer afterwards and the size of the result. *)
Definition try_inplace_unescape_percent_encoding (data : list byte)
  : list byte * (nat + unescape_failure_t) :=
  do_unescape_inplace (length data) (length data) data 0 0 Utf8.initial false.

End Unescape.

(** ** Escaping *)

Definition hex_digit (z : Z) : byte := b8 (if z <? 10 then 0x30 + z else 0x41 + (z - 10)).

Definition percent_hex (c : byte) : list byte :=
  [percent; hex_digit (u8 c / 16); hex_digit (u8 c mod 16)].

(** What [fmt::format( "%{:02X}", value )] is documented to give for the values of a
    [char]: at least two columns, the sign among them, padded with zeros. *)
Definition format_hex (value : Z) : list byte :=
  percent ::
  (if value <? 0 then
     x2d :: (if - value <? 16 then [hex_digit (- value)] else [hex_digit (- value / 16); hex_digit (- value mod 16)])
   else [hex_digit (value / 16); hex_digit (value mod 16)]).

Class FmtHex := {
  char_is_signed : bool;
  format_percent_02X : Z -> list byte;
  format_percent_02X_spec : forall value, -128 <= value < 256 -> format_percent_02X value = format_hex value
}.

(** The value of a [char]. *)
Definition char_value `{FmtHex} (c : byte) : Z :=
  if char_is_signed && (0x80 <=? u8 c) then u8 c - 256 else u8 c.

Definition escape_percent_encoding `{UnescapeTraits} `{FmtHex} (data : list byte) : list byte :=
  let escaped_chars_count := length (filter (fun c => ordinary_char c = false) data) in
  if (escaped_chars_count =? 0)%nat then data
  else fold_left (fun result c =>
         if ordinary_char c then result ++ [c] else result ++ format_percent_02X (char_value c)) data [].

(** ** The grammar of escaped text *)

Inductive token := Plain (c : byte) | Plus | Esc (h1 h2 : byte).

Definition print (t : token) : list byte :=
  match t with Plain c => [c] | Plus => [plus] | Esc h1 h2 => [percent; h1; h2] end.
Definition value (t : token) : byte :=
  match t with Plain c => c | Plus => x20 | Esc h1 h2 => extract_escaped_char h1 h2 end.

Section Spec.
Context `{UnescapeTraits}.

Definition token_ok (t : token) : bool :=
  match t with
  | Plain c => ordinary_char c && negb (Byte.eqb percent c) && negb (Byte.eqb plus c)
  | Plus => true
  | Esc h1 h2 => is_hexdigit h1 && is_hexdigit h2
  end.

Lemma ordinary_lt c : ordinary_char c = true -> u8 c < 0x80.
Proof.
  intros Hc. pose proof (byte_all_true _ ordinary_ascii c) as Ha. simpl in Ha. rewrite Hc in Ha.
  simpl in Ha. lia.
Qed.

Lemma emit_unescaped c r s :
  emit c r = Unescaped s <-> exists s', s = c :: s' /\ r = Unescaped s'.
Proof.
  destruct r as [s0|f]; simpl; [|by split; [|intros (s' & _ & ?)]]. split.
  - intros [= <-]. by exists s0.
  - by intros (s' & -> & [= ->]).
Qed.

Lemma step_process c b :
  Utf8.step c b = let '(c', ok) := Utf8.process_byte b c in if ok then Some c' else None.
Proof. done. Qed.

(** A character that stands for itself. *)
Lemma do_unescape_char pos d s checker expect out :
  Utf8.reachable checker -> expect = negb (Utf8.finalized checker) -> u8 out < 0x80 ->
  (forall s', do_unescape (pos + 1) d checker expect = Unescaped s'
     <-> exists ts, forallb token_ok ts = true /\ d = flat_map print ts /\ s' = map value ts
                    /\ Utf8.accepts checker s' = true) ->
  expect = false ->
  emit out (do_unescape (pos + 1) d checker expect) = Unescaped s
  <-> exists ts, forallb token_ok ts = true /\ d = flat_map print ts /\ s = out :: map value ts
        /\ Utf8.accepts checker s = true.
Proof.
  intros Hr He Hout IH ->. symmetry in He. apply negb_false_iff in He.
  assert (Hacc : forall s', Utf8.accepts checker (out :: s') = Utf8.accepts checker s').
  { intros s'. rewrite Utf8.accepts_cons, Utf8.step_ascii, He by done.
    apply Utf8.accepts_clean; [|done|done|done].
    exists 0%nat. pose proof (u8_range out). simpl. split_and!; try done; lia. }
  rewrite emit_unescaped. split.
  - intros (s' & -> & (ts & Hok & -> & -> & Ha)%IH). exists ts. by rewrite Hacc.
  - intros (ts & Hok & Hd & -> & Ha). exists (map value ts). split; [done|]. apply IH. exists ts.
    by rewrite Hacc in Ha.
Qed.

(** The first character tells the first token. *)
Lemma print_cons c d ts :
  forallb token_ok ts = true -> c :: d = flat_map print ts ->
  if Byte.eqb percent c then
    exists c1 c2 d' ts', ts = Esc c1 c2 :: ts' /\ d = c1 :: c2 :: d' /\ d' = flat_map print ts'
      /\ is_hexdigit c1 && is_hexdigit c2 = true /\ forallb token_ok ts' = true
  else exists ts', d = flat_map print ts' /\ forallb token_ok ts' = true
    /\ if Byte.eqb plus c then ts = Plus :: ts' else ts = Plain c :: ts' /\ ordinary_char c = true.
Proof.
  intros Hok Hd. destruct ts as [|[c'| |h1 h2] ts']; [done| | |]; cbn [flat_map print app forallb] in *;
    injection Hd as -> Hd; apply andb_prop in Hok as [Ht Hok].
  - cbn [token_ok] in Ht. rewrite !andb_true_iff, !negb_true_iff in Ht. destruct Ht as ((H1 & ->) & ->).
    by exists ts'.
  - by exists ts'.
  - exists h1, h2, (flat_map print ts'), ts'. by rewrite Hd.
Qed.

Definition spec (d : list byte) (checker : Utf8.utf8_checker_t) (s : list byte) : Prop :=
  exists ts, forallb token_ok ts = true /\ d = flat_map print ts /\ s = map value ts
    /\ Utf8.accepts checker s = true.

(** One escape sequence. *)
Lemma do_unescape_escape pos c1 c2 d checker expect s :
  Utf8.reachable checker -> is_hexdigit c1 && is_hexdigit c2 = true ->
  (forall checker' expect' s', Utf8.reachable checker' -> expect' = negb (Utf8.finalized checker') ->
     do_unescape (pos + 3) d checker' expect' = Unescaped s' <-> spec d checker' s') ->
  do_unescape pos (percent :: c1 :: c2 :: d) checker expect = Unescaped s
  <-> spec (percent :: c1 :: c2 :: d) checker s.
Proof.
  intros Hr Eh IH. cbn [do_unescape]. rewrite andb_false_r, Eh.
  change (Byte.eqb percent percent) with true. cbv iota.
  set (ch := extract_escaped_char c1 c2).
  assert (Hinv : spec (percent :: c1 :: c2 :: d) checker s
    <-> exists s', s = ch :: s' /\ match Utf8.step checker (u8 ch) with
                                   | Some ck => spec d ck s' | None => False end).
  { split.
    - intros (ts & Hok & Hd & -> & Ha). pose proof (print_cons _ _ ts Hok Hd) as Hp.
      destruct Hp as (h1 & h2 & d' & ts' & -> & [= <- <- ->] & Hd' & _ & Hok').
      exists (map value ts'). cbn [map value] in *. fold ch in Ha |- *. split; [done|].
      rewrite Utf8.accepts_cons in Ha. destruct (Utf8.step checker (u8 ch)); [|done]. by exists ts'.
    - intros (s' & -> & Hs). destruct (Utf8.step checker (u8 ch)) as [ck|] eqn:Est; [|done].
      destruct Hs as (ts & Hok & -> & -> & Ha). exists (Esc c1 c2 :: ts).
      cbn [forallb flat_map map print value token_ok app]. fold ch.
      by rewrite Eh, Hok, Utf8.accepts_cons, Est. }
  rewrite Hinv, step_process.
  destruct (Utf8.process_byte (u8 ch) checker) as [ck []] eqn:Epb; cbn [negb].
  2:{ split; [done|]. by intros (s' & _ & ?). }
  assert (Hstep : Utf8.step checker (u8 ch) = Some ck) by (rewrite step_process; by rewrite Epb).
  pose proof (Utf8.reachable_step _ _ _ Hr Hstep) as Hrk. rewrite negb_involutive, emit_unescaped.
  assert (Hk : forall s', do_unescape (pos + 3) d (if Utf8.finalized ck then Utf8.reset ck else ck)
                 (negb (Utf8.finalized ck)) = Unescaped s' <-> spec d ck s').
  { intros s'. destruct (Utf8.finalized ck) eqn:Hf; [|apply IH; [done|by rewrite Hf]].
    rewrite IH by (done || by apply Utf8.reachable_reset). unfold spec.
    by setoid_rewrite (Utf8.accepts_clean (Utf8.reset ck) ck _ (Utf8.reachable_reset _ Hrk Hf) Hrk eq_refl Hf). }
  by setoid_rewrite Hk.
Qed.

(** A percent sign that begins no escape sequence. *)
Lemma spec_bad_escape checker s d :
  match d with c1 :: c2 :: _ => is_hexdigit c1 && is_hexdigit c2 | _ => false end = false ->
  ~ spec (percent :: d) checker s.
Proof.
  intros Hd' (ts & Hok & Hd & _).
  destruct (print_cons _ _ ts Hok Hd) as (h1 & h2 & d'' & ts' & _ & -> & _ & Hh & _).
  by rewrite Hd' in Hh.
Qed.

(** A character that stands for itself or for a space. *)
Lemma spec_char c d checker s :
  Byte.eqb percent c = false -> forall out,
  (forall ts, value (if Byte.eqb plus c then Plus else Plain c) :: map value ts = out :: map value ts) ->
  Byte.eqb plus c || ordinary_char c = true ->
  spec (c :: d) checker s <->
  exists ts, forallb token_ok ts = true /\ d = flat_map print ts /\ s = out :: map value ts
    /\ Utf8.accepts checker s = true.
Proof.
  intros Ep out Hout Hc. split.
  - intros (ts & Hok & Hd & -> & Ha). pose proof (print_cons _ _ ts Hok Hd) as Hp.
    rewrite Ep in Hp. destruct Hp as (ts' & -> & Hok' & Hp). exists ts'.
    destruct (Byte.eqb plus c); [subst ts|destruct Hp as [-> _]]; cbn [map] in *; rewrite Hout in *; done.
  - intros (ts & Hok & -> & -> & Ha).
    exists ((if Byte.eqb plus c then Plus else Plain c) :: ts). cbn [forallb flat_map map].
    rewrite Hout, Hok. destruct (Byte.eqb plus c) eqn:E; simpl.
    + apply Byte.byte_dec_bl in E. by subst c.
    + simpl in Hc. by rewrite Hc, Ep, E.
Qed.

Lemma do_unescape_spec n d : (length d <= n)%nat -> forall pos checker expect s,
  Utf8.reachable checker -> expect = negb (Utf8.finalized checker) ->
  do_unescape pos d checker expect = Unescaped s <-> spec d checker s.
Proof.
  revert d. induction n as [|n IH]; intros d Hn pos checker expect s Hr He.
  all: destruct d as [|c d]; [|simpl in Hn; try lia].
  1, 2: cbn [do_unescape]; subst expect; unfold spec, Utf8.accepts; split;
    [destruct (Utf8.finalized checker) eqn:Hf; intros Hs; [|done]; injection Hs as <-; by exists []
    |intros (ts & _ & Hd & -> & Ha); destruct ts as [|[] ?]; simpl in *; try done; by rewrite Ha].
  simpl in Hn. destruct (Byte.eqb percent c) eqn:Ep.
  - apply Byte.byte_dec_bl in Ep. subst c.
    pose proof (spec_bad_escape checker s) as Hbad.
    destruct d as [|c1 [|c2 d]]; [| |destruct (is_hexdigit c1 && is_hexdigit c2) eqn:Eh].
    3:{ apply do_unescape_escape; [done|done|]. intros. apply IH; [simpl in Hn; lia|done|done]. }
    all: cbn [do_unescape]; rewrite andb_false_r; change (Byte.eqb percent percent) with true; cbv iota;
      rewrite ?Eh; split; [done|]; intros Hs; by apply Hbad in Hs.
  - assert (IH' : forall s', do_unescape (pos + 1) d checker expect = Unescaped s' <-> spec d checker s')
      by (intros; apply IH; [lia|done|done]).
    cbn [do_unescape]. rewrite Ep. cbn [negb]. rewrite andb_true_r. destruct expect.
    { split; [done|]. intros (ts & Hok & Hd & -> & Ha). symmetry in He. apply negb_true_iff in He.
      pose proof (print_cons _ _ ts Hok Hd) as Hp. rewrite Ep in Hp. destruct Hp as (ts' & _ & _ & Hp).
      destruct (Byte.eqb plus c); [subst ts|destruct Hp as [-> Hord]]; cbn [map value] in Ha;
        rewrite Utf8.accepts_cons, Utf8.step_ascii, He in Ha; try done; by apply ordinary_lt. }
    pose proof (spec_char c d checker s Ep) as Hinv.
    destruct (Byte.eqb plus c) eqn:Eplus; [|destruct (ordinary_char c) eqn:Eord].
    + rewrite (Hinv x20) by done. by apply do_unescape_char.
    + rewrite (Hinv c) by done. apply do_unescape_char; try done. by apply ordinary_lt.
    + split; [done|]. intros (ts & Hok & Hd & _). pose proof (print_cons _ _ ts Hok Hd) as Hp.
      rewrite Ep, Eplus in Hp. destruct Hp as (ts' & _ & _ & _ & Hord). by rewrite Eord in Hord.
Qed.

(** What unescaping accepts and returns, for every character class that is
    ASCII: the input is a sequence of ordinary characters, plus signs and escape
    sequences, and the decoded text is UTF-8; the result is that text. *)
Theorem unescape_iff (d s : list byte) :
  try_unescape_percent_encoding d = Unescaped s
  <-> exists ts, forallb token_ok ts = true /\ d = flat_map print ts /\ s = map value ts
        /\ Utf8.check_utf8_is_correct s = true.
Proof.
  unfold try_unescape_percent_encoding. rewrite (do_unescape_spec (length d) d);
    [done|lia|apply Utf8.reachable_initial|done].
Qed.

(** *** In place *)

Lemma insert_consumed (out junk k d : list byte) (ch : byte) :
  k <> [] ->
  exists junk', <[length out := ch]> (out ++ junk ++ k ++ d) = (out ++ [ch]) ++ junk' ++ d
    /\ length (junk ++ k) = S (length junk').
Proof.
  intros Hk. rewrite insert_app_r_alt by lia. rewrite Nat.sub_diag, (app_assoc junk).
  destruct (junk ++ k) as [|j junk'] eqn:E; [by destruct junk|].
  exists junk'. simpl. by rewrite <- app_assoc.
Qed.

Lemma nth_at {A} (a : list A) x b y i : i = length a -> nth i (a ++ x :: b) y = x.
Proof. intros ->. rewrite app_nth2, Nat.sub_diag by lia. done. Qed.

Definition inplace_agrees (out : list byte) (total : nat) (r : unescape_result)
  (res : list byte * (nat + unescape_failure_t)) : Prop :=
  match r with
  | Unescaped s => exists rest, res = (out ++ s ++ rest, inl (length out + length s)%nat)
                                /\ (length out + length s + length rest = total)%nat
  | Failed f => snd res = inr f /\ length (fst res) = total
  end.

Lemma agrees_emit out total c r res :
  inplace_agrees (out ++ [c]) total r res -> inplace_agrees out total (emit c r) res.
Proof.
  destruct r as [s|f]; cbn [emit inplace_agrees]; [|done].
  intros (rest & -> & Hlen). exists rest. rewrite length_app in *. simpl in *.
  split; [|lia]. rewrite <- app_assoc. do 2 f_equal. lia.
Qed.

Lemma inplace_loop_agrees fuel : forall d out junk checker expect,
  (length d <= fuel)%nat ->
  inplace_agrees out (length (out ++ junk ++ d))
    (do_unescape (length (out ++ junk)) d checker expect)
    (do_unescape_inplace (length d) fuel (out ++ junk ++ d) (length (out ++ junk)) (length out)
       checker expect).
Proof.
  induction fuel as [|fuel IH]; intros d out junk checker expect Hf.
  { destruct d; [|simpl in Hf; lia]. cbn. destruct expect; cbn; [done|].
    exists (junk ++ []). rewrite !length_app. simpl. split; [|lia]. do 2 f_equal. lia. }
  destruct d as [|c d].
  { cbn. destruct expect; cbn; [done|]. exists (junk ++ []). rewrite !length_app. simpl.
    split; [|lia]. do 2 f_equal. lia. }
  cbn [length] in Hf.
  assert (Hnext : forall k d' ch ck ex, c :: d = k ++ d' -> k <> [] -> (length d' <= fuel)%nat ->
    inplace_agrees out (length (out ++ junk ++ c :: d))
      (emit ch (do_unescape (length (out ++ junk) + length k) d' ck ex))
      (do_unescape_inplace (length d') fuel (<[length out := ch]> (out ++ junk ++ c :: d))
         (length (out ++ junk) + length k) (length out + 1) ck ex)).
  { intros k d' ch ck ex -> Hk Hd'. apply agrees_emit.
    destruct (insert_consumed out junk k d' ch Hk) as (junk' & -> & Hl).
    pose proof (IH d' (out ++ [ch]) junk' ck ex Hd') as H1. rewrite !length_app in *. simpl in *.
    replace (length out + (length junk + (length k + length d')))%nat
      with (length out + 1 + (length junk' + length d'))%nat by lia.
    replace (length out + length junk + length k)%nat with (length out + 1 + length junk')%nat by lia.
    exact H1. }
  cbn [do_unescape do_unescape_inplace length].
  rewrite (app_assoc out junk), (nth_at (out ++ junk) c d) by done. rewrite <- (app_assoc out junk).
  destruct (expect && negb (Byte.eqb percent c)); [done|].
  destruct (Byte.eqb percent c) eqn:Ep.
  - destruct d as [|c1 [|c2 d]]; [done|done|].
    replace (nth (length (out ++ junk) + 1) (out ++ junk ++ c :: c1 :: c2 :: d) x00) with c1.
    2:{ rewrite (app_assoc out), (cons_middle c), (app_assoc (out ++ junk)). symmetry. apply nth_at.
        rewrite !length_app. simpl. lia. }
    replace (nth (length (out ++ junk) + 2) (out ++ junk ++ c :: c1 :: c2 :: d) x00) with c2.
    2:{ rewrite (app_assoc out). change (c :: c1 :: c2 :: d) with ([c; c1] ++ c2 :: d).
        rewrite (app_assoc (out ++ junk)). symmetry. apply nth_at. rewrite !length_app. simpl. lia. }
    cbn [Nat.leb length andb]. destruct (is_hexdigit c1 && is_hexdigit c2); [|done].
    destruct (Utf8.process_byte (u8 (extract_escaped_char c1 c2)) checker) as [ck []]; [|done].
    cbn [negb Nat.sub]. rewrite Nat.sub_0_r. apply (Hnext [c; c1; c2]); [done|done|simpl in Hf; lia].
  - cbn [Nat.sub]. rewrite Nat.sub_0_r.
    destruct (Byte.eqb plus c); [apply (Hnext [c]); [done|done|lia]|].
    destruct (ordinary_char c); [apply (Hnext [c]); [done|done|lia]|]. done.
Qed.

Lemma inplace_length data : length (fst (try_inplace_unescape_percent_encoding data)) = length data.
Proof.
  pose proof (inplace_loop_agrees (length data) data [] [] Utf8.initial false (le_n _)) as Ha.
  unfold try_inplace_unescape_percent_encoding. simpl in Ha.
  destruct (do_unescape 0 data Utf8.initial false); simpl in *; [|apply Ha].
  destruct Ha as (rest & -> & Hl). simpl. rewrite length_app. lia.
Qed.

Lemma inplace_unescaped data s :
  try_unescape_percent_encoding data = Unescaped s ->
  exists rest, try_inplace_unescape_percent_encoding data = (s ++ rest, inl (length s))
    /\ (length s + length rest = length data)%nat.
Proof.
  pose proof (inplace_loop_agrees (length data) data [] [] Utf8.initial false (le_n _)) as Ha.
  unfold try_unescape_percent_encoding, try_inplace_unescape_percent_encoding. simpl in Ha.
  intros E. rewrite E in Ha. exact Ha.
Qed.

(** Unescaping in place is safe: although it overwrites the buffer it reads
    from, it gives the same result as unescaping into a new string; the result
    is at the start of the buffer, whose size does not change. *)
Theorem inplace_unescape_agrees (data : list byte) :
  match try_unescape_percent_encoding data with
  | Unescaped s => exists rest,
      try_inplace_unescape_percent_encoding data = (s ++ rest, inl (length s))
      /\ (length s + length rest = length data)%nat
  | Failed f => snd (try_inplace_unescape_percent_encoding data) = inr f
  end.
Proof.
  pose proof (inplace_loop_agrees (length data) data [] [] Utf8.initial false (le_n _)) as Ha.
  unfold try_unescape_percent_encoding, try_inplace_unescape_percent_encoding. simpl in Ha.
  destruct (do_unescape 0 data Utf8.initial false); simpl in *; [exact Ha|apply Ha].
Qed.

End Spec.

(** ** Round trip *)

Definition escape_token `{UnescapeTraits} (c : byte) : token :=
  if ordinary_char c then Plain c else Esc (hex_digit (u8 c / 16)) (hex_digit (u8 c mod 16)).

Lemma hex_back c :
  extract_escaped_char (hex_digit (u8 c / 16)) (hex_digit (u8 c mod 16)) = c
  /\ is_hexdigit (hex_digit (u8 c / 16)) && is_hexdigit (hex_digit (u8 c mod 16)) = true.
Proof.
  split.
  - by apply (byte_all_eq (fun c => extract_escaped_char (hex_digit (u8 c / 16)) (hex_digit (u8 c mod 16)))
                (fun c => c)).
  - by apply (byte_all_true (fun c => is_hexdigit (hex_digit (u8 c / 16))
                                      && is_hexdigit (hex_digit (u8 c mod 16)))).
Qed.

(** Text whose octets are not negative as a [char]. *)
Definition char_safe `{FmtHex} (s : list byte) : bool := negb char_is_signed || forallb (fun c => u8 c <? 0x80) s.

(** Text that escaping can represent. *)
Definition text_ok `{FmtHex} (s : list byte) : bool := Utf8.check_utf8_is_correct s && char_safe s.

Lemma char_safe_cons `{FmtHex} c s :
  char_safe (c :: s) = true -> format_percent_02X (char_value c) = percent_hex c /\ char_safe s = true.
Proof.
  unfold char_safe, char_value. cbn [forallb]. pose proof (u8_range c) as Hr.
  assert (Hu : format_percent_02X (u8 c) = percent_hex c).
  { rewrite format_percent_02X_spec by lia. unfold format_hex, percent_hex. by rewrite (proj2 (Z.ltb_ge _ _)) by lia. }
  destruct char_is_signed; cbn [negb orb andb]; [|done]. rewrite andb_true_iff, Z.ltb_lt. intros [Hc Hs].
  by rewrite (proj2 (Z.leb_gt _ _)) by lia.
Qed.

Lemma escape_is_tokens `{UnescapeTraits} `{FmtHex} data :
  char_safe data = true -> escape_percent_encoding data = flat_map print (map escape_token data).
Proof.
  intros Hsafe. unfold escape_percent_encoding.
  assert (Hfold : forall acc, fold_left (fun result c =>
            if ordinary_char c then result ++ [c] else result ++ format_percent_02X (char_value c)) data acc
          = acc ++ flat_map print (map escape_token data)).
  { induction data as [|c data IH]; intros acc; simpl; [by rewrite app_nil_r|].
    destruct (char_safe_cons c data Hsafe) as [Hc Hs]. rewrite (IH Hs). unfold escape_token at 2. rewrite Hc.
    destruct (ordinary_char c); by rewrite <- app_assoc. }
  destruct (length _ =? 0)%nat eqn:E; [|apply Hfold].
  apply Nat.eqb_eq in E. clear Hfold. induction data as [|c data IH]; [done|].
  rewrite filter_cons in E. case_decide as Ec; [done|]. apply not_false_iff_true in Ec.
  destruct (char_safe_cons c data Hsafe) as [_ Hs].
  cbn [map flat_map]. unfold escape_token at 1. rewrite Ec. cbn [print app]. by rewrite <- IH.
Qed.

Lemma escape_token_ok `{UnescapeTraits} c :
  ordinary_char percent = false -> ordinary_char plus = false -> token_ok (escape_token c) = true.
Proof.
  intros Hp Hplus. unfold escape_token, token_ok. destruct (ordinary_char c) eqn:Ec; [|apply hex_back].
  destruct (Byte.eqb percent c) eqn:E1; [apply Byte.byte_dec_bl in E1; by rewrite <- E1, Hp in Ec|].
  destruct (Byte.eqb plus c) eqn:E2; [apply Byte.byte_dec_bl in E2; by rewrite <- E2, Hplus in Ec|].
  by rewrite Ec.
Qed.

Lemma escape_token_value `{UnescapeTraits} c : value (escape_token c) = c.
Proof. unfold escape_token, value. destruct (ordinary_char c); [done|]. apply hex_back. Qed.

Lemma unescape_escape `{UnescapeTraits} `{FmtHex} s :
  ordinary_char percent = false -> ordinary_char plus = false ->
  text_ok s = true -> try_unescape_percent_encoding (escape_percent_encoding s) = Unescaped s.
Proof.
  intros Hp Hplus [Hs Hc]%andb_prop. unfold try_unescape_percent_encoding.
  apply (do_unescape_spec _ _ (le_n _)); [apply Utf8.reachable_initial|done|].
  exists (map escape_token s). split; [|split; [by apply escape_is_tokens|split; [|exact Hs]]].
  - apply forallb_forall. intros t (c & <- & _)%in_map_iff. by apply escape_token_ok.
  - rewrite map_map. symmetry. etrans; [|apply map_id]. apply map_ext. apply escape_token_value.
Qed.

(** Escaping round trip: with character classes that escape the percent and
    the plus sign, unescaping the escaped form of UTF-8 text gives it back, on a
    platform where [char] is unsigned, or for ASCII text. *)
Theorem escape_unescape_roundtrip `{UnescapeTraits} `{FmtHex} (s : list byte) :
  ordinary_char percent = false -> ordinary_char plus = false ->
  text_ok s = true -> try_unescape_percent_encoding (escape_percent_encoding s) = Unescaped s.
Proof. apply unescape_escape. Qed.

(** The relaxed class leaves the plus sign alone, so it comes back as a space. *)
Lemma relaxed_plus_becomes_space `{FmtHex} :
  @escape_percent_encoding relaxed_unescape_traits _ [plus] = [plus]
  /\ @try_unescape_percent_encoding relaxed_unescape_traits [plus] = Unescaped [x20].
Proof. done. Qed.

(** [std::strchr] finds the terminator: a raw NUL is accepted. *)
Lemma relaxed_accepts_nul :
  @try_unescape_percent_encoding relaxed_unescape_traits [x00] = Unescaped [x00].
Proof. done. Qed.

Definition hex_of_char (is_signed : bool) : FmtHex :=
  {| char_is_signed := is_signed; format_percent_02X := format_hex; format_percent_02X_spec := fun _ _ => eq_refl |}.
(** [char] on ARM, and on x86. *)
Definition unsigned_char : FmtHex := hex_of_char false.
Definition signed_char : FmtHex := hex_of_char true.

(** Where [char] is signed, the escaped form of text that is not ASCII cannot be
    unescaped. *)
Lemma signed_char_breaks_escapes :
  @escape_percent_encoding restinio_default_unescape_traits signed_char (bs "ø") = bs "%-3D%-48" /\
  @try_unescape_percent_encoding restinio_default_unescape_traits (bs "%-3D%-48") = Failed (invalid_escape_sequence 0).
Proof. split; vm_compute; reflexivity. Qed.

Lemma escape_unescape_roundtrip_witness :
  @escape_percent_encoding restinio_default_unescape_traits unsigned_char (bs "a+ø") = bs "a%2B%C3%B8"
  /\ @try_unescape_percent_encoding restinio_default_unescape_traits
       (@escape_percent_encoding restinio_default_unescape_traits unsigned_char (bs "a+ø"))
     = Unescaped (bs "a+ø").
Proof.
  split; [vm_compute; reflexivity|].
  apply (@escape_unescape_roundtrip restinio_default_unescape_traits unsigned_char (bs "a+ø"));
    vm_compute; reflexivity.
Defined.

(** ** Normalisation of unreserved characters *)

Definition is_unreserved_char (ch : byte) : bool := default_ordinary ch.

(** [run_normalization_algo]: the calls of the handlers, in order. *)
Inductive norm_call := one_byte (ch : byte) | three_bytes (ch1 ch2 ch3 : byte).

Inductive norm_result := Normalized (calls : list norm_call) | NormError (f : unescape_failure_t).

Definition call (k : norm_call) (r : norm_result) : norm_result :=
  match r with Normalized ks => Normalized (k :: ks) | NormError f => NormError f end.

Fixpoint run_normalization_algo (pos : nat) (d : list byte) (checker : Utf8.utf8_checker_t)
  (expect_next_utf8_byte : bool) : norm_result :=
  match d with
  | [] => if expect_next_utf8_byte then NormError unfinished_utf8_sequence else Normalized []
  | c :: d =>
      if expect_next_utf8_byte && negb (Byte.eqb percent c)
      then NormError (next_utf8_byte_expected pos)
      else if negb (Byte.eqb percent c)
      then call (one_byte c) (run_normalization_algo (pos + 1) d checker expect_next_utf8_byte)
      else
        match d with
        | c1 :: c2 :: d =>
            if is_hexdigit c1 && is_hexdigit c2 then
              let ch := extract_escaped_char c1 c2 in
              let '(checker, ok) := Utf8.process_byte (u8 ch) checker in
              if negb ok then NormError (invalid_utf8_sequence pos)
              else if Utf8.finalized checker then
                let symbol := Utf8.m_current_symbol checker in
                let checker := Utf8.reset checker in
                if (symbol <? 0x80) && is_unreserved_char (b8 symbol)
                then call (one_byte (b8 symbol)) (run_normalization_algo (pos + 3) d checker false)
                else call (three_bytes c c1 c2) (run_normalization_algo (pos + 3) d checker false)
              else call (three_bytes c c1 c2) (run_normalization_algo (pos + 3) d checker true)
            else NormError (invalid_escape_sequence pos)
        | _ => NormError (invalid_escape_sequence pos)
        end
  end.

Definition run_normalization (what : list byte) : norm_result :=
  run_normalization_algo 0 what Utf8.initial false.

(** [estimate_required_capacity] and [normalize_to]; the destination grows with
    every call. *)
Definition estimate_required_capacity (what : list byte) : unescape_failure_t + Z :=
  match run_normalization what with
  | Normalized ks =>
      inr (fold_left (fun n k => match k with one_byte _ => n + 1 | three_bytes _ _ _ => n + 3 end) ks 0)
  | NormError f => inl f
  end.

Definition call_bytes (k : norm_call) : list byte :=
  match k with one_byte c => [c] | three_bytes a b c => [a; b; c] end.

Definition normalize_to (what : list byte) : unescape_failure_t + list byte :=
  match run_normalization what with
  | Normalized ks => inr (fold_left (fun dest k => dest ++ call_bytes k) ks [])
  | NormError f => inl f
  end.

(** The estimate is exact: [normalize_to] writes as many octets as estimated, and
    both fail on the same inputs with the same error. *)
Lemma estimate_is_exact what :
  match normalize_to what with
  | inr out => estimate_required_capacity what = inr (Z.of_nat (length out))
  | inl f => estimate_required_capacity what = inl f
  end.
Proof.
  unfold normalize_to, estimate_required_capacity. destruct (run_normalization what) as [ks|f]; [|done].
  f_equal. induction ks as [|k ks IH] using rev_ind; [done|]. rewrite !fold_left_app, IH. simpl.
  rewrite length_app. destruct k; simpl; lia.
Qed.

(** Normalisation never lengthens its input, and keeps its length only by
    changing nothing. *)
Lemma run_normalization_shrinks n : forall d pos checker expect ks,
  (length d <= n)%nat -> run_normalization_algo pos d checker expect = Normalized ks ->
  (length (flat_map call_bytes ks) <= length d)%nat
  /\ (length (flat_map call_bytes ks) = length d -> flat_map call_bytes ks = d).
Proof.
  assert (Hcall : forall k r ks, call k r = Normalized ks -> exists ks', r = Normalized ks' /\ ks = k :: ks').
  { intros k [ks'|f] ks; simpl; [|done]. intros [= <-]. by exists ks'. }
  induction n as [|n IH]; intros d pos checker expect ks Hn H;
    (destruct d as [|c d]; [simpl in H; destruct expect; [done|]; by injection H as <-|simpl in Hn; try lia]).
  cbn [run_normalization_algo] in H. destruct (expect && _); [done|].
  destruct (negb (Byte.eqb percent c)).
  { apply Hcall in H as (ks' & H & ->). apply IH in H as [H1 H2]; [|lia]. simpl. split; [lia|].
    intros E. f_equal. apply H2. lia. }
  destruct d as [|c1 [|c2 d]]; try done. destruct (is_hexdigit c1 && is_hexdigit c2); [|done].
  destruct (Utf8.process_byte _ checker) as [checker' ok]. destruct (negb ok); [done|]. simpl in Hn.
  assert (Hkeep : forall ch e, call (three_bytes c c1 c2) (run_normalization_algo (pos + 3) d ch e) = Normalized ks ->
    (length (flat_map call_bytes ks) <= length (c :: c1 :: c2 :: d))%nat
    /\ (length (flat_map call_bytes ks) = length (c :: c1 :: c2 :: d)
        -> flat_map call_bytes ks = c :: c1 :: c2 :: d)).
  { intros ch e H'. apply Hcall in H' as (ks' & H' & ->). apply IH in H' as [H1 H2]; [|lia]. simpl.
    split; [lia|]. intros E. do 3 f_equal. apply H2. lia. }
  destruct (Utf8.finalized checker'); [|by eapply Hkeep].
  destruct (_ && is_unreserved_char _); [|by eapply Hkeep].
  apply Hcall in H as (ks' & H & ->). apply IH in H as [H1 _]; [|lia]. simpl. lia.
Qed.

Lemma normalize_to_flat ks :
  fold_left (fun dest k => dest ++ call_bytes k) ks [] = flat_map call_bytes ks.
Proof.
  assert (H : forall acc, fold_left (fun dest k => dest ++ call_bytes k) ks acc
                          = acc ++ flat_map call_bytes ks); [|apply H].
  induction ks as [|k ks IH]; intros acc; simpl; [by rewrite app_nil_r|]. by rewrite IH, <- app_assoc.
Qed.

(** When the estimated size is the size of the input, normalisation is the
    identity. *)
Lemma normalize_same_size what out :
  normalize_to what = inr out -> length out = length what -> out = what.
Proof.
  unfold normalize_to, run_normalization.
  destruct (run_normalization_algo 0 what Utf8.initial false) as [ks|f] eqn:E; [|done].
  intros [= <-]. rewrite normalize_to_flat.
  by apply (run_normalization_shrinks (length what)) in E as [_ H].
Qed.

End Percent.
