(* ===== verification/UriHelpers.v ===== *)
(** * Query strings

    Model of src/web/restinio/restinio/uri_helpers.hpp: parsing of a query
    string into parameters.  The parser copies the query into a buffer, unescapes
    keys and values in place and keeps views into the buffer; a view is an offset
    and a length. *)

From S2P Require Import Prelude Utf8Checker PercentEncoding.

Module Uri.
Import Percent.

(** ** Parameters *)

Record query_string_params_t := mk_params {
  m_parameters : list (list byte * list byte);
  m_tag : option (list byte)
}.

Fixpoint find_parameter (key : list byte) (ps : list (list byte * list byte))
  : option (list byte * list byte) :=
  match ps with
  | [] => None
  | p :: ps => if bool_decide (key = fst p) then Some p else find_parameter key ps
  end.

Definition at_key (key : list byte) (q : query_string_params_t) : outcome (list byte) :=
  match find_parameter key (m_parameters q) with
  | Some p => Ok (snd p)
  | None => Throw "unable to find parameter"
  end.
Definition has (key : list byte) (q : query_string_params_t) : bool :=
  match find_parameter key (m_parameters q) with Some _ => true | None => false end.
Definition get_param (key : list byte) (q : query_string_params_t) : option (list byte) :=
  snd <$> find_parameter key (m_parameters q).

(** ** Parsing *)

Definition eq_sign : byte := x3d.
Definition ampersand : byte := x26.
Definition semicolon : byte := x3b.

(** The traits: character class and separators. *)
Class ParseTraits := {
  parse_unescape :: UnescapeTraits;
  is_separator : byte -> bool
}.

Definition ampersand_and_semicolon (c : byte) : bool := Byte.eqb ampersand c || Byte.eqb semicolon c.
Definition ampersand_only (c : byte) : bool := Byte.eqb ampersand c.

Definition restinio_defaults : ParseTraits :=
  {| parse_unescape := restinio_default_unescape_traits; is_separator := ampersand_and_semicolon |}.
Definition javascript_compatible : ParseTraits :=
  {| parse_unescape := javascript_compatible_unescape_traits; is_separator := ampersand_and_semicolon |}.
Definition x_www_form_urlencoded : ParseTraits :=
  {| parse_unescape := x_www_form_urlencoded_unescape_traits; is_separator := ampersand_only |}.
Definition relaxed : ParseTraits :=
  {| parse_unescape := relaxed_unescape_traits; is_separator := ampersand_only |}.

Fixpoint find_first (p : byte -> bool) (s : list byte) : option nat :=
  match s with
  | [] => None
  | c :: s => if p c then Some 0%nat else S <$> find_first p s
  end.

(** [where.find_first_of( chars, pos )]. *)
Definition find_first_of (p : byte -> bool) (pos : nat) (s : list byte) : option nat :=
  (fun i => (pos + i)%nat) <$> find_first p (drop pos s).

(** [try_inplace_unescape_percent_encoding( &buffer[ o ], n )]. *)
Definition unescape_at `{UnescapeTraits} (o n : nat) (buf : list byte)
  : list byte * (nat + unescape_failure_t) :=
  let '(region, r) := try_inplace_unescape_percent_encoding (take n (drop o buf)) in
  (take o buf ++ region ++ drop (o + n) buf, r).

Inductive parse_query_failure_t :=
| no_eq_sign (pos : nat)
| unescape_failed (f : unescape_failure_t).

Definition view : Type := nat * nat.
Definition get_view (buf : list byte) (v : view) : list byte := take (snd v) (drop (fst v) buf).

Inductive loop_result :=
| Params (buf : list byte) (views : list (view * view))
| Tag (buf : list byte) (tag : view)
| Failure (f : parse_query_failure_t).

(** The [while] loop; every round moves [pos] forward, so the size of the query
    bounds the number of rounds. *)
Fixpoint parse_loop `{ParseTraits} (fuel : nat) (buf : list byte) (pos : nat)
  (parameters : list (view * view)) : loop_result :=
  match fuel with
  | O => Params buf parameters
  | S fuel =>
      let end_pos := length buf in
      if (pos <? end_pos)%nat then
        match find_first_of (Byte.eqb eq_sign) pos buf with
        | None =>
            if negb (pos =? 0)%nat then Failure (no_eq_sign pos)
            else
              let '(buf, r) := unescape_at pos (end_pos - pos) buf in
              match r with
              | inr f => Failure (unescape_failed f)
              | inl n => Tag buf (pos, n)
              end
        | Some eq_pos =>
            let eq_pos_next := (eq_pos + 1)%nat in
            let separator_pos := default end_pos (find_first_of is_separator eq_pos_next buf) in
            let '(buf, key_result) := unescape_at pos (eq_pos - pos) buf in
            match key_result with
            | inr f => Failure (unescape_failed f)
            | inl key_size =>
                let '(buf, value_result) :=
                  unescape_at eq_pos_next (separator_pos - eq_pos_next) buf in
                match value_result with
                | inr f => Failure (unescape_failed f)
                | inl value_size =>
                    parse_loop fuel buf (separator_pos + 1)
                      (parameters ++ [((pos, key_size), (eq_pos_next, value_size))])
                end
            end
        end
      else Params buf parameters
  end.

Definition try_parse_query `{ParseTraits} (query : list byte)
  : parse_query_failure_t + query_string_params_t :=
  match parse_loop (S (length query)) query 0 [] with
  | Params buf views =>
      inr (mk_params (map (fun v => (get_view buf (fst v), get_view buf (snd v))) views) None)
  | Tag buf tag => inr (mk_params [] (Some (get_view buf tag)))
  | Failure f => inl f
  end.

Definition parse_query `{ParseTraits} (query : list byte) : outcome query_string_params_t :=
  match try_parse_query query with
  | inr q => Ok q
  | inl (no_eq_sign _) => Throw "invalid format of key-value pairs in query_string"
  | inl (unescape_failed _) => Throw "invalid percent encoding"
  end.

(** ** Termination *)

Lemma find_first_lt p s i : find_first p s = Some i -> (i < length s)%nat.
Proof.
  revert i. induction s as [|c s IH]; intros i; simpl; [done|]. destruct (p c).
  - intros [= <-]. lia.
  - destruct (find_first p s) as [j|]; [|done]. intros [= <-]. specialize (IH j eq_refl). lia.
Qed.

Lemma find_first_of_range p pos s i :
  find_first_of p pos s = Some i -> (pos <= i < length s)%nat.
Proof.
  unfold find_first_of. destruct (find_first p (drop pos s)) as [j|] eqn:E; [|done].
  intros [= <-]. apply find_first_lt in E. rewrite length_drop in E. lia.
Qed.

Lemma unescape_at_length `{UnescapeTraits} o n buf :
  (o + n <= length buf)%nat -> length (fst (unescape_at o n buf)) = length buf.
Proof.
  intros Hn. unfold unescape_at. pose proof (inplace_length (take n (drop o buf))) as Hl.
  destruct (try_inplace_unescape_percent_encoding _) as [region r]. simpl in *.
  rewrite !length_app, length_take, length_drop, Hl, length_take, length_drop. lia.
Qed.

(** Fuel above the number of characters left does not change the result. *)
Lemma parse_loop_fuel `{ParseTraits} f f' buf pos vs :
  (length buf - pos < f)%nat -> (f <= f')%nat -> parse_loop f' buf pos vs = parse_loop f buf pos vs.
Proof.
  revert f' buf pos vs. induction f as [|f IH]; intros f' buf pos vs Hf Hle; [lia|].
  destruct f' as [|f']; [lia|]. cbn [parse_loop].
  destruct (Nat.ltb_spec pos (length buf)) as [Hpos|]; [|done].
  destruct (find_first_of (Byte.eqb eq_sign) pos buf) as [e|] eqn:Ee; [|done].
  apply find_first_of_range in Ee.
  assert (Hsep : (e + 1 <= default (length buf) (find_first_of is_separator (e + 1) buf)
                  <= length buf)%nat).
  { destruct (find_first_of is_separator (e + 1) buf) as [sp|] eqn:Es; simpl; [|lia].
    apply find_first_of_range in Es. lia. }
  set (sp := default _ _) in *.
  pose proof (unescape_at_length pos (e - pos) buf ltac:(lia)) as H1.
  destruct (unescape_at pos (e - pos) buf) as [buf1 [n1|]]; [|done]. simpl in H1.
  pose proof (unescape_at_length (e + 1) (sp - (e + 1)) buf1 ltac:(lia)) as H2.
  destruct (unescape_at (e + 1) (sp - (e + 1)) buf1) as [buf2 [n2|]]; [|done]. simpl in H2.
  apply IH; lia.
Qed.

(** ** Round trip *)

(** A query built from parameters. *)
Definition encode_pair `{ParseTraits} `{FmtHex} (p : list byte * list byte) : list byte :=
  escape_percent_encoding (fst p) ++ eq_sign :: escape_percent_encoding (snd p).

Fixpoint encode_query `{ParseTraits} `{FmtHex} (ps : list (list byte * list byte)) : list byte :=
  match ps with
  | [] => []
  | [p] => encode_pair p
  | p :: ps => encode_pair p ++ ampersand :: encode_query ps
  end.

(** The characters with a meaning in queries are escaped. *)
Definition query_safe `{ParseTraits} : bool :=
  negb (ordinary_char percent) && negb (ordinary_char plus) && negb (ordinary_char eq_sign)
  && is_separator ampersand
  && byte_all (fun c => negb (is_separator c)
                        || negb (ordinary_char c) && negb (Byte.eqb percent c) && negb (is_hexdigit c)).

Section Roundtrip.
Context `{T : ParseTraits} `{F : FmtHex}.
Hypothesis safe : query_safe = true.

Lemma safe_facts :
  ordinary_char percent = false /\ ordinary_char plus = false /\ ordinary_char eq_sign = false
  /\ is_separator ampersand = true
  /\ forall c, is_separator c = true ->
       ordinary_char c = false /\ Byte.eqb percent c = false /\ is_hexdigit c = false.
Proof.
  unfold query_safe in safe. rewrite !andb_true_iff, !negb_true_iff in safe.
  destruct safe as ((((H1 & H2) & H3) & H4) & H5). split_and!; try done.
  intros c Hc. pose proof (byte_all_true _ H5 c) as H6. cbv beta in H6. rewrite Hc in H6.
  rewrite orb_false_l, !andb_true_iff, !negb_true_iff in H6. tauto.
Qed.

Lemma escape_chars p s :
  (forall c, p c = true -> ordinary_char c = false /\ Byte.eqb percent c = false /\ is_hexdigit c = false) ->
  text_ok s = true -> forallb (fun c => negb (p c)) (escape_percent_encoding s) = true.
Proof.
  intros Hp [_ Hc]%andb_prop. rewrite escape_is_tokens by done. clear Hc. apply forallb_forall. intros c Hc.
  apply in_flat_map in Hc as (t & (b & <- & _)%in_map_iff & Hc).
  apply negb_true_iff, not_true_is_false. intros Hpc. destruct (Hp c Hpc) as (H1 & H2 & H3).
  pose proof (hex_back b) as [_ Hh]. apply andb_prop in Hh as [Hh1 Hh2].
  unfold escape_token in Hc. destruct (ordinary_char b) eqn:Eb; simpl in Hc.
  - destruct Hc as [->|[]]. by rewrite Eb in H1.
  - destruct Hc as [<-|[<-|[<-|[]]]]; [done|by rewrite Hh1 in H3|by rewrite Hh2 in H3].
Qed.

Lemma find_first_app p a x b :
  forallb (fun c => negb (p c)) a = true -> p x = true -> find_first p (a ++ x :: b) = Some (length a).
Proof.
  intros Ha Hx. induction a as [|c a IH]; simpl in *; [by rewrite Hx|].
  apply andb_prop in Ha as [Hc Ha]. apply negb_true_iff in Hc. by rewrite Hc, IH.
Qed.

Lemma find_first_none p a : forallb (fun c => negb (p c)) a = true -> find_first p a = None.
Proof.
  induction a as [|c a IH]; simpl; [done|]. intros [Hc Ha]%andb_prop. apply negb_true_iff in Hc.
  by rewrite Hc, IH.
Qed.

Lemma unescape_at_escaped before after s o n :
  text_ok s = true ->
  o = length before -> n = length (escape_percent_encoding s) ->
  exists junk, unescape_at o n (before ++ escape_percent_encoding s ++ after)
               = (before ++ (s ++ junk) ++ after, inl (length s))
    /\ length (s ++ junk) = length (escape_percent_encoding s).
Proof.
  intros Hs -> ->. destruct safe_facts as (H1 & H2 & _). unfold unescape_at.
  rewrite drop_app_length, take_app_length.
  destruct (inplace_unescaped _ _ (unescape_escape s H1 H2 Hs)) as (rest & -> & Hl).
  exists rest. rewrite length_app. split; [|lia].
  rewrite take_app_length.
  assert (E : drop (length before + length (escape_percent_encoding s))
                (before ++ escape_percent_encoding s ++ after) = after).
  { rewrite app_assoc, <- length_app. apply drop_app_length. }
  by rewrite E.
Qed.

Lemma eq_sign_facts c :
  Byte.eqb eq_sign c = true ->
  ordinary_char c = false /\ Byte.eqb percent c = false /\ is_hexdigit c = false.
Proof. intros <-%Byte.byte_dec_bl. destruct safe_facts as (_ & _ & H3 & _). done. Qed.

(** One round of the loop on an encoded pair; [rest] is empty or starts with a
    separator. *)
Lemma parse_round fuel before p rest vs :
  text_ok (fst p) = true -> text_ok (snd p) = true ->
  (rest = [] \/ exists r, rest = ampersand :: r) ->
  exists jk jv,
    parse_loop (S fuel) (before ++ encode_pair p ++ rest) (length before) vs
    = parse_loop fuel (before ++ ((fst p ++ jk) ++ eq_sign :: (snd p ++ jv)) ++ rest)
        (length before + length (encode_pair p) + 1)
        (vs ++ [((length before, length (fst p)),
                 ((length before + length (fst p ++ jk) + 1)%nat, length (snd p)))])
    /\ length (fst p ++ jk) = length (escape_percent_encoding (fst p))
    /\ length (snd p ++ jv) = length (escape_percent_encoding (snd p)).
Proof.
  intros Hk Hv Hrest. destruct p as [k v]. unfold encode_pair. cbn [fst snd] in *.
  set (ek := escape_percent_encoding k). set (ev := escape_percent_encoding v).
  destruct safe_facts as (_ & _ & _ & Hamp & Hsep).
  assert (Hbuf : before ++ (ek ++ eq_sign :: ev) ++ rest = before ++ ek ++ eq_sign :: ev ++ rest).
  { by rewrite <- app_assoc. }
  cbn [parse_loop]. rewrite (proj2 (Nat.ltb_lt _ _)) by (rewrite !length_app; simpl; lia).
  rewrite Hbuf.
  assert (He : find_first_of (Byte.eqb eq_sign) (length before) (before ++ ek ++ eq_sign :: ev ++ rest)
               = Some (length before + length ek)%nat).
  { unfold find_first_of. rewrite drop_app_length, find_first_app; [done| |done].
    by apply escape_chars; [apply eq_sign_facts|]. }
  rewrite He.
  assert (Hs : default (length (before ++ ek ++ eq_sign :: ev ++ rest))
                 (find_first_of is_separator (length before + length ek + 1)
                    (before ++ ek ++ eq_sign :: ev ++ rest))
               = (length before + length ek + 1 + length ev)%nat).
  { replace (before ++ ek ++ eq_sign :: ev ++ rest) with ((before ++ ek ++ [eq_sign]) ++ ev ++ rest)
      by (by rewrite <- !app_assoc).
    replace (length before + length ek + 1)%nat with (length (before ++ ek ++ [eq_sign]))
      by (rewrite !length_app; simpl; lia).
    unfold find_first_of. rewrite drop_app_length.
    assert (Hev : forallb (fun c => negb (is_separator c)) ev = true) by by apply escape_chars.
    destruct Hrest as [->|[r ->]].
    - rewrite app_nil_r, find_first_none by done. simpl. rewrite !length_app. lia.
    - by rewrite find_first_app. }
  rewrite Hs.
  destruct (unescape_at_escaped before (eq_sign :: ev ++ rest) k (length before)
              (length before + length ek - length before) Hk eq_refl ltac:(fold ek; lia))
    as (jk & E1 & L1). fold ek in E1, L1. rewrite E1.
  destruct (unescape_at_escaped (before ++ (k ++ jk) ++ [eq_sign]) rest v (length before + length ek + 1)
              (length before + length ek + 1 + length ev - (length before + length ek + 1)) Hv
              ltac:(rewrite (length_app before), (length_app (k ++ jk)), L1; simpl; lia)
              ltac:(fold ev; lia)) as (jv & E2 & L2). fold ev in E2, L2.
  replace (before ++ (k ++ jk) ++ eq_sign :: ev ++ rest)
    with ((before ++ (k ++ jk) ++ [eq_sign]) ++ ev ++ rest) by (by rewrite <- !app_assoc).
  rewrite E2. exists jk, jv. split; [|done]. f_equal.
  - rewrite <- !app_assoc. simpl. by rewrite <- !app_assoc.
  - rewrite length_app. simpl. lia.
  - by rewrite L1.
Qed.

Lemma get_view_prefix before mid after o n :
  o = length before -> n = length mid -> get_view (before ++ mid ++ after) (o, n) = mid.
Proof. intros -> ->. unfold get_view. simpl. by rewrite drop_app_length, take_app_length. Qed.

Definition params_ok (ps : list (list byte * list byte)) : bool :=
  forallb (fun p => text_ok (fst p) && text_ok (snd p)) ps.

(** The views of a pair decoded in place. *)
Lemma pair_views (before jk jv tl : list byte) (p : list byte * list byte) :
  let buf := before ++ ((fst p ++ jk) ++ eq_sign :: (snd p ++ jv)) ++ tl in
  get_view buf (length before, length (fst p)) = fst p
  /\ get_view buf ((length before + length (fst p ++ jk) + 1)%nat, length (snd p)) = snd p.
Proof.
  intros buf. unfold buf. split.
  - rewrite <- !app_assoc. by apply get_view_prefix.
  - replace (before ++ ((fst p ++ jk) ++ eq_sign :: snd p ++ jv) ++ tl)
      with ((before ++ (fst p ++ jk) ++ [eq_sign]) ++ snd p ++ jv ++ tl)
      by by app_norm.
    apply get_view_prefix; [rewrite !length_app; simpl; lia|done].
Qed.

Lemma parse_loop_encoded ps : forall fuel before vs,
  params_ok ps = true -> (length ps < fuel)%nat ->
  exists buf vs',
    parse_loop fuel (before ++ encode_query ps) (length before) vs = Params buf (vs ++ vs')
    /\ (exists tl, buf = before ++ tl)
    /\ map (fun v => (get_view buf (fst v), get_view buf (snd v))) vs' = ps.
Proof.
  induction ps as [|p ps IH]; intros fuel before vs Hu Hf; (destruct fuel as [|fuel]; [simpl in Hf; lia|]).
  { exists before, []. cbn [parse_loop encode_query]. rewrite app_nil_r, Nat.ltb_irrefl, app_nil_r.
    split; [done|]. split; [exists []; by rewrite app_nil_r|done]. }
  cbn [params_ok forallb] in Hu. fold (params_ok ps) in Hu.
  apply andb_prop in Hu as [[Hk Hv]%andb_prop Hu]. simpl in Hf.
  assert (Henc : encode_query (p :: ps)
                 = encode_pair p ++ match ps with [] => [] | _ => ampersand :: encode_query ps end).
  { destruct ps; cbn [encode_query]; [by rewrite app_nil_r|done]. }
  set (rest := match ps with [] => [] | _ => ampersand :: encode_query ps end) in *.
  destruct (parse_round fuel before p rest vs Hk Hv) as (jk & jv & E & Lk & Lv).
  { unfold rest. destruct ps; [by left|]. right. by eexists. }
  rewrite Henc, E. set (w := (fst p ++ jk) ++ eq_sign :: (snd p ++ jv)).
  pose proof (fun tl => pair_views before jk jv tl p) as Hviews. cbv zeta in Hviews. fold w in Hviews.
  assert (Hw : length (encode_pair p) = length w).
  { unfold w, encode_pair. rewrite !length_app in *. simpl. rewrite length_app. lia. }
  destruct ps as [|q ps].
  - unfold rest. rewrite app_nil_r.
    exists (before ++ w), [((length before, length (fst p)),
              ((length before + length (fst p ++ jk) + 1)%nat, length (snd p)))].
    split; [|split; [by exists w|]].
    + destruct fuel; cbn [parse_loop]; [done|].
      by rewrite (proj2 (Nat.ltb_ge _ _)) by (rewrite length_app; lia).
    + cbn [map fst snd]. destruct (Hviews []) as [H1 H2]. rewrite app_nil_r in H1, H2.
      rewrite H1, H2. by destruct p.
  - unfold rest.
    set (v0 := ((length before, length (fst p)),
                ((length before + length (fst p ++ jk) + 1)%nat, length (snd p)))).
    destruct (IH fuel (before ++ w ++ [ampersand]) (vs ++ [v0]) Hu ltac:(lia))
      as (buf & vs' & E' & (tl & ->) & Hvs').
    replace ((before ++ w ++ [ampersand]) ++ encode_query (q :: ps))
      with (before ++ w ++ ampersand :: encode_query (q :: ps)) in E' by (by rewrite <- !app_assoc).
    replace (length (before ++ w ++ [ampersand])) with (length before + length (encode_pair p) + 1)%nat
      in E' by (rewrite Hw, !length_app; simpl; lia).
    rewrite <- (app_assoc vs) in E'.
    exists ((before ++ w ++ [ampersand]) ++ tl), (v0 :: vs'). split; [exact E'|].
    split; [exists (w ++ [ampersand] ++ tl); by rewrite <- !app_assoc|].
    cbn [map]. rewrite Hvs'. f_equal. rewrite <- !app_assoc. cbn [app v0 fst snd].
    destruct (Hviews (ampersand :: tl)) as [H1 H2]. rewrite H1, H2. by destruct p.
Qed.

(** C39. Query round trip: for traits that escape the characters with a meaning in
    queries ([query_safe]: the default, the JavaScript-compatible and the form traits,
    not the relaxed ones), parsing the query built by escaping any list of keys and values
    gives exactly that list, although keys and values are decoded in place in one shared
    buffer.  Keys and values are UTF-8 text; where [char] is signed they are ASCII, since
    the escaped form of other octets cannot be read back there
    ([signed_char_breaks_escapes]). *)
Theorem query_roundtrip (ps : list (list byte * list byte)) :
  params_ok ps = true ->
  try_parse_query (encode_query ps) = inr (mk_params ps None).
Proof.
  intros Hu. unfold try_parse_query.
  assert (Hl : (length ps <= length (encode_query ps))%nat).
  { clear Hu. induction ps as [|p [|q ps] IH]; [done| |].
    - simpl. unfold encode_pair. rewrite length_app. simpl. lia.
    - cbn [encode_query] in *. rewrite length_app. cbn [length] in *. lia. }
  destruct (parse_loop_encoded ps (S (length (encode_query ps))) [] [] Hu ltac:(lia))
    as (buf & vs & E & _ & Hvs).
  cbn [app length] in E. rewrite E. by rewrite Hvs.
Qed.

End Roundtrip.

Lemma query_roundtrip_witness :
  @try_parse_query restinio_defaults (bs "a%26b=1&%C3%B8=")
  = inr (mk_params [(bs "a&b", bs "1"); (bs "ø", [])] None).
Proof.
  apply (query_roundtrip (T := restinio_defaults) (F := unsigned_char) (ltac:(vm_compute; reflexivity))
           [(bs "a&b", bs "1"); (bs "ø", [])]).
  vm_compute. reflexivity.
Defined.

(** The three traits are safe, the relaxed one is not. *)
Lemma traits_safety :
  @query_safe restinio_defaults = true /\ @query_safe javascript_compatible = true
  /\ @query_safe x_www_form_urlencoded = true /\ @query_safe relaxed = false.
Proof. vm_compute. done. Qed.

End Uri.
