(* ===== verification/Regex.v ===== *)
(** * Regular expressions

    The part of the standard library's [std::regex] (ECMAScript grammar, with
    and without [icase]) that the router uses: compilation of a pattern and
    backtracking search, with
    src/web/restinio/restinio/router/std_regex_engine.hpp on top.

    The semantics is that of the ECMAScript specification the C++ standard
    refers to: the list of all matches of an expression at a position, in the
    order in which backtracking tries them.  Back references, word boundaries,
    numeric escapes and named classes compile to [Unmodelled]. *)

From S2P Require Import Prelude.

Module Regex.

(** ** Characters *)

Definition between (lo hi c : byte) : bool := (u8 lo <=? u8 c) && (u8 c <=? u8 hi).
Definition lower (c : byte) : byte := if between "A" "Z" c then b8 (u8 c + 32) else c.
Definition upper (c : byte) : byte := if between "a" "z" c then b8 (u8 c - 32) else c.
Definition is_digit (c : byte) : bool := between "0" "9" c.
Definition is_word (c : byte) : bool :=
  is_digit c || between "a" "z" c || between "A" "Z" c || Byte.eqb "_" c.
Definition is_space (c : byte) : bool := Byte.eqb " " c || between x09 x0d c.

(** ** Expressions *)

Inductive citem :=
| Crange (lo hi : byte)
| Cdigit (neg : bool)
| Cspace (neg : bool)
| Cword (neg : bool).

Inductive re :=
| Eps
| Cls (neg : bool) (items : list citem)
| Bol
| Eol
| Seq (a b : re)
| Alt (a b : re)
| Rep (lo : nat) (hi : option nat) (greedy : bool) (r : re)
| Group (n : nat) (r : re)
| Look (neg : bool) (r : re).

Definition Chr (c : byte) : re := Cls false [Crange c c].

(** The capturing groups of an expression. *)
Fixpoint groups (r : re) : list nat :=
  match r with
  | Seq a b | Alt a b => groups a ++ groups b
  | Rep _ _ _ r | Look _ r => groups r
  | Group n r => n :: groups r
  | _ => []
  end.

(** ** Matching *)

Definition item_match (icase : bool) (c : byte) (i : citem) : bool :=
  match i with
  | Crange lo hi =>
      if icase then between lo hi (lower c) || between lo hi (upper c) else between lo hi c
  | Cdigit neg => xorb neg (is_digit c)
  | Cspace neg => xorb neg (is_space c)
  | Cword neg => xorb neg (is_word c)
  end.

Definition cls_match (icase neg : bool) (items : list citem) (c : byte) : bool :=
  xorb neg (existsb (item_match icase c) items).

(** A position in the subject, what follows it, and the captures so far, the
    newest first. *)
Record mstate := mk_state {
  mpos : nat;
  mrest : list byte;
  mcaps : list (nat * (nat * nat))
}.

Definition clear_caps (gs : list nat) (st : mstate) : mstate :=
  mk_state (mpos st) (mrest st) (filter (fun e => fst e ∉ gs) (mcaps st)).

Definition set_cap (n from : nat) (st : mstate) : mstate :=
  mk_state (mpos st) (mrest st) ((n, (from, mpos st)) :: mcaps st).

(** The iterations of a quantified expression whose matches are [m].  An
    iteration beyond the required ones has to consume something. *)
Fixpoint rep_loop (m : mstate -> list mstate) (greedy : bool) (fuel lo : nat)
  (hi : option nat) (st : mstate) : list mstate :=
  match fuel with
  | O => []
  | S fuel =>
      let more :=
        if bool_decide (hi = Some 0%nat) then []
        else flat_map (rep_loop m greedy fuel (pred lo) (pred <$> hi))
               (List.filter (fun st' => (0 <? lo)%nat || negb (mpos st' =? mpos st)%nat) (m st)) in
      let stop := if (lo =? 0)%nat then [st] else [] in
      if greedy then more ++ stop else stop ++ more
  end.

Fixpoint ms (icase : bool) (r : re) (st : mstate) : list mstate :=
  match r with
  | Eps => [st]
  | Cls neg items =>
      match mrest st with
      | c :: rest => if cls_match icase neg items c then [mk_state (S (mpos st)) rest (mcaps st)] else []
      | [] => []
      end
  | Bol => if (mpos st =? 0)%nat then [st] else []
  | Eol => match mrest st with [] => [st] | _ => [] end
  | Seq a b => flat_map (ms icase b) (ms icase a st)
  | Alt a b => ms icase a st ++ ms icase b st
  | Rep lo hi greedy r =>
      rep_loop (fun st => ms icase r (clear_caps (groups r) st)) greedy
        (lo + S (length (mrest st))) lo hi st
  | Group n r => map (set_cap n (mpos st)) (ms icase r st)
  | Look neg r =>
      match ms icase r st, neg with
      | st' :: _, false => [mk_state (mpos st) (mrest st) (mcaps st')]
      | [], true => [st]
      | _, _ => []
      end
  end.

(** [std::regex_search]: the leftmost position with a match, and there the
    first match; its begin, end and captures. *)
Fixpoint search (icase : bool) (r : re) (pos : nat) (s : list byte) : option (nat * mstate) :=
  match ms icase r (mk_state pos s []) with
  | st :: _ => Some (pos, st)
  | [] => match s with [] => None | _ :: s => search icase r (S pos) s end
  end.

(** The submatches by number. *)
Fixpoint capture (n : nat) (caps : list (nat * (nat * nat))) : option (nat * nat) :=
  match caps with
  | [] => None
  | (k, range) :: caps => if (k =? n)%nat then Some range else capture n caps
  end.

(** ** Compilation *)

Inductive comp (A : Type) :=
| Compiled (a : A)
| Regex_error
| Unmodelled
| Out_of_fuel.
Arguments Compiled {A} a.
Arguments Regex_error {A}.
Arguments Unmodelled {A}.
Arguments Out_of_fuel {A}.

Definition cbind {A B} (m : comp A) (k : A -> comp B) : comp B :=
  match m with
  | Compiled a => k a
  | Regex_error => Regex_error
  | Unmodelled => Unmodelled
  | Out_of_fuel => Out_of_fuel
  end.

Declare Scope comp_scope.
Delimit Scope comp_scope with comp.
Notation "'let*' p := m 'in' k" := (cbind m (fun x => match x with p => k end))
  (at level 10, p pattern, m at level 200, k at level 200) : comp_scope.
Open Scope comp_scope.

(** What is left of the input after the literal text [p]. *)
Fixpoint strip (p s : list byte) : option (list byte) :=
  match p, s with
  | [], _ => Some s
  | a :: p, b :: s => if Byte.eqb a b then strip p s else None
  | _ :: _, [] => None
  end.

Definition one_of (l : list byte) (c : byte) : bool := existsb (Byte.eqb c) l.

(** The character behind a backslash: a single character or a class.  The
    escapes with a letter or a digit that stand for something else are not
    modelled. *)
Definition escaped (c : byte) : comp citem :=
  if Byte.eqb c "d" then Compiled (Cdigit false)
  else if Byte.eqb c "D" then Compiled (Cdigit true)
  else if Byte.eqb c "s" then Compiled (Cspace false)
  else if Byte.eqb c "S" then Compiled (Cspace true)
  else if Byte.eqb c "w" then Compiled (Cword false)
  else if Byte.eqb c "W" then Compiled (Cword true)
  else if Byte.eqb c "f" then Compiled (Crange x0c x0c)
  else if Byte.eqb c "n" then Compiled (Crange x0a x0a)
  else if Byte.eqb c "r" then Compiled (Crange x0d x0d)
  else if Byte.eqb c "t" then Compiled (Crange x09 x09)
  else if Byte.eqb c "v" then Compiled (Crange x0b x0b)
  else if is_digit c || one_of (bs "bBcxu") c then Unmodelled
  else Compiled (Crange c c).

(** A member of a bracket expression. *)
Definition class_atom (s : list byte) : comp (citem * list byte) :=
  match s with
  | [] => Regex_error
  | c :: s =>
      if Byte.eqb c "\" then
        match s with
        | [] => Regex_error
        | e :: s => let* i := escaped e in Compiled (i, s)
        end
      else if Byte.eqb c "[" && match s with d :: _ => one_of (bs ":.=") d | [] => false end
      then Unmodelled
      else Compiled (Crange c c, s)
  end.

Definition make_range (a b : citem) : comp citem :=
  match a, b with
  | Crange lo _, Crange hi _ => if u8 lo <=? u8 hi then Compiled (Crange lo hi) else Regex_error
  | _, _ => Regex_error
  end.

(** A bracket expression, behind its opening. *)
Fixpoint parse_class (fuel : nat) (s : list byte) : comp (list citem * list byte) :=
  match fuel with
  | O => Out_of_fuel
  | S fuel =>
      match strip (bs "]") s with
      | Some s => Compiled ([], s)
      | None =>
          let* (a, s) := class_atom s in
          let* (i, s) :=
            match strip (bs "-") s with
            | Some ((c :: _) as s') =>
                if Byte.eqb c "]" then Compiled (a, s)
                else let* (b, s) := class_atom s' in let* i := make_range a b in Compiled (i, s)
            | _ => Compiled (a, s)
            end in
          let* (items, s) := parse_class fuel s in
          Compiled (i :: items, s)
      end
  end.

(** Decimal digits of a repetition count. *)
Fixpoint parse_count (acc : option nat) (s : list byte) : option nat * list byte :=
  match s with
  | c :: s' =>
      if is_digit c
      then parse_count (Some (10 * default 0%nat acc + Z.to_nat (u8 c - u8 "0"))%nat) s'
      else (acc, s)
  | [] => (acc, s)
  end.

Definition parse_interval (s : list byte) : comp (nat * option nat * list byte) :=
  match parse_count None s with
  | (Some lo, s) =>
      match strip (bs "}") s with
      | Some s => Compiled (lo, Some lo, s)
      | None =>
          match strip (bs ",") s with
          | Some s =>
              let '(hi, s) := parse_count None s in
              match strip (bs "}") s with
              | Some s =>
                  if match hi with Some hi => (hi <? lo)%nat | None => false end
                  then Regex_error else Compiled (lo, hi, s)
              | None => Regex_error
              end
          | None => Regex_error
          end
      end
  | (None, _) => Regex_error
  end.

(** An optional quantifier behind an atom. *)
Definition quantify (r : re) (s : list byte) : comp (re * list byte) :=
  let lazy (lo : nat) (hi : option nat) (s : list byte) :=
    match strip (bs "?") s with
    | Some s => Compiled (Rep lo hi false r, s)
    | None => Compiled (Rep lo hi true r, s)
    end in
  match s with
  | [] => Compiled (r, s)
  | c :: s' =>
      if Byte.eqb c "*" then lazy 0%nat None s'
      else if Byte.eqb c "+" then lazy 1%nat None s'
      else if Byte.eqb c "?" then lazy 0%nat (Some 1%nat) s'
      else if Byte.eqb c "{" then
        let* (lo, hi, s) := parse_interval s' in lazy lo hi s
      else Compiled (r, s)
  end.

(** An atom that contains no other expression. *)
Definition parse_atom (c : byte) (s : list byte) : comp (re * list byte) :=
  if Byte.eqb c "." then Compiled (Cls true [Crange x0a x0a; Crange x0d x0d], s)
  else if Byte.eqb c "\" then
    match s with
    | [] => Regex_error
    | e :: s => let* i := escaped e in Compiled (Cls false [i], s)
    end
  else if Byte.eqb c "[" then
    let '(neg, s) := match strip (bs "^") s with Some s => (true, s) | None => (false, s) end in
    let* (items, s) := parse_class (S (length s)) s in
    Compiled (Cls neg items, s)
  else if one_of (bs "*+?{") c then Regex_error
  else Compiled (Chr c, s).

Definition close (s : list byte) : comp (list byte) :=
  match strip (bs ")") s with Some s => Compiled s | None => Regex_error end.

(** Recursive descent; [n] is the number of capturing groups opened so far. *)
Fixpoint parse_disj (fuel n : nat) (s : list byte) : comp (re * nat * list byte) :=
  match fuel with
  | O => Out_of_fuel
  | S fuel =>
      let* (a, n, s) := parse_alt fuel n s in
      match strip (bs "|") s with
      | Some s => let* (b, n, s) := parse_disj fuel n s in Compiled (Alt a b, n, s)
      | None => Compiled (a, n, s)
      end
  end
with parse_alt (fuel n : nat) (s : list byte) : comp (re * nat * list byte) :=
  match fuel with
  | O => Out_of_fuel
  | S fuel =>
      match s with
      | [] => Compiled (Eps, n, s)
      | c :: _ =>
          if one_of (bs "|)") c then Compiled (Eps, n, s)
          else
            let* (t, n, s) := parse_term fuel n s in
            let* (r, n, s) := parse_alt fuel n s in
            Compiled (Seq t r, n, s)
      end
  end
with parse_term (fuel n : nat) (s : list byte) : comp (re * nat * list byte) :=
  match fuel with
  | O => Out_of_fuel
  | S fuel =>
      match s with
      | [] => Regex_error
      | c :: s' =>
          if Byte.eqb c "^" then Compiled (Bol, n, s')
          else if Byte.eqb c "$" then Compiled (Eol, n, s')
          else if Byte.eqb c "(" then
            match strip (bs "?=") s', strip (bs "?!") s', strip (bs "?:") s', strip (bs "?") s' with
            | Some s, _, _, _ =>
                let* (r, n, s) := parse_disj fuel n s in
                let* s := close s in Compiled (Look false r, n, s)
            | _, Some s, _, _ =>
                let* (r, n, s) := parse_disj fuel n s in
                let* s := close s in Compiled (Look true r, n, s)
            | _, _, Some s, _ =>
                let* (r, n, s) := parse_disj fuel n s in
                let* s := close s in
                let* (r, s) := quantify r s in Compiled (r, n, s)
            | _, _, _, Some _ => Regex_error
            | _, _, _, None =>
                let* (r, n', s) := parse_disj fuel (S n) s' in
                let* s := close s in
                let* (r, s) := quantify (Group (S n) r) s in Compiled (r, n', s)
            end
          else
            let* (r, s) := parse_atom c s' in
            let* (r, s) := quantify r s in Compiled (r, n, s)
      end
  end.

(** A pattern with the number of its capturing groups.  A closing bracket
    that closes nothing is an error. *)
Definition parse_regex (pattern : list byte) : comp (re * nat) :=
  let* (r, n, s) := parse_disj (3 + 3 * length pattern) 0 pattern in
  match s with [] => Compiled (r, n) | _ => Regex_error end.

(** ** Where matches lie *)

(** A state of a run on the subject [s]. *)
Definition on (s : list byte) (st : mstate) : Prop :=
  (mpos st <= length s)%nat /\ mrest st = drop (mpos st) s
  /\ Forall (fun e => fst (snd e) <= snd (snd e) <= length s)%nat (mcaps st).

(** [st'] is reached from [st] without leaving the subject or going back. *)
Definition ahead (s : list byte) (st st' : mstate) : Prop :=
  on s st -> on s st' /\ (mpos st <= mpos st')%nat.

#[global] Instance ahead_preorder s : PreOrder (ahead s).
Proof.
  split; [by intros st H|]. intros a b c Hab Hbc Ha.
  destruct (Hab Ha) as [Hb ?], (Hbc Hb) as [Hc ?]. split; [done|lia].
Qed.

Lemma rep_loop_rel (R : mstate -> mstate -> Prop) `{!PreOrder R} m greedy :
  (forall st st', In st' (m st) -> R st st') ->
  forall fuel lo hi st st', In st' (rep_loop m greedy fuel lo hi st) -> R st st'.
Proof.
  intros Hm. induction fuel as [|fuel IH]; intros lo hi st st'; [done|]. simpl.
  assert (Hmore : In st' (if bool_decide (hi = Some 0%nat) then [] else
      flat_map (rep_loop m greedy fuel (pred lo) (pred <$> hi))
        (List.filter (fun st' => (0 <? lo)%nat || negb (mpos st' =? mpos st)%nat) (m st))) -> R st st').
  { case_bool_decide; [done|]. rewrite in_flat_map. intros (x & [Hx _]%filter_In & H').
    etrans; [by apply Hm|]. by eapply IH. }
  assert (Hstop : In st' (if (lo =? 0)%nat then [st] else []) -> R st st').
  { destruct (lo =? 0)%nat; [|done]. by intros [->|[]]. }
  destruct greedy; rewrite in_app_iff; tauto.
Qed.

Lemma drop_cons_inv {A} n (s : list A) c rest :
  c :: rest = drop n s -> rest = drop (S n) s /\ (S n <= length s)%nat.
Proof.
  intros H. assert (Hl : (length (drop n s) = S (length rest))%nat) by by rewrite <- H.
  rewrite length_drop in Hl. split; [|lia].
  rewrite <- Nat.add_1_r, <- drop_drop, <- H. done.
Qed.

Lemma clear_caps_ahead s gs st : ahead s st (clear_caps gs st).
Proof.
  intros (H1 & H2 & H3). repeat split; try done. simpl.
  apply Forall_forall. intros x Hx.
  apply list_elem_of_In, list_elem_of_filter in Hx as [_ Hx].
  rewrite Forall_forall in H3. by apply H3, list_elem_of_In.
Qed.

Lemma ms_ahead s icase r : forall st st', In st' (ms icase r st) -> ahead s st st'.
Proof.
  induction r as [|neg items| | |a IHa b IHb|a IHa b IHb|lo hi greedy r IH|n r IH|neg r IH];
    intros st st'; simpl.
  - by intros [->|[]].
  - destruct (mrest st) as [|c rest] eqn:E; [done|]. destruct (cls_match _ _ _ _); [|done].
    intros [<-|[]] (H1 & H2 & H3). rewrite E in H2. apply drop_cons_inv in H2 as [-> ?].
    repeat split; simpl; try done. lia.
  - destruct (mpos st =? 0)%nat; [|done]. by intros [->|[]].
  - destruct (mrest st); [|done]. by intros [->|[]].
  - rewrite in_flat_map. intros (x & Hx & H'). etrans; [by apply IHa|by apply IHb].
  - rewrite in_app_iff. intros [H'|H']; auto.
  - apply (rep_loop_rel (ahead s)). intros x y H'. etrans; [apply clear_caps_ahead|by apply IH].
  - rewrite in_map_iff. intros (x & <- & Hx) Hon. destruct (IH _ _ Hx Hon) as [(H1 & H2 & H3) Hle].
    repeat split; try done. simpl. by constructor.
  - destruct (ms icase r st) as [|x l] eqn:E, neg; try done.
    + by intros [->|[]].
    + intros [<-|[]] Hon. destruct (IH st x) as [(H1 & H2 & H3) Hle]; [by rewrite E; left|done|].
      destruct Hon as (? & ? & ?). by repeat split.
Qed.

Lemma search_on s icase r rest : forall pos start st,
  (pos <= length s)%nat -> rest = drop pos s -> search icase r pos rest = Some (start, st) ->
  (pos <= start <= mpos st)%nat /\ on s st.
Proof.
  induction rest as [|c rest IH]; intros pos start st Hp Hr; simpl;
    destruct (ms icase r (mk_state pos _ [])) as [|x l] eqn:E; try done.
  1, 3: intros [= <- <-]; destruct (ms_ahead s icase r _ x ltac:(rewrite E; by left));
    [by repeat split|split; [simpl in *; lia|done]].
  apply drop_cons_inv in Hr as [-> ?]. intros H'. destruct (IH (S pos) start st); try done. split; [lia|done].
Qed.

Lemma capture_ok (P : nat * nat -> Prop) caps n range :
  Forall (fun e => P (snd e)) caps -> capture n caps = Some range -> P range.
Proof.
  induction 1 as [|[k x] caps Hx _ IH]; simpl; [done|]. destruct (k =? n)%nat; [|done].
  by intros [= <-].
Qed.

End Regex.

(** ** Regex engines

    The template parameter [Regex_Engine] of the router: what the router calls
    and what it relies on, that every reported range lies in the subject. *)

Class RegexEngine := {
  compiled_regex : Type;
  max_capture_groups : Z;
  engine_compile : list byte -> bool -> Regex.comp compiled_regex;
  engine_try_match : list byte -> compiled_regex -> option (list (nat * nat));
  engine_ranges : forall target r l, engine_try_match target r = Some l ->
    l <> [] /\ Forall (fun m => fst m <= snd m <= length target)%nat l
}.

(** ** [std_regex_engine_t] *)

Module StdRegexEngine.
Import Regex.
Open Scope comp_scope.

Record compiled_regex_t := mk_regex {
  re_icase : bool;
  re_expr : re;
  re_groups : nat
}.

Definition compile_regex (r : list byte) (is_case_sensative : bool) : comp compiled_regex_t :=
  let* (e, n) := parse_regex r in
  Compiled (mk_regex (negb is_case_sensative) e n).

(** The ranges of the whole match and of every group; a group that did not
    take part is the empty range at the end of the subject. *)
Definition try_match (target_path : list byte) (r : compiled_regex_t) : option (list (nat * nat)) :=
  match search (re_icase r) (re_expr r) 0 target_path with
  | Some (start, st) =>
      Some ((start, mpos st)
            :: map (fun n => default (length target_path, length target_path) (capture n (mcaps st)))
                 (seq 1 (re_groups r)))
  | None => None
  end.

(** Every reported range lies in the subject. *)
Lemma try_match_ranges target r l :
  try_match target r = Some l ->
  l <> [] /\ Forall (fun m => fst m <= snd m <= length target)%nat l.
Proof.
  unfold try_match. destruct (search _ _ _ _) as [[start st]|] eqn:E; [|done].
  apply (search_on target) in E as [Hp (H1 & _ & H3)]; [|lia|done].
  intros [= <-]. split; [done|]. constructor; [simpl; lia|].
  apply Forall_map, Forall_forall. intros n _. simpl.
  destruct (capture n (mcaps st)) as [range|] eqn:E; simpl; [|lia].
  by apply (capture_ok (fun r => fst r <= snd r <= length target)%nat) in E.
Qed.

#[global] Instance std_regex_engine : RegexEngine := {
  max_capture_groups := 2 ^ 64 - 1;
  engine_compile := compile_regex;
  engine_try_match := try_match;
  engine_ranges := try_match_ranges
}.

End StdRegexEngine.
