(* ===== verification/RegexTheory.v ===== *)
(** * What expressions match, and how patterns compile

    The backtracking matcher of [Regex] finds exactly the words of the language
    of an expression, and the pattern compiler is compositional: a pattern
    compiles the same way inside a group and whatever the number of groups
    before it. *)

From S2P Require Import Prelude Regex.

Module RegexTheory.
Import Regex.

(** ** Languages *)

(** Expressions without groups and assertions. *)
Fixpoint pure (r : re) : bool :=
  match r with
  | Eps | Cls _ _ => true
  | Seq a b | Alt a b => pure a && pure b
  | Rep _ _ _ r => pure r
  | Bol | Eol | Group _ _ | Look _ _ => false
  end.

Definition at_most (hi : option nat) (n : nat) : Prop :=
  match hi with Some m => (n <= m)%nat | None => True end.

Fixpoint lang (icase : bool) (r : re) (w : list byte) : Prop :=
  match r with
  | Eps => w = []
  | Cls neg items => exists c, w = [c] /\ cls_match icase neg items c = true
  | Seq a b => exists u v, w = u ++ v /\ lang icase a u /\ lang icase b v
  | Alt a b => lang icase a w \/ lang icase b w
  | Rep lo hi _ r =>
      exists ws, w = concat ws /\ (lo <= length ws)%nat /\ at_most hi (length ws)
                 /\ Forall (lang icase r) ws
  | Bol | Eol | Group _ _ | Look _ _ => False
  end.

(** The state after consuming [w]. *)
Definition advance (w rest : list byte) (st : mstate) : mstate :=
  mk_state (mpos st + length w) rest (mcaps st).

Lemma advance_advance u v rest rest' st :
  advance v rest (advance u rest' st) = advance (u ++ v) rest st.
Proof. unfold advance. simpl. by rewrite length_app, Nat.add_assoc. Qed.

Lemma advance_nil st : advance [] (mrest st) st = st.
Proof. unfold advance. rewrite Nat.add_0_r. by destruct st. Qed.

(** The matches [m] of a state are exactly those of the language [L]. *)
Definition finds (m : mstate -> list mstate) (L : list byte -> Prop) : Prop :=
  forall st st', In st' (m st) <->
    exists w rest, mrest st = w ++ rest /\ L w /\ st' = advance w rest st.

Lemma rep_loop_sound m L greedy fuel : finds m L -> forall lo hi st st',
  In st' (rep_loop m greedy fuel lo hi st) ->
  exists ws rest, mrest st = concat ws ++ rest /\ (lo <= length ws)%nat /\ at_most hi (length ws)
    /\ Forall L ws /\ st' = advance (concat ws) rest st.
Proof.
  intros Hm. induction fuel as [|fuel IH]; intros lo hi st st'; [done|]. simpl. intros Hin.
  assert (Hcase : In st' (if (lo =? 0)%nat then [st] else []) \/
    In st' (if bool_decide (hi = Some 0%nat) then [] else
      flat_map (rep_loop m greedy fuel (pred lo) (pred <$> hi))
        (List.filter (fun st' => (0 <? lo)%nat || negb (mpos st' =? mpos st)%nat) (m st)))).
  { destruct greedy; apply in_app_iff in Hin; tauto. }
  clear Hin. destruct Hcase as [H|H].
  - destruct (Nat.eqb_spec lo 0) as [->|]; [|done]. destruct H as [<-|[]].
    exists [], (mrest st). simpl. rewrite advance_nil. repeat split; [lia| |constructor].
    destruct hi; simpl; lia || done.
  - case_bool_decide as Hhi; [done|]. apply in_flat_map in H as (x & [Hx _]%filter_In & H).
    apply Hm in Hx as (w & rest & E & Hw & ->).
    apply IH in H as (ws & rest' & E' & Hlo & Hh & Hws & ->).
    exists (w :: ws), rest'. simpl in *. rewrite advance_advance, E, E', app_assoc.
    repeat split; [lia| |by constructor].
    destruct hi as [[|hi]|]; simpl in *; try done; lia.
Qed.

Lemma rep_loop_complete m L greedy : finds m L -> forall ws fuel lo hi st rest,
  (lo + S (length (mrest st)) <= fuel)%nat -> mrest st = concat ws ++ rest ->
  (lo <= length ws)%nat -> at_most hi (length ws) -> Forall L ws ->
  In (advance (concat ws) rest st) (rep_loop m greedy fuel lo hi st).
Proof.
  intros Hm. induction ws as [|w ws IH]; intros fuel lo hi st rest Hf E Hlo Hhi Hws;
    (destruct fuel as [|fuel]; [lia|]).
  - simpl in *. rewrite <- E, advance_nil. replace lo with 0%nat by lia. simpl.
    destruct greedy; [apply in_app_iff; right|]; by left.
  - apply Forall_cons_iff in Hws as [Hw Hws].
    destruct (decide (lo = 0%nat /\ w = [])) as [[-> ->]|Hne].
    { apply (IH (S fuel) 0%nat hi st rest); try done; simpl; [lia|].
      destruct hi; simpl in *; lia || done. }
    cbn [rep_loop]. simpl in Hhi, E, Hlo.
    assert (Hmore : In (advance (concat (w :: ws)) rest st)
      (if bool_decide (hi = Some 0%nat) then [] else
        flat_map (rep_loop m greedy fuel (pred lo) (pred <$> hi))
          (List.filter (fun st' => (0 <? lo)%nat || negb (mpos st' =? mpos st)%nat) (m st)))).
    { case_bool_decide as H0; [subst; simpl in Hhi; lia|]. apply in_flat_map.
      exists (advance w (concat ws ++ rest) st). split.
      - apply filter_In. split; [apply Hm; eexists w, _; by rewrite app_assoc|].
        destruct (Nat.ltb_spec 0 lo); [done|]. simpl. apply negb_true_iff, Nat.eqb_neq.
        destruct w; [naive_solver lia|simpl; lia].
      - simpl. rewrite <- (advance_advance w (concat ws) rest (concat ws ++ rest)).
        apply IH; try done; simpl.
        + rewrite E, <- app_assoc, length_app in Hf. destruct w; [|simpl in Hf; lia].
          assert (lo <> 0%nat) by naive_solver. simpl in Hf. lia.
        + lia.
        + destruct hi; simpl in *; lia || done. }
    destruct greedy; apply in_app_iff; tauto.
Qed.

Lemma clear_caps_nil st : clear_caps [] st = st.
Proof.
  destruct st as [p r c]. unfold clear_caps. simpl. f_equal.
  induction c as [|e c IH]; [done|]. rewrite filter_cons_True, IH; [done|]. apply not_elem_of_nil.
Qed.

Lemma pure_groups r : pure r = true -> groups r = [].
Proof.
  induction r as [|neg items| | |a IHa b IHb|a IHa b IHb|lo hi greedy r IH|n r IH|neg r IH]; simpl;
    try done.
  1, 2: intros [Ha Hb]%andb_prop; by rewrite IHa, IHb.
Qed.

(** The matcher finds exactly the words of the language, wherever it starts. *)
Lemma ms_lang icase r : pure r = true -> finds (ms icase r) (lang icase r).
Proof.
  induction r as [|neg items| | |a IHa b IHb|a IHa b IHb|lo hi greedy r IH|n r IH|neg r IH];
    simpl; try done.
  - intros _ st st'. split.
    + intros [<-|[]]. exists [], (mrest st). by rewrite advance_nil.
    + intros (w & rest & E & -> & ->). simpl in E. rewrite <- E, advance_nil. by left.
  - intros _ st st'. split.
    + destruct (mrest st) as [|c rest]; [done|]. destruct (cls_match _ _ _ _) eqn:E; [|done].
      intros [<-|[]]. exists [c], rest. split; [done|]. split; [by exists c|].
      unfold advance. simpl. f_equal. lia.
    + intros (w & rest & E & (c & -> & Hc) & ->). simpl in E. rewrite E, Hc. left.
      unfold advance. simpl. f_equal. lia.
  - intros [Ha Hb]%andb_prop st st'. rewrite in_flat_map. split.
    + intros (x & Hx & H). apply (IHa Ha) in Hx as (u & rest & E & Hu & ->).
      apply (IHb Hb) in H as (v & rest' & E' & Hv & ->). simpl in E'. subst rest.
      exists (u ++ v), rest'. rewrite advance_advance, <- app_assoc. naive_solver.
    + intros (w & rest & E & (u & v & -> & Hu & Hv) & ->). rewrite <- app_assoc in E.
      exists (advance u (v ++ rest) st). split; [apply (IHa Ha); naive_solver|].
      apply (IHb Hb). exists v, rest. by rewrite advance_advance.
  - intros [Ha Hb]%andb_prop st st'. rewrite in_app_iff, (IHa Ha st st'), (IHb Hb st st').
    naive_solver.
  - intros Hp st st'. rewrite pure_groups by done.
    assert (Hm : finds (fun st => ms icase r (clear_caps [] st)) (lang icase r)).
    { intros x y. rewrite clear_caps_nil. apply (IH Hp). }
    split.
    + intros H. apply (rep_loop_sound _ _ _ _ Hm) in H as (ws & rest & ? & ? & ? & ? & ->).
      naive_solver.
    + intros (w & rest & E & (ws & -> & Hlo & Hhi & Hws) & ->).
      by apply (rep_loop_complete _ _ _ Hm).
Qed.

(** What is matched is consumed. *)
Definition consumed (st st' : mstate) : Prop :=
  exists w, mrest st = w ++ mrest st' /\ mpos st' = (mpos st + length w)%nat.

#[global] Instance consumed_preorder : PreOrder consumed.
Proof.
  split.
  - intros st. exists []. by rewrite Nat.add_0_r.
  - intros a b c (u & Hu & Eu) (v & Hv & Ev). exists (u ++ v).
    rewrite <- app_assoc, length_app, <- Hv. split; [done|lia].
Qed.

Lemma ms_consumes icase r : forall st st', In st' (ms icase r st) -> consumed st st'.
Proof.
  induction r as [|neg items| | |a IHa b IHb|a IHa b IHb|lo hi greedy r IH|n r IH|neg r IH];
    intros st st'; simpl.
  - by intros [->|[]].
  - destruct (mrest st) as [|c rest] eqn:E; [done|]. destruct (cls_match _ _ _ _); [|done].
    intros [<-|[]]. exists [c]. split; [done|]. simpl. lia.
  - destruct (mpos st =? 0)%nat; [|done]. by intros [->|[]].
  - destruct (mrest st); [|done]. by intros [->|[]].
  - rewrite in_flat_map. intros (x & Hx & H). etrans; eauto.
  - rewrite in_app_iff. intros [H|H]; auto.
  - apply rep_loop_rel; [apply _|]. intros x y H. exact (IH _ _ H).
  - rewrite in_map_iff. intros (x & <- & Hx). exact (IH _ _ Hx).
  - destruct (ms icase r st) as [|x l], neg; try done; (intros [<-|[]]; [exists []; simpl; by rewrite Nat.add_0_r]).
Qed.

(** ** Compilation never runs out of fuel *)

Open Scope comp_scope.

Lemma cbind_inv {A B} (m : comp A) (k : A -> comp B) b :
  cbind m k = Compiled b -> exists a, m = Compiled a /\ k a = Compiled b.
Proof. destruct m; simpl; try done. eauto. Qed.

(** Takes a successful sequence of calls apart. *)
Ltac binds :=
  repeat match goal with
  | H : cbind _ _ = Compiled _ |- _ =>
      let x := fresh "x" in let E := fresh "E" in
      apply cbind_inv in H as (x & E & H)
  | H : (let '(_, _) := ?p in _) = Compiled _ |- _ => destruct p
  | H : match ?p with (_, _) => _ end = Compiled _ |- _ => destruct p
  | H : Compiled _ = Compiled _ |- _ => injection H as H; subst
  | H : Regex_error = Compiled _ |- _ => discriminate H
  | H : Unmodelled = Compiled _ |- _ => discriminate H
  | H : Out_of_fuel = Compiled _ |- _ => discriminate H
  end.

Lemma strip_length p s s' : strip p s = Some s' -> length s = (length p + length s')%nat.
Proof.
  revert s. induction p as [|a p IH]; intros [|b s]; simpl; try done; [by intros [= <-]..|].
  destruct (Byte.eqb a b); [|done]. intros H. by rewrite (IH _ H).
Qed.

Lemma class_atom_length s i s' : class_atom s = Compiled (i, s') -> (length s' < length s)%nat.
Proof.
  unfold class_atom. destruct s as [|c s]; [done|]. destruct (Byte.eqb c _).
  - destruct s as [|e s]; [done|]. intros H. binds. simpl. lia.
  - destruct (_ && _); [done|]. intros H. binds. simpl. lia.
Qed.

(** The choice between a range and a single member, shared by the lemmas on
    bracket expressions. *)
Definition class_item (a : citem) (s : list byte) : comp (citem * list byte) :=
  match strip (bs "-") s with
  | Some ((c :: _) as s') =>
      if Byte.eqb c "]" then Compiled (a, s)
      else let* (b, s) := class_atom s' in let* i := make_range a b in Compiled (i, s)
  | _ => Compiled (a, s)
  end.

Lemma parse_class_S fuel s :
  parse_class (S fuel) s =
  match strip (bs "]") s with
  | Some s => Compiled ([], s)
  | None =>
      let* (a, s) := class_atom s in
      let* (i, s) := class_item a s in
      let* (items, s) := parse_class fuel s in
      Compiled (i :: items, s)
  end.
Proof. reflexivity. Qed.

Lemma class_item_length a s i s' : class_item a s = Compiled (i, s') -> (length s' <= length s)%nat.
Proof.
  unfold class_item. destruct (strip _ s) as [[|c t]|] eqn:E; intros H; binds; try lia.
  destruct (Byte.eqb c _); binds; [lia|]. apply strip_length in E. simpl in E.
  match goal with H : class_atom _ = _ |- _ => apply class_atom_length in H; simpl in H end. lia.
Qed.

Lemma parse_class_length fuel : forall s items s',
  parse_class fuel s = Compiled (items, s') -> (length s' < length s)%nat.
Proof.
  induction fuel as [|fuel IH]; intros s items s' H; [done|]. rewrite parse_class_S in H.
  destruct (strip _ s) as [t|] eqn:E; binds.
  - apply strip_length in E. simpl in E. lia.
  - repeat match goal with
    | H : class_atom _ = _ |- _ => apply class_atom_length in H
    | H : class_item _ _ = _ |- _ => apply class_item_length in H
    | H : parse_class _ _ = _ |- _ => apply IH in H
    end. lia.
Qed.

Lemma parse_count_length s : forall acc o s', parse_count acc s = (o, s') -> (length s' <= length s)%nat.
Proof.
  induction s as [|c s IH]; intros acc o s'; simpl; [by intros [= _ <-]|].
  destruct (is_digit c); [intros H; apply IH in H; lia|intros [= _ <-]; simpl; lia].
Qed.

Lemma parse_interval_length s lo hi s' :
  parse_interval s = Compiled (lo, hi, s') -> (length s' <= length s)%nat.
Proof.
  unfold parse_interval. destruct (parse_count None s) as [[lo'|] t] eqn:E; [|done].
  apply parse_count_length in E. destruct (strip _ t) as [u|] eqn:E1.
  { intros H. binds. apply strip_length in E1. lia. }
  destruct (strip _ t) as [u|] eqn:E2 in |- *; [|done]. apply strip_length in E2.
  destruct (parse_count None u) as [o v] eqn:E3. apply parse_count_length in E3.
  destruct (strip _ v) as [x|] eqn:E4; [|done]. apply strip_length in E4.
  destruct (match o with Some _ => _ | None => _ end); [done|]. intros H. binds. lia.
Qed.

Lemma quantify_length r s r' s' : quantify r s = Compiled (r', s') -> (length s' <= length s)%nat.
Proof.
  assert (Hlazy : forall lo hi t,
    match strip (bs "?") t with
    | Some s => Compiled (Rep lo hi false r, s) | None => Compiled (Rep lo hi true r, t) end
    = Compiled (r', s') -> (length s' <= length t)%nat).
  { intros lo hi t. destruct (strip _ t) as [u|] eqn:E; intros H; binds; [|lia].
    apply strip_length in E. lia. }
  unfold quantify. destruct s as [|c s]; [intros H; binds; lia|].
  do 3 (destruct (Byte.eqb c _); [intros H; apply Hlazy in H; simpl; lia|]).
  destruct (Byte.eqb c _); [|intros H; binds; simpl; lia].
  intros H. binds. apply Hlazy in H. apply parse_interval_length in E. simpl. lia.
Qed.

Lemma parse_atom_length c s r s' : parse_atom c s = Compiled (r, s') -> (length s' <= length s)%nat.
Proof.
  unfold parse_atom. destruct (Byte.eqb c _); [intros H; binds; lia|].
  destruct (Byte.eqb c _); [destruct s; intros H; binds; simpl; lia|].
  destruct (Byte.eqb c _).
  - destruct (strip _ s) as [t|] eqn:E; intros H; binds;
      match goal with H : parse_class _ _ = _ |- _ => apply parse_class_length in H end;
      [apply strip_length in E|]; lia.
  - destruct (one_of _ c); [done|]. intros H. binds. lia.
Qed.

Lemma close_length s s' : close s = Compiled s' -> (length s = S (length s'))%nat.
Proof.
  unfold close. destruct (strip _ s) eqn:E; intros H; binds. by apply strip_length in E.
Qed.

(** Case analysis on the opening of a group. *)
Ltac opening s :=
  let E1 := fresh "Eo" in let E2 := fresh "Eo" in let E3 := fresh "Eo" in let E4 := fresh "Eo" in
  destruct (strip (bs "?=") s) eqn:E1;
    [|destruct (strip (bs "?!") s) eqn:E2;
      [|destruct (strip (bs "?:") s) eqn:E3;
        [|destruct (strip (bs "?") s) eqn:E4]]].

Lemma parse_length fuel :
  (forall n s r n' s', parse_disj fuel n s = Compiled (r, n', s') -> (length s' <= length s)%nat)
  /\ (forall n s r n' s', parse_alt fuel n s = Compiled (r, n', s') -> (length s' <= length s)%nat)
  /\ (forall n s r n' s', parse_term fuel n s = Compiled (r, n', s') -> (length s' < length s)%nat).
Proof.
  induction fuel as [|fuel (IHd & IHa & IHt)]; [done|]. split; [|split]; intros n s r n' s' H.
  - cbn [parse_disj] in H. binds. apply IHa in E. destruct (strip _ _) eqn:E1; binds; [|lia].
    apply strip_length in E1. match goal with H : parse_disj _ _ _ = _ |- _ => apply IHd in H end. lia.
  - cbn [parse_alt] in H. destruct s as [|c s]; [binds; lia|]. destruct (one_of _ c); binds; [simpl; lia|].
    match goal with H : parse_alt _ _ _ = _ |- _ => apply IHa in H end.
    match goal with H : parse_term _ _ _ = _ |- _ => apply IHt in H end. lia.
  - cbn [parse_term] in H. destruct s as [|c s]; [done|].
    do 2 (destruct (Byte.eqb c _); [binds; simpl; lia|]).
    destruct (Byte.eqb c _); [opening s|]; binds;
      repeat match goal with
      | H : parse_disj _ _ _ = _ |- _ => apply IHd in H
      | H : close _ = _ |- _ => apply close_length in H
      | H : quantify _ _ = _ |- _ => apply quantify_length in H
      | H : parse_atom _ _ = _ |- _ => apply parse_atom_length in H
      | H : strip _ _ = Some _ |- _ => apply strip_length in H
      end; simpl; lia.
Qed.

Lemma cbind_no_oof {A B} (m : comp A) (k : A -> comp B) :
  m <> Out_of_fuel -> (forall a, m = Compiled a -> k a <> Out_of_fuel) -> cbind m k <> Out_of_fuel.
Proof. destruct m; simpl; try done. auto. Qed.

Lemma escaped_no_oof c : escaped c <> Out_of_fuel.
Proof. unfold escaped. by repeat case_match. Qed.

Lemma class_atom_no_oof s : class_atom s <> Out_of_fuel.
Proof.
  unfold class_atom. repeat case_match; try done. apply cbind_no_oof; [apply escaped_no_oof|done].
Qed.

Lemma class_item_no_oof a s : class_item a s <> Out_of_fuel.
Proof.
  unfold class_item. repeat case_match; try done. apply cbind_no_oof; [apply class_atom_no_oof|].
  intros [? ?] _. apply cbind_no_oof; [|done]. unfold make_range. by repeat case_match.
Qed.

Lemma parse_class_no_oof fuel : forall s, (length s < fuel)%nat -> parse_class fuel s <> Out_of_fuel.
Proof.
  induction fuel as [|fuel IH]; intros s Hf; [lia|]. rewrite parse_class_S.
  destruct (strip _ s); [done|]. apply cbind_no_oof; [apply class_atom_no_oof|].
  intros [a t] E1. apply cbind_no_oof; [apply class_item_no_oof|].
  intros [i u] E2. apply cbind_no_oof; [|by intros [items v]].
  apply class_atom_length in E1. apply class_item_length in E2. apply IH. lia.
Qed.

Lemma quantify_no_oof r s : quantify r s <> Out_of_fuel.
Proof.
  unfold quantify. destruct s as [|c s]; [done|].
  do 3 (destruct (Byte.eqb c _); [by case_match|]). destruct (Byte.eqb c _); [|done].
  apply cbind_no_oof; [unfold parse_interval; by repeat case_match|].
  intros [[lo hi] t] _. by case_match.
Qed.

Lemma parse_atom_no_oof c s : parse_atom c s <> Out_of_fuel.
Proof.
  unfold parse_atom. destruct (Byte.eqb c _); [done|]. destruct (Byte.eqb c _).
  { destruct s; [done|]. apply cbind_no_oof; [apply escaped_no_oof|done]. }
  destruct (Byte.eqb c _); [|by destruct (one_of _ c)].
  destruct (match strip _ s with Some _ => _ | None => _ end) as [neg t].
  apply cbind_no_oof; [apply parse_class_no_oof; lia|by intros [items u]].
Qed.

Lemma parse_no_oof fuel :
  (forall n s, (3 * length s + 3 <= fuel)%nat -> parse_disj fuel n s <> Out_of_fuel)
  /\ (forall n s, (3 * length s + 2 <= fuel)%nat -> parse_alt fuel n s <> Out_of_fuel)
  /\ (forall n s, (3 * length s + 1 <= fuel)%nat -> parse_term fuel n s <> Out_of_fuel).
Proof.
  induction fuel as [|fuel (IHd & IHa & IHt)]; [repeat split; intros; lia|].
  pose proof (parse_length fuel) as (Ld & La & Lt).
  split; [|split]; intros n s Hf.
  - cbn [parse_disj]. apply cbind_no_oof; [apply IHa; lia|]. intros [[a n1] s1] E.
    apply La in E. destruct (strip _ s1) as [s2|] eqn:E1; [|done].
    apply strip_length in E1. simpl in E1. apply cbind_no_oof; [apply IHd; lia|by intros [[]]].
  - cbn [parse_alt]. destruct s as [|c s]; [done|]. destruct (one_of _ c); [done|].
    apply cbind_no_oof; [apply IHt; lia|]. intros [[t n1] s1] E. apply Lt in E.
    apply cbind_no_oof; [apply IHa; lia|by intros [[]]].
  - cbn [parse_term]. destruct s as [|c s]; [done|]. do 2 (destruct (Byte.eqb c _); [done|]).
    simpl in Hf. destruct (Byte.eqb c _).
    + opening s; try done;
        repeat match goal with H : strip _ _ = Some _ |- _ => apply strip_length in H; simpl in H end;
        (apply cbind_no_oof; [apply IHd; lia|intros [[r n1] s1] _]);
        (apply cbind_no_oof; [unfold close; by case_match|intros s2 _]); try done;
        (apply cbind_no_oof; [apply quantify_no_oof|by intros []]).
    + apply cbind_no_oof; [apply parse_atom_no_oof|intros [r t] _].
      apply cbind_no_oof; [apply quantify_no_oof|by intros []].
Qed.

(** Compilation always has an answer. *)
Lemma parse_regex_total pattern : parse_regex pattern <> Out_of_fuel.
Proof.
  unfold parse_regex. apply cbind_no_oof; [apply parse_no_oof; lia|].
  intros [[r n] [|c s]] _; done.
Qed.

(** ** More fuel changes nothing *)

Lemma cbind_mono {A B} (m m' : comp A) (k k' : A -> comp B) :
  (m <> Out_of_fuel -> m' = m) ->
  (forall a, m = Compiled a -> k a <> Out_of_fuel -> k' a = k a) ->
  cbind m k <> Out_of_fuel -> cbind m' k' = cbind m k.
Proof. intros Hm Hk. destruct m; simpl in *; intros H; rewrite ?Hm by done; simpl; auto. Qed.

Lemma parse_mono1 fuel :
  (forall n s, parse_disj fuel n s <> Out_of_fuel -> parse_disj (S fuel) n s = parse_disj fuel n s)
  /\ (forall n s, parse_alt fuel n s <> Out_of_fuel -> parse_alt (S fuel) n s = parse_alt fuel n s)
  /\ (forall n s, parse_term fuel n s <> Out_of_fuel -> parse_term (S fuel) n s = parse_term fuel n s).
Proof.
  induction fuel as [|fuel (IHd & IHa & IHt)]; [done|]. split; [|split]; intros n s.
  - apply cbind_mono; [apply IHa|]. intros [[a n1] s1] _. destruct (strip _ s1); [|done].
    apply cbind_mono; [apply IHd|by intros [[]]].
  - cbn [parse_alt]. destruct s as [|c s]; [done|]. destruct (one_of _ c); [done|].
    apply cbind_mono; [apply IHt|]. intros [[t n1] s1] _. apply cbind_mono; [apply IHa|by intros [[]]].
  - cbn [parse_term]. destruct s as [|c s]; [done|]. do 2 (destruct (Byte.eqb c _); [done|]).
    destruct (Byte.eqb c _); [|done].
    opening s; try done; (apply cbind_mono; [apply IHd|by intros [[]]]).
Qed.

Lemma parse_disj_mono f f' n s :
  (f <= f')%nat -> parse_disj f n s <> Out_of_fuel -> parse_disj f' n s = parse_disj f n s.
Proof.
  induction 1 as [|f' _ IH]; [done|]. intros H. rewrite (proj1 (parse_mono1 f')), IH; rewrite ?IH; done.
Qed.

Lemma parse_alt_mono f f' n s :
  (f <= f')%nat -> parse_alt f n s <> Out_of_fuel -> parse_alt f' n s = parse_alt f n s.
Proof.
  induction 1 as [|f' _ IH]; [done|]. intros H.
  rewrite (proj1 (proj2 (parse_mono1 f'))), IH; rewrite ?IH; done.
Qed.

Lemma parse_term_mono f f' n s :
  (f <= f')%nat -> parse_term f n s <> Out_of_fuel -> parse_term f' n s = parse_term f n s.
Proof.
  induction 1 as [|f' _ IH]; [done|]. intros H.
  rewrite (proj2 (proj2 (parse_mono1 f'))), IH; rewrite ?IH; done.
Qed.

Lemma parse_class_mono fuel : forall fuel' s x, (fuel <= fuel')%nat ->
  parse_class fuel s = Compiled x -> parse_class fuel' s = Compiled x.
Proof.
  induction fuel as [|fuel IH]; intros fuel' s x Hf H; [done|]. destruct fuel' as [|fuel']; [lia|].
  rewrite parse_class_S in *. destruct (strip _ s); [done|]. binds.
  rewrite E. simpl. rewrite E0. simpl. by erewrite IH; [|lia|done].
Qed.

(** ** A pattern inside a group *)

(** What may follow: the bracket that closes the group, or nothing. *)
Definition closing (t : list byte) : Prop := t = [] \/ exists t', t = ")"%byte :: t'.

Lemma strip_frame p s t :
  closing t -> forallb (fun c => negb (Byte.eqb c ")")) p = true ->
  (forall s', strip p s = Some s' -> strip p (s ++ t) = Some (s' ++ t))
  /\ (strip p s = None -> strip p (s ++ t) = None).
Proof.
  intros Ht. revert s. induction p as [|a p IH]; intros [|b s] Hp; simpl in *; try (split; [|done]).
  1, 2: by intros s' [= <-].
  - split; [done|]. intros _. destruct Ht as [->|[t' ->]]; [done|].
    apply andb_prop in Hp as [Hp _]. by destruct (Byte.eqb a _).
  - apply andb_prop in Hp as [_ Hp]. destruct (Byte.eqb a b); [|done]. by apply IH.
Qed.

Lemma strip_frame_none p s t :
  closing t -> strip p s = None -> forallb (fun c => negb (Byte.eqb c ")")) p = true ->
  strip p (s ++ t) = None.
Proof. intros Ht Hs Hp. by apply strip_frame. Qed.

Lemma strip_app_some p s s' t : strip p s = Some s' -> strip p (s ++ t) = Some (s' ++ t).
Proof.
  revert s. induction p as [|a p IH]; intros [|b s]; simpl; try done; [by intros [= <-]..|].
  destruct (Byte.eqb a b); [|done]. apply IH.
Qed.

Lemma class_atom_frame s t i s' :
  class_atom s = Compiled (i, s') -> class_atom (s ++ t) = Compiled (i, s' ++ t) \/ s' = [].
Proof.
  unfold class_atom. destruct s as [|c s]; [done|]. simpl. destruct (Byte.eqb c "\").
  - destruct s as [|e s]; [done|]. intros H. binds. left. simpl. by rewrite E.
  - destruct s as [|d s]; simpl.
    + intros H. destruct (_ && _); binds. by right.
    + destruct (_ && _); intros H; binds. by left.
Qed.

Lemma class_item_frame a s t i s' :
  s <> [] -> class_item a s = Compiled (i, s') ->
  class_item a (s ++ t) = Compiled (i, s' ++ t) \/ s' = [] \/ s' = bs "-".
Proof.
  intros Hs. unfold class_item. destruct s as [|d s]; [done|].
  assert (Hstrip : forall u : list byte, strip (bs "-") (d :: u) = if Byte.eqb "-" d then Some u else None)
    by done.
  rewrite <- app_comm_cons, !Hstrip. destruct (Byte.eqb "-" d) eqn:Ed.
  - apply Byte.byte_dec_bl in Ed as <-. destruct s as [|c s]; cbn -[class_atom cbind].
    + intros H. binds. auto.
    + destruct (Byte.eqb c "]"); intros H; binds; [auto|].
      apply (class_atom_frame _ t) in E as [E| ->]; [|auto]. left.
      rewrite <- app_comm_cons in E. rewrite E. simpl. by rewrite E0.
  - intros H. binds. auto.
Qed.

Lemma parse_class_frame fuel t : forall s items s',
  parse_class fuel s = Compiled (items, s') -> parse_class fuel (s ++ t) = Compiled (items, s' ++ t).
Proof.
  induction fuel as [|fuel IH]; intros s items s' H; [done|].
  assert (Hnil : forall f x, parse_class f [] = Compiled x -> False) by by intros [].
  assert (Hdash : forall f x, parse_class f (bs "-") = Compiled x -> False) by by intros [|[]].
  rewrite parse_class_S in *. destruct (strip (bs "]") s) as [u|] eqn:Es.
  - binds. by rewrite (strip_app_some _ _ _ _ Es).
  - binds. assert (Es' : strip (bs "]") (s ++ t) = None).
    { destruct s as [|? s]; [done|]. simpl in *. by destruct (Byte.eqb _ _). }
    rewrite Es'.
    match goal with H : parse_class _ _ = _ |- _ => rename H into Ep end.
    match goal with H : class_item _ _ = _ |- _ => rename H into Ei end.
    destruct (class_atom_frame _ t _ _ E) as [-> | ->].
    2:{ unfold class_item in Ei. simpl in Ei. binds. by apply Hnil in Ep. }
    simpl. match type of Ei with class_item _ ?u = _ => destruct (decide (u = [])) as [->|Hu] end.
    { unfold class_item in Ei. simpl in Ei. binds. by apply Hnil in Ep. }
    destruct (class_item_frame _ _ t _ _ Hu Ei) as [-> | [->| ->]]; simpl.
    + by rewrite (IH _ _ _ Ep).
    + by apply Hnil in Ep.
    + by apply Hdash in Ep.
Qed.

Lemma parse_atom_frame c s t r s' :
  closing t -> parse_atom c s = Compiled (r, s') -> parse_atom c (s ++ t) = Compiled (r, s' ++ t).
Proof.
  intros Ht. unfold parse_atom. destruct (Byte.eqb c _); [intros H; by binds|].
  destruct (Byte.eqb c _).
  { destruct s as [|e s]; [done|]. simpl. intros H. binds. by rewrite E. }
  destruct (Byte.eqb c _); [|destruct (one_of _ c); [done|intros H; by binds]].
  destruct (strip (bs "^") s) as [u|] eqn:Es; intros H; binds.
  - rewrite (strip_app_some _ _ _ _ Es).
    apply (parse_class_mono _ (S (length (u ++ t)))), (parse_class_frame _ t) in E;
      [|rewrite length_app; lia]. by rewrite E.
  - rewrite (strip_frame_none _ _ _ Ht Es eq_refl).
    apply (parse_class_mono _ (S (length (s ++ t)))), (parse_class_frame _ t) in E;
      [|rewrite length_app; lia]. by rewrite E.
Qed.

Lemma parse_count_frame t : closing t -> forall s acc o s',
  parse_count acc s = (o, s') -> parse_count acc (s ++ t) = (o, s' ++ t).
Proof.
  intros Ht. induction s as [|c s IH]; intros acc o s'; simpl.
  - intros [= <- <-]. destruct Ht as [->|[t' ->]]; done.
  - destruct (is_digit c); [apply IH|]. by intros [= <- <-].
Qed.

Lemma parse_interval_frame s t lo hi s' :
  closing t -> parse_interval s = Compiled (lo, hi, s') ->
  parse_interval (s ++ t) = Compiled (lo, hi, s' ++ t).
Proof.
  intros Ht. unfold parse_interval. destruct (parse_count None s) as [[k|] u] eqn:E; [|done].
  rewrite (parse_count_frame _ Ht _ _ _ _ E).
  destruct (strip (bs "}") u) as [v|] eqn:E1.
  { intros H. binds. by rewrite (strip_app_some _ _ _ _ E1). }
  rewrite (strip_frame_none _ _ _ Ht E1 eq_refl).
  destruct (strip (bs ",") u) as [v|] eqn:E2; [|done]. rewrite (strip_app_some _ _ _ _ E2).
  destruct (parse_count None v) as [o x] eqn:E3. rewrite (parse_count_frame _ Ht _ _ _ _ E3).
  destruct (strip (bs "}") x) as [y|] eqn:E4; [|done]. rewrite (strip_app_some _ _ _ _ E4).
  destruct (match o with Some _ => _ | None => _ end); [done|]. intros H. by binds.
Qed.

Lemma quantify_frame r s t r' s' :
  closing t -> quantify r s = Compiled (r', s') -> quantify r (s ++ t) = Compiled (r', s' ++ t).
Proof.
  intros Ht.
  assert (Hlazy : forall lo hi u,
    match strip (bs "?") u with
    | Some s => Compiled (Rep lo hi false r, s) | None => Compiled (Rep lo hi true r, u) end
    = Compiled (r', s') ->
    match strip (bs "?") (u ++ t) with
    | Some s => Compiled (Rep lo hi false r, s) | None => Compiled (Rep lo hi true r, u ++ t) end
    = Compiled (r', s' ++ t)).
  { intros lo hi u. destruct (strip _ u) as [v|] eqn:E; intros H; binds.
    - by rewrite (strip_app_some _ _ _ _ E).
    - by rewrite (strip_frame_none _ _ _ Ht E eq_refl). }
  unfold quantify. destruct s as [|c s].
  { intros H. binds. destruct Ht as [->|[t' ->]]; done. }
  rewrite <- app_comm_cons.
  do 3 (destruct (Byte.eqb c _); [apply Hlazy|]).
  destruct (Byte.eqb c _); intros H; binds; [|done].
  erewrite parse_interval_frame by done. by apply Hlazy.
Qed.

(** A successful compilation stays so, with the same expression, in front of a
    closing bracket, and, when it opens no group, behind any number of
    groups. *)
Definition framed (parse : nat -> list byte -> comp (re * nat * list byte)) : Prop :=
  forall n s r n' s' t k,
    parse n s = Compiled (r, n', s') -> closing t -> k = n \/ n' = n ->
    parse k (s ++ t) = Compiled (r, (k + (n' - n))%nat, s' ++ t).

Lemma parse_grows fuel :
  (forall n s r n' s', parse_disj fuel n s = Compiled (r, n', s') -> (n <= n')%nat)
  /\ (forall n s r n' s', parse_alt fuel n s = Compiled (r, n', s') -> (n <= n')%nat)
  /\ (forall n s r n' s', parse_term fuel n s = Compiled (r, n', s') -> (n <= n')%nat).
Proof.
  induction fuel as [|fuel (IHd & IHa & IHt)]; [done|]. split; [|split]; intros n s r n' s' H.
  - cbn [parse_disj] in H. binds. apply IHa in E. destruct (strip _ _) eqn:E1; binds; [|lia].
    match goal with H : parse_disj _ _ _ = _ |- _ => apply IHd in H end. lia.
  - cbn [parse_alt] in H. destruct s as [|c s]; [binds; lia|]. destruct (one_of _ c); binds; [lia|].
    match goal with H : parse_alt _ _ _ = _ |- _ => apply IHa in H end.
    match goal with H : parse_term _ _ _ = _ |- _ => apply IHt in H end. lia.
  - cbn [parse_term] in H. destruct s as [|c s]; [done|].
    do 2 (destruct (Byte.eqb c _); [binds; simpl; lia|]).
    destruct (Byte.eqb c _); [opening s|]; binds;
      repeat match goal with H : parse_disj _ _ _ = _ |- _ => apply IHd in H end; simpl; lia.
Qed.

Lemma disj_framed fuel :
  framed (parse_disj fuel) -> framed (parse_alt fuel) -> framed (parse_disj (S fuel)).
Proof.
  intros IHd IHa n s r n' s' t k H Ht Hk. pose proof (parse_grows fuel) as (Gd & Ga & _).
  cbn [parse_disj] in *. binds.
  match goal with H : parse_alt _ _ _ = Compiled (_, ?m, _) |- _ =>
    rename H into E1; pose proof (Ga _ _ _ _ _ E1); rename m into n1 end.
  destruct (strip (bs "|") _) as [u|] eqn:Es; binds.
  + match goal with H : parse_disj _ _ _ = Compiled _ |- _ =>
      rename H into E2; pose proof (Gd _ _ _ _ _ E2) end.
    rewrite (IHa _ _ _ _ _ t k E1 Ht) by lia. cbn [cbind]. rewrite (strip_app_some _ _ _ _ Es).
    rewrite (IHd _ _ _ _ _ t (k + (n1 - n))%nat E2 Ht) by lia. cbn [cbind].
    by replace (k + (n1 - n) + (n' - n1))%nat with (k + (n' - n))%nat by lia.
  + rewrite (IHa _ _ _ _ _ t k E1 Ht Hk). cbn [cbind]. by rewrite (strip_frame_none _ _ _ Ht Es eq_refl).
Qed.

Lemma alt_framed fuel :
  framed (parse_alt fuel) -> framed (parse_term fuel) -> framed (parse_alt (S fuel)).
Proof.
  intros IHa IHt n s r n' s' t k H Ht Hk. pose proof (parse_grows fuel) as (_ & Ga & Gt).
  cbn [parse_alt] in *. destruct s as [|c s].
  + binds. rewrite Nat.sub_diag, Nat.add_0_r. destruct Ht as [->|[t' ->]]; done.
  + rewrite <- app_comm_cons. destruct (one_of _ c); binds; [by rewrite Nat.sub_diag, Nat.add_0_r|].
    match goal with H : parse_term _ _ _ = Compiled (_, ?m, _) |- _ =>
      rename H into E1; pose proof (Gt _ _ _ _ _ E1); rename m into n1 end.
    match goal with H : parse_alt _ _ _ = Compiled _ |- _ =>
      rename H into E2; pose proof (Ga _ _ _ _ _ E2) end.
    rewrite app_comm_cons, (IHt _ _ _ _ _ t k E1 Ht) by lia. cbn [cbind].
    rewrite (IHa _ _ _ _ _ t (k + (n1 - n))%nat E2 Ht) by lia. cbn [cbind].
    by replace (k + (n1 - n) + (n' - n1))%nat with (k + (n' - n))%nat by lia.
Qed.

Lemma term_framed fuel : framed (parse_disj fuel) -> framed (parse_term (S fuel)).
Proof.
  intros IHd n s r n' s' t k H Ht Hk. pose proof (parse_grows fuel) as (Gd & _ & _).
  cbn [parse_term] in *. destruct s as [|c s]; [done|]. rewrite <- app_comm_cons.
  do 2 (destruct (Byte.eqb c _); [binds; by rewrite Nat.sub_diag, Nat.add_0_r|]).
  destruct (Byte.eqb c _).
  + opening s; binds;
      repeat match goal with
      | H : strip _ s = Some _ |- _ => rewrite (strip_app_some _ _ _ t H); clear H
      | H : strip _ s = None |- _ => rewrite (strip_frame_none _ _ _ Ht H eq_refl); clear H
      | H : close ?u = Compiled _ |- _ =>
          unfold close in H; destruct (strip (bs ")") u) eqn:Ec; binds
      end;
      match goal with H : parse_disj _ _ _ = Compiled (_, ?m, _) |- _ => rename H into Ed end.
    1, 2: rewrite (IHd _ _ _ _ _ t k Ed Ht Hk); cbn [cbind]; unfold close;
      by rewrite (strip_app_some _ _ _ _ Ec).
    * rewrite (IHd _ _ _ _ _ t k Ed Ht Hk); cbn [cbind]; unfold close.
      rewrite (strip_app_some _ _ _ _ Ec). cbn [cbind]. by erewrite quantify_frame.
    * pose proof (Gd _ _ _ _ _ Ed).
      rewrite (IHd _ _ _ _ _ t (S k) Ed Ht) by lia. cbn [cbind]. unfold close.
      rewrite (strip_app_some _ _ _ _ Ec). cbn [cbind]. replace k with n by lia.
      erewrite quantify_frame by done. cbn [cbind].
      by replace (S n + (n' - S n))%nat with (n + (n' - n))%nat by lia.
  + binds. erewrite parse_atom_frame by done. cbn [cbind]. erewrite quantify_frame by done. cbn [cbind].
    by rewrite Nat.sub_diag, Nat.add_0_r.
Qed.

Lemma parse_framed fuel :
  framed (parse_disj fuel) /\ framed (parse_alt fuel) /\ framed (parse_term fuel).
Proof.
  induction fuel as [|fuel (IHd & IHa & IHt)]; [done|].
  split; [by apply disj_framed|]. split; [by apply alt_framed|by apply term_framed].
Qed.

(** ** Compilation as a relation

    The compiler without its fuel. *)

Definition parses_alt (n : nat) (s : list byte) (r : re) (n' : nat) (s' : list byte) : Prop :=
  exists fuel, parse_alt fuel n s = Compiled (r, n', s').
Definition parses_term (n : nat) (s : list byte) (r : re) (n' : nat) (s' : list byte) : Prop :=
  exists fuel, parse_term fuel n s = Compiled (r, n', s').
Definition parses_disj (n : nat) (s : list byte) (r : re) (n' : nat) (s' : list byte) : Prop :=
  exists fuel, parse_disj fuel n s = Compiled (r, n', s').

Lemma parses_regex s r n : parses_disj 0 s r n [] -> parse_regex s = Compiled (r, n).
Proof.
  intros [f Hf]. unfold parse_regex.
  assert (Hp : parse_disj (3 + 3 * length s) 0 s <> Out_of_fuel) by (apply parse_no_oof; lia).
  destruct (decide (f <= 3 + 3 * length s)%nat).
  - rewrite (parse_disj_mono f), Hf by (done || by rewrite Hf). done.
  - rewrite <- (parse_disj_mono (3 + 3 * length s) f) by (done || lia). by rewrite Hf.
Qed.

Lemma parse_regex_parses s r n : parse_regex s = Compiled (r, n) -> parses_disj 0 s r n [].
Proof.
  unfold parse_regex. intros H. binds. destruct l; binds. by eexists.
Qed.

(** A pattern without groups, inside a group. *)
Lemma parses_in_group p r k t :
  parse_regex p = Compiled (r, 0%nat) -> closing t -> parses_disj k (p ++ t) r k t.
Proof.
  intros [f Hf]%parse_regex_parses Ht. exists f.
  rewrite (proj1 (parse_framed f) _ _ _ _ _ t k Hf Ht) by auto. by rewrite Nat.sub_diag, Nat.add_0_r.
Qed.

Lemma parses_alt_end n t : closing t -> parses_alt n t Eps n t.
Proof. intros Ht. exists 1%nat. by destruct Ht as [->|[t' ->]]. Qed.

Lemma parses_alt_cons n s t n1 s1 r n2 s2 :
  (exists c s', s = c :: s' /\ one_of (bs "|)") c = false) ->
  parses_term n s t n1 s1 -> parses_alt n1 s1 r n2 s2 -> parses_alt n s (Seq t r) n2 s2.
Proof.
  intros (c & s' & -> & Hc) [f1 H1] [f2 H2]. exists (S (f1 + f2)). cbn [parse_alt]. rewrite Hc.
  rewrite (parse_term_mono f1), H1 by (lia || by rewrite H1). simpl.
  rewrite (parse_alt_mono f2), H2 by (lia || by rewrite H2). done.
Qed.

Lemma parses_disj_alt n s r n' s' : closing s' -> parses_alt n s r n' s' -> parses_disj n s r n' s'.
Proof.
  intros Hs [f H]. exists (S f). cbn [parse_disj]. rewrite H. cbn [cbind]. by destruct Hs as [->|[t ->]].
Qed.

(** ** Search *)

Import StdRegexEngine.

(** The leftmost factor of the subject in the language. *)
Lemma search_lang icase r : pure r = true -> forall s pos,
  match search icase r pos s with
  | Some (start, st) =>
      exists a w b, s = a ++ w ++ b /\ lang icase r w /\ start = (pos + length a)%nat
        /\ mpos st = (start + length w)%nat
        /\ forall a' w' b', s = a' ++ w' ++ b' -> lang icase r w' -> (length a <= length a')%nat
  | None => forall a w b, s = a ++ w ++ b -> ~ lang icase r w
  end.
Proof.
  intros Hp. pose proof (ms_lang icase r Hp) as Hm.
  assert (Hhere : forall s pos st l, ms icase r (mk_state pos s []) = st :: l ->
    exists w b, s = w ++ b /\ lang icase r w /\ mpos st = (pos + length w)%nat).
  { intros s pos st l E. destruct (proj1 (Hm (mk_state pos s []) st)) as (w & b & Hs & Hw & ->);
      [rewrite E; by left|]. by exists w, b. }
  assert (Hnone : forall s pos, ms icase r (mk_state pos s []) = [] -> forall w b, s = w ++ b -> ~ lang icase r w).
  { intros s pos E w b -> Hw. assert (Hin : In (advance w b (mk_state pos (w ++ b) [])) []); [|done].
    rewrite <- E. apply Hm. by exists w, b. }
  induction s as [|c s IH]; intros pos; cbn [search];
    destruct (ms icase r (mk_state pos _ [])) as [|st l] eqn:E.
  2, 4: destruct (Hhere _ _ _ _ E) as (w & b & -> & Hw & Hpos); exists [], w, b; simpl;
    split_and!; try done; try lia; intros; simpl; lia.
  - intros a w b Hs. symmetry in Hs. apply app_nil in Hs as [-> Hs].
    exact (Hnone _ _ E w b (eq_sym Hs)).
  - specialize (IH (S pos)). pose proof (Hnone _ _ E) as H0.
    destruct (search icase r (S pos) s) as [[start st]|].
    + destruct IH as (a & w & b & -> & Hw & Hst & Hpos & Hmin). exists (c :: a), w, b.
      split_and!; try done; [simpl; lia|]. intros [|c' a'] w' b' Hs Hw'; [by destruct (H0 w' b')|].
      injection Hs as <- Hs. simpl. specialize (Hmin a' w' b' Hs Hw'). lia.
    + intros [|c' a] w b Hs; [by apply H0 with b|]. injection Hs as <- Hs. by apply IH with a b.
Qed.

(** The engine is right about patterns without groups: [compile_regex]
    always comes to an answer, and [try_match] with a compiled pattern reports
    the leftmost factor of the target that belongs to the language of the
    pattern, and fails exactly when there is none. *)
Theorem try_match_finds_language (pattern : list byte) (cs : bool) (target : list byte) :
  match compile_regex pattern cs with
  | Compiled r =>
      pure (re_expr r) = true -> re_groups r = 0%nat ->
      match try_match target r with
      | Some l =>
          exists a w b, target = a ++ w ++ b /\ lang (negb cs) (re_expr r) w
            /\ l = [(length a, (length a + length w)%nat)]
            /\ forall a' w' b', target = a' ++ w' ++ b' -> lang (negb cs) (re_expr r) w' ->
                 (length a <= length a')%nat
      | None => forall a w b, target = a ++ w ++ b -> ~ lang (negb cs) (re_expr r) w
      end
  | Regex_error | Unmodelled => True
  | Out_of_fuel => False
  end.
Proof.
  unfold compile_regex. pose proof (parse_regex_total pattern) as Ht.
  destruct (parse_regex pattern) as [[e n]| | |]; try done. cbn [cbind re_expr re_groups]. intros Hp ->.
  unfold try_match. cbn [re_icase re_expr re_groups].
  pose proof (search_lang (negb cs) e Hp target 0) as Hs.
  destruct (search (negb cs) e 0 target) as [[start st]|]; [|done].
  destruct Hs as (a & w & b & Ht' & Hw & -> & Hpos & Hmin). exists a, w, b. split_and!; try done.
  cbn [seq map]. by rewrite Hpos.
Qed.

End RegexTheory.
