(* ===== verification/RegexEngines.v ===== *)
(** * The other regex engines

    Model of src/web/restinio/restinio/router/pcre_regex_engine.hpp, pcre2_regex_engine.hpp and
    boost_regex_engine.hpp: what the router may use in place of std::regex.  The libraries are
    the classes [PcreApi], [Pcre2Api] and [BoostApi], with the behaviour documented for the
    calls that are made.

    What a library finds is a list of groups, the whole match first; a group that took no part
    in the match is [None]. *)

From stdpp Require Import gmap.
From S2P Require Import Prelude.

Module RegexEngines.

Abbreviation groups := (list (option (nat * nat))).

(** One more than the number of the last group that was set. *)
Fixpoint top (gs : groups) : nat :=
  match gs with
  | [] => 0
  | g :: gs => match top gs, g with S n, _ => S (S n) | O, Some _ => 1 | O, None => 0 end
  end.

Definition inside (target : list byte) (g : option (nat * nat)) : Prop :=
  match g with Some (b, e) => (b <= e <= length target)%nat | None => True end.

(** A match: the whole of it is set, and everything lies in the subject. *)
Record found (target : list byte) (gs : groups) : Prop := {
  found_whole : exists r, gs !! 0%nat = Some (Some r);
  found_inside : Forall (inside target) gs
}.

Lemma top_le gs : (top gs <= length gs)%nat.
Proof. induction gs as [|g gs IH]; cbn; [lia|]. destruct (top gs), g; cbn in *; lia. Qed.

Lemma top_pos target gs : found target gs -> (0 < top gs)%nat.
Proof. intros [[r Hr] _]. destruct gs as [|g gs]; [done|]. injection Hr as ->. cbn. destruct (top gs); lia. Qed.

Lemma top_full gs : Forall is_Some gs -> top gs = length gs.
Proof.
  induction 1 as [|g gs [x ->] _ IH]; [done|]. cbn. rewrite IH. by destruct (length gs).
Qed.

(** The parameters of the engines. *)
Record traits := mk_traits {
  max_capture_groups : nat;
  compile_options : Z;
  match_options : Z
}.

Definition default_traits : traits := mk_traits 20 0 0.

(** [options |= CASELESS] *)
Definition options_of (caseless : Z) (t : traits) (is_case_sensative : bool) : Z :=
  if is_case_sensative then compile_options t else Z.lor (compile_options t) caseless.

(** ** PCRE *)

Module Pcre.

Definition PCRE_CASELESS : Z := 1.
Definition PCRE_ERROR_NOMATCH : Z := -1.

Class PcreApi := {
  pcre : Type;
  pcre_compile : list byte -> Z -> pcre + string;
  (* the expression, the subject and its length, the options, the size of the vector *)
  pcre_exec : pcre -> list byte -> Z -> Z -> nat -> Z * list Z
}.

(** "pcreapi": two thirds of the vector are for pairs, -1 in those that are not set; the result
    is one more than the highest group that was set, or 0 when there was no room. *)
Definition entry (g : option (nat * nat)) : Z * Z :=
  match g with Some (b, e) => (Z.of_nat b, Z.of_nat e) | None => (-1, -1) end.

Class PcreLaws (A : PcreApi) := {
  pcre_finds : pcre -> list byte -> option groups;
  pcre_found r target gs : pcre_finds r target = Some gs -> found target gs;
  exec_nomatch r target o n :
    pcre_finds r target = None -> fst (pcre_exec r target (Z.of_nat (length target)) o n) = PCRE_ERROR_NOMATCH;
  exec_match r target o n gs :
    pcre_finds r target = Some gs ->
    let '(rc, v) := pcre_exec r target (Z.of_nat (length target)) o n in
    if (top gs <=? n / 3)%nat then
      rc = Z.of_nat (top gs) /\
      forall i g, gs !! i = Some g -> (i < top gs)%nat -> v !! (2 * i)%nat = Some (entry g).1 /\ v !! (1 + 2 * i)%nat = Some (entry g).2
    else rc = 0
}.

Section Engine.
Context {A : PcreApi} (T : traits).

Record match_results_t := mk_results { m_size : nat; m_submatches : list Z }.

(** [operator []]; [None] is an access outside the array. *)
Definition result_at (m : match_results_t) (i : nat) : option (nat * nat) :=
  match m_submatches m !! (2 * i)%nat, m_submatches m !! (1 + 2 * i)%nat with
  | Some b, Some e => if 0 <=? b then Some (Z.to_nat b, Z.to_nat e) else Some (0, 0)%nat
  | _, _ => None
  end.

Definition compile_regex (r : list byte) (is_case_sensative : bool) : outcome pcre :=
  match pcre_compile r (options_of PCRE_CASELESS T is_case_sensative) with
  | inl p => Ok p
  | inr _ => Throw "unable to compile regex"
  end.

Definition try_match (target_path : list byte) (r : pcre) : outcome (option match_results_t) :=
  let '(rc, v) := pcre_exec r target_path (Z.of_nat (length target_path)) (match_options T) (3 * max_capture_groups T) in
  if 0 <? rc then Ok (Some (mk_results (Z.to_nat rc) v))
  else if rc =? 0 then Throw "unexpected: not enough submatch vector size"
  else if negb (PCRE_ERROR_NOMATCH =? rc) then Throw "pcre error"
  else Ok None.

(** What the router reads of a match. *)
Definition ranges (m : match_results_t) : option (list (nat * nat)) := mapM (result_at m) (seq 0 (m_size m)).

Context {L : PcreLaws A}.

Definition or_empty (g : option (nat * nat)) : nat * nat := default (0, 0)%nat g.

(** A match is reported group by group, up to the last one that was set; a group that was not
    set is empty.  It is refused with an exception when it has more groups than fit. *)
Theorem pcre_match (target_path : list byte) (r : pcre) :
  match pcre_finds r target_path with
  | None => try_match target_path r = Ok None
  | Some gs =>
      if (top gs <=? max_capture_groups T)%nat
      then exists m, try_match target_path r = Ok (Some m) /\ ranges m = Some (map or_empty (take (top gs) gs))
      else exists e, try_match target_path r = Throw e
  end.
Proof.
  unfold try_match. set (ov := (3 * max_capture_groups T)%nat). destruct (pcre_finds r target_path) as [gs|] eqn:E.
  - pose proof (top_pos _ _ (pcre_found _ _ _ E)) as Hpos. pose proof (exec_match r target_path (match_options T) ov gs E) as Hx.
    destruct (pcre_exec r target_path _ _ ov) as [rc v]. replace (ov / 3)%nat with (max_capture_groups T) in Hx
      by (unfold ov; rewrite Nat.mul_comm, Nat.div_mul; lia).
    destruct (Nat.leb_spec (top gs) (max_capture_groups T)).
    + destruct Hx as [-> Hv]. rewrite (proj2 (Z.ltb_lt _ _)) by lia. eexists. split; [done|].
      unfold ranges. cbn [m_size]. rewrite Nat2Z.id. apply mapM_Some_2. apply Forall2_same_length_lookup_2.
      { rewrite length_seq, length_map, length_take. pose proof (top_le gs). lia. }
      intros i j x Hi Hx. apply lookup_seq in Hi as [-> Hi]. cbn [Nat.add].
      rewrite list_lookup_fmap, lookup_take in Hx. rewrite decide_True in Hx by lia.
      apply fmap_Some in Hx as (g & Eg & ->). destruct (Hv i g Eg Hi) as [H1 H2].
      unfold result_at. cbn [m_submatches]. rewrite H1, H2. destruct g as [[b e]|]; cbn; [|done].
      rewrite (proj2 (Z.leb_le _ _)) by lia. by rewrite !Nat2Z.id.
    + subst rc. by eexists.
  - pose proof (exec_nomatch r target_path (match_options T) ov E) as Hx. destruct (pcre_exec r target_path _ _ ov) as [rc v].
    cbn [fst] in Hx. by subst rc.
Qed.

(** The ranges are what the router relies on ([RegexEngine]). *)
Lemma pcre_ranges target_path r m l :
  try_match target_path r = Ok (Some m) -> ranges m = Some l ->
  l <> [] /\ Forall (fun x => fst x <= snd x <= length target_path)%nat l.
Proof using L.
  intros Hm Hl. pose proof (pcre_match target_path r) as H. destruct (pcre_finds r target_path) as [gs|] eqn:E.
  2:{ by rewrite H in Hm. }
  destruct (top gs <=? max_capture_groups T)%nat; [|destruct H as [e H]; by rewrite H in Hm].
  destruct H as (m' & Hm' & Hl'). rewrite Hm in Hm'. injection Hm' as <-. rewrite Hl in Hl'. injection Hl' as ->.
  pose proof (pcre_found _ _ _ E) as Hf. pose proof (top_pos _ _ Hf). destruct Hf as [_ Hin]. split.
  - intros Hn%map_eq_nil. pose proof (f_equal length Hn) as Hlen. rewrite length_take in Hlen. pose proof (top_le gs). cbn in Hlen. lia.
  - apply Forall_map. apply (Forall_take _ (top gs)) in Hin. eapply Forall_impl; [|exact Hin]. intros [[b e]|]; cbn; lia.
Qed.

(** [path2regex] accepts a route with as many parameters as [max_capture_groups] says, but
    the vector has no room for them beside the whole match: a path that sets them all makes
    [try_match] throw. *)
Theorem pcre_full_route_throws (target_path : list byte) (r : pcre) (gs : groups) :
  pcre_finds r target_path = Some gs -> Forall is_Some gs -> length gs = S (max_capture_groups T) ->
  exists e, try_match target_path r = Throw e.
Proof using L.
  intros E Hs Hl. pose proof (pcre_match target_path r) as H. rewrite E, (top_full _ Hs), Hl in H.
  by rewrite (proj2 (Nat.leb_gt _ _)) in H by lia.
Qed.

End Engine.

(** *** Ownership of compiled expressions *)

(** The objects [regex_t] by name, each with the expression it owns or the null pointer, and
    the expressions [pcre_free] was called for. *)
Record objects := mk_objects { m_route_regex : gmap nat (option nat); freed : list nat }.

Definition owned (v : nat) (o : objects) : option nat := default None (m_route_regex o !! v).
Definition with_owned (v : nat) (p : option nat) (o : objects) : objects :=
  mk_objects (<[v := p]> (m_route_regex o)) (freed o).

Definition move_construct (v rw : nat) (o : objects) : objects := with_owned rw None (with_owned v (owned rw o) o).

Definition move_assign (v rw : nat) (o : objects) : objects :=
  if (v =? rw)%nat then o else with_owned rw None (with_owned v (owned rw o) o).

Definition destroy (v : nat) (o : objects) : objects :=
  mk_objects (delete v (m_route_regex o)) (freed o ++ match owned v o with Some p => [p] | None => [] end).

(** Moving into a new object hands the expression over: it is freed once, by the new owner. *)
Lemma move_construct_frees_once v rw p o :
  v <> rw -> owned rw o = Some p -> freed (destroy rw (destroy v (move_construct v rw o))) = freed o ++ [p].
Proof.
  intros Hne Hp. unfold destroy, move_construct, owned, with_owned in *. cbn [m_route_regex freed] in *.
  rewrite lookup_insert_ne, lookup_insert_eq by done. rewrite lookup_delete_ne, lookup_insert_eq by done. cbn.
  rewrite app_nil_r. by rewrite Hp.
Qed.

(** Assignment forgets what the object had: that expression is never freed. *)
Lemma move_assign_leaks v rw p q o :
  v <> rw -> owned v o = Some p -> owned rw o = Some q ->
  freed (destroy rw (destroy v (move_assign v rw o))) = freed o ++ [q].
Proof.
  intros Hne _ Hq. unfold move_assign. rewrite (proj2 (Nat.eqb_neq _ _) Hne). exact (move_construct_frees_once v rw q o Hne Hq).
Qed.

End Pcre.

(** ** PCRE2 *)

Module Pcre2.

Definition PCRE2_CASELESS : Z := 8.
Definition PCRE2_ERROR_NOMATCH : Z := -1.
Definition PCRE2_UNSET : Z := 2 ^ 64 - 1.

Class Pcre2Api := {
  pcre2_code : Type;
  pcre2_compile : list byte -> Z -> pcre2_code + string;
  (* the expression, the subject, the options, the number of pairs of the match data *)
  pcre2_match : pcre2_code -> list byte -> Z -> nat -> Z * list Z
}.

Definition entry2 (g : option (nat * nat)) : Z * Z :=
  match g with Some (b, e) => (Z.of_nat b, Z.of_nat e) | None => (PCRE2_UNSET, PCRE2_UNSET) end.

(** "pcre2api" *)
Class Pcre2Laws (A : Pcre2Api) := {
  pcre2_finds : pcre2_code -> list byte -> option groups;
  pcre2_found r target gs : pcre2_finds r target = Some gs -> found target gs;
  match_nomatch r target o n : pcre2_finds r target = None -> fst (pcre2_match r target o n) = PCRE2_ERROR_NOMATCH;
  match_match r target o n gs :
    pcre2_finds r target = Some gs ->
    let '(rc, v) := pcre2_match r target o n in
    if (top gs <=? n)%nat then
      rc = Z.of_nat (top gs) /\
      forall i g, gs !! i = Some g -> (i < top gs)%nat -> v !! (2 * i)%nat = Some (entry2 g).1 /\ v !! (1 + 2 * i)%nat = Some (entry2 g).2
    else rc = 0
}.

Section Engine.
Context {A : Pcre2Api} (T : traits).

Record match_results2_t := mk_results2 { m_size2 : nat; m_match_data : list Z }.

Definition result2_at (m : match_results2_t) (i : nat) : option (Z * Z) :=
  match m_match_data m !! (2 * i)%nat, m_match_data m !! (1 + 2 * i)%nat with
  | Some b, Some e => Some (b, e)
  | _, _ => None
  end.

Definition compile_regex2 (r : list byte) (is_case_sensative : bool) : outcome pcre2_code :=
  match pcre2_compile r (options_of PCRE2_CASELESS T is_case_sensative) with
  | inl p => Ok p
  | inr _ => Throw "unable to compile regex"
  end.

Definition try_match2 (target_path : list byte) (r : pcre2_code) : outcome (option match_results2_t) :=
  let '(rc, v) := pcre2_match r target_path (match_options T) (max_capture_groups T) in
  if 0 <? rc then Ok (Some (mk_results2 (Z.to_nat rc) v))
  else if rc =? 0 then Throw "unexpected: not enough submatch vector size"
  else if negb (PCRE2_ERROR_NOMATCH =? rc) then Throw "pcre2 error"
  else Ok None.

Definition ranges2 (m : match_results2_t) : option (list (Z * Z)) := mapM (result2_at m) (seq 0 (m_size2 m)).

Context {L : Pcre2Laws A}.

(** As for PCRE, but a group that was not set is reported at a position far behind the subject. *)
Theorem pcre2_match_reported (target_path : list byte) (r : pcre2_code) :
  match pcre2_finds r target_path with
  | None => try_match2 target_path r = Ok None
  | Some gs =>
      if (top gs <=? max_capture_groups T)%nat
      then exists m, try_match2 target_path r = Ok (Some m) /\ ranges2 m = Some (map entry2 (take (top gs) gs))
      else exists e, try_match2 target_path r = Throw e
  end.
Proof.
  unfold try_match2. destruct (pcre2_finds r target_path) as [gs|] eqn:E.
  - pose proof (top_pos _ _ (pcre2_found _ _ _ E)) as Hpos.
    pose proof (match_match r target_path (match_options T) (max_capture_groups T) gs E) as Hx.
    destruct (pcre2_match r target_path _ _) as [rc v]. destruct (Nat.leb_spec (top gs) (max_capture_groups T)).
    + destruct Hx as [-> Hv]. rewrite (proj2 (Z.ltb_lt _ _)) by lia. eexists. split; [done|].
      unfold ranges2. cbn [m_size2]. rewrite Nat2Z.id. apply mapM_Some_2. apply Forall2_same_length_lookup_2.
      { rewrite length_seq, length_map, length_take. pose proof (top_le gs). lia. }
      intros i j x Hi Hx. apply lookup_seq in Hi as [-> Hi]. cbn [Nat.add].
      rewrite list_lookup_fmap, lookup_take in Hx. rewrite decide_True in Hx by lia.
      apply fmap_Some in Hx as (g & Eg & ->). destruct (Hv i g Eg Hi) as [H1 H2].
      unfold result2_at. cbn [m_match_data]. rewrite H1, H2. by destruct (entry2 g).
    + subst rc. by eexists.
  - pose proof (match_nomatch r target_path (match_options T) (max_capture_groups T) E) as Hx.
    destruct (pcre2_match r target_path _ _) as [rc v]. cbn [fst] in Hx. by subst rc.
Qed.

(** A group that was not set before one that was, as for the parameter of "/a/:x?/:y" that is
    left out: the router gets a position that is not in the path. *)
Theorem pcre2_unset_outside (target_path : list byte) (r : pcre2_code) (gs : groups) (i : nat) :
  pcre2_finds r target_path = Some gs -> (top gs <= max_capture_groups T)%nat -> (i < top gs)%nat -> gs !! i = Some None ->
  exists m, try_match2 target_path r = Ok (Some m) /\ result2_at m i = Some (PCRE2_UNSET, PCRE2_UNSET).
Proof using L.
  intros E Ht Hi Hg. pose proof (pcre2_match_reported target_path r) as H. rewrite E, (proj2 (Nat.leb_le _ _) Ht) in H.
  destruct H as (m & Hm & Hr). exists m. split; [done|]. unfold ranges2 in Hr. apply mapM_Some_1 in Hr.
  destruct (Forall2_lookup_r _ _ _ i (PCRE2_UNSET, PCRE2_UNSET) Hr) as (j & Hj & Hx).
  { rewrite list_lookup_fmap, lookup_take. rewrite decide_True by lia. by rewrite Hg. }
  apply lookup_seq in Hj as [-> _]. exact Hx.
Qed.

End Engine.
End Pcre2.

(** ** Libraries that keep the laws *)

Module Finders.
Import Pcre Pcre2.

(** The vector of pairs. *)
Definition pairs (f : option (nat * nat) -> Z * Z) (gs : groups) : list Z := flat_map (fun g => [(f g).1; (f g).2]) gs.

Lemma pairs_lookup f gs i g :
  gs !! i = Some g -> pairs f gs !! (2 * i)%nat = Some (f g).1 /\ pairs f gs !! (1 + 2 * i)%nat = Some (f g).2.
Proof.
  revert i. induction gs as [|x gs IH]; intros [|i] Hg; cbn in Hg; try done.
  - by injection Hg as ->.
  - destruct (IH i Hg) as [H1 H2]. by replace (2 * S i)%nat with (S (S (2 * i))) by lia.
Qed.

(** One subject is matched, with given groups. *)
Section One.
Context (subject : list byte) (gs : groups) (Hgs : found subject gs).

Definition finds (target : list byte) : option groups := if bool_decide (target = subject) then Some gs else None.

Lemma finds_found target l : finds target = Some l -> found target l.
Proof using Hgs. unfold finds. case_bool_decide as E; [|done]. intros [= <-]. by subst. Qed.

Definition one_pcre : PcreApi := {|
  pcre := unit;
  pcre_compile _ _ := inl tt;
  pcre_exec _ target _ _ n :=
    match finds target with
    | None => (-1, [])
    | Some l => if (top l <=? n / 3)%nat then (Z.of_nat (top l), pairs entry l) else (0, [])
    end
|}.

Definition one_pcre_laws : PcreLaws one_pcre.
Proof using Hgs.
  refine {| pcre_finds _ := finds |}; cbn [pcre pcre_exec one_pcre].
  - intros _ target l. apply finds_found.
  - intros _ target o n ->. done.
  - intros _ target o n l ->. destruct (top l <=? n / 3)%nat; [|done]. split; [done|]. intros i g Hg _. by apply pairs_lookup.
Defined.

Definition one_pcre2 : Pcre2Api := {|
  pcre2_code := unit;
  pcre2_compile _ _ := inl tt;
  pcre2_match _ target _ n :=
    match finds target with
    | None => (-1, [])
    | Some l => if (top l <=? n)%nat then (Z.of_nat (top l), pairs entry2 l) else (0, [])
    end
|}.

Definition one_pcre2_laws : Pcre2Laws one_pcre2.
Proof using Hgs.
  refine {| pcre2_finds _ := finds |}; cbn [pcre2_code pcre2_match one_pcre2].
  - intros _ target l. apply finds_found.
  - intros _ target o n ->. done.
  - intros _ target o n l ->. destruct (top l <=? n)%nat; [|done]. split; [done|]. intros i g Hg _. by apply pairs_lookup.
Defined.

End One.

(** Twenty parameters, as many as the engine says it can take. *)
Definition twenty : groups := Some (0, 2)%nat :: repeat (Some (1, 2)%nat) 20.

Lemma twenty_found : found (bs "/a") twenty.
Proof. split; [by eexists|]. repeat constructor. Qed.

Lemma twenty_parameters_throw :
  exists e, Pcre.try_match (A := one_pcre (bs "/a") twenty) default_traits (bs "/a") tt = Throw e.
Proof.
  apply (pcre_full_route_throws (A := one_pcre (bs "/a") twenty) (L := one_pcre_laws _ _ twenty_found) default_traits (bs "/a") tt twenty);
    [done|by repeat constructor|done].
Qed.

(** The first of two parameters left out. *)
Definition left_out : groups := [Some (0, 2)%nat; None; Some (1, 2)%nat].

Lemma left_out_found : found (bs "/a") left_out.
Proof. split; [by eexists|]. repeat constructor. Qed.

Lemma left_out_outside :
  exists m, try_match2 (A := one_pcre2 (bs "/a") left_out) default_traits (bs "/a") tt = Ok (Some m) /\
    result2_at m 1 = Some (PCRE2_UNSET, PCRE2_UNSET).
Proof.
  apply (pcre2_unset_outside (A := one_pcre2 (bs "/a") left_out) (L := one_pcre2_laws _ _ left_out_found) default_traits _ tt left_out);
    [done|cbn; lia|cbn; lia|done].
Qed.

End Finders.

(** ** Boost.Regex *)

Module Boost.

Class BoostApi := {
  boost_regex : Type;
  boost_compile : list byte -> bool -> outcome boost_regex;      (* the flag [icase] *)
  boost_search : boost_regex -> list byte -> option groups
}.

Section Engine.
Context {A : BoostApi}.

Definition compile_regex_boost (r : list byte) (is_case_sensative : bool) : outcome boost_regex :=
  boost_compile r (negb is_case_sensative).

(** A [sub_match] that did not take part is the empty range at the end of the subject. *)
Definition try_match_boost (target_path : list byte) (r : boost_regex) : option (list (nat * nat)) :=
  match boost_search r target_path with
  | Some gs => Some (map (default (length target_path, length target_path)) gs)
  | None => None
  end.

Lemma boost_ranges target_path r l :
  (forall gs, boost_search r target_path = Some gs -> found target_path gs) -> try_match_boost target_path r = Some l ->
  l <> [] /\ Forall (fun m => fst m <= snd m <= length target_path)%nat l.
Proof.
  unfold try_match_boost. destruct (boost_search r target_path) as [gs|]; [|done]. intros Hf [= <-].
  destruct (Hf gs eq_refl) as [[x Hx] Hin]. split; [by destruct gs|].
  apply Forall_map. eapply Forall_impl; [|exact Hin]. intros [[b e]|]; cbn; lia.
Qed.

End Engine.
End Boost.

End RegexEngines.
