(* ===== verification/Path2Regex.v ===== *)
(** * Routes to regular expressions

    Model of src/web/restinio/restinio/path2regex/path2regex.hpp: an
    express-style route is cut into tokens with one regular expression, and the
    tokens are written out as another one, which matches request targets. *)

From S2P Require Import Prelude Regex.

Module Path2Regex.
Import Regex.

(** ** Escaping *)

Definition escape_with (special : list byte) (group : list byte) : list byte :=
  flat_map (fun c => if one_of special c then ["\"%byte; c] else [c]) group.

Definition escape_group (group : list byte) : list byte := escape_with (bs "=!:$/()") group.

Definition escape_string (group : list byte) : list byte :=
  escape_with (bs ".+*?=^:${}()[]|\/") group.

(** ** Options *)

Record options_t := mk_options {
  sensitive : bool;
  strict : bool;
  ending : bool;
  delimiter : list byte;
  delimiters : list byte;
  ends_with : list (list byte)
}.

Definition default_options : options_t := mk_options false false true (bs "/") (bs "./") [].

Definition make_delimiter (o : options_t) (d : list byte) : list byte :=
  match d with [] => delimiter o | _ => d end.

Definition make_ends_with (o : options_t) : list byte :=
  flat_map (fun e => match e with [] => [] | _ => escape_string e ++ bs "|" end) (ends_with o)
  ++ bs "$".

(** ** Errors *)

Inductive route_error :=
| unescaped_open (pos : nat)
| unescaped_close (pos : nat)
| names_buffer_full
| too_many_captures (count : Z)
| bad_regex
| regex_outside_model.

Definition result (A : Type) : Type := A + route_error.

Definition rbind {A B} (m : result A) (k : A -> result B) : result B :=
  match m with inl a => k a | inr e => inr e end.

Declare Scope route_scope.
Notation "'let-' p := m 'in' k" := (rbind m (fun x => match x with p => k end))
  (at level 10, p pattern, m at level 200, k at level 200) : route_scope.
Open Scope route_scope.

(** ** The buffer of parameter names

    [string_view_buffer_storage_appender_t]: names are appended to one string
    whose capacity is fixed in advance; a name is a view into it. *)

Definition view : Type := nat * nat.

Definition view_of (buf : list byte) (v : view) : list byte := take (snd v) (drop (fst v) buf).

Definition append_name (capacity : nat) (name : list byte) (buf : list byte)
  : result (view * list byte) :=
  if (capacity - length buf <? length name)%nat then inr names_buffer_full
  else inl ((length buf, length name), buf ++ name).

(** [param_appender_t]: what a captured value is appended to. *)
Inductive param_setter :=
| set_named (key : view)
| set_indexed.

(** ** Tokens *)

Inductive param_name :=
| named (name : list byte)
| indexed (i : nat).

Inductive token_t :=
| plain_string_token (m_escaped_path : list byte) (m_last_char : byte)
| parameter_token (m_name : param_name) (m_escaped_prefix m_delimiter : list byte)
    (m_optional m_repeat m_partial : bool) (m_pattern : list byte).

Definition create_plain_token (path : list byte) : token_t :=
  plain_string_token (escape_string path) (List.last path x00).

Definition create_param_token (name : param_name) (prefix delimiter : list byte)
  (optional repeat partial : bool) (pattern : list byte) : token_t :=
  parameter_token name (escape_string prefix) delimiter optional repeat partial pattern.

Definition is_end_delimited (delimiters : list byte) (t : token_t) : bool :=
  match t with
  | plain_string_token _ last_char => one_of delimiters last_char
  | parameter_token _ _ _ _ _ _ _ => false
  end.

(** The text of a parameter in the resulting expression. *)
Definition capture_text (prefix : list byte) (optional repeat partial : bool) (pattern : list byte)
  : list byte :=
  let capture := bs "(?:" ++ pattern ++ bs ")" in
  let capture := if repeat then capture ++ bs "(?:" ++ prefix ++ capture ++ bs ")*" else capture in
  if optional then
    if negb partial then bs "(?:" ++ prefix ++ bs "(" ++ capture ++ bs "))?"
    else prefix ++ bs "(" ++ capture ++ bs ")?"
  else prefix ++ bs "(" ++ capture ++ bs ")".

(** [append_self_to]: the route text, the setters and the names buffer. *)
Definition append_self_to (capacity : nat) (t : token_t)
  (st : list byte * list param_setter * list byte) : result (list byte * list param_setter * list byte) :=
  let '(route, setters, names) := st in
  match t with
  | plain_string_token escaped_path _ => inl (route ++ escaped_path, setters, names)
  | parameter_token name prefix _ optional repeat partial pattern =>
      let route := route ++ capture_text prefix optional repeat partial pattern in
      match name with
      | named n =>
          let- (key, names) := append_name capacity n names in
          inl (route, setters ++ [set_named key], names)
      | indexed _ => inl (route, setters ++ [set_indexed], names)
      end
  end.

Definition is_capturing (t : token_t) : bool :=
  match t with plain_string_token _ _ => false | parameter_token _ _ _ _ _ _ _ => true end.

(** ** Cutting a route into tokens *)

Definition path_regex_str : list byte :=
  bs "(\\.)|(?:\:(\w+)(?:\(((?:\\.|[^\\()])+)\))?|\(((?:\\.|[^\\()])+)\))([+*?])?".

Definition main_path_regex : re :=
  match parse_regex path_regex_str with Compiled (r, _) => r | _ => Eps end.

(** A match of [std::cregex_iterator]: what precedes it since the previous one,
    its position, the submatches, and the rest of the route. *)
Record rmatch := mk_match {
  r_prefix : list byte;
  r_position : nat;
  r_length : nat;
  r_group : nat -> list byte;
  r_suffix : list byte
}.

(** The submatch [n] of a match of a route, as a string. *)
Definition group_text (route : list byte) (caps : list (nat * (nat * nat))) (n : nat) : list byte :=
  match capture n caps with Some (a, b) => take (b - a) (drop a route) | None => [] end.

(** The matches from [pos] on; every match of [main_path_regex] consumes
    something, so the length of the route bounds their number. *)
Fixpoint regex_iterator (fuel : nat) (route : list byte) (pos : nat) (rest : list byte) : list rmatch :=
  match fuel with
  | O => []
  | S fuel =>
      match search false main_path_regex pos rest with
      | None => []
      | Some (start, st) =>
          mk_match (take (start - pos) rest) start (mpos st - start)
            (group_text route (mcaps st)) (mrest st)
          :: regex_iterator fuel route (mpos st) (mrest st)
      end
  end.

Definition find_char (c : byte) (s : list byte) : option nat :=
  fst <$> list_find (fun d => d = c) s.

Definition check_no_unescaped_brackets (strv : list byte) (base_pos : nat) : result (list byte) :=
  match find_char "(" strv with
  | Some pos => inr (unescaped_open (base_pos + pos))
  | None =>
      match find_char ")" strv with
      | Some pos => inr (unescaped_close (base_pos + pos))
      | None => inl strv
      end
  end.

Definition group_escaped_idx : nat := 1.
Definition group_name_idx : nat := 2.
Definition group_capture_idx : nat := 3.
Definition group_group_idx : nat := 4.
Definition group_modifier_idx : nat := 5.

Definition create_pattern (delimiter pattern : list byte) : list byte :=
  match pattern with
  | [] => bs "[^" ++ escape_string delimiter ++ bs "]+?"
  | _ => escape_group pattern
  end.

(** The current path, whether it ends in an escaped character, the tokens. *)
Definition parse_state : Type := list byte * bool * list token_t.

(** A moved-from [path] is empty. *)
Definition handle_param_token (options : options_t) (m : rmatch) (st : parse_state) : parse_state :=
  let '(path, path_escaped, result) := st in
  let '(prefix, path) :=
    if negb path_escaped && negb (bool_decide (path = []))
       && one_of (delimiters options) (List.last path x00)
    then ([List.last path x00], removelast path) else ([], path) in
  let '(path, path_escaped, result) :=
    if bool_decide (path = []) then (path, path_escaped, result)
    else ([], false, result ++ [create_plain_token path]) in
  let next := take 1 (r_suffix m) in
  let name := r_group m group_name_idx in
  let modifier := r_group m group_modifier_idx in
  let partial := negb (bool_decide (prefix = [])) && negb (bool_decide (next = []))
                 && negb (bool_decide (prefix = next)) in
  let optional := bool_decide (modifier = bs "?") || bool_decide (modifier = bs "*") in
  let repeat := bool_decide (modifier = bs "+") || bool_decide (modifier = bs "*") in
  let delimiter := make_delimiter options prefix in
  let token :=
    match name with
    | _ :: _ => create_param_token (named name) prefix delimiter optional repeat partial
                  (create_pattern delimiter (r_group m group_capture_idx))
    | [] => create_param_token (indexed 0) prefix delimiter optional repeat partial
              (create_pattern delimiter (r_group m group_group_idx))
    end in
  (path, path_escaped, result ++ [token]).

(** One round of the loop of [parse]; [is_last] is [next_it == token_end]. *)
Definition parse_match (options : options_t) (m : rmatch) (is_last : bool) (st : parse_state)
  : result parse_state :=
  let '(path, path_escaped, tokens) := st in
  let- p := check_no_unescaped_brackets (r_prefix m) (r_position m - length (r_prefix m)) in
  let path := path ++ p in
  let st :=
    match r_group m group_escaped_idx with
    | [] => handle_param_token options m (path, path_escaped, tokens)
    | escaped => (path ++ take 1 (drop 1 escaped), true, tokens)
    end in
  if is_last then
    let '(path, path_escaped, tokens) := st in
    let- p := check_no_unescaped_brackets (r_suffix m) (r_position m + r_length m) in
    inl (path ++ p, path_escaped, tokens)
  else inl st.

Fixpoint parse_matches (options : options_t) (l : list rmatch) (st : parse_state) : result parse_state :=
  match l with
  | [] => inl st
  | m :: l =>
      let- st := parse_match options m (match l with [] => true | _ => false end) st in
      parse_matches options l st
  end.

Definition parse (route_sv : list byte) (options : options_t) : result (list token_t) :=
  let matches := regex_iterator (length route_sv) route_sv 0 route_sv in
  let- path := match matches with
               | [] => check_no_unescaped_brackets route_sv 0
               | _ => inl []
               end in
  let- (path, _, tokens) := parse_matches options matches (path, false, []) in
  inl match path with [] => tokens | _ => tokens ++ [create_plain_token path] end.

(** ** Tokens to a matcher *)

Section Engine.
Context `{RegexEngine}.

Record route_regex_matcher_data_t := mk_matcher_data {
  m_regex : compiled_regex;
  m_named_params_buffer : list byte;
  m_param_appender_sequence : list param_setter
}.

Fixpoint append_tokens (capacity : nat) (tokens : list token_t)
  (st : list byte * list param_setter * list byte) : result (list byte * list param_setter * list byte) :=
  match tokens with
  | [] => inl st
  | t :: tokens => let- st := append_self_to capacity t st in append_tokens capacity tokens st
  end.

(** What follows the tokens in the expression. *)
Definition route_tail (tokens : list token_t) (options : options_t) : list byte :=
  let delimiter := escape_string (delimiter options) in
  let ends_with := make_ends_with options in
  if ending options then
    (if negb (strict options) then bs "(?:" ++ delimiter ++ bs ")?" else [])
    ++ (if bool_decide (ends_with = bs "$") then bs "$" else bs "(?=" ++ ends_with ++ bs ")")
  else
    (if negb (strict options) then bs "(?:" ++ delimiter ++ bs "(?=" ++ ends_with ++ bs "))?" else [])
    ++ match List.rev tokens with
       | t :: _ =>
           if is_end_delimited (delimiters options) t then []
           else bs "(?=" ++ delimiter ++ bs "|" ++ ends_with ++ bs ")"
       | [] => []
       end.

(** [capacity] is what [std::string::reserve] makes of [path.size()].  Every
    error of this function is rethrown as "unable to process route". *)
Definition tokens2regexp (capacity : nat) (tokens : list token_t) (options : options_t)
  : result route_regex_matcher_data_t :=
  let- (route, setters, names) := append_tokens capacity tokens ([], [], []) in
  let captured_groups_count := 1 + Z.of_nat (length (List.filter is_capturing tokens)) in
  if max_capture_groups <? captured_groups_count then inr (too_many_captures captured_groups_count)
  else
    let route := route ++ route_tail tokens options in
    match engine_compile (bs "^" ++ route) (sensitive options) with
    | Compiled regex => inl (mk_matcher_data regex names setters)
    | Unmodelled | Out_of_fuel => inr regex_outside_model
    | Regex_error => inr bad_regex
    end.

Definition path2regex (reserve : nat -> nat) (path : list byte) (options : options_t)
  : result route_regex_matcher_data_t :=
  let- tokens := parse path options in
  tokens2regexp (reserve (length path)) tokens options.

End Engine.

End Path2Regex.
