(* ===== verification/RouteMatch.v ===== *)
(** * What a route matches

    The expression [Path2Regex] writes for a list of tokens is compiled and
    matched by the engine of [Regex]; here that composition is related to a
    direct reading of the route: literal text, parameters with their prefix and
    modifier, an optional trailing delimiter. *)

From S2P Require Import Prelude Regex RegexTheory Path2Regex.

Module RouteMatch.
Import Regex RegexTheory Path2Regex StdRegexEngine.

(** ** Literal text *)

(** The text does not begin with a quantifier. *)
Definition noquant (s : list byte) : Prop :=
  match s with c :: _ => one_of (bs "*+?{") c = false | [] => True end.

Lemma quantify_none r s : noquant s -> quantify r s = Compiled (r, s).
Proof.
  destruct s as [|c s]; [done|]. simpl. rewrite !orb_false_iff. intros (H1 & H2 & H3 & H4 & _).
  by rewrite H1, H2, H3, H4.
Qed.

Definition escape1 (c : byte) : list byte := escape_string [c].

Lemma escape_string_cons c p : escape_string (c :: p) = escape1 c ++ escape_string p.
Proof. unfold escape1, escape_string, escape_with. simpl. by rewrite app_nil_r. Qed.

(** How an escaped character is read: by cases over the 256 characters. *)
Definition escape1_ok (c : byte) : bool :=
  match escape1 c with
  | [a] => Byte.eqb a c && negb (one_of (bs "^$(.\[*+?{|)") c)
  | [a; b] =>
      Byte.eqb a "\" && Byte.eqb b c
      && match escaped c with Compiled (Crange x y) => Byte.eqb x c && Byte.eqb y c | _ => false end
  | _ => false
  end.

Lemma escape1_all c : escape1_ok c = true.
Proof. apply (byte_all_true escape1_ok). vm_compute. reflexivity. Qed.

Lemma escape1_cases c :
  escape1 c = [c] /\ one_of (bs "^$(.\[*+?{|)") c = false
  \/ escape1 c = ["\"%byte; c] /\ escaped c = Compiled (Crange c c).
Proof.
  pose proof (escape1_all c) as H. unfold escape1_ok in H.
  destruct (escape1 c) as [|a [|b []]]; try done.
  - apply andb_prop in H as [->%Byte.byte_dec_bl H%negb_true_iff]. by left.
  - apply andb_prop in H as [[->%Byte.byte_dec_bl ->%Byte.byte_dec_bl]%andb_prop H]. right.
    destruct (escaped c) as [[x y| | |]| | |]; try done.
    by apply andb_prop in H as [->%Byte.byte_dec_bl ->%Byte.byte_dec_bl].
Qed.

Lemma parses_escape1 c n rest : noquant rest -> parses_term n (escape1 c ++ rest) (Chr c) n rest.
Proof.
  intros Hq. exists 1%nat. destruct (escape1_cases c) as [[-> Hc]|[-> He]]; cbn -[escaped quantify].
  - simpl in Hc. rewrite !orb_false_iff in Hc. destruct Hc as (H1 & H2 & H3 & H4 & H5 & H6 & H).
    unfold parse_atom. rewrite H1, H2, H3, H4, H5, H6.
    destruct H as (H7 & H8 & H9 & H10 & _).
    change (one_of (bs "*+?{") c)
      with (Byte.eqb c "*" || (Byte.eqb c "+" || (Byte.eqb c "?" || (Byte.eqb c "{" || false)))).
    rewrite H7, H8, H9, H10. cbn -[quantify].
    by rewrite quantify_none.
  - rewrite He. cbn -[quantify]. by rewrite quantify_none.
Qed.

(** [p] followed by [k]. *)
Definition chars (p : list byte) (k : re) : re := foldr (fun c r => Seq (Chr c) r) k p.

Lemma escape1_head c rest :
  noquant (escape1 c ++ rest)
  /\ exists d s, escape1 c ++ rest = d :: s /\ one_of (bs "|)") d = false.
Proof.
  destruct (escape1_cases c) as [[-> Hc]|[-> _]]; [|split; [done|by eexists _, _]].
  simpl in Hc. rewrite !orb_false_iff in Hc.
  destruct Hc as (_ & _ & _ & _ & _ & _ & H7 & H8 & H9 & H10 & H11 & H12 & _).
  split; [simpl; by rewrite H7, H8, H9, H10|]. exists c, rest. simpl. by rewrite H11, H12.
Qed.

Lemma noquant_escape p rest : noquant rest -> noquant (escape_string p ++ rest).
Proof.
  destruct p as [|c p]; [done|]. intros _. rewrite escape_string_cons, <- app_assoc.
  apply escape1_head.
Qed.

Lemma parses_chars p n rest k n' s' :
  noquant rest -> parses_alt n rest k n' s' ->
  parses_alt n (escape_string p ++ rest) (chars p k) n' s'.
Proof.
  intros Hq Hk. induction p as [|c p IH]; [done|]. rewrite escape_string_cons, <- app_assoc.
  eapply parses_alt_cons; [apply escape1_head| |exact IH]. by apply parses_escape1, noquant_escape.
Qed.

(** ** Groups *)

Lemma parses_noncapturing n s rest r n' r' s' :
  parses_disj n s r n' (bs ")" ++ rest) -> quantify r rest = Compiled (r', s') ->
  parses_term n (bs "(?:" ++ s) r' n' s'.
Proof.
  intros [f Hf] Hq. exists (S f). cbn [parse_term bs]. simpl in *. rewrite Hf. simpl. by rewrite Hq.
Qed.

Lemma parses_capturing n s rest r n' r' s' :
  strip (bs "?") s = None -> parses_disj (S n) s r n' (bs ")" ++ rest) ->
  quantify (Group (S n) r) rest = Compiled (r', s') ->
  parses_term n (bs "(" ++ s) r' n' s'.
Proof.
  intros Hs [f Hf] Hq. exists (S f).
  assert (Hno : forall c, strip ["?"%byte; c] s = None).
  { intros c. change (strip (bs "?") ?s) with (strip ["?"%byte] s) in Hs.
    destruct s as [|d s]; [done|]. simpl in *. by destruct (Byte.eqb _ d). }
  change (bs "(" ++ ?s) with ("("%byte :: s). cbn [parse_term].
  change (bs "?=") with ["?"%byte; "="%byte]. change (bs "?!") with ["?"%byte; "!"%byte].
  change (bs "?:") with ["?"%byte; ":"%byte]. rewrite !Hno, Hs, Hf. simpl. by rewrite Hq.
Qed.

Lemma quantify_star r rest : noquant rest -> quantify r (bs "*" ++ rest) = Compiled (Rep 0 None true r, rest).
Proof.
  intros Hq. simpl. destruct rest as [|c rest]; [done|]. simpl in *.
  destruct (Byte.eqb "?" c) eqn:E; [|done]. by apply Byte.byte_dec_bl in E as <-.
Qed.

Lemma quantify_opt r rest :
  noquant rest -> quantify r (bs "?" ++ rest) = Compiled (Rep 0 (Some 1%nat) true r, rest).
Proof.
  intros Hq. simpl. destruct rest as [|c rest]; [done|]. simpl in *.
  destruct (Byte.eqb "?" c) eqn:E; [|done]. by apply Byte.byte_dec_bl in E as <-.
Qed.

(** ** The expression of a list of tokens *)

(** A token before its text is escaped; the pattern of a parameter comes with
    the expression it compiles to. *)
Inductive piece :=
| Text (path : list byte)
| Param (name : param_name) (prefix delimiter : list byte) (optional repeat partial : bool)
    (pattern : list byte) (expr : re).

Definition token_of (p : piece) : token_t :=
  match p with
  | Text path => create_plain_token path
  | Param name prefix delimiter optional repeat partial pattern _ =>
      create_param_token name prefix delimiter optional repeat partial pattern
  end.

(** The pattern of a parameter compiles to its expression, and has no groups of
    its own. *)
Definition piece_ok (p : piece) : Prop :=
  match p with
  | Text _ => True
  | Param _ _ _ _ _ _ pattern expr =>
      parse_regex pattern = Compiled (expr, 0%nat) /\ pure expr = true
  end.

(** One value, or several separated by the prefix. *)
Definition values_re (prefix : list byte) (repeat : bool) (expr : re) : re :=
  if repeat then Seq expr (Seq (Rep 0 None true (chars prefix (Seq expr Eps))) Eps)
  else Seq expr Eps.

(** The expression of a piece behind [n] groups, followed by [k]. *)
Definition piece_re (n : nat) (p : piece) (k : re) : re :=
  match p with
  | Text path => chars path k
  | Param _ prefix _ optional repeat partial _ expr =>
      let capture := Group (S n) (values_re prefix repeat expr) in
      if optional then
        if negb partial then Seq (Rep 0 (Some 1%nat) true (chars prefix (Seq capture Eps))) k
        else chars prefix (Seq (Rep 0 (Some 1%nat) true capture) k)
      else chars prefix (Seq capture k)
  end.

Definition captures (p : piece) : nat := match p with Text _ => 0 | Param _ _ _ _ _ _ _ _ => 1 end.

Fixpoint route_re (n : nat) (ps : list piece) (k : re) : re :=
  match ps with
  | [] => k
  | p :: ps => piece_re n p (route_re (n + captures p) ps k)
  end.

Definition tail_re (options : options_t) : re :=
  if negb (strict options) then
    Seq (Rep 0 (Some 1%nat) true (chars (delimiter options) Eps)) (Seq Eol Eps)
  else Seq Eol Eps.

(** The text of a token in the expression. *)
Definition token_text (t : token_t) : list byte :=
  match t with
  | plain_string_token escaped_path _ => escaped_path
  | parameter_token _ prefix _ optional repeat partial pattern =>
      capture_text prefix optional repeat partial pattern
  end.

Definition values_text (prefix : list byte) (repeat : bool) (pattern : list byte) : list byte :=
  bs "(?:" ++ pattern ++ bs ")"
  ++ if repeat then bs "(?:" ++ prefix ++ bs "(?:" ++ pattern ++ bs ")" ++ bs ")*" else [].

Lemma capture_text_eq prefix optional repeat partial pattern :
  capture_text prefix optional repeat partial pattern
  = if optional then
      if negb partial then bs "(?:" ++ (prefix ++ bs "(" ++ values_text prefix repeat pattern ++ bs ")") ++ bs ")?"
      else prefix ++ bs "(" ++ values_text prefix repeat pattern ++ bs ")?"
    else prefix ++ bs "(" ++ values_text prefix repeat pattern ++ bs ")".
Proof.
  unfold capture_text, values_text. destruct optional, repeat, partial; by app_norm.
Qed.

Lemma noquant_open s : noquant (bs "(" ++ s).
Proof. done. Qed.

Lemma parses_values prefix repeat pattern expr n t :
  parse_regex pattern = Compiled (expr, 0%nat) ->
  parses_disj n (values_text (escape_string prefix) repeat pattern ++ bs ")" ++ t)
    (values_re prefix repeat expr) n (bs ")" ++ t).
Proof.
  intros Hp. apply parses_disj_alt; [by right; eexists|]. unfold values_text, values_re.
  assert (Hone : forall rest, noquant rest ->
    parses_term n (bs "(?:" ++ pattern ++ bs ")" ++ rest) expr n rest).
  { intros rest Hq. eapply parses_noncapturing; [|by apply quantify_none].
    apply parses_in_group; [done|by right; eexists]. }
  rewrite <- !app_assoc. destruct repeat.
  - eapply parses_alt_cons; [by eexists _, _|by apply Hone|].
    rewrite <- !app_assoc. eapply parses_alt_cons; [by eexists _, _| |apply parses_alt_end; by right; eexists].
    change (bs ")*" ++ ?r) with (bs ")" ++ bs "*" ++ r).
    assert (Hin : forall rest, parses_disj n (escape_string prefix ++ bs "(?:" ++ pattern ++ bs ")" ++ bs ")" ++ rest)
      (chars prefix (Seq expr Eps)) n (bs ")" ++ rest)).
    { intros rest. apply parses_disj_alt; [by right; eexists|]. apply parses_chars; [done|].
      eapply parses_alt_cons; [by eexists _, _|by apply Hone|apply parses_alt_end; by right; eexists]. }
    eapply parses_noncapturing; [apply Hin|by apply quantify_star].
  - eapply parses_alt_cons; [by eexists _, _|by apply Hone|apply parses_alt_end; by right; eexists].
Qed.

Lemma parses_piece n p rest k n' s' :
  piece_ok p -> noquant rest -> parses_alt (n + captures p) rest k n' s' ->
  parses_alt n (token_text (token_of p) ++ rest) (piece_re n p k) n' s'.
Proof.
  intros Hok Hq Hk. destruct p as [path|name prefix delim optional repeat partial pattern expr].
  { simpl in *. rewrite Nat.add_0_r in Hk. by apply parses_chars. }
  destruct Hok as [Hp _]. simpl captures in Hk. rewrite Nat.add_1_r in Hk.
  cbn [token_of create_param_token token_text piece_re]. rewrite capture_text_eq.
  pose proof (fun t => parses_values prefix repeat pattern expr (S n) t Hp) as Hv.
  destruct optional, partial; cbn [negb]; rewrite <- !app_assoc.
  - apply parses_chars; [done|]. eapply parses_alt_cons; [by eexists _, _| |exact Hk].
    change (bs ")?" ++ rest) with (bs ")" ++ bs "?" ++ rest).
    eapply parses_capturing; [done|apply Hv|by apply quantify_opt].
  - eapply parses_alt_cons; [by eexists _, _| |exact Hk].
    change (bs ")?" ++ rest) with (bs ")" ++ bs "?" ++ rest).
    eapply parses_noncapturing; [|by apply quantify_opt].
    apply parses_disj_alt; [by right; eexists|]. apply parses_chars; [done|].
    eapply parses_alt_cons; [by eexists _, _| |apply parses_alt_end; by right; eexists].
    eapply parses_capturing; [done|apply Hv|by apply quantify_none].
  - apply parses_chars; [done|]. eapply parses_alt_cons; [by eexists _, _| |exact Hk].
    eapply parses_capturing; [done|apply Hv|by apply quantify_none].
  - apply parses_chars; [done|]. eapply parses_alt_cons; [by eexists _, _| |exact Hk].
    eapply parses_capturing; [done|apply Hv|by apply quantify_none].
Qed.

Lemma noquant_token p rest : noquant rest -> noquant (token_text (token_of p) ++ rest).
Proof.
  intros Hq. destruct p as [path|name prefix delim optional repeat partial pattern expr]; simpl.
  - by apply noquant_escape.
  - rewrite capture_text_eq. destruct optional, partial; simpl; rewrite <- ?app_assoc; try done;
      by apply noquant_escape.
Qed.

Definition count_captures (ps : list piece) : nat := sum_list (captures <$> ps).

Lemma parses_route ps : forall n rest k s',
  Forall piece_ok ps -> noquant rest -> parses_alt (n + count_captures ps) rest k (n + count_captures ps) s' ->
  parses_alt n (flat_map (fun p => token_text (token_of p)) ps ++ rest) (route_re n ps k)
    (n + count_captures ps) s'.
Proof.
  induction ps as [|p ps IH]; intros n rest k s' Hok Hq Hk; unfold count_captures in *; simpl in *.
  - by rewrite Nat.add_0_r in *.
  - apply Forall_cons_iff in Hok as [Hp Hps]. rewrite <- app_assoc. rewrite Nat.add_assoc in *.
    assert (Hq' : noquant (flat_map (fun p => token_text (token_of p)) ps ++ rest)).
    { clear -Hq. induction ps as [|p ps IH]; [done|]. simpl. rewrite <- app_assoc. by apply noquant_token. }
    apply parses_piece; [done|done|]. by apply IH.
Qed.

(** Options for routes that match whole targets, with the default end. *)
Definition plain_ending (o : options_t) : Prop := ending o = true /\ ends_with o = [].

Lemma route_tail_ending tokens o :
  plain_ending o ->
  route_tail tokens o
  = (if negb (strict o) then bs "(?:" ++ escape_string (delimiter o) ++ bs ")?" else []) ++ bs "$".
Proof.
  intros [He Hw]. unfold route_tail, make_ends_with. rewrite He, Hw. by destruct (negb (strict o)).
Qed.

Lemma parses_tail n tokens o :
  plain_ending o -> parses_alt n (route_tail tokens o) (tail_re o) n [].
Proof.
  intros Ho. rewrite route_tail_ending by done. unfold tail_re.
  assert (Hend : parses_alt n (bs "$") (Seq Eol Eps) n []).
  { eapply parses_alt_cons; [by eexists _, _|by exists 1%nat|by exists 1%nat]. }
  destruct (strict o); [done|]. cbn [negb]. rewrite <- !app_assoc.
  eapply parses_alt_cons; [by eexists _, _| |exact Hend].
  eapply parses_noncapturing; [|by apply quantify_opt].
  apply parses_disj_alt; [by right; eexists|]. change (bs ")?" ++ ?s) with (bs ")" ++ bs "?" ++ s).
  apply parses_chars; [done|]. apply parses_alt_end. by right; eexists.
Qed.

(** The expression of a route compiles, with one group per parameter. *)
Lemma route_compiles ps o :
  Forall piece_ok ps -> plain_ending o ->
  compile_regex (bs "^" ++ flat_map (fun p => token_text (token_of p)) ps
                 ++ route_tail (map token_of ps) o) (sensitive o)
  = Compiled (mk_regex (negb (sensitive o)) (Seq Bol (route_re 0 ps (tail_re o))) (count_captures ps)).
Proof.
  intros Hok Ho. unfold compile_regex. erewrite parses_regex; [done|].
  apply parses_disj_alt; [by left|]. eapply parses_alt_cons; [by eexists _, _|by exists 1%nat|].
  apply (parses_route ps 0); [done| |by apply parses_tail].
  rewrite route_tail_ending by done. by destruct (strict o).
Qed.

(** ** What a list of tokens matches *)

(** Text is compared letter by letter, without case unless the route is
    sensitive. *)
Definition letter (icase : bool) (c : byte) : byte := if icase then lower c else c.
Definition same (icase : bool) (u p : list byte) : Prop := letter icase <$> u = letter icase <$> p.

(** The range of the value inside the matched text, if the parameter is
    there. *)
Definition param_match (icase : bool) (prefix : list byte) (values : re)
  (w : list byte) (v : option (nat * nat)) : Prop :=
  exists u x, w = u ++ x /\ same icase u prefix /\ lang icase values x /\ v = Some (length u, length w).

(** [p] matches the text [w], with the value at [v]. *)
Definition piece_match (icase : bool) (p : piece) (w : list byte) (v : option (nat * nat)) : Prop :=
  match p with
  | Text path => same icase w path /\ v = None
  | Param _ prefix _ optional repeat partial _ expr =>
      let values := values_re prefix repeat expr in
      if optional then
        if negb partial then (w = [] /\ v = None) \/ (w <> [] /\ param_match icase prefix values w v)
        else (same icase w prefix /\ v = None)
             \/ (exists a, v = Some (a, length w) /\ (a < length w)%nat
                          /\ param_match icase prefix values w v)
      else param_match icase prefix values w v
  end.

Definition tail_match (icase : bool) (o : options_t) (w : list byte) : Prop :=
  w = [] \/ (strict o = false /\ same icase w (delimiter o)).

Definition slice (s : list byte) (v : option (nat * nat)) : list byte :=
  match v with Some (a, b) => take (b - a) (drop a s) | None => [] end.

(** The route matches the whole of [s], its parameters having these values. *)
Fixpoint route_match (icase : bool) (o : options_t) (ps : list piece) (s : list byte)
  (values : list (list byte)) : Prop :=
  match ps with
  | [] => tail_match icase o s /\ values = []
  | p :: ps =>
      exists w rest v vs, s = w ++ rest /\ piece_match icase p w v /\ route_match icase o ps rest vs
        /\ values = match p with Text _ => vs | Param _ _ _ _ _ _ _ _ => slice w v :: vs end
  end.

(** ** The engine agrees *)

Lemma chr_match icase c d :
  cls_match icase false [Crange c c] d = Byte.eqb (letter icase d) (letter icase c).
Proof.
  apply eqb_prop. revert c d. apply byte_all2_true. destruct icase; vm_compute; reflexivity.
Qed.

Lemma ms_chars icase p k : forall st st',
  In st' (ms icase (chars p k) st) <->
  exists u rest, mrest st = u ++ rest /\ same icase u p /\ In st' (ms icase k (advance u rest st)).
Proof.
  induction p as [|c p IH]; intros st st'.
  - simpl. split.
    + intros H. exists [], (mrest st). by rewrite advance_nil.
    + intros (u & rest & E & Hu & H). apply fmap_nil_inv in Hu as ->. simpl in E. subst rest.
      by rewrite advance_nil in H.
  - change (chars (c :: p) k) with (Seq (Chr c) (chars p k)).
    cbn [ms Chr]. destruct (mrest st) as [|d rest] eqn:E.
    { split; [done|]. intros (u & rest & Eu & Hu & _). by destruct u. }
    rewrite chr_match. destruct (Byte.eqb _ _) eqn:Hc.
    + cbn [flat_map]. rewrite app_nil_r, IH. apply Byte.byte_dec_bl in Hc. simpl. split.
      * intros (u & r & -> & Hu & H). exists (d :: u), r. split; [done|].
        split; [unfold same; simpl; by f_equal|].
        unfold advance in *. simpl in *. by rewrite Nat.add_succ_r.
      * intros (u & r & Eu & Hu & H). destruct u as [|d' u]; [done|]. injection Eu as <- ->.
        injection Hu as _ Hu. exists u, r. split; [done|]. split; [done|].
        unfold advance in *. simpl in *. by rewrite Nat.add_succ_r in H.
    + split; [done|]. intros (u & r & Eu & Hu & _). destruct u as [|d' u]; [done|].
      injection Eu as <- ->. injection Hu as Hd _. by rewrite Hd, (Byte.byte_dec_lb eq_refl) in Hc.
Qed.

(** An optional expression: skipped, or matched with something. *)
Lemma ms_optional icase b st st' :
  In st' (ms icase (Rep 0 (Some 1%nat) true b) st) <->
  st' = st \/ (In st' (ms icase b (clear_caps (groups b) st)) /\ mpos st' <> mpos st).
Proof.
  cbn [ms]. change (0 + S (length (mrest st)))%nat with (S (length (mrest st))).
  set (m := fun st => ms icase b (clear_caps (groups b) st)).
  assert (Hlast : forall f x, rep_loop m true (S f) 0 (Some 0%nat) x = [x]) by done.
  cbn [rep_loop]. rewrite bool_decide_eq_false_2 by done. rewrite in_app_iff, in_flat_map.
  split.
  - intros [(x & [Hx Hne]%filter_In & H)|[->|[]]]; [|by left].
    destruct (length (mrest st)); [done|]. cbn [Nat.pred fmap option_fmap option_map] in H.
    rewrite Hlast in H. destruct H as [->|[]]. right. split; [done|].
    by apply negb_true_iff, Nat.eqb_neq in Hne.
  - intros [->|[H Hne]]; [right; by left|left]. exists st'. split.
    + apply filter_In. split; [done|]. by apply negb_true_iff, Nat.eqb_neq.
    + apply ms_consumes in H as (w & E & Hp). simpl in E, Hp.
      destruct (mrest st) as [|c r]; [symmetry in E; apply app_nil in E as [-> _]; simpl in Hp; lia|].
      simpl. by left.
Qed.

Lemma pure_chars p k : pure (chars p k) = pure k.
Proof. induction p as [|c p IH]; [done|]. simpl. by rewrite IH. Qed.

Lemma groups_chars p k : groups (chars p k) = groups k.
Proof. induction p as [|c p IH]; [done|]. simpl. by rewrite IH. Qed.

Lemma pure_values prefix repeat expr : pure expr = true -> pure (values_re prefix repeat expr) = true.
Proof.
  intros H. unfold values_re. destruct repeat; simpl; rewrite ?pure_chars; simpl; by rewrite H.
Qed.

(** The state after a piece behind [n] groups. *)
Definition after (n : nat) (w rest : list byte) (v : option (nat * nat)) (st : mstate) : mstate :=
  mk_state (mpos st + length w) rest
    (match v with
     | Some (a, b) => (S n, ((mpos st + a)%nat, (mpos st + b)%nat)) :: mcaps st
     | None => mcaps st
     end).

(** Only the first [n] groups have been captured. *)
Definition fresh (n : nat) (st : mstate) : Prop := Forall (fun e => (fst e <= n)%nat) (mcaps st).

Lemma clear_fresh n st : fresh n st -> clear_caps [S n] st = st.
Proof.
  destruct st as [p r c]. unfold fresh, clear_caps. simpl. intros H. f_equal.
  induction H as [|e c He _ IH]; [done|]. rewrite filter_cons_True, IH; [done|].
  rewrite list_elem_of_singleton. lia.
Qed.

Lemma fresh_after n w rest v st k : (S n <= k)%nat -> fresh n st -> fresh k (after n w rest v st).
Proof.
  intros Hk H. assert (Hs : fresh k st) by (eapply Forall_impl; [|exact H]; simpl; lia).
  unfold fresh, after. destruct v as [[a b]|]; [constructor; simpl; [lia|done]|done].
Qed.

Section Semantics.
Variable icase : bool.

Lemma ms_group n V st x :
  pure V = true ->
  In x (ms icase (Group (S n) V) st) <->
  exists y rest, mrest st = y ++ rest /\ lang icase V y /\ x = after n y rest (Some (0%nat, length y)) st.
Proof.
  intros HV. cbn [ms]. rewrite in_map_iff. split.
  - intros (z & <- & (y & rest & E & Hy & ->)%ms_lang); [|done]. exists y, rest.
    unfold after, advance, set_cap. simpl. by rewrite Nat.add_0_r.
  - intros (y & rest & E & Hy & ->). exists (advance y rest st). split.
    + unfold after, advance, set_cap. simpl. by rewrite Nat.add_0_r.
    + apply ms_lang; naive_solver.
Qed.

Lemma ms_param n prefix V k st st' :
  pure V = true ->
  In st' (ms icase (chars prefix (Seq (Group (S n) V) k)) st) <->
  exists w rest v, mrest st = w ++ rest /\ param_match icase prefix V w v
    /\ In st' (ms icase k (after n w rest v st)).
Proof.
  intros HV. rewrite ms_chars. split.
  - intros (u & rest & E & Hu & H). cbn [ms] in H. apply in_flat_map in H as (x & Hx & H).
    apply (ms_group n V _ _ HV) in Hx as (y & rest' & E' & Hy & ->). simpl in E'. subst rest.
    exists (u ++ y), rest', (Some (length u, length (u ++ y))). rewrite <- app_assoc. split; [done|].
    split; [by exists u, y|]. unfold after, advance in *. simpl in *.
    rewrite length_app, Nat.add_assoc. by rewrite Nat.add_0_r in H.
  - intros (w & rest & v & E & (u & x & -> & Hu & Hx & ->) & H). exists u, (x ++ rest).
    rewrite app_assoc. split; [done|]. split; [done|]. cbn [ms]. apply in_flat_map.
    exists (after n x rest (Some (0%nat, length x)) (advance u (x ++ rest) st)).
    split; [apply ms_group; naive_solver|]. unfold after, advance in *. simpl in *.
    rewrite length_app, Nat.add_assoc in H. by rewrite Nat.add_0_r.
Qed.

Lemma after_nil n rest st : mrest st = rest -> after n [] rest None st = st.
Proof. intros <-. unfold after. simpl. rewrite Nat.add_0_r. by destruct st. Qed.

Lemma mpos_after n w rest v st : mpos (after n w rest v st) <> mpos st <-> w <> [].
Proof. destruct w; simpl; [|split; [done|lia]]. split; [lia|done]. Qed.

(** "prefix(values)?" *)
Lemma ms_partial_param n prefix V k st st' :
  pure V = true -> fresh n st ->
  In st' (ms icase (chars prefix (Seq (Rep 0 (Some 1%nat) true (Group (S n) V)) k)) st) <->
  exists w rest v, mrest st = w ++ rest
    /\ ((same icase w prefix /\ v = None)
        \/ (exists a, v = Some (a, length w) /\ (a < length w)%nat /\ param_match icase prefix V w v))
    /\ In st' (ms icase k (after n w rest v st)).
Proof.
  intros HV Hf. assert (Hg : groups (Group (S n) V) = [S n]) by (simpl; by rewrite pure_groups).
  rewrite ms_chars. split.
  - intros (u & rest & E & Hu & H). cbn [ms] in H. apply in_flat_map in H as (x & Hx & H).
    apply (ms_optional icase (Group (S n) V)) in Hx as [->|[Hx Hne]].
    + exists u, rest, None. split; [done|]. split; [by left|done].
    + rewrite Hg, clear_fresh in Hx by done.
      apply ms_group in Hx as (y & rest' & E' & Hy & ->); [|done]. simpl in E'. subst rest.
      rewrite mpos_after in Hne.
      exists (u ++ y), rest', (Some (length u, length (u ++ y))). rewrite <- app_assoc.
      split; [done|]. split.
      * right. exists (length u). split; [done|]. split; [|by exists u, y].
        rewrite length_app. destruct y; [done|simpl; lia].
      * unfold after, advance in *. simpl in *. rewrite length_app, Nat.add_assoc.
        by rewrite Nat.add_0_r in H.
  - intros (w & rest & v & E & [[Hw ->]|(a & -> & Ha & Hm)] & H).
    + exists w, rest. split; [done|]. split; [done|]. cbn [ms]. apply in_flat_map.
      exists (advance w rest st). split; [|done]. apply (ms_optional icase (Group (S n) V)). by left.
    + destruct Hm as (u & x & -> & Hu & Hx & [= ->]). exists u, (x ++ rest). rewrite app_assoc.
      split; [done|]. split; [done|]. cbn [ms]. apply in_flat_map.
      exists (after n x rest (Some (0%nat, length x)) (advance u (x ++ rest) st)). split.
      * apply (ms_optional icase (Group (S n) V)). right. rewrite Hg, clear_fresh by done.
        rewrite mpos_after. split; [apply ms_group; naive_solver|]. intros ->. rewrite app_nil_r in Ha. lia.
      * unfold after, advance in *. simpl in *. rewrite length_app, Nat.add_assoc in H.
        by rewrite Nat.add_0_r.
Qed.

(** "(?:prefix(values))?" *)
Lemma ms_optional_param n prefix V k st st' :
  pure V = true -> fresh n st ->
  In st' (ms icase (Seq (Rep 0 (Some 1%nat) true (chars prefix (Seq (Group (S n) V) Eps))) k) st) <->
  exists w rest v, mrest st = w ++ rest
    /\ ((w = [] /\ v = None) \/ (w <> [] /\ param_match icase prefix V w v))
    /\ In st' (ms icase k (after n w rest v st)).
Proof.
  intros HV Hf. set (b := chars prefix (Seq (Group (S n) V) Eps)).
  assert (Hb : groups b = [S n]) by (unfold b; rewrite groups_chars; simpl; by rewrite pure_groups).
  cbn [ms]. rewrite in_flat_map. split.
  - intros (x & Hx & H). apply (ms_optional icase b) in Hx as [->|[Hx Hne]].
    + exists [], (mrest st), None. split; [done|]. split; [by left|]. by rewrite after_nil.
    + rewrite Hb, clear_fresh in Hx by done.
      apply ms_param in Hx as (w & rest & v & E & Hm & [<-|[]]); [|done].
      rewrite mpos_after in Hne. exists w, rest, v. split; [done|]. split; [by right|done].
  - intros (w & rest & v & E & Hm & H). exists (after n w rest v st). split; [|done].
    apply (ms_optional icase b). destruct Hm as [[-> ->]|[Hw Hm]]; [left; by apply after_nil|right].
    rewrite Hb, clear_fresh by done. rewrite mpos_after. split; [|done]. apply ms_param; [done|].
    exists w, rest, v. split; [done|]. split; [done|]. by left.
Qed.

Lemma ms_piece n p k st st' :
  piece_ok p -> fresh n st ->
  In st' (ms icase (piece_re n p k) st) <->
  exists w rest v, mrest st = w ++ rest /\ piece_match icase p w v
    /\ In st' (ms icase k (after n w rest v st)).
Proof.
  intros Hok Hf. destruct p as [path|name prefix delim optional repeat partial pattern expr].
  { simpl. rewrite ms_chars. split.
    - intros (u & rest & E & Hu & H). by exists u, rest, None.
    - intros (w & rest & v & E & [Hw ->] & H). by exists w, rest. }
  destruct Hok as [_ HV]. apply (pure_values prefix repeat) in HV. cbn [piece_re piece_match].
  destruct optional; [destruct partial|];
    [by apply ms_partial_param|by apply ms_optional_param|by apply ms_param].
Qed.

Lemma ms_end st st' : In st' (ms icase (Seq Eol Eps) st) <-> mrest st = [] /\ st' = st.
Proof.
  simpl. destruct (mrest st); simpl; [|split; [done|by intros [? _]]].
  split; [by intros [<-|[]]|intros [_ ->]; by left].
Qed.

Lemma ms_tail o st st' :
  In st' (ms icase (tail_re o) st) <-> tail_match icase o (mrest st) /\ st' = advance (mrest st) [] st.
Proof.
  assert (Hnil : forall st, mrest st = [] -> advance [] [] st = st)
    by (intros x Hx; rewrite <- Hx at 2; apply advance_nil).
  unfold tail_re, tail_match. destruct (strict o); cbn [negb].
  { rewrite ms_end. split; [intros [E ->]; rewrite E, Hnil by done; auto|].
    intros [[E|[? _]] ->]; [|done]. split; [done|]. by rewrite E, Hnil. }
  cbn [ms]. rewrite in_flat_map. split.
  - intros (x & Hx & H). apply ms_end in H as [E ->].
    apply (ms_optional icase (chars (delimiter o) Eps)) in Hx as [->|[Hx _]].
    + rewrite E, Hnil by done. auto.
    + rewrite groups_chars, clear_caps_nil in Hx. apply ms_chars in Hx as (u & rest & E' & Hu & [<-|[]]).
      simpl in E. subst rest. rewrite app_nil_r in E'. rewrite E'. auto.
  - intros [Ht ->]. exists (advance (mrest st) [] st). split; [|by apply ms_end].
    apply (ms_optional icase (chars (delimiter o) Eps)). rewrite groups_chars, clear_caps_nil.
    destruct (decide (mrest st = [])) as [E|Hne]; [left; by rewrite E, Hnil|right].
    destruct Ht as [?|[_ Ht]]; [done|]. split.
    + apply ms_chars. exists (mrest st), []. rewrite app_nil_r. split; [done|]. split; [done|]. by left.
    + simpl. destruct (mrest st); [done|simpl; lia].
Qed.

Lemma capture_after n w rest v st m : (m <= n)%nat ->
  capture m (mcaps (after n w rest v st)) = capture m (mcaps st).
Proof. intros Hm. destruct v as [[a b]|]; [|done]. simpl. destruct m; [done|]. by rewrite (proj2 (Nat.eqb_neq _ _)) by lia. Qed.

Lemma capture_fresh n st : fresh n st -> capture (S n) (mcaps st) = None.
Proof.
  unfold fresh. induction 1 as [|[k range] caps Hk _ IH]; [done|]. simpl in *.
  by rewrite (proj2 (Nat.eqb_neq _ _)) by lia.
Qed.

(** The value of a parameter lies in the text its piece matches. *)
Lemma piece_match_value p w v :
  piece_match icase p w v -> match v with Some (a, b) => (a <= b <= length w)%nat | None => True end.
Proof.
  assert (Hp : forall prefix V, param_match icase prefix V w v ->
            match v with Some (a, b) => (a <= b <= length w)%nat | None => True end).
  { intros prefix V (u & x & -> & _ & _ & ->). rewrite length_app. lia. }
  destruct p as [path|name prefix delim [] repeat [] pattern expr]; simpl.
  - by intros [_ ->].
  - intros [[_ ->]|(a & -> & Ha & _)]; [done|lia].
  - intros [[_ ->]|[_ H]]; [done|]. by eapply Hp.
  - by apply Hp.
  - by apply Hp.
Qed.

Lemma slice_after T n w rest v st :
  drop (mpos st) T = w ++ rest -> fresh n st ->
  match v with Some (a, b) => (a <= b <= length w)%nat | None => True end ->
  slice T (capture (S n) (mcaps (after n w rest v st))) = slice w v.
Proof.
  intros E Hf Hv. destruct v as [[a b]|]; cbn [after mcaps]; [|by rewrite capture_fresh].
  cbn [capture]. rewrite Nat.eqb_refl. simpl. replace (mpos st + b - (mpos st + a))%nat with (b - a)%nat by lia.
  rewrite <- drop_drop, E, drop_app_le by lia. apply take_app_le. rewrite length_drop. lia.
Qed.

Lemma ms_route_sound o T ps : forall n st st',
  Forall piece_ok ps -> fresh n st -> mrest st = drop (mpos st) T ->
  In st' (ms icase (route_re n ps (tail_re o)) st) ->
  (forall m, (m <= n)%nat -> capture m (mcaps st') = capture m (mcaps st)) /\ mrest st' = []
  /\ route_match icase o ps (mrest st)
       (map (fun m => slice T (capture m (mcaps st'))) (seq (S n) (count_captures ps))).
Proof.
  induction ps as [|p ps IH]; intros n st st' Hok Hf HT H.
  { apply ms_tail in H as [Ht ->]. done. }
  apply Forall_cons_iff in Hok as [Hp Hps]. cbn [route_re] in H.
  apply ms_piece in H as (w & rest & v & E & Hm & H); [|done|done].
  assert (HT' : rest = drop (mpos st + length w) T).
  { rewrite <- drop_drop, <- HT, E. by rewrite drop_app_length. }
  assert (Hf' : fresh (n + captures p) (after n w rest v st)).
  { destruct p; simpl in *; [destruct Hm as [_ ->]; by rewrite Nat.add_0_r|].
    apply fresh_after; [lia|done]. }
  destruct (IH _ _ _ Hps Hf' HT' H) as (Hc & Hr & Hroute). clear IH.
  split; [|split; [done|]].
  { intros m Hle. rewrite Hc by lia. by apply capture_after. }
  cbn [route_match]. eexists w, rest, v, _. split; [done|]. split; [done|]. split; [exact Hroute|].
  destruct p; unfold count_captures; cbn [fmap list_fmap sum_list sum_list_with captures]; simpl.
  - by rewrite Nat.add_0_r.
  - rewrite Nat.add_1_r. f_equal. rewrite Hc by (simpl; lia).
    apply slice_after; [by rewrite <- HT|done|]. by eapply piece_match_value.
Qed.

Lemma ms_route_complete o ps : forall n st vs,
  Forall piece_ok ps -> fresh n st -> route_match icase o ps (mrest st) vs ->
  exists st', In st' (ms icase (route_re n ps (tail_re o)) st).
Proof.
  induction ps as [|p ps IH]; intros n st vs Hok Hf H.
  { destruct H as [Ht _]. eexists. by apply ms_tail. }
  apply Forall_cons_iff in Hok as [Hp Hps].
  destruct H as (w & rest & v & vs' & E & Hm & H & _).
  assert (Hf' : fresh (n + captures p) (after n w rest v st)).
  { destruct p; simpl in *; [destruct Hm as [_ ->]; by rewrite Nat.add_0_r|].
    apply fresh_after; [lia|done]. }
  destruct (IH (n + captures p)%nat (after n w rest v st) vs' Hps Hf' H) as [st' Hin].
  exists st'. apply ms_piece; [done|done|]. by exists w, rest, v.
Qed.

End Semantics.

(** ** Routes and targets *)

Lemma search_bol icase r s :
  search icase (Seq Bol r) 0 s
  = match ms icase r (mk_state 0 s []) with st :: _ => Some (0%nat, st) | [] => None end.
Proof.
  assert (Hlater : forall s pos, search icase (Seq Bol r) (S pos) s = None)
    by (induction s0 as [|c s' IH]; intros pos; [done|apply IH]).
  destruct s as [|c s]; cbn [search ms flat_map]; simpl; rewrite app_nil_r.
  - done.
  - destruct (ms icase r _); [apply Hlater|done].
Qed.

(** What the engine answers for a route: it matches exactly the targets the
    route reads as, and reports values the parameters can have. *)
Lemma try_match_route icase ps o target :
  Forall piece_ok ps ->
  let r := mk_regex icase (Seq Bol (route_re 0 ps (tail_re o))) (count_captures ps) in
  match try_match target r with
  | Some l => exists vs, route_match icase o ps target vs /\ map (fun m => slice target (Some m)) l = target :: vs
  | None => forall vs, ~ route_match icase o ps target vs
  end.
Proof.
  intros Hok r. unfold try_match, r. cbn [re_icase re_expr re_groups]. rewrite search_bol.
  destruct (ms icase _ _) as [|st l] eqn:E.
  - intros vs H. destruct (ms_route_complete icase o ps 0 (mk_state 0 target []) vs) as [st' H'];
      [done|constructor|done|]. by rewrite E in H'.
  - assert (Hin : In st (ms icase (route_re 0 ps (tail_re o)) (mk_state 0 target []))) by (rewrite E; by left).
    pose proof (ms_consumes _ _ _ _ Hin) as (w & Hw & Hpos).
    apply (ms_route_sound icase o target) in Hin as (_ & Hr & Hm); [|done|constructor|done].
    simpl in *. rewrite Hr, app_nil_r in Hw. subst w. eexists. split; [exact Hm|].
    simpl. rewrite Hpos, Nat.sub_0_r, firstn_all. f_equal.
    rewrite map_map. apply map_ext. intros m. destruct (capture m (mcaps st)); [done|]. simpl.
    by rewrite Nat.sub_diag.
Qed.

End RouteMatch.
