(* ===== verification/RouteSyntax.v ===== *)
(** * Cutting a route into tokens

    [parse] of [Path2Regex] finds the tokens of a route with one search per
    token.  Here its result is determined for the routes written as literal
    text with named parameters: ":name", an optional pattern in brackets and an
    optional modifier. *)

From S2P Require Import Prelude Regex RegexTheory Path2Regex RouteMatch.

Module RouteSyntax.
Import Regex RegexTheory Path2Regex RouteMatch.

(** ** The match backtracking finds first *)

Definition first (r : re) (st st' : mstate) : Prop := exists l, ms false r st = st' :: l.

Lemma first_eps st : first Eps st st.
Proof. by exists []. Qed.

Lemma first_seq a b st x y : first a st x -> first b x y -> first (Seq a b) st y.
Proof. intros [l H] [l' H']. unfold first. simpl. rewrite H. simpl. rewrite H'. by eexists. Qed.

Lemma first_left a b st x : first a st x -> first (Alt a b) st x.
Proof. intros [l H]. unfold first. simpl. rewrite H. by eexists. Qed.

Lemma first_right a b st x : ms false a st = [] -> first b st x -> first (Alt a b) st x.
Proof. intros H [l H']. unfold first. simpl. rewrite H, H'. by eexists. Qed.

Lemma first_group n r st x : first r st x -> first (Group n r) st (set_cap n (mpos st) x).
Proof. intros [l H]. unfold first. simpl. rewrite H. by eexists. Qed.

Lemma first_cls neg items st c rest :
  mrest st = c :: rest -> cls_match false neg items c = true ->
  first (Cls neg items) st (mk_state (S (mpos st)) rest (mcaps st)).
Proof. intros E H. unfold first. simpl. rewrite E, H. by eexists. Qed.

Lemma first_opt b st x :
  first b (clear_caps (groups b) st) x -> mpos x <> mpos st -> mrest st <> [] ->
  first (Rep 0 (Some 1%nat) true b) st x.
Proof.
  intros [l H] Hp Hr. unfold first. cbn [ms]. destruct (mrest st) as [|c rest]; [done|].
  cbn [length Nat.add rep_loop]. rewrite bool_decide_eq_false_2 by done. rewrite H. cbn [List.filter].
  rewrite (proj2 (Nat.eqb_neq _ _) Hp). by eexists.
Qed.

Lemma skip_opt b st :
  ms false b (clear_caps (groups b) st) = [] -> first (Rep 0 (Some 1%nat) true b) st st.
Proof.
  intros H. unfold first. cbn [ms Nat.add rep_loop]. rewrite bool_decide_eq_false_2 by done.
  rewrite H. by eexists.
Qed.

(** Repetition of a unit that matches in at most one way. *)
Inductive chain (m : mstate -> list mstate) : nat -> mstate -> mstate -> Prop :=
| chain_stop st : m st = [] -> chain m 0 st st
| chain_step k st x y :
    m st = [x] -> (mpos st < mpos x)%nat -> (length (mrest x) < length (mrest st))%nat ->
    chain m k x y -> chain m (S k) st y.

Lemma rep_loop_chain m k st y : chain m k st y -> forall fuel lo,
  (k < fuel)%nat -> (lo <= k)%nat -> exists l, rep_loop m true fuel lo None st = y :: l.
Proof.
  induction 1 as [st Hm|k st x y Hm Hp _ _ IH]; intros fuel lo Hf Hlo;
    (destruct fuel as [|fuel]; [lia|]); cbn [rep_loop]; rewrite bool_decide_eq_false_2, Hm by done.
  - replace lo with 0%nat by lia. by eexists.
  - cbn [List.filter]. rewrite (proj2 (Nat.eqb_neq (mpos x) (mpos st))), orb_true_r by lia.
    cbn [flat_map]. destruct (IH fuel (pred lo)) as [l Hl]; [lia|lia|].
    change (pred <$> None) with (@None nat). rewrite Hl. by eexists.
Qed.

Lemma chain_length m k st y : chain m k st y -> (k <= length (mrest st))%nat.
Proof. induction 1; lia. Qed.

Lemma first_rep r k st y lo :
  groups r = [] -> chain (ms false r) k st y -> (lo <= k)%nat -> first (Rep lo None true r) st y.
Proof.
  intros Hg Hc Hlo. unfold first. cbn [ms]. rewrite Hg. pose proof (chain_length _ _ _ _ Hc).
  assert (Hc' : chain (fun st => ms false r (clear_caps [] st)) k st y).
  { clear -Hc. induction Hc; econstructor; rewrite ?clear_caps_nil; eauto. }
  apply (rep_loop_chain _ _ _ _ Hc'); lia.
Qed.

(** ** Cutting a route *)

Definition special (c : byte) : bool := one_of (bs "\:(") c.

Lemma main_path_regex_misses c rest pos :
  special c = false -> ms false main_path_regex (mk_state pos (c :: rest) []) = [].
Proof.
  intros Hc. unfold special in Hc. simpl in Hc. rewrite !orb_false_iff in Hc.
  destruct Hc as (H1 & H2 & H3 & _).
  assert (Hchr : forall d, Byte.eqb c d = false -> cls_match false false [Crange d d] c = false)
    by (intros d Hd; by rewrite chr_match).
  let r := eval vm_compute in main_path_regex in change main_path_regex with r.
  change (Cls false [Crange ?a ?a]) with (Chr a).
  cbn [ms mrest Chr]. rewrite !Hchr by done. done.
Qed.

Lemma search_skips u rest : forall pos,
  forallb (fun c => negb (special c)) u = true ->
  search false main_path_regex pos (u ++ rest) = search false main_path_regex (pos + length u) rest.
Proof.
  induction u as [|c u IH]; intros pos Hu; [by rewrite Nat.add_0_r|].
  simpl in Hu. apply andb_prop in Hu as [Hc%negb_true_iff Hu].
  rewrite <- app_comm_cons. cbn [search]. rewrite main_path_regex_misses by done.
  rewrite IH by done. simpl. by rewrite Nat.add_succ_r.
Qed.


(** ** The expression that finds the tokens *)

Definition word_re : re := Cls false [Cword false].
Definition unit_re : re :=
  Alt (Seq (Chr "\") (Seq (Cls true [Crange x0a x0a; Crange x0d x0d]) Eps))
      (Seq (Cls true [Crange "\" "\"; Crange "(" "("; Crange ")" ")"]) Eps).
Definition pattern_re (n : nat) : re :=
  Seq (Chr "(") (Seq (Group n (Seq (Rep 1 None true unit_re) Eps)) (Seq (Chr ")") Eps)).
Definition named_re : re :=
  Seq (Chr ":") (Seq (Group 2 (Seq (Rep 1 None true word_re) Eps))
    (Seq (Rep 0 (Some 1%nat) true (pattern_re 3)) Eps)).
Definition modifier_re : re :=
  Rep 0 (Some 1%nat) true (Group 5 (Seq (Cls false [Crange "+" "+"; Crange "*" "*"; Crange "?" "?"]) Eps)).

Lemma main_path_regex_eq :
  main_path_regex
  = Alt (Seq (Group 1 (Seq (Chr "\") (Seq (Cls true [Crange x0a x0a; Crange x0d x0d]) Eps))) Eps)
      (Seq (Alt named_re (pattern_re 4)) (Seq modifier_re Eps)).
Proof. vm_compute. reflexivity. Qed.

(** ** Routes with named parameters *)

(** An element of a pattern: a character other than a backslash or a bracket,
    or an escaped character. *)
Definition unit_ok (u : list byte) : bool :=
  match u with
  | [c] => negb (one_of (bs "\()") c)
  | [b; c] => Byte.eqb b "\" && negb (one_of [x0a; x0d] c)
  | _ => false
  end.

(** Literal text followed by a parameter. *)
Record segment := mk_segment {
  p_lit : list byte;
  p_name : list byte;
  p_pattern : list (list byte);   (* none if empty *)
  p_modifier : option byte
}.

Definition pattern_text (u : list (list byte)) : list byte :=
  match u with [] => [] | _ => bs "(" ++ concat u ++ bs ")" end.

Definition param_text (p : segment) : list byte :=
  bs ":" ++ p_name p ++ pattern_text (p_pattern p) ++ option_list (p_modifier p).

Definition segment_text (p : segment) : list byte := p_lit p ++ param_text p.

(** What cannot follow a parameter without becoming part of it. *)
Definition ends_param (s : list byte) : bool :=
  match s with c :: _ => negb (is_word c || one_of (bs "(+*?") c) | [] => true end.

Definition literal (u : list byte) : bool := forallb (fun c => negb (one_of (bs "\:()") c)) u.

Definition segment_ok (p : segment) : bool :=
  literal (p_lit p) && negb (bool_decide (p_name p = [])) && forallb is_word (p_name p)
  && forallb unit_ok (p_pattern p)
  && match p_modifier p with Some c => one_of (bs "+*?") c | None => true end.

Lemma chr_false c d : cls_match false false [Crange d d] c = Byte.eqb c d.
Proof. apply chr_match. Qed.

Lemma word_chain name : forall pos rest caps,
  forallb is_word name = true -> match rest with c :: _ => is_word c = false | [] => True end ->
  chain (ms false word_re) (length name)
    (mk_state pos (name ++ rest) caps) (mk_state (pos + length name) rest caps).
Proof.
  assert (Hw : forall c, cls_match false false [Cword false] c = is_word c)
    by (intros c; unfold cls_match; simpl; by rewrite orb_false_r).
  induction name as [|c name IH]; intros pos rest caps Hn Hr; simpl in *.
  - rewrite Nat.add_0_r. constructor. simpl. destruct rest as [|c rest]; [done|]. by rewrite Hw, Hr.
  - apply andb_prop in Hn as [Hc Hn]. rewrite <- Nat.add_succ_comm.
    apply chain_step with (mk_state (S pos) (name ++ rest) caps); simpl; [by rewrite Hw, Hc|lia|lia|].
    by apply IH.
Qed.

Lemma between_same d c : between d d c = Byte.eqb c d.
Proof. rewrite <- chr_false. unfold cls_match. simpl. by rewrite orb_false_r. Qed.

Lemma unit_step u pos rest caps :
  unit_ok u = true ->
  ms false unit_re (mk_state pos (u ++ rest) caps) = [mk_state (pos + length u) rest caps].
Proof.
  unfold unit_ok, unit_re. intros Hu. destruct u as [|b [|c [|]]]; try done; simpl.
  - apply negb_true_iff in Hu. simpl in Hu. rewrite !orb_false_iff in Hu. destruct Hu as (H1 & H2 & H3 & _).
    rewrite !between_same, H1, H2, H3. simpl. by rewrite Nat.add_1_r.
  - apply andb_prop in Hu as [->%Byte.byte_dec_bl Hc%negb_true_iff].
    simpl in Hc. rewrite !orb_false_iff in Hc. destruct Hc as (H1 & H2 & _).
    simpl. rewrite !between_same, H1, H2. simpl. by rewrite Nat.add_comm.
Qed.

Lemma unit_chain us : forall pos rest caps,
  forallb unit_ok us = true ->
  chain (ms false unit_re) (length us)
    (mk_state pos (concat us ++ bs ")" ++ rest) caps) (mk_state (pos + length (concat us)) (bs ")" ++ rest) caps).
Proof.
  induction us as [|u us IH]; intros pos rest caps Hu; cbn [concat length forallb] in *.
  - rewrite Nat.add_0_r. by constructor.
  - apply andb_prop in Hu as [Hu Hus]. rewrite length_app, Nat.add_assoc, <- app_assoc.
    assert (Hl : (0 < length u)%nat) by (destruct u; [done|simpl; lia]).
    apply chain_step with (mk_state (pos + length u) (concat us ++ bs ")" ++ rest) caps);
      [by apply unit_step|simpl; lia|cbn [mrest]; rewrite (length_app u); lia|by apply IH].
Qed.

Lemma first_pattern n us pos rest caps :
  us <> [] -> forallb unit_ok us = true ->
  first (pattern_re n) (mk_state pos (pattern_text us ++ rest) caps)
    (mk_state (pos + length (pattern_text us)) rest ((n, (S pos, S pos + length (concat us))%nat) :: caps)).
Proof.
  intros Hne Hu. destruct us as [|u us]; [done|]. unfold pattern_text, pattern_re.
  set (c := concat (u :: us)).
  replace (pos + length (bs "(" ++ c ++ bs ")"))%nat with (S (S pos + length c))
    by (rewrite !length_app; simpl; lia).
  rewrite <- !app_assoc.
  eapply first_seq; [by eapply first_cls|]. cbn [mpos mcaps].
  eapply first_seq; [|eapply first_seq; [|apply first_eps]].
  - apply first_group. eapply first_seq; [|apply first_eps].
    eapply first_rep; [done|by apply unit_chain|simpl; lia].
  - by eexists.
Qed.

(** The captures of the match of a parameter at [pos]. *)
Definition param_caps (p : segment) (pos : nat) : list (nat * (nat * nat)) :=
  let name_end := (S pos + length (p_name p))%nat in
  let pattern_end := (name_end + length (pattern_text (p_pattern p)))%nat in
  match p_modifier p with Some _ => [(5%nat, (pattern_end, S pattern_end))] | None => [] end
  ++ match p_pattern p with
     | [] => []
     | us => [(3%nat, (S name_end, S name_end + length (concat us))%nat)]
     end
  ++ [(2%nat, (S pos, name_end))].

Lemma first_modifier m pos rest caps :
  match m with Some c => one_of (bs "+*?") c = true | None => ends_param rest = true end ->
  Forall (fun e => fst e <> 5%nat) caps ->
  first modifier_re (mk_state pos (option_list m ++ rest) caps)
    (mk_state (pos + length (option_list m)) rest
       (match m with Some _ => [(5%nat, (pos, S pos))] | None => [] end ++ caps)).
Proof.
  intros Hm Hc.
  assert (Hclear : clear_caps [5%nat] (mk_state pos (option_list m ++ rest) caps)
                   = mk_state pos (option_list m ++ rest) caps).
  { unfold clear_caps. simpl. f_equal. induction Hc as [|e c He _ IH]; [done|].
    rewrite filter_cons_True, IH; [done|]. by rewrite list_elem_of_singleton. }
  destruct m as [c|].
  - apply first_opt; [|simpl; lia|done]. cbn [groups app]. rewrite Hclear.
    assert (Hcls : cls_match false false [Crange "+" "+"; Crange "*" "*"; Crange "?" "?"] c = true).
    { unfold cls_match. simpl in *. by rewrite !between_same. }
    rewrite Nat.add_1_r. apply (first_group 5 _ (mk_state pos (c :: rest) caps) (mk_state (S pos) rest caps)).
    eapply first_seq; [by eapply first_cls|apply first_eps].
  - change (option_list None ++ rest) with rest in *. change (length (option_list None)) with 0%nat.
    rewrite Nat.add_0_r. apply skip_opt. cbn [groups app]. rewrite Hclear. simpl. destruct rest as [|c rest]; [done|]. simpl in Hm.
    rewrite !between_same.
    rewrite negb_true_iff, !orb_false_iff in Hm. destruct Hm as (_ & _ & H1 & H2 & H3 & _).
    by rewrite H1, H2, H3.
Qed.

Lemma pattern_skips n st :
  match mrest st with c :: _ => Byte.eqb c "(" = false | [] => True end ->
  ms false (pattern_re n) st = [].
Proof.
  intros H. simpl. destruct (mrest st) as [|c rest]; [done|]. by rewrite between_same, H.
Qed.

(** What follows the name of a parameter does not continue it. *)
Lemma after_name m rest c s :
  match m with Some c => one_of (bs "+*?") c | None => true end = true -> ends_param rest = true ->
  option_list m ++ rest = c :: s -> is_word c = false /\ Byte.eqb c "(" = false.
Proof.
  destruct m as [d|]; simpl.
  - rewrite !orb_true_iff. intros H _ [= <- _].
    destruct H as [H|[H|[H|]]]; [..|done]; by apply Byte.byte_dec_bl in H as ->.
  - intros _ Hr ->. simpl in Hr. rewrite negb_true_iff, !orb_false_iff in Hr. tauto.
Qed.

(** The first match at a parameter is the parameter. *)
Lemma first_param p pos rest :
  segment_ok p = true -> ends_param rest = true ->
  first main_path_regex (mk_state pos (param_text p ++ rest) [])
    (mk_state (pos + length (param_text p)) rest (param_caps p pos)).
Proof.
  unfold segment_ok. rewrite !andb_true_iff. intros ((((Hlit & Hne) & Hname) & Hpat) & Hmod) Hr.
  rewrite main_path_regex_eq. unfold param_text, param_caps. destruct p as [lit name us m]; simpl in *.
  replace (pos + S (length (name ++ pattern_text us ++ option_list m)))%nat
    with (S pos + length name + length (pattern_text us) + length (option_list m))%nat
    by (rewrite !length_app; lia).
  rewrite <- !app_assoc. apply first_right; [done|].
  eapply first_seq; [apply first_left|eapply first_seq; [apply first_modifier|apply first_eps]].
  - unfold named_re. eapply first_seq; [by eapply first_cls|].
    eapply first_seq; [apply first_group; eapply first_seq; [|apply first_eps]|].
    { eapply first_rep; [done|apply word_chain; [done|]|].
      - destruct us; [|done]. simpl. destruct (option_list m ++ rest) as [|c s] eqn:E; [done|].
        by apply after_name in E as [? _].
      - destruct name; [by rewrite bool_decide_eq_true_2 in Hne|simpl; lia]. }
    eapply first_seq; [|apply first_eps]. cbn [mpos mrest mcaps set_cap]. destruct us as [|u us].
    + cbn [pattern_text length app]. rewrite Nat.add_0_r. apply skip_opt, pattern_skips. simpl.
      destruct (option_list m ++ rest) as [|c s] eqn:E; [done|]. by apply after_name in E as [_ ?].
    + apply first_opt; [|simpl; lia|done]. by apply first_pattern.
  - by destruct m.
  - destruct us; repeat constructor; done.
Qed.

(** ** The tokens of a route *)

Definition route_text (segs : list segment) (fin : list byte) : list byte :=
  flat_map segment_text segs ++ fin.

Fixpoint route_ok (segs : list segment) (fin : list byte) : bool :=
  match segs with
  | [] => literal fin
  | p :: segs => segment_ok p && ends_param (route_text segs fin) && route_ok segs fin
  end.

(** The literal text before a parameter without its delimiter, and the
    delimiter, which becomes the prefix of the parameter. *)
Definition cut_prefix (o : options_t) (lit : list byte) : list byte * list byte :=
  if negb (bool_decide (lit = [])) && one_of (delimiters o) (List.last lit x00)
  then (removelast lit, [List.last lit x00]) else (lit, []).

Definition text_piece (lit : list byte) : list piece := match lit with [] => [] | _ => [Text lit] end.

Definition compiled_expr (pattern : list byte) : re :=
  match parse_regex pattern with Compiled (r, _) => r | _ => Eps end.

(** [next] is the text that follows the parameter. *)
Definition param_piece (o : options_t) (prefix : list byte) (p : segment) (next : list byte) : piece :=
  let delim := make_delimiter o prefix in
  let optional := match p_modifier p with Some c => one_of (bs "?*") c | None => false end in
  let repeat := match p_modifier p with Some c => one_of (bs "+*") c | None => false end in
  let partial := negb (bool_decide (prefix = [])) && negb (bool_decide (next = []))
                 && negb (bool_decide (prefix = take 1 next)) in
  let pattern := create_pattern delim (concat (p_pattern p)) in
  Param (named (p_name p)) prefix delim optional repeat partial pattern (compiled_expr pattern).

Fixpoint param_pieces (o : options_t) (segs : list segment) (fin : list byte) : list piece :=
  match segs with
  | [] => []
  | p :: segs =>
      text_piece (fst (cut_prefix o (p_lit p)))
      ++ [param_piece o (snd (cut_prefix o (p_lit p))) p (route_text segs fin)]
      ++ param_pieces o segs fin
  end.

Definition route_pieces (o : options_t) (segs : list segment) (fin : list byte) : list piece :=
  param_pieces o segs fin ++ text_piece fin.

Lemma literal_find u c : one_of (bs "\:()") c = true -> literal u = true -> find_char c u = None.
Proof.
  intros Hc Hu. unfold find_char. destruct (list_find _ u) as [[i d]|] eqn:E; [|done].
  apply list_find_Some in E as (Hi & -> & _). apply list_elem_of_lookup_2, list_elem_of_In in Hi.
  unfold literal in Hu. rewrite forallb_forall in Hu. apply Hu in Hi. by rewrite Hc in Hi.
Qed.

Lemma literal_checked u pos : literal u = true -> check_no_unescaped_brackets u pos = inl u.
Proof.
  intros Hu. unfold check_no_unescaped_brackets. by rewrite !literal_find by done.
Qed.

Lemma literal_not_special u : literal u = true -> forallb (fun c => negb (special c)) u = true.
Proof.
  unfold literal. rewrite !forallb_forall. intros H c Hc. apply H in Hc. unfold special.
  simpl in *. rewrite negb_true_iff, !orb_false_iff in *. tauto.
Qed.

Lemma search_none u pos : literal u = true -> search false main_path_regex pos u = None.
Proof.
  intros Hu. rewrite <- (app_nil_r u), search_skips by by apply literal_not_special.
  rewrite main_path_regex_eq. done.
Qed.

(** The match of a segment of a route. *)
Definition segment_rmatch (route : list byte) (pos : nat) (p : segment) (rest : list byte) : rmatch :=
  let start := (pos + length (p_lit p))%nat in
  mk_match (p_lit p) start (length (param_text p)) (group_text route (param_caps p start)) rest.

Fixpoint segment_matches (route : list byte) (pos : nat) (segs : list segment) (fin : list byte)
  : list rmatch :=
  match segs with
  | [] => []
  | p :: segs =>
      segment_rmatch route pos p (route_text segs fin)
      :: segment_matches route (pos + length (segment_text p)) segs fin
  end.

Lemma route_text_cons p segs fin :
  route_text (p :: segs) fin = p_lit p ++ param_text p ++ route_text segs fin.
Proof. unfold route_text. cbn [flat_map]. unfold segment_text at 1. by rewrite <- !app_assoc. Qed.

Lemma iterator_segments route segs fin : forall fuel pos,
  route_ok segs fin = true -> (length segs <= fuel)%nat ->
  regex_iterator fuel route pos (route_text segs fin) = segment_matches route pos segs fin.
Proof.
  induction segs as [|p segs IH]; intros fuel pos Hok Hf.
  - destruct fuel; [done|]. unfold route_text. simpl in *. by rewrite search_none.
  - cbn [route_ok] in Hok. rewrite !andb_true_iff in Hok. destruct Hok as ((Hp & He) & Hok).
    destruct fuel as [|fuel]; [simpl in Hf; lia|]. cbn [regex_iterator segment_matches].
    rewrite route_text_cons.
    assert (Hlit : literal (p_lit p) = true).
    { unfold segment_ok in Hp. rewrite !andb_true_iff in Hp. tauto. }
    rewrite search_skips by by apply literal_not_special.
    destruct (first_param p (pos + length (p_lit p)) _ Hp He) as [l Hl].
    assert (Hs : search false main_path_regex (pos + length (p_lit p)) (param_text p ++ route_text segs fin)
                 = Some ((pos + length (p_lit p))%nat,
                         mk_state (pos + length (p_lit p) + length (param_text p)) (route_text segs fin)
                           (param_caps p (pos + length (p_lit p))))).
    { unfold param_text at 1. rewrite <- !app_assoc. cbn [app bs String.list_byte_of_string]. 
      revert Hl. unfold param_text at 1. rewrite <- !app_assoc. simpl. intros Hl. by rewrite Hl. }
    rewrite Hs. cbn [mpos mrest mcaps]. f_equal.
    + unfold segment_rmatch. f_equal; [|lia].
      replace (pos + length (p_lit p) - pos)%nat with (length (p_lit p)) by lia. by rewrite take_app_length.
    + rewrite <- Nat.add_assoc, IH by (done || simpl in Hf; lia).
      unfold segment_text. by rewrite length_app.
Qed.

Lemma slice_at (u v w : list byte) a b route :
  route = u ++ v ++ w -> a = length u -> b = (length u + length v)%nat ->
  take (b - a) (drop a route) = v.
Proof.
  intros -> -> ->. rewrite drop_app_length, Nat.add_comm, Nat.add_sub. apply take_app_length.
Qed.

Lemma param_groups before p rest :
  let route := before ++ p_lit p ++ param_text p ++ rest in
  let group := group_text route (param_caps p (length before + length (p_lit p))) in
  group group_escaped_idx = [] /\ group group_name_idx = p_name p
  /\ group group_capture_idx = concat (p_pattern p)
  /\ group group_modifier_idx = option_list (p_modifier p).
Proof.
  intros route group. unfold group, route, group_text, param_caps, param_text, group_escaped_idx,
    group_name_idx, group_capture_idx, group_modifier_idx.
  destruct p as [lit name us m]. simpl.
  split; [by destruct m, us|]. split; [|split].
  - replace (capture 2 _) with (Some (S (length before + length lit), S (length before + length lit + length name)))
      by by destruct m, us.
    apply (slice_at (before ++ lit ++ bs ":") _ (pattern_text us ++ option_list m ++ rest));
      rewrite ?length_app; simpl; [|lia|lia]. simpl. by rewrite <- !app_assoc.
  - destruct us as [|u us].
    { by destruct m. }
    replace (capture 3 _) with (Some (S (S (length before + length lit + length name)),
      S (S (length before + length lit + length name)) + length (concat (u :: us)))%nat) by by destruct m.
    apply (slice_at (before ++ lit ++ bs ":" ++ name ++ bs "(") _ (bs ")" ++ option_list m ++ rest));
      rewrite ?length_app; cbn [length bs]; [|simpl; rewrite ?length_app; simpl; lia..].
    unfold pattern_text, bs. by app_norm.
  - destruct m as [c|]; [|by destruct us]. cbn [capture app Nat.eqb].
    apply (slice_at (before ++ lit ++ bs ":" ++ name ++ pattern_text us) _ rest);
      rewrite ?length_app; simpl; rewrite ?length_app; [|lia|simpl; lia].
    unfold bs. by app_norm.
Qed.

Lemma modifier_is (m : option byte) l :
  bool_decide (option_list m = [l]) = match m with Some c => Byte.eqb c l | None => false end.
Proof.
  destruct m as [d|]; [|done]. simpl. destruct (Byte.eqb d l) eqn:E.
  - apply Byte.byte_dec_bl in E as ->. by apply bool_decide_eq_true_2.
  - apply bool_decide_eq_false_2. intros [= ->]. by rewrite (Byte.byte_dec_lb eq_refl) in E.
Qed.

Lemma handle_segment o before p rest tokens :
  segment_ok p = true ->
  let route := before ++ p_lit p ++ param_text p ++ rest in
  handle_param_token o (segment_rmatch route (length before) p rest) (p_lit p, false, tokens)
  = ([], false, tokens ++ map token_of (text_piece (fst (cut_prefix o (p_lit p))))
                ++ [token_of (param_piece o (snd (cut_prefix o (p_lit p))) p rest)]).
Proof.
  intros Hp route. destruct (param_groups before p rest) as (_ & Hn & Hc & Hm). fold route in Hn, Hc, Hm.
  unfold handle_param_token. cbn [segment_rmatch r_group r_suffix]. rewrite Hn, Hc, Hm.
  unfold cut_prefix. cbn [negb andb].
  set (cut := if _ && _ then ([List.last (p_lit p) x00], _) else _).
  assert (Hcut : cut = (snd (cut_prefix o (p_lit p)), fst (cut_prefix o (p_lit p))))
    by (unfold cut, cut_prefix; by case_match).
  rewrite Hcut. unfold cut_prefix. clear cut Hcut.
  destruct (if _ && _ then _ else _) as [lit prefix]. cbn [fst snd].
  assert (Hname : exists c cs, p_name p = c :: cs).
  { unfold segment_ok in Hp. rewrite !andb_true_iff in Hp. destruct Hp as (((( _ & H) & _) & _) & _).
    destruct (p_name p); [by rewrite bool_decide_eq_true_2 in H|by eexists _, _]. }
  destruct Hname as (c & cs & Hname).
  unfold param_piece, token_of. change (bs "?") with ["?"%byte]. change (bs "*") with ["*"%byte].
  change (bs "+") with ["+"%byte]. rewrite !modifier_is, Hname.
  assert (Hb1 : (match p_modifier p with Some c => Byte.eqb c "?" | None => false end
                 || match p_modifier p with Some c => Byte.eqb c "*" | None => false end)
                = match p_modifier p with Some c => one_of (bs "?*") c | None => false end)
    by (destruct (p_modifier p); simpl; by rewrite ?orb_false_r).
  assert (Hb2 : (match p_modifier p with Some c => Byte.eqb c "+" | None => false end
                 || match p_modifier p with Some c => Byte.eqb c "*" | None => false end)
                = match p_modifier p with Some c => one_of (bs "+*") c | None => false end)
    by (destruct (p_modifier p); simpl; by rewrite ?orb_false_r).
  assert (Ht : bool_decide (take 1 rest = []) = bool_decide (rest = [])) by by destruct rest.
  rewrite Hb1, Hb2, Ht. destruct lit as [|d lit]; [done|]. simpl. by rewrite <- app_assoc.
Qed.

Lemma parse_segment o before p rest last tokens :
  segment_ok p = true -> (last = true -> literal rest = true) ->
  let route := before ++ p_lit p ++ param_text p ++ rest in
  parse_match o (segment_rmatch route (length before) p rest) last ([], false, tokens)
  = inl (if last then rest else [], false,
         tokens ++ map token_of (text_piece (fst (cut_prefix o (p_lit p))))
         ++ [token_of (param_piece o (snd (cut_prefix o (p_lit p))) p rest)]).
Proof.
  intros Hp Hl route. pose proof (handle_segment o before p rest tokens Hp) as Hh. cbv zeta in Hh.
  destruct (param_groups before p rest) as (He & _). fold route in Hh, He.
  assert (Hlit : literal (p_lit p) = true).
  { unfold segment_ok in Hp. rewrite !andb_true_iff in Hp. tauto. }
  unfold parse_match. cbn [segment_rmatch r_prefix r_position r_length r_group r_suffix app].
  rewrite literal_checked by done. cbn [rbind]. rewrite He.
  change (mk_match _ _ _ _ _) with (segment_rmatch route (length before) p rest). rewrite Hh.
  destruct last; [|done]. by rewrite literal_checked by auto.
Qed.

Lemma parse_segments o segs fin : forall before tokens,
  segs <> [] -> route_ok segs fin = true ->
  parse_matches o (segment_matches (before ++ route_text segs fin) (length before) segs fin)
    ([], false, tokens)
  = inl (fin, false, tokens ++ map token_of (param_pieces o segs fin)).
Proof.
  induction segs as [|p segs IH]; intros before tokens Hne Hok; [done|].
  cbn [route_ok] in Hok. rewrite !andb_true_iff in Hok. destruct Hok as ((Hp & He) & Hok).
  cbn [segment_matches parse_matches param_pieces]. rewrite route_text_cons, parse_segment; [|done|].
  2:{ intros Hl. by destruct segs. }
  cbn [rbind]. destruct segs as [|q segs].
  - cbn [segment_matches parse_matches param_pieces]. rewrite !map_app. done.
  - cbn [segment_matches].
    specialize (IH (before ++ p_lit p ++ param_text p)
      (tokens ++ map token_of (text_piece (fst (cut_prefix o (p_lit p))))
         ++ [token_of (param_piece o (snd (cut_prefix o (p_lit p))) p (route_text (q :: segs) fin))])).
    rewrite <- !app_assoc, !length_app in IH. cbn [segment_matches] in IH.
    unfold segment_text at 1 2. rewrite !length_app. rewrite IH by done.
    by rewrite !map_app, <- ?app_assoc.
Qed.

Lemma route_segments_length segs fin : (length segs <= length (route_text segs fin))%nat.
Proof.
  induction segs as [|p segs IH]; [simpl; lia|]. rewrite route_text_cons, !length_app. simpl. lia.
Qed.

(** The tokens of a route. *)
Lemma parse_route o segs fin :
  route_ok segs fin = true ->
  parse (route_text segs fin) o = inl (map token_of (route_pieces o segs fin)).
Proof.
  intros Hok. unfold parse. rewrite iterator_segments by (done || apply route_segments_length).
  unfold route_pieces. rewrite map_app. destruct segs as [|p segs].
  - simpl in *. unfold route_text. simpl. rewrite literal_checked by done. simpl.
    by destruct fin.
  - pose proof (parse_segments o (p :: segs) fin [] [] ltac:(done) Hok) as Hp.
    cbn [segment_matches rbind app length Nat.add] in *. rewrite Hp. cbn [rbind app]. by destruct fin; rewrite ?app_nil_r.
Qed.

End RouteSyntax.
