(* ===== verification/Router.v ===== *)
(** * The express router

    Model of src/web/restinio/restinio/router/express.hpp and
    router/method_matcher.hpp with the method identifiers of http_headers.hpp
    and router/impl/target_path_holder.hpp.

    The numbers of the HTTP methods come from http_parser, which is not part of
    the sources: the class [HttpParserCodes]. *)

From S2P Require Import Prelude PercentEncoding Regex Path2Regex.

(** ** HTTP methods *)

Module HttpMethod.

Inductive http_method :=
| DELETE | GET | HEAD | POST | PUT
| CONNECT | OPTIONS | TRACE
| COPY | LOCK | MKCOL | MOVE | PROPFIND | PROPPATCH | SEARCH | UNLOCK | BIND | REBIND | UNBIND | ACL
| REPORT | MKACTIVITY | CHECKOUT | MERGE
| M_SEARCH | NOTIFY | SUBSCRIBE | UNSUBSCRIBE
| PATCH | PURGE
| MKCALENDAR
| LINK | UNLINK.

#[global] Instance http_method_eq_dec : EqDecision http_method.
Proof. solve_decision. Defined.

Definition all_methods : list http_method :=
  [DELETE; GET; HEAD; POST; PUT; CONNECT; OPTIONS; TRACE; COPY; LOCK; MKCOL; MOVE; PROPFIND; PROPPATCH;
   SEARCH; UNLOCK; BIND; REBIND; UNBIND; ACL; REPORT; MKACTIVITY; CHECKOUT; MERGE; M_SEARCH; NOTIFY;
   SUBSCRIBE; UNSUBSCRIBE; PATCH; PURGE; MKCALENDAR; LINK; UNLINK].

Definition method_name (m : http_method) : string :=
  match m with
  | DELETE => "DELETE" | GET => "GET" | HEAD => "HEAD" | POST => "POST" | PUT => "PUT"
  | CONNECT => "CONNECT" | OPTIONS => "OPTIONS" | TRACE => "TRACE" | COPY => "COPY" | LOCK => "LOCK"
  | MKCOL => "MKCOL" | MOVE => "MOVE" | PROPFIND => "PROPFIND" | PROPPATCH => "PROPPATCH"
  | SEARCH => "SEARCH" | UNLOCK => "UNLOCK" | BIND => "BIND" | REBIND => "REBIND" | UNBIND => "UNBIND"
  | ACL => "ACL" | REPORT => "REPORT" | MKACTIVITY => "MKACTIVITY" | CHECKOUT => "CHECKOUT"
  | MERGE => "MERGE" | M_SEARCH => "M-SEARCH" | NOTIFY => "NOTIFY" | SUBSCRIBE => "SUBSCRIBE"
  | UNSUBSCRIBE => "UNSUBSCRIBE" | PATCH => "PATCH" | PURGE => "PURGE" | MKCALENDAR => "MKCALENDAR"
  | LINK => "LINK" | UNLINK => "UNLINK"
  end.

(** The constants [HTTP_DELETE], [HTTP_GET], ... of http_parser: distinct and
    not negative. *)
Class HttpParserCodes := {
  nodejs_code : http_method -> Z;
  nodejs_code_inj : Inj (=) (=) nodejs_code;
  nodejs_code_nonneg : forall m, 0 <= nodejs_code m
}.

Record http_method_id_t := mk_method_id { m_value : Z; m_name : string }.

Definition raw_id (m : http_method_id_t) : Z := m_value m.
Definition unknown_method : Z := -1.
Definition http_method_unknown : http_method_id_t := mk_method_id unknown_method "<undefined>".

(** [operator==], [operator!=] and [operator<]. *)
Definition method_eq (a b : http_method_id_t) : bool := raw_id a =? raw_id b.
Definition method_ne (a b : http_method_id_t) : bool := negb (raw_id a =? raw_id b).
Definition method_lt (a b : http_method_id_t) : bool := raw_id a <? raw_id b.

(** [http_method_get()] and the others. *)
Definition http_method_id `{HttpParserCodes} (m : http_method) : http_method_id_t :=
  mk_method_id (nodejs_code m) (method_name m).

(** [default_http_methods_t::from_nodejs]: a [switch] over all the codes. *)
Fixpoint from_nodejs_in `{HttpParserCodes} (value : Z) (l : list http_method) : http_method_id_t :=
  match l with
  | [] => http_method_unknown
  | m :: l => if value =? nodejs_code m then http_method_id m else from_nodejs_in value l
  end.
Definition from_nodejs `{HttpParserCodes} (value : Z) : http_method_id_t :=
  from_nodejs_in value all_methods.

Lemma from_nodejs_code `{HttpParserCodes} m : from_nodejs (nodejs_code m) = http_method_id m.
Proof.
  assert (Hin : In m all_methods) by (destruct m; simpl; tauto).
  unfold from_nodejs. induction all_methods as [|k l IH]; [done|]. simpl.
  destruct (Z.eqb_spec (nodejs_code m) (nodejs_code k)) as [->%nodejs_code_inj|Hne]; [done|].
  apply IH. by destruct Hin as [->|].
Qed.

Lemma method_eq_id `{HttpParserCodes} a b :
  method_eq (http_method_id a) (http_method_id b) = bool_decide (a = b).
Proof.
  unfold method_eq, raw_id. simpl. destruct (Z.eqb_spec (nodejs_code a) (nodejs_code b)) as [E|E].
  - apply nodejs_code_inj in E. by rewrite bool_decide_eq_true_2.
  - rewrite bool_decide_eq_false_2; [done|]. by intros ->.
Qed.

End HttpMethod.

Module NumberedMethods.
Import HttpMethod.

(** The numbering of http_parser: the methods in the order of their
    declaration. *)
Definition method_number (m : http_method) : Z :=
  match m with
  | DELETE => 0 | GET => 1 | HEAD => 2 | POST => 3 | PUT => 4 | CONNECT => 5 | OPTIONS => 6 | TRACE => 7
  | COPY => 8 | LOCK => 9 | MKCOL => 10 | MOVE => 11 | PROPFIND => 12 | PROPPATCH => 13 | SEARCH => 14
  | UNLOCK => 15 | BIND => 16 | REBIND => 17 | UNBIND => 18 | ACL => 19 | REPORT => 20
  | MKACTIVITY => 21 | CHECKOUT => 22 | MERGE => 23 | M_SEARCH => 24 | NOTIFY => 25 | SUBSCRIBE => 26
  | UNSUBSCRIBE => 27 | PATCH => 28 | PURGE => 29 | MKCALENDAR => 30 | LINK => 31 | UNLINK => 32
  end.

Lemma method_number_inj : Inj (=) (=) method_number.
Proof. intros a b. by destruct a, b. Qed.

#[export] Instance numbered : HttpParserCodes := {|
  nodejs_code := method_number;
  nodejs_code_inj := method_number_inj;
  nodejs_code_nonneg := ltac:(by intros [])
|}.

End NumberedMethods.

(** ** Method matchers *)

Module MethodMatcher.
Import HttpMethod.

Inductive method_matcher_t :=
| simple_matcher_t (m_method : http_method_id_t)
| fixed_size_any_of_matcher_t (m_methods : list http_method_id_t)
| fixed_size_none_of_matcher_t (m_methods : list http_method_id_t)
| dynamic_any_of_methods_matcher_t (m_methods : list http_method_id_t)
| dynamic_none_of_methods_matcher_t (m_methods : list http_method_id_t).

(** [for( const auto & m : m_methods ) if( m == method ) return found;] *)
Fixpoint find_method (method : http_method_id_t) (l : list http_method_id_t) (found : bool) : bool :=
  match l with
  | [] => negb found
  | m :: l => if method_eq m method then found else find_method method l found
  end.

Definition match_ (method : http_method_id_t) (m : method_matcher_t) : bool :=
  match m with
  | simple_matcher_t m_method => method_eq m_method method
  | fixed_size_any_of_matcher_t l => find_method method l true
  | fixed_size_none_of_matcher_t l => negb (find_method method l true)
  | dynamic_any_of_methods_matcher_t l => find_method method l true
  | dynamic_none_of_methods_matcher_t l => find_method method l false
  end.

Definition any_of_methods (l : list http_method_id_t) : method_matcher_t := fixed_size_any_of_matcher_t l.
Definition none_of_methods (l : list http_method_id_t) : method_matcher_t := fixed_size_none_of_matcher_t l.

(** [dynamic_*_matcher_t::add]; the fixed matchers have no such operation. *)
Definition add (method : http_method_id_t) (m : method_matcher_t) : method_matcher_t :=
  match m with
  | dynamic_any_of_methods_matcher_t l => dynamic_any_of_methods_matcher_t (l ++ [method])
  | dynamic_none_of_methods_matcher_t l => dynamic_none_of_methods_matcher_t (l ++ [method])
  | _ => m
  end.

(** The dynamic matchers answer like the fixed ones. *)
Lemma dynamic_matchers_agree method l :
  match_ method (dynamic_any_of_methods_matcher_t l) = match_ method (fixed_size_any_of_matcher_t l)
  /\ match_ method (dynamic_none_of_methods_matcher_t l) = match_ method (fixed_size_none_of_matcher_t l).
Proof. split; [done|]. simpl. induction l as [|m l IH]; [done|]. simpl. by destruct (method_eq m method). Qed.

(** The holder of a matcher: a pointer that may be null and the object in the
    internal buffer, which lives between its construction and its
    destruction.  [None] is the destruction of an object that is not alive. *)
Record buffered_matcher_holder_t := mk_holder {
  m_matcher : bool;                      (* m_matcher != nullptr *)
  m_buffer : option method_matcher_t     (* the live object *)
}.

Definition empty_holder : buffered_matcher_holder_t := mk_holder false None.

Definition cleanup (h : buffered_matcher_holder_t) : option buffered_matcher_holder_t :=
  if m_matcher h then match m_buffer h with Some _ => Some (mk_holder true None) | None => None end
  else Some h.

(** [move_from]: the object of [other] is moved into this buffer; what is left
    in the other buffer is not destroyed. *)
Definition move_from (other h : buffered_matcher_holder_t)
  : buffered_matcher_holder_t * buffered_matcher_holder_t :=
  if m_matcher other then (mk_holder true (m_buffer other), mk_holder false None) else (h, other).

(** [operator=( buffered_matcher_holder_t && other )] for another object. *)
Definition move_assign (other h : buffered_matcher_holder_t)
  : option (buffered_matcher_holder_t * buffered_matcher_holder_t) :=
  move_from other <$> cleanup h.

Definition assign (m : method_matcher_t) (h : buffered_matcher_holder_t)
  : option buffered_matcher_holder_t :=
  (fun _ => mk_holder true (Some m)) <$> cleanup h.

End MethodMatcher.

(** ** The target path *)

Module TargetPath.
Import Percent.

(** [m_data] becomes empty when it is given out. *)
Record target_path_holder_t := mk_target { m_data : option (list byte); m_size : Z }.

Definition make_target_path (original_path : list byte) : unescape_failure_t + target_path_holder_t :=
  match estimate_required_capacity original_path with
  | inl f => inl f
  | inr n =>
      if negb (n =? Z.of_nat (length original_path)) then
        match normalize_to original_path with
        | inl f => inl f
        | inr data => inr (mk_target (Some data) n)
        end
      else inr (mk_target (Some original_path) n)
  end.

(** [None] is a view through a null pointer. *)
Definition target_view (t : target_path_holder_t) : option (list byte) := m_data t.

Definition giveout_data (t : target_path_holder_t) : option (list byte) * target_path_holder_t :=
  (m_data t, mk_target None (m_size t)).

End TargetPath.

(** ** Routes and the router *)

Module Router.
Import HttpMethod MethodMatcher TargetPath Path2Regex.

(** [route_params_t]: views into the target and into the names buffer. *)
Record route_params_t := mk_params {
  m_request_target : list byte;
  m_key_names_buffer : list byte;
  m_match : view;
  m_named_parameters : list (view * view);
  m_indexed_parameters : list view
}.

Definition named_value (p : route_params_t) (e : view * view) : list byte * list byte :=
  (view_of (m_key_names_buffer p) (fst e), view_of (m_request_target p) (snd e)).

Definition find_named_parameter (key : list byte) (p : route_params_t) : option (list byte * list byte) :=
  List.find (fun e => bool_decide (key = fst e)) (named_value p <$> m_named_parameters p).

Definition has (key : list byte) (p : route_params_t) : bool :=
  match find_named_parameter key p with Some _ => true | None => false end.
Definition get_param (key : list byte) (p : route_params_t) : option (list byte) :=
  snd <$> find_named_parameter key p.
Definition named_param (key : list byte) (p : route_params_t) : outcome (list byte) :=
  match find_named_parameter key p with Some e => Ok (snd e) | None => Throw "invalid parameter name" end.
Definition indexed_param (i : nat) (p : route_params_t) : outcome (list byte) :=
  match m_indexed_parameters p !! i with
  | Some v => Ok (view_of (m_request_target p) v)
  | None => Throw "invalid parameter index"
  end.

(** [route_params_appender_t]: the two containers. *)
Definition appended : Type := list (view * view) * list view.

Definition apply_setter (s : param_setter) (value : view) (a : appended) : appended :=
  match s with
  | set_named key => (fst a ++ [(key, value)], snd a)
  | set_indexed => (fst a, snd a ++ [value])
  end.

(** The first loop of [match_route]; [None] is an access behind the end of the
    sequence of appenders. *)
Fixpoint append_matches (setters : list param_setter) (matches : list (nat * nat)) (a : appended)
  : option (appended * list param_setter) :=
  match matches, setters with
  | [], _ => Some (a, setters)
  | (b, e) :: matches, s :: setters => append_matches setters matches (apply_setter s (b, e - b)%nat a)
  | _ :: _, [] => None
  end.

(** The second loop: empty values for the groups the engine did not report. *)
Definition append_rest (setters : list param_setter) (a : appended) : appended :=
  fold_left (fun a s => apply_setter s (0, 0)%nat a) setters a.

(** What a call of the router comes to. *)
Inductive handled (A : Type) : Type :=
| Handled (a : A)
| Not_handled
| Bad_path (f : Percent.unescape_failure_t)
| Undefined.
Arguments Handled {A} a.
Arguments Not_handled {A}.
Arguments Bad_path {A} f.
Arguments Undefined {A}.

Section Engine.
Context `{RegexEngine}.

(** [match_route]: the target path afterwards, and the parameters on a match. *)
Definition match_route (d : route_regex_matcher_data_t) (t : target_path_holder_t)
  : option (target_path_holder_t * option route_params_t) :=
  match target_view t with
  | None => None
  | Some path =>
      match engine_try_match path (m_regex d) with
      | None => Some (t, None)
      | Some [] => None
      | Some ((b, e) :: matches) =>
          let '(data, t) := giveout_data t in
          match append_matches (m_param_appender_sequence d) matches ([], []) with
          | None => None
          | Some (a, rest) =>
              let a := append_rest rest a in
              Some (t, Some (mk_params path (m_named_params_buffer d) (b, e - b)%nat (fst a) (snd a)))
          end
      end
  end.

(** [generic_express_route_entry_t]; what the handler returns is [A]. *)
Record route_entry_t (A : Type) := mk_entry {
  e_method_matcher : method_matcher_t;
  e_matcher : route_regex_matcher_data_t;
  e_handler : route_params_t -> A
}.
Arguments mk_entry {A} _ _ _.
Arguments e_method_matcher {A} _.
Arguments e_matcher {A} _.
Arguments e_handler {A} _.

(** [match]: the method first, then the route. *)
Definition entry_match {A} (method : http_method_id_t) (e : route_entry_t A) (t : target_path_holder_t)
  : option (target_path_holder_t * option route_params_t) :=
  if match_ method (e_method_matcher e) then match_route (e_matcher e) t else Some (t, None).

Record express_router_t (A : Type) := mk_router {
  m_handlers : list (route_entry_t A);
  m_non_matched_request_handler : option A
}.
Arguments mk_router {A} _ _.
Arguments m_handlers {A} _.
Arguments m_non_matched_request_handler {A} _.

Definition empty_router {A} : express_router_t A := mk_router [] None.

(** [add_handler]: the route is compiled, which may throw. *)
Definition add_handler {A} (reserve : nat -> nat) (m : method_matcher_t) (route_path : list byte)
  (options : options_t) (handler : route_params_t -> A) (r : express_router_t A)
  : result (express_router_t A) :=
  rbind (path2regex reserve route_path options) (fun d =>
    inl (mk_router (m_handlers r ++ [mk_entry m d handler]) (m_non_matched_request_handler r))).

(** [http_get] and the like; the versions without options pass the default
    ones. *)
Definition http_delete `{HttpParserCodes} {A} reserve route_path options handler (r : express_router_t A) :=
  add_handler reserve (simple_matcher_t (http_method_id DELETE)) route_path options handler r.
Definition http_get `{HttpParserCodes} {A} reserve route_path options handler (r : express_router_t A) :=
  add_handler reserve (simple_matcher_t (http_method_id GET)) route_path options handler r.
Definition http_head `{HttpParserCodes} {A} reserve route_path options handler (r : express_router_t A) :=
  add_handler reserve (simple_matcher_t (http_method_id HEAD)) route_path options handler r.
Definition http_post `{HttpParserCodes} {A} reserve route_path options handler (r : express_router_t A) :=
  add_handler reserve (simple_matcher_t (http_method_id POST)) route_path options handler r.
Definition http_put `{HttpParserCodes} {A} reserve route_path options handler (r : express_router_t A) :=
  add_handler reserve (simple_matcher_t (http_method_id PUT)) route_path options handler r.

Definition non_matched_request_handler {A} (nmrh : A) (r : express_router_t A) : express_router_t A :=
  mk_router (m_handlers r) (Some nmrh).

(** The loop over the entries. *)
Fixpoint run_entries {A} (method : http_method_id_t) (l : list (route_entry_t A))
  (t : target_path_holder_t) : option (option A) :=
  match l with
  | [] => Some None
  | e :: l =>
      match entry_match method e t with
      | None => None
      | Some (_, Some params) => Some (Some (e_handler e params))
      | Some (t, None) => run_entries method l t
      end
  end.

Definition run_router {A} (r : express_router_t A) (method : http_method_id_t) (path : list byte)
  : handled A :=
  match make_target_path path with
  | inl f => Bad_path f
  | inr t =>
      match run_entries method (m_handlers r) t with
      | None => Undefined
      | Some (Some a) => Handled a
      | Some None =>
          match m_non_matched_request_handler r with Some a => Handled a | None => Not_handled end
      end
  end.

End Engine.

#[global] Arguments mk_entry {_ A} _ _ _.
#[global] Arguments e_method_matcher {_ A} _.
#[global] Arguments e_matcher {_ A} _.
#[global] Arguments e_handler {_ A} _.
#[global] Arguments mk_router {_ A} _ _.
#[global] Arguments m_handlers {_ A} _.
#[global] Arguments m_non_matched_request_handler {_ A} _.

End Router.
