(* ===== verification/Routing.v ===== *)
(** * Routing

    What the router does with a request: the routes of [Path2Regex], compiled
    and matched by [std::regex] as in [RouteMatch], tried in order by
    [Router]. *)

From S2P Require Import Prelude PercentEncoding Regex RegexTheory Path2Regex RouteMatch RouteSyntax Router.

Module Routing.
Import Regex RegexTheory Path2Regex RouteMatch RouteSyntax StdRegexEngine HttpMethod MethodMatcher TargetPath Router.

(** ** From tokens to a matcher *)

Definition piece_name (p : piece) : list byte :=
  match p with Param (named n) _ _ _ _ _ _ _ => n | _ => [] end.

Definition names_of (ps : list piece) : list byte := flat_map piece_name ps.

Definition setter_of (offset : nat) (p : piece) : list param_setter :=
  match p with
  | Text _ => []
  | Param (named n) _ _ _ _ _ _ _ => [set_named (offset, length n)]
  | Param (indexed _) _ _ _ _ _ _ _ => [set_indexed]
  end.

Fixpoint setters_of (offset : nat) (ps : list piece) : list param_setter :=
  match ps with
  | [] => []
  | p :: ps => setter_of offset p ++ setters_of (offset + length (piece_name p)) ps
  end.

Lemma append_tokens_ok capacity ps : forall route setters names,
  (length names + length (names_of ps) <= capacity)%nat ->
  append_tokens capacity (map token_of ps) (route, setters, names)
  = inl (route ++ flat_map (fun p => token_text (token_of p)) ps,
         setters ++ setters_of (length names) ps, names ++ names_of ps).
Proof.
  induction ps as [|p ps IH]; intros route setters names Hc.
  { simpl. by rewrite !app_nil_r. }
  unfold names_of in *. simpl in Hc. rewrite length_app in Hc.
  cbn [map append_tokens flat_map setters_of].
  assert (Hs : append_self_to capacity (token_of p) (route, setters, names)
    = inl (route ++ token_text (token_of p), setters ++ setter_of (length names) p, names ++ piece_name p)).
  { destruct p as [path|[n|i] prefix delim optional repeat partial pattern expr]; simpl;
      rewrite ?app_nil_r; try done.
    unfold append_name. simpl in Hc.
    rewrite (proj2 (Nat.ltb_ge _ _)) by lia. done. }
  rewrite Hs. cbn [rbind]. rewrite IH by (rewrite length_app; lia).
  by rewrite length_app, <- !app_assoc.
Qed.

Lemma count_capturing ps : length (List.filter is_capturing (map token_of ps)) = count_captures ps.
Proof.
  unfold count_captures. induction ps as [|[path|n prefix delim optional repeat partial pattern expr] ps IH];
    simpl; [done|exact IH|by f_equal].
Qed.

Lemma tokens2regexp_ok capacity ps o :
  Forall piece_ok ps -> plain_ending o -> (length (names_of ps) <= capacity)%nat ->
  Z.of_nat (count_captures ps) < 2 ^ 64 - 1 ->
  tokens2regexp capacity (map token_of ps) o
  = inl (mk_matcher_data
           (mk_regex (negb (sensitive o)) (Seq Bol (route_re 0 ps (tail_re o))) (count_captures ps))
           (names_of ps) (setters_of 0 ps)).
Proof.
  intros Hok Ho Hn Hc. unfold tokens2regexp. rewrite append_tokens_ok by done. cbn [rbind app length].
  rewrite count_capturing. cbn [max_capture_groups std_regex_engine].
  rewrite (proj2 (Z.ltb_ge _ _)) by lia. cbn [engine_compile].
  by rewrite route_compiles.
Qed.

(** ** Parameters *)

(** The named and the indexed parameters of a route, given the values. *)
Fixpoint named_values (ps : list piece) (vs : list (list byte)) : list (list byte * list byte) :=
  match ps, vs with
  | Text _ :: ps, _ => named_values ps vs
  | Param (named n) _ _ _ _ _ _ _ :: ps, v :: vs => (n, v) :: named_values ps vs
  | Param (indexed _) _ _ _ _ _ _ _ :: ps, _ :: vs => named_values ps vs
  | _, _ => []
  end.

Fixpoint indexed_values (ps : list piece) (vs : list (list byte)) : list (list byte) :=
  match ps, vs with
  | Text _ :: ps, _ => indexed_values ps vs
  | Param (named _) _ _ _ _ _ _ _ :: ps, _ :: vs => indexed_values ps vs
  | Param (indexed _) _ _ _ _ _ _ _ :: ps, v :: vs => v :: indexed_values ps vs
  | _, _ => []
  end.

Lemma append_matches_ok target ps : forall before after matches a,
  length matches = count_captures ps ->
  exists a', append_matches (setters_of (length before) ps) matches a = Some (a', [])
    /\ map (fun e => (view_of (before ++ names_of ps ++ after) (fst e), view_of target (snd e))) (fst a')
       = map (fun e => (view_of (before ++ names_of ps ++ after) (fst e), view_of target (snd e))) (fst a)
         ++ named_values ps (map (fun m => slice target (Some m)) matches)
    /\ map (view_of target) (snd a')
       = map (view_of target) (snd a) ++ indexed_values ps (map (fun m => slice target (Some m)) matches).
Proof.
  unfold count_captures.
  induction ps as [|[path|[n|i] prefix delim optional repeat partial pattern expr] ps IH];
    intros before after matches a Hl; simpl in Hl.
  - destruct matches; [|done]. exists a. simpl. by rewrite !app_nil_r.
  - simpl. rewrite Nat.add_0_r. by apply IH.
  - destruct matches as [|[b e] matches]; [done|]. injection Hl as Hl.
    destruct (IH (before ++ n) after matches (apply_setter (set_named (length before, length n)) (b, e - b)%nat a) Hl)
      as (a' & E & H1 & H2).
    exists a'. simpl. rewrite length_app in E. split; [done|]. unfold names_of in *. simpl.
    rewrite <- app_assoc in *. rewrite H1, H2. simpl. rewrite map_app, <- app_assoc. simpl.
    split; [|done]. do 2 f_equal. unfold view_of at 1. simpl.
    by rewrite drop_app_length, take_app_length.
  - destruct matches as [|[b e] matches]; [done|]. injection Hl as Hl.
    destruct (IH before after matches (apply_setter set_indexed (b, e - b)%nat a) Hl) as (a' & E & H1 & H2).
    exists a'. simpl. rewrite Nat.add_0_r. split; [done|]. rewrite H1, H2. simpl.
    rewrite map_app, <- app_assoc. done.
Qed.

(** ** Matching a target *)

(** The parameters handed to the handler, read through their views. *)
Definition parameters_are (ps : list piece) (target : list byte) (vs : list (list byte))
  (p : route_params_t) : Prop :=
  view_of (m_request_target p) (m_match p) = target
  /\ map (named_value p) (m_named_parameters p) = named_values ps vs
  /\ map (view_of (m_request_target p)) (m_indexed_parameters p) = indexed_values ps vs.

Definition matcher_of (ps : list piece) (o : options_t) : route_regex_matcher_data_t :=
  mk_matcher_data
    (mk_regex (negb (sensitive o)) (Seq Bol (route_re 0 ps (tail_re o))) (count_captures ps))
    (names_of ps) (setters_of 0 ps).

Lemma try_match_length target r l : try_match target r = Some l -> length l = S (re_groups r).
Proof.
  unfold try_match. destruct (search _ _ _ _) as [[start st]|]; [|done]. intros [= <-]. simpl.
  by rewrite length_map, length_seq.
Qed.

Lemma match_route_pieces ps o target n :
  Forall piece_ok ps ->
  let t := mk_target (Some target) n in
  match match_route (matcher_of ps o) t with
  | Some (t', Some p) =>
      t' = mk_target None n
      /\ exists vs, route_match (negb (sensitive o)) o ps target vs /\ parameters_are ps target vs p
  | Some (t', None) => t' = t /\ forall vs, ~ route_match (negb (sensitive o)) o ps target vs
  | None => False
  end.
Proof.
  intros Hok t. unfold match_route. cbn [target_view t m_data m_regex matcher_of].
  pose proof (try_match_route (negb (sensitive o)) ps o target Hok) as Hm. cbv zeta in Hm.
  cbn [engine_try_match std_regex_engine]. destruct (try_match target _) as [l|] eqn:E; [|done].
  apply try_match_length in E. simpl in E. destruct l as [|[b e] matches]; [done|].
  injection E as E. destruct Hm as (vs & Hr & Hvs).
  pose proof (f_equal tail Hvs) as Htail. injection Hvs as Hmatch _.
  cbn [giveout_data m_data m_size m_param_appender_sequence m_named_params_buffer matcher_of].
  destruct (append_matches_ok target ps [] [] matches ([], []) E) as (a & Ha & H1 & H2).
  simpl in Ha. rewrite Ha. split; [done|]. exists vs. split; [done|]. cbn [append_rest fold_left].
  rewrite app_nil_r in H1. cbn [map tail] in Htail. rewrite Htail in H1, H2. by repeat split.
Qed.

(** ** From the text of a route *)

Lemma names_app a b : names_of (a ++ b) = names_of a ++ names_of b.
Proof. apply flat_map_app. Qed.

Lemma text_piece_names lit : names_of (text_piece lit) = [].
Proof. by destruct lit. Qed.

(** The names of the parameters fit into a buffer of the size of the route. *)
Lemma names_fit o segs fin : (length (names_of (route_pieces o segs fin)) <= length (route_text segs fin))%nat.
Proof.
  unfold route_pieces. rewrite names_app, text_piece_names, app_nil_r.
  induction segs as [|p segs IH]; [simpl; lia|]. cbn [param_pieces].
  rewrite !names_app, text_piece_names, route_text_cons, !length_app. simpl. rewrite !length_app. simpl. lia.
Qed.

Lemma count_captures_app a b : count_captures (a ++ b) = (count_captures a + count_captures b)%nat.
Proof. unfold count_captures. by rewrite fmap_app, sum_list_with_app. Qed.

Lemma text_piece_captures lit : count_captures (text_piece lit) = 0%nat.
Proof. by destruct lit. Qed.

Lemma count_segments o segs fin : count_captures (route_pieces o segs fin) = length segs.
Proof.
  unfold route_pieces. rewrite count_captures_app, text_piece_captures, Nat.add_0_r.
  induction segs as [|p segs IH]; [done|]. cbn [param_pieces].
  rewrite !count_captures_app, text_piece_captures, IH. done.
Qed.

(** [std::string::reserve( n )] leaves a capacity of at least [n]. *)
Definition reserves (reserve : nat -> nat) : Prop := forall n, (n <= reserve n)%nat.

Lemma path2regex_ok reserve o segs fin :
  reserves reserve -> plain_ending o -> route_ok segs fin = true ->
  Forall piece_ok (route_pieces o segs fin) -> Z.of_nat (length segs) < 2 ^ 64 - 1 ->
  path2regex reserve (route_text segs fin) o = inl (matcher_of (route_pieces o segs fin) o).
Proof.
  intros Hr Ho Hok Hp Hl. unfold path2regex. rewrite parse_route by done. cbn [rbind].
  apply tokens2regexp_ok; [done|done| |by rewrite count_segments].
  etrans; [apply names_fit|apply Hr].
Qed.

(** A parameter without a pattern of its own takes everything but the
    delimiter. *)
Definition default_expr (c : byte) : re := Seq (Rep 1 None false (Cls true [Crange c c])) Eps.

Definition default_ok (c : byte) : bool :=
  match parse_regex (create_pattern [c] []) with
  | Compiled (Seq (Rep 1 None false (Cls true [Crange a b])) Eps, O) => Byte.eqb a c && Byte.eqb b c
  | _ => false
  end.

Lemma default_pattern c : parse_regex (create_pattern [c] []) = Compiled (default_expr c, 0%nat).
Proof.
  assert (H : default_ok c = true) by (apply (byte_all_true default_ok); vm_compute; reflexivity).
  unfold default_ok in H.
  repeat (case_match; try done).
  apply andb_prop in H as [->%Byte.byte_dec_bl ->%Byte.byte_dec_bl]. done.
Qed.

(** The values of such a parameter. *)
Lemma lang_default icase prefix c x :
  lang icase (values_re prefix false (default_expr c)) x <->
  x <> [] /\ Forall (fun d => letter icase d <> letter icase c) x.
Proof.
  assert (Hc : forall d, cls_match icase true [Crange c c] d = true <-> letter icase d <> letter icase c).
  { intros d. change (cls_match icase true [Crange c c] d) with (negb (cls_match icase false [Crange c c] d)).
    rewrite chr_match, negb_true_iff. split.
    - intros H E. by rewrite E, (Byte.byte_dec_lb eq_refl) in H.
    - intros H. destruct (Byte.eqb _ _) eqn:E; [|done]. by apply Byte.byte_dec_bl in E. }
  cbn [lang values_re default_expr]. split.
  - intros (u & v & -> & (u1 & u2 & -> & (ws & -> & Hl & _ & Hw) & ->) & ->). rewrite !app_nil_r.
    destruct ws as [|w ws]; [simpl in Hl; lia|]. split.
    + apply Forall_inv in Hw as (d & -> & _). done.
    + clear Hl. induction Hw as [|y ys (d & -> & Hd) _ IH]; [done|]. simpl. constructor; [by apply Hc|done].
  - intros [Hne Hx]. exists x, []. rewrite app_nil_r. split; [done|]. split; [|done].
    exists x, []. rewrite app_nil_r. split; [done|]. split; [|done].
    exists (map (fun d => [d]) x). split; [|split; [|split; [done|]]].
    + clear. induction x as [|d x IH]; [done|]. simpl. by rewrite <- IH.
    + rewrite length_map. destruct x; [done|simpl; lia].
    + clear Hne. induction Hx as [|d x Hd _ IH]; [done|]. simpl. constructor; [|done].
      exists d. split; [done|]. by apply Hc.
Qed.

Lemma default_param_ok o prefix p next :
  p_pattern p = [] -> (length (delimiter o) = 1)%nat -> (length prefix <= 1)%nat ->
  piece_ok (param_piece o prefix p next).
Proof.
  intros Hp Hd Hl. unfold param_piece. cbn [piece_ok]. rewrite Hp. cbn [concat].
  assert (Hc : exists c, make_delimiter o prefix = [c]).
  { unfold make_delimiter. destruct prefix as [|c []]; [|by exists c|simpl in Hl; lia].
    destruct (delimiter o) as [|c []]; try done. by exists c. }
  destruct Hc as [c ->]. unfold compiled_expr. by rewrite default_pattern.
Qed.

(** The routes whose parameters have no patterns of their own. *)
Lemma default_pieces_ok o segs fin :
  (length (delimiter o) = 1)%nat -> Forall (fun p => p_pattern p = []) segs ->
  Forall piece_ok (route_pieces o segs fin).
Proof.
  intros Hd Hs. unfold route_pieces. apply Forall_app. split; [|by destruct fin; repeat constructor].
  induction Hs as [|p segs Hp _ IH]; [done|]. cbn [param_pieces]. rewrite !Forall_app.
  split; [by destruct (fst _); repeat constructor|]. split; [|done]. constructor; [|done].
  apply default_param_ok; [done|done|]. unfold cut_prefix. case_match; simpl; lia.
Qed.

(** C9. A route reads targets as it is written.  Take a route of literal text
    and named parameters, each with an optional pattern and modifier, under options
    that match to the end of the target ([plain_ending]: the default), where every
    pattern, as it reaches the expression, compiles and opens no group of its own
    ([piece_ok]: so it is for every parameter without a pattern).  Then [path2regex]
    accepts the route, and [match_route] with the result accepts a target exactly when
    the target can be cut into the texts and parameters of the route, with an optional
    delimiter at the end unless the options are strict; the handler gets, under the
    names of the route, the values of such a cut; and no access to the groups of the
    match is out of range, as it is for the pattern of [escaped_brackets_open_group]
    below, which does open a group. *)
Theorem route_matches_as_written (reserve : nat -> nat) (o : options_t) (segs : list segment)
    (fin target : list byte) (n : Z) :
  reserves reserve -> plain_ending o -> route_ok segs fin = true ->
  Forall piece_ok (route_pieces o segs fin) -> Z.of_nat (length segs) < 2 ^ 64 - 1 ->
  let ps := route_pieces o segs fin in
  let reads := route_match (negb (sensitive o)) o ps target in
  exists d, path2regex reserve (route_text segs fin) o = inl d
    /\ match match_route d (mk_target (Some target) n) with
       | Some (_, Some p) => exists vs, reads vs /\ parameters_are ps target vs p
       | Some (_, None) => forall vs, ~ reads vs
       | None => False
       end.
Proof.
  intros Hr Ho Hok Hp Hl ps reads. exists (matcher_of ps o). split; [by apply path2regex_ok|].
  pose proof (match_route_pieces ps o target n Hp) as Hm. cbv zeta in Hm.
  destruct (match_route _ _) as [[t' [p|]]|]; [by destruct Hm|by destruct Hm|done].
Qed.

(** ** The router *)

(** A row of the routing table. *)
Record row (A : Type) := mk_row {
  row_methods : method_matcher_t;
  row_options : options_t;
  row_segments : list segment;
  row_end : list byte;
  row_handler : route_params_t -> A
}.
#[global] Arguments mk_row {A} _ _ _ _ _.
#[global] Arguments row_methods {A} _.
#[global] Arguments row_options {A} _.
#[global] Arguments row_segments {A} _.
#[global] Arguments row_end {A} _.
#[global] Arguments row_handler {A} _.

Definition row_pieces {A} (r : row A) : list piece :=
  route_pieces (row_options r) (row_segments r) (row_end r).

Definition row_ok {A} (r : row A) : Prop :=
  plain_ending (row_options r) /\ route_ok (row_segments r) (row_end r) = true
  /\ Forall piece_ok (row_pieces r) /\ Z.of_nat (length (row_segments r)) < 2 ^ 64 - 1.

(** The target is one of the route. *)
Definition row_reads {A} (r : row A) (target : list byte) : list (list byte) -> Prop :=
  route_match (negb (sensitive (row_options r))) (row_options r) (row_pieces r) target.

(** The router with these routes, added in this order. *)
Fixpoint add_rows {A} (reserve : nat -> nat) (rows : list (row A)) (r : express_router_t A)
  : result (express_router_t A) :=
  match rows with
  | [] => inl r
  | w :: rows =>
      rbind (add_handler reserve (row_methods w) (route_text (row_segments w) (row_end w)) (row_options w)
               (row_handler w) r) (add_rows reserve rows)
  end.

Definition entry_of {A} (w : row A) : route_entry_t A :=
  mk_entry (row_methods w) (matcher_of (row_pieces w) (row_options w)) (row_handler w).

Lemma add_rows_ok {A} reserve (rows : list (row A)) : forall r,
  reserves reserve -> Forall row_ok rows ->
  add_rows reserve rows r
  = inl (mk_router (m_handlers r ++ map entry_of rows) (m_non_matched_request_handler r)).
Proof.
  induction rows as [|w rows IH]; intros r Hr Hok; simpl.
  { rewrite app_nil_r. by destruct r. }
  apply Forall_cons_iff in Hok as [(H1 & H2 & H3 & H4) Hok]. unfold add_handler.
  rewrite path2regex_ok by done. cbn [rbind]. rewrite IH by done. simpl. by rewrite <- app_assoc.
Qed.

(** The first row that accepts the method and reads the target decides. *)
Fixpoint selects {A} (method : http_method_id_t) (target : list byte) (rows : list (row A))
  (answer : option A) : Prop :=
  match rows with
  | [] => answer = None
  | w :: rows =>
      if match_ method (row_methods w) then
        (exists vs p, row_reads w target vs /\ parameters_are (row_pieces w) target vs p
                      /\ answer = Some (row_handler w p))
        \/ ((forall vs, ~ row_reads w target vs) /\ selects method target rows answer)
      else selects method target rows answer
  end.

Lemma run_entries_selects {A} method target n (rows : list (row A)) :
  Forall row_ok rows ->
  exists answer, run_entries method (map entry_of rows) (mk_target (Some target) n) = Some answer
                 /\ selects method target rows answer.
Proof.
  induction 1 as [|w rows (_ & _ & Hp & _) _ (answer & E & IH)]; [by eexists|].
  cbn [map run_entries selects]. unfold entry_match. cbn [entry_of e_method_matcher e_matcher e_handler].
  destruct (match_ method (row_methods w)); [|by exists answer].
  pose proof (match_route_pieces _ (row_options w) target n Hp) as Hm. cbv zeta in Hm.
  destruct (match_route _ _) as [[t' [p|]]|]; [| |done].
  - destruct Hm as (_ & vs & Hv & Hps). eexists. split; [done|]. left. by exists vs, p.
  - destruct Hm as [-> Hno]. exists answer. split; [done|]. by right.
Qed.

(** The path the routes are matched against. *)
Lemma make_target_path_normal path :
  make_target_path path
  = match Percent.normalize_to path with
    | inl f => inl f
    | inr t => inr (mk_target (Some t) (Z.of_nat (length t)))
    end.
Proof.
  unfold make_target_path. pose proof (Percent.estimate_is_exact path) as He.
  destruct (Percent.normalize_to path) as [f|t] eqn:E; rewrite He; [done|].
  destruct (Z.eqb_spec (Z.of_nat (length t)) (Z.of_nat (length path))) as [El|El]; [|done]. cbn [negb].
  by rewrite (Percent.normalize_same_size path t E) by lia.
Qed.

(** C10. The router picks the first route: a router built by [add_handler] from
    routes as above never has undefined behaviour; an ill-formed path is
    rejected with the error of its normalisation; otherwise the answer is that
    of the first row whose methods include the request's and whose route reads
    the normalised path, called with its parameters, and if there is none, of
    the handler for unmatched requests, or "not handled". *)
Theorem router_picks_first {A} (reserve : nat -> nat) (rows : list (row A)) (nmrh : option A)
    (method : http_method_id_t) (path : list byte) :
  reserves reserve -> Forall row_ok rows ->
  exists r, add_rows reserve rows (mk_router [] nmrh) = inl r
    /\ match Percent.normalize_to path with
       | inl f => run_router r method path = Bad_path f
       | inr t =>
           exists answer, selects method t rows answer
             /\ run_router r method path
                = match answer with
                  | Some a => Handled a
                  | None => match nmrh with Some a => Handled a | None => Not_handled end
                  end
       end.
Proof.
  intros Hr Hok. eexists. split; [by apply add_rows_ok|]. unfold run_router.
  rewrite make_target_path_normal. destruct (Percent.normalize_to path) as [f|t]; [done|].
  destruct (run_entries_selects method t (Z.of_nat (length t)) rows Hok) as (answer & E & Hs).
  exists answer. split; [done|]. cbn [m_handlers m_non_matched_request_handler app]. rewrite E.
  by destruct answer.
Qed.

(** ** Concrete routes *)

Definition author_segment : segment := mk_segment (bs "/author/") (bs "author") [] None.

Lemma author_pieces_ok : Forall piece_ok (route_pieces default_options [author_segment] []).
Proof. apply default_pieces_ok; [done|]. by constructor. Qed.

Lemma route_matches_as_written_witness :
  exists d, path2regex (fun n => n) (bs "/author/:author") default_options = inl d
    /\ match match_route d (mk_target (Some (bs "/Author/Bob/")) 12) with
       | Some (_, Some p) =>
           exists vs, route_match true default_options (route_pieces default_options [author_segment] [])
                        (bs "/Author/Bob/") vs
             /\ parameters_are (route_pieces default_options [author_segment] []) (bs "/Author/Bob/") vs p
       | Some (_, None) => forall vs, ~ route_match true default_options
                             (route_pieces default_options [author_segment] []) (bs "/Author/Bob/") vs
       | None => False
       end.
Proof.
  apply (route_matches_as_written (fun n => n) default_options [author_segment] [] (bs "/Author/Bob/") 12).
  - intros n. lia.
  - done.
  - vm_compute. reflexivity.
  - exact author_pieces_ok.
  - vm_compute. reflexivity.
Defined.

Definition author_rows : list (row (list (list byte * list byte))) :=
  [mk_row (none_of_methods []) default_options [author_segment] []
     (fun p => map (named_value p) (m_named_parameters p))].

Lemma router_picks_first_witness :
  exists r, add_rows (fun n => n) author_rows (mk_router [] None) = inl r
    /\ exists answer, selects http_method_unknown (bs "/author/bob") author_rows answer
         /\ run_router r http_method_unknown (bs "/%61uthor/bob")
            = match answer with Some a => Handled a | None => Not_handled end.
Proof.
  apply (router_picks_first (fun n => n) author_rows None http_method_unknown (bs "/%61uthor/bob")).
  - intros n. lia.
  - constructor; [|done]. split; [done|]. split; [vm_compute; reflexivity|].
    split; [exact author_pieces_ok|vm_compute; reflexivity].
Defined.

(** ** Routes outside the theorems *)

(** Brackets escaped inside a pattern: [escape_group] escapes them once more,
    so that the backslashes become literal and the brackets open a group.  The
    route compiles, with one group more than it has parameters, and a target it
    matches makes [match_route] access its appenders out of range. *)
Lemma escaped_brackets_open_group :
  exists d, path2regex (fun n => n) (bs "/:p(\(x\))") default_options = inl d
    /\ re_groups (m_regex d) = 2%nat /\ length (m_param_appender_sequence d) = 1%nat
    /\ match_route d (mk_target (Some (bs "/\x\")) 4) = None.
Proof.
  assert (H : match path2regex (fun n => n) (bs "/:p(\(x\))") default_options with
    | inl d => (re_groups (m_regex d) =? 2)%nat && (length (m_param_appender_sequence d) =? 1)%nat
               && match match_route d (mk_target (Some (bs "/\x\")) 4) with None => true | _ => false end
    | inr _ => false
    end = true) by (vm_compute; reflexivity).
  destruct (path2regex _ _ _) as [d|]; [|done]. exists d. rewrite !andb_true_iff, !Nat.eqb_eq in H.
  destruct H as [[H1 H2] H3]. split_and!; try done. by destruct (match_route _ _).
Qed.

(** Move assignment from an empty holder destroys the matcher but keeps the
    pointer: the next destruction is that of a dead object. *)
Lemma move_assign_from_empty m :
  exists h, move_assign empty_holder (mk_holder true (Some m)) = Some (h, empty_holder)
    /\ MethodMatcher.m_matcher h = true /\ cleanup h = None.
Proof. eexists. split; [reflexivity|]. done. Qed.

End Routing.
