(* ===== verification/Server.v ===== *)
(** * The server: routing table and sessions

    [server_handler] of src/web/restinio/sample/express_router/main.cpp: the
    construction of the handler, which opens the serial port, the routes of the card
    dealer, added to the express router one by one, and the whole way of a request from
    its method and path to the handler and its effects. *)

From stdpp Require Import gmap.
From S2P Require Import Prelude PercentEncoding Regex RegexTheory Path2Regex RouteMatch RouteSyntax.
From S2P Require Import Router Routing Coordinator HttpFields HttpHeaders HttpResponse CardDealer.

Module Server.
Import Regex RegexTheory StdRegexEngine Path2Regex HttpMethod MethodMatcher Router RouteMatch RouteSyntax Routing.
Import Machine Model Handler DealerProps.

(** ** The routing table *)

Open Scope route_scope.

Section Table.
Context `{HttpParserCodes}.

(** The capacity [std::string::reserve] provides. *)
Variable reserve : nat -> nat.

(** The calls on the router.  What a handler is bound to is its name; no handler of
    the program looks at the route parameters. *)
Definition add_routes : Path2Regex.result (express_router_t route) :=
  let- router := http_get reserve (bs "/") default_options (fun _ => get_home) empty_router in
  let- router := http_get reserve (bs "/game") default_options (fun _ => get_game) router in
  let- router := http_get reserve (bs "/players") default_options (fun _ => get_players) router in
  let- router := http_get reserve (bs "/startgame") default_options (fun _ => get_startgame) router in
  let- router := http_get reserve (bs "/settings") default_options (fun _ => get_settings) router in
  let- router := http_post reserve (bs "/players") default_options (fun _ => post_players) router in
  let- router := http_post reserve (bs "/game") default_options (fun _ => post_game) router in
  let- router := add_handler reserve (simple_matcher_t (http_method_id OPTIONS)) (bs "/")
                   default_options (fun _ => options_home) router in
  let- router := add_handler reserve (none_of_methods [http_method_id GET; http_method_id POST])
                   (bs "/api") default_options (fun _ => other_method) router in
  add_handler reserve (none_of_methods [http_method_id GET]) (bs "/author/:author")
    default_options (fun _ => other_method) router.

(** What keeps the server from being set up: the serial port of the handler's
    [PSoCcom], or a route. *)
Inductive setup_error :=
| port_error (what : string)
| path_error (e : route_error).

(** [selected_handler_t] is constructed before the routes are added. *)
Definition server_handler {P : SerialPort} : express_router_t route + setup_error :=
  match selected_handler with
  | Throw what => inr (port_error what)
  | Ok _ => match add_routes with inl router => inl router | inr e => inr (path_error e) end
  end.

(** The same as a table. *)
Definition plain_row (m : method_matcher_t) (path : list byte) (h : route) : row route :=
  mk_row m default_options [] path (fun _ => h).

Definition get_row (path : list byte) (h : route) : row route :=
  plain_row (simple_matcher_t (http_method_id GET)) path h.
Definition post_row (path : list byte) (h : route) : row route :=
  plain_row (simple_matcher_t (http_method_id POST)) path h.

Definition author_row : row route :=
  mk_row (none_of_methods [http_method_id GET]) default_options
    [mk_segment (bs "/author/") (bs "author") [] None] [] (fun _ => other_method).

Definition table : list (row route) :=
  [get_row (bs "/") get_home; get_row (bs "/game") get_game; get_row (bs "/players") get_players;
   get_row (bs "/startgame") get_startgame; get_row (bs "/settings") get_settings;
   post_row (bs "/players") post_players; post_row (bs "/game") post_game;
   plain_row (simple_matcher_t (http_method_id OPTIONS)) (bs "/") options_home;
   plain_row (none_of_methods [http_method_id GET; http_method_id POST]) (bs "/api") other_method;
   author_row].

Lemma rbind_ext {A B} (m : Path2Regex.result A) (k k' : A -> Path2Regex.result B) :
  (forall a, k a = k' a) -> rbind m k = rbind m k'.
Proof. intros Hk. by destruct m; simpl. Qed.

Lemma add_routes_table : add_routes = add_rows reserve table empty_router.
Proof.
  unfold add_routes, http_get, http_post. cbn [table add_rows].
  do 9 (apply rbind_ext; intros ?).
  unfold add_handler at 1 2. change (route_text _ _) with (bs "/author/:author").
  cbn [row_options author_row row_methods row_handler]. by destruct (path2regex _ _ _).
Qed.

Lemma table_ok : Forall row_ok table.
Proof.
  repeat constructor; try done; repeat constructor; vm_compute; reflexivity.
Qed.

(** ** Which handler a request gets *)

(** The target is the path, in any case, with or without a slash behind it. *)
Definition is_path (t p : list byte) : bool :=
  bool_decide (lower <$> t = lower <$> p) || bool_decide (lower <$> t = lower <$> (p ++ bs "/")).

(** "/author/" and a name without slashes, with or without a slash behind. *)
Definition is_author (t : list byte) : bool :=
  let name := drop 8 t in
  let name := if bool_decide (List.last name x00 = "/"%byte) then removelast name else name in
  bool_decide (lower <$> take 8 t = bs "/author/") && negb (bool_decide (name = []))
  && forallb (fun c => negb (Byte.eqb c "/")) name.

(** A request whose method http_parser does not know has no [http_method]. *)
Definition dispatch (m : option http_method) (t : list byte) : option route :=
  match m with
  | Some GET =>
      if is_path t (bs "/") then Some get_home
      else if is_path t (bs "/game") then Some get_game
      else if is_path t (bs "/players") then Some get_players
      else if is_path t (bs "/startgame") then Some get_startgame
      else if is_path t (bs "/settings") then Some get_settings
      else None
  | Some POST =>
      if is_path t (bs "/players") then Some post_players
      else if is_path t (bs "/game") then Some post_game
      else if is_author t then Some other_method
      else None
  | _ =>
      if bool_decide (m = Some OPTIONS) && is_path t (bs "/") then Some options_home
      else if is_path t (bs "/api") || is_author t then Some other_method
      else None
  end.

Lemma plain_row_reads m path h t vs :
  literal path = true -> path <> [] ->
  row_reads (plain_row m path h) t vs <-> is_path t path = true /\ vs = [].
Proof.
  intros Hl Hne. unfold row_reads, row_pieces, plain_row. cbn [row_options row_segments row_end].
  unfold route_pieces. cbn [param_pieces app]. destruct path as [|c path]; [done|].
  cbn [text_piece route_match piece_match default_options sensitive negb].
  unfold tail_match, same, is_path. cbn [strict delimiter].
  change (letter true) with lower. rewrite orb_true_iff, !bool_decide_eq_true.
  split.
  - intros (w & rest & v & vs' & -> & [Hw _] & [Ht ->] & ->). split; [|done].
    rewrite !fmap_app, Hw. destruct Ht as [->|[_ Ht]]; [left; by rewrite app_nil_r|right].
    f_equal. exact Ht.
  - intros [Ht ->]. destruct Ht as [Ht|Ht].
    + exists t, [], None, []. rewrite app_nil_r. repeat split; [done|by left].
    + rewrite fmap_app in Ht. apply fmap_app_inv in Ht as (w & rest & Hw & Hr & ->).
      exists w, rest, None, []. repeat split; [done|]. right. by split.
Qed.

Lemma slash_only c : lower c = "/"%byte -> c = "/"%byte.
Proof.
  intros Hc. apply Byte.byte_dec_bl.
  assert (Hall : negb (Byte.eqb (lower c) "/") || Byte.eqb c "/" = true)
    by by apply (byte_all_true (fun c => negb (Byte.eqb (lower c) "/") || Byte.eqb c "/")).
  by rewrite Hc in Hall.
Qed.

Lemma author_pieces :
  row_pieces author_row
  = [Text (bs "/author");
     Param (named (bs "author")) (bs "/") (bs "/") false false false (create_pattern (bs "/") [])
       (default_expr "/")].
Proof. vm_compute. reflexivity. Qed.

Lemma last_app_slash (x : list byte) : List.last (x ++ bs "/") x00 = "/"%byte /\ removelast (x ++ bs "/") = x.
Proof. split; [apply last_last|apply removelast_last]. Qed.

Lemma last_no_slash (x : list byte) :
  x <> [] -> forallb (fun c => negb (Byte.eqb c "/")) x = true -> List.last x x00 <> "/"%byte.
Proof.
  intros Hne Hx E. rewrite forallb_forall in Hx.
  assert (Hin : In (List.last x x00) x).
  { rewrite (app_removelast_last x00 Hne) at 2. apply in_app_iff. right. by left. }
  apply Hx in Hin. by rewrite E in Hin.
Qed.

Lemma author_row_reads t : (exists vs, row_reads author_row t vs) <-> is_author t = true.
Proof.
  unfold row_reads. rewrite author_pieces.
  cbn [row_options author_row route_match piece_match default_options sensitive negb].
  unfold param_match, tail_match, same. change (letter true) with lower. cbn [strict delimiter].
  assert (Hlang : forall x, lang true (values_re (bs "/") false (default_expr "/")) x <->
            x <> [] /\ forallb (fun c => negb (Byte.eqb c "/")) x = true).
  { intros x. rewrite lang_default, forallb_forall, Forall_forall.
    split; intros [Hne Hx]; (split; [done|]); intros c Hc; specialize (Hx c Hc).
    - apply negb_true_iff. destruct (Byte.eqb c "/") eqn:E; [|done]. by apply Byte.byte_dec_bl in E as ->.
    - intros E. change (letter true "/") with "/"%byte in E. apply slash_only in E as ->. done. }
  unfold is_author. rewrite !andb_true_iff, bool_decide_eq_true, negb_true_iff, bool_decide_eq_false. split.
  - intros (vs & w1 & r1 & v1 & vs1 & -> & [Hw1 _] & (w2 & r2 & v2 & vs2 & -> & Hp & [Ht _] & _) & _).
    destruct Hp as (u & x & -> & Hu & Hx & _). apply Hlang in Hx as [Hne Hx].
    assert (Hl : length (w1 ++ u) = 8%nat).
    { rewrite length_app. apply (f_equal length) in Hw1, Hu. rewrite !length_fmap in *. simpl in *. lia. }
    rewrite <- !app_assoc, app_assoc. rewrite take_app_length' by done. rewrite drop_app_length' by done.
    rewrite fmap_app, Hw1, Hu.
    assert (Hname : (if bool_decide (List.last (x ++ r2) x00 = "/"%byte) then removelast (x ++ r2) else x ++ r2) = x).
    { destruct Ht as [->|[_ Ht]].
      - rewrite app_nil_r, bool_decide_eq_false_2; [done|by apply last_no_slash].
      - destruct r2 as [|c [|]]; try done. injection Ht as Ht%slash_only. subst c.
        destruct (last_app_slash x) as [Hl1 Hl2]. change (bs "/") with ["/"%byte] in Hl1, Hl2.
        by rewrite Hl1, Hl2. }
    rewrite Hname. done.
  - intros [[Hpre Hne] Hx]. set (name := if bool_decide _ then _ else _) in *.
    assert (Hd : exists tail, drop 8 t = name ++ tail /\ (tail = [] \/ tail = bs "/")).
    { unfold name in *. case_bool_decide as Hlast; [|exists []; rewrite app_nil_r; auto].
      exists (bs "/"). split; [|by right].
      assert (Hnil : drop 8 t <> []) by (intros E; rewrite E in Hne; done).
      rewrite (app_removelast_last x00 Hnil) at 1. by rewrite Hlast. }
    destruct Hd as (tail & Hd & Htail).
    change (bs "/author/") with (bs "/author" ++ bs "/") in Hpre.
    change (bs "/author" ++ bs "/") with ((lower <$> bs "/author") ++ (lower <$> bs "/")) in Hpre.
    apply fmap_app_inv in Hpre as (w1 & u & Hw1 & Hu & Ht8).
    rewrite <- (take_drop 8 t), Ht8, Hd, <- app_assoc.
    eexists. exists w1, (u ++ name ++ tail), None. eexists. split; [done|]. split; [by split|].
    split; [|reflexivity]. exists (u ++ name), tail, (Some (length u, length (u ++ name))). eexists.
    rewrite <- app_assoc. split; [done|]. split; [exists u, name; split_and!; try done; by apply Hlang|].
    split; [|reflexivity]. split; [|reflexivity]. destruct Htail as [->| ->]; [by left|by right].
Qed.

Definition method_id (m : option http_method) : http_method_id_t :=
  match m with Some m => http_method_id m | None => http_method_unknown end.

Lemma method_eq_method_id a m : method_eq (http_method_id a) (method_id m) = bool_decide (m = Some a).
Proof.
  destruct m as [b|]; simpl.
  - rewrite method_eq_id. apply bool_decide_ext. split; [by intros ->|by intros [= ->]].
  - unfold method_eq, raw_id, http_method_unknown, unknown_method. simpl.
    pose proof (nodejs_code_nonneg a). apply Z.eqb_neq. lia.
Qed.

Lemma selects_plain method t mm path h rows answer a :
  literal path = true -> path <> [] -> (selects method t rows answer -> answer = a) ->
  selects method t (plain_row mm path h :: rows) answer ->
  answer = if match_ method mm && is_path t path then Some h else a.
Proof.
  intros Hl Hne Ha. cbn [selects]. change (row_methods (plain_row mm path h)) with mm.
  destruct (match_ method mm); [|done]. intros [(vs & p & Hr & _ & ->)|[Hno Hs]]; simpl.
  - apply plain_row_reads in Hr as [-> _]; done.
  - destruct (is_path t path) eqn:E; [|auto]. destruct (Hno []). by apply plain_row_reads.
Qed.

Lemma selects_author method t answer :
  selects method t [author_row] answer ->
  answer = if match_ method (row_methods author_row) && is_author t then Some other_method else None.
Proof.
  cbn [selects]. destruct (match_ method _); [|done]. intros [(vs & p & Hr & _ & ->)|[Hno ->]]; simpl.
  - by rewrite (proj1 (author_row_reads t)) by eauto.
  - destruct (is_author t) eqn:E; [|done]. apply author_row_reads in E as [vs Hr]. by destruct (Hno vs).
Qed.

Lemma table_dispatch m t answer : selects (method_id m) t table answer -> answer = dispatch m t.
Proof.
  intros Hs. unfold table, get_row, post_row in Hs.
  eapply selects_plain in Hs; [|done|done|].
  2:{ do 8 (eapply selects_plain; [done|done|]). apply selects_author. }
  rewrite Hs. cbn [match_ find_method none_of_methods row_methods author_row].
  rewrite !method_eq_method_id. clear Hs.
  destruct m as [[]|]; cbn [dispatch]; repeat (rewrite bool_decide_eq_false_2 by done; cbn [andb negb orb]);
    rewrite ?bool_decide_eq_true_2 by done; cbn [andb negb orb]; 
    repeat (rewrite bool_decide_eq_false_2 by done; cbn [andb negb orb]);
    try done; by destruct (is_path t (bs "/api")).
Qed.

Lemma run_server (r : express_router_t route) m path :
  m_handlers r = map entry_of table -> m_non_matched_request_handler r = None ->
  run_router r (method_id m) path
  = match Percent.normalize_to path with
    | inl f => Bad_path f
    | inr t => match dispatch m t with Some h => Handled h | None => Not_handled end
    end.
Proof.
  intros Hh Hn. unfold run_router. rewrite make_target_path_normal, Hh, Hn.
  destruct (Percent.normalize_to path) as [f|t]; [done|].
  destruct (run_entries_selects (method_id m) t (Z.of_nat (length t)) table table_ok) as (answer & -> & Hs).
  apply table_dispatch in Hs as ->. by destruct (dispatch m t).
Qed.

Lemma add_routes_ok : reserves reserve -> add_routes = inl (mk_router (map entry_of table) None).
Proof. intros Hr. by rewrite add_routes_table, add_rows_ok by (done || apply table_ok). Qed.

Context `{P : SerialPort}.

(** The serial port is opened and set up, or what it throws ends the setup. *)
Lemma server_handler_cases :
  reserves reserve ->
  server_handler
  = match Serial.Serial 57600 "/dev/ttyS0" with
    | Ok _ => inl (mk_router (map entry_of table) None)
    | Throw what => inr (port_error what)
    end.
Proof.
  intros Hr. unfold server_handler, selected_handler, PSoCcom.PSoCcom.
  destruct (Serial.Serial _ _); [by rewrite add_routes_ok|done].
Qed.

Lemma server_handler_router r :
  reserves reserve -> server_handler = inl r -> r = mk_router (map entry_of table) None.
Proof. intros Hr. rewrite server_handler_cases by done. destruct (Serial.Serial _ _); [by intros [= <-]|done]. Qed.

(** C3. Setting up the server and dispatching requests.  If the serial port /dev/ttyS0
    cannot be opened, or its baud rate cannot be set, [server_handler] throws that error
    and there is no router.  Otherwise it builds its router without an error, and for
    every method and every path the router calls the handler of the table, read
    case-insensitively and with an optional slash at the end; other requests are left
    unhandled, and paths that cannot be normalised are rejected. *)
Theorem server_dispatches :
  reserves reserve ->
  (forall what, open_port "/dev/ttyS0" = Throw what -> server_handler = inr (port_error what)) /\
  (forall what, open_port "/dev/ttyS0" = Ok tt -> set_baud_rate 57600 = Throw what ->
     server_handler = inr (port_error what)) /\
  (open_port "/dev/ttyS0" = Ok tt -> set_baud_rate 57600 = Ok tt ->
   exists r, server_handler = inl r
    /\ forall m path,
         run_router r (method_id m) path
         = match Percent.normalize_to path with
           | inl f => Bad_path f
           | inr t => match dispatch m t with Some h => Handled h | None => Not_handled end
           end).
Proof.
  intros Hr. pose proof (server_handler_cases Hr) as E. unfold Serial.Serial in E. split_and!.
  - intros what Ho. by rewrite E, Ho.
  - intros what Ho Hb. by rewrite E, Ho, Hb.
  - intros Ho Hb. rewrite Ho, Hb in E. eexists. split; [exact E|]. intros m path. by apply run_server.
Qed.

(** ** Sessions *)

Context `{J : JsonDto}.
Variable now : list byte.

(** A request as it arrives: method, path and what the handlers read. *)
Definition event : Type := option http_method * list byte * request.

(** A request that is not handled or whose path is rejected changes nothing. *)
Definition serve_event (r : express_router_t route) (w : world) (ev : event) : option world :=
  let '(m, path, req) := ev in
  match run_router r (method_id m) path with
  | Handled h => serve1 now w (h, req)
  | Not_handled | Bad_path _ => Some w
  | Undefined => None
  end.

Fixpoint serve_events (r : express_router_t route) (w : world) (evs : list event) : option world :=
  match evs with
  | [] => Some w
  | ev :: evs => match serve_event r w ev with Some w' => serve_events r w' evs | None => None end
  end.

(** The handler a request is meant for. *)
Definition route_of (ev : event) : option (route * request) :=
  let '(m, path, req) := ev in
  match Percent.normalize_to path with
  | inl _ => None
  | inr t => match dispatch m t with Some h => Some (h, req) | None => None end
  end.

(** The specification of a request: that of the handler it is meant for. *)
Definition spec_event (st : dealer) (ev : event) : dealer :=
  match route_of ev with Some ev => spec_step st ev | None => st end.

(** Whenever a game is started, the stored selection fits the buffers of [startSpil] or
    cannot be read. *)
Fixpoint starts_fit (st : dealer) (evs : list event) : bool :=
  match evs with
  | [] => true
  | ev :: evs =>
      match route_of ev with Some (r, _) => negb (is_start r) || startable st | None => true end
      && starts_fit (spec_event st ev) evs
  end.

Lemma event_implements st w ev :
  implements st w -> match route_of ev with Some (r, _) => negb (is_start r) || startable st | None => true end = true ->
  exists w', serve_event (mk_router (map entry_of table) None) w ev = Some w' /\ implements (spec_event st ev) w'.
Proof.
  destruct ev as [[m path] req]. intros Hi Hst. unfold serve_event, spec_event. rewrite run_server by done.
  unfold route_of in *. destruct (Percent.normalize_to path) as [f|t]; [by exists w|].
  destruct (dispatch m t) as [h|]; [|by exists w].
  exists (step_world st w (h, req)). apply step_implements; [done|]. cbn [fst]. intros Hs. rewrite Hs in Hst. exact Hst.
Qed.

Lemma spec_events_agree evs : forall st, agrees st -> agrees (fold_left spec_event evs st).
Proof.
  induction evs as [|ev evs IH]; intros st Ha; [done|]. cbn [fold_left]. apply IH. unfold spec_event.
  destruct (route_of ev); [by apply spec_step_agrees|done].
Qed.

(** C1. The server implements its specification, the dealer of [CardDealer], which keeps
    the selection in memory and the text of the settings file, and offers its messages to
    a port that may take only part of them or throw.  Start with the program in the state
    of the specification, whatever memory and file hold; then for every sequence of
    requests, of any methods and paths, along which a game is started only when the stored
    selection fits the buffers or cannot be read, nothing has undefined behaviour, and
    afterwards memory, settings file and the octets on the UART are again those of the
    specification.  If moreover memory and file agree at the start and the file can be
    written, they agree at the end. *)
Theorem server_implements_spec (r : express_router_t route) (w : world) (st : dealer) (evs : list event) :
  reserves reserve -> server_handler = inl r -> implements st w -> starts_fit st evs = true ->
  exists w', serve_events r w evs = Some w' /\ implements (fold_left spec_event evs st) w' /\
    (agrees st -> agrees (fold_left spec_event evs st)).
Proof.
  intros Hres Hr Hi Hfit. apply server_handler_router in Hr as ->; [|done].
  cut (exists w', serve_events (mk_router (map entry_of table) None) w evs = Some w'
                  /\ implements (fold_left spec_event evs st) w').
  { intros (w' & H1 & H2). exists w'. split_and!; [done|done|]. apply spec_events_agree. }
  revert w st Hi Hfit. induction evs as [|ev evs IH]; intros w st Hi Hfit; [by exists w|].
  cbn [starts_fit] in Hfit. apply andb_prop in Hfit as [Hst Hfit].
  destruct (event_implements st w ev Hi Hst) as (w1 & E1 & Hi1).
  destruct (IH w1 _ Hi1 Hfit) as (w2 & E2 & Hi2). exists w2. cbn [serve_events fold_left]. by rewrite E1.
Qed.

End Table.
End Server.

(** ** Concrete sessions *)

Module ServerWitnesses.
Import Machine Model Handler DealerProps Instances DealerWitnesses HttpMethod NumberedMethods Router RouteMatch
  RouteSyntax Routing Server.

Lemma reserves_exact : reserves (fun n => n).
Proof. intros n. lia. Qed.

Lemma server_dispatches_witness :
  server_handler (P := absent_port) (fun n => n) = inr (port_error "open: No such file or directory") /\
  exists r, server_handler (P := eager_port) (fun n => n) = inl r
    /\ run_router r (method_id (Some GET)) (bs "/%53tartGame/") = Handled get_startgame
    /\ run_router r (method_id (Some DELETE)) (bs "/author/bob") = Handled other_method
    /\ run_router r (method_id (Some GET)) (bs "/author/bob") = Not_handled
    /\ exists f, run_router r (method_id None) (bs "/%zz") = Bad_path f.
Proof.
  split; [exact (proj1 (server_dispatches (P := absent_port) (fun n => n) reserves_exact) _ eq_refl)|].
  destruct (proj2 (proj2 (server_dispatches (P := eager_port) (fun n => n) reserves_exact)) eq_refl eq_refl) as (r & Hr & Hrun).
  exists r. split; [done|]. rewrite !Hrun. split; [vm_compute; reflexivity|].
  split; [vm_compute; reflexivity|]. split; [vm_compute; reflexivity|].
  eexists. vm_compute. reflexivity.
Defined.

(** A restarted server whose port takes two octets at a time: the game that is stored is
    forgotten when the number of players is posted, and the PSoC gets part of the message. *)
Lemma server_implements_spec_witness :
  exists r w', server_handler (P := slow_port) (fun n => n) = inl r
    /\ serve_events (P := slow_port) (bs "now") r (restart world0)
         [(Some POST, bs "/players", post4); (Some GET, bs "/nowhere", get0);
          (Some GET, bs "/startgame", get0)] = Some w'
    /\ w_uart w' = bs "R4".
Proof.
  pose proof (server_handler_cases (P := slow_port) (fun n => n) reserves_exact) as Er.
  set (r := mk_router (map entry_of table) None). destruct (server_implements_spec (P := slow_port) (fun n => n) (J:=compact_json) (bs "now") r (restart world0)
    (mk_dealer selected_default (write_selected fisk4) true [])
    [(Some POST, bs "/players", post4); (Some GET, bs "/nowhere", get0); (Some GET, bs "/startgame", get0)])
    as (w' & H1 & H2 & _).
  - exact reserves_exact.
  - exact Er.
  - constructor; vm_compute; reflexivity.
  - vm_compute. reflexivity.
  - exists r, w'. split; [exact Er|]. split; [exact H1|]. destruct H2 as [_ _ _ _ H2]. rewrite H2. vm_compute. reflexivity.
Defined.

End ServerWitnesses.
