(* ===== verification/FromString.v ===== *)
(** * Numbers from text

    Model of src/web/restinio/restinio/utils/from_string.hpp with its
    from_string_details.ipp.

    [parse_integer] works on two pointers: the model passes the octets that
    are readable from [data_begin] on and the distance to [data_end], so that
    the read before the emptiness check and the wrap-around of the pointer
    difference are both visible.  Arithmetic is done in the promoted type of
    the operands; a signed overflow and a table index outside the table are
    the result [Undefined].  Whether [char] is signed differs between the
    platforms the program is built for and is a variable of the section. *)

From S2P Require Import Prelude HttpResponse.

Module FromString.
Import Decimal.

(** ** The digit table *)

Definition digits_mapping : list Z :=
  [0xFF; 0xFF; 0xFF; 0xFF; 0xFF; 0xFF; 0xFF; 0xFF; 0xFF; 0xFF; 0xFF; 0xFF; 0xFF; 0xFF; 0xFF; 0xFF;
   0xFF; 0xFF; 0xFF; 0xFF; 0xFF; 0xFF; 0xFF; 0xFF; 0xFF; 0xFF; 0xFF; 0xFF; 0xFF; 0xFF; 0xFF; 0xFF;
   0xFF; 0xFF; 0xFF; 0xFF; 0xFF; 0xFF; 0xFF; 0xFF; 0xFF; 0xFF; 0xFF; 0xFF; 0xFF; 0xFF; 0xFF; 0xFF;
   0x00; 0x01; 0x02; 0x03; 0x04; 0x05; 0x06; 0x07; 0x08; 0x09; 0xFF; 0xFF; 0xFF; 0xFF; 0xFF; 0xFF;
   0xF0; 0xFF; 0xFF; 0xFF; 0xFF; 0xFF; 0xFF; 0xFF; 0xFF; 0xFF; 0xFF; 0xFF; 0xFF; 0xFF; 0xFF; 0xFF;
   0xFF; 0xFF; 0xFF; 0xFF; 0xFF; 0xFF; 0xFF; 0xFF; 0xFF; 0xFF; 0xFF; 0xFF; 0xFF; 0xFF; 0xFF; 0xFF;
   0xFF; 0xFF; 0xFF; 0xFF; 0xFF; 0xFF; 0xFF; 0xFF; 0xFF; 0xFF; 0xFF; 0xFF; 0xFF; 0xFF; 0xFF; 0xFF;
   0xFF; 0xFF; 0xFF; 0xFF; 0xFF; 0xFF; 0xFF; 0xFF; 0xFF; 0xFF; 0xFF; 0xFF; 0xFF; 0xFF; 0xFF; 0xFF;
   0xFF; 0xFF; 0xFF; 0xFF; 0xFF; 0xFF; 0xFF; 0xFF; 0xFF; 0xFF; 0xFF; 0xFF; 0xFF; 0xFF; 0xFF; 0xFF;
   0xFF; 0xFF; 0xFF; 0xFF; 0xFF; 0xFF; 0xFF; 0xFF; 0xFF; 0xFF; 0xFF; 0xFF; 0xFF; 0xFF; 0xFF; 0xFF;
   0xFF; 0xFF; 0xFF; 0xFF; 0xFF; 0xFF; 0xFF; 0xFF; 0xFF; 0xFF; 0xFF; 0xFF; 0xFF; 0xFF; 0xFF; 0xFF;
   0xFF; 0xFF; 0xFF; 0xFF; 0xFF; 0xFF; 0xFF; 0xFF; 0xFF; 0xFF; 0xFF; 0xFF; 0xFF; 0xFF; 0xFF; 0xFF;
   0xFF; 0xFF; 0xFF; 0xFF; 0xFF; 0xFF; 0xFF; 0xFF; 0xFF; 0xFF; 0xFF; 0xFF; 0xFF; 0xFF; 0xFF; 0xFF;
   0xFF; 0xFF; 0xFF; 0xFF; 0xFF; 0xFF; 0xFF; 0xFF; 0xFF; 0xFF; 0xFF; 0xFF; 0xFF; 0xFF; 0xFF; 0xFF;
   0xFF; 0xFF; 0xFF; 0xFF; 0xFF; 0xFF; 0xFF; 0xFF; 0xFF; 0xFF; 0xFF; 0xFF; 0xFF; 0xFF; 0xFF; 0xFF;
   0xFF; 0xFF; 0xFF; 0xFF; 0xFF; 0xFF; 0xFF; 0xFF; 0xFF; 0xFF; 0xFF; 0xFF; 0xFF; 0xFF; 0xFF; 0xFF].

(** ** The traits of the integer types *)

Record parse_traits := ParseTraits {
  type_bits : Z;
  type_signed : bool;
  digits_representation_max_size : nat;
  min_representation : list byte;
  max_representation : list byte;
  type_name : list byte
}.

Definition int8_parse_traits_t : parse_traits :=
  ParseTraits 8 true 3 (bs "128") (bs "127") (bs "int8_t").
Definition uint8_parse_traits_t : parse_traits :=
  ParseTraits 8 false 3 (bs "0") (bs "255") (bs "uint8_t").
Definition int16_parse_traits_t : parse_traits :=
  ParseTraits 16 true 5 (bs "32768") (bs "32767") (bs "int16_t").
Definition uint16_parse_traits_t : parse_traits :=
  ParseTraits 16 false 5 (bs "0") (bs "65535") (bs "uint16_t").
Definition int32_parse_traits_t : parse_traits :=
  ParseTraits 32 true 10 (bs "2147483648") (bs "2147483647") (bs "int32_t").
Definition uint32_parse_traits_t : parse_traits :=
  ParseTraits 32 false 10 (bs "0") (bs "4294967295") (bs "uint32_t").
Definition int64_parse_traits_t : parse_traits :=
  ParseTraits 64 true 19 (bs "9223372036854775808") (bs "9223372036854775807") (bs "int64_t").
Definition uint64_parse_traits_t : parse_traits :=
  ParseTraits 64 false 20 (bs "0") (bs "18446744073709551615") (bs "uint64_t").

#[global] Instance parse_traits_eq_dec : EqDecision parse_traits.
Proof. solve_decision. Defined.

(** The overloads of [read_value] for integers. *)
Definition integer_traits : list parse_traits :=
  [int64_parse_traits_t; uint64_parse_traits_t; int32_parse_traits_t; uint32_parse_traits_t;
   int16_parse_traits_t; uint16_parse_traits_t; int8_parse_traits_t; uint8_parse_traits_t].

(** ** C++ integers *)

Definition type_min (bits : Z) (signed : bool) : Z := if signed then - 2 ^ (bits - 1) else 0.
Definition type_max (bits : Z) (signed : bool) : Z :=
  if signed then 2 ^ (bits - 1) - 1 else 2 ^ bits - 1.
Definition fits (bits : Z) (signed : bool) (z : Z) : bool :=
  (type_min bits signed <=? z) && (z <=? type_max bits signed).

(** [static_cast] to an integer type. *)
Definition convert (bits : Z) (signed : bool) (z : Z) : Z :=
  if signed then wrap bits (z + 2 ^ (bits - 1)) - 2 ^ (bits - 1) else wrap bits z.

(** The result of an operation in the promoted type of an operand: [int] for
    the types narrower than it; [None] is a signed overflow. *)
Definition promoted_bits (t : parse_traits) : Z := Z.max 32 (type_bits t).
Definition promoted_signed (t : parse_traits) : bool := type_signed t || (type_bits t <? 32).
Definition arith (t : parse_traits) (z : Z) : option Z :=
  if promoted_signed t
  then if fits (promoted_bits t) true z then Some z else None
  else Some (wrap (promoted_bits t) z).

Inductive read_result :=
| Value (v : Z)
| Exception (what : list byte)
| StdOutOfRange (what : list byte)
| Undefined.

Definition invalid_value (t : parse_traits) (why : list byte) : list byte :=
  bs "invalid " ++ type_name t ++ bs " value: " ++ why.

(** [std::memcmp]: the sign of the first difference. *)
Fixpoint memcmp (a b : list byte) (n : nat) : Z :=
  match n, a, b with
  | S n, x :: a, y :: b => if u8 x =? u8 y then memcmp a b n else u8 x - u8 y
  | _, _, _ => 0
  end.

Section Parse.
Context (char_signed : bool).

(** [mapping_table[ static_cast< std::size_t >( c ) ]]. *)
Definition table_index (c : byte) : Z :=
  if char_signed && (128 <=? u8 c) then wrap 64 (u8 c - 256) else u8 c.
Definition mapped (c : byte) : option Z :=
  if table_index c <? Z.of_nat (length digits_mapping)
  then digits_mapping !! Z.to_nat (table_index c)
  else None.

(** The [std::any_of] over the digits. *)
Fixpoint any_invalid (s : list byte) : option bool :=
  match s with
  | [] => Some false
  | c :: s =>
      match mapped c with
      | None => None
      | Some v => if 0xFF =? v then Some true else any_invalid s
      end
  end.

(** The loops of the two overloads of [parse_integer_no_checks]. *)
Fixpoint no_checks_loop (t : parse_traits) (minus : bool) (result : Z) (s : list byte) : option Z :=
  match s with
  | [] => Some result
  | c :: s =>
      match arith t (result * 10), mapped c with
      | Some p, Some d =>
          match arith t (if minus then p - d else p + d) with
          | Some r => no_checks_loop t minus (convert (type_bits t) (type_signed t) r) s
          | None => None
          end
      | _, _ => None
      end
  end.

Definition parse_integer_no_checks (t : parse_traits) (s : list byte) (apply_minus_sign : bool)
  : option Z :=
  no_checks_loop t (type_signed t && apply_minus_sign) 0 s.

(** The part of [parse_integer] after the sign. *)
Definition parse_digits (t : parse_traits) (apply_minus_sign : bool) (mem : list byte)
    (representation_size : Z) : read_result :=
  if 0 =? representation_size then Exception (invalid_value t (bs "empty string"))
  else if Z.of_nat (digits_representation_max_size t) <? representation_size then
    Exception (invalid_value t
      (bs "max digits for type is " ++ dec (Z.of_nat (digits_representation_max_size t))))
  else
    let s := take (Z.to_nat representation_size) mem in
    match any_invalid s with
    | None => Undefined
    | Some true => Exception (invalid_value t (bs "invalid digit"))
    | Some false =>
        let possible_max :=
          if apply_minus_sign then min_representation t else max_representation t in
        if (Z.of_nat (digits_representation_max_size t) =? representation_size) &&
           (0 <? memcmp s possible_max (Z.to_nat representation_size))
        then StdOutOfRange (invalid_value t (bs "out of range"))
        else match parse_integer_no_checks t s apply_minus_sign with
             | Some v => Value v
             | None => Undefined
             end
    end.

(** [mem] is what can be read from [data_begin] on, [size] is
    [data_end - data_begin]. *)
Definition parse_integer (t : parse_traits) (mem : list byte) (size : Z) : read_result :=
  match mem with
  | [] => Undefined
  | c :: mem' =>
      if decide (c = x2d) then
        if negb (type_signed t) then
          Exception (invalid_value t (bs "unsigned starts with minus"))
        else parse_digits t true mem' (wrap 64 (size - 1))
      else if decide (c = x2b) then parse_digits t false mem' (wrap 64 (size - 1))
      else parse_digits t false mem (wrap 64 size)
  end.

(** [from_string] for a view of [s] with [beyond] behind it in memory. *)
Definition read_value (t : parse_traits) (data : list byte) (size : Z) : read_result :=
  parse_integer t data size.
Definition from_string (t : parse_traits) (s beyond : list byte) : read_result :=
  read_value t (s ++ beyond) (Z.of_nat (length s)).

End Parse.

Definition from_string_string (s : list byte) : list byte := s.

(** ** What the parser is meant to compute *)

Definition is_digit (c : byte) : bool := (0x30 <=? u8 c) && (u8 c <=? 0x39).

Definition split_sign (s : list byte) : bool * list byte :=
  match s with
  | x2d :: ds => (true, ds)
  | x2b :: ds => (false, ds)
  | _ => (false, s)
  end.

Definition reference (t : parse_traits) (s : list byte) : read_result :=
  let '(minus, ds) := split_sign s in
  let v := if minus then - dec_value ds else dec_value ds in
  if minus && negb (type_signed t) then
    Exception (invalid_value t (bs "unsigned starts with minus"))
  else if decide (ds = []) then Exception (invalid_value t (bs "empty string"))
  else if decide (digits_representation_max_size t < length ds)%nat then
    Exception (invalid_value t
      (bs "max digits for type is " ++ dec (Z.of_nat (digits_representation_max_size t))))
  else if negb (forallb is_digit ds) then Exception (invalid_value t (bs "invalid digit"))
  else if fits (type_bits t) (type_signed t) v then Value v
  else StdOutOfRange (invalid_value t (bs "out of range")).

(** What the parser relies on in its traits. *)
Class TraitsOk (t : parse_traits) : Prop := {
  bits_supported : 8 <= type_bits t <= 64;
  max_is_max : dec_value (max_representation t) = type_max (type_bits t) (type_signed t);
  min_is_min : type_signed t = true ->
    - dec_value (min_representation t) = type_min (type_bits t) true;
  max_digits : forallb is_digit (max_representation t) = true;
  min_digits : forallb is_digit (min_representation t) = true;
  max_size : length (max_representation t) = digits_representation_max_size t;
  min_size : type_signed t = true ->
    length (min_representation t) = digits_representation_max_size t;
  max_size_small : (1 <= digits_representation_max_size t <= 20)%nat;
  shorter_fits : 10 ^ (Z.of_nat (digits_representation_max_size t) - 1)
    <= type_max (type_bits t) (type_signed t)
}.

Lemma integer_traits_ok t : t ∈ integer_traits -> TraitsOk t.
Proof.
  unfold integer_traits. rewrite !elem_of_cons. intros H.
  repeat (destruct H as [->|H]; [constructor; vm_compute; try done; try lia; try (split; congruence)|]).
  by apply elem_of_nil in H.
Qed.

(** ** Digit strings and their values *)

Lemma fold_dec ds acc :
  fold_left (fun a b => a * 10 + (u8 b - 0x30)) ds acc
  = acc * 10 ^ Z.of_nat (length ds) + dec_value ds.
Proof.
  unfold dec_value. revert acc. induction ds as [|c ds IH]; intros acc; cbn [fold_left length]; [lia|].
  rewrite IH, (IH (0 * 10 + _)), Nat2Z.inj_succ, Z.pow_succ_r by lia. ring.
Qed.

Lemma dec_value_cons c ds :
  dec_value (c :: ds) = (u8 c - 0x30) * 10 ^ Z.of_nat (length ds) + dec_value ds.
Proof. unfold dec_value at 1. cbn [fold_left]. rewrite fold_dec. ring. Qed.

Lemma is_digit_range c : is_digit c = true -> 0 <= u8 c - 0x30 <= 9.
Proof. unfold is_digit. lia. Qed.

Lemma dec_value_bounds ds :
  forallb is_digit ds = true -> 0 <= dec_value ds < 10 ^ Z.of_nat (length ds).
Proof.
  induction ds as [|c ds IH]; [done|]. cbn [forallb]. rewrite andb_true_iff.
  intros [Hc%is_digit_range Hds%IH]. rewrite dec_value_cons. cbn [length].
  rewrite Nat2Z.inj_succ, Z.pow_succ_r by lia. nia.
Qed.

(** Comparing the octets of two digit strings of one length compares their
    values. *)
Lemma memcmp_value a b :
  length a = length b -> forallb is_digit a = true -> forallb is_digit b = true ->
  (0 <? memcmp a b (length a)) = (dec_value b <? dec_value a).
Proof.
  revert b. induction a as [|x a IH]; intros [|y b] Hl Ha Hb; try done.
  cbn in Hl, Ha, Hb. apply andb_true_iff in Ha as [Hx Ha], Hb as [Hy Hb].
  cbn [memcmp length]. rewrite !dec_value_cons.
  pose proof (dec_value_bounds _ Ha). pose proof (dec_value_bounds _ Hb).
  pose proof (is_digit_range _ Hx). pose proof (is_digit_range _ Hy).
  injection Hl as Hl. specialize (IH b Hl Ha Hb). rewrite Hl in *.
  destruct (Z.eqb_spec (u8 x) (u8 y)) as [->|Hne]; [rewrite IH|];
    apply eq_bool_prop_intro; rewrite !Is_true_true, !Z.ltb_lt; nia.
Qed.

(** ** Machine arithmetic that stays in range *)

Lemma fits_iff bits signed z :
  fits bits signed z = true <-> type_min bits signed <= z <= type_max bits signed.
Proof. unfold fits. rewrite andb_true_iff, !Z.leb_le. done. Qed.

Lemma convert_fits bits signed z :
  1 <= bits -> fits bits signed z = true -> convert bits signed z = z.
Proof.
  intros Hb. rewrite fits_iff. unfold type_min, type_max, convert, wrap.
  pose proof (Z.pow_pos_nonneg 2 (bits - 1)).
  assert (2 ^ bits = 2 * 2 ^ (bits - 1)) by (rewrite <- Z.pow_succ_r by lia; f_equal; lia).
  destruct signed; intros H1; rewrite Z.mod_small; lia.
Qed.

Lemma arith_fits t z :
  8 <= type_bits t <= 64 -> fits (type_bits t) (type_signed t) z = true -> arith t z = Some z.
Proof.
  intros Hb. rewrite fits_iff. unfold arith, promoted_signed, promoted_bits, type_min, type_max.
  pose proof (Z.pow_pos_nonneg 2 (type_bits t - 1)).
  destruct (type_signed t), (Z.ltb_spec (type_bits t) 32); cbn [orb]; intros Hz.
  - rewrite Z.max_l by lia. pose proof (Z.pow_le_mono_r 2 (type_bits t - 1) 31).
    rewrite (proj2 (fits_iff _ _ _)); [done|]. unfold type_min, type_max. cbn. lia.
  - rewrite Z.max_r by lia. by rewrite (proj2 (fits_iff _ _ _)).
  - rewrite Z.max_l by lia. pose proof (Z.pow_le_mono_r 2 (type_bits t) 31).
    rewrite (proj2 (fits_iff _ _ _)); [done|]. unfold type_min, type_max. cbn. lia.
  - rewrite Z.max_r by lia. unfold wrap. rewrite Z.mod_small by lia. done.
Qed.

Lemma fits_scale bits signed (minus : bool) a b :
  1 <= bits -> 0 <= a <= b -> fits bits signed (if minus then - b else b) = true ->
  fits bits signed (if minus then - a else a) = true.
Proof.
  intros Hb Hab. rewrite !fits_iff. unfold type_min, type_max.
  pose proof (Z.pow_pos_nonneg 2 (bits - 1)). pose proof (Z.pow_pos_nonneg 2 bits).
  destruct minus, signed; lia.
Qed.

(** The octets the table is right about: ['@'] is mapped to 240, and a
    negative [char] indexes outside the table. *)
Definition in_table (char_signed : bool) (c : byte) : bool :=
  negb (u8 c =? 0x40) && negb (char_signed && (128 <=? u8 c)).

Section ParseLaws.
Context (char_signed : bool).
Local Abbreviation in_table := (in_table char_signed).

Lemma mapped_spec c :
  in_table c = true ->
  mapped char_signed c = Some (if is_digit c then u8 c - 0x30 else 0xFF).
Proof.
  intros H.
  assert (Hall : byte_all (fun c => implb (in_table c) (bool_decide
    (mapped char_signed c = Some (if is_digit c then u8 c - 0x30 else 0xFF)))) = true)
    by (destruct char_signed; vm_compute; reflexivity).
  pose proof (byte_all_true _ Hall c) as Hc. cbn beta in Hc. rewrite H in Hc.
  by apply bool_decide_eq_true in Hc.
Qed.

Lemma any_invalid_spec s :
  forallb in_table s = true -> any_invalid char_signed s = Some (negb (forallb is_digit s)).
Proof.
  induction s as [|c s IH]; [done|]. cbn [forallb any_invalid]. rewrite andb_true_iff.
  intros [Hc Hs]. rewrite mapped_spec by done. destruct (is_digit c) eqn:Hd; [|done].
  apply is_digit_range in Hd. destruct (Z.eqb_spec 0xFF (u8 c - 0x30)); [lia|auto].
Qed.

Lemma digit_in_table c : is_digit c = true -> in_table c = true.
Proof. unfold is_digit, in_table. destruct char_signed; cbn [andb]; lia. Qed.

Lemma digits_in_table ds : forallb is_digit ds = true -> forallb in_table ds = true.
Proof.
  rewrite !forallb_forall. intros H c Hc. by apply digit_in_table, H.
Qed.

(** The accumulation is exact as soon as its result is a value of the type. *)
Lemma no_checks_loop_spec t (minus : bool) acc ds :
  8 <= type_bits t <= 64 -> forallb is_digit ds = true -> 0 <= acc ->
  let v := acc * 10 ^ Z.of_nat (length ds) + dec_value ds in
  fits (type_bits t) (type_signed t) (if minus then - v else v) = true ->
  no_checks_loop char_signed t minus (if minus then - acc else acc) ds
  = Some (if minus then - v else v).
Proof.
  intros Hb. revert acc. induction ds as [|c ds IH]; intros acc Hds Hacc v Hv; unfold v in *.
  { cbn. destruct minus; do 2 f_equal; unfold dec_value; simpl; lia. }
  cbn [forallb] in Hds. apply andb_true_iff in Hds as [Hc Hds].
  pose proof (is_digit_range _ Hc) as Hr. pose proof (dec_value_bounds _ Hds) as Hd.
  set (k := 10 ^ Z.of_nat (length ds)) in *.
  assert (Hk : 0 < k) by (apply Z.pow_pos_nonneg; lia).
  assert (Heq : acc * 10 ^ Z.of_nat (length (c :: ds)) + dec_value (c :: ds)
    = (acc * 10 + (u8 c - 0x30)) * k + dec_value ds).
  { rewrite dec_value_cons. cbn [length]. rewrite Nat2Z.inj_succ, Z.pow_succ_r by lia.
    fold k. ring. }
  rewrite Heq in *.
  assert (H1 : fits (type_bits t) (type_signed t) (if minus then - (acc * 10) else acc * 10) = true)
    by (eapply fits_scale; [lia| |exact Hv]; nia).
  assert (H2 : fits (type_bits t) (type_signed t)
    (if minus then - (acc * 10 + (u8 c - 0x30)) else acc * 10 + (u8 c - 0x30)) = true)
    by (eapply fits_scale; [lia| |exact Hv]; nia).
  specialize (IH (acc * 10 + (u8 c - 0x30)) Hds ltac:(lia) Hv).
  cbn [no_checks_loop]. rewrite mapped_spec, Hc by by apply digit_in_table.
  destruct minus.
  - replace (- acc * 10) with (- (acc * 10)) by lia. rewrite arith_fits by done.
    replace (- (acc * 10) - (u8 c - 0x30)) with (- (acc * 10 + (u8 c - 0x30))) by lia.
    rewrite arith_fits, convert_fits by (done || lia). exact IH.
  - rewrite arith_fits, arith_fits, convert_fits by (done || lia). exact IH.
Qed.

(** The comparison with the extreme representation decides the range. *)
Lemma range_check t (minus : bool) ds :
  TraitsOk t -> type_signed t || negb minus = true -> forallb is_digit ds = true ->
  (length ds <= digits_representation_max_size t)%nat ->
  (Z.of_nat (digits_representation_max_size t) =? Z.of_nat (length ds)) &&
  (0 <? memcmp ds (if minus then min_representation t else max_representation t) (length ds))
  = negb (fits (type_bits t) (type_signed t) (if minus then - dec_value ds else dec_value ds)).
Proof.
  intros Ht Hsm Hds Hl. pose proof (dec_value_bounds _ Hds) as Hv.
  pose proof (bits_supported (t := t)). pose proof (max_size_small (t := t)).
  pose proof (Z.pow_pos_nonneg 2 (type_bits t - 1)).
  set (r := if minus then min_representation t else max_representation t).
  assert (Hfit : fits (type_bits t) (type_signed t) (if minus then - dec_value ds else dec_value ds)
    = (dec_value ds <=? dec_value r)).
  { apply eq_bool_prop_intro. rewrite !Is_true_true, fits_iff, Z.leb_le. unfold r, type_min, type_max.
    pose proof (max_is_max (t := t)) as Hmax. pose proof (min_is_min (t := t)) as Hmin.
    unfold type_min, type_max in *. destruct minus, (type_signed t); try done; lia. }
  assert (Hr : forallb is_digit r = true) by (unfold r; destruct minus; apply Ht).
  assert (Hlr : length r = digits_representation_max_size t).
  { unfold r. destruct minus; [apply min_size|apply max_size]. by destruct (type_signed t). }
  rewrite Hfit. destruct (Z.eqb_spec (Z.of_nat (digits_representation_max_size t)) (Z.of_nat (length ds))).
  - rewrite memcmp_value by (done || lia). cbn [andb]. by rewrite Z.leb_antisym, negb_involutive.
  - cbn [andb]. symmetry. apply negb_false_iff, Z.leb_le.
    assert (10 ^ Z.of_nat (length ds) <= 10 ^ (Z.of_nat (digits_representation_max_size t) - 1))
      by (apply Z.pow_le_mono_r; lia).
    pose proof (shorter_fits (t := t)). pose proof (max_is_max (t := t)). pose proof (min_is_min (t := t)).
    unfold r, type_min, type_max in *. destruct minus, (type_signed t); try done; lia.
Qed.

Lemma parse_digits_spec t (minus : bool) ds beyond :
  TraitsOk t -> type_signed t || negb minus = true -> forallb in_table ds = true ->
  Z.of_nat (length ds) < 2 ^ 64 ->
  let v := if minus then - dec_value ds else dec_value ds in
  parse_digits char_signed t minus (ds ++ beyond) (Z.of_nat (length ds)) =
  if decide (ds = []) then Exception (invalid_value t (bs "empty string"))
  else if decide (digits_representation_max_size t < length ds)%nat then
    Exception (invalid_value t
      (bs "max digits for type is " ++ dec (Z.of_nat (digits_representation_max_size t))))
  else if negb (forallb is_digit ds) then Exception (invalid_value t (bs "invalid digit"))
  else if fits (type_bits t) (type_signed t) v then Value v
  else StdOutOfRange (invalid_value t (bs "out of range")).
Proof.
  intros Ht Hsm Htab Hlen v. unfold parse_digits.
  destruct (decide (ds = [])) as [->|Hne]; [done|].
  destruct (Z.eqb_spec 0 (Z.of_nat (length ds))); [destruct ds; [done|cbn in *; lia]|].
  destruct (decide (digits_representation_max_size t < length ds)%nat) as [Hbig|Hsmall].
  { rewrite (proj2 (Z.ltb_lt _ _)) by lia. done. }
  rewrite (proj2 (Z.ltb_ge _ _)) by lia. rewrite Nat2Z.id, take_app_length.
  rewrite any_invalid_spec by done. destruct (forallb is_digit ds) eqn:Hds; cbn [negb]; [|done].
  cbv zeta. rewrite range_check by (done || lia). fold v.
  destruct (fits (type_bits t) (type_signed t) v) eqn:Hfit; cbn [negb]; [|done].
  unfold parse_integer_no_checks.
  assert (Hm : type_signed t && minus = minus) by (destruct (type_signed t), minus; done).
  rewrite Hm. pose proof (no_checks_loop_spec t minus 0 ds) as Hloop.
  replace (if minus then - 0 else 0) with 0 in Hloop by by destruct minus.
  cbv zeta in Hloop. rewrite !Z.mul_0_l, !Z.add_0_l in Hloop. fold v in Hloop.
  rewrite Hloop; [done|apply Ht|done|lia|done].
Qed.

Lemma split_sign_cons c s :
  split_sign (c :: s) =
  if decide (c = x2d) then (true, s) else if decide (c = x2b) then (false, s) else (false, c :: s).
Proof. by destruct c. Qed.

Lemma wrap_length (n : nat) : Z.of_nat n < 2 ^ 64 -> wrap 64 (Z.of_nat n) = Z.of_nat n.
Proof. intros H. unfold wrap. apply Z.mod_small. lia. Qed.

Lemma parse_integer_reference t s beyond :
  TraitsOk t -> s <> [] -> forallb in_table s = true -> Z.of_nat (length s) < 2 ^ 64 ->
  parse_integer char_signed t (s ++ beyond) (Z.of_nat (length s)) = reference t s.
Proof.
  intros Ht Hne Htab Hlen. destruct s as [|c s]; [done|].
  cbn [forallb] in Htab. pose proof Htab as [_ Htab']%andb_true_iff.
  unfold reference. rewrite split_sign_cons. cbn [app parse_integer].
  replace (Z.of_nat (length (c :: s)) - 1) with (Z.of_nat (length s)) by (cbn [length]; lia).
  cbn [length] in Hlen. rewrite !wrap_length by (cbn [length]; lia).
  destruct (decide (c = x2d)) as [->|]; [|destruct (decide (c = x2b)) as [->|]].
  - destruct (type_signed t) eqn:Hs; cbn [negb andb]; [|done].
    rewrite parse_digits_spec by (rewrite ?Hs; done || lia). by rewrite Hs.
  - cbn [andb]. rewrite parse_digits_spec by (rewrite ?orb_true_r; done || lia). done.
  - cbn [andb]. rewrite app_comm_cons.
    rewrite parse_digits_spec by (rewrite ?orb_true_r; cbn [length]; done || lia). done.
Qed.

(** [from_string] for each of the eight integer types computes the reference on
    every non-empty text of octets its table is right about (no ['@'], and no
    octet from 128 on where [char] is signed), whatever lies behind the text:
    an optional sign and digits give the exact value when it is a value of
    the type and [std::out_of_range] when it is not; a minus for an unsigned
    type, a missing digit, more digits than the type has and a foreign
    character give the exception the code names, and no input among them is
    undefined. *)
Theorem from_string_spec t s beyond :
  t ∈ integer_traits -> s <> [] -> forallb in_table s = true -> Z.of_nat (length s) < 2 ^ 64 ->
  from_string char_signed t s beyond = reference t s.
Proof. intros Ht%integer_traits_ok. by apply parse_integer_reference. Qed.

End ParseLaws.

Lemma from_string_spec_witness :
  from_string true int16_parse_traits_t (bs "-32768") [] = Value (-32768) /\
  from_string true int16_parse_traits_t (bs "+32768") (bs "9")
  = StdOutOfRange (bs "invalid int16_t value: out of range").
Proof.
  split; (etrans; [apply from_string_spec;
    [apply (bool_decide_unpack _); vm_compute; exact I|done|reflexivity|cbn; lia]|reflexivity]).
Defined.

(** ** Printing and reading back *)

Definition print_integer (v : Z) : list byte := if v <? 0 then x2d :: dec (- v) else dec v.

Lemma dec_go_digits fuel z : 0 <= z -> forallb is_digit (dec_go fuel z) = true.
Proof.
  revert z. induction fuel as [|n IH]; intros z Hz; [done|]. cbn [dec_go].
  rewrite forallb_app. cbn [forallb]. pose proof (Z.mod_pos_bound z 10 ltac:(lia)).
  unfold is_digit at 2. rewrite u8_digit by lia.
  replace ((0x30 <=? 0x30 + z mod 10) && (0x30 + z mod 10 <=? 0x39)) with true by lia.
  rewrite andb_true_r. destruct (z <? 10); [done|]. apply IH, Z.div_pos; lia.
Qed.

Lemma dec_go_length fuel z (k : nat) :
  0 <= z < 10 ^ Z.of_nat k -> (1 <= k)%nat -> (length (dec_go fuel z) <= k)%nat.
Proof.
  revert z k. induction fuel as [|n IH]; intros z k Hz Hk; [cbn; lia|].
  cbn [dec_go]. rewrite length_app. cbn [length]. destruct (Z.ltb_spec z 10); [cbn; lia|].
  destruct k as [|[|k]]; [lia|cbn in Hz; lia|].
  rewrite Nat2Z.inj_succ, Z.pow_succ_r in Hz by lia.
  specialize (IH (z / 10) (S k)). rewrite Nat.add_1_r. apply le_n_S, IH; [|lia].
  Z.to_euclidean_division_equations. lia.
Qed.

Lemma dec_nonempty z : dec z <> [].
Proof. unfold dec. cbn [dec_go]. by destruct (_ ++ [_]) eqn:H; [apply app_nil in H as [_ ?]|]. Qed.

Lemma in_range_digits t v :
  TraitsOk t -> fits (type_bits t) (type_signed t) v = true ->
  Z.abs v < 10 ^ Z.of_nat (digits_representation_max_size t) /\ Z.abs v < 2 ^ 64.
Proof.
  intros Ht Hv%fits_iff. pose proof (bits_supported (t := t)) as Hb.
  assert (Hp : 2 ^ (type_bits t - 1) <= 2 ^ 63) by (apply Z.pow_le_mono_r; lia).
  assert (Hq : 2 ^ type_bits t <= 2 ^ 64) by (apply Z.pow_le_mono_r; lia).
  pose proof (dec_value_bounds _ (max_digits (t := t))) as Hmax.
  pose proof (dec_value_bounds _ (min_digits (t := t))) as Hmin.
  pose proof (max_is_max (t := t)). pose proof (min_is_min (t := t)) as Hm.
  pose proof (min_size (t := t)) as Hms. rewrite max_size in Hmax.
  unfold type_min, type_max in *. destruct (type_signed t); [|lia].
  specialize (Hm eq_refl). rewrite (Hms eq_refl) in Hmin. lia.
Qed.

Lemma split_sign_dec z : 0 <= z -> split_sign (dec z) = (false, dec z).
Proof.
  intros Hz. pose proof (dec_go_digits 20 z Hz) as Hd. fold (dec z) in Hd.
  destruct (dec z) as [|c ds] eqn:He; [by apply dec_nonempty in He|].
  cbn [forallb] in Hd. apply andb_true_iff in Hd as [Hc _]. rewrite split_sign_cons.
  repeat destruct decide; subst; done.
Qed.

Lemma reference_print t v :
  TraitsOk t -> fits (type_bits t) (type_signed t) v = true ->
  reference t (print_integer v) = Value v.
Proof.
  intros Ht Hv. pose proof (in_range_digits t v Ht Hv) as [Hd H64].
  assert (Hdec : forall z, Z.abs v = z -> forallb is_digit (dec z) = true /\ dec_value (dec z) = z /\
    (length (dec z) <= digits_representation_max_size t)%nat).
  { intros z Hz. pose proof (max_size_small (t := t)).
    split_and!; [apply dec_go_digits; lia|apply dec_roundtrip; lia|apply dec_go_length; lia]. }
  unfold reference, print_integer. destruct (Z.ltb_spec v 0).
  - destruct (Hdec (- v) ltac:(lia)) as (Hdig & Hval & Hlen).
    rewrite split_sign_cons, decide_True by done.
    destruct (type_signed t) eqn:Hs; [|apply fits_iff in Hv; unfold type_min in Hv; lia].
    cbn [negb andb]. rewrite !decide_False by (apply dec_nonempty || lia).
    rewrite Hdig, Hval, Z.opp_involutive, Hv. done.
  - destruct (Hdec v ltac:(lia)) as (Hdig & Hval & Hlen).
    rewrite split_sign_dec by done. cbn [andb].
    rewrite !decide_False by (apply dec_nonempty || lia).
    rewrite Hdig, Hval, Hv. done.
Qed.

Lemma print_in_table char_signed v : forallb (in_table char_signed) (print_integer v) = true.
Proof.
  unfold print_integer. destruct (Z.ltb_spec v 0); [cbn [forallb]; apply andb_true_iff; split; [by destruct char_signed|]|];
    apply digits_in_table, dec_go_digits; lia.
Qed.

(** Every value of each of the eight integer types survives being printed in
    decimal and read back with [from_string], whatever follows the text in
    memory and whatever the signedness of [char]. *)
Theorem from_string_roundtrip char_signed t v beyond :
  t ∈ integer_traits -> fits (type_bits t) (type_signed t) v = true ->
  from_string char_signed t (print_integer v) beyond = Value v.
Proof.
  intros Ht%integer_traits_ok Hv. pose proof (in_range_digits t v Ht Hv) as [Hd _].
  pose proof (max_size_small (t := t)).
  rewrite <- (reference_print t v Ht Hv). apply parse_integer_reference; [done| |apply print_in_table|].
  - unfold print_integer. destruct (v <? 0); [done|apply dec_nonempty].
  - enough (length (print_integer v) <= 21)%nat by lia. unfold print_integer, dec.
    pose proof (dec_go_length 20 (Z.abs v) (digits_representation_max_size t)).
    destruct (Z.ltb_spec v 0); cbn [length];
      [replace (- v) with (Z.abs v) by lia|replace v with (Z.abs v) at 1 by lia]; lia.
Qed.

Lemma from_string_roundtrip_witness :
  from_string false int64_parse_traits_t (print_integer (- 2 ^ 63)) (bs "@") = Value (- 2 ^ 63).
Proof.
  apply from_string_roundtrip; [apply (bool_decide_unpack _); vm_compute; exact I|reflexivity].
Defined.

(** ** Inputs the checks let through *)

(** ['@'] counts as the digit 240. *)
Lemma at_sign_is_a_digit :
  from_string true uint16_parse_traits_t (bs "1@") [] = Value 250 /\
  from_string true int8_parse_traits_t (bs "@") [] = Value (-16) /\
  from_string true int32_parse_traits_t (bs "214748363@") [] = Undefined.
Proof. repeat split; vm_compute; reflexivity. Qed.

(** The empty view: the first octet is read before the size is looked at. *)
Lemma empty_view_reads_beyond char_signed t :
  from_string char_signed t [] [] = Undefined /\
  (t ∈ integer_traits -> forall beyond,
   from_string char_signed t [] (x2b :: beyond) = Exception (invalid_value t
     (bs "max digits for type is " ++ dec (Z.of_nat (digits_representation_max_size t))))).
Proof.
  split; [done|]. intros Ht%integer_traits_ok beyond.
  unfold from_string, read_value. cbn [app parse_integer length].
  rewrite decide_False, decide_True by done. unfold parse_digits.
  change (wrap 64 (Z.of_nat 0 - 1)) with (2 ^ 64 - 1). pose proof (max_size_small (t := t)).
  rewrite (proj2 (Z.eqb_neq _ _)), (proj2 (Z.ltb_lt _ _)) by lia. done.
Qed.

(** Where [char] is signed, an octet from 128 on indexes outside the table. *)
Lemma high_octet_out_of_table t c beyond :
  t ∈ integer_traits -> 128 <= u8 c -> from_string true t [c] beyond = Undefined.
Proof.
  intros Ht%integer_traits_ok Hc. pose proof (max_size_small (t := t)).
  unfold from_string, read_value. cbn [app parse_integer length].
  rewrite !decide_False by (intros ->; apply Hc; reflexivity).
  unfold parse_digits. change (wrap 64 (Z.of_nat 1)) with 1.
  rewrite (proj2 (Z.eqb_neq _ _)) by lia. rewrite (proj2 (Z.ltb_ge _ _)) by lia.
  change (Z.to_nat 1) with 1%nat. cbn [take any_invalid]. unfold mapped, table_index, wrap.
  rewrite (proj2 (Z.leb_le _ _)) by lia. cbn [andb]. pose proof (u8_range c).
  rewrite (proj2 (Z.ltb_ge _ _)); [done|]. cbn [length digits_mapping].
  Z.to_euclidean_division_equations. lia.
Qed.
End FromString.
