(* ===== verification/Acceptor.v ===== *)
(** * Accepting connections

    Model of src/web/restinio/restinio/connection_count_limiter.hpp and of the
    accept cycle of src/web/restinio/restinio/impl/acceptor.hpp.

    Each body the limiter runs under its lock is one function; what it then
    asks of the acceptor ([acceptor_callback_iface_t]) is returned as a list of
    callbacks, because the call is made after the lock is released.  The
    acceptor is an executable interleaving semantics: a state holds the
    limiter, the pieces of work under way, one per socket slot, and the
    lifetime monitors; an event picks a piece of work and runs it. *)

From S2P Require Import Prelude.

(** ** Connection count limiters *)

Module Limiter.

Inductive callback :=
| call_accept_now (index : nat)
| schedule_next_accept_attempt (index : nat).

Definition callback_index (c : callback) : nat :=
  match c with call_accept_now i | schedule_next_accept_attempt i => i end.

(** What the acceptor uses of a limiter, and what it may rely on: a slot index
    handed to the limiter is handed back by a callback or kept as pending,
    never dropped nor duplicated. *)
Class CountLimiter (L : Type) := {
  accept_next : nat -> L -> L * list callback;
  increment_parallel_connections : L -> L;
  decrement_parallel_connections : L -> L * list callback;
  pending : L -> list nat;
  accept_next_keeps : forall i l,
    (callback_index <$> (accept_next i l).2) ++ pending (accept_next i l).1 ≡ₚ i :: pending l;
  increment_keeps : forall l, pending (increment_parallel_connections l) = pending l;
  decrement_keeps : forall l,
    (callback_index <$> (decrement_parallel_connections l).2)
      ++ pending (decrement_parallel_connections l).1 ≡ₚ pending l
}.

(** *** [actual_limiter_t]

    The counters are [std::size_t]; the capacity is what the constructor
    reserves for the pending indexes. *)
Record actual_limiter_t := ActualLimiter {
  m_active_accepts : Z;
  m_connections : Z;
  m_max_parallel_connections : Z;
  m_pending_indexes : list nat;
  pending_capacity : nat
}.

Definition make_limiter (max_parallel_connections : Z) (max_pending_indexes : nat)
  : actual_limiter_t :=
  ActualLimiter 0 0 max_parallel_connections [] max_pending_indexes.

Definition has_free_slots (l : actual_limiter_t) : bool :=
  wrap 64 (m_active_accepts l + m_connections l) <? m_max_parallel_connections l.

Definition actual_increment (l : actual_limiter_t) : actual_limiter_t :=
  ActualLimiter (wrap 64 (m_active_accepts l - 1)) (wrap 64 (m_connections l + 1))
    (m_max_parallel_connections l) (m_pending_indexes l) (pending_capacity l).

Definition actual_decrement (l : actual_limiter_t) : actual_limiter_t * list callback :=
  let l := ActualLimiter (m_active_accepts l) (wrap 64 (m_connections l - 1))
    (m_max_parallel_connections l) (m_pending_indexes l) (pending_capacity l) in
  match has_free_slots l, list.last (m_pending_indexes l) with
  | true, Some pending_index =>
      (ActualLimiter (m_active_accepts l) (m_connections l) (m_max_parallel_connections l)
         (take (pred (length (m_pending_indexes l))) (m_pending_indexes l)) (pending_capacity l),
       [schedule_next_accept_attempt pending_index])
  | _, _ => (l, [])
  end.

Definition actual_accept_next (index : nat) (l : actual_limiter_t)
  : actual_limiter_t * list callback :=
  if has_free_slots l then
    (ActualLimiter (wrap 64 (m_active_accepts l + 1)) (m_connections l)
       (m_max_parallel_connections l) (m_pending_indexes l) (pending_capacity l),
     [call_accept_now index])
  else
    (ActualLimiter (m_active_accepts l) (m_connections l)
       (m_max_parallel_connections l) (m_pending_indexes l ++ [index]) (pending_capacity l), []).

(** *** [noop_connection_count_limiter_t] *)
Inductive noop_connection_count_limiter_t := NoopLimiter.

Definition noop_accept_next (index : nat) (l : noop_connection_count_limiter_t)
  : noop_connection_count_limiter_t * list callback := (l, [call_accept_now index]).
Definition noop_increment (l : noop_connection_count_limiter_t) := l.
Definition noop_decrement (l : noop_connection_count_limiter_t)
  : noop_connection_count_limiter_t * list callback := (l, []).

Lemma last_take_pred {A} (l : list A) x :
  list.last l = Some x -> l = take (pred (length l)) l ++ [x].
Proof.
  intros [l' ->]%last_Some. rewrite length_app. cbn [length].
  rewrite Nat.add_1_r. cbn [pred]. by rewrite take_app_length.
Qed.

Lemma actual_accept_next_keeps i l :
  (callback_index <$> (actual_accept_next i l).2) ++ m_pending_indexes (actual_accept_next i l).1
  ≡ₚ i :: m_pending_indexes l.
Proof.
  unfold actual_accept_next. destruct (has_free_slots l); cbn; [done|]. by rewrite (comm (++)).
Qed.

Lemma actual_decrement_keeps l :
  (callback_index <$> (actual_decrement l).2) ++ m_pending_indexes (actual_decrement l).1
  ≡ₚ m_pending_indexes l.
Proof.
  unfold actual_decrement. cbv zeta. destruct (has_free_slots _); [|done].
  cbn [m_pending_indexes]. destruct (list.last (m_pending_indexes l)) as [i|] eqn:Hl; [|done].
  cbn. apply last_take_pred in Hl. rewrite Hl at 3. by rewrite (comm (++)).
Qed.

#[global] Instance actual_CountLimiter : CountLimiter actual_limiter_t := {
  accept_next := actual_accept_next;
  increment_parallel_connections := actual_increment;
  decrement_parallel_connections := actual_decrement;
  pending := m_pending_indexes;
  accept_next_keeps := actual_accept_next_keeps;
  increment_keeps := fun _ => eq_refl;
  decrement_keeps := actual_decrement_keeps
}.

#[global] Instance noop_CountLimiter : CountLimiter noop_connection_count_limiter_t := {
  accept_next := noop_accept_next;
  increment_parallel_connections := noop_increment;
  decrement_parallel_connections := noop_decrement;
  pending := fun _ => [];
  accept_next_keeps := fun i _ => Permutation_refl [i];
  increment_keeps := fun _ => eq_refl;
  decrement_keeps := fun _ => Permutation_refl []
}.

End Limiter.

(** ** The acceptor *)

Module Acceptor.
Import Limiter.

(** A piece of work on a socket slot. *)
Inductive task :=
| AcceptNext (index : nat)          (* a call of [accept_next], made or posted *)
| Callback (c : callback)           (* the limiter is about to make this call *)
| AsyncAccept (index : nat).        (* [async_accept] waits for a connection *)

Definition task_index (t : task) : nat :=
  match t with AcceptNext i | AsyncAccept i => i | Callback c => callback_index c end.

Inductive inspection_result_t := deny | allow.

(** What the completion of an [async_accept] finds: an error code, a peer whose
    endpoint cannot be read any more ([remote_endpoint] throws), or a peer with
    the verdict of the IP blocker. *)
Inductive completion :=
| AcceptError
| EndpointGone
| Incoming (inspection : inspection_result_t).

Section System.
Context {L : Type} `{CountLimiter L}.

(** [monitors]: the [connection_lifetime_monitor_t] objects alive, each with
    whether its [m_manager] is not null.  [lost] and [unused] are history: the
    slots whose accept failed, and the accepts that gave no monitor. *)
Record system := System {
  limiter : L;
  tasks : list task;
  monitors : list bool;
  lost : list nat;
  unused : Z
}.

(** The constructor of a monitor informs the limiter. *)
Definition make_monitor (s : system) : system :=
  System (increment_parallel_connections (limiter s)) (tasks s) (monitors s ++ [true])
    (lost s) (unused s).

(** The destructor's call, with the callbacks of the limiter as new work. *)
Definition release (manager : bool) (s : system) : system :=
  if manager then
    let '(l, cbs) := decrement_parallel_connections (limiter s) in
    System l (tasks s ++ (Callback <$> cbs)) (monitors s) (lost s) (unused s)
  else s.

Definition set_monitors (ms : list bool) (s : system) : system :=
  System (limiter s) (tasks s) ms (lost s) (unused s).

Definition destroy_monitor (i : nat) (s : system) : option system :=
  match monitors s !! i with
  | None => None
  | Some m => Some (release m (set_monitors (delete i (monitors s)) s))
  end.

(** The move constructor: the new object takes the manager. *)
Definition move_monitor (i : nat) (s : system) : option system :=
  match monitors s !! i with
  | None => None
  | Some m => Some (set_monitors (<[i := false]> (monitors s) ++ [m]) s)
  end.

(** Move assignment: [tmp] takes the manager of [other], is swapped with
    [*this], and dies with what [*this] had. *)
Definition move_assign_monitor (this other : nat) (s : system) : option system :=
  match monitors s !! other with
  | None => None
  | Some tmp =>
      let ms := <[other := false]> (monitors s) in
      match ms !! this with
      | None => None
      | Some old => Some (release old (set_monitors (<[this := tmp]> ms) s))
      end
  end.

(** [accept_connection_for_socket_with_index]; an exception of it is caught by
    [suppress_exceptions] in the caller. *)
Definition accept_connection_for_socket (c : completion) (s : system) : system :=
  match c with
  | Incoming allow => make_monitor s
  | _ => System (limiter s) (tasks s) (monitors s) (lost s) (unused s + 1)
  end.

(** Replaces the piece of work at [k]. *)
Definition set_work (k : nat) (ts : list task) (s : system) : system :=
  System (limiter s) (take k (tasks s) ++ ts ++ drop (S k) (tasks s)) (monitors s)
    (lost s) (unused s).

(** The completion handler of [async_accept]: [accept_current_connection] only
    when there is no error; its last call is [accept_next]. *)
Definition on_accepted (k index : nat) (c : completion) (s : system) : system :=
  match c with
  | AcceptError =>
      let s := set_work k [] s in
      System (limiter s) (tasks s) (monitors s) (lost s ++ [index]) (unused s + 1)
  | _ => accept_connection_for_socket c (set_work k [AcceptNext index] s)
  end.

Inductive event :=
| Run (k : nat)
| Complete (k : nat) (c : completion)
| Destroy (i : nat)
| Move (i : nat)
| MoveAssign (this other : nat).

Definition step (e : event) (s : system) : option system :=
  match e with
  | Run k =>
      match tasks s !! k with
      | Some (AcceptNext i) =>
          let '(l, cbs) := accept_next i (limiter s) in
          let s := set_work k (Callback <$> cbs) s in
          Some (System l (tasks s) (monitors s) (lost s) (unused s))
      | Some (Callback (call_accept_now i)) => Some (set_work k [AsyncAccept i] s)
      | Some (Callback (schedule_next_accept_attempt i)) => Some (set_work k [AcceptNext i] s)
      | _ => None
      end
  | Complete k c =>
      match tasks s !! k with
      | Some (AsyncAccept i) => Some (on_accepted k i c s)
      | _ => None
      end
  | Destroy i => destroy_monitor i s
  | Move i => move_monitor i s
  | MoveAssign this other => move_assign_monitor this other s
  end.

Fixpoint run (es : list event) (s : system) : option system :=
  match es with
  | [] => Some s
  | e :: es => match step e s with Some s => run es s | None => None end
  end.

(** [open]: the loop over the slots of the socket pool. *)
Definition open (l : L) (concurrent_accepts_count : nat) : system :=
  System l (AcceptNext <$> seq 0 concurrent_accepts_count) [] [] 0.

Inductive reachable (l0 : L) (n : nat) : system -> Prop :=
| reach_open : reachable l0 n (open l0 n)
| reach_step s e s' : reachable l0 n s -> step e s = Some s' -> reachable l0 n s'.

Lemma run_reachable l0 n es s s' :
  reachable l0 n s -> run es s = Some s' -> reachable l0 n s'.
Proof.
  revert s. induction es as [|e es IH]; cbn; intros s Hs Hr; [by simplify_eq|].
  destruct (step e s) as [s1|] eqn:He; [|done]. eapply IH, Hr. by eapply reach_step.
Qed.

(** An invariant that holds after [open] and is kept by every step. *)
Lemma reachable_ind' l0 n (P : system -> Prop) :
  P (open l0 n) -> (forall e s s', P s -> step e s = Some s' -> P s') ->
  forall s, reachable l0 n s -> P s.
Proof. intros H0 Hs s Hr. induction Hr; eauto. Qed.

End System.
Arguments system L : clear implicits.

(** ** Counting work *)

Lemma sum_replace {A} (f : A -> nat) (l : list A) k x ts :
  l !! k = Some x ->
  (sum_list_with f (take k l ++ ts ++ drop (S k) l) + f x = sum_list_with f l + sum_list_with f ts)%nat.
Proof.
  intros Hk. rewrite <- (take_drop_middle l k x Hk) at 3.
  rewrite !sum_list_with_app. cbn. lia.
Qed.

Lemma sum_insert {A} (f : A -> nat) (l : list A) k x y :
  l !! k = Some x ->
  (sum_list_with f (<[k := y]> l) + f x = sum_list_with f l + f y)%nat.
Proof.
  intros Hk. rewrite insert_take_drop by by eapply lookup_lt_Some.
  pose proof (sum_replace f l k x [y] Hk) as Hs. cbn in Hs. cbn. lia.
Qed.

Lemma sum_delete {A} (f : A -> nat) (l : list A) k x :
  l !! k = Some x -> (sum_list_with f (delete k l) + f x = sum_list_with f l)%nat.
Proof.
  intros Hk. rewrite delete_take_drop. pose proof (sum_replace f l k x [] Hk) as Hs. cbn in Hs. lia.
Qed.

(** Work that holds an accept, and work that is on its way to ask for one. *)
Definition accepting (t : task) : nat :=
  match t with Callback (call_accept_now _) | AsyncAccept _ => 1 | _ => 0 end.
Definition asking (t : task) : nat :=
  match t with AcceptNext _ | Callback (schedule_next_accept_attempt _) => 1 | _ => 0 end.
Definition owning (m : bool) : nat := if m then 1 else 0.

Section Counts.
Context {L : Type} `{CountLimiter L}.

Definition accepts_under_way (s : system L) : Z := Z.of_nat (sum_list_with accepting (tasks s)).
Definition attempts_under_way (s : system L) : Z := Z.of_nat (sum_list_with asking (tasks s)).
Definition open_connections (s : system L) : Z := Z.of_nat (sum_list_with owning (monitors s)).

(** Where the slots of the socket pool are. *)
Definition slots (s : system L) : list nat :=
  (task_index <$> tasks s) ++ pending (limiter s) ++ lost s.

Lemma set_work_slots k t ts (s : system L) :
  tasks s !! k = Some t -> task_index <$> ts = [task_index t] ->
  slots (set_work k ts s) ≡ₚ slots s.
Proof.
  intros Hk Hts. unfold slots, set_work. cbn.
  rewrite <- (take_drop_middle (tasks s) k t Hk) at 3.
  rewrite !fmap_app, Hts, fmap_cons. by rewrite <- !app_assoc.
Qed.

Lemma release_slots m (s : system L) : slots (release m s) ≡ₚ slots s.
Proof.
  unfold slots, release. destruct m; [|done].
  pose proof (decrement_keeps (limiter s)) as Hd.
  destruct (decrement_parallel_connections (limiter s)) as [l cbs]. cbn in Hd |- *.
  rewrite fmap_app, <- Hd, <- list_fmap_compose, <- !app_assoc. done.
Qed.

Lemma run_slots k i (s : system L) :
  tasks s !! k = Some (AcceptNext i) ->
  let '(l, cbs) := accept_next i (limiter s) in
  slots (System l (tasks (set_work k (Callback <$> cbs) s)) (monitors s) (lost s) (unused s))
  ≡ₚ slots s.
Proof.
  intros Hk. pose proof (accept_next_keeps i (limiter s)) as Ha.
  destruct (accept_next i (limiter s)) as [l cbs]. cbn in Ha. unfold slots. cbn.
  rewrite <- (take_drop_middle (tasks s) k (AcceptNext i) Hk) at 3.
  rewrite !fmap_app, fmap_cons, <- list_fmap_compose. cbn [task_index].
  rewrite <- !app_assoc. apply Permutation_app_head. cbn.
  rewrite (Permutation_app_swap_app _ (pending l)), (assoc (++)), Ha. cbn. constructor.
  by rewrite Permutation_app_swap_app.
Qed.

Lemma error_slots k i (s : system L) :
  tasks s !! k = Some (AsyncAccept i) -> slots (on_accepted k i AcceptError s) ≡ₚ slots s.
Proof.
  intros Hk. unfold slots, on_accepted. cbn.
  rewrite <- (take_drop_middle (tasks s) k (AsyncAccept i) Hk) at 3.
  rewrite !fmap_app, fmap_cons. cbn [task_index]. rewrite <- !app_assoc.
  apply Permutation_app_head. cbn. rewrite !(assoc (++)). by rewrite (comm (++)).
Qed.

Lemma step_slots e (s s' : system L) : step e s = Some s' -> slots s' ≡ₚ slots s.
Proof.
  intros He. destruct e as [k|k c|i|i|this other]; cbn in He.
  - destruct (tasks s !! k) as [[i|[i|i]|i]|] eqn:Hk; try done.
    + pose proof (run_slots k i s Hk) as Hr. destruct (accept_next i (limiter s)). by simplify_eq.
    + simplify_eq. by eapply set_work_slots.
    + simplify_eq. by eapply set_work_slots.
  - destruct (tasks s !! k) as [[i|[i|i]|i]|] eqn:Hk; try done. simplify_eq.
    pose proof (set_work_slots k (AsyncAccept i) [AcceptNext i] s Hk eq_refl) as Hw.
    destruct c as [| |[]]; [by apply error_slots| | |]; rewrite <- Hw; unfold slots; cbn;
      by rewrite ?increment_keeps.
  - unfold destroy_monitor in He. destruct (monitors s !! i) as [m|]; [|done]. simplify_eq.
    by rewrite release_slots.
  - unfold move_monitor in He. by destruct (monitors s !! i); simplify_eq.
  - unfold move_assign_monitor in He. destruct (monitors s !! other); [|done]. cbv zeta in He.
    destruct (_ !! this); [|done]. simplify_eq. by rewrite release_slots.
Qed.

Lemma reachable_slots (l0 : L) n s : pending l0 = [] -> reachable l0 n s -> slots s ≡ₚ seq 0 n.
Proof.
  intros Hl Hr. revert s Hr. apply reachable_ind'.
  - unfold slots, open. cbn. rewrite Hl, !app_nil_r, <- list_fmap_compose. by rewrite list_fmap_id.
  - intros e s s' Hs He. by rewrite (step_slots _ _ _ He).
Qed.

(** With any limiter that keeps the interface, no slot of the socket pool is
    ever dropped or served twice: whatever the interleaving of completions,
    posted attempts and dying connections, every index below the number of
    concurrent accepts is in exactly one place - a piece of work, the
    limiter's pending indexes, or the slots whose accept failed. *)
Theorem slots_conserved (l0 : L) n s :
  pending l0 = [] -> reachable l0 n s -> slots s ≡ₚ seq 0 n /\ NoDup (slots s).
Proof.
  intros Hl Hr. pose proof (reachable_slots l0 n s Hl Hr) as Hp.
  split; [done|]. rewrite Hp. apply NoDup_seq.
Qed.

End Counts.

(** ** The limit *)

Section Limit.
Context (max : Z) (n : nat) (max_range : 0 <= max < 2 ^ 64).

(** The invariant, with the number [c] of monitors that hold a manager apart,
    so that it can be stated inside a destructor too. *)
Record limit_inv (c : Z) (s : system actual_limiter_t) : Prop := {
  inv_max : m_max_parallel_connections (limiter s) = max;
  inv_cap : pending_capacity (limiter s) = n;
  inv_active : m_active_accepts (limiter s) = accepts_under_way s + unused s;
  inv_conns : m_connections (limiter s) = c;
  inv_unused : 0 <= unused s;
  inv_limit : accepts_under_way s + unused s + c <= max;
  inv_wake : m_pending_indexes (limiter s) = [] \/
    max <= accepts_under_way s + unused s + c + attempts_under_way s
}.

Lemma has_free_slots_inv c s :
  limit_inv c s -> 0 <= c ->
  has_free_slots (limiter s) = (accepts_under_way s + unused s + c <? max).
Proof.
  intros [] Hc. unfold has_free_slots. rewrite inv_max0, inv_active0, inv_conns0.
  unfold wrap, accepts_under_way in *. rewrite Z.mod_small; [done|lia].
Qed.

Lemma set_work_inv c k t ts s :
  limit_inv c s -> tasks s !! k = Some t ->
  sum_list_with accepting ts = accepting t -> sum_list_with asking ts = asking t ->
  limit_inv c (set_work k ts s).
Proof.
  intros [] Hk Ha Hw. pose proof (sum_replace accepting _ _ _ ts Hk) as H1.
  pose proof (sum_replace asking _ _ _ ts Hk) as H2.
  constructor; unfold accepts_under_way, attempts_under_way in *; cbn; try done; try lia.
  destruct inv_wake0; [by left|right; lia].
Qed.

(** [accept_next] under the lock. *)
Lemma accept_next_inv c k i s l cbs :
  limit_inv c s -> 0 <= c -> tasks s !! k = Some (AcceptNext i) ->
  actual_accept_next i (limiter s) = (l, cbs) ->
  limit_inv c (System l (tasks (set_work k (Callback <$> cbs) s)) (monitors s) (lost s) (unused s)).
Proof.
  intros Hinv Hc Hk. unfold actual_accept_next. rewrite (has_free_slots_inv c) by done.
  pose proof (sum_replace accepting _ _ _ (Callback <$> cbs) Hk) as H1.
  pose proof (sum_replace asking _ _ _ (Callback <$> cbs) Hk) as H2.
  destruct Hinv. destruct (Z.ltb_spec (accepts_under_way s + unused s + c) max); intros [= <- <-];
    constructor; unfold accepts_under_way, attempts_under_way in *; cbn in *; try done; try lia.
  - rewrite inv_active0. unfold wrap. rewrite Z.mod_small; lia.
  - destruct inv_wake0; [by left|right; lia].
Qed.

(** An accept that ends without a monitor keeps its place in the count. *)
Lemma unused_inv c k i ts ls s :
  limit_inv c s -> tasks s !! k = Some (AsyncAccept i) ->
  sum_list_with accepting ts = 0%nat ->
  limit_inv c (System (limiter s) (tasks (set_work k ts s)) (monitors s) ls (unused s + 1)).
Proof.
  intros [] Hk Ha. pose proof (sum_replace accepting _ _ _ ts Hk) as H1.
  pose proof (sum_replace asking _ _ _ ts Hk) as H2.
  constructor; unfold accepts_under_way, attempts_under_way in *; cbn in *; try done; try lia.
  destruct inv_wake0; [by left|right; lia].
Qed.

Lemma make_monitor_inv c k i s :
  limit_inv c s -> 0 <= c -> tasks s !! k = Some (AsyncAccept i) ->
  limit_inv (c + 1) (make_monitor (set_work k [AcceptNext i] s)).
Proof.
  intros [] Hc Hk. pose proof (sum_replace accepting _ _ _ [AcceptNext i] Hk) as H1.
  pose proof (sum_replace asking _ _ _ [AcceptNext i] Hk) as H2.
  constructor; unfold accepts_under_way, attempts_under_way in *; cbn in *; try done; try lia.
  - rewrite inv_active0. unfold wrap. rewrite Z.mod_small; lia.
  - rewrite inv_conns0. unfold wrap. rewrite Z.mod_small; lia.
  - destruct inv_wake0; [by left|right; lia].
Qed.

Lemma release_inv c (m : bool) s :
  limit_inv c s -> Z.of_nat (owning m) <= c -> limit_inv (c - Z.of_nat (owning m)) (release m s).
Proof.
  intros Hinv Hc. destruct m; cbn [owning release] in *; [|by rewrite Z.sub_0_r].
  pose proof Hinv as [Hmax Hcap Hact Hconn Hun Hlim Hwake].
  unfold accepts_under_way, attempts_under_way in *. cbn -[actual_decrement].
  unfold actual_decrement. cbv zeta. unfold has_free_slots. cbn [m_active_accepts m_connections
    m_max_parallel_connections m_pending_indexes pending_capacity].
  assert (Hw : wrap 64 (m_connections (limiter s) - 1) = c - 1)
    by (unfold wrap; rewrite Hconn, Z.mod_small; lia).
  assert (Hf : (wrap 64 (m_active_accepts (limiter s) + wrap 64 (m_connections (limiter s) - 1))
    <? m_max_parallel_connections (limiter s)) = true).
  { rewrite Hw, Hact, Hmax. unfold wrap. rewrite Z.mod_small by lia. apply Z.ltb_lt. lia. }
  rewrite Hf. destruct (list.last (m_pending_indexes (limiter s))) as [i|] eqn:Hl.
  - constructor; unfold accepts_under_way, attempts_under_way; cbn;
      rewrite ?sum_list_with_app; cbn; try done; try lia.
    right. destruct Hwake as [He|]; [by rewrite He in Hl|lia].
  - constructor; unfold accepts_under_way, attempts_under_way; cbn;
      rewrite ?app_nil_r; try done; try lia. left. by apply last_None.
Qed.

Lemma set_monitors_inv c ms s : limit_inv c s -> limit_inv c (set_monitors ms s).
Proof. by intros []. Qed.

Definition limit_ok (s : system actual_limiter_t) : Prop := limit_inv (open_connections s) s.

Lemma open_connections_nonneg (s : system actual_limiter_t) : 0 <= open_connections s.
Proof. unfold open_connections. lia. Qed.

Lemma complete_ok k i c s :
  limit_ok s -> tasks s !! k = Some (AsyncAccept i) -> limit_ok (on_accepted k i c s).
Proof.
  intros Hs Hk. unfold limit_ok. destruct c as [| |[]].
  - apply (unused_inv _ k i [] _ s Hs Hk eq_refl).
  - apply (unused_inv _ k i [AcceptNext i] _ s Hs Hk eq_refl).
  - apply (unused_inv _ k i [AcceptNext i] _ s Hs Hk eq_refl).
  - replace (open_connections _) with (open_connections s + 1).
    + by apply make_monitor_inv; [|apply open_connections_nonneg|].
    + unfold open_connections. cbn. rewrite sum_list_with_app. cbn. lia.
Qed.

(** A destructor that runs when the monitor it belongs to is gone from the
    list of monitors alive. *)
Lemma release_ok m ms s :
  limit_ok s ->
  (sum_list_with owning ms + owning m = sum_list_with owning (monitors s))%nat ->
  limit_ok (release m (set_monitors ms s)).
Proof.
  intros Hs Hsum. unfold limit_ok.
  replace (open_connections _) with (open_connections s - Z.of_nat (owning m)).
  - apply release_inv; [by apply set_monitors_inv|]. unfold open_connections. lia.
  - unfold open_connections, release. destruct m; [|cbn in *; lia].
    destruct (decrement_parallel_connections _). cbn in *. lia.
Qed.

Lemma step_limit_ok e s s' : limit_ok s -> step e s = Some s' -> limit_ok s'.
Proof.
  intros Hs He. destruct e as [k|k c|i|i|this other]; cbn in He.
  - destruct (tasks s !! k) as [[i|[i|i]|i]|] eqn:Hk; try done.
    + destruct (actual_accept_next i (limiter s)) as [l cbs] eqn:Ha. simplify_eq.
      by eapply accept_next_inv; [|apply open_connections_nonneg| |].
    + simplify_eq. by eapply (set_work_inv _ k).
    + simplify_eq. by eapply (set_work_inv _ k).
  - destruct (tasks s !! k) as [[i|[i|i]|i]|] eqn:Hk; try done. simplify_eq. by apply complete_ok.
  - unfold destroy_monitor in He. destruct (monitors s !! i) as [m|] eqn:Hi; [|done]. simplify_eq.
    apply release_ok; [done|]. by apply sum_delete.
  - unfold move_monitor in He. destruct (monitors s !! i) as [m|] eqn:Hi; [|done]. simplify_eq.
    apply (release_ok false); [done|]. rewrite sum_list_with_app.
    pose proof (sum_insert owning _ _ _ false Hi). cbn in *. lia.
  - unfold move_assign_monitor in He. destruct (monitors s !! other) as [tmp|] eqn:Ho; [|done].
    cbv zeta in He. destruct (_ !! this) as [old|] eqn:Ht; [|done]. simplify_eq.
    apply release_ok; [done|]. pose proof (sum_insert owning _ _ _ false Ho).
    pose proof (sum_insert owning _ _ _ tmp Ht). cbn in *. lia.
Qed.

Lemma reachable_ok s : reachable (make_limiter max n) n s -> limit_ok s.
Proof.
  revert s. apply reachable_ind'; [|intros e s s'; apply step_limit_ok].
  unfold limit_ok, open.
  assert (Ha : forall j, sum_list_with accepting (AcceptNext <$> seq j n) = 0%nat).
  { generalize n. intros m. induction m as [|m IH]; intros j; [done|]. cbn. apply IH. }
  constructor; unfold accepts_under_way, open_connections; cbn; rewrite ?Ha; try lia; auto.
Qed.

End Limit.

(** C35. The limit of parallel connections is kept at every point of every
    interleaving: the connections open, with the accepts under way, never
    exceed [max_parallel_connections]; [m_connections] is the number of
    monitors that hold the limiter, however often they were moved or
    assigned, so neither counter ever wraps below zero; and the pending
    indexes fit the storage the constructor reserved, so [accept_next] can
    indeed be [noexcept]. *)
Theorem limit_respected max n s :
  0 <= max < 2 ^ 64 -> reachable (make_limiter max n) n s ->
  open_connections s + accepts_under_way s <= max /\
  m_connections (limiter s) = open_connections s /\
  accepts_under_way s <= m_active_accepts (limiter s) /\
  (length (m_pending_indexes (limiter s)) <= pending_capacity (limiter s))%nat.
Proof.
  intros Hmax Hr. pose proof (reachable_ok max n Hmax s Hr) as [].
  split_and!; [lia|done|lia|]. rewrite inv_cap0.
  pose proof (reachable_slots (make_limiter max n) n s eq_refl Hr) as Hp%Permutation_length. unfold slots in Hp.
  rewrite !length_app, length_seq in Hp. cbn in Hp. lia.
Qed.

(** C36. No wake-up is lost: when a slot waits in the limiter and no attempt to
    accept is under way, then the limit is used up - by open connections,
    accepts under way and accepts that ended without a connection.  A closing
    connection therefore always finds its successor. *)
Theorem no_lost_wakeup max n s :
  0 <= max < 2 ^ 64 -> reachable (make_limiter max n) n s ->
  m_pending_indexes (limiter s) <> [] -> attempts_under_way s = 0 ->
  open_connections s + accepts_under_way s + unused s = max.
Proof. intros Hmax Hr Hp Ha. pose proof (reachable_ok max n Hmax s Hr) as []. destruct inv_wake0; [done|lia]. Qed.

(** ** Accepts that end without a connection *)

Section Exhaust.
Context (max : Z) (n : nat) (max_range : 0 <= max < 2 ^ 64).

(** A connection on slot 0 the IP blocker denies. *)
Definition denied_connection : list event := [Run 0; Run 0; Complete 0 (Incoming deny)].

Definition denied_state (k : Z) (ts : list task) (ixs : list nat) : system actual_limiter_t :=
  System (ActualLimiter k 0 max ixs n) ts [] [] k.

Lemma run_app es1 es2 (s s1 : system actual_limiter_t) :
  run es1 s = Some s1 -> run (es1 ++ es2) s = run es2 s1.
Proof.
  revert s. induction es1 as [|e es IH]; intros s; cbn; [by intros [= ->]|].
  destruct (step e s); [apply IH|done].
Qed.

Lemma denied_once k rest :
  0 <= k < max ->
  run denied_connection (denied_state k (AcceptNext 0 :: rest) [])
  = Some (denied_state (k + 1) (AcceptNext 0 :: rest) []).
Proof.
  intros Hk. unfold denied_connection, denied_state. cbn. unfold actual_accept_next, has_free_slots.
  cbn. unfold wrap. rewrite Z.add_0_r, Z.mod_small by lia.
  rewrite (proj2 (Z.ltb_lt _ _)) by lia. cbn. by rewrite Z.mod_small by lia.
Qed.

Lemma denied_many (j : nat) k rest :
  0 <= k -> k + Z.of_nat j <= max ->
  run (mjoin (replicate j denied_connection)) (denied_state k (AcceptNext 0 :: rest) [])
  = Some (denied_state (k + Z.of_nat j) (AcceptNext 0 :: rest) []).
Proof.
  revert k. induction j as [|j IH]; intros k Hk Hj; [cbn; by rewrite Z.add_0_r|].
  change (mjoin (replicate (S j) denied_connection))
    with (denied_connection ++ mjoin (replicate j denied_connection)).
  rewrite (run_app _ _ _ (denied_state (k + 1) (AcceptNext 0 :: rest) [])) by (apply denied_once; lia).
  rewrite IH by lia. do 2 f_equal. lia.
Qed.

(** Once the limit is used up, every attempt ends in the pending indexes. *)
Lemma full_parks ixs ps :
  run (replicate (length ixs) (Run 0)) (denied_state max (AcceptNext <$> ixs) ps)
  = Some (denied_state max [] (ps ++ ixs)).
Proof.
  revert ps. induction ixs as [|i ixs IH]; intros ps; cbn; [by rewrite app_nil_r|].
  unfold actual_accept_next, has_free_slots. cbn. unfold wrap.
  rewrite Z.add_0_r, Z.mod_small, Z.ltb_irrefl by lia.
  cbn. unfold denied_state in IH. rewrite drop_0, IH. by rewrite <- app_assoc.
Qed.

Lemma stuck k ps e : step e (denied_state k [] ps) = None.
Proof. by destruct e. Qed.

Lemma exhausted_reachable :
  (1 <= n)%nat -> reachable (make_limiter max n) n (denied_state max [] (seq 0 n)).
Proof.
  intros Hn.
  assert (Hseq : AcceptNext <$> seq 0 n = AcceptNext 0 :: (AcceptNext <$> seq 1 (pred n)))
    by (destruct n; [lia|done]).
  apply (run_reachable _ _ (mjoin (replicate (Z.to_nat max) denied_connection)
    ++ replicate (length (seq 0 n)) (Run 0)) (open (make_limiter max n) n)); [apply reach_open|].
  erewrite run_app; [apply (full_parks _ [])|].
  unfold open. change (System (make_limiter max n) (AcceptNext <$> seq 0 n) [] [] 0)
    with (denied_state 0 (AcceptNext <$> seq 0 n) []).
  rewrite Hseq, denied_many by lia. do 2 f_equal. lia.
Qed.

End Exhaust.

(** An accept that ends without a connection - denied by the IP blocker, or
    its peer gone before its endpoint was read - is never taken off
    [m_active_accepts]: in every reachable state such accepts reduce what is
    left of the limit, and after [max_parallel_connections] denied
    connections, with not one connection open, every slot is parked in the
    limiter and nothing is left that could ever wake it. *)
Theorem denied_connections_exhaust_limit max n :
  0 <= max < 2 ^ 64 -> (1 <= n)%nat ->
  (forall s, reachable (make_limiter max n) n s ->
    open_connections s + accepts_under_way s <= max - unused s) /\
  exists s, reachable (make_limiter max n) n s /\ open_connections s = 0 /\
    m_pending_indexes (limiter s) = seq 0 n /\ unused s = max /\ forall e, step e s = None.
Proof.
  intros Hmax Hn. split.
  - intros s Hr. pose proof (reachable_ok max n Hmax s Hr) as []. lia.
  - exists (denied_state max n max [] (seq 0 n)).
    split_and!; [by apply exhausted_reachable|done|done|done|by intros e; apply stuck].
Qed.

(** ** Witnesses *)

Definition two_of_two : list event :=
  [Run 0; Run 0; Complete 0 (Incoming allow); Run 0; Run 0; Complete 0 (Incoming allow);
   Run 0; Run 0; Move 0; Destroy 2].

Lemma slots_conserved_witness : exists s,
  run two_of_two (open (make_limiter 2 2) 2) = Some s /\ slots s ≡ₚ seq 0 2 /\ NoDup (slots s).
Proof.
  eexists. split; [vm_compute; reflexivity|]. apply (slots_conserved (make_limiter 2 2) 2); [done|].
  apply (run_reachable _ _ two_of_two (open (make_limiter 2 2) 2)); [apply reach_open|].
  vm_compute. reflexivity.
Defined.

Lemma limit_respected_witness : exists s,
  run (take 7 two_of_two) (open (make_limiter 2 2) 2) = Some s /\
  open_connections s = 2 /\ open_connections s + accepts_under_way s <= 2.
Proof.
  eexists. split; [vm_compute; reflexivity|]. split; [reflexivity|].
  apply (limit_respected 2 2); [lia|].
  apply (run_reachable _ _ (take 7 two_of_two) (open (make_limiter 2 2) 2)); [apply reach_open|].
  vm_compute. reflexivity.
Defined.

Lemma no_lost_wakeup_witness : exists s,
  run (take 8 two_of_two) (open (make_limiter 2 2) 2) = Some s /\
  open_connections s + accepts_under_way s + unused s = 2.
Proof.
  eexists. split; [vm_compute; reflexivity|].
  apply (no_lost_wakeup 2 2); [lia| |vm_compute; discriminate|reflexivity].
  apply (run_reachable _ _ (take 8 two_of_two) (open (make_limiter 2 2) 2)); [apply reach_open|].
  vm_compute. reflexivity.
Defined.

Lemma denied_connections_exhaust_limit_witness :
  exists s, reachable (make_limiter 100 4) 4 s /\ open_connections s = 0 /\
    m_pending_indexes (limiter s) = seq 0 4 /\ unused s = 100 /\ forall e, step e s = None.
Proof. apply (denied_connections_exhaust_limit 100 4); lia. Defined.

(** A failed [async_accept] retires its slot: the error branch of
    [accept_current_connection] is never reached. *)
Lemma accept_error_retires_slot :
  run [Run 0; Run 0; Complete 0 AcceptError] (open NoopLimiter 1)
  = Some (System NoopLimiter [] [] [0%nat] 1).
Proof. reflexivity. Qed.

End Acceptor.
