(* ===== verification/EasyParser.v ===== *)
(** * Parser combinators

    Model of src/web/restinio/restinio/helpers/easy_parser.hpp with
    utils/tuple_algorithms.hpp.

    An input stream is the octets and a position in them.  A producer reads
    the stream and gives a value; a clause reads it and changes a target.  What
    the code reports as [expected_t] or [optional_t<parse_error_t>] is
    [expected]; a third outcome, [Abnormal], stands for an exception, for
    undefined behaviour and for a loop that does not end.  The stream is passed
    on after a failure too, because not every combinator returns what it read;
    a [content_consumer_t] that is not committed is a [backto] the position it
    was made at. *)

From S2P Require Import Prelude HttpFields.

Module Parser.
Import Caseless.

(** ** Errors and results *)

Inductive error_reason_t :=
| unexpected_character
| unexpected_eof
| no_appropriate_alternative
| pattern_not_found
| unconsumed_input
| illegal_value_found
| force_only_this_alternative_failed.

#[global] Instance error_reason_eq_dec : EqDecision error_reason_t.
Proof. solve_decision. Defined.

Record parse_error_t := ParseError { position : nat; reason : error_reason_t }.

Inductive abnormal :=
| Thrown (what : string)
| Undefined
| Endless.

Inductive expected (A : Type) : Type :=
| Value (a : A)
| Unexpected (e : parse_error_t)
| Abnormal (a : abnormal).
Arguments Value {A} a.
Arguments Unexpected {A} e.
Arguments Abnormal {A} a.

(** ** The input stream *)

Record source_t := Source { m_data : list byte; m_index : nat }.

Definition make_source (data : list byte) : source_t := Source data 0.

(** [None] is the end of the input. *)
Definition getch (s : source_t) : option byte * source_t :=
  match m_data s !! m_index s with
  | Some c => (Some c, Source (m_data s) (S (m_index s)))
  | None => (None, s)
  end.

Definition putback (s : source_t) : source_t := Source (m_data s) (pred (m_index s)).

Definition backto (pos : nat) (s : source_t) : source_t :=
  if (pos <=? length (m_data s))%nat then Source (m_data s) pos else s.

Definition eof (s : source_t) : bool := (length (m_data s) <=? m_index s)%nat.

(** [string_view_t::substr] throws behind the end, inside a [noexcept]. *)
Definition fragment (from : nat) (s : source_t) : option (list byte) :=
  if (from <=? length (m_data s))%nat then Some (drop from (m_data s)) else None.

(** The number of octets still to be read. *)
Definition remaining (s : source_t) : nat := length (m_data s) - m_index s.

(** ** Producers, transformers, consumers, clauses *)

Definition producer (A : Type) : Type := source_t -> expected A * source_t.
Definition clause (T : Type) : Type := source_t -> T -> expected unit * source_t * T.
Definition consumer (T A : Type) : Type := T -> A -> outcome T.

(** What a transformer gives: a value, or the reason of an error. *)
Inductive transformed (B : Type) : Type :=
| Transformed (b : B)
| Rejected (r : error_reason_t)
| TransformThrows (what : string).
Arguments Transformed {B} b.
Arguments Rejected {B} r.
Arguments TransformThrows {B} what%_string_scope.

Definition fail {A} (pos : nat) (r : error_reason_t) : expected A := Unexpected (ParseError pos r).

(** [transformed_value_producer_t] with [transformer_invoker]. *)
Definition transform {A B} (p : producer A) (f : A -> transformed B) : producer B := fun s =>
  match p s with
  | (Value a, s') =>
      match f a with
      | Transformed b => (Value b, s')
      | Rejected r => (fail (m_index s') r, s')
      | TransformThrows w => (Abnormal (Thrown w), s')
      end
  | (Unexpected e, s') => (Unexpected e, s')
  | (Abnormal a, s') => (Abnormal a, s')
  end.

(** [consume_value_clause_t]. *)
Definition consume_value {T A} (p : producer A) (c : consumer T A) : clause T := fun s t =>
  match p s with
  | (Value a, s') =>
      match c t a with
      | Ok t' => (Value tt, s', t')
      | Throw w => (Abnormal (Thrown w), s', t)
      end
  | (Unexpected e, s') => (Unexpected e, s', t)
  | (Abnormal a, s') => (Abnormal a, s', t)
  end.

(** [tuple_algorithms::all_of] over clauses applied to one target: stops at the
    first clause that fails. *)
Fixpoint all_of {T} (cs : list (clause T)) (s : source_t) (t : T) : expected unit * source_t * T :=
  match cs with
  | [] => (Value tt, s, t)
  | c :: cs =>
      match c s t with
      | (Value _, s', t') => all_of cs s' t'
      | (r, s', t') => (r, s', t')
      end
  end.

(** [tuple_algorithms::any_of] as [alternatives_clause_t] uses it: every
    alternative works on a copy of the target and gives back what it read
    unless it succeeds; an alternative that was forced ends the search. *)
Fixpoint any_of {T} (cs : list (clause T)) (s : source_t) (t : T) : expected bool * source_t * T :=
  match cs with
  | [] => (Value false, s, t)
  | c :: cs =>
      match c s t with
      | (Value _, s', t') => (Value true, s', t')
      | (Unexpected e, s', _) =>
          if decide (reason e = force_only_this_alternative_failed)
          then (Value false, backto (m_index s) s', t)
          else any_of cs (backto (m_index s) s') t
      | (Abnormal a, s', _) => (Abnormal a, backto (m_index s) s', t)
      end
  end.

Definition alternatives {T} (cs : list (clause T)) : clause T := fun s t =>
  match any_of cs s t with
  | (Value true, s', t') => (Value tt, s', t')
  | (Value false, s', t') => (fail (m_index s) no_appropriate_alternative, s', t')
  | (Unexpected e, s', t') => (Unexpected e, s', t')
  | (Abnormal a, s', t') => (Abnormal a, s', t')
  end.

Definition maybe {T} (cs : list (clause T)) : clause T := fun s t =>
  match all_of cs s t with
  | (Value _, s', t') => (Value tt, s', t')
  | (Unexpected _, s', _) => (Value tt, backto (m_index s) s', t)
  | (Abnormal a, s', _) => (Abnormal a, backto (m_index s) s', t)
  end.

(** [not_clause_t] and [and_clause_t] look ahead with a fresh target. *)
Definition not_clause {T} `{Inhabited T} (cs : list (clause T)) : clause T := fun s t =>
  match all_of cs s inhabitant with
  | (Value _, s', _) => (fail (m_index s) pattern_not_found, backto (m_index s) s', t)
  | (Unexpected _, s', _) => (Value tt, backto (m_index s) s', t)
  | (Abnormal a, s', _) => (Abnormal a, backto (m_index s) s', t)
  end.

Definition and_clause {T} `{Inhabited T} (cs : list (clause T)) : clause T := fun s t =>
  match all_of cs s inhabitant with
  | (Value _, s', _) => (Value tt, backto (m_index s) s', t)
  | (Unexpected _, s', _) => (fail (m_index s) pattern_not_found, backto (m_index s) s', t)
  | (Abnormal a, s', _) => (Abnormal a, backto (m_index s) s', t)
  end.

Definition sequence {T} (cs : list (clause T)) : clause T := fun s t =>
  match all_of cs s t with
  | (Value _, s', t') => (Value tt, s', t')
  | (r, s', _) => (r, backto (m_index s) s', t)
  end.

Definition force_only_this_alternative {T} (cs : list (clause T)) : clause T := fun s t =>
  match sequence cs s t with
  | (Value _, s', t') => (Value tt, s', t')
  | (Unexpected _, s', t') => (fail (m_index s) force_only_this_alternative_failed, s', t')
  | (Abnormal a, s', t') => (Abnormal a, s', t')
  end.

(** [produce_t]: the clauses fill a value of the wrapped type, starting from
    its initial value.  What was read before a failure is not given back. *)
Definition produce_with {W R} (unwrap_value : W -> R) (init : W) (cs : list (clause W))
  : producer R := fun s =>
  match all_of cs s init with
  | (Value _, s', w) => (Value (unwrap_value w), s')
  | (Unexpected e, s', _) => (Unexpected e, s')
  | (Abnormal a, s', _) => (Abnormal a, s')
  end.

Definition produce {R} (init : R) (cs : list (clause R)) : producer R := produce_with id init cs.

(** *** [repeat_clause_t]

    The number of repetitions: a bound, or the constant [N], the largest
    [std::size_t], which no input reaches. *)
Inductive occurences := Upto (n : nat) | N.

(** One round per unit of [n].  For a bound, no unit left is the bound reached;
    for [N] it means that more rounds succeeded than there were octets to read,
    so that a round succeeded without reading and the loop goes on for good.
    The rounds change the target itself: what a round did before it failed
    stays. *)
Fixpoint repeat_loop {T} (cs : list (clause T)) (endless : bool) (n count : nat)
    (s : source_t) (t : T) : expected nat * source_t * T :=
  match n with
  | O => (if endless then Abnormal Endless else Value count, s, t)
  | S n =>
      match all_of cs s t with
      | (Value _, s', t') => repeat_loop cs endless n (S count) s' t'
      | (Unexpected _, s', t') => (Value count, backto (m_index s) s', t')
      | (Abnormal a, s', t') => (Abnormal a, backto (m_index s) s', t')
      end
  end.

Definition repeat_ {T} (min_occurences : nat) (max_occurences : occurences) (cs : list (clause T))
  : clause T := fun s t =>
  let r := match max_occurences with
           | Upto n => repeat_loop cs false n 0 s t
           | N => repeat_loop cs true (S (remaining s)) 0 s t
           end in
  match r with
  | (Value count, s', t') =>
      if (min_occurences <=? count)%nat then (Value tt, s', t')
      else (fail (m_index s') pattern_not_found, backto (m_index s) s', t')
  | (Unexpected e, s', t') => (Unexpected e, backto (m_index s) s', t')
  | (Abnormal a, s', t') => (Abnormal a, backto (m_index s) s', t')
  end.

(** ** Symbols *)

(** [symbol_producer_template_t]. *)
Definition symbol_if (p : byte -> bool) : producer byte := fun s =>
  match getch s with
  | (Some c, s') =>
      if p c then (Value c, s')
      else let s' := putback s' in (fail (m_index s') unexpected_character, s')
  | (None, s') => (fail (m_index s') unexpected_eof, s')
  end.

Definition SP : byte := x20.
Definition HTAB : byte := x09.

Definition is_space (ch : byte) : bool := Byte.eqb ch SP || Byte.eqb ch HTAB.

(** Comparisons of [char] with ASCII bounds; octets from 128 on are outside
    whether [char] is signed or not. *)
Definition in_range (left right : Z) (ch : byte) : bool := (left <=? u8 ch) && (u8 ch <=? right).

Definition is_digit (ch : byte) : bool := in_range 0x30 0x39 ch.
Definition is_hexdigit (ch : byte) : bool :=
  in_range 0x30 0x39 ch || in_range 0x41 0x46 ch || in_range 0x61 0x66 ch.

Definition any_symbol_p : producer byte := symbol_if (fun _ => true).
Definition symbol_p (expected_ : byte) : producer byte := symbol_if (Byte.eqb expected_).
Definition any_symbol_if_not_p (sentinel : byte) : producer byte :=
  symbol_if (fun c => negb (Byte.eqb sentinel c)).
Definition caseless_symbol_p (expected_ : byte) : producer byte :=
  symbol_if (fun c => Byte.eqb (to_lower_case expected_) (to_lower_case c)).
Definition symbol_from_range_p (left right : byte) : producer byte :=
  symbol_if (in_range (u8 left) (u8 right)).
Definition space_p : producer byte := symbol_if is_space.
Definition digit_p : producer byte := symbol_if is_digit.
Definition hexdigit_p : producer byte := symbol_if is_hexdigit.

(** ** Consumers and transformers *)

Definition skip {T A} : consumer T A := fun t _ => Ok t.
Definition as_result {T} : consumer T T := fun _ a => Ok a.
Definition just_result {T A} (r : T) : consumer T A := fun _ _ => Ok r.
Definition custom_consumer {T A} (f : T -> A -> T) : consumer T A := fun t a => Ok (f t a).

(** [to_container] for vectors and for strings, of one character or another
    string. *)
Definition to_container {A} : consumer (list A) A := fun t a => Ok (t ++ [a]).
Definition to_container_string : consumer (list byte) (list byte) := fun t a => Ok (t ++ a).

(** [std_array_wrapper]: an array and the index of the next item. *)
Record std_array_wrapper (A : Type) := ArrayWrapper { m_array : list A; array_index : nat }.
Arguments ArrayWrapper {A} m_array array_index.
Arguments m_array {A} s.
Arguments array_index {A} s.

Definition to_array {A} : consumer (std_array_wrapper A) A := fun t a =>
  if (length (m_array t) <=? array_index t)%nat
  then Throw "index in the result std::array is out of range"
  else Ok (ArrayWrapper (<[array_index t := a]> (m_array t)) (S (array_index t))).

Definition produce_array {A} (zeros : list A) (cs : list (clause (std_array_wrapper A)))
  : producer (list A) := produce_with m_array (ArrayWrapper zeros 0) cs.

Definition to_lower : list byte -> transformed (list byte) := fun s => Transformed (to_lower_case <$> s).
Definition to_lower_char : byte -> transformed byte := fun c => Transformed (to_lower_case c).
Definition just {A B} (v : B) : A -> transformed B := fun _ => Transformed v.
Definition convert {A B} (f : A -> B) : A -> transformed B := fun a => Transformed (f a).

Definition symbol {T} (expected_ : byte) : clause T := consume_value (symbol_p expected_) skip.
Definition caseless_symbol {T} (expected_ : byte) : clause T :=
  consume_value (caseless_symbol_p expected_) skip.
Definition symbol_from_range {T} (left right : byte) : clause T :=
  consume_value (symbol_from_range_p left right) skip.
Definition space {T} : clause T := consume_value space_p skip.
Definition digit {T} : clause T := consume_value digit_p skip.
Definition hexdigit {T} : clause T := consume_value hexdigit_p skip.

(** ** Exact fragments *)

(** The loop of [try_parse_exact_fragment]; [same] compares a character of the
    input with one of the fragment. *)
Fixpoint fragment_loop (same : byte -> byte -> bool) (fragment_ : list byte) (s : source_t)
  : option error_reason_t * source_t :=
  match fragment_ with
  | [] => (None, s)
  | b :: rest =>
      match getch s with
      | (None, s') => (Some unexpected_eof, s')
      | (Some c, s') =>
          if same c b then fragment_loop same rest s' else (Some pattern_not_found, s')
      end
  end.

Definition try_parse_fragment (same : byte -> byte -> bool) (fragment_ : list byte) : producer bool :=
  fun s =>
  match fragment_loop same fragment_ s with
  | (None, s') => (Value true, s')
  | (Some r, s') => (fail (m_index s) r, backto (m_index s) s')
  end.

Definition exact_p (fragment_ : list byte) : producer bool := try_parse_fragment Byte.eqb fragment_.
Definition caseless_exact_p (fragment_ : list byte) : producer bool :=
  try_parse_fragment (fun c b => Byte.eqb (to_lower_case c) b) (to_lower_case <$> fragment_).
Definition exact {T} (fragment_ : list byte) : clause T := consume_value (exact_p fragment_) skip.
Definition caseless_exact {T} (fragment_ : list byte) : clause T :=
  consume_value (caseless_exact_p fragment_) skip.

(** The constructors of the producers of a run-time fragment. *)
Definition make_exact (fragment_ : list byte) : outcome (producer bool) :=
  match fragment_ with
  | [] => Throw "'fragment' value for exact_fragment_producer_t can't be empty!"
  | _ => Ok (exact_p fragment_)
  end.

(** ** The top level *)

Fixpoint remove_trailing_spaces_rev (r : list byte) : list byte :=
  match r with
  | c :: r' => if is_space c then remove_trailing_spaces_rev r' else r
  | [] => []
  end.

Definition remove_trailing_spaces (from : list byte) : list byte :=
  rev (remove_trailing_spaces_rev (rev from)).

(** The loop of [ensure_no_remaining_content], on the octets still to come and
    the position of the first. *)
Fixpoint no_remaining_content (l : list byte) (pos : nat) : option parse_error_t :=
  match l with
  | [] => None
  | c :: l => if is_space c then no_remaining_content l (S pos)
              else Some (ParseError pos unconsumed_input)
  end.

Definition ensure_no_remaining_content (s : source_t) : option parse_error_t :=
  no_remaining_content (drop (m_index s) (m_data s)) (m_index s).

Definition try_parse {A} (from : list byte) (p : producer A) : expected A :=
  match p (make_source (remove_trailing_spaces from)) with
  | (Value a, s) =>
      match ensure_no_remaining_content s with
      | Some e => Unexpected e
      | None => Value a
      end
  | (r, _) => r
  end.

End Parser.

(** ** What every combinator keeps

    [Safe] producers and clauses stay inside the input, never go back behind
    the position they started at, end, and do not throw; [Productive] ones read
    at least one octet when they succeed.  The instances follow the structure
    of a grammar, so that type class resolution proves a grammar safe. *)

Module ParserLaws.
Import Parser.

Definition wf (s : source_t) : Prop := (m_index s <= length (m_data s))%nat.

Definition normal {A} (size : nat) (r : expected A) : Prop :=
  match r with
  | Value _ => True
  | Unexpected e => (position e <= size)%nat
  | Abnormal _ => False
  end.

Record good {A} (s : source_t) (r : expected A) (s' : source_t) : Prop := {
  good_data : m_data s' = m_data s;
  good_forward : (m_index s <= m_index s')%nat;
  good_inside : (m_index s' <= length (m_data s))%nat;
  good_normal : normal (length (m_data s)) r
}.

Class SafeProducer {A} (p : producer A) : Prop :=
  safe_producer : forall s, wf s -> good s (p s).1 (p s).2.
Class SafeClause {T} (c : clause T) : Prop :=
  safe_clause : forall s t, wf s -> good s (c s t).1.1 (c s t).1.2.
Class SafeClauses {T} (cs : list (clause T)) : Prop :=
  safe_clauses : forall s t, wf s -> good s (all_of cs s t).1.1 (all_of cs s t).1.2.
Class SafeEach {T} (cs : list (clause T)) : Prop := safe_each : Forall SafeClause cs.
Class SafeConsumer {T A} (c : consumer T A) : Prop :=
  safe_consumer : forall t a, exists t', c t a = Ok t'.
Class SafeTransformer {A B} (f : A -> transformed B) : Prop :=
  safe_transformer : forall a w, f a <> TransformThrows w.

Class ProductiveProducer {A} (p : producer A) : Prop :=
  productive_producer : forall s a s', wf s -> p s = (Value a, s') -> (m_index s < m_index s')%nat.
Class ProductiveClause {T} (c : clause T) : Prop :=
  productive_clause : forall s t s' t', wf s -> c s t = (Value tt, s', t') ->
    (m_index s < m_index s')%nat.
Class ProductiveClauses {T} (cs : list (clause T)) : Prop :=
  productive_clauses : forall s t s' t', wf s -> all_of cs s t = (Value tt, s', t') ->
    (m_index s < m_index s')%nat.
Class ProductiveEach {T} (cs : list (clause T)) : Prop :=
  productive_each : Forall ProductiveClause cs.

Lemma good_wf {A} s (r : expected A) s' : good s r s' -> wf s'.
Proof. intros []. unfold wf. congruence. Qed.

Lemma good_trans {A B} s (r : expected A) s' (r' : expected B) s'' :
  good s r s' -> good s' r' s'' -> good s r' s''.
Proof.
  intros [] []. constructor; [congruence|lia| |by rewrite <- good_data0].
  rewrite good_data0 in *. lia.
Qed.

Lemma good_result {A B} s (r : expected A) (r' : expected B) s' :
  good s r s' -> normal (length (m_data s)) r' -> good s r' s'.
Proof. by intros [] ?. Qed.

Lemma good_refl {A} s (r : expected A) : wf s -> normal (length (m_data s)) r -> good s r s.
Proof. by constructor. Qed.

Lemma good_unexpected {A B} s e s' :
  good s (Unexpected (A := A) e) s' -> good s (Unexpected (A := B) e) s'.
Proof. by intros []. Qed.

Lemma good_abnormal {A} s a s' : ~ good s (Abnormal (A := A) a) s'.
Proof. by intros []. Qed.

#[local] Hint Resolve good_unexpected : core.
#[local] Hint Extern 1 => (exfalso; eapply good_abnormal; eassumption) : core.

(** A consumer that is not committed restores the stream. *)
Lemma backto_start s s' : wf s -> m_data s' = m_data s -> backto (m_index s) s' = s.
Proof.
  destruct s as [d i], s' as [d' i']. unfold wf, backto. cbn. intros Hw ->.
  by rewrite (proj2 (Nat.leb_le _ _) Hw).
Qed.

Lemma good_backto {A} s (r : expected A) s' : wf s -> good s r s' -> backto (m_index s) s' = s.
Proof. intros Hw []. by apply backto_start. Qed.

Lemma good_fail {A} s r : wf s -> good s (fail (A := A) (m_index s) r) s.
Proof. intros Hw. apply good_refl; [done|]. exact Hw. Qed.

(** *** The stream *)

Lemma getch_some s c s' :
  getch s = (Some c, s') ->
  s' = Source (m_data s) (S (m_index s)) /\ m_data s !! m_index s = Some c /\
  (S (m_index s) <= length (m_data s))%nat /\ putback s' = s.
Proof.
  unfold getch. destruct (m_data s !! m_index s) as [c'|] eqn:Hc; [|done]. intros [= -> <-].
  split_and!; [done|done|by apply lookup_lt_Some in Hc|]. by destruct s.
Qed.

Lemma getch_none s s' : getch s = (None, s') -> s' = s /\ m_data s !! m_index s = None.
Proof. unfold getch. destruct (m_data s !! m_index s) eqn:Hc; [done|]. by intros [= <-]. Qed.

(** *** Lists of clauses *)

#[global] Instance safe_nil {T} : SafeClauses (T := T) [].
Proof. intros s t Hw. by apply good_refl. Qed.

#[global] Instance safe_cons {T} (c : clause T) cs : SafeClause c -> SafeClauses cs -> SafeClauses (c :: cs).
Proof.
  intros Hc Hcs s t Hw. specialize (Hc s t Hw). cbn [all_of].
  destruct (c s t) as [[[u|e|a] s1] t1]; cbn in Hc |- *; try done.
  eapply good_trans, Hcs; [exact Hc|by eapply good_wf].
Qed.

#[global] Instance safe_each_nil {T} : SafeEach (T := T) [].
Proof. constructor. Qed.
#[global] Instance safe_each_cons {T} (c : clause T) cs : SafeClause c -> SafeEach cs -> SafeEach (c :: cs).
Proof. by constructor. Qed.
#[global] Instance productive_each_nil {T} : ProductiveEach (T := T) [].
Proof. constructor. Qed.
#[global] Instance productive_each_cons {T} (c : clause T) cs :
  ProductiveClause c -> ProductiveEach cs -> ProductiveEach (c :: cs).
Proof. by constructor. Qed.

Lemma all_of_cons_inv {T} (c : clause T) cs s t s' t' :
  all_of (c :: cs) s t = (Value tt, s', t') ->
  exists s1 t1, c s t = (Value tt, s1, t1) /\ all_of cs s1 t1 = (Value tt, s', t').
Proof. cbn [all_of]. destruct (c s t) as [[[[]|e|a] s1] t1]; [|done|done]. eauto. Qed.

(** A list of clauses is productive when one of them is. *)
Lemma productive_head {T} (c : clause T) cs :
  ProductiveClause c -> SafeClause c -> SafeClauses cs -> ProductiveClauses (c :: cs).
Proof.
  intros Hp Hc Hcs s t s' t' Hw (s1 & t1 & H1 & H2)%all_of_cons_inv.
  pose proof (Hc s t Hw) as Hg. rewrite H1 in Hg. cbn in Hg.
  pose proof (Hcs s1 t1 (good_wf _ _ _ Hg)) as Hg'. rewrite H2 in Hg'. cbn in Hg'.
  pose proof (Hp s t s1 t1 Hw H1). destruct Hg'. lia.
Qed.

Lemma productive_tail {T} (c : clause T) cs :
  SafeClause c -> ProductiveClauses cs -> ProductiveClauses (c :: cs).
Proof.
  intros Hc Hcs s t s' t' Hw (s1 & t1 & H1 & H2)%all_of_cons_inv.
  pose proof (Hc s t Hw) as Hg. rewrite H1 in Hg. cbn in Hg.
  pose proof (Hcs s1 t1 s' t' (good_wf _ _ _ Hg) H2). destruct Hg. lia.
Qed.

#[global] Hint Extern 1 (ProductiveClauses (_ :: _)) =>
  first [ apply productive_head; apply _ | apply productive_tail; apply _ ] : typeclass_instances.

(** *** Combinators *)

#[global] Instance safe_transform {A B} (p : producer A) (f : A -> transformed B) :
  SafeProducer p -> SafeTransformer f -> SafeProducer (transform p f).
Proof.
  intros Hp Hf s Hw. specialize (Hp s Hw). unfold transform.
  destruct (p s) as [[a|e|a] s']; cbn in Hp |- *; [|eauto..].
  pose proof (Hf a) as Hfa. destruct (f a); cbn; [by eapply good_result| |by destruct (Hfa what)].
  eapply good_result; [done|]. cbn. by destruct Hp.
Qed.

#[global] Instance productive_transform {A B} (p : producer A) (f : A -> transformed B) :
  ProductiveProducer p -> ProductiveProducer (transform p f).
Proof.
  intros Hp s b s' Hw. unfold transform. destruct (p s) as [[a|e|a] s1] eqn:Hs; [|done|done].
  destruct (f a); [|done|done]. intros [= _ <-]. by eapply Hp.
Qed.

#[global] Instance safe_consume {T A} (p : producer A) (c : consumer T A) :
  SafeProducer p -> SafeConsumer c -> SafeClause (consume_value p c).
Proof.
  intros Hp Hc s t Hw. specialize (Hp s Hw). unfold consume_value.
  destruct (p s) as [[a|e|a] s']; cbn in Hp |- *; [|eauto..].
  destruct (Hc t a) as [t' ->]. cbn. by eapply good_result.
Qed.

#[global] Instance productive_consume {T A} (p : producer A) (c : consumer T A) :
  ProductiveProducer p -> ProductiveClause (consume_value p c).
Proof.
  intros Hp s t s' t' Hw. unfold consume_value. destruct (p s) as [[a|e|a] s1] eqn:Hs; [|done|done].
  destruct (c t a); [|done]. intros [= <- _]. by eapply Hp.
Qed.

Lemma any_of_safe {T} (cs : list (clause T)) s t :
  SafeEach cs -> wf s ->
  good s (any_of cs s t).1.1 (any_of cs s t).1.2 /\ (exists b, (any_of cs s t).1.1 = Value b) /\
  ((any_of cs s t).1.1 = Value false -> (any_of cs s t).1.2 = s).
Proof.
  intros Hcs Hw. induction Hcs as [|c cs Hc Hcs IH]; cbn [any_of].
  { cbn. split_and!; [by apply good_refl|eauto|done]. }
  pose proof (Hc s t Hw) as Hg. destruct (c s t) as [[[u|e|a] s1] t1]; cbn in Hg |- *.
  - split_and!; [by eapply good_result|eauto|done].
  - rewrite (good_backto s (Unexpected (A := unit) e) s1) by done.
    destruct (decide _); cbn; [|done]. split_and!; [by apply good_refl|eauto|done].
  - by destruct Hg.
Qed.

#[global] Instance safe_alternatives {T} (cs : list (clause T)) : SafeEach cs -> SafeClause (alternatives cs).
Proof.
  intros Hcs s t Hw. destruct (any_of_safe cs s t Hcs Hw) as (Hg & [b Hb] & Hs). unfold alternatives.
  destruct (any_of cs s t) as [[r s1] t1]. cbn in *. subst r. destruct b; cbn; [by eapply good_result|].
  rewrite Hs by done. by apply good_fail.
Qed.

#[global] Instance productive_alternatives {T} (cs : list (clause T)) :
  SafeEach cs -> ProductiveEach cs -> ProductiveClause (alternatives cs).
Proof.
  intros Hcs Hps s t s' t' Hw. unfold alternatives.
  destruct (any_of cs s t) as [[[[]|e|a] s1] t1] eqn:Ha; [|done..]. intros [= <- _].
  unfold SafeEach in Hcs. induction Hps as [|c cs Hc Hps IH]; [done|]. apply Forall_cons_1 in Hcs as [Hsc Hcs].
  cbn [any_of] in Ha. pose proof (Hsc s t Hw) as Hg.
  destruct (c s t) as [[[[]|e|a] s2] t2] eqn:Hr; cbn in Hg; [| |by eauto].
  - simplify_eq. by eapply Hc.
  - rewrite (good_backto s (Unexpected (A := unit) e) s2) in Ha by done.
    destruct (decide _); [done|]. by apply IH.
Qed.

#[global] Instance safe_maybe {T} (cs : list (clause T)) : SafeClauses cs -> SafeClause (maybe cs).
Proof.
  intros Hcs s t Hw. specialize (Hcs s t Hw). unfold maybe.
  destruct (all_of cs s t) as [[[u|e|a] s1] t1]; cbn in Hcs |- *.
  - by eapply good_result.
  - rewrite (good_backto s (Unexpected (A := unit) e) s1) by done. by apply good_refl.
  - by destruct Hcs.
Qed.

#[global] Instance safe_not {T} `{Inhabited T} (cs : list (clause T)) : SafeClauses cs -> SafeClause (not_clause cs).
Proof.
  intros Hcs s t Hw. specialize (Hcs s inhabitant Hw). unfold not_clause.
  destruct (all_of cs s inhabitant) as [[r s1] t1]; cbn in Hcs |- *.
  pose proof (good_backto s r s1 Hw Hcs) as Hb.
  destruct r as [u|e|a]; cbn; rewrite ?Hb; [by apply good_fail|by apply good_refl|by destruct Hcs].
Qed.

#[global] Instance safe_and {T} `{Inhabited T} (cs : list (clause T)) : SafeClauses cs -> SafeClause (and_clause cs).
Proof.
  intros Hcs s t Hw. specialize (Hcs s inhabitant Hw). unfold and_clause.
  destruct (all_of cs s inhabitant) as [[r s1] t1]; cbn in Hcs |- *.
  pose proof (good_backto s r s1 Hw Hcs) as Hb.
  destruct r as [u|e|a]; cbn; rewrite ?Hb; [by apply good_refl|by apply good_fail|by destruct Hcs].
Qed.

#[global] Instance safe_sequence {T} (cs : list (clause T)) : SafeClauses cs -> SafeClause (sequence cs).
Proof.
  intros Hcs s t Hw. specialize (Hcs s t Hw). unfold sequence.
  destruct (all_of cs s t) as [[[u|e|a] s1] t1]; cbn in Hcs |- *; [by eapply good_result| |by destruct Hcs].
  rewrite (good_backto s (Unexpected (A := unit) e) s1) by done. apply good_refl; [done|]. by destruct Hcs.
Qed.

#[global] Instance productive_sequence {T} (cs : list (clause T)) :
  ProductiveClauses cs -> ProductiveClause (sequence cs).
Proof.
  intros Hp s t s' t' Hw. unfold sequence. destruct (all_of cs s t) as [[[[]|e|a] s1] t1] eqn:Ha; [|done..].
  intros [= <- _]. by eapply Hp.
Qed.

#[global] Instance safe_force {T} (cs : list (clause T)) :
  SafeClauses cs -> SafeClause (force_only_this_alternative cs).
Proof.
  intros Hcs s t Hw. pose proof (safe_sequence cs Hcs s t Hw) as Hg. unfold force_only_this_alternative.
  destruct (sequence cs s t) as [[[u|e|a] s1] t1]; cbn in Hg |- *; [by eapply good_result| |by eauto].
  eapply good_result; [done|]. exact Hw.
Qed.

#[global] Instance productive_force {T} (cs : list (clause T)) :
  ProductiveClauses cs -> ProductiveClause (force_only_this_alternative cs).
Proof.
  intros Hp s t s' t' Hw. unfold force_only_this_alternative.
  destruct (sequence cs s t) as [[[[]|e|a] s1] t1] eqn:Ha; [|done..].
  intros [= <- _]. by eapply (productive_sequence cs Hp).
Qed.

#[global] Instance safe_produce_with {W R} (unwrap : W -> R) init (cs : list (clause W)) :
  SafeClauses cs -> SafeProducer (produce_with unwrap init cs).
Proof.
  intros Hcs s Hw. specialize (Hcs s init Hw). unfold produce_with.
  destruct (all_of cs s init) as [[[u|e|a] s1] t1]; cbn in Hcs |- *; [by eapply good_result|eauto..].
Qed.

#[global] Instance productive_produce_with {W R} (unwrap : W -> R) init (cs : list (clause W)) :
  ProductiveClauses cs -> ProductiveProducer (produce_with unwrap init cs).
Proof.
  intros Hp s a s' Hw. unfold produce_with. destruct (all_of cs s init) as [[[[]|e|b] s1] t1] eqn:Ha; [|done..].
  intros [= _ <-]. by eapply Hp.
Qed.

#[global] Instance safe_produce {R} init (cs : list (clause R)) : SafeClauses cs -> SafeProducer (produce init cs).
Proof. apply safe_produce_with. Qed.
#[global] Instance productive_produce {R} init (cs : list (clause R)) :
  ProductiveClauses cs -> ProductiveProducer (produce init cs).
Proof. apply productive_produce_with. Qed.

(** *** Repetition *)

Lemma remaining_less s s' :
  m_data s' = m_data s -> (m_index s < m_index s')%nat -> (m_index s' <= length (m_data s))%nat ->
  (remaining s' < remaining s)%nat.
Proof. unfold remaining. intros ->. lia. Qed.

(** The loop ends with a count; for an unlimited repetition it is enough that
    a round that succeeds reads something, since there is a round for every
    octet left and one more. *)
Lemma repeat_loop_safe {T} (cs : list (clause T)) endless n count s t :
  SafeClauses cs -> wf s ->
  (endless = true -> ProductiveClauses cs /\ (remaining s < n)%nat) ->
  exists k, (repeat_loop cs endless n count s t).1.1 = Value k /\ (count <= k)%nat /\
    good s (Value k) (repeat_loop cs endless n count s t).1.2 /\
    (ProductiveClauses cs -> (count < k)%nat ->
     (m_index s < m_index (repeat_loop cs endless n count s t).1.2)%nat).
Proof.
  intros Hcs. revert count s t. induction n as [|n IH]; intros count s t Hw Hend; cbn [repeat_loop].
  { destruct endless; [destruct (Hend eq_refl); lia|]. cbn. exists count.
    split_and!; [done|lia|by apply good_refl|lia]. }
  pose proof (Hcs s t Hw) as Hg. destruct (all_of cs s t) as [[[[]|e|a] s1] t1] eqn:Ha; cbn in Hg |- *.
  - pose proof (good_wf _ _ _ Hg) as Hw1.
    destruct (IH (S count) s1 t1 Hw1) as (k & Hk & Hle & Hg' & Hp).
    { intros He. destruct (Hend He) as [Hp Hn]. split; [done|].
      pose proof (Hp s t s1 t1 Hw Ha) as Hlt. destruct Hg.
      pose proof (remaining_less s s1 good_data0 Hlt good_inside0). lia. }
    exists k. split_and!; [done|lia|by eapply good_trans|]. intros Hpr _.
    pose proof (Hpr s t s1 t1 Hw Ha). destruct Hg'. lia.
  - rewrite (good_backto s (Unexpected (A := unit) e) s1) by done. exists count.
    split_and!; [done|lia|by apply good_refl|lia].
  - eauto.
Qed.

#[global] Instance safe_repeat_upto {T} min n (cs : list (clause T)) :
  SafeClauses cs -> SafeClause (repeat_ min (Upto n) cs).
Proof.
  intros Hcs s t Hw. unfold repeat_.
  destruct (repeat_loop_safe cs false n 0 s t Hcs Hw) as (k & Hk & _ & Hg & _); [done|].
  destruct (repeat_loop cs false n 0 s t) as [[r s1] t1]. cbn in Hk, Hg. subst r.
  destruct (min <=? k)%nat; cbn; [by eapply good_result|].
  rewrite (good_backto s (Value k) s1) by done. apply good_refl; [done|]. cbn. by destruct Hg.
Qed.

#[global] Instance safe_repeat_N {T} min (cs : list (clause T)) :
  SafeClauses cs -> ProductiveClauses cs -> SafeClause (repeat_ min N cs).
Proof.
  intros Hcs Hp s t Hw. unfold repeat_.
  destruct (repeat_loop_safe cs true (S (remaining s)) 0 s t Hcs Hw) as (k & Hk & _ & Hg & _); [auto with lia|].
  destruct (repeat_loop cs true (S (remaining s)) 0 s t) as [[r s1] t1]. cbn in Hk, Hg. subst r.
  destruct (min <=? k)%nat; cbn; [by eapply good_result|].
  rewrite (good_backto s (Value k) s1) by done. apply good_refl; [done|]. cbn. by destruct Hg.
Qed.

#[global] Instance productive_repeat {T} min max (cs : list (clause T)) :
  SafeClauses cs -> ProductiveClauses cs -> ProductiveClause (repeat_ (S min) max cs).
Proof.
  intros Hcs Hp s t s' t' Hw. unfold repeat_.
  assert (Hl : exists endless n, (endless = true -> ProductiveClauses cs /\ (remaining s < n)%nat) /\
    (match max with Upto n => repeat_loop cs false n 0 s t
     | N => repeat_loop cs true (S (remaining s)) 0 s t end) = repeat_loop cs endless n 0 s t).
  { destruct max as [n|]; [by exists false, n|]. exists true, (S (remaining s)). auto with lia. }
  destruct Hl as (endless & n & Hend & ->).
  destruct (repeat_loop_safe cs endless n 0 s t Hcs Hw Hend) as (k & Hk & _ & Hg & Hpr).
  destruct (repeat_loop cs endless n 0 s t) as [[r s1] t1]. cbn in Hk, Hg, Hpr. subst r.
  destruct (Nat.leb_spec (S min) k); [|done]. intros [= <- _]. apply Hpr; [done|lia].
Qed.

(** *** Leaves *)

#[global] Instance safe_symbol_if f : SafeProducer (symbol_if f).
Proof.
  intros s Hw. unfold symbol_if. destruct (getch s) as [[c|] s'] eqn:Hc.
  - apply getch_some in Hc as (-> & _ & Hlt & Hpb). rewrite Hpb.
    destruct (f c); cbn; [|by apply good_fail]. by constructor; cbn; [| lia| |].
  - apply getch_none in Hc as [-> _]. by apply good_fail.
Qed.

#[global] Instance productive_symbol_if f : ProductiveProducer (symbol_if f).
Proof.
  intros s a s' Hw. unfold symbol_if. destruct (getch s) as [[c|] s1] eqn:Hc; [|done].
  apply getch_some in Hc as (-> & _ & _ & _). destruct (f c); [|done]. intros [= _ <-]. cbn. lia.
Qed.

Lemma fragment_loop_safe same frag s :
  wf s -> let '(r, s') := fragment_loop same frag s in
  m_data s' = m_data s /\ (m_index s' <= length (m_data s))%nat /\
  (m_index s <= m_index s')%nat /\ (r = None -> m_index s' = m_index s + length frag)%nat.
Proof.
  revert s. induction frag as [|b frag IH]; intros s Hw; cbn [fragment_loop];
    [cbn; unfold wf in Hw; split_and!; by (lia || done)|].
  destruct (getch s) as [[c|] s1] eqn:Hc.
  - apply getch_some in Hc as (-> & _ & Hlt & _). destruct (same c b); cbn; [|split_and!; by (lia || done)].
    specialize (IH (Source (m_data s) (S (m_index s))) Hlt). destruct (fragment_loop _ _ _) as [r s'].
    cbn in IH. destruct IH as (-> & ? & ? & Hr). split_and!; [done|lia|lia|]. intros ->. rewrite Hr by done. cbn. lia.
  - apply getch_none in Hc as [-> _]. unfold wf in Hw. by split_and!; [done|lia|lia|].
Qed.

#[global] Instance safe_fragment same frag : SafeProducer (try_parse_fragment same frag).
Proof.
  intros s Hw. unfold try_parse_fragment. pose proof (fragment_loop_safe same frag s Hw) as Hl.
  destruct (fragment_loop same frag s) as [[r|] s']; destruct Hl as (Hd & Hi & Hf & _); cbn.
  - rewrite backto_start by done. by apply good_fail.
  - by constructor.
Qed.

#[global] Instance productive_fragment same b frag : ProductiveProducer (try_parse_fragment same (b :: frag)).
Proof.
  intros s a s' Hw. unfold try_parse_fragment. pose proof (fragment_loop_safe same (b :: frag) s Hw) as Hl.
  destruct (fragment_loop same (b :: frag) s) as [[r|] s1]; [done|]. destruct Hl as (_ & _ & _ & Hn).
  intros [= _ <-]. rewrite Hn by done. cbn. lia.
Qed.

#[global] Instance safe_skip {T A} : SafeConsumer (skip (T := T) (A := A)).
Proof. intros t a. by eexists. Qed.
#[global] Instance safe_as_result {T} : SafeConsumer (as_result (T := T)).
Proof. intros t a. by eexists. Qed.
#[global] Instance safe_just_result {T A} (r : T) : SafeConsumer (just_result (A := A) r).
Proof. intros t a. by eexists. Qed.
#[global] Instance safe_custom {T A} (f : T -> A -> T) : SafeConsumer (custom_consumer f).
Proof. intros t a. by eexists. Qed.
#[global] Instance safe_to_container {A} : SafeConsumer (to_container (A := A)).
Proof. intros t a. by eexists. Qed.
#[global] Instance safe_to_container_string : SafeConsumer to_container_string.
Proof. intros t a. by eexists. Qed.
#[global] Instance safe_to_lower : SafeTransformer to_lower.
Proof. done. Qed.
#[global] Instance safe_just {A B} (v : B) : SafeTransformer (just (A := A) v).
Proof. done. Qed.
#[global] Instance safe_convert {A B} (f : A -> B) : SafeTransformer (convert f).
Proof. done. Qed.

(** The named symbols and fragments are the templates. *)
#[global] Hint Extern 1 (SafeProducer _) => progress unfold any_symbol_p, symbol_p,
  any_symbol_if_not_p, caseless_symbol_p, symbol_from_range_p, space_p, digit_p, hexdigit_p,
  exact_p, caseless_exact_p : typeclass_instances.
#[global] Hint Extern 1 (ProductiveProducer _) => progress unfold any_symbol_p, symbol_p,
  any_symbol_if_not_p, caseless_symbol_p, symbol_from_range_p, space_p, digit_p, hexdigit_p,
  exact_p, caseless_exact_p : typeclass_instances.
#[global] Hint Extern 1 (SafeClause _) => progress unfold symbol, caseless_symbol,
  symbol_from_range, space, digit, hexdigit, exact, caseless_exact : typeclass_instances.
#[global] Hint Extern 1 (ProductiveClause _) => progress unfold symbol, caseless_symbol,
  symbol_from_range, space, digit, hexdigit, exact, caseless_exact : typeclass_instances.

(** *** The top level *)

Lemma no_remaining_position l pos e :
  no_remaining_content l pos = Some e -> (position e < pos + length l)%nat.
Proof.
  revert pos. induction l as [|c l IH]; intros pos; cbn [no_remaining_content]; [done|].
  destruct (is_space c); [|intros [= <-]; cbn; lia]. intros Hl%IH. cbn. lia.
Qed.

Lemma remove_trailing_spaces_length l : (length (remove_trailing_spaces l) <= length l)%nat.
Proof.
  unfold remove_trailing_spaces. rewrite length_rev, <- (length_rev l). generalize (rev l). clear.
  intros l. induction l as [|c l IH]; cbn; [done|]. destruct (is_space c); cbn; lia.
Qed.

(** A safe producer at the top level answers: with a value, or with an error
    whose position is inside the text. *)
Lemma try_parse_safe {A} (p : producer A) from :
  SafeProducer p -> normal (length from) (try_parse from p).
Proof.
  intros Hp. unfold try_parse. set (s := make_source (remove_trailing_spaces from)).
  assert (Hw : wf s) by (unfold wf; cbn; lia). pose proof (Hp s Hw) as Hg.
  pose proof (remove_trailing_spaces_length from) as Hl.
  destruct (p s) as [[a|e|a] s']; cbn in Hg |- *.
  - destruct (ensure_no_remaining_content s') as [e|] eqn:He; [|done]. cbn.
    apply no_remaining_position in He. destruct Hg. rewrite length_drop, good_data0 in He.
    cbn in He, good_inside0. lia.
  - destruct Hg. cbn in *. lia.
  - by apply good_abnormal in Hg.
Qed.

End ParserLaws.
