(* ===== verification/ParserReads.v ===== *)
(** * Reading a known text

    A small program logic for the combinators of [EasyParser]: [reads p u v F]
    says that wherever the text [u] stands in the input, followed by a rest that
    satisfies [F], the producer reads exactly [u] and gives [v]; [refuses] that
    it reports an error on every such rest.  The rules follow the combinators,
    so that the theorems on grammars are proved by composing them. *)

From S2P Require Import Prelude HttpFields EasyParser.

Module Reads.
Import Parser ParserLaws.

(** The stream standing between [pre] and [rest]. *)
Definition at_ (pre rest : list byte) : source_t := Source (pre ++ rest) (length pre).

Lemma wf_at pre rest : wf (at_ pre rest).
Proof. unfold wf, at_. cbn. rewrite length_app. lia. Qed.

#[export] Hint Resolve wf_at : core.

Lemma make_source_at l : make_source l = at_ [] l.
Proof. done. Qed.

Lemma index_at pre rest : m_index (at_ pre rest) = length pre.
Proof. done. Qed.

Lemma remaining_at pre rest : remaining (at_ pre rest) = length rest.
Proof. unfold remaining, at_. cbn. rewrite length_app. lia. Qed.

Lemma at_step pre c rest :
  Source (pre ++ c :: rest) (S (length pre)) = at_ (pre ++ [c]) rest.
Proof. unfold at_. rewrite <- app_assoc, length_app. cbn. f_equal. lia. Qed.

Lemma getch_cons pre c rest : getch (at_ pre (c :: rest)) = (Some c, at_ (pre ++ [c]) rest).
Proof.
  unfold getch, at_ at 1 2. cbn. rewrite lookup_app_r, Nat.sub_diag by lia. cbn. by rewrite at_step.
Qed.

Lemma getch_nil pre : getch (at_ pre []) = (None, at_ pre []).
Proof. unfold getch, at_. cbn. by rewrite app_nil_r, lookup_ge_None_2. Qed.

Lemma putback_at pre c rest : putback (at_ (pre ++ [c]) rest) = at_ pre (c :: rest).
Proof. unfold putback, at_. cbn. rewrite length_app, <- app_assoc. cbn. f_equal. lia. Qed.

Lemma backto_at pre u rest : backto (length pre) (at_ (pre ++ u) rest) = at_ pre (u ++ rest).
Proof.
  unfold backto, at_. cbn. rewrite !length_app, <- app_assoc.
  by rewrite (proj2 (Nat.leb_le _ _)) by lia.
Qed.

(** Every stream inside its data stands somewhere. *)
Lemma at_of s : wf s -> exists pre rest, s = at_ pre rest /\ length pre = m_index s.
Proof.
  destruct s as [d i]. unfold wf. cbn. intros Hi.
  exists (take i d), (drop i d). unfold at_. rewrite take_drop, length_take. split; [f_equal|]; lia.
Qed.

Definition anything (rest : list byte) : Prop := True.
(** The rest is empty or starts with a character that [f] rejects. *)
Definition stops (f : byte -> bool) (rest : list byte) : Prop :=
  match rest with [] => True | c :: _ => f c = false end.

Definition reads {A} (p : producer A) (u : list byte) (v : A) (F : list byte -> Prop) : Prop :=
  forall pre rest, F rest -> p (at_ pre (u ++ rest)) = (Value v, at_ (pre ++ u) rest).

Definition reads_c {T} (c : clause T) (t : T) (u : list byte) (t' : T) (F : list byte -> Prop) : Prop :=
  forall pre rest, F rest -> c (at_ pre (u ++ rest)) t = (Value tt, at_ (pre ++ u) rest, t').

Definition reads_all {T} (cs : list (clause T)) (t : T) (u : list byte) (t' : T)
    (F : list byte -> Prop) : Prop :=
  forall pre rest, F rest -> all_of cs (at_ pre (u ++ rest)) t = (Value tt, at_ (pre ++ u) rest, t').

(** A refusal is an error that does not force its alternative. *)
Definition refusal {A} (r : expected A) : Prop :=
  exists e, r = Unexpected e /\ reason e <> force_only_this_alternative_failed.

Definition refuses {A} (p : producer A) (F : list byte -> Prop) : Prop :=
  forall pre rest, F rest -> refusal (p (at_ pre rest)).1.
Definition refuses_c {T} (c : clause T) (F : list byte -> Prop) : Prop :=
  forall pre rest t, F rest -> refusal (c (at_ pre rest) t).1.1.
Definition refuses_all {T} (cs : list (clause T)) (F : list byte -> Prop) : Prop :=
  forall pre rest t, F rest -> refusal (all_of cs (at_ pre rest) t).1.1.

Lemma refusal_fail {A} pos r :
  r <> force_only_this_alternative_failed -> refusal (A := A) (fail pos r).
Proof. intros Hr. by eexists. Qed.

#[export] Hint Extern 1 (refusal (fail _ _)) => apply refusal_fail; discriminate : core.

(** ** Weakening *)

Lemma reads_weaken {A} (p : producer A) u v (F G : list byte -> Prop) :
  reads p u v F -> (forall r, G r -> F r) -> reads p u v G.
Proof. intros Hp Hi pre rest HG. by apply Hp, Hi. Qed.

Lemma reads_c_weaken {T} (c : clause T) t u t' (F G : list byte -> Prop) :
  reads_c c t u t' F -> (forall r, G r -> F r) -> reads_c c t u t' G.
Proof. intros Hp Hi pre rest HG. by apply Hp, Hi. Qed.

Lemma refuses_c_weaken {T} (c : clause T) (F G : list byte -> Prop) :
  refuses_c c F -> (forall r, G r -> F r) -> refuses_c c G.
Proof. intros Hp Hi pre rest t HG. by apply Hp, Hi. Qed.

Lemma refuses_all_weaken {T} (cs : list (clause T)) (F G : list byte -> Prop) :
  refuses_all cs F -> (forall r, G r -> F r) -> refuses_all cs G.
Proof. intros Hp Hi pre rest t HG. by apply Hp, Hi. Qed.

(** ** Lists of clauses *)

Lemma reads_nil {T} (t : T) F : reads_all [] t [] t F.
Proof. intros pre rest _. cbn. by rewrite app_nil_r. Qed.

Lemma reads_cons {T} (c : clause T) cs t u t1 us t2 (F1 F : list byte -> Prop) :
  reads_c c t u t1 F1 -> reads_all cs t1 us t2 F -> (forall r, F r -> F1 (us ++ r)) ->
  reads_all (c :: cs) t (u ++ us) t2 F.
Proof.
  intros Hc Hcs Hf pre rest HF. cbn [all_of]. rewrite <- app_assoc, (Hc pre (us ++ rest)) by auto.
  rewrite (Hcs (pre ++ u) rest HF). by rewrite <- app_assoc.
Qed.

Lemma refuses_head {T} (c : clause T) cs F : refuses_c c F -> refuses_all (c :: cs) F.
Proof.
  intros Hc pre rest t HF. destruct (Hc pre rest t HF) as (e & He & Hr). cbn [all_of].
  destruct (c _ t) as [[r s'] t']. cbn in He. subst r. by exists e.
Qed.

(** The first clause reads [u], the others refuse what follows. *)
Lemma refuses_tail {T} (c : clause T) cs u (f : T -> T) (F1 F : list byte -> Prop) :
  (forall t, reads_c c t u (f t) F1) -> refuses_all cs F -> (forall r, F r -> F1 r) ->
  refuses_all (c :: cs) (fun r => exists r', r = u ++ r' /\ F r').
Proof.
  intros Hc Hcs Hf pre rest t (r' & -> & HF). cbn [all_of]. rewrite (Hc t pre r') by auto.
  by apply Hcs.
Qed.

Lemma refuses_tail_empty {T} (c : clause T) cs (f : T -> T) (F : list byte -> Prop) :
  (forall t, reads_c c t [] (f t) F) -> refuses_all cs F -> refuses_all (c :: cs) F.
Proof.
  intros Hc Hcs pre rest t HF. pose proof (Hc t pre rest HF) as Hr. cbn [app] in Hr.
  cbn [all_of]. rewrite Hr, app_nil_r. by apply Hcs.
Qed.

(** ** Combinators *)

Lemma reads_consume {T A} (p : producer A) (c : consumer T A) t u v t' F :
  reads p u v F -> c t v = Ok t' -> reads_c (consume_value p c) t u t' F.
Proof. intros Hp Hc pre rest HF. unfold consume_value. by rewrite Hp, Hc. Qed.

Lemma refuses_consume {T A} (p : producer A) (c : consumer T A) F :
  refuses p F -> refuses_c (consume_value p c) F.
Proof.
  intros Hp pre rest t HF. destruct (Hp pre rest HF) as (e & He & Hr). unfold consume_value.
  destruct (p _) as [r s']. cbn in He. subst r. by exists e.
Qed.

Lemma reads_transform {A B} (p : producer A) (f : A -> transformed B) u a b F :
  reads p u a F -> f a = Transformed b -> reads (transform p f) u b F.
Proof. intros Hp Hf pre rest HF. unfold transform. by rewrite Hp, Hf. Qed.

Lemma refuses_transform {A B} (p : producer A) (f : A -> transformed B) F :
  refuses p F -> refuses (transform p f) F.
Proof.
  intros Hp pre rest HF. destruct (Hp pre rest HF) as (e & He & Hr). unfold transform.
  destruct (p _) as [r s']. cbn in He. subst r. by exists e.
Qed.

Lemma reads_produce {R} (init : R) cs u r F : reads_all cs init u r F -> reads (produce init cs) u r F.
Proof. intros Hc pre rest HF. unfold produce, produce_with. by rewrite Hc. Qed.

Lemma refuses_produce {R} (init : R) cs F : refuses_all cs F -> refuses (produce init cs) F.
Proof.
  intros Hc pre rest HF. destruct (Hc pre rest init HF) as (e & He & Hr). unfold produce, produce_with.
  destruct (all_of _ _ _) as [[r s'] t']. cbn in He. subst r. by exists e.
Qed.

Lemma reads_sequence {T} (cs : list (clause T)) t u t' F :
  reads_all cs t u t' F -> reads_c (sequence cs) t u t' F.
Proof. intros Hc pre rest HF. unfold sequence. by rewrite Hc. Qed.

Lemma refuses_sequence {T} (cs : list (clause T)) F : refuses_all cs F -> refuses_c (sequence cs) F.
Proof.
  intros Hc pre rest t HF. destruct (Hc pre rest t HF) as (e & He & Hr). unfold sequence.
  destruct (all_of _ _ _) as [[r s'] t']. cbn in He. subst r. by exists e.
Qed.

Lemma reads_force {T} (cs : list (clause T)) t u t' F :
  reads_all cs t u t' F -> reads_c (force_only_this_alternative cs) t u t' F.
Proof. intros Hc pre rest HF. unfold force_only_this_alternative. by rewrite (reads_sequence _ _ _ _ _ Hc). Qed.

Lemma reads_maybe {T} (cs : list (clause T)) t u t' F :
  reads_all cs t u t' F -> reads_c (maybe cs) t u t' F.
Proof. intros Hc pre rest HF. unfold maybe. by rewrite Hc. Qed.

Lemma all_of_backto {T} (cs : list (clause T)) s t :
  SafeClauses cs -> wf s -> backto (m_index s) (all_of cs s t).1.2 = s.
Proof. intros Hcs Hw. eapply good_backto; [done|by apply Hcs]. Qed.

Lemma skips_maybe {T} (cs : list (clause T)) t F :
  SafeClauses cs -> refuses_all cs F -> reads_c (maybe cs) t [] t F.
Proof.
  intros Hs Hc pre rest HF. cbn [app]. destruct (Hc pre rest t HF) as (e & He & Hr). unfold maybe.
  pose proof (all_of_backto cs (at_ pre rest) t Hs (wf_at _ _)) as Hb.
  destruct (all_of _ _ _) as [[r s'] t']. cbn [fst snd] in He, Hb. subst r. by rewrite Hb, app_nil_r.
Qed.

Lemma reads_not {T} `{Inhabited T} (cs : list (clause T)) t F :
  SafeClauses cs -> refuses_all cs F -> reads_c (not_clause cs) t [] t F.
Proof.
  intros Hs Hc pre rest HF. cbn [app]. destruct (Hc pre rest inhabitant HF) as (e & He & Hr). unfold not_clause.
  pose proof (all_of_backto cs (at_ pre rest) inhabitant Hs (wf_at _ _)) as Hb.
  destruct (all_of _ _ _) as [[r s'] t']. cbn [fst snd] in He, Hb. subst r. by rewrite Hb, app_nil_r.
Qed.

Lemma refuses_not {T} `{Inhabited T} (cs : list (clause T)) u t' (F : list byte -> Prop) :
  reads_all cs inhabitant u t' F -> refuses_c (not_clause cs) (fun r => exists r', r = u ++ r' /\ F r').
Proof.
  intros Hc pre rest t (r' & -> & HF). unfold not_clause. rewrite Hc by done. cbn. auto.
Qed.

Lemma any_of_skip {T} (c : clause T) cs F pre rest t :
  SafeClause c -> refuses_c c F -> F rest ->
  any_of (c :: cs) (at_ pre rest) t = any_of cs (at_ pre rest) t.
Proof.
  intros Hs Hc HF. destruct (Hc pre rest t HF) as (e & He & Hr). cbn [any_of].
  pose proof (good_backto _ _ _ (wf_at pre rest) (Hs (at_ pre rest) t (wf_at _ _))) as Hb.
  destruct (c _ t) as [[r s'] t']. cbn [fst snd] in He, Hb. subst r. rewrite decide_False by done. by rewrite Hb.
Qed.

Lemma reads_first {T} (c : clause T) cs t u t' F :
  reads_c c t u t' F -> reads_c (alternatives (c :: cs)) t u t' F.
Proof. intros Hc pre rest HF. unfold alternatives. cbn [any_of]. by rewrite Hc. Qed.

Lemma reads_other {T} (c : clause T) cs t u t' (F G : list byte -> Prop) :
  SafeClause c -> refuses_c c G -> (forall r, F r -> G (u ++ r)) ->
  reads_c (alternatives cs) t u t' F -> reads_c (alternatives (c :: cs)) t u t' F.
Proof.
  intros Hs Hc Hg Hcs pre rest HF. unfold alternatives. rewrite (any_of_skip c cs G) by auto.
  by apply Hcs.
Qed.

Lemma refuses_alternatives_nil {T} F : refuses_c (alternatives (T := T) []) F.
Proof. intros pre rest t _. cbn. auto. Qed.

Lemma refuses_alternatives {T} (c : clause T) cs F :
  SafeClause c -> refuses_c c F -> refuses_c (alternatives cs) F ->
  refuses_c (alternatives (c :: cs)) F.
Proof.
  intros Hs Hc Hcs pre rest t HF. unfold alternatives. rewrite (any_of_skip c cs F) by auto.
  by apply Hcs.
Qed.

(** ** Repetition

    [items cs t us t' F]: round after round the clauses read the texts [us],
    the last one followed by a rest in [F]. *)
Inductive items {T} (cs : list (clause T)) (F : list byte -> Prop) : T -> list (list byte) -> T -> Prop :=
| items_nil t : items cs F t [] t
| items_cons t u t1 us t2 (F1 : list byte -> Prop) :
    reads_all cs t u t1 F1 -> (forall r, F r -> F1 (concat us ++ r)) ->
    items cs F t1 us t2 -> items cs F t (u :: us) t2.

Lemma repeat_loop_items {T} (cs : list (clause T)) F t us t' endless n count pre rest :
  SafeClauses cs -> items cs F t us t' -> F rest -> refuses_all cs F \/ (n = 0)%nat ->
  (endless = true -> 0 < n)%nat -> (forall t0, (all_of cs (at_ (pre ++ concat us) rest) t0).2 = t0) ->
  repeat_loop cs endless (length us + n) count (at_ pre (concat us ++ rest)) t
  = (Value (count + length us)%nat, at_ (pre ++ concat us) rest, t').
Proof.
  intros Hs Hi HF Hr He Hkeep. revert count pre Hkeep.
  induction Hi as [t|t u t1 us t2 F1 Hu Hf Hi IH]; intros count pre Hkeep.
  - cbn [concat app length] in *. rewrite app_nil_r in *. rewrite Nat.add_0_r. cbn [Nat.add].
    destruct n as [|n]; cbn [repeat_loop].
    + by destruct endless; [specialize (He eq_refl); lia|].
    + destruct Hr as [Hr|]; [|lia]. destruct (Hr pre rest t HF) as (e & Hx & _).
      pose proof (all_of_backto cs (at_ pre rest) t Hs (wf_at _ _)) as Hb. specialize (Hkeep t).
      destruct (all_of _ _ _) as [[r s'] t']. cbn [fst snd] in Hx, Hb, Hkeep. subst r t'. by rewrite Hb.
  - cbn [concat length Nat.add repeat_loop]. rewrite <- app_assoc, (Hu pre) by auto.
    rewrite IH; [by rewrite <- app_assoc, Nat.add_succ_r|].
    intros t0. rewrite <- app_assoc. apply Hkeep.
Qed.

(** What a refusing round leaves of the target. *)
Definition leaves {T} (cs : list (clause T)) (F : list byte -> Prop) : Prop :=
  forall pre rest t, F rest -> (all_of cs (at_ pre rest) t).2 = t.

Lemma nonempty_concat_length {A} (us : list (list A)) :
  Forall (fun u => u <> []) us -> (length us <= length (concat us))%nat.
Proof.
  induction 1 as [|u us Hu _ IH]; cbn; [lia|]. rewrite length_app. destruct u; [done|]. cbn. lia.
Qed.

(** An unlimited repetition reads the items and stops where the clauses refuse
    what follows, leaving the target as the last item made it. *)
Lemma reads_repeat_N {T} min (cs : list (clause T)) F t us t' :
  SafeClauses cs -> items cs F t us t' -> refuses_all cs F -> leaves cs F ->
  Forall (fun u => u <> []) us -> (min <= length us)%nat ->
  reads_c (repeat_ min N cs) t (concat us) t' F.
Proof.
  intros Hs Hi Hr Hk Hne Hm pre rest HF. unfold repeat_.
  pose proof (nonempty_concat_length us Hne). rewrite remaining_at, length_app.
  set (k := S (length (concat us) - length us + length rest)).
  replace (S (length (concat us) + length rest)) with (length us + k)%nat by (unfold k; lia).
  rewrite (repeat_loop_items cs F t us t' true k 0 pre rest) by
    (try done; try (left; done); try (unfold k; lia); intros; by apply Hk).
  cbn [Nat.add]. by rewrite (proj2 (Nat.leb_le _ _) Hm).
Qed.

Lemma reads_repeat_upto {T} min n (cs : list (clause T)) F t us t' :
  SafeClauses cs -> items cs F t us t' -> (refuses_all cs F /\ leaves cs F) \/ (length us = n)%nat ->
  (min <= length us <= n)%nat ->
  reads_c (repeat_ min (Upto n) cs) t (concat us) t' F.
Proof.
  intros Hs Hi Hr Hm pre rest HF. unfold repeat_.
  replace n with (length us + (n - length us))%nat by lia.
  destruct (decide (length us = n)) as [He|He].
  - replace (n - length us)%nat with 0%nat by lia. clear Hr.
    assert (Hx : repeat_loop cs false (length us + 0) 0 (at_ pre (concat us ++ rest)) t
      = (Value (length us), at_ (pre ++ concat us) rest, t')).
    { rewrite Nat.add_0_r. change (length us) with (0 + length us)%nat at 2. generalize 0%nat as count.
      revert pre. clear He Hm. induction Hi as [t|t u t1 us t2 F1 Hu Hf Hi IH]; intros pre count; cbn.
      - by rewrite app_nil_r, Nat.add_0_r.
      - rewrite <- app_assoc, (Hu pre) by auto. rewrite IH. by rewrite <- app_assoc, Nat.add_succ_r. }
    rewrite Hx. by rewrite (proj2 (Nat.leb_le _ _)) by lia.
  - destruct Hr as [[Hr Hk]|]; [|done].
    rewrite (repeat_loop_items cs F t us t' false (n - length us) 0 pre rest) by
      (try done; try (left; done); intros; by apply Hk).
    cbn [Nat.add]. by rewrite (proj2 (Nat.leb_le _ _)) by lia.
Qed.

Lemma leaves_head {T A} (p : producer A) (c : consumer T A) cs F :
  refuses p F -> leaves (consume_value p c :: cs) F.
Proof.
  intros Hp pre rest t HF. destruct (Hp pre rest HF) as (e & He & _). cbn [all_of]. unfold consume_value.
  destruct (p _) as [r s']. cbn in He. by subst r.
Qed.

(** ** Symbols and fragments *)

Lemma reads_symbol_if f c : f c = true -> reads (symbol_if f) [c] c anything.
Proof. intros Hc pre rest _. unfold symbol_if. cbn [app]. by rewrite getch_cons, Hc. Qed.

Lemma refuses_symbol_if f : refuses (symbol_if f) (stops f).
Proof.
  intros pre [|c rest] HF; unfold symbol_if; [rewrite getch_nil; cbn; auto|].
  rewrite getch_cons. cbn in HF. rewrite HF, putback_at. cbn. auto.
Qed.

Lemma byte_eqb_refl c : Byte.eqb c c = true.
Proof. by apply Byte.byte_dec_lb. Qed.

Lemma byte_eqb_eq c d : Byte.eqb c d = true <-> c = d.
Proof. split; [apply Byte.byte_dec_bl|intros ->; apply byte_eqb_refl]. Qed.

Lemma byte_eqb_neq c d : Byte.eqb c d = false <-> c <> d.
Proof. rewrite <- not_true_iff_false, byte_eqb_eq. done. Qed.

Lemma reads_symbol {T} c (t : T) : reads_c (symbol c) t [c] t anything.
Proof. eapply reads_consume; [apply reads_symbol_if, byte_eqb_refl|done]. Qed.

Lemma refuses_symbol {T} c : refuses_c (symbol (T := T) c) (stops (Byte.eqb c)).
Proof. apply refuses_consume, refuses_symbol_if. Qed.

Lemma leaves_symbol {T} c (cs : list (clause T)) : leaves (symbol c :: cs) (stops (Byte.eqb c)).
Proof. apply leaves_head, refuses_symbol_if. Qed.

Lemma fragment_loop_reads same frag u pre rest :
  Forall2 (fun c b => same c b = true) u frag ->
  fragment_loop same frag (at_ pre (u ++ rest)) = (None, at_ (pre ++ u) rest).
Proof.
  intros Hu. revert pre. induction Hu as [|c b u frag Hc Hu IH]; intros pre; cbn; [by rewrite app_nil_r|].
  rewrite getch_cons, Hc, IH. by rewrite <- app_assoc.
Qed.

Lemma reads_fragment same frag u :
  Forall2 (fun c b => same c b = true) u frag -> reads (try_parse_fragment same frag) u true anything.
Proof. intros Hu pre rest _. unfold try_parse_fragment. by rewrite fragment_loop_reads. Qed.

Lemma reads_exact u : reads (exact_p u) u true anything.
Proof. apply reads_fragment. induction u; constructor; [apply byte_eqb_refl|done]. Qed.

(** ** The top level *)

Lemma remove_trailing_spaces_id l :
  (forall l' c, l = l' ++ [c] -> is_space c = false) -> remove_trailing_spaces l = l.
Proof.
  intros H. unfold remove_trailing_spaces. destruct l as [|c l' _] using rev_ind; [done|].
  rewrite rev_app_distr. cbn. by rewrite (H l' c eq_refl), <- rev_unit, rev_involutive.
Qed.

(** A text that does not end with a space and is read completely. *)
Lemma try_parse_reads {A} (p : producer A) u v (F : list byte -> Prop) :
  reads p u v F -> F [] -> (forall l' c, u = l' ++ [c] -> is_space c = false) ->
  try_parse u p = Value v.
Proof.
  intros Hp HF Hu. unfold try_parse. rewrite remove_trailing_spaces_id, make_source_at by done.
  pose proof (Hp [] [] HF) as Hr. rewrite app_nil_r in Hr. rewrite Hr. cbn [app].
  unfold ensure_no_remaining_content, at_. cbn. by rewrite app_nil_r, drop_all.
Qed.

End Reads.
