(* ===== verification/ParserErrors.v ===== *)
(** * Descriptions of parse errors

    Model of [make_error_description] in
    src/web/restinio/restinio/helpers/easy_parser.hpp.  The function takes the
    address of the octet at the position of the error and reads around it: a
    read outside the text is [None]. *)

From S2P Require Import Prelude HttpFields HttpResponse EasyParser.

Module ParserErrors.
Import Parser ParserLaws.
Import Decimal(dec).

Definition max_quote_size : nat := 16.

(** [n] octets of the text from [first] on. *)
Definition octets (from : list byte) (first n : nat) : option (list byte) :=
  if (first + n <=? length from)%nat then Some (take n (drop first from)) else None.

Definition hex_digits : list byte := bs "0123456789abcdef".
Definition hex_char (v : Z) : byte := nth (Z.to_nat v) hex_digits x00.

(** The symbol in quotes; control characters as two hexadecimal digits. *)
Definition shown_symbol (problematic_symbol : byte) : list byte :=
  if u8 problematic_symbol <? 0x20
  then [x5c; x78; hex_char (Z.shiftr (u8 problematic_symbol) 4); hex_char (Z.land (u8 problematic_symbol) 0xf)]
  else [problematic_symbol].

Definition append_quote (position_ : nat) (from : list byte) : option (list byte) :=
  prefix ← (if (0 <? position_)%nat then
              let prefix_size :=
                if (max_quote_size <? position_)%nat then max_quote_size else position_ in
              p ← octets from (position_ - prefix_size) prefix_size;
              Some ([x22] ++ p ++ [x22] ++ bs " >>> ")
            else Some []);
  let problematic_symbol :=
    match from !! position_ with Some c => c | None => x3f end in
  let symbol_text := [x27] ++ shown_symbol problematic_symbol ++ [x27] in
  suffix ← (if (position_ + 1 <? length from)%nat then
              let suffix_size :=
                if (position_ + 1 + max_quote_size <? length from)%nat
                then max_quote_size else (length from - position_ - 1)%nat in
              q ← octets from (position_ + 1) suffix_size;
              Some (bs " <<< " ++ [x22] ++ q ++ [x22])
            else Some []);
  Some (prefix ++ symbol_text ++ suffix).

Definition basic_reaction (msg : list byte) (e : parse_error_t) (from : list byte) : option (list byte) :=
  quote ← append_quote (position e) from;
  Some (msg ++ bs " at " ++ dec (Z.of_nat (position e)) ++ bs ": " ++ quote).

Definition make_error_description (e : parse_error_t) (from : list byte) : option (list byte) :=
  match reason e with
  | unexpected_character => basic_reaction (bs "unexpected character") e from
  | unexpected_eof => Some (bs "unexpected EOF at " ++ dec (Z.of_nat (position e)))
  | no_appropriate_alternative => basic_reaction (bs "appropriate alternative can't found") e from
  | pattern_not_found => basic_reaction (bs "expected pattern is not found") e from
  | unconsumed_input => basic_reaction (bs "unconsumed input found") e from
  | illegal_value_found => basic_reaction (bs "some illegal value found") e from
  | force_only_this_alternative_failed => basic_reaction (bs "forced selection alternative failed") e from
  end.

Lemma octets_inside from first n : (first + n <= length from)%nat -> is_Some (octets from first n).
Proof. intros H. unfold octets. by rewrite (proj2 (Nat.leb_le _ _) H). Qed.

Lemma append_quote_inside pos from : (pos <= length from)%nat -> is_Some (append_quote pos from).
Proof.
  intros Hp. unfold append_quote.
  assert (Hpre : (0 < pos)%nat -> is_Some (octets from
    (pos - (if (max_quote_size <? pos)%nat then max_quote_size else pos))
    (if (max_quote_size <? pos)%nat then max_quote_size else pos))).
  { intros H0. apply octets_inside. destruct (Nat.ltb_spec max_quote_size pos); unfold max_quote_size in *; lia. }
  assert (Hsuf : (pos + 1 < length from)%nat -> is_Some (octets from (pos + 1)
    (if (pos + 1 + max_quote_size <? length from)%nat then max_quote_size else (length from - pos - 1)%nat))).
  { intros H1. apply octets_inside. destruct (Nat.ltb_spec (pos + 1 + max_quote_size) (length from)); lia. }
  cbv zeta. destruct (Nat.ltb_spec 0 pos) as [H0|_], (Nat.ltb_spec (pos + 1) (length from)) as [H1|_];
    repeat match goal with
    | H : _ -> is_Some _, H' : _ |- _ => let y := fresh in destruct (H H') as [y ->]; clear H
    end; by eexists.
Qed.

(** An error a grammar reports can be described: for every producer whose
    parts are safe and every text, the description of the error of [try_parse]
    is made from octets of that text only, at the position of the error and at
    most 16 before and behind it. *)
Theorem error_description_inside {A} (p : producer A) (from : list byte) e :
  SafeProducer p -> try_parse from p = Unexpected e -> is_Some (make_error_description e from).
Proof.
  intros Hp He. pose proof (try_parse_safe p from Hp) as Hn. rewrite He in Hn. cbn in Hn.
  destruct (append_quote_inside (position e) from Hn) as [q Hq].
  unfold make_error_description, basic_reaction. rewrite Hq. destruct (reason e); by eexists.
Qed.

Lemma error_description_inside_witness :
  is_Some (make_error_description (ParseError 2 unconsumed_input) (bs "12x")) /\
  make_error_description (ParseError 2 unconsumed_input) (bs "12x")
  = Some (bs "unconsumed input found at 2: " ++ [x22] ++ bs "12" ++ [x22] ++ bs " >>> 'x'").
Proof.
  split; [|vm_compute; reflexivity].
  apply (error_description_inside (produce tt [repeat_ 0 N [digit]]) (bs "12x")).
  - apply _.
  - vm_compute. reflexivity.
Defined.

End ParserErrors.
