(* ===== verification/ParserNumbers.v ===== *)
(** * Numbers in the combinators

    Model of src/web/restinio/restinio/impl/overflow_controlled_integer_accumulator.hpp
    and of the number producers of helpers/easy_parser.hpp.  An integer type is
    its width and its signedness; the accumulator works in the unsigned type of
    the same width. *)

From S2P Require Import Prelude HttpFields HttpResponse FromString EasyParser ParserReads.

Module Numbers.
Import Parser ParserLaws Reads.
Import FromString(type_max, type_min, fits, convert).
Import Decimal(dec_value).

Record int_type := IntType { bits : Z; signed : bool }.

Definition uint16_t : int_type := IntType 16 false.
Definition uint64_t : int_type := IntType 64 false.
Definition int32_t : int_type := IntType 32 true.

(** ** The accumulator *)

Inductive extremum_type := check_positive_extremum | check_negative_extremum.

Definition extremum_value (T : int_type) (e : extremum_type) : Z :=
  match e with
  | check_positive_extremum => type_max (bits T) (signed T)
  | check_negative_extremum => wrap (bits T) (type_min (bits T) (signed T))
  end.

Definition is_greater_than_maximum (T : int_type) (v maximum : Z) : bool :=
  if signed T then maximum <? v else false.

Record accumulator_t := Accumulator { m_current : Z; m_overflow_detected : bool }.

Definition empty_accumulator : accumulator_t := Accumulator 0 false.

Definition next_digit (T : int_type) (multiplier : Z) (e : extremum_type) (digit : Z)
    (acc : accumulator_t) : accumulator_t :=
  let updated_value := wrap (bits T) (m_current acc * multiplier + wrap (bits T) digit) in
  if (updated_value <? m_current acc) ||
     is_greater_than_maximum T updated_value (extremum_value T e)
  then Accumulator (m_current acc) true
  else Accumulator updated_value (m_overflow_detected acc).

Definition value (T : int_type) (acc : accumulator_t) : Z := convert (bits T) (signed T) (m_current acc).

(** ** Limits for the number of digits: [std::int_fast8_t], eight bits wide on
    the platforms of the program *)

Record digits_to_consume_t := DigitsToConsume { m_min : Z; m_max : Z }.

Definition unlimited_max : Z := 127.
Definition from_one_to_max : digits_to_consume_t := DigitsToConsume 1 unlimited_max.
Definition expected_digits (total : Z) : digits_to_consume_t := DigitsToConsume total total.
Definition expected_digits_range (min max : Z) : digits_to_consume_t := DigitsToConsume min max.

(** ** The loops over the digits

    The two functions of the source differ in what is a digit. *)

Definition decimal_digit (ch : byte) : option Z := if is_digit ch then Some (u8 ch - 0x30) else None.

Definition hex_digit (ch : byte) : option Z :=
  if in_range 0x30 0x39 ch then Some (u8 ch - 0x30)
  else if in_range 0x41 0x46 ch then Some (10 + (u8 ch - 0x41))
  else if in_range 0x61 0x66 ch then Some (10 + (u8 ch - 0x61))
  else None.

(** One unit of [n] for every octet left. *)
Fixpoint digits_loop (ch_to_digit : byte -> option Z) (next : Z -> accumulator_t -> accumulator_t)
    (max : Z) (n : nat) (s : source_t) (acc : accumulator_t) (symbols_processed : Z)
  : accumulator_t * Z * source_t :=
  match n with
  | O => (acc, symbols_processed, s)
  | S n =>
      match getch s with
      | (None, s') => (acc, symbols_processed, s')
      | (Some ch, s') =>
          match ch_to_digit ch with
          | None => (acc, symbols_processed, putback s')
          | Some d =>
              let acc := next d acc in
              if m_overflow_detected acc then (acc, symbols_processed, s')
              else
                let symbols_processed := convert 8 true (symbols_processed + 1) in
                if symbols_processed =? max then (acc, symbols_processed, s')
                else digits_loop ch_to_digit next max n s' acc symbols_processed
          end
      end
  end.

Definition try_parse_digits_with (ch_to_digit : byte -> option Z) (T : int_type) (multiplier : Z)
    (e : extremum_type) (limit : digits_to_consume_t) : producer Z := fun s =>
  let '(acc, symbols_processed, s') :=
    digits_loop ch_to_digit (next_digit T multiplier e) (m_max limit) (remaining s) s
      empty_accumulator 0 in
  if m_overflow_detected acc then (fail (m_index s) illegal_value_found, backto (m_index s) s')
  else if symbols_processed <? m_min limit
  then (fail (m_index s') pattern_not_found, backto (m_index s) s')
  else (Value (value T acc), s').

Definition try_parse_digits_with_digits_limit (T : int_type) (e : extremum_type)
    (limit : digits_to_consume_t) : producer Z :=
  try_parse_digits_with decimal_digit T 10 e limit.
Definition try_parse_hexdigits_with_digits_limit (T : int_type) (e : extremum_type)
    (limit : digits_to_consume_t) : producer Z :=
  try_parse_digits_with hex_digit T 16 e limit.

Definition non_negative_decimal_number_p (T : int_type) : producer Z :=
  try_parse_digits_with_digits_limit T check_positive_extremum from_one_to_max.
Definition non_negative_decimal_number_limited_p (T : int_type) (limit : digits_to_consume_t)
  : producer Z := try_parse_digits_with_digits_limit T check_positive_extremum limit.
Definition hexadecimal_number_p (T : int_type) : producer Z :=
  try_parse_hexdigits_with_digits_limit T check_positive_extremum from_one_to_max.
Definition hexadecimal_number_limited_p (T : int_type) (limit : digits_to_consume_t) : producer Z :=
  try_parse_hexdigits_with_digits_limit T check_positive_extremum limit.

(** [static_cast< T >( -( *r ) )]: the negation is done in the promoted type. *)
Definition negated (T : int_type) (r : Z) : expected Z :=
  if fits (Z.max 32 (bits T)) true (- r) then Value (convert (bits T) (signed T) (- r))
  else Abnormal Undefined.

Definition try_parse_with_this_first_symbol (T : int_type) (limit : digits_to_consume_t)
    (first_symbol : byte) : producer Z := fun s =>
  if Byte.eqb x2d first_symbol then
    match try_parse_digits_with_digits_limit T check_negative_extremum limit s with
    | (Value r, s') => (negated T r, s')
    | r => r
    end
  else if Byte.eqb x2b first_symbol then
    try_parse_digits_with_digits_limit T check_positive_extremum limit s
  else if is_digit first_symbol then
    try_parse_digits_with_digits_limit T check_positive_extremum limit (putback s)
  else (fail (m_index s) pattern_not_found, s).

(** [decimal_number_producer_t::try_parse_impl]. *)
Definition decimal_number_limited_p (T : int_type) (limit : digits_to_consume_t) : producer Z := fun s =>
  match getch s with
  | (Some c, s1) =>
      match try_parse_with_this_first_symbol T limit c s1 with
      | (Value r, s') => (Value r, s')
      | (r, s') => (r, backto (m_index s) s')
      end
  | (None, s1) => (fail (m_index s1) pattern_not_found, backto (m_index s) s1)
  end.

Definition decimal_number_p (T : int_type) : producer Z := decimal_number_limited_p T from_one_to_max.

(** ** Safety *)

Lemma digits_loop_safe dig next max n s acc k :
  wf s -> let '(_, _, s') := digits_loop dig next max n s acc k in
  m_data s' = m_data s /\ (m_index s <= m_index s' <= length (m_data s))%nat.
Proof.
  revert s acc k. induction n as [|n IH]; intros s acc k Hw; cbn [digits_loop];
    [by unfold wf in Hw|].
  destruct (getch s) as [[c|] s1] eqn:Hc; [|apply getch_none in Hc as [-> _]; done].
  apply getch_some in Hc as (-> & _ & Hlt & Hpb). rewrite Hpb.
  destruct (dig c); [|done]. cbv zeta. cbn. destruct (m_overflow_detected _); [cbn; split; [done|lia]|].
  destruct (_ =? max); [cbn; split; [done|lia]|].
  specialize (IH (Source (m_data s) (S (m_index s))) (next z acc) (convert 8 true (k + 1)) Hlt).
  destruct (digits_loop _ _ _ _ _ _ _) as [[a k'] s']. cbn in IH. destruct IH. split; [done|lia].
Qed.

#[global] Instance safe_digits dig T mult e limit : SafeProducer (try_parse_digits_with dig T mult e limit).
Proof.
  intros s Hw. unfold try_parse_digits_with.
  pose proof (digits_loop_safe dig (next_digit T mult e) (m_max limit) (remaining s) s empty_accumulator 0 Hw) as Hl.
  destruct (digits_loop _ _ _ _ _ _ _) as [[a k] s']. destruct Hl as (Hd & Hi).
  destruct (m_overflow_detected a); cbn; [rewrite backto_start by done; by apply good_fail|].
  destruct (k <? m_min limit); cbn; [|constructor; by (lia || done)].
  rewrite backto_start by done. apply good_refl; [done|]. cbn. lia.
Qed.

#[global] Hint Extern 1 (SafeProducer _) => progress unfold non_negative_decimal_number_p,
  hexadecimal_number_p, try_parse_digits_with_digits_limit,
  try_parse_hexdigits_with_digits_limit : typeclass_instances.

(** ** What a number is read as *)

Definition digit_or_zero (d : option Z) : Z := match d with Some d => d | None => 0 end.

(** The octets of a number and its value in a base. *)
Definition digits_value (dig : byte -> option Z) (mult : Z) (ds : list byte) (acc : Z) : Z :=
  fold_left (fun a c => a * mult + digit_or_zero (dig c)) ds acc.

Section Reading.
Context (dig : byte -> option Z) (T : int_type) (mult : Z) (e : extremum_type).
Context (dig_range : forall c d, dig c = Some d -> 0 <= d < 2 ^ bits T).

Definition all_digits (ds : list byte) : Prop := Forall (fun c => is_Some (dig c)) ds.

(** Feeding digits: the accumulator is the value of the digits modulo the width
    of the type, whether or not the text fits. *)
Fixpoint feed (ds : list byte) (acc : accumulator_t) : accumulator_t :=
  match ds with
  | [] => acc
  | c :: ds =>
      let acc := next_digit T mult e (digit_or_zero (dig c)) acc in
      if m_overflow_detected acc then acc else feed ds acc
  end.

Lemma feed_mod ds acc v :
  all_digits ds -> m_current acc = wrap (bits T) v ->
  m_overflow_detected (feed ds acc) = false ->
  m_current (feed ds acc) = wrap (bits T) (digits_value dig mult ds v).
Proof.
  revert acc v. induction ds as [|c ds IH]; intros acc v Hd Hv Ho; [done|].
  apply Forall_cons_1 in Hd as [[d Hc] Hd]. cbn [feed] in *. cbn [digits_value fold_left].
  unfold next_digit in *. rewrite Hc in *. cbn [digit_or_zero] in *. fold (digits_value dig mult ds (v * mult + d)).
  destruct (_ || _) eqn:Hb; cbn [m_overflow_detected] in *; [done|].
  destruct (m_overflow_detected acc); [done|]. apply IH; [done| |done]. cbn [m_current].
  rewrite Hv. unfold wrap. rewrite Zplus_mod, Zmult_mod, !Zmod_mod, <- Zmult_mod, <- Zplus_mod. done.
Qed.

Lemma feed_fits ds acc :
  all_digits ds -> m_overflow_detected acc = false -> 0 <= m_current acc -> 1 <= mult ->
  extremum_value T e < 2 ^ bits T ->
  digits_value dig mult ds (m_current acc) <= extremum_value T e ->
  m_overflow_detected (feed ds acc) = false /\ m_current (feed ds acc) = digits_value dig mult ds (m_current acc).
Proof.
  revert acc. induction ds as [|c ds IH]; intros acc Hd Ho Hn Hm Hx Hv; [done|].
  apply Forall_cons_1 in Hd as [[d Hc] Hd]. cbn [feed]. cbn [digits_value fold_left] in *. rewrite Hc in *. cbn [digit_or_zero] in *.
  fold (digits_value dig mult ds (m_current acc * mult + d)) in *.
  pose proof (dig_range c d Hc) as Hr.
  assert (Hmono : forall l a, all_digits l -> 0 <= a -> a <= digits_value dig mult l a).
  { clear -Hm dig_range. induction l as [|x l IHl]; intros a Hl Ha; [cbn; lia|].
    apply Forall_cons_1 in Hl as [[y Hy] Hl]. cbn [digits_value fold_left]. rewrite Hy. cbn [digit_or_zero].
    fold (digits_value dig mult l (a * mult + y)). destruct (dig_range x y Hy) as [Hy0 _].
    assert (a <= a * mult) by nia. specialize (IHl (a * mult + y) Hl ltac:(lia)). lia. }
  assert (Hma : m_current acc <= m_current acc * mult) by nia.
  pose proof (Hmono ds (m_current acc * mult + d) Hd ltac:(lia)) as Hle.
  unfold next_digit. unfold wrap. rewrite (Z.mod_small d) by done.
  rewrite (Z.mod_small (m_current acc * mult + d)) by lia.
  replace (m_current acc * mult + d <? m_current acc) with false by (symmetry; apply Z.ltb_ge; lia).
  assert (Hg : is_greater_than_maximum T (m_current acc * mult + d) (extremum_value T e) = false).
  { unfold is_greater_than_maximum. destruct (signed T); [apply Z.ltb_ge; lia|done]. }
  rewrite Hg. cbn [orb m_overflow_detected]. rewrite Ho.
  apply (IH (Accumulator (m_current acc * mult + d) false)); try done. cbn. lia.
Qed.

Lemma digits_loop_feed ds pre rest acc k max n :
  all_digits ds -> match rest with [] => True | c :: _ => dig c = None end ->
  (length ds + length rest <= n)%nat -> 0 <= k -> k + Z.of_nat (length ds) < max -> max <= 127 ->
  m_overflow_detected acc = false ->
  let '(a, k', s') := digits_loop dig (next_digit T mult e) max n (at_ pre (ds ++ rest)) acc k in
  a = feed ds acc /\
  (m_overflow_detected a = false -> k' = k + Z.of_nat (length ds) /\ s' = at_ (pre ++ ds) rest).
Proof.
  revert pre acc k n. induction ds as [|c ds IH]; intros pre acc k n Hd Hr Hn Hk Hm Hx Ho.
  - cbn [app feed length]. rewrite Z.add_0_r, app_nil_r.
    destruct n as [|n]; cbn [digits_loop]; [by destruct rest; cbn in Hn|].
    destruct rest as [|c rest]; [by rewrite getch_nil|]. rewrite getch_cons, Hr, putback_at. done.
  - destruct n as [|n]; [cbn in Hn; lia|]. apply Forall_cons_1 in Hd as [[d Hc] Hd].
    cbn [app digits_loop]. rewrite getch_cons, Hc. cbv zeta. cbn [feed]. rewrite Hc. cbn [digit_or_zero].
    destruct (m_overflow_detected (next_digit T mult e d acc)) eqn:Hov.
    { split; [done|]. by rewrite Hov. }
    cbn [length] in *. rewrite FromString.convert_fits; [|lia|apply FromString.fits_iff; cbn; lia].
    rewrite (proj2 (Z.eqb_neq (k + 1) max)) by lia.
    specialize (IH (pre ++ [c]) (next_digit T mult e d acc) (k + 1) n Hd Hr ltac:(lia) ltac:(lia) ltac:(lia) Hx Hov).
    destruct (digits_loop _ _ _ _ _ _ _) as [[a k'] s']. destruct IH as [-> Hs]. split; [done|].
    intros Hf. destruct (Hs Hf) as [-> ->]. split; [lia|]. by rewrite <- app_assoc.
Qed.

End Reading.

Lemma decimal_digits_all ds :
  forallb is_digit ds = true ->
  all_digits decimal_digit ds /\ forall acc, digits_value decimal_digit 10 ds acc
    = fold_left (fun a b => a * 10 + (u8 b - 0x30)) ds acc.
Proof.
  induction ds as [|c ds IH]; cbn [forallb]; [by split; [constructor|]|].
  rewrite andb_true_iff. intros [Hc Hds]. destruct (IH Hds) as [Ha Hv].
  assert (Hd : decimal_digit c = Some (u8 c - 0x30)) by (unfold decimal_digit; by rewrite Hc).
  split; [constructor; [by rewrite Hd|done]|].
  intros acc. cbn [digits_value fold_left]. rewrite Hd. cbn [digit_or_zero]. apply Hv.
Qed.

Lemma decimal_digit_range bits c d : 8 <= bits -> decimal_digit c = Some d -> 0 <= d < 2 ^ bits.
Proof.
  intros Hb. unfold decimal_digit, is_digit, in_range. destruct (_ && _) eqn:Hc; [|done]. intros [= <-].
  assert (2 ^ 8 <= 2 ^ bits) by (apply Z.pow_le_mono_r; lia). lia.
Qed.

Lemma type_max_below T : 8 <= bits T -> type_max (bits T) (signed T) < 2 ^ bits T.
Proof.
  intros Hb. unfold type_max. pose proof (Z.pow_le_mono_r 2 (bits T - 1) (bits T)).
  destruct (signed T); lia.
Qed.

Lemma type_max_fits T v :
  8 <= bits T -> 0 <= v <= type_max (bits T) (signed T) -> convert (bits T) (signed T) v = v.
Proof.
  intros Hb Hv. apply FromString.convert_fits; [lia|]. apply FromString.fits_iff.
  unfold type_min. pose proof (Z.pow_pos_nonneg 2 (bits T - 1)). destruct (signed T); lia.
Qed.

Lemma convert_wrap T v : 1 <= bits T -> convert (bits T) (signed T) (wrap (bits T) v) = convert (bits T) (signed T) v.
Proof.
  intros Hb. unfold convert, wrap. destruct (signed T); [|by rewrite Zmod_mod].
  f_equal. rewrite Zplus_mod, Zmod_mod, <- Zplus_mod. done.
Qed.

Lemma decimal_number_cases T pre ds rest :
  8 <= bits T -> ds <> [] -> forallb is_digit ds = true -> (length ds < 127)%nat -> stops is_digit rest ->
  let r := non_negative_decimal_number_p T (at_ pre (ds ++ rest)) in
  (r = (Value (convert (bits T) (signed T) (dec_value ds)), at_ (pre ++ ds) rest) \/
   r = (fail (length pre) illegal_value_found, at_ pre (ds ++ rest))) /\
  (dec_value ds <= type_max (bits T) (signed T) -> r = (Value (dec_value ds), at_ (pre ++ ds) rest)).
Proof.
  intros Hb Hne Hds Hlen Hst r. destruct (decimal_digits_all ds Hds) as [Had Hval].
  assert (Hrest : match rest with [] => True | c :: _ => decimal_digit c = None end).
  { destruct rest; [done|]. cbn in Hst. unfold decimal_digit. by rewrite Hst. }
  pose proof (digits_loop_feed decimal_digit T 10 check_positive_extremum ds pre rest empty_accumulator 0 127
    (remaining (at_ pre (ds ++ rest))) Had Hrest) as Hloop.
  rewrite remaining_at, length_app in Hloop. specialize (Hloop ltac:(lia) ltac:(lia) ltac:(lia) ltac:(lia) eq_refl).
  unfold r, non_negative_decimal_number_p, try_parse_digits_with_digits_limit, try_parse_digits_with.
  rewrite remaining_at, length_app. cbn [m_max from_one_to_max]. change unlimited_max with 127.
  pose proof (digits_loop_safe decimal_digit (next_digit T 10 check_positive_extremum) 127
    (length ds + length rest) (at_ pre (ds ++ rest)) empty_accumulator 0 (wf_at _ _)) as Hsafe.
  destruct (digits_loop _ _ _ _ _ _ _) as [[a k] s']. destruct Hloop as [-> Hs].
  destruct Hsafe as [Hd _]. rewrite index_at, <- (index_at pre (ds ++ rest)), backto_start, index_at by done.
  pose proof (feed_mod decimal_digit T 10 check_positive_extremum ds empty_accumulator 0 Had) as Hmod.
  pose proof (feed_fits decimal_digit T 10 check_positive_extremum (fun c d => decimal_digit_range _ c d Hb)
    ds empty_accumulator Had eq_refl) as Hfit.
  cbn [m_current empty_accumulator extremum_value] in Hmod, Hfit. rewrite Hval in Hmod, Hfit.
  fold (dec_value ds) in Hmod, Hfit. pose proof (type_max_below T Hb).
  destruct (m_overflow_detected _) eqn:Ho.
  - split; [by right|]. intros Hle. destruct Hfit as [Hf _]; [lia|lia|done|done|congruence].
  - destruct (Hs eq_refl) as [-> ->]. specialize (Hmod (eq_sym (Zmod_0_l _)) eq_refl).
    rewrite (proj2 (Z.ltb_ge _ _)) by (destruct ds; [done|cbn; lia]).
    unfold value. rewrite Hmod, convert_wrap by lia. split; [by left|].
    intros Hle. rewrite type_max_fits; [done|done|].
    pose proof (FromString.dec_value_bounds ds Hds). lia.
Qed.

Lemma reads_number T ds :
  8 <= bits T -> ds <> [] -> forallb is_digit ds = true -> (length ds < 127)%nat ->
  dec_value ds <= type_max (bits T) (signed T) ->
  reads (non_negative_decimal_number_p T) ds (dec_value ds) (stops is_digit).
Proof. intros Hb Hne Hds Hlen Hle pre rest Hst. by apply decimal_number_cases. Qed.

Lemma refuses_number T : refuses (non_negative_decimal_number_p T) (stops is_digit).
Proof.
  intros pre rest Hs. unfold non_negative_decimal_number_p, try_parse_digits_with_digits_limit, try_parse_digits_with.
  rewrite remaining_at. destruct rest as [|c rest]; cbn [length digits_loop]; [cbn; auto|].
  cbn [stops] in Hs. rewrite getch_cons. unfold decimal_digit at 1. rewrite Hs, putback_at. cbn. auto.
Qed.

(** A run of decimal digits, of any integer type of the program: it is either
    refused as a whole as an illegal value, leaving the input where it was, or
    read as a whole, and then the value is the number reduced to the width of
    the type.  A number that fits is always read, as itself; that a number
    that does not fit is refused cannot be relied on ([overflow_missed]). *)
Theorem decimal_number_value T pre ds rest :
  8 <= bits T -> ds <> [] -> forallb is_digit ds = true -> (length ds < 127)%nat -> stops is_digit rest ->
  let r := non_negative_decimal_number_p T (at_ pre (ds ++ rest)) in
  (r = (Value (convert (bits T) (signed T) (dec_value ds)), at_ (pre ++ ds) rest) \/
   r = (fail (length pre) illegal_value_found, at_ pre (ds ++ rest))) /\
  (dec_value ds <= type_max (bits T) (signed T) -> r = (Value (dec_value ds), at_ (pre ++ ds) rest)).
Proof. apply decimal_number_cases. Qed.

Lemma decimal_number_value_witness :
  non_negative_decimal_number_p uint16_t (at_ (bs ":") (bs "65535" ++ bs "/")) =
  (Value 65535, at_ (bs ":65535") (bs "/")).
Proof.
  apply (decimal_number_value uint16_t (bs ":") (bs "65535") (bs "/")); cbn; try done; lia.
Defined.

(** The overflow test compares the reduced value with the old one, so a number
    is accepted whenever the reduction is not smaller. *)
Lemma overflow_missed :
  try_parse (bs "100000") (non_negative_decimal_number_p uint16_t) = Value 34464 /\
  try_parse (bs "30000000000000000000") (non_negative_decimal_number_p uint64_t)
  = Value 11553255926290448384 /\
  try_parse (bs "65536") (non_negative_decimal_number_p uint16_t)
  = Unexpected (ParseError 0 illegal_value_found).
Proof. split_and!; vm_compute; reflexivity. Qed.

(** Negating the smallest value of a type as wide as [int] overflows. *)
Lemma smallest_int_undefined :
  try_parse (bs "-2147483648") (decimal_number_p int32_t) = Abnormal Undefined /\
  try_parse (bs "-2147483647") (decimal_number_p int32_t) = Value (-2147483647).
Proof. split; vm_compute; reflexivity. Qed.

End Numbers.
