(* ===== verification/FieldBasics.v ===== *)
(** * Building blocks of HTTP field values

    Model of src/web/restinio/restinio/helpers/http_field_parsers/basics.hpp:
    character classes, quality values, tokens, quoted strings, comments,
    weights, comma-separated lists and parameters. *)

From S2P Require Import Prelude HttpFields HttpResponse EasyParser ParserReads.

Declare Scope parser_scope.
Delimit Scope parser_scope with parser.
Infix ">>" := Parser.consume_value (at level 50, left associativity) : parser_scope.
Infix "~>" := Parser.transform (at level 50, left associativity) : parser_scope.

Module Basics.
Import Caseless Parser ParserLaws Reads.
#[local] Open Scope parser_scope.

(** ** Quality values: thousandths in a 16-bit integer *)

Definition qvalue_maximum : Z := 1000.
Definition qvalue_zero : Z := 0.

Record qvalue_t := QValue { as_uint : Z }.

Definition trusted (value : Z) : qvalue_t := QValue (wrap 16 value).
Definition untrusted (value : Z) : outcome qvalue_t :=
  if qvalue_maximum <? wrap 16 value then Throw "invalid value for http_field_parser::rfc::qvalue_t"
  else Ok (QValue (wrap 16 value)).
Definition qvalue_max : qvalue_t := QValue qvalue_maximum.

(** [make_char_array] up to its terminating zero. *)
Definition as_string (q : qvalue_t) : list byte :=
  if qvalue_maximum =? as_uint q then bs "1.000"
  else
    let d2 := as_uint q mod 100 in
    let d3 := d2 mod 10 in
    [x30; x2e; b8 (0x30 + as_uint q / 100); b8 (0x30 + d2 / 10); b8 (0x30 + d3)].

Definition qvalue_eq (a b : qvalue_t) : bool := as_uint a =? as_uint b.
Definition qvalue_lt (a b : qvalue_t) : bool := as_uint a <? as_uint b.
Definition qvalue_le (a b : qvalue_t) : bool := as_uint a <=? as_uint b.

(** ** Character classes *)

Definition is_alpha (ch : byte) : bool := in_range 0x41 0x5A ch || in_range 0x61 0x7A ch.
Definition is_alphanum (ch : byte) : bool := is_alpha ch || is_digit ch.
Definition is_vchar (ch : byte) : bool := in_range 0x21 0x7E ch.
Definition is_obs_text (ch : byte) : bool := in_range 0x80 0xFF ch.
Definition is_qdtext (ch : byte) : bool :=
  Byte.eqb ch SP || Byte.eqb ch HTAB || Byte.eqb ch "!" || in_range 0x23 0x5B ch ||
  in_range 0x5D 0x7E ch || is_obs_text ch.
Definition is_ctext (ch : byte) : bool :=
  Byte.eqb ch SP || Byte.eqb ch HTAB || in_range 0x21 0x27 ch || in_range 0x2A 0x5B ch ||
  in_range 0x5D 0x7E ch || is_obs_text ch.
Definition is_token_char (ch : byte) : bool :=
  is_alpha ch || is_digit ch || existsb (Byte.eqb ch) (bs "!#$%&'*+-.^_`|~").
(** What may stand behind a backslash. *)
Definition is_quotable (ch : byte) : bool :=
  Byte.eqb SP ch || Byte.eqb HTAB ch || is_vchar ch || is_obs_text ch.

Definition alpha_symbol_p : producer byte := symbol_if is_alpha.
Definition alphanum_symbol_p : producer byte := symbol_if is_alphanum.
Definition vchar_symbol_p : producer byte := symbol_if is_vchar.
Definition ctext_symbol_p : producer byte := symbol_if is_ctext.
Definition token_symbol_p : producer byte := symbol_if is_token_char.

(** ** Optional white space and tokens *)

(** Reads characters as long as they satisfy [f], one unit of [n] for every
    octet left; tells whether the end of the input stopped it. *)
Fixpoint span_loop (f : byte -> bool) (n : nat) (s : source_t) (accumulator : list byte)
  : list byte * bool * source_t :=
  match n with
  | O => (accumulator, true, s)
  | S n =>
      match getch s with
      | (None, s') => (accumulator, true, s')
      | (Some ch, s') =>
          if f ch then span_loop f n s' (accumulator ++ [ch]) else (accumulator, false, putback s')
      end
  end.

Definition ows_p : producer (option byte) := fun s =>
  let '(spaces, _, s') := span_loop is_space (remaining s) s [] in
  (Value (match spaces with [] => None | _ => Some SP end), s').

Definition ows {T} : clause T := ows_p >> skip.

Definition token_p : producer (list byte) := fun s =>
  let '(value, at_eof, s') := span_loop is_token_char (remaining s) s [] in
  match value with
  | [] => (fail (m_index s') (if at_eof then unexpected_eof else unexpected_character), s')
  | _ => (Value value, s')
  end.

(** ** Quoted strings *)

(** [try_parse_value]: [inr] when the closing quote was read. *)
Fixpoint quoted_loop (n : nat) (s : source_t) (accumulator : list byte)
  : (error_reason_t + list byte) * source_t :=
  match n with
  | O => (inl unexpected_eof, s)
  | S n =>
      match getch s with
      | (None, s') => (inl unexpected_eof, s')
      | (Some ch, s') =>
          if Byte.eqb x22 ch then (inr accumulator, s')
          else if Byte.eqb x5c ch then
            match getch s' with
            | (None, s'') => (inl unexpected_eof, s'')
            | (Some next, s'') =>
                if is_quotable next then quoted_loop n s'' (accumulator ++ [next])
                else (inl unexpected_character, putback s'')
            end
          else if is_qdtext ch then quoted_loop n s' (accumulator ++ [ch])
          else (inl unexpected_character, putback s')
      end
  end.

Definition quoted_string_p : producer (list byte) := fun s =>
  match getch s with
  | (Some ch, s1) =>
      if Byte.eqb x22 ch then
        match quoted_loop (remaining s1) s1 [] with
        | (inr value, s') => (Value value, s')
        | (inl r, s') => (fail (m_index s') r, backto (m_index s) s')
        end
      else (fail (m_index s) unexpected_character, backto (m_index s) s1)
  | (None, s1) => (fail (m_index s) unexpected_eof, backto (m_index s) s1)
  end.

Definition quoted_pair_p : producer byte := fun s =>
  match getch s with
  | (Some ch, s1) =>
      if Byte.eqb x5c ch then
        match getch s1 with
        | (Some next, s2) =>
            if is_quotable next then (Value next, s2)
            else (fail (m_index s2) unexpected_character, backto (m_index s) s2)
        | (None, s2) => (fail (m_index s2) unexpected_eof, backto (m_index s) s2)
        end
      else (fail (m_index s1) unexpected_character, backto (m_index s) s1)
  | (None, s1) => (fail (m_index s1) unexpected_eof, backto (m_index s) s1)
  end.

(** ** Comments *)

(** One level of [comment_producer_t::try_parse], with [inner] for the
    recursive use of [comment_p]. *)
Definition comment_level (inner : producer (list byte)) : producer (list byte) :=
  produce []
    [ sequence
        [ symbol "(";
          repeat_ 0 N
            [ alternatives
                [ ctext_symbol_p >> to_container;
                  quoted_pair_p >> to_container;
                  inner >> custom_consumer (fun dest what => dest ++ what) ] ];
          symbol ")" ] ].

(** Every level of nesting reads a parenthesis, so a level for every octet left
    and one more is enough ([comment_enough_levels]). *)
Fixpoint comment_levels (n : nat) : producer (list byte) :=
  match n with
  | O => fun s => (fail (m_index s) unexpected_eof, s)
  | S n => comment_level (comment_levels n)
  end.

Definition comment_p : producer (list byte) := fun s => comment_levels (S (remaining s)) s.

(** ** Expected tokens *)

Definition expected_token_p (token : list byte) : producer bool :=
  produce false [ exact_p token >> as_result; not_clause [ token_symbol_p >> skip ] ].
Definition expected_caseless_token_p (token : list byte) : producer bool :=
  produce false [ caseless_exact_p token >> as_result; not_clause [ token_symbol_p >> skip ] ].

(** ** Weights *)

Definition digit_consumer (multiplier : Z) : consumer Z byte :=
  custom_consumer (fun dest digit => wrap 16 (dest + multiplier * wrap 16 (u8 digit - 0x30))).

Definition qvalue_digits : producer Z :=
  produce 0
    [ alternatives
        [ sequence
            [ symbol "0";
              maybe
                [ symbol ".";
                  maybe
                    [ digit_p >> digit_consumer 100;
                      maybe
                        [ digit_p >> digit_consumer 10;
                          maybe [ digit_p >> digit_consumer 1 ] ] ] ] ];
          sequence
            [ symbol_p "1" >> digit_consumer 1000;
              maybe
                [ symbol ".";
                  maybe
                    [ symbol "0";
                      maybe [ symbol "0"; maybe [ symbol "0" ] ] ] ] ] ] ].

Definition qvalue_p : producer qvalue_t := fun s =>
  match qvalue_digits s with
  | (Value v, s') => (Value (trusted v), s')
  | (Unexpected e, s') => (Unexpected e, s')
  | (Abnormal a, s') => (Abnormal a, s')
  end.

Definition weight_p : producer qvalue_t :=
  produce (QValue 0) [ ows; symbol ";"; ows; caseless_symbol "q"; symbol "="; qvalue_p >> as_result ].

(** ** Comma-separated lists *)

(** [try_parse] of the two list producers: a clause run on an empty container. *)
Definition run_clause {A} (c : clause (list A)) : producer (list A) := fun s =>
  match c s [] with
  | (Value _, s', t) => (Value t, s')
  | (Unexpected e, s', _) => (Unexpected e, s')
  | (Abnormal a, s', _) => (Abnormal a, s')
  end.

Definition non_empty_comma_separated_list_p {A} (element : producer A) : producer (list A) :=
  run_clause
    (sequence
       [ repeat_ 0 N [ symbol ","; ows ];
         element >> to_container;
         repeat_ 0 N [ ows; symbol ","; maybe [ ows; element >> to_container ] ] ]).

Definition maybe_empty_comma_separated_list_p {A} (element : producer A) : producer (list A) :=
  run_clause
    (maybe
       [ alternatives [ symbol ","; element >> to_container ];
         repeat_ 0 N [ ows; symbol ","; maybe [ ows; element >> to_container ] ] ]).

(** ** Parameters *)

Definition parameter_with_mandatory_value_t : Type := list byte * list byte.
Definition parameter_with_mandatory_value_container_t : Type := list parameter_with_mandatory_value_t.
Definition parameter_with_optional_value_t : Type := list byte * option (list byte).
Definition parameter_with_optional_value_container_t : Type := list parameter_with_optional_value_t.

(** The field setters [&std::pair::first] and [&std::pair::second]. *)
Definition set_first {A B} : consumer (A * B) A := custom_consumer (fun t v => (v, t.2)).
Definition set_second {A B} : consumer (A * B) B := custom_consumer (fun t v => (t.1, v)).
Definition set_opt_second {A B} : consumer (A * option B) B :=
  custom_consumer (fun t v => (t.1, Some v)).

Inductive not_found_t := not_found.

(** [find_first] for parameters with a value, and with an optional one. *)
Fixpoint find_first {V} (where_ : list (list byte * V)) (what : list byte) : option V :=
  match where_ with
  | [] => None
  | p :: where_ => if is_equal_caseless p.1 what then Some p.2 else find_first where_ what
  end.

Definition find_first_opt : parameter_with_optional_value_container_t -> list byte -> option (option (list byte)) :=
  find_first (V := option (list byte)).

Definition parameter_value : list (clause parameter_with_mandatory_value_t) :=
  [ token_p >> set_second; quoted_string_p >> set_second ].

Definition param_with_value_p : producer parameter_with_mandatory_value_t :=
  produce ([], [])
    [ ows; symbol ";"; ows; token_p ~> to_lower >> set_first; symbol "=";
      alternatives parameter_value ].

Definition params_with_value_p : producer parameter_with_mandatory_value_container_t :=
  produce [] [ repeat_ 0 N [ param_with_value_p >> to_container ] ].

Definition param_with_opt_value_p : producer parameter_with_optional_value_t :=
  produce ([], None)
    [ ows; symbol ";"; ows; token_p ~> to_lower >> set_first;
      maybe [ symbol "="; alternatives [ token_p >> set_opt_second; quoted_string_p >> set_opt_second ] ] ].

Definition params_with_opt_value_p : producer parameter_with_optional_value_container_t :=
  produce [] [ repeat_ 0 N [ param_with_opt_value_p >> to_container ] ].

(** ** Safety *)

Lemma span_loop_safe f n s acc :
  wf s -> let '(v, _, s') := span_loop f n s acc in
  m_data s' = m_data s /\ (m_index s <= m_index s' <= length (m_data s))%nat /\
  (length v - length acc = m_index s' - m_index s)%nat /\ (length acc <= length v)%nat.
Proof.
  revert s acc. induction n as [|n IH]; intros s acc Hw; cbn [span_loop];
    [unfold wf in Hw; split_and!; by (done || lia)|].
  destruct (getch s) as [[c|] s1] eqn:Hc;
    [|apply getch_none in Hc as [-> _]; unfold wf in Hw; split_and!; by (done || lia)].
  apply getch_some in Hc as (-> & _ & Hlt & Hpb). rewrite Hpb.
  destruct (f c); [|unfold wf in Hw; split_and!; by (done || lia)].
  specialize (IH (Source (m_data s) (S (m_index s))) (acc ++ [c]) Hlt).
  destruct (span_loop _ _ _ _) as [[v b] s']. rewrite length_app in IH. cbn in IH.
  destruct IH as (-> & ? & ? & ?). split_and!; by (done || lia).
Qed.

#[global] Instance safe_ows_p : SafeProducer ows_p.
Proof.
  intros s Hw. unfold ows_p. pose proof (span_loop_safe is_space (remaining s) s [] Hw) as Hl.
  destruct (span_loop _ _ _ _) as [[v b] s']. destruct Hl as (? & ? & _). by constructor; cbn; try lia.
Qed.

#[global] Instance safe_token_p : SafeProducer token_p.
Proof.
  intros s Hw. unfold token_p. pose proof (span_loop_safe is_token_char (remaining s) s [] Hw) as Hl.
  destruct (span_loop _ _ _ _) as [[v b] s']. destruct Hl as (? & ? & _).
  destruct v; constructor; cbn; try done; lia.
Qed.

#[global] Instance productive_token_p : ProductiveProducer token_p.
Proof.
  intros s a s' Hw. unfold token_p. pose proof (span_loop_safe is_token_char (remaining s) s [] Hw) as Hl.
  destruct (span_loop _ _ _ _) as [[v b] s1]. destruct Hl as (_ & _ & Hn & _).
  destruct v; [done|]. intros [= _ <-]. cbn in Hn. lia.
Qed.

Lemma quoted_loop_safe n s acc :
  wf s -> let '(_, s') := quoted_loop n s acc in
  m_data s' = m_data s /\ (m_index s <= m_index s' <= length (m_data s))%nat.
Proof.
  revert s acc. induction n as [|n IH]; intros s acc Hw; cbn [quoted_loop]; [by unfold wf in Hw|].
  destruct (getch s) as [[c|] s1] eqn:Hc; [|apply getch_none in Hc as [-> _]; by unfold wf in Hw].
  apply getch_some in Hc as (-> & _ & Hlt & Hpb). rewrite Hpb.
  assert (Hrec : forall s2 acc, m_data s2 = m_data s -> (m_index s < m_index s2 <= length (m_data s))%nat ->
    let '(_, s') := quoted_loop n s2 acc in
    m_data s' = m_data s /\ (m_index s <= m_index s' <= length (m_data s))%nat).
  { intros s2 acc2 Hd Hi. specialize (IH s2 acc2). destruct (quoted_loop n s2 acc2) as [r s'].
    destruct IH as [-> Hi']; [unfold wf; rewrite Hd; lia|]. rewrite Hd in *. split; [done|lia]. }
  destruct (Byte.eqb x22 c); [cbn; split; [done|lia]|].
  destruct (Byte.eqb x5c c).
  - destruct (getch (Source _ _)) as [[c'|] s2] eqn:Hc'.
    + apply getch_some in Hc' as (-> & _ & Hlt' & Hpb'). cbn in Hlt'.
      destruct (is_quotable c'); [apply Hrec; cbn; [done|lia]|]. rewrite Hpb'. cbn. split; [done|lia].
    + apply getch_none in Hc' as [-> _]. cbn. split; [done|lia].
  - destruct (is_qdtext c); [apply Hrec; cbn; [done|lia]|]. unfold wf in Hw. split; [done|lia].
Qed.

#[global] Instance safe_quoted_string_p : SafeProducer quoted_string_p.
Proof.
  intros s Hw. unfold quoted_string_p. destruct (getch s) as [[c|] s1] eqn:Hc.
  - apply getch_some in Hc as (-> & _ & Hlt & _).
    destruct (Byte.eqb x22 c); [|rewrite backto_start by done; by apply good_fail].
    set (s1 := Source (m_data s) (S (m_index s))).
    pose proof (quoted_loop_safe (remaining s1) s1 [] Hlt) as Hl.
    destruct (quoted_loop _ _ _) as [[r|v] s']; destruct Hl as [Hd Hi]; cbn in Hd, Hi |- *.
    + rewrite backto_start by done. apply good_refl; [done|]. cbn. lia.
    + constructor; cbn; by (done || lia).
  - apply getch_none in Hc as [-> _]. rewrite backto_start by done. by apply good_fail.
Qed.

#[global] Instance productive_quoted_string_p : ProductiveProducer quoted_string_p.
Proof.
  intros s a s' Hw. unfold quoted_string_p. destruct (getch s) as [[c|] s1] eqn:Hc; [|done].
  apply getch_some in Hc as (-> & _ & Hlt & _). destruct (Byte.eqb x22 c); [|done].
  set (s1 := Source (m_data s) (S (m_index s))). pose proof (quoted_loop_safe (remaining s1) s1 [] Hlt) as Hl.
  destruct (quoted_loop _ _ _) as [[r|v] s2]; [done|]. destruct Hl as [_ Hi]. intros [= _ <-]. cbn in Hi. lia.
Qed.

#[global] Instance safe_quoted_pair_p : SafeProducer quoted_pair_p.
Proof.
  intros s Hw. unfold quoted_pair_p. destruct (getch s) as [[c|] s1] eqn:Hc.
  - apply getch_some in Hc as (-> & _ & Hlt & _). destruct (Byte.eqb x5c c).
    + destruct (getch _) as [[c'|] s2] eqn:Hc'.
      * apply getch_some in Hc' as (-> & _ & Hlt' & _). cbn in Hlt'. destruct (is_quotable c').
        -- constructor; cbn; by (done || lia).
        -- rewrite backto_start by done. apply good_refl; [done|]. cbn. lia.
      * apply getch_none in Hc' as [-> _]. rewrite backto_start by done. apply good_refl; [done|]. cbn. lia.
    + rewrite backto_start by done. apply good_refl; [done|]. cbn. lia.
  - apply getch_none in Hc as [-> _]. rewrite backto_start by done. by apply good_fail.
Qed.

#[global] Instance productive_quoted_pair_p : ProductiveProducer quoted_pair_p.
Proof.
  intros s a s' Hw. unfold quoted_pair_p. destruct (getch s) as [[c|] s1] eqn:Hc; [|done].
  apply getch_some in Hc as (-> & _ & Hlt & _). destruct (Byte.eqb x5c c); [|done].
  destruct (getch _) as [[c'|] s2] eqn:Hc'; [|done]. apply getch_some in Hc' as (-> & _ & _ & _).
  destruct (is_quotable c'); [|done]. intros [= _ <-]. cbn. lia.
Qed.

#[global] Hint Extern 1 (SafeProducer _) => progress unfold alpha_symbol_p, alphanum_symbol_p,
  vchar_symbol_p, ctext_symbol_p, token_symbol_p : typeclass_instances.
#[global] Hint Extern 1 (ProductiveProducer _) => progress unfold alpha_symbol_p, alphanum_symbol_p,
  vchar_symbol_p, ctext_symbol_p, token_symbol_p : typeclass_instances.

#[global] Instance safe_ows {T} : SafeClause (ows (T := T)).
Proof. unfold ows. apply _. Qed.

#[global] Instance productive_comment_level inner : SafeProducer inner -> ProductiveProducer inner -> ProductiveProducer (comment_level inner).
Proof. intros. unfold comment_level. apply _. Qed.

#[global] Instance safe_comment_level inner : SafeProducer inner -> ProductiveProducer inner -> SafeProducer (comment_level inner).
Proof. intros. unfold comment_level. apply _. Qed.

Lemma comment_levels_safe n : SafeProducer (comment_levels n) /\ ProductiveProducer (comment_levels n).
Proof.
  induction n as [|n [IH1 IH2]]; cbn [comment_levels]; [|split; apply _].
  split; [intros s Hw; by apply good_fail|done].
Qed.

#[global] Instance safe_comment_p : SafeProducer comment_p.
Proof. intros s Hw. unfold comment_p. by apply comment_levels_safe. Qed.
#[global] Instance productive_comment_p : ProductiveProducer comment_p.
Proof. intros s a s' Hw. unfold comment_p. by apply comment_levels_safe. Qed.

(** *** The levels of a comment are enough *)

(** Positions of [s] or behind it. *)
Definition behind (s s' : source_t) : Prop :=
  m_data s' = m_data s /\ (m_index s <= m_index s')%nat /\ wf s'.

Lemma good_behind {A} s0 s (r : expected A) s' : behind s0 s -> good s r s' -> behind s0 s'.
Proof.
  intros (Hd & Hi & _) Hg. split_and!; [|destruct Hg; lia|by eapply good_wf].
  destruct Hg. congruence.
Qed.

Lemma repeat_loop_ext {T} (cs ds : list (clause T)) s0 endless n count s t :
  SafeClauses cs -> (forall s t, behind s0 s -> all_of cs s t = all_of ds s t) -> behind s0 s ->
  repeat_loop cs endless n count s t = repeat_loop ds endless n count s t.
Proof.
  intros Hs He. revert count s t. induction n as [|n IH]; intros count s t Hb; [done|].
  cbn [repeat_loop]. pose proof (Hs s t (proj2 (proj2 Hb))) as Hg. rewrite <- He by done.
  destruct (all_of cs s t) as [[[[]|e|a] s'] t']; [|done..]. cbn in Hg.
  apply IH. by eapply good_behind.
Qed.

Lemma any_of_ext {T} s (t : T) (cs ds : list (clause T)) :
  wf s -> SafeEach cs -> Forall2 (fun c d => c s t = d s t) cs ds -> any_of cs s t = any_of ds s t.
Proof.
  intros Hw Hs He. unfold SafeEach in Hs. induction He as [|c d cs ds Hc He IH]; [done|].
  apply Forall_cons_1 in Hs as [Hsc Hs]. pose proof (Hsc s t Hw) as Hg. cbn [any_of]. rewrite <- Hc.
  destruct (c s t) as [[[[]|e|a] s'] t']; [done| |done]. cbn in Hg.
  rewrite (good_backto s (Unexpected (A := unit) e) s') by done. destruct (decide _); [done|]. by apply IH.
Qed.

(** An inner producer is used behind the opening parenthesis only. *)
Lemma comment_level_ext inner inner' s :
  SafeProducer inner -> ProductiveProducer inner -> wf s ->
  (forall s', behind s s' -> (m_index s < m_index s')%nat -> inner s' = inner' s') ->
  comment_level inner s = comment_level inner' s.
Proof.
  intros Hs Hp Hw He. unfold comment_level, produce, produce_with, sequence. cbn [all_of].
  assert (Hsym : SafeClause (symbol (T := list byte) "(")) by apply _.
  pose proof (Hsym s [] Hw) as Hg.
  destruct (symbol (T := list byte) "(" s []) as [[[[]|e|a] s1] t1] eqn:Hq; [|done..]. cbn in Hg.
  assert (Hlt : (m_index s < m_index s1)%nat).
  { assert (Hpr : ProductiveClause (symbol (T := list byte) "(")) by apply _. by eapply Hpr. }
  assert (Hb : behind s1 s1) by (split_and!; [done|lia|by eapply good_wf]).
  unfold repeat_ at 1 2.
  rewrite (repeat_loop_ext _ [ alternatives [ ctext_symbol_p >> to_container; quoted_pair_p >> to_container;
    inner' >> custom_consumer (fun dest what => dest ++ what) ] ] s1);
    [done|apply _| |done].
  intros s2 t2 (Hd2 & Hi2 & Hw2). cbn [all_of]. unfold alternatives.
  rewrite (any_of_ext s2 t2 _ [ ctext_symbol_p >> to_container; quoted_pair_p >> to_container;
    inner' >> custom_consumer (fun dest what => dest ++ what) ]); [done|done|apply _|].
  repeat constructor. unfold consume_value. rewrite He; [done| |lia].
  split_and!; [by rewrite Hd2; destruct Hg|lia|done].
Qed.

Lemma comment_enough_levels n m s :
  wf s -> (remaining s < n)%nat -> (remaining s < m)%nat -> comment_levels n s = comment_levels m s.
Proof.
  revert m s. induction n as [|n IH]; intros [|m] s Hw Hn Hm; try lia. cbn [comment_levels].
  apply comment_level_ext; [apply comment_levels_safe..|done|].
  intros s' (Hd & Hi & Hw') Hlt. pose proof (remaining_less s s' Hd Hlt) as Hr.
  unfold wf in Hw'. rewrite Hd in Hw'. specialize (Hr Hw'). apply IH; [unfold wf; by rewrite Hd|lia|lia].
Qed.

(** The producer is the recursion the code writes down. *)
Lemma comment_p_unfold s : wf s -> comment_p s = comment_level comment_p s.
Proof.
  intros Hw. unfold comment_p at 1. cbn [comment_levels].
  apply comment_level_ext; [apply comment_levels_safe..|done|].
  intros s' (Hd & Hi & Hw') Hlt. unfold comment_p. pose proof (remaining_less s s' Hd Hlt) as Hr.
  pose proof Hw' as Hw2. unfold wf in Hw2. rewrite Hd in Hw2. specialize (Hr Hw2).
  apply comment_enough_levels; [done|lia|lia].
Qed.

#[global] Instance safe_qvalue_p : SafeProducer qvalue_p.
Proof.
  assert (Hd : SafeProducer qvalue_digits) by (unfold qvalue_digits, digit_consumer; apply _).
  intros s Hw. specialize (Hd s Hw). unfold qvalue_p. destruct (qvalue_digits s) as [[v|e|a] s'];
    cbn in Hd |- *; by destruct Hd.
Qed.
#[global] Instance productive_qvalue_p : ProductiveProducer qvalue_p.
Proof.
  assert (Hd : ProductiveProducer qvalue_digits) by (unfold qvalue_digits, digit_consumer; apply _).
  intros s a s' Hw. specialize (Hd s). unfold qvalue_p. destruct (qvalue_digits s) as [[v|e|b] s1];
    [|done..]. intros [= _ <-]. by eapply Hd.
Qed.

#[global] Instance safe_weight_p : SafeProducer weight_p.
Proof. unfold weight_p. apply _. Qed.
#[global] Instance productive_weight_p : ProductiveProducer weight_p.
Proof. unfold weight_p. apply _. Qed.

#[global] Instance safe_run_clause {A} (c : clause (list A)) : SafeClause c -> SafeProducer (run_clause c).
Proof.
  intros Hc s Hw. specialize (Hc s [] Hw). unfold run_clause. destruct (c s []) as [[[u|e|a] s'] t];
    cbn in Hc |- *; by destruct Hc.
Qed.

#[global] Instance safe_non_empty_list {A} (e : producer A) :
  SafeProducer e -> SafeProducer (non_empty_comma_separated_list_p e).
Proof. intros. unfold non_empty_comma_separated_list_p. apply _. Qed.
#[global] Instance safe_maybe_empty_list {A} (e : producer A) :
  SafeProducer e -> SafeProducer (maybe_empty_comma_separated_list_p e).
Proof. intros. unfold maybe_empty_comma_separated_list_p. apply _. Qed.

#[global] Hint Extern 1 (SafeConsumer _) => progress unfold set_first, set_second, set_opt_second,
  digit_consumer : typeclass_instances.

#[global] Instance safe_expected_token_p t : SafeProducer (expected_token_p t).
Proof. unfold expected_token_p. apply _. Qed.
#[global] Instance safe_expected_caseless_token_p t : SafeProducer (expected_caseless_token_p t).
Proof. unfold expected_caseless_token_p. apply _. Qed.

#[global] Instance safe_param_with_value_p : SafeProducer param_with_value_p.
Proof. unfold param_with_value_p, parameter_value. apply _. Qed.
#[global] Instance productive_param_with_value_p : ProductiveProducer param_with_value_p.
Proof. unfold param_with_value_p, parameter_value. apply _. Qed.
#[global] Instance safe_params_with_value_p : SafeProducer params_with_value_p.
Proof. unfold params_with_value_p. apply _. Qed.
#[global] Instance safe_param_with_opt_value_p : SafeProducer param_with_opt_value_p.
Proof. unfold param_with_opt_value_p. apply _. Qed.
#[global] Instance productive_param_with_opt_value_p : ProductiveProducer param_with_opt_value_p.
Proof. unfold param_with_opt_value_p. apply _. Qed.
#[global] Instance safe_params_with_opt_value_p : SafeProducer params_with_opt_value_p.
Proof. unfold params_with_opt_value_p. apply _. Qed.

End Basics.
