(* ===== verification/FieldReads.v ===== *)
(** * What the building blocks of field values read

    Reading rules for the producers of [FieldBasics], and the printed forms they
    read back: tokens, quoted strings, quality values, parameters and
    comma-separated lists over an arbitrary element. *)

From S2P Require Import Prelude HttpFields HttpResponse EasyParser ParserReads FieldBasics.

Module FieldReads.
Import Caseless Parser ParserLaws Reads Basics.
#[local] Open Scope parser_scope.

(** ** Spans: white space and tokens *)

Lemma span_loop_stops f n pre u rest acc :
  forallb f u = true -> stops f rest -> (length (u ++ rest) <= n)%nat ->
  span_loop f n (at_ pre (u ++ rest)) acc
  = (acc ++ u, bool_decide (rest = []), at_ (pre ++ u) rest).
Proof.
  revert n pre acc. induction u as [|c u IH]; intros n pre acc Hu Hs Hn.
  - cbn [app]. rewrite !app_nil_r. destruct n as [|n]; cbn [span_loop].
    { destruct rest; [done|cbn in Hn; lia]. }
    destruct rest as [|c rest]; [by rewrite getch_nil|].
    rewrite getch_cons, putback_at. cbn in Hs. by rewrite Hs.
  - cbn in Hn. destruct n as [|n]; [lia|]. cbn [forallb] in Hu. apply andb_true_iff in Hu as [Hc Hu].
    cbn [app span_loop]. rewrite getch_cons, Hc, IH by (done || lia). by rewrite <- !app_assoc.
Qed.

Lemma span_loop_reads f n pre u rest acc :
  forallb f u = true -> stops f rest -> (length (u ++ rest) <= n)%nat ->
  exists b, span_loop f n (at_ pre (u ++ rest)) acc = (acc ++ u, b, at_ (pre ++ u) rest).
Proof. intros Hu Hs Hn. eexists. by apply span_loop_stops. Qed.

Lemma reads_ows {T} (t : T) u : forallb is_space u = true -> reads_c ows t u t (stops is_space).
Proof.
  intros Hu pre rest Hs. unfold ows, consume_value, ows_p. rewrite remaining_at.
  by destruct (span_loop_reads is_space _ pre u rest [] Hu Hs (le_n _)) as [b ->].
Qed.

Lemma reads_token u :
  u <> [] -> forallb is_token_char u = true -> reads token_p u u (stops is_token_char).
Proof.
  intros Hne Hu pre rest Hs. unfold token_p. rewrite remaining_at.
  destruct (span_loop_reads is_token_char _ pre u rest [] Hu Hs (le_n _)) as [b ->].
  by destruct u.
Qed.

Lemma refuses_token : refuses token_p (stops is_token_char).
Proof.
  intros pre rest Hs. unfold token_p. rewrite remaining_at.
  destruct (span_loop_reads is_token_char _ pre [] rest [] eq_refl Hs (le_n _)) as [b Hb].
  cbn [app] in Hb. rewrite Hb. destruct b; cbn; auto.
Qed.

(** A clause that needs a separator refuses a rest without one. *)
Lemma refuses_separator {T} c (cs : list (clause T)) :
  refuses_all (ows :: symbol c :: cs) (stops (fun x => is_space x || Byte.eqb c x)).
Proof.
  eapply (refuses_all_weaken _ (fun r => stops is_space r /\ stops (Byte.eqb c) r)).
  - apply (refuses_tail_empty _ _ id).
    + intros t. eapply reads_c_weaken; [by apply reads_ows|]. by intros r [].
    + eapply refuses_all_weaken; [apply refuses_head, refuses_symbol|]. by intros r [].
  - intros [|x r]; [done|]. cbn. rewrite orb_false_iff. done.
Qed.

Lemma leaves_separator {T} c (cs : list (clause T)) :
  leaves (ows :: symbol c :: cs) (stops (fun x => is_space x || Byte.eqb c x)).
Proof.
  intros pre rest t Hs. cbn [all_of].
  assert (Hs' : stops is_space rest /\ stops (Byte.eqb c) rest)
    by (destruct rest; [done|]; cbn in Hs; by apply orb_false_iff in Hs).
  pose proof (reads_ows t [] eq_refl pre rest (proj1 Hs')) as Ho. cbn [app] in Ho.
  rewrite Ho. destruct (refuses_symbol_if (Byte.eqb c) (pre ++ []) rest (proj2 Hs')) as (e & He & _).
  unfold symbol, consume_value, symbol_p. destruct (symbol_if _ _) as [r s']. cbn in He. by subst r.
Qed.

(** ** Quoted strings *)

Definition escape_char (c : byte) : list byte :=
  if Byte.eqb x22 c || Byte.eqb x5c c then [x5c; c] else [c].
Definition quote (v : list byte) : list byte := x22 :: concat (escape_char <$> v) ++ [x22].

Lemma quotable_plain c :
  is_quotable c = true -> Byte.eqb x22 c || Byte.eqb x5c c = false -> is_qdtext c = true.
Proof.
  intros Hq Hp.
  assert (Hall : byte_all (fun c => implb (is_quotable c && negb (Byte.eqb x22 c || Byte.eqb x5c c))
    (is_qdtext c)) = true) by (vm_compute; reflexivity).
  pose proof (byte_all_true _ Hall c) as Hc. cbn beta in Hc. by rewrite Hq, Hp in Hc.
Qed.

Lemma quoted_loop_reads n pre v rest acc :
  forallb is_quotable v = true -> (length (concat (escape_char <$> v) ++ x22 :: rest) <= n)%nat ->
  quoted_loop n (at_ pre (concat (escape_char <$> v) ++ x22 :: rest)) acc
  = (inr (acc ++ v), at_ (pre ++ concat (escape_char <$> v) ++ [x22]) rest).
Proof.
  revert n pre acc. induction v as [|c v IH]; intros n pre acc Hv Hn.
  - cbn [fmap list_fmap concat app] in *. destruct n as [|n]; [cbn in Hn; lia|].
    cbn [quoted_loop]. rewrite getch_cons, byte_eqb_refl. by rewrite app_nil_r.
  - cbn [forallb] in Hv. apply andb_true_iff in Hv as [Hc Hv].
    cbn [fmap list_fmap concat] in *. rewrite <- app_assoc in *. destruct n as [|n]; [rewrite length_app in Hn; unfold escape_char in Hn; destruct (_ || _); cbn in Hn; lia|].
    rewrite length_app in Hn. unfold escape_char at 1 3. unfold escape_char at 1 in Hn.
    destruct (Byte.eqb x22 c || Byte.eqb x5c c) eqn:He.
    + cbn [length] in Hn. cbn [app quoted_loop]. rewrite getch_cons.
      change (Byte.eqb x22 x5c) with false. rewrite byte_eqb_refl, getch_cons, Hc.
      rewrite IH by (done || lia). by rewrite <- !app_assoc.
    + cbn [length] in Hn. cbn [app quoted_loop]. rewrite getch_cons.
      pose proof (quotable_plain c Hc He) as Hp. pose proof (proj1 (orb_false_iff (Byte.eqb x22 c) (Byte.eqb x5c c)) He) as [Hq Hb].
      rewrite Hq, Hb, Hp. rewrite IH by (done || lia). by rewrite <- !app_assoc.
Qed.

Lemma reads_quoted v : forallb is_quotable v = true -> reads quoted_string_p (quote v) v anything.
Proof.
  intros Hv pre rest _. unfold quoted_string_p, quote. cbn [app].
  rewrite getch_cons, byte_eqb_refl, remaining_at, <- app_assoc. cbn [app].
  rewrite quoted_loop_reads by (done || lia). cbn [app]. by rewrite <- !app_assoc.
Qed.

Lemma refuses_quoted : refuses quoted_string_p (stops (Byte.eqb x22)).
Proof.
  intros pre [|c rest] Hs; unfold quoted_string_p; [rewrite getch_nil; cbn; auto|].
  rewrite getch_cons. cbn [stops] in Hs. rewrite Hs. cbn. auto.
Qed.

(** ** Quality values *)

Definition qdigit (d : Z) : byte := b8 (0x30 + d).

Lemma qdigit_is_digit d : 0 <= d <= 9 -> is_digit (qdigit d) = true /\ u8 (qdigit d) - 0x30 = d.
Proof. intros Hd. unfold is_digit, in_range, qdigit. rewrite u8_b8_small by lia. lia. Qed.

Lemma reads_qdigit m d t :
  0 <= d <= 9 -> 0 <= t -> 0 <= m -> t + m * d < 2 ^ 16 ->
  reads_c (digit_p >> digit_consumer m) t [qdigit d] (t + m * d) anything.
Proof.
  intros Hd Ht Hm Hb. destruct (qdigit_is_digit d Hd) as [Hi Hu].
  eapply reads_consume; [by apply reads_symbol_if|]. unfold digit_consumer, custom_consumer.
  rewrite Hu. unfold wrap. rewrite (Z.mod_small d), (Z.mod_small (t + m * d)) by nia. done.
Qed.

(** The rules for clauses that read something and go on. *)
Lemma reads_cons_any {T} (c : clause T) cs t u t1 us t2 F :
  reads_c c t u t1 anything -> reads_all cs t1 us t2 F -> reads_all (c :: cs) t (u ++ us) t2 F.
Proof. intros Hc Hcs. by eapply reads_cons. Qed.

Lemma reads_single {T} (c : clause T) t u t1 F : reads_c c t u t1 F -> reads_all [c] t u t1 F.
Proof.
  intros Hc. rewrite <- (app_nil_r u). eapply reads_cons; [exact Hc|apply reads_nil|done].
Qed.

Lemma reads_qvalue_digits d1 d2 d3 :
  0 <= d1 <= 9 -> 0 <= d2 <= 9 -> 0 <= d3 <= 9 ->
  reads qvalue_digits [x30; x2e; qdigit d1; qdigit d2; qdigit d3] (100 * d1 + 10 * d2 + d3) anything.
Proof.
  intros H1 H2 H3. apply reads_produce, reads_single, reads_first, reads_sequence.
  apply (reads_cons_any _ _ _ [x30] 0 [_; _; _; _]); [apply reads_symbol|].
  apply reads_single, reads_maybe.
  apply (reads_cons_any _ _ _ [x2e] 0 [_; _; _]); [apply reads_symbol|].
  apply reads_single, reads_maybe.
  apply (reads_cons_any _ _ _ [_] (0 + 100 * d1) [_; _]); [apply reads_qdigit; lia|].
  apply reads_single, reads_maybe.
  apply (reads_cons_any _ _ _ [_] (0 + 100 * d1 + 10 * d2) [_]); [apply reads_qdigit; lia|].
  apply reads_single, reads_maybe, reads_single.
  replace (100 * d1 + 10 * d2 + d3) with (0 + 100 * d1 + 10 * d2 + 1 * d3) by lia.
  apply reads_qdigit; lia.
Qed.

Lemma reads_qvalue_one : reads qvalue_digits (bs "1.000") 1000 anything.
Proof.
  apply reads_produce, reads_single. eapply (reads_other _ _ _ _ _ anything (stops (Byte.eqb x30))).
  - apply _.
  - apply refuses_sequence, refuses_head, refuses_symbol.
  - done.
  - apply reads_first, reads_sequence.
    apply (reads_cons_any _ _ _ [x31] 1000 (bs ".000")).
    { eapply reads_consume; [by apply reads_symbol_if|done]. }
    apply reads_single, reads_maybe.
    apply (reads_cons_any _ _ _ [x2e] 1000 (bs "000")); [apply reads_symbol|].
    apply reads_single, reads_maybe.
    apply (reads_cons_any _ _ _ [x30] 1000 (bs "00")); [apply reads_symbol|].
    apply reads_single, reads_maybe.
    apply (reads_cons_any _ _ _ [x30] 1000 (bs "0")); [apply reads_symbol|].
    apply reads_single, reads_maybe, reads_single, reads_symbol.
Qed.

Lemma qvalue_p_reads u v F : 0 <= v < 2 ^ 16 -> reads qvalue_digits u v F -> reads qvalue_p u (QValue v) F.
Proof.
  intros Hv Hr pre rest HF. unfold qvalue_p. rewrite Hr by done. unfold trusted, wrap.
  by rewrite Z.mod_small.
Qed.

Definition qvalue_ok (q : qvalue_t) : Prop := 0 <= as_uint q <= 1000.

Lemma reads_qvalue q : qvalue_ok q -> reads qvalue_p (as_string q) q anything.
Proof.
  destruct q as [v]. unfold qvalue_ok, as_string. cbn [as_uint]. intros Hv.
  unfold qvalue_maximum. destruct (Z.eqb_spec 1000 v) as [<-|Hne].
  - apply qvalue_p_reads; [lia|]. apply reads_qvalue_one.
  - apply qvalue_p_reads; [lia|]. cbv zeta.
    replace v with (100 * (v / 100) + 10 * (v mod 100 / 10) + v mod 100 mod 10) at 4
      by (Z.to_euclidean_division_equations; lia).
    apply reads_qvalue_digits; Z.to_euclidean_division_equations; lia.
Qed.

(** ** Weights *)

Definition print_weight (q : qvalue_t) : list byte := bs ";q=" ++ as_string q.

Lemma reads_weight q : qvalue_ok q -> reads weight_p (print_weight q) q anything.
Proof.
  intros Hq. apply reads_produce. unfold print_weight.
  eapply (reads_cons ows _ _ []); [by apply reads_ows|..].
  - eapply (reads_cons_any _ _ _ [_]); [apply reads_symbol|].
    eapply (reads_cons ows _ _ []); [by apply reads_ows|..].
    + eapply (reads_cons_any (caseless_symbol _) _ _ [x71]);
        [eapply reads_consume; [by apply reads_symbol_if|done]|].
      eapply (reads_cons_any _ _ _ [_]); [apply reads_symbol|].
      apply reads_single. eapply reads_consume; [by apply reads_qvalue|done].
    + done.
  - done.
Qed.

Lemma refuses_weight : refuses weight_p (stops (fun x => is_space x || Byte.eqb x3b x)).
Proof. apply refuses_produce, refuses_separator. Qed.

(** ** Parameters *)

Definition is_token (u : list byte) : bool := negb (bool_decide (u = [])) && forallb is_token_char u.
Definition is_lower (u : list byte) : bool := forallb (fun c => Byte.eqb (to_lower_case c) c) u.

Lemma is_token_ok u : is_token u = true -> u <> [] /\ forallb is_token_char u = true.
Proof. unfold is_token. rewrite andb_true_iff, negb_true_iff, bool_decide_eq_false. done. Qed.

Lemma is_lower_ok u : is_lower u = true -> to_lower_case <$> u = u.
Proof.
  induction u as [|c u IH]; [done|]. cbn [is_lower forallb]. rewrite andb_true_iff, byte_eqb_eq.
  intros [Hc Hu]. rewrite fmap_cons, Hc. by rewrite IH.
Qed.

Lemma reads_token_consume {T} (c : consumer T (list byte)) t u t' :
  is_token u = true -> c t u = Ok t' -> reads_c (token_p >> c) t u t' (stops is_token_char).
Proof. intros [Hn Hu]%is_token_ok Hc. eapply reads_consume; [by apply reads_token|done]. Qed.

Lemma reads_lower_token {T} (c : consumer T (list byte)) t u t' :
  is_token u = true -> is_lower u = true -> c t u = Ok t' ->
  reads_c (token_p ~> to_lower >> c) t u t' (stops is_token_char).
Proof.
  intros [Hn Hu]%is_token_ok Hl%is_lower_ok Hc.
  eapply reads_consume; [|done]. eapply reads_transform; [by apply reads_token|].
  unfold to_lower. by rewrite Hl.
Qed.

(** Elements collected one after the other. *)
Lemma items_collect {A} (element : producer A) (print : A -> list byte) xs acc F :
  (forall x, In x xs -> reads element (print x) x anything) ->
  items [element >> to_container] F acc (print <$> xs) (acc ++ xs).
Proof.
  revert acc. induction xs as [|x xs IH]; intros acc Hr; [rewrite app_nil_r; constructor|].
  cbn [fmap list_fmap]. eapply items_cons.
  - apply reads_single. eapply reads_consume; [apply Hr; by left|reflexivity].
  - done.
  - rewrite (cons_middle x acc xs), app_assoc. apply IH. intros y Hy. apply Hr. by right.
Qed.

Lemma concat_singletons (u : list byte) : concat ((fun c => [c]) <$> u) = u.
Proof. induction u as [|c u IH]; [done|]. cbn. by rewrite IH. Qed.

Lemma reads_repeat_chars f min u t :
  forallb f u = true -> (min <= length u)%nat ->
  reads_c (repeat_ min N [symbol_if f >> to_container]) t u (t ++ u) (stops f).
Proof.
  intros Hu Hm. rewrite <- (concat_singletons u) at 1. apply reads_repeat_N; [apply _|..].
  - apply (items_collect (symbol_if f) (fun c => [c])). intros c Hc.
    apply reads_symbol_if. by eapply forallb_forall in Hu.
  - apply refuses_head, refuses_consume, refuses_symbol_if.
  - apply leaves_head, refuses_symbol_if.
  - by apply Forall_fmap, Forall_true.
  - by rewrite length_fmap.
Qed.

Lemma reads_one_space {T} (t : T) : reads_c (repeat_ 1 N [space]) t [SP] t (stops is_space).
Proof.
  apply (reads_repeat_N _ _ _ _ [[SP]]); [apply _|..].
  - eapply items_cons; [apply reads_single; eapply reads_consume; [by apply reads_symbol_if|done]|done|constructor].
  - apply refuses_head, refuses_consume, refuses_symbol_if.
  - apply leaves_head, refuses_symbol_if.
  - by repeat constructor.
  - cbn. lia.
Qed.

Definition param_ok (p : parameter_with_mandatory_value_t) : bool :=
  is_token p.1 && is_lower p.1 && forallb is_quotable p.2.
Definition print_param (p : parameter_with_mandatory_value_t) : list byte :=
  bs "; " ++ p.1 ++ bs "=" ++ quote p.2.
Definition print_params (ps : parameter_with_mandatory_value_container_t) : list byte :=
  concat (print_param <$> ps).

Lemma quoted_starts v r : stops is_token_char (quote v ++ r).
Proof. done. Qed.

Lemma token_no_space u r : is_token u = true -> stops is_space (u ++ r).
Proof.
  intros [Hn Hu]%is_token_ok. destruct u as [|c u]; [done|]. cbn [forallb] in Hu.
  apply andb_true_iff in Hu as [Hc _]. cbn [app stops].
  assert (Hall : byte_all (fun c => implb (is_token_char c) (negb (is_space c))) = true)
    by (vm_compute; reflexivity).
  pose proof (byte_all_true _ Hall c) as Hx. cbn beta in Hx. rewrite Hc in Hx. by apply negb_true_iff.
Qed.

Lemma reads_param p : param_ok p = true -> reads param_with_value_p (print_param p) p anything.
Proof.
  destruct p as [n v]. unfold param_ok, print_param. cbn [fst snd].
  rewrite !andb_true_iff. intros [[Hn Hl] Hv]. apply reads_produce.
  eapply (reads_cons ows _ _ []); [by apply reads_ows| |done].
  eapply (reads_cons_any _ _ _ [_]); [apply reads_symbol|].
  eapply (reads_cons ows _ _ [SP]); [by apply reads_ows| |].
  - eapply reads_cons; [by apply (reads_lower_token _ _ _ (n, []))| |].
    + eapply (reads_cons_any _ _ _ [_]); [apply reads_symbol|]. apply reads_single.
      eapply reads_other; [apply _|apply refuses_consume, refuses_token|..].
      * intros r _. apply quoted_starts.
      * apply reads_first. by eapply reads_consume; [apply reads_quoted|].
    + done.
  - intros r _. rewrite <- app_assoc. by apply token_no_space.
Qed.

Definition no_param (r : list byte) : Prop := stops (fun x => is_space x || Byte.eqb x3b x) r.

Lemma reads_params ps :
  forallb param_ok ps = true -> reads params_with_value_p (print_params ps) ps no_param.
Proof.
  intros Hps. apply reads_produce, reads_single, (reads_repeat_N _ _ _ _ (print_param <$> ps)).
  - apply _.
  - apply (items_collect param_with_value_p print_param ps []). intros p Hp.
    apply reads_param. by eapply forallb_forall in Hps.
  - apply refuses_head, refuses_consume, refuses_produce, refuses_separator.
  - apply leaves_head, refuses_produce, refuses_separator.
  - apply Forall_fmap, Forall_true. done.
  - lia.
Qed.

(** ** Comma-separated lists *)

Section CommaList.
Context {A : Type} (element : producer A) (print : A -> list byte) (ok : A -> Prop).
Context `{!SafeProducer element} `{!ProductiveProducer element}.

(** What may follow an element, and how the text of one begins. *)
Definition list_end (r : list byte) : Prop := match r with [] => True | c :: _ => c = x2c end.
Definition item_start (u : list byte) : Prop :=
  match u with [] => False | c :: _ => is_space c = false /\ c <> x2c end.

Hypothesis reads_element : forall x, ok x -> reads element (print x) x list_end.
Hypothesis starts_element : forall x, ok x -> item_start (print x).

Definition print_list (xs : list A) : list byte :=
  match xs with
  | [] => []
  | x :: xs => print x ++ concat ((fun x => bs ", " ++ print x) <$> xs)
  end.

Let more : list (clause (list A)) :=
  [ ows; symbol x2c; maybe [ ows; element >> to_container ] ].

Lemma item_start_app u r : item_start u -> stops is_space (u ++ r) /\ stops (Byte.eqb x2c) (u ++ r).
Proof.
  destruct u as [|c u]; [done|]. intros [Hs Hc]. split; [exact Hs|]. cbn [app stops].
  apply byte_eqb_neq. congruence.
Qed.

Lemma reads_more acc x : ok x -> reads_all more acc (bs ", " ++ print x) (acc ++ [x]) list_end.
Proof.
  intros Hx. eapply (reads_cons ows _ _ []); [by apply reads_ows| |done].
  eapply (reads_cons_any _ _ _ [_]); [apply reads_symbol|]. apply reads_single, reads_maybe.
  eapply (reads_cons ows _ _ [SP]); [by apply reads_ows| |].
  - apply reads_single. eapply reads_consume; [by apply reads_element|done].
  - intros r _. by apply item_start_app, starts_element.
Qed.

Lemma list_end_more xs (r : list byte) : r = [] -> list_end (concat ((fun x => bs ", " ++ print x) <$> xs) ++ r).
Proof. intros ->. by destruct xs. Qed.

Lemma items_more acc xs :
  Forall ok xs -> items more (fun r => r = []) acc ((fun x => bs ", " ++ print x) <$> xs) (acc ++ xs).
Proof.
  intros Hxs. revert acc. induction Hxs as [|x xs Hx _ IH]; intros acc; [rewrite app_nil_r; constructor|].
  cbn [fmap list_fmap]. eapply items_cons; [by apply reads_more|intros r Hr; by apply list_end_more|].
  rewrite (cons_middle x acc xs), app_assoc. apply IH.
Qed.

Lemma reads_tail acc xs :
  Forall ok xs ->
  reads_c (repeat_ 0 N more) acc (concat ((fun x => bs ", " ++ print x) <$> xs)) (acc ++ xs) (fun r => r = []).
Proof.
  intros Hxs. apply reads_repeat_N; [apply _|by apply items_more|..].
  - eapply refuses_all_weaken; [apply refuses_separator|]. by intros r ->.
  - intros pre rest t ->. by apply leaves_separator.
  - apply Forall_fmap, Forall_true. done.
  - lia.
Qed.

Lemma run_clause_reads {B} (c : clause (list B)) u xs F : reads_c c [] u xs F -> reads (run_clause c) u xs F.
Proof. intros Hc pre rest HF. unfold run_clause. by rewrite Hc. Qed.

(** A list printed with commas is read back. *)
Lemma reads_non_empty_list x xs :
  Forall ok (x :: xs) ->
  reads (non_empty_comma_separated_list_p element) (print_list (x :: xs)) (x :: xs) (fun r => r = []).
Proof.
  intros [Hx Hxs]%Forall_cons_1. apply run_clause_reads, reads_sequence. unfold print_list.
  eapply (reads_cons _ _ _ []).
  - apply (reads_repeat_N _ _ (stops (Byte.eqb x2c)) _ []).
    + apply _.
    + constructor.
    + apply refuses_head, refuses_symbol.
    + apply leaves_symbol.
    + done.
    + done.
  - eapply reads_cons; [eapply reads_consume; [by apply reads_element|done]|..].
    + apply reads_single, (reads_tail [x] xs Hxs).
    + intros r Hr. by apply list_end_more.
  - intros r _. rewrite <- app_assoc. by apply item_start_app, starts_element.
Qed.

Lemma reads_maybe_empty_list xs :
  refuses element (fun r => r = []) -> Forall ok xs ->
  reads (maybe_empty_comma_separated_list_p element) (print_list xs) xs (fun r => r = []).
Proof.
  intros Hr Hxs. apply run_clause_reads. destruct xs as [|x xs].
  - apply skips_maybe; [apply _|]. apply refuses_head, refuses_alternatives; [apply _| |].
    { eapply refuses_c_weaken; [apply refuses_symbol|]. by intros r ->. }
    apply refuses_alternatives; [apply _|by apply refuses_consume|apply refuses_alternatives_nil].
  - apply Forall_cons_1 in Hxs as [Hx Hxs]. apply reads_maybe. unfold print_list. eapply reads_cons.
    + eapply reads_other; [apply _|apply refuses_symbol|..].
      * intros r Hend. instantiate (1 := list_end) in Hend. by apply item_start_app, starts_element.
      * apply reads_first. eapply reads_consume; [by apply reads_element|done].
    + apply reads_single, (reads_tail [x] xs Hxs).
    + intros r Hend. by apply list_end_more.
Qed.

(** What ends a printed list ends its last element. *)
Lemma print_list_end xs l c :
  Forall ok xs -> (forall x l c, ok x -> print x = l ++ [c] -> is_space c = false) ->
  print_list xs = l ++ [c] -> is_space c = false.
Proof.
  intros Hxs Hend. destruct xs as [|x xs]; [by destruct l|]. apply Forall_cons_1 in Hxs as [Hx Hxs].
  unfold print_list. revert l. induction xs as [|y xs _] using rev_ind; intros l.
  - cbn. rewrite app_nil_r. by apply Hend.
  - rewrite fmap_app, concat_app. cbn [fmap list_fmap concat]. rewrite app_nil_r.
    apply Forall_app in Hxs as [_ Hy]. apply Forall_cons_1 in Hy as [Hy _].
    pose proof (starts_element y Hy) as Hst. pose proof (Hend y) as Hy'.
    destruct (print y) as [|d u _] using rev_ind; [done|].
    rewrite !app_assoc. intros [_ ->]%app_inj_tail. by eapply Hy'.
Qed.

End CommaList.

End FieldReads.
