(* ===== verification/ParserEcho.v ===== *)
(** * Grammars that collect what they read

    Many grammars of the field parsers put every character they read into a
    string.  For those the value is the text between the position before and
    the position after; the classes below derive that from the clauses. *)

From S2P Require Import Prelude HttpFields EasyParser ParserReads FieldBasics.

Module Echo.
Import Parser ParserLaws Reads Basics.
#[local] Open Scope parser_scope.

(** The octets between two positions of a stream. *)
Definition text (s s' : source_t) : list byte :=
  take (m_index s' - m_index s) (drop (m_index s) (m_data s)).

Class EchoSymbol (p : producer byte) : Prop :=
  echo_symbol : forall s c s', wf s -> p s = (Value c, s') -> [c] = text s s'.
Class EchoProducer (p : producer (list byte)) : Prop :=
  echo_producer : forall s v s', wf s -> p s = (Value v, s') -> v = text s s'.
Class EchoClause (c : clause (list byte)) : Prop :=
  echo_clause : forall s t s' t', wf s -> c s t = (Value tt, s', t') -> t' = t ++ text s s'.
Class EchoClauses (cs : list (clause (list byte))) : Prop :=
  echo_clauses : forall s t s' t', wf s -> all_of cs s t = (Value tt, s', t') -> t' = t ++ text s s'.
Class EchoEach (cs : list (clause (list byte))) : Prop := echo_each : Forall EchoClause cs.

(** A clause that fails leaves the target as it was. *)
Class AtomicClause {T} (c : clause T) : Prop :=
  atomic_clause : forall s t e s' t', c s t = (Unexpected e, s', t') -> t' = t.

Lemma text_same s : text s s = [].
Proof. unfold text. by rewrite Nat.sub_diag. Qed.

Lemma text_trans s s' s'' :
  m_data s' = m_data s -> (m_index s <= m_index s')%nat -> (m_index s' <= m_index s'')%nat ->
  text s s'' = text s s' ++ text s' s''.
Proof.
  intros Hd H1 H2. unfold text. rewrite Hd.
  replace (m_index s'' - m_index s)%nat
    with ((m_index s' - m_index s) + (m_index s'' - m_index s'))%nat by lia.
  replace (drop (m_index s') (m_data s))
    with (drop (m_index s' - m_index s) (drop (m_index s) (m_data s)))
    by (rewrite drop_drop; f_equal; lia).
  generalize (drop (m_index s) (m_data s)) as l. generalize (m_index s'' - m_index s')%nat as n.
  generalize (m_index s' - m_index s)%nat as m. clear. intros m. induction m as [|m IH]; intros n l; [done|].
  destruct l as [|c l]; [by rewrite take_nil, drop_nil, !take_nil|]. cbn. f_equal. apply IH.
Qed.

Lemma text_step s c s' :
  getch s = (Some c, s') -> text s s' = [c].
Proof.
  intros (-> & Hc & _)%getch_some. unfold text. cbn [m_index m_data].
  replace (S (m_index s) - m_index s)%nat with 1%nat by lia.
  by rewrite (drop_S _ _ _ Hc).
Qed.

(** ** Leaves *)

#[global] Instance echo_symbol_if f : EchoSymbol (symbol_if f).
Proof.
  intros s c s' Hw. unfold symbol_if. destruct (getch s) as [[d|] s1] eqn:Hc; [|done].
  destruct (f d); [|done]. intros [= -> <-]. symmetry. by apply text_step.
Qed.

Lemma fragment_loop_text frag s s' :
  wf s -> fragment_loop Byte.eqb frag s = (None, s') -> text s s' = frag.
Proof.
  revert s. induction frag as [|b frag IH]; intros s Hw; cbn [fragment_loop].
  { intros [= <-]. apply text_same. }
  destruct (getch s) as [[c|] s1] eqn:Hc; [|done].
  destruct (Byte.eqb c b) eqn:He; [|done]. apply byte_eqb_eq in He as ->. intros Hl.
  pose proof (text_step s b s1 Hc) as Ht. apply getch_some in Hc as (-> & _ & Hlt & _).
  pose proof (fragment_loop_safe Byte.eqb frag (Source (m_data s) (S (m_index s))) Hlt) as Hs.
  rewrite Hl in Hs. destruct Hs as (_ & _ & Hi & _). cbn in Hi.
  rewrite (text_trans s (Source (m_data s) (S (m_index s)))); [|done|cbn; lia|done].
  rewrite Ht, IH; done.
Qed.

#[global] Instance echo_exact frag : EchoProducer (exact_p frag ~> just frag).
Proof.
  intros s v s' Hw. unfold transform, exact_p, try_parse_fragment.
  destruct (fragment_loop _ _ _) as [[r|] s1] eqn:Hl; [done|]. cbn. intros [= <- <-].
  symmetry. by apply fragment_loop_text.
Qed.

(** ** Clauses *)

#[global] Instance echo_to_container p : EchoSymbol p -> EchoClause (p >> to_container).
Proof.
  intros Hp s t s' t' Hw. unfold consume_value. destruct (p s) as [[c|e|a] s1] eqn:Hs; [|done..].
  cbn. intros [= <- <-]. by rewrite (Hp s c s1).
Qed.

#[global] Instance echo_to_container_string p : EchoProducer p -> EchoClause (p >> to_container_string).
Proof.
  intros Hp s t s' t' Hw. unfold consume_value. destruct (p s) as [[c|e|a] s1] eqn:Hs; [|done..].
  cbn. intros [= <- <-]. by rewrite (Hp s c s1).
Qed.

#[global] Instance echo_append p : EchoProducer p -> EchoClause (p >> custom_consumer (fun t v => t ++ v)).
Proof. apply echo_to_container_string. Qed.

#[global] Instance echo_clauses_nil : EchoClauses [].
Proof. intros s t s' t' Hw. intros [= <- <-]. by rewrite text_same, app_nil_r. Qed.

#[global] Instance echo_clauses_cons c cs :
  SafeClause c -> SafeClauses cs -> EchoClause c -> EchoClauses cs -> EchoClauses (c :: cs).
Proof.
  intros Hs Hss Hc Hcs s t s' t' Hw (s1 & t1 & H1 & H2)%all_of_cons_inv.
  pose proof (Hs s t Hw) as Hg. rewrite H1 in Hg. cbn in Hg. pose proof (good_wf _ _ _ Hg) as Hw1.
  pose proof (Hss s1 t1 Hw1) as Hg1. rewrite H2 in Hg1. cbn in Hg1.
  rewrite (Hcs s1 t1 s' t' Hw1 H2), (Hc s t s1 t1 Hw H1), <- app_assoc. f_equal.
  destruct Hg, Hg1. symmetry. by apply text_trans.
Qed.

#[global] Instance echo_each_nil : EchoEach [].
Proof. constructor. Qed.
#[global] Instance echo_each_cons c cs : EchoClause c -> EchoEach cs -> EchoEach (c :: cs).
Proof. by constructor. Qed.

#[global] Instance echo_sequence cs : EchoClauses cs -> EchoClause (sequence cs).
Proof.
  intros Hc s t s' t' Hw. unfold sequence. destruct (all_of cs s t) as [[[[]|e|a] s1] t1] eqn:Ha; [|done..].
  intros [= <- <-]. by eapply Hc.
Qed.

#[global] Instance echo_maybe cs : SafeClauses cs -> EchoClauses cs -> EchoClause (maybe cs).
Proof.
  intros Hs Hc s t s' t' Hw. unfold maybe. pose proof (Hs s t Hw) as Hg.
  destruct (all_of cs s t) as [[[[]|e|a] s1] t1] eqn:Ha; [intros [= <- <-]; by eapply Hc| |done].
  rewrite (good_backto s _ s1 Hw Hg). intros [= <- <-]. by rewrite text_same, app_nil_r.
Qed.

#[global] Instance echo_not cs : SafeClauses cs -> EchoClause (not_clause cs).
Proof.
  intros Hs s t s' t' Hw. unfold not_clause. pose proof (Hs s inhabitant Hw) as Hg.
  destruct (all_of cs s inhabitant) as [[[[]|e|a] s1] t1] eqn:Ha; [done| |done].
  rewrite (good_backto s _ s1 Hw Hg). intros [= <- <-]. by rewrite text_same, app_nil_r.
Qed.

Lemma any_of_echo cs s t s' t' :
  SafeEach cs -> EchoEach cs -> wf s -> any_of cs s t = (Value true, s', t') -> t' = t ++ text s s'.
Proof.
  intros Hss Hes Hw. unfold SafeEach in Hss. induction Hes as [|c cs Hc Hes IH]; [done|].
  apply Forall_cons_1 in Hss as [Hs Hss]. cbn [any_of]. pose proof (Hs s t Hw) as Hg.
  destruct (c s t) as [[[[]|e|a] s1] t1] eqn:Hr; cbn in Hg; [intros [= <- <-]; by eapply Hc| |done].
  rewrite (good_backto s _ s1 Hw Hg). destruct (decide _); [done|]. by apply IH.
Qed.

#[global] Instance echo_alternatives cs : SafeEach cs -> EchoEach cs -> EchoClause (alternatives cs).
Proof.
  intros Hs He s t s' t' Hw. unfold alternatives.
  destruct (any_of cs s t) as [[[[]|e|a] s1] t1] eqn:Ha; [|done..]. intros [= <- <-].
  by eapply any_of_echo.
Qed.

#[global] Instance echo_produce cs : EchoClauses cs -> EchoProducer (produce [] cs).
Proof.
  intros Hc s v s' Hw. unfold produce, produce_with.
  destruct (all_of cs s []) as [[[[]|e|a] s1] t1] eqn:Ha; [|done..]. intros [= <- <-].
  by rewrite (Hc s [] s1 t1).
Qed.

(** An alternative that replaces the target, as the last of two, at the start. *)
#[global] Instance echo_produce_or c p :
  SafeClause c -> EchoClause c -> EchoProducer p ->
  EchoProducer (produce [] [ alternatives [ c; p >> as_result ] ]).
Proof.
  intros Hs Hc Hp s v s' Hw. unfold produce, produce_with, alternatives. cbn [all_of any_of].
  pose proof (Hs s [] Hw) as Hg. destruct (c s []) as [[[[]|e|a] s1] t1] eqn:Hr; cbn in Hg; [| |done].
  - intros [= <- <-]. by rewrite (Hc s [] s1 t1).
  - rewrite (good_backto s _ s1 Hw Hg). destruct (decide _); [done|]. unfold consume_value.
    destruct (p s) as [[w|e'|a] s2] eqn:Hq; cbn; [|by destruct (decide _)|done].
    intros [= <- <-]. by apply Hp.
Qed.

(** ** Repetition *)

#[global] Instance atomic_consume {T A} (p : producer A) (c : consumer T A) : AtomicClause (p >> c).
Proof.
  intros s t e s' t'. unfold consume_value. destruct (p s) as [[a|e'|a] s1]; [by destruct (c t a)|congruence|done].
Qed.
#[global] Instance atomic_sequence {T} (cs : list (clause T)) : AtomicClause (sequence cs).
Proof.
  intros s t e s' t'. unfold sequence. destruct (all_of cs s t) as [[[u|e'|a] s1] t1]; congruence.
Qed.
#[global] Instance atomic_alternatives {T} (cs : list (clause T)) : AtomicClause (alternatives cs).
Proof.
  intros s t e s' t'. unfold alternatives.
  assert (Hk : forall b s1 t1, any_of cs s t = (Value b, s1, t1) -> b = true \/ t1 = t).
  { revert s. induction cs as [|c cs IH]; intros s b s1 t1; cbn [any_of]; [intros [= <- _ <-]; by right|].
    destruct (c s t) as [[[u|e'|a] s2] t2]; [intros [= <- _ _]; by left| |done].
    destruct (decide _); [intros [= <- _ <-]; by right|]. apply IH. }
  assert (Hn : forall e' s1 t1, any_of cs s t <> (Unexpected e', s1, t1)).
  { clear Hk. revert s. induction cs as [|c cs IH]; intros s e' s1 t1; cbn [any_of]; [done|].
    destruct (c s t) as [[[u|e2|a] s2] t2]; [done| |done]. destruct (decide _); [done|]. apply IH. }
  destruct (any_of cs s t) as [[[[]|e'|a] s1] t1] eqn:Ha; [done| |by destruct (Hn e' s1 t1)|done].
  intros [= _ _ <-]. by destruct (Hk false s1 t1 eq_refl).
Qed.

Lemma repeat_loop_echo c endless n count s t k s' t' :
  SafeClause c -> EchoClause c -> AtomicClause c -> wf s ->
  repeat_loop [c] endless n count s t = (Value k, s', t') ->
  t' = t ++ text s s' /\ m_data s' = m_data s /\ (m_index s <= m_index s')%nat.
Proof.
  intros Hs He Ha. revert count s t. induction n as [|n IH]; intros count s t Hw; cbn [repeat_loop].
  { destruct endless; [done|]. intros [= _ <- <-]. by rewrite text_same, app_nil_r. }
  cbn [all_of]. pose proof (Hs s t Hw) as Hg. destruct (c s t) as [[[[]|e|a] s1] t1] eqn:Hc; cbn in Hg; [| |done].
  - intros Hr. destruct (IH _ _ _ (good_wf _ _ _ Hg) Hr) as (-> & Hd & Hi). destruct Hg.
    rewrite (He s t s1 t1 Hw Hc), <- app_assoc, (text_trans s s1 s') by done.
    split_and!; [done|congruence|lia].
  - rewrite (good_backto s _ s1 Hw Hg), (Ha _ _ _ _ _ Hc). intros [= _ <- <-].
    by rewrite text_same, app_nil_r.
Qed.

#[global] Instance echo_repeat min max c :
  SafeClause c -> EchoClause c -> AtomicClause c -> EchoClause (repeat_ min max [c]).
Proof.
  intros Hs He Ha s t s' t' Hw. unfold repeat_.
  destruct (match max with Upto n => _ | N => _ end) as [[[k|e|a] s1] t1] eqn:Hr; [|done..].
  destruct (min <=? k)%nat; [|done]. intros [= <- <-].
  by destruct max; eapply repeat_loop_echo in Hr as (-> & _).
Qed.

(** ** What a success comes from *)

Lemma consume_inv {T A} (p : producer A) (c : consumer T A) s t s' t' :
  (p >> c) s t = (Value tt, s', t') -> exists a, p s = (Value a, s') /\ c t a = Ok t'.
Proof.
  unfold consume_value. destruct (p s) as [[a|e|a] s1]; [|done..].
  destruct (c t a) eqn:Hc; [|done]. intros [= <- <-]. eauto.
Qed.

Lemma transform_inv {A B} (p : producer A) (f : A -> transformed B) s b s' :
  (p ~> f) s = (Value b, s') -> exists a, p s = (Value a, s') /\ f a = Transformed b.
Proof.
  unfold transform. destruct (p s) as [[a|e|a] s1]; [|done..].
  destruct (f a) eqn:Hf; [|done..]. intros [= <- <-]. eauto.
Qed.

Lemma produce_inv {R} (init : R) cs s r s' :
  produce init cs s = (Value r, s') -> all_of cs s init = (Value tt, s', r).
Proof.
  unfold produce, produce_with. destruct (all_of cs s init) as [[[[]|e|a] s1] t1]; [|done..].
  by intros [= <- <-].
Qed.

Lemma all_of_single_inv {T} (c : clause T) s t s' t' :
  all_of [c] s t = (Value tt, s', t') -> c s t = (Value tt, s', t').
Proof. intros (s1 & t1 & Hc & [= <- <-])%all_of_cons_inv. done. Qed.

Lemma maybe_inv {T} (cs : list (clause T)) s t s' t' :
  SafeClauses cs -> wf s -> maybe cs s t = (Value tt, s', t') ->
  all_of cs s t = (Value tt, s', t') \/ (s' = s /\ t' = t).
Proof.
  intros Hs Hw. unfold maybe. pose proof (Hs s t Hw) as Hg.
  destruct (all_of cs s t) as [[[[]|e|a] s1] t1]; [intros [= <- <-]; by left| |done].
  rewrite (good_backto s _ s1 Hw Hg). intros [= <- <-]. by right.
Qed.

Lemma alternatives_inv {T} (cs : list (clause T)) s t s' t' :
  SafeEach cs -> wf s -> alternatives cs s t = (Value tt, s', t') ->
  Exists (fun c => c s t = (Value tt, s', t')) cs.
Proof.
  intros Hss Hw. unfold alternatives. destruct (any_of cs s t) as [[[[]|e|a] s1] t1] eqn:Ha; [|done..].
  intros [= <- <-]. unfold SafeEach in Hss. induction Hss as [|c cs Hs Hss IH]; [done|].
  cbn [any_of] in Ha. pose proof (Hs s t Hw) as Hg.
  destruct (c s t) as [[[[]|e|a] s2] t2] eqn:Hc; cbn in Hg; [simplify_eq; by left| |done].
  rewrite (good_backto s _ s2 Hw Hg) in Ha. destruct (decide _); [done|]. right. by apply IH.
Qed.

Lemma symbol_inv {T} b s (t : T) s' t' :
  wf s -> symbol b s t = (Value tt, s', t') ->
  t' = t /\ text s s' = [b] /\ m_data s' = m_data s /\ m_index s' = S (m_index s) /\ wf s'.
Proof.
  intros Hw (c & Hc & [= <-])%consume_inv. unfold symbol_p, symbol_if in Hc.
  destruct (getch s) as [[d|] s1] eqn:Hg; [|done]. destruct (Byte.eqb b d) eqn:He; [|done].
  apply byte_eqb_eq in He as <-. injection Hc as _ <-. pose proof (text_step _ _ _ Hg) as Ht.
  apply getch_some in Hg as (-> & _ & Hlt & _). done.
Qed.

(** *** The top level *)

Lemma remove_trailing_spaces_last l r c : remove_trailing_spaces l = r ++ [c] -> is_space c = false.
Proof.
  unfold remove_trailing_spaces. generalize (rev l) as l'. intros l' Hl.
  apply (f_equal (@rev byte)) in Hl. rewrite rev_involutive, rev_app_distr in Hl. cbn in Hl.
  induction l' as [|d l' IH]; [done|]. cbn in Hl. destruct (is_space d) eqn:Hd; [by apply IH|congruence].
Qed.

(** A successful parse has read the whole text but its trailing spaces. *)
Lemma try_parse_inv {A} (p : producer A) what v :
  SafeProducer p -> try_parse what p = Value v ->
  exists s', p (make_source (remove_trailing_spaces what)) = (Value v, s') /\ wf s' /\
    text (make_source (remove_trailing_spaces what)) s' = remove_trailing_spaces what.
Proof.
  intros Hs. unfold try_parse. pose proof (remove_trailing_spaces_last what) as Hl.
  set (l := remove_trailing_spaces what) in *.
  assert (Hw : wf (make_source l)) by (unfold wf; cbn; lia). pose proof (Hs _ Hw) as Hg.
  destruct (p (make_source l)) as [[a|e|a] s']; [|done..]. cbn in Hg.
  destruct (ensure_no_remaining_content s') as [e|] eqn:He; [done|]. intros [= ->]. exists s'.
  split_and!; [done|by eapply good_wf|]. destruct Hg. unfold text. cbn in *. rewrite Nat.sub_0_r.
  destruct (decide (m_index s' = length l)) as [->|Hne]; [by rewrite take_ge|]. exfalso.
  unfold ensure_no_remaining_content in He. rewrite good_data0 in He.
  assert (Hall : forall r n, no_remaining_content r n = None -> forallb is_space r = true).
  { clear. induction r as [|c r IH]; intros n; [done|]. cbn. destruct (is_space c); [|done]. apply IH. }
  apply Hall in He. rewrite <- (take_drop (m_index s') l) in Hl.
  destruct (drop (m_index s') l) as [|c r _] eqn:Hd using rev_ind.
  { apply (f_equal length) in Hd. rewrite length_drop in Hd. cbn in Hd. lia. }
  rewrite app_assoc in Hl. specialize (Hl _ _ eq_refl). rewrite forallb_app in He. cbn in He.
  rewrite Hl, andb_false_r in He. done.
Qed.

(** The named symbols are the template. *)
#[global] Hint Extern 1 (EchoSymbol _) => progress unfold any_symbol_p, symbol_p, any_symbol_if_not_p,
  caseless_symbol_p, symbol_from_range_p, space_p, digit_p, hexdigit_p, alpha_symbol_p,
  alphanum_symbol_p, vchar_symbol_p : typeclass_instances.

End Echo.
