(* ===== verification/ParserKeeps.v ===== *)
(** * Type invariants of parsed values

    [Yields p P]: every value a producer gives satisfies [P]; [Keeps c I]: a
    clause keeps the invariant [I] of its target, when it fails too, because a
    repetition goes on with what a failed round left.  The classes derive both
    from the parts of a grammar. *)

From S2P Require Import Prelude HttpFields EasyParser ParserReads FieldBasics.

Module Keeps.
Import Parser ParserLaws Reads Basics.
#[local] Open Scope parser_scope.

Class Yields {A} (p : producer A) (P : A -> Prop) : Prop :=
  yields : forall s a s', wf s -> p s = (Value a, s') -> P a.
Class Keeps {T} (c : clause T) (I : T -> Prop) : Prop :=
  keeps : forall s t, wf s -> I t -> I (c s t).2.
Class KeepsAll {T} (cs : list (clause T)) (I : T -> Prop) : Prop :=
  keeps_all : forall s t, wf s -> I t -> I (all_of cs s t).2.
Class KeepsEach {T} (cs : list (clause T)) (I : T -> Prop) : Prop :=
  keeps_each : Forall (fun c => Keeps c I) cs.
Class ConsumerKeeps {T A} (c : consumer T A) (P : A -> Prop) (I : T -> Prop) : Prop :=
  consumer_keeps : forall t a t', I t -> P a -> c t a = Ok t' -> I t'.

#[global] Instance keeps_nil {T} (I : T -> Prop) : KeepsAll [] I.
Proof. by intros s t _ Ht. Qed.

#[global] Instance keeps_cons {T} (c : clause T) cs I :
  SafeClause c -> Keeps c I -> KeepsAll cs I -> KeepsAll (c :: cs) I.
Proof.
  intros Hs Hc Hcs s t Hw Ht. cbn [all_of]. pose proof (Hs s t Hw) as Hg. pose proof (Hc s t Hw Ht) as Ht1.
  destruct (c s t) as [[[u|e|a] s1] t1]; cbn in *; [|done..]. apply Hcs; [by eapply good_wf|done].
Qed.

#[global] Instance keeps_each_nil {T} (I : T -> Prop) : KeepsEach [] I.
Proof. constructor. Qed.
#[global] Instance keeps_each_cons {T} (c : clause T) cs I : Keeps c I -> KeepsEach cs I -> KeepsEach (c :: cs) I.
Proof. by constructor. Qed.

#[global] Instance keeps_consume {T A} (p : producer A) (c : consumer T A) P I :
  Yields p P -> ConsumerKeeps c P I -> Keeps (p >> c) I.
Proof.
  intros Hp Hc s t Hw Ht. unfold consume_value. destruct (p s) as [[a|e|a] s1] eqn:Hs; [|done..].
  destruct (c t a) eqn:Ha; [|done]. cbn. eapply Hc; [done|by eapply Hp|done].
Qed.

#[global] Instance keeps_sequence {T} (cs : list (clause T)) I : KeepsAll cs I -> Keeps (sequence cs) I.
Proof.
  intros Hc s t Hw Ht. specialize (Hc s t Hw Ht). unfold sequence.
  by destruct (all_of cs s t) as [[[u|e|a] s1] t1].
Qed.

#[global] Instance keeps_maybe {T} (cs : list (clause T)) I : KeepsAll cs I -> Keeps (maybe cs) I.
Proof.
  intros Hc s t Hw Ht. specialize (Hc s t Hw Ht). unfold maybe.
  by destruct (all_of cs s t) as [[[u|e|a] s1] t1].
Qed.

#[global] Instance keeps_not {T} `{Inhabited T} (cs : list (clause T)) I : Keeps (not_clause cs) I.
Proof. intros s t Hw Ht. unfold not_clause. by destruct (all_of cs s _) as [[[u|e|a] s1] t1]. Qed.

Lemma any_of_keeps {T} (cs : list (clause T)) I s t :
  SafeEach cs -> KeepsEach cs I -> wf s -> I t -> I (any_of cs s t).2.
Proof.
  intros Hss Hks Hw Ht. unfold SafeEach in Hss. induction Hks as [|c cs Hc Hcs IH]; [done|].
  apply Forall_cons_1 in Hss as [Hs Hss]. cbn [any_of]. pose proof (Hs s t Hw) as Hg.
  pose proof (Hc s t Hw Ht) as Ht1. destruct (c s t) as [[[u|e|a] s1] t1]; cbn in *; [done| |done].
  rewrite (good_backto s (Unexpected (A := unit) e) s1) by done. destruct (decide _); [done|]. by apply IH.
Qed.

#[global] Instance keeps_alternatives {T} (cs : list (clause T)) I :
  SafeEach cs -> KeepsEach cs I -> Keeps (alternatives cs) I.
Proof.
  intros Hs Hk s t Hw Ht. pose proof (any_of_keeps cs I s t Hs Hk Hw Ht) as Ht1. unfold alternatives.
  by destruct (any_of cs s t) as [[[[]|e|a] s1] t1].
Qed.

Lemma repeat_loop_keeps {T} (cs : list (clause T)) I endless n count s t :
  SafeClauses cs -> KeepsAll cs I -> wf s -> I t -> I (repeat_loop cs endless n count s t).2.
Proof.
  intros Hs Hk. revert count s t. induction n as [|n IH]; intros count s t Hw Ht; cbn [repeat_loop]; [done|].
  pose proof (Hs s t Hw) as Hg. pose proof (Hk s t Hw Ht) as Ht1.
  destruct (all_of cs s t) as [[[u|e|a] s1] t1]; cbn in *; [|done..]. apply IH; [by eapply good_wf|done].
Qed.

#[global] Instance keeps_repeat {T} min max (cs : list (clause T)) I :
  SafeClauses cs -> KeepsAll cs I -> Keeps (repeat_ min max cs) I.
Proof.
  intros Hs Hk s t Hw Ht. unfold repeat_.
  assert (Hr : forall endless n, I (repeat_loop cs endless n 0 s t).2)
    by (intros; by apply repeat_loop_keeps).
  destruct max as [n|].
  - specialize (Hr false n). destruct (repeat_loop _ _ _ _ _ _) as [[[k|e|a] s1] t1]; [|done..].
    by destruct (min <=? k)%nat.
  - specialize (Hr true (S (remaining s))). destruct (repeat_loop _ _ _ _ _ _) as [[[k|e|a] s1] t1]; [|done..].
    by destruct (min <=? k)%nat.
Qed.

Lemma yields_produce {R} (init : R) cs (I : R -> Prop) : I init -> KeepsAll cs I -> Yields (produce init cs) I.
Proof.
  intros Hi Hk s r s' Hw. specialize (Hk s init Hw Hi). unfold produce, produce_with.
  destruct (all_of cs s init) as [[[u|e|a] s1] t1]; [|done..]. by intros [= <- _].
Qed.

#[global] Instance yields_any {A} (p : producer A) : Yields p (fun _ => True) | 100.
Proof. done. Qed.
#[global] Instance yields_produce_true {R} (init : R) cs : Yields (produce init cs) (fun _ => True) | 90.
Proof. done. Qed.

#[global] Instance keeps_skip {T A} I : ConsumerKeeps (skip (T := T) (A := A)) (fun _ => True) I.
Proof. by intros t a t' Ht _ [= <-]. Qed.
#[global] Instance keeps_as_result {A} (P : A -> Prop) : ConsumerKeeps as_result P P.
Proof. by intros t a t' _ Ha [= <-]. Qed.
#[global] Instance keeps_to_container {A} (P : A -> Prop) : ConsumerKeeps to_container P (Forall P).
Proof. intros t a t' Ht Ha [= <-]. apply Forall_app. by split; [|constructor]. Qed.
Lemma keeps_custom {T A} (f : T -> A -> T) (P : A -> Prop) (I : T -> Prop) :
  (forall t a, I t -> P a -> I (f t a)) -> ConsumerKeeps (custom_consumer f) P I.
Proof. intros Hf t a t' Ht Ha [= <-]. by apply Hf. Qed.

#[global] Instance keeps_ows {T} (I : T -> Prop) : Keeps ows I.
Proof. unfold ows. apply (keeps_consume _ _ (fun _ => True) I); apply _. Qed.
#[global] Instance keeps_symbol {T} c (I : T -> Prop) : Keeps (symbol c) I.
Proof. unfold symbol. apply (keeps_consume _ _ (fun _ => True) I); apply _. Qed.

(** The elements of a list come from the producer of the elements. *)
Lemma run_clause_yields {A} (c : clause (list A)) (P : A -> Prop) :
  Keeps c (Forall P) -> Yields (run_clause c) (Forall P).
Proof.
  intros Hk s l s' Hw. unfold run_clause. specialize (Hk s [] Hw (Forall_nil_2 _)).
  destruct (c s []) as [[[u|e|a] s1] t1]; [|done..]. by intros [= <- _].
Qed.

Lemma keeps_append {A} (e : producer A) (P : A -> Prop) : Yields e P -> Keeps (e >> to_container) (Forall P).
Proof. intros He. eapply keeps_consume; [exact He|apply _]. Qed.

#[global] Instance yields_non_empty_list {A} (e : producer A) (P : A -> Prop) :
  SafeProducer e -> Yields e P -> Yields (non_empty_comma_separated_list_p e) (Forall P).
Proof.
  intros Hs He. apply run_clause_yields. pose proof (keeps_append e P He). apply _.
Qed.

#[global] Instance yields_maybe_empty_list {A} (e : producer A) (P : A -> Prop) :
  SafeProducer e -> Yields e P -> Yields (maybe_empty_comma_separated_list_p e) (Forall P).
Proof.
  intros Hs He. apply run_clause_yields. pose proof (keeps_append e P He). apply _.
Qed.

Lemma try_parse_yields {A} (p : producer A) (P : A -> Prop) what v :
  Yields p P -> try_parse what p = Value v -> P v.
Proof.
  intros Hy. unfold try_parse. assert (Hw : wf (make_source (remove_trailing_spaces what))) by (unfold wf; cbn; lia).
  pose proof (fun v s' => Hy _ v s' Hw) as Hp. destruct (p _) as [[a|e|a] s']; [|done..].
  destruct (ensure_no_remaining_content s'); [done|]. intros [= <-]. by eapply Hp.
Qed.

End Keeps.
