(* ===== verification/FieldValues.v ===== *)
(** * The values of HTTP fields

    Model of the headers of src/web/restinio/restinio/helpers/http_field_parsers/
    that parse one field each: media types, Accept, Accept-Charset,
    Accept-Encoding, Accept-Language, Content-Type, Content-Encoding, Connection,
    Cache-Control, User-Agent, Transfer-Encoding, Range and Content-Disposition,
    and of try_parse_field.hpp.  Every grammar is written clause by clause as the
    source writes it; a setter [&item_t::field] is a consumer that changes one
    field of the target. *)

From S2P Require Import Prelude HttpFields HttpHeaders HttpResponse FromString EasyParser ParserReads ParserNumbers FieldBasics.

Module FieldValues.
Import Caseless Parser ParserLaws Reads Numbers Basics.
#[local] Open Scope parser_scope.

(** ** media-type.hpp *)

Record media_type_value_t := MediaType {
  type : list byte;
  subtype : list byte;
  parameters : parameter_with_mandatory_value_container_t
}.

Definition no_media_type : media_type_value_t := MediaType [] [] [].

Definition set_type : consumer media_type_value_t (list byte) :=
  custom_consumer (fun t v => MediaType v (subtype t) (parameters t)).
Definition set_subtype : consumer media_type_value_t (list byte) :=
  custom_consumer (fun t v => MediaType (type t) v (parameters t)).
Definition set_parameters : consumer media_type_value_t parameter_with_mandatory_value_container_t :=
  custom_consumer (fun t v => MediaType (type t) (subtype t) v).

Definition media_type_default_parser : producer media_type_value_t :=
  produce no_media_type
    [ token_p ~> to_lower >> set_type; symbol "/"; token_p ~> to_lower >> set_subtype;
      params_with_value_p >> set_parameters ].

(** A parameter of a media type in [Accept], where a weight ends them. *)
Definition unweighted_param_p : producer parameter_with_mandatory_value_t :=
  produce ([], [])
    [ not_clause [ weight_p >> skip ];
      ows; symbol ";"; ows; token_p ~> to_lower >> set_first; symbol "=";
      alternatives parameter_value ].

Definition media_type_weight_aware_parser : producer media_type_value_t :=
  produce no_media_type
    [ token_p ~> to_lower >> set_type; symbol "/"; token_p ~> to_lower >> set_subtype;
      produce [] [ repeat_ 0 N [ unweighted_param_p >> to_container ] ] >> set_parameters ].

Definition media_type_try_parse (what : list byte) : expected media_type_value_t :=
  try_parse what media_type_default_parser.

(** ** accept.hpp *)

Record accept_item_t := AcceptItem {
  media_type : media_type_value_t;
  weight : option qvalue_t;
  accept_params : parameter_with_optional_value_container_t
}.

(** The only field of a value is its list of items. *)
Definition accept_value_t : Type := list accept_item_t.

Definition accept_item_p : producer accept_item_t :=
  produce (AcceptItem no_media_type None [])
    [ media_type_weight_aware_parser
        >> custom_consumer (fun t v => AcceptItem v (weight t) (accept_params t));
      maybe
        [ weight_p >> custom_consumer (fun t v => AcceptItem (media_type t) (Some v) (accept_params t));
          params_with_opt_value_p
            >> custom_consumer (fun t v => AcceptItem (media_type t) (weight t) v) ] ].

Definition accept_parser : producer accept_value_t :=
  produce [] [ maybe_empty_comma_separated_list_p accept_item_p >> as_result ].
Definition accept_try_parse (what : list byte) : expected accept_value_t := try_parse what accept_parser.

(** ** accept-charset.hpp, accept-encoding.hpp, accept-language.hpp *)

(** Items of the three fields: a name and a weight that is 1.000 by default. *)
Record weighted_item_t := WeightedItem { item_name : list byte; item_weight : qvalue_t }.

Definition no_item : weighted_item_t := WeightedItem [] qvalue_max.
Definition set_item_name : consumer weighted_item_t (list byte) :=
  custom_consumer (fun t v => WeightedItem v (item_weight t)).
Definition set_item_weight : consumer weighted_item_t qvalue_t :=
  custom_consumer (fun t v => WeightedItem (item_name t) v).

Definition accept_charset_item_p : producer weighted_item_t :=
  produce no_item [ token_p ~> to_lower >> set_item_name; maybe [ weight_p >> set_item_weight ] ].
Definition accept_charset_parser : producer (list weighted_item_t) :=
  produce [] [ non_empty_comma_separated_list_p accept_charset_item_p >> as_result ].
Definition accept_charset_try_parse (what : list byte) := try_parse what accept_charset_parser.

Definition accept_encoding_item_p : producer weighted_item_t :=
  produce no_item [ token_p ~> to_lower >> set_item_name; maybe [ weight_p >> set_item_weight ] ].
Definition accept_encoding_parser : producer (list weighted_item_t) :=
  produce [] [ maybe_empty_comma_separated_list_p accept_encoding_item_p >> as_result ].
Definition accept_encoding_try_parse (what : list byte) := try_parse what accept_encoding_parser.

Definition make_language_tag_p : producer (list byte) :=
  produce []
    [ repeat_ 1 (Upto 8) [ alpha_symbol_p >> to_container ];
      repeat_ 0 N
        [ symbol_p "-" >> to_container; repeat_ 1 (Upto 8) [ alphanum_symbol_p >> to_container ] ] ].
Definition make_language_range_p : producer (list byte) :=
  produce [] [ alternatives [ symbol_p "*" >> to_container; make_language_tag_p >> as_result ] ].

Definition accept_language_item_p : producer weighted_item_t :=
  produce no_item [ make_language_range_p >> set_item_name; maybe [ weight_p >> set_item_weight ] ].
Definition accept_language_parser : producer (list weighted_item_t) :=
  produce [] [ non_empty_comma_separated_list_p accept_language_item_p >> as_result ].
Definition accept_language_try_parse (what : list byte) := try_parse what accept_language_parser.

(** ** content-type.hpp, content-encoding.hpp, connection.hpp, cache-control.hpp *)

Definition content_type_parser : producer media_type_value_t :=
  produce no_media_type [ media_type_default_parser >> as_result ].
Definition content_type_try_parse (what : list byte) := try_parse what content_type_parser.

Definition content_encoding_parser : producer (list (list byte)) :=
  produce [] [ non_empty_comma_separated_list_p (token_p ~> to_lower) >> as_result ].
Definition content_encoding_try_parse (what : list byte) := try_parse what content_encoding_parser.

Definition connection_parser : producer (list (list byte)) :=
  produce [] [ non_empty_comma_separated_list_p (token_p ~> to_lower) >> as_result ].
Definition connection_try_parse (what : list byte) := try_parse what connection_parser.

Definition cache_directive_p : producer parameter_with_optional_value_t :=
  produce ([], None)
    [ token_p ~> to_lower >> set_first;
      maybe
        [ symbol "=";
          alternatives [ token_p >> set_opt_second; quoted_string_p >> set_opt_second ] ] ].
Definition cache_control_parser : producer parameter_with_optional_value_container_t :=
  produce [] [ non_empty_comma_separated_list_p cache_directive_p >> as_result ].
Definition cache_control_try_parse (what : list byte) := try_parse what cache_control_parser.

(** ** user-agent.hpp *)

Record product_t := Product { product : list byte; product_version : option (list byte) }.
Inductive tail_item_t := TailProduct (p : product_t) | TailComment (c : list byte).
Record user_agent_value_t := UserAgent { agent_product : product_t; agent_tail : list tail_item_t }.

Definition product_producer : producer product_t :=
  produce (Product [] None)
    [ token_p >> custom_consumer (fun t v => Product v (product_version t));
      maybe [ symbol "/"; token_p >> custom_consumer (fun t v => Product (product t) (Some v)) ] ].

(** [to_container] of a value that the item type is constructed from. *)
Definition to_container_as {A B} (f : A -> B) : consumer (list B) A := fun t a => Ok (t ++ [f a]).

Definition user_agent_tail_p : producer (list tail_item_t) :=
  produce []
    [ repeat_ 0 N
        [ space; ows;
          alternatives
            [ product_producer >> to_container_as TailProduct;
              comment_p >> to_container_as TailComment ] ] ].

Definition user_agent_parser : producer user_agent_value_t :=
  produce (UserAgent (Product [] None) [])
    [ product_producer >> custom_consumer (fun t v => UserAgent v (agent_tail t));
      user_agent_tail_p >> custom_consumer (fun t v => UserAgent (agent_product t) v) ].
Definition user_agent_try_parse (what : list byte) := try_parse what user_agent_parser.

(** ** transfer-encoding.hpp *)

Inductive known_transfer_coding_t := chunked | compress | deflate | gzip.
Record transfer_extension_t := TransferExtension {
  extension_token : list byte;
  transfer_parameters : parameter_with_mandatory_value_container_t
}.
Inductive transfer_value_t :=
| KnownCoding (c : known_transfer_coding_t)
| Extension (e : transfer_extension_t).

Definition transfer_extension_p : producer transfer_extension_t :=
  produce (TransferExtension [] [])
    [ token_p ~> to_lower >> custom_consumer (fun t v => TransferExtension v (transfer_parameters t));
      params_with_value_p >> custom_consumer (fun t v => TransferExtension (extension_token t) v) ].

Definition transfer_value_p : producer transfer_value_t :=
  produce (KnownCoding chunked)
    [ alternatives
        [ expected_caseless_token_p (bs "chunked") >> just_result (KnownCoding chunked);
          expected_caseless_token_p (bs "compress") >> just_result (KnownCoding compress);
          expected_caseless_token_p (bs "deflate") >> just_result (KnownCoding deflate);
          expected_caseless_token_p (bs "gzip") >> just_result (KnownCoding gzip);
          expected_caseless_token_p (bs "x-gzip") >> just_result (KnownCoding gzip);
          transfer_extension_p >> custom_consumer (fun _ v => Extension v) ] ].

Definition transfer_encoding_parser : producer (list transfer_value_t) :=
  produce [] [ non_empty_comma_separated_list_p transfer_value_p >> as_result ].
Definition transfer_encoding_try_parse (what : list byte) := try_parse what transfer_encoding_parser.

(** ** range.hpp, for an integer type [T] *)

Inductive byte_range_spec_t :=
| DoubleEnded (first last : Z)
| OpenEnded (first : Z)
| SuffixLength (length_ : Z).
Record other_ranges_specifier_t := OtherRanges { range_unit : list byte; range_set : list byte }.
Inductive range_value_t :=
| ByteRanges (ranges : list byte_range_spec_t)
| OtherRangesValue (o : other_ranges_specifier_t).

Definition make_byte_range_spec_parser (T : int_type) : producer byte_range_spec_t :=
  produce (DoubleEnded 0 0)
    [ alternatives
        [ produce (0, 0)
            [ non_negative_decimal_number_p T >> set_first; symbol "-";
              non_negative_decimal_number_p T >> set_second ]
            >> custom_consumer (fun _ v => DoubleEnded v.1 v.2);
          produce 0 [ non_negative_decimal_number_p T >> as_result; symbol "-" ]
            >> custom_consumer (fun _ v => OpenEnded v);
          produce 0 [ symbol "-"; non_negative_decimal_number_p T >> as_result ]
            >> custom_consumer (fun _ v => SuffixLength v) ] ].

Definition make_bytes_prefix_parser {R} : clause R := sequence [ exact (bs "bytes"); symbol "=" ].

Definition make_byte_ranges_specifier_parser (T : int_type) : producer (list byte_range_spec_t) :=
  produce []
    [ make_bytes_prefix_parser;
      force_only_this_alternative
        [ non_empty_comma_separated_list_p (make_byte_range_spec_parser T) >> as_result ] ].

Definition make_other_ranges_specifier_parser : producer other_ranges_specifier_t :=
  produce (OtherRanges [] [])
    [ token_p >> custom_consumer (fun t v => OtherRanges v (range_set t)); symbol "=";
      force_only_this_alternative
        [ produce [] [ repeat_ 1 N [ vchar_symbol_p >> to_container ] ]
            >> custom_consumer (fun t v => OtherRanges (range_unit t) v) ] ].

Definition range_parser (T : int_type) : producer range_value_t :=
  produce (ByteRanges [])
    [ alternatives
        [ make_byte_ranges_specifier_parser T >> custom_consumer (fun _ v => ByteRanges v);
          make_other_ranges_specifier_parser >> custom_consumer (fun _ v => OtherRangesValue v) ] ].
Definition range_try_parse (T : int_type) (what : list byte) := try_parse what (range_parser T).

(** ** details/pct_encoded_symbols.hpp *)

Definition pct_encoded_symbols_p : producer (list byte) :=
  produce_array [x00; x00; x00]
    [ symbol_p "%" >> to_array; hexdigit_p >> to_array; hexdigit_p >> to_array ].
Definition pct_encoded_symbols_consumer : consumer (list byte) (list byte) :=
  custom_consumer (fun to_ from => to_ ++ from).

(** ** content-disposition.hpp *)

(** [rbegin] of the token: the producer never gives an empty one. *)
Definition ends_with_star (result : list byte) : bool :=
  match rev result with c :: _ => Byte.eqb "*" c | [] => false end.

Definition regular_token_p : producer (list byte) := fun s =>
  match token_p s with
  | (Value result, s') =>
      if ends_with_star result
      then (fail (m_index s + length result - 1) unexpected_character, backto (m_index s) s')
      else (Value result, s')
  | (r, s') => (r, backto (m_index s) s')
  end.

Definition ext_token_p : producer (list byte) := fun s =>
  match token_p s with
  | (Value result, s') =>
      if negb (ends_with_star result)
      then (fail (m_index s) pattern_not_found, backto (m_index s) s')
      else (Value result, s')
  | (r, s') => (r, backto (m_index s) s')
  end.

Definition is_mime_charsetc (ch : byte) : bool :=
  is_alpha ch || is_digit ch || existsb (Byte.eqb ch) (bs "!#$%&+-^_`{}~").
Definition is_language (ch : byte) : bool := is_alpha ch || is_digit ch || Byte.eqb "-" ch.
Definition is_attr_char (ch : byte) : bool :=
  is_alpha ch || is_digit ch || existsb (Byte.eqb ch) (bs "!#$&+-.^_`|~").

Definition mime_charsetc_symbol_p : producer byte := symbol_if is_mime_charsetc.
Definition language_symbol_p : producer byte := symbol_if is_language.
Definition attr_char_symbol_p : producer byte := symbol_if is_attr_char.

Definition ext_parameter_value_p : producer (list byte) :=
  produce []
    [ repeat_ 1 N [ mime_charsetc_symbol_p >> to_container ];
      symbol_p "'" >> to_container;
      repeat_ 0 N [ language_symbol_p >> to_container ];
      symbol_p "'" >> to_container;
      repeat_ 0 N
        [ alternatives
            [ attr_char_symbol_p >> to_container;
              pct_encoded_symbols_p >> pct_encoded_symbols_consumer ] ] ].

Record content_disposition_value_t := ContentDisposition {
  disposition : list byte;
  disposition_parameters : parameter_with_mandatory_value_container_t
}.

Definition disposition_param_p : producer parameter_with_mandatory_value_t :=
  produce ([], [])
    [ ows; symbol ";"; ows;
      alternatives
        [ sequence
            [ regular_token_p ~> to_lower >> set_first; symbol "="; alternatives parameter_value ];
          sequence
            [ ext_token_p ~> to_lower >> set_first; symbol "="; ext_parameter_value_p >> set_second ] ] ].

Definition content_disposition_parser : producer content_disposition_value_t :=
  produce (ContentDisposition [] [])
    [ token_p ~> to_lower >> custom_consumer (fun t v => ContentDisposition v (disposition_parameters t));
      produce [] [ repeat_ 0 N [ disposition_param_p >> to_container ] ]
        >> custom_consumer (fun t v => ContentDisposition (disposition t) v) ].
Definition content_disposition_try_parse (what : list byte) := try_parse what content_disposition_parser.

(** ** try_parse_field.hpp *)

Section TryParseField.
Import Fields HttpField.

Definition opt_value_of (name : list byte) (h : http_header_fields_t) : option (list byte) :=
  match try_get_field name h with Some v => Some v | None => None end.
Definition opt_value_of_id (field_id : http_field_t) (h : http_header_fields_t) : option (list byte) :=
  match try_get_field_by_id field_id h with Some v => Some v | None => None end.

Inductive field_result_t (A : Type) : Type :=
| Parsed (a : A)
| FieldNotFound
| FieldError (e : parse_error_t)
| FieldAbnormal (a : abnormal).
Arguments Parsed {A} a.
Arguments FieldNotFound {A}.
Arguments FieldError {A} e.
Arguments FieldAbnormal {A} a.

(** [try_parse] is the static method of the type of the field. *)
Definition try_extract_field_value_from {A} (try_parse : list byte -> expected A)
    (opt_value : option (list byte)) (default_value : list byte) : field_result_t A :=
  match opt_value, default_value with
  | None, [] => FieldNotFound
  | _, _ =>
      let content := match opt_value with Some v => v | None => default_value end in
      match try_parse content with
      | Value a => Parsed a
      | Unexpected e => FieldError e
      | Abnormal a => FieldAbnormal a
      end
  end.

Definition try_parse_field {A} (try_parse : list byte -> expected A) (h : http_header_fields_t)
    (field_name default_value : list byte) : field_result_t A :=
  try_extract_field_value_from try_parse (opt_value_of field_name h) default_value.
Definition try_parse_field_by_id {A} (try_parse : list byte -> expected A) (h : http_header_fields_t)
    (field_id : http_field_t) (default_value : list byte) : field_result_t A :=
  try_extract_field_value_from try_parse (opt_value_of_id field_id h) default_value.

End TryParseField.
Arguments Parsed {A} a.
Arguments FieldNotFound {A}.
Arguments FieldError {A} e.
Arguments FieldAbnormal {A} a.

(** ** Safety: every grammar is safe because its parts are *)

(** Producers that fill an array one item each, no more items than it has. *)
Lemma all_of_array {A} (ps : list (producer A)) s w :
  Forall SafeProducer ps -> wf s -> (array_index w + length ps <= length (m_array w))%nat ->
  let r := all_of ((fun p => p >> to_array) <$> ps) s w in good s r.1.1 r.1.2.
Proof.
  intros Hps. revert s w. induction Hps as [|p ps Hp _ IH]; intros s w Hw Hl; [by apply good_refl|].
  cbn [fmap list_fmap all_of]. specialize (Hp s Hw). cbn [length] in Hl.
  destruct (p s) as [[a|e|a] s'] eqn:Hs; cbn [fst snd] in Hp; [| |by apply good_abnormal in Hp].
  - assert (Hc : (p >> to_array) s w
      = (Value tt, s', ArrayWrapper (<[array_index w := a]> (m_array w)) (S (array_index w)))).
    { unfold consume_value, to_array. by rewrite Hs, (proj2 (Nat.leb_gt _ _)) by lia. }
    rewrite Hc. eapply good_trans; [exact Hp|].
    apply IH; [by eapply good_wf|]. cbn. rewrite length_insert. lia.
  - unfold consume_value at 1 3. rewrite Hs. cbn. by destruct Hp.
Qed.

Lemma safe_produce_array {A} zeros (ps : list (producer A)) :
  Forall SafeProducer ps -> (length ps <= length zeros)%nat ->
  SafeProducer (produce_array zeros ((fun p => p >> to_array) <$> ps)).
Proof.
  intros Hps Hl s Hw. pose proof (all_of_array ps s (ArrayWrapper zeros 0) Hps Hw Hl) as Hg. cbv zeta in Hg.
  unfold produce_array, produce_with. destruct (all_of _ _ _) as [[[u|e|a] s'] w]; cbn in Hg |- *.
  - by eapply good_result.
  - by destruct Hg.
  - by apply good_abnormal in Hg.
Qed.

#[global] Instance safe_pct_encoded_symbols_p : SafeProducer pct_encoded_symbols_p.
Proof.
  apply (safe_produce_array [x00; x00; x00] [symbol_p "%"; hexdigit_p; hexdigit_p]); [|done].
  by repeat (apply Forall_cons_2; [apply _|]).
Qed.

#[global] Instance productive_pct_encoded_symbols_p : ProductiveProducer pct_encoded_symbols_p.
Proof.
  intros s a s' Hw. unfold pct_encoded_symbols_p, produce_array, produce_with.
  destruct (all_of _ _ _) as [[[[]|e|b] s1] t1] eqn:Ha; [|done..]. intros [= _ <-].
  apply all_of_cons_inv in Ha as (s2 & w & H1 & H2).
  assert (Hp : ProductiveClause (symbol_p "%" >> to_array)) by apply _.
  pose proof (Hp _ _ _ _ Hw H1) as Hlt. unfold consume_value in H1.
  pose proof (safe_symbol_if (Byte.eqb "%") s Hw) as Hg. fold (symbol_p "%") in Hg.
  destruct (symbol_p "%" s) as [[c|e|b] s3]; [|done..]. cbn in H1, Hg. injection H1 as <- <-.
  pose proof (all_of_array [hexdigit_p; hexdigit_p] s3 (ArrayWrapper [c; x00; x00] 1)) as Hgood.
  cbv zeta in Hgood. cbn [fmap list_fmap] in Hgood. rewrite H2 in Hgood.
  destruct Hgood; [by repeat (apply Forall_cons_2; [apply _|])|by eapply good_wf|cbn; lia|]. cbn in good_forward0. lia.
Qed.

#[global] Instance safe_to_container_as {A B} (f : A -> B) : SafeConsumer (to_container_as f).
Proof. intros t a. by eexists. Qed.

#[global] Hint Extern 1 (SafeConsumer _) => progress unfold set_type, set_subtype, set_parameters,
  set_item_name, set_item_weight, pct_encoded_symbols_consumer : typeclass_instances.
#[global] Hint Extern 1 (SafeProducer _) => progress unfold mime_charsetc_symbol_p,
  language_symbol_p, attr_char_symbol_p : typeclass_instances.
#[global] Hint Extern 1 (ProductiveProducer _) => progress unfold mime_charsetc_symbol_p,
  language_symbol_p, attr_char_symbol_p : typeclass_instances.

#[global] Instance safe_regular_token_p : SafeProducer regular_token_p.
Proof.
  intros s Hw. pose proof (safe_token_p s Hw) as Hg. unfold regular_token_p, token_p in *.
  pose proof (span_loop_safe is_token_char (remaining s) s [] Hw) as Hl.
  destruct (span_loop _ _ _ _) as [[v b] s']. cbn in Hl. destruct Hl as (Hd & Hi & Hn & _).
  destruct v as [|c v]; [cbn in *; rewrite backto_start by done; apply good_refl; [done|cbn; lia]|].
  destruct (ends_with_star _); [|done]. cbn in Hn |- *. rewrite backto_start by done.
  apply good_refl; [done|]. cbn. lia.
Qed.

#[global] Instance safe_ext_token_p : SafeProducer ext_token_p.
Proof.
  intros s Hw. pose proof (safe_token_p s Hw) as Hg. unfold ext_token_p.
  destruct (token_p s) as [[v|e|a] s']; cbn in Hg; [|by rewrite (good_backto s _ s' Hw Hg); apply good_refl; [|destruct Hg]|by apply good_abnormal in Hg].
  destruct (negb _); [|done]. rewrite (good_backto s _ s' Hw Hg). by apply good_fail.
Qed.

#[global] Instance safe_media_type_default_parser : SafeProducer media_type_default_parser.
Proof. unfold media_type_default_parser. apply _. Qed.
#[global] Instance safe_unweighted_param_p : SafeProducer unweighted_param_p.
Proof. unfold unweighted_param_p, parameter_value. apply _. Qed.
#[global] Instance productive_unweighted_param_p : ProductiveProducer unweighted_param_p.
Proof. unfold unweighted_param_p, parameter_value. apply _. Qed.
#[global] Instance safe_media_type_weight_aware_parser : SafeProducer media_type_weight_aware_parser.
Proof. unfold media_type_weight_aware_parser. apply _. Qed.
#[global] Instance safe_accept_item_p : SafeProducer accept_item_p.
Proof. unfold accept_item_p. apply _. Qed.
#[global] Instance safe_accept_parser : SafeProducer accept_parser.
Proof. unfold accept_parser. apply _. Qed.
#[global] Instance safe_accept_charset_item_p : SafeProducer accept_charset_item_p.
Proof. unfold accept_charset_item_p. apply _. Qed.
#[global] Instance safe_accept_charset_parser : SafeProducer accept_charset_parser.
Proof. unfold accept_charset_parser. apply _. Qed.
#[global] Instance safe_accept_encoding_item_p : SafeProducer accept_encoding_item_p.
Proof. unfold accept_encoding_item_p. apply _. Qed.
#[global] Instance safe_accept_encoding_parser : SafeProducer accept_encoding_parser.
Proof. unfold accept_encoding_parser. apply _. Qed.
#[global] Instance safe_make_language_tag_p : SafeProducer make_language_tag_p.
Proof. unfold make_language_tag_p. apply _. Qed.
#[global] Instance safe_make_language_range_p : SafeProducer make_language_range_p.
Proof. unfold make_language_range_p. apply _. Qed.
#[global] Instance safe_accept_language_item_p : SafeProducer accept_language_item_p.
Proof. unfold accept_language_item_p. apply _. Qed.
#[global] Instance safe_accept_language_parser : SafeProducer accept_language_parser.
Proof. unfold accept_language_parser. apply _. Qed.
#[global] Instance safe_content_type_parser : SafeProducer content_type_parser.
Proof. unfold content_type_parser. apply _. Qed.
#[global] Instance safe_content_encoding_parser : SafeProducer content_encoding_parser.
Proof. unfold content_encoding_parser. apply _. Qed.
#[global] Instance safe_connection_parser : SafeProducer connection_parser.
Proof. unfold connection_parser. apply _. Qed.
#[global] Instance safe_cache_directive_p : SafeProducer cache_directive_p.
Proof. unfold cache_directive_p. apply _. Qed.
#[global] Instance safe_cache_control_parser : SafeProducer cache_control_parser.
Proof. unfold cache_control_parser. apply _. Qed.
#[global] Instance safe_product_producer : SafeProducer product_producer.
Proof. unfold product_producer. apply _. Qed.
#[global] Instance safe_user_agent_tail_p : SafeProducer user_agent_tail_p.
Proof. unfold user_agent_tail_p. apply _. Qed.
#[global] Instance safe_user_agent_parser : SafeProducer user_agent_parser.
Proof. unfold user_agent_parser. apply _. Qed.
#[global] Instance safe_transfer_extension_p : SafeProducer transfer_extension_p.
Proof. unfold transfer_extension_p. apply _. Qed.
#[global] Instance safe_transfer_value_p : SafeProducer transfer_value_p.
Proof. unfold transfer_value_p. apply _. Qed.
#[global] Instance safe_transfer_encoding_parser : SafeProducer transfer_encoding_parser.
Proof. unfold transfer_encoding_parser. apply _. Qed.
#[global] Instance safe_make_byte_range_spec_parser T : SafeProducer (make_byte_range_spec_parser T).
Proof. unfold make_byte_range_spec_parser. apply _. Qed.
#[global] Instance safe_make_byte_ranges_specifier_parser T : SafeProducer (make_byte_ranges_specifier_parser T).
Proof. unfold make_byte_ranges_specifier_parser, make_bytes_prefix_parser. apply _. Qed.
#[global] Instance safe_make_other_ranges_specifier_parser : SafeProducer make_other_ranges_specifier_parser.
Proof. unfold make_other_ranges_specifier_parser. apply _. Qed.
#[global] Instance safe_range_parser T : SafeProducer (range_parser T).
Proof. unfold range_parser. apply _. Qed.
#[global] Instance safe_ext_parameter_value_p : SafeProducer ext_parameter_value_p.
Proof. unfold ext_parameter_value_p. apply _. Qed.
#[global] Instance safe_disposition_param_p : SafeProducer disposition_param_p.
Proof. unfold disposition_param_p, parameter_value. apply _. Qed.
#[global] Instance productive_disposition_param_p : ProductiveProducer disposition_param_p.
Proof. unfold disposition_param_p, parameter_value. apply _. Qed.
#[global] Instance safe_content_disposition_parser : SafeProducer content_disposition_parser.
Proof. unfold content_disposition_parser. apply _. Qed.

End FieldValues.
