(* ===== verification/Host.v ===== *)
(** * The Host field

    Model of src/web/restinio/restinio/helpers/http_field_parsers/host.hpp: IPv4
    and IPv6 addresses, registered names, the port, and how a value is
    printed. *)

From S2P Require Import Prelude HttpFields HttpResponse FromString EasyParser ParserReads ParserNumbers FieldBasics ParserEcho FieldValues.

Module Host.
Import Caseless Parser ParserLaws Reads Numbers Basics Echo FieldValues.
Import Decimal(dec_value, dec).
#[local] Open Scope parser_scope.

(** ** Characters *)

Definition is_unreserved (ch : byte) : bool :=
  is_alpha ch || is_digit ch || existsb (Byte.eqb ch) (bs "-._~").
Definition is_sub_delims (ch : byte) : bool := existsb (Byte.eqb ch) (bs "!$&'()*+,;=").

Definition unreserved_symbol_p : producer byte := symbol_if is_unreserved.
Definition sub_delims_symbol_p : producer byte := symbol_if is_sub_delims.

(** ** Addresses *)

Definition dec_octet : producer (list byte) :=
  produce []
    [ alternatives
        [ sequence
            [ symbol_p "2" >> to_container; symbol_p "5" >> to_container;
              symbol_from_range_p "0" "5" >> to_container ];
          sequence
            [ symbol_p "2" >> to_container; symbol_from_range_p "0" "4" >> to_container;
              digit_p >> to_container ];
          sequence
            [ symbol_p "1" >> to_container; digit_p >> to_container; digit_p >> to_container ];
          sequence [ symbol_from_range_p "1" "9" >> to_container; digit_p >> to_container ];
          digit_p >> to_container ] ].

Definition ipv4_address_p : producer (list byte) :=
  produce []
    [ dec_octet >> to_container_string; symbol_p "." >> to_container;
      dec_octet >> to_container_string; symbol_p "." >> to_container;
      dec_octet >> to_container_string; symbol_p "." >> to_container;
      dec_octet >> to_container_string ].

Definition h16 : producer (list byte) :=
  produce [] [ repeat_ 1 (Upto 4) [ hexdigit_p >> to_container ] ].
Definition h16_with_colon : clause (list byte) :=
  sequence
    [ h16 >> to_container_string; symbol_p ":" >> to_container; not_clause [ symbol ":" ] ].
Definition ls32 : producer (list byte) :=
  produce []
    [ alternatives
        [ sequence
            [ h16 >> to_container_string; symbol_p ":" >> to_container; h16 >> to_container_string ];
          ipv4_address_p >> as_result ] ].
Definition double_colon : clause (list byte) :=
  exact_p (bs "::") ~> just (bs "::") >> to_container_string.

(** What may stand before the double colon: at most [n] groups and one more. *)
Definition ipv6_head (n : nat) : clause (list byte) :=
  maybe [ repeat_ 0 (Upto n) [ h16_with_colon ]; h16 >> to_container_string ].

Definition ipv6_address_p : producer (list byte) :=
  produce []
    [ alternatives
        [ sequence [ repeat_ 6 (Upto 6) [ h16_with_colon ]; ls32 >> to_container_string ];
          sequence
            [ double_colon; repeat_ 5 (Upto 5) [ h16_with_colon ]; ls32 >> to_container_string ];
          sequence
            [ maybe [ h16 >> to_container_string ]; double_colon;
              repeat_ 4 (Upto 4) [ h16_with_colon ]; ls32 >> to_container_string ];
          sequence
            [ ipv6_head 1; double_colon;
              repeat_ 3 (Upto 3) [ h16_with_colon ]; ls32 >> to_container_string ];
          sequence
            [ ipv6_head 2; double_colon;
              repeat_ 2 (Upto 2) [ h16_with_colon ]; ls32 >> to_container_string ];
          sequence [ ipv6_head 3; double_colon; h16_with_colon; ls32 >> to_container_string ];
          sequence [ ipv6_head 4; double_colon; ls32 >> to_container_string ];
          sequence [ ipv6_head 5; double_colon; h16 >> to_container_string ];
          sequence [ ipv6_head 6; double_colon ] ] ].

Definition reg_name_p : producer (list byte) :=
  produce []
    [ repeat_ 1 N
        [ alternatives
            [ unreserved_symbol_p >> to_container;
              pct_encoded_symbols_p >> pct_encoded_symbols_consumer;
              sub_delims_symbol_p >> to_container ] ] ].

(** ** The value *)

Record reg_name_t := RegNameOf { reg_name_v : list byte }.
Record ipv4_address_t := Ipv4Of { ipv4_v : list byte }.
Record ipv6_address_t := Ipv6Of { ipv6_v : list byte }.
Inductive host_value_t :=
| RegName (n : reg_name_t)
| Ipv4 (a : ipv4_address_t)
| Ipv6 (a : ipv6_address_t).
Record raw_host_value_t := RawHost { host : host_value_t; port : option Z }.

Definition host_ipv6_p : producer ipv6_address_t :=
  produce (Ipv6Of [])
    [ symbol "["; ipv6_address_p ~> to_lower ~> convert Ipv6Of >> as_result; symbol "]" ].
Definition host_ipv4_p : producer ipv4_address_t :=
  produce (Ipv4Of []) [ ipv4_address_p ~> convert Ipv4Of >> as_result ].
Definition host_reg_name_p : producer reg_name_t :=
  produce (RegNameOf []) [ reg_name_p ~> to_lower ~> convert RegNameOf >> as_result ].

Definition host_value_p : producer host_value_t :=
  produce (RegName (RegNameOf []))
    [ alternatives
        [ host_ipv6_p >> custom_consumer (fun _ v => Ipv6 v);
          host_ipv4_p >> custom_consumer (fun _ v => Ipv4 v);
          host_reg_name_p >> custom_consumer (fun _ v => RegName v) ] ].

Definition host_parser : producer raw_host_value_t :=
  produce (RawHost (RegName (RegNameOf [])) None)
    [ host_value_p >> custom_consumer (fun t v => RawHost v (port t));
      maybe
        [ symbol ":";
          non_negative_decimal_number_p uint16_t >> custom_consumer (fun t v => RawHost (host t) (Some v)) ] ].
Definition host_try_parse (what : list byte) : expected raw_host_value_t := try_parse what host_parser.

(** [operator<<]: the dumper of the host, and the value with its port and the
    [std::endl] behind it. *)
Definition dump_host (h : host_value_t) : list byte :=
  match h with
  | RegName n => reg_name_v n
  | Ipv4 a => ipv4_v a
  | Ipv6 a => x5b :: ipv6_v a ++ [x5d]
  end.
Definition print_raw_host (v : raw_host_value_t) : list byte :=
  dump_host (host v) ++
  match port v with Some p => x3a :: dec p ++ [x0a] | None => [] end.

(** ** Safety *)

#[global] Instance safe_dec_octet : SafeProducer dec_octet.
Proof. unfold dec_octet. apply _. Qed.
#[global] Instance safe_ipv4_address_p : SafeProducer ipv4_address_p.
Proof. unfold ipv4_address_p. apply _. Qed.
#[global] Instance safe_h16 : SafeProducer h16.
Proof. unfold h16. apply _. Qed.
#[global] Instance safe_h16_with_colon : SafeClause h16_with_colon.
Proof. unfold h16_with_colon. apply _. Qed.
#[global] Instance safe_ls32 : SafeProducer ls32.
Proof. unfold ls32. apply _. Qed.
#[global] Instance safe_double_colon : SafeClause double_colon.
Proof. unfold double_colon. apply _. Qed.
#[global] Instance safe_ipv6_head n : SafeClause (ipv6_head n).
Proof. unfold ipv6_head. apply _. Qed.
#[global] Instance safe_ipv6_address_p : SafeProducer ipv6_address_p.
Proof. unfold ipv6_address_p. apply _. Qed.
#[global] Hint Extern 1 (SafeProducer _) => progress unfold unreserved_symbol_p,
  sub_delims_symbol_p : typeclass_instances.
#[global] Hint Extern 1 (ProductiveProducer _) => progress unfold unreserved_symbol_p,
  sub_delims_symbol_p : typeclass_instances.
#[global] Instance safe_reg_name_p : SafeProducer reg_name_p.
Proof. unfold reg_name_p. apply _. Qed.
#[global] Instance safe_host_value_p : SafeProducer host_value_p.
Proof. unfold host_value_p, host_ipv6_p, host_ipv4_p, host_reg_name_p. apply _. Qed.
#[global] Instance safe_host_parser : SafeProducer host_parser.
Proof. unfold host_parser. apply _. Qed.

(** ** The addresses and names are the text that was read *)

#[global] Instance echo_dec_octet : EchoProducer dec_octet.
Proof. unfold dec_octet. apply _. Qed.
#[global] Instance echo_ipv4_address_p : EchoProducer ipv4_address_p.
Proof. unfold ipv4_address_p. apply _. Qed.
#[global] Instance echo_h16 : EchoProducer h16.
Proof. unfold h16. apply _. Qed.
#[global] Instance echo_h16_with_colon : EchoClause h16_with_colon.
Proof. unfold h16_with_colon. apply _. Qed.
#[global] Instance atomic_h16_with_colon : AtomicClause h16_with_colon.
Proof. unfold h16_with_colon. apply _. Qed.
#[global] Instance echo_ls32 : EchoProducer ls32.
Proof. unfold ls32. apply _. Qed.
#[global] Instance echo_double_colon : EchoClause double_colon.
Proof. unfold double_colon. apply _. Qed.
#[global] Instance echo_ipv6_head n : EchoClause (ipv6_head n).
Proof. unfold ipv6_head. apply _. Qed.
#[global] Instance echo_ipv6_address_p : EchoProducer ipv6_address_p.
Proof. unfold ipv6_address_p. apply _. Qed.

(** Symbols that fill an array: the array is the text. *)
Lemma all_of_array_text (ps : list (producer byte)) s w s' w' :
  Forall SafeProducer ps -> Forall EchoSymbol ps -> wf s ->
  (array_index w + length ps <= length (m_array w))%nat ->
  all_of ((fun p => p >> to_array) <$> ps) s w = (Value tt, s', w') ->
  m_array w' = take (array_index w) (m_array w) ++ text s s' ++
    drop (array_index w + length ps) (m_array w) /\
  m_data s' = m_data s /\ (m_index s <= m_index s')%nat.
Proof.
  intros Hss Hes. revert s w Hss. induction Hes as [|p ps He _ IH]; intros s w Hss Hw Hl.
  { intros [= <- <-]. by rewrite text_same, Nat.add_0_r, app_nil_l, take_drop. }
  apply Forall_cons_1 in Hss as [Hs Hss].
  intros (s1 & w1 & (c & Hc & Ht)%consume_inv & Hr)%all_of_cons_inv.
  pose proof (Hs s Hw) as Hg. rewrite Hc in Hg. cbn in Hg. cbn [length] in Hl.
  unfold to_array in Ht. rewrite (proj2 (Nat.leb_gt _ _)) in Ht by lia. injection Ht as <-.
  set (w1 := ArrayWrapper (<[array_index w := c]> (m_array w)) (S (array_index w))) in Hr.
  assert (Hl1 : (array_index w1 + length ps <= length (m_array w1))%nat)
    by (cbn; rewrite length_insert; lia).
  specialize (IH s1 w1 Hss (good_wf _ _ _ Hg) Hl1 Hr). subst w1.
  destruct IH as (-> & Hd & Hi). cbn [m_array array_index]. destruct Hg. split_and!; [|congruence|lia].
  rewrite (text_trans s s1 s'), <- (He s c s1) by done.
  rewrite (take_S_r _ _ c), take_insert_ge, drop_insert_lt by (lia || apply list_lookup_insert_eq; lia).
  rewrite <- !app_assoc. cbn [app length]. by rewrite Nat.add_succ_r.
Qed.

#[global] Instance echo_pct_encoded_symbols_p : EchoProducer pct_encoded_symbols_p.
Proof.
  intros s v s' Hw. unfold pct_encoded_symbols_p, produce_array, produce_with.
  destruct (all_of _ _ _) as [[[[]|e|a] s1] w] eqn:Ha; [|done..]. intros [= <- <-].
  apply (all_of_array_text [symbol_p "%"; hexdigit_p; hexdigit_p]) in Ha as (-> & _);
    [cbn; by rewrite app_nil_r|by repeat (apply Forall_cons_2; [apply _|])..|done|cbn; lia].
Qed.
#[global] Hint Extern 1 (EchoSymbol _) => progress unfold unreserved_symbol_p,
  sub_delims_symbol_p : typeclass_instances.
#[global] Instance echo_reg_name_p : EchoProducer reg_name_p.
Proof. unfold reg_name_p, pct_encoded_symbols_consumer. apply _. Qed.

(** What a host says of the text it was read from. *)
Definition host_text (h : host_value_t) (u : list byte) : Prop :=
  match h with
  | RegName n => reg_name_v n = to_lower_case <$> u
  | Ipv4 a => ipv4_v a = u
  | Ipv6 a => exists v, u = x5b :: v ++ [x5d] /\ ipv6_v a = to_lower_case <$> v
  end.

Lemma host_ipv6_text s a s' :
  wf s -> host_ipv6_p s = (Value a, s') -> host_text (Ipv6 a) (text s s').
Proof.
  intros Hw Hp%produce_inv. apply all_of_cons_inv in Hp as (s1 & t1 & H1 & Hp).
  apply (symbol_inv _ _ _ _ _ Hw) in H1 as (_ & Ht1 & Hd1 & Hi1 & Hw1).
  apply all_of_cons_inv in Hp as (s2 & t2 & (b & H2 & [= <-])%consume_inv & H3%all_of_single_inv).
  apply transform_inv in H2 as (v & (u & H2 & [= <-])%transform_inv & [= <-]).
  pose proof (safe_ipv6_address_p s1 Hw1) as Hg. rewrite H2 in Hg. cbn in Hg.
  apply (symbol_inv _ _ _ _ _ (good_wf _ _ _ Hg)) in H3 as (-> & Ht3 & Hd3 & Hi3 & _).
  exists u. split; [|done]. destruct Hg. rewrite (text_trans s s1 s'), Ht1 by (done || lia).
  rewrite (text_trans s1 s2 s'), Ht3 by (done || lia).
  by rewrite (echo_ipv6_address_p s1 u s2 Hw1 H2).
Qed.

Lemma host_value_text s h s' : wf s -> host_value_p s = (Value h, s') -> host_text h (text s s').
Proof.
  intros Hw Hp%produce_inv. apply all_of_single_inv, alternatives_inv in Hp; [|unfold host_ipv6_p, host_ipv4_p, host_reg_name_p; apply _|done].
  apply Exists_cons in Hp as [(a & Hp & [= <-])%consume_inv|Hp]; [by apply host_ipv6_text|].
  apply Exists_cons in Hp as [(a & Hp & [= <-])%consume_inv|Hp].
  { apply produce_inv, all_of_single_inv, consume_inv in Hp as (b & Hp & [= <-]).
    apply transform_inv in Hp as (u & Hp & [= <-]). by apply echo_ipv4_address_p. }
  apply Exists_cons in Hp as [(a & Hp & [= <-])%consume_inv|Hp]; [|by apply Exists_nil in Hp].
  apply produce_inv, all_of_single_inv, consume_inv in Hp as (b & Hp & [= <-]).
  apply transform_inv in Hp as (v & (u & Hp & [= <-])%transform_inv & [= <-]).
  cbn. by rewrite (echo_reg_name_p s u s' Hw Hp).
Qed.

(** Every text begins with a longest run of digits. *)
Lemma digits_prefix l : exists ds rest, l = ds ++ rest /\ forallb is_digit ds = true /\ stops is_digit rest.
Proof.
  induction l as [|c l (ds & rest & -> & Hd & Hs)]; [by exists [], []|].
  destruct (is_digit c) eqn:Hc; [|by exists [], (c :: ds ++ rest)].
  exists (c :: ds), rest. split_and!; [done|by cbn [forallb]; rewrite Hc|done].
Qed.

Lemma number_text T s v s' :
  8 <= bits T -> wf s -> (length (m_data s) < 127)%nat ->
  non_negative_decimal_number_p T s = (Value v, s') ->
  exists ds, ds <> [] /\ forallb is_digit ds = true /\ text s s' = ds /\
    v = FromString.convert (bits T) (signed T) (dec_value ds) /\
    m_data s' = m_data s /\ (m_index s <= m_index s')%nat.
Proof.
  intros Hb Hw Hl Hr. destruct (at_of s Hw) as (pre & l & -> & Hi).
  destruct (digits_prefix l) as (ds & rest & -> & Hd & Hs).
  unfold at_ in Hl. cbn in Hl. rewrite !length_app in Hl.
  destruct ds as [|c ds].
  { exfalso. destruct (refuses_number T pre rest Hs) as (e & He & _). cbn [app] in Hr. by rewrite Hr in He. }
  exists (c :: ds).
  destruct (decimal_number_cases T pre (c :: ds) rest) as [[Hx|Hx] _]; try done; [lia|..]; rewrite Hr in Hx; [|done].
  injection Hx as -> ->. split_and!; try done.
  - unfold text, at_. cbn [m_index m_data]. rewrite drop_app_length, length_app, Nat.add_comm, Nat.add_sub.
    by rewrite take_app_length.
  - unfold at_. cbn [m_data]. by rewrite <- app_assoc.
  - unfold at_. cbn [m_index]. rewrite length_app. lia.
Qed.

(** A Host field that is accepted was read to its last octet but trailing
    spaces.  What stands before the port is stored as it is for an IPv4
    address, in lower case for a registered name, in lower case and without the
    brackets for an IPv6 address; the port is the decimal number behind the
    colon, reduced to 16 bits. *)
Theorem host_parsed_text what v :
  (length what < 127)%nat -> host_try_parse what = Value v ->
  exists u, host_text (host v) u /\
    match port v with
    | None => remove_trailing_spaces what = u
    | Some n => exists ds, remove_trailing_spaces what = u ++ x3a :: ds /\ ds <> [] /\
        forallb is_digit ds = true /\ n = dec_value ds mod 2 ^ 16
    end.
Proof.
  intros Hl (s' & Hp%produce_inv & Hw' & Ht)%try_parse_inv; [|apply _]. set (s := make_source _) in *.
  assert (Hw : wf s) by (unfold wf; cbn; lia).
  apply all_of_cons_inv in Hp as (s1 & t1 & (h & Hh & [= <-])%consume_inv & Hp%all_of_single_inv).
  pose proof (safe_host_value_p s Hw) as Hg. rewrite Hh in Hg. cbn [fst snd] in Hg.
  pose proof (good_wf _ _ _ Hg) as Hw1. exists (text s s1).
  pose proof (host_value_text s h s1 Hw Hh) as Hht.
  apply maybe_inv in Hp as [Hp|[-> ->]]; [|done..|apply _|done].
  apply all_of_cons_inv in Hp as (s2 & t2 & H2 & (n & Hn & [= <-])%all_of_single_inv%consume_inv).
  apply (symbol_inv _ _ _ _ _ Hw1) in H2 as (-> & Ht2 & Hd2 & Hi2 & Hw2). cbn [host port].
  destruct Hg. pose proof (remove_trailing_spaces_length what).
  destruct (number_text uint16_t s2 n s') as (ds & Hne & Hds & Ht3 & -> & Hd3 & Hi3); [cbn; lia|done| |done|].
  { rewrite Hd2, good_data0. unfold s. cbn. lia. }
  split; [done|]. exists ds. split_and!; [|done..]. rewrite <- Ht.
  rewrite (text_trans s s1 s'), (text_trans s1 s2 s'), Ht2, Ht3 by (done || lia). done.
Qed.

Lemma host_parsed_text_witness :
  exists u ds, bs "WWW.Example.com:8080" = u ++ x3a :: ds /\ 8080 = dec_value ds mod 2 ^ 16.
Proof.
  destruct (host_parsed_text (bs "WWW.Example.com:8080")
    (RawHost (RegName (RegNameOf (bs "www.example.com"))) (Some 8080))) as (u & _ & ds & Hu & _ & _ & Hn).
  - cbn. lia.
  - vm_compute. reflexivity.
  - exists u, ds. split; [exact Hu|exact Hn].
Defined.

(** The alternatives are not tried again: a registered name that begins with
    an IPv4 address is refused, and a port that wraps is accepted. *)
Lemma reg_name_with_ipv4_prefix_refused :
  host_try_parse (bs "10.0.0.1.nip.io") = Unexpected (ParseError 8 unconsumed_input) /\
  host_try_parse (bs "nip.io.10.0.0.1") = Value (RawHost (RegName (RegNameOf (bs "nip.io.10.0.0.1"))) None) /\
  host_try_parse (bs "a:100000") = Value (RawHost (RegName (RegNameOf (bs "a"))) (Some 34464)).
Proof. split_and!; vm_compute; reflexivity. Qed.

End Host.
