(* ===== verification/Auth.v ===== *)
(** * The Authorization field, Basic and Bearer credentials

    Model of authorization.hpp, basic_auth.hpp and bearer_auth.hpp in
    src/web/restinio/restinio/helpers/http_field_parsers/, on top of the Base64
    decoder of [Base64]. *)

From S2P Require Import Prelude HttpFields HttpHeaders HttpResponse Base64 EasyParser ParserReads FieldBasics FieldReads FieldValues.

Module Auth.
Import Caseless Parser ParserLaws Reads Basics FieldReads FieldValues.
#[local] Open Scope parser_scope.

(** ** authorization.hpp *)

Definition is_token68_char (ch : byte) : bool :=
  is_alphanum ch || existsb (Byte.eqb ch) (bs "-._~+/").
Definition token68_symbol_p : producer byte := symbol_if is_token68_char.

Record token68_t := Token68 { token68_value : list byte }.

Definition token68_text_p : producer (list byte) :=
  produce []
    [ repeat_ 1 N [ token68_symbol_p >> to_container ]; repeat_ 0 N [ symbol_p "=" >> to_container ] ].
Definition token68_p : producer token68_t :=
  produce (Token68 []) [ token68_text_p >> custom_consumer (fun _ v => Token68 v) ].

Inductive value_form_t := token_form | quoted_string_form.
Record param_value_t := ParamValue { param_value : list byte; param_form : value_form_t }.
Record auth_param_entry := Param { param_name : list byte; param_val : param_value_t }.
Definition param_container_t : Type := list auth_param_entry.
Inductive auth_param_t := AuthToken (t : token68_t) | AuthParams (c : param_container_t).
Record authorization_value_t := Authorization { auth_scheme : list byte; auth_param : auth_param_t }.

Definition token_to_v (v : list byte) : param_value_t := ParamValue v token_form.
Definition qstring_to_v (v : list byte) : param_value_t := ParamValue v quoted_string_form.

Definition token68_seq : clause auth_param_t :=
  sequence
    [ token68_p >> custom_consumer (fun _ v => AuthToken v);
      not_clause (H := populate (AuthToken (Token68 []))) [ any_symbol_p >> skip ] ].

Definition param_value_p : producer param_value_t :=
  produce (ParamValue [] token_form)
    [ alternatives
        [ token_p ~> convert token_to_v >> as_result;
          quoted_string_p ~> convert qstring_to_v >> as_result ] ].

Definition auth_param_p : producer auth_param_entry :=
  produce (Param [] (ParamValue [] token_form))
    [ token_p ~> to_lower >> custom_consumer (fun t v => Param v (param_val t));
      ows; symbol "="; ows;
      param_value_p >> custom_consumer (fun t v => Param (param_name t) v) ].

Definition params_seq : clause auth_param_t :=
  maybe_empty_comma_separated_list_p auth_param_p >> custom_consumer (fun _ v => AuthParams v).

Definition authorization_parser : producer authorization_value_t :=
  produce (Authorization [] (AuthToken (Token68 [])))
    [ token_p ~> to_lower >> custom_consumer (fun t v => Authorization v (auth_param t));
      maybe
        [ repeat_ 1 N [ space ];
          produce (AuthToken (Token68 [])) [ alternatives [ token68_seq; params_seq ] ]
            >> custom_consumer (fun t v => Authorization (auth_scheme t) v) ] ].
Definition authorization_try_parse (what : list byte) := try_parse what authorization_parser.

(** The stream operators. *)
Definition print_param_value (v : param_value_t) : list byte :=
  match param_form v with
  | token_form => param_value v
  | quoted_string_form => x22 :: param_value v ++ [x22]
  end.
Definition print_param_entry (v : auth_param_entry) : list byte :=
  param_name v ++ x3d :: print_param_value (param_val v).
Fixpoint print_param_loop (first : bool) (c : param_container_t) : list byte :=
  match c with
  | [] => []
  | p :: c => (if first then [] else bs ", ") ++ print_param_entry p ++ print_param_loop false c
  end.
Definition print_auth_param (p : auth_param_t) : list byte :=
  match p with
  | AuthToken t => token68_value t
  | AuthParams c => x7b :: print_param_loop true c ++ [x7d]
  end.
Definition print_authorization (v : authorization_value_t) : list byte :=
  auth_scheme v ++ x20 :: print_auth_param (auth_param v).

(** ** Results of an extraction: [OutOfBounds] is the read past the end of the
    Base64 decoder, [Abnormally] an abnormal end of the parser *)

Inductive extraction (A E : Type) : Type :=
| Extracted (a : A)
| NotExtracted (e : E)
| OutOfBounds (index : nat)
| Abnormally (a : abnormal).
Arguments Extracted {A E} a.
Arguments NotExtracted {A E} e.
Arguments OutOfBounds {A E} index.
Arguments Abnormally {A E} a.

(** ** basic_auth.hpp *)

Record basic_params_t := BasicParams { username : list byte; password : list byte }.
Inductive basic_error_t :=
| basic_no_auth_http_field
| basic_illegal_http_field_value
| not_basic_auth_scheme
| invalid_basic_auth_param
| token68_decode_error
| invalid_username_password_pair
| empty_username.

Definition basic_error_string (what : basic_error_t) : list byte :=
  match what with
  | basic_no_auth_http_field => bs "no_auth_http_field"
  | basic_illegal_http_field_value => bs "illegal_http_field_value"
  | not_basic_auth_scheme => bs "not_basic_auth_scheme"
  | invalid_basic_auth_param => bs "invalid_basic_auth_param"
  | token68_decode_error => bs "token68_decode_error"
  | invalid_username_password_pair => bs "invalid_username_password_pair"
  | empty_username => bs "empty_username"
  end.

(** [std::string::find] of one character. *)
Fixpoint find_char (c : byte) (l : list byte) : option nat :=
  match l with
  | [] => None
  | d :: l => if Byte.eqb c d then Some 0%nat else S <$> find_char c l
  end.

Definition basic_extract (http_field : authorization_value_t) : extraction basic_params_t basic_error_t :=
  match auth_param http_field with
  | AuthParams _ => NotExtracted invalid_basic_auth_param
  | AuthToken token68 =>
      match Base64.try_decode (token68_value token68) with
      | Base64.InvalidBase64Sequence => NotExtracted token68_decode_error
      | Base64.OutOfRange i => OutOfBounds i
      | Base64.Decoded username_password =>
          match find_char ":" username_password with
          | None => NotExtracted invalid_username_password_pair
          | Some O => NotExtracted empty_username
          | Some first_colon =>
              Extracted (BasicParams (take first_colon username_password)
                                     (drop (S first_colon) username_password))
          end
      end
  end.

Definition basic_extraction_attempt (opt_field_value : option (list byte))
  : extraction basic_params_t basic_error_t :=
  match opt_field_value with
  | None => NotExtracted basic_no_auth_http_field
  | Some field_value =>
      match authorization_try_parse field_value with
      | Unexpected _ => NotExtracted basic_illegal_http_field_value
      | Abnormal a => Abnormally a
      | Value parsed_value =>
          if negb (bool_decide (bs "basic" = auth_scheme parsed_value))
          then NotExtracted not_basic_auth_scheme
          else basic_extract parsed_value
      end
  end.

Definition basic_extract_by_name (fields : Fields.http_header_fields_t) (auth_field_name : list byte) :=
  basic_extraction_attempt (opt_value_of auth_field_name fields).
Definition basic_extract_by_id (fields : Fields.http_header_fields_t) (id : HttpField.http_field_t) :=
  basic_extraction_attempt (opt_value_of_id id fields).

(** ** bearer_auth.hpp *)

Record bearer_params_t := BearerParams { token : list byte }.
Inductive bearer_error_t :=
| bearer_no_auth_http_field
| bearer_illegal_http_field_value
| not_bearer_auth_scheme
| invalid_bearer_auth_param.

Definition bearer_error_string (what : bearer_error_t) : list byte :=
  match what with
  | bearer_no_auth_http_field => bs "no_auth_http_field"
  | bearer_illegal_http_field_value => bs "illegal_http_field_value"
  | not_bearer_auth_scheme => bs "not_bearer_auth_scheme"
  | invalid_bearer_auth_param => bs "invalid_bearer_auth_param"
  end.

Definition bearer_extract (http_field : authorization_value_t) : extraction bearer_params_t bearer_error_t :=
  match auth_param http_field with
  | AuthParams _ => NotExtracted invalid_bearer_auth_param
  | AuthToken b64token => Extracted (BearerParams (token68_value b64token))
  end.

Definition bearer_extraction_attempt (opt_field_value : option (list byte))
  : extraction bearer_params_t bearer_error_t :=
  match opt_field_value with
  | None => NotExtracted bearer_no_auth_http_field
  | Some field_value =>
      match authorization_try_parse field_value with
      | Unexpected _ => NotExtracted bearer_illegal_http_field_value
      | Abnormal a => Abnormally a
      | Value parsed_value =>
          if negb (bool_decide (bs "bearer" = auth_scheme parsed_value))
          then NotExtracted not_bearer_auth_scheme
          else bearer_extract parsed_value
      end
  end.

Definition bearer_extract_by_name (fields : Fields.http_header_fields_t) (auth_field_name : list byte) :=
  bearer_extraction_attempt (opt_value_of auth_field_name fields).
Definition bearer_extract_by_id (fields : Fields.http_header_fields_t) (id : HttpField.http_field_t) :=
  bearer_extraction_attempt (opt_value_of_id id fields).

(** ** Safety *)

#[global] Hint Extern 1 (SafeProducer _) => progress unfold token68_symbol_p : typeclass_instances.
#[global] Hint Extern 1 (ProductiveProducer _) => progress unfold token68_symbol_p : typeclass_instances.
#[global] Instance safe_token68_p : SafeProducer token68_p.
Proof. unfold token68_p, token68_text_p. apply _. Qed.
#[global] Instance safe_token68_seq : SafeClause token68_seq.
Proof. unfold token68_seq. apply _. Qed.
#[global] Instance safe_auth_param_p : SafeProducer auth_param_p.
Proof. unfold auth_param_p, param_value_p. apply _. Qed.
#[global] Instance safe_params_seq : SafeClause params_seq.
Proof. unfold params_seq. apply _. Qed.
#[global] Instance safe_authorization_parser : SafeProducer authorization_parser.
Proof. unfold authorization_parser. apply _. Qed.

(** ** Credentials are read back *)

(** A token68: characters of its class and a tail of equals signs. *)
Definition is_token68 (body : list byte) : bool :=
  negb (bool_decide (body = [])) && forallb is_token68_char body.

Lemma reads_token68 body k :
  is_token68 body = true ->
  reads token68_p (body ++ repeat x3d k) (Token68 (body ++ repeat x3d k)) (fun r => r = []).
Proof.
  unfold is_token68. rewrite andb_true_iff, negb_true_iff, bool_decide_eq_false. intros [Hne Hb].
  apply reads_produce, reads_single. eapply reads_consume; [|done].
  apply reads_produce. eapply reads_cons.
  - apply (reads_repeat_chars is_token68_char); [done|]. destruct body; [done|cbn; lia].
  - apply reads_single. eapply reads_c_weaken; [apply (reads_repeat_chars (Byte.eqb "="))|].
    + clear. induction k; [done|]. by cbn [repeat forallb].
    + lia.
    + by intros r ->.
  - intros r ->. rewrite app_nil_r. by destruct k.
Qed.

Lemma reads_token68_seq body k :
  is_token68 body = true ->
  forall t, reads_c token68_seq t (body ++ repeat x3d k) (AuthToken (Token68 (body ++ repeat x3d k)))
    (fun r => r = []).
Proof.
  intros Hb t. apply reads_sequence.
  rewrite <- (app_nil_r (body ++ repeat x3d k)) at 1. eapply reads_cons.
  - eapply reads_consume; [by apply reads_token68|done].
  - apply reads_single. apply reads_not; [apply _|].
    eapply refuses_all_weaken; [apply refuses_head, refuses_consume, refuses_symbol_if|]. by intros r ->.
  - by intros r ->.
Qed.

Lemma token68_no_space body r : is_token68 body = true -> stops is_space (body ++ r).
Proof.
  unfold is_token68. rewrite andb_true_iff, negb_true_iff, bool_decide_eq_false. intros [Hne Hb].
  destruct body as [|c body]; [done|]. cbn [forallb] in Hb. apply andb_true_iff in Hb as [Hc _].
  assert (Hall : byte_all (fun c => implb (is_token68_char c) (negb (is_space c))) = true)
    by (vm_compute; reflexivity).
  pose proof (byte_all_true _ Hall c) as Hx. cbn beta in Hx. rewrite Hc in Hx. cbn [app stops].
  by apply negb_true_iff.
Qed.

Lemma reads_authorization scheme body k :
  is_token scheme = true -> is_token68 body = true ->
  reads authorization_parser (scheme ++ [SP] ++ body ++ repeat x3d k)
    (Authorization (to_lower_case <$> scheme) (AuthToken (Token68 (body ++ repeat x3d k))))
    (fun r => r = []).
Proof.
  intros Hs Hb. apply is_token_ok in Hs as [Hne Ht]. apply reads_produce. eapply reads_cons.
  - eapply reads_consume; [|done]. eapply reads_transform; [by apply reads_token|done].
  - apply reads_single, reads_maybe. eapply reads_cons; [apply reads_one_space| |].
    + apply reads_single. eapply reads_consume; [|done].
      apply reads_produce, reads_single, reads_first. by apply reads_token68_seq.
    + intros r ->. rewrite app_nil_r. by apply token68_no_space.
  - done.
Qed.

(** A token68 at the end of the field: not a space. *)
Lemma token68_end scheme body k l c :
  is_token68 body = true -> scheme ++ [SP] ++ body ++ repeat x3d k = l ++ [c] -> is_space c = false.
Proof.
  unfold is_token68. rewrite andb_true_iff, negb_true_iff, bool_decide_eq_false. intros [Hne Hb].
  destruct k as [|k].
  - cbn [repeat]. rewrite app_nil_r. destruct body as [|d body _] using rev_ind; [done|].
    rewrite !app_assoc. intros [_ <-]%app_inj_tail. rewrite forallb_app, andb_true_iff in Hb.
    destruct Hb as [_ Hd]. cbn in Hd. rewrite andb_true_r in Hd.
    pose proof (token68_no_space [d] []) as Hn. cbn in Hn. apply Hn.
    unfold is_token68. cbn [forallb]. by rewrite Hd.
  - rewrite <- (Nat.add_1_r k), repeat_app. cbn [repeat].
    rewrite !app_assoc. by intros [_ <-]%app_inj_tail.
Qed.

Lemma authorization_token68 scheme body k :
  is_token scheme = true -> is_token68 body = true ->
  authorization_try_parse (scheme ++ [SP] ++ body ++ repeat x3d k)
  = Value (Authorization (to_lower_case <$> scheme) (AuthToken (Token68 (body ++ repeat x3d k)))).
Proof.
  intros Hs Hb. eapply try_parse_reads; [by apply reads_authorization|done|].
  intros l c. by apply token68_end.
Qed.

Lemma base64_is_token68 body : forallb Base64.is_alpha body = true -> forallb is_token68_char body = true.
Proof.
  intros Hb. apply forallb_forall. intros c Hc. apply (proj1 (forallb_forall _ _) Hb) in Hc.
  assert (Hall : byte_all (fun c => implb (Base64.is_alpha c) (is_token68_char c)) = true)
    by (vm_compute; reflexivity).
  pose proof (byte_all_true _ Hall c) as Hx. cbn beta in Hx. by rewrite Hc in Hx.
Qed.

Lemma find_char_app c u v : Forall (fun d => d <> c) u -> find_char c (u ++ c :: v) = Some (length u).
Proof.
  induction 1 as [|d u Hd _ IH]; cbn; [by rewrite byte_eqb_refl|].
  rewrite (proj2 (byte_eqb_neq c d)) by congruence. by rewrite IH.
Qed.

Lemma find_char_absent c u : Forall (fun d => d <> c) u -> find_char c u = None.
Proof.
  induction 1 as [|d u Hd _ IH]; cbn; [done|]. rewrite (proj2 (byte_eqb_neq c d)) by congruence. by rewrite IH.
Qed.

(** The Base64 form of any text reaches the part behind the decoder. *)
Lemma basic_attempt_decodes scheme text :
  to_lower_case <$> scheme = bs "basic" -> text <> [] ->
  basic_extraction_attempt (Some (scheme ++ [SP] ++ Base64.encode text))
  = match find_char ":" text with
    | None => NotExtracted invalid_username_password_pair
    | Some O => NotExtracted empty_username
    | Some n => Extracted (BasicParams (take n text) (drop (S n) text))
    end.
Proof.
  intros Hs Hne. destruct (Base64.encode_shape _ Hne) as (body & k & He & Hb & _ & Hl & _).
  pose proof (Base64.try_decode_encode _ Hne) as Hd. rewrite He in *.
  unfold basic_extraction_attempt. change Base64.pad with x3d in *.
  rewrite authorization_token68, Hs.
  - rewrite bool_decide_true by done. cbn [negb]. unfold basic_extract.
    cbn [auth_param token68_value]. by rewrite Hd.
  - destruct scheme as [|a scheme]; [done|]. unfold is_token. rewrite bool_decide_false by done.
    cbn [negb andb]. apply forallb_forall. intros c Hin.
    assert (Hin' : In (to_lower_case c) (bs "basic")) by (rewrite <- Hs; by apply in_map).
    assert (Hall : byte_all (fun c => implb (existsb (Byte.eqb (to_lower_case c)) (bs "basic"))
      (is_token_char c)) = true) by (vm_compute; reflexivity).
    pose proof (byte_all_true _ Hall c) as Hx. cbn beta in Hx.
    rewrite (proj2 (existsb_exists _ _)) in Hx; [done|].
    exists (to_lower_case c). by rewrite byte_eqb_refl.
  - unfold is_token68. rewrite base64_is_token68 by done. by destruct body; [cbn in Hl; lia|].
Qed.

(** C34. Basic credentials: for every user name without a colon and every password, of
    any octets, and however the scheme is capitalised, the field [Basic] followed by the
    Base64 form of [user:password] is parsed and decoded to the same user name and
    password if the user name is not empty, and refused with [empty_username] if it is.
    A text without a colon is refused as no pair. *)
Theorem basic_auth_roundtrip scheme user pass :
  to_lower_case <$> scheme = bs "basic" -> Forall (fun c => c <> x3a) user ->
  basic_extraction_attempt (Some (scheme ++ [SP] ++ Base64.encode (user ++ x3a :: pass)))
  = (if decide (user = []) then NotExtracted empty_username else Extracted (BasicParams user pass)) /\
  (user <> [] ->
   basic_extraction_attempt (Some (scheme ++ [SP] ++ Base64.encode user))
   = NotExtracted invalid_username_password_pair).
Proof.
  intros Hs Hc. split; [|intros Hu; by rewrite basic_attempt_decodes, find_char_absent].
  rewrite basic_attempt_decodes, find_char_app by (done || by destruct user).
  destruct (decide (user = [])) as [->|Hu]; [done|].
  destruct (length user) as [|n] eqn:Hn; [by destruct user|]. rewrite <- Hn, take_app_length. do 2 f_equal.
  rewrite (cons_middle x3a user pass), app_assoc.
  replace (S (length user)) with (length (user ++ [x3a])) by (rewrite length_app; cbn; lia).
  apply drop_app_length.
Qed.

Lemma basic_auth_roundtrip_witness :
  basic_extraction_attempt (Some (bs "Basic QWxhZGRpbjpvcGVuIHNlc2FtZQ=="))
  = Extracted (BasicParams (bs "Aladdin") (bs "open sesame")).
Proof.
  apply (basic_auth_roundtrip (bs "Basic") (bs "Aladdin") (bs "open sesame"));
    [vm_compute; reflexivity|by repeat constructor].
Defined.

(** Bearer credentials: any token68 is given back as it was sent. *)
Lemma bearer_auth_token scheme body k :
  is_token scheme = true -> to_lower_case <$> scheme = bs "bearer" -> is_token68 body = true ->
  bearer_extraction_attempt (Some (scheme ++ [SP] ++ body ++ repeat x3d k))
  = Extracted (BearerParams (body ++ repeat x3d k)).
Proof.
  intros Hs Hl Hb. unfold bearer_extraction_attempt. rewrite authorization_token68, Hl by done.
  by rewrite bool_decide_true.
Qed.

(** A client reaches the decoder's read past the end with five characters. *)
Lemma basic_auth_out_of_bounds :
  basic_extraction_attempt (Some (bs "Basic QWxhZ")) = OutOfBounds 5.
Proof. vm_compute. reflexivity. Qed.

End Auth.
