(* ===== verification/FieldTheorems.v ===== *)
(** * Field values: round trips and totality

    What is printed by the forms of [FieldReads] is read back by the grammars of
    [FieldValues], and every field parser answers on every input. *)

From S2P Require Import Prelude HttpFields HttpResponse EasyParser ParserReads ParserNumbers FieldBasics FieldReads ParserEcho ParserKeeps FieldValues Host Auth.

Module FieldTheorems.
Import Caseless Parser ParserLaws Reads Numbers Basics FieldReads Echo Keeps FieldValues.
#[local] Open Scope parser_scope.

(** ** Media types *)

Definition media_type_ok (m : media_type_value_t) : bool :=
  is_token (type m) && is_lower (type m) && is_token (subtype m) && is_lower (subtype m) &&
  forallb param_ok (parameters m).
Definition print_media_type (m : media_type_value_t) : list byte :=
  type m ++ [x2f] ++ subtype m ++ print_params (parameters m).

Lemma no_param_token r : no_param r -> list_end r -> stops is_token_char r.
Proof. destruct r; [done|]. intros _ ->. done. Qed.

Lemma print_params_start ps (F : list byte -> Prop) r :
  (forall r, F r -> stops is_token_char r) -> F r -> stops is_token_char (print_params ps ++ r).
Proof. destruct ps; [|done]. cbn. auto. Qed.

(** The grammar of a media type over any reader of its parameters. *)
Lemma reads_media_type m (F : list byte -> Prop) (params : producer parameter_with_mandatory_value_container_t) :
  media_type_ok m = true -> (forall r, F r -> stops is_token_char r) ->
  reads params (print_params (parameters m)) (parameters m) F ->
  reads (produce no_media_type
    [ token_p ~> to_lower >> set_type; symbol "/"; token_p ~> to_lower >> set_subtype;
      params >> set_parameters ]) (print_media_type m) m F.
Proof.
  destruct m as [ty sub ps]. unfold media_type_ok, print_media_type. cbn [type subtype parameters].
  rewrite !andb_true_iff. intros ((((Ht & Htl) & Hs) & Hsl) & _) HF Hps. apply reads_produce.
  eapply reads_cons; [by apply reads_lower_token| |done].
  eapply (reads_cons_any _ _ _ [_]); [apply reads_symbol|].
  eapply reads_cons; [by apply reads_lower_token| |].
  - apply reads_single. by eapply reads_consume.
  - intros r Hr. by eapply print_params_start.
Qed.

Lemma reads_default_media_type m :
  media_type_ok m = true -> reads media_type_default_parser (print_media_type m) m (fun r => r = []).
Proof.
  intros Hm. apply reads_media_type; [done|by intros r ->|].
  eapply reads_weaken; [apply reads_params|by intros r ->].
  unfold media_type_ok in Hm. by apply andb_true_iff in Hm as [_ Hm].
Qed.

(** The end of a printed media type is not a space. *)
Lemma quote_end v l c : quote v = l ++ [c] -> c = x22.
Proof.
  unfold quote. rewrite app_comm_cons. by intros [_ ->]%app_inj_tail.
Qed.

Lemma token_end u l c : is_token u = true -> u = l ++ [c] -> is_space c = false.
Proof.
  intros [_ Hu]%is_token_ok ->. rewrite forallb_app, andb_true_iff in Hu. destruct Hu as [_ Hc].
  pose proof (token_no_space [c] []) as Hn. apply Hn. unfold is_token. by rewrite Hc.
Qed.

Lemma app_end {A} (u v l : list A) c : v <> [] -> u ++ v = l ++ [c] -> exists l', v = l' ++ [c].
Proof.
  intros Hv. destruct v as [|d v _] using rev_ind; [done|]. rewrite app_assoc.
  intros [_ ->]%app_inj_tail. by exists v.
Qed.

Lemma print_params_end ps l c : ps <> [] -> print_params ps = l ++ [c] -> c = x22.
Proof.
  intros Hps. destruct ps as [|p ps _] using rev_ind; [done|]. unfold print_params.
  rewrite fmap_app, concat_app. cbn [fmap list_fmap concat]. rewrite app_nil_r.
  intros (l1 & Hl1)%app_end; [|done]. unfold print_param in Hl1. rewrite !app_assoc in Hl1.
  symmetry in Hl1. apply eq_sym, app_end in Hl1 as (l2 & Hl2); [|done]. by apply quote_end in Hl2.
Qed.

Lemma print_media_type_end m l c :
  media_type_ok m = true -> print_media_type m = l ++ [c] -> is_space c = false.
Proof.
  unfold media_type_ok, print_media_type. rewrite !andb_true_iff. intros ((((_ & _) & Hs) & _) & _).
  destruct (parameters m) as [|p ps] eqn:Hp.
  - cbn [print_params fmap list_fmap concat]. rewrite app_nil_r, !app_assoc. intros Hl.
    apply app_end in Hl as (l' & Hl); [|by apply is_token_ok in Hs as [? _]]. by eapply token_end.
  - rewrite !app_assoc. intros (l' & Hl)%app_end; [|done]. apply print_params_end in Hl as ->; done.
Qed.

(** Content-Type: every media type with a type, a subtype and parameter
    names in lower case, and parameter values of any quotable octets, is read
    back from its text, with the parameters in order and their quoting
    undone. *)
Lemma content_type_reads m :
  media_type_ok m = true -> content_type_try_parse (print_media_type m) = Value m.
Proof.
  intros Hm. eapply try_parse_reads.
  - apply reads_produce, reads_single. eapply reads_consume; [by apply reads_default_media_type|done].
  - done.
  - intros l c. by apply print_media_type_end.
Qed.

(** ** Accept *)

(** Parameters behind a weight: a name, with or without a value. *)
Definition opt_param_ok (p : parameter_with_optional_value_t) : bool :=
  is_token p.1 && is_lower p.1 && match p.2 with Some v => forallb is_quotable v | None => true end.
Definition print_opt_param (p : parameter_with_optional_value_t) : list byte :=
  bs "; " ++ p.1 ++ match p.2 with Some v => x3d :: quote v | None => [] end.
Definition print_opt_params (ps : parameter_with_optional_value_container_t) : list byte :=
  concat (print_opt_param <$> ps).

(** What may follow a parameter: the next one, or the end of the item. *)
Definition param_end (r : list byte) : Prop :=
  match r with [] => True | c :: _ => c = x3b \/ c = x2c end.

Lemma param_end_stops r : param_end r -> stops is_token_char r /\ stops (Byte.eqb x3d) r.
Proof. destruct r; [done|]. by intros [-> | ->]. Qed.

Lemma reads_opt_param p :
  opt_param_ok p = true -> reads param_with_opt_value_p (print_opt_param p) p param_end.
Proof.
  destruct p as [n v]. unfold opt_param_ok, print_opt_param. cbn [fst snd].
  rewrite !andb_true_iff. intros [[Hn Hl] Hv]. apply reads_produce.
  eapply (reads_cons ows _ _ []); [by apply reads_ows| |done].
  eapply (reads_cons_any _ _ _ [_]); [apply reads_symbol|].
  eapply (reads_cons ows _ _ [SP]); [by apply reads_ows| |].
  - eapply reads_cons; [by apply (reads_lower_token _ _ _ (n, None))| |].
    + apply reads_single. destruct v as [v|].
      * apply (reads_c_weaken _ _ _ _ anything); [|done]. apply reads_maybe.
        eapply (reads_cons_any _ _ _ [_]); [apply reads_symbol|]. apply reads_single.
        eapply reads_other; [apply _|apply refuses_consume, refuses_token|..].
        -- intros r _. apply quoted_starts.
        -- apply reads_first. by eapply reads_consume; [apply reads_quoted|].
      * apply skips_maybe; [apply _|]. eapply refuses_all_weaken; [apply refuses_head, refuses_symbol|].
        intros r Hr. by apply param_end_stops.
    + intros r Hr. destruct v; [done|]. by apply param_end_stops.
  - intros r _. rewrite <- app_assoc. by apply token_no_space.
Qed.

Lemma param_end_more ps r : list_end r -> param_end (print_opt_params ps ++ r).
Proof.
  intros Hr. destruct ps; [|by left]. cbn. destruct r; [done|]. by right.
Qed.

Lemma items_opt_params ps acc :
  forallb opt_param_ok ps = true ->
  items [ param_with_opt_value_p >> to_container ] list_end acc (print_opt_param <$> ps) (acc ++ ps).
Proof.
  revert acc. induction ps as [|p ps IH]; intros acc; [rewrite app_nil_r; constructor|].
  cbn [forallb]. rewrite andb_true_iff. intros [Hp Hps]. cbn [fmap list_fmap]. eapply items_cons.
  - apply reads_single. eapply reads_consume; [by apply reads_opt_param|reflexivity].
  - intros r Hr. by apply param_end_more.
  - rewrite (cons_middle p acc ps), app_assoc. by apply IH.
Qed.

Lemma list_end_no_param r : list_end r -> no_param r.
Proof. destruct r; [done|]. by intros ->. Qed.

Lemma reads_opt_params ps :
  forallb opt_param_ok ps = true -> reads params_with_opt_value_p (print_opt_params ps) ps list_end.
Proof.
  intros Hps. apply reads_produce, reads_single, (reads_repeat_N _ _ _ _ (print_opt_param <$> ps)).
  - apply _.
  - by apply (items_opt_params ps []).
  - eapply refuses_all_weaken; [apply refuses_head, refuses_consume, refuses_produce, refuses_separator|].
    apply list_end_no_param.
  - intros pre r t Hr%list_end_no_param. revert pre r t Hr.
    apply leaves_head, refuses_produce, refuses_separator.
  - apply Forall_fmap, Forall_true. done.
  - lia.
Qed.

(** A printed parameter is not taken for a weight: its value is quoted. *)
Lemma refuses_qvalue : refuses qvalue_p (stops (fun x => Byte.eqb x30 x || Byte.eqb x31 x)).
Proof.
  intros pre rest Hs. unfold qvalue_p.
  assert (Hd : refuses qvalue_digits (fun r => r = rest)).
  { apply refuses_produce, refuses_head.
    apply refuses_alternatives; [apply _| |apply refuses_alternatives; [apply _| |apply refuses_alternatives_nil]];
      apply refuses_sequence, refuses_head; eapply refuses_c_weaken.
    - apply refuses_symbol.
    - intros r ->. destruct rest; [done|]. cbn [stops] in *. by destruct (proj1 (orb_false_iff _ _) Hs).
    - apply refuses_consume, refuses_symbol_if.
    - intros r ->. destruct rest; [done|]. cbn [stops] in *. by destruct (proj1 (orb_false_iff _ _) Hs). }
  destruct (Hd pre rest eq_refl) as (e & He & Hr). destruct (qvalue_digits _) as [r s'].
  cbn in He. subst r. by exists e.
Qed.

(** Behind the separator of a printed parameter. *)
Definition name_and_value (r : list byte) : Prop :=
  exists n v r', is_token n = true /\ r = n ++ [x3d] ++ quote v ++ r'.

Lemma refuses_weight_value :
  refuses_all [ caseless_symbol "q"; symbol "="; qvalue_p >> as_result ] name_and_value.
Proof.
  intros pre rest t (n & v & r' & Hn & ->). apply is_token_ok in Hn as [Hne Hn].
  destruct n as [|c n]; [done|]. cbn [app forallb] in *. apply andb_true_iff in Hn as [Hc Hn].
  destruct (Byte.eqb (to_lower_case "q") (to_lower_case c)) eqn:Hq.
  - assert (Hrd : forall t : qvalue_t, reads_c (caseless_symbol "q") t [c] t anything).
    { intros t0. eapply reads_consume; [by apply reads_symbol_if|done]. }
    eapply (refuses_tail (caseless_symbol "q") _ [c] id anything
      (fun r => r = n ++ x3d :: quote v ++ r')); [done| |done|by eexists].
    destruct n as [|d n].
    + intros pre' r t' ->. cbn [app].
      eapply (refuses_tail (symbol "=") _ [x3d] id anything (fun r => r = quote v ++ r'));
        [intros; apply reads_symbol| |done|by eexists].
      apply refuses_head, refuses_consume. intros pre2 r2 ->. by apply refuses_qvalue.
    + apply refuses_head. eapply refuses_c_weaken; [apply refuses_symbol|]. intros r ->. cbn [app stops].
      cbn [forallb] in Hn. apply andb_true_iff in Hn as [Hd _]. apply byte_eqb_neq. by intros <-.
  - eapply (refuses_head _ _ (fun r => r = c :: n ++ x3d :: quote v ++ r')); [|done].
    eapply refuses_c_weaken; [apply refuses_consume, refuses_symbol_if|]. by intros r ->.
Qed.

Definition param_text (r : list byte) : Prop :=
  exists p r', param_ok p = true /\ r = print_param p ++ r'.

Lemma refuses_weight_param : refuses weight_p param_text.
Proof.
  apply refuses_produce. eapply refuses_all_weaken.
  - eapply (refuses_tail ows _ [] id (stops is_space)); [intros; by apply reads_ows| |].
    + eapply (refuses_tail (symbol _) _ [x3b] id anything); [intros; apply reads_symbol| |done].
      eapply (refuses_tail ows _ [SP] id (stops is_space)); [intros; by apply reads_ows| |].
      * apply refuses_weight_value.
      * intros r (n & v & r' & Hn & ->). by apply token_no_space.
    + by intros r (r' & -> & _).
  - intros r ([n v] & r' & Hp & ->). unfold param_ok in Hp. rewrite !andb_true_iff in Hp. cbn [fst snd] in Hp.
    destruct Hp as [[Hn _] _]. unfold print_param. cbn [fst snd].
    eexists. split; [reflexivity|]. exists (SP :: (n ++ [x3d] ++ quote v) ++ r'). split; [done|].
    eexists. split; [reflexivity|]. exists n, v, r'. split; [done|]. by rewrite <- !app_assoc.
Qed.


(** The parameters of a media type end with the item or with a weight. *)
Definition media_type_end (r : list byte) : Prop :=
  list_end r \/ exists q r', qvalue_ok q /\ r = print_weight q ++ r'.

Lemma media_type_end_stops r : media_type_end r -> stops is_token_char r.
Proof. intros [Hr|(q & r' & _ & ->)]; [|done]. destruct r; [done|]. cbn in Hr. by subst. Qed.

Lemma reads_unweighted_param p :
  param_ok p = true -> reads unweighted_param_p (print_param p) p anything.
Proof.
  intros Hp pre rest _. pose proof (reads_param p Hp pre rest I) as Hr.
  unfold unweighted_param_p, param_with_value_p, produce, produce_with in *.
  remember (at_ pre (print_param p ++ rest)) as s eqn:Hs. cbn [all_of] in *.
  assert (Hnot : forall t : parameter_with_mandatory_value_t,
    not_clause [weight_p >> skip] s t = (Value tt, s, t)).
  { intros t. subst s. pose proof (reads_not [weight_p >> skip] t param_text) as Hn.
    specialize (Hn _ (refuses_head _ _ _ (refuses_consume _ _ _ refuses_weight_param)) pre).
    specialize (Hn (print_param p ++ rest)). rewrite app_nil_r in Hn. apply Hn. by exists p, rest. }
  rewrite Hnot. exact Hr.
Qed.

Lemma refuses_unweighted_param : refuses unweighted_param_p media_type_end.
Proof.
  intros pre rest [Hr|(q & r' & Hq & ->)].
  - assert (Hend : refuses unweighted_param_p (fun r => r = rest)); [|by apply Hend].
    apply refuses_produce, (refuses_tail_empty _ _ id).
    + intros t. apply reads_not; [apply _|].
      eapply refuses_all_weaken; [apply refuses_head, refuses_consume, refuses_weight|].
      intros r ->. by apply list_end_no_param.
    + eapply refuses_all_weaken; [apply refuses_separator|]. intros r ->. by apply list_end_no_param.
  - assert (Hend : refuses unweighted_param_p (fun r => exists r', r = print_weight q ++ r' /\ anything r')).
    { apply refuses_produce, refuses_head. eapply refuses_not. apply reads_single.
      eapply reads_consume; [by apply reads_weight|done]. }
    apply Hend. by exists r'.
Qed.

Lemma reads_weight_aware_media_type m :
  media_type_ok m = true ->
  reads media_type_weight_aware_parser (print_media_type m) m media_type_end.
Proof.
  intros Hm. apply reads_media_type; [done|apply media_type_end_stops|].
  apply andb_true_iff in Hm as [_ Hps].
  apply reads_produce, reads_single, (reads_repeat_N _ _ _ _ (print_param <$> parameters m)).
  - apply _.
  - apply (items_collect unweighted_param_p print_param (parameters m) []). intros p Hp.
    apply reads_unweighted_param. by eapply forallb_forall in Hps.
  - apply refuses_head, refuses_consume, refuses_unweighted_param.
  - apply leaves_head, refuses_unweighted_param.
  - apply Forall_fmap, Forall_true. done.
  - lia.
Qed.

Definition accept_item_ok (i : accept_item_t) : Prop :=
  media_type_ok (media_type i) = true /\ forallb opt_param_ok (accept_params i) = true /\
  match weight i with Some q => qvalue_ok q | None => accept_params i = [] end.
Definition print_accept_item (i : accept_item_t) : list byte :=
  print_media_type (media_type i) ++
  match weight i with Some q => print_weight q ++ print_opt_params (accept_params i) | None => [] end.

Lemma reads_accept_item i : accept_item_ok i -> reads accept_item_p (print_accept_item i) i list_end.
Proof.
  destruct i as [m w ps]. unfold accept_item_ok, print_accept_item. cbn [media_type weight accept_params].
  intros (Hm & Hps & Hw). apply reads_produce.
  eapply reads_cons; [eapply reads_consume; [by apply reads_weight_aware_media_type|done]|..].
  - apply reads_single. destruct w as [q|].
    + apply reads_maybe. eapply reads_cons_any; [eapply reads_consume; [by apply reads_weight|done]|].
      apply reads_single. eapply reads_consume; [by apply reads_opt_params|done].
    + subst ps. apply skips_maybe; [apply _|]. apply refuses_head.
      eapply refuses_c_weaken; [apply refuses_consume, refuses_weight|]. apply list_end_no_param.
  - intros r Hr. destruct w as [q|]; [|by left]. right. exists q, (print_opt_params ps ++ r).
    by rewrite <- app_assoc.
Qed.

Lemma token_item_start u r : is_token u = true -> item_start (u ++ r).
Proof.
  intros Hu. pose proof (token_no_space u r Hu) as Hs. apply is_token_ok in Hu as [Hne Hu].
  destruct u as [|c u]; [done|]. cbn in Hs. split; [done|]. intros ->. done.
Qed.

Lemma accept_item_starts i : accept_item_ok i -> item_start (print_accept_item i).
Proof.
  intros (Hm & _). unfold print_accept_item, print_media_type. rewrite <- app_assoc.
  apply token_item_start. unfold media_type_ok in Hm. rewrite !andb_true_iff in Hm. apply Hm.
Qed.

Lemma opt_param_end p l c : opt_param_ok p = true -> print_opt_param p = l ++ [c] -> is_space c = false.
Proof.
  destruct p as [n [v|]]; unfold opt_param_ok, print_opt_param; cbn [fst snd];
    rewrite !andb_true_iff; intros [[Hn _] _]; rewrite !app_assoc; intros Hl.
  - apply app_end in Hl as (l' & Hl); [|done]. apply (app_end [x3d]) in Hl as (l2 & Hl); [|done].
    by apply quote_end in Hl as ->.
  - rewrite app_nil_r in Hl. apply app_end in Hl as (l' & Hl); [by eapply token_end|].
    by apply is_token_ok in Hn as [? _].
Qed.

Lemma weight_end q l c : qvalue_ok q -> print_weight q = l ++ [c] -> is_space c = false.
Proof.
  intros Hq. unfold print_weight, as_string. destruct (qvalue_maximum =? as_uint q).
  - change (bs ";q=" ++ bs "1.000") with (bs ";q=1.00" ++ [x30]). by intros [_ <-]%app_inj_tail.
  - cbv zeta. set (d := as_uint q mod 100 mod 10).
    change (?a ++ [?b; ?c; ?d; ?e; ?f]) with (a ++ [b; c; d; e] ++ [f]). rewrite app_assoc.
    intros [_ <-]%app_inj_tail. unfold is_space.
    assert (Hd : 0 <= d < 10) by (apply Z.mod_pos_bound; lia).
    assert (Hu : u8 (b8 (0x30 + d)) = 0x30 + d) by (apply u8_b8_small; lia).
    apply orb_false_iff. split; apply byte_eqb_neq; intros He; rewrite He in Hu; cbn in Hu; lia.
Qed.

Lemma accept_item_end i l c :
  accept_item_ok i -> print_accept_item i = l ++ [c] -> is_space c = false.
Proof.
  destruct i as [m [q|] ps]; unfold accept_item_ok, print_accept_item; cbn [media_type weight accept_params];
    intros (Hm & Hps & Hw); [|rewrite app_nil_r; by apply print_media_type_end].
  intros (l1 & Hl)%app_end; [|done]. destruct ps as [|p ps _] using rev_ind.
  - cbn [print_opt_params fmap list_fmap concat] in Hl. rewrite app_nil_r in Hl. by eapply weight_end.
  - rewrite forallb_app, andb_true_iff in Hps. destruct Hps as [_ Hp]. cbn in Hp. rewrite andb_true_r in Hp.
    unfold print_opt_params in Hl. rewrite fmap_app, concat_app in Hl. cbn [fmap list_fmap concat] in Hl.
    rewrite app_nil_r, app_assoc in Hl. apply app_end in Hl as (l2 & Hl); [|done]. by eapply opt_param_end.
Qed.

(** Accept: every list of media ranges, each with its parameters, an
    optional quality value from 0 to 1.000 and, behind that, extension
    parameters with or without values, is read back from its text.  The weight
    is never taken for a parameter of the media type nor a parameter for the
    weight, and the empty list is the empty field. *)
Theorem accept_roundtrip items :
  Forall accept_item_ok items -> accept_try_parse (print_list print_accept_item items) = Value items.
Proof.
  intros Hi. eapply try_parse_reads.
  - apply reads_produce, reads_single. eapply reads_consume; [|done].
    eapply (reads_maybe_empty_list accept_item_p print_accept_item accept_item_ok);
      [apply reads_accept_item|apply accept_item_starts| |done].
    apply refuses_produce, refuses_head, refuses_consume, refuses_produce, refuses_head, refuses_consume,
      refuses_transform. intros pre rest ->. by apply refuses_token.
  - done.
  - intros l c. apply (print_list_end print_accept_item accept_item_ok);
      [apply accept_item_starts|done|intros ? ? ?; apply accept_item_end].
Qed.

Definition sample_accept : accept_value_t :=
  [ AcceptItem (MediaType (bs "text") (bs "*") [(bs "q", bs "0.5")]) (Some (QValue 305))
      [(bs "ext", None); (bs "v", Some (bs "a,b"))];
    AcceptItem (MediaType (bs "*") (bs "*") []) None [] ].

Lemma accept_roundtrip_witness :
  accept_try_parse (print_list print_accept_item sample_accept) = Value sample_accept.
Proof.
  apply accept_roundtrip. repeat apply Forall_cons_2; [..|apply Forall_nil_2];
    (split_and!; [vm_compute; reflexivity..|]); [unfold qvalue_ok; cbn; lia|reflexivity].
Defined.

(** ** Weights are quality values *)

Lemma digit_keeps m lo hi :
  0 <= lo <= hi -> 0 < m -> hi + m * 9 < 2 ^ 16 ->
  forall s t s' t', lo <= t <= hi -> (digit_p >> digit_consumer m) s t = (Value tt, s', t') -> lo <= t' <= hi + m * 9.
Proof.
  intros Hlo Hm Hb s t s' t' Ht (c & Hc & [= <-])%consume_inv.
  unfold digit_p, symbol_if in Hc. destruct (getch s) as [[d|] s1]; [|done].
  destruct (is_digit d) eqn:Hd; [|done]. injection Hc as -> _. unfold is_digit, in_range in Hd.
  unfold wrap. rewrite (Z.mod_small (u8 c - 0x30)), Z.mod_small by nia. nia.
Qed.

Lemma symbol_same {T} b s (t : T) s' t' : symbol b s t = (Value tt, s', t') -> t' = t.
Proof. by intros (c & _ & [= <-])%consume_inv. Qed.

(** [maybe] that reads one more digit of weight [m], and what follows it. *)
Lemma maybe_digit m hi hi' rest s t s' t' :
  0 <= hi -> 0 < m -> hi + m * 9 < 2 ^ 16 -> hi <= hi' -> SafeClauses rest -> wf s -> 0 <= t <= hi ->
  (forall s1 t1, wf s1 -> 0 <= t1 <= hi + m * 9 -> all_of rest s1 t1 = (Value tt, s', t') -> 0 <= t' <= hi') ->
  maybe (digit_p >> digit_consumer m :: rest) s t = (Value tt, s', t') -> 0 <= t' <= hi'.
Proof.
  intros Hhi Hm Hb Hle Hs Hw Ht Hrest Hmaybe. apply maybe_inv in Hmaybe as [Ha|[_ ->]]; [|lia|apply _|done].
  apply all_of_cons_inv in Ha as (s1 & t1 & H1 & H2). eapply Hrest; [| |exact H2].
  - assert (Hsafe : SafeClause (digit_p >> digit_consumer m)) by apply _. pose proof (Hsafe s t Hw) as Hg.
    rewrite H1 in Hg. by eapply good_wf.
  - eapply (digit_keeps m 0 hi); [lia|lia|lia|exact Ht|exact H1].
Qed.

Lemma symbol_wf {T} b s (t : T) s' t' : wf s -> symbol b s t = (Value tt, s', t') -> wf s'.
Proof. intros Hw Hs. by apply (symbol_inv _ _ _ _ _ Hw) in Hs as (_ & _ & _ & _ & ?). Qed.

#[global] Instance yields_qvalue_digits : Yields qvalue_digits (fun v => 0 <= v <= 1000).
Proof.
  intros s v s' Hw Hp%produce_inv%all_of_single_inv. apply alternatives_inv in Hp; [|apply _|done].
  apply Exists_cons in Hp as [Hp|Hp]; [|apply Exists_cons in Hp as [Hp|Hp]; [|by apply Exists_nil in Hp]];
    unfold sequence in Hp; destruct (all_of _ _ _) as [[[[]|e|a] s0] t0] eqn:Ha; try done; injection Hp as <- <-.
  - apply all_of_cons_inv in Ha as (s1 & t1 & H1 & Ha%all_of_single_inv).
    pose proof (symbol_wf _ _ _ _ _ Hw H1) as Hw1. apply symbol_same in H1 as ->.
    apply maybe_inv in Ha as [Ha|[_ ->]]; [|lia|apply _|done].
    apply all_of_cons_inv in Ha as (s2 & t2 & H2 & Ha%all_of_single_inv).
    pose proof (symbol_wf _ _ _ _ _ Hw1 H2) as Hw2. apply symbol_same in H2 as ->.
    assert (Hr : 0 <= t0 <= 999); [|lia].
    refine (maybe_digit 100 0 999 _ s2 0 _ _ ltac:(lia) ltac:(lia) ltac:(lia) ltac:(lia) _ Hw2 ltac:(lia) _ Ha).
    intros s3 t3 Hw3 Ht3 H3%all_of_single_inv.
    refine (maybe_digit 10 900 999 _ s3 t3 _ _ ltac:(lia) ltac:(lia) ltac:(lia) ltac:(lia) _ Hw3 ltac:(lia) _ H3).
    intros s4 t4 Hw4 Ht4 H4%all_of_single_inv.
    refine (maybe_digit 1 990 999 _ s4 t4 _ _ ltac:(lia) ltac:(lia) ltac:(lia) ltac:(lia) _ Hw4 ltac:(lia) _ H4).
    intros s5 t5 _ Ht5 [= _ <-]. lia.
  - apply all_of_cons_inv in Ha as (s1 & t1 & (c & H1 & Ht)%consume_inv & Ha).
    assert (Hk : Keeps (maybe [ symbol "."; maybe [ symbol "0"; maybe [ symbol "0"; maybe [ symbol (T := Z) "0" ] ] ] ])
      (fun t => t = 1000)) by apply _.
    apply all_of_single_inv in Ha.
    assert (Hc : c = x31).
    { unfold symbol_p, symbol_if in H1. destruct (getch s) as [[d|] s2]; [|done].
      destruct (Byte.eqb "1" d) eqn:Hd; [|done]. injection H1 as -> _. by apply byte_eqb_eq in Hd. }
    subst c. assert (Ht1 : t1 = 1000) by (unfold digit_consumer, custom_consumer in Ht; by injection Ht as <-).
    assert (Hs : SafeProducer (symbol_p "1")) by apply _. pose proof (Hs s Hw) as Hg. rewrite H1 in Hg.
    specialize (Hk s1 t1 (good_wf _ _ _ Hg) Ht1). rewrite Ha in Hk. cbn in Hk. lia.
Qed.

#[global] Instance yields_qvalue : Yields qvalue_p qvalue_ok.
Proof.
  intros s q s' Hw. unfold qvalue_p. destruct (qvalue_digits s) as [[v|e|a] s1] eqn:Hv; [|done..].
  intros [= <- _]. apply yields_qvalue_digits in Hv; [|done]. unfold qvalue_ok, trusted, wrap. cbn [as_uint].
  rewrite Z.mod_small; lia.
Qed.

#[global] Instance yields_weight : Yields weight_p qvalue_ok.
Proof.
  apply yields_produce; [unfold qvalue_ok; cbn; lia|]. unfold caseless_symbol.
  pose proof (keeps_consume qvalue_p as_result qvalue_ok qvalue_ok _ _).
  pose proof (keeps_consume (caseless_symbol_p "q") (skip (T := qvalue_t)) (fun _ => True) qvalue_ok _ _).
  apply _.
Qed.

Definition accept_weight_ok (i : accept_item_t) : Prop :=
  match weight i with Some q => qvalue_ok q | None => True end.
Definition item_weight_ok (i : weighted_item_t) : Prop := qvalue_ok (item_weight i).

(** Setting another field keeps the weight, setting the weight a quality value. *)
#[global] Hint Extern 5 (ConsumerKeeps (custom_consumer _) _ _) =>
  apply keeps_custom; unfold accept_weight_ok, item_weight_ok in *; cbn; intuition : typeclass_instances.

Lemma yields_accept_item : Yields accept_item_p accept_weight_ok.
Proof.
  apply yields_produce; [done|].
  pose proof (keeps_consume media_type_weight_aware_parser
    (custom_consumer (fun t v => AcceptItem v (weight t) (accept_params t))) (fun _ => True) accept_weight_ok _ _).
  pose proof (keeps_consume weight_p
    (custom_consumer (fun t v => AcceptItem (media_type t) (Some v) (accept_params t))) qvalue_ok accept_weight_ok _ _).
  pose proof (keeps_consume params_with_opt_value_p
    (custom_consumer (fun t v => AcceptItem (media_type t) (weight t) v)) (fun _ => True) accept_weight_ok _ _).
  apply _.
Qed.

(** Items of a name and a weight, whatever reads the name. *)
Lemma yields_weighted_item (p : producer (list byte)) :
  SafeProducer p ->
  Yields (produce no_item [ p >> set_item_name; maybe [ weight_p >> set_item_weight ] ]) item_weight_ok.
Proof.
  intros Hp. apply yields_produce; [unfold item_weight_ok, qvalue_ok; cbn; unfold qvalue_maximum; lia|].
  unfold set_item_name, set_item_weight.
  pose proof (keeps_consume p (custom_consumer (fun t v => WeightedItem v (item_weight t)))
    (fun _ => True) item_weight_ok _ _).
  pose proof (keeps_consume weight_p (custom_consumer (fun t v => WeightedItem (item_name t) v))
    qvalue_ok item_weight_ok _ _).
  apply _.
Qed.

Lemma yields_list {A} (p : producer (list A)) (P : A -> Prop) :
  Yields p (Forall P) -> Yields (produce [] [ p >> as_result ]) (Forall P).
Proof.
  intros Hp. apply yields_produce; [constructor|].
  assert (Hk : KeepsAll [] (Forall P)) by apply _. intros s t Hw Ht. cbn [all_of].
  pose proof (keeps_consume p as_result (Forall P) (Forall P) _ _ s t Hw Ht) as Hx.
  by destruct ((p >> as_result) s t) as [[[[]|e|a] s1] t1].
Qed.

(** C38. The type of weights: whatever the text of an Accept, Accept-Charset,
    Accept-Encoding or Accept-Language field, every weight in the value it is
    parsed to is a quality value, from 0 to 1000 thousandths. *)
Theorem parsed_weights_in_range (what : list byte) :
  (forall v, accept_try_parse what = Value v -> Forall accept_weight_ok v) /\
  (forall v, accept_charset_try_parse what = Value v -> Forall item_weight_ok v) /\
  (forall v, accept_encoding_try_parse what = Value v -> Forall item_weight_ok v) /\
  (forall v, accept_language_try_parse what = Value v -> Forall item_weight_ok v).
Proof.
  split_and!; intros v; apply try_parse_yields, yields_list.
  - apply yields_maybe_empty_list; [apply _|apply yields_accept_item].
  - apply yields_non_empty_list; [apply _|apply yields_weighted_item, _].
  - apply yields_maybe_empty_list; [apply _|apply yields_weighted_item, _].
  - apply yields_non_empty_list; [apply _|apply yields_weighted_item, _].
Qed.

Lemma parsed_weights_in_range_witness : Forall item_weight_ok [WeightedItem (bs "gzip") (QValue 500)].
Proof.
  destruct (parsed_weights_in_range (bs "gzip;q=0.5")) as (_ & _ & Hw & _).
  apply Hw. vm_compute. reflexivity.
Defined.

(** ** Totality *)

(** An answer: a value, or an error whose position is inside the text. *)
Definition answers {A} (try_parse : list byte -> expected A) (what : list byte) : Prop :=
  match try_parse what with
  | Value _ => True
  | Unexpected e => (position e <= length what)%nat
  | Abnormal _ => False
  end.

Lemma safe_answers {A} (p : producer A) what : SafeProducer p -> answers (fun what => try_parse what p) what.
Proof. apply try_parse_safe. Qed.

(** C29. Every field parser answers on every text: it ends, without an exception
    and without undefined behaviour, with a value or with an error whose
    position is inside the text.  The grammars nest repetitions without a
    bound, comments nest without a bound, and a repetition whose body succeeds
    without reading would not end; none does. *)
Theorem field_parsers_answer (T : int_type) (what : list byte) :
  answers accept_try_parse what /\
  answers accept_charset_try_parse what /\
  answers accept_encoding_try_parse what /\
  answers accept_language_try_parse what /\
  answers media_type_try_parse what /\
  answers content_type_try_parse what /\
  answers content_encoding_try_parse what /\
  answers connection_try_parse what /\
  answers cache_control_try_parse what /\
  answers user_agent_try_parse what /\
  answers transfer_encoding_try_parse what /\
  answers (range_try_parse T) what /\
  answers content_disposition_try_parse what /\
  answers Host.host_try_parse what /\
  answers Auth.authorization_try_parse what.
Proof. split_and!; apply safe_answers; apply _. Qed.

End FieldTheorems.
