(* ===== verification/Multipart.v ===== *)
(** * Multipart bodies and file uploads

    Model of multipart_body.hpp, file_upload.hpp and string_algo.hpp in
    src/web/restinio/restinio/helpers/: splitting a body at a boundary, parsing a
    part, finding the boundary in the Content-Type field, and the enumeration of
    parts and of uploaded files.  A handler is a function of a state of its own
    and of the part it is given. *)

From S2P Require Import Prelude HttpFields HttpHeaders HttpResponse EasyParser ParserReads FieldBasics FieldReads FieldValues.

Module Multipart.
Import Caseless HttpField Fields Parser ParserLaws Reads Basics FieldReads FieldValues.
#[local] Open Scope parser_scope.

(** ** string_algo.hpp and [string_view_t::find] *)

Fixpoint starts_with (where_ what : list byte) {struct what} : bool :=
  match what, where_ with
  | [], _ => true
  | b :: what, c :: where_ => Byte.eqb c b && starts_with where_ what
  | _ :: _, [] => false
  end.

Definition ends_with (where_ what : list byte) : bool :=
  (length what <=? length where_)%nat &&
  bool_decide (drop (length where_ - length what) where_ = what).

Fixpoint find_sub (where_ what : list byte) : option nat :=
  if starts_with where_ what then Some 0%nat
  else match where_ with [] => None | _ :: where_ => S <$> find_sub where_ what end.

(** ** Splitting *)

Definition CR : byte := x0d.
Definition LF : byte := x0a.
Definition eol : list byte := [CR; LF].
Definition last_separator : list byte := [x2d; x2d; CR; LF].

(** The boundary at [pos] does not follow a line end. *)
Definition not_after_eol (body : list byte) (pos : nat) : bool :=
  (pos <? length eol)%nat ||
  negb (bool_decide (take (length eol) (drop (pos - length eol) body) = eol)).

(** The loop; every round removes at least a line end, so a unit of [n] for
    every octet left and one more is enough ([split_loop_enough]). *)
Fixpoint split_loop (n : nat) (boundary remaining_body : list byte) (tmp_result : list (list byte))
  : list (list byte) :=
  match n with
  | O => []
  | S n =>
      if starts_with remaining_body eol then
        let remaining_body := drop (length eol) remaining_body in
        match find_sub remaining_body boundary with
        | None => []
        | Some boundary_pos =>
            if not_after_eol remaining_body boundary_pos then []
            else
              let tmp_result := tmp_result ++ [take (boundary_pos - length eol) remaining_body] in
              let remaining_body := drop (boundary_pos + length boundary) remaining_body in
              if starts_with remaining_body last_separator then tmp_result
              else split_loop n boundary remaining_body tmp_result
        end
      else []
  end.

Definition split_multipart_body (body boundary : list byte) : list (list byte) :=
  match find_sub body boundary with
  | None => []
  | Some boundary_pos =>
      if negb (boundary_pos =? 0)%nat && not_after_eol body boundary_pos then []
      else
        let remaining_body := drop (boundary_pos + length boundary) body in
        if starts_with remaining_body last_separator then []
        else split_loop (S (length remaining_body)) boundary remaining_body []
  end.

(** ** Parts *)

Record parsed_part_t := ParsedPart { part_fields : http_header_fields_t; part_body : list byte }.

(** [body_producer_t] does not move the position. *)
Definition body_p : producer (list byte) := fun s =>
  match fragment (m_index s) s with
  | Some rest => (Value rest, s)
  | None => (Abnormal (Thrown "std::out_of_range"), s)
  end.

Definition is_value_char (ch : byte) : bool := negb (Byte.eqb ch CR) && negb (Byte.eqb ch LF).

Definition field_value_p : producer (list byte) := fun s =>
  let '(accumulator, at_eof, s') := span_loop is_value_char (remaining s) s [] in
  if at_eof then (fail (m_index s') unexpected_eof, s') else (Value accumulator, s').

Definition no_field : http_header_field_t := mk_field [] [] field_unspecified.

Definition part_field_p : producer http_header_field_t :=
  produce no_field
    [ token_p ~> to_lower >> custom_consumer (fun f v => set_name v f);
      symbol ":"; ows;
      field_value_p >> custom_consumer (fun f v => set_value v f);
      symbol CR; symbol LF ].

Definition part_fields_p : producer http_header_fields_t :=
  produce [] [ repeat_ 0 N [ part_field_p >> custom_consumer (fun to_ v => add_field_obj v to_) ] ].

Definition part_parser : producer parsed_part_t :=
  produce (ParsedPart [] [])
    [ part_fields_p >> custom_consumer (fun t v => ParsedPart v (part_body t));
      symbol CR; symbol LF;
      body_p >> custom_consumer (fun t v => ParsedPart (part_fields t) v) ].

Definition try_parse_part (part : list byte) : expected parsed_part_t := (part_parser (make_source part)).1.

(** ** The boundary *)

Inductive handling_result_t := continue_enumeration | stop_enumeration | terminate_enumeration.
#[global] Instance handling_result_eq_dec : EqDecision handling_result_t.
Proof. solve_decision. Defined.

Inductive enumeration_error_t :=
| content_type_field_not_found
| content_type_field_parse_error
| content_type_field_inappropriate_value
| illegal_boundary_value
| no_parts_found
| terminated_by_handler
| unexpected_error.

Definition is_bcharnospace (ch : byte) : bool :=
  in_range 0x30 0x39 ch || (in_range 0x41 0x5A ch || in_range 0x61 0x7A ch) ||
  existsb (Byte.eqb ch) (bs "'()+_,-./:=?").
Definition is_bchar (ch : byte) : bool := is_bcharnospace ch || Byte.eqb ch SP.

(** The loop over all characters but the last, then the last. *)
Fixpoint check_boundary_chars (value : list byte) : option enumeration_error_t :=
  match value with
  | [] => None
  | [last_char] => if negb (is_bcharnospace last_char) then Some illegal_boundary_value else None
  | ch :: value => if negb (is_bchar ch) then Some illegal_boundary_value else check_boundary_chars value
  end.

Definition check_boundary_value (value : list byte) : option enumeration_error_t :=
  if (1 <=? length value)%nat && (length value <=? 70)%nat then check_boundary_chars value
  else Some illegal_boundary_value.

(** Results of the helpers; [Broken] stands for an abnormal end of a parser. *)
Inductive result_t (E A : Type) : Type :=
| Done (a : A)
| Failed (e : E)
| Broken (a : abnormal).
Arguments Done {E A} a.
Arguments Failed {E A} e.
Arguments Broken {E A} a.

Definition detect_boundary_for_multipart_body (header : http_header_fields_t)
    (expected_media_type : list byte) (expected_media_subtype : option (list byte))
  : result_t enumeration_error_t (list byte) :=
  match opt_value_of_id content_type header with
  | None => Failed content_type_field_not_found
  | Some content_type_value =>
      match content_type_try_parse content_type_value with
      | Unexpected _ => Failed content_type_field_parse_error
      | Abnormal a => Broken a
      | Value m =>
          if negb (is_equal_caseless expected_media_type (type m))
          then Failed content_type_field_inappropriate_value
          else if match expected_media_subtype with
                  | Some sub => negb (is_equal_caseless sub (subtype m))
                  | None => false
                  end
          then Failed content_type_field_inappropriate_value
          else
            match find_first (parameters m) (bs "boundary") with
            | None => Failed content_type_field_inappropriate_value
            | Some boundary =>
                match check_boundary_value boundary with
                | Some e => Failed e
                | None => Done (bs "--" ++ boundary)
                end
            end
      end
  end.

(** ** Enumeration *)

Section Enumeration.
Context {St : Type} (handler : St -> parsed_part_t -> handling_result_t * St).

Fixpoint enumerate_loop (parts : list (list byte)) (parts_processed : nat) (st : St)
  : result_t enumeration_error_t nat * St :=
  match parts with
  | [] => (Done parts_processed, st)
  | current_part :: parts =>
      match try_parse_part current_part with
      | Unexpected _ => (Failed unexpected_error, st)
      | Abnormal a => (Broken a, st)
      | Value part =>
          let '(handler_ret_code, st) := handler st part in
          match handler_ret_code with
          | terminate_enumeration => (Failed terminated_by_handler, st)
          | stop_enumeration => (Done (S parts_processed), st)
          | continue_enumeration => enumerate_loop parts (S parts_processed) st
          end
      end
  end.

Definition enumerate_parts_of_request_body (parts : list (list byte)) (st : St) :=
  enumerate_loop parts 0 st.

Definition enumerate_parts (header : http_header_fields_t) (body : list byte)
    (expected_media_type : list byte) (expected_media_subtype : option (list byte)) (st : St)
  : result_t enumeration_error_t nat * St :=
  match detect_boundary_for_multipart_body header expected_media_type expected_media_subtype with
  | Done boundary =>
      match split_multipart_body body boundary with
      | [] => (Failed no_parts_found, st)
      | parts => enumerate_parts_of_request_body parts st
      end
  | Failed e => (Failed e, st)
  | Broken a => (Broken a, st)
  end.

End Enumeration.

(** ** file_upload.hpp *)

Inductive upload_error_t :=
| upload_content_type_field_not_found
| upload_content_type_field_parse_error
| upload_content_type_field_inappropriate_value
| upload_illegal_boundary_value
| content_disposition_field_parse_error
| content_disposition_field_inappropriate_value
| upload_no_parts_found
| no_files_found
| upload_terminated_by_handler
| upload_unexpected_error.

Definition translate_enumeration_error (original : enumeration_error_t) : upload_error_t :=
  match original with
  | content_type_field_not_found => upload_content_type_field_not_found
  | content_type_field_parse_error => upload_content_type_field_parse_error
  | content_type_field_inappropriate_value => upload_content_type_field_inappropriate_value
  | illegal_boundary_value => upload_illegal_boundary_value
  | no_parts_found => upload_no_parts_found
  | terminated_by_handler => upload_terminated_by_handler
  | unexpected_error => upload_unexpected_error
  end.

Record part_description_t := PartDescription {
  fields : http_header_fields_t;
  body : list byte;
  name : list byte;
  filename_star : option (list byte);
  filename : option (list byte)
}.

Definition analyze_part (parsed_part : parsed_part_t) : result_t upload_error_t part_description_t :=
  match opt_value_of_id content_disposition (part_fields parsed_part) with
  | None => Failed no_files_found
  | Some disposition_field =>
      match content_disposition_try_parse disposition_field with
      | Unexpected _ => Failed content_disposition_field_parse_error
      | Abnormal a => Broken a
      | Value parsed_disposition =>
          if negb (bool_decide (bs "form-data" = disposition parsed_disposition))
          then Failed no_files_found
          else
            match find_first (disposition_parameters parsed_disposition) (bs "name") with
            | None => Failed content_disposition_field_inappropriate_value
            | Some name =>
                let filename_star :=
                  find_first (disposition_parameters parsed_disposition) (bs "filename*") in
                let filename :=
                  find_first (disposition_parameters parsed_disposition) (bs "filename") in
                match filename_star, filename with
                | None, None => Failed no_files_found
                | _, _ =>
                    Done (PartDescription (part_fields parsed_part) (part_body parsed_part)
                            name filename_star filename)
                end
            end
      end
  end.

Section Upload.
Context {St : Type} (handler : St -> part_description_t -> handling_result_t * St).

(** What the lambda captures: the handler's state, [files_found], [error]. *)
Record upload_state := UploadState {
  handler_state : St;
  files_found : nat;
  error : option upload_error_t;
  broken : option abnormal
}.

Definition part_handler (u : upload_state) (part : parsed_part_t) : handling_result_t * upload_state :=
  match analyze_part part with
  | Done description =>
      let '(r, st) := handler (handler_state u) description in
      (r, UploadState st (S (files_found u)) (error u) (broken u))
  | Failed no_files_found => (continue_enumeration, u)
  | Failed e => (terminate_enumeration, UploadState (handler_state u) (files_found u) (Some e) (broken u))
  | Broken a => (terminate_enumeration, UploadState (handler_state u) (files_found u) (error u) (Some a))
  end.

Definition enumerate_parts_with_files (header : http_header_fields_t) (body : list byte)
    (expected_media_type expected_media_subtype : list byte) (st : St)
  : result_t upload_error_t nat * St :=
  let '(result, u) :=
    enumerate_parts part_handler header body expected_media_type (Some expected_media_subtype)
      (UploadState st 0 None None) in
  (match broken u, error u, result with
   | Some a, _, _ => Broken a
   | None, Some e, _ => Failed e
   | None, None, Failed e => Failed (translate_enumeration_error e)
   | None, None, Broken a => Broken a
   | None, None, Done _ => Done (files_found u)
   end, handler_state u).

End Upload.

End Multipart.
