(* ===== verification/MultipartTheorems.v ===== *)
(** * Multipart bodies and file uploads: theorems

    Splitting gives back the parts a body was made of, a part gives back its
    fields and its body, and a form upload reaches the handler file by file.  Texts
    are generated from the ways a client may write them: parameters as tokens,
    quoted or extended, names in any case, fields in any order, parts that are files
    and parts that are not. *)

From S2P Require Import Prelude HttpFields HttpHeaders HttpResponse EasyParser ParserReads FieldBasics FieldReads FieldValues FieldTheorems Multipart.

Module MultipartTheorems.
Import Caseless HttpField Fields Parser ParserLaws Reads Basics FieldReads FieldValues FieldTheorems Multipart.
#[local] Open Scope parser_scope.

(** ** Searching *)

Lemma starts_with_iff w x : starts_with w x = true <-> exists r, w = x ++ r.
Proof.
  revert w. induction x as [|b x IH]; intros w; cbn; [split; [by exists w|done]|].
  destruct w as [|c w]; [split; [done|by intros [r ?]]|].
  rewrite andb_true_iff, IH, byte_eqb_eq. split.
  - intros [-> [r ->]]. by exists r.
  - intros [r [= -> ->]]. split; [done|by exists r].
Qed.

Lemma starts_with_app x r : starts_with (x ++ r) x = true.
Proof. apply starts_with_iff. by exists r. Qed.

(** The first occurrence. *)
Lemma find_sub_first u x r :
  (forall u' r', u ++ x ++ r = u' ++ x ++ r' -> (length u <= length u')%nat) ->
  find_sub (u ++ x ++ r) x = Some (length u).
Proof.
  induction u as [|c u IH]; intros Hmin.
  - cbn [app length]. assert (Hs := starts_with_app x r). destruct (x ++ r); cbn [find_sub]; by rewrite Hs.
  - cbn [app find_sub]. destruct (starts_with (c :: u ++ x ++ r) x) eqn:Hs.
    { apply starts_with_iff in Hs as [r' Hr]. specialize (Hmin [] r' Hr). cbn in Hmin. lia. }
    rewrite IH; [done|]. intros u' r' He. specialize (Hmin (c :: u') r'). cbn in Hmin.
    rewrite He in Hmin. specialize (Hmin eq_refl). lia.
Qed.

Lemma find_sub_none w x : find_sub w x = None -> forall u r, w <> u ++ x ++ r.
Proof.
  induction w as [|c w IH]; cbn [find_sub]; destruct (starts_with _ x) eqn:Hs; try done.
  - intros _ [|d u] r Hw; [|done]. cbn in Hw. rewrite Hw, starts_with_app in Hs. done.
  - destruct (find_sub w x) eqn:Hf; [done|]. intros _ [|d u] r Hw.
    + cbn [app] in Hw. rewrite Hw, starts_with_app in Hs. done.
    + injection Hw as -> Hw. by eapply IH.
Qed.

(** A boundary without line ends that does not occur in a part occurs first
    behind the line that ends the part. *)
Section Boundary.
Context (boundary : list byte) (boundary_nonempty : boundary <> []).
Context (boundary_chars : Forall (fun c => c <> CR /\ c <> LF) boundary).

Definition free_of (part : list byte) : Prop := find_sub part boundary = None.

Lemma boundary_lookup i c : boundary !! i = Some c -> c <> CR /\ c <> LF.
Proof. intros Hi. by eapply Forall_lookup_1 in boundary_chars. Qed.

Lemma boundary_first part r :
  free_of part -> find_sub (part ++ eol ++ boundary ++ r) boundary = Some (length part + 2)%nat.
Proof.
  intros Hf. rewrite (app_assoc part eol). rewrite find_sub_first; [by rewrite length_app|].
  intros u' r' He. rewrite length_app. cbn [length eol].
  destruct (decide (length part + 2 <= length u')%nat) as [|Hlt]; [done|exfalso].
  assert (Hcr : (part ++ eol) !! length part = Some CR) by (rewrite lookup_app_r, Nat.sub_diag by lia; done).
  assert (Hlf : (part ++ eol) !! S (length part) = Some LF)
    by (rewrite lookup_app_r by lia; by replace (S (length part) - length part)%nat with 1%nat by lia).
  assert (Hat : forall i c, (part ++ eol) !! i = Some c -> (length u' <= i)%nat ->
    (i < length u' + length boundary)%nat -> boundary !! (i - length u')%nat = Some c).
  { intros i c Hi Hge Hlt'. assert (Hi' : ((part ++ eol) ++ boundary ++ r) !! i = Some c)
      by (by apply lookup_app_l_Some).
    rewrite He, lookup_app_r, lookup_app_l in Hi' by lia. done. }
  assert (Hbl : (0 < length boundary)%nat) by (destruct boundary; [done|cbn; lia]).
  destruct (decide (length u' + length boundary <= length part)%nat) as [Hin|Hout].
  - apply (find_sub_none _ _ Hf u' (drop (length u' + length boundary) part)).
    apply (f_equal (take (length part))) in He. rewrite <- app_assoc, take_app_length in He.
    rewrite He at 1. rewrite !take_app, !(take_ge u'), !(take_ge boundary) by lia.
    do 2 f_equal. apply (f_equal (drop (length u' + length boundary))) in He.
    rewrite He, !take_app, !(take_ge u'), !(take_ge boundary) by lia.
    rewrite app_assoc, <- length_app, drop_app_length. done.
  - destruct (decide (length u' <= length part)%nat).
    + apply Hat in Hcr; [|lia..]. by apply boundary_lookup in Hcr as [? _].
    + apply Hat in Hlf; [|lia..]. by apply boundary_lookup in Hlf as [_ ?].
Qed.

(** ** Bodies *)

(** What stands behind the first boundary of a body. *)
Fixpoint part_lines (parts : list (list byte)) (epilogue : list byte) : list byte :=
  match parts with
  | [] => last_separator ++ epilogue
  | part :: parts => eol ++ part ++ eol ++ boundary ++ part_lines parts epilogue
  end.

Lemma part_lines_cons part parts epilogue :
  part_lines (part :: parts) epilogue = eol ++ part ++ eol ++ boundary ++ part_lines parts epilogue.
Proof. done. Qed.

Lemma split_loop_parts parts part epilogue n acc :
  Forall free_of (part :: parts) -> (length parts < n)%nat ->
  split_loop n boundary (part_lines (part :: parts) epilogue) acc = acc ++ part :: parts.
Proof.
  revert part n acc. induction parts as [|next parts IH]; intros part n acc Hf Hn;
    (destruct n as [|n]; [cbn in Hn; lia|]); apply Forall_cons_1 in Hf as [Hp Hf];
    cbn [split_loop]; rewrite part_lines_cons, starts_with_app; cbv zeta;
    rewrite drop_app_length, boundary_first by done;
    (assert (Hae : forall r, not_after_eol (part ++ eol ++ r) (length part + 2) = false);
     [intros r; unfold not_after_eol; cbn [length eol];
      rewrite (proj2 (Nat.ltb_ge _ _)) by lia; rewrite Nat.add_sub, drop_app_length;
      by rewrite bool_decide_true|]);
    rewrite Hae; cbn [length eol];
    rewrite Nat.add_sub, take_app_length;
    (replace (length part + 2 + length boundary)%nat with (length (part ++ eol ++ boundary))
       by (rewrite !length_app; cbn; lia));
    rewrite (app_assoc eol boundary), (app_assoc part (eol ++ boundary)), drop_app_length.
  - cbn [part_lines]. by rewrite starts_with_app.
  - assert (Hs : starts_with (part_lines (next :: parts) epilogue) last_separator = false) by done.
    rewrite Hs, IH; [by rewrite <- app_assoc|done|cbn in Hn; lia].
Qed.

Lemma part_lines_length parts epilogue : (length parts < S (length (part_lines parts epilogue)))%nat.
Proof.
  induction parts as [|p parts IH]; cbn [part_lines length]; [lia|]. rewrite !length_app. cbn [length eol]. lia.
Qed.

(** A preamble: nothing, or lines before the first boundary. *)
Definition preamble_ok (preamble : list byte) : Prop :=
  preamble = [] \/ exists lines, preamble = lines ++ eol /\ free_of lines.

Lemma split_preamble preamble rest :
  preamble_ok preamble ->
  split_multipart_body (preamble ++ boundary ++ rest) boundary
  = if starts_with rest last_separator then [] else split_loop (S (length rest)) boundary rest [].
Proof.
  intros [->|(lines & -> & Hf)]; unfold split_multipart_body.
  - rewrite (find_sub_first [] boundary rest) by (cbn; lia). cbn [length Nat.eqb negb andb]. cbn [app].
    cbn [Nat.add]. by rewrite drop_app_length.
  - rewrite <- app_assoc, boundary_first by done.
    replace (negb _ && not_after_eol _ _) with false.
    2: { unfold not_after_eol. cbn [length eol]. rewrite (proj2 (Nat.ltb_ge _ _)) by lia.
         rewrite Nat.add_sub, drop_app_length, bool_decide_true by done. by rewrite andb_false_r. }
    replace (length lines + 2 + length boundary)%nat with (length (lines ++ eol ++ boundary))
      by (rewrite !length_app; cbn; lia).
    by rewrite (app_assoc eol boundary), (app_assoc lines (eol ++ boundary)), drop_app_length.
Qed.

Lemma split_join preamble parts epilogue :
  preamble_ok preamble -> Forall free_of parts ->
  split_multipart_body (preamble ++ boundary ++ part_lines parts epilogue) boundary = parts.
Proof.
  intros Hp Hf. rewrite split_preamble by done. destruct parts as [|part parts].
  - cbn [part_lines]. by rewrite starts_with_app.
  - assert (Hs : starts_with (part_lines (part :: parts) epilogue) last_separator = false) by done.
    rewrite Hs, split_loop_parts; [done|done|].
    pose proof (part_lines_length (part :: parts) epilogue) as Hl. cbn [length] in *. lia.
Qed.

End Boundary.

(** Splitting a multipart body: for a boundary without line ends and parts
    of any octets in which it does not occur, whatever follows the closing
    boundary and whatever lines precede the first one, the parts come back,
    each octet for octet and in order. *)
Theorem split_multipart_body_roundtrip boundary preamble parts epilogue :
  boundary <> [] -> Forall (fun c => c <> CR /\ c <> LF) boundary ->
  preamble_ok boundary preamble -> Forall (free_of boundary) parts ->
  split_multipart_body (preamble ++ boundary ++ part_lines boundary parts epilogue) boundary = parts.
Proof. intros. by apply split_join. Qed.

Lemma split_multipart_body_roundtrip_witness :
  split_multipart_body
    (bs "preamble" ++ eol ++ bs "--1" ++ eol ++ bs "-" ++ eol ++ bs "--1" ++ eol ++ eol ++ bs "--1--" ++ eol)
    (bs "--1") = [bs "-"; []].
Proof.
  apply (split_multipart_body_roundtrip (bs "--1") (bs "preamble" ++ eol) [bs "-"; []] []).
  - done.
  - by repeat constructor.
  - right. by exists (bs "preamble").
  - by repeat constructor.
Defined.

(** The loop does not depend on the number of its units. *)
Lemma split_loop_enough n m boundary rest acc :
  (length rest < n)%nat -> (length rest < m)%nat ->
  split_loop n boundary rest acc = split_loop m boundary rest acc.
Proof.
  revert m rest acc. induction n as [|n IH]; intros [|m] rest acc Hn Hm; try lia. cbn [split_loop].
  destruct (starts_with rest eol) eqn:Hs; [|done]. apply starts_with_iff in Hs as [r ->]. cbv zeta.
  rewrite drop_app_length. destruct (find_sub r boundary) as [pos|]; [|done].
  destruct (not_after_eol _ _); [done|]. destruct (starts_with _ last_separator); [done|].
  rewrite length_app in Hn, Hm. cbn in Hn, Hm. apply IH; rewrite length_drop; lia.
Qed.

(** ** Written parameters

    A parameter of Content-Type or Content-Disposition as a client may write it:
    white space on both sides of the semicolon, the name in any case, and the value as
    a token, as a quoted string, or in the extended form of names that end with a
    star. *)

Inductive written_value :=
| As_token (v : list byte)
| As_quoted (v : list byte)
| As_extended (charset language : list byte) (units : list (list byte)).

Record written_param := WrittenParam {
  w_before : list byte;
  w_after : list byte;
  w_name : list byte;
  w_value : written_value
}.

Definition apostrophe : byte := x27.
Definition lower (u : list byte) : list byte := to_lower_case <$> u.
Definition value_text (v : written_value) : list byte :=
  match v with
  | As_token v => v
  | As_quoted v => quote v
  | As_extended charset language units => charset ++ [apostrophe] ++ language ++ [apostrophe] ++ concat units
  end.
Definition value_meant (v : written_value) : list byte :=
  match v with As_token v | As_quoted v => v | As_extended _ _ _ => value_text v end.
Definition param_text (p : written_param) : list byte :=
  w_before p ++ [x3b] ++ w_after p ++ w_name p ++ [x3d] ++ value_text (w_value p).
Definition param_meant (p : written_param) : parameter_with_mandatory_value_t :=
  (lower (w_name p), value_meant (w_value p)).
Definition params_text (ps : list written_param) : list byte := concat (param_text <$> ps).

Definition layout_ok (p : written_param) : bool :=
  forallb is_space (w_before p) && forallb is_space (w_after p) && is_token (w_name p).
Definition plain_value_ok (v : written_value) : bool :=
  match v with As_token v => is_token v | As_quoted v => forallb is_quotable v | As_extended _ _ _ => false end.
(** A character of an extended value, or a percent sign and two digits. *)
Definition unit_ok (u : list byte) : bool :=
  match u with
  | [c] => is_attr_char c
  | [p; h; l] => Byte.eqb "%" p && is_hexdigit h && is_hexdigit l
  | _ => false
  end.
Definition extended_value_ok (v : written_value) : bool :=
  match v with
  | As_extended charset language units =>
      negb (bool_decide (charset = [])) && forallb is_mime_charsetc charset && forallb is_language language &&
      forallb unit_ok units
  | _ => false
  end.
Definition media_param_ok (p : written_param) : bool := layout_ok p && plain_value_ok (w_value p).
Definition disposition_param_ok (p : written_param) : bool :=
  layout_ok p && (if ends_with_star (w_name p) then extended_value_ok (w_value p) else plain_value_ok (w_value p)).

(** The first parameter of a name written in lower case. *)
Fixpoint value_of (name : list byte) (ps : list written_param) : option (list byte) :=
  match ps with
  | [] => None
  | p :: ps => if bool_decide (lower (w_name p) = name) then Some (value_meant (w_value p)) else value_of name ps
  end.

Lemma byte_all_implb (f g : byte -> bool) c :
  byte_all (fun c => implb (f c) (g c)) = true -> f c = true -> g c = true.
Proof. intros Hall Hf. pose proof (byte_all_true _ Hall c) as Hx. cbn beta in Hx. by rewrite Hf in Hx. Qed.

Lemma reads_any_token {T} (c : consumer T (list byte)) t u t' :
  is_token u = true -> c t (lower u) = Ok t' -> reads_c (token_p ~> to_lower >> c) t u t' (stops is_token_char).
Proof.
  intros [Hn Hu]%is_token_ok Hc. eapply reads_consume; [|done].
  by eapply reads_transform; [apply reads_token|].
Qed.

Lemma reads_regular_token n :
  is_token n = true -> ends_with_star n = false -> reads regular_token_p n n (stops is_token_char).
Proof.
  intros [Hne Hn]%is_token_ok Hst pre rest Hs. unfold regular_token_p.
  rewrite (reads_token n Hne Hn pre rest Hs). by rewrite Hst.
Qed.

Lemma reads_ext_token n :
  is_token n = true -> ends_with_star n = true -> reads ext_token_p n n (stops is_token_char).
Proof.
  intros [Hne Hn]%is_token_ok Hst pre rest Hs. unfold ext_token_p.
  rewrite (reads_token n Hne Hn pre rest Hs). by rewrite Hst.
Qed.

(** A value as a token or quoted. *)
Lemma reads_plain_value v (t : parameter_with_mandatory_value_t) :
  plain_value_ok v = true ->
  reads_c (alternatives parameter_value) t (value_text v) (t.1, value_meant v) (stops is_token_char).
Proof.
  destruct v as [v|v|]; cbn [plain_value_ok value_text value_meant]; intros Hv; [|..|done].
  - apply reads_first. by eapply reads_token_consume.
  - eapply reads_other; [apply _|apply refuses_consume, refuses_token|..].
    + intros r _. apply quoted_starts.
    + apply reads_first. eapply reads_c_weaken; [by eapply reads_consume; [apply reads_quoted|]|done].
Qed.

(** An extended value. *)
Definition unit_clauses : list (clause (list byte)) :=
  [ alternatives [ attr_char_symbol_p >> to_container; pct_encoded_symbols_p >> pct_encoded_symbols_consumer ] ].

Lemma reads_pct h l :
  is_hexdigit h = true -> is_hexdigit l = true -> reads pct_encoded_symbols_p [x25; h; l] [x25; h; l] anything.
Proof.
  intros Hh Hl pre rest HF. unfold pct_encoded_symbols_p, produce_array, produce_with.
  assert (Hr : reads_all
    [ symbol_p "%" >> to_array; hexdigit_p >> to_array; hexdigit_p >> to_array ]
    (ArrayWrapper [x00; x00; x00] 0) [x25; h; l] (ArrayWrapper [x25; h; l] 3) anything).
  { eapply (reads_cons_any _ _ _ [_]); [by eapply reads_consume; [apply reads_symbol_if|]|].
    eapply (reads_cons_any _ _ _ [_]); [by eapply reads_consume; [apply reads_symbol_if|]|].
    apply reads_single. by eapply reads_consume; [apply reads_symbol_if|]. }
  by rewrite (Hr pre rest HF).
Qed.

Lemma reads_unit u t : unit_ok u = true -> reads_all unit_clauses t u (t ++ u) anything.
Proof.
  intros Hu. apply reads_single. destruct u as [|p [|h [|l [|]]]]; try done; cbn [unit_ok] in Hu.
  - apply reads_first. by eapply reads_consume; [apply reads_symbol_if|].
  - rewrite !andb_true_iff, byte_eqb_eq in Hu. destruct Hu as [[<- Hh] Hl].
    eapply reads_other; [apply _|apply refuses_consume, refuses_symbol_if|done|].
    apply reads_first. by eapply reads_consume; [apply reads_pct|].
Qed.

Definition starts_unit (c : byte) : bool := is_attr_char c || Byte.eqb "%" c.

Lemma stops_split f g r : stops (fun c => f c || g c) r -> stops f r /\ stops g r.
Proof. destruct r as [|c r]; [done|]. cbn. by rewrite orb_false_iff. Qed.

Lemma refuses_attr {T} (c : consumer T byte) : refuses_c (attr_char_symbol_p >> c) (stops starts_unit).
Proof. eapply refuses_c_weaken; [apply refuses_consume, refuses_symbol_if|]. by intros r [? _]%stops_split. Qed.

Lemma refuses_pct {T} (c : consumer T (list byte)) : refuses_c (pct_encoded_symbols_p >> c) (stops starts_unit).
Proof.
  apply refuses_consume. intros pre rest [_ Hs]%stops_split.
  destruct (refuses_symbol_if (Byte.eqb "%") pre rest Hs) as (e & He & Hr).
  unfold pct_encoded_symbols_p, produce_array, produce_with. cbn [all_of]. unfold consume_value at 1, symbol_p.
  destruct (symbol_if _ _) as [r s']. cbn [fst] in He. subst r. by exists e.
Qed.

Lemma refuses_unit : refuses_all unit_clauses (stops starts_unit).
Proof.
  apply refuses_head, refuses_alternatives; [apply _|apply refuses_attr|].
  apply refuses_alternatives; [apply _|apply refuses_pct|apply refuses_alternatives_nil].
Qed.

Lemma leaves_unit : leaves unit_clauses (stops starts_unit).
Proof.
  intros pre rest t Hs. cbn [all_of unit_clauses]. unfold alternatives.
  rewrite (any_of_skip _ _ (stops starts_unit)) by (try apply _; try apply refuses_attr; done).
  by rewrite (any_of_skip _ _ (stops starts_unit)) by (try apply _; try apply refuses_pct; done).
Qed.

Lemma reads_units units t :
  forallb unit_ok units = true ->
  reads_c (repeat_ 0 N unit_clauses) t (concat units) (t ++ concat units) (stops starts_unit).
Proof.
  intros Hu. apply reads_repeat_N; [apply _| |apply refuses_unit|apply leaves_unit| |lia].
  - revert t. induction units as [|u units IH]; intros t; [rewrite app_nil_r; constructor|].
    cbn [forallb] in Hu. apply andb_true_iff in Hu as [Hu Hus]. eapply items_cons; [by apply reads_unit|done|].
    cbn [concat]. rewrite app_assoc. by apply IH.
  - apply Forall_forall. intros u Hin ->. by eapply forallb_forall in Hu; [|exact Hin].
Qed.

Lemma starts_unit_token r : stops is_token_char r -> stops starts_unit r.
Proof.
  destruct r as [|c r]; [done|]. cbn. rewrite <- !not_true_iff_false. intros Hc Hu. apply Hc. revert Hu.
  apply (byte_all_implb starts_unit is_token_char). vm_compute. reflexivity.
Qed.

Lemma reads_extended v (t : parameter_with_mandatory_value_t) :
  extended_value_ok v = true ->
  reads_c (ext_parameter_value_p >> set_second) t (value_text v) (t.1, value_meant v) (stops is_token_char).
Proof.
  destruct v as [| |charset language units]; [done..|]. cbn [extended_value_ok value_meant value_text].
  rewrite !andb_true_iff, negb_true_iff, bool_decide_eq_false. intros [[[Hne Hc] Hl] Hu].
  eapply reads_consume; [|done]. apply reads_produce.
  eapply reads_cons; [apply (reads_repeat_chars is_mime_charsetc); [done|destruct charset; [done|cbn; lia]]| |done].
  eapply (reads_cons_any _ _ _ [_]); [by eapply reads_consume; [apply reads_symbol_if|]|].
  eapply reads_cons; [by apply (reads_repeat_chars is_language); [|lia]| |done].
  eapply (reads_cons_any _ _ _ [_]); [by eapply reads_consume; [apply reads_symbol_if|]|].
  cbn [app]. rewrite <- !app_assoc. apply reads_single.
  eapply reads_c_weaken; [|apply starts_unit_token].
  pose proof (reads_units units (charset ++ [apostrophe] ++ language ++ [apostrophe]) Hu) as Hr.
  rewrite <- !app_assoc in Hr. exact Hr.
Qed.

(** ** Lists of parameters *)

Lemma param_text_starts p r : layout_ok p = true -> stops is_token_char (param_text p ++ r).
Proof.
  unfold layout_ok, param_text. rewrite !andb_true_iff. intros [[Hb _] _].
  destruct (w_before p) as [|c u]; [done|]. cbn [forallb] in Hb. apply andb_true_iff in Hb as [Hc _].
  cbn [app stops]. apply not_true_iff_false. intros Ht. revert Hc. apply not_true_iff_false, negb_true_iff.
  revert Ht. apply (byte_all_implb is_token_char (fun c => negb (is_space c))). vm_compute. reflexivity.
Qed.

Lemma params_text_starts ps : forallb layout_ok ps = true -> stops is_token_char (params_text ps).
Proof.
  destruct ps as [|p ps]; [done|]. cbn [forallb]. rewrite andb_true_iff. intros [Hp _]. by apply param_text_starts.
Qed.

(** Over any reader of one parameter. *)
Lemma reads_written_params (element : producer parameter_with_mandatory_value_t) ps :
  SafeProducer element -> refuses element (fun r => r = []) -> forallb layout_ok ps = true ->
  (forall p, In p ps -> reads element (param_text p) (param_meant p) (stops is_token_char)) ->
  reads (produce [] [ repeat_ 0 N [ element >> to_container ] ]) (params_text ps) (param_meant <$> ps) (fun r => r = []).
Proof.
  intros Hs Hr Hl He. apply reads_produce, reads_single, (reads_repeat_N _ _ _ _ (param_text <$> ps)); [apply _|..|lia].
  - change (param_meant <$> ps) with ([] ++ (param_meant <$> ps)).
    generalize ([] : list parameter_with_mandatory_value_t) as acc.
    induction ps as [|p ps IH]; intros acc; [rewrite app_nil_r; constructor|].
    cbn [forallb] in Hl. apply andb_true_iff in Hl as [_ Hl]. cbn [fmap list_fmap]. eapply items_cons.
    + apply reads_single. eapply reads_consume; [apply He; by left|reflexivity].
    + intros r ->. rewrite app_nil_r. by apply params_text_starts.
    + rewrite (cons_middle (param_meant p) acc (param_meant <$> ps)), app_assoc. apply IH; [done|]. intros q Hq. apply He. by right.
  - by apply refuses_head, refuses_consume.
  - by apply leaves_head.
  - apply Forall_fmap, Forall_true. intros p. cbn. unfold param_text. by destruct (w_before p).
Qed.

(** The name of a parameter between the white space and its value. *)
Lemma reads_param_around p (cs : list (clause parameter_with_mandatory_value_t)) :
  layout_ok p = true ->
  reads_all cs ([], []) (w_name p ++ [x3d] ++ value_text (w_value p)) (param_meant p) (stops is_token_char) ->
  reads (produce ([], []) (ows :: symbol ";" :: ows :: cs)) (param_text p) (param_meant p) (stops is_token_char).
Proof.
  unfold layout_ok, param_text. rewrite !andb_true_iff. intros [[Hb Ha] Hn] Hr. apply reads_produce.
  eapply reads_cons; [by apply reads_ows| |done].
  eapply (reads_cons_any _ _ _ [_]); [apply reads_symbol|].
  eapply reads_cons; [by apply reads_ows|exact Hr|].
  intros r _. rewrite <- app_assoc. by apply token_no_space.
Qed.

Lemma reads_media_param p :
  media_param_ok p = true -> reads param_with_value_p (param_text p) (param_meant p) (stops is_token_char).
Proof.
  unfold media_param_ok. rewrite andb_true_iff. intros [Hl Hv]. apply reads_param_around; [done|].
  unfold layout_ok in Hl. rewrite !andb_true_iff in Hl. destruct Hl as [_ Hn].
  eapply reads_cons; [by apply (reads_any_token _ _ _ (lower (w_name p), []))| |done].
  eapply (reads_cons_any _ _ _ [_]); [apply reads_symbol|]. by apply reads_single, (reads_plain_value _ (lower (w_name p), [])).
Qed.

(** A name with a star at its end is no name of an ordinary parameter. *)
Definition star_name (r : list byte) : Prop :=
  exists n r', r = n ++ r' /\ is_token n = true /\ ends_with_star n = true /\ stops is_token_char r'.

Lemma refuses_regular_token : refuses regular_token_p star_name.
Proof.
  intros pre rest (n & r & -> & [Hne Hn]%is_token_ok & Hst & Hs). unfold regular_token_p.
  rewrite (reads_token n Hne Hn pre r Hs), Hst. cbn. auto.
Qed.

Lemma reads_disposition_param p :
  disposition_param_ok p = true -> reads disposition_param_p (param_text p) (param_meant p) (stops is_token_char).
Proof.
  unfold disposition_param_ok. rewrite andb_true_iff. intros [Hl Hv]. apply reads_param_around; [done|].
  unfold layout_ok in Hl. rewrite !andb_true_iff in Hl. destruct Hl as [_ Hn]. apply reads_single.
  destruct (ends_with_star (w_name p)) eqn:Hst.
  - eapply (reads_other _ _ _ _ _ _ star_name); [apply _|..].
    + apply refuses_sequence, refuses_head, refuses_consume, refuses_transform, refuses_regular_token.
    + intros r _. exists (w_name p). eexists. rewrite <- app_assoc. by split_and!.
    + apply reads_first, reads_sequence. eapply reads_cons.
      * eapply (reads_consume _ _ _ _ _ (lower (w_name p), [])); [|done].
        by eapply reads_transform; [apply reads_ext_token|].
      * eapply (reads_cons_any _ _ _ [_]); [apply reads_symbol|].
        by apply reads_single, (reads_extended _ (lower (w_name p), [])).
      * done.
  - apply reads_first, reads_sequence. eapply reads_cons.
    + eapply (reads_consume _ _ _ _ _ (lower (w_name p), [])); [|done].
      by eapply reads_transform; [apply reads_regular_token|].
    + eapply (reads_cons_any _ _ _ [_]); [apply reads_symbol|].
      by apply reads_single, (reads_plain_value _ (lower (w_name p), [])).
    + done.
Qed.

(** What ends a list of parameters is no space. *)
Lemma value_text_end v l c : plain_value_ok v || extended_value_ok v = true -> value_text v = l ++ [c] -> is_space c = false.
Proof.
  destruct v as [v|v|charset language units]; cbn [plain_value_ok extended_value_ok value_text]; rewrite ?orb_false_r, ?orb_false_l.
  - apply token_end.
  - by intros _ ->%quote_end.
  - rewrite !andb_true_iff. intros [_ Hu] Ht. rewrite !app_assoc in Ht.
    destruct units as [|u units _] using rev_ind; [cbn in Ht; rewrite app_nil_r in Ht; by apply app_inj_tail in Ht as [_ <-]|].
    rewrite forallb_app in Hu. apply andb_true_iff in Hu as [_ Hu]. cbn [forallb] in Hu. rewrite andb_true_r in Hu.
    rewrite concat_app in Ht. cbn [concat] in Ht. rewrite app_nil_r, !app_assoc in Ht.
    destruct u as [|p [|h [|d [|]]]]; try done; cbn [unit_ok] in Hu.
    + apply app_inj_tail in Ht as [_ <-]. apply negb_true_iff. revert Hu.
      apply (byte_all_implb is_attr_char (fun c => negb (is_space c))). vm_compute. reflexivity.
    + apply andb_true_iff in Hu as [_ Hd]. change [p; h; d] with ([p; h] ++ [d]) in Ht. rewrite app_assoc in Ht.
      apply app_inj_tail in Ht as [_ <-]. apply negb_true_iff. revert Hd.
      apply (byte_all_implb is_hexdigit (fun c => negb (is_space c))). vm_compute. reflexivity.
Qed.

Definition value_ok (p : written_param) : bool := plain_value_ok (w_value p) || extended_value_ok (w_value p).

Lemma params_text_end u ps l c :
  is_token u = true -> forallb value_ok ps = true -> u ++ params_text ps = l ++ [c] -> is_space c = false.
Proof.
  intros Hu Hps. destruct ps as [|p ps _] using rev_ind; [cbn; rewrite app_nil_r; by apply token_end|].
  rewrite forallb_app in Hps. apply andb_true_iff in Hps as [_ Hp]. cbn [forallb] in Hp. rewrite andb_true_r in Hp.
  unfold params_text. rewrite fmap_app, concat_app. cbn [fmap list_fmap concat]. rewrite app_nil_r, app_assoc.
  unfold param_text. rewrite !app_assoc. intros Ht.
  destruct (value_text (w_value p)) as [|d v _] eqn:Ev using rev_ind.
  - rewrite app_nil_r in Ht. by apply app_inj_tail in Ht as [_ <-].
  - rewrite app_assoc in Ht. apply app_inj_tail in Ht as [_ <-]. by eapply value_text_end.
Qed.

Lemma forallb_weaken {A} (f g : A -> bool) l :
  (forall x, f x = true -> g x = true) -> forallb f l = true -> forallb g l = true.
Proof. intros Hi. rewrite !forallb_forall. auto. Qed.

Lemma media_params_ok ps : forallb media_param_ok ps = true -> forallb layout_ok ps = true /\ forallb value_ok ps = true.
Proof.
  intros Hps. split; revert Hps; apply forallb_weaken; intros p; unfold media_param_ok, value_ok;
    rewrite andb_true_iff; intros [Hl Hv]; [done|by rewrite Hv].
Qed.

Lemma disposition_params_ok ps :
  forallb disposition_param_ok ps = true -> forallb layout_ok ps = true /\ forallb value_ok ps = true.
Proof.
  intros Hps. split; revert Hps; apply forallb_weaken; intros p; unfold disposition_param_ok, value_ok;
    rewrite andb_true_iff; intros [Hl Hv]; [done|]. by destruct (ends_with_star _); rewrite Hv, ?orb_true_r.
Qed.

Lemma refuses_weaken {A} (p : producer A) (F G : list byte -> Prop) :
  refuses p F -> (forall r, G r -> F r) -> refuses p G.
Proof. intros Hp Hi pre rest HG. by apply Hp, Hi. Qed.

(** A media type in any case with any parameters, and a disposition. *)
Lemma media_type_reads ty sub ps :
  is_token ty = true -> is_token sub = true -> forallb media_param_ok ps = true ->
  content_type_try_parse (ty ++ [x2f] ++ sub ++ params_text ps)
  = Value (MediaType (lower ty) (lower sub) (param_meant <$> ps)).
Proof.
  intros Ht Hs Hps. destruct (media_params_ok ps Hps) as [Hl Hv].
  eapply (try_parse_reads _ _ _ (fun r => r = [])); [|done|].
  - apply reads_produce, reads_single. eapply reads_consume; [|done]. apply reads_produce.
    eapply reads_cons; [by apply reads_any_token| |done].
    eapply (reads_cons_any _ _ _ [_]); [apply reads_symbol|].
    eapply reads_cons; [by apply reads_any_token| |].
    + apply reads_single. eapply reads_consume; [|done]. apply reads_written_params; [apply _| |done|].
      * eapply refuses_weaken; [apply refuses_produce, refuses_separator|]. by intros r ->.
      * intros p Hp. apply reads_media_param. by eapply forallb_forall in Hps.
    + intros r ->. rewrite app_nil_r. by apply params_text_starts.
  - intros l c Hc. rewrite app_assoc, app_assoc in Hc.
    destruct (params_text ps) as [|d u _] eqn:Ep using rev_ind.
    + rewrite app_nil_r in Hc. apply app_end in Hc as (l' & Hc); [by eapply token_end|]. by apply is_token_ok in Hs as [? _].
    + apply (params_text_end sub ps (sub ++ u) c Hs Hv). rewrite Ep, app_assoc. f_equal.
      rewrite app_assoc in Hc. by apply app_inj_tail in Hc as [_ ->].
Qed.

Lemma disposition_reads ty ps :
  is_token ty = true -> forallb disposition_param_ok ps = true ->
  content_disposition_try_parse (ty ++ params_text ps) = Value (ContentDisposition (lower ty) (param_meant <$> ps)).
Proof.
  intros Ht Hps. destruct (disposition_params_ok ps Hps) as [Hl Hv].
  eapply (try_parse_reads _ _ _ (fun r => r = [])); [|done|].
  - apply reads_produce. eapply reads_cons; [by apply reads_any_token|..].
    + apply reads_single. eapply reads_consume; [|done]. apply reads_written_params; [apply _| |done|].
      * eapply refuses_weaken; [apply refuses_produce, refuses_separator|]. by intros r ->.
      * intros p Hp. apply reads_disposition_param. by eapply forallb_forall in Hps.
    + intros r ->. rewrite app_nil_r. by apply params_text_starts.
  - intros l c. by apply params_text_end.
Qed.

(** Looking up a name in lower case. *)
Lemma lower_fold u : fold_case (lower u) = fold_case u.
Proof.
  unfold lower, fold_case. induction u as [|c u IH]; [done|]. cbn. f_equal; [|done].
  assert (Hall : byte_all (fun c => ascii_lower (u8 (to_lower_case c)) =? ascii_lower (u8 c)) = true)
    by (vm_compute; reflexivity).
  apply Z.eqb_eq, (byte_all_true _ Hall).
Qed.

Lemma fold_lower u v : fold_case u = fold_case v -> lower u = lower v.
Proof.
  revert v. induction u as [|c u IH]; intros [|d v] He; try done. injection He as Hc Hu. cbn. f_equal; [|by apply IH].
  assert (Hall : forall c, u8 (to_lower_case c) = ascii_lower (u8 c)).
  { intros b. assert (Hb : byte_all (fun c => u8 (to_lower_case c) =? ascii_lower (u8 c)) = true)
      by (vm_compute; reflexivity). apply Z.eqb_eq, (byte_all_true _ Hb). }
  apply u8_inj. by rewrite !Hall.
Qed.

Lemma caseless_lower u name : is_lower name = true -> is_equal_caseless (lower u) name = bool_decide (lower u = name).
Proof.
  intros Hn%is_lower_ok. fold (lower name) in Hn. apply eq_true_iff_eq. rewrite is_equal_caseless_iff, bool_decide_eq_true, lower_fold.
  split; [intros He%fold_lower; congruence|]. intros <-. by rewrite lower_fold.
Qed.

Lemma find_first_value name ps :
  is_lower name = true -> find_first (param_meant <$> ps) name = value_of name ps.
Proof.
  intros Hn. induction ps as [|p ps IH]; [done|]. cbn [fmap list_fmap find_first value_of param_meant fst snd].
  by rewrite caseless_lower, IH by done.
Qed.

(** ** Parts

    A line of the header of a part, with its name in any case, is the disposition of
    the part or another field. *)

Inductive line_value :=
| Other_value (v : list byte)
| Disposition_value (disposition_type : list byte) (ps : list written_param).

Record field_line := FieldLine { l_name : list byte; l_space : list byte; l_value : line_value }.

Definition disposition_name : list byte := bs "content-disposition".
Definition line_value_text (v : line_value) : list byte :=
  match v with Other_value v => v | Disposition_value ty ps => ty ++ params_text ps end.
Definition line_text (l : field_line) : list byte :=
  l_name l ++ bs ":" ++ l_space l ++ line_value_text (l_value l) ++ eol.
Definition line_field (l : field_line) : http_header_field_t :=
  field_by_name (lower (l_name l)) (line_value_text (l_value l)).

Definition line_ok (l : field_line) : bool :=
  is_token (l_name l) && forallb is_space (l_space l) &&
  match l_value l with
  | Other_value v =>
      negb (bool_decide (lower (l_name l) = disposition_name)) && forallb is_value_char v &&
      match v with [] => true | c :: _ => negb (is_space c) end
  | Disposition_value ty ps =>
      bool_decide (lower (l_name l) = disposition_name) && is_token ty && forallb disposition_param_ok ps
  end.

Record form_part := FormPart { p_lines : list field_line; p_content : list byte }.

Definition part_text (p : form_part) : list byte := concat (line_text <$> p_lines p) ++ eol ++ p_content p.
Definition part_ok (p : form_part) : bool := forallb line_ok (p_lines p).

Lemma quotable_value v : forallb is_quotable v = true -> forallb is_value_char (quote v) = true.
Proof.
  intros Hv. unfold quote. cbn [forallb]. rewrite forallb_app. change (is_value_char x22) with true.
  change (forallb is_value_char [x22]) with true. cbn [andb]. rewrite andb_true_r. induction v as [|c v IH]; [done|]. cbn [forallb] in Hv.
  apply andb_true_iff in Hv as [Hc Hv]. cbn [fmap list_fmap concat]. rewrite forallb_app, IH, andb_true_r by done.
  assert (Hall : byte_all (fun c => implb (is_quotable c) (forallb is_value_char (escape_char c))) = true)
    by (vm_compute; reflexivity).
  pose proof (byte_all_true _ Hall c) as Hx. cbn beta in Hx. by rewrite Hc in Hx.
Qed.

Lemma token_value u : forallb is_token_char u = true -> forallb is_value_char u = true.
Proof.
  intros Hu. apply forallb_forall. intros c Hc. apply (proj1 (forallb_forall _ _) Hu) in Hc.
  assert (Hall : byte_all (fun c => implb (is_token_char c) (is_value_char c)) = true)
    by (vm_compute; reflexivity).
  pose proof (byte_all_true _ Hall c) as Hx. cbn beta in Hx. by rewrite Hc in Hx.
Qed.

Lemma chars_value f u :
  byte_all (fun c => implb (f c) (is_value_char c)) = true -> forallb f u = true -> forallb is_value_char u = true.
Proof. intros Hall. apply forallb_weaken. intros c. by apply byte_all_implb. Qed.

Lemma written_value_value v :
  plain_value_ok v || extended_value_ok v = true -> forallb is_value_char (value_text v) = true.
Proof.
  destruct v as [v|v|charset language units]; cbn [plain_value_ok extended_value_ok value_text];
    rewrite ?orb_false_r, ?orb_false_l.
  - intros [_ Hv]%is_token_ok. by apply token_value.
  - apply quotable_value.
  - rewrite !andb_true_iff. intros [[[_ Hc] Hl] Hu]. rewrite !forallb_app.
    rewrite (chars_value is_mime_charsetc charset), (chars_value is_language language) by (done || (vm_compute; reflexivity)).
    cbn [forallb andb]. change (is_value_char apostrophe) with true. cbn [andb].
    induction units as [|u units IH]; [done|]. cbn [forallb] in Hu. apply andb_true_iff in Hu as [Hu Hus].
    cbn [concat]. rewrite forallb_app, (IH Hus), andb_true_r.
    destruct u as [|p [|h [|d [|]]]]; try done; cbn [unit_ok] in Hu.
    + apply (chars_value is_attr_char); [vm_compute; reflexivity|]. cbn. by rewrite Hu.
    + rewrite !andb_true_iff, byte_eqb_eq in Hu. destruct Hu as [[<- Hh] Hd]. cbn [forallb].
      apply (chars_value is_hexdigit [h; d]); [vm_compute; reflexivity|]. cbn. by rewrite Hh, Hd.
Qed.

Lemma params_value ps :
  forallb layout_ok ps = true -> forallb value_ok ps = true -> forallb is_value_char (params_text ps) = true.
Proof.
  intros Hl Hv. unfold params_text. induction ps as [|p ps IH]; [done|]. cbn [forallb] in Hl, Hv.
  apply andb_true_iff in Hl as [Hp Hl], Hv as [Hw Hv]. cbn [fmap list_fmap concat]. rewrite forallb_app, IH, andb_true_r by done.
  unfold layout_ok in Hp. rewrite !andb_true_iff in Hp. destruct Hp as [[Hb Ha] [_ Hn]%is_token_ok].
  unfold param_text. rewrite !forallb_app, (token_value (w_name p)), written_value_value by done.
  rewrite (chars_value is_space (w_before p)), (chars_value is_space (w_after p)) by (done || (vm_compute; reflexivity)).
  done.
Qed.

Lemma line_value_ok l :
  line_ok l = true ->
  forallb is_value_char (line_value_text (l_value l)) = true /\
  forall r, stops is_space (line_value_text (l_value l) ++ CR :: r).
Proof.
  unfold line_ok. destruct (l_value l) as [v|ty ps]; cbn [line_value_text]; rewrite !andb_true_iff.
  - intros [_ [[_ Hv] Hs]]. split; [done|]. intros r. destruct v; [done|]. by apply negb_true_iff.
  - intros [_ [[_ Ht] [Hl Hv]%disposition_params_ok]]. split.
    + rewrite forallb_app, params_value, andb_true_r by done. apply is_token_ok in Ht as [_ Ht]. by apply token_value.
    + intros r. rewrite <- app_assoc. by apply token_no_space.
Qed.

Lemma reads_field_value v r0 :
  forallb is_value_char v = true -> reads field_value_p v v (fun r => r = CR :: r0).
Proof.
  intros Hv pre rest ->. unfold field_value_p. rewrite remaining_at.
  rewrite span_loop_stops by done. by rewrite bool_decide_false.
Qed.

Lemma reads_line l : line_ok l = true -> reads part_field_p (line_text l) (line_field l) anything.
Proof.
  intros Hl. destruct (line_value_ok l Hl) as [Hv Hst]. unfold line_ok in Hl. rewrite !andb_true_iff in Hl.
  destruct Hl as [[Hn Hs] _]. unfold line_text, line_field. intros pre rest _.
  assert (Hr : reads part_field_p (l_name l ++ bs ":" ++ l_space l ++ line_value_text (l_value l) ++ eol)
    (field_by_name (lower (l_name l)) (line_value_text (l_value l))) (fun r => r = rest)); [|by apply Hr].
  apply reads_produce. eapply reads_cons; [by apply reads_any_token| |done].
  eapply (reads_cons_any _ _ _ [_]); [apply reads_symbol|].
  eapply reads_cons; [by apply reads_ows| |].
  - eapply reads_cons; [eapply reads_consume; [by apply (reads_field_value _ (LF :: rest))|done]| |].
    + eapply (reads_cons_any _ _ _ [_]); [apply reads_symbol|].
      apply reads_single, (reads_c_weaken _ _ _ _ anything); [apply reads_symbol|done].
    + by intros r ->.
  - intros r ->. rewrite <- app_assoc. apply Hst.
Qed.

#[global] Instance safe_field_value_p : SafeProducer field_value_p.
Proof.
  intros s Hw. unfold field_value_p. pose proof (span_loop_safe is_value_char (remaining s) s [] Hw) as Hl.
  destruct (span_loop _ _ _ _) as [[v b] s']. destruct Hl as (? & ? & _).
  destruct b; constructor; cbn; try done; lia.
Qed.
#[global] Instance safe_part_field_p : SafeProducer part_field_p.
Proof. unfold part_field_p. apply _. Qed.
#[global] Instance productive_part_field_p : ProductiveProducer part_field_p.
Proof. unfold part_field_p. apply _. Qed.
#[global] Instance safe_body_p : SafeProducer body_p.
Proof.
  intros s Hw. unfold body_p, fragment. unfold wf in Hw. rewrite (proj2 (Nat.leb_le _ _) Hw).
  by apply good_refl.
Qed.
#[global] Instance safe_part_parser : SafeProducer part_parser.
Proof. unfold part_parser, part_fields_p. apply _. Qed.

Lemma reads_lines ls :
  forallb line_ok ls = true ->
  reads part_fields_p (concat (line_text <$> ls)) (line_field <$> ls) (stops is_token_char).
Proof.
  intros Hls.
  assert (Href : refuses part_field_p (stops is_token_char))
    by (apply refuses_produce, refuses_head, refuses_consume, refuses_transform, refuses_token).
  apply reads_produce, reads_single, reads_repeat_N.
  - apply _.
  - change (line_field <$> ls) with ([] ++ (line_field <$> ls)).
    generalize ([] : list http_header_field_t) as acc.
    induction ls as [|l ls IH]; intros acc; [rewrite app_nil_r; constructor|].
    cbn [forallb] in Hls. apply andb_true_iff in Hls as [Hl Hls]. cbn [fmap list_fmap]. eapply items_cons.
    + apply reads_single. eapply reads_consume; [by apply reads_line|reflexivity].
    + done.
    + rewrite (cons_middle (line_field l) acc (line_field <$> ls)), app_assoc. by apply IH.
  - by apply refuses_head, refuses_consume.
  - by apply leaves_head.
  - apply Forall_fmap, Forall_true. intros l. cbn. unfold line_text. by destruct (l_name l).
  - lia.
Qed.

Lemma all_of_app {T} (cs ds : list (clause T)) s t :
  all_of (cs ++ ds) s t
  = match all_of cs s t with (Value _, s', t') => all_of ds s' t' | r => r end.
Proof.
  revert s t. induction cs as [|c cs IH]; intros s t; [done|]. cbn [app all_of].
  destruct (c s t) as [[[]  s'] t']; [apply IH|done..].
Qed.

(** A part round trip: a part with any fields of one line each, and of any content,
    is parsed into these fields, in order and with their names in lower case, and this
    content, octet for octet, empty or ending with spaces as it may be. *)
Lemma try_parse_text p :
  part_ok p = true -> try_parse_part (part_text p) = Value (ParsedPart (line_field <$> p_lines p) (p_content p)).
Proof.
  intros Hp. unfold try_parse_part. rewrite make_source_at.
  assert (Hr : reads_all
    [ part_fields_p >> custom_consumer (fun t v => ParsedPart v (part_body t)); symbol CR; symbol LF ]
    (ParsedPart [] []) (concat (line_text <$> p_lines p) ++ eol) (ParsedPart (line_field <$> p_lines p) []) anything).
  { eapply reads_cons; [eapply reads_consume; [by apply reads_lines|done]| |done].
    eapply (reads_cons_any _ _ _ [_]); [apply reads_symbol|]. apply reads_single, reads_symbol. }
  specialize (Hr [] (p_content p) I). unfold part_text. rewrite app_assoc.
  generalize dependent (concat (line_text <$> p_lines p) ++ eol). intros u Hr.
  unfold part_parser, produce, produce_with.
  change [?a; ?b; ?c; ?d] with ([a; b; c] ++ [d]). rewrite all_of_app, Hr. cbn [all_of app].
  unfold consume_value, body_p, fragment, at_. cbn [m_index m_data].
  rewrite (proj2 (Nat.leb_le _ _)) by (rewrite length_app; lia). rewrite drop_app_length. done.
Qed.

(** ** Uploads

    What a part is for an upload: a file; an ordinary control, or something that is no
    form data at all, which is passed over; or form data without a name, which ends
    the enumeration with an error. *)

Inductive part_kind :=
| No_file
| Nameless
| File (d : part_description_t).

Fixpoint first_disposition (ls : list field_line) : option (list byte * list written_param) :=
  match ls with
  | [] => None
  | l :: ls => match l_value l with Disposition_value ty ps => Some (ty, ps) | Other_value _ => first_disposition ls end
  end.

Definition kind_of (p : form_part) : part_kind :=
  match first_disposition (p_lines p) with
  | None => No_file
  | Some (ty, ps) =>
      if bool_decide (lower ty = bs "form-data") then
        match value_of (bs "name") ps, value_of (bs "filename*") ps, value_of (bs "filename") ps with
        | None, _, _ => Nameless
        | Some _, None, None => No_file
        | Some n, star, plain => File (PartDescription (line_field <$> p_lines p) (p_content p) n star plain)
        end
      else No_file
  end.

Lemma line_is_disposition l :
  line_ok l = true ->
  id_matches content_disposition (line_field l)
  = match l_value l with Disposition_value _ _ => true | Other_value _ => false end.
Proof.
  intros Hl. unfold line_ok in Hl. rewrite !andb_true_iff in Hl. destruct Hl as [_ Hl].
  assert (Hn : string_to_field (lower (l_name l)) = content_disposition <-> lower (l_name l) = disposition_name).
  { rewrite string_to_field_iff by done.
    assert (He : is_equal_caseless (lower (l_name l)) (field_to_string content_disposition)
      = is_equal_caseless (lower (l_name l)) disposition_name).
    { apply eq_true_iff_eq. rewrite !is_equal_caseless_iff.
      assert (E : fold_case (field_to_string content_disposition) = fold_case disposition_name) by (vm_compute; reflexivity).
      by rewrite E. }
    rewrite He, caseless_lower by (vm_compute; reflexivity). apply bool_decide_eq_true. }
  unfold id_matches, line_field, field_by_name. cbn [m_field_id]. apply eq_true_iff_eq. rewrite field_eqb_eq, Hn.
  destruct (l_value l).
  - rewrite !andb_true_iff, negb_true_iff, bool_decide_eq_false in Hl. by destruct Hl as [[? _] _].
  - rewrite !andb_true_iff, bool_decide_eq_true in Hl. by destruct Hl as [[? _] _].
Qed.

Lemma disposition_of_lines ls :
  forallb line_ok ls = true ->
  opt_value_of_id content_disposition (line_field <$> ls)
  = (fun d => d.1 ++ params_text d.2) <$> first_disposition ls.
Proof.
  unfold opt_value_of_id, try_get_field_by_id. change (negb (is_unspecified content_disposition)) with true. cbv iota.
  unfold cfind_id. induction ls as [|l ls IH]; [done|]. cbn [forallb]. rewrite andb_true_iff. intros [Hl Hls].
  cbn [fmap list_fmap find_if first_disposition]. rewrite line_is_disposition by done.
  destruct (l_value l) eqn:E; [by apply IH|]. unfold line_field; cbn. by rewrite E.
Qed.

Lemma first_disposition_ok ls ty ps :
  forallb line_ok ls = true -> first_disposition ls = Some (ty, ps) ->
  is_token ty = true /\ forallb disposition_param_ok ps = true.
Proof.
  induction ls as [|l ls IH]; [done|]. cbn [forallb first_disposition]. rewrite andb_true_iff. intros [Hl Hls].
  destruct (l_value l) as [v|ty' ps'] eqn:E; [by apply IH|]. intros [= -> ->].
  unfold line_ok in Hl. rewrite E, !andb_true_iff in Hl. tauto.
Qed.

Lemma analyze_kind p :
  part_ok p = true ->
  analyze_part (ParsedPart (line_field <$> p_lines p) (p_content p))
  = match kind_of p with
    | No_file => Failed no_files_found
    | Nameless => Failed content_disposition_field_inappropriate_value
    | File d => Done d
    end.
Proof.
  unfold part_ok. intros Hp. unfold analyze_part, kind_of. cbn [part_fields part_body].
  rewrite disposition_of_lines by done. destruct (first_disposition _) as [[ty ps]|] eqn:E; [|done].
  cbn [fmap option_fmap option_map fst snd]. destruct (first_disposition_ok _ _ _ Hp E) as [Ht Hps].
  rewrite disposition_reads by done. cbn [disposition disposition_parameters].
  rewrite !find_first_value by (vm_compute; reflexivity).
  destruct (decide (lower ty = bs "form-data")) as [Hty|Hty].
  - rewrite !bool_decide_true by done. cbn [negb].
    destruct (value_of (bs "name") ps), (value_of (bs "filename*") ps), (value_of (bs "filename") ps); done.
  - rewrite !bool_decide_false by congruence. done.
Qed.

(** What a handler makes of the parts: it is called for one file after the other
    until it does not ask for more. *)
Section Deliver.
Context {St : Type} (handler : St -> part_description_t -> handling_result_t * St).

Fixpoint deliver (parts : list form_part) (found : nat) (st : St) : result_t upload_error_t nat * St :=
  match parts with
  | [] => (Done found, st)
  | p :: parts =>
      match kind_of p with
      | No_file => deliver parts found st
      | Nameless => (Failed content_disposition_field_inappropriate_value, st)
      | File d =>
          match handler st d with
          | (continue_enumeration, st) => deliver parts (S found) st
          | (stop_enumeration, st) => (Done (S found), st)
          | (terminate_enumeration, st) => (Failed upload_terminated_by_handler, st)
          end
      end
  end.

Lemma enumerate_form parts found processed st :
  forallb part_ok parts = true ->
  let '(result, u) :=
    enumerate_loop (part_handler handler) (part_text <$> parts) processed (UploadState st found None None) in
  broken u = None /\
  deliver parts found st =
  (match error u, result with
   | Some e, _ => Failed e
   | None, Failed e => Failed (translate_enumeration_error e)
   | None, Broken a => Broken a
   | None, Done _ => Done (files_found u)
   end, handler_state u).
Proof.
  revert found processed st. induction parts as [|p parts IH]; intros found processed st Hps; [done|].
  cbn [forallb] in Hps. apply andb_true_iff in Hps as [Hp Hps]. cbn [fmap list_fmap enumerate_loop deliver].
  rewrite try_parse_text by done. unfold part_handler at 1. rewrite analyze_kind by done.
  destruct (kind_of p) as [| |d]; cbn [handler_state files_found error broken]; [by apply IH|done|].
  destruct (handler st d) as [[] st']; [by apply IH|done|done].
Qed.
End Deliver.

Lemma boundary_chars_ok b :
  check_boundary_chars b = None -> Forall (fun c => c <> CR /\ c <> LF) b /\ forallb is_quotable b = true.
Proof.
  assert (Hall : byte_all (fun c => implb (is_bchar c)
    (negb (Byte.eqb c CR) && negb (Byte.eqb c LF) && is_quotable c)) = true) by (vm_compute; reflexivity).
  assert (Hc : forall c, is_bchar c = true -> (c <> CR /\ c <> LF) /\ is_quotable c = true).
  { intros c Hb. pose proof (byte_all_true _ Hall c) as Hx. cbn beta in Hx. rewrite Hb in Hx. cbn [implb] in Hx.
    rewrite !andb_true_iff, !negb_true_iff, !byte_eqb_neq in Hx. tauto. }
  induction b as [|c b IH]; [by split; [constructor|]|]. intros Hb.
  assert (Hcb : is_bchar c = true /\ check_boundary_chars b = None).
  { destruct b as [|d b]; cbn [check_boundary_chars] in Hb.
    - split; [|done]. unfold is_bchar. destruct (is_bcharnospace c); [done|by cbn in Hb].
    - destruct (is_bchar c); [by split|by cbn in Hb]. }
  destruct Hcb as [Hb1 Hb2]. destruct (Hc c Hb1) as [H1 H2], (IH Hb2) as [H3 H4].
  split; [by constructor|]. cbn [forallb]. by rewrite H2, H4.
Qed.

(** C30. A form upload, from the Content-Type field and the body to the handler.  The
    field is multipart/form-data in any case, with a boundary, quoted or not, that the
    code accepts, among any other parameters.  The body has any lines before the first
    boundary, at least one part, and anything after the last; every part has any fields
    in any case and order, and any content; a Content-Disposition among its fields has
    parameters as tokens, quoted or extended.  The text of the boundary occurs only in
    the lines between the parts.  Then the handler is called with every file, that is
    every part of form data with a name and a file name, in order, with its names
    unquoted, its fields, and its content octet for octet, until it asks to stop; other
    parts are passed over; and the number of files, the termination by the handler, or
    the first form data without a name is reported. *)
Theorem upload_delivers_files {St} (handler : St -> part_description_t -> handling_result_t * St)
    header ty sub ps b preamble parts epilogue st :
  opt_value_of_id content_type header = Some (ty ++ [x2f] ++ sub ++ params_text ps) ->
  is_token ty = true -> is_token sub = true -> forallb media_param_ok ps = true ->
  lower ty = bs "multipart" -> lower sub = bs "form-data" -> value_of (bs "boundary") ps = Some b ->
  check_boundary_value b = None ->
  preamble_ok (bs "--" ++ b) preamble -> parts <> [] -> forallb part_ok parts = true ->
  Forall (fun p => free_of (bs "--" ++ b) (part_text p)) parts ->
  enumerate_parts_with_files handler header
    (preamble ++ (bs "--" ++ b) ++ part_lines (bs "--" ++ b) (part_text <$> parts) epilogue)
    (bs "multipart") (bs "form-data") st
  = deliver handler parts 0 st.
Proof.
  intros Hct Hty Hsub Hps Elt Els Hv Hb Hpre Hne Hok Hfree. unfold check_boundary_value in Hb.
  destruct (_ && _) eqn:Hlen; [|done]. apply boundary_chars_ok in Hb as Hbc. destruct Hbc as [Hnl _].
  unfold enumerate_parts_with_files, enumerate_parts, detect_boundary_for_multipart_body.
  rewrite Hct, media_type_reads by done. cbn [type subtype parameters]. rewrite Elt, Els.
  change (negb (is_equal_caseless (bs "multipart") (bs "multipart"))) with false.
  change (negb (is_equal_caseless (bs "form-data") (bs "form-data"))) with false. cbv iota.
  rewrite find_first_value, Hv by (vm_compute; reflexivity). unfold check_boundary_value. rewrite Hlen, Hb.
  rewrite split_join; [|done|by repeat constructor|done|by apply Forall_fmap].
  pose proof (enumerate_form handler parts 0 0 st Hok) as He.
  destruct parts as [|p parts]; [done|]. cbn [fmap list_fmap] in He |- *.
  unfold enumerate_parts_of_request_body.
  destruct (enumerate_loop _ _ _ _) as [result u]. destruct He as (-> & ->). done.
Qed.

(** A form with an ordinary control and two files, written in different ways. *)
Definition form_disposition (ps : list written_param) : field_line :=
  FieldLine (bs "Content-Disposition") (bs " ") (Disposition_value (bs "form-data") ps).
Definition sample_control : form_part :=
  FormPart [form_disposition [WrittenParam [] (bs " ") (bs "name") (As_quoted (bs "player"))]] (bs "4").
Definition sample_file : form_part :=
  FormPart
    [ form_disposition
        [ WrittenParam [] (bs " ") (bs "Name") (As_token (bs "file"));
          WrittenParam (bs " ") [] (bs "filename") (As_quoted (bs "a" ++ [x22] ++ bs "b.txt")) ];
      FieldLine (bs "Content-Type") [] (Other_value (bs "text/plain")) ]
    (eol ++ bs "--" ++ eol).
Definition sample_named : form_part :=
  FormPart
    [ form_disposition
        [ WrittenParam [] [] (bs "name") (As_token (bs "f2"));
          WrittenParam [] [] (bs "filename*") (As_extended (bs "UTF-8") [] [bs "%C3"; bs "%A6"; bs "."; bs "t"]) ] ] [].
Definition sample_header : http_header_fields_t :=
  [field_by_id content_type (bs "Multipart/Form-Data; charset=utf-8; boundary=xyz")].

Lemma upload_delivers_files_witness :
  match enumerate_parts_with_files (fun st d => (continue_enumeration, st ++ [d])) sample_header
    ((bs "--" ++ bs "xyz") ++ part_lines (bs "--" ++ bs "xyz") (part_text <$> [sample_control; sample_file; sample_named]) [])
    (bs "multipart") (bs "form-data") [] with
  | (Done 2%nat, [d1; d2]) =>
      name d1 = bs "file" /\ filename d1 = Some (bs "a" ++ [x22] ++ bs "b.txt") /\ body d1 = eol ++ bs "--" ++ eol /\
      name d2 = bs "f2" /\ filename_star d2 = Some (bs "UTF-8''%C3%A6.t") /\ body d2 = []
  | _ => False
  end.
Proof.
  pose proof (upload_delivers_files (fun st d => (continue_enumeration, st ++ [d])) sample_header
    (bs "Multipart") (bs "Form-Data")
    [WrittenParam [] (bs " ") (bs "charset") (As_token (bs "utf-8"));
     WrittenParam [] (bs " ") (bs "boundary") (As_token (bs "xyz"))]
    (bs "xyz") [] [sample_control; sample_file; sample_named] [] []) as H. cbn [app] in H.
  rewrite H; [vm_compute; split_and!; reflexivity|try (vm_compute; reflexivity)..|].
  - by left.
  - done.
  - repeat constructor; vm_compute; reflexivity.
Defined.

(** The search for a boundary takes the first place where its octets stand; when
    that is in the middle of a line, or at the start of a longer line, the body
    has no parts at all. *)
Lemma boundary_text_in_part :
  split_multipart_body (bs "--a" ++ eol ++ bs "x--a" ++ eol ++ bs "--a--" ++ eol) (bs "--a") = [] /\
  split_multipart_body (bs "--a" ++ eol ++ bs "x" ++ eol ++ bs "--a--") (bs "--a") = [] /\
  split_multipart_body (bs "--a" ++ eol ++ bs "x" ++ eol ++ bs "--a--" ++ eol) (bs "--a") = [bs "x"].
Proof. split_and!; vm_compute; reflexivity. Qed.

End MultipartTheorems.
