(* ===== verification/EasyRouter.v ===== *)
(** * The router over grammars

    Model of src/web/restinio/restinio/router/easy_parser_router.hpp: routes are
    grammars built from literal fragments and producers, the values of the
    producers fill a tuple, and the router asks its entries in order.  The items
    of a tuple have one type here, [V]; the position of an item is the number of
    producers before it, as the type computations of the source have it. *)

From S2P Require Import Prelude Utf8Checker HttpFields PercentEncoding EasyParser ParserReads FieldBasics FieldReads Router.

Module EasyRouter.
Import Parser ParserLaws Reads Basics FieldReads.
Import HttpMethod MethodMatcher TargetPath.
#[local] Open Scope parser_scope.

(** ** Routes *)

Inductive route_arg (V : Type) : Type :=
| Fragment (text : list byte)
| Item (p : producer V)
| Clause (c : clause (list V)).
Arguments Fragment {V} text.
Arguments Item {V} p.
Arguments Clause {V} c.

(** [tuple_item_consumer_t<Index>]. *)
Definition tuple_item_consumer {V} (index : nat) : consumer (list V) V :=
  custom_consumer (fun to_ v => <[index := v]> to_).

Definition special_produce_tuple_item_clause {V} (p : producer V) (index : nat) : clause (list V) :=
  p >> tuple_item_consumer index.
Definition special_exact_fragment_clause {V} (text : list byte) : clause (list V) :=
  exact_p text >> skip.

(** [clauses_type_maker]: only a producer takes the next index. *)
Fixpoint clauses_of {V} (args : list (route_arg V)) (current_index : nat) : list (clause (list V)) :=
  match args with
  | [] => []
  | Fragment text :: args => special_exact_fragment_clause text :: clauses_of args current_index
  | Item p :: args =>
      special_produce_tuple_item_clause p current_index :: clauses_of args (S current_index)
  | Clause c :: args => c :: clauses_of args current_index
  end.

(** [detect_result_tuple]: an item for every producer. *)
Fixpoint tuple_size {V} (args : list (route_arg V)) : nat :=
  match args with
  | [] => 0
  | Item _ :: args => S (tuple_size args)
  | _ :: args => tuple_size args
  end.

Definition path_to_tuple {V} `{Inhabited V} (args : list (route_arg V)) : producer (list V) :=
  produce (replicate (tuple_size args) inhabitant) (clauses_of args 0).
Definition path_to_params {V} `{Inhabited V} (args : list (route_arg V)) : producer (list V) :=
  produce (replicate (tuple_size args) inhabitant) (clauses_of args 0).

Definition path_fragment_p (separator : byte) : producer (list byte) :=
  produce [] [ repeat_ 1 N [ any_symbol_if_not_p separator >> to_container ] ].

(** [unescape_transformer_t]: the function it calls throws. *)
Definition unescape `{Percent.UnescapeTraits} (input : list byte) : transformed (list byte) :=
  match Percent.try_unescape_percent_encoding input with
  | Percent.Unescaped s => Transformed s
  | Percent.Failed _ => TransformThrows "unescape_percent_encoding"
  end.

(** ** The router; what a handler returns is [R] *)

Record router_entry_t (R : Type) := RouterEntry {
  entry_value : Type;
  m_method_matcher : method_matcher_t;
  m_producer : producer entry_value;
  m_handler : entry_value -> R
}.
Arguments RouterEntry {R} entry_value m_method_matcher m_producer m_handler.
Arguments m_method_matcher {R} r.
Arguments m_producer {R} r.
Arguments m_handler {R} r.
Arguments entry_value {R} r.

(** [Value None] is [no_match_t]. *)
Definition try_handle {R} (e : router_entry_t R) (method : http_method_id_t) (target_path : list byte)
  : expected (option R) :=
  if match_ method (m_method_matcher e) then
    match try_parse target_path (m_producer e) with
    | Value v => Value (Some (m_handler e v))
    | Unexpected _ => Value None
    | Abnormal a => Abnormal a
    end
  else Value None.

Record easy_parser_router_t (R : Type) := EasyParserRouter {
  m_entries : list (router_entry_t R);
  m_non_matched_request_handler : option R
}.
Arguments EasyParserRouter {R} m_entries m_non_matched_request_handler.
Arguments m_entries {R} e.
Arguments m_non_matched_request_handler {R} e.

Definition empty_router {R} : easy_parser_router_t R := EasyParserRouter [] None.

Definition add_handler {R V} (method_matcher : method_matcher_t) (route : producer V) (handler : V -> R)
    (r : easy_parser_router_t R) : easy_parser_router_t R :=
  EasyParserRouter (m_entries r ++ [RouterEntry V method_matcher route handler])
    (m_non_matched_request_handler r).

Section Methods.
Context `{HttpParserCodes} {R V : Type} (route : producer V) (handler : V -> R).
Definition http_get := add_handler (simple_matcher_t (http_method_id HttpMethod.GET)) route handler.
Definition http_delete := add_handler (simple_matcher_t (http_method_id HttpMethod.DELETE)) route handler.
Definition http_head := add_handler (simple_matcher_t (http_method_id HttpMethod.HEAD)) route handler.
Definition http_post := add_handler (simple_matcher_t (http_method_id HttpMethod.POST)) route handler.
Definition http_put := add_handler (simple_matcher_t (http_method_id HttpMethod.PUT)) route handler.
End Methods.

Definition non_matched_request_handler {R} (nmrh : R) (r : easy_parser_router_t R) : easy_parser_router_t R :=
  EasyParserRouter (m_entries r) (Some nmrh).

Inductive routed (R : Type) : Type :=
| Handled (a : R)
| Not_handled
| Bad_path (f : Percent.unescape_failure_t)
| Aborted (a : abnormal).
Arguments Handled {R} a.
Arguments Not_handled {R}.
Arguments Bad_path {R} f.
Arguments Aborted {R} a.

(** The loop over the entries. *)
Fixpoint run_entries {R} (l : list (router_entry_t R)) (method : http_method_id_t)
    (target_path : list byte) : expected (option R) :=
  match l with
  | [] => Value None
  | e :: l =>
      match try_handle e method target_path with
      | Value (Some r) => Value (Some r)
      | Value None => run_entries l method target_path
      | r => r
      end
  end.

(** [path_to_inspect]: a slash at the end is not looked at. *)
Definition path_to_inspect (path : list byte) : list byte :=
  match rev path with
  | c :: ((_ :: _) as r) => if Byte.eqb "/" c then rev r else path
  | _ => path
  end.

Definition run_router {R} (r : easy_parser_router_t R) (method : http_method_id_t) (path : list byte)
  : routed R :=
  match make_target_path (path_to_inspect path) with
  | inl f => Bad_path f
  | inr t =>
      let target_path := match target_view t with Some v => v | None => [] end in
      match run_entries (m_entries r) method target_path with
      | Value (Some a) => Handled a
      | Value None =>
          match m_non_matched_request_handler r with Some a => Handled a | None => Not_handled end
      | Unexpected _ => Not_handled
      | Abnormal a => Aborted a
      end
  end.

(** ** Routes read their paths back *)

Section Paths.
#[local] Existing Instance Percent.restinio_default_unescape_traits.
Context `{Percent.FmtHex}.

(** A route: prefixes, each followed by a parameter, and a text at the end. *)
Definition param_p : producer (list byte) := path_fragment_p "/" ~> unescape.
Definition text_args (text : list byte) : list (route_arg (list byte)) :=
  match text with [] => [] | _ => [Fragment text] end.
Fixpoint route_args (prefixes : list (list byte)) (tail : list byte) : list (route_arg (list byte)) :=
  match prefixes with
  | [] => text_args tail
  | p :: prefixes => Fragment p :: Item param_p :: route_args prefixes tail
  end.

(** The path of a route for the values of its parameters. *)
Fixpoint path_of (segments : list (list byte * list byte)) (tail : list byte) : list byte :=
  match segments with
  | [] => tail
  | (p, v) :: segments => p ++ Percent.escape_percent_encoding v ++ path_of segments tail
  end.

Definition starts_with_slash (u : list byte) : Prop := match u with [] => False | c :: _ => c = x2f end.
Definition segment_ok (s : list byte * list byte) : Prop :=
  starts_with_slash s.1 /\ s.2 <> [] /\ Percent.text_ok s.2 = true.
Definition tail_ok (tail : list byte) : Prop :=
  tail = [] \/ (starts_with_slash tail /\ Forall (fun c => is_space c = false) tail).

(** What escaping writes: no slash and no space. *)
Definition path_char (c : byte) : bool := negb (Byte.eqb "/" c) && negb (is_space c).

Lemma escape_route_chars v :
  Percent.text_ok v = true -> forallb path_char (Percent.escape_percent_encoding v) = true.
Proof.
  intros [_ Hc]%andb_prop. rewrite Percent.escape_is_tokens by done. clear Hc. induction v as [|c v IH]; [done|]. cbn [map flat_map].
  rewrite forallb_app, IH, andb_true_r.
  assert (Hall : byte_all (fun c => forallb path_char (Percent.print (Percent.escape_token c))) = true)
    by (vm_compute; reflexivity).
  exact (byte_all_true _ Hall c).
Qed.

Lemma escape_nonempty v : Percent.text_ok v = true -> v <> [] -> Percent.escape_percent_encoding v <> [].
Proof.
  intros [_ Hc]%andb_prop. rewrite Percent.escape_is_tokens by done. clear Hc. destruct v as [|c v]; [done|]. intros _. cbn [map flat_map].
  unfold Percent.escape_token at 1. by destruct (Percent.ordinary_char c).
Qed.

Lemma reads_route_param v :
  v <> [] -> Percent.text_ok v = true ->
  reads param_p (Percent.escape_percent_encoding v) v (stops (fun c => negb (Byte.eqb "/" c))).
Proof.
  intros Hne Hu. eapply reads_transform.
  - apply reads_produce, reads_single, (reads_repeat_chars (fun c => negb (Byte.eqb "/" c))).
    + apply forallb_forall. intros c Hc. pose proof (proj1 (forallb_forall _ _) (escape_route_chars v Hu) c Hc) as Hp.
      unfold path_char in Hp. by apply andb_true_iff in Hp as [? _].
    + pose proof (escape_nonempty v Hu Hne). destruct (Percent.escape_percent_encoding v); [done|cbn; lia].
  - unfold unescape. cbn [app]. by rewrite Percent.unescape_escape.
Qed.

Lemma path_of_start segments tail r :
  Forall segment_ok segments -> tail_ok tail -> r = [] ->
  stops (fun c => negb (Byte.eqb "/" c)) (path_of segments tail ++ r).
Proof.
  intros Hs Ht ->. rewrite app_nil_r. destruct segments as [|[p v] segments].
  - destruct Ht as [->|[Ht _]]; [done|]. cbn [path_of]. destruct tail; [done|]. cbn in Ht. by subst.
  - apply Forall_cons_1 in Hs as [[Hp _] _]. cbn [path_of fst] in *. destruct p; [done|]. cbn in Hp. by subst.
Qed.

Lemma reads_route segments tail done_ :
  Forall segment_ok segments -> tail_ok tail ->
  reads_all (clauses_of (route_args segments.*1 tail) (length done_))
    (done_ ++ replicate (tuple_size (route_args segments.*1 tail)) inhabitant)
    (path_of segments tail) (done_ ++ segments.*2) (fun r => r = []).
Proof.
  intros Hs Ht. revert done_. induction Hs as [|[p v] segments (Hp & Hv & Hu) Hs IH]; intros done_.
  - cbn [fmap list_fmap route_args path_of]. unfold text_args. destruct tail as [|c tail].
    + cbn. apply reads_nil.
    + cbn [clauses_of tuple_size replicate]. apply reads_single.
      apply (reads_c_weaken _ _ _ _ anything); [|done]. eapply reads_consume; [apply reads_exact|done].
  - cbn [fst snd] in Hp, Hv, Hu. cbn [fmap list_fmap fst snd route_args clauses_of tuple_size replicate path_of].
    eapply reads_cons_any; [eapply reads_consume; [apply reads_exact|done]|].
    eapply reads_cons.
    + eapply reads_consume; [by apply reads_route_param|]. unfold tuple_item_consumer, custom_consumer.
      rewrite insert_app_r_alt, Nat.sub_diag by lia. reflexivity.
    + specialize (IH (done_ ++ [v])). rewrite length_app, Nat.add_1_r, <- !app_assoc in IH. exact IH.
    + intros r Hr. by apply path_of_start.
Qed.

Lemma path_of_end segments tail l c :
  Forall segment_ok segments -> tail_ok tail -> path_of segments tail = l ++ [c] -> is_space c = false.
Proof.
  intros Hs Ht. revert l. induction Hs as [|[p v] segments (Hp & Hv & Hok) Hs IH]; intros l; cbn [path_of].
  - intros ->. destruct Ht as [Ht|[_ Ht]]; [by destruct l|]. apply Forall_app in Ht as [_ Ht].
    by apply Forall_cons_1 in Ht as [? _].
  - destruct (decide (path_of segments tail = [])) as [->|Hne].
    + rewrite app_nil_r. pose proof (escape_nonempty v Hok Hv) as He. pose proof (escape_route_chars v Hok) as Hc.
      destruct (Percent.escape_percent_encoding v) as [|d u _] using rev_ind; [done|].
      rewrite app_assoc. intros [_ <-]%app_inj_tail. rewrite forallb_app, andb_true_iff in Hc.
      destruct Hc as [_ Hc]. cbn in Hc. unfold path_char in Hc. rewrite !andb_true_iff, !negb_true_iff in Hc.
      apply Hc.
    + destruct (path_of segments tail) as [|d u _] eqn:Hu using rev_ind; [done|].
      rewrite !app_assoc. intros [_ <-]%app_inj_tail. by eapply IH.
Qed.

End Paths.

(** A route reads its paths back: for every route of prefixes that begin with
    a slash, each followed by a parameter, and of an optional text at the end,
    and for all values of the parameters that are UTF-8 text (ASCII where [char] is
    signed) and not empty,
    slashes, spaces and percent signs in them included, the path written with
    the values escaped is accepted, and the tuple holds the values in the order
    of the parameters. *)
Theorem easy_route_roundtrip `{Percent.FmtHex} segments tail :
  Forall segment_ok segments -> tail_ok tail ->
  try_parse (path_of segments tail) (path_to_tuple (route_args segments.*1 tail)) = Value segments.*2.
Proof.
  intros Hs Ht. eapply try_parse_reads.
  - apply reads_produce, (reads_route segments tail [] Hs Ht).
  - done.
  - intros l c. by apply path_of_end.
Qed.

Definition sample_segments : list (list byte * list byte) :=
  [(bs "/books/", bs "50% /+"); (bs "/versions/", bs "ø")].

Lemma easy_route_roundtrip_witness :
  @path_of Percent.unsigned_char sample_segments (bs "/raw") = bs "/books/50%25%20%2F%2B/versions/%C3%B8/raw" /\
  try_parse (@path_of Percent.unsigned_char sample_segments (bs "/raw"))
    (path_to_tuple (route_args sample_segments.*1 (bs "/raw"))) = Value [bs "50% /+"; bs "ø"].
Proof.
  split; [vm_compute; reflexivity|].
  apply (@easy_route_roundtrip Percent.unsigned_char sample_segments (bs "/raw")).
  - repeat apply Forall_cons_2; [..|apply Forall_nil_2]; split_and!; vm_compute; by reflexivity || discriminate.
  - right. split; [reflexivity|]. by repeat constructor.
Defined.

(** ** The router *)

(** An entry accepts a request, with the value its grammar gives. *)
Definition accepts {R} (e : router_entry_t R) (method : http_method_id_t) (target_path : list byte)
    (v : entry_value e) : Prop :=
  match_ method (m_method_matcher e) = true /\ try_parse target_path (m_producer e) = Value v.

Definition refuses_request {R} (e : router_entry_t R) (method : http_method_id_t) (target_path : list byte) : Prop :=
  forall v, ~ accepts e method target_path v.

Lemma try_handle_cases {R} (e : router_entry_t R) method path :
  SafeProducer (m_producer e) ->
  (exists v, accepts e method path v /\ try_handle e method path = Value (Some (m_handler e v))) \/
  (refuses_request e method path /\ try_handle e method path = Value None).
Proof.
  intros Hs. unfold try_handle, refuses_request, accepts.
  destruct (match_ method (m_method_matcher e)); [|right; split; [by intros v []|done]].
  pose proof (try_parse_safe (m_producer e) path Hs) as Hn.
  destruct (try_parse path (m_producer e)) as [v|err|a]; [left; by exists v| |done].
  right. split; [by intros v []|done].
Qed.

Lemma run_entries_first {R} (l : list (router_entry_t R)) method path :
  Forall (fun e => SafeProducer (m_producer e)) l ->
  (exists l1 e l2 v, l = l1 ++ e :: l2 /\ Forall (fun e => refuses_request e method path) l1 /\
     accepts e method path v /\ run_entries l method path = Value (Some (m_handler e v))) \/
  (Forall (fun e => refuses_request e method path) l /\ run_entries l method path = Value None).
Proof.
  induction 1 as [|e l He Hl IH]; [by right|]. cbn [run_entries].
  destruct (try_handle_cases e method path He) as [(v & Ha & ->)|[Hr ->]].
  - left. by exists [], e, l, v.
  - destruct IH as [(l1 & e' & l2 & v & -> & H1 & Ha & ->)|[H1 ->]]; [|right; by split; [constructor|]].
    left. exists (e :: l1), e', l2, v. split_and!; try done. by constructor.
Qed.

(** What the router promises for a request. *)
Definition picks_first {R} (r : easy_parser_router_t R) (method : http_method_id_t) (path : list byte) : Prop :=
  match make_target_path (path_to_inspect path) with
  | inl f => run_router r method path = Bad_path f
  | inr t => exists target, target_view t = Some target /\
      ((exists l1 e l2 v, m_entries r = l1 ++ e :: l2 /\
          Forall (fun e => refuses_request e method target) l1 /\ accepts e method target v /\
          run_router r method path = Handled (m_handler e v)) \/
       (Forall (fun e => refuses_request e method target) (m_entries r) /\
          run_router r method path
          = match m_non_matched_request_handler r with Some a => Handled a | None => Not_handled end))
  end.

(** The router over grammars: on the normalised path without a slash at its
    end, a router whose routes are built from safe parts answers with the
    handler of the first entry whose methods and grammar accept the request,
    called with the value the grammar gives; when no entry does, with the
    handler for requests that do not match, or it does not handle the request.
    A path that cannot be normalised is the only other outcome. *)
Theorem easy_router_picks_first {R} (r : easy_parser_router_t R) method path :
  Forall (fun e => SafeProducer (m_producer e)) (m_entries r) -> picks_first r method path.
Proof.
  intros Hs. unfold picks_first, run_router. destruct (make_target_path (path_to_inspect path)) as [f|t] eqn:Ht; [done|].
  assert (Hv : exists target, target_view t = Some target).
  { unfold make_target_path in Ht. repeat case_match; simplify_eq; by eexists. }
  destruct Hv as [target Hv]. exists target. split; [done|]. rewrite Hv.
  destruct (run_entries_first (m_entries r) method target Hs) as [(l1 & e & l2 & v & He & H1 & Ha & ->)|[H1 ->]].
  - left. by exists l1, e, l2, v.
  - by right.
Qed.

(** Routes over grammars are safe when the parts are. *)
Lemma safe_path_to_tuple {V} `{Inhabited V} (args : list (route_arg V)) :
  Forall (fun a => match a with Item p => SafeProducer p | Clause c => SafeClause c | Fragment _ => True end) args ->
  SafeProducer (path_to_tuple args).
Proof.
  intros Ha. unfold path_to_tuple. apply safe_produce. generalize 0%nat as i.
  induction Ha as [|a args Ha Hargs IH]; intros i; [apply safe_nil|].
  destruct a; cbn [clauses_of]; (apply safe_cons; [|apply IH]);
    unfold special_exact_fragment_clause, special_produce_tuple_item_clause, tuple_item_consumer; apply _.
Qed.

Definition sample_router : easy_parser_router_t nat :=
  EasyParserRouter
    [ RouterEntry (list byte) (any_of_methods []) (path_fragment_p "/") (fun _ => 0%nat);
      RouterEntry (list (list byte)) (none_of_methods [])
        (path_to_tuple [Fragment (bs "/a/"); Item (path_fragment_p "/")]) (fun vs => length (concat vs)) ]
    None.

Lemma sample_router_safe : Forall (fun e => SafeProducer (m_producer e)) (m_entries sample_router).
Proof.
  repeat apply Forall_cons_2; [..|apply Forall_nil_2]; cbn [m_producer]; [unfold path_fragment_p; apply _|].
  apply safe_path_to_tuple. repeat apply Forall_cons_2; [done| |apply Forall_nil_2]. unfold path_fragment_p. apply _.
Qed.

Lemma easy_router_picks_first_witness :
  picks_first sample_router http_method_unknown (bs "/a/xyz/") /\
  run_router sample_router http_method_unknown (bs "/a/xyz/") = Handled 3%nat.
Proof.
  split; [|vm_compute; reflexivity]. apply easy_router_picks_first. apply sample_router_safe.
Defined.

(** The unescaping of a parameter throws: a path is not refused by its route but
    ends the call of the router, whatever entries follow. *)
Lemma unescape_throws_out_of_router :
  run_router
    (EasyParserRouter
       [ RouterEntry (list (list byte)) (none_of_methods [])
           (path_to_tuple [Fragment (bs "/"); Item (@param_p)]) (fun _ => 1%nat);
         RouterEntry (list byte) (none_of_methods []) (path_fragment_p ":") (fun _ => 2%nat) ] None)
    http_method_unknown (bs "/a=b") = Aborted (Thrown "unescape_percent_encoding").
Proof. vm_compute. reflexivity. Qed.

End EasyRouter.
