(* ===== verification/Sha1.v ===== *)
(** * SHA-1

    Model of src/web/restinio/restinio/utils/sha1.hpp, which the WebSocket
    handshake uses: Module [Sha1] has the code, with its circular buffer of
    sixteen words and its registers renamed instead of moved, Module [Fips] the
    algorithm as FIPS 180-4 states it, and Module [Sha1Theorems] relates the two. *)

From S2P Require Import Prelude Bitops.

Module Sha1.

Definition block_size : nat := 64.
Definition digest_array_size : nat := 5.

(** [byte_block_t] is a list of 64 octets, [int_block_t] one of 16 words and
    [digest_t] one of 5; the code indexes them with constants and with [& 15]. *)
Definition word_at (block : list Z) (i : Z) : Z := nth (Z.to_nat i) block 0.

(** Addition of [std::uint32_t]. *)
Definition add32 (a b : Z) : Z := wrap 32 (a + b).

Definition rotate_left (shift x : Z) : Z :=
  Z.lor (wrap 32 (Z.shiftl x shift)) (Z.shiftr x (32 - shift)).

Definition octet_from (shift x : Z) : byte := Bitops.byte_from shift x.

Definition blk (block : list Z) (i : Z) : Z :=
  rotate_left 1
    (Z.lxor (Z.lxor (Z.lxor (word_at block (Z.land (i + 13) 15)) (word_at block (Z.land (i + 8) 15)))
                    (word_at block (Z.land (i + 2) 15)))
            (word_at block i)).

(** [block[i] = blk(block, i)] *)
Definition store_blk (block : list Z) (i : Z) : list Z := <[Z.to_nat i := blk block i]> block.

(** The rounds return the arguments they take by reference: [w] and [z], and the
    block where it is not constant. *)
Definition R0 (block : list Z) (v w x y z i : Z) : Z * Z :=
  let z := add32 z (add32 (add32 (add32 (Z.lxor (Z.land w (Z.lxor x y)) y) (word_at block i)) 0x5a827999)
                          (rotate_left 5 v)) in
  (rotate_left 30 w, z).

Definition R1 (block : list Z) (v w x y z i : Z) : list Z * Z * Z :=
  let block := store_blk block i in
  let z := add32 z (add32 (add32 (add32 (Z.lxor (Z.land w (Z.lxor x y)) y) (word_at block i)) 0x5a827999)
                          (rotate_left 5 v)) in
  (block, rotate_left 30 w, z).

Definition R2 (block : list Z) (v w x y z i : Z) : list Z * Z * Z :=
  let block := store_blk block i in
  let z := add32 z (add32 (add32 (add32 (Z.lxor (Z.lxor w x) y) (word_at block i)) 0x6ed9eba1)
                          (rotate_left 5 v)) in
  (block, rotate_left 30 w, z).

Definition R3 (block : list Z) (v w x y z i : Z) : list Z * Z * Z :=
  let block := store_blk block i in
  let z := add32 z (add32 (add32 (add32 (Z.lor (Z.land (Z.lor w x) y) (Z.land w x)) (word_at block i)) 0x8f1bbcdc)
                          (rotate_left 5 v)) in
  (block, rotate_left 30 w, z).

Definition R4 (block : list Z) (v w x y z i : Z) : list Z * Z * Z :=
  let block := store_blk block i in
  let z := add32 z (add32 (add32 (add32 (Z.lxor (Z.lxor w x) y) (word_at block i)) 0xca62c1d6)
                          (rotate_left 5 v)) in
  (block, rotate_left 30 w, z).

(** The loop of [transform] that reads the octets as big-endian words. *)
Definition buf_at (buf : list byte) (i : nat) : Z := Z.land (u8 (nth i buf x00)) 0xff.

Definition block_word (buf : list byte) (i : nat) : Z :=
  Z.lor (Z.lor (Z.lor (buf_at buf (4 * i + 3)) (Z.shiftl (buf_at buf (4 * i + 2)) 8))
               (Z.shiftl (buf_at buf (4 * i + 1)) 16))
        (Z.shiftl (buf_at buf (4 * i + 0)) 24).

Definition load_block (buf : list byte) : list Z := map (block_word buf) (seq 0 16).

Definition transform (digest : list Z) (buf : list byte) : list Z :=
  let block := load_block buf in
  let a := word_at digest 0 in
  let b := word_at digest 1 in
  let c := word_at digest 2 in
  let d := word_at digest 3 in
  let e := word_at digest 4 in
  let '(b, e) := R0 block a b c d e 0 in
  let '(a, d) := R0 block e a b c d 1 in
  let '(e, c) := R0 block d e a b c 2 in
  let '(d, b) := R0 block c d e a b 3 in
  let '(c, a) := R0 block b c d e a 4 in
  let '(b, e) := R0 block a b c d e 5 in
  let '(a, d) := R0 block e a b c d 6 in
  let '(e, c) := R0 block d e a b c 7 in
  let '(d, b) := R0 block c d e a b 8 in
  let '(c, a) := R0 block b c d e a 9 in
  let '(b, e) := R0 block a b c d e 10 in
  let '(a, d) := R0 block e a b c d 11 in
  let '(e, c) := R0 block d e a b c 12 in
  let '(d, b) := R0 block c d e a b 13 in
  let '(c, a) := R0 block b c d e a 14 in
  let '(b, e) := R0 block a b c d e 15 in
  let '(block, a, d) := R1 block e a b c d 0 in
  let '(block, e, c) := R1 block d e a b c 1 in
  let '(block, d, b) := R1 block c d e a b 2 in
  let '(block, c, a) := R1 block b c d e a 3 in
  let '(block, b, e) := R2 block a b c d e 4 in
  let '(block, a, d) := R2 block e a b c d 5 in
  let '(block, e, c) := R2 block d e a b c 6 in
  let '(block, d, b) := R2 block c d e a b 7 in
  let '(block, c, a) := R2 block b c d e a 8 in
  let '(block, b, e) := R2 block a b c d e 9 in
  let '(block, a, d) := R2 block e a b c d 10 in
  let '(block, e, c) := R2 block d e a b c 11 in
  let '(block, d, b) := R2 block c d e a b 12 in
  let '(block, c, a) := R2 block b c d e a 13 in
  let '(block, b, e) := R2 block a b c d e 14 in
  let '(block, a, d) := R2 block e a b c d 15 in
  let '(block, e, c) := R2 block d e a b c 0 in
  let '(block, d, b) := R2 block c d e a b 1 in
  let '(block, c, a) := R2 block b c d e a 2 in
  let '(block, b, e) := R2 block a b c d e 3 in
  let '(block, a, d) := R2 block e a b c d 4 in
  let '(block, e, c) := R2 block d e a b c 5 in
  let '(block, d, b) := R2 block c d e a b 6 in
  let '(block, c, a) := R2 block b c d e a 7 in
  let '(block, b, e) := R3 block a b c d e 8 in
  let '(block, a, d) := R3 block e a b c d 9 in
  let '(block, e, c) := R3 block d e a b c 10 in
  let '(block, d, b) := R3 block c d e a b 11 in
  let '(block, c, a) := R3 block b c d e a 12 in
  let '(block, b, e) := R3 block a b c d e 13 in
  let '(block, a, d) := R3 block e a b c d 14 in
  let '(block, e, c) := R3 block d e a b c 15 in
  let '(block, d, b) := R3 block c d e a b 0 in
  let '(block, c, a) := R3 block b c d e a 1 in
  let '(block, b, e) := R3 block a b c d e 2 in
  let '(block, a, d) := R3 block e a b c d 3 in
  let '(block, e, c) := R3 block d e a b c 4 in
  let '(block, d, b) := R3 block c d e a b 5 in
  let '(block, c, a) := R3 block b c d e a 6 in
  let '(block, b, e) := R3 block a b c d e 7 in
  let '(block, a, d) := R3 block e a b c d 8 in
  let '(block, e, c) := R3 block d e a b c 9 in
  let '(block, d, b) := R3 block c d e a b 10 in
  let '(block, c, a) := R3 block b c d e a 11 in
  let '(block, b, e) := R4 block a b c d e 12 in
  let '(block, a, d) := R4 block e a b c d 13 in
  let '(block, e, c) := R4 block d e a b c 14 in
  let '(block, d, b) := R4 block c d e a b 15 in
  let '(block, c, a) := R4 block b c d e a 0 in
  let '(block, b, e) := R4 block a b c d e 1 in
  let '(block, a, d) := R4 block e a b c d 2 in
  let '(block, e, c) := R4 block d e a b c 3 in
  let '(block, d, b) := R4 block c d e a b 4 in
  let '(block, c, a) := R4 block b c d e a 5 in
  let '(block, b, e) := R4 block a b c d e 6 in
  let '(block, a, d) := R4 block e a b c d 7 in
  let '(block, e, c) := R4 block d e a b c 8 in
  let '(block, d, b) := R4 block c d e a b 9 in
  let '(block, c, a) := R4 block b c d e a 10 in
  let '(block, b, e) := R4 block a b c d e 11 in
  let '(block, a, d) := R4 block e a b c d 12 in
  let '(block, e, c) := R4 block d e a b c 13 in
  let '(block, d, b) := R4 block c d e a b 14 in
  let '(block, c, a) := R4 block b c d e a 15 in
  [add32 (word_at digest 0) a; add32 (word_at digest 1) b; add32 (word_at digest 2) c;
   add32 (word_at digest 3) d; add32 (word_at digest 4) e].

Record builder_t := mk_builder {
  m_digest : list Z;
  m_buffer_len : nat;
  m_transforms_count : Z;
  m_buffer : list byte }.

(** The constructor, by [reset]. *)
Definition reset : builder_t :=
  mk_builder [0x67452301; 0xEFCDAB89; 0x98BADCFE; 0x10325476; 0xC3D2E1F0] 0 0 (replicate block_size x00).

(** [std::copy] into the buffer at position [at_]. *)
Definition copy_at (at_ : nat) (what buffer : list byte) : list byte :=
  take at_ buffer ++ what ++ drop (at_ + length what) buffer.

(** [update]; [None] would be a loop that does not end. *)
Fixpoint update_loop (fuel : nat) (what : list byte) (b : builder_t) : option builder_t :=
  match fuel with
  | O => None
  | S fuel =>
      let part_len := Nat.min (length what) (block_size - m_buffer_len b) in
      let buffer := copy_at (m_buffer_len b) (take part_len what) (m_buffer b) in
      let buffer_len := (m_buffer_len b + part_len)%nat in
      if (buffer_len =? block_size)%nat then
        update_loop fuel (drop part_len what)
          (mk_builder (transform (m_digest b) buffer) 0 (wrap 64 (m_transforms_count b + 1)) buffer)
      else Some (mk_builder (m_digest b) buffer_len (m_transforms_count b) buffer)
  end.

Definition update (what : list byte) (b : builder_t) : option builder_t :=
  update_loop (S (S (length what))) what b.

Definition calculate_total_bits_count (b : builder_t) : Z :=
  wrap 64 (wrap 64 (wrap 64 (m_transforms_count b * 64) + Z.of_nat (m_buffer_len b)) * 8).

Definition uint_octets (big_value : Z) : list byte :=
  let v := wrap 32 big_value in
  [octet_from 24 v; octet_from 16 v; octet_from 8 v; octet_from 0 v].

(** [finish]; [None] is a write behind the end of [m_buffer]. *)
Definition finish (b : builder_t) : option (builder_t * list Z) :=
  let total_bits := calculate_total_bits_count b in
  let original_buf_len := m_buffer_len b in
  if (original_buf_len <? block_size)%nat then
    let buffer := copy_at original_buf_len [x80] (m_buffer b) in
    let buffer := copy_at (S original_buf_len) (replicate (block_size - S original_buf_len) x00) buffer in
    let '(digest, buffer) :=
      if (block_size - 8 <? original_buf_len)%nat
      then (transform (m_digest b) buffer, replicate block_size x00)
      else (m_digest b, buffer) in
    let buffer := copy_at (block_size - 8) (uint_octets (Z.shiftr total_bits 32)) buffer in
    let buffer := copy_at (block_size - 4) (uint_octets (Z.land total_bits 0xffffffff)) buffer in
    let digest := transform digest buffer in
    Some (mk_builder digest block_size (m_transforms_count b) buffer, digest)
  else None.

Definition halfbyte (shift v : Z) : Z := Bitops.n_bits_from 32 shift 4 v.
Definition byte_ (shift v : Z) : Z := Bitops.n_bits_from 32 shift 8 v.

Definition digits : list byte := bs "0123456789abcdef".

Definition to_hex_string (what : list Z) : list byte :=
  flat_map (fun c => map (fun shift => nth (Z.to_nat (halfbyte shift c)) digits x00)
                         [28; 24; 20; 16; 12; 8; 4; 0]) what.

Definition to_string (what : list Z) : list byte :=
  flat_map (fun c => map (fun shift => b8 (byte_ shift c)) [24; 16; 8; 0]) what.

(** [make_digest] *)
Definition make_digest (what : list byte) : option (list Z) :=
  b ← update what reset; '(_, digest) ← finish b; Some digest.

End Sha1.

(** ** The standard *)

Module Fips.

Abbreviation Word := Z (only parsing).

Definition ROTL (n x : Z) : Word := Z.lor (Z.shiftl x n mod 2 ^ 32) (Z.shiftr x (32 - n)).

Definition Ch (x y z : Word) : Word := Z.lxor (Z.land x y) (Z.land (Z.lnot x) z).
Definition Parity (x y z : Word) : Word := Z.lxor (Z.lxor x y) z.
Definition Maj (x y z : Word) : Word := Z.lxor (Z.lxor (Z.land x y) (Z.land x z)) (Z.land y z).

Definition f (t : nat) : Word -> Word -> Word -> Word :=
  if (t <? 20)%nat then Ch else if (t <? 40)%nat then Parity else if (t <? 60)%nat then Maj else Parity.

Definition K (t : nat) : Word :=
  if (t <? 20)%nat then 0x5a827999 else if (t <? 40)%nat then 0x6ed9eba1
  else if (t <? 60)%nat then 0x8f1bbcdc else 0xca62c1d6.

(** The message schedule: 80 words grown from the 16 of the block. *)
Definition next_word (W : list Word) : Word :=
  let t := length W in
  let w k := nth (t - k) W 0 in
  ROTL 1 (Z.lxor (Z.lxor (Z.lxor (w 3%nat) (w 8%nat)) (w 14%nat)) (w 16%nat)).

Fixpoint extend (n : nat) (M : list Word) : list Word :=
  match n with O => M | S n => let W := extend n M in W ++ [next_word W] end.

Definition schedule (M : list Word) : list Word := extend 64 M.

Record state := mk_state { ra : Word; rb : Word; rc : Word; rd : Word; re : Word }.

Definition round (W : list Word) (s : state) (t : nat) : state :=
  let T := (ROTL 5 (ra s) + f t (rb s) (rc s) (rd s) + re s + K t + nth t W 0) mod 2 ^ 32 in
  mk_state T (ra s) (ROTL 30 (rb s)) (rc s) (rd s).

Definition rounds (W : list Word) (s : state) (n : nat) : state := fold_left (round W) (seq 0 n) s.

Definition word_of (b : list byte) (i : nat) : Word :=
  let o k := u8 (nth (4 * i + k) b x00) in
  o 0%nat * 2 ^ 24 + o 1%nat * 2 ^ 16 + o 2%nat * 2 ^ 8 + o 3%nat.

Definition words_of (b : list byte) : list Word := map (word_of b) (seq 0 16).

Definition compress (h : state) (b : list byte) : state :=
  let s := rounds (schedule (words_of b)) h 80 in
  mk_state ((ra h + ra s) mod 2 ^ 32) ((rb h + rb s) mod 2 ^ 32) ((rc h + rc s) mod 2 ^ 32)
           ((rd h + rd s) mod 2 ^ 32) ((re h + re s) mod 2 ^ 32).

Definition initial : state := mk_state 0x67452301 0xefcdab89 0x98badcfe 0x10325476 0xc3d2e1f0.

(** A number in [n] octets, the most significant first. *)
Fixpoint big_endian (n : nat) (z : Z) : list byte :=
  match n with O => [] | S n => big_endian n (z / 256) ++ [b8 z] end.

(** A one bit, as few zero bits as needed and the length in bits fill the last block. *)
Definition pad (m : list byte) : list byte :=
  m ++ [x80] ++ replicate (Z.to_nat ((55 - Z.of_nat (length m)) mod 64)) x00
    ++ big_endian 8 (8 * Z.of_nat (length m)).

Definition blocks (m : list byte) : list (list byte) := reshape (replicate (length m / 64) 64%nat) m.

Definition words (s : state) : list Word := [ra s; rb s; rc s; rd s; re s].

Definition sha1 (m : list byte) : list Word := words (fold_left compress (blocks (pad m)) initial).

End Fips.

Module Sha1Theorems.
Import Sha1.

(** *** One block *)

Lemma choice_bits w x y : Z.lxor (Z.land w (Z.lxor x y)) y = Fips.Ch w x y.
Proof.
  apply Z.bits_inj'. intros i Hi. unfold Fips.Ch.
  rewrite !Z.lxor_spec, !Z.land_spec, Z.lxor_spec, Z.lnot_spec by done.
  by destruct (Z.testbit w i), (Z.testbit x i), (Z.testbit y i).
Qed.

Lemma majority_bits w x y : Z.lor (Z.land (Z.lor w x) y) (Z.land w x) = Fips.Maj w x y.
Proof.
  apply Z.bits_inj'. intros i Hi. unfold Fips.Maj.
  rewrite !Z.lxor_spec, Z.lor_spec, !Z.land_spec, Z.lor_spec.
  by destruct (Z.testbit w i), (Z.testbit x i), (Z.testbit y i).
Qed.

(** Wrapping at every addition is wrapping once. *)
Lemma add32_chain z f k m r :
  add32 z (add32 (add32 (add32 f m) k) r) = (r + f + z + k + m) mod 2 ^ 32.
Proof.
  unfold add32, wrap. rewrite Z.add_mod_idemp_r by done.
  rewrite <- (Z.add_mod_idemp_r z (_ + r)), (Z.add_mod_idemp_l (_ + k) r) by done.
  rewrite <- (Z.add_mod_idemp_l (_ + k) r), (Z.add_mod_idemp_l (f + m) k) by done.
  rewrite Z.add_mod_idemp_l, Z.add_mod_idemp_r by done. f_equal. lia.
Qed.

(** The circular block holds the sixteen words of the schedule before round [t]. *)
Definition window (W : list Z) (t : nat) (block : list Z) : Prop :=
  length block = 16%nat /\
  forall j, (Nat.max t 16 - 16 <= j < Nat.max t 16)%nat -> block !! (j mod 16)%nat = Some (nth j W 0).

Lemma schedule_iter M n t :
  length M = 16%nat ->
  let W := Fips.extend n M in
  let w k := nth (t - k) W 0 in
  length W = (16 + n)%nat /\
  ((16 <= t < 16 + n)%nat ->
   nth t W 0 = Fips.ROTL 1 (Z.lxor (Z.lxor (Z.lxor (w 3%nat) (w 8%nat)) (w 14%nat)) (w 16%nat))) /\
  ((t < 16)%nat -> nth t W 0 = nth t M 0).
Proof.
  intros HM. induction n as [|n IH]; cbn [Fips.extend]; [split_and!; [lia|lia|done]|].
  destruct IH as (Hl & Hr & Hp). split_and!.
  - rewrite length_app, Hl. simpl. lia.
  - intros Ht. destruct (decide (t = 16 + n)%nat) as [->|].
    + rewrite app_nth2 by lia. rewrite Hl, Nat.sub_diag. cbn [nth]. unfold Fips.next_word.
      rewrite Hl, !app_nth1 by lia. done.
    + rewrite !app_nth1 by lia. apply Hr. lia.
  - intros Ht. rewrite app_nth1 by lia. by apply Hp.
Qed.

Lemma schedule_spec M t :
  length M = 16%nat ->
  let w k := nth (t - k) (Fips.schedule M) 0 in
  ((16 <= t < 80)%nat ->
   nth t (Fips.schedule M) 0 =
   Fips.ROTL 1 (Z.lxor (Z.lxor (Z.lxor (w 3%nat) (w 8%nat)) (w 14%nat)) (w 16%nat))) /\
  ((t < 16)%nat -> nth t (Fips.schedule M) 0 = nth t M 0).
Proof. intros HM. unfold Fips.schedule. apply (schedule_iter M 64 t HM). Qed.

#[local] Opaque Fips.schedule.

Lemma window_start M : length M = 16%nat -> window (Fips.schedule M) 0 M.
Proof.
  intros HM. split; [done|]. intros j Hj. destruct (schedule_spec M j HM) as (_ & Hp).
  rewrite Hp by lia. rewrite Nat.mod_small by lia.
  destruct (lookup_lt_is_Some_2 M j) as [x Hx]; [lia|]. by rewrite nth_lookup, Hx.
Qed.

(** The position of round [t] in the block. *)
Definition pos (t : nat) : Z := Z.of_nat (t mod 16).

Lemma window_word W t block j :
  window W t block -> (Nat.max t 16 - 16 <= j < Nat.max t 16)%nat -> word_at block (pos j) = nth j W 0.
Proof. intros [_ H] Hj. unfold word_at, pos. by rewrite Nat2Z.id, nth_lookup, H. Qed.

Lemma pos_before t k : (k <= 16)%nat -> (16 <= t)%nat -> Z.land (pos t + Z.of_nat (16 - k)) 15 = pos (t - k).
Proof.
  intros Hk Ht. change 15 with (Z.ones 4). rewrite Z.land_ones by lia. unfold pos.
  rewrite !Nat2Z.inj_mod, Nat2Z.inj_sub by lia. rewrite Zplus_mod_idemp_l.
  rewrite Nat2Z.inj_sub by lia. change (2 ^ 4) with 16.
  replace (Z.of_nat t + (Z.of_nat 16 - Z.of_nat k)) with (Z.of_nat t - Z.of_nat k + 1 * 16) by lia.
  apply Z.mod_add. lia.
Qed.

Lemma blk_word M t block :
  length M = 16%nat -> (16 <= t < 80)%nat -> window (Fips.schedule M) t block ->
  blk block (pos t) = nth t (Fips.schedule M) 0.
Proof.
  intros HM Ht Hw. destruct (schedule_spec M t HM) as (Hr & _).
  rewrite Hr by lia. unfold blk.
  change 13 with (Z.of_nat (16 - 3)). change 8 with (Z.of_nat (16 - 8)). change 2 with (Z.of_nat (16 - 14)).
  rewrite !pos_before by lia.
  assert (Hi : pos t = pos (t - 16)).
  { rewrite <- (pos_before t 16) by lia. change 15 with (Z.ones 4). rewrite Z.land_ones by lia.
    unfold pos. rewrite Nat2Z.inj_mod. change (Z.of_nat (16 - 16)) with 0. rewrite Z.add_0_r.
    symmetry. apply Zmod_mod. }
  rewrite Hi, !(window_word _ _ _ _ Hw) by lia. done.
Qed.

Lemma store_word block i : length block = 16%nat -> word_at (store_blk block (pos i)) (pos i) = blk block (pos i).
Proof.
  intros Hl. unfold word_at, store_blk, pos. rewrite Nat2Z.id, nth_lookup, list_lookup_insert_eq; [done|].
  rewrite Hl. apply Nat.mod_upper_bound. lia.
Qed.

Lemma store_window M t block :
  length M = 16%nat -> (16 <= t < 80)%nat -> window (Fips.schedule M) t block ->
  window (Fips.schedule M) (S t) (store_blk block (pos t)).
Proof.
  intros HM Ht Hw. pose proof Hw as [Hl Hj]. split; [by unfold store_blk; rewrite length_insert|].
  intros j Hr. unfold store_blk, pos. rewrite Nat2Z.id. destruct (decide (j = t)) as [->|].
  - rewrite list_lookup_insert_eq; [|rewrite Hl; apply Nat.mod_upper_bound; lia].
    by rewrite <- (blk_word M t block).
  - rewrite list_lookup_insert_ne; [apply Hj; lia|]. intros Heq.
    pose proof (Nat.div_mod_eq t 16). pose proof (Nat.div_mod_eq j 16). lia.
Qed.

(** The registers of the code before round [t], in the order of the standard. *)
Definition in_step (M : list Z) (h : Fips.state) (t : nat) (block : list Z) (v w x y z : Z) : Prop :=
  window (Fips.schedule M) t block /\
  Fips.rounds (Fips.schedule M) h t = Fips.mk_state v w x y z.

Lemma rounds_S W h t : Fips.rounds W h (S t) = Fips.round W (Fips.rounds W h t) t.
Proof. unfold Fips.rounds. by rewrite seq_S, fold_left_app. Qed.

Section Rounds.
Context (M : list Z) (h : Fips.state) (HM : length M = 16%nat).

Lemma step_R0 t block v w x y z w' z' :
  (t < 16)%nat -> in_step M h t block v w x y z -> R0 block v w x y z (pos t) = (w', z') ->
  in_step M h (S t) block z' v w' x y.
Proof.
  intros Ht [Hw Hs] [= <- <-]. split.
  - destruct Hw as [Hl Hj]. split; [done|]. intros j Hr. apply Hj. lia.
  - rewrite rounds_S, Hs. unfold Fips.round. cbn [Fips.ra Fips.rb Fips.rc Fips.rd Fips.re].
    rewrite add32_chain, (window_word _ _ _ _ Hw) by lia. unfold Fips.f, Fips.K.
    rewrite (proj2 (Nat.ltb_lt t 20)) by lia. by rewrite choice_bits.
Qed.

Lemma step_stored t block v w x y z f k :
  (16 <= t < 80)%nat -> in_step M h t block v w x y z ->
  f = Fips.f t w x y -> k = Fips.K t ->
  let block' := store_blk block (pos t) in
  in_step M h (S t) block'
    (add32 z (add32 (add32 (add32 f (word_at block' (pos t))) k) (rotate_left 5 v))) v (rotate_left 30 w) x y.
Proof.
  intros Ht [Hw Hs] -> ->. split; [by apply store_window|].
  rewrite rounds_S, Hs, store_word by apply Hw. unfold Fips.round.
  cbn [Fips.ra Fips.rb Fips.rc Fips.rd Fips.re].
  by rewrite add32_chain, (blk_word M) by done.
Qed.

(** Selects the branch of [Fips.f] and [Fips.K] for a round in a known range. *)
Local Ltac constants :=
  unfold Fips.f, Fips.K;
  repeat match goal with
  | |- context [(?a <? ?b)%nat] =>
      first [rewrite (proj2 (Nat.ltb_lt a b)) by lia | rewrite (proj2 (Nat.ltb_ge a b)) by lia]
  end.

Lemma step_R1 t block v w x y z block' w' z' :
  (16 <= t < 20)%nat -> in_step M h t block v w x y z -> R1 block v w x y z (pos t) = (block', w', z') ->
  in_step M h (S t) block' z' v w' x y.
Proof.
  intros Ht Hs [= <- <- <-]. apply step_stored; [lia|done| |by constants].
  constants. apply choice_bits.
Qed.

Lemma step_R2 t block v w x y z block' w' z' :
  (20 <= t < 40)%nat -> in_step M h t block v w x y z -> R2 block v w x y z (pos t) = (block', w', z') ->
  in_step M h (S t) block' z' v w' x y.
Proof. intros Ht Hs [= <- <- <-]. by apply step_stored; [lia|done|constants|constants]. Qed.

Lemma step_R3 t block v w x y z block' w' z' :
  (40 <= t < 60)%nat -> in_step M h t block v w x y z -> R3 block v w x y z (pos t) = (block', w', z') ->
  in_step M h (S t) block' z' v w' x y.
Proof.
  intros Ht Hs [= <- <- <-]. apply step_stored; [lia|done| |by constants].
  constants. apply majority_bits.
Qed.

Lemma step_R4 t block v w x y z block' w' z' :
  (60 <= t < 80)%nat -> in_step M h t block v w x y z -> R4 block v w x y z (pos t) = (block', w', z') ->
  in_step M h (S t) block' z' v w' x y.
Proof. intros Ht Hs [= <- <- <-]. by apply step_stored; [lia|done|constants|constants]. Qed.

End Rounds.

Lemma lor_above x a n : 0 <= n -> 0 <= x < 2 ^ n -> Z.lor x (Z.shiftl a n) = a * 2 ^ n + x.
Proof. intros Hn Hx. rewrite Z.lor_comm. by apply lor_shiftl_add. Qed.

Lemma block_word_of b i : block_word b i = Fips.word_of b i.
Proof.
  unfold block_word, buf_at, Fips.word_of. change 0xff with (Z.ones 8). rewrite !Z.land_ones by lia.
  octet_bounds. rewrite !(Z.mod_small _ (2 ^ 8)) by lia.
  rewrite (lor_above _ _ 8), (lor_above _ _ 16), (lor_above _ _ 24) by lia. lia.
Qed.

Lemma load_block_words b : load_block b = Fips.words_of b.
Proof. apply map_ext, block_word_of. Qed.

Lemma in_step_start h b :
  in_step (Fips.words_of b) h 0 (Fips.words_of b)
    (Fips.ra h) (Fips.rb h) (Fips.rc h) (Fips.rd h) (Fips.re h).
Proof. split; [by apply window_start|]. by destruct h. Qed.

(** Executes the next round of [transform] and moves the invariant past it. *)
Local Ltac next_round HM :=
  match goal with
  | H : in_step ?M ?h ?t _ _ _ _ _ _ |- (match ?r with _ => _ end) = _ =>
      let E := fresh in
      destruct r as [? ?] eqn:E;
      first [ pose proof (step_R0 M h HM t _ _ _ _ _ _ _ _ ltac:(lia) H E)
            | match goal with |- (match ?p with _ => _ end) = _ => destruct p as [? ?] end;
              first [ pose proof (step_R1 M h HM t _ _ _ _ _ _ _ _ _ ltac:(lia) H E)
                    | pose proof (step_R2 M h HM t _ _ _ _ _ _ _ _ _ ltac:(lia) H E)
                    | pose proof (step_R3 M h HM t _ _ _ _ _ _ _ _ _ ltac:(lia) H E)
                    | pose proof (step_R4 M h HM t _ _ _ _ _ _ _ _ _ ltac:(lia) H E) ] ];
      clear H E
  end.

(** [transform] is the compression function of the standard. *)
Lemma transform_compress h b : transform (Fips.words h) b = Fips.words (Fips.compress h b).
Proof.
  unfold transform. rewrite load_block_words.
  assert (HM : length (Fips.words_of b) = 16%nat) by done.
  pose proof (in_step_start h b) as Hs. unfold Fips.compress.
  change (word_at (Fips.words h) 0) with (Fips.ra h). change (word_at (Fips.words h) 1) with (Fips.rb h).
  change (word_at (Fips.words h) 2) with (Fips.rc h). change (word_at (Fips.words h) 3) with (Fips.rd h).
  change (word_at (Fips.words h) 4) with (Fips.re h).
  cbv zeta. do 80 next_round HM.
  match goal with H : in_step _ _ 80 _ _ _ _ _ _ |- _ => destruct H as [_ ->] end. done.
Qed.

(** *** Messages *)

Definition block_sized (b : list byte) : Prop := length b = 64%nat.

Definition hash (bl : list (list byte)) : Fips.state := fold_left Fips.compress bl Fips.initial.

(** What the builder has taken so far: whole blocks in the digest, the rest in
    the buffer. *)
Record absorbed (bl : list (list byte)) (tail : list byte) (b : builder_t) : Prop := {
  ab_blocks : Forall block_sized bl;
  ab_tail : (length tail < 64)%nat;
  ab_digest : m_digest b = Fips.words (hash bl);
  ab_count : m_transforms_count b = wrap 64 (Z.of_nat (length bl));
  ab_len : m_buffer_len b = length tail;
  ab_size : block_sized (m_buffer b);
  ab_buffer : take (length tail) (m_buffer b) = tail }.

Lemma absorbed_reset : absorbed [] [] reset.
Proof. by split; try constructor; simpl; lia. Qed.

Lemma copy_at_split tail p buf :
  take (length tail) buf = tail ->
  copy_at (length tail) p buf = (tail ++ p) ++ drop (length tail + length p) buf.
Proof. intros H. unfold copy_at. by rewrite H, app_assoc. Qed.

Lemma hash_snoc bl x : hash (bl ++ [x]) = Fips.compress (hash bl) x.
Proof. unfold hash. by rewrite fold_left_app. Qed.

Lemma absorbed_full bl tail b p :
  absorbed bl tail b -> (length tail + length p)%nat = 64%nat ->
  let buffer := copy_at (m_buffer_len b) p (m_buffer b) in
  absorbed (bl ++ [tail ++ p]) []
    (mk_builder (transform (m_digest b) buffer) 0 (wrap 64 (m_transforms_count b + 1)) buffer).
Proof.
  intros [Hb Ht Hd Hc Hl Hs Hp] Hlen. rewrite Hl, copy_at_split by done.
  rewrite drop_ge, app_nil_r by (unfold block_sized in *; lia). split; simpl.
  - apply Forall_app. split; [done|]. constructor; [|done]. unfold block_sized. by rewrite length_app.
  - lia.
  - by rewrite Hd, transform_compress, hash_snoc.
  - rewrite Hc, length_app. unfold wrap. rewrite Z.add_mod_idemp_l by done. f_equal. simpl. lia.
  - done.
  - unfold block_sized. by rewrite length_app.
  - done.
Qed.

Lemma absorbed_part bl tail b p :
  absorbed bl tail b -> (length tail + length p < 64)%nat ->
  absorbed bl (tail ++ p)
    (mk_builder (m_digest b) (m_buffer_len b + length p) (m_transforms_count b)
                (copy_at (m_buffer_len b) p (m_buffer b))).
Proof.
  intros [Hb Ht Hd Hc Hl Hs Hp] Hlen. rewrite Hl, copy_at_split by done. split; simpl; try done.
  - rewrite length_app. lia.
  - by rewrite length_app.
  - unfold block_sized in *. rewrite !length_app, length_drop. lia.
  - by rewrite take_app_length.
Qed.

(** [update] takes all of its input, in blocks, and ends. *)
Lemma update_loop_absorbs fuel what bl tail b :
  absorbed bl tail b -> (length what < fuel)%nat ->
  exists b' bl' tail', update_loop fuel what b = Some b' /\ absorbed bl' tail' b' /\
    concat bl' ++ tail' = concat bl ++ tail ++ what.
Proof.
  revert what bl tail b. induction fuel as [|fuel IH]; intros what bl tail b Ha Hf; [lia|].
  pose proof (ab_tail _ _ _ Ha) as Ht. pose proof (ab_len _ _ _ Ha) as Hl. cbn [update_loop].
  set (n := Nat.min (length what) (block_size - m_buffer_len b)).
  assert (Hn : length (take n what) = n) by (rewrite length_take; lia).
  destruct (Nat.eqb_spec (m_buffer_len b + n) block_size) as [He|He].
  - destruct (IH (drop n what) (bl ++ [tail ++ take n what]) [] _
      (absorbed_full bl tail b (take n what) Ha ltac:(unfold block_size in *; lia))) as (b' & bl' & tail' & Hu & Ha' & Hc).
    { rewrite length_drop. unfold block_size in *. lia. }
    exists b', bl', tail'. split_and!; [done|done|]. rewrite Hc, concat_app. simpl.
    by rewrite app_nil_r, <- !app_assoc, take_drop.
  - assert (Hall : take n what = what) by (apply take_ge; unfold block_size in *; lia).
    rewrite Hall. rewrite Hall in Hn. rewrite <- Hn. eexists _, bl, (tail ++ what).
    split_and!; [reflexivity| |done]. apply absorbed_part; [done|]. unfold block_size in *. lia.
Qed.

Lemma blocks_concat bl : Forall block_sized bl -> Fips.blocks (concat bl) = bl.
Proof.
  unfold Fips.blocks. induction 1 as [|x bl Hx _ IH]; [done|]. cbn [concat]. rewrite length_app, Hx.
  replace ((64 + length (concat bl)) / 64)%nat with (S (length (concat bl) / 64)) by
    (rewrite <- (Nat.div_add_l 1 64) by lia; f_equal; lia).
  cbn [replicate reshape]. rewrite take_app_length', drop_app_length' by done. by rewrite IH.
Qed.

Lemma uint_octets_be v : uint_octets v = Fips.big_endian 4 v.
Proof.
  unfold uint_octets. cbn [Fips.big_endian app]. rewrite !Z.div_div by lia.
  repeat f_equal; apply u8_inj; unfold octet_from, wrap; rewrite Bitops.u8_byte_from, u8_b8 by lia;
    simpl Z.pow; simpl Z.mul; Z.to_euclidean_division_equations; lia.
Qed.

Lemma big_endian_app m n z :
  Fips.big_endian (m + n) z = Fips.big_endian m (z / 256 ^ Z.of_nat n) ++ Fips.big_endian n z.
Proof.
  revert z. induction n as [|n IH]; intros z.
  - change (256 ^ Z.of_nat 0) with 1. by rewrite Nat.add_0_r, Z.div_1_r, app_nil_r.
  - rewrite Nat.add_succ_r. cbn [Fips.big_endian]. rewrite IH, app_assoc, Z.div_div by lia.
    do 3 f_equal. rewrite Nat2Z.inj_succ, Z.pow_succ_r by lia. done.
Qed.

Lemma big_endian_mod n z k : 0 <= k -> 8 * Z.of_nat n <= k -> Fips.big_endian n (z mod 2 ^ k) = Fips.big_endian n z.
Proof.
  revert z k. induction n as [|n IH]; intros z k Hk Hn; [done|]. cbn [Fips.big_endian].
  assert (Hp : 2 ^ k = 256 * 2 ^ (k - 8)) by (change 256 with (2 ^ 8); rewrite <- Z.pow_add_r by lia; f_equal; lia).
  f_equal.
  - rewrite Hp, Z.rem_mul_r by lia. rewrite Z.add_comm, Z.mul_comm, Z.div_add_l by lia.
    rewrite (Z.div_small (z mod 256)), Z.add_0_r by (apply Z.mod_pos_bound; lia). apply IH; lia.
  - f_equal. apply u8_inj. rewrite !u8_b8. apply Z.mod_mod_divide. exists (2 ^ (k - 8)). lia.
Qed.

(** The two halves of the bit count are its eight octets. *)
Lemma total_bits_octets z :
  0 <= z -> uint_octets (Z.shiftr z 32) ++ uint_octets (Z.land z 0xffffffff) = Fips.big_endian 8 z.
Proof.
  intros Hz. rewrite !uint_octets_be. change 0xffffffff with (Z.ones 32). rewrite Z.land_ones by lia.
  rewrite big_endian_mod by lia. rewrite Z.shiftr_div_pow2 by lia. symmetry. apply (big_endian_app 4 4).
Qed.
Lemma length_big_endian n z : length (Fips.big_endian n z) = n.
Proof. revert z. induction n as [|n IH]; intros z; simpl; [done|]. rewrite length_app, IH. simpl. lia. Qed.

Lemma copy_at_total x total :
  block_sized x -> 0 <= total ->
  copy_at (block_size - 4) (uint_octets (Z.land total 0xffffffff))
    (copy_at (block_size - 8) (uint_octets (Z.shiftr total 32)) x) = take 56 x ++ Fips.big_endian 8 total.
Proof.
  intros Hx Ht. rewrite <- total_bits_octets by done. unfold copy_at, block_size, block_sized in *.
  set (o1 := uint_octets (Z.shiftr total 32)). set (o2 := uint_octets (Z.land total 0xffffffff)).
  assert (length o1 = 4%nat /\ length o2 = 4%nat) as [H1 H2] by done.
  assert (Hl : length (take 56 x) = 56%nat) by (rewrite length_take; lia).
  change (64 - 8)%nat with 56%nat. rewrite (app_assoc (take 56 x)), H1.
  rewrite (take_app_length' (take 56 x ++ o1)) by (rewrite length_app; lia).
  rewrite (drop_ge _ (64 - 4 + length o2)); [by rewrite app_nil_r, app_assoc|].
  rewrite !length_app, length_drop. lia.
Qed.

(** The last one or two blocks, as the code fills them. *)
Definition closing_blocks (tail : list byte) (total : Z) : list (list byte) :=
  let marked := tail ++ [x80] ++ replicate (63 - length tail) x00 in
  if (56 <? length tail)%nat then [marked; replicate 56 x00 ++ Fips.big_endian 8 total]
  else [take 56 marked ++ Fips.big_endian 8 total].

Lemma marked_sized tail : (length tail < 64)%nat -> block_sized (tail ++ [x80] ++ replicate (63 - length tail) x00).
Proof. intros H. unfold block_sized. rewrite !length_app, length_replicate. simpl. lia. Qed.

Lemma finish_closes bl tail b :
  absorbed bl tail b ->
  exists b', finish b =
    Some (b', Fips.words (hash (bl ++ closing_blocks tail (calculate_total_bits_count b)))).
Proof.
  intros [Hb Ht Hd Hc Hl Hs Hp]. unfold finish. rewrite Hl. unfold block_size at 1.
  rewrite (proj2 (Nat.ltb_lt _ _) Ht), copy_at_split by done.
  assert (Hz : copy_at (S (length tail)) (replicate (block_size - S (length tail)) x00)
                 ((tail ++ [x80]) ++ drop (length tail + length [x80]) (m_buffer b))
               = tail ++ [x80] ++ replicate (63 - length tail) x00).
  { replace (S (length tail)) with (length (tail ++ [x80])) by (rewrite length_app; simpl; lia).
    rewrite copy_at_split by apply take_app_length. rewrite drop_ge, app_nil_r, <- app_assoc.
    - rewrite length_app. simpl. unfold block_size. do 3 f_equal. lia.
    - unfold block_sized, block_size in *. rewrite !length_app, length_replicate, length_drop. simpl. lia. }
  rewrite Hz. pose proof (marked_sized tail Ht) as Hm.
  assert (H0 : 0 <= calculate_total_bits_count b) by (apply Z.mod_pos_bound; lia).
  unfold closing_blocks. change (block_size - 8)%nat with 56%nat at 1. destruct (56 <? length tail)%nat.
  - rewrite copy_at_total by done. eexists. do 2 f_equal.
    rewrite Hd, !transform_compress. unfold hash. by rewrite fold_left_app.
  - rewrite copy_at_total by done. eexists. do 2 f_equal. by rewrite Hd, transform_compress, hash_snoc.
Qed.

Lemma length_blocks bl : Forall block_sized bl -> length (concat bl) = (64 * length bl)%nat.
Proof.
  induction 1 as [|x bl Hx _ IH]; [done|]. cbn [concat length]. rewrite length_app, Hx, IH. lia.
Qed.

Lemma tail_mod bl tail :
  Forall block_sized bl -> (length tail < 64)%nat -> (length (concat bl ++ tail) mod 64)%nat = length tail.
Proof.
  intros Hb Ht. rewrite length_app, (length_blocks bl Hb), Nat.add_comm, Nat.mul_comm, Nat.Div0.mod_add.
  by apply Nat.mod_small.
Qed.

Lemma total_bits bl tail b :
  absorbed bl tail b -> 8 * Z.of_nat (length (concat bl ++ tail)) < 2 ^ 64 ->
  calculate_total_bits_count b = 8 * Z.of_nat (length (concat bl ++ tail)).
Proof.
  intros [Hb Ht _ Hc Hl _ _]. unfold calculate_total_bits_count. rewrite Hc, Hl.
  rewrite length_app, (length_blocks bl Hb). intros Hlen. unfold wrap.
  rewrite (Z.mod_small (Z.of_nat (length bl))) by lia. rewrite (Z.mod_small (_ * 64)) by lia.
  rewrite (Z.mod_small (_ + _)) by lia. rewrite Z.mod_small; lia.
Qed.

(** The message followed by its length without the mark: what the code hashes
    when the rest of the message fills the last block up to the length. *)
Definition unmarked (m : list byte) : list byte := m ++ Fips.big_endian 8 (8 * Z.of_nat (length m)).

Lemma closing_pad bl tail :
  Forall block_sized bl -> (length tail < 64)%nat ->
  let m := concat bl ++ tail in
  bl ++ closing_blocks tail (8 * Z.of_nat (length m)) =
  Fips.blocks (if (length tail =? 56)%nat then unmarked m else Fips.pad m).
Proof.
  intros Hb Ht m. set (total := 8 * Z.of_nat (length m)).
  assert (Hm : Z.of_nat (length m) mod 64 = Z.of_nat (length tail)).
  { rewrite <- (tail_mod bl tail Hb Ht). fold m. by rewrite Nat2Z.inj_mod. }
  assert (Hz : (55 - Z.of_nat (length m)) mod 64 = (55 - Z.of_nat (length tail)) mod 64)
    by (by rewrite <- Hm, Zminus_mod_idemp_r).
  assert (Hall : Forall block_sized (bl ++ closing_blocks tail total)).
  { apply Forall_app. split; [done|]. pose proof (marked_sized tail Ht). unfold closing_blocks.
    destruct (56 <? length tail)%nat; repeat constructor; try done;
      unfold block_sized in *; rewrite length_app, length_big_endian, ?length_take, ?length_replicate; lia. }
  rewrite <- (blocks_concat _ Hall), concat_app. f_equal. unfold closing_blocks, unmarked, Fips.pad.
  fold total. destruct (Nat.eqb_spec (length tail) 56) as [E|E].
  - rewrite E. change (56 <? 56)%nat with false. cbn [concat]. rewrite take_app_length', app_nil_r by done.
    unfold m. by rewrite <- app_assoc.
  - rewrite Hz. destruct (Nat.ltb_spec 56 (length tail)).
    + rewrite <- (Z.mod_add _ 1) by done. rewrite Z.mod_small by lia.
      replace (Z.to_nat _) with (63 - length tail + 56)%nat by lia. rewrite replicate_add.
      cbn [concat]. unfold m. rewrite app_nil_r. by rewrite <- !app_assoc.
    + rewrite Z.mod_small by lia. replace (63 - length tail)%nat with (55 - length tail + 8)%nat by lia.
      rewrite replicate_add, !app_assoc, take_app_length' by (rewrite !length_app, length_replicate; simpl; lia).
      cbn [concat]. rewrite app_nil_r. unfold m. replace (Z.to_nat _) with (55 - length tail)%nat by lia.
      by rewrite <- !app_assoc.
Qed.

(** What the code computes for a message. *)
Definition expected (m : list byte) : list Z :=
  if (length m mod 64 =? 56)%nat then Fips.words (hash (Fips.blocks (unmarked m))) else Fips.sha1 m.

Lemma finish_expected bl tail b :
  absorbed bl tail b -> 8 * Z.of_nat (length (concat bl ++ tail)) < 2 ^ 64 ->
  exists b', finish b = Some (b', expected (concat bl ++ tail)).
Proof.
  intros Ha Hlen. destruct (finish_closes bl tail b Ha) as (b' & ->). exists b'. do 2 f_equal.
  rewrite (total_bits bl tail b Ha Hlen), closing_pad by apply Ha. unfold expected.
  rewrite tail_mod by apply Ha. by destruct (length tail =? 56)%nat.
Qed.

Lemma make_digest_expected m : 8 * Z.of_nat (length m) < 2 ^ 64 -> make_digest m = Some (expected m).
Proof.
  intros Hlen. unfold make_digest, update.
  destruct (update_loop_absorbs (S (S (length m))) m [] [] reset absorbed_reset ltac:(lia))
    as (b & bl & tail & -> & Ha & Hc). simpl in Hc. subst m. cbn [mbind option_bind].
  by destruct (finish_expected bl tail b Ha Hlen) as (b' & ->).
Qed.

(** C28. The digest of every message whose length in bits fits 64 bits: SHA-1 as
    the standard defines it, except when 56 octets remain after the whole blocks:
    then the mark octet 0x80 is overwritten by the length before it is hashed. *)
Theorem make_digest_is_sha1 (m : list byte) :
  8 * Z.of_nat (length m) < 2 ^ 64 ->
  make_digest m =
    Some (if (length m mod 64 =? 56)%nat then Fips.words (hash (Fips.blocks (unmarked m))) else Fips.sha1 m).
Proof. apply make_digest_expected. Qed.

Lemma make_digest_is_sha1_witness :
  make_digest (bs "abc") = Some (Fips.sha1 (bs "abc")).
Proof. apply (make_digest_is_sha1 (bs "abc")). vm_compute. reflexivity. Defined.

(** Feeding a message in pieces gives the digest of the whole. *)
Fixpoint update_all (pieces : list (list byte)) (b : builder_t) : option builder_t :=
  match pieces with [] => Some b | p :: pieces => b ← update p b; update_all pieces b end.

Lemma update_all_absorbs pieces bl tail b :
  absorbed bl tail b ->
  exists b' bl' tail', update_all pieces b = Some b' /\ absorbed bl' tail' b' /\
    concat bl' ++ tail' = (concat bl ++ tail) ++ concat pieces.
Proof.
  revert bl tail b. induction pieces as [|p pieces IH]; intros bl tail b Ha; simpl.
  - exists b, bl, tail. by rewrite app_nil_r.
  - unfold update.
    destruct (update_loop_absorbs (S (S (length p))) p bl tail b Ha ltac:(lia))
      as (b1 & bl1 & tail1 & -> & Ha1 & Hc1).
    destruct (IH _ _ _ Ha1) as (b2 & bl2 & tail2 & Hu & Ha2 & Hc2).
    exists b2, bl2, tail2. split_and!; [done|done|]. by rewrite Hc2, Hc1, <- !app_assoc.
Qed.

Lemma finish_fills b b' d : finish b = Some (b', d) -> m_buffer_len b' = block_size.
Proof.
  unfold finish. destruct (m_buffer_len b <? block_size)%nat; [|done].
  match goal with |- context [if ?c then (?x, ?y) else (?z, ?w)] =>
    destruct (if c then (x, y) else (z, w)) as [digest buffer] end.
  generalize (copy_at (block_size - 4) (uint_octets (Z.land (calculate_total_bits_count b) 0xffffffff))
    (copy_at (block_size - 8) (uint_octets (Z.shiftr (calculate_total_bits_count b) 32)) buffer)).
  intros l. generalize (transform digest l). intros t H. by inversion H.
Qed.

Theorem digest_of_pieces (pieces : list (list byte)) :
  8 * Z.of_nat (length (concat pieces)) < 2 ^ 64 ->
  exists b b', update_all pieces reset = Some b /\ finish b = Some (b', expected (concat pieces)) /\
    finish b' = None.
Proof.
  intros Hlen. destruct (update_all_absorbs pieces [] [] reset absorbed_reset)
    as (b & bl & tail & Hu & Ha & Hc). simpl in Hc. rewrite <- Hc in *.
  destruct (finish_expected bl tail b Ha Hlen) as (b' & Hf). exists b, b'. split_and!; [done|done|].
  unfold finish. by rewrite (finish_fills b b' _ Hf).
Qed.

(** The third example of the standard's test vectors has 56 octets. *)
Definition two_block_example : list byte := bs "abcdbcdecdefdefgefghfghighijhijkijkljklmklmnlmnomnopnopq".

Theorem digest_of_56_octets_wrong :
  Sha1.to_hex_string (Fips.sha1 two_block_example) = bs "84983e441c3bd26ebaae4aa1f95129e5e54670f1" /\
  make_digest two_block_example <> Some (Fips.sha1 two_block_example).
Proof. split; [vm_compute; reflexivity|]. intros H. vm_compute in H. discriminate. Qed.

Lemma length_to_string d : length (to_string d) = (4 * length d)%nat.
Proof. induction d as [|c d IH]; [done|]. cbn [to_string flat_map]. rewrite length_app. unfold to_string in IH. rewrite IH. simpl. lia. Qed.

End Sha1Theorems.
