(* ===== verification/OutputCtx.v ===== *)
(** * Writing a group

    Model of src/web/restinio/restinio/impl/write_group_output_ctx.hpp: the
    context in which a connection writes one write group, as a sequence of
    gathered writes and file transfers.  A callback that the context invokes is
    returned to the caller, which runs it. *)

From S2P Require Import Prelude Coordinator.

Module OutputCtx.
Import Buffers.

Record write_group_output_ctx_t := mk_octx {
  m_current_wg : option write_group_t;
  m_next_writable_item_index : nat
}.

Definition initial_ctx : write_group_output_ctx_t := mk_octx None 0.

Inductive solid_write_operation_variant_t :=
| none_write_operation
| trivial_write (bufs : list (list byte)) (total_size : Z)
| file_write (file size : Z).

Definition transmitting (c : write_group_output_ctx_t) : bool :=
  match m_current_wg c with Some _ => true | None => false end.

Definition start_next_write_group (next_wg : option write_group_t) (c : write_group_output_ctx_t)
  : write_group_output_ctx_t :=
  mk_octx next_wg (m_next_writable_item_index c).

(** The buffers of consecutive trivial items from the front of [items], at most
    [room] of them. *)
Fixpoint gather (room : nat) (items : list writable_item_t) : list (list byte) :=
  match room, items with
  | S room, trivial_write_operation d :: items => d :: gather room items
  | _, _ => []
  end.

Section Ctx.

(** [asio_ns::detail::max_iov_len] *)
Context (asio_max_iov_len : nat).

Definition max_iov_len : nat := Nat.min asio_max_iov_len 64.

Definition prepare_trivial_buffers_wo (g : write_group_t) (c : write_group_output_ctx_t)
  : write_group_output_ctx_t * solid_write_operation_variant_t :=
  let bufs := gather max_iov_len (drop (m_next_writable_item_index c) (m_items g)) in
  let total_size := fold_left (fun n d => wrap 64 (n + Z.of_nat (length d))) bufs 0 in
  (mk_octx (m_current_wg c) (m_next_writable_item_index c + length bufs), trivial_write bufs total_size).

(** [None] is an access to the empty [m_current_wg]. *)
Definition extract_next_write_operation (c : write_group_output_ctx_t)
  : option (write_group_output_ctx_t * solid_write_operation_variant_t) :=
  match m_current_wg c with
  | None => None
  | Some g =>
      Some match m_items g !! m_next_writable_item_index c with
           | None => (c, none_write_operation)
           | Some (trivial_write_operation _) => prepare_trivial_buffers_wo g c
           | Some (file_write_operation file size) =>
               (mk_octx (m_current_wg c) (S (m_next_writable_item_index c)), file_write file size)
           end
  end.

(** [reset_write_group], the end of [finish_write_group]. *)
Definition reset_write_group (c : write_group_output_ctx_t) : write_group_output_ctx_t := initial_ctx.

(** The end of [fail_write_group]: the index of the next item stays. *)
Definition drop_write_group (c : write_group_output_ctx_t) : write_group_output_ctx_t :=
  mk_octx None (m_next_writable_item_index c).

(** [m_current_wg->invoke_after_write_notificator_if_exists]: the callback to run. *)
Definition take_notificator (c : write_group_output_ctx_t)
  : option (write_group_output_ctx_t * option Z) :=
  match m_current_wg c with
  | None => None
  | Some g => let '(g, cb) := invoke_after_write_notificator_if_exists g in
              Some (mk_octx (Some g) (m_next_writable_item_index c), cb)
  end.

(** *** A group is written item by item *)

(** The items an operation writes. *)
Definition operation_items (o : solid_write_operation_variant_t) : list writable_item_t :=
  match o with
  | none_write_operation => []
  | trivial_write bufs _ => map trivial_write_operation bufs
  | file_write file size => [file_write_operation file size]
  end.

(** Extracting operations until there is none. *)
Fixpoint drain (fuel : nat) (c : write_group_output_ctx_t)
  : option (write_group_output_ctx_t * list solid_write_operation_variant_t) :=
  match fuel with
  | O => None
  | S fuel =>
      '(c, o) ← extract_next_write_operation c;
      match o with
      | none_write_operation => Some (c, [])
      | _ => '(c, os) ← drain fuel c; Some (c, o :: os)
      end
  end.

Lemma gather_prefix room items :
  map trivial_write_operation (gather room items) = take (length (gather room items)) items.
Proof.
  revert items. induction room as [|room IH]; intros items; [done|].
  destruct items as [|[d|file size] items]; [done| |done]. simpl. by rewrite IH.
Qed.

Lemma gather_length room items : (length (gather room items) <= room)%nat.
Proof.
  revert items. induction room as [|room IH]; intros items; simpl; [lia|].
  destruct items as [|[] items]; simpl; [lia| |lia]. specialize (IH items). lia.
Qed.

(** How a nonempty operation moves the index. *)
Lemma extract_advances g n :
  (0 < asio_max_iov_len)%nat -> (n < length (m_items g))%nat ->
  exists m o, extract_next_write_operation (mk_octx (Some g) n) = Some (mk_octx (Some g) m, o) /\
    o <> none_write_operation /\ (n < m)%nat /\
    operation_items o = take (m - n) (drop n (m_items g)) /\
    match o with trivial_write bufs _ => (length bufs <= 64)%nat | _ => True end.
Proof.
  intros Hiov Hn. destruct (lookup_lt_is_Some_2 _ _ Hn) as [i Hi]. unfold extract_next_write_operation. simpl.
  rewrite Hi. destruct i as [d|file size].
  - unfold prepare_trivial_buffers_wo. simpl.
    set (bufs := gather max_iov_len (drop n (m_items g))). do 2 eexists. split; [done|].
    assert (Hne : (0 < length bufs)%nat).
    { unfold bufs, max_iov_len. rewrite (drop_S _ _ _ Hi). destruct (Nat.min asio_max_iov_len 64) eqn:E; [lia|].
      simpl. lia. }
    split_and!; [done|lia| |].
    + replace (n + length bufs - n)%nat with (length bufs) by lia. apply gather_prefix.
    + pose proof (gather_length max_iov_len (drop n (m_items g))). unfold max_iov_len in *. fold bufs in H. lia.
  - do 2 eexists. split; [done|]. split_and!; [done|lia| |done].
    replace (S n - n)%nat with 1%nat by lia. by rewrite (drop_S _ _ _ Hi).
Qed.

Lemma drain_from g n fuel :
  (0 < asio_max_iov_len)%nat -> (length (m_items g) - n < fuel)%nat ->
  exists m os, drain fuel (mk_octx (Some g) n) = Some (mk_octx (Some g) m, os) /\
    flat_map operation_items os = drop n (m_items g) /\
    Forall (fun o => match o with trivial_write bufs _ => (length bufs <= 64)%nat | _ => True end) os.
Proof.
  intros Hiov. revert n. induction fuel as [|fuel IH]; intros n Hf; [lia|]. cbn [drain].
  destruct (decide (n < length (m_items g))%nat) as [Hn|Hn].
  - destruct (extract_advances g n Hiov Hn) as (m & o & -> & Ho & Hm & Hi & Hl). cbn [mbind option_bind].
    destruct (IH m ltac:(lia)) as (m' & os & Hd & Hos & Hall). rewrite Hd. cbn [mbind option_bind].
    exists m', (o :: os). split; [by destruct o|]. split; [|by constructor].
    cbn [flat_map]. rewrite Hi, Hos. rewrite <- (take_drop (m - n) (drop n (m_items g))) at 2.
    f_equal. rewrite drop_drop. f_equal. lia.
  - unfold extract_next_write_operation. simpl. rewrite lookup_ge_None_2 by lia. simpl.
    exists n, []. split; [done|]. split; [by rewrite drop_ge by lia|constructor].
Qed.

(** A group handed to a fresh context is written as operations that cover its
    items in order, none missing and none twice, in gathered writes of at most 64
    buffers, and the extraction ends. *)
Theorem group_written_in_order (g : write_group_t) (c : write_group_output_ctx_t) :
  (0 < asio_max_iov_len)%nat ->
  exists c' os,
    drain (S (length (m_items g))) (start_next_write_group (Some g) (reset_write_group c)) = Some (c', os) /\
    flat_map operation_items os = m_items g /\
    Forall (fun o => match o with trivial_write bufs _ => (length bufs <= 64)%nat | _ => True end) os.
Proof.
  intros Hiov. destruct (drain_from g 0 (S (length (m_items g))) Hiov ltac:(lia)) as (m & os & Hd & Hos & Hall).
  by exists (mk_octx (Some g) m), os.
Qed.

End Ctx.

Lemma group_written_in_order_witness :
  exists c' os,
    drain 2 4 (start_next_write_group
      (Some (write_group [trivial_write_operation [x01]; trivial_write_operation [];
                          file_write_operation 7 10])) initial_ctx) = Some (c', os)
    /\ length os = 2%nat.
Proof.
  destruct (group_written_in_order 2
    (write_group [trivial_write_operation [x01]; trivial_write_operation []; file_write_operation 7 10])
    initial_ctx) as (c' & os & H & _); [lia|].
  exists c', os. split; [exact H|]. vm_compute in H. by injection H as _ <-.
Defined.

End OutputCtx.
