(* ===== verification/Effects.v ===== *)
(** * Stateful code with exceptions

    The monad in which connections are modelled: a call on a state [S] returns,
    throws, ends the program, or leaves the behaviour the code defines.  Exceptions
    are of two kinds, as the handlers of the code are: [catch( const std::exception & )]
    is [catch] and lets every other exception pass, [catch( ... )] is [catch_all].
    [noexcept] is the boundary of a noexcept function, at which an exception that is
    still on its way calls std::terminate.  [Undef] is an access to an empty optional,
    a second overlapping read or write, or the like; [Deep] stands for the bounds on
    loops and on the nesting of calls.  [wp] is the weakest precondition, with one
    post-condition for returning and one for throwing. *)

From S2P Require Import Prelude.

Module Effects.

Inductive exn :=
| std_exception                                   (* derived from std::exception *)
| other_exception.

Inductive res (S A : Type) : Type :=
| Ret (a : A) (c : S)
| Raise (c : S)                                   (* a std::exception is on its way *)
| RaiseOther (c : S)                              (* another exception is *)
| Terminate                                       (* std::terminate *)
| Undef
| Deep.
Arguments Ret {S A} a c.
Arguments Raise {S A} c.
Arguments RaiseOther {S A} c.
Arguments Terminate {S A}.
Arguments Undef {S A}.
Arguments Deep {S A}.

(** What a post-condition allows besides: to meet a bound, and to throw something
    other than a std::exception or to end the program for it. *)
Record tolerance := mk_tolerance { may_exceed : Prop; may_throw_other : Prop }.

Section Monad.
Context {S : Type}.

Definition M (A : Type) : Type := S -> res S A.

Definition ret {A} (a : A) : M A := fun c => Ret a c.
Definition bind {A B} (m : M A) (k : A -> M B) : M B := fun c =>
  match m c with
  | Ret a c => k a c
  | Raise c => Raise c
  | RaiseOther c => RaiseOther c
  | Terminate => Terminate
  | Undef => Undef
  | Deep => Deep
  end.
Definition raise {A} : M A := fun c => Raise c.
Definition throw {A} (e : exn) : M A := fun c =>
  match e with std_exception => Raise c | other_exception => RaiseOther c end.
Definition throw_if (e : option exn) : M unit := match e with Some e => throw e | None => ret tt end.
Definition undef {A} : M A := fun _ => Undef.
Definition deep {A} : M A := fun _ => Deep.
Definition gets {A} (f : S -> A) : M A := fun c => Ret (f c) c.
Definition upd (f : S -> S) : M unit := fun c => Ret tt (f c).
Definition catch (m h : M unit) : M unit := fun c =>
  match m c with Raise c => h c | r => r end.
Definition catch_all (m h : M unit) : M unit := fun c =>
  match m c with Raise c | RaiseOther c => h c | r => r end.
Definition noexcept (m : M unit) : M unit := fun c =>
  match m c with Raise _ | RaiseOther _ => Terminate | r => r end.
Definition lift {A} (o : outcome A) : M A := match o with Ok a => ret a | Throw _ => raise end.

Definition wp (T : tolerance) {A} (m : M A) (Q : A -> S -> Prop) (E : S -> Prop) (c : S) : Prop :=
  match m c with
  | Ret a c => Q a c
  | Raise c => E c
  | RaiseOther c => may_throw_other T /\ E c
  | Terminate => may_throw_other T
  | Undef => False
  | Deep => may_exceed T
  end.

(** No std::exception leaves the call; no exception at all does. *)
Class Quiet {A} (m : M A) : Prop := no_std_exception c : match m c with Raise _ => False | _ => True end.
Class Sealed {A} (m : M A) : Prop :=
  no_exception c : match m c with Raise _ | RaiseOther _ => False | _ => True end.

Lemma wp_mono T {A} (m : M A) (Q Q' : A -> S -> Prop) (E E' : S -> Prop) c :
  wp T m Q E c -> (forall a c, Q a c -> Q' a c) -> (forall c, E c -> E' c) -> wp T m Q' E' c.
Proof. unfold wp. destruct (m c); naive_solver. Qed.

Lemma wp_bind T {A B} (m : M A) (k : A -> M B) Q E c :
  wp T m (fun a => wp T (k a) Q E) E c -> wp T (bind m k) Q E c.
Proof. unfold wp, bind. by destruct (m c). Qed.

(** What is not caught leaves as it is. *)
Lemma wp_catch T (m h : M unit) Q E c :
  wp T m Q (fun c => wp T h Q E c /\ E c) c -> wp T (catch m h) Q E c.
Proof. unfold wp, catch. destruct (m c); naive_solver. Qed.

Lemma wp_catch_all T (m h : M unit) Q E c : wp T m Q (wp T h Q E) c -> wp T (catch_all m h) Q E c.
Proof. unfold wp, catch_all. destruct (m c); naive_solver. Qed.

Lemma wp_noexcept T (m : M unit) `{!Quiet m} Q E E' c : wp T m Q E' c -> wp T (noexcept m) Q E c.
Proof. pose proof (no_std_exception (m := m) c) as H. unfold wp, noexcept. destruct (m c); naive_solver. Qed.

(** A noexcept function that handles the std::exceptions. *)
Lemma wp_noexcept_catch T (m h : M unit) `{!Quiet h} Q E E' c :
  wp T m Q (wp T h Q E') c -> wp T (noexcept (catch m h)) Q E c.
Proof.
  intros Hm. unfold wp, noexcept, catch in *. destruct (m c) as [| c'|c'| | |]; try naive_solver.
  pose proof (no_std_exception (m := h) c') as Hq. destruct (h c'); naive_solver.
Qed.

Lemma wp_conj T {A} (m : M A) (Q Q' : A -> S -> Prop) (E E' : S -> Prop) c :
  wp T m Q E c -> wp T m Q' E' c -> wp T m (fun a c => Q a c /\ Q' a c) (fun c => E c /\ E' c) c.
Proof. unfold wp. destruct (m c); naive_solver. Qed.

#[global] Instance sealed_quiet {A} (m : M A) : Sealed m -> Quiet m | 10.
Proof. intros Hm c. specialize (Hm c). by destruct (m c). Qed.
#[global] Instance sealed_ret {A} (a : A) : Sealed (ret a).
Proof. by intros c. Qed.
#[global] Instance sealed_gets {A} (f : S -> A) : Sealed (gets f).
Proof. by intros c. Qed.
#[global] Instance sealed_upd f : Sealed (upd f).
Proof. by intros c. Qed.
#[global] Instance sealed_deep {A} : Sealed (@deep A).
Proof. by intros c. Qed.
#[global] Instance sealed_undef {A} : Sealed (@undef A).
Proof. by intros c. Qed.
#[global] Instance sealed_noexcept m : Sealed (noexcept m).
Proof. intros c. unfold noexcept. by destruct (m c). Qed.
#[global] Instance sealed_catch_all m h : Sealed h -> Sealed (catch_all m h).
Proof. intros Hh c. unfold catch_all. destruct (m c); try done; apply Hh. Qed.
#[global] Instance sealed_if {A} (b : bool) (m n : M A) : Sealed m -> Sealed n -> Sealed (if b then m else n).
Proof. by destruct b. Qed.
#[global] Instance sealed_bind {A B} (m : M A) (k : A -> M B) :
  Sealed m -> (forall a, Sealed (k a)) -> Sealed (bind m k).
Proof. intros Hm Hk c. specialize (Hm c). unfold bind. destruct (m c); try done. apply Hk. Qed.
#[global] Instance quiet_catch m h : Quiet h -> Quiet (catch m h).
Proof. intros Hh c. unfold catch. destruct (m c); try done; apply Hh. Qed.
#[global] Instance quiet_if {A} (b : bool) (m n : M A) : Quiet m -> Quiet n -> Quiet (if b then m else n) | 5.
Proof. by destruct b. Qed.
#[global] Instance quiet_bind {A B} (m : M A) (k : A -> M B) :
  Quiet m -> (forall a, Quiet (k a)) -> Quiet (bind m k) | 5.
Proof. intros Hm Hk c. specialize (Hm c). unfold bind. destruct (m c); try done. apply Hk. Qed.

End Monad.

Arguments M S A : clear implicits.

Declare Scope effects_scope.
Notation "'do' x <- m ; k" := (bind m (fun x => k))
  (at level 100, x pattern, m at level 99, k at level 200) : effects_scope.
Notation "m ;; k" := (bind m (fun _ => k)) (at level 100, k at level 200, right associativity) : effects_scope.

End Effects.
