(* ===== verification/WsConnection.v ===== *)
(** * WebSocket connections

    Model of src/web/restinio/restinio/websocket/impl/ws_connection.hpp and of
    [ws_t] (websocket/websocket.hpp): the strand-serialised state machine that
    reads frames, calls the user's handlers, writes groups one at a time and
    performs the closing handshake.

    A step of the machine is one handler of the strand: a completion of a read or
    of a write, a timer check, or a call of the user on the [ws_t].  User code
    runs inside a step and may call back ([asio_ns::dispatch] runs such a call at
    once); what it calls is a parameter, [UserCode], of the number of calls made
    so far, so that any stateful handler is covered.  It may throw a std::exception,
    which most handlers of the strand catch, or anything else, which ends the program at
    their noexcept boundary. *)

From S2P Require Import Prelude Bitops Utf8Checker WsParser WsValidator Coordinator OutputCtx Effects.

Module WsConnection.
Import Message Buffers OutputCtx.
Import WsParser(message_details_t, message_details, write_message_details, payload_len, parser_execute,
  header_parsed, current_message, initial_parser, ws_parser_t).
Import WsValidator(ws_protocol_validator_t, validation_state_t, frame_header_is_valid, payload_part_is_valid,
  frame_is_valid, invalid_close_code, incorrect_utf8_data, process_new_frame,
  process_and_unmask_next_payload_part, finish_frame, new_validator).

(** ** State *)

Inductive write_state_t := write_enabled | write_disabled.
Inductive read_state_t := read_any_frame | read_only_close_frame | read_nothing.

#[global] Instance write_state_t_eq_dec : EqDecision write_state_t.
Proof. solve_decision. Defined.
#[global] Instance read_state_t_eq_dec : EqDecision read_state_t.
Proof. solve_decision. Defined.

(** [message_t] *)
Record message_t := mk_message {
  msg_final_flag : final_frame_flag_t;
  msg_opcode : opcode_t;
  msg_payload : list byte
}.

(** The [error_code] a callback is given. *)
Inductive write_status :=
| written
| write_failed
| write_was_not_executed
| write_group_destroyed_passively.

(** An outstanding [async_read_some]: of a header into [m_input.m_buf], or of a
    payload into [m_input.m_payload] at an offset. *)
Inductive read_t :=
| read_header
| read_payload (offset length_remaining : nat) (do_validate_payload_and_call_msg_handler : bool).

(** What the environment sees. *)
Inductive event :=
| queued (is_close_frame : bool) (g : write_group_t)  (* m_outgoing_data.append *)
| started (bufs : list (list byte))                  (* async_write *)
| to_user (m : message_t)                            (* m_msg_handler *)
| notified (cb : Z) (st : write_status)              (* an after-write callback *)
| closed.                                            (* m_socket.close *)

(** Calls on a [ws_t]. *)
Inductive ws_op :=
| op_send_message (final_flag : final_frame_flag_t) (opcode : opcode_t) (payload : writable_item_t)
    (wscb : option Z)
| op_shutdown
| op_kill.

Record conn := mk_conn {
  m_socket_open : bool;  (* m_socket.is_open() *)
  m_parser : WsParser.ws_parser_t;
  m_buf : list byte;  (* the unconsumed octets of m_input.m_buf *)
  m_payload : list byte;
  m_protocol_validator : WsValidator.ws_protocol_validator_t;
  m_write_output_ctx : write_group_output_ctx_t;
  m_outgoing_data : list write_group_t;
  m_write_state : write_state_t;
  m_read_state : read_state_t;
  m_close_frame_to_user : bool;  (* m_not_executed_yet of the one-shot actions *)
  m_close_frame_to_peer : bool;
  m_close_impl : bool;
  m_write_operation_timeout_after : Z;
  m_close_frame_from_peer_timeout_after : option Z;  (* None is time_point::max() *)
  timer : bool;  (* a check is scheduled *)
  clock : Z;  (* steady_clock::now() *)
  reading : option read_t;  (* the outstanding async_read_some *)
  writing : bool;  (* an async_write is outstanding *)
  activated : bool;  (* m_websocket_weak_handle is set *)
  ws_alive : bool;  (* the ws_t has not been destroyed *)
  m_ws_connection_handle : bool;  (* of ws_t: not moved away *)
  user_calls : nat;  (* how often user code was called *)
  trace : list event  (* what was observed, in order *)
}.

Definition set_socket_open (x : bool) (c : conn) : conn :=
  mk_conn x (m_parser c) (m_buf c) (m_payload c) (m_protocol_validator c) (m_write_output_ctx c)
    (m_outgoing_data c) (m_write_state c) (m_read_state c) (m_close_frame_to_user c)
    (m_close_frame_to_peer c) (m_close_impl c) (m_write_operation_timeout_after c)
    (m_close_frame_from_peer_timeout_after c) (timer c) (clock c) (reading c) (writing c)
    (activated c) (ws_alive c) (m_ws_connection_handle c) (user_calls c) (trace c).
Definition set_parser (x : WsParser.ws_parser_t) (c : conn) : conn :=
  mk_conn (m_socket_open c) x (m_buf c) (m_payload c) (m_protocol_validator c)
    (m_write_output_ctx c) (m_outgoing_data c) (m_write_state c) (m_read_state c)
    (m_close_frame_to_user c) (m_close_frame_to_peer c) (m_close_impl c)
    (m_write_operation_timeout_after c) (m_close_frame_from_peer_timeout_after c) (timer c)
    (clock c) (reading c) (writing c) (activated c) (ws_alive c) (m_ws_connection_handle c)
    (user_calls c) (trace c).
Definition set_buf (x : list byte) (c : conn) : conn :=
  mk_conn (m_socket_open c) (m_parser c) x (m_payload c) (m_protocol_validator c)
    (m_write_output_ctx c) (m_outgoing_data c) (m_write_state c) (m_read_state c)
    (m_close_frame_to_user c) (m_close_frame_to_peer c) (m_close_impl c)
    (m_write_operation_timeout_after c) (m_close_frame_from_peer_timeout_after c) (timer c)
    (clock c) (reading c) (writing c) (activated c) (ws_alive c) (m_ws_connection_handle c)
    (user_calls c) (trace c).
Definition set_payload (x : list byte) (c : conn) : conn :=
  mk_conn (m_socket_open c) (m_parser c) (m_buf c) x (m_protocol_validator c)
    (m_write_output_ctx c) (m_outgoing_data c) (m_write_state c) (m_read_state c)
    (m_close_frame_to_user c) (m_close_frame_to_peer c) (m_close_impl c)
    (m_write_operation_timeout_after c) (m_close_frame_from_peer_timeout_after c) (timer c)
    (clock c) (reading c) (writing c) (activated c) (ws_alive c) (m_ws_connection_handle c)
    (user_calls c) (trace c).
Definition set_protocol_validator (x : WsValidator.ws_protocol_validator_t) (c : conn) : conn :=
  mk_conn (m_socket_open c) (m_parser c) (m_buf c) (m_payload c) x (m_write_output_ctx c)
    (m_outgoing_data c) (m_write_state c) (m_read_state c) (m_close_frame_to_user c)
    (m_close_frame_to_peer c) (m_close_impl c) (m_write_operation_timeout_after c)
    (m_close_frame_from_peer_timeout_after c) (timer c) (clock c) (reading c) (writing c)
    (activated c) (ws_alive c) (m_ws_connection_handle c) (user_calls c) (trace c).
Definition set_write_output_ctx (x : write_group_output_ctx_t) (c : conn) : conn :=
  mk_conn (m_socket_open c) (m_parser c) (m_buf c) (m_payload c) (m_protocol_validator c) x
    (m_outgoing_data c) (m_write_state c) (m_read_state c) (m_close_frame_to_user c)
    (m_close_frame_to_peer c) (m_close_impl c) (m_write_operation_timeout_after c)
    (m_close_frame_from_peer_timeout_after c) (timer c) (clock c) (reading c) (writing c)
    (activated c) (ws_alive c) (m_ws_connection_handle c) (user_calls c) (trace c).
Definition set_outgoing_data (x : list write_group_t) (c : conn) : conn :=
  mk_conn (m_socket_open c) (m_parser c) (m_buf c) (m_payload c) (m_protocol_validator c)
    (m_write_output_ctx c) x (m_write_state c) (m_read_state c) (m_close_frame_to_user c)
    (m_close_frame_to_peer c) (m_close_impl c) (m_write_operation_timeout_after c)
    (m_close_frame_from_peer_timeout_after c) (timer c) (clock c) (reading c) (writing c)
    (activated c) (ws_alive c) (m_ws_connection_handle c) (user_calls c) (trace c).
Definition set_write_state (x : write_state_t) (c : conn) : conn :=
  mk_conn (m_socket_open c) (m_parser c) (m_buf c) (m_payload c) (m_protocol_validator c)
    (m_write_output_ctx c) (m_outgoing_data c) x (m_read_state c) (m_close_frame_to_user c)
    (m_close_frame_to_peer c) (m_close_impl c) (m_write_operation_timeout_after c)
    (m_close_frame_from_peer_timeout_after c) (timer c) (clock c) (reading c) (writing c)
    (activated c) (ws_alive c) (m_ws_connection_handle c) (user_calls c) (trace c).
Definition set_read_state (x : read_state_t) (c : conn) : conn :=
  mk_conn (m_socket_open c) (m_parser c) (m_buf c) (m_payload c) (m_protocol_validator c)
    (m_write_output_ctx c) (m_outgoing_data c) (m_write_state c) x (m_close_frame_to_user c)
    (m_close_frame_to_peer c) (m_close_impl c) (m_write_operation_timeout_after c)
    (m_close_frame_from_peer_timeout_after c) (timer c) (clock c) (reading c) (writing c)
    (activated c) (ws_alive c) (m_ws_connection_handle c) (user_calls c) (trace c).
Definition set_close_frame_to_user (x : bool) (c : conn) : conn :=
  mk_conn (m_socket_open c) (m_parser c) (m_buf c) (m_payload c) (m_protocol_validator c)
    (m_write_output_ctx c) (m_outgoing_data c) (m_write_state c) (m_read_state c) x
    (m_close_frame_to_peer c) (m_close_impl c) (m_write_operation_timeout_after c)
    (m_close_frame_from_peer_timeout_after c) (timer c) (clock c) (reading c) (writing c)
    (activated c) (ws_alive c) (m_ws_connection_handle c) (user_calls c) (trace c).
Definition set_close_frame_to_peer (x : bool) (c : conn) : conn :=
  mk_conn (m_socket_open c) (m_parser c) (m_buf c) (m_payload c) (m_protocol_validator c)
    (m_write_output_ctx c) (m_outgoing_data c) (m_write_state c) (m_read_state c)
    (m_close_frame_to_user c) x (m_close_impl c) (m_write_operation_timeout_after c)
    (m_close_frame_from_peer_timeout_after c) (timer c) (clock c) (reading c) (writing c)
    (activated c) (ws_alive c) (m_ws_connection_handle c) (user_calls c) (trace c).
Definition set_close_impl (x : bool) (c : conn) : conn :=
  mk_conn (m_socket_open c) (m_parser c) (m_buf c) (m_payload c) (m_protocol_validator c)
    (m_write_output_ctx c) (m_outgoing_data c) (m_write_state c) (m_read_state c)
    (m_close_frame_to_user c) (m_close_frame_to_peer c) x (m_write_operation_timeout_after c)
    (m_close_frame_from_peer_timeout_after c) (timer c) (clock c) (reading c) (writing c)
    (activated c) (ws_alive c) (m_ws_connection_handle c) (user_calls c) (trace c).
Definition set_write_operation_timeout_after (x : Z) (c : conn) : conn :=
  mk_conn (m_socket_open c) (m_parser c) (m_buf c) (m_payload c) (m_protocol_validator c)
    (m_write_output_ctx c) (m_outgoing_data c) (m_write_state c) (m_read_state c)
    (m_close_frame_to_user c) (m_close_frame_to_peer c) (m_close_impl c) x
    (m_close_frame_from_peer_timeout_after c) (timer c) (clock c) (reading c) (writing c)
    (activated c) (ws_alive c) (m_ws_connection_handle c) (user_calls c) (trace c).
Definition set_close_frame_from_peer_timeout_after (x : option Z) (c : conn) : conn :=
  mk_conn (m_socket_open c) (m_parser c) (m_buf c) (m_payload c) (m_protocol_validator c)
    (m_write_output_ctx c) (m_outgoing_data c) (m_write_state c) (m_read_state c)
    (m_close_frame_to_user c) (m_close_frame_to_peer c) (m_close_impl c)
    (m_write_operation_timeout_after c) x (timer c) (clock c) (reading c) (writing c) (activated
    c) (ws_alive c) (m_ws_connection_handle c) (user_calls c) (trace c).
Definition set_timer (x : bool) (c : conn) : conn :=
  mk_conn (m_socket_open c) (m_parser c) (m_buf c) (m_payload c) (m_protocol_validator c)
    (m_write_output_ctx c) (m_outgoing_data c) (m_write_state c) (m_read_state c)
    (m_close_frame_to_user c) (m_close_frame_to_peer c) (m_close_impl c)
    (m_write_operation_timeout_after c) (m_close_frame_from_peer_timeout_after c) x (clock c)
    (reading c) (writing c) (activated c) (ws_alive c) (m_ws_connection_handle c) (user_calls c)
    (trace c).
Definition set_clock (x : Z) (c : conn) : conn :=
  mk_conn (m_socket_open c) (m_parser c) (m_buf c) (m_payload c) (m_protocol_validator c)
    (m_write_output_ctx c) (m_outgoing_data c) (m_write_state c) (m_read_state c)
    (m_close_frame_to_user c) (m_close_frame_to_peer c) (m_close_impl c)
    (m_write_operation_timeout_after c) (m_close_frame_from_peer_timeout_after c) (timer c) x
    (reading c) (writing c) (activated c) (ws_alive c) (m_ws_connection_handle c) (user_calls c)
    (trace c).
Definition set_reading (x : option read_t) (c : conn) : conn :=
  mk_conn (m_socket_open c) (m_parser c) (m_buf c) (m_payload c) (m_protocol_validator c)
    (m_write_output_ctx c) (m_outgoing_data c) (m_write_state c) (m_read_state c)
    (m_close_frame_to_user c) (m_close_frame_to_peer c) (m_close_impl c)
    (m_write_operation_timeout_after c) (m_close_frame_from_peer_timeout_after c) (timer c)
    (clock c) x (writing c) (activated c) (ws_alive c) (m_ws_connection_handle c) (user_calls c)
    (trace c).
Definition set_writing (x : bool) (c : conn) : conn :=
  mk_conn (m_socket_open c) (m_parser c) (m_buf c) (m_payload c) (m_protocol_validator c)
    (m_write_output_ctx c) (m_outgoing_data c) (m_write_state c) (m_read_state c)
    (m_close_frame_to_user c) (m_close_frame_to_peer c) (m_close_impl c)
    (m_write_operation_timeout_after c) (m_close_frame_from_peer_timeout_after c) (timer c)
    (clock c) (reading c) x (activated c) (ws_alive c) (m_ws_connection_handle c) (user_calls c)
    (trace c).
Definition set_activated (x : bool) (c : conn) : conn :=
  mk_conn (m_socket_open c) (m_parser c) (m_buf c) (m_payload c) (m_protocol_validator c)
    (m_write_output_ctx c) (m_outgoing_data c) (m_write_state c) (m_read_state c)
    (m_close_frame_to_user c) (m_close_frame_to_peer c) (m_close_impl c)
    (m_write_operation_timeout_after c) (m_close_frame_from_peer_timeout_after c) (timer c)
    (clock c) (reading c) (writing c) x (ws_alive c) (m_ws_connection_handle c) (user_calls c)
    (trace c).
Definition set_ws_alive (x : bool) (c : conn) : conn :=
  mk_conn (m_socket_open c) (m_parser c) (m_buf c) (m_payload c) (m_protocol_validator c)
    (m_write_output_ctx c) (m_outgoing_data c) (m_write_state c) (m_read_state c)
    (m_close_frame_to_user c) (m_close_frame_to_peer c) (m_close_impl c)
    (m_write_operation_timeout_after c) (m_close_frame_from_peer_timeout_after c) (timer c)
    (clock c) (reading c) (writing c) (activated c) x (m_ws_connection_handle c) (user_calls c)
    (trace c).
Definition set_ws_connection_handle (x : bool) (c : conn) : conn :=
  mk_conn (m_socket_open c) (m_parser c) (m_buf c) (m_payload c) (m_protocol_validator c)
    (m_write_output_ctx c) (m_outgoing_data c) (m_write_state c) (m_read_state c)
    (m_close_frame_to_user c) (m_close_frame_to_peer c) (m_close_impl c)
    (m_write_operation_timeout_after c) (m_close_frame_from_peer_timeout_after c) (timer c)
    (clock c) (reading c) (writing c) (activated c) (ws_alive c) x (user_calls c) (trace c).
Definition set_user_calls (x : nat) (c : conn) : conn :=
  mk_conn (m_socket_open c) (m_parser c) (m_buf c) (m_payload c) (m_protocol_validator c)
    (m_write_output_ctx c) (m_outgoing_data c) (m_write_state c) (m_read_state c)
    (m_close_frame_to_user c) (m_close_frame_to_peer c) (m_close_impl c)
    (m_write_operation_timeout_after c) (m_close_frame_from_peer_timeout_after c) (timer c)
    (clock c) (reading c) (writing c) (activated c) (ws_alive c) (m_ws_connection_handle c) x
    (trace c).
Definition set_trace (x : list event) (c : conn) : conn :=
  mk_conn (m_socket_open c) (m_parser c) (m_buf c) (m_payload c) (m_protocol_validator c)
    (m_write_output_ctx c) (m_outgoing_data c) (m_write_state c) (m_read_state c)
    (m_close_frame_to_user c) (m_close_frame_to_peer c) (m_close_impl c)
    (m_write_operation_timeout_after c) (m_close_frame_from_peer_timeout_after c) (timer c)
    (clock c) (reading c) (writing c) (activated c) (ws_alive c) (m_ws_connection_handle c)
    (user_calls c) x.

(** ** Effects *)

Export Effects.
Open Scope effects_scope.

Abbreviation M := (Effects.M conn).
Abbreviation res := (Effects.res conn).

Definition log (e : event) : M unit := upd (fun c => set_trace (trace c ++ [e]) c).

(** [one_shot_action_t::run_if_first] *)
Definition run_if_first (flag : conn -> bool) (clear : conn -> conn) (action : M unit) : M unit :=
  do b <- gets flag;
  if b then upd clear;; action else ret tt.

(** ** The user and the settings *)

(** The calls the handler and the callbacks make, and what they throw. *)
Class UserCode := {
  on_message : nat -> message_t -> list ws_op * option exn;
  on_written : nat -> Z -> write_status -> list ws_op * option exn
}.

(** Some call of the user's code throws something other than a std::exception. *)
Definition throws_other {U : UserCode} : Prop :=
  (exists n m, (on_message n m).2 = Some other_exception) \/
  (exists n cb st, (on_written n cb st).2 = Some other_exception).

Record settings_t := mk_settings {
  m_write_http_response_timelimit : Z;
  m_read_next_http_message_timelimit : Z;
  asio_max_iov_len : nat;       (* of Asio *)
  string_max_size : Z           (* of std::string *)
}.

Section Connection.
Context {U : UserCode} (settings : settings_t).

(** How a list of calls on the [ws_t] is executed; given by [user_code] below. *)
Context (user : list ws_op -> M unit).

Definition run_user (code : nat -> list ws_op * option exn) : M unit :=
  do n <- gets user_calls;
  upd (set_user_calls (S n));;
  let '(ops, thrown) := code n in
  user ops;;
  throw_if thrown.

Definition call_notificator (cb : Z) (st : write_status) : M unit :=
  log (notified cb st);;
  run_user (fun n => on_written n cb st).

(** The destructor of a [write_group_t]. *)
Definition destroy_group (g : write_group_t) : M unit :=
  match m_after_write_notificator g with
  | Some cb => catch_all (call_notificator cb write_group_destroyed_passively) (ret tt)
  | None => ret tt
  end.

(** *** Closing *)

Definition close_impl : M unit :=
  run_if_first m_close_impl (set_close_impl false)
    (log closed;; upd (set_socket_open false)).

Definition call_message_handler (m : message_t) : M unit :=
  do alive <- gets (fun c => activated c && ws_alive c);
  if alive then catch (log (to_user m);; run_user (fun n => on_message n m)) (ret tt) else ret tt.

Definition call_close_handler_if_necessary (status : status_code_t) : M unit :=
  run_if_first m_close_frame_to_user (set_close_frame_to_user false)
    (call_message_handler (mk_message final_frame connection_close_frame (status_code_to_bin status))).

Definition trigger_error_and_close (status : status_code_t) : M unit :=
  noexcept
    (catch_all (call_close_handler_if_necessary status) (ret tt);;
     close_impl).

Definition guard_write_operation : M unit :=
  upd (fun c => set_write_operation_timeout_after (clock c + m_write_http_response_timelimit settings) c).

Definition guard_close_frame_from_peer_operation : M unit :=
  upd (fun c => set_close_frame_from_peer_timeout_after
                  (Some (clock c + m_read_next_http_message_timelimit settings)) c).

Definition start_waiting_close_frame_only : M unit :=
  upd (set_read_state read_only_close_frame);;
  guard_close_frame_from_peer_operation.

(** *** Writing *)

Definition invoke_after_write_notificator_if_necessary (st : write_status) : M unit :=
  catch
    (do ctx <- gets m_write_output_ctx;
     match take_notificator ctx with
     | None => undef
     | Some (ctx, cb) =>
         upd (set_write_output_ctx ctx);;
         match cb with Some cb => call_notificator cb st | None => ret tt end
     end)
    (upd (fun c => set_write_output_ctx (reset_write_group (m_write_output_ctx c)) c);; raise).

Definition fail_write_group (st : write_status) : M unit :=
  invoke_after_write_notificator_if_necessary st;;
  upd (fun c => set_write_output_ctx (drop_write_group (m_write_output_ctx c)) c).

Definition finish_write_group : M unit :=
  invoke_after_write_notificator_if_necessary written;;
  upd (fun c => set_write_output_ctx (reset_write_group (m_write_output_ctx c)) c).

(** [asio_ns::async_write] *)
Definition async_write (bufs : list (list byte)) : M unit :=
  do busy <- gets writing;
  if busy then undef else log (started bufs);; upd (set_writing true).

Definition handle_trivial_write_operation (bufs : list (list byte)) : M unit :=
  guard_write_operation;;
  async_write bufs.

(** [ws_outgoing_data_t::pop_ready_buffers] *)
Definition pop_ready_buffers : M (option write_group_t) :=
  do q <- gets m_outgoing_data;
  match q with
  | [] => ret None
  | g :: q => upd (set_outgoing_data q);; ret (Some g)
  end.

(** [init_write] and [init_write_if_necessary], over [handle_current_write_ctx]. *)
Definition init_write_with (handle : M unit) : M unit :=
  do next <- pop_ready_buffers;
  match next with
  | Some g =>
      upd (fun c => set_write_output_ctx (start_next_write_group (Some g) (m_write_output_ctx c)) c);;
      handle
  | None => ret tt
  end.

Definition init_write_if_necessary_with (handle : M unit) : M unit :=
  do busy <- gets (fun c => transmitting (m_write_output_ctx c));
  if busy then ret tt else init_write_with handle.

(** [handle_current_write_ctx] with [finish_handling_current_write_ctx] inside. *)
Fixpoint handle_current_write_ctx (rounds : nat) : M unit :=
  match rounds with
  | O => deep
  | S rounds =>
      catch
        (do ctx <- gets m_write_output_ctx;
         match extract_next_write_operation (asio_max_iov_len settings) ctx with
         | None => undef
         | Some (ctx, wo) =>
             upd (set_write_output_ctx ctx);;
             match wo with
             | trivial_write bufs _ => handle_trivial_write_operation bufs
             | none_write_operation =>
                 finish_write_group;;
                 init_write_if_necessary_with (handle_current_write_ctx rounds)
             | file_write _ _ => raise
             end
         end)
        (trigger_error_and_close 1011)
  end.

(** A group with items starts a write at once, so that two rounds are enough: one
    that ends the group before and one that starts the next. *)
Definition write_rounds : nat := 2.

Definition init_write_if_necessary : M unit :=
  init_write_if_necessary_with (handle_current_write_ctx write_rounds).

(** [m_outgoing_data.append] *)
Definition append (is_close_frame : bool) (g : write_group_t) : M unit :=
  log (queued is_close_frame g);;
  upd (fun c => set_outgoing_data (m_outgoing_data c ++ [g]) c).

Definition send_close_frame_to_peer (payload : list byte) : M unit :=
  let bufs :=
    [trivial_write_operation
       (write_message_details
          (message_details final_frame connection_close_frame (Z.of_nat (length payload))));
     trivial_write_operation payload] in
  append true (write_group bufs);;
  init_write_if_necessary;;
  upd (set_write_state write_disabled).

Definition to_peer_if_first (action : M unit) : M unit :=
  run_if_first m_close_frame_to_peer (set_close_frame_to_peer false) action.

Definition graceful_close : M unit :=
  to_peer_if_first
    (send_close_frame_to_peer (status_code_to_bin 1000);;
     start_waiting_close_frame_only).

Definition write_data_impl (wg : write_group_t) (is_close_frame : bool) : M unit :=
  do is_open <- gets m_socket_open;
  if is_open then
    (if is_close_frame then
       upd (set_close_frame_to_peer false);;
       upd (set_close_frame_to_user false);;
       upd (set_write_state write_disabled);;
       start_waiting_close_frame_only
     else ret tt);;
    append is_close_frame wg;;
    init_write_if_necessary
  else
    match m_after_write_notificator wg with
    | Some cb => catch_all (call_notificator cb write_was_not_executed) (ret tt)
    | None => ret tt
    end.

(** A group that is refused is destroyed with the lambda that holds it. *)
Definition write_data (wg : write_group_t) (is_close_frame : bool) : M unit :=
  do st <- gets m_write_state;
  match st with
  | write_enabled => noexcept (catch (write_data_impl wg is_close_frame) (trigger_error_and_close 1011))
  | write_disabled => destroy_group wg
  end.

Definition shutdown : M unit :=
  noexcept (catch (upd (set_close_frame_to_user false);; graceful_close) (ret tt)).

Definition kill : M unit :=
  noexcept (catch
    (upd (set_close_frame_to_user false);;
     upd (set_close_frame_to_peer false);;
     close_impl)
    (ret tt)).

Definition after_write (ok : bool) : M unit :=
  if ok then handle_current_write_ctx write_rounds
  else
    trigger_error_and_close 1006;;
    catch (fail_write_group write_failed) (ret tt).

(** *** Calls on the [ws_t] *)

Definition ws_shutdown : M unit :=
  do h <- gets m_ws_connection_handle;
  if h then upd (set_ws_connection_handle false);; shutdown else ret tt.

Definition ws_kill : M unit :=
  do h <- gets m_ws_connection_handle;
  if h then upd (set_ws_connection_handle false);; kill else ret tt.

(** The group of a frame: header and payload, and the callback if there is one. *)
Definition frame_group (final_flag : final_frame_flag_t) (opcode : opcode_t) (payload : list byte)
  (wscb : option Z) : write_group_t :=
  mk_group
    [trivial_write_operation
       (write_message_details (message_details final_flag opcode (Z.of_nat (length payload))));
     trivial_write_operation payload] 0 wscb.

Definition ws_send_message (final_flag : final_frame_flag_t) (opcode : opcode_t)
  (payload : writable_item_t) (wscb : option Z) : M unit :=
  do h <- gets m_ws_connection_handle;
  if h then
    match payload with
    | trivial_write_operation payload =>
        let wg := frame_group final_flag opcode payload wscb in
        let is_close_frame := opcode =? connection_close_frame in
        (if is_close_frame then upd (set_ws_connection_handle false) else ret tt);;
        write_data wg is_close_frame
    | file_write_operation _ _ => raise
    end
  else raise.

Definition ws_call (o : ws_op) : M unit :=
  match o with
  | op_send_message final_flag opcode payload wscb => ws_send_message final_flag opcode payload wscb
  | op_shutdown => ws_shutdown
  | op_kill => ws_kill
  end.

(** *** Reading *)

Definition async_read_some (r : read_t) : M unit :=
  do busy <- gets reading;
  match busy with Some _ => undef | None => upd (set_reading (Some r)) end.

Definition consume_header_from_socket : M unit := async_read_some read_header.

Definition start_read_payload (offset length_remaining : nat) (validate : bool) : M unit :=
  async_read_some (read_payload offset length_remaining validate).

Definition handle_invalid_payload (validation_result : validation_state_t) : M unit :=
  do rs <- gets m_read_state;
  if bool_decide (validation_result = invalid_close_code) then
    match rs with
    | read_any_frame =>
        to_peer_if_first (send_close_frame_to_peer (status_code_to_bin 1002));;
        call_close_handler_if_necessary 1002
    | read_only_close_frame => close_impl
    | read_nothing => ret tt
    end
  else
    match rs with
    | read_any_frame =>
        to_peer_if_first
          (send_close_frame_to_peer (status_code_to_bin 1007);;
           start_waiting_close_frame_only);;
        call_close_handler_if_necessary 1007
    | _ => ret tt
    end.

Section Read.

(** [start_read_header], called when a frame is complete. *)
Context (restart : M unit).

Definition final_flag_of (m : message_details_t) : final_frame_flag_t :=
  if WsParser.m_final_flag m then final_frame else not_final_frame.

Definition call_handler_on_current_message : M unit :=
  do md <- gets (fun c => current_message (m_parser c));
  do v <- gets m_protocol_validator;
  let '(v, validation_result) := finish_frame v in
  upd (set_protocol_validator v);;
  if bool_decide (validation_result = frame_is_valid) then
    do rs <- gets m_read_state;
    let is_close := WsParser.m_opcode md =? connection_close_frame in
    match rs with
    | read_any_frame =>
        (if is_close then
           upd (set_close_frame_to_user false);;
           to_peer_if_first
             (do payload <- gets m_payload; send_close_frame_to_peer payload);;
           upd (set_read_state read_nothing)
         else ret tt);;
        do payload <- gets m_payload;
        upd (set_payload []);;
        call_message_handler (mk_message (final_flag_of md) (WsParser.m_opcode md) payload);;
        do rs <- gets m_read_state;
        match rs with read_nothing => ret tt | _ => restart end
    | _ =>
        if is_close then upd (set_timer false);; close_impl else restart
    end
  else handle_invalid_payload validation_result.

(** Validates and unmasks [length] octets of the payload in place. *)
Definition validate_payload_part (offset length next_length_remaining : nat) : M bool :=
  do payload <- gets m_payload;
  do v <- gets m_protocol_validator;
  do (v, validation_result, out) <-
    lift (process_and_unmask_next_payload_part (take length (drop offset payload)) v);
  upd (set_protocol_validator v);;
  upd (set_payload (take offset payload ++ out ++ drop (offset + length) payload));;
  if bool_decide (validation_result = payload_part_is_valid) then ret true
  else
    handle_invalid_payload validation_result;;
    (if bool_decide (validation_result = incorrect_utf8_data) then
       upd (fun c => set_protocol_validator (WsValidator.reset (m_protocol_validator c)) c);;
       match next_length_remaining with
       | O => restart
       | _ => start_read_payload (offset + length) next_length_remaining false
       end
     else ret tt);;
    ret false.

Definition handle_parsed_and_valid_header (md : message_details_t) : M unit :=
  if string_max_size settings <? payload_len md then raise
  else
    let payload_length := Z.to_nat (payload_len md) in
    upd (set_payload (replicate payload_length x00));;
    match payload_length with
    | O => call_handler_on_current_message
    | _ =>
        do buf <- gets m_buf;
        let payload_part_size := Nat.min (length buf) payload_length in
        upd (fun c => set_payload (take payload_part_size buf ++ drop payload_part_size (m_payload c)) c);;
        upd (fun c => set_buf (drop payload_part_size (m_buf c)) c);;
        let length_remaining := (payload_length - payload_part_size)%nat in
        do valid <- validate_payload_part 0 payload_part_size length_remaining;
        if valid then
          match length_remaining with
          | O => call_handler_on_current_message
          | _ => start_read_payload payload_part_size length_remaining true
          end
        else ret tt
    end.

Definition handle_parsed_header (md : message_details_t) : M unit :=
  do v <- gets m_protocol_validator;
  do (v, validation_result) <- lift (process_new_frame md v);
  upd (set_protocol_validator v);;
  if bool_decide (validation_result = frame_header_is_valid) then handle_parsed_and_valid_header md
  else
    do rs <- gets m_read_state;
    match rs with
    | read_any_frame =>
        to_peer_if_first (send_close_frame_to_peer (status_code_to_bin 1002));;
        call_close_handler_if_necessary 1002
    | read_only_close_frame => close_impl
    | read_nothing => ret tt
    end.

Definition consume_header_from_buffer (data : list byte) : M unit :=
  do p <- gets m_parser;
  do (p, nparsed) <- lift (parser_execute data p);
  upd (set_parser p);;
  upd (fun c => set_buf (drop (Z.to_nat nparsed) (m_buf c)) c);;
  if header_parsed p then handle_parsed_header (current_message p)
  else consume_header_from_socket.

Definition start_read_header_with : M unit :=
  upd (fun c => set_parser (WsParser.reset (m_parser c)) c);;
  upd (set_payload []);;
  do buf <- gets m_buf;
  match buf with [] => consume_header_from_socket | _ => consume_header_from_buffer buf end.

Definition handle_read_error : M unit := trigger_error_and_close 1006.

(** A completed read; [None] is an error code. *)
Definition after_read_header (data : option (list byte)) : M unit :=
  match data with
  | Some data => upd (set_buf data);; consume_header_from_buffer data
  | None => handle_read_error
  end.

Definition after_read_payload (offset length_remaining : nat) (data : option (list byte))
  (validate : bool) : M unit :=
  match data with
  | Some data =>
      let n := length data in
      upd (fun c => set_payload (take offset (m_payload c) ++ data ++ drop (offset + n) (m_payload c)) c);;
      let next_length_remaining := (length_remaining - n)%nat in
      if validate then
        do valid <- validate_payload_part offset n next_length_remaining;
        if valid then
          match next_length_remaining with
          | O => call_handler_on_current_message
          | _ => start_read_payload (offset + n) next_length_remaining validate
          end
        else ret tt
      else
        match next_length_remaining with
        | O => restart
        | _ => start_read_payload (offset + n) next_length_remaining validate
        end
  | None => handle_read_error
  end.

End Read.

Fixpoint start_read_header (rounds : nat) : M unit :=
  match rounds with O => deep | S rounds => start_read_header_with (start_read_header rounds) end.

(** [websocket_header_max_size()], the size of [m_input.m_buf]: every frame taken
    from the buffer removes at least one octet. *)
Definition websocket_header_max_size : nat := 14.
Definition read_rounds : nat := S websocket_header_max_size.

(** *** Timeouts and start *)

Definition init_next_timeout_checking : M unit := upd (set_timer true).

(** [now > deadline] *)
Definition past (now : Z) (deadline : option Z) : bool :=
  match deadline with Some d => d <? now | None => false end.

Definition check_timeout_impl : M unit :=
  do now <- gets clock;
  do busy <- gets (fun c => transmitting (m_write_output_ctx c));
  do wt <- gets m_write_operation_timeout_after;
  do ct <- gets m_close_frame_from_peer_timeout_after;
  if busy && (wt <? now) then
    upd (set_close_frame_to_peer false);;
    call_close_handler_if_necessary 1011;;
    close_impl
  else if past now ct then close_impl
  else init_next_timeout_checking.

Definition init_read : M unit :=
  noexcept (catch
    (init_next_timeout_checking;;
     upd (set_activated true);;
     upd (set_read_state read_any_frame);;
     start_read_header read_rounds)
    (trigger_error_and_close 1011)).

End Connection.

(** ** Steps *)

Section Machine.
Context {U : UserCode} (settings : settings_t).

(** The calls of user code, in order until one throws; [depth] bounds how deeply
    user code may be entered from calls it makes itself. *)
Fixpoint user_code (depth : nat) (ops : list ws_op) : M unit :=
  match depth with
  | O => match ops with [] => ret tt | _ => deep end
  | S depth =>
      fold_right (fun o rest => ws_call settings (user_code depth) o;; rest) (ret tt) ops
  end.

(** What the strand runs next. *)
Inductive strand_event :=
| ev_activate                       (* activate, by init_read *)
| ev_call (o : ws_op)               (* a call from outside; what it throws goes to the caller *)
| ev_release                        (* the last handle is dropped: ~ws_t *)
| ev_read (data : option (list byte))
| ev_write (ok : bool)
| ev_timer (now : Z).

(** How much a read may deliver. *)
Definition read_capacity (r : read_t) : nat :=
  match r with read_header => websocket_header_max_size | read_payload _ n _ => n end.

Definition fits (r : read_t) (data : option (list byte)) : bool :=
  match data with
  | Some d => (0 <? length d)%nat && (length d <=? read_capacity r)%nat
  | None => true
  end.

Definition completed (r : read_t) (data : option (list byte)) (depth : nat) : M unit :=
  let user := user_code depth in
  let restart := start_read_header settings user read_rounds in
  upd (set_reading None);;
  noexcept (catch
    match r with
    | read_header => after_read_header settings user restart data
    | read_payload offset n validate => after_read_payload settings user restart offset n data validate
    end
    (trigger_error_and_close user 1011)).

(** One step; [None] when the event cannot happen. *)
Definition step (depth : nat) (e : strand_event) (c : conn) : option (res unit) :=
  let user := user_code depth in
  match e with
  | ev_activate =>
      if negb (activated c) && ws_alive c then Some (init_read settings user c) else None
  | ev_call o => if ws_alive c then Some (catch_all (ws_call settings user o) (ret tt) c) else None
  | ev_release =>
      if ws_alive c then Some ((upd (set_ws_alive false);; catch_all (ws_shutdown settings user) (ret tt)) c) else None
  | ev_read data =>
      match reading c with
      | Some r => if fits r data then Some (completed r data depth c) else None
      | None => None
      end
  | ev_write ok =>
      if writing c then
        Some ((upd (set_writing false);;
               noexcept (catch (after_write settings user ok) (trigger_error_and_close user 1011))) c)
      else None
  | ev_timer now =>
      if timer c && (clock c <=? now) then
        Some ((upd (set_timer false);; upd (set_clock now);;
               noexcept (catch (check_timeout_impl user) (trigger_error_and_close user 1011))) c)
      else None
  end.

(** The connection [upgrade] creates, with the answer to the handshake written. *)
Definition new_conn (now : Z) : conn :=
  mk_conn true initial_parser [] [] (new_validator true) initial_ctx [] write_enabled read_nothing
    true true true now None false now None false false true true 0 [].

Definition upgraded (depth : nat) (response : list byte) (now : Z) : res unit :=
  write_data settings (user_code depth) (write_group [trivial_write_operation response]) false (new_conn now).

(** Runs that stay within the bounds and the events that can happen. *)
Inductive reachable (depth : nat) (response : list byte) (now : Z) : conn -> Prop :=
| reach_start c : upgraded depth response now = Ret tt c -> reachable depth response now c
| reach_step e c c' :
    reachable depth response now c -> step depth e c = Some (Ret tt c') -> reachable depth response now c'.

End Machine.

End WsConnection.
