(* ===== verification/WsSafety.v ===== *)
(** * Invariants of WebSocket connections

    Every run of the connection of [WsConnection], whatever the peer sends and
    whatever user code calls from its handlers: what reaches the socket is what
    was accepted, in order; nothing follows a close frame; no two reads or writes
    overlap; no bound on loops is ever met when user code makes no calls; and the program
    is terminated only for an exception of user code that is no std::exception. *)

From S2P Require Import Prelude Bitops Utf8Checker WsParser WsValidator Coordinator OutputCtx Effects WsConnection.

Module WsSafety.
Import Message Buffers OutputCtx WsConnection.

(** ** Observations *)

Definition queued_of (e : event) : list (bool * write_group_t) :=
  match e with queued b g => [(b, g)] | _ => [] end.
Definition started_of (e : event) : list (list byte) :=
  match e with started bufs => bufs | _ => [] end.

(** The groups accepted for writing, with their close flags, and the buffers
    handed to the socket. *)
Definition queued_groups (tr : list event) : list (bool * write_group_t) := flat_map queued_of tr.
Definition started_bufs (tr : list event) : list (list byte) := flat_map started_of tr.

Lemma queued_groups_snoc tr e : queued_groups (tr ++ [e]) = queued_groups tr ++ queued_of e.
Proof. unfold queued_groups. rewrite flat_map_app. simpl. by rewrite app_nil_r. Qed.

Lemma started_bufs_snoc tr e : started_bufs (tr ++ [e]) = started_bufs tr ++ started_of e.
Proof. unfold started_bufs. rewrite flat_map_app. simpl. by rewrite app_nil_r. Qed.

Definition group_bufs (g : write_group_t) : list (list byte) := map item_bytes (m_items g).

Definition is_trivial (i : writable_item_t) : Prop :=
  match i with trivial_write_operation _ => True | file_write_operation _ _ => False end.

(** Groups of frames: something in memory, no files. *)
Definition good_group (g : write_group_t) : Prop := m_items g <> [] /\ Forall is_trivial (m_items g).

(** What is left of the group being written. *)
Definition rest_bufs (ctx : write_group_output_ctx_t) : list (list byte) :=
  match m_current_wg ctx with
  | Some g => drop (m_next_writable_item_index ctx) (group_bufs g)
  | None => []
  end.

(** No close frame yet, or one and nothing behind it. *)
Definition close_flags (c : conn) : list bool := map fst (queued_groups (trace c)).

Definition no_close (fs : list bool) : Prop := Forall (fun b => b = false) fs.

Definition close_last (c : conn) : Prop :=
  no_close (close_flags c) \/
  exists fs, close_flags c = fs ++ [true] /\ no_close fs /\
    m_close_frame_to_peer c = false /\ (m_write_state c = write_disabled \/ m_socket_open c = false).

Definition current_of (c : conn) : option write_group_t := m_current_wg (m_write_output_ctx c).
Definition index_of (c : conn) : nat := m_next_writable_item_index (m_write_output_ctx c).

Record core (c : conn) : Prop := {
  inv_writing : writing c = true -> current_of c <> None;
  inv_index : current_of c = None -> m_socket_open c = true -> index_of c = 0%nat;
  inv_current : forall g, current_of c = Some g -> good_group g;
  inv_queue : Forall good_group (m_outgoing_data c);
  inv_buf : (length (m_buf c) <= 14)%nat;
  inv_order : m_socket_open c = true ->
    started_bufs (trace c) ++ rest_bufs (m_write_output_ctx c) ++ flat_map group_bufs (m_outgoing_data c)
    = flat_map (fun q => group_bufs (snd q)) (queued_groups (trace c));
  inv_socket : m_close_impl c = m_socket_open c;
  inv_activated : reading c <> None -> activated c = true
}.

Definition inv (c : conn) : Prop := core c /\ close_last c.

(** What writing and user code leave alone: the reading side, and a closed socket
    stays closed. *)
Record rframe (c c' : conn) : Prop := {
  frame_socket : m_socket_open c = false -> m_socket_open c' = false;
  frame_reading : reading c' = reading c;
  frame_parser : m_parser c' = m_parser c;
  frame_buf : m_buf c' = m_buf c;
  frame_payload : m_payload c' = m_payload c;
  frame_validator : m_protocol_validator c' = m_protocol_validator c;
  frame_activated : activated c' = activated c
}.

(** User code also leaves alone a write in progress. *)
Definition frame (c c' : conn) : Prop :=
  rframe c c' /\
  (current_of c <> None -> m_write_output_ctx c' = m_write_output_ctx c /\ writing c' = writing c).

#[global] Instance rframe_refl : Reflexive rframe.
Proof. intros c. by split. Qed.

#[global] Instance rframe_trans : Transitive rframe.
Proof.
  intros a b c H1 H2. split; try (etrans; [apply H2|apply H1]).
  intros Ha. apply (frame_socket _ _ H2), (frame_socket _ _ H1), Ha.
Qed.

#[global] Instance frame_refl : Reflexive frame.
Proof. by intros c. Qed.

#[global] Instance frame_trans : Transitive frame.
Proof.
  intros a b c [H1 H1'] [H2 H2']. split; [by etrans|]. intros Ha. destruct (H1' Ha) as [E1 E2].
  destruct H2' as [F1 F2]; [by unfold current_of in *; rewrite E1|]. split; congruence.
Qed.

(** Instance search goes by the names of the calls. *)
#[global] Typeclasses Opaque run_user call_notificator destroy_group close_impl call_message_handler
  call_close_handler_if_necessary trigger_error_and_close start_waiting_close_frame_only append
  init_write_if_necessary send_close_frame_to_peer to_peer_if_first graceful_close write_data shutdown kill
  ws_shutdown ws_call async_read_some handle_invalid_payload bind catch catch_all
  noexcept throw throw_if run_if_first.

Section Logic.
(** Whether the bounds may be met, and whether user code throws what is no
    std::exception. *)
Context (D : tolerance).

(** ** A program logic *)

Abbreviation wp := (wp D).

(** The calls that keep the invariant and leave alone what user code must. *)
Class Safe {A} (m : M A) : Prop :=
  safe c : inv c -> wp m (fun _ c' => inv c' /\ frame c c') (fun c' => inv c' /\ frame c c') c.

(** Uses a safe call in a state related to an earlier one. *)
Lemma safe_from {A} (m : M A) {H : Safe m} c0 c :
  inv c -> frame c0 c ->
  wp m (fun _ c' => inv c' /\ frame c0 c') (fun c' => inv c' /\ frame c0 c') c.
Proof.
  intros Hi Hf. eapply wp_mono; [by apply (safe (m := m))| |]; intros; simpl in *; intuition; by etrans.
Qed.

(** The same behind something that was no call of user code. *)
Lemma safe_after {A} (m : M A) {H : Safe m} c0 c :
  inv c -> rframe c0 c ->
  wp m (fun _ c' => inv c' /\ rframe c0 c') (fun c' => inv c' /\ rframe c0 c') c.
Proof.
  intros Hi Hf. eapply wp_mono; [by apply (safe (m := m))| |]; intros; simpl in *; unfold frame in *; intuition;
    by etrans.
Qed.

#[global] Instance safe_ret {A} (a : A) : Safe (ret a).
Proof. intros c H. by split. Qed.
#[global] Instance safe_raise {A} : Safe (@raise conn A).
Proof. intros c H. by split. Qed.
#[global] Instance safe_gets {A} (f : conn -> A) : Safe (gets f).
Proof. intros c H. by split. Qed.
#[global] Instance safe_lift {A} (o : outcome A) : Safe (lift o).
Proof. destruct o; apply _. Qed.

#[global] Instance safe_bind {A B} (m : M A) (k : A -> M B) :
  Safe m -> (forall a, Safe (k a)) -> Safe (bind m k).
Proof.
  intros Hm Hk c Hi. apply wp_bind. eapply wp_mono; [by apply Hm| |done].
  intros a c' [Hi' Hf]. by apply safe_from.
Qed.

#[global] Instance safe_catch (m h : M unit) : Safe m -> Safe h -> Safe (catch m h).
Proof.
  intros Hm Hh c Hi. apply wp_catch. eapply wp_mono; [by apply Hm|done|].
  intros c' [Hi' Hf]. split; [by apply safe_from|done].
Qed.

#[global] Instance safe_catch_all (m h : M unit) : Safe m -> Safe h -> Safe (catch_all m h).
Proof.
  intros Hm Hh c Hi. apply wp_catch_all. eapply wp_mono; [by apply Hm|done|].
  intros c' [Hi' Hf]. by apply safe_from.
Qed.

#[global] Instance safe_noexcept (m : M unit) : Safe m -> Quiet m -> Safe (noexcept m).
Proof. intros Hm Hq c Hi. eapply (wp_noexcept D m); by apply Hm. Qed.

Lemma ws_safe_throw_if (e : option exn) : (e = Some other_exception -> may_throw_other D) -> Safe (throw_if e).
Proof. intros He c Hi. destruct e as [[]|]; [by split| |by split]. split; [by apply He|by split]. Qed.

#[global] Instance safe_if {A} (b : bool) (m n : M A) : Safe m -> Safe n -> Safe (if b then m else n).
Proof. by destruct b. Qed.

(** Assignments outside the invariant. *)
Class Keeps (f : conn -> conn) : Prop := keeps c : inv c -> inv (f c) /\ frame c (f c).

#[global] Instance safe_upd f : Keeps f -> Safe (upd f).
Proof. intros H c Hi. exact (H c Hi). Qed.

End Logic.

Local Ltac keeps_tac :=
  let H := fresh in
  intros ? H; split; [destruct H as [[] ?]; split; [by split|try done]|by repeat split].

#[global] Instance keeps_user_calls n : Keeps (set_user_calls n).
Proof. keeps_tac. Qed.
#[global] Instance keeps_to_user : Keeps (set_close_frame_to_user false).
Proof. keeps_tac. Qed.
#[global] Instance keeps_handle b : Keeps (set_ws_connection_handle b).
Proof. keeps_tac. Qed.
#[global] Instance keeps_read_state s : Keeps (set_read_state s).
Proof. keeps_tac. Qed.
#[global] Instance keeps_timer b : Keeps (set_timer b).
Proof. keeps_tac. Qed.
#[global] Instance keeps_clock t : Keeps (set_clock t).
Proof. keeps_tac. Qed.
#[global] Instance keeps_alive b : Keeps (set_ws_alive b).
Proof. keeps_tac. Qed.
#[global] Instance keeps_deadline f : Keeps (fun c => set_write_operation_timeout_after (f c) c).
Proof. keeps_tac. Qed.
#[global] Instance keeps_close_deadline f : Keeps (fun c => set_close_frame_from_peer_timeout_after (f c) c).
Proof. keeps_tac. Qed.

Lemma close_last_weaken c c' :
  close_flags c' = close_flags c -> (m_close_frame_to_peer c = false -> m_close_frame_to_peer c' = false) ->
  (m_write_state c = write_disabled -> m_write_state c' = write_disabled) ->
  (m_socket_open c = false -> m_socket_open c' = false) -> close_last c -> close_last c'.
Proof.
  intros Hf Hp Hw Hs [H|(fs & H & Hn & H1 & H2)]; unfold close_last; rewrite Hf; [by left|right].
  exists fs. intuition.
Qed.

#[global] Instance keeps_to_peer : Keeps (set_close_frame_to_peer false).
Proof. keeps_tac. by eapply close_last_weaken; [..|eassumption]. Qed.
#[global] Instance keeps_write_disabled : Keeps (set_write_state write_disabled).
Proof. keeps_tac. by eapply close_last_weaken; [..|eassumption]. Qed.

(** Events other than the two the invariant counts. *)
Definition neutral (e : event) : Prop := queued_of e = [] /\ started_of e = [].

Lemma keeps_log e : neutral e -> Keeps (fun c => set_trace (trace c ++ [e]) c).
Proof.
  intros [Hq Hs] c H. split; [|by repeat split]. destruct H as [[] ?]. split; [split; try done; simpl|].
  - by rewrite queued_groups_snoc, started_bufs_snoc, Hq, Hs, !app_nil_r.
  - apply (close_last_weaken c); try done. unfold close_flags. simpl. by rewrite queued_groups_snoc, Hq, app_nil_r.
Qed.

#[global] Instance keeps_notified cb st : Keeps (fun c => set_trace (trace c ++ [notified cb st]) c).
Proof. by apply keeps_log. Qed.
#[global] Instance keeps_to_user_event m : Keeps (fun c => set_trace (trace c ++ [to_user m]) c).
Proof. by apply keeps_log. Qed.

(** ** Writing *)

(** The calls some handler makes. *)
Definition user_calls_of `{UserCode} (ops : list ws_op) : Prop :=
  (exists n m, ops = fst (on_message n m)) \/ (exists n cb st, ops = fst (on_written n cb st)).

(** The calls that handlers make are safe. *)
Class SafeUser `{UserCode} (D : tolerance) (user : list ws_op -> M unit) : Prop := {
  safe_user ops : user_calls_of ops -> Safe D (user ops);
  covers_user : throws_other -> may_throw_other D
}.

(** Asio gathers at least one buffer. *)
Class HasIov (settings : settings_t) : Prop := has_iov : (0 < asio_max_iov_len settings)%nat.

Section Writing.
Context {U : UserCode} (settings : settings_t) (Hiov : HasIov settings).
Context (D : tolerance) (user : list ws_op -> M unit).

Context (Huser : SafeUser D user).

Lemma safe_run_user code :
  (forall n, user_calls_of (fst (code n))) -> (forall n, (code n).2 = Some other_exception -> throws_other) ->
  Safe D (run_user user code).
Proof using Huser.
  intros Hc Ht. unfold run_user. apply safe_bind; [apply _|]. intros n. apply safe_bind; [apply _|]. intros _.
  specialize (Hc n). specialize (Ht n). destruct (code n) as [ops thrown]. simpl in *.
  pose proof (safe_user ops Hc). apply safe_bind; [apply _|]. intros _. apply ws_safe_throw_if.
  intros E. by apply (covers_user (user := user)), Ht.
Qed.

#[global] Instance safe_call_notificator cb st : Safe D (call_notificator user cb st).
Proof using Huser.
  unfold call_notificator, log. apply safe_bind; [apply _|]. intros _. apply safe_run_user.
  - intros n. right. by exists n, cb, st.
  - intros n E. right. by exists n, cb, st.
Qed.

#[global] Instance safe_destroy_group g : Safe D (destroy_group user g).
Proof using Huser. unfold destroy_group. destruct (m_after_write_notificator g); apply _. Qed.

#[global] Instance safe_run_if_first flag clear action :
  Keeps clear -> Safe D action -> Safe D (run_if_first flag clear action).
Proof. intros. unfold run_if_first. apply _. Qed.

#[global] Instance safe_call_message_handler m : Safe D (call_message_handler user m).
Proof using Huser.
  assert (Safe D (run_user user (fun n => on_message n m)))
    by (apply safe_run_user; [intros n; left; by exists n, m|intros n E; left; by exists n, m]).
  unfold call_message_handler, log. apply _.
Qed.

#[global] Instance safe_call_close_handler s : Safe D (call_close_handler_if_necessary user s).
Proof using Huser. unfold call_close_handler_if_necessary. apply _. Qed.

#[global] Instance safe_close_impl : Safe D close_impl.
Proof.
  intros c Hinv. unfold close_impl, run_if_first, wp, bind, gets.
  destruct (m_close_impl c) eqn:E; [|done]. destruct Hinv as [[Hw Hi Hc Hq Hb Ho Hs Ha] Hl].
  simpl. split; [split; [split; try done; simpl|]|].
  - apply (close_last_weaken c); try done. unfold close_flags. simpl. by rewrite queued_groups_snoc, app_nil_r.
  - by repeat split.
Qed.

#[global] Instance sealed_close_impl : Sealed close_impl.
Proof. unfold close_impl, run_if_first, log. apply _. Qed.
#[global] Instance sealed_trigger_error s : Sealed (trigger_error_and_close user s).
Proof. unfold trigger_error_and_close. apply _. Qed.

#[global] Instance safe_trigger_error s : Safe D (trigger_error_and_close user s).
Proof using Huser. unfold trigger_error_and_close. apply _. Qed.

#[global] Instance safe_start_waiting : Safe D (start_waiting_close_frame_only settings).
Proof. unfold start_waiting_close_frame_only, guard_close_frame_from_peer_operation. apply _. Qed.

(** *** One write *)

(** What decides about close frames is unchanged. *)
Definition same_close (c c' : conn) : Prop :=
  close_flags c' = close_flags c /\ m_close_frame_to_peer c' = m_close_frame_to_peer c /\
  m_write_state c' = m_write_state c /\ m_socket_open c' = m_socket_open c.

Lemma same_close_last c c' : same_close c c' -> close_last c -> close_last c'.
Proof. intros (E1 & E2 & E3 & E4). apply close_last_weaken; congruence. Qed.

Lemma trivial_bufs bufs : map item_bytes (map trivial_write_operation bufs) = bufs.
Proof. induction bufs as [|b bufs IH]; [done|]. simpl. by rewrite IH. Qed.

Lemma extract_good g n :
  good_group g -> (n < length (m_items g))%nat ->
  exists m bufs size, extract_next_write_operation (asio_max_iov_len settings) (mk_octx (Some g) n)
    = Some (mk_octx (Some g) m, trivial_write bufs size) /\
    drop n (group_bufs g) = bufs ++ drop m (group_bufs g).
Proof using Hiov.
  intros [_ Ht] Hn. destruct (extract_advances _ g n Hiov Hn) as (m & o & -> & Ho & Hm & Hi & _).
  assert (Hall : Forall is_trivial (operation_items o)).
  { rewrite Hi. by apply Forall_take, Forall_drop. }
  destruct o as [|bufs size|file size]; [done| |by inversion Hall]. exists m, bufs, size. split; [done|].
  cbn [operation_items] in Hi. apply (f_equal (map item_bytes)) in Hi. rewrite trivial_bufs in Hi.
  rewrite Hi. change (map item_bytes (take (m - n) (drop n (m_items g)))) with
    (item_bytes <$> take (m - n) (drop n (m_items g))).
  rewrite fmap_take, fmap_drop. change (item_bytes <$> m_items g) with (group_bufs g).
  rewrite <- (take_drop (m - n) (drop n (group_bufs g))) at 1.
  f_equal. rewrite drop_drop. f_equal. lia.
Qed.

Lemma handle_start rounds c g :
  core c -> writing c = false -> current_of c = Some g -> (index_of c < length (m_items g))%nat ->
  wp D (handle_current_write_ctx settings user (S rounds))
    (fun _ c' => core c' /\ rframe c c' /\ same_close c c') (fun _ => False) c.
Proof using Hiov.
  intros Hc Hw Hg Hn. destruct Hc as [Hw' Hi Hcur Hq Hb Ho Hs Ha].
  destruct (extract_good g (index_of c) (Hcur g Hg) Hn) as (m & bufs & size & Hx & Hd).
  apply wp_catch. unfold wp, bind, gets, upd. unfold current_of, index_of in *.
  destruct (m_write_output_ctx c) as [cur n] eqn:Ec. simpl in *. subst cur. rewrite Hx.
  unfold handle_trivial_write_operation, guard_write_operation, async_write, log, bind, gets, upd. simpl. rewrite Hw.
  simpl. split_and!; [|by split|].
  - split; try done; simpl. intros Hopen. specialize (Ho Hopen). unfold rest_bufs in *. simpl in *.
    rewrite started_bufs_snoc, queued_groups_snoc, app_nil_r. cbn [started_of].
    rewrite <- Ho, Hd. by rewrite <- !app_assoc.
  - unfold same_close, close_flags. simpl. by rewrite queued_groups_snoc, app_nil_r.
Qed.

(** Taking the next group from the queue, when the context is free. *)
Lemma pop_core c g q :
  core c -> current_of c = None -> m_outgoing_data c = g :: q ->
  let c' := set_write_output_ctx (start_next_write_group (Some g) (m_write_output_ctx c)) (set_outgoing_data q c) in
  core c' /\ writing c' = false /\ rframe c c' /\ same_close c c'.
Proof.
  intros [Hw' Hi Hcur Hq Hb Ho Hs Ha] Hn Eq. rewrite Eq in *. inversion Hq as [|? ? Hg Hq']; subst. split_and!; try by split.
  - split; simpl; try done.
    + by intros g' [= <-].
    + intros Hopen. specialize (Ho Hopen). rewrite <- Ho. unfold rest_bufs, start_next_write_group. simpl.
      unfold current_of in *. rewrite Hn. simpl. f_equal.
      change (m_next_writable_item_index (m_write_output_ctx c)) with (index_of c). by rewrite (Hi Hn Hopen).
  - simpl. destruct (writing c); [|done]. by destruct (Hw' eq_refl).
Qed.

Lemma init_write_quiet rounds c :
  core c -> current_of c = None -> index_of c = 0%nat ->
  wp D (init_write_with (handle_current_write_ctx settings user (S rounds)))
    (fun _ c' => core c' /\ rframe c c' /\ same_close c c') (fun _ => False) c.
Proof using Hiov.
  intros Hc Hn Hi. unfold init_write_with, pop_ready_buffers, bind, gets, upd, ret, wp.
  destruct (m_outgoing_data c) as [|g q] eqn:Eq; simpl.
  - by split_and!.
  - destruct (pop_core c g q Hc Hn Eq) as (Hc' & Hw & Hr & Hs). cbv zeta in *.
    pose proof (inv_queue _ Hc) as Hq. rewrite Eq in Hq. inversion Hq as [|? ? [Hg _] _]; subst.
    pose proof (handle_start rounds _ g Hc' Hw eq_refl) as Hh. unfold wp in Hh. unfold index_of in *. simpl in Hh.
    rewrite Hi in Hh. specialize (Hh ltac:(destruct (m_items g); [done|simpl; lia])). simpl in Hh.
    match goal with |- match ?x with _ => _ end => destruct x end; try done.
    destruct Hh as (? & ? & ?). split_and!; [done|by etrans|]. unfold same_close in *. simpl in *. naive_solver.
Qed.

(** *** The end of a group *)

(** A group is current, no write is outstanding, and nothing of it is left that
    could still be written. *)
Definition settled (c : conn) : Prop :=
  writing c = false /\ current_of c <> None /\
  (m_socket_open c = true -> rest_bufs (m_write_output_ctx c) = []).

Lemma rframe_open c c' : rframe c c' -> m_socket_open c' = true -> m_socket_open c = true.
Proof. intros H Ho. destruct (m_socket_open c) eqn:E; [done|]. by rewrite (frame_socket _ _ H E) in Ho. Qed.

Lemma settled_frame c c' : settled c -> frame c c' -> settled c'.
Proof.
  intros (Hw & Hc & Hr) [Hf Hctx]. destruct (Hctx Hc) as [E1 E2]. unfold settled, current_of in *.
  rewrite E1, E2. split_and!; [done|done|]. intros Ho. by apply Hr, (rframe_open c c').
Qed.

Lemma settled_reset c :
  inv c -> settled c -> inv (set_write_output_ctx initial_ctx c) /\ rframe c (set_write_output_ctx initial_ctx c).
Proof.
  intros [[Hw' Hi Hcur Hq Hb Ho Hs Ha] Hl] (Hw & _ & Hr). split; [|by split].
  split; [|by apply (close_last_weaken c)].
  split; simpl; try done; [congruence|]. intros Hopen. rewrite <- (Ho Hopen). by rewrite (Hr Hopen).
Qed.

Lemma settled_take c :
  inv c -> settled c ->
  exists ctx cb, take_notificator (m_write_output_ctx c) = Some (ctx, cb) /\
    inv (set_write_output_ctx ctx c) /\ settled (set_write_output_ctx ctx c).
Proof.
  intros [[Hw' Hi Hcur Hq Hb Ho Hs Ha] Hl] (Hw & Hc & Hr). unfold current_of in *.
  destruct (m_write_output_ctx c) as [[g|] n] eqn:Ec; [|done]. simpl. do 2 eexists. split; [done|].
  split; [split; [|by apply (close_last_weaken c)]; split; simpl; try done|split_and!; done].
  intros g0 [= <-]. by apply (Hcur g).
Qed.

Lemma notify_spec st c :
  inv c -> settled c ->
  wp D (invoke_after_write_notificator_if_necessary user st)
    (fun _ c' => inv c' /\ rframe c c' /\ settled c')
    (fun c' => inv c' /\ rframe c c') c.
Proof using Huser.
  intros Hi Hs. unfold invoke_after_write_notificator_if_necessary. apply wp_catch, wp_bind.
  destruct (settled_take c Hi Hs) as (ctx & cb & Ht & Hi1 & Hs1). unfold wp at 1, gets. rewrite Ht.
  apply wp_bind. unfold wp at 1, upd at 1.
  assert (Hm : forall m : M unit, Safe D m -> wp D m
    (fun _ c' => inv c' /\ rframe c c' /\ settled c')
    (fun c1 => wp D (upd (fun c => set_write_output_ctx (reset_write_group (m_write_output_ctx c)) c);; @raise conn unit)
      (fun _ c' => inv c' /\ rframe c c' /\ settled c') (fun c' => inv c' /\ rframe c c') c1 /\ inv c1 /\ rframe c c1)
    (set_write_output_ctx ctx c)).
  { intros m Hm. eapply wp_mono; [by apply Hm| |]; cbv beta.
    - intros _ c' [Hi2 Hf]. split_and!; [done|by destruct Hf as [[] _]|by eapply settled_frame].
    - intros c' [Hi2 Hf]. assert (Hs2 : rframe c c') by by destruct Hf as [[] _].
      destruct (settled_reset c' Hi2) as [? Hr]; [by eapply settled_frame|]. split_and!; [|done|done].
      split; [done|]. by etrans; [|exact Hr]. }
  destruct cb as [cb|]; apply Hm; apply _.
Qed.

Lemma finish_spec c :
  inv c -> settled c ->
  wp D (finish_write_group user)
    (fun _ c' => inv c' /\ rframe c c' /\ m_write_output_ctx c' = initial_ctx)
    (fun c' => inv c' /\ rframe c c') c.
Proof using Huser.
  intros Hi Hs. apply wp_bind. eapply wp_mono; [by apply notify_spec| |done].
  intros _ c' (Hi' & Hr & Hs'). destruct (settled_reset c' Hi' Hs') as [? Hr']. split_and!; [done|by etrans|done].
Qed.

(** A failed group is dropped once the socket is closed. *)
Lemma fail_spec st c :
  inv c -> settled c -> m_socket_open c = false ->
  wp D (fail_write_group user st)
    (fun _ c' => inv c' /\ rframe c c') (fun c' => inv c' /\ rframe c c') c.
Proof using Huser.
  intros Hi Hs Hclosed. apply wp_bind. eapply wp_mono; [by apply notify_spec| |done].
  intros _ c' (Hi' & Hr & Hs'). pose proof (frame_socket _ _ Hr Hclosed) as Hc'.
  destruct Hi' as [[Hw' Hx Hcur Hq Hb Ho Hk Ha] Hl]. destruct Hs' as (Hw & _). split.
  - split; [split; simpl; try done; congruence|by apply (close_last_weaken c')].
  - etrans; [exact Hr|by split].
Qed.

(** Two rounds are enough for every current group. *)
Lemma handle_any rounds c :
  inv c -> writing c = false -> current_of c <> None ->
  wp D (handle_current_write_ctx settings user (S (S rounds)))
    (fun _ c' => inv c' /\ rframe c c') (fun c' => inv c' /\ rframe c c') c.
Proof using Hiov Huser.
  intros Hi Hw Hc. destruct (current_of c) as [g|] eqn:Hg; [|done].
  destruct (decide (index_of c < length (m_items g))%nat) as [Hn|Hn].
  { eapply wp_mono; [by apply (handle_start (S rounds) c g); [apply Hi|..]| |done].
    intros _ c' (Hc' & Hr & Hs). split; [|done]. split; [done|]. by apply (same_close_last c), Hi. }
  assert (Hset : settled c).
  { split_and!; [done|congruence|]. intros _. unfold rest_bufs, current_of, index_of in *. rewrite Hg.
    apply drop_ge. unfold group_bufs. rewrite length_map. lia. }
  cbn [handle_current_write_ctx]. apply wp_catch, wp_bind. unfold wp at 1, gets.
  assert (extract_next_write_operation (asio_max_iov_len settings) (m_write_output_ctx c)
          = Some (m_write_output_ctx c, none_write_operation)) as ->.
  { unfold extract_next_write_operation, current_of, index_of in *. rewrite Hg.
    by rewrite lookup_ge_None_2 by lia. }
  apply wp_bind. unfold wp at 1, upd at 1.
  assert (set_write_output_ctx (m_write_output_ctx c) c = c) as -> by by destruct c.
  apply wp_bind. eapply wp_mono; [by apply finish_spec| |].
  - intros _ c1 (Hi1 & Hr1 & Hx). unfold init_write_if_necessary_with. apply wp_bind. unfold wp at 1, gets.
    rewrite Hx. cbn [transmitting initial_ctx m_current_wg].
    eapply wp_mono; [apply (init_write_quiet rounds c1)| |done];
      [apply Hi1|by unfold current_of; rewrite Hx|by unfold index_of; rewrite Hx|].
    intros _ c2 (Hc2 & Hr2 & Hs2). split; [|by etrans]. split; [done|]. by apply (same_close_last c1), Hi1.
  - intros c1 [Hi1 Hr1]. split; [by apply (safe_after D (trigger_error_and_close user 1011))|done].
Qed.

#[global] Instance safe_init_write_if_necessary : Safe D (init_write_if_necessary settings user).
Proof using Hiov Huser.
  intros c Hi. unfold init_write_if_necessary, init_write_if_necessary_with. apply wp_bind. unfold wp at 1, gets.
  destruct (transmitting _) eqn:Ht; [done|].
  assert (Hn : current_of c = None) by (unfold transmitting in Ht; unfold current_of; by destruct (m_current_wg _)).
  unfold init_write_with, pop_ready_buffers. do 2 apply wp_bind. unfold wp at 1, gets.
  destruct (m_outgoing_data c) as [|g q] eqn:Eq; [done|]. apply wp_bind. unfold wp at 1, upd, ret. unfold wp at 1.
  apply wp_bind. unfold wp at 1. destruct (pop_core c g q (proj1 Hi) Hn Eq) as (Hc' & Hw & Hr & Hs).
  eapply wp_mono; [apply (handle_any 0)| |]; [split; [done|by apply (same_close_last c), Hi]|done|done| |];
    cbv beta; intros; destruct_and?; (split; [done|]); (split; [by etrans|done]).
Qed.

(** *** Accepting groups *)

Lemma append_core b g c :
  core c -> good_group g ->
  let c' := set_outgoing_data (m_outgoing_data c ++ [g]) (set_trace (trace c ++ [queued b g]) c) in
  core c' /\ frame c c' /\ close_flags c' = close_flags c ++ [b].
Proof.
  intros [Hw' Hi Hcur Hq Hb Ho Hs Ha] Hg. split_and!; [|by repeat split|].
  - split; simpl; try done; [by apply Forall_app_2; [|constructor]|].
    intros Hopen. rewrite started_bufs_snoc, queued_groups_snoc, app_nil_r, !flat_map_app, <- (Ho Hopen).
    by rewrite !app_assoc.
  - unfold close_flags. simpl. by rewrite queued_groups_snoc, map_app.
Qed.

Lemma append_spec b g c :
  inv c -> good_group g -> no_close (close_flags c) ->
  (b = true -> m_close_frame_to_peer c = false /\ m_write_state c = write_disabled) ->
  wp D (append b g) (fun _ c' => inv c' /\ frame c c') (fun _ => False) c.
Proof.
  intros [Hc Hl] Hg Hn Hb. destruct (append_core b g c Hc Hg) as (Hc' & Hf & Hflags).
  enough (close_last (set_outgoing_data (m_outgoing_data c ++ [g]) (set_trace (trace c ++ [queued b g]) c))) by done.
  unfold close_last. rewrite Hflags. destruct b.
  - right. exists (close_flags c). split_and!; [done|done|by apply Hb|left; by apply Hb].
  - left. apply Forall_app_2; [done|]. by constructor.
Qed.

Lemma close_frame_good payload : good_group (write_group
  [trivial_write_operation (WsParser.write_message_details
     (WsParser.message_details final_frame connection_close_frame (Z.of_nat (length payload))));
   trivial_write_operation payload]).
Proof. split; [done|]. by repeat constructor. Qed.

(** The library's own close frame, when none was accepted before. *)
Definition sends_close (action : M unit) : Prop :=
  forall c, inv c -> no_close (close_flags c) -> m_close_frame_to_peer c = false ->
  wp D action (fun _ c' => inv c' /\ frame c c') (fun c' => inv c' /\ frame c c') c.

Lemma disable_writes c c' :
  core c' -> close_last c' \/ (exists fs, close_flags c' = fs ++ [true] /\ no_close fs /\ m_close_frame_to_peer c' = false) ->
  frame c c' -> inv (set_write_state write_disabled c') /\ frame c (set_write_state write_disabled c').
Proof.
  intros Hc Hl Hf. split; [|etrans; [exact Hf|by repeat split]].
  split; [destruct Hc; by split|]. destruct Hl as [Hl|(fs & H1 & H2 & H3)]; [by apply (close_last_weaken c')|].
  right. exists fs. split_and!; try done. by left.
Qed.

Lemma send_close_spec payload : sends_close (send_close_frame_to_peer settings user payload).
Proof using Hiov Huser.
  intros c [Hc Hl] Hn Hp. unfold send_close_frame_to_peer, append. do 2 apply wp_bind.
  unfold wp at 1, log, upd at 1. unfold wp at 1, upd at 1.
  set (g := write_group _). destruct (append_core true g c Hc (close_frame_good payload)) as (Hc1 & Hf1 & Hflags).
  set (c1 := set_outgoing_data _ _) in *. apply wp_bind. destruct (m_socket_open c) eqn:Ho.
  - assert (Hq : wp D (init_write_if_necessary settings user)
              (fun _ c' => core c' /\ frame c1 c' /\ same_close c1 c') (fun _ => False) c1).
    { unfold init_write_if_necessary, init_write_if_necessary_with. apply wp_bind. unfold wp at 1, gets.
      destruct (transmitting _) eqn:Ht; [by split_and!|].
      assert (Hcur : current_of c1 = None) by (unfold transmitting in Ht; unfold current_of; by destruct (m_current_wg _)).
      eapply wp_mono; [apply (init_write_quiet 1 c1 Hc1 Hcur (inv_index _ Hc1 Hcur Ho))| |done].
      intros _ c' (? & ? & ?). by split_and!. }
    eapply wp_mono; [exact Hq| |done]. intros _ c2 (Hc2 & Hf2 & (E1 & E2 & E3 & E4)).
    apply disable_writes; [done| |by etrans]. right. exists (close_flags c). by rewrite E1, E2.
  - eapply wp_mono; [apply (safe_from D (init_write_if_necessary settings user) c c1)| |]; [|done| |done].
    + split; [done|]. right. exists (close_flags c). split_and!; try done. by right.
    + intros _ c2 [[Hc2 Hl2] Hf2]. apply disable_writes; [done|by left|done].
Qed.

Lemma sends_close_then action k : sends_close action -> Safe D k -> sends_close (action;; k).
Proof.
  intros Ha Hk c Hi Hn Hp. apply wp_bind. eapply wp_mono; [by apply Ha| |done].
  intros _ c' [Hi' Hf]. by apply safe_from.
Qed.

Lemma safe_to_peer action : sends_close action -> Safe D (to_peer_if_first action).
Proof.
  intros Ha c Hi. unfold to_peer_if_first, run_if_first. apply wp_bind. unfold wp at 1, gets.
  destruct (m_close_frame_to_peer c) eqn:Hp; [|done]. apply wp_bind. unfold wp at 1, upd.
  destruct (keeps_to_peer c Hi) as [Hi' Hf]. eapply wp_mono; [apply Ha| |]; [done| |done| |].
  - destruct (proj2 Hi) as [H|(fs & _ & _ & H & _)]; [exact H|congruence].
  - intros _ c' [? ?]. split; [done|by etrans].
  - intros c' [? ?]. split; [done|by etrans].
Qed.

#[global] Instance safe_graceful_close : Safe D (graceful_close settings user).
Proof using Hiov Huser. apply safe_to_peer, sends_close_then; [apply send_close_spec|apply _]. Qed.

(** Setting up for a close frame of the user keeps what was accepted. *)
Lemma user_close_spec c :
  inv c ->
  wp D (upd (set_close_frame_to_peer false);; upd (set_close_frame_to_user false);;
        upd (set_write_state write_disabled);; start_waiting_close_frame_only settings)
    (fun _ c' => inv c' /\ frame c c' /\ close_flags c' = close_flags c /\
                 m_close_frame_to_peer c' = false /\ m_write_state c' = write_disabled) (fun _ => False) c.
Proof.
  intros Hi.
  destruct (keeps_to_peer c Hi) as [H1 F1]. destruct (keeps_to_user _ H1) as [H2 F2].
  destruct (keeps_write_disabled _ H2) as [H3 F3]. destruct (keeps_read_state read_only_close_frame _ H3) as [H4 F4].
  destruct (keeps_close_deadline
    (fun c => Some (clock c + m_read_next_http_message_timelimit settings)) _ H4) as [H5 F5].
  split; [exact H5|]. split; [|done].
  etrans; [exact F1|]. etrans; [exact F2|]. etrans; [exact F3|]. etrans; [exact F4|exact F5].
Qed.

Lemma write_data_impl_spec wg b c :
  inv c -> good_group wg -> m_write_state c = write_enabled ->
  wp D (write_data_impl settings user wg b) (fun _ c' => inv c' /\ frame c c') (fun c' => inv c' /\ frame c c') c.
Proof using Hiov Huser.
  intros Hi Hg Hw. unfold write_data_impl. apply wp_bind. unfold wp at 1, gets.
  destruct (m_socket_open c) eqn:Ho.
  2:{ assert (Hs : Safe D match m_after_write_notificator wg with
        | Some cb => catch_all (call_notificator user cb write_was_not_executed) (ret tt) | None => ret tt end)
        by (destruct (m_after_write_notificator wg); apply _).
      by apply Hs. }
  assert (Hn : no_close (close_flags c)).
  { destruct (proj2 Hi) as [H|(fs & _ & _ & _ & [H|H])]; [exact H|congruence|congruence]. }
  assert (Hrest : forall c', inv c' -> frame c c' -> close_flags c' = close_flags c ->
      (b = true -> m_close_frame_to_peer c' = false /\ m_write_state c' = write_disabled) ->
      wp D (append b wg;; init_write_if_necessary settings user)
        (fun _ c' => inv c' /\ frame c c') (fun c' => inv c' /\ frame c c') c').
  { intros c' Hi' Hf Hfl Hb. apply wp_bind. eapply wp_mono; [apply append_spec| |done]; try done; [congruence|].
    intros _ c2 [Hi2 Hf2]. apply safe_from; [apply _|done|by etrans]. }
  apply wp_bind. destruct b; [|by apply Hrest].
  eapply wp_mono; [by apply user_close_spec| |done]. intros _ c' (? & ? & ? & ? & ?). by apply Hrest.
Qed.

Lemma safe_write_data wg b : good_group wg -> Safe D (write_data settings user wg b).
Proof using Hiov Huser.
  intros Hg c Hi. unfold write_data. apply wp_bind. unfold wp at 1, gets.
  destruct (m_write_state c) eqn:Hw; [|by apply safe_destroy_group].
  apply (wp_noexcept_catch D _ _ _ _ (fun c' => inv c' /\ frame c c')).
  eapply wp_mono; [by apply write_data_impl_spec|done|]. intros c' [? ?]. by apply safe_from; [apply _|..].
Qed.

#[global] Instance safe_shutdown : Safe D (shutdown settings user).
Proof using Hiov Huser. unfold shutdown. apply _. Qed.

#[global] Instance safe_kill : Safe D kill.
Proof. unfold kill. apply _. Qed.

#[global] Instance safe_ws_shutdown : Safe D (ws_shutdown settings user).
Proof using Hiov Huser. unfold ws_shutdown. apply _. Qed.

Lemma frame_group_good f o p cb : good_group (frame_group f o p cb).
Proof. split; [done|]. by repeat constructor. Qed.

#[global] Instance safe_ws_call o : Safe D (ws_call settings user o).
Proof using Hiov Huser.
  destruct o as [f op [p|] cb| |]; simpl; [| |apply _|unfold ws_kill; apply _]; unfold ws_send_message; [|apply _].
  apply safe_bind; [apply _|]. intros h. apply safe_if; [|apply _].
  pose proof (safe_write_data (frame_group f op p cb) (op =? connection_close_frame) (frame_group_good f op p cb)).
  apply _.
Qed.

(** *** Completed writes *)

Lemma trigger_closes s c :
  inv c ->
  wp D (trigger_error_and_close user s)
    (fun _ c' => inv c' /\ frame c c' /\ m_socket_open c' = false) (fun _ => False) c.
Proof using Huser.
  intros Hi. unfold trigger_error_and_close. apply (wp_noexcept D _ _ _ (fun _ => False)), wp_bind, wp_catch_all.
  assert (Hclose : forall c', inv c' -> frame c c' ->
     wp D close_impl (fun _ c' => inv c' /\ frame c c' /\ m_socket_open c' = false) (fun _ => False) c').
  { intros c' Hi' Hf. pose proof (safe_close_impl c' Hi') as H. revert H.
    pose proof (inv_socket _ (proj1 Hi')) as Hs. unfold close_impl, run_if_first, wp, bind, gets.
    destruct (m_close_impl c'); simpl; intros [? ?]; (split_and!; [done|by etrans|done]). }
  eapply wp_mono; [by apply (safe_call_close_handler s)| |]; cbv beta.
  - intros _ c' [? ?]. by apply Hclose.
  - intros c' [? ?]. by apply Hclose.
Qed.

Lemma after_write_spec ok c :
  inv c -> writing c = false -> current_of c <> None ->
  wp D (after_write settings user ok) (fun _ c' => inv c' /\ rframe c c') (fun c' => inv c' /\ rframe c c') c.
Proof using Hiov Huser.
  intros Hi Hw Hc. destruct ok; [by apply (handle_any 0)|]. unfold after_write. apply wp_bind.
  eapply wp_mono; [by apply trigger_closes| |done]. intros _ c' (Hi' & [Hr Hf] & Ho).
  destruct (Hf Hc) as [E1 E2]. apply wp_catch.
  eapply wp_mono; [apply fail_spec; [done| |done]| |]; cbv beta.
  - unfold settled, current_of in *. rewrite E1, E2. split_and!; [done|done|congruence].
  - intros _ c2 [? ?]. split; [done|by etrans].
  - intros c2 [? ?]. assert (rframe c c2) by by etrans. by split_and!.
Qed.

End Writing.

(** *** User code *)

(** What a run may do: meet the bound on nesting, unless the handlers make no calls,
    and end for an exception of the user's that is no std::exception. *)
Definition bounded_run `{U : UserCode} : tolerance := mk_tolerance True throws_other.
Definition plain_run `{U : UserCode} : tolerance := mk_tolerance False throws_other.

Lemma safe_user_code `{U : UserCode} settings depth ops :
  HasIov settings -> Safe bounded_run (user_code settings depth ops).
Proof.
  intros Hiov. revert ops. induction depth as [|depth IH]; intros ops.
  - destruct ops; [apply _|]. by intros c Hi.
  - cbn [user_code]. induction ops as [|o ops IHo]; simpl; [apply _|].
    assert (Hu : SafeUser bounded_run (user_code settings depth)) by by split.
    pose proof (safe_ws_call settings Hiov bounded_run (user_code settings depth) Hu o). apply _.
Qed.

(** Handlers that call nothing. *)
Class QuietUser `{UserCode} : Prop := {
  quiet_message n m : fst (on_message n m) = [];
  quiet_written n cb st : fst (on_written n cb st) = []
}.

(** Handlers that throw nothing but std::exceptions. *)
Class StdUser `{UserCode} : Prop := std_user : ~ throws_other.

Lemma safe_quiet_user `{U : UserCode, !QuietUser} settings depth D ops :
  user_calls_of ops -> Safe D (user_code settings depth ops).
Proof.
  intros [(n & m & ->)|(n & cb & st & ->)]; rewrite ?quiet_message, ?quiet_written; destruct depth; apply _.
Qed.

(** ** Reading *)

(** No read is outstanding and fewer than [k] octets are buffered. *)
Definition ready (k : nat) (c : conn) : Prop :=
  inv c /\ reading c = None /\ (length (m_buf c) < k)%nat /\ activated c = true.

Lemma ready_frame k c c' : ready k c -> inv c' -> rframe c c' -> ready k c'.
Proof.
  intros (_ & Hr & Hb & Ha) Hi Hf. split; [done|].
  by rewrite (frame_reading _ _ Hf), (frame_buf _ _ Hf), (frame_activated _ _ Hf).
Qed.

Section Reading.
Context {U : UserCode} (settings : settings_t) (Hiov : HasIov settings).
Context (D : tolerance) (user : list ws_op -> M unit) (Huser : SafeUser D user).

(** The calls that start at most one read and end before the buffer does. *)
Class Reads (k : nat) {A} (m : M A) : Prop :=
  reads c : ready k c -> wp D m (fun _ c' => inv c') inv c.

(** Assignments of the reading side. *)
Class KeepsReady (k : nat) (f : conn -> conn) : Prop := keeps_ready c : ready k c -> ready k (f c).

#[local] Instance reads_safe k {A} (m : M A) : Safe D m -> Reads k m.
Proof.
  intros Hm c (Hi & _). eapply wp_mono; [by apply Hm| |]; cbv beta; tauto.
Qed.

#[local] Instance reads_bind k {A B} (m : M A) (f : A -> M B) :
  Safe D m -> (forall a, Reads k (f a)) -> Reads k (bind m f).
Proof.
  intros Hm Hf c Hr. apply wp_bind. eapply wp_mono; [apply Hm, Hr| |]; cbv beta.
  - intros a c' [Hi Hfr]. apply Hf. eapply ready_frame; [exact Hr|done|apply Hfr].
  - tauto.
Qed.

#[local] Instance reads_upd k {A} f (m : M A) : KeepsReady k f -> Reads k m -> Reads k (upd f;; m).
Proof. intros Hf Hm c Hr. apply wp_bind. by apply Hm, Hf. Qed.

#[local] Instance reads_if k {A} (b : bool) (m n : M A) : Reads k m -> Reads k n -> Reads k (if b then m else n).
Proof. by destruct b. Qed.

Local Ltac ready_tac := intros ? ([[] ?] & ? & ? & ?); split_and!; [split; [by split|done]|done|done|done].

#[local] Instance ready_parser k f : KeepsReady k (fun c => set_parser (f c) c).
Proof. ready_tac. Qed.
#[local] Instance ready_parser' k x : KeepsReady k (set_parser x).
Proof. ready_tac. Qed.
#[local] Instance ready_payload k x : KeepsReady k (set_payload x).
Proof. ready_tac. Qed.
#[local] Instance ready_payload_fun k f : KeepsReady k (fun c => set_payload (f c) c).
Proof. ready_tac. Qed.
#[local] Instance ready_validator k x : KeepsReady k (set_protocol_validator x).
Proof. ready_tac. Qed.
#[local] Instance ready_validator_fun k f : KeepsReady k (fun c => set_protocol_validator (f c) c).
Proof. ready_tac. Qed.

(** The buffer shrinks. *)
Lemma ready_drop k k' n c :
  ready k c -> (length (m_buf c) - n < k')%nat -> ready k' (set_buf (drop n (m_buf c)) c).
Proof.
  intros ([[Hw Hi Hcur Hq Hb Ho Hs Ha] ?] & ? & ? & ?) Hn.
  split_and!; [split; [split; try done|done]|done| |done]; simpl; rewrite length_drop; lia.
Qed.

#[local] Instance ready_drop_fun k n : KeepsReady k (fun c => set_buf (drop n (m_buf c)) c).
Proof. intros c Hr. apply (ready_drop k); [done|]. destruct Hr as (_ & _ & ? & _). lia. Qed.

#[local] Instance reads_async k r : Reads k (async_read_some r).
Proof.
  intros c ([[] ?] & Hr & ? & ?). unfold async_read_some, wp, bind, gets, upd. rewrite Hr. simpl.
  split; [by split|done].
Qed.

#[local] Instance safe_handle_invalid r : Safe D (handle_invalid_payload settings user r).
Proof using Hiov Huser.
  unfold handle_invalid_payload. apply safe_bind; [apply _|]. intros rs.
  assert (H1 : forall p, Safe D (to_peer_if_first (send_close_frame_to_peer settings user p)))
    by (intros p; by apply safe_to_peer, send_close_spec).
  assert (H2 : forall p, Safe D (to_peer_if_first
    (send_close_frame_to_peer settings user p;; start_waiting_close_frame_only settings)))
    by (intros p; apply safe_to_peer, sends_close_then; [by apply send_close_spec|apply _]).
  apply safe_if; destruct rs; apply _.
Qed.

#[local] Instance safe_peer_close p : Safe D (to_peer_if_first (send_close_frame_to_peer settings user p)).
Proof using Hiov Huser. by apply safe_to_peer, send_close_spec. Qed.

Section Frame.
Context (k : nat) (restart : M unit) (Hrestart : Reads k restart).

#[local] Instance reads_call_handler : Reads k (call_handler_on_current_message settings user restart).
Proof using Hiov Huser Hrestart.
  assert (Hp : Safe D (to_peer_if_first (do payload <- gets m_payload; send_close_frame_to_peer settings user payload))).
  { apply safe_to_peer. intros c Hi Hn Ht. by apply wp_bind, send_close_spec. }
  unfold call_handler_on_current_message. apply reads_bind; [apply _|]. intros md.
  apply reads_bind; [apply _|]. intros v. destruct (WsValidator.finish_frame v) as [v' r].
  apply reads_upd; [apply _|]. apply reads_if; [|apply _]. apply reads_bind; [apply _|]. intros rs.
  destruct rs; [|apply _|apply _]. apply reads_bind; [apply _|]. intros _.
  apply reads_bind; [apply _|]. intros payload. apply reads_upd; [apply _|].
  apply reads_bind; [apply _|]. intros _. apply reads_bind; [apply _|]. intros []; apply _.
Qed.

(** A valid part leaves everything ready for what follows. *)
Lemma validate_spec offset n next c :
  ready k c ->
  wp D (validate_payload_part settings user restart offset n next)
    (fun b c' => if b then ready k c' else inv c') inv c.
Proof using Hiov Huser Hrestart.
  intros Hr. unfold validate_payload_part. apply wp_bind. unfold wp at 1, gets.
  apply wp_bind. unfold wp at 1, gets. apply wp_bind.
  destruct (WsValidator.process_and_unmask_next_payload_part _ _) as [[[v r] out]|]; [|apply Hr].
  unfold wp at 1, lift, ret. apply wp_bind. unfold wp at 1, upd. apply wp_bind. unfold wp at 1.
  match goal with |- wp _ _ _ _ ?x => set (c1 := x) end.
  assert (H1 : ready k c1) by (by apply (ready_payload k), (ready_validator k)).
  destruct (bool_decide _); [done|].
  assert (Hrest : Reads k
    (if bool_decide (r = WsValidator.incorrect_utf8_data) then
       upd (fun c => set_protocol_validator (WsValidator.reset (m_protocol_validator c)) c);;
       match next with O => restart | _ => start_read_payload (offset + n) next false end
     else ret tt)).
  { unfold start_read_payload. destruct next; apply _. }
  apply wp_bind. eapply wp_mono; [by apply (safe_after D (handle_invalid_payload settings user r) c1); [apply H1|]| |]; cbv beta.
  - intros _ c2 [Hi2 Hf2]. apply wp_bind.
    eapply wp_mono; [apply Hrest, (ready_frame k c1); done|by intros|by intros].
  - by intros c2 [Hi2 _].
Qed.

#[local] Instance reads_validate offset n next next_step :
  Reads k next_step ->
  Reads k (do valid <- validate_payload_part settings user restart offset n next; if valid then next_step else ret tt).
Proof using Hiov Huser Hrestart.
  intros Hn c Hr. apply wp_bind. eapply wp_mono; [by apply validate_spec| |done].
  intros [] c' H; [by apply Hn|exact H].
Qed.

#[local] Instance reads_valid_header md : Reads k (handle_parsed_and_valid_header settings user restart md).
Proof using Hiov Huser Hrestart.
  unfold handle_parsed_and_valid_header. apply reads_if; [apply _|]. apply reads_upd; [apply _|].
  destruct (Z.to_nat (WsParser.payload_len md)) as [|n]; [apply _|]. apply reads_bind; [apply _|]. intros buf.
  do 2 (apply reads_upd; [apply _|]). apply reads_validate. unfold start_read_payload.
  destruct (S n - _)%nat; apply _.
Qed.

#[local] Instance reads_header md : Reads k (handle_parsed_header settings user restart md).
Proof using Hiov Huser Hrestart.
  unfold handle_parsed_header. apply reads_bind; [apply _|]. intros v. apply reads_bind; [apply _|]. intros [v' r].
  apply reads_upd; [apply _|]. apply reads_if; [apply _|]. apply reads_bind; [apply _|]. intros []; apply _.
Qed.

#[local] Instance reads_after_header data :
  Reads k (do p <- gets m_parser;
           do (p, nparsed) <- lift (WsParser.parser_execute data p);
           upd (set_parser p);;
           upd (fun c => set_buf (drop (Z.to_nat nparsed) (m_buf c)) c);;
           if WsParser.header_parsed p then handle_parsed_header settings user restart (WsParser.current_message p)
           else consume_header_from_socket).
Proof using Hiov Huser Hrestart.
  apply reads_bind; [apply _|]. intros p. apply reads_bind; [apply _|]. intros [p' n]. unfold consume_header_from_socket.
  do 2 (apply reads_upd; [apply _|]). apply reads_if; apply _.
Qed.

#[local] Instance reads_after_payload offset n data validate :
  Reads k (after_read_payload settings user restart offset n data validate).
Proof using Hiov Huser Hrestart.
  unfold after_read_payload, start_read_payload. destruct data as [data|]; [|unfold handle_read_error; apply _].
  apply reads_upd; [apply _|]. apply reads_if; [|destruct (n - _)%nat; apply _].
  apply reads_validate. destruct (n - _)%nat; apply _.
Qed.


End Frame.

(** A header parser started anew takes at least one octet. *)
Lemma parse_progress p data q n :
  data <> [] -> WsParser.parser_execute data (WsParser.reset p) = Ok (q, n) -> (1 <= Z.to_nat n)%nat.
Proof.
  intros Hd He. pose proof (WsParser.execute_initial data) as H.
  change (WsParser.reset p) with WsParser.initial_parser in He.
  destruct (WsParser.decode_header data) as [[m l]|] eqn:E; simpl in H.
  - destruct H as [d H]. rewrite He in H. injection H as _ ->. unfold WsParser.decode_header in E.
    destruct data as [|b0 [|b1 t]]; try done. destruct (decide _); [|done]. injection E as _ <-.
    unfold WsParser.ext_size. lia.
  - destruct H as (p' & H & _). rewrite He in H. injection H as _ ->. unfold WsParser.size.
    destruct data; [done|]. simpl. lia.
Qed.

Lemma start_read_header_spec rounds : Reads rounds (start_read_header settings user rounds).
Proof using Hiov Huser.
  induction rounds as [|rounds IH]; intros c Hr; [destruct Hr as (_ & _ & ? & _); lia|].
  cbn [start_read_header]. unfold start_read_header_with. apply wp_bind. unfold wp at 1, upd. apply wp_bind. unfold wp at 1.
  match goal with |- wp _ _ _ _ ?x => set (c1 := x) end.
  assert (H1 : ready (S rounds) c1) by (by apply (ready_payload (S rounds)), (ready_parser' (S rounds))).
  apply wp_bind. unfold wp at 1, gets. change (m_buf c1) with (m_buf c).
  destruct (m_buf c) as [|x buf] eqn:Eb.
  { by apply (reads_async (S rounds)). }
  unfold consume_header_from_buffer. apply wp_bind. unfold wp at 1, gets. apply wp_bind.
  destruct (WsParser.parser_execute _ _) as [[q n]|] eqn:Ep; [|apply H1].
  assert (Hn : (1 <= Z.to_nat n)%nat) by (by apply (parse_progress (m_parser c) (x :: buf) q n)).
  unfold wp at 1, lift, ret. apply wp_bind. unfold wp at 1, upd. apply wp_bind. unfold wp at 1.
  assert (H2 : ready rounds (set_buf (drop (Z.to_nat n) (m_buf (set_parser q c1))) (set_parser q c1))).
  { apply (ready_drop (S rounds)); [by apply (ready_parser' (S rounds))|].
    destruct H1 as (_ & _ & Hl & _). change (m_buf (set_parser q c1)) with (m_buf c).
    change (m_buf c1) with (m_buf c) in Hl. rewrite Eb in *. simpl in *. lia. }
  revert H2. generalize (set_buf (drop (Z.to_nat n) (m_buf (set_parser q c1))) (set_parser q c1)). intros c2 H2.
  destruct (WsParser.header_parsed q); [exact (reads_header rounds _ IH _ c2 H2)|exact (reads_async rounds _ c2 H2)].
Qed.

(** ** Steps *)

Lemma caught_spec m s c :
  wp D m (fun _ => inv) inv c -> wp D (noexcept (catch m (trigger_error_and_close user s))) (fun _ => inv) (fun _ => False) c.
Proof using Huser.
  intros Hm. apply (wp_noexcept_catch D _ _ _ _ (fun _ => False)). eapply wp_mono; [exact Hm|done|]. intros c' Hi.
  eapply wp_mono; [by apply trigger_closes| |done]. by intros _ c2 (? & _).
Qed.

Lemma safe_inv (m : M unit) c : Safe D m -> inv c -> wp D m (fun _ => inv) inv c.
Proof. intros Hm Hi. eapply wp_mono; [by apply Hm| |]; cbv beta; tauto. Qed.

Lemma swallowed_spec m c :
  wp D m (fun _ => inv) inv c -> wp D (catch_all m (ret tt)) (fun _ => inv) (fun _ => False) c.
Proof. intros Hm. apply wp_catch_all. eapply wp_mono; [exact Hm|done|done]. Qed.

Lemma init_read_spec c :
  inv c -> activated c = false -> wp D (init_read settings user) (fun _ => inv) (fun _ => False) c.
Proof using Hiov Huser.
  intros Hi Ha. unfold init_read. apply caught_spec. unfold init_next_timeout_checking.
  apply wp_bind. unfold wp at 1, upd. apply wp_bind. unfold wp at 1. apply wp_bind. unfold wp at 1.
  apply start_read_header_spec. destruct Hi as [[] Hl]. split_and!; [split; [by split|done]| |simpl in *; unfold read_rounds, websocket_header_max_size; lia|done].
  simpl. destruct (reading c) eqn:E; [|done]. rewrite inv_activated0 in Ha by congruence. done.
Qed.

Lemma after_read_header_spec data c :
  ready 15 c -> (forall d, data = Some d -> length d <= 14)%nat ->
  wp D (after_read_header settings user (start_read_header settings user read_rounds) data) (fun _ => inv) inv c.
Proof using Hiov Huser.
  intros Hr Hd. destruct data as [d|]; simpl; [|apply safe_inv; [unfold handle_read_error; apply _|apply Hr]].
  apply wp_bind. unfold wp at 1, upd.
  apply (reads_after_header read_rounds); [apply start_read_header_spec|].
  specialize (Hd d eq_refl). destruct Hr as ([[] Hl] & ? & ? & ?).
  split_and!; [split; [by split|done]|done| |done]. simpl. unfold read_rounds, websocket_header_max_size. lia.
Qed.

Lemma check_timeout_spec c : inv c -> wp D (check_timeout_impl user) (fun _ => inv) inv c.
Proof using Huser. intros Hi. apply safe_inv; [|done]. unfold check_timeout_impl, init_next_timeout_checking. apply _. Qed.

End Reading.

Section Steps.
Context {U : UserCode} (settings : settings_t) (Hiov : HasIov settings).
Context (D : tolerance) (depth : nat) (Huser : SafeUser D (user_code settings depth)).

(** How a step ends. *)
Definition good_end (r : res unit) : Prop :=
  match r with
  | Ret _ c => inv c
  | Raise _ | RaiseOther _ | Undef => False
  | Terminate => may_throw_other D
  | Deep => may_exceed D
  end.

Lemma good_end_wp m c : wp D m (fun _ => inv) (fun _ => False) c -> good_end (m c).
Proof. unfold wp, good_end. destruct (m c); naive_solver. Qed.

Lemma completed_spec r data c :
  inv c -> reading c = Some r -> fits r data = true -> good_end (completed settings r data depth c).
Proof using Hiov Huser.
  intros Hi Hr Hf. unfold completed.
  apply good_end_wp, wp_bind. unfold wp at 1, upd.
  assert (Hready : ready read_rounds (set_reading None c)).
  { destruct Hi as [[] Hl]. split_and!; [split; [by split|done]|done| |].
    - simpl. unfold read_rounds, websocket_header_max_size. lia.
    - apply inv_activated0. congruence. }
  apply (caught_spec D (user_code settings depth) Huser). destruct r as [|offset n validate].
  - apply (after_read_header_spec settings Hiov D _ Huser); [exact Hready|]. intros d ->.
    unfold fits in Hf. apply andb_prop in Hf as [_ Hf]. by apply Nat.leb_le.
  - apply (reads_after_payload settings Hiov D _ Huser read_rounds _ (start_read_header_spec settings Hiov D _ Huser read_rounds) _ _ _ _ _ Hready).
Qed.

Lemma step_spec e c r : inv c -> step settings depth e c = Some r -> good_end r.
Proof using Hiov Huser.
  intros Hi. destruct e as [|o| |data|ok|now]; simpl.
  - destruct (activated c) eqn:Ha; [done|]. destruct (ws_alive c); [|done]. intros [= <-].
    by apply good_end_wp, (init_read_spec settings Hiov D _ Huser).
  - destruct (ws_alive c); [|done]. intros [= <-]. apply good_end_wp, (swallowed_spec D), safe_inv; [apply _|done].
  - destruct (ws_alive c); [|done]. intros [= <-].
    apply good_end_wp, wp_bind. unfold wp at 1, upd. apply swallowed_spec, safe_inv; [apply _|]. by apply keeps_alive.
  - destruct (reading c) as [r'|] eqn:Hr; [|done]. destruct (fits r' data) eqn:Hf; [|done]. intros [= <-].
    by apply completed_spec.
  - destruct (writing c) eqn:Hw; [|done]. intros [= <-].
    apply good_end_wp, wp_bind. unfold wp at 1, upd. apply (caught_spec D (user_code settings depth) Huser).
    pose proof (inv_writing _ (proj1 Hi) Hw) as Hc.
    eapply wp_mono; [apply (after_write_spec settings Hiov D _ Huser)| |]; [|done|exact Hc| |]; cbv beta; [|tauto|tauto].
    destruct Hi as [[] Hl]. split; [by split|done].
  - destruct (timer c && (clock c <=? now)); [|done]. intros [= <-].
    apply good_end_wp, wp_bind. unfold wp at 1, upd. apply wp_bind. unfold wp at 1.
    apply (caught_spec D (user_code settings depth) Huser), (check_timeout_spec D _ Huser).
    by apply keeps_clock, keeps_timer.
Qed.

Lemma upgraded_spec response now : good_end (upgraded settings depth response now).
Proof using Hiov Huser.
  assert (Hi : inv (new_conn now)).
  { split; [split; simpl; try done; lia|by left; constructor]. }
  unfold upgraded. apply good_end_wp. unfold write_data. apply wp_bind. unfold wp at 1, gets. cbn [m_write_state new_conn].
  apply (caught_spec D (user_code settings depth) Huser).
  eapply wp_mono; [apply (write_data_impl_spec settings Hiov D _ Huser)| |]; [done| |done| |]; cbv beta; [|tauto|tauto].
  split; [done|]. by repeat constructor.
Qed.

Lemma reachable_inv response now c : reachable settings depth response now c -> inv c.
Proof using Hiov Huser.
  induction 1 as [c Hc|e c c' _ IH Hs].
  - pose proof (upgraded_spec response now) as H. by rewrite Hc in H.
  - by pose proof (step_spec e c _ IH Hs).
Qed.

End Steps.

#[global] Instance safe_user_any `{U : UserCode} settings depth : HasIov settings -> SafeUser bounded_run (user_code settings depth).
Proof. intros Hiov. split; [|done]. intros ops _. by apply safe_user_code. Qed.

#[global] Instance safe_user_quiet `{U : UserCode, !QuietUser} settings depth : SafeUser plain_run (user_code settings depth).
Proof. split; [|done]. intros ops. apply safe_quiet_user. Qed.

(** ** The theorems *)

(** The octets waiting to be written. *)
Definition waiting_bytes (c : conn) : list byte :=
  concat (rest_bufs (m_write_output_ctx c) ++ flat_map group_bufs (m_outgoing_data c)).

(** C12. On every reachable connection, whatever the peer sent and whatever the
    handlers called: as long as the socket is open, the octets handed to the
    socket followed by the octets waiting are exactly the octets of the groups
    accepted for writing, in the order in which they were accepted. *)
Theorem ws_bytes_in_order `{U : UserCode} (settings : settings_t) (depth : nat) (response : list byte)
    (now : Z) (c : conn) :
  (0 < asio_max_iov_len settings)%nat -> reachable settings depth response now c -> m_socket_open c = true ->
  concat (started_bufs (trace c)) ++ waiting_bytes c
  = flat_map (fun q => group_bytes (snd q)) (queued_groups (trace c)).
Proof.
  intros Hiov Hr Ho. pose proof (reachable_inv settings Hiov bounded_run depth (safe_user_any settings depth Hiov) response now c Hr) as [Hc _].
  unfold waiting_bytes. rewrite <- concat_app, (inv_order _ Hc Ho).
  induction (queued_groups (trace c)) as [|q l IH]; [done|]. simpl. rewrite concat_app, IH. f_equal.
  unfold group_bufs, group_bytes. symmetry. apply flat_map_concat_map.
Qed.

(** C13. At most one close frame is accepted for writing on a connection, be it the
    user's or the library's, and nothing is accepted after it. *)
Theorem ws_nothing_after_close `{U : UserCode} (settings : settings_t) (depth : nat) (response : list byte)
    (now : Z) (c : conn) :
  (0 < asio_max_iov_len settings)%nat -> reachable settings depth response now c ->
  exists before after, close_flags c = replicate before false ++ after /\ (after = [] \/ after = [true]).
Proof.
  intros Hiov Hr. pose proof (reachable_inv settings Hiov bounded_run depth (safe_user_any settings depth Hiov) response now c Hr) as [_ Hl].
  assert (Hrep : forall fs, no_close fs -> fs = replicate (length fs) false).
  { induction 1 as [|b fs -> _ IH]; [done|]. simpl. by rewrite <- IH. }
  destruct Hl as [H|(fs & H & Hn & _)].
  - exists (length (close_flags c)), []. rewrite app_nil_r. split; [by apply Hrep|by left].
  - exists (length fs), [true]. rewrite <- (Hrep fs Hn). by split; [|right].
Qed.

(** C14. No step of a reachable connection starts a read or a write while another is
    outstanding, touches an empty write context or lets an exception escape from
    the strand: it returns, or, when a call of the user's code throws something that
    is no std::exception, it may end the program.  When the handlers make no calls of
    their own, every step that can happen is completed within the bounds of the
    model's loops. *)
Theorem ws_steps_defined `{U : UserCode} (settings : settings_t) (depth : nat) (response : list byte)
    (now : Z) (c : conn) (e : strand_event) (r : res unit) :
  (0 < asio_max_iov_len settings)%nat -> reachable settings depth response now c ->
  step settings depth e c = Some r ->
  ((exists c', r = Ret tt c') \/ (r = Terminate /\ throws_other) \/ r = Deep) /\ (QuietUser -> r <> Deep).
Proof.
  intros Hiov Hr Hs. pose proof (reachable_inv settings Hiov bounded_run depth (safe_user_any settings depth Hiov) response now c Hr) as Hi.
  split.
  - pose proof (step_spec settings Hiov bounded_run depth (safe_user_any settings depth Hiov) e c r Hi Hs) as Hg.
    destruct r as [[] c'|c'|c'| | |]; try done; [left; by exists c'|by right; left|by right; right].
  - intros Hq ->. exact (step_spec settings Hiov plain_run depth (safe_user_quiet settings depth) e c Deep Hi Hs).
Qed.

(** ** Witnesses *)

(** A handler that only records. *)
#[global] Instance recorder : UserCode := {| on_message _ _ := ([], None); on_written _ _ _ := ([], None) |}.
#[global] Instance recorder_quiet : QuietUser.
Proof. by split. Qed.
#[global] Instance recorder_std : StdUser.
Proof. intros [(n & m & E)|(n & cb & st & E)]; discriminate E. Qed.

Definition witness_settings : settings_t := mk_settings 10 10 1024 (2 ^ 62).

(** A handler that answers every message with itself. *)
Definition echo : UserCode :=
  {| on_message n m := ([op_send_message (msg_final_flag m) (msg_opcode m)
                           (trivial_write_operation (msg_payload m)) (Some (Z.of_nat n))], None);
     on_written _ _ _ := ([], None) |}.

(** A connection with [echo] that has received a ping, a close frame, and the end
    of the stream. *)
Definition echo_events : list strand_event :=
  [ev_activate; ev_read (Some [x89; x81; x00; x00; x00; x00; x61]); ev_write true;
   ev_read (Some [x88; x82; x00; x00; x00; x00; x03; xe8])].

Fixpoint run_from {U : UserCode} (es : list strand_event) (c : conn) : option conn :=
  match es with
  | [] => Some c
  | e :: es => match step witness_settings 3 e c with Some (Ret tt c) => run_from es c | _ => None end
  end.

Lemma run_from_reachable {U : UserCode} response now es c c' :
  reachable witness_settings 3 response now c -> run_from es c = Some c' -> reachable witness_settings 3 response now c'.
Proof.
  revert c. induction es as [|e es IH]; intros c Hr; simpl; [by intros [= <-]|].
  destruct (step witness_settings 3 e c) as [[[] c1| | | | |]|] eqn:E; try done. apply IH. by eapply reach_step.
Qed.

Definition echo_run {U : UserCode} : conn :=
  match upgraded witness_settings 3 (bs "101") 0 with
  | Ret _ c => match run_from echo_events c with Some c => c | None => c end
  | _ => new_conn 0
  end.

Lemma echo_run_reachable {U : UserCode} :
  is_Some (match upgraded witness_settings 3 (bs "101") 0 with Ret _ c => run_from echo_events c | _ => None end) ->
  reachable witness_settings 3 (bs "101") 0 echo_run.
Proof.
  unfold echo_run. destruct (upgraded witness_settings 3 (bs "101") 0) as [[] c| | | | |] eqn:E; try by intros [? ?].
  destruct (run_from echo_events c) as [c'|] eqn:E'; [|by intros [? ?]]. intros _.
  eapply run_from_reachable; [by apply reach_start|done].
Qed.

Lemma ws_bytes_in_order_witness :
  concat (started_bufs (trace (@echo_run echo))) ++ waiting_bytes (@echo_run echo)
  = bs "101" ++ [x89; x01; x61] ++ [x88; x02; x03; xe8].
Proof.
  rewrite (@ws_bytes_in_order echo witness_settings 3 (bs "101") 0 (@echo_run echo)).
  - vm_compute. reflexivity.
  - simpl. lia.
  - apply (@echo_run_reachable echo). vm_compute. by eexists.
  - vm_compute. reflexivity.
Defined.

Lemma ws_nothing_after_close_witness :
  close_flags (@echo_run echo) = [false; false; true] /\
  exists before after, close_flags (@echo_run echo) = replicate before false ++ after /\ (after = [] \/ after = [true]).
Proof.
  split; [vm_compute; reflexivity|].
  apply (@ws_nothing_after_close echo witness_settings 3 (bs "101") 0 (@echo_run echo)).
  - simpl. lia.
  - apply (@echo_run_reachable echo). vm_compute. by eexists.
Defined.

Lemma ws_steps_defined_witness :
  exists r, step witness_settings 3 (ev_write true) (@echo_run recorder) = Some r /\ r <> Deep.
Proof.
  destruct (step witness_settings 3 (ev_write true) (@echo_run recorder)) as [r|] eqn:E.
  - destruct (@ws_steps_defined recorder witness_settings 3 (bs "101") 0 (@echo_run recorder) (ev_write true) r)
      as [_ H]; [simpl; lia| |exact E|].
    + apply (@echo_run_reachable recorder). vm_compute. by eexists.
    + exists r. exact (conj eq_refl (H recorder_quiet)).
  - vm_compute in E. discriminate.
Defined.

(** A handler that throws: the connection goes on after a std::exception, and the
    program ends for anything else. *)
Definition thrower (x : exn) : UserCode := {| on_message _ _ := ([], Some x); on_written _ _ _ := ([], None) |}.

Definition first_message : strand_event := ev_read (Some [x81; x81; x00; x00; x00; x00; x61]).

Theorem message_exception_ends_program :
  (exists c, upgraded (U := thrower std_exception) witness_settings 3 (bs "101") 0 = Ret tt c /\
     exists c', run_from (U := thrower std_exception) [ev_activate; first_message] c = Some c' /\
       m_socket_open c' = true /\ reading c' = Some read_header) /\
  (exists c, upgraded (U := thrower other_exception) witness_settings 3 (bs "101") 0 = Ret tt c /\
     exists c', run_from (U := thrower other_exception) [ev_activate] c = Some c' /\
       step (U := thrower other_exception) witness_settings 3 first_message c' = Some Terminate).
Proof.
  split; (eexists; split; [vm_compute; reflexivity|]); (eexists; split; [vm_compute; reflexivity|]).
  - split; vm_compute; reflexivity.
  - vm_compute. reflexivity.
Qed.

End WsSafety.
