(* ===== verification/WsDelivery.v ===== *)
(** * Delivery of WebSocket messages

    From the octets of the peer to the calls of the user's handler, through the
    header parser, the validator and the connection: however the stream is cut
    into reads, every frame is delivered once, in order and unmasked.  Two runs in
    which the connection misbehaves close the file. *)

From S2P Require Import Prelude Bitops Utf8Checker WsParser WsValidator Coordinator OutputCtx WsConnection WsSafety.

Module WsDelivery.
Import Message Buffers OutputCtx WsConnection WsSafety.
Import WsParser(message_details_t, write_message_details, payload_len, parser_execute, header_parsed,
  current_message, initial_parser, decode_header, wire_ok, mask_unmask_payload).
Import WsValidator(ws_protocol_validator_t, frame_header_is_valid, payload_part_is_valid, frame_is_valid,
  process_new_frame, process_and_unmask_next_payload_part, finish_frame, is_state_still_valid,
  set_validation_state).

(** ** Frames *)

(** A frame as it is sent: its header and its masked payload. *)
Record in_frame := mk_in_frame {
  in_details : message_details_t;
  in_payload : list byte
}.

Definition wire (f : in_frame) : list byte := write_message_details (in_details f) ++ in_payload f.

(** The message a handler is to be given. *)
Definition delivered (f : in_frame) : message_t :=
  mk_message (final_flag_of (in_details f)) (WsParser.m_opcode (in_details f))
    (mask_unmask_payload (WsParser.m_masking_key (in_details f)) (in_payload f)).

Definition in_ok (settings : settings_t) (f : in_frame) : Prop :=
  wire_ok (in_details f) /\ payload_len (in_details f) = Z.of_nat (length (in_payload f)) /\
  payload_len (in_details f) <= string_max_size settings /\
  WsParser.m_opcode (in_details f) <> connection_close_frame.

(** The validator's verdict on frames, one after the other. *)
Definition accept_frame (f : in_frame) (v : ws_protocol_validator_t) : option ws_protocol_validator_t :=
  match process_new_frame (in_details f) v with
  | Ok (x, frame_header_is_valid) =>
      match process_and_unmask_next_payload_part (in_payload f) x with
      | Ok (y, payload_part_is_valid, _) =>
          match finish_frame y with (w, frame_is_valid) => Some w | _ => None end
      | _ => None
      end
  | _ => None
  end.

Fixpoint accept_all (fs : list in_frame) (v : ws_protocol_validator_t) : option ws_protocol_validator_t :=
  match fs with [] => Some v | f :: fs => w ← accept_frame f v; accept_all fs w end.

Lemma accept_frame_inv f v w :
  accept_frame f v = Some w ->
  exists x y out, process_new_frame (in_details f) v = Ok (x, frame_header_is_valid) /\
    process_and_unmask_next_payload_part (in_payload f) x = Ok (y, payload_part_is_valid, out) /\
    finish_frame y = (w, frame_is_valid).
Proof.
  unfold accept_frame. destruct (process_new_frame _ _) as [[x []]|] eqn:E1; try done.
  destruct (process_and_unmask_next_payload_part _ _) as [[[y []] out]|] eqn:E2; try done.
  destruct (finish_frame y) as [w' []] eqn:E3; try done. intros [= ->]. by exists x, y, out.
Qed.

(** *** Payload in parts *)

Lemma part_valid_state data u y out :
  process_and_unmask_next_payload_part data u = Ok (y, payload_part_is_valid, out) ->
  is_state_still_valid u = true /\ WsValidator.m_working_state u = WsValidator.processing_frame.
Proof.
  unfold process_and_unmask_next_payload_part. destruct (WsValidator.m_working_state u) eqn:E; [done|].
  rewrite bool_decide_eq_false_2 by done. destruct (is_state_still_valid u) eqn:Ev; [done|].
  intros [= -> Hs _]. unfold is_state_still_valid in Ev. by rewrite Hs in Ev.
Qed.

(** A valid payload is valid in two parts. *)
Lemma parts_valid a b u y out :
  process_and_unmask_next_payload_part (a ++ b) u = Ok (y, payload_part_is_valid, out) ->
  exists x oa ob, process_and_unmask_next_payload_part a u = Ok (x, payload_part_is_valid, oa) /\
    process_and_unmask_next_payload_part b x = Ok (y, payload_part_is_valid, ob) /\ out = oa ++ ob.
Proof.
  intros H. destruct (part_valid_state _ _ _ _ H) as [_ Hw].
  destruct (WsValidator.payload_parts_compose a b u Hw) as [_ Hc]. rewrite H in Hc.
  destruct (process_and_unmask_next_payload_part a u) as [[[x s] oa]|]; [|done].
  case_bool_decide as Hs; [subst s|by injection Hc; intros; subst].
  destruct (process_and_unmask_next_payload_part b x) as [[[y' s'] ob]|] eqn:Eb; [|done].
  injection Hc as <- <- ->. by exists x, oa, ob.
Qed.

Lemma part_length a u y s out :
  process_and_unmask_next_payload_part a u = Ok (y, s, out) -> length out = length a.
Proof.
  unfold process_and_unmask_next_payload_part. destruct (bool_decide _); [done|].
  destruct (is_state_still_valid u); [|by intros [= _ _ <-]].
  assert (Hl : forall data v w o, WsValidator.payload_loop data v = Ok (w, o) -> length o = length data).
  { induction data as [|b data IH]; intros v w o; simpl; [by intros [= _ <-]|].
    destruct (WsValidator.process_payload_byte b v) as [[v' b']|]; [|done].
    destruct (bool_decide _); [by intros [= _ <-]|].
    destruct (WsValidator.payload_loop data v') as [[w' o']|] eqn:E; [|done]. intros [= _ <-]. simpl. f_equal. eauto. }
  destruct (WsValidator.payload_loop a _) as [[w o]|] eqn:E; [|done]. intros [= _ _ <-]. eauto.
Qed.

(** An empty part changes nothing that [finish_frame] reads. *)
Lemma finish_empty_part u y out :
  process_and_unmask_next_payload_part [] u = Ok (y, payload_part_is_valid, out) ->
  finish_frame y = finish_frame u /\ out = [].
Proof.
  intros H. destruct (part_valid_state _ _ _ _ H) as [Hv Hw]. revert H.
  unfold process_and_unmask_next_payload_part. rewrite Hw, bool_decide_eq_false_2, Hv by done. simpl.
  intros [= <- <-]. split; [|done]. unfold finish_frame. rewrite Hv. by destruct u.
Qed.

(** Frames leave the unmasking on. *)
Lemma accept_unmask f v w :
  accept_frame f v = Some w -> WsValidator.m_unmask_flag v = true -> WsValidator.m_unmask_flag w = true.
Proof.
  intros H Hv. destruct (accept_frame_inv f v w H) as (x & y & out & H1 & H2 & H3).
  destruct (WsValidator.new_frame_accepted _ _ _ Hv H1) as (Hx & _).
  assert (Hy : WsValidator.m_unmask_flag y = true).
  { destruct (part_valid_state _ _ _ _ H2) as [Hsv Hw]. revert H2. unfold process_and_unmask_next_payload_part.
    rewrite Hw, bool_decide_eq_false_2, Hsv by done.
    destruct (WsValidator.payload_loop_total (in_payload f) (set_validation_state payload_part_is_valid x))
      as (y' & o & -> & _ & _ & _ & E & _). intros [= <- _ _]. by rewrite E. }
  revert H3. unfold finish_frame. intros [= <- _].
  by repeat case_match.
Qed.

Section Delivery.
Context {U : UserCode} {Q : QuietUser} {Hstd : StdUser} (settings : settings_t) (depth : nat).
(** The validator behind the last frame. *)
Context (vend : ws_protocol_validator_t).

Local Abbreviation user := (user_code settings depth).

(** ** The simulation *)

Definition side (c : conn) : Prop :=
  m_read_state c = read_any_frame /\ activated c = true /\ ws_alive c = true.

(** Validator [u] and payload buffer [pl] after [o] octets of the payload of [f]. *)
Definition pays (f : in_frame) (fs : list in_frame) (o : nat) (u : ws_protocol_validator_t) (pl : list byte) : Prop :=
  exists y w out out',
    process_and_unmask_next_payload_part (drop o (in_payload f)) u = Ok (y, payload_part_is_valid, out') /\
    finish_frame y = (w, frame_is_valid) /\ accept_all fs w = Some vend /\
    WsValidator.m_unmask_flag w = true /\
    out ++ out' = mask_unmask_payload (WsParser.m_masking_key (in_details f)) (in_payload f) /\
    length out = o /\ pl = out ++ replicate (length (in_payload f) - o) x00.

(** Between frames, with octets in the buffer and [s] to come. *)
Definition fresh (fs : list in_frame) (s : list byte) (c : conn) : Prop :=
  side c /\ reading c = None /\ accept_all fs (m_protocol_validator c) = Some vend /\
  WsValidator.m_unmask_flag (m_protocol_validator c) = true /\ Forall (in_ok settings) fs /\
  m_buf c ++ s = flat_map wire fs.

(** Waiting for more of a header, or of a payload. *)
Definition mid_header (fs : list in_frame) (s : list byte) (c : conn) : Prop :=
  reading c = Some read_header /\ accept_all fs (m_protocol_validator c) = Some vend /\
  WsValidator.m_unmask_flag (m_protocol_validator c) = true /\ Forall (in_ok settings) fs /\
  exists h, h ++ s = flat_map wire fs /\
    parser_execute h initial_parser = Ok (m_parser c, WsParser.size h) /\ header_parsed (m_parser c) = false.

Definition mid_payload (fs : list in_frame) (s : list byte) (c : conn) : Prop :=
  exists f fs' o, fs = f :: fs' /\ (o < length (in_payload f))%nat /\
    reading c = Some (read_payload o (length (in_payload f) - o) true) /\
    current_message (m_parser c) = in_details f /\ Forall (in_ok settings) fs /\
    pays f fs' o (m_protocol_validator c) (m_payload c) /\ s = drop o (in_payload f) ++ flat_map wire fs'.

Definition mid (fs : list in_frame) (s : list byte) (c : conn) : Prop :=
  side c /\ m_buf c = [] /\ (mid_header fs s c \/ mid_payload fs s c).

(** [m] delivers a first part of [fs] and then waits for [s]. *)
Definition runs (m : M unit) (fs : list in_frame) (s : list byte) (c : conn) : Prop :=
  exists fs1 fs2 c', fs = fs1 ++ fs2 /\ m c = Ret tt c' /\
    trace c' = trace c ++ map (fun f => to_user (delivered f)) fs1 /\ mid fs2 s c'.

(** A way to go on after a frame. *)
Definition resumes (k : nat) (restart : M unit) : Prop :=
  forall fs s c, fresh fs s c -> (length (m_buf c) < k)%nat -> runs restart fs s c.

(** *** Parts of a payload *)

Lemma pays_step f fs o n u pl :
  pays f fs o u pl -> (o + n <= length (in_payload f))%nat ->
  exists x oa, process_and_unmask_next_payload_part (take n (drop o (in_payload f))) u
      = Ok (x, payload_part_is_valid, oa) /\
    pays f fs (o + n) x (take o pl ++ oa ++ drop (o + n) pl).
Proof.
  intros (y & w & out & out' & H1 & H2 & H3 & H4 & H5 & H6 & H7) Hn.
  rewrite <- (take_drop n (drop o (in_payload f))) in H1.
  destruct (parts_valid _ _ _ _ _ H1) as (x & oa & ob & Ha & Hb & ->). exists x, oa. split; [done|].
  pose proof (part_length _ _ _ _ _ Ha) as Hl. rewrite length_take, length_drop in Hl.
  rewrite drop_drop in Hb. exists y, w, (out ++ oa), ob. split_and!; try done.
  - by rewrite <- app_assoc.
  - rewrite length_app. lia.
  - subst pl. rewrite take_app_length' by done. rewrite <- app_assoc. do 2 f_equal.
    rewrite drop_app_ge, drop_replicate by lia. f_equal. lia.
Qed.

Lemma pays_done f fs u pl :
  pays f fs (length (in_payload f)) u pl ->
  exists w, finish_frame u = (w, frame_is_valid) /\ accept_all fs w = Some vend /\
    WsValidator.m_unmask_flag w = true /\
    pl = mask_unmask_payload (WsParser.m_masking_key (in_details f)) (in_payload f).
Proof.
  intros (y & w & out & out' & H1 & H2 & H3 & H4 & H5 & H6 & H7). rewrite drop_ge in H1 by lia.
  destruct (finish_empty_part u y out' H1) as [Hf ->]. exists w. rewrite <- Hf. split_and!; try done.
  subst pl. rewrite Nat.sub_diag. simpl. by rewrite <- H5.
Qed.

(** What validation does to a part that has just arrived. *)
Lemma validate_valid restart f fs o n next pl c :
  pays f fs o (m_protocol_validator c) pl -> (o + n <= length (in_payload f))%nat ->
  m_payload c = take o pl ++ take n (drop o (in_payload f)) ++ drop (o + n) pl ->
  exists x pl', validate_payload_part settings user restart o n next c
      = Ret true (set_payload pl' (set_protocol_validator x c)) /\ pays f fs (o + n) x pl'.
Proof.
  intros Hp Hn Hc. destruct (pays_step f fs o n _ pl Hp Hn) as (x & oa & Ha & Hp').
  assert (Hlen : length (take o pl) = o /\ length (take n (drop o (in_payload f))) = n).
  { destruct Hp as (? & ? & out & ? & _ & _ & _ & _ & _ & Ho & ->).
    rewrite !length_take, length_drop, length_app. lia. }
  destruct Hlen as [Hl1 Hl2].
  exists x, (take o pl ++ oa ++ drop (o + n) pl). split; [|done].
  unfold validate_payload_part, bind, gets. rewrite Hc. rewrite drop_app_length' by done.
  rewrite take_app_length' by done. rewrite Ha. unfold lift, ret, upd.
  rewrite bool_decide_eq_true_2 by done. do 3 f_equal. rewrite (take_app_length' (take o pl)) by done.
  do 2 f_equal. rewrite app_assoc. rewrite drop_app_length' by (rewrite length_app; lia). done.
Qed.

(** *** A complete frame *)

Lemma handler_quiet m c :
  activated c = true -> ws_alive c = true ->
  call_message_handler user m c
  = Ret tt (set_user_calls (S (user_calls c)) (set_trace (trace c ++ [to_user m]) c)).
Proof using Q Hstd.
  intros Ha Hw. unfold call_message_handler, bind, gets. rewrite Ha, Hw. simpl. unfold catch, log, upd, run_user, bind, gets. simpl.
  pose proof (quiet_message (user_calls c) m) as Hq.
  destruct (on_message (user_calls c) m) as [ops thrown] eqn:E. simpl in Hq. subst ops.
  destruct thrown as [[]|]; [by destruct depth| |by destruct depth].
  exfalso. apply Hstd. left. exists (user_calls c), m. by rewrite E.
Qed.

Lemma handler_runs k restart f fs s c :
  resumes k restart -> side c -> reading c = None -> current_message (m_parser c) = in_details f ->
  Forall (in_ok settings) (f :: fs) -> pays f fs (length (in_payload f)) (m_protocol_validator c) (m_payload c) ->
  m_buf c ++ s = flat_map wire fs -> (length (m_buf c) < k)%nat ->
  runs (call_handler_on_current_message settings user restart) (f :: fs) s c.
Proof using Q Hstd.
  intros Hr (Hs1 & Hs2 & Hs3) Hrd Hp Hok Hpay Hb Hk.
  destruct (pays_done f fs _ _ Hpay) as (w & Hf & Hacc & Hum & Hpl).
  inversion Hok as [|? ? (_ & _ & _ & Hop) Hok']; subst.
  set (c1 := set_payload [] (set_protocol_validator w c)).
  set (c2 := set_user_calls (S (user_calls c1)) (set_trace (trace c1 ++ [to_user (delivered f)]) c1)).
  assert (E : call_handler_on_current_message settings user restart c = restart c2).
  { unfold call_handler_on_current_message, bind at 1 2 3, gets at 1 2. rewrite Hf. unfold upd at 1.
    rewrite bool_decide_eq_true_2 by done. unfold bind at 1, gets at 1.
    change (m_read_state (set_protocol_validator w c)) with (m_read_state c). rewrite Hs1, Hp.
    rewrite (proj2 (Z.eqb_neq _ _) Hop). unfold bind at 1, ret at 1, bind at 1, gets at 1, bind at 1, upd at 1, bind at 1.
    change (m_payload (set_protocol_validator w c)) with (m_payload c). rewrite Hpl.
    fold (delivered f). fold c1. rewrite handler_quiet by done. fold c2.
    unfold bind, gets. change (m_read_state c2) with (m_read_state c). by rewrite Hs1. }
  destruct (Hr fs s c2) as (fs1 & fs2 & c' & -> & Hm & Ht & Hmid); [by repeat split|done|].
  exists (f :: fs1), fs2, c'. split_and!; [done|by rewrite E| |done].
  rewrite Ht. simpl. by rewrite <- app_assoc.
Qed.

(** *** Headers *)

Lemma runs_eq m m' fs s c c' : m c = m' c' -> trace c = trace c' -> runs m' fs s c' -> runs m fs s c.
Proof. unfold runs. intros -> ->. done. Qed.

Lemma app_prefix (b s p t : list byte) n :
  b ++ s = p ++ t -> (n <= length b)%nat -> (n <= length p)%nat -> take n b = take n p.
Proof.
  intros E Hb Hp. apply (f_equal (take n)) in E. by rewrite !take_app_le in E by done.
Qed.

Lemma app_rest (b s p t : list byte) :
  b ++ s = p ++ t -> (length p <= length b)%nat -> drop (length p) b ++ s = t.
Proof.
  intros E Hb. apply (f_equal (drop (length p))) in E. by rewrite drop_app_le, drop_app_length in E.
Qed.

Lemma app_short (b s p t : list byte) :
  b ++ s = p ++ t -> (length b <= length p)%nat -> s = drop (length b) p ++ t.
Proof.
  intros E Hb. apply (f_equal (drop (length b))) in E. by rewrite drop_app_length, drop_app_le in E.
Qed.

Lemma valid_header_runs k restart f fs s c :
  resumes k restart -> side c -> reading c = None -> current_message (m_parser c) = in_details f ->
  Forall (in_ok settings) (f :: fs) ->
  pays f fs 0 (m_protocol_validator c) (replicate (length (in_payload f)) x00) ->
  m_buf c ++ s = in_payload f ++ flat_map wire fs -> (length (m_buf c) < k)%nat ->
  runs (handle_parsed_and_valid_header settings user restart (in_details f)) (f :: fs) s c.
Proof using Q Hstd.
  intros Hr Hs Hrd Hp Hok Hpay Hb Hk. inversion Hok as [|? ? (_ & Hlen & Hmax & _) _]; subst.
  unfold handle_parsed_and_valid_header. rewrite (proj2 (Z.ltb_ge _ _) Hmax), Hlen, Nat2Z.id.
  destruct (length (in_payload f)) as [|n] eqn:El.
  - eapply (runs_eq _ (call_handler_on_current_message settings user restart) _ _ _ (set_payload [] c)); [done|done|].
    apply (handler_runs k); try done; [by rewrite El|]. destruct (in_payload f); [done|discriminate El].
  - set (part := Nat.min (length (m_buf c)) (S n)).
    assert (Hpart : take part (m_buf c) = take part (in_payload f)).
    { apply (app_prefix _ s _ (flat_map wire fs)); [done|lia|lia]. }
    set (c1 := set_buf (drop part (m_buf c))
      (set_payload (take part (m_buf c) ++ drop part (replicate (S n) x00)) (set_payload (replicate (S n) x00) c))).
    destruct (validate_valid restart f fs 0 part (S n - part) (replicate (S n) x00) c1 Hpay)
      as (x & pl' & Hv & Hpay'); [rewrite El; lia|by rewrite drop_0, <- Hpart|].
    set (next := match (S n - part)%nat with
      | O => call_handler_on_current_message settings user restart
      | _ => start_read_payload part (S n - part) true end).
    eapply (runs_eq _ next _ _ _ (set_payload pl' (set_protocol_validator x c1))); [|done|].
    { trans ((do valid <- validate_payload_part settings user restart 0 part (S n - part);
              if valid then next else ret tt) c1); [reflexivity|]. unfold bind. by rewrite Hv. }
    subst next. destruct (S n - part)%nat as [|r] eqn:Er.
    + apply (handler_runs k); try done; simpl.
      * rewrite El. by replace (S n) with part by lia.
      * replace part with (length (in_payload f)) by lia. apply app_rest; [done|lia].
      * rewrite length_drop. lia.
    + exists [], (f :: fs), (set_reading (Some (read_payload part (S r) true)) (set_payload pl' (set_protocol_validator x c1))).
      split_and!; [done| |by rewrite app_nil_r|].
      { unfold start_read_payload, async_read_some, bind, gets, upd. simpl. rewrite Hrd. reflexivity. }
      split; [done|]. split; [simpl; apply drop_ge; lia|]. right. exists f, fs, part.
      split_and!; try done; [lia|by rewrite El, Er|]. replace part with (length (m_buf c)) by lia.
      apply app_short; [done|lia].
Qed.

(** A header is decided by its first octets. *)
Lemma decode_header_app a b r : decode_header a = Some r -> decode_header (a ++ b) = Some r.
Proof.
  unfold decode_header. destruct a as [|b0 [|b1 t]]; [discriminate|discriminate|]. cbn [app].
  generalize (WsParser.ext_size (u8 b1 mod 128)) as en. intros en.
  generalize (if WsParser.testflag b1 7 then 4%nat else O) as kn. intros kn.
  case_decide as Hl; [|done]. rewrite decide_True by (rewrite length_app; lia). intros [= <-].
  rewrite (take_app_le t b en), (drop_app_le t b en) by lia.
  by rewrite (take_app_le (drop en t) b kn) by (rewrite length_drop; lia).
Qed.

Lemma header_runs k restart f fs s c :
  resumes k restart -> side c -> reading c = None -> current_message (m_parser c) = in_details f ->
  Forall (in_ok settings) (f :: fs) -> accept_all (f :: fs) (m_protocol_validator c) = Some vend ->
  WsValidator.m_unmask_flag (m_protocol_validator c) = true ->
  m_buf c ++ s = in_payload f ++ flat_map wire fs -> (length (m_buf c) < k)%nat ->
  runs (handle_parsed_header settings user restart (in_details f)) (f :: fs) s c.
Proof using Q Hstd.
  intros Hr Hs Hrd Hp Hok Hacc Hum Hb Hk. cbn [accept_all] in Hacc.
  destruct (accept_frame f (m_protocol_validator c)) as [w|] eqn:Ef; [|done].
  pose proof (accept_unmask f _ w Ef Hum) as Hw.
  destruct (accept_frame_inv f _ w Ef) as (x & y & out & H1 & H2 & H3).
  eapply (runs_eq _ (handle_parsed_and_valid_header settings user restart (in_details f)) _ _ _
            (set_protocol_validator x c)); [|done|].
  { unfold handle_parsed_header, bind, gets. rewrite H1. done. }
  apply (valid_header_runs k); try done.
  exists y, w, [], out. rewrite drop_0, Nat.sub_0_r. split_and!; try done.
  by apply (WsValidator.validated_payload_is_unmasked (in_details f) _ _ (m_protocol_validator c) x y payload_part_is_valid).
Qed.

Lemma execute_count d p q n : parser_execute d p = Ok (q, n) -> 0 <= n <= WsParser.size d.
Proof.
  revert p q n. induction d as [|b d IH]; intros p q n; simpl; [by intros [= _ <-]|].
  destruct (header_parsed p); [intros [= _ <-]; unfold WsParser.size; lia|].
  destruct (WsParser.process_byte b p) as [p'|]; [|done].
  destruct (parser_execute d p') as [[q' n']|] eqn:E; [|done]. intros [= _ <-].
  specialize (IH _ _ _ E). unfold WsParser.size in *. simpl. lia.
Qed.

(** More octets of a header. *)
Lemma consume_runs k restart fs s h data c :
  resumes k restart -> side c -> reading c = None -> Forall (in_ok settings) fs ->
  accept_all fs (m_protocol_validator c) = Some vend ->
  WsValidator.m_unmask_flag (m_protocol_validator c) = true ->
  parser_execute h initial_parser = Ok (m_parser c, WsParser.size h) -> header_parsed (m_parser c) = false ->
  m_buf c = data -> data <> [] -> h ++ data ++ s = flat_map wire fs ->
  (forall q n, parser_execute data (m_parser c) = Ok (q, n) -> length data - Z.to_nat n < k)%nat ->
  runs (consume_header_from_buffer settings user restart data) fs s c.
Proof using Q Hstd.
  intros Hr Hs Hrd Hok Hacc Hum Hh Hnp Hbuf Hd Hw Hk.
  destruct fs as [|f fs].
  { destruct h, data; by try discriminate Hw. }
  inversion Hok as [|? ? (Hwire & _) _]; subst.
  pose proof (WsParser.execute_initial (h ++ m_buf c)) as Hspec.
  rewrite WsParser.parser_execute_app, Hh in Hspec.
  destruct (parser_execute (m_buf c) (m_parser c)) as [[q n]|] eqn:Ep.
  2:{ destruct (decode_header _) as [[? ?]|]; simpl in Hspec; [by destruct Hspec as [? ?]|by destruct Hspec as (? & ? & _)]. }
  specialize (Hk q n eq_refl).
  destruct (decode_header (h ++ m_buf c)) as [[md l]|] eqn:Ed; simpl in Hspec.
  - pose proof (decode_header_app _ s _ Ed) as Ed'. rewrite <- app_assoc, Hw in Ed'. cbn [flat_map] in Ed'.
    unfold wire in Ed' at 1. rewrite <- app_assoc, WsParser.decode_write in Ed' by done. injection Ed' as <- <-.
    destruct Hspec as [d Hq]. injection Hq as -> Hn.
    set (c1 := set_buf (drop (Z.to_nat n) (m_buf c)) (set_parser (WsParser.mk_parser d (in_details f) WsParser.header_parsed_st) c)).
    eapply (runs_eq _ (handle_parsed_header settings user restart (in_details f)) _ _ _ c1); [|done|].
    { unfold consume_header_from_buffer, bind, gets. by rewrite Ep. }
    apply (header_runs k); try done; simpl; [|rewrite length_drop; lia].
    destruct (execute_count _ _ _ _ Ep) as [Hn0 Hn1]. unfold WsParser.size in *.
    apply (f_equal (drop (length (write_message_details (in_details f))))) in Hw.
    cbn [flat_map] in Hw. unfold wire in Hw at 1. rewrite <- app_assoc, drop_app_length in Hw.
    rewrite <- Hw, drop_app_ge, drop_app_le by lia. do 2 f_equal. lia.
  - destruct Hspec as (p & Hq & Hp). injection Hq as -> Hn.
    exists [], (f :: fs), (set_reading (Some read_header) (set_buf (drop (Z.to_nat n) (m_buf c)) (set_parser p c))).
    unfold WsParser.size in Hn. rewrite length_app in Hn. split_and!; [done| |by rewrite app_nil_r|].
    { unfold consume_header_from_buffer, bind, gets. rewrite Ep. unfold lift, ret, upd. rewrite Hp.
      unfold consume_header_from_socket, async_read_some, bind, gets, upd. simpl. by rewrite Hrd. }
    split; [done|]. split; [simpl; apply drop_ge; lia|]. left. split_and!; try done.
    exists (h ++ m_buf c). rewrite <- app_assoc. split; [done|]. split; [|done].
    rewrite WsParser.parser_execute_app, Hh, Ep. simpl. unfold WsParser.size. rewrite length_app. do 2 f_equal. lia.
Qed.

(** *** Resuming *)

Lemma start_resumes rounds : resumes rounds (start_read_header settings user rounds).
Proof using Q Hstd.
  induction rounds as [|rounds IH]; intros fs s c (Hs & Hrd & Hacc & Hum & Hok & Hw) Hk; [lia|].
  set (c1 := set_payload [] (set_parser initial_parser c)).
  destruct (m_buf c) as [|x buf] eqn:Eb.
  - exists [], fs, (set_reading (Some read_header) c1). split_and!; [done| |by rewrite app_nil_r|].
    + cbn [start_read_header]. unfold start_read_header_with, bind, upd, gets. simpl. rewrite Eb.
      unfold consume_header_from_socket, async_read_some, bind, gets, upd. simpl. by rewrite Hrd.
    + split; [done|]. split; [done|]. left. split_and!; try done. by exists [].
  - eapply (runs_eq _ (consume_header_from_buffer settings user (start_read_header settings user rounds) (x :: buf)) _ _ _ c1).
    + cbn [start_read_header]. unfold start_read_header_with, bind, upd, gets. simpl. by rewrite Eb.
    + done.
    + apply (consume_runs rounds) with (h := []); try done.
      intros q n Hq. pose proof (parse_progress initial_parser (x :: buf) q n ltac:(done) Hq). simpl in *. lia.
Qed.

Local Abbreviation restart := (start_read_header settings user read_rounds).

Lemma read_header_runs fs s data c :
  side c -> m_buf c = [] -> mid_header fs (data ++ s) c -> data <> [] -> (length data <= 14)%nat ->
  runs (after_read_header settings user restart (Some data)) fs s (set_reading None c).
Proof using Q Hstd.
  intros Hs Hb (Hrd & Hacc & Hum & Hok & h & Hw & Hh & Hnp) Hd Hl.
  eapply (runs_eq _ (consume_header_from_buffer settings user restart data) _ _ _ (set_buf data (set_reading None c)));
    [done|done|].
  apply (consume_runs read_rounds) with (h := h); try done; [apply start_resumes|].
  intros q n _. unfold read_rounds, websocket_header_max_size. lia.
Qed.

Lemma read_payload_runs f fs o s data c :
  side c -> m_buf c = [] -> (o < length (in_payload f))%nat -> current_message (m_parser c) = in_details f ->
  Forall (in_ok settings) (f :: fs) -> pays f fs o (m_protocol_validator c) (m_payload c) ->
  data ++ s = drop o (in_payload f) ++ flat_map wire fs -> (length data <= length (in_payload f) - o)%nat ->
  runs (after_read_payload settings user restart o (length (in_payload f) - o) (Some data) true) (f :: fs) s
    (set_reading None c).
Proof using Q Hstd.
  intros Hs Hb Ho Hp Hok Hpay Hw Hl. set (n := length data).
  assert (Hdata : take n (drop o (in_payload f)) = data).
  { rewrite <- (app_prefix data s _ (flat_map wire fs) n Hw); [by apply take_ge|done|rewrite length_drop; lia]. }
  set (c1 := set_payload (take o (m_payload c) ++ data ++ drop (o + n) (m_payload c)) (set_reading None c)).
  destruct (validate_valid restart f fs o n (length (in_payload f) - o - n) (m_payload c) c1 Hpay)
    as (x & pl' & Hv & Hpay'); [lia|by rewrite Hdata|].
  set (next := match (length (in_payload f) - o - n)%nat with
    | O => call_handler_on_current_message settings user restart
    | _ => start_read_payload (o + n) (length (in_payload f) - o - n) true end).
  eapply (runs_eq _ next _ _ _ (set_payload pl' (set_protocol_validator x c1))); [|done|].
  { trans ((do valid <- validate_payload_part settings user restart o n (length (in_payload f) - o - n);
            if valid then next else ret tt) c1); [reflexivity|]. unfold bind. by rewrite Hv. }
  subst next. destruct (length (in_payload f) - o - n)%nat as [|r] eqn:Er.
  - apply (handler_runs read_rounds); try done; simpl; [apply start_resumes| | |].
    + by replace (length (in_payload f)) with (o + n)%nat by lia.
    + rewrite Hb. apply (app_short data s _ _) in Hw; [|rewrite length_drop; lia]. rewrite Hw, drop_ge; [done|].
      rewrite length_drop. fold n. lia.
    + rewrite Hb. unfold read_rounds. simpl. lia.
  - exists [], (f :: fs), (set_reading (Some (read_payload (o + n) (S r) true)) (set_payload pl' (set_protocol_validator x c1))).
    split_and!; [done|done|by rewrite app_nil_r|]. split; [done|]. split; [done|]. right. exists f, fs, (o + n)%nat.
    split_and!; try done; [lia|simpl; do 3 f_equal; lia|].
    apply (app_short data s _ _) in Hw; [|rewrite length_drop; lia]. by rewrite Hw, drop_drop.
Qed.

(** ** A stream *)

(** The peer's octets, in reads of the given sizes or less where the buffer is
    smaller. *)
Fixpoint pump (sizes : list nat) (stream : list byte) (c : conn) : option (res unit) :=
  match stream, sizes with
  | [], _ => Some (Ret tt c)
  | _, [] => None
  | _, size :: sizes =>
      match reading c with
      | None => None
      | Some r =>
          let n := Nat.min (Nat.max 1 size) (read_capacity r) in
          match step settings depth (ev_read (Some (take n stream))) c with
          | Some (Ret tt c') => pump sizes (drop n stream) c'
          | o => o
          end
      end
  end.

(** One read of a waiting connection. *)
Lemma read_runs fs s data c :
  mid fs (data ++ s) c -> data <> [] ->
  (forall r, reading c = Some r -> length data <= read_capacity r)%nat ->
  exists fs1 fs2 c', fs = fs1 ++ fs2 /\ step settings depth (ev_read (Some data)) c = Some (Ret tt c') /\
    trace c' = trace c ++ map (fun f => to_user (delivered f)) fs1 /\ mid fs2 s c'.
Proof using Q Hstd.
  intros (Hs & Hb & Hm) Hd Hcap.
  assert (Hstep : forall r m, reading c = Some r ->
    runs m fs s (set_reading None c) ->
    completed settings r (Some data) depth c = noexcept (catch m (trigger_error_and_close user 1011)) (set_reading None c) ->
    exists fs1 fs2 c', fs = fs1 ++ fs2 /\ step settings depth (ev_read (Some data)) c = Some (Ret tt c') /\
      trace c' = trace c ++ map (fun f => to_user (delivered f)) fs1 /\ mid fs2 s c').
  { intros r m Hr (fs1 & fs2 & c' & -> & E & Ht & Hmid) Hc. exists fs1, fs2, c'. split_and!; try done.
    unfold step. rewrite Hr. assert (fits r (Some data) = true) as ->.
    { unfold fits. specialize (Hcap r Hr). apply andb_true_intro. split; [by destruct data|by apply Nat.leb_le]. }
    rewrite Hc. unfold noexcept, catch. by rewrite E. }
  destruct Hm as [Hm|(f & fs' & o & -> & Ho & Hr & Hp & Hok & Hpay & Hw)].
  - pose proof (proj1 Hm) as Hr. eapply (Hstep _ (after_read_header settings user restart (Some data)) Hr); [|done].
    apply read_header_runs; try done. exact (Hcap _ Hr).
  - eapply (Hstep _ _ Hr); [|reflexivity]. apply read_payload_runs; try done. exact (Hcap _ Hr).
Qed.

Lemma wire_nonempty f : wire f <> [].
Proof.
  unfold wire, write_message_details. repeat case_match; by rewrite <- ?app_assoc.
Qed.

(** Nothing is left when the stream has ended. *)
Lemma mid_end fs c : mid fs [] c -> fs = [] /\ m_protocol_validator c = vend.
Proof.
  intros (_ & _ & [(_ & Hacc & _ & Hok & h & Hw & Hh & Hnp)|(f & fs' & o & -> & Ho & _ & _ & _ & _ & Hs)]).
  - rewrite app_nil_r in Hw. subst h. destruct fs as [|f fs]; [by injection Hacc|].
    inversion Hok as [|? ? (Hwire & _) _]; subst. exfalso.
    pose proof (WsParser.execute_initial (flat_map wire (f :: fs))) as Hspec. cbn [flat_map] in *.
    unfold wire in Hspec at 1. rewrite <- app_assoc, WsParser.decode_write in Hspec by done.
    destruct Hspec as [d Hd]. rewrite Hd in Hh. injection Hh as Hp _. by rewrite <- Hp in Hnp.
  - exfalso. apply (f_equal length) in Hs. rewrite length_app, length_drop in Hs. simpl in Hs. lia.
Qed.

Lemma capacity_pos fs s c r : mid fs s c -> reading c = Some r -> (1 <= read_capacity r)%nat.
Proof.
  intros (_ & _ & [(Hr & _)|(f & fs' & o & _ & Ho & Hr & _)]) E; rewrite E in Hr; injection Hr as ->; simpl;
    unfold websocket_header_max_size; lia.
Qed.

Lemma pump_delivers sizes stream fs c :
  mid fs stream c -> (length stream <= length sizes)%nat ->
  exists c', pump sizes stream c = Some (Ret tt c') /\
    trace c' = trace c ++ map (fun f => to_user (delivered f)) fs /\ m_protocol_validator c' = vend /\
    reading c' = Some read_header /\ m_read_state c' = read_any_frame.
Proof using Q Hstd.
  revert stream fs c. induction sizes as [|size sizes IH]; intros stream fs c Hm Hl.
  all: destruct stream as [|x stream];
    [destruct (mid_end fs c Hm) as [-> Hv]; exists c; split; [done|]; rewrite app_nil_r; split_and!; try done;
     [|apply Hm]; by destruct (proj2 (proj2 Hm)) as [[Hr _]|(? & ? & ? & ? & _)]|].
  - simpl in Hl. lia.
  - cbn [pump]. assert (Hr : exists r, reading c = Some r).
    { destruct (proj2 (proj2 Hm)) as [[Hr _]|(? & ? & ? & _ & _ & Hr & _)]; eauto. }
    destruct Hr as [r Hr]. rewrite Hr. pose proof (capacity_pos _ _ _ r Hm Hr) as Hc.
    set (n := Nat.min (Nat.max 1 size) (read_capacity r)). set (st := x :: stream) in *.
    rewrite <- (take_drop n st) in Hm.
    destruct (read_runs fs (drop n st) (take n st) c Hm) as (fs1 & fs2 & c' & -> & -> & Ht & Hm').
    + unfold st. destruct n eqn:En; [lia|done].
    + intros r' Hr'. rewrite Hr in Hr'. injection Hr' as <-. rewrite length_take. lia.
    + destruct (IH (drop n st) fs2 c' Hm') as (c2 & -> & Ht2 & Hend).
      { rewrite length_drop. subst st. simpl in *. lia. }
      exists c2. split; [done|]. split; [|done]. by rewrite Ht2, Ht, map_app, <- app_assoc.
Qed.

End Delivery.

(** ** The theorem *)

(** A connection that waits for the first octet of a frame. *)
Definition idle_conn (c : conn) : Prop :=
  side c /\ m_buf c = [] /\ reading c = Some read_header /\ m_parser c = initial_parser /\
  WsValidator.m_unmask_flag (m_protocol_validator c) = true.


(** A text message in two fragments that splits a character, and a ping. *)
Definition witness_frames : list in_frame :=
  [mk_in_frame (WsParser.message_details_masked final_frame ping_frame 2 77) (mask_unmask_payload 77 (bs "hi"));
   mk_in_frame (WsParser.message_details_masked not_final_frame text_frame 2 5) (mask_unmask_payload 5 [x41; xc3]);
   mk_in_frame (WsParser.message_details_masked final_frame continuation_frame 1 6) (mask_unmask_payload 6 [xb8])].

Definition activated_conn : conn :=
  match upgraded witness_settings 1 (bs "HTTP/1.1 101") 0 with
  | Ret _ c => match step witness_settings 1 ev_activate c with Some (Ret _ c) => c | _ => c end
  | _ => new_conn 0
  end.


(** ** Two runs that go wrong *)

Fixpoint run_events (es : list strand_event) (c : conn) : option conn :=
  match es with
  | [] => Some c
  | e :: es => match step witness_settings 1 e c with Some (Ret tt c) => run_events es c | _ => None end
  end.

Definition text (s : string) (cb : Z) : strand_event :=
  ev_call (op_send_message final_frame text_frame (trivial_write_operation (bs s)) (Some cb)).

(** The index of the next item survives a failed write: after the write of one
    message fails, a shutdown takes the next message from the queue, finds the
    index past its items and reports it as written, although none of its octets
    was handed to the socket. *)
Theorem unsent_message_reported_written :
  exists c, run_events [ev_write true; text "one" 1; text "two" 2; ev_write false; ev_call op_shutdown] activated_conn
      = Some c /\
    In (notified 1 write_failed) (trace c) /\ In (notified 2 written) (trace c) /\
    In (bs "one") (started_bufs (trace c)) /\ ~ In (bs "two") (started_bufs (trace c)).
Proof.
  eexists. split; [vm_compute; reflexivity|]. vm_compute. split_and!; [tauto|tauto|tauto|].
  intros H. repeat (destruct H as [H|H]; [discriminate H|]). exact H.
Qed.

(** A text message that ends inside a character is answered with a close frame,
    and from then on only the peer's close frame is awaited; but no read is
    started, so that it cannot arrive: the socket stays open until the timer. *)
Theorem close_awaited_but_not_read :
  exists c, run_events
      [ev_write true;
       ev_read (Some (wire (mk_in_frame (WsParser.message_details_masked final_frame text_frame 1 0) [xc3])))]
      activated_conn = Some c /\
    m_read_state c = read_only_close_frame /\ reading c = None /\ m_socket_open c = true /\
    close_flags c = [false; true].
Proof. eexists. split; [vm_compute; reflexivity|]. by vm_compute. Qed.

End WsDelivery.
