(* ===== verification/WsHandshake.v ===== *)
(** * The WebSocket handshake

    Model of [upgrade] and its overloads (src/web/restinio/restinio/websocket/
    websocket.hpp): the accept value of the opening handshake, the answer, and the
    connection that writes it. *)

From S2P Require Import Prelude Bitops Base64 Sha1 HttpFields HttpHeaders Coordinator HttpResponse OutputCtx WsParser WsValidator WsConnection WsSafety.

Module WsHandshake.
Import Buffers Fields HttpField WsConnection.

Definition websocket_accept_field_suffix : list byte := bs "258EAFA5-E914-47DA-95CA-C5AB0DC85B11".

(** What [upgrade] uses of a request: its fields, and whether its connection has
    not been moved away. *)
Record request_t := mk_request {
  req_fields : http_header_fields_t;
  req_connection : bool
}.

Inductive activation_t := immediate | delayed.

(** The answer: status line 101, the fields, and no Content-Length. *)
Definition upgrade_response (fields : http_header_fields_t) : list byte :=
  let h := Response.response_header (Status.status_line Status.switching_protocols) in
  let h := Response.with_fields fields h in
  let h := Response.with_connection Response.upgrade h in
  Response.create_header_string h Response.skip_content_length.

Section Upgrade.
Context {U : UserCode} (settings : settings_t) (depth : nat) (now : Z).

(** [upgrade] with the fields of the answer: the request without its connection
    and the new connection. *)
Definition upgrade_with_fields (req : request_t) (activation_flag : activation_t)
  (upgrade_response_header_fields : http_header_fields_t) : outcome (request_t * res unit) :=
  if negb (has_field_id sec_websocket_accept upgrade_response_header_fields)
  then Throw "Sec-WebSocket-Accept field is mandatory for upgrade response"
  else
    let fields :=
      if negb (has_field_id upgrade upgrade_response_header_fields)
      then set_field_by_id upgrade (bs "websocket") upgrade_response_header_fields
      else upgrade_response_header_fields in
    if negb (req_connection req) then Throw "no connection for upgrade: already moved"
    else
      Ok (mk_request (req_fields req) false,
          match upgraded settings depth (upgrade_response fields) now with
          | Ret _ c =>
              match activation_flag with
              | immediate => init_read settings (user_code settings depth) c
              | delayed => Ret tt c
              end
          | r => r
          end).

(** [upgrade] with the accept value, and with a protocol besides. *)
Definition upgrade_with_accept (req : request_t) (activation_flag : activation_t) (accept_v : list byte) :=
  upgrade_with_fields req activation_flag (set_field_by_id sec_websocket_accept accept_v []).

Definition upgrade_with_protocol (req : request_t) (activation_flag : activation_t)
  (accept_v protocol : list byte) :=
  upgrade_with_fields req activation_flag
    (set_field_by_id sec_websocket_protocol protocol (set_field_by_id sec_websocket_accept accept_v [])).

(** The accept value for a key; [None] would be a digest that is not computed. *)
Definition accept_value (key : list byte) : option (list byte) :=
  digest ← Sha1.make_digest (key ++ websocket_accept_field_suffix);
  Some (Base64.encode (Sha1.to_string digest)).

(** [upgrade] by the key of the request. *)
Definition upgrade_request (req : request_t) (activation_flag : activation_t)
  : outcome (option (request_t * res unit)) :=
  let? key := get_field_by_id sec_websocket_key (req_fields req) in
  match accept_value key with
  | None => Ok None
  | Some accept_v => let? r := upgrade_with_accept req activation_flag accept_v in Ok (Some r)
  end.

(** ** What the client receives *)

(** The accept value of RFC 6455. *)
Definition rfc_accept (key : list byte) : list byte :=
  Base64.encode (Sha1.to_string (Fips.sha1 (key ++ websocket_accept_field_suffix))).

Definition rfc_response (key : list byte) : list byte :=
  bs "HTTP/1.1 101 Switching Protocols" ++ Response.crlf ++
  bs "Connection: Upgrade" ++ Response.crlf ++
  bs "Sec-WebSocket-Accept: " ++ rfc_accept key ++ Response.crlf ++
  bs "Upgrade: websocket" ++ Response.crlf ++ Response.crlf.

Lemma response_layout accept_v :
  upgrade_response (set_field_by_id upgrade (bs "websocket") (set_field_by_id sec_websocket_accept accept_v []))
  = bs "HTTP/1.1 101 Switching Protocols" ++ Response.crlf ++ bs "Connection: Upgrade" ++ Response.crlf ++
    bs "Sec-WebSocket-Accept: " ++ accept_v ++ Response.crlf ++ bs "Upgrade: websocket" ++ Response.crlf ++ Response.crlf.
Proof.
  unfold upgrade_response. rewrite Response.create_header_layout.
  change (set_field_by_id upgrade _ _) with
    [mk_field (bs "Sec-WebSocket-Accept") accept_v sec_websocket_accept; mk_field (bs "Upgrade") (bs "websocket") upgrade].
  cbn [Response.m_fields Response.with_fields Response.with_connection flat_map]. unfold Response.field_string.
  cbn [m_name m_value]. rewrite <- !app_assoc. reflexivity.
Qed.

Lemma accept_value_rfc key :
  8 * Z.of_nat (length key + 36) < 2 ^ 64 -> (length key mod 64)%nat <> 20%nat ->
  accept_value key = Some (rfc_accept key).
Proof.
  intros Hl Hm. unfold accept_value, rfc_accept.
  assert (Hlen : length (key ++ websocket_accept_field_suffix) = (length key + 36)%nat) by (by rewrite length_app).
  rewrite Sha1Theorems.make_digest_expected by (by rewrite Hlen). unfold Sha1Theorems.expected.
  rewrite Hlen. destruct (Nat.eqb_spec ((length key + 36) mod 64) 56) as [E|E]; [|done].
  exfalso. apply Hm. pose proof (Nat.div_mod_eq (length key) 64). pose proof (Nat.div_mod_eq (length key + 36) 64).
  pose proof (Nat.mod_upper_bound (length key) 64). lia.
Qed.

(** The state in which the answer is being written. *)
Definition answering (response : list byte) (c : conn) : Prop :=
  trace c = [queued false (write_group [trivial_write_operation response]); started [response]] /\
  writing c = true /\ m_socket_open c = true.

Lemma upgraded_answers response :
  (0 < asio_max_iov_len settings)%nat ->
  exists c, upgraded settings depth response now = Ret tt c /\ answering response c /\
    reading c = None /\ m_buf c = [] /\ activated c = false.
Proof.
  intros Hiov. destruct settings as [wl rl [|iov] max]; [simpl in Hiov; lia|].
  exists (set_writing true
    (set_trace [queued false (write_group [trivial_write_operation response]); started [response]]
      (set_write_operation_timeout_after (now + wl)
        (set_write_output_ctx (OutputCtx.mk_octx (Some (write_group [trivial_write_operation response])) 1)
          (new_conn now))))).
  split; [|by split_and!]. destruct iov; vm_compute; reflexivity.
Qed.


End Upgrade.

(** The example of RFC 6455, section 1.3. *)
Definition rfc_key : list byte := bs "dGhlIHNhbXBsZSBub25jZQ==".


End WsHandshake.
