(* ===== verification/HttpInput.v ===== *)
(** * Incoming HTTP messages

    Model of src/web/restinio/restinio/impl/parser_callbacks.ipp, of
    [http_parser_ctx_t] (impl/connection.hpp), incoming_http_msg_limits.hpp,
    chunked_input_info.hpp, utils/impl/safe_uint_truncate.hpp and of
    [http_request_header_t] (http_headers.hpp): how the pieces http_parser
    delivers are assembled into a request, and the limits on them.

    http_parser itself is not part of the sources: it is the class [HttpParser],
    a machine that makes callbacks and is resumed with what they return, with the
    behaviour its documentation promises in [HttpParserLaws]. *)

From S2P Require Import Prelude HttpFields HttpHeaders Coordinator HttpResponse Router.

(** ** incoming_http_msg_limits_t *)

Module Limits.

Record incoming_http_msg_limits_t := mk_limits {
  m_max_url_size : Z;           (* std::size_t *)
  m_max_field_name_size : Z;
  m_max_field_value_size : Z;
  m_max_field_count : Z;
  m_max_body_size : Z           (* std::uint64_t *)
}.

Definition uint64_max : Z := 2 ^ 64 - 1.

Definition incoming_http_msg_limits : incoming_http_msg_limits_t :=
  mk_limits uint64_max uint64_max uint64_max uint64_max uint64_max.

Definition max_url_size (value : Z) (l : incoming_http_msg_limits_t) : incoming_http_msg_limits_t :=
  mk_limits value (m_max_field_name_size l) (m_max_field_value_size l) (m_max_field_count l)
    (m_max_body_size l).
Definition max_field_name_size (value : Z) (l : incoming_http_msg_limits_t) :=
  mk_limits (m_max_url_size l) value (m_max_field_value_size l) (m_max_field_count l) (m_max_body_size l).
Definition max_field_value_size (value : Z) (l : incoming_http_msg_limits_t) :=
  mk_limits (m_max_url_size l) (m_max_field_name_size l) value (m_max_field_count l) (m_max_body_size l).
Definition max_field_count (value : Z) (l : incoming_http_msg_limits_t) :=
  mk_limits (m_max_url_size l) (m_max_field_name_size l) (m_max_field_value_size l) value
    (m_max_body_size l).
Definition max_body_size (value : Z) (l : incoming_http_msg_limits_t) :=
  mk_limits (m_max_url_size l) (m_max_field_name_size l) (m_max_field_value_size l)
    (m_max_field_count l) value.

End Limits.

(** ** chunked_input_info.hpp *)

Module ChunkedInput.
Import Fields.

Record chunk_info_t := mk_chunk { m_started_at : Z; m_size : Z }.   (* std::size_t *)

(** [string_view_t::substr] throws past the end and shortens the length. *)
Definition substr (pos n : Z) (s : list byte) : outcome (list byte) :=
  if Z.of_nat (length s) <? pos then Throw "basic_string_view::substr"
  else Ok (take (Z.to_nat n) (drop (Z.to_nat pos) s)).

Definition make_string_view_nonchecked (full_body : list byte) (c : chunk_info_t) : outcome (list byte) :=
  substr (m_started_at c) (m_size c) full_body.

Definition make_string_view (full_body : list byte) (c : chunk_info_t) : outcome (list byte) :=
  let size := Z.of_nat (length full_body) in
  if (size <=? m_started_at c) || (size <? wrap 64 (m_started_at c + m_size c))
  then Throw "unable to make a chunk"
  else make_string_view_nonchecked full_body c.

Record chunked_input_info_block_t := mk_block {
  m_chunks : list chunk_info_t;
  m_trailing_fields : http_header_fields_t
}.

Definition empty_block : chunked_input_info_block_t := mk_block [] [].

(** [chunked_input_info_t] holds a block. *)
Definition chunk_count (i : chunked_input_info_block_t) : Z := Z.of_nat (length (m_chunks i)).

(** [vector::at] *)
Definition chunk_at (index : Z) (i : chunked_input_info_block_t) : outcome chunk_info_t :=
  match m_chunks i !! Z.to_nat index with
  | Some c => if index <? 0 then Throw "vector::_M_range_check" else Ok c
  | None => Throw "vector::_M_range_check"
  end.

End ChunkedInput.

(** ** http_request_header_t *)

Module RequestHeader.
Import Fields RequestTarget HttpMethod.

(** The version and the content length, which nothing sets for a request, are left
    out. *)
Record http_request_header_t := mk_request_header {
  m_method : http_method_id_t;
  m_target : target_t;
  m_request_connection : Response.http_connection_header_t;
  m_request_fields : http_header_fields_t
}.

(** [http_request_header_t{}] *)
Definition request_header `{HttpParserCodes} : http_request_header_t :=
  mk_request_header (http_method_id GET) empty_target Response.close [].

Definition with_method (m : http_method_id_t) (h : http_request_header_t) : http_request_header_t :=
  mk_request_header m (m_target h) (m_request_connection h) (m_request_fields h).
Definition with_target (t : target_t) (h : http_request_header_t) : http_request_header_t :=
  mk_request_header (m_method h) t (m_request_connection h) (m_request_fields h).
Definition with_request_connection (c : Response.http_connection_header_t) (h : http_request_header_t) :=
  mk_request_header (m_method h) (m_target h) c (m_request_fields h).
Definition with_request_fields (f : http_header_fields_t) (h : http_request_header_t) :=
  mk_request_header (m_method h) (m_target h) (m_request_connection h) f.

(** The setter [should_keep_alive( bool )] and the getter. *)
Definition set_request_keep_alive (ka : bool) : http_request_header_t -> http_request_header_t :=
  with_request_connection (if ka then Response.keep_alive else Response.close).
Definition request_keep_alive (h : http_request_header_t) : bool :=
  match m_request_connection h with Response.keep_alive => true | _ => false end.

(** What [std::move] leaves: the strings and the fields are empty, the rest is a
    copy.  [m_target] keeps its two positions. *)
Definition moved_from (h : http_request_header_t) : http_request_header_t :=
  mk_request_header (m_method h)
    (mk_target [] (m_query_separator_pos (m_target h)) (m_fragment_separator_pos (m_target h)))
    (m_request_connection h) [].

End RequestHeader.

(** ** http_parser_ctx_t and the callbacks *)

Module ParserCtx.
Import Fields RequestTarget HttpMethod Limits ChunkedInput RequestHeader.

(** What a callback is given: a piece of the message, or what it reads from the
    parser. *)
Inductive event :=
| url (at_ : list byte)
| header_field (at_ : list byte)
| header_value (at_ : list byte)
| headers_complete (content_length : Z)              (* std::uint64_t *)
| body (at_ : list byte)
| chunk_header (content_length : Z)
| chunk_complete
| message_complete (method : Z) (upgrade should_keep_alive : bool).

Record http_parser_ctx_t := mk_ctx {
  m_header : http_request_header_t;
  m_body : list byte;
  m_current_field_name : list byte;
  m_last_value_total_size : Z;
  m_last_was_value : bool;
  m_leading_headers_completed : bool;
  m_chunked_info_block : chunked_input_info_block_t;
  m_message_complete : bool;
  m_total_field_count : Z
}.

Definition set_header (x : http_request_header_t) (c : http_parser_ctx_t) : http_parser_ctx_t :=
  mk_ctx x (m_body c) (m_current_field_name c) (m_last_value_total_size c) (m_last_was_value c)
    (m_leading_headers_completed c) (m_chunked_info_block c) (m_message_complete c) (m_total_field_count c).
Definition set_body (x : list byte) (c : http_parser_ctx_t) : http_parser_ctx_t :=
  mk_ctx (m_header c) x (m_current_field_name c) (m_last_value_total_size c) (m_last_was_value c)
    (m_leading_headers_completed c) (m_chunked_info_block c) (m_message_complete c) (m_total_field_count c).
Definition set_name (x : list byte) (last_was_value : bool) (c : http_parser_ctx_t) : http_parser_ctx_t :=
  mk_ctx (m_header c) (m_body c) x (m_last_value_total_size c) last_was_value
    (m_leading_headers_completed c) (m_chunked_info_block c) (m_message_complete c) (m_total_field_count c).
Definition set_last_value_total_size (x : Z) (c : http_parser_ctx_t) : http_parser_ctx_t :=
  mk_ctx (m_header c) (m_body c) (m_current_field_name c) x (m_last_was_value c)
    (m_leading_headers_completed c) (m_chunked_info_block c) (m_message_complete c) (m_total_field_count c).
Definition set_leading_headers_completed (c : http_parser_ctx_t) : http_parser_ctx_t :=
  mk_ctx (m_header c) (m_body c) (m_current_field_name c) (m_last_value_total_size c) (m_last_was_value c)
    true (m_chunked_info_block c) (m_message_complete c) (m_total_field_count c).
Definition set_chunked_info_block (x : chunked_input_info_block_t) (c : http_parser_ctx_t) :=
  mk_ctx (m_header c) (m_body c) (m_current_field_name c) (m_last_value_total_size c) (m_last_was_value c)
    (m_leading_headers_completed c) x (m_message_complete c) (m_total_field_count c).
Definition set_message_complete (c : http_parser_ctx_t) : http_parser_ctx_t :=
  mk_ctx (m_header c) (m_body c) (m_current_field_name c) (m_last_value_total_size c) (m_last_was_value c)
    (m_leading_headers_completed c) (m_chunked_info_block c) true (m_total_field_count c).
Definition set_total_field_count (x : Z) (c : http_parser_ctx_t) : http_parser_ctx_t :=
  mk_ctx (m_header c) (m_body c) (m_current_field_name c) (m_last_value_total_size c) (m_last_was_value c)
    (m_leading_headers_completed c) (m_chunked_info_block c) (m_message_complete c) x.

(** The container [header_value] adds to. *)
Definition fields_of (c : http_parser_ctx_t) : http_header_fields_t :=
  if m_leading_headers_completed c then m_trailing_fields (m_chunked_info_block c)
  else m_request_fields (m_header c).
Definition set_fields_of (f : http_header_fields_t) (c : http_parser_ctx_t) : http_parser_ctx_t :=
  if m_leading_headers_completed c
  then set_chunked_info_block (mk_block (m_chunks (m_chunked_info_block c)) f) c
  else set_header (with_request_fields f (m_header c)) c.

(** [uint64_to_size_t]: the check is there only if [std::size_t] is narrower. *)
Definition uint64_to_size_t (is_uint64_longer : bool) (size_max v : Z) : outcome Z :=
  if is_uint64_longer && (size_max <? v)
  then Throw "64-bit value can't be safely truncated into std::size_t type" else Ok v.

(** A 64-bit target. *)
Definition to_size_t : Z -> outcome Z := uint64_to_size_t false uint64_max.

Section Callbacks.
Context `{HttpParserCodes} (m_limits : incoming_http_msg_limits_t).

(** [std::string::max_size()] *)
Context (string_max_size : Z).

Definition http_parser_ctx : http_parser_ctx_t :=
  mk_ctx request_header [] [] 0 true false empty_block false 0.

Definition reset (c : http_parser_ctx_t) : http_parser_ctx_t :=
  mk_ctx request_header [] [] 0 true false (m_chunked_info_block c) false 0.

(** The block is moved out when it is not empty. *)
Definition make_chunked_input_info_if_necessary (c : http_parser_ctx_t)
  : http_parser_ctx_t * option chunked_input_info_block_t :=
  let b := m_chunked_info_block c in
  match m_chunks b, m_trailing_fields b with
  | [], [] => (c, None)
  | _, _ => (set_chunked_info_block empty_block c, Some b)
  end.

Definition size (s : list byte) : Z := Z.of_nat (length s).

(** Every callback returns what it returns to http_parser; the context keeps what
    was done before a refusal. *)
Definition restinio_url_cb (at_ : list byte) (c : http_parser_ctx_t) : http_parser_ctx_t * Z :=
  let c := set_header (with_target (append_request_target at_ (m_target (m_header c))) (m_header c)) c in
  if m_max_url_size m_limits <? size (m_request_target (m_target (m_header c))) then (c, -1) else (c, 0).

Definition restinio_header_field_cb (at_ : list byte) (c : http_parser_ctx_t) : http_parser_ctx_t * Z :=
  if m_last_was_value c && (m_total_field_count c =? m_max_field_count m_limits) then (c, -1)
  else
    let c := if m_last_was_value c then set_name at_ false c
             else set_name (m_current_field_name c ++ at_) false c in
    if m_max_field_name_size m_limits <? size (m_current_field_name c) then (c, -1) else (c, 0).

(** [None]: [append_last_field] of no fields, which is undefined. *)
Definition restinio_header_value_cb (at_ : list byte) (c : http_parser_ctx_t)
  : option (http_parser_ctx_t * Z) :=
  let check c := if m_max_field_value_size m_limits <=? m_last_value_total_size c then (c, -1) else (c, 0) in
  if negb (m_last_was_value c) then
    let c := set_fields_of (add_field (m_current_field_name c) at_ (fields_of c)) c in
    let c := set_name [] true c in
    let c := set_last_value_total_size (size at_) c in
    Some (check (set_total_field_count (wrap 64 (m_total_field_count c + 1)) c))
  else
    match append_last_field at_ (fields_of c) with
    | Throw _ => None
    | Ok f =>
        let c := set_fields_of f c in
        Some (check (set_last_value_total_size (wrap 64 (m_last_value_total_size c + size at_)) c))
    end.

Definition restinio_headers_complete_cb (content_length : Z) (c : http_parser_ctx_t)
  : http_parser_ctx_t * Z :=
  let c := set_leading_headers_completed c in
  if negb (content_length =? uint64_max) && (0 <? content_length) then
    if m_max_body_size m_limits <? content_length then (c, -1)
    else
      match to_size_t content_length with
      | Ok n => if string_max_size <? n then (c, -1) else (c, 0)       (* reserve *)
      | Throw _ => (c, -1)
      end
  else (c, 0).

Definition restinio_body_cb (at_ : list byte) (c : http_parser_ctx_t) : http_parser_ctx_t * Z :=
  let total_length := wrap 64 (size (m_body c) + size at_) in
  if m_max_body_size m_limits <? total_length then (c, -1) else (set_body (m_body c ++ at_) c, 0).

Definition restinio_chunk_header_cb (content_length : Z) (c : http_parser_ctx_t) : http_parser_ctx_t * Z :=
  if content_length =? 0 then (c, 0)
  else
    match to_size_t content_length with
    | Ok n =>
        let b := m_chunked_info_block c in
        (set_chunked_info_block
           (mk_block (m_chunks b ++ [mk_chunk (size (m_body c)) n]) (m_trailing_fields b)) c, 0)
    | Throw _ => (c, -1)
    end.

Definition restinio_chunk_complete_cb (c : http_parser_ctx_t) : http_parser_ctx_t * Z := (c, 0).

(** [http_parser_pause], the first call, belongs to the parser. *)
Definition restinio_message_complete_cb (method : Z) (upgrade should_keep_alive : bool)
  (c : http_parser_ctx_t) : http_parser_ctx_t * Z :=
  let c :=
    match m_last_was_value c, m_current_field_name c with
    | false, _ :: _ =>
        let b := m_chunked_info_block c in
        set_name [] (m_last_was_value c)
          (set_chunked_info_block
             (mk_block (m_chunks b) (add_field (m_current_field_name c) [] (m_trailing_fields b))) c)
    | _, _ => c
    end in
  let c := set_message_complete c in
  let c := set_header (with_method (from_nodejs method) (m_header c)) c in
  (set_header
     ((if upgrade then with_request_connection Response.upgrade else set_request_keep_alive should_keep_alive)
        (m_header c)) c, 0).

(** The settings of [create_parser_settings]. *)
Definition callback (e : event) (c : http_parser_ctx_t) : option (http_parser_ctx_t * Z) :=
  match e with
  | url at_ => Some (restinio_url_cb at_ c)
  | header_field at_ => Some (restinio_header_field_cb at_ c)
  | header_value at_ => restinio_header_value_cb at_ c
  | headers_complete n => Some (restinio_headers_complete_cb n c)
  | body at_ => Some (restinio_body_cb at_ c)
  | chunk_header n => Some (restinio_chunk_header_cb n c)
  | chunk_complete => Some (restinio_chunk_complete_cb c)
  | message_complete method upgrade ka => Some (restinio_message_complete_cb method upgrade ka c)
  end.

End Callbacks.

End ParserCtx.

(** ** http_parser *)

Module HttpParser.
Import HttpMethod Limits ParserCtx.

Inductive callback_t :=
| cb_url (at_ : list byte)
| cb_header_field (at_ : list byte)
| cb_header_value (at_ : list byte)
| cb_headers_complete
| cb_body (at_ : list byte)
| cb_chunk_header
| cb_chunk_complete
| cb_message_complete.

Inductive http_errno_t := HPE_OK | HPE_PAUSED | HPE_FAILED.

#[global] Instance http_errno_t_eq_dec : EqDecision http_errno_t.
Proof. solve_decision. Defined.

(** A run of [http_parser_execute]: it returns the number of octets parsed, or
    makes a callback and goes on with what that returned and what it did to the
    parser. *)
Inductive exec (P : Type) : Type :=
| returns (p : P) (nparsed : nat)
| calls (k : callback_t) (p : P) (resume : Z -> P -> exec P).
Arguments returns {P} p nparsed.
Arguments calls {P} k p resume.

Class HttpParser := {
  http_parser : Type;
  http_parser_init : http_parser;
  http_parser_execute : http_parser -> list byte -> exec http_parser;
  http_parser_pause : http_parser -> http_parser;
  http_errno : http_parser -> http_errno_t;
  parser_content_length : http_parser -> Z;
  parser_method : http_parser -> Z;
  parser_upgrade : http_parser -> bool;
  http_should_keep_alive : http_parser -> bool;
  nread : http_parser -> Z
}.

Section Runs.
Context {P : HttpParser}.

(** [on_message_complete] pauses the parser first. *)
Definition after_callback (k : callback_t) (p : http_parser) : http_parser :=
  match k with cb_message_complete => http_parser_pause p | _ => p end.

(** What a callback reads. *)
Definition observed (k : callback_t) (p : http_parser) : event :=
  match k with
  | cb_url at_ => url at_
  | cb_header_field at_ => header_field at_
  | cb_header_value at_ => header_value at_
  | cb_headers_complete => headers_complete (parser_content_length p)
  | cb_body at_ => body at_
  | cb_chunk_header => chunk_header (parser_content_length p)
  | cb_chunk_complete => chunk_complete
  | cb_message_complete => message_complete (parser_method p) (parser_upgrade p) (http_should_keep_alive p)
  end.

(** [http_parser_execute] with the callbacks of the connection; [None] when one of
    them does something undefined. *)
Fixpoint run_callbacks `{HttpParserCodes} (limits : incoming_http_msg_limits_t) (string_max_size : Z)
  (x : exec http_parser) (c : http_parser_ctx_t) : option (http_parser * nat * http_parser_ctx_t) :=
  match x with
  | returns p n => Some (p, n, c)
  | calls k p resume =>
      let p := after_callback k p in
      '(c, r) ← callback limits string_max_size (observed k p) c;
      run_callbacks limits string_max_size (resume r p) c
  end.

(** *** What the documentation promises *)

(** The ways a run may go, with what the callbacks returned. *)
Inductive run : exec http_parser -> list (event * Z) -> http_parser -> nat -> Prop :=
| run_returns p n : run (returns p n) [] p n
| run_calls k p resume r es p' n :
    run (resume r (after_callback k p)) es p' n ->
    run (calls k p resume) ((observed k (after_callback k p), r) :: es) p' n.

(** The callbacks since [http_parser_init], every run having ended well. *)
Inductive since_init : list event -> http_parser -> Prop :=
| since_start : since_init [] http_parser_init
| since_execute evs p data es p' n :
    since_init evs p -> run (http_parser_execute p data) es p' n -> http_errno p' = HPE_OK ->
    since_init (evs ++ map fst es) p'.

Definition is_complete (e : event) : bool := match e with message_complete _ _ _ => true | _ => false end.

(** Every value belongs to a field name of the same block of fields. *)
Fixpoint values_named (named : bool) (evs : list event) : bool :=
  match evs with
  | [] => true
  | header_field _ :: evs => values_named true evs
  | header_value _ :: evs => named && values_named named evs
  | headers_complete _ :: evs => values_named false evs
  | _ :: evs => values_named named evs
  end.

End Runs.

Class HttpParserLaws (P : HttpParser) : Prop := {
  (** a started parser has no error *)
  init_ok : http_errno http_parser_init = HPE_OK;
  (** no more than the data is parsed, and all of it unless the parser stopped *)
  parsed_data evs p data es p' n :
    since_init evs p -> run (http_parser_execute p data) es p' n ->
    (n <= length data)%nat /\ (http_errno p' = HPE_OK -> n = length data);
  (** [on_message_complete] is called by a parser that has read something, and,
      paused there, it returns *)
  complete_pauses evs p data es p' n :
    since_init evs p -> run (http_parser_execute p data) es p' n ->
    existsb (fun er => is_complete er.1) es = true ->
    (0 < n)%nat /\ (Forall (fun er => er.2 = 0) es -> http_errno p' = HPE_PAUSED);
  (** only a callback pauses it *)
  paused_by_callback evs p data es p' n :
    since_init evs p -> run (http_parser_execute p data) es p' n ->
    http_errno p' = HPE_PAUSED -> existsb (fun er => is_complete er.1) es = true;
  (** a callback that returns -1 is the last one and stops the parser with an error *)
  refused_stops evs p data es p' n es1 e es2 :
    since_init evs p -> run (http_parser_execute p data) es p' n ->
    es = es1 ++ (e, -1) :: es2 -> es2 = [] /\ http_errno p' = HPE_FAILED;
  (** the order of the callbacks for fields *)
  fields_in_order evs p data es p' n :
    since_init evs p -> run (http_parser_execute p data) es p' n ->
    values_named false (evs ++ map fst es) = true
}.

End HttpParser.
