(* ===== verification/HttpInputTheorems.v ===== *)
(** * Requests from the pieces of a message

    What [HttpInput]'s callbacks make of a message: the same whatever pieces it
    comes in ([pieces_irrelevant]), and exactly the request that was sent if it
    keeps the limits ([request_assembled]). *)

From S2P Require Import Prelude HttpFields HttpHeaders Coordinator HttpResponse Router HttpInput.

Module HttpInputTheorems.
Import Fields RequestTarget HttpMethod Limits ChunkedInput RequestHeader ParserCtx.

(** ** Runs of callbacks *)

Inductive processed :=
| accepted (c : http_parser_ctx_t)
| refused
| undefined.

(** What is left to do with data of an event. *)
Definition data_size (e : event) : Z :=
  match e with
  | url a | header_field a | header_value a | body a => size a
  | _ => 0
  end.

Definition total_size (evs : list event) : Z := foldr (fun e n => data_size e + n) 0 evs.

(** Joins pieces of the same part that follow each other. *)
Definition join (e : event) (evs : list event) : list event :=
  match e, evs with
  | url a, url b :: evs => url (a ++ b) :: evs
  | header_field a, header_field b :: evs => header_field (a ++ b) :: evs
  | header_value a, header_value b :: evs => header_value (a ++ b) :: evs
  | body a, body b :: evs => body (a ++ b) :: evs
  | _, _ => e :: evs
  end.

Definition joined (evs : list event) : list event := foldr join [] evs.

Lemma octets_size_app a b : size (a ++ b) = size a + size b.
Proof. unfold size. rewrite length_app. lia. Qed.

Lemma size_nonneg a : 0 <= size a.
Proof. unfold size. lia. Qed.

Lemma data_size_nonneg e : 0 <= data_size e.
Proof. destruct e; simpl; try apply size_nonneg; lia. Qed.

Lemma total_size_nonneg evs : 0 <= total_size evs.
Proof. induction evs as [|e evs IH]; simpl; [lia|]. pose proof (data_size_nonneg e). lia. Qed.

Lemma join_total e evs : total_size (join e evs) = data_size e + total_size evs.
Proof. destruct e, evs as [|[] evs]; simpl; try done; rewrite octets_size_app; lia. Qed.

Lemma joined_total evs : total_size (joined evs) = total_size evs.
Proof. induction evs as [|e evs IH]; simpl; [done|]. by rewrite join_total, IH. Qed.

Section Runs.
Context `{HttpParserCodes} (limits : incoming_http_msg_limits_t) (string_max_size : Z).

Abbreviation call := (callback limits string_max_size).

Fixpoint process (evs : list event) (c : http_parser_ctx_t) : processed :=
  match evs with
  | [] => accepted c
  | e :: evs =>
      match call e c with
      | None => undefined
      | Some (c, r) => if r =? 0 then process evs c else refused
      end
  end.

(** ** Pieces *)

(** A context that [reset] has prepared, with room for [n] more octets. *)
Record roomy (n : Z) (c : http_parser_ctx_t) : Prop := {
  roomy_target : m_target (m_header c) = request_target (m_request_target (m_target (m_header c)));
  roomy_body : size (m_body c) + n < 2 ^ 64;
  roomy_value : 0 <= m_last_value_total_size c /\ m_last_value_total_size c + n < 2 ^ 64
}.

Lemma roomy_start n b : n < 2 ^ 64 -> roomy n (reset (set_chunked_info_block b http_parser_ctx)).
Proof. intros Hn. split; [done| |]; unfold size; cbn [length m_body reset m_last_value_total_size]; lia. Qed.

Lemma roomy_le n m c : n <= m -> roomy m c -> roomy n c.
Proof. intros Hn [Ht Hb Hv]. split; [done|lia|lia]. Qed.

Lemma roomy_fields n f c : roomy n (set_fields_of f c) <-> roomy n c.
Proof.
  unfold set_fields_of. split; intros [Ht Hb Hv]; destruct (m_leading_headers_completed c); by split.
Qed.

Lemma append_target_whole t a :
  t = request_target (m_request_target t) ->
  append_request_target a t = request_target (m_request_target t ++ a).
Proof. intros Ht. rewrite Ht at 1. apply append_whole. Qed.

Lemma roomy_call n e c c' r :
  0 <= n -> call e c = Some (c', r) -> r = 0 -> roomy (data_size e + n) c -> roomy n c'.
Proof.
  intros Hn E Hr Hok. pose proof (data_size_nonneg e) as He. pose proof Hok as [Ht Hb Hv].
  destruct e as [a|a|a|k|a|k| |m u ka]; cbn [callback] in E; simpl data_size in *.
  - unfold restinio_url_cb in E. cbv zeta in E. case_match; [congruence|]. injection E as <- _.
    split; simpl; [|lia|lia]. rewrite append_target_whole by done. done.
  - unfold restinio_header_field_cb in E. repeat case_match; simplify_eq; split; simpl; try done; lia.
  - unfold restinio_header_value_cb in E. cbv zeta in E. pose proof (size_nonneg a).
    destruct (m_last_was_value c); simpl in E.
    + destruct (append_last_field a (fields_of c)) as [f|]; [|done].
      assert (Hs : roomy (size a + n) (set_fields_of f c)) by by apply roomy_fields.
      assert (Hx : m_last_value_total_size (set_fields_of f c) = m_last_value_total_size c)
        by (unfold set_fields_of; by destruct (m_leading_headers_completed c)).
      case_match; simplify_eq. destruct Hs as [Ht' Hb' Hv']. split; simpl; [done|lia|].
      unfold wrap. rewrite Z.mod_small by lia. lia.
    + assert (Hs : roomy (size a + n) (set_fields_of (add_field (m_current_field_name c) a (fields_of c)) c))
        by by apply roomy_fields.
      case_match; simplify_eq. destruct Hs as [Ht' Hb' Hv']. pose proof (size_nonneg (m_body c)).
      split; simpl; [done|lia|].
      split; [lia|]. revert Hb. simpl. lia.
  - unfold restinio_headers_complete_cb in E. repeat case_match; simplify_eq; split; simpl; try done; lia.
  - unfold restinio_body_cb in E. case_match; simplify_eq. split; simpl; [done| |lia]. rewrite octets_size_app. lia.
  - unfold restinio_chunk_header_cb in E. repeat case_match; simplify_eq; split; simpl; try done; lia.
  - unfold restinio_chunk_complete_cb in E. simplify_eq. by split.
  - unfold restinio_message_complete_cb in E. cbv zeta in E.
    destruct u; repeat case_match; simplify_eq; by split.
Qed.

Lemma append_last_twice a b f :
  append_last_field (a ++ b) f
  = match append_last_field a f with Ok f => append_last_field b f | Throw w => Throw w end.
Proof.
  unfold append_last_field. destruct (rev f) as [|x r]; [done|]. rewrite rev_app_distr. simpl.
  rewrite rev_involutive. unfold append_value. simpl. by rewrite <- app_assoc.
Qed.

Lemma append_last_added n a b f :
  append_last_field b (add_field n a f) = Ok (add_field n (a ++ b) f).
Proof. unfold append_last_field, add_field. rewrite rev_app_distr. simpl. by rewrite rev_involutive. Qed.

Lemma fields_of_set f c : fields_of (set_fields_of f c) = f.
Proof. unfold fields_of, set_fields_of. by destruct (m_leading_headers_completed c) eqn:E; simpl; rewrite E. Qed.

Lemma set_fields_twice f g c : set_fields_of g (set_fields_of f c) = set_fields_of g c.
Proof. unfold set_fields_of. by destruct (m_leading_headers_completed c) eqn:E; simpl; rewrite E. Qed.

(** One piece and two with the same octets. *)
Lemma url_twice a b c n :
  roomy (size a + n) c -> process [url a; url b] c = process [url (a ++ b)] c.
Proof.
  intros [Ht _ _]. cbn [process callback]. unfold restinio_url_cb. cbv zeta.
  cbn [m_header set_header m_target with_target].
  rewrite !(append_target_whole (m_target (m_header c))) by done.
  change (m_request_target (request_target (?x ++ ?y))) with (x ++ y). rewrite !octets_size_app.
  pose proof (size_nonneg b).
  destruct (Z.ltb_spec (m_max_url_size limits) (size (m_request_target (m_target (m_header c))) + size a)).
  - change (-1 =? 0) with false. cbv iota. by rewrite (proj2 (Z.ltb_lt _ _)) by lia.
  - cbn [process callback m_header set_header m_target with_target Z.eqb]. rewrite append_whole.
    change (m_request_target (request_target (?x ++ ?y))) with (x ++ y). rewrite !octets_size_app, app_assoc.
    by rewrite Z.add_assoc.
Qed.

Lemma field_twice a b c : process [header_field a; header_field b] c = process [header_field (a ++ b)] c.
Proof.
  cbn [process callback]. unfold restinio_header_field_cb. destruct (m_last_was_value c) eqn:El; cbn.
  - destruct (_ =? m_max_field_count limits); cbn; [done|]. rewrite octets_size_app. pose proof (size_nonneg b).
    destruct (Z.ltb_spec (m_max_field_name_size limits) (size a)); cbn; [|by rewrite octets_size_app].
    by rewrite (proj2 (Z.ltb_lt _ _)) by lia.
  - rewrite app_assoc, !octets_size_app. pose proof (size_nonneg b).
    destruct (Z.ltb_spec (m_max_field_name_size limits) (size (m_current_field_name c) + size a)); cbn.
    + by rewrite (proj2 (Z.ltb_lt _ _)) by lia.
    + by rewrite !octets_size_app.
Qed.

Lemma body_twice a b c :
  roomy (size a + size b) c -> process [body a; body b] c = process [body (a ++ b)] c.
Proof.
  intros [_ Hb _]. cbn [process callback]. unfold restinio_body_cb. rewrite octets_size_app.
  pose proof (size_nonneg a). pose proof (size_nonneg b). pose proof (size_nonneg (m_body c)).
  unfold wrap. rewrite !Z.mod_small by lia.
  destruct (Z.ltb_spec (m_max_body_size limits) (size (m_body c) + size a)); cbn.
  - by rewrite (proj2 (Z.ltb_lt _ _)) by lia.
  - rewrite octets_size_app, app_assoc, Z.mod_small, Z.add_assoc by lia. by destruct (_ <? _).
Qed.

(** The context a value leaves, before its size is checked. *)
Definition with_value (a : list byte) (c : http_parser_ctx_t) : option http_parser_ctx_t :=
  if m_last_was_value c then
    match append_last_field a (fields_of c) with
    | Ok f => Some (set_last_value_total_size (m_last_value_total_size c + size a) (set_fields_of f c))
    | Throw _ => None
    end
  else Some (set_total_field_count (wrap 64 (m_total_field_count c + 1))
               (set_last_value_total_size (size a)
                  (set_name [] true (set_fields_of (add_field (m_current_field_name c) a (fields_of c)) c)))).

Lemma process_value a evs c :
  roomy (size a) c ->
  process (header_value a :: evs) c =
  match with_value a c with
  | None => undefined
  | Some c => if m_max_field_value_size limits <=? m_last_value_total_size c then refused else process evs c
  end.
Proof.
  intros [_ _ Hv]. pose proof (size_nonneg a).
  destruct c as [h bd nm lv lw ld blk mc cnt]. cbn [process callback]. unfold restinio_header_value_cb, with_value.
  unfold wrap in *. cbn in Hv. unfold fields_of, set_fields_of. destruct lw, ld; cbn -[size append_last_field wrap];
    try destruct (append_last_field a _) as [f|]; try done; cbn -[size wrap]; unfold wrap;
    rewrite ?Z.mod_small by lia; by destruct (_ <=? _).
Qed.

Lemma with_value_twice a b c :
  with_value (a ++ b) c = match with_value a c with Some c => with_value b c | None => None end.
Proof.
  destruct c as [h bd nm lv lw ld blk mc cnt]. unfold with_value, fields_of, set_fields_of. rewrite octets_size_app.
  destruct lw, ld; cbn -[size append_last_field wrap add_field]; rewrite ?append_last_twice, ?append_last_added;
    try destruct (append_last_field a _) as [f|]; try done; cbn -[size append_last_field wrap add_field];
    try destruct (append_last_field b _) as [g|]; try done; by rewrite ?Z.add_assoc.
Qed.

Lemma with_value_roomy a n c c' :
  0 <= n -> roomy (size a + n) c -> with_value a c = Some c' ->
  roomy n c' /\ size a <= m_last_value_total_size c' /\ m_last_was_value c' = true.
Proof.
  intros Hn Hc E. pose proof Hc as [Ht Hb Hv]. pose proof (size_nonneg a). pose proof (size_nonneg (m_body c)).
  unfold with_value in E.
  destruct (m_last_was_value c) eqn:El; [destruct (append_last_field a (fields_of c)) as [f|]; [|done]|];
    injection E as <-.
  - assert (Hf : roomy (size a + n) (set_fields_of f c)) by by apply roomy_fields. destruct Hf as [Ht' Hb' Hv'].
    split; [split; simpl; [done|lia|lia]|]. simpl. split; [lia|].
    unfold set_fields_of. by destruct (m_leading_headers_completed c).
  - pose proof (proj2 (roomy_fields _ (add_field (m_current_field_name c) a (fields_of c)) c) Hc) as [Ht' Hb' Hv'].
    split; [split; simpl; [done|lia|lia]|]. simpl. lia.
Qed.

Lemma with_value_grows b c c' :
  m_last_was_value c = true -> with_value b c = Some c' ->
  m_last_value_total_size c' = m_last_value_total_size c + size b.
Proof.
  unfold with_value. intros ->. destruct (append_last_field b (fields_of c)); [|done]. by intros [= <-].
Qed.

Lemma with_value_some a b c : is_Some (with_value a c) -> is_Some (with_value b c).
Proof.
  unfold with_value, append_last_field. destruct (m_last_was_value c), (rev (fields_of c)); try done; by eexists.
Qed.

Lemma value_twice a b c :
  roomy (size a + size b) c -> process [header_value a; header_value b] c = process [header_value (a ++ b)] c.
Proof.
  intros Hc. pose proof (size_nonneg a). pose proof (size_nonneg b).
  rewrite !process_value by (rewrite ?octets_size_app; eapply roomy_le; [|done]; lia).
  pose proof (with_value_twice a b c) as Hx. rewrite Hx. destruct (with_value a c) as [c1|] eqn:E; [|done].
  destruct (with_value_roomy a (size b) c c1) as (Hr & Hle & Hl); [lia|done|done|].
  rewrite process_value by done.
  destruct (Z.leb_spec (m_max_field_value_size limits) (m_last_value_total_size c1)); [|done].
  destruct (with_value_some a (a ++ b) c) as [c2 Hc2]; [by rewrite E|]. rewrite Hx in Hc2.
  rewrite Hc2, (with_value_grows _ _ _ Hl Hc2). by rewrite (proj2 (Z.leb_le _ _)) by lia.
Qed.

Lemma process_app xs ys c :
  process (xs ++ ys) c =
  match process xs c with accepted c => process ys c | refused => refused | undefined => undefined end.
Proof.
  revert c. induction xs as [|e xs IH]; intros c; [done|]. cbn [process app].
  destruct (call e c) as [[c' r]|]; [|done]. destruct (r =? 0); [apply IH|done].
Qed.

Lemma process_split x y z evs c :
  process [x; y] c = process [z] c -> process (x :: y :: evs) c = process (z :: evs) c.
Proof. intros E. change (x :: y :: evs) with ([x; y] ++ evs). by rewrite process_app, E, <- process_app. Qed.

Lemma process_join e evs c :
  roomy (data_size e + total_size evs) c -> process (e :: evs) c = process (join e evs) c.
Proof.
  intros Hc. assert (Hn : forall d evs, total_size (d :: evs) = data_size d + total_size evs) by done.
  destruct evs as [|d evs]; [by destruct e|]. pose proof (total_size_nonneg evs).
  destruct e, d; try done; cbn [join]; rewrite Hn in Hc; cbn [data_size] in Hc; apply process_split.
  - by eapply url_twice.
  - apply field_twice.
  - apply value_twice. eapply roomy_le; [|done]. lia.
  - apply body_twice. eapply roomy_le; [|done]. lia.
Qed.

Lemma process_joined evs c : roomy (total_size evs) c -> process evs c = process (joined evs) c.
Proof.
  revert c. induction evs as [|e evs IH]; intros c Hc; [done|]. cbn [joined foldr].
  rewrite <- process_join by by (change (foldr join [] evs) with (joined evs); rewrite joined_total).
  cbn [process]. destruct (call e c) as [[c' r]|] eqn:E; [|done]. destruct (Z.eqb_spec r 0); [|done].
  apply IH. eapply roomy_call; [apply total_size_nonneg|done|done|exact Hc].
Qed.

(** The request does not depend on the pieces in which it arrives: two
    sequences of callbacks that deliver the same target, field names, field values
    and body octets between the same other events are both refused, or leave the
    same context.  The sizes stay within 64 bits. *)
Theorem pieces_irrelevant (evs evs' : list event) (b : chunked_input_info_block_t) :
  joined evs = joined evs' -> total_size evs < 2 ^ 64 ->
  let start := reset (set_chunked_info_block b http_parser_ctx) in
  process evs start = process evs' start.
Proof.
  intros E Hs start. assert (total_size evs' = total_size evs) by (rewrite <- (joined_total evs'), <- E; apply joined_total).
  rewrite (process_joined evs), (process_joined evs') by (apply roomy_start; lia). by rewrite E.
Qed.

(** ** Whole messages *)

Inductive content :=
| whole (octets : list byte)                             (* Content-Length or nothing *)
| chunked (chunks : list (list byte)) (trailer : list (list byte * list byte)).

Record message := mk_message {
  msg_target : list byte;
  msg_fields : list (list byte * list byte);
  msg_content : content;
  msg_method : Z;
  msg_upgrade : bool;
  msg_keep_alive : bool
}.

Definition field_events (f : list byte * list byte) : list event := [header_field f.1; header_value f.2].
Definition chunk_events (ch : list byte) : list event := [chunk_header (size ch); body ch; chunk_complete].

(** The callbacks for the content: the last chunk is empty and the trailer is part
    of it. *)
Definition content_events (k : content) : list event :=
  match k with
  | whole [] => [headers_complete 0]
  | whole b => [headers_complete (size b); body b]
  | chunked chs tr =>
      [headers_complete uint64_max] ++ flat_map chunk_events chs
      ++ [chunk_header 0] ++ flat_map field_events tr ++ [chunk_complete]
  end.

Definition events_of (m : message) : list event :=
  [url (msg_target m)] ++ flat_map field_events (msg_fields m) ++ content_events (msg_content m)
  ++ [message_complete (msg_method m) (msg_upgrade m) (msg_keep_alive m)].

(** *** The limits, for the parts as a whole *)

Definition fits_field (f : list byte * list byte) : bool :=
  (size f.1 <=? m_max_field_name_size limits) && (size f.2 <? m_max_field_value_size limits).

Definition trailer_of (k : content) : list (list byte * list byte) :=
  match k with whole _ => [] | chunked _ tr => tr end.
Definition octets_of (k : content) : list byte :=
  match k with whole b => b | chunked chs _ => concat chs end.
Definition chunks_of (k : content) : list (list byte) :=
  match k with whole _ => [] | chunked chs _ => chs end.

(** Room for the declared length is reserved at once. *)
Definition reservable (k : content) : bool :=
  match k with whole ((_ :: _) as b) => size b <=? string_max_size | _ => true end.

Definition fits (m : message) : bool :=
  (size (msg_target m) <=? m_max_url_size limits)
  && forallb fits_field (msg_fields m ++ trailer_of (msg_content m))
  && (Z.of_nat (length (msg_fields m ++ trailer_of (msg_content m))) <=? m_max_field_count limits)
  && (size (octets_of (msg_content m)) <=? m_max_body_size limits)
  && reservable (msg_content m).

(** *** The request *)

Definition connection_of (m : message) : Response.http_connection_header_t :=
  if msg_upgrade m then Response.upgrade else if msg_keep_alive m then Response.keep_alive else Response.close.

Definition header_of (m : message) : http_request_header_t :=
  mk_request_header (from_nodejs (msg_method m)) (request_target (msg_target m)) (connection_of m)
    (map (fun f => field_by_name f.1 f.2) (msg_fields m)).

(** Where the chunks lie in the body. *)
Fixpoint chunk_infos (start : Z) (chs : list (list byte)) : list chunk_info_t :=
  match chs with [] => [] | ch :: chs => mk_chunk start (size ch) :: chunk_infos (start + size ch) chs end.

Definition block_of (k : content) : chunked_input_info_block_t :=
  mk_block (chunk_infos 0 (chunks_of k)) (map (fun f => field_by_name f.1 f.2) (trailer_of k)).

(** *** Parts of a message *)

(** Between two fields. *)
Record between (k : Z) (c : http_parser_ctx_t) : Prop := {
  btw_value : m_last_was_value c = true;
  btw_name : m_current_field_name c = [];
  btw_count : m_total_field_count c = k
}.

Definition add_fields (fs : list (list byte * list byte)) (c : http_parser_ctx_t) : http_parser_ctx_t :=
  fold_left (fun c f =>
    set_total_field_count (m_total_field_count c + 1)
      (set_last_value_total_size (size f.2)
        (set_name [] true (set_fields_of (add_field f.1 f.2 (fields_of c)) c)))) fs c.

Lemma process_field f evs c k :
  0 <= k -> k + 1 < 2 ^ 64 -> size f.2 < 2 ^ 64 -> between k c ->
  process (field_events f ++ evs) c =
  if negb (k =? m_max_field_count limits) && fits_field f then process evs (add_fields [f] c) else refused.
Proof.
  intros Hk Hk' Hs [Hl Hn Hc]. destruct f as [n v], c as [h bd nm lv lw ld blk mc cnt]. cbn in *. subst.
  unfold fits_field. cbn -[size append_last_field wrap add_field]. unfold restinio_header_field_cb. cbn -[size].
  destruct (_ =? _); cbn -[size add_field wrap]; [done|].
  rewrite Z.leb_antisym. destruct (m_max_field_name_size limits <? size n); cbn -[size add_field wrap]; [done|].
  unfold restinio_header_value_cb. cbn -[size add_field wrap]. unfold wrap.
  rewrite Z.mod_small by (unfold set_fields_of; destruct ld; cbn; lia).
  rewrite Z.ltb_antisym.
  unfold set_fields_of, fields_of. destruct ld; cbn -[size add_field]; by destruct (_ <=? size v).
Qed.

Lemma add_fields_between fs c k : between k c -> between (k + Z.of_nat (length fs)) (add_fields fs c).
Proof.
  revert c k. induction fs as [|f fs IH]; intros c k [Hl Hn Hc]; [by rewrite Z.add_0_r|].
  cbn [add_fields fold_left length]. rewrite Nat2Z.inj_succ, <- Z.add_1_l, Z.add_assoc. apply IH.
  split; simpl; [done|done|by rewrite Hc].
Qed.

Lemma process_fields fs evs c k :
  0 <= k <= m_max_field_count limits -> k + Z.of_nat (length fs) < 2 ^ 64 ->
  Forall (fun f => size f.2 < 2 ^ 64) fs -> between k c ->
  process (flat_map field_events fs ++ evs) c =
  if forallb fits_field fs && (k + Z.of_nat (length fs) <=? m_max_field_count limits)
  then process evs (add_fields fs c) else refused.
Proof.
  intros Hk Hlen Hfs. revert c k Hk Hlen. induction Hfs as [|f fs Hf Hfs IH]; intros c k Hk Hlen Hc.
  { simpl. by rewrite Z.add_0_r, (proj2 (Z.leb_le k _)) by lia. }
  cbn [flat_map length forallb] in *. rewrite <- app_assoc, (process_field f _ c k) by (done || lia).
  destruct (fits_field f) eqn:Ef; [|by rewrite andb_false_r].
  destruct (Z.eqb_spec k (m_max_field_count limits)) as [->|Hne]; cbn [negb andb].
  { by rewrite (proj2 (Z.leb_gt _ _)), andb_false_r by lia. }
  rewrite (IH _ (k + 1)); [|lia|lia|exact (add_fields_between [f] c k Hc)].
  replace (k + 1 + Z.of_nat (length fs)) with (k + Z.of_nat (S (length fs))) by lia. done.
Qed.

Abbreviation as_fields := (map (fun f => field_by_name f.1 f.2)).

(** What adding fields changes. *)
Lemma add_fields_spec fs c :
  let c' := add_fields fs c in
  m_body c' = m_body c /\ m_leading_headers_completed c' = m_leading_headers_completed c /\
  (if m_leading_headers_completed c then
     m_header c' = m_header c /\
     m_chunked_info_block c' = mk_block (m_chunks (m_chunked_info_block c))
       (m_trailing_fields (m_chunked_info_block c) ++ as_fields fs)
   else
     m_header c' = with_request_fields (m_request_fields (m_header c) ++ as_fields fs) (m_header c) /\
     m_chunked_info_block c' = m_chunked_info_block c).
Proof.
  revert c. induction fs as [|[n v] fs IH]; intros c.
  - simpl. rewrite !app_nil_r. split_and!; [done|done|].
    destruct (m_leading_headers_completed c); [by destruct (m_chunked_info_block c)|by destruct (m_header c)].
  - change (add_fields ((n, v) :: fs) c) with (add_fields fs (add_fields [(n, v)] c)).
    destruct (IH (add_fields [(n, v)] c)) as (Hb & Hl & Hh). cbv zeta in *. rewrite Hb, Hl. clear Hb Hl.
    revert Hh. generalize (add_fields fs (add_fields [(n, v)] c)) as c'. intros c' Hh.
    cbn [add_fields fold_left] in *. unfold set_fields_of, fields_of in *.
    destruct (m_leading_headers_completed c) eqn:El; cbn -[add_field] in *; rewrite ?El in *;
      destruct Hh as [-> ->]; split_and!; try done; cbn; unfold add_field.
    + by rewrite <- app_assoc.
    + by rewrite <- app_assoc.
Qed.

Definition add_chunks (chs : list (list byte)) (c : http_parser_ctx_t) : http_parser_ctx_t :=
  set_body (m_body c ++ concat chs)
    (set_chunked_info_block
       (mk_block (m_chunks (m_chunked_info_block c) ++ chunk_infos (size (m_body c)) chs)
          (m_trailing_fields (m_chunked_info_block c))) c).

Lemma process_chunks chs evs c :
  size (m_body c) <= m_max_body_size limits -> size (m_body c) + size (concat chs) < 2 ^ 64 ->
  Forall (fun ch => ch <> []) chs ->
  process (flat_map chunk_events chs ++ evs) c =
  if size (m_body c) + size (concat chs) <=? m_max_body_size limits
  then process evs (add_chunks chs c) else refused.
Proof.
  intros Hb Hsize Hch. revert c Hb Hsize. induction Hch as [|ch chs Hne Hch IH]; intros c Hb Hsize.
  { cbn [flat_map app concat size length Z.of_nat]. rewrite (proj2 (Z.leb_le _ _)) by (unfold size in *; simpl; lia).
    unfold add_chunks. cbn. rewrite !app_nil_r. by destruct c as [? ? ? ? ? ? [] ? ?]. }
  cbn [flat_map concat] in *. rewrite octets_size_app in *. pose proof (size_nonneg (concat chs)).
  assert ((size ch =? 0) = false) as E0 by (destruct ch; [done|unfold size; simpl; lia]).
  cbn [chunk_events app process callback]. unfold restinio_chunk_header_cb. rewrite E0. cbn -[size].
  unfold restinio_body_cb. cbn -[size wrap]. unfold wrap. pose proof (size_nonneg (m_body c)).
  pose proof (size_nonneg ch). rewrite Z.mod_small by lia.
  destruct (Z.ltb_spec (m_max_body_size limits) (size (m_body c) + size ch)); cbn -[size].
  { by rewrite (proj2 (Z.leb_gt _ _)) by lia. }
  rewrite IH; cbn -[size]; rewrite ?octets_size_app; [|lia|lia].
  rewrite Z.add_assoc. unfold add_chunks. cbn -[size]. by rewrite octets_size_app, <- !app_assoc.
Qed.

(** A message whose sizes are those of a 64-bit target. *)
Record sized (m : message) : Prop := {
  sized_total : total_size (events_of m) < 2 ^ 64 - 1;
  sized_count : Z.of_nat (length (msg_fields m ++ trailer_of (msg_content m))) < 2 ^ 64;
  sized_chunks : Forall (fun ch => ch <> []) (chunks_of (msg_content m));
  sized_limits : 0 <= m_max_field_count limits /\ 0 <= m_max_body_size limits
}.

(** The contexts between the parts. *)
Definition ctx_of (c : http_parser_ctx_t) (h : http_request_header_t) (b : list byte)
  (i : chunked_input_info_block_t) (leading : bool) : Prop :=
  m_header c = h /\ m_body c = b /\ m_chunked_info_block c = i /\ m_leading_headers_completed c = leading.

(** The content, from the end of the header on. *)
Lemma process_content k evs c h n :
  ctx_of c h [] empty_block false -> between n c ->
  0 <= n <= m_max_field_count limits -> n + Z.of_nat (length (trailer_of k)) < 2 ^ 64 ->
  Forall (fun f => size f.2 < 2 ^ 64) (trailer_of k) -> Forall (fun ch => ch <> []) (chunks_of k) ->
  size (octets_of k) < 2 ^ 64 - 1 -> 0 <= m_max_body_size limits ->
  if forallb fits_field (trailer_of k) && (n + Z.of_nat (length (trailer_of k)) <=? m_max_field_count limits)
     && (size (octets_of k) <=? m_max_body_size limits) && reservable k
  then exists c', process (content_events k ++ evs) c = process evs c' /\
         ctx_of c' h (octets_of k) (block_of k) true /\ m_last_was_value c' = true
  else process (content_events k ++ evs) c = refused.
Proof.
  intros (Hh & Hb & Hi & Hl) Hbt Hn Hlen Hvals Hchs Hsize Hmax.
  destruct k as [b|chs tr]; cbn [trailer_of chunks_of octets_of reservable] in *.
  - simpl forallb. rewrite (proj2 (Z.leb_le (n + _) _)) by (simpl; lia). cbn [andb content_events].
    assert (Hblock : block_of (whole b) = empty_block) by done. rewrite Hblock.
    destruct b as [|x b].
    + rewrite (proj2 (Z.leb_le _ _)) by (unfold size; simpl; lia).
      exists (set_leading_headers_completed c). split_and!; [done| |apply Hbt]. by split_and!.
    + set (bd := x :: b) in *. assert (Hpos : 0 < size bd) by (unfold size; simpl; lia).
      cbn [app process callback]. unfold restinio_headers_complete_cb.
      rewrite (proj2 (Z.eqb_neq _ _)), (proj2 (Z.ltb_lt 0 _)) by (unfold uint64_max; lia). cbn [negb andb].
      rewrite (Z.leb_antisym _ (size bd)). destruct (m_max_body_size limits <? size bd) eqn:Em; [done|].
      cbn -[size]. rewrite Z.leb_antisym. destruct (string_max_size <? size bd); [done|]. cbn -[size].
      assert (Hw : wrap 64 (size [] + size bd) = size bd)
        by (unfold wrap; change (size []) with 0; apply Z.mod_small; lia).
      unfold restinio_body_cb. cbn -[size wrap]. rewrite Hb, Hw, Em. cbn -[size].
      eexists. split_and!; [done| |apply Hbt]. by split_and!.
  - cbn [content_events app process callback]. unfold restinio_headers_complete_cb.
    change (uint64_max =? uint64_max) with true. cbn [negb andb Z.eqb].
    set (c1 := set_leading_headers_completed c).
    assert (Hb1 : m_body c1 = []) by done.
    rewrite <- !app_assoc, process_chunks; [|rewrite Hb1; done|rewrite Hb1; change (size []) with 0; lia|done].
    rewrite Hb1. change (size []) with 0. rewrite Z.add_0_l.
    destruct (Z.leb_spec (size (concat chs)) (m_max_body_size limits)); [|by rewrite andb_false_r].
    rewrite !andb_true_r.
    set (c2 := add_chunks chs c1). cbn [app process callback]. unfold restinio_chunk_header_cb. cbn [Z.eqb].
    rewrite <- app_assoc, (process_fields tr _ c2 n) by (try done; by destruct Hbt).
    destruct (_ && _); [|done]. cbn [app process callback]. unfold restinio_chunk_complete_cb. cbn [Z.eqb].
    destruct (add_fields_spec tr c2) as (H1 & H2 & H3 & H4). cbv zeta in *.
    destruct (add_fields_between tr c2 n) as [Hv _ _]; [by destruct Hbt|].
    exists (add_fields tr c2). split_and!; [done| |done]. unfold ctx_of. rewrite H1, H2, H3, H4.
    unfold c2, c1, add_chunks. cbn -[size]. rewrite Hb, Hi, Hh. by split_and!.
Qed.

Lemma total_size_app xs ys : total_size (xs ++ ys) = total_size xs + total_size ys.
Proof. induction xs as [|e xs IH]; [done|]. simpl. rewrite IH. lia. Qed.

Lemma values_small fs n : total_size (flat_map field_events fs) < n -> Forall (fun f => size f.2 < n) fs.
Proof.
  induction fs as [|f fs IH]; [done|]. cbn [flat_map]. rewrite total_size_app. cbn [field_events total_size foldr data_size].
  pose proof (size_nonneg f.1). pose proof (size_nonneg f.2). pose proof (total_size_nonneg (flat_map field_events fs)).
  intros Hn. constructor; [lia|]. apply IH. lia.
Qed.

Lemma chunks_total chs : total_size (flat_map chunk_events chs) = size (concat chs).
Proof.
  induction chs as [|ch chs IH]; [done|]. cbn [flat_map concat]. rewrite total_size_app, octets_size_app, IH. simpl. lia.
Qed.

Lemma content_total k :
  total_size (content_events k) = size (octets_of k) + total_size (flat_map field_events (trailer_of k)).
Proof.
  destruct k as [[|x b]|chs tr]; [done| |].
  - cbn [content_events total_size foldr data_size octets_of trailer_of flat_map]. lia.
  - cbn [content_events octets_of trailer_of]. rewrite !total_size_app, chunks_total. simpl. lia.
Qed.

Lemma process_message m :
  sized m ->
  if fits m
  then exists c, process (events_of m) http_parser_ctx = accepted c /\
         m_header c = header_of m /\ m_body c = octets_of (msg_content m) /\
         m_chunked_info_block c = block_of (msg_content m) /\ m_message_complete c = true
  else process (events_of m) http_parser_ctx = refused.
Proof.
  intros [Htot Hcnt Hchs [Hlc Hlb]]. destruct m as [tg fs k meth up ka].
  unfold fits, events_of in *. cbn [msg_target msg_fields msg_content msg_method msg_upgrade msg_keep_alive] in *.
  rewrite !total_size_app, content_total in Htot. rewrite length_app in Hcnt.
  set (done_ev := message_complete meth up ka) in *.
  change (total_size [url tg]) with (size tg + 0) in Htot. change (total_size [done_ev]) with 0 in Htot.
  pose proof (size_nonneg tg). pose proof (size_nonneg (octets_of k)).
  pose proof (total_size_nonneg (flat_map field_events fs)).
  pose proof (total_size_nonneg (flat_map field_events (trailer_of k))).
  cbn [app process callback]. unfold restinio_url_cb. cbv zeta.
  change (append_request_target tg (m_target (m_header http_parser_ctx))) with
    (append_request_target tg (request_target [])).
  rewrite append_whole. cbn -[size request_target fits_field callback process].
  change (m_request_target (request_target tg)) with tg. rewrite Z.leb_antisym. destruct (m_max_url_size limits <? size tg); [exact eq_refl|].
  cbn -[size request_target fits_field callback process]. set (c1 := set_header _ _).
  rewrite (process_fields fs _ c1 0) by (try done; try lia; apply values_small; lia).
  rewrite forallb_app, length_app, Nat2Z.inj_add, Z.add_0_l.
  destruct (forallb fits_field fs); [|done]. cbn [andb].
  destruct (Z.leb_spec (Z.of_nat (length fs)) (m_max_field_count limits)) as [Hf|Hf].
  2:{ rewrite (proj2 (Z.leb_gt _ _)) by lia. by rewrite andb_false_r. }
  destruct (add_fields_spec fs c1) as (Ha1 & Ha2 & Ha3 & Ha4). cbv zeta in *.
  assert (Hbt : between (Z.of_nat (length fs)) (add_fields fs c1)) by (by apply (add_fields_between fs c1 0)).
  pose proof (process_content k [done_ev] (add_fields fs c1)
    (with_request_fields (as_fields fs) (m_header c1)) (Z.of_nat (length fs))) as Hk.
  cbn [m_leading_headers_completed c1 set_header] in *.
  specialize (Hk ltac:(by split_and!) Hbt ltac:(lia) ltac:(lia) ltac:(apply values_small; lia) Hchs ltac:(lia) Hlb).
  destruct (_ && reservable k); [|done].
  destruct Hk as (c & Hc & (Hh & Hb & Hi & Hl) & Hv). rewrite Hc.
  cbn [process callback done_ev]. unfold restinio_message_complete_cb. rewrite Hv. cbn -[size from_nodejs].
  eexists. split; [done|]. unfold header_of, connection_of. cbn -[from_nodejs]. rewrite Hh.
  by destruct up, ka.
Qed.

(** *** The chunks of a body *)

Lemma chunk_views pre chs :
  size pre + size (concat chs) < 2 ^ 64 -> Forall (fun ch => ch <> []) chs ->
  Forall2 (fun ch i => make_string_view (pre ++ concat chs) i = Ok ch) chs (chunk_infos (size pre) chs).
Proof.
  intros Hs Hch. revert pre Hs. induction Hch as [|ch chs Hne Hch IH]; intros pre Hs; [constructor|].
  cbn [chunk_infos concat] in *. rewrite octets_size_app in Hs.
  assert (Hpos : 0 < size ch) by (destruct ch; [done|unfold size; simpl; lia]).
  pose proof (size_nonneg (concat chs)). pose proof (size_nonneg pre). constructor.
  - unfold make_string_view, make_string_view_nonchecked, substr, wrap. cbn [m_started_at m_size].
    change (Z.of_nat (length (pre ++ ch ++ concat chs))) with (size (pre ++ ch ++ concat chs)).
    rewrite !octets_size_app, Z.mod_small, (proj2 (Z.leb_gt _ _)), !(proj2 (Z.ltb_ge _ _)) by lia. cbn [orb].
    unfold size. rewrite !Nat2Z.id, drop_app_length, take_app_length. done.
  - rewrite app_assoc, <- octets_size_app. apply IH. by rewrite octets_size_app, <- Z.add_assoc.
Qed.

(** C16. A message of the limits' sizes becomes the request that was sent, however it
    is cut into pieces: method, target with its path and query, connection, fields
    in order, body, trailer and the chunks, each of which is viewed where it lies in
    the body.  Any other message is refused, and no sequence of pieces makes a
    callback do something undefined.  A field value must be shorter than its limit,
    everything else may reach it. *)
Theorem request_assembled (m : message) (evs : list event) :
  sized m -> joined evs = joined (events_of m) ->
  if fits m
  then exists c, process evs http_parser_ctx = accepted c /\ m_message_complete c = true /\
         m_header c = header_of m /\ m_body c = octets_of (msg_content m) /\
         m_trailing_fields (m_chunked_info_block c) = as_fields (trailer_of (msg_content m)) /\
         Forall2 (fun ch i => make_string_view (m_body c) i = Ok ch)
           (chunks_of (msg_content m)) (m_chunks (m_chunked_info_block c))
  else process evs http_parser_ctx = refused.
Proof.
  intros Hm Hj. pose proof (process_message m Hm) as H0. pose proof Hm as [Htot _ Hchs _].
  change http_parser_ctx with (reset (set_chunked_info_block empty_block http_parser_ctx)) in *.
  assert (total_size evs < 2 ^ 64) by (rewrite <- joined_total, Hj, joined_total; lia).
  rewrite process_joined, Hj, <- process_joined by (apply roomy_start; lia).
  destruct (fits m); [|done]. destruct H0 as (c & Hc & Hh & Hb & Hi & Hd).
  exists c. split_and!; try done; rewrite Hi; [done|]. rewrite Hb.
  destruct (msg_content m) as [b|chs tr] eqn:Ek; cbn -[chunk_infos make_string_view]; [constructor|].
  apply (chunk_views [] chs); [|exact Hchs]. change (size []) with 0.
  unfold events_of in Htot. rewrite !total_size_app, content_total, Ek in Htot. cbn [octets_of] in Htot.
  pose proof (total_size_nonneg [url (msg_target m)]). pose proof (total_size_nonneg (flat_map field_events (msg_fields m))).
  pose proof (total_size_nonneg (flat_map field_events (trailer_of (chunked chs tr)))).
  pose proof (total_size_nonneg [message_complete (msg_method m) (msg_upgrade m) (msg_keep_alive m)]). lia.
Qed.

End Runs.

(** ** Witnesses *)

Import NumberedMethods.

Definition small_limits : incoming_http_msg_limits_t :=
  max_url_size 10 (max_field_count 2 (max_field_value_size 4 (max_body_size 6 incoming_http_msg_limits))).

Definition sample : message :=
  mk_message (bs "/a?b") [(bs "Host", bs "h")] (chunked [bs "abc"; bs "de"] [(bs "X", bs "y")]) 1 false true.

Definition cut_events : list event :=
  [url (bs "/a"); url (bs "?b"); header_field (bs "Ho"); header_field (bs "st"); header_value []; header_value (bs "h");
   headers_complete uint64_max; chunk_header 3; body (bs "a"); body (bs "bc"); chunk_complete;
   chunk_header 2; body (bs "de"); chunk_complete;
   chunk_header 0; header_field (bs "X"); header_value (bs "y"); chunk_complete; message_complete 1 false true].

Lemma pieces_irrelevant_witness :
  exists c, process small_limits 100 cut_events http_parser_ctx = accepted c /\
    path (m_target (m_header c)) = bs "/a" /\ m_body c = bs "abcde".
Proof.
  pose proof (pieces_irrelevant small_limits 100 cut_events (events_of sample) empty_block
    ltac:(vm_compute; reflexivity) ltac:(vm_compute; reflexivity)) as E.
  cbv zeta in E. change (reset (set_chunked_info_block empty_block http_parser_ctx)) with http_parser_ctx in E.
  rewrite E. eexists. split_and!; vm_compute; reflexivity.
Defined.

Lemma request_assembled_witness :
  exists c, process small_limits 100 cut_events http_parser_ctx = accepted c /\ m_message_complete c = true /\
    Forall2 (fun ch i => make_string_view (m_body c) i = Ok ch) [bs "abc"; bs "de"]
      (m_chunks (m_chunked_info_block c)).
Proof.
  assert (Hs : sized small_limits sample).
  { split; [vm_compute; reflexivity|vm_compute; reflexivity| |split; vm_compute; discriminate].
    repeat constructor; discriminate. }
  pose proof (request_assembled small_limits 100 sample cut_events Hs ltac:(vm_compute; reflexivity)) as E.
  assert (Hf : fits small_limits 100 sample = true) by (vm_compute; reflexivity). rewrite Hf in E.
  destruct E as (c & Hc & Hd & _ & _ & _ & Hv). exists c. split_and!; [exact Hc|exact Hd|exact Hv].
Defined.

(** A value as long as [max_field_value_size] is refused, a name as long as
    [max_field_name_size] is not. *)
Lemma value_limit_is_strict :
  let l := max_field_name_size 4 (max_field_value_size 4 incoming_http_msg_limits) in
  process l 100 [header_field (bs "name"); header_value (bs "long")] http_parser_ctx = refused /\
  (exists c, process l 100 [header_field (bs "name"); header_value (bs "val")] http_parser_ctx = accepted c).
Proof. split; [reflexivity|]. eexists. reflexivity. Qed.

(** [reset] in the middle of a chunked message leaves its chunks to the next one. *)
Lemma reset_keeps_chunks :
  exists c, process incoming_http_msg_limits 100 [chunk_header 5] http_parser_ctx = accepted c /\
    m_chunks (m_chunked_info_block (reset c)) = [mk_chunk 0 5].
Proof. eexists. split; reflexivity. Qed.

End HttpInputTheorems.
