(* ===== verification/LineParser.v ===== *)
(** * A small instance of http_parser

    A parser for the concrete runs and witnesses: a request is a target that starts
    with a slash, possibly followed by a space and one field, a name and a value
    with a colon between them; it ends with a line feed, or with a caret for a
    request to upgrade.  It keeps the laws of [HttpParserLaws]. *)

From S2P Require Import Prelude HttpFields HttpHeaders Coordinator HttpResponse Router HttpInput.

Module LineParser.
Import HttpMethod HttpParser ParserCtx.

Inductive phase := at_start | in_target | before_name | in_name | in_value.

Record line_parser := mk_line {
  lp_errno : http_errno_t;
  lp_phase : phase;
  lp_read : nat;
  lp_upgrade : bool
}.

Definition lp_fail (p : line_parser) : line_parser := mk_line HPE_FAILED (lp_phase p) (lp_read p) (lp_upgrade p).
Definition lp_to (ph : phase) (p : line_parser) : line_parser :=
  mk_line (lp_errno p) ph (S (lp_read p)) (lp_upgrade p).

Inductive action :=
| act_fail
| act_skip (ph : phase)
| act_call (k : callback_t) (ph : phase)
| act_end (upgrade : bool).

Definition is_end (b : byte) : bool := Byte.eqb b x0a || Byte.eqb b "^"%byte.

Definition lp_action (ph : phase) (b : byte) : action :=
  match ph with
  | at_start => if Byte.eqb b "/"%byte then act_call (cb_url [b]) in_target else act_fail
  | in_target =>
      if is_end b then act_end (Byte.eqb b "^"%byte)
      else if Byte.eqb b " "%byte then act_skip before_name
      else act_call (cb_url [b]) in_target
  | before_name => if is_end b || Byte.eqb b ":"%byte then act_fail else act_call (cb_header_field [b]) in_name
  | in_name =>
      if is_end b then act_fail
      else if Byte.eqb b ":"%byte then act_call (cb_header_value []) in_value
      else act_call (cb_header_field [b]) in_name
  | in_value => if is_end b then act_end (Byte.eqb b "^"%byte) else act_call (cb_header_value [b]) in_value
  end.

(** [n] octets have been parsed. *)
Fixpoint lp_execute (data : list byte) (n : nat) (p : line_parser) : exec line_parser :=
  match data with
  | [] => returns p n
  | b :: data =>
      match lp_action (lp_phase p) b with
      | act_fail => returns (lp_fail p) n
      | act_skip ph => lp_execute data (S n) (lp_to ph p)
      | act_call k ph =>
          calls k (lp_to ph p) (fun r p => if r =? 0 then lp_execute data (S n) p else returns (lp_fail p) n)
      | act_end up =>
          calls cb_message_complete (mk_line HPE_OK (lp_phase p) (S (lp_read p)) up) (fun r p =>
            returns (if r =? 0 then p else lp_fail p) (S n))
      end
  end.

#[export] Instance line_http_parser : HttpParser := {|
  http_parser := line_parser;
  http_parser_init := mk_line HPE_OK at_start 0 false;
  http_parser_execute p data :=
    match lp_errno p with HPE_OK => lp_execute data 0 p | _ => returns (lp_fail p) 0 end;
  http_parser_pause p := mk_line HPE_PAUSED (lp_phase p) (lp_read p) (lp_upgrade p);
  http_errno := lp_errno;
  parser_content_length _ := 0;
  parser_method _ := 1;
  parser_upgrade := lp_upgrade;
  http_should_keep_alive _ := true;
  nread p := Z.of_nat (lp_read p)
|}.

End LineParser.
