(* ===== verification/HttpParserTheory.v ===== *)
(** * The callbacks under http_parser's laws

    What a run of http_parser with the connection's callbacks does: it always ends,
    no callback does something undefined, and the context knows whether the message
    is complete.  The small parser of the witnesses keeps the laws. *)

From S2P Require Import Prelude HttpFields HttpHeaders Coordinator HttpResponse Router HttpInput LineParser.

Module HttpParserTheory.
Import Fields RequestTarget HttpMethod Limits ChunkedInput RequestHeader ParserCtx HttpParser.

(** Whether a value may come next. *)
Fixpoint named_from (b : bool) (evs : list event) : bool :=
  match evs with
  | [] => b
  | header_field _ :: evs => named_from true evs
  | headers_complete _ :: evs => named_from false evs
  | _ :: evs => named_from b evs
  end.

Lemma values_named_app b xs ys :
  values_named b (xs ++ ys) = values_named b xs && values_named (named_from b xs) ys.
Proof.
  revert b. induction xs as [|e xs IH]; intros b; [done|]. destruct e; simpl; rewrite ?IH; try done.
  by rewrite andb_assoc.
Qed.

Lemma named_from_app b xs ys : named_from b (xs ++ ys) = named_from (named_from b xs) ys.
Proof. revert b. induction xs as [|e xs IH]; intros b; [done|]. by destruct e; simpl. Qed.

(** The context has a field for the next value. *)
Definition fit (b : bool) (c : http_parser_ctx_t) : Prop :=
  b = true -> m_last_was_value c = false \/ fields_of c <> [].

Definition complete_in (es : list (event * Z)) : bool := existsb (fun er => is_complete er.1) es.
Definition refused_in (es : list (event * Z)) : bool := existsb (fun er => er.2 =? -1) es.

Section Callbacks.
Context `{HttpParserCodes} (limits : incoming_http_msg_limits_t) (string_max_size : Z).

Lemma fields_set f c : fields_of (set_fields_of f c) = f.
Proof. unfold fields_of, set_fields_of. by destruct (m_leading_headers_completed c) eqn:E; simpl; rewrite E. Qed.

Lemma append_last_nonempty a f g : append_last_field a f = Ok g -> g <> [].
Proof. unfold append_last_field. destruct (rev f); [done|]. intros [= <-]. by destruct (rev l). Qed.

(** What a callback leaves when it returns 0. *)
Definition leaves (b b' : bool) (e : event) (c : http_parser_ctx_t) (x : http_parser_ctx_t * Z) : Prop :=
  (x.2 = 0 \/ x.2 = -1) /\
  (x.2 = 0 -> fit b' x.1 /\ m_message_complete x.1 = m_message_complete c || is_complete e).

Lemma leaves_if (t : bool) b b' e c x y :
  leaves b b' e c x -> leaves b b' e c y -> leaves b b' e c (if t then x else y).
Proof. by destruct t. Qed.

Lemma leaves_refused b b' e c c' : leaves b b' e c (c', -1).
Proof. split; [by right|done]. Qed.

Lemma leaves_ok b b' e c c' :
  fit b' c' -> m_message_complete c' = m_message_complete c || is_complete e -> leaves b b' e c (c', 0).
Proof. split; [by left|done]. Qed.

#[local] Hint Resolve leaves_if leaves_refused leaves_ok : core.

Lemma value_leaves a c :
  m_last_was_value c = false \/ fields_of c <> [] ->
  exists x, restinio_header_value_cb limits a c = Some x /\ leaves true true (header_value a) c x.
Proof.
  intros Hf. unfold restinio_header_value_cb. cbv zeta.
  assert (Hmc : forall f, m_message_complete (set_fields_of f c) = m_message_complete c)
    by (intros f; unfold set_fields_of; by destruct (m_leading_headers_completed c)).
  assert (Hfit : forall f c', fields_of c' = f -> f <> [] -> fit true c') by (intros f c' <- Hn _; by right).
  destruct (m_last_was_value c) eqn:El; cbn [negb].
  - destruct Hf as [Hf|Hf]; [done|]. destruct (append_last_field a (fields_of c)) as [f|w] eqn:Ef.
    + eexists. split; [done|]. apply leaves_if; [done|]. apply leaves_ok; [|simpl; by rewrite Hmc, orb_false_r].
      apply (Hfit f); [|by eapply append_last_nonempty]. apply (fields_set f c).
    + unfold append_last_field in Ef. destruct (rev (fields_of c)) eqn:Er; [|done].
      destruct Hf. rewrite <- (rev_involutive (fields_of c)), Er. done.
  - eexists. split; [done|]. apply leaves_if; [done|]. apply leaves_ok; [|simpl; by rewrite Hmc, orb_false_r].
    apply (Hfit (add_field (m_current_field_name c) a (fields_of c))); [apply (fields_set _ c)|].
    unfold add_field. by destruct (fields_of c).
Qed.

(** One callback. *)
Lemma callback_spec e c b :
  fit b c -> values_named b [e] = true ->
  exists x, callback limits string_max_size e c = Some x /\ leaves b (named_from b [e]) e c x.
Proof.
  intros Hf Hv. destruct e as [a|a|a|k|a|k| |m u ka]; cbn [callback values_named named_from] in *.
  3:{ rewrite andb_true_r in Hv. subst b. by apply value_leaves, Hf. }
  all: eexists; split; [done|].
  - unfold restinio_url_cb. cbv zeta. apply leaves_if; [done|]. apply leaves_ok; [exact Hf|by rewrite orb_false_r].
  - unfold restinio_header_field_cb. cbv zeta. repeat (apply leaves_if; [done|]).
    apply leaves_ok; [|by destruct (m_last_was_value c); rewrite orb_false_r].
    intros _. left. by destruct (m_last_was_value c).
  - unfold restinio_headers_complete_cb. cbn. repeat apply leaves_if; try done;
      (apply leaves_ok; [by intros ?|by rewrite orb_false_r]).
  - unfold restinio_body_cb. apply leaves_if; [done|]. apply leaves_ok; [exact Hf|by rewrite orb_false_r].
  - unfold restinio_chunk_header_cb. apply leaves_if; apply leaves_ok; try (by rewrite orb_false_r); [exact Hf|].
    intros Hb. specialize (Hf Hb). unfold fields_of in *. simpl. by destruct (m_leading_headers_completed c).
  - apply leaves_ok; [exact Hf|by rewrite orb_false_r].
  - unfold restinio_message_complete_cb. cbv zeta. apply leaves_ok; [|by rewrite orb_true_r].
    intros Hb. specialize (Hf Hb). destruct c as [h bd nm lv lw ld blk mc cnt]. unfold fields_of in *. cbn in *.
    destruct u, lw, nm, ld; cbn in *; try done; by auto.
Qed.

(** The same for any context in which the callback is defined. *)
Lemma callback_complete e c x :
  callback limits string_max_size e c = Some x ->
  (x.2 = 0 \/ x.2 = -1) /\ (x.2 = 0 -> m_message_complete x.1 = m_message_complete c || is_complete e).
Proof.
  intros Hx. destruct e as [a|a|a|k|a|k| |m u ka].
  3:{ cbn [callback] in Hx. unfold restinio_header_value_cb in Hx. cbv zeta in Hx. rewrite orb_false_r.
      destruct c as [h bd nm lv lw ld blk mc cnt]. unfold fields_of, set_fields_of in Hx.
      destruct lw, ld; cbn -[append_last_field add_field size wrap] in Hx;
        try (destruct (append_last_field a _); [|done]); case_match; simplify_eq; simpl; by auto. }
  all: match type of Hx with callback _ _ ?e _ = _ =>
      destruct (callback_spec e c false) as (x' & Hx' & Hr & Hc); [done|done|] end;
    rewrite Hx in Hx'; injection Hx' as <-; (split; [done|]); intros E; by apply Hc.
Qed.

(** ** Runs *)

Context {P : HttpParser}.

Lemma run_exists (x : exec http_parser) : exists es p n, run x es p n.
Proof.
  induction x as [p n|k p resume IH]; [by exists [], p, n; constructor|].
  destruct (IH 0 (after_callback k p)) as (es & p' & n & Hr).
  exists ((observed k (after_callback k p), 0) :: es), p', n. by constructor.
Qed.

(** The promises about the callbacks of a run that concern the context. *)
Definition orderly (b : bool) (x : exec http_parser) : Prop :=
  forall es p' n, run x es p' n ->
    values_named b (map fst es) = true /\ (forall es1 e es2, es = es1 ++ (e, -1) :: es2 -> es2 = []).

Lemma orderly_first b k p resume :
  orderly b (calls k p resume) -> values_named b [observed k (after_callback k p)] = true.
Proof.
  intros Ho. destruct (run_exists (resume 0 (after_callback k p))) as (es & p' & n & Hr).
  destruct (Ho _ _ _ (run_calls k p resume 0 es p' n Hr)) as [Hv _]. simpl map in Hv.
  change (observed k (after_callback k p) :: map fst es) with ([observed k (after_callback k p)] ++ map fst es) in Hv.
  rewrite values_named_app in Hv. by apply andb_prop in Hv as [? _].
Qed.

Lemma orderly_rest b k p resume r :
  orderly b (calls k p resume) ->
  orderly (named_from b [observed k (after_callback k p)]) (resume r (after_callback k p)).
Proof.
  intros Ho es p' n Hr. destruct (Ho _ _ _ (run_calls k p resume r es p' n Hr)) as [Hv Hl]. split.
  - simpl map in Hv.
    change (observed k (after_callback k p) :: map fst es) with ([observed k (after_callback k p)] ++ map fst es) in Hv.
    rewrite values_named_app in Hv. by apply andb_prop in Hv as [_ ?].
  - intros es1 e es2 ->. by apply (Hl ((observed k (after_callback k p), r) :: es1) e es2).
Qed.

(** A refusal is followed by nothing. *)
Lemma orderly_refused b k p resume :
  orderly b (calls k p resume) -> exists p' n, resume (-1) (after_callback k p) = returns p' n.
Proof.
  intros Ho. destruct (resume (-1) (after_callback k p)) as [p' n|k' p' resume'] eqn:E; [by eauto|].
  destruct (run_exists (resume' 0 (after_callback k' p'))) as (es & p'' & n & Hr).
  assert (Hr' : run (resume (-1) (after_callback k p)) ((observed k' (after_callback k' p'), 0) :: es) p'' n)
    by (rewrite E; by constructor).
  destruct (Ho _ _ _ (run_calls k p resume (-1) _ p'' n Hr')) as [_ Hl]. by specialize (Hl [] _ _ eq_refl).
Qed.

Lemma run_callbacks_spec (x : exec http_parser) : forall b c, fit b c -> orderly b x ->
  exists es p' n c', run_callbacks limits string_max_size x c = Some (p', n, c') /\ run x es p' n /\
    (refused_in es = false ->
       fit (named_from b (map fst es)) c' /\ m_message_complete c' = m_message_complete c || complete_in es /\
       Forall (fun er => er.2 = 0) es).
Proof.
  induction x as [p n|k p resume IH]; intros b c Hf Ho.
  - exists [], p, n, c. split; [done|]. split; [constructor|]. intros _. by rewrite orb_false_r.
  - destruct (callback_spec (observed k (after_callback k p)) c b Hf (orderly_first _ _ _ _ Ho))
      as ([c1 r] & Hc & Hr & Hl). cbn [fst snd] in *. cbn [run_callbacks]. cbv zeta. rewrite Hc.
    cbn [mbind option_bind]. destruct Hr as [->| ->].
    + destruct (Hl eq_refl) as [Hf1 Hm1].
      destruct (IH 0 (after_callback k p) _ c1 Hf1 (orderly_rest _ _ _ _ 0 Ho)) as (es & p' & n & c' & Hx & Hrun & Hes).
      exists ((observed k (after_callback k p), 0) :: es), p', n, c'. split; [done|]. split; [by constructor|].
      intros Hre. destruct (Hes Hre) as (Hf' & Hm' & H0).
      split_and!; [change (fit (named_from b ([observed k (after_callback k p)] ++ map fst es)) c');
              by rewrite named_from_app| |by constructor].
      cbn [complete_in existsb fst]. rewrite Hm', Hm1. by rewrite <- orb_assoc.
    + destruct (orderly_refused _ _ _ _ Ho) as (p' & n & E). rewrite E. cbn [run_callbacks].
      exists [(observed k (after_callback k p), -1)], p', n, c1. split; [done|].
      split; [constructor; rewrite E; constructor|]. intros Hre. discriminate Hre.
Qed.

(** What is known of a run in any context, if it is defined. *)
Lemma run_callbacks_some (x : exec http_parser) : forall c p' n c',
  (forall es p'' m es1 e es2, run x es p'' m -> es = es1 ++ (e, -1) :: es2 -> es2 = []) ->
  run_callbacks limits string_max_size x c = Some (p', n, c') ->
  exists es, run x es p' n /\ (refused_in es = false ->
    m_message_complete c' = m_message_complete c || complete_in es /\ Forall (fun er => er.2 = 0) es).
Proof.
  induction x as [p m|k p resume IH]; intros c p' n c' Hl Hx.
  { injection Hx as <- <- <-. exists []. split; [constructor|]. intros _. by rewrite orb_false_r. }
  cbn [run_callbacks] in Hx. cbv zeta in Hx.
  destruct (callback _ _ _ c) as [[c1 r]|] eqn:Ec; [|done]. cbn [mbind option_bind] in Hx.
  destruct (callback_complete _ _ _ Ec) as [Hr Hc1]. cbn [fst snd] in *.
  destruct (IH r (after_callback k p) c1 p' n c') as (es & Hrun & Hes); [|done|].
  { intros es p'' m es1 e es2 H0 ->.
    by apply (Hl _ p'' m ((observed k (after_callback k p), r) :: es1) e es2 (run_calls k p resume r _ p'' m H0)). }
  exists ((observed k (after_callback k p), r) :: es). split; [by constructor|].
  cbn [refused_in existsb snd]. intros Hre. apply orb_false_elim in Hre as [Hre1 Hre2].
  destruct Hr as [->| ->]; [|done]. destruct (Hes Hre2) as [Hm H0]. split; [|by constructor].
  cbn [complete_in existsb fst]. by rewrite Hm, (Hc1 eq_refl), orb_assoc.
Qed.

(** ** Whole executions *)

Context {L : HttpParserLaws P}.

(** A parser in the middle of a message, and its context. *)
Definition live (p : http_parser) (c : http_parser_ctx_t) : Prop :=
  (exists evs, since_init evs p) /\ http_errno p = HPE_OK /\ m_message_complete c = false.

(** The context is the one the callbacks have made. *)
Definition ready (p : http_parser) (c : http_parser_ctx_t) : Prop :=
  exists evs, since_init evs p /\ http_errno p = HPE_OK /\ fit (named_from false evs) c /\
    m_message_complete c = false.

Lemma ready_live p c : ready p c -> live p c.
Proof. intros (evs & Hs & He & _ & Hm). split_and!; [by exists evs|done|done]. Qed.

Lemma ready_start c : ready http_parser_init (ParserCtx.reset c).
Proof using L. exists []. split_and!; [constructor|apply init_ok|done|done]. Qed.

(** How an execution may end. *)
Definition ends (data : list byte) (p' : http_parser) (n : nat) (c' : http_parser_ctx_t)
  (middle : Prop) : Prop :=
  (n <= length data)%nat /\
  (http_errno p' = HPE_FAILED
   \/ http_errno p' = HPE_PAUSED /\ m_message_complete c' = true /\ (0 < n)%nat
   \/ http_errno p' = HPE_OK /\ m_message_complete c' = false /\ n = length data /\ middle).

Lemma run_ends evs p data es p' n c c' (middle : Prop) :
  since_init evs p -> m_message_complete c = false -> run (http_parser_execute p data) es p' n ->
  (refused_in es = false ->
     m_message_complete c' = m_message_complete c || complete_in es /\ Forall (fun er => er.2 = 0) es) ->
  (refused_in es = false -> http_errno p' = HPE_OK -> m_message_complete c' = false -> middle) ->
  ends data p' n c' middle.
Proof using L.
  intros Hs Hm Hr Hes Hmid. destruct (parsed_data _ _ _ _ _ _ Hs Hr) as [Hn Hall]. split; [done|].
  destruct (refused_in es) eqn:Ere.
  { left. apply existsb_exists in Ere as ([e r] & Hin & Hre). apply in_split in Hin as (es1 & es2 & E).
    apply Z.eqb_eq in Hre. simpl in Hre. subst r. by destruct (refused_stops _ _ _ _ _ _ _ _ _ Hs Hr E). }
  destruct (Hes eq_refl) as (Hm' & H0). rewrite Hm, orb_false_l in Hm'. clear Hes.
  destruct (http_errno p') eqn:Ee; [|right; left|by left].
  - right; right. destruct (complete_in es) eqn:Ec.
    { destruct (complete_pauses _ _ _ _ _ _ Hs Hr Ec) as [_ Hp]. by rewrite (Hp H0) in Ee. }
    split_and!; [done|done|by apply Hall|by apply Hmid].
  - pose proof (paused_by_callback _ _ _ _ _ _ Hs Hr Ee) as Ec.
    destruct (complete_pauses _ _ _ _ _ _ Hs Hr Ec) as [Hpos _].
    split_and!; [done|by rewrite Hm'|done].
Qed.

Lemma live_ends p c data p' n c' :
  live p c -> run_callbacks limits string_max_size (http_parser_execute p data) c = Some (p', n, c') ->
  ends data p' n c' (live p' c').
Proof using L.
  intros ([evs Hs] & Hok & Hm) Hx. destruct (run_callbacks_some _ _ _ _ _ ltac:(intros; by eapply refused_stops) Hx)
    as (es & Hr & Hes).
  eapply run_ends; try done. intros Hre He Hm'. split_and!; [|done|done]. exists (evs ++ map fst es).
  by eapply since_execute.
Qed.

Lemma execution_ends p c data :
  ready p c ->
  exists p' n c',
    run_callbacks limits string_max_size (http_parser_execute p data) c = Some (p', n, c') /\
    ends data p' n c' (ready p' c').
Proof using L.
  intros (evs & Hs & Hok & Hf & Hm).
  assert (Ho : orderly (named_from false evs) (http_parser_execute p data)).
  { intros es p' n Hr. split.
    - pose proof (fields_in_order _ _ _ _ _ _ Hs Hr) as Hv. rewrite values_named_app in Hv.
      by apply andb_prop in Hv as [_ ?].
    - intros es1 e es2 E. by destruct (refused_stops _ _ _ _ _ _ _ _ _ Hs Hr E). }
  destruct (run_callbacks_spec _ _ c Hf Ho) as (es & p' & n & c' & Hx & Hr & Hes).
  exists p', n, c'. split; [done|]. eapply run_ends; try done; [intros Hre; by destruct (Hes Hre) as (_ & ? & ?)|].
  intros Hre He Hm'. destruct (Hes Hre) as (Hf' & _). exists (evs ++ map fst es).
  split_and!; [by eapply since_execute|done|by rewrite named_from_app|done].
Qed.

(** Feeding a parser that is in the middle of a message: every execution with
    the connection's callbacks ends, none of them does something undefined, no more
    than the data is consumed; and either the parser reports an error, or the
    message is complete and something was consumed, or all of the data was consumed
    and the parser is in the middle of the message. *)
Theorem execution_defined (p : http_parser) (c : http_parser_ctx_t) (data : list byte) :
  ready p c ->
  exists p' n c',
    run_callbacks limits string_max_size (http_parser_execute p data) c = Some (p', n, c') /\
    (n <= length data)%nat /\
    (http_errno p' = HPE_FAILED
     \/ http_errno p' = HPE_PAUSED /\ m_message_complete c' = true /\ (0 < n)%nat
     \/ http_errno p' = HPE_OK /\ m_message_complete c' = false /\ n = length data /\ ready p' c').
Proof using L. apply execution_ends. Qed.

End Callbacks.

(** ** The parser of the witnesses *)

Section Lines.
Import LineParser.

(** Whether a value may come next. *)
Definition lp_named (p : line_parser) : bool := match lp_phase p with in_name | in_value => true | _ => false end.

Record line_run (data : list byte) (k : nat) (p : line_parser) (es : list (event * Z)) (p' : line_parser)
  (n : nat) : Prop := {
  lr_le : (k <= n <= k + length data)%nat;
  lr_all : lp_errno p' = HPE_OK -> n = (k + length data)%nat;
  lr_complete : complete_in es = true -> (k < n)%nat /\ (Forall (fun er => er.2 = 0) es -> lp_errno p' = HPE_PAUSED);
  lr_paused : lp_errno p' = HPE_PAUSED -> complete_in es = true;
  lr_refused : forall es1 e es2, es = es1 ++ (e, -1) :: es2 -> es2 = [] /\ lp_errno p' = HPE_FAILED;
  lr_values : values_named (lp_named p) (map fst es) = true;
  lr_named : lp_errno p' = HPE_OK -> named_from (lp_named p) (map fst es) = lp_named p'
}.

Lemma line_run_failed data k p q : line_run data k p [] (lp_fail q) k.
Proof. split; try done; [lia|]. intros [|? ?] ? ?; done. Qed.

(** One more octet and its callback. *)
Lemma line_run_call data k b p ph e r es p' n :
  (lp_named p = true \/ (forall a, e <> header_value a)) ->
  is_complete e = false -> named_from (lp_named p) [e] = lp_named (lp_to ph p) ->
  (r = 0 /\ line_run data (S k) (lp_to ph p) es p' n \/ r <> 0 /\ es = [] /\ lp_errno p' = HPE_FAILED /\ n = k) ->
  line_run (b :: data) k p ((e, r) :: es) p' n.
Proof.
  intros Hv Hc0 Hn0 Hes.
  assert (Hv1 : values_named (lp_named p) [e] = true).
  { destruct Hv as [->|Hv]; [by destruct e|]. destruct e; try done. by destruct (Hv at_). }
  assert (Hmap : map fst ((e, r) :: es) = [e] ++ map fst es) by done.
  destruct Hes as [[-> [Hle Hall Hc Hp Hr Hvs Hn]]|(Hr & -> & He & ->)].
  - split; rewrite ?Hmap, ?values_named_app, ?named_from_app, ?Hv1, ?Hn0; simpl length; try done.
    + lia.
    + intros E. specialize (Hall E). lia.
    + cbn [complete_in existsb fst]. rewrite Hc0. intros E. destruct (Hc E) as [Hk H0]. split; [lia|].
      intros Hf. inversion Hf; subst. by apply H0.
    + cbn [complete_in existsb fst]. by rewrite Hc0.
    + intros [|x es1] e' es2 E; [done|]. injection E as _ E. by apply (Hr es1 e').
  - split; rewrite ?Hmap, ?values_named_app, ?Hv1; simpl length; try done; try lia; try congruence.
    + cbn [complete_in existsb fst]. by rewrite Hc0.
    + intros [|x es1] e' es2 E; injection E as E1 E2; [by subst|]. by destruct es1.
Qed.

Lemma line_run_spec data k p es p' n :
  lp_errno p = HPE_OK -> run (lp_execute data k p) es p' n -> line_run data k p es p' n.
Proof.
  revert k p es p' n. induction data as [|b data IH]; intros k p es p' n Hok Hrun.
  { inversion Hrun; subst. split; simpl; try done; try lia; [congruence|]. intros [|? ?] ? ?; done. }
  cbn [lp_execute] in Hrun. destruct (lp_action (lp_phase p) b) as [|ph|cb ph|up] eqn:Ea.
  - inversion Hrun; subst. apply line_run_failed.
  - destruct (IH (S k) (lp_to ph p) es p' n Hok Hrun) as [Hle Hall Hc Hp Hr Hvs Hn].
    assert (lp_named (lp_to ph p) = lp_named p) as Hx.
    { unfold lp_named, lp_action, is_end in *. destruct (lp_phase p); repeat case_match; by simplify_eq. }
    rewrite Hx in *. split; simpl length; try done; [lia|intros E; specialize (Hall E); lia|].
    intros E. destruct (Hc E). split; [lia|done].
  - inversion Hrun as [|? ? ? r es0 ? ? H0]; subst.
    assert (Hcb : after_callback cb (lp_to ph p) = lp_to ph p)
      by (unfold lp_action in Ea; destruct (lp_phase p); repeat case_match; by simplify_eq).
    rewrite Hcb in *. apply (line_run_call data k b p ph).
    + unfold lp_named, lp_action in *. destruct (lp_phase p); repeat case_match; simplify_eq; by auto.
    + unfold lp_action in Ea. destruct (lp_phase p); repeat case_match; by simplify_eq.
    + unfold lp_named, lp_action in *. destruct (lp_phase p); repeat case_match; by simplify_eq.
    + destruct (Z.eqb_spec r 0) as [Hr|Hr]; [left|right].
      * split; [done|]. by eapply IH; [|exact H0].
      * by inversion H0; subst.
  - inversion Hrun; subst. match goal with H : run (returns _ _) _ _ _ |- _ => inversion H; subst end.
    match goal with |- context [?r =? 0] => destruct (Z.eqb_spec r 0) as [Hr|Hr] end;
      split; simpl; try done; try lia.
    + intros _. split; [lia|done].
    + intros [|x es1] e es2 E; [|by destruct es1]. injection E as _ E _. lia.
    + intros _. split; [lia|]. intros Hf. by inversion Hf.
    + intros [|x es1] e es2 E; [by injection E as _ _ <-|]. by destruct es1.
Qed.

Lemma line_since evs p :
  since_init (P := line_http_parser) evs p ->
  lp_errno p = HPE_OK /\ values_named false evs = true /\ named_from false evs = lp_named p.
Proof.
  intros Hs. induction Hs as [|evs p data es p' n _ (Hok & Hv & Hn) Hr He]; [done|]. split; [done|].
  simpl in Hr. rewrite Hok in Hr. destruct (line_run_spec _ _ _ _ _ _ Hok Hr) as [_ _ _ _ _ Hvs Hns].
  rewrite values_named_app, named_from_app, Hv, Hn. split; [done|by apply Hns].
Qed.

#[export] Instance line_parser_laws : HttpParserLaws line_http_parser.
Proof.
  assert (Hx : forall evs p data es p' n, since_init (P := line_http_parser) evs p ->
    run (P := line_http_parser) (http_parser_execute p data) es p' n ->
    line_run data 0 p es p' n /\ values_named false (evs ++ map fst es) = true).
  { intros evs p data es p' n Hs Hr. destruct (line_since _ _ Hs) as (Hok & Hv & Hn).
    simpl in Hr. rewrite Hok in Hr. pose proof (line_run_spec _ _ _ _ _ _ Hok Hr) as Hl. split; [done|].
    rewrite values_named_app, Hv, Hn. apply Hl. }
  split; [done| | | | |]; intros evs p data es p' n; [..|intros es1 e es2|]; intros Hs Hr;
    destruct (Hx _ _ _ _ _ _ Hs Hr) as [[Hle Hall Hc Hp Hre Hvs Hns] Hevs].
  - split; [lia|]. intros E. by apply Hall.
  - intros E. by apply Hc.
  - exact Hp.
  - intros E. by apply (Hre es1 e).
  - exact Hevs.
Qed.

End Lines.

Import LineParser NumberedMethods.

Lemma execution_defined_witness :
  exists p' n c',
    run_callbacks incoming_http_msg_limits 100 (http_parser_execute http_parser_init (bs "/ab^/")) http_parser_ctx
    = Some (p', n, c') /\ n = 4%nat /\ m_message_complete c' = true.
Proof.
  destruct (execution_defined incoming_http_msg_limits 100 http_parser_init http_parser_ctx (bs "/ab^/"))
    as (p' & n & c' & Hx & _ & _).
  { exists []. split_and!; [constructor|reflexivity|intros E; discriminate E|reflexivity]. }
  exists p', n, c'. split; [exact Hx|]. vm_compute in Hx. injection Hx as _ <- <-. split; reflexivity.
Defined.

End HttpParserTheory.
