(* ===== verification/Connection.v ===== *)
(** * HTTP connections

    Model of src/web/restinio/restinio/impl/connection.hpp ([connection_t],
    [connection_input_t], [connection_factory_t]) with impl/fixed_buffer.hpp: the
    strand-serialised state machine that reads requests, calls the request handler
    and writes the responses of the coordinator group by group.

    A step of the machine is one handler of the strand: a completion of a read or
    of a write, a timer check, or a call of [write_response_parts].  The request
    handler, the after-write callbacks, the state listener and the factory of extra
    data run inside a step; what they call is a parameter, [UserCode], of the number
    of calls made outside so far, so that any stateful code is covered.  A call of
    theirs on the connection runs at once, as [asio_ns::dispatch] does.  They may throw
    a std::exception, which the handlers of the strand catch, or anything else, which
    ends the program at their noexcept boundary.

    The functions of [connection_t] call each other in a cycle that goes through the
    user.  The cycle is cut at the three calls of [entry], whose depth of nesting is
    bounded by [depth]. *)

From S2P Require Import Prelude HttpFields HttpHeaders Coordinator HttpResponse Router HttpInput OutputCtx Effects.

Module Connection.
Export Effects.
Import Buffers OutputCtx HttpMethod Limits ChunkedInput RequestHeader ParserCtx HttpParser.
Import Coordinator(response_coordinator_t, response_output_flags_t, mk_flags, final_parts, not_final_parts,
  connection_close, connection_keepalive, new_coordinator, register_new_request, append_response, pop_ready_buffers,
  is_able_to_get_more_messages, m_context_table).
Open Scope effects_scope.

(** ** State *)

Inductive connection_upgrade_stage_t :=
| no_upgrade                                      (* none *)
| pending_upgrade_handling
| wait_for_upgrade_handling_result_or_nothing.

#[global] Instance connection_upgrade_stage_t_eq_dec : EqDecision connection_upgrade_stage_t.
Proof. solve_decision. Defined.

Inductive request_handling_status_t := request_accepted | request_not_handled | request_rejected.

(** [generic_request_t] *)
Record request_t := mk_request {
  m_request_id : Z;
  m_request_header : http_request_header_t;
  m_request_body : list byte;
  m_chunked_input_info : option chunked_input_info_block_t
}.

(** The members the timer may call. *)
Inductive timeout_cb_t :=
| handle_read_timeout
| handle_request_handling_timeout
| handle_write_response_timeout
| handle_sendfile_timeout.

(** The [error_code] of a write or of a callback. *)
Inductive write_status :=
| written
| write_failed
| write_aborted                                   (* operation_aborted *)
| write_was_not_executed
| write_group_destroyed_passively.

Inductive read_result :=
| received (data : list byte)
| read_eof
| read_failed
| read_aborted.

Inductive notice_t := notice_accepted | notice_closed.

(** What the environment sees. *)
Inductive event :=
| registered                                      (* register_new_request *)
| handled (r : request_t)                         (* m_request_handler *)
| appended (id : Z) (flags : response_output_flags_t) (g : write_group_t)
| popped (g : write_group_t)                      (* the group that is written next *)
| started (o : solid_write_operation_variant_t)   (* async_write, start_sendfile_operation *)
| socket_cancelled                                (* m_socket.cancel *)
| notified (cb : Z) (st : write_status)           (* an after-write callback *)
| noticed (n : notice_t)                          (* the state listener *)
| moved_away                                      (* move_upgrade_internals *)
| assertion_failed
| closed.                                         (* m_socket.close *)

(** Calls on a connection. *)
Inductive conn_op :=
| op_write_response_parts (id : Z) (flags : response_output_flags_t) (g : write_group_t)
| op_move_upgrade_internals.

Section State.
Context {P : HttpParser}.

Record conn := mk_conn {
  m_socket_open : bool;  (* m_socket.is_open() *)
  m_parser : http_parser;
  m_parser_ctx : http_parser_ctx_t;
  m_buf : list byte;  (* the unconsumed octets of m_input.m_buf *)
  m_connection_upgrade_stage : connection_upgrade_stage_t;
  m_read_operation_is_running : bool;
  m_write_output_ctx : write_group_output_ctx_t;
  m_init_read_after_this_write : bool;
  m_response_coordinator : response_coordinator_t;
  m_current_timeout_cb : option timeout_cb_t;
  m_current_timeout_after : Z;
  m_lifetime_monitor : bool;  (* not moved away *)
  timer : bool;  (* a check is scheduled *)
  clock : Z;  (* steady_clock::now() *)
  reading : bool;  (* an async_read_some is outstanding *)
  writing : bool;  (* an async_write or a sendfile operation is outstanding *)
  outside_calls : nat;  (* how often code outside the connection was called *)
  trace : list event  (* what was observed, in order *)
}.

Definition set_socket_open (x : bool) (c : conn) : conn :=
  mk_conn x (m_parser c) (m_parser_ctx c) (m_buf c) (m_connection_upgrade_stage c)
    (m_read_operation_is_running c) (m_write_output_ctx c) (m_init_read_after_this_write c)
    (m_response_coordinator c) (m_current_timeout_cb c) (m_current_timeout_after c) (m_lifetime_monitor c)
    (timer c) (clock c) (reading c) (writing c) (outside_calls c) (trace c).
Definition set_parser (x : http_parser) (c : conn) : conn :=
  mk_conn (m_socket_open c) x (m_parser_ctx c) (m_buf c) (m_connection_upgrade_stage c)
    (m_read_operation_is_running c) (m_write_output_ctx c) (m_init_read_after_this_write c)
    (m_response_coordinator c) (m_current_timeout_cb c) (m_current_timeout_after c) (m_lifetime_monitor c)
    (timer c) (clock c) (reading c) (writing c) (outside_calls c) (trace c).
Definition set_parser_ctx (x : http_parser_ctx_t) (c : conn) : conn :=
  mk_conn (m_socket_open c) (m_parser c) x (m_buf c) (m_connection_upgrade_stage c)
    (m_read_operation_is_running c) (m_write_output_ctx c) (m_init_read_after_this_write c)
    (m_response_coordinator c) (m_current_timeout_cb c) (m_current_timeout_after c) (m_lifetime_monitor c)
    (timer c) (clock c) (reading c) (writing c) (outside_calls c) (trace c).
Definition set_buf (x : list byte) (c : conn) : conn :=
  mk_conn (m_socket_open c) (m_parser c) (m_parser_ctx c) x (m_connection_upgrade_stage c)
    (m_read_operation_is_running c) (m_write_output_ctx c) (m_init_read_after_this_write c)
    (m_response_coordinator c) (m_current_timeout_cb c) (m_current_timeout_after c) (m_lifetime_monitor c)
    (timer c) (clock c) (reading c) (writing c) (outside_calls c) (trace c).
Definition set_connection_upgrade_stage (x : connection_upgrade_stage_t) (c : conn) : conn :=
  mk_conn (m_socket_open c) (m_parser c) (m_parser_ctx c) (m_buf c) x (m_read_operation_is_running c)
    (m_write_output_ctx c) (m_init_read_after_this_write c) (m_response_coordinator c) (m_current_timeout_cb
    c) (m_current_timeout_after c) (m_lifetime_monitor c) (timer c) (clock c) (reading c) (writing c)
    (outside_calls c) (trace c).
Definition set_read_operation_is_running (x : bool) (c : conn) : conn :=
  mk_conn (m_socket_open c) (m_parser c) (m_parser_ctx c) (m_buf c) (m_connection_upgrade_stage c) x
    (m_write_output_ctx c) (m_init_read_after_this_write c) (m_response_coordinator c) (m_current_timeout_cb
    c) (m_current_timeout_after c) (m_lifetime_monitor c) (timer c) (clock c) (reading c) (writing c)
    (outside_calls c) (trace c).
Definition set_write_output_ctx (x : write_group_output_ctx_t) (c : conn) : conn :=
  mk_conn (m_socket_open c) (m_parser c) (m_parser_ctx c) (m_buf c) (m_connection_upgrade_stage c)
    (m_read_operation_is_running c) x (m_init_read_after_this_write c) (m_response_coordinator c)
    (m_current_timeout_cb c) (m_current_timeout_after c) (m_lifetime_monitor c) (timer c) (clock c) (reading
    c) (writing c) (outside_calls c) (trace c).
Definition set_init_read_after_this_write (x : bool) (c : conn) : conn :=
  mk_conn (m_socket_open c) (m_parser c) (m_parser_ctx c) (m_buf c) (m_connection_upgrade_stage c)
    (m_read_operation_is_running c) (m_write_output_ctx c) x (m_response_coordinator c)
    (m_current_timeout_cb c) (m_current_timeout_after c) (m_lifetime_monitor c) (timer c) (clock c) (reading
    c) (writing c) (outside_calls c) (trace c).
Definition set_response_coordinator (x : response_coordinator_t) (c : conn) : conn :=
  mk_conn (m_socket_open c) (m_parser c) (m_parser_ctx c) (m_buf c) (m_connection_upgrade_stage c)
    (m_read_operation_is_running c) (m_write_output_ctx c) (m_init_read_after_this_write c) x
    (m_current_timeout_cb c) (m_current_timeout_after c) (m_lifetime_monitor c) (timer c) (clock c) (reading
    c) (writing c) (outside_calls c) (trace c).
Definition set_current_timeout_cb (x : option timeout_cb_t) (c : conn) : conn :=
  mk_conn (m_socket_open c) (m_parser c) (m_parser_ctx c) (m_buf c) (m_connection_upgrade_stage c)
    (m_read_operation_is_running c) (m_write_output_ctx c) (m_init_read_after_this_write c)
    (m_response_coordinator c) x (m_current_timeout_after c) (m_lifetime_monitor c) (timer c) (clock c)
    (reading c) (writing c) (outside_calls c) (trace c).
Definition set_current_timeout_after (x : Z) (c : conn) : conn :=
  mk_conn (m_socket_open c) (m_parser c) (m_parser_ctx c) (m_buf c) (m_connection_upgrade_stage c)
    (m_read_operation_is_running c) (m_write_output_ctx c) (m_init_read_after_this_write c)
    (m_response_coordinator c) (m_current_timeout_cb c) x (m_lifetime_monitor c) (timer c) (clock c)
    (reading c) (writing c) (outside_calls c) (trace c).
Definition set_lifetime_monitor (x : bool) (c : conn) : conn :=
  mk_conn (m_socket_open c) (m_parser c) (m_parser_ctx c) (m_buf c) (m_connection_upgrade_stage c)
    (m_read_operation_is_running c) (m_write_output_ctx c) (m_init_read_after_this_write c)
    (m_response_coordinator c) (m_current_timeout_cb c) (m_current_timeout_after c) x (timer c) (clock c)
    (reading c) (writing c) (outside_calls c) (trace c).
Definition set_timer (x : bool) (c : conn) : conn :=
  mk_conn (m_socket_open c) (m_parser c) (m_parser_ctx c) (m_buf c) (m_connection_upgrade_stage c)
    (m_read_operation_is_running c) (m_write_output_ctx c) (m_init_read_after_this_write c)
    (m_response_coordinator c) (m_current_timeout_cb c) (m_current_timeout_after c) (m_lifetime_monitor c) x
    (clock c) (reading c) (writing c) (outside_calls c) (trace c).
Definition set_clock (x : Z) (c : conn) : conn :=
  mk_conn (m_socket_open c) (m_parser c) (m_parser_ctx c) (m_buf c) (m_connection_upgrade_stage c)
    (m_read_operation_is_running c) (m_write_output_ctx c) (m_init_read_after_this_write c)
    (m_response_coordinator c) (m_current_timeout_cb c) (m_current_timeout_after c) (m_lifetime_monitor c)
    (timer c) x (reading c) (writing c) (outside_calls c) (trace c).
Definition set_reading (x : bool) (c : conn) : conn :=
  mk_conn (m_socket_open c) (m_parser c) (m_parser_ctx c) (m_buf c) (m_connection_upgrade_stage c)
    (m_read_operation_is_running c) (m_write_output_ctx c) (m_init_read_after_this_write c)
    (m_response_coordinator c) (m_current_timeout_cb c) (m_current_timeout_after c) (m_lifetime_monitor c)
    (timer c) (clock c) x (writing c) (outside_calls c) (trace c).
Definition set_writing (x : bool) (c : conn) : conn :=
  mk_conn (m_socket_open c) (m_parser c) (m_parser_ctx c) (m_buf c) (m_connection_upgrade_stage c)
    (m_read_operation_is_running c) (m_write_output_ctx c) (m_init_read_after_this_write c)
    (m_response_coordinator c) (m_current_timeout_cb c) (m_current_timeout_after c) (m_lifetime_monitor c)
    (timer c) (clock c) (reading c) x (outside_calls c) (trace c).
Definition set_outside_calls (x : nat) (c : conn) : conn :=
  mk_conn (m_socket_open c) (m_parser c) (m_parser_ctx c) (m_buf c) (m_connection_upgrade_stage c)
    (m_read_operation_is_running c) (m_write_output_ctx c) (m_init_read_after_this_write c)
    (m_response_coordinator c) (m_current_timeout_cb c) (m_current_timeout_after c) (m_lifetime_monitor c)
    (timer c) (clock c) (reading c) (writing c) x (trace c).
Definition set_trace (x : list event) (c : conn) : conn :=
  mk_conn (m_socket_open c) (m_parser c) (m_parser_ctx c) (m_buf c) (m_connection_upgrade_stage c)
    (m_read_operation_is_running c) (m_write_output_ctx c) (m_init_read_after_this_write c)
    (m_response_coordinator c) (m_current_timeout_cb c) (m_current_timeout_after c) (m_lifetime_monitor c)
    (timer c) (clock c) (reading c) (writing c) (outside_calls c) x.

End State.

Section Machine.
Context {P : HttpParser} `{HttpParserCodes}.

Abbreviation M := (Effects.M conn).

Definition log (e : event) : M unit := upd (fun c => set_trace (trace c ++ [e]) c).

(** ** The outside *)

Class UserCode := {
  (* the calls the handler makes, and its answer or what it throws *)
  on_request : nat -> request_t -> list conn_op * (request_handling_status_t + exn);
  (* the calls a callback makes, and what it throws *)
  on_written : nat -> Z -> write_status -> list conn_op * option exn;
  (* what the listener and the factory throw *)
  state_changed : nat -> notice_t -> option exn;
  make_extra_data : nat -> option exn
}.

(** Some call of the user's code throws something other than a std::exception. *)
Definition throws_other {U : UserCode} : Prop :=
  (exists n r, (on_request n r).2 = inr other_exception) \/
  (exists n cb st, (on_written n cb st).2 = Some other_exception) \/
  (exists n x, state_changed n x = Some other_exception) \/
  (exists n, make_extra_data n = Some other_exception).

(** [sendfile_t] and [sendfile_operation_runner_t]: an operation may be over when
    [start] returns, with success or with an error. *)
Class SendFile := {
  sendfile_is_valid : Z -> bool;
  sendfile_timelimit : Z -> Z;
  sendfile_start : nat -> Z -> option bool
}.

(** [connection_settings_t] *)
Record connection_settings_t := mk_settings {
  m_buffer_size : nat;
  m_incoming_http_msg_limits : incoming_http_msg_limits_t;
  m_read_next_http_message_timelimit : Z;
  m_write_http_response_timelimit : Z;
  m_handle_request_timeout : Z;
  m_max_pipelined_requests : nat;
  asio_max_iov_len : nat;       (* of Asio *)
  string_max_size : Z           (* of std::string *)
}.

(** The calls at which the cycle is cut. *)
Inductive entry :=
| call_wait_for_http_message
| call_handle_current_write_ctx
| call_user (ops : list conn_op).

Section Connection.
Context {U : UserCode} {F : SendFile} (settings : connection_settings_t).
Context (self : entry -> M unit).

Definition outside : M nat :=
  do n <- gets outside_calls;
  upd (set_outside_calls (S n));;
  ret n.

Definition call_notificator (cb : Z) (st : write_status) : M unit :=
  log (notified cb st);;
  do n <- outside;
  let '(ops, thrown) := on_written n cb st in
  self (call_user ops);;
  throw_if thrown.

Definition invoke_notificator (g : write_group_t) (st : write_status) : M unit :=
  match m_after_write_notificator g with
  | Some cb => call_notificator cb st
  | None => ret tt
  end.

(** The destructor of a [write_group_t]. *)
Definition destroy_group (g : write_group_t) : M unit :=
  catch_all (invoke_notificator g write_group_destroyed_passively) (ret tt).

Definition call_state_listener (n : notice_t) : M unit :=
  log (noticed n);;
  do k <- outside;
  throw_if (state_changed k n).

(** *** Timeouts *)

Definition init_next_timeout_checking : M unit := upd (set_timer true).

Definition cancel_timeout_checking : M unit :=
  upd (set_current_timeout_cb None);;
  upd (set_timer false).

Definition schedule_operation_timeout_callback (timeout : Z) (cb : timeout_cb_t) : M unit :=
  upd (fun c => set_current_timeout_after (clock c + timeout) c);;
  upd (set_current_timeout_cb (Some cb)).

Definition coordinator_empty (c : conn) : bool :=
  Coordinator.table_empty (m_context_table (m_response_coordinator c)).
Definition coordinator_full (c : conn) : bool :=
  Coordinator.is_full (m_context_table (m_response_coordinator c)).
Definition coordinator_closed (c : conn) : bool := Coordinator.closed (m_response_coordinator c).
Definition is_transmitting (c : conn) : bool := transmitting (m_write_output_ctx c).

Definition guard_read_operation : M unit :=
  do e <- gets coordinator_empty;
  if e then schedule_operation_timeout_callback (m_read_next_http_message_timelimit settings) handle_read_timeout
  else ret tt.

Definition guard_request_handling_operation : M unit :=
  do b <- gets is_transmitting;
  if b then ret tt
  else schedule_operation_timeout_callback (m_handle_request_timeout settings) handle_request_handling_timeout.

Definition guard_write_operation : M unit :=
  schedule_operation_timeout_callback (m_write_http_response_timelimit settings) handle_write_response_timeout.

Definition guard_sendfile_operation (timelimit : Z) : M unit :=
  let timelimit := if timelimit =? 0 then m_write_http_response_timelimit settings else timelimit in
  schedule_operation_timeout_callback timelimit handle_sendfile_timeout.

(** *** Closing *)

(** [m_response_coordinator.reset()].  The callbacks run while the table is being
    emptied, but what they call finds the socket closed and leaves the table alone. *)
Definition reset_coordinator : M unit :=
  do co <- gets m_response_coordinator;
  let '(co, cbs) := Coordinator.reset co in
  upd (set_response_coordinator co);;
  foldr (fun cb rest => catch_all (call_notificator cb write_was_not_executed) (ret tt);; rest) (ret tt) cbs.

Definition close : M unit :=
  noexcept
    (upd (set_socket_open false);;
     log closed;;
     cancel_timeout_checking;;
     reset_coordinator;;
     catch_all (call_state_listener notice_closed) (ret tt)).

(** The message is only logged. *)
Definition trigger_error_and_close : M unit := close.

Definition handle_xxx_timeout : M unit := close.

Definition call_timeout_cb (cb : timeout_cb_t) : M unit :=
  match cb with
  | handle_read_timeout | handle_request_handling_timeout
  | handle_write_response_timeout | handle_sendfile_timeout => handle_xxx_timeout
  end.

Definition check_timeout_impl : M unit :=
  do now <- gets clock;
  do after <- gets m_current_timeout_after;
  if after <? now then
    do cb <- gets m_current_timeout_cb;
    match cb with Some cb => call_timeout_cb cb | None => ret tt end
  else init_next_timeout_checking.

(** *** Writing *)

Definition invoke_after_write_notificator_if_necessary (st : write_status) : M unit :=
  catch
    (do ctx <- gets m_write_output_ctx;
     match take_notificator ctx with
     | None => undef
     | Some (ctx, cb) =>
         upd (set_write_output_ctx ctx);;
         match cb with Some cb => call_notificator cb st | None => ret tt end
     end)
    (upd (fun c => set_write_output_ctx (reset_write_group (m_write_output_ctx c)) c);; raise).

Definition fail_write_group (st : write_status) : M unit :=
  invoke_after_write_notificator_if_necessary st;;
  upd (fun c => set_write_output_ctx (drop_write_group (m_write_output_ctx c)) c).

Definition finish_write_group : M unit :=
  invoke_after_write_notificator_if_necessary written;;
  upd (fun c => set_write_output_ctx (reset_write_group (m_write_output_ctx c)) c).

Definition is_written (st : write_status) : bool := match st with written => true | _ => false end.
Definition is_aborted (st : write_status) : bool := match st with write_aborted => true | _ => false end.

Definition after_write (st : write_status) : M unit :=
  noexcept
    (if is_written st then self call_handle_current_write_ctx
     else
       (if is_aborted st then ret tt else trigger_error_and_close);;
       catch (fail_write_group st) (ret tt)).

(** Starts a write; a second one at the same time would be undefined. *)
Definition start_write (o : solid_write_operation_variant_t) : M unit :=
  do busy <- gets writing;
  if busy then undef else log (started o);; upd (set_writing true).

Definition cancel_if_closed : M unit :=
  do b <- gets coordinator_closed;
  if b then log socket_cancelled else ret tt.

Definition handle_trivial_write_operation (bufs : list (list byte)) (total_size : Z) : M unit :=
  cancel_if_closed;;
  start_write (trivial_write bufs total_size);;
  guard_write_operation.

Definition handle_file_write_operation (file size : Z) : M unit :=
  cancel_if_closed;;
  guard_sendfile_operation (sendfile_timelimit file);;
  if sendfile_is_valid file then
    start_write (file_write file size);;
    do n <- outside;
    match sendfile_start n file with
    | Some ok => upd (set_writing false);; after_write (if ok then written else write_failed)
    | None => ret tt
    end
  else raise.

Definition handle_nothing_to_write : M unit :=
  do b <- gets coordinator_closed;
  if b then close
  else
    do e <- gets coordinator_empty;
    if e then guard_read_operation else guard_request_handling_operation.

(** The assertion about the status line. *)
Definition status_line_in_first_item (g : write_group_t) : bool :=
  if 0 <? m_status_line_size g then
    match m_items g with trivial_write_operation _ :: _ => true | _ => false end
  else true.

Definition init_write : M unit :=
  do full_before <- gets coordinator_full;
  do co <- gets m_response_coordinator;
  do (co, next_write_group) <- lift (pop_ready_buffers co);
  upd (set_response_coordinator co);;
  match next_write_group with
  | Some (g, _) =>
      do full_after <- gets coordinator_full;
      upd (set_init_read_after_this_write (full_before && negb full_after));;
      (if status_line_in_first_item g then ret tt else log assertion_failed);;
      log (popped g);;
      upd (fun c => set_write_output_ctx (start_next_write_group (Some g) (m_write_output_ctx c)) c);;
      self call_handle_current_write_ctx
  | None => handle_nothing_to_write
  end.

Definition init_write_if_necessary : M unit :=
  do b <- gets coordinator_closed;
  (if b then log assertion_failed else ret tt);;
  do busy <- gets is_transmitting;
  if busy then ret tt else init_write.

(** [m_response_coordinator.append_response]; a group it does not take is destroyed. *)
Definition append_to_coordinator (id : Z) (flags : response_output_flags_t) (wg : write_group_t) : M unit :=
  do co <- gets m_response_coordinator;
  match append_response id flags wg co with
  | Ok co => upd (set_response_coordinator co);; log (appended id flags wg)
  | Throw _ => destroy_group wg;; raise
  end.

Definition invoke_after_write_cb_with_error (wg : write_group_t) : M unit :=
  catch (invoke_notificator wg write_was_not_executed) (ret tt).

Definition write_response_parts_impl (id : Z) (flags : response_output_flags_t) (wg : write_group_t) : M unit :=
  do is_open <- gets m_socket_open;
  if is_open then
    do stage <- gets m_connection_upgrade_stage;
    (if bool_decide (stage = wait_for_upgrade_handling_result_or_nothing) then
       do full <- gets coordinator_full;
       if full then ret tt else catch (self call_wait_for_http_message) (destroy_group wg;; raise)
     else ret tt);;
    do b <- gets coordinator_closed;
    if b then invoke_after_write_cb_with_error wg
    else append_to_coordinator id flags wg;; init_write_if_necessary
  else invoke_after_write_cb_with_error wg.

Definition write_response_parts (id : Z) (flags : response_output_flags_t) (wg : write_group_t) : M unit :=
  noexcept (catch (write_response_parts_impl id flags wg) trigger_error_and_close).

Definition create_not_implemented_resp : list writable_item_t :=
  [trivial_write_operation
     (bs "HTTP/1.1 501 Not Implemented" ++ Response.crlf ++ bs "Connection: close" ++ Response.crlf
      ++ bs "Content-Length: 0" ++ Response.crlf ++ Response.crlf)].

(** The answer to a request that was not handled. *)
Definition refuse_request (id : Z) : M unit :=
  write_response_parts_impl id (mk_flags final_parts connection_close) (write_group create_not_implemented_resp).

(** *** Requests *)

Definition register_request : M Z :=
  do co <- gets m_response_coordinator;
  do (co, id) <- lift (register_new_request co);
  upd (set_response_coordinator co);;
  log registered;;
  ret id.

(** The request is made from the parser's context, whose strings are moved, and
    given to [m_request_handler]. *)
Definition call_request_handler (id : Z) : M request_handling_status_t :=
  do ctx <- gets m_parser_ctx;
  let '(ctx', info) := make_chunked_input_info_if_necessary ctx in
  let r := mk_request id (m_header ctx) (m_body ctx) info in
  upd (set_parser_ctx (set_body [] (set_header (moved_from (m_header ctx')) ctx')));;
  do n <- outside;
  throw_if (make_extra_data n);;
  log (handled r);;
  do k <- outside;
  let '(ops, answer) := on_request k r in
  self (call_user ops);;
  match answer with inl st => ret st | inr e => throw e end.

Definition handle_upgrade_request : M unit :=
  do id <- register_request;
  cancel_timeout_checking;;
  upd (set_connection_upgrade_stage wait_for_upgrade_handling_result_or_nothing);;
  do st <- call_request_handler id;
  match st with
  | request_accepted => ret tt
  | _ =>
      do is_open <- gets m_socket_open;
      if is_open then refuse_request id else ret tt
  end.

Definition on_request_message_complete : M unit :=
  catch
    (do up <- gets (fun c => parser_upgrade (m_parser c));
     (if up then upd (set_connection_upgrade_stage pending_upgrade_handling) else ret tt);;
     do stage <- gets m_connection_upgrade_stage;
     if bool_decide (stage = no_upgrade) then
       do id <- register_request;
       guard_request_handling_operation;;
       do st <- call_request_handler id;
       match st with
       | request_accepted =>
           do more <- gets (fun c => is_able_to_get_more_messages (m_response_coordinator c));
           if more then self call_wait_for_http_message else ret tt
       | _ => refuse_request id
       end
     else
       do e <- gets coordinator_empty;
       if e then handle_upgrade_request else ret tt)
    trigger_error_and_close.

(** *** Reading *)

Definition async_read_some : M unit :=
  do busy <- gets reading;
  if busy then undef else upd (set_reading true).

Definition consume_message : M unit :=
  do running <- gets m_read_operation_is_running;
  if running then ret tt
  else
    upd (set_read_operation_is_running true);;
    async_read_some.

(** The data is always what [m_buf] holds. *)
Definition consume_data : M unit :=
  do p <- gets m_parser;
  do ctx <- gets m_parser_ctx;
  do data <- gets m_buf;
  match run_callbacks (m_incoming_http_msg_limits settings) (string_max_size settings)
          (http_parser_execute p data) ctx with
  | None => undef
  | Some (p, nparsed, ctx) =>
      upd (set_parser p);;
      upd (set_parser_ctx ctx);;
      upd (set_buf (drop nparsed data));;
      match http_errno p with
      | HPE_FAILED => trigger_error_and_close
      | _ => if m_message_complete ctx then on_request_message_complete else consume_message
      end
  end.

Definition reset_parser : M unit :=
  upd (set_parser http_parser_init);;
  upd (fun c => set_parser_ctx (ParserCtx.reset (m_parser_ctx c)) c).

Definition wait_for_http_message : M unit :=
  reset_parser;;
  guard_read_operation;;
  do buf <- gets m_buf;
  match buf with [] => consume_message | _ => consume_data end.

Definition after_read (r : read_result) : M unit :=
  noexcept
    match r with
    | received data =>
        catch (upd (set_buf data);; consume_data) trigger_error_and_close
    | read_eof =>
        do n <- gets (fun c => nread (m_parser c));
        if n =? 0 then close else trigger_error_and_close
    | read_failed => trigger_error_and_close
    | read_aborted => ret tt
    end.

(** *** The next write operation *)

Definition finish_handling_current_write_ctx : M unit :=
  finish_write_group;;
  do b <- gets coordinator_closed;
  if b then close
  else
    do stage <- gets m_connection_upgrade_stage;
    if bool_decide (stage = no_upgrade) then
      do again <- gets m_init_read_after_this_write;
      (if again then self call_wait_for_http_message else ret tt);;
      init_write_if_necessary
    else
      do e <- gets coordinator_empty;
      if e then handle_upgrade_request else init_write_if_necessary.

Definition handle_current_write_ctx : M unit :=
  noexcept (catch
    (do ctx <- gets m_write_output_ctx;
     match extract_next_write_operation (asio_max_iov_len settings) ctx with
     | None => undef
     | Some (ctx, wo) =>
         upd (set_write_output_ctx ctx);;
         match wo with
         | trivial_write bufs n => handle_trivial_write_operation bufs n
         | file_write file n => handle_file_write_operation file n
         | none_write_operation => finish_handling_current_write_ctx
         end
     end)
    trigger_error_and_close).

(** *** Calls from outside *)

Definition move_upgrade_internals : M unit :=
  log moved_away;;
  upd (set_socket_open false);;
  upd (set_lifetime_monitor false).

Definition conn_call (o : conn_op) : M unit :=
  match o with
  | op_write_response_parts id flags g => write_response_parts id flags g
  | op_move_upgrade_internals => move_upgrade_internals
  end.

Definition init : M unit :=
  call_state_listener notice_accepted;;
  init_next_timeout_checking;;
  wait_for_http_message.

Definition enter (e : entry) : M unit :=
  match e with
  | call_wait_for_http_message => wait_for_http_message
  | call_handle_current_write_ctx => handle_current_write_ctx
  | call_user ops => foldr (fun o rest => conn_call o;; rest) (ret tt) ops
  end.

End Connection.

(** ** Steps *)

Section Steps.
Context {U : UserCode} {F : SendFile} (settings : connection_settings_t).

Fixpoint run_entry (depth : nat) (e : entry) : M unit :=
  match depth with O => deep | S depth => enter settings (run_entry depth) e end.

Inductive strand_event :=
| ev_read (r : read_result)
| ev_write (st : write_status)
| ev_timer (now : Z)
| ev_call (o : conn_op).

(** What a read may give. *)
Definition fits (r : read_result) : bool :=
  match r with received d => (0 <? length d)%nat && (length d <=? m_buffer_size settings)%nat | _ => true end.

(** What a write may end with: only a socket that was closed aborts one. *)
Definition may_end (st : write_status) (c : conn) : bool :=
  match st with
  | written | write_failed => true
  | write_aborted => negb (m_socket_open c)
  | _ => false
  end.

(** One step; [None] when the event cannot happen.  A check of the timer that was
    on its way when the timer was cancelled still runs. *)
Definition step (depth : nat) (e : strand_event) (c : conn) : option (res conn unit) :=
  let self := run_entry depth in
  match e with
  | ev_read r =>
      if reading c && fits r then
        Some ((upd (set_reading false);; upd (set_read_operation_is_running false);;
               after_read settings self r) c)
      else None
  | ev_write st =>
      if writing c && may_end st c then Some ((upd (set_writing false);; after_write self st) c) else None
  | ev_timer now =>
      if clock c <=? now then
        Some ((upd (set_timer false);; upd (set_clock now);;
               noexcept (catch (check_timeout_impl self) (trigger_error_and_close self))) c)
      else None
  | ev_call o => Some (conn_call settings self o c)
  end.

(** What [connection_factory_t::create_new_connection] makes. *)
Definition new_conn (now : Z) : conn :=
  mk_conn true http_parser_init http_parser_ctx [] no_upgrade false initial_ctx false
    (new_coordinator (m_max_pipelined_requests settings)) None 0 true false now false false 0 [].

Inductive reachable (depth : nat) (now : Z) : conn -> Prop :=
| reach_init c : init settings (run_entry depth) (new_conn now) = Ret tt c -> reachable depth now c
| reach_step e c c' :
    reachable depth now c -> step depth e c = Some (Ret tt c') -> reachable depth now c'.

(** Runs as a function: [None] when an event cannot happen or does not return. *)
Fixpoint drive (depth : nat) (es : list strand_event) (c : conn) : option conn :=
  match es with
  | [] => Some c
  | e :: es =>
      match step depth e c with
      | Some (Ret _ c) => drive depth es c
      | _ => None
      end
  end.

Definition run_events (depth : nat) (now : Z) (es : list strand_event) : option conn :=
  match init settings (run_entry depth) (new_conn now) with
  | Ret _ c => drive depth es c
  | _ => None
  end.

Lemma drive_reachable depth now es c c' :
  reachable depth now c -> drive depth es c = Some c' -> reachable depth now c'.
Proof.
  revert c. induction es as [|e es IH]; intros c Hc; cbn [drive]; [by intros [= <-]|].
  destruct (step depth e c) as [[[] c1| | | | |]|] eqn:E; try done. apply IH. by eapply reach_step.
Qed.

Lemma run_events_reachable depth now es c : run_events depth now es = Some c -> reachable depth now c.
Proof.
  unfold run_events. destruct (init _ _ _) as [[] c1| | | | |] eqn:E; try done. apply drive_reachable. by apply reach_init.
Qed.

End Steps.

End Machine.

End Connection.
