(* ===== verification/ConnectionSafety.v ===== *)
(** * Invariants of HTTP connections

    Every run of the connection of [Connection], whatever the peer sends and
    whatever the request handler and the callbacks call: its coordinator behaves as
    the one of [Coordinator], what reaches the socket is what the coordinator handed
    out, no two reads or writes overlap, and the program is terminated only for an
    exception of the user's code that is no std::exception. *)

From S2P Require Import Prelude HttpFields HttpHeaders Coordinator HttpResponse Router HttpInput OutputCtx Effects.
From S2P Require Import LineParser HttpParserTheory Connection.

Module ConnectionSafety.
Import Buffers OutputCtx HttpMethod Limits ParserCtx HttpParser HttpParserTheory Connection.
Import Coordinator(response_coordinator_t, response_output_flags_t, register_new_request, append_response,
  pop_ready_buffers, op, op_register, op_append, op_pop, h_coordinator, h_responses, h_emitted).

(** ** Observations *)

(** What an event does to the coordinator, the groups it handed out, and the items
    given to the socket. *)
Definition op_of (e : event) : list op :=
  match e with
  | registered => [op_register]
  | appended id flags g => [op_append id flags g]
  | popped _ => [op_pop]
  | _ => []
  end.
Definition popped_of (e : event) : list write_group_t := match e with popped g => [g] | _ => [] end.
Definition items_of (e : event) : list writable_item_t :=
  match e with started o => operation_items o | _ => [] end.

Definition coordinator_ops (tr : list event) : list op := flat_map op_of tr.
Definition popped_groups (tr : list event) : list write_group_t := flat_map popped_of tr.
Definition started_items (tr : list event) : list writable_item_t := flat_map items_of tr.

Lemma coordinator_ops_snoc tr e : coordinator_ops (tr ++ [e]) = coordinator_ops tr ++ op_of e.
Proof. unfold coordinator_ops. rewrite flat_map_app. simpl. by rewrite app_nil_r. Qed.
Lemma popped_groups_snoc tr e : popped_groups (tr ++ [e]) = popped_groups tr ++ popped_of e.
Proof. unfold popped_groups. rewrite flat_map_app. simpl. by rewrite app_nil_r. Qed.
Lemma started_items_snoc tr e : started_items (tr ++ [e]) = started_items tr ++ items_of e.
Proof. unfold started_items. rewrite flat_map_app. simpl. by rewrite app_nil_r. Qed.

(** What is left of the group being written. *)
Definition rest_items (ctx : write_group_output_ctx_t) : list writable_item_t :=
  match m_current_wg ctx with
  | Some g => drop (m_next_writable_item_index ctx) (m_items g)
  | None => []
  end.

(** Asio gathers at least one buffer. *)
Class HasIov (settings : connection_settings_t) : Prop := has_iov : (0 < asio_max_iov_len settings)%nat.

#[global] Typeclasses Opaque outside call_notificator invoke_notificator destroy_group call_state_listener
  cancel_timeout_checking schedule_operation_timeout_callback guard_read_operation guard_request_handling_operation
  guard_write_operation guard_sendfile_operation reset_coordinator close trigger_error_and_close
  init_write_if_necessary append_to_coordinator invoke_after_write_cb_with_error write_response_parts_impl
  write_response_parts refuse_request register_request call_request_handler handle_upgrade_request
  on_request_message_complete wait_for_http_message handle_nothing_to_write check_timeout_impl conn_call
  move_upgrade_internals bind catch.

Section Safety.
Context {P : HttpParser} {L : HttpParserLaws P} `{HttpParserCodes} {U : UserCode} {F : SendFile}.
Context (settings : connection_settings_t) {Hiov : HasIov settings}.

Definition current_of (c : conn) : option write_group_t := m_current_wg (m_write_output_ctx c).
Definition index_of (c : conn) : nat := m_next_writable_item_index (m_write_output_ctx c).

(** The history of the coordinator. *)
Definition history_of (c : conn) : Coordinator.history :=
  Coordinator.run (m_max_pipelined_requests settings) (coordinator_ops (trace c)).

Record core (c : conn) : Prop := {
  inv_writing : writing c = true -> current_of c <> None;
  inv_running : m_read_operation_is_running c = reading c;
  inv_reading : reading c = true ->
    m_buf c = [] /\ live (m_parser c) (m_parser_ctx c) /\
    (m_connection_upgrade_stage c = no_upgrade -> ready (m_parser c) (m_parser_ctx c))
}.

(** What holds as long as the connection owns its socket. *)
Record owned (c : conn) : Prop := {
  inv_index : current_of c = None -> index_of c = 0%nat;
  inv_coordinator : m_response_coordinator c = h_coordinator (history_of c);
  inv_emitted : h_emitted (history_of c) = flat_map group_tokens (popped_groups (trace c));
  inv_order : started_items (trace c) ++ rest_items (m_write_output_ctx c)
    = flat_map m_items (popped_groups (trace c))
}.

Definition inv (c : conn) : Prop := core c /\ (m_socket_open c = true -> owned c).

(** A closed socket stays closed, and the connection never goes back to handling
    ordinary requests. *)
Record sframe (c c' : conn) : Prop := {
  frame_socket : m_socket_open c = false -> m_socket_open c' = false;
  frame_stage : m_connection_upgrade_stage c <> no_upgrade -> m_connection_upgrade_stage c' <> no_upgrade
}.

(** Calls of the user leave alone a write in progress. *)
Definition frame (c c' : conn) : Prop :=
  sframe c c' /\
  (current_of c <> None -> m_write_output_ctx c' = m_write_output_ctx c /\ writing c' = writing c).

#[global] Instance sframe_refl : Reflexive sframe.
Proof. intros c. by split. Qed.
#[global] Instance sframe_trans : Transitive sframe.
Proof. intros a b c [H1 H2] [H3 H4]. split; auto. Qed.
#[global] Instance frame_refl : Reflexive frame.
Proof. by intros c. Qed.
#[global] Instance frame_trans : Transitive frame.
Proof.
  intros a b c [H1 H1'] [H2 H2']. split; [by etrans|]. intros Ha. destruct (H1' Ha) as [E1 E2].
  destruct H2' as [F1 F2]; [by unfold current_of in *; rewrite E1|]. split; congruence.
Qed.

(** ** The calls that keep the invariant *)

(** The tolerance covers what the user's code throws. *)
Class Covers (D : tolerance) : Prop := covers : throws_other -> may_throw_other D.

Section Logic.
Context (D : tolerance).

Class Safe {A} (m : M conn A) : Prop :=
  safe c : inv c -> wp D m (fun _ c' => inv c' /\ frame c c') (fun c' => inv c' /\ frame c c') c.

(** With the socket closed. *)
Class SafeClosed {A} (m : M conn A) : Prop :=
  safe_closed c : inv c -> m_socket_open c = false ->
    wp D m (fun _ c' => inv c' /\ frame c c') (fun c' => inv c' /\ frame c c') c.

Lemma http_safe_from {A} (m : M conn A) {Hm : Safe m} c0 c :
  inv c -> frame c0 c -> wp D m (fun _ c' => inv c' /\ frame c0 c') (fun c' => inv c' /\ frame c0 c') c.
Proof.
  intros Hi Hf. eapply wp_mono; [by apply (safe (m := m))| |]; intros; simpl in *; intuition; by etrans.
Qed.

Lemma http_safe_after {A} (m : M conn A) {Hm : Safe m} c0 c :
  inv c -> sframe c0 c -> wp D m (fun _ c' => inv c' /\ sframe c0 c') (fun c' => inv c' /\ sframe c0 c') c.
Proof.
  intros Hi Hf. eapply wp_mono; [by apply (safe (m := m))| |]; intros; simpl in *; unfold frame in *; intuition;
    by etrans.
Qed.

Lemma frame_closed c c' : frame c c' -> m_socket_open c = false -> m_socket_open c' = false.
Proof. intros [[Hs _] _]. exact Hs. Qed.

#[global] Instance safe_is_safe_closed {A} (m : M conn A) : Safe m -> SafeClosed m | 10.
Proof. intros Hm c Hi _. by apply Hm. Qed.

#[global] Instance safe_closed_bind {A B} (m : M conn A) (k : A -> M conn B) :
  SafeClosed m -> (forall a, SafeClosed (k a)) -> SafeClosed (bind m k).
Proof.
  intros Hm Hk c Hi Hc. apply wp_bind. eapply wp_mono; [by apply Hm| |done]. intros a c' [Hi' Hf].
  eapply wp_mono; [by apply Hk; [|eapply frame_closed]| |]; intros; simpl in *; intuition; by etrans.
Qed.

#[global] Instance safe_ret {A} (a : A) : Safe (ret a).
Proof. intros c Hi. by split. Qed.
#[global] Instance safe_raise {A} : Safe (@raise conn A).
Proof. intros c Hi. by split. Qed.
#[global] Instance safe_gets {A} (f : conn -> A) : Safe (gets f).
Proof. intros c Hi. by split. Qed.
#[global] Instance safe_lift {A} (o : outcome A) : Safe (lift o).
Proof. destruct o; apply _. Qed.

#[global] Instance safe_bind {A B} (m : M conn A) (k : A -> M conn B) :
  Safe m -> (forall a, Safe (k a)) -> Safe (bind m k).
Proof.
  intros Hm Hk c Hi. apply wp_bind. eapply wp_mono; [by apply Hm| |done].
  intros a c' [Hi' Hf]. by apply http_safe_from.
Qed.

#[global] Instance safe_catch (m h : M conn unit) : Safe m -> Safe h -> Safe (catch m h).
Proof.
  intros Hm Hh c Hi. apply wp_catch. eapply wp_mono; [by apply Hm|done|].
  intros c' [Hi' Hf]. split; [by apply http_safe_from|done].
Qed.

#[global] Instance safe_catch_all (m h : M conn unit) : Safe m -> Safe h -> Safe (catch_all m h).
Proof.
  intros Hm Hh c Hi. apply wp_catch_all. eapply wp_mono; [by apply Hm|done|].
  intros c' [Hi' Hf]. by apply http_safe_from.
Qed.

#[global] Instance safe_noexcept (m : M conn unit) : Safe m -> Quiet m -> Safe (noexcept m).
Proof. intros Hm Hq c Hi. eapply (wp_noexcept D m); by apply Hm. Qed.

Lemma safe_throw {A} (e : exn) : (e = other_exception -> may_throw_other D) -> Safe (@throw conn A e).
Proof. intros He c Hi. destruct e; [by split|]. split; [by apply He|by split]. Qed.

Lemma safe_throw_if (e : option exn) : (e = Some other_exception -> may_throw_other D) -> Safe (throw_if e).
Proof. intros He. destruct e as [e|]; [|apply safe_ret]. apply safe_throw. intros ->. by apply He. Qed.

#[global] Instance safe_if {A} (b : bool) (m n : M conn A) : Safe m -> Safe n -> Safe (if b then m else n).
Proof. by destruct b. Qed.

(** Assignments outside the invariant. *)
Class Keeps (f : conn -> conn) : Prop := keeps c : inv c -> inv (f c) /\ frame c (f c).

#[global] Instance safe_upd f : Keeps f -> Safe (upd f).
Proof. intros Hf c Hi. exact (Hf c Hi). Qed.

(** Events other than those the invariant counts. *)
Definition neutral (e : event) : Prop := op_of e = [] /\ popped_of e = [] /\ items_of e = [].

Lemma owned_log e c : neutral e -> owned c -> owned (set_trace (trace c ++ [e]) c).
Proof.
  intros (E1 & E2 & E3) [H1 H2 H4 H3]. unfold history_of in *. split; unfold history_of; simpl; [done| | |].
  - by rewrite coordinator_ops_snoc, E1, app_nil_r.
  - by rewrite coordinator_ops_snoc, popped_groups_snoc, E1, E2, !app_nil_r.
  - by rewrite popped_groups_snoc, started_items_snoc, E2, E3, !app_nil_r.
Qed.

Lemma safe_log e : neutral e -> Safe (log e).
Proof.
  intros He. apply safe_upd. intros c [[] Ho]. split; [split; [by split|]|by repeat split].
  intros Hs. apply owned_log; auto.
Qed.

End Logic.

Local Ltac keeps_tac :=
  let Ho := fresh in let Hs := fresh in
  intros ? [[] Ho]; split; [split; [by split|intros Hs; destruct (Ho Hs); by split]|by repeat split].

#[global] Instance keeps_outside n : Keeps (set_outside_calls n).
Proof. keeps_tac. Qed.
#[global] Instance keeps_timer b : Keeps (set_timer b).
Proof. keeps_tac. Qed.
#[global] Instance keeps_clock t : Keeps (set_clock t).
Proof. keeps_tac. Qed.
#[global] Instance keeps_timeout_cb cb : Keeps (set_current_timeout_cb cb).
Proof. keeps_tac. Qed.
#[global] Instance keeps_timeout_after f : Keeps (fun c => set_current_timeout_after (f c) c).
Proof. keeps_tac. Qed.
#[global] Instance keeps_init_read b : Keeps (set_init_read_after_this_write b).
Proof. keeps_tac. Qed.
#[global] Instance keeps_monitor b : Keeps (set_lifetime_monitor b).
Proof. keeps_tac. Qed.

Section Calls.
Context (D : tolerance) {Hcov : Covers D} (self : entry -> M conn unit).

(** What the calls at which the cycle is cut do. *)
Class SafeSelf : Prop := {
  safe_user ops : Safe D (self (call_user ops));
  safe_wait : Safe D (self call_wait_for_http_message);
  safe_handle c : inv c -> writing c = false -> current_of c <> None ->
    wp D (self call_handle_current_write_ctx)
      (fun _ c' => inv c' /\ sframe c c') (fun c' => inv c' /\ sframe c c') c;
  sealed_handle : Sealed (self call_handle_current_write_ctx)
}.
Context {Hself : SafeSelf}.
#[local] Existing Instances safe_user safe_wait sealed_handle.

#[global] Instance safe_outside : Safe D outside.
Proof. unfold outside. apply _. Qed.

#[global] Instance safe_call_notificator cb st : Safe D (call_notificator self cb st).
Proof using Hself Hcov.
  unfold call_notificator. apply safe_bind; [by apply safe_log|]. intros _. apply safe_bind; [apply _|]. intros n.
  destruct (on_written n cb st) as [ops thrown] eqn:E. apply safe_bind; [apply _|]. intros _. apply safe_throw_if.
  intros ->. apply Hcov. right; left. exists n, cb, st. by rewrite E.
Qed.

#[global] Instance safe_invoke_notificator g st : Safe D (invoke_notificator self g st).
Proof using Hself Hcov. unfold invoke_notificator. destruct (m_after_write_notificator g); apply _. Qed.

#[global] Instance safe_destroy_group g : Safe D (destroy_group self g).
Proof using Hself Hcov. unfold destroy_group. apply _. Qed.

#[global] Instance safe_invoke_with_error g : Safe D (invoke_after_write_cb_with_error self g).
Proof using Hself Hcov. unfold invoke_after_write_cb_with_error. apply _. Qed.

#[global] Instance safe_listener n : Safe D (call_state_listener n).
Proof using Hcov.
  unfold call_state_listener. apply safe_bind; [by apply safe_log|]. intros _. apply safe_bind; [apply _|]. intros k.
  apply safe_throw_if. intros E. apply Hcov. right; right; left. by exists k, n.
Qed.

#[global] Instance safe_cancel_timeout : Safe D cancel_timeout_checking.
Proof. unfold cancel_timeout_checking. apply _. Qed.
#[global] Instance safe_schedule t cb : Safe D (schedule_operation_timeout_callback t cb).
Proof. unfold schedule_operation_timeout_callback. apply _. Qed.
#[global] Instance safe_guard_read : Safe D (guard_read_operation settings).
Proof. unfold guard_read_operation. apply _. Qed.
#[global] Instance safe_guard_request : Safe D (guard_request_handling_operation settings).
Proof. unfold guard_request_handling_operation. apply _. Qed.
#[global] Instance safe_guard_write : Safe D (guard_write_operation settings).
Proof. unfold guard_write_operation. apply _. Qed.
#[global] Instance safe_guard_sendfile t : Safe D (guard_sendfile_operation settings t).
Proof. unfold guard_sendfile_operation. apply _. Qed.

(** *** Closing *)

Lemma closed_inv c : core c -> inv (set_socket_open false c) /\ frame c (set_socket_open false c).
Proof. intros []. split; [split; [by split|done]|by repeat split]. Qed.

#[global] Instance safe_closed_set_coordinator co : SafeClosed D (upd (set_response_coordinator co)).
Proof. intros c [[] _] Hc. split; [split; [by split|simpl; congruence]|by repeat split]. Qed.

#[global] Instance safe_closed_reset : SafeClosed D (reset_coordinator self).
Proof using Hself Hcov.
  unfold reset_coordinator. apply safe_closed_bind; [apply _|]. intros co. destruct (Coordinator.reset co) as [co' cbs].
  apply safe_closed_bind; [apply _|]. intros _. apply safe_is_safe_closed.
  induction cbs as [|cb cbs IH]; cbn [foldr]; apply _.
Qed.

#[global] Instance sealed_log e : Sealed (log e).
Proof. unfold log. apply _. Qed.
#[global] Instance sealed_reset : Sealed (reset_coordinator self).
Proof.
  unfold reset_coordinator. apply sealed_bind; [apply _|]. intros co. destruct (Coordinator.reset co) as [co' cbs].
  apply sealed_bind; [apply _|]. intros _. induction cbs as [|cb cbs IH]; cbn [foldr]; apply _.
Qed.
#[global] Instance sealed_cancel_timeout : Sealed cancel_timeout_checking.
Proof. unfold cancel_timeout_checking. apply _. Qed.
#[global] Instance sealed_close : Sealed (close self).
Proof. unfold close. apply _. Qed.
#[global] Instance sealed_trigger_error : Sealed (trigger_error_and_close self).
Proof. unfold trigger_error_and_close. apply _. Qed.

(** Closing repairs what concerns the socket. *)
Lemma close_spec c :
  core c ->
  wp D (close self) (fun _ c' => inv c' /\ frame c c' /\ m_socket_open c' = false)
    (fun c' => inv c' /\ frame c c' /\ m_socket_open c' = false) c.
Proof using Hself Hcov.
  intros Hc. destruct (closed_inv c Hc) as [Hi Hf]. unfold close.
  apply (wp_noexcept D _ _ _ (fun c' => inv c' /\ frame c c' /\ m_socket_open c' = false)).
  apply wp_bind. unfold wp at 1, upd at 1. set (c1 := set_socket_open false c) in *.
  assert (Hm : SafeClosed D (log closed;; cancel_timeout_checking;; reset_coordinator self;;
                             catch_all (call_state_listener notice_closed) (ret tt))).
  { apply safe_closed_bind; [by apply safe_is_safe_closed, safe_log|]. intros _. apply _. }
  eapply wp_mono; [by apply (Hm c1)| |]; simpl; intros; destruct_and?; split_and!; try done; try by etrans.
  all: by eapply frame_closed.
Qed.

#[global] Instance safe_close : Safe D (close self).
Proof using Hself Hcov.
  intros c [Hc _]. eapply wp_mono; [by apply close_spec| |]; simpl; intros; by destruct_and?.
Qed.
#[global] Instance safe_trigger_error : Safe D (trigger_error_and_close self).
Proof using Hself Hcov. unfold trigger_error_and_close. apply _. Qed.

#[global] Instance safe_check_timeout : Safe D (check_timeout_impl self).
Proof using Hself Hcov.
  unfold check_timeout_impl, init_next_timeout_checking. apply safe_bind; [apply _|]. intros now.
  apply safe_bind; [apply _|]. intros after. apply safe_if; [|apply _]. apply safe_bind; [apply _|].
  intros [[]|]; unfold call_timeout_cb, handle_xxx_timeout; apply _.
Qed.

#[global] Instance safe_move : Safe D move_upgrade_internals.
Proof.
  intros c [Hc Ho]. unfold move_upgrade_internals, log, wp, bind, upd. destruct Hc. simpl.
  split; [split; [by split|done]|by repeat split].
Qed.

(** *** The coordinator *)

Lemma run_snoc n ops o : Coordinator.run n (ops ++ [o]) = Coordinator.step (Coordinator.run n ops) o.
Proof. unfold Coordinator.run. by rewrite fold_left_app. Qed.

Lemma pop_nothing co co' : pop_ready_buffers co = Ok (co', None) -> co' = co.
Proof.
  unfold pop_ready_buffers. destruct (Coordinator.closed co); [done|]. destruct (Coordinator.table_empty _); [congruence|].
  destruct (Coordinator.dequeue_group _) as [[g ctx]|]; [|congruence]. destruct (Coordinator.is_complete ctx); [|congruence].
  by destruct (Coordinator.pop_response_context _).
Qed.

(** An operation of the coordinator that is recorded. *)
Lemma owned_step c o co e :
  owned c -> op_of e = [o] -> popped_of e = [] -> items_of e = [] ->
  h_coordinator (Coordinator.step (history_of c) o) = co ->
  h_emitted (Coordinator.step (history_of c) o) = h_emitted (history_of c) ->
  owned (set_trace (trace c ++ [e]) (set_response_coordinator co c)).
Proof.
  intros [H1 H2 H4 H3] E1 E2 E3 Hco He. unfold history_of in *. split; unfold history_of; simpl; [done| | |].
  - by rewrite coordinator_ops_snoc, E1, run_snoc.
  - by rewrite coordinator_ops_snoc, popped_groups_snoc, E1, E2, run_snoc, app_nil_r, He.
  - by rewrite popped_groups_snoc, started_items_snoc, E2, E3, !app_nil_r.
Qed.

Lemma recorded c o co e :
  inv c -> op_of e = [o] -> popped_of e = [] -> items_of e = [] ->
  (m_response_coordinator c = h_coordinator (history_of c) -> h_coordinator (Coordinator.step (history_of c) o) = co) ->
  (forall h, h_emitted (Coordinator.step h o) = h_emitted h) ->
  inv (set_trace (trace c ++ [e]) (set_response_coordinator co c)) /\
  frame c (set_trace (trace c ++ [e]) (set_response_coordinator co c)).
Proof.
  intros [[] Ho] E1 E2 E3 Hco He. split; [split; [by split|]|by repeat split]. intros Hs. specialize (Ho Hs).
  eapply owned_step; try done. apply Hco, Ho.
Qed.

#[global] Instance safe_register : Safe D register_request.
Proof.
  intros c Hi. unfold register_request, log, wp, bind, gets, lift.
  destruct (register_new_request (m_response_coordinator c)) as [[co id]|] eqn:E; [|by split].
  apply (recorded c op_register); try done; [intros Hco; simpl; by rewrite <- Hco, E|].
  intros h. simpl. by destruct (register_new_request (h_coordinator h)) as [[]|].
Qed.

#[global] Instance safe_append id flags g : Safe D (append_to_coordinator self id flags g).
Proof using Hself Hcov.
  unfold append_to_coordinator. intros c Hi. apply wp_bind. unfold wp at 1, gets.
  destruct (append_response id flags g (m_response_coordinator c)) as [co|] eqn:E.
  - unfold wp, bind, upd, log. apply (recorded c (op_append id flags g)); try done; [intros Hco; simpl; by rewrite <- Hco, E|].
    intros h. simpl. by destruct (append_response _ _ _ (h_coordinator h)).
  - by apply (http_safe_from D (destroy_group self g;; raise)).
Qed.

(** *** Taking the next group *)

#[global] Instance safe_nothing_to_write : Safe D (handle_nothing_to_write settings self).
Proof using Hself Hcov. unfold handle_nothing_to_write. apply _. Qed.

Lemma not_writing c : core c -> current_of c = None -> writing c = false.
Proof. intros [Hw _ _] Hn. destruct (writing c); [by destruct (Hw eq_refl)|done]. Qed.

(** The group the coordinator hands out becomes the current one. *)
Lemma popped_inv c co g id (b : bool) :
  inv c -> current_of c = None -> pop_ready_buffers (m_response_coordinator c) = Ok (co, Some (g, id)) ->
  let c1 := set_init_read_after_this_write b (set_response_coordinator co c) in
  forall tr, (tr = trace c \/ tr = trace c ++ [assertion_failed]) ->
  let c2 := set_trace (tr ++ [popped g]) (set_trace tr c1) in
  let c3 := set_write_output_ctx (start_next_write_group (Some g) (m_write_output_ctx c2)) c2 in
  inv c3 /\ writing c3 = false /\ current_of c3 <> None /\ frame c c3.
Proof.
  intros [Hc Ho] Hn Hpop c1 tr Htr c2 c3. pose proof (not_writing c Hc Hn) as Hw.
  split_and!; [|done|done|split; [by split|done]].
  destruct Hc as [H1 H2 H3]. split; [split; try done; simpl; congruence|].
  intros Hs. specialize (Ho Hs) as [Hx Hco Hem Hord].
  assert (E1 : coordinator_ops tr = coordinator_ops (trace c)) by (destruct Htr as [->| ->]; [done|];
    by rewrite coordinator_ops_snoc, app_nil_r).
  assert (E2 : popped_groups tr = popped_groups (trace c)) by (destruct Htr as [->| ->]; [done|];
    by rewrite popped_groups_snoc, app_nil_r).
  assert (E3 : started_items tr = started_items (trace c)) by (destruct Htr as [->| ->]; [done|];
    by rewrite started_items_snoc, app_nil_r).
  unfold history_of in *. split; unfold history_of; simpl; [done| | |].
  - rewrite coordinator_ops_snoc, E1. cbn [op_of]. rewrite run_snoc. simpl. by rewrite <- Hco, Hpop.
  - rewrite coordinator_ops_snoc, popped_groups_snoc, E1, E2. cbn [op_of popped_of]. rewrite run_snoc. simpl.
    rewrite <- Hco, Hpop. simpl. rewrite Hem, flat_map_app. simpl. by rewrite app_nil_r.
  - rewrite popped_groups_snoc, started_items_snoc, E2, E3, app_nil_r, flat_map_app, <- Hord. simpl.
    unfold rest_items, start_next_write_group. simpl.
    change (m_next_writable_item_index (m_write_output_ctx c)) with (index_of c). unfold current_of in Hn.
    rewrite Hn, (Hx Hn). by rewrite !app_nil_r.
Qed.

Lemma init_write_spec c :
  inv c -> current_of c = None ->
  wp D (init_write settings self) (fun _ c' => inv c' /\ frame c c') (fun c' => inv c' /\ frame c c') c.
Proof using Hself Hcov.
  intros Hi Hn. unfold init_write. apply wp_bind. unfold wp at 1, gets at 1. apply wp_bind. unfold wp at 1, gets at 1.
  apply wp_bind. unfold wp at 1, lift.
  destruct (pop_ready_buffers (m_response_coordinator c)) as [[co [[g id]|]]|] eqn:Hpop; cbn [ret raise]; [| |done].
  - apply wp_bind. unfold wp at 1, upd at 1. apply wp_bind. unfold wp at 1, gets at 1.
    apply wp_bind. unfold wp at 1, upd at 1.
    match goal with |- context [set_init_read_after_this_write ?b _] => set (fl := b) end.
    apply wp_bind.
    assert (Hgo : forall tr, tr = trace c \/ tr = trace c ++ [assertion_failed] ->
      wp D (log (popped g);;
            upd (fun c => set_write_output_ctx (start_next_write_group (Some g) (m_write_output_ctx c)) c);;
            self call_handle_current_write_ctx)
        (fun _ c' => inv c' /\ frame c c') (fun c' => inv c' /\ frame c c')
        (set_trace tr (set_init_read_after_this_write fl (set_response_coordinator co c)))).
    { intros tr Htr. destruct (popped_inv c co g id fl Hi Hn Hpop tr Htr) as (Hi3 & Hw3 & Hc3 & Hf3).
      apply wp_bind. unfold log, wp at 1, upd at 1. apply wp_bind. unfold wp at 1, upd at 1.
      eapply wp_mono; [by apply safe_handle| |]; intros; simpl in *; destruct_and?; (split; [done|]);
        (split; [by etrans; [apply Hf3|]|done]). }
    destruct (status_line_in_first_item g).
    + unfold ret, wp at 1. specialize (Hgo (trace c) (or_introl eq_refl)). by destruct c.
    + unfold log at 1, wp at 1, upd at 1. specialize (Hgo _ (or_intror eq_refl)). exact Hgo.
  - apply pop_nothing in Hpop as ->. apply wp_bind. unfold wp at 1, upd at 1.
    assert (set_response_coordinator (m_response_coordinator c) c = c) as -> by by destruct c.
    by apply (http_safe_from D (handle_nothing_to_write settings self)).
Qed.

#[global] Instance safe_init_write_if_necessary : Safe D (init_write_if_necessary settings self).
Proof using Hself Hcov.
  unfold init_write_if_necessary. apply safe_bind; [apply _|]. intros b.
  apply safe_bind; [destruct b; [by apply safe_log|apply _]|]. intros _ c Hi.
  apply wp_bind. unfold wp at 1, gets. unfold is_transmitting, transmitting.
  destruct (m_current_wg (m_write_output_ctx c)) eqn:E; [by split|]. by apply init_write_spec.
Qed.

(** *** Responses and requests *)

#[global] Instance safe_write_impl id flags g : Safe D (write_response_parts_impl settings self id flags g).
Proof using Hself Hcov. unfold write_response_parts_impl. apply _. Qed.
#[global] Instance safe_write id flags g : Safe D (write_response_parts settings self id flags g).
Proof using Hself Hcov. unfold write_response_parts. apply _. Qed.
#[global] Instance safe_refuse id : Safe D (refuse_request settings self id).
Proof using Hself Hcov. unfold refuse_request. apply _. Qed.

Lemma safe_conn_call o : Safe D (conn_call settings self o).
Proof using Hself Hcov. destruct o; cbn [conn_call]; apply _. Qed.

(** The parser's context may change when no read is outstanding, or when the
    connection is beyond ordinary requests and the message stays incomplete. *)
Definition ctx_free (c : conn) : Prop := reading c = false \/ m_connection_upgrade_stage c <> no_upgrade.

Lemma free_ctx_inv x c :
  inv c -> ctx_free c -> m_message_complete x = m_message_complete (m_parser_ctx c) ->
  inv (set_parser_ctx x c) /\ frame c (set_parser_ctx x c).
Proof.
  intros [[H1 H2 H3] Ho] Hfree Hx. split; [split; [split; try done|]|by repeat split].
  - simpl. intros Hr. destruct (H3 Hr) as (Hb & (He & Hok & Hm) & Hp). split_and!; [done| |].
    + split_and!; [done|done|by rewrite Hx].
    + intros Hst. by destruct Hfree as [Hf|Hf]; [congruence|].
  - intros Hs. by destruct (Ho Hs).
Qed.

Lemma handler_spec id c :
  inv c -> ctx_free c ->
  wp D (call_request_handler self id) (fun _ c' => inv c' /\ frame c c') (fun c' => inv c' /\ frame c c') c.
Proof using Hself Hcov.
  intros Hi Hfree. unfold call_request_handler. apply wp_bind. unfold wp at 1, gets.
  destruct (make_chunked_input_info_if_necessary _) as [ctx' info] eqn:Em. apply wp_bind. unfold wp at 1, upd at 1.
  destruct (free_ctx_inv (set_body [] (set_header (RequestHeader.moved_from (m_header ctx')) ctx')) c Hi Hfree)
    as [Hi1 Hf1].
  { unfold make_chunked_input_info_if_necessary in Em. repeat case_match; by simplify_eq. }
  apply http_safe_from; [|done|done]. apply safe_bind; [apply _|]. intros n.
  apply safe_bind; [apply safe_throw_if; intros E; apply Hcov; do 3 right; by exists n|]. intros _.
  apply safe_bind; [by apply safe_log|]. intros _. apply safe_bind; [apply _|]. intros k.
  destruct (on_request k _) as [ops answer] eqn:E. apply safe_bind; [apply _|]. intros _.
  destruct answer as [st|e]; [apply _|]. apply safe_throw. intros ->. apply Hcov. left. do 2 eexists. by rewrite E.
Qed.

Lemma stage_keeps st c : st <> no_upgrade -> inv c ->
  inv (set_connection_upgrade_stage st c) /\ frame c (set_connection_upgrade_stage st c).
Proof.
  intros Hst [[H1 H2 H3] Ho]. split; [split; [split; try done|]|by repeat split].
  - simpl. intros Hr. destruct (H3 Hr) as (? & ? & ?). by split_and!.
  - intros Hs. by destruct (Ho Hs).
Qed.

#[global] Instance safe_upgrade : Safe D (handle_upgrade_request settings self).
Proof using Hself Hcov.
  unfold handle_upgrade_request. apply safe_bind; [apply _|]. intros id. apply safe_bind; [apply _|]. intros _ c Hi.
  apply wp_bind. unfold wp at 1, upd at 1.
  destruct (stage_keeps wait_for_upgrade_handling_result_or_nothing c) as [Hi1 Hf1]; [done|done|].
  apply wp_bind. eapply wp_mono; [apply (handler_spec id); [done|by right]| |].
  - intros st c' [Hi' Hf']. apply http_safe_from; [destruct st; apply _|done|by etrans].
  - intros c' [Hi' Hf']. split; [done|by etrans].
Qed.

(** Registering a request, and waiting for its answer, with no read outstanding. *)
Lemma register_reading c :
  wp D register_request (fun _ c' => reading c' = reading c) (fun c' => reading c' = reading c) c.
Proof.
  unfold register_request, log, wp, bind, gets, lift.
  by destruct (register_new_request (m_response_coordinator c)) as [[co id]|].
Qed.

Lemma guard_reading c :
  wp D (guard_request_handling_operation settings) (fun _ c' => reading c' = reading c) (fun _ => False) c.
Proof.
  unfold guard_request_handling_operation, wp, bind, gets. by destruct (is_transmitting c).
Qed.

(** A safe call that is also known to leave reading alone. *)
Lemma safe_reading {A} (m : M conn A) {Hm : Safe D m} E c0 c :
  inv c -> frame c0 c -> wp D m (fun _ c' => reading c' = reading c) E c ->
  wp D m (fun _ c' => (inv c' /\ frame c0 c') /\ reading c' = reading c) (fun c' => inv c' /\ frame c0 c') c.
Proof.
  intros Hi Hf Hr. eapply wp_mono; [apply wp_conj; [by apply (http_safe_from D m c0)|exact Hr]|done|].
  simpl. by intros ? [? _].
Qed.

Lemma complete_spec c :
  inv c -> reading c = false ->
  wp D (on_request_message_complete settings self)
    (fun _ c' => inv c' /\ frame c c') (fun c' => inv c' /\ frame c c') c.
Proof using Hself Hcov.
  intros Hi Hr. unfold on_request_message_complete. apply wp_catch.
  eapply (wp_mono _ _ (fun _ c' => inv c' /\ frame c c') _ (fun c' => inv c' /\ frame c c'));
    [|done|intros c' [Hi' Hf']; split; [by apply http_safe_from; [apply _|..]|done]].
  apply wp_bind. unfold wp at 1, gets at 1. apply wp_bind.
  apply (wp_mono _ _ (fun _ c' => (inv c' /\ frame c c') /\ reading c' = false) _ (fun _ => False)); [| |done].
  { destruct (parser_upgrade (m_parser c)); [|done]. unfold wp, upd. split; [|done].
    by apply stage_keeps. }
  intros _ c1 [[Hi1 Hf1] Hr1]. apply wp_bind. unfold wp at 1, gets at 1.
  case_bool_decide; [|by apply http_safe_from; [apply _|..]].
  apply wp_bind. eapply wp_mono; [by eapply (safe_reading register_request), register_reading| |done].
  intros id c2 [[Hi2 Hf2] Hr2]. apply wp_bind.
  eapply wp_mono; [by eapply (safe_reading (guard_request_handling_operation settings)), guard_reading| |done].
  intros _ c3 [[Hi3 Hf3] Hr3]. apply wp_bind.
  eapply wp_mono; [apply (handler_spec id c3 Hi3); left; congruence| |].
  - intros st c4 [Hi4 Hf4]. apply http_safe_from; [destruct st; apply _|done|by etrans].
  - intros c4 [Hi4 Hf4]. split; [done|by etrans].
Qed.

(** *** Reading *)

Definition parser_ready (c : conn) : Prop := ready (m_parser c) (m_parser_ctx c).
Definition parser_live (c : conn) : Prop := live (m_parser c) (m_parser_ctx c).

Lemma consume_message_spec c :
  inv c -> m_buf c = [] -> parser_live c -> (m_connection_upgrade_stage c = no_upgrade -> parser_ready c) ->
  wp D consume_message (fun _ c' => inv c' /\ frame c c') (fun c' => inv c' /\ frame c c') c.
Proof.
  intros Hi Hb Hl Hp. pose proof Hi as [[H1 H2 H3] Ho].
  unfold consume_message, async_read_some, wp, bind, gets, upd.
  destruct (m_read_operation_is_running c) eqn:Er; [by split|]. simpl. rewrite <- H2. simpl.
  split; [split; [by split|]|by repeat split]. intros Hs. by destruct (Ho Hs).
Qed.

(** The parser and its buffer change together, with no read outstanding. *)
Lemma parsed_inv p ctx b c :
  inv c -> reading c = false ->
  let c' := set_buf b (set_parser_ctx ctx (set_parser p c)) in inv c' /\ frame c c'.
Proof.
  intros [[H1 H2 H3] Ho] Hr. split; [split; [split; try done; simpl; congruence|]|by repeat split].
  intros Hs. by destruct (Ho Hs).
Qed.

(** The data of the buffer, when the callbacks are defined on it. *)
Lemma consume_data_some c p' n ctx' :
  inv c -> reading c = false ->
  run_callbacks (m_incoming_http_msg_limits settings) (string_max_size settings)
    (http_parser_execute (m_parser c) (m_buf c)) (m_parser_ctx c) = Some (p', n, ctx') ->
  ends (m_buf c) p' n ctx' (live p' ctx' /\ (m_connection_upgrade_stage c = no_upgrade -> ready p' ctx')) ->
  wp D (consume_data settings self) (fun _ c' => inv c' /\ frame c c') (fun c' => inv c' /\ frame c c') c.
Proof using Hself Hcov.
  intros Hi Hr Hx [Hn Hend]. unfold consume_data. do 3 (apply wp_bind; unfold wp at 1, gets at 1). rewrite Hx.
  do 3 (apply wp_bind; unfold wp at 1, upd at 1).
  destruct (parsed_inv p' ctx' (drop n (m_buf c)) c Hi Hr) as [Hi' Hf'].
  destruct Hend as [->|[(-> & -> & _)|(-> & -> & -> & Hl & Hrdy)]].
  - by apply (http_safe_from D (trigger_error_and_close self)).
  - eapply wp_mono; [by apply complete_spec| |]; simpl; intros; destruct_and?; (split; [done|by etrans]).
  - eapply wp_mono; [apply consume_message_spec; [done|by simpl; rewrite drop_all|done|done]| |];
      simpl; intros; destruct_and?; (split; [done|by etrans]).
Qed.

Lemma consume_data_spec c :
  inv c -> reading c = false -> parser_ready c ->
  wp D (consume_data settings self) (fun _ c' => inv c' /\ frame c c') (fun c' => inv c' /\ frame c c') c.
Proof using Hself Hcov L.
  intros Hi Hr Hp. destruct (execution_ends (m_incoming_http_msg_limits settings) (string_max_size settings) _ _ (m_buf c) Hp)
    as (p' & n & ctx' & Hx & Hn & Hend).
  eapply consume_data_some; try done. split; [done|].
  destruct Hend as [?|[?|(? & ? & ? & ?)]]; [by left|by right; left|right; right].
  split_and!; try done. by apply ready_live.
Qed.

#[global] Instance safe_wait_for_http_message : Safe D (wait_for_http_message settings self).
Proof using Hself Hcov L.
  intros c Hi. unfold wait_for_http_message, reset_parser.
  apply wp_bind. apply wp_bind. unfold wp at 1, upd at 1. unfold wp at 1, upd at 1.
  set (c1 := set_parser_ctx _ _).
  assert (Hp1 : parser_ready c1) by apply ready_start.
  assert (Hi1 : inv c1 /\ frame c c1).
  { destruct Hi as [[H1 H2 H3] Ho]. split; [split; [split; try done|]|by repeat split].
    - simpl. intros Hr. destruct (H3 Hr). split_and!; [done|by apply ready_live|done].
    - intros Hs. by destruct (Ho Hs). }
  destruct Hi1 as [Hi1 Hf1]. apply wp_bind.
  apply (wp_mono _ _ (fun _ c' => (inv c' /\ frame c c') /\ parser_ready c') _ (fun c' => inv c' /\ frame c c')); [| |done].
  { assert (Hg : wp D (guard_read_operation settings) (fun _ c' => parser_ready c') (fun _ => False) c1).
    { unfold guard_read_operation, schedule_operation_timeout_callback, wp, bind, gets, upd.
      by destruct (coordinator_empty c1). }
    eapply wp_mono; [apply wp_conj; [by apply (http_safe_from D (guard_read_operation settings) c c1)|exact Hg]|done|].
    simpl. by intros ? [? _]. }
  intros _ c2 [[Hi2 Hf2] Hp2]. apply wp_bind. unfold wp at 1, gets at 1.
  destruct (m_buf c2) as [|b l] eqn:Eb.
  - eapply wp_mono; [by apply consume_message_spec; [| |apply ready_live|]| |]; simpl; intros; destruct_and?;
      (split; [done|by etrans]).
  - assert (reading c2 = false).
    { destruct (reading c2) eqn:Er; [|done]. destruct Hi2 as [[_ _ H3] _]. destruct (H3 Er). congruence. }
    eapply wp_mono; [by apply consume_data_spec| |]; simpl; intros; destruct_and?; (split; [done|by etrans]).
Qed.

(** *** The end of a group *)

(** A group is current, no write is outstanding, and nothing of it is left. *)
Definition settled (c : conn) : Prop :=
  writing c = false /\ current_of c <> None /\
  (m_socket_open c = true -> rest_items (m_write_output_ctx c) = []).

Lemma sframe_open c c' : sframe c c' -> m_socket_open c' = true -> m_socket_open c = true.
Proof. intros Hf Ho. destruct (m_socket_open c) eqn:E; [done|]. by rewrite (frame_socket _ _ Hf E) in Ho. Qed.

Lemma http_settled_frame c c' : settled c -> frame c c' -> settled c'.
Proof.
  intros (Hw & Hc & Hr) [Hf Hctx]. destruct (Hctx Hc) as [E1 E2]. unfold settled, current_of in *.
  rewrite E1, E2. split_and!; [done|done|]. intros Ho. by apply Hr, (sframe_open c c').
Qed.

Lemma http_settled_reset c :
  inv c -> settled c -> inv (set_write_output_ctx initial_ctx c) /\ sframe c (set_write_output_ctx initial_ctx c).
Proof.
  intros [[H1 H2 H3] Ho] (Hw & _ & Hr). split; [|by split]. split; [split; simpl; try done; congruence|].
  intros Hs. destruct (Ho Hs) as [Hx Hco Hem Hord]. split; simpl; [done|done|done|]. rewrite <- Hord. by rewrite (Hr Hs).
Qed.

Lemma http_settled_take c :
  inv c -> settled c ->
  exists ctx cb, take_notificator (m_write_output_ctx c) = Some (ctx, cb) /\
    inv (set_write_output_ctx ctx c) /\ settled (set_write_output_ctx ctx c).
Proof.
  intros [[H1 H2 H3] Ho] (Hw & Hc & Hr). unfold current_of in *.
  destruct (m_write_output_ctx c) as [[g|] n] eqn:Ec; [|done]. simpl. do 2 eexists. split; [done|].
  split; [|by split_and!]. split; [by split|]. intros Hs. destruct (Ho Hs) as [Hx Hco Hem Hord].
  split; simpl; [done|done|done|]. rewrite Ec in Hord. exact Hord.
Qed.

Lemma http_notify_spec st c :
  inv c -> settled c ->
  wp D (invoke_after_write_notificator_if_necessary self st)
    (fun _ c' => inv c' /\ sframe c c' /\ settled c') (fun c' => inv c' /\ sframe c c') c.
Proof using Hself Hcov.
  intros Hi Hs. unfold invoke_after_write_notificator_if_necessary. apply wp_catch, wp_bind.
  destruct (http_settled_take c Hi Hs) as (ctx & cb & Ht & Hi1 & Hs1). unfold wp at 1, gets. rewrite Ht.
  apply wp_bind. unfold wp at 1, upd at 1.
  assert (Hm : forall m : M conn unit, Safe D m -> wp D m
    (fun _ c' => inv c' /\ sframe c c' /\ settled c')
    (fun c1 => wp D (upd (fun c => set_write_output_ctx (reset_write_group (m_write_output_ctx c)) c);; @raise conn unit)
      (fun _ c' => inv c' /\ sframe c c' /\ settled c') (fun c' => inv c' /\ sframe c c') c1 /\ inv c1 /\ sframe c c1)
    (set_write_output_ctx ctx c)).
  { intros m Hm. eapply wp_mono; [by apply Hm| |]; cbv beta.
    - intros _ c' [Hi2 Hf]. split_and!; [done|by destruct Hf as [[] _]|by eapply http_settled_frame].
    - intros c' [Hi2 Hf]. assert (Hs2 : sframe c c') by by destruct Hf as [[] _].
      destruct (http_settled_reset c' Hi2) as [? Hr]; [by eapply http_settled_frame|]. split_and!; [|done|done].
      split; [done|]. by etrans; [|exact Hr]. }
  destruct cb as [cb|]; apply Hm; apply _.
Qed.

Lemma http_finish_spec c :
  inv c -> settled c ->
  wp D (finish_write_group self) (fun _ c' => inv c' /\ sframe c c') (fun c' => inv c' /\ sframe c c') c.
Proof using Hself Hcov.
  intros Hi Hs. apply wp_bind. eapply wp_mono; [by apply http_notify_spec| |done].
  intros _ c' (Hi' & Hr & Hs'). destruct (http_settled_reset c' Hi' Hs') as [? Hr']. split; [done|by etrans].
Qed.

(** A failed group is dropped once the socket is closed. *)
Lemma http_fail_spec st c :
  inv c -> settled c -> m_socket_open c = false ->
  wp D (fail_write_group self st) (fun _ c' => inv c' /\ sframe c c') (fun c' => inv c' /\ sframe c c') c.
Proof using Hself Hcov.
  intros Hi Hs Hclosed. apply wp_bind. eapply wp_mono; [by apply http_notify_spec| |done].
  intros _ c' (Hi' & Hr & Hs'). pose proof (frame_socket _ _ Hr Hclosed) as Hc'.
  destruct Hi' as [[H1 H2 H3] Ho]. destruct Hs' as (Hw & _). split.
  - split; [split; simpl; try done; congruence|simpl; congruence].
  - etrans; [exact Hr|by split].
Qed.

Lemma http_after_write_spec st c :
  inv c -> writing c = false -> current_of c <> None -> (is_aborted st = true -> m_socket_open c = false) ->
  wp D (after_write self st) (fun _ c' => inv c' /\ sframe c c') (fun c' => inv c' /\ sframe c c') c.
Proof using Hself Hcov.
  intros Hi Hw Hc Hab. unfold after_write.
  apply (wp_noexcept D _ _ _ (fun c' => inv c' /\ sframe c c')). destruct (is_written st); [by apply safe_handle|].
  apply wp_bind.
  apply (wp_mono _ _ (fun _ c' => (inv c' /\ frame c c') /\ m_socket_open c' = false) _
    (fun c' => inv c' /\ frame c c')).
  - destruct (is_aborted st); [by split; [|apply Hab]|].
    eapply wp_mono; [apply close_spec, Hi| |]; simpl; intros; by destruct_and?.
  - intros _ c1 [[Hi1 Hf1] Hs1]. apply wp_catch.
    assert (Hset : settled c1).
    { destruct Hf1 as [_ Hctx]. destruct (Hctx Hc) as [E1 E2]. unfold settled, current_of in *. rewrite E1, E2.
      split_and!; [done|done|congruence]. }
    assert (Hf2 : forall c', sframe c1 c' -> sframe c c') by (intros c' Hf; by etrans; [apply Hf1|]).
    eapply wp_mono; [by apply http_fail_spec| |].
    + intros _ c' [Hi' Hf']. split; [done|by apply Hf2].
    + intros c' [Hi' Hf']. split; split; [done|by apply Hf2|done|by apply Hf2].
  - intros c1 [Hi1 [Hf1 _]]. by split.
Qed.

#[global] Instance safe_finish_rest :
  Safe D (do b <- gets coordinator_closed;
          if b then close self
          else
            do stage <- gets m_connection_upgrade_stage;
            if bool_decide (stage = no_upgrade) then
              do again <- gets m_init_read_after_this_write;
              (if again then self call_wait_for_http_message else ret tt);;
              init_write_if_necessary settings self
            else
              do e <- gets coordinator_empty;
              if e then handle_upgrade_request settings self else init_write_if_necessary settings self).
Proof using Hself Hcov. apply _. Qed.

Lemma finish_handling_spec c :
  inv c -> settled c ->
  wp D (finish_handling_current_write_ctx settings self)
    (fun _ c' => inv c' /\ sframe c c') (fun c' => inv c' /\ sframe c c') c.
Proof using Hself Hcov.
  intros Hi Hs. unfold finish_handling_current_write_ctx. apply wp_bind.
  eapply wp_mono; [by apply http_finish_spec| |done]. intros _ c' [Hi' Hf']. by apply http_safe_after; [apply safe_finish_rest|..].
Qed.

(** *** The next operation of a group *)

(** The operation has been taken from the group and waits to be started. *)
Record extracted (o : solid_write_operation_variant_t) (c : conn) : Prop := {
  ext_core : core c;
  ext_writing : writing c = false;
  ext_current : current_of c <> None;
  ext_coordinator : m_socket_open c = true -> m_response_coordinator c = h_coordinator (history_of c) /\
    h_emitted (history_of c) = flat_map group_tokens (popped_groups (trace c));
  ext_order : m_socket_open c = true ->
    started_items (trace c) ++ operation_items o ++ rest_items (m_write_output_ctx c)
    = flat_map m_items (popped_groups (trace c))
}.

Lemma extract_spec c g :
  inv c -> writing c = false -> current_of c = Some g -> (index_of c < length (m_items g))%nat ->
  exists ctx o, extract_next_write_operation (asio_max_iov_len settings) (m_write_output_ctx c) = Some (ctx, o) /\
    o <> none_write_operation /\ extracted o (set_write_output_ctx ctx c).
Proof using Hiov.
  intros [[H1 H2 H3] Ho] Hw Hg Hn. unfold current_of, index_of in *.
  destruct (m_write_output_ctx c) as [cur n] eqn:Ec. simpl in *. subst cur.
  destruct (extract_advances _ g n Hiov Hn) as (m & o & Hx & Hne & Hm & Hi & _). rewrite Hx.
  exists (mk_octx (Some g) m), o. split_and!; [done|done|]. split; simpl; try done.
  - intros Hs. by destruct (Ho Hs).
  - intros Hs. destruct (Ho Hs) as [_ _ _ Hord]. rewrite <- Hord, Ec. unfold rest_items. simpl. rewrite Hi. f_equal.
    rewrite <- (take_drop (m - n) (drop n (m_items g))) at 2. f_equal. rewrite drop_drop. f_equal. lia.
Qed.

(** The calls between taking an operation and starting it. *)
Class Between (m : M conn unit) : Prop :=
  between_calls o c : extracted o c -> wp D m (fun _ c' => extracted o c' /\ sframe c c') (fun _ => False) c.

Lemma between_bind (m k : M conn unit) (Q : conn -> Prop) (E : conn -> Prop) o c0 c :
  Between m -> extracted o c -> sframe c0 c ->
  (forall c', extracted o c' -> sframe c0 c' -> wp D k (fun _ => Q) E c') -> wp D (m;; k) (fun _ => Q) E c.
Proof.
  intros Hm Hc Hf Hk. apply wp_bind. eapply wp_mono; [by apply (Hm o)| |done].
  intros _ c' [Hc' Hf']. apply Hk; [done|by etrans].
Qed.

#[global] Instance between_cancel : Between cancel_if_closed.
Proof.
  intros o c Hx. pose proof Hx as [[H1 H2 H3] Hw Hc Hco Hord]. unfold cancel_if_closed, log, wp, bind, gets, upd.
  destruct (coordinator_closed c); [|by split]. split; [|by split]. split; simpl; try done.
  - intros Hs. unfold history_of in *. simpl. rewrite coordinator_ops_snoc, popped_groups_snoc, !app_nil_r.
    by apply Hco.
  - intros Hs. rewrite started_items_snoc, popped_groups_snoc, !app_nil_r. by apply Hord.
Qed.

#[global] Instance between_guard t : Between (guard_sendfile_operation settings t).
Proof.
  intros o c [[H1 H2 H3] Hw Hc Hco Hord].
  unfold guard_sendfile_operation, schedule_operation_timeout_callback, wp, bind, gets, upd.
  split; [by split; [split|..]|by split].
Qed.

Lemma start_write_spec o c :
  extracted o c ->
  wp D (start_write o) (fun _ c' => inv c' /\ sframe c c' /\ current_of c' <> None) (fun _ => False) c.
Proof.
  intros [[H1 H2 H3] Hw Hc Hco Hord]. unfold start_write, log, wp, bind, gets, upd. rewrite Hw. simpl.
  split_and!; [|by split|done]. split; [by split|]. intros Hs. simpl in Hs. destruct (Hco Hs). unfold history_of in *. split; unfold history_of; simpl; [by intros E| | |].
  - by rewrite coordinator_ops_snoc, app_nil_r.
  - by rewrite coordinator_ops_snoc, popped_groups_snoc, !app_nil_r.
  - rewrite started_items_snoc, popped_groups_snoc, app_nil_r, <- app_assoc. by apply Hord.
Qed.

Lemma trivial_spec bufs n c :
  extracted (trivial_write bufs n) c ->
  wp D (handle_trivial_write_operation settings bufs n)
    (fun _ c' => inv c' /\ sframe c c') (fun c' => inv c' /\ sframe c c') c.
Proof.
  intros Hc. unfold handle_trivial_write_operation. apply (between_bind _ _ _ _ _ c c between_cancel Hc); [done|].
  intros c1 Hc1 Hf1. apply wp_bind. eapply wp_mono; [by apply start_write_spec| |done].
  intros _ c2 (Hi2 & Hf2 & _). apply http_safe_after; [apply _|done|by etrans].
Qed.

Lemma file_spec file n c :
  extracted (file_write file n) c ->
  wp D (handle_file_write_operation settings self file n)
    (fun _ c' => inv c' /\ sframe c c') (fun c' => core c' /\ sframe c c') c.
Proof using Hself Hcov.
  intros Hc. unfold handle_file_write_operation. apply (between_bind _ _ _ _ _ c c between_cancel Hc); [done|].
  intros c1 Hc1 Hf1. apply (between_bind _ _ _ _ _ c c1 (between_guard _) Hc1 Hf1). intros c2 Hc2 Hf2.
  destruct (sendfile_is_valid file); [|by split; [apply Hc2|]].
  apply wp_bind. eapply wp_mono; [by apply start_write_spec| |done]. intros _ c3 (Hi3 & Hf3 & Hcur3).
  apply wp_bind. unfold wp at 1. set (c4 := set_outside_calls (S (outside_calls c3)) c3).
  change (outside c3) with (Ret (outside_calls c3) c4). cbv beta iota. assert (Hk : inv c4 /\ frame c3 c4) by by apply keeps_outside.
  destruct Hk as [Hi4 Hf4]. assert (Hf0 : sframe c c4) by (etrans; [exact Hf2|]; etrans; [exact Hf3|apply Hf4]).
  destruct (sendfile_start _ file) as [ok|]; [|by split].
  apply wp_bind. unfold wp at 1, upd at 1.
  assert (Hi5 : inv (set_writing false c4)).
  { destruct Hi4 as [[H1 H2 H3] Ho]. split; [by split|]. intros Hs. by destruct (Ho Hs). }
  assert (Hf5 : sframe c (set_writing false c4)) by (destruct Hf0; by split).
  eapply wp_mono; [apply http_after_write_spec; [exact Hi5|done|exact Hcur3|by destruct ok]| |]; simpl; intros; destruct_and?.
  - split; [done|]. by etrans.
  - split; [by match goal with H : inv _ |- _ => apply H end|]. by etrans.
Qed.

Lemma handle_spec c :
  inv c -> writing c = false -> current_of c <> None ->
  wp D (handle_current_write_ctx settings self)
    (fun _ c' => inv c' /\ sframe c c') (fun c' => inv c' /\ sframe c c') c.
Proof using Hiov Hself Hcov.
  intros Hi Hw Hc. destruct (current_of c) as [g|] eqn:Hg; [|done].
  unfold handle_current_write_ctx. apply (wp_noexcept_catch D _ _ _ _ (fun c' => inv c' /\ sframe c c')).
  apply (wp_mono _ _ (fun _ c' => inv c' /\ sframe c c') _ (fun c' => core c' /\ sframe c c')); [|done|].
  2:{ intros c' [Hc' Hf']. eapply wp_mono; [by apply close_spec| |]; simpl; intros; destruct_and?;
        (split; [done|]); (etrans; [exact Hf'|]); by match goal with H : frame _ _ |- _ => destruct H end. }
  apply wp_bind. unfold wp at 1, gets.
  destruct (decide (index_of c < length (m_items g))%nat) as [Hn|Hn].
  - destruct (extract_spec c g Hi Hw Hg Hn) as (ctx & o & -> & Hne & Hx). apply wp_bind. unfold wp at 1, upd at 1.
    assert (Hf : sframe c (set_write_output_ctx ctx c)) by by split.
    destruct o as [|bufs n|file n]; [done| |].
    + eapply wp_mono; [by apply trivial_spec| |]; simpl; intros; destruct_and?; (split; [|by etrans]); [done|].
      by match goal with H : inv _ |- _ => apply H end.
    + eapply wp_mono; [by apply file_spec| |]; simpl; intros; destruct_and?; (split; [done|by etrans]).
  - assert (Hset : settled c).
    { split_and!; [done|congruence|]. intros _. unfold rest_items, current_of, index_of in *. rewrite Hg.
      apply drop_ge. lia. }
    assert (extract_next_write_operation (asio_max_iov_len settings) (m_write_output_ctx c)
            = Some (m_write_output_ctx c, none_write_operation)) as ->.
    { unfold extract_next_write_operation, current_of, index_of in *. rewrite Hg.
      by rewrite lookup_ge_None_2 by lia. }
    apply wp_bind. unfold wp at 1, upd at 1.
    assert (set_write_output_ctx (m_write_output_ctx c) c = c) as -> by by destruct c.
    eapply wp_mono; [by apply finish_handling_spec|done|]. intros c' [Hi' Hf']. split; [apply Hi'|done].
Qed.

End Calls.

(** ** Steps *)

(** What a run may do: meet the bound on nesting, and end for an exception of the
    user's that is no std::exception. *)
Definition bounded_run : tolerance := mk_tolerance True throws_other.
#[global] Instance covers_run : Covers bounded_run.
Proof. by intros Ho. Qed.

Lemma safe_self depth : SafeSelf bounded_run (run_entry settings depth).
Proof using Hiov L.
  induction depth as [|depth IH]; [by split|]. split.
  - intros ops. cbn [run_entry enter]. induction ops as [|o ops IHops]; cbn [foldr]; [apply _|].
    pose proof (safe_conn_call bounded_run (run_entry settings depth) o). apply _.
  - cbn [run_entry enter]. apply _.
  - intros c Hi Hw Hc. cbn [run_entry enter]. by apply (handle_spec bounded_run).
  - cbn [run_entry enter]. unfold handle_current_write_ctx. apply _.
Qed.

(** No exception escapes from the handlers of the strand. *)
Lemma sealed_step depth e c r :
  step settings depth e c = Some r -> r = Undef \/ r = Deep \/ r = Terminate \/ exists c', r = Ret tt c'.
Proof.
  assert (Hm : forall m : M conn unit, Sealed m -> Some (m c) = Some r ->
    r = Undef \/ r = Deep \/ r = Terminate \/ exists c', r = Ret tt c').
  { intros m Hm [= <-]. specialize (Hm c). destruct (m c) as [[] c'|c'|c'| | |]; eauto; done. }
  destruct e as [rd|st|now|[id flags g|]]; cbn [step]; try (case_match; [|done]); apply Hm;
    unfold conn_call, write_response_parts, move_upgrade_internals, after_read, after_write; apply _.
Qed.

(** Data that arrives when the connection is beyond ordinary requests. *)
Definition unprepared (e : strand_event) (c : conn) : bool :=
  match e with
  | ev_read (received _) => negb (bool_decide (m_connection_upgrade_stage c = no_upgrade))
  | _ => false
  end.

(** A result that keeps the invariant; [u] allows it to be undefined. *)
Definition good (u : bool) (r : res conn unit) : Prop :=
  match r with
  | Ret _ c' | Raise c' => inv c'
  | RaiseOther c' => throws_other /\ inv c'
  | Terminate => throws_other
  | Undef => u = true
  | Deep => True
  end.

Lemma good_wp u (m : M conn unit) c (Q E : conn -> Prop) :
  wp bounded_run m (fun _ => Q) E c -> (forall c', Q c' -> inv c') -> (forall c', E c' -> inv c') -> good u (m c).
Proof. unfold wp, good. destruct (m c); naive_solver. Qed.

Lemma good_safe u (m : M conn unit) c : Safe bounded_run m -> inv c -> good u (m c).
Proof. intros Hm Hi. eapply good_wp; [by apply Hm| |]; simpl; by intros ? [? _]. Qed.

Lemma read_data_spec depth data c :
  inv c -> reading c = false -> parser_live c -> (m_connection_upgrade_stage c = no_upgrade -> parser_ready c) ->
  good (negb (bool_decide (m_connection_upgrade_stage c = no_upgrade)))
    (after_read settings (run_entry settings depth) (received data) c).
Proof using Hiov L.
  intros Hi Hr Hl Hp. pose proof (safe_self depth) as Hself.
  set (c1 := set_buf data c).
  assert (Hi1 : inv c1).
  { destruct Hi as [[H1 H2 H3] Ho]. split; [split; try done; simpl; congruence|]. intros Hs. by destruct (Ho Hs). }
  destruct (run_callbacks (m_incoming_http_msg_limits settings) (string_max_size settings)
    (http_parser_execute (m_parser c1) (m_buf c1)) (m_parser_ctx c1)) as [[[p' n] ctx']|] eqn:Ex.
  - eapply (good_wp _ _ _ (fun c' => inv c') (fun c' => inv c')); [|done|done].
    apply (wp_noexcept_catch _ _ _ _ _ (fun c' => inv c')), wp_bind. unfold wp at 1, upd at 1. fold c1.
    pose proof (live_ends _ _ _ _ _ _ _ _ Hl Ex) as [Hn Hend].
    eapply wp_mono; [apply (consume_data_some bounded_run _ c1 p' n ctx' Hi1 Hr Ex)| |].
    + split; [done|]. destruct Hend as [?|[?|(? & ? & ? & ?)]]; [by left|by right; left|right; right].
      split_and!; try done. intros Hst.
      destruct (execution_ends (m_incoming_http_msg_limits settings) (string_max_size settings) _ _ data (Hp Hst))
        as (p2 & n2 & ctx2 & Hx2 & _ & Hend2).
      change (run_callbacks (m_incoming_http_msg_limits settings) (string_max_size settings)
        (http_parser_execute (m_parser c) data) (m_parser_ctx c) = Some (p', n, ctx')) in Ex.
      rewrite Ex in Hx2. injection Hx2 as <- <- <-. destruct Hend2 as [?|[[? _]|(_ & _ & _ & ?)]]; [congruence..|done].
    + simpl. by intros _ ? [? _].
    + simpl. intros c' [Hc' _].
      eapply wp_mono; [by apply (safe_trigger_error bounded_run)| |]; simpl; intros; by destruct_and?.
  - case_bool_decide as Hst.
    { destruct (execution_ends (m_incoming_http_msg_limits settings) (string_max_size settings) _ _ data (Hp Hst))
        as (p2 & n2 & ctx2 & Hx2 & _).
      change (run_callbacks (m_incoming_http_msg_limits settings) (string_max_size settings)
        (http_parser_execute (m_parser c) data) (m_parser_ctx c) = None) in Ex. congruence. }
    assert (Hu : consume_data settings (run_entry settings depth) c1 = Undef)
      by (unfold consume_data, bind, gets; by rewrite Ex).
    unfold after_read, noexcept, catch, bind, upd. fold c1. by rewrite Hu.
Qed.

Lemma http_step_spec depth e c r :
  inv c -> step settings depth e c = Some r -> good (unprepared e c) r.
Proof using Hiov L.
  intros Hi Hs. pose proof (safe_self depth) as Hself.
  destruct e as [rd|st|now|o]; cbn [step] in Hs.
  - destruct (reading c && fits settings rd) eqn:E; [|done]. injection Hs as <-. apply andb_prop in E as [Hr _].
    set (c1 := set_read_operation_is_running false (set_reading false c)).
    assert (Hi1 : inv c1).
    { destruct Hi as [[H1 H2 H3] Ho]. split; [by split|]. intros Hs. by destruct (Ho Hs). }
    change (good (unprepared (ev_read rd) c) (after_read settings (run_entry settings depth) rd c1)).
    destruct Hi as [[_ _ H3] _]. destruct (H3 Hr) as (_ & Hl & Hp).
    destruct rd as [data| | |]; cbn [unprepared]; [by apply (read_data_spec depth data c1)|..];
      apply good_safe; [unfold after_read; apply _|done|unfold after_read; apply _|done|unfold after_read; apply _|done].
  - destruct (writing c && may_end st c) eqn:E; [|done]. injection Hs as <-. apply andb_prop in E as [Hw Hend].
    eapply (good_wp _ _ _ (fun c' => inv c') (fun c' => inv c')); [|done|done].
    apply wp_bind. unfold wp at 1, upd at 1. destruct Hi as [[H1 H2 H3] Ho].
    eapply wp_mono; [apply (http_after_write_spec bounded_run (run_entry settings depth) st (set_writing false c))| |];
      [|done|by apply H1| |simpl; intros; by destruct_and?..].
    + split; [by split|]. intros Hs. by destruct (Ho Hs).
    + intros Ha. destruct st; try done. simpl in Hend. by apply negb_true_iff in Hend.
  - destruct (clock c <=? now); [|done]. injection Hs as <-. apply good_safe; [apply _|done].
  - injection Hs as <-. exact (good_safe _ _ _ (safe_conn_call bounded_run (run_entry settings depth) o) Hi).
Qed.

(** ** What holds in every run *)

Lemma new_conn_inv now : inv (new_conn settings now).
Proof. split; [by split|]. intros _. by split. Qed.

Lemma http_reachable_inv depth now c : reachable settings depth now c -> inv c.
Proof using Hiov L.
  intros Hc. pose proof (safe_self depth) as Hself. induction Hc as [c E|e c c' _ Hi E].
  - assert (Hs : Safe bounded_run (init settings (run_entry settings depth)))
      by (unfold init, init_next_timeout_checking; apply _).
    specialize (Hs _ (new_conn_inv now)). unfold wp in Hs. rewrite E in Hs. apply Hs.
  - exact (http_step_spec depth e c _ Hi E).
Qed.

(** The items among tokens, and those the coordinator still holds. *)
Definition token_items (ts : list token) : list writable_item_t :=
  flat_map (fun t => match t with item i => [i] | Buffers.callback _ => [] end) ts.
Definition queued_items (co : response_coordinator_t) : list writable_item_t :=
  token_items (flat_map Coordinator.context_tokens (Coordinator.contents (Coordinator.m_context_table co))).

Lemma group_token_items g : token_items (group_tokens g) = m_items g.
Proof.
  unfold token_items, group_tokens. rewrite flat_map_app.
  assert (Hm : forall l, token_items (map item l) = l) by (induction l as [|x l IH]; [done|]; simpl; by rewrite IH).
  fold (token_items (map item (m_items g))). rewrite Hm.
  destruct (m_after_write_notificator g); simpl; by rewrite app_nil_r.
Qed.

Lemma groups_token_items gs : token_items (flat_map group_tokens gs) = flat_map m_items gs.
Proof.
  induction gs as [|g gs IH]; [done|]. simpl. rewrite <- IH, <- (group_token_items g). apply flat_map_app.
Qed.

(** C5. Pipelined requests over one connection: as long as the connection owns its
    socket, the items handed to the socket so far, followed by what is left of the
    group being written and by what the coordinator holds, are the accepted parts of
    the responses in the order of the requests, whatever the peer sends, in whatever
    order and from wherever the handlers answer, and however writes complete. *)
Theorem http_responses_in_order depth now (c : conn) :
  reachable settings depth now c -> m_socket_open c = true ->
  (0 < m_max_pipelined_requests settings)%nat -> Z.of_nat (length (coordinator_ops (trace c))) + 1 < 2 ^ 32 ->
  started_items (trace c) ++ rest_items (m_write_output_ctx c) ++ queued_items (m_response_coordinator c)
  = token_items (concat (h_responses (history_of c))).
Proof using Hiov L.
  intros Hc Hs Hn Hlen. destruct (http_reachable_inv _ _ _ Hc) as [_ Ho]. destruct (Ho Hs) as [_ Hco Hem Hord].
  destruct (Coordinator.run_ok _ (coordinator_ops (trace c)) Hn Hlen) as [Hok _].
  fold (history_of c) in Hok. rewrite <- (Coordinator.history_tokens _ Hok), Hem.
  unfold token_items. rewrite flat_map_app. fold (token_items (flat_map group_tokens (popped_groups (trace c)))).
  rewrite groups_token_items, <- Hord, app_assoc. unfold queued_items, token_items. by rewrite Hco.
Qed.

Lemma step_returns depth now (c : conn) e r :
  reachable settings depth now c -> step settings depth e c = Some r -> unprepared e c = false ->
  r = Deep \/ (r = Terminate /\ throws_other) \/ exists c', r = Ret tt c'.
Proof using Hiov L.
  intros Hc Hs Hu. pose proof (http_step_spec depth e c r (http_reachable_inv _ _ _ Hc) Hs) as Hg. rewrite Hu in Hg.
  destruct (sealed_step _ _ _ _ Hs) as [->|[->|[->|[c' ->]]]]; [done|by left|by right; left|by right; right; exists c'].
Qed.

(** C6. Every step of every run is defined and nothing escapes from it: no second
    read or write is started while one is outstanding, no write group is looked at
    that is not there, no field value is appended to no field, and no exception
    leaves a handler of the strand.  The handlers catch what derives from
    std::exception: a step ends the program only when a call of the user's code
    throws something else.  Excepted is data that arrives after a request to
    upgrade. *)
Theorem http_steps_defined depth now (c : conn) e r :
  reachable settings depth now c -> step settings depth e c = Some r -> unprepared e c = false ->
  r = Deep \/ (r = Terminate /\ throws_other) \/ exists c', r = Ret tt c' /\ reachable settings depth now c'.
Proof using Hiov L.
  intros Hc Hs Hu. destruct (step_returns _ _ _ _ _ Hc Hs Hu) as [->|[?|[c' ->]]]; [by left|by right; left|].
  right; right. exists c'. split; [done|]. by eapply reach_step.
Qed.

End Safety.

End ConnectionSafety.
