(* ===== verification/ConnectionRuns.v ===== *)
(** * Concrete runs of HTTP connections

    Witnesses for [ConnectionSafety], with the small parser of [LineParser], and the
    runs in which the connection of the sources misbehaves: it forgets the beginning
    of a pipelined request, handles a request to upgrade again and again, and comes
    to append a field value to no field; and it ends the program for an exception of the
    request handler that is no std::exception. *)

From S2P Require Import Prelude HttpFields HttpHeaders Coordinator HttpResponse Router HttpInput OutputCtx Effects.
From S2P Require Import LineParser HttpParserTheory Connection ConnectionSafety.

Module ConnectionRuns.
Import Buffers OutputCtx HttpMethod NumberedMethods HttpParser LineParser HttpParserTheory Connection ConnectionSafety.
Import RequestTarget RequestHeader.
Import Coordinator(response_output_flags_t, mk_flags, final_parts, not_final_parts, connection_keepalive, connection_close,
  h_responses).

(** ** Users *)

Definition keep : response_output_flags_t := mk_flags final_parts connection_keepalive.
Definition final_close : response_output_flags_t := mk_flags final_parts connection_close.

(** The target of the request, in brackets. *)
Definition echo_of (r : request_t) : write_group_t :=
  write_group [trivial_write_operation (bs "[");
               trivial_write_operation (m_request_target (m_target (m_request_header r)));
               trivial_write_operation (bs "]")].

(** Answers every request at once; the connection is kept. *)
Definition echo : UserCode := {|
  on_request _ r := ([op_write_response_parts (m_request_id r) keep (echo_of r)], inl request_accepted);
  on_written _ _ _ := ([], None);
  state_changed _ _ := None;
  make_extra_data _ := None
|}.

(** Leaves the first request for later, and answers the others at once and for the
    last time. *)
Definition first_later : UserCode := {|
  on_request _ r :=
    (if m_request_id r =? 0 then [] else [op_write_response_parts (m_request_id r) final_close (echo_of r)],
     inl request_accepted);
  on_written _ _ _ := ([], None);
  state_changed _ _ := None;
  make_extra_data _ := None
|}.

(** Answers the first request at once and leaves the others for later. *)
Definition first_now : UserCode := {|
  on_request _ r :=
    (if m_request_id r =? 0 then [op_write_response_parts (m_request_id r) keep (echo_of r)] else [],
     inl request_accepted);
  on_written _ _ _ := ([], None);
  state_changed _ _ := None;
  make_extra_data _ := None
|}.

(** Throws from every request. *)
Definition throwing (e : exn) : UserCode := {|
  on_request _ _ := ([], inr e);
  on_written _ _ _ := ([], None);
  state_changed _ _ := None;
  make_extra_data _ := None
|}.

#[export] Instance no_files : SendFile := {|
  sendfile_is_valid _ := true;
  sendfile_timelimit _ := 0;
  sendfile_start _ _ := None
|}.

(** [max_pipelined_requests] requests at a time; one is the default. *)
Definition settings_for (max_pipelined_requests : nat) : connection_settings_t :=
  mk_settings 4096 Limits.incoming_http_msg_limits 60 5 10 max_pipelined_requests 64 (2 ^ 62).

#[export] Instance settings_iov n : HasIov (settings_for n).
Proof. unfold HasIov. simpl. lia. Qed.

Definition line (s : string) : list byte := bs s ++ [x0a].

(** ** Observations *)

(** The targets of the requests handled, and the octets written. *)
Definition handled_targets (tr : list event) : list (list byte) :=
  flat_map (fun e => match e with handled r => [m_request_target (m_target (m_request_header r))] | _ => [] end) tr.
Definition written_octets (tr : list event) : list byte := flat_map item_bytes (started_items tr).
Definition is_closed (e : event) : bool := match e with closed => true | _ => false end.
Definition count (p : event -> bool) (tr : list event) : nat := length (List.filter p tr).

(** ** Witnesses *)

(** Two pipelined requests, both answered at once. *)
Definition two_requests : list strand_event :=
  [ev_read (received (line "/a" ++ line "/b")); ev_write written; ev_write written].

Lemma http_responses_in_order_witness :
  exists c, run_events (U := echo) (settings_for 2) 20 0 two_requests = Some c /\
    started_items (trace c) ++ rest_items (m_write_output_ctx c) ++ queued_items (m_response_coordinator c)
    = token_items (concat (h_responses (history_of (settings_for 2) c))) /\
    written_octets (trace c) = bs "[/a][/b]".
Proof.
  eexists. split; [vm_compute; reflexivity|]. split; [|vm_compute; reflexivity].
  apply (http_responses_in_order (U := echo) (settings_for 2) 20 0).
  - apply (run_events_reachable (U := echo) (settings_for 2) 20 0 two_requests). vm_compute. reflexivity.
  - reflexivity.
  - simpl. lia.
  - vm_compute. reflexivity.
Defined.

Lemma http_steps_defined_witness :
  exists c r, run_events (U := echo) (settings_for 1) 20 0 [] = Some c /\
    step (U := echo) (settings_for 1) 20 (ev_read (received (line "/a"))) c = Some r /\
    (r = Deep \/ (r = Terminate /\ throws_other (U := echo)) \/
     exists c', r = Ret tt c' /\ reachable (U := echo) (settings_for 1) 20 0 c').
Proof.
  do 2 eexists. split; [vm_compute; reflexivity|]. split; [vm_compute; reflexivity|].
  eapply (http_steps_defined (U := echo) (settings_for 1) 20 0 _ (ev_read (received (line "/a")))).
  - apply (run_events_reachable (U := echo) (settings_for 1) 20 0 []). vm_compute. reflexivity.
  - vm_compute. reflexivity.
  - reflexivity.
Defined.

(** ** Exceptions of the request handler *)

(** A std::exception closes the connection; anything else ends the program, and all
    other connections with it. *)
Theorem handler_exception_ends_program :
  (exists c, run_events (U := throwing std_exception) (settings_for 1) 20 0 [ev_read (received (line "/a"))] = Some c /\
     m_socket_open c = false) /\
  (exists c, run_events (U := throwing other_exception) (settings_for 1) 20 0 [] = Some c /\
     step (U := throwing other_exception) (settings_for 1) 20 (ev_read (received (line "/a"))) c = Some Terminate).
Proof. split; eexists; (split; [vm_compute; reflexivity|]); vm_compute; reflexivity. Qed.

(** ** A pipelined request that arrives in two parts *)

(** With the default of one request at a time and a handler that answers at
    once, the connection reads on before the answer is written, and begins a new
    message when it has been written: the part of the next request that has arrived
    by then is forgotten.  The same octets in other pieces are answered. *)
Theorem pipelined_fragment_lost :
  (exists c, run_events (U := echo) (settings_for 1) 20 0
     [ev_read (received (line "/a" ++ bs "/lon")); ev_write written; ev_read (received (line "g"))] = Some c /\
     handled_targets (trace c) = [bs "/a"] /\ written_octets (trace c) = bs "[/a]" /\ m_socket_open c = false) /\
  (exists c, run_events (U := echo) (settings_for 1) 20 0
     [ev_read (received (line "/a" ++ bs "/lon")); ev_read (received (line "g")); ev_write written;
      ev_write written] = Some c /\
     handled_targets (trace c) = [bs "/a"; bs "/long"] /\ written_octets (trace c) = bs "[/a][/long]" /\
     m_socket_open c = true).
Proof. split; eexists; (split; [vm_compute; reflexivity|]); split_and!; vm_compute; reflexivity. Qed.

(** ** Requests to upgrade that are answered *)

(** A request to upgrade that is answered with an ordinary response, which keeps
    the connection, is handled again each time its response has been written: the
    handler is given a request with an empty target and the length of the old path. *)
Theorem upgrade_handled_again :
  exists c, run_events (U := echo) (settings_for 1) 20 0
     [ev_read (received (bs "/ab^")); ev_write written; ev_write written; ev_write written] = Some c /\
    handled_targets (trace c) = [bs "/ab"; []; []; []] /\
    written_octets (trace c) = bs "[/ab][][]" ++ bs "[]" /\
    m_query_separator_pos (m_target (ParserCtx.m_header (m_parser_ctx c))) = 3%nat.
Proof. eexists. split; [vm_compute; reflexivity|]. split_and!; vm_compute; reflexivity. Qed.

(** With room for pipelined requests the connection reads on while it answers a
    request to upgrade, and takes the fields of the message it is reading for the
    request it handles again.  The rest of a field value is then appended to the last
    of no fields, which is undefined. *)
Theorem upgrade_answer_undefined :
  exists c, run_events (U := first_now) (settings_for 2) 20 0
     [ev_read (received (bs "/a^")); ev_read (received (bs "/b x:v")); ev_write written] = Some c /\
    step (U := first_now) (settings_for 2) 20 (ev_read (received (line "w"))) c = Some Undef.
Proof. eexists. split; [vm_compute; reflexivity|]. vm_compute. reflexivity. Qed.

(** ** Assertions and notices *)

(** The assertion of [init_write_if_necessary] fails when the request that is read
    after a group has been written is answered at once with a response that closes
    the connection. *)
Lemma assertion_can_fail :
  exists c, run_events (U := first_later) (settings_for 1) 20 0
     [ev_read (received (line "/a" ++ line "/b"));
      ev_call (op_write_response_parts 0 keep (write_group [trivial_write_operation (bs "late")]));
      ev_write written] = Some c /\
    In assertion_failed (trace c) /\ written_octets (trace c) = bs "late[/b]".
Proof. eexists. split; [vm_compute; reflexivity|]. split; [vm_compute; tauto|vm_compute; reflexivity]. Qed.

(** When a read and a write of the same connection both fail, it is closed and the
    listener is told so twice. *)
Lemma closed_twice :
  exists c, run_events (U := echo) (settings_for 1) 20 0
     [ev_read (received (line "/a")); ev_read read_failed; ev_write write_failed] = Some c /\
    count is_closed (trace c) = 2%nat /\
    count (fun e => match e with noticed notice_closed => true | _ => false end) (trace c) = 2%nat.
Proof. eexists. split; [vm_compute; reflexivity|]. split; vm_compute; reflexivity. Qed.

(** A request to upgrade that was answered leaves the connection without a timer. *)
Lemma no_timer_after_upgrade :
  exists c, run_events (U := echo) (settings_for 2) 20 0
     [ev_read (received (bs "/a^")); ev_write written] = Some c /\
    m_socket_open c = true /\ reading c = true /\ timer c = false.
Proof. eexists. split; [vm_compute; reflexivity|]. split_and!; vm_compute; reflexivity. Qed.

End ConnectionRuns.
