(* ===== verification/ConnectionDepth.v ===== *)
(** * Runs of HTTP connections return

    The calls of a connection on itself end: [run_entry] with a bound on the nesting
    that is linear in the size of the read buffer never meets it, as long as the
    groups of the answers are not empty, the after-write callbacks do not call the
    connection, and files are sent asynchronously.  With [ConnectionSafety] every
    step of such a run returns. *)

From S2P Require Import Prelude HttpFields HttpHeaders Coordinator HttpResponse Router HttpInput OutputCtx Effects.
From S2P Require Import LineParser HttpParserTheory Connection ConnectionSafety ConnectionRuns.

Module ConnectionDepth.
Import Buffers OutputCtx HttpMethod NumberedMethods HttpParser HttpParserTheory Connection ConnectionSafety.
Import Coordinator(response_coordinator_t, response_context_t, response_output_flags_t, m_context_table, m_contexts,
  m_write_groups, append_response, pop_ready_buffers, register_new_request, new_coordinator).

(** ** Groups that have something to write *)

Open Scope effects_scope.

Definition filled_group (g : write_group_t) : Prop := m_items g <> [].

Definition filled_context (ctx : response_context_t) : Prop := Forall filled_group (m_write_groups ctx).

Definition filled (co : response_coordinator_t) : Prop := Forall filled_context (m_contexts (m_context_table co)).

Lemma filled_slot i t : Forall filled_context (m_contexts t) -> filled_context (Coordinator.slot i t).
Proof.
  intros Ht. unfold Coordinator.slot. destruct (decide (i < length (m_contexts t))%nat).
  - rewrite List.Forall_forall in Ht. by apply Ht, nth_In.
  - rewrite nth_overflow by lia. constructor.
Qed.

Lemma filled_set_slot i ctx t :
  filled_context ctx -> Forall filled_context (m_contexts t) -> Forall filled_context (m_contexts (Coordinator.set_slot i ctx t)).
Proof. intros Hc Ht. by apply Forall_insert. Qed.

Lemma filled_enqueue g ctx : filled_group g -> filled_context ctx -> filled_context (Coordinator.enqueue_group g ctx).
Proof.
  intros Hg Hc. unfold Coordinator.enqueue_group, filled_context in *. simpl.
  destruct (rev (m_write_groups ctx)) as [|h before] eqn:E.
  - apply Forall_app. by repeat constructor.
  - case_match; apply Forall_app; (split; [|repeat constructor]); try done.
    + assert (Hr : Forall filled_group (rev (m_write_groups ctx))) by (apply Forall_rev, Hc).
      rewrite E in Hr. by apply Forall_rev; inversion Hr.
    + unfold filled_group, merge. simpl. intros Hn. by apply app_eq_nil in Hn as [_ ?].
Qed.

Lemma filled_new n : filled (new_coordinator n).
Proof. unfold filled. simpl. apply List.Forall_forall. intros x Hx. apply repeat_spec in Hx as ->. constructor. Qed.

Lemma filled_register co co' id : register_new_request co = Ok (co', id) -> filled co -> filled co'.
Proof.
  unfold register_new_request, Coordinator.push_response_context. destruct (Coordinator.is_full _); [done|].
  intros [= <- <-] Hf.
  apply filled_set_slot; [|done]. by apply filled_slot.
Qed.

Lemma filled_append id flags g co co' :
  append_response id flags g co = Ok co' -> filled_group g -> filled co -> filled co'.
Proof.
  unfold append_response. intros Ha Hg Hf. repeat case_match; simplify_eq.
  apply filled_set_slot; [|done]. apply filled_enqueue; [done|]. by apply filled_slot.
Qed.

Lemma filled_pop co co' g :
  pop_ready_buffers co = Ok (co', g) -> filled co -> filled co' /\ from_option (fun x => filled_group x.1) True g.
Proof.
  unfold pop_ready_buffers. destruct (Coordinator.closed co); [done|].
  destruct (Coordinator.table_empty _); [by intros [= <- <-]|]. intros Hp Hf.
  pose proof (filled_slot (Coordinator.m_first_element_index (m_context_table co)) _ Hf) as Hfr.
  fold (Coordinator.front (m_context_table co)) in Hfr. unfold Coordinator.dequeue_group, filled_context in *.
  destruct (m_write_groups (Coordinator.front _)) as [|h gs]; [by simplify_eq|]. inversion_clear Hfr.
  destruct (Coordinator.is_complete _); [unfold Coordinator.pop_response_context in Hp; destruct (Coordinator.table_empty _); [done|]|];
    simplify_eq; (split; [by apply filled_set_slot|done]).
Qed.

Lemma filled_reset_loop fuel t :
  Forall filled_context (m_contexts t) -> Forall filled_context (m_contexts (Coordinator.reset_loop fuel t).1).
Proof.
  revert t. induction fuel as [|fuel IH]; intros t Ht; [done|]. simpl. case_match; [done|].
  match goal with |- context [Coordinator.reset_loop fuel ?x] =>
    specialize (IH x); destruct (Coordinator.reset_loop fuel x) end.
  apply IH. apply (filled_set_slot _ _ t); [constructor|done].
Qed.

Lemma filled_reset co : filled co -> filled (Coordinator.reset co).1.
Proof.
  intros Hf. unfold Coordinator.reset. pose proof (filled_reset_loop (Coordinator.m_elements_exists (m_context_table co)) _ Hf).
  by destruct (Coordinator.reset_loop _ _).
Qed.

(** ** Well-behaved surroundings *)

Definition calm_op (o : conn_op) : Prop :=
  match o with op_write_response_parts _ _ g => filled_group g | op_move_upgrade_internals => True end.

Class CalmUser (U : UserCode) : Prop := {
  calm_request n r : Forall calm_op (on_request n r).1;
  calm_written n cb st : (on_written n cb st).1 = []
}.

Class AsyncFiles (F : SendFile) : Prop := async_files n file : sendfile_start n file = None.

Section Depth.
Context {P : HttpParser} {L : HttpParserLaws P} `{HttpParserCodes} {U : UserCode} {F : SendFile}.
Context {HU : CalmUser U} {HF : AsyncFiles F} (settings : connection_settings_t).

(** A group is started with its first item: always, as long as the socket is open,
    or the socket is not open. *)
Inductive mode := fresh | any | shut.

Definition index_ok (b : mode) (c : conn) : Prop :=
  match b with
  | fresh => current_of c = None -> index_of c = 0%nat
  | any => m_socket_open c = true -> current_of c = None -> index_of c = 0%nat
  | shut => m_socket_open c = false
  end.

(** At most [n] octets are left in the buffer, and all queued groups have items. *)
Record bounded (b : mode) (n : nat) (c : conn) : Prop := {
  bounded_buf : (length (m_buf c) <= n)%nat;
  bounded_groups : filled (m_response_coordinator c);
  bounded_index : index_ok b c
}.

Lemma bounded_weaken b n n' c : bounded b n c -> (n <= n')%nat -> bounded b n' c.
Proof. intros [H1 H2 H3] Hn. split; [lia|done|done]. Qed.

Lemma bounded_any b n c : bounded b n c -> bounded any n c.
Proof. intros [H1 H2 H3]. split; [done|done|]. destruct b; simpl in *; auto. intros; congruence. Qed.

Lemma bounded_fresh b n c : bounded fresh n c -> b <> shut -> bounded b n c.
Proof. intros [H1 H2 H3] Hb. split; [done|done|]. destruct b; simpl in *; auto. done. Qed.

(** The call is not nested too deeply, and ends in [Q]. *)
Definition ends_in {A} (Q : conn -> Prop) (r : res conn A) : Prop :=
  match r with Ret _ c | Raise c | RaiseOther c => Q c | Terminate | Undef => True | Deep => False end.

Lemma ends_in_mono {A} (Q Q' : conn -> Prop) (r : res conn A) :
  ends_in Q r -> (forall c, Q c -> Q' c) -> ends_in Q' r.
Proof. destruct r; simpl; auto. Qed.

Lemma ends_in_bind {A B} (m : M conn A) (k : A -> M conn B) Q Q' c :
  ends_in Q (m c) -> (forall a c, Q c -> ends_in Q' (k a c)) -> (forall c, Q c -> Q' c) -> ends_in Q' (bind m k c).
Proof. unfold bind. destruct (m c); simpl; auto. Qed.

Lemma ends_in_catch (m h : M conn unit) Q Q' c :
  ends_in Q (m c) -> (forall c, Q c -> ends_in Q' (h c)) -> (forall c, Q c -> Q' c) -> ends_in Q' (catch m h c).
Proof. unfold catch. destruct (m c); simpl; auto. Qed.

Lemma ends_in_noexcept (m : M conn unit) Q c : ends_in Q (m c) -> ends_in Q (noexcept m c).
Proof. unfold noexcept. by destruct (m c). Qed.

Section Bounded.
Context (b : mode) (n : nat).

Class Bounded {A} (m : M conn A) : Prop := bounded_call c : bounded b n c -> ends_in (bounded b n) (m c).

#[global] Instance bounded_ret {A} (a : A) : Bounded (ret a).
Proof. by intros c. Qed.
#[global] Instance bounded_raise {A} : Bounded (@raise conn A).
Proof. by intros c. Qed.
#[global] Instance bounded_undef {A} : Bounded (@undef conn A).
Proof. by intros c. Qed.
#[global] Instance bounded_gets {A} (f : conn -> A) : Bounded (gets f).
Proof. by intros c. Qed.
#[global] Instance bounded_lift {A} (o : outcome A) : Bounded (lift o).
Proof. destruct o; apply _. Qed.
#[global] Instance bounded_bind {A B} (m : M conn A) (k : A -> M conn B) :
  Bounded m -> (forall a, Bounded (k a)) -> Bounded (bind m k).
Proof. intros Hm Hk c Hc. eapply ends_in_bind; [by apply Hm|intros; by apply Hk|done]. Qed.
#[global] Instance bounded_catch (m h : M conn unit) : Bounded m -> Bounded h -> Bounded (catch m h).
Proof. intros Hm Hh c Hc. eapply ends_in_catch; [by apply Hm|intros; by apply Hh|done]. Qed.
#[global] Instance bounded_catch_all (m h : M conn unit) : Bounded m -> Bounded h -> Bounded (catch_all m h).
Proof.
  intros Hm Hh c Hc. specialize (Hm c Hc). unfold catch_all. destruct (m c); simpl in *; try done; by apply Hh.
Qed.
#[global] Instance bounded_noexcept (m : M conn unit) : Bounded m -> Bounded (noexcept m).
Proof. intros Hm c Hc. apply ends_in_noexcept. by apply Hm. Qed.
#[global] Instance bounded_throw {A} e : Bounded (@throw conn A e).
Proof. by intros c; destruct e. Qed.
#[global] Instance bounded_throw_if e : Bounded (throw_if e).
Proof. destruct e; simpl; apply _. Qed.
#[global] Instance bounded_if {A} (t : bool) (m k : M conn A) : Bounded m -> Bounded k -> Bounded (if t then m else k).
Proof. by destruct t. Qed.

Class KeepsBound (f : conn -> conn) : Prop := keeps_bound c : bounded b n c -> bounded b n (f c).

#[global] Instance bounded_upd f : KeepsBound f -> Bounded (upd f).
Proof. intros Hf c Hc. by apply Hf. Qed.

#[global] Instance bound_outside k : KeepsBound (set_outside_calls k).
Proof. by intros c []. Qed.
#[global] Instance bound_timer x : KeepsBound (set_timer x).
Proof. by intros c []. Qed.
#[global] Instance bound_clock x : KeepsBound (set_clock x).
Proof. by intros c []. Qed.
#[global] Instance bound_timeout_cb x : KeepsBound (set_current_timeout_cb x).
Proof. by intros c []. Qed.
#[global] Instance bound_timeout_after f : KeepsBound (fun c => set_current_timeout_after (f c) c).
Proof. by intros c []. Qed.
#[global] Instance bound_init_read x : KeepsBound (set_init_read_after_this_write x).
Proof. by intros c []. Qed.
#[global] Instance bound_monitor x : KeepsBound (set_lifetime_monitor x).
Proof. by intros c []. Qed.
#[global] Instance bound_stage x : KeepsBound (set_connection_upgrade_stage x).
Proof. by intros c []. Qed.
#[global] Instance bound_running x : KeepsBound (set_read_operation_is_running x).
Proof. by intros c []. Qed.
#[global] Instance bound_reading x : KeepsBound (set_reading x).
Proof. by intros c []. Qed.
#[global] Instance bound_writing x : KeepsBound (set_writing x).
Proof. by intros c []. Qed.
#[global] Instance bound_parser x : KeepsBound (set_parser x).
Proof. by intros c []. Qed.
#[global] Instance bound_parser_ctx x : KeepsBound (set_parser_ctx x).
Proof. by intros c []. Qed.
#[global] Instance bound_parser_ctx_of f : KeepsBound (fun c => set_parser_ctx (f c) c).
Proof. by intros c []. Qed.
#[global] Instance bound_close : KeepsBound (set_socket_open false).
Proof. intros c [H1 H2 H3]. by destruct b. Qed.
#[global] Instance bound_trace f : KeepsBound (fun c => set_trace (f c) c).
Proof. by intros c []. Qed.
#[global] Instance bounded_log e : Bounded (log e).
Proof. unfold log. apply _. Qed.

Lemma bound_coordinator co c : bounded b n c -> filled co -> bounded b n (set_response_coordinator co c).
Proof. by intros [] ?. Qed.

(** A context that is transmitting, or starts with the first item. *)
Lemma bound_output ctx c :
  bounded b n c -> (m_current_wg ctx = None -> m_next_writable_item_index ctx = 0%nat) ->
  bounded b n (set_write_output_ctx ctx c).
Proof. intros [] ?. split; [done|done|]. destruct b; simpl; auto. Qed.

End Bounded.

(** ** Calls that need no deep nesting *)

Section Calls.
Context (self : entry -> M conn unit).

(** A callback, which makes no calls, and the first operation of a group. *)
Class Base : Prop := nil_bounded b n : Bounded b n (self (call_user [])).
Class Starts : Prop := fresh_bounded b n c g :
  bounded b n c -> current_of c = Some g -> index_of c = 0%nat -> filled_group g ->
  ends_in (bounded b n) (self call_handle_current_write_ctx c).

Context {Hbase : Base}.
#[local] Existing Instance nil_bounded.

#[global] Instance bounded_outside b n : Bounded b n outside.
Proof. unfold outside. apply _. Qed.
#[global] Instance bounded_call_notificator b n cb st : Bounded b n (call_notificator self cb st).
Proof using Hbase HU.
  unfold call_notificator. do 2 (apply bounded_bind; [apply _|intros ?]). pose proof (calm_written a0 cb st) as Hw.
  destruct (on_written a0 cb st) as [ops t]. simpl in Hw. subst ops. apply _.
Qed.
#[global] Instance bounded_invoke_notificator b n g st : Bounded b n (invoke_notificator self g st).
Proof using Hbase HU. unfold invoke_notificator. destruct (m_after_write_notificator g); apply _. Qed.
#[global] Instance bounded_destroy_group b n g : Bounded b n (destroy_group self g).
Proof using Hbase HU. unfold destroy_group. apply _. Qed.
#[global] Instance bounded_invoke_with_error b n g : Bounded b n (invoke_after_write_cb_with_error self g).
Proof using Hbase HU. unfold invoke_after_write_cb_with_error. apply _. Qed.
#[global] Instance bounded_listener b n k : Bounded b n (call_state_listener k).
Proof. unfold call_state_listener. apply _. Qed.
#[global] Instance bounded_cancel_timeout b n : Bounded b n cancel_timeout_checking.
Proof. unfold cancel_timeout_checking. apply _. Qed.
#[global] Instance bounded_schedule b n t cb : Bounded b n (schedule_operation_timeout_callback t cb).
Proof. unfold schedule_operation_timeout_callback. apply _. Qed.
#[global] Instance bounded_guard_read b n : Bounded b n (guard_read_operation settings).
Proof. unfold guard_read_operation. apply _. Qed.
#[global] Instance bounded_guard_request b n : Bounded b n (guard_request_handling_operation settings).
Proof. unfold guard_request_handling_operation. apply _. Qed.
#[global] Instance bounded_guard_write b n : Bounded b n (guard_write_operation settings).
Proof. unfold guard_write_operation. apply _. Qed.
#[global] Instance bounded_guard_sendfile b n t : Bounded b n (guard_sendfile_operation settings t).
Proof. unfold guard_sendfile_operation. apply _. Qed.

#[global] Instance bounded_reset b n : Bounded b n (reset_coordinator self).
Proof using Hbase HU.
  unfold reset_coordinator. intros c Hc. unfold bind at 1, gets.
  pose proof (filled_reset _ (bounded_groups _ _ _ Hc)) as Hf.
  destruct (Coordinator.reset (m_response_coordinator c)) as [co cbs]. simpl in Hf.
  apply (ends_in_bind _ _ (bounded b n)); [by apply bound_coordinator| |done]. intros _.
  change (Bounded b n (foldr (fun cb rest => catch_all (call_notificator self cb write_was_not_executed) (ret tt);; rest)
    (ret tt) cbs)). induction cbs; simpl; apply _.
Qed.
#[global] Instance bounded_close b n : Bounded b n (close self).
Proof using Hbase HU. unfold close. apply _. Qed.
#[global] Instance bounded_trigger b n : Bounded b n (trigger_error_and_close self).
Proof using Hbase HU. unfold trigger_error_and_close. apply _. Qed.
#[global] Instance bounded_check_timeout b n : Bounded b n (check_timeout_impl self).
Proof using Hbase HU.
  unfold check_timeout_impl, call_timeout_cb, handle_xxx_timeout, init_next_timeout_checking.
  do 2 (apply bounded_bind; [apply _|intros ?]). apply bounded_if; [|apply _]. apply bounded_bind; [apply _|].
  intros [[]|]; apply _.
Qed.
#[global] Instance bounded_move b n : Bounded b n move_upgrade_internals.
Proof. unfold move_upgrade_internals. apply _. Qed.
#[global] Instance bounded_nothing b n : Bounded b n (handle_nothing_to_write settings self).
Proof using Hbase HU. unfold handle_nothing_to_write. apply _. Qed.

#[global] Instance bounded_register b n : Bounded b n register_request.
Proof.
  unfold register_request. intros c Hc. unfold bind at 1, gets.
  destruct (register_new_request (m_response_coordinator c)) as [[co id]|w] eqn:E; [|done]. unfold lift, bind at 1, ret at 1.
  apply (ends_in_bind _ _ (bounded b n)); [|intros; by apply (bounded_call b n (m := (log registered;; ret id)))|done].
  apply bound_coordinator; [done|]. eapply filled_register; [done|]. apply Hc.
Qed.

Lemma bounded_append b n id flags g : filled_group g -> Bounded b n (append_to_coordinator self id flags g).
Proof using Hbase HU.
  intros Hg c Hc. unfold append_to_coordinator, bind at 1, gets.
  destruct (append_response id flags g (m_response_coordinator c)) as [co|w] eqn:E.
  - apply (ends_in_bind _ _ (bounded b n)); [|intros; by apply (bounded_call b n (m := log (appended id flags g)))|done].
    apply bound_coordinator; [done|]. eapply filled_append; [done|done|]. apply Hc.
  - by apply (bounded_call b n (m := (destroy_group self g;; raise))).
Qed.

(** *** Writing *)

#[global] Instance bounded_start_write b n o : Bounded b n (start_write o).
Proof. unfold start_write. apply _. Qed.
#[global] Instance bounded_cancel b n : Bounded b n cancel_if_closed.
Proof. unfold cancel_if_closed. apply _. Qed.
#[global] Instance bounded_trivial b n bufs k : Bounded b n (handle_trivial_write_operation settings bufs k).
Proof. unfold handle_trivial_write_operation. apply _. Qed.
#[global] Instance bounded_file b n file k : Bounded b n (handle_file_write_operation settings self file k).
Proof using HF Hbase HU.
  unfold handle_file_write_operation. do 2 (apply bounded_bind; [apply _|intros ?]). apply bounded_if; [|apply _].
  do 2 (apply bounded_bind; [apply _|intros ?]). rewrite async_files. apply _.
Qed.

(** A group that has items left. *)
Lemma handle_started b n c g :
  bounded b n c -> current_of c = Some g -> index_of c = 0%nat -> filled_group g ->
  ends_in (bounded b n) (handle_current_write_ctx settings self c).
Proof using HF Hbase HU.
  intros Hc Hg Hi Hf. apply ends_in_noexcept.
  apply (ends_in_catch _ _ (bounded b n)); [|intros; by apply bounded_trigger|done].
  unfold bind at 1, gets. unfold current_of in Hg. unfold index_of in Hi. unfold extract_next_write_operation. rewrite Hg, Hi.
  destruct (m_items g) as [|i items] eqn:E; [done|]. cbn [lookup list_lookup].
  destruct i as [d|file size]; cbn [prepare_trivial_buffers_wo];
    (apply (ends_in_bind _ _ (bounded b n)); [apply bound_output; [done|simpl; congruence]| |done]); intros ? ? ?.
  - by apply bounded_trivial.
  - by apply bounded_file.
Qed.

Context {Hstarts : Starts}.

Lemma bounded_init_write n c :
  bounded fresh n c -> current_of c = None -> ends_in (bounded fresh n) (init_write settings self c).
Proof using Hstarts Hbase HU.
  intros Hc Hn. unfold init_write. unfold bind at 1, gets at 1. unfold bind at 1, gets at 1.
  destruct (pop_ready_buffers (m_response_coordinator c)) as [[co g]|w] eqn:E; [|done].
  destruct (filled_pop _ _ _ E (bounded_groups _ _ _ Hc)) as [Hco Hg]. unfold lift, bind at 1, ret at 1. cbv iota beta.
  apply (ends_in_bind _ _ (fun c' => bounded fresh n c' /\ m_write_output_ctx c' = m_write_output_ctx c));
    [by split; [apply bound_coordinator|]| |by intros ? []].
  intros _ c1 [H1 E1]. destruct g as [[g id]|]; [|by apply bounded_nothing]. unfold bind at 1, gets at 1.
  apply (ends_in_bind _ _ (fun c' => bounded fresh n c' /\ m_write_output_ctx c' = m_write_output_ctx c));
    [split; [by apply bound_init_read|done]| |by intros ? []].
  intros _ c2 [H2 E2].
  apply (ends_in_bind _ _ (fun c' => bounded fresh n c' /\ m_write_output_ctx c' = m_write_output_ctx c)); [| |by intros ? []].
  { destruct (status_line_in_first_item g); [done|]. split; [by destruct H2|done]. }
  intros _ c3 [H3 E3].
  apply (ends_in_bind _ _ (fun c' => bounded fresh n c' /\ m_write_output_ctx c' = m_write_output_ctx c));
    [split; [by destruct H3|done]| |by intros ? []].
  intros _ c4 [H4 E4]. unfold bind, upd. apply (fresh_bounded fresh n _ g); [by apply bound_output|done| |done].
  destruct Hc as [_ _ Hx]. specialize (Hx Hn). unfold index_of in *. simpl. congruence.
Qed.

#[global] Instance bounded_init_if_necessary n : Bounded fresh n (init_write_if_necessary settings self).
Proof using Hstarts Hbase HU.
  unfold init_write_if_necessary. apply bounded_bind; [apply _|]. intros x. apply bounded_bind; [apply _|].
  intros _ c Hc. unfold bind, gets, is_transmitting, transmitting.
  destruct (m_current_wg (m_write_output_ctx c)) eqn:E; [done|]. by apply bounded_init_write.
Qed.

(** ** Calls that nest *)

Class WaitsAt (n : nat) : Prop := waits_at b : Bounded b n (self call_wait_for_http_message).
Class UsersAt (n : nat) : Prop := users_at b ops : Forall calm_op ops -> Bounded b n (self (call_user ops)).

Lemma bounded_open b n c : bounded b n c -> m_socket_open c = true -> bounded fresh n c /\ b <> shut.
Proof. intros [H1 H2 H3] Ho. split; [split; [done|done|]|]; destruct b; simpl in *; auto; congruence. Qed.

Lemma bounded_write_impl b n id flags g :
  WaitsAt n -> filled_group g -> Bounded b n (write_response_parts_impl settings self id flags g).
Proof using Hstarts Hbase HU.
  intros Hw Hg c Hc. unfold write_response_parts_impl. unfold bind at 1, gets at 1.
  destruct (m_socket_open c) eqn:Ho; [|by apply bounded_invoke_with_error].
  apply bounded_open in Hc as [Hc Hb]; [|done].
  apply (ends_in_mono (bounded fresh n)); [|intros; by apply bounded_fresh].
  pose proof (bounded_append fresh n id flags g Hg). pose proof (waits_at fresh (n := n)).
  refine (bounded_bind fresh n _ _ _ _ c Hc).
Qed.

Lemma bounded_conn_call b n o : WaitsAt n -> calm_op o -> Bounded b n (conn_call settings self o).
Proof using Hstarts Hbase HU.
  intros Hw Ho. destruct o as [id flags g|]; [|apply bounded_move]. unfold conn_call, write_response_parts.
  apply bounded_noexcept, bounded_catch; [by apply bounded_write_impl|apply _].
Qed.

Lemma bounded_calls b n ops :
  WaitsAt n -> Forall calm_op ops -> Bounded b n (enter settings self (call_user ops)).
Proof using Hstarts Hbase HU.
  intros Hw Ho. cbn [enter]. induction Ho as [|o ops Ho Hops IH]; [apply bounded_ret|]. simpl.
  apply bounded_bind; [by apply bounded_conn_call|done].
Qed.

#[global] Instance bounded_refuse b n id : WaitsAt n -> Bounded b n (refuse_request settings self id).
Proof using Hstarts Hbase HU. intros Hw. by apply bounded_write_impl. Qed.

#[global] Instance bounded_handler b n id : UsersAt n -> Bounded b n (call_request_handler self id).
Proof using Hstarts HU.
  intros Hu. unfold call_request_handler. apply bounded_bind; [apply _|]. intros ctx.
  destruct (ParserCtx.make_chunked_input_info_if_necessary ctx) as [ctx' info]. do 2 (apply bounded_bind; [apply _|intros ?]).
  do 3 (apply bounded_bind; [apply _|intros ?]).
  match goal with |- context [on_request ?k ?r] => pose proof (calm_request k r) as Hc; destruct (on_request k r) as [ops st] end.
  apply bounded_bind; [by apply users_at|]. intros _. destruct st; apply _.
Qed.

#[global] Instance bounded_upgrade b n : WaitsAt n -> UsersAt n -> Bounded b n (handle_upgrade_request settings self).
Proof using Hstarts Hbase HU.
  intros Hw Hu. unfold handle_upgrade_request. apply bounded_bind; [apply _|]. intros id.
  do 3 (apply bounded_bind; [apply _|intros ?]). destruct a1; apply _.
Qed.

#[global] Instance bounded_complete b n : WaitsAt n -> UsersAt n -> Bounded b n (on_request_message_complete settings self).
Proof using Hstarts Hbase HU.
  intros Hw Hu. unfold on_request_message_complete. apply bounded_catch; [|apply _].
  do 3 (apply bounded_bind; [apply _|intros ?]). apply bounded_if; [|apply _].
  do 3 (apply bounded_bind; [apply _|intros ?]). pose proof (waits_at b (n := n)). destruct a4; apply _.
Qed.

#[global] Instance bounded_consume_message b n : Bounded b n consume_message.
Proof. unfold consume_message, async_read_some. apply _. Qed.

(** A message that ends leaves at most [m] octets. *)
Lemma bounded_consume_data b n m c :
  bounded b n c -> (m <= n)%nat -> WaitsAt m -> UsersAt m ->
  (forall p k ctx,
     run_callbacks (m_incoming_http_msg_limits settings) (string_max_size settings)
       (http_parser_execute (m_parser c) (m_buf c)) (m_parser_ctx c) = Some (p, k, ctx) ->
     http_errno p <> HPE_FAILED -> ParserCtx.m_message_complete ctx = true -> (length (m_buf c) - k <= m)%nat) ->
  ends_in (bounded b n) (consume_data settings self c).
Proof using Hstarts Hbase HU.
  intros Hc Hmn Hw Hu Hrun. unfold consume_data. do 3 (unfold bind at 1, gets at 1).
  destruct (run_callbacks _ _ _ _) as [[[p k] ctx]|]; [|done]. do 3 (unfold bind at 1, upd at 1).
  set (c' := set_buf _ _). assert (Hc' : bounded b n c').
  { destruct Hc as [H1 H2 H3]. split; [|done|done]. simpl. rewrite length_drop. lia. }
  specialize (Hrun p k ctx eq_refl).
  assert (Hmc : http_errno p <> HPE_FAILED ->
    ends_in (bounded b n) ((if ParserCtx.m_message_complete ctx then on_request_message_complete settings self
                            else consume_message) c')).
  { intros He. destruct (ParserCtx.m_message_complete ctx); [|by apply bounded_consume_message].
    apply (ends_in_mono (bounded b m)); [|intros; by eapply bounded_weaken]. apply bounded_complete; [done|done|].
    destruct Hc' as [_ H2 H3]. split; [|done|done]. simpl. rewrite length_drop. by apply Hrun. }
  destruct (http_errno p); [by apply Hmc|by apply Hmc|by apply bounded_trigger].
Qed.

(** *** Waiting for the next message *)

Lemma bounded_wait b n m :
  n = 0%nat \/ n = S m /\ WaitsAt m /\ UsersAt m -> Bounded b n (wait_for_http_message settings self).
Proof using Hstarts Hbase HU L.
  intros Hn. unfold wait_for_http_message, reset_parser. intros c Hc.
  apply (ends_in_bind _ _ (fun c' => bounded b n c' /\ ready (m_parser c') (m_parser_ctx c')));
    [split; [by destruct Hc|apply ready_start]| |by intros ? []].
  intros _ c1 [H1 Hr1].
  apply (ends_in_bind _ _ (fun c' => bounded b n c' /\ ready (m_parser c') (m_parser_ctx c'))); [| |by intros ? []].
  { unfold guard_read_operation, schedule_operation_timeout_callback, bind, gets, upd.
    destruct (coordinator_empty c1); simpl; [|by split]. split; [by destruct H1|done]. }
  intros _ c2 [H2 Hr]. unfold bind at 1, gets at 1.
  destruct (m_buf c2) as [|x l] eqn:Eb; [by apply bounded_consume_message|].
  destruct Hn as [->|(-> & Hw & Hu)]; [destruct H2 as [Hl _ _]; rewrite Eb in Hl; simpl in Hl; lia|].
  apply (bounded_consume_data b (S m) m); [done|lia|done|done|]. intros p k ctx Hx Hf Hm.
  destruct (execution_ends (m_incoming_http_msg_limits settings) (string_max_size settings) _ _ (m_buf c2) Hr)
    as (p' & k' & ctx' & Hx' & _ & Hend).
  rewrite Hx in Hx'. injection Hx' as <- <- <-. destruct H2 as [Hl _ _].
  destruct Hend as [?|[(_ & _ & ?)|(_ & Hm' & _)]]; [done|lia|congruence].
Qed.

(** *** The end of a group *)

Lemma bounded_notify b n st c :
  bounded b n c ->
  match invoke_after_write_notificator_if_necessary self st c with
  | Ret _ c' | RaiseOther c' => bounded b n c'
  | Raise c' => bounded fresh n c'
  | Terminate | Undef => True
  | Deep => False
  end.
Proof using Hstarts Hbase HU.
  intros Hc. unfold invoke_after_write_notificator_if_necessary, catch, bind at 1, gets.
  unfold take_notificator. destruct (m_current_wg (m_write_output_ctx c)) as [g|]; [|done].
  destruct (invoke_after_write_notificator_if_exists g) as [g' cb]. unfold bind at 1, upd at 1.
  set (c1 := set_write_output_ctx _ _). assert (H1 : bounded b n c1) by by apply bound_output.
  destruct cb as [cb|]; [|done]. pose proof (bounded_call_notificator b n cb st c1 H1) as Hcb.
  destruct (call_notificator self cb st c1) as [? ?|c2|c2| | |]; try done. simpl in Hcb. destruct Hcb. by split.
Qed.

Lemma bounded_finish n b c :
  bounded b n c ->
  match finish_write_group self c with
  | Ret _ c' | Raise c' => bounded fresh n c'
  | RaiseOther c' => bounded b n c'
  | Terminate | Undef => True
  | Deep => False
  end.
Proof using Hstarts Hbase HU.
  intros Hc. unfold finish_write_group, bind. pose proof (bounded_notify b n written c Hc) as Hn.
  destruct (invoke_after_write_notificator_if_necessary self written c); try done. simpl. destruct Hn. by split.
Qed.

Lemma bounded_fail n st c : bounded shut n c -> ends_in (bounded any n) (fail_write_group self st c).
Proof using Hstarts Hbase HU.
  intros Hc. unfold fail_write_group, bind. pose proof (bounded_notify shut n st c Hc) as Hn.
  destruct (invoke_after_write_notificator_if_necessary self st c); try done; simpl.
  - destruct Hn. split; [done|done|]. intros Ho. simpl in *. congruence.
  - by eapply bounded_any.
  - by eapply bounded_any.
Qed.

Lemma bounded_finish_handling n c :
  WaitsAt n -> UsersAt n -> bounded any n c -> ends_in (bounded any n) (finish_handling_current_write_ctx settings self c).
Proof using Hstarts Hbase HU.
  intros Hw Hu Hc. unfold finish_handling_current_write_ctx. unfold bind at 1. pose proof (bounded_finish n any c Hc) as Hf.
  destruct (finish_write_group self c) as [a c1|c1|c1| | |]; try done; [|by eapply bounded_any].
  apply (ends_in_mono (bounded fresh n)); [|intros; by eapply bounded_any].
  pose proof (waits_at fresh (n := n)). refine (bounded_bind fresh n _ _ _ _ c1 Hf).
Qed.

Lemma bounded_handle n c :
  WaitsAt n -> UsersAt n -> bounded any n c -> ends_in (bounded any n) (handle_current_write_ctx settings self c).
Proof using Hstarts HF Hbase HU.
  intros Hw Hu Hc. apply ends_in_noexcept.
  apply (ends_in_catch _ _ (bounded any n)); [|intros; by apply bounded_trigger|done].
  unfold bind at 1, gets. unfold extract_next_write_operation.
  destruct (m_current_wg (m_write_output_ctx c)) as [g|] eqn:Eg; [|done].
  assert (Hc' : forall k, bounded any n (set_write_output_ctx (mk_octx (Some g) k) c)) by (intros; by apply bound_output).
  destruct (m_items g !! _) as [[d|file size]|]; unfold prepare_trivial_buffers_wo, bind, upd; rewrite ?Eg.
  - by apply bounded_trivial.
  - by apply bounded_file.
  - apply bounded_finish_handling; [done|done|].
    specialize (Hc' (m_next_writable_item_index (m_write_output_ctx c))). rewrite <- Eg in Hc'.
    by destruct (m_write_output_ctx c).
Qed.

End Calls.

(** ** The depth that is needed *)

Lemma base_depth d : (1 <= d)%nat -> Base (run_entry settings d).
Proof. intros Hd b n. destruct d as [|d]; [lia|]. apply bounded_ret. Qed.

Lemma starts_depth d : (2 <= d)%nat -> Starts (run_entry settings d).
Proof using HF HU.
  intros Hd b n c g. destruct d as [|d]; [lia|]. assert (Base (run_entry settings d)) by (apply base_depth; lia).
  exact (handle_started (run_entry settings d) b n c g).
Qed.

(** Every message takes an octet of the buffer and two levels: the handler's answer,
    and the wait for the next message inside it. *)
Lemma wait_depth d :
  (forall n, (2 * n + 3 <= d)%nat -> WaitsAt (run_entry settings d) n) /\
  (forall n, (2 * n + 4 <= d)%nat -> UsersAt (run_entry settings d) n).
Proof using HF HU L.
  induction d as [|d [IHw IHu]]; [by split; intros n Hn; lia|].
  assert (HB : (1 <= d)%nat -> Base (run_entry settings d)) by apply base_depth.
  assert (HS : (2 <= d)%nat -> Starts (run_entry settings d)) by apply starts_depth. split; intros n Hn b.
  - specialize (HB ltac:(lia)). specialize (HS ltac:(lia)). destruct n as [|m].
    + refine (bounded_wait (run_entry settings d) b 0 0 _). by left.
    + refine (bounded_wait (run_entry settings d) b (S m) m _). right.
      split_and!; [done|apply IHw; lia|apply IHu; lia].
  - intros ops Hops. specialize (HB ltac:(lia)). specialize (HS ltac:(lia)).
    refine (bounded_calls (run_entry settings d) b n ops _ Hops). apply IHw. lia.
Qed.

(** ** Runs *)

(** Calls from outside with nothing to write are left out. *)
Definition calm_event (e : strand_event) : Prop := match e with ev_call o => calm_op o | _ => True end.

Inductive reached (depth : nat) (now : Z) : conn -> Prop :=
| reached_init c : init settings (run_entry settings depth) (new_conn settings now) = Ret tt c -> reached depth now c
| reached_step e c c' :
    reached depth now c -> calm_event e -> step settings depth e c = Some (Ret tt c') -> reached depth now c'.

Lemma reached_reachable depth now c : reached depth now c -> reachable settings depth now c.
Proof. induction 1; [by apply reach_init|by eapply reach_step]. Qed.

(** The nesting that a read buffer of this size needs. *)
Definition depth_needed : nat := 2 * m_buffer_size settings + 5.

Section Steps.
Context (depth : nat) (Hdepth : (depth_needed <= depth)%nat).

#[local] Instance base_step : Base (run_entry settings depth).
Proof using Hdepth. apply base_depth. unfold depth_needed in Hdepth. lia. Qed.
#[local] Instance starts_step : Starts (run_entry settings depth).
Proof using Hdepth HF HU. apply starts_depth. unfold depth_needed in Hdepth. lia. Qed.
#[local] Instance waits_step : WaitsAt (run_entry settings depth) (m_buffer_size settings).
Proof using Hdepth HF HU L. apply wait_depth. unfold depth_needed in Hdepth. lia. Qed.
#[local] Instance users_step : UsersAt (run_entry settings depth) (m_buffer_size settings).
Proof using Hdepth HF HU L. apply wait_depth. unfold depth_needed in Hdepth. lia. Qed.

Lemma handle_step c :
  bounded any (m_buffer_size settings) c ->
  ends_in (bounded any (m_buffer_size settings)) (run_entry settings depth call_handle_current_write_ctx c).
Proof using Hdepth HF HU L.
  unfold depth_needed in Hdepth. destruct depth as [|d]; [lia|]. clear depth.
  assert (Base (run_entry settings d)) by (apply base_depth; lia).
  assert (Starts (run_entry settings d)) by (apply starts_depth; lia).
  assert (WaitsAt (run_entry settings d) (m_buffer_size settings)) by (apply wait_depth; lia).
  assert (UsersAt (run_entry settings d) (m_buffer_size settings)) by (apply wait_depth; lia).
  exact (bounded_handle (run_entry settings d) _ c _ _).
Qed.

Lemma close_shuts b n c : bounded b n c -> ends_in (bounded shut n) (close (run_entry settings depth) c).
Proof using Hdepth HU.
  intros Hc. apply ends_in_noexcept, (ends_in_bind _ _ (bounded shut n)); [by destruct Hc| |done].
  intros _. refine (bounded_bind shut n _ _ _ _).
Qed.

Lemma after_write_step st c :
  bounded any (m_buffer_size settings) c -> may_end st c = true ->
  ends_in (bounded any (m_buffer_size settings)) (after_write (run_entry settings depth) st c).
Proof using Hdepth HF HU L.
  intros Hc Hst. apply ends_in_noexcept. destruct st; simpl; try done; [by apply handle_step| |];
    (apply (ends_in_bind _ _ (bounded shut (m_buffer_size settings))); [| |by eapply bounded_any]).
  1: exact (close_shuts _ _ _ Hc).
  2: { simpl in Hst. apply negb_true_iff in Hst. by destruct Hc. }
  all: intros _ c1 H1; apply (ends_in_catch _ _ (bounded any (m_buffer_size settings)));
    [exact (bounded_fail _ _ _ _ H1)|done|done].
Qed.

Lemma bounded_step e c r :
  bounded any (m_buffer_size settings) c -> calm_event e -> step settings depth e c = Some r ->
  ends_in (bounded any (m_buffer_size settings)) r.
Proof using Hdepth HF HU L.
  intros Hc He Hs. destruct e as [rd|st|now|o]; simpl in Hs.
  - destruct (reading c && fits settings rd) eqn:E; [|done]. injection Hs as <-. apply andb_prop in E as [_ Hfit].
    do 2 (unfold bind at 1, upd at 1). set (c1 := set_read_operation_is_running _ _).
    assert (H1 : bounded any (m_buffer_size settings) c1) by by destruct Hc.
    apply ends_in_noexcept. destruct rd as [data| | |]; simpl; [|refine (bounded_bind any _ _ _ _ _ c1 H1)|exact (bounded_trigger _ _ _ _ H1)|done].
    apply (ends_in_catch _ _ (bounded any (m_buffer_size settings)));
      [|intros c2 H2; exact (bounded_trigger _ _ _ c2 H2)|done].
    unfold bind, upd. apply andb_prop in Hfit as [_ Hlen%Nat.leb_le].
    apply (bounded_consume_data _ _ _ (m_buffer_size settings)); [by destruct H1|done|apply _|apply _|simpl; lia].
  - destruct (writing c && may_end st c) eqn:E; [|done]. injection Hs as <-. apply andb_prop in E as [_ Hst].
    unfold bind, upd. apply after_write_step; [by destruct Hc|done].
  - destruct (clock c <=? now); [|done]. injection Hs as <-. refine (bounded_bind any _ _ _ _ _ c Hc).
  - injection Hs as <-. exact (bounded_conn_call _ _ _ o _ He c Hc).
Qed.

End Steps.

Lemma reached_bounded depth now c :
  (depth_needed <= depth)%nat -> reached depth now c -> bounded any (m_buffer_size settings) c.
Proof using HF HU L.
  intros Hd. induction 1 as [c Hi|e c c' Hr IH He Hs].
  - assert (Hb : Base (run_entry settings depth)) by by apply base_step.
    assert (Hst : Starts (run_entry settings depth)) by by apply starts_step.
    assert (HB : Bounded any (m_buffer_size settings) (init settings (run_entry settings depth))).
    { unfold init, init_next_timeout_checking. apply bounded_bind; [apply _|]. intros _. apply bounded_bind; [apply _|].
      intros _. apply (bounded_wait _ _ _ (pred (m_buffer_size settings))). unfold depth_needed in Hd.
      destruct (m_buffer_size settings) as [|n] eqn:E; [by left|right].
      split_and!; [done|apply wait_depth; simpl; lia|apply wait_depth; simpl; lia]. }
    specialize (HB (new_conn settings now)). rewrite Hi in HB. apply HB. split; [simpl; lia|apply filled_new|done].
  - by apply (bounded_step depth Hd e c _ IH He Hs).
Qed.

(** C7. With a bound on the nesting that is linear in the size of the read buffer,
    every step of every run returns, whatever the peer sends: the connection handles
    all pipelined requests of a buffer, their answers and the next reads, and comes
    back; only an exception of the user's code that is no std::exception ends the
    program instead.  The groups of the answers are not empty, the after-write
    callbacks do not call the connection, and files are sent asynchronously.  As in
    the other theorem, data that arrives after a request to upgrade is left out. *)
Theorem http_steps_return {Hiov : HasIov settings} depth now (c : conn) e r :
  (depth_needed <= depth)%nat -> reached depth now c -> calm_event e ->
  step settings depth e c = Some r -> unprepared e c = false ->
  (exists c', r = Ret tt c' /\ reached depth now c') \/ (r = Terminate /\ throws_other).
Proof using HF HU L.
  intros Hd Hc He Hs Hu. destruct (step_returns _ _ _ _ _ _ (reached_reachable _ _ _ Hc) Hs Hu) as [->|[?|[c' ->]]].
  - by destruct (bounded_step depth Hd e c Deep (reached_bounded _ _ _ Hd Hc) He Hs).
  - by right.
  - left. exists c'. split; [done|]. by eapply reached_step.
Qed.

End Depth.

(** ** A run *)

Import NumberedMethods LineParser ConnectionRuns.

#[export] Instance calm_echo : CalmUser echo.
Proof. split; [|done]. intros n r. repeat constructor. done. Qed.

#[export] Instance async_no_files : AsyncFiles no_files.
Proof. done. Qed.

(** A read buffer of 16 octets. *)
Definition small_settings : connection_settings_t :=
  mk_settings 16 Limits.incoming_http_msg_limits 60 5 10 4 64 (2 ^ 62).

#[export] Instance small_settings_iov : HasIov small_settings.
Proof. unfold HasIov. simpl. lia. Qed.

(** Five pipelined requests in one buffer. *)
Definition five_requests : strand_event :=
  ev_read (received (line "/a" ++ line "/b" ++ line "/c" ++ line "/d" ++ line "/e")).

Lemma http_steps_return_witness :
  exists c, run_events (U := echo) small_settings 37 0 [] = Some c /\
    exists c', step (U := echo) small_settings 37 five_requests c = Some (Ret tt c') /\
      reached (U := echo) small_settings 37 0 c'.
Proof.
  eexists. split; [vm_compute; reflexivity|].
  match goal with |- exists _, step _ _ _ ?x = _ /\ _ =>
    destruct (http_steps_return (U := echo) small_settings 37 0 x five_requests
                (default Undef (step (U := echo) small_settings 37 five_requests x))) as [(y & Hr & Hy)|[Hr _]] end.
  - unfold depth_needed. simpl. lia.
  - apply reached_init. vm_compute. reflexivity.
  - exact I.
  - vm_compute. reflexivity.
  - reflexivity.
  - exists y. split; [|exact Hy]. etransitivity; [|exact (f_equal Some Hr)]. vm_compute. reflexivity.
  - vm_compute in Hr. discriminate.
Defined.

End ConnectionDepth.
