(* ===== verification/ResponseBuilders.v ===== *)
(** * Responses in parts

    What [response_builder_t< user_controlled_output_t >] ([UserOutput]) and
    [response_builder_t< chunked_output_t >] ([ChunkedOutput]) of
    src/web/restinio/restinio/message_builders.hpp share: the write group of a part
    of a response.  What a builder gives to [write_response_parts] is a list of
    [sent_t]; a completion callback is a number. *)

From S2P Require Import Prelude Coordinator HttpFields HttpHeaders HttpResponse.

Module ResponseBuilders.
Import HttpField Status Fields Buffers Response.
Import Coordinator(response_output_flags_t, mk_flags, response_parts_attr_t, final_parts, not_final_parts,
  response_connection_attr, response_connection_attr_t).

Definition is_final (attr : response_parts_attr_t) : bool :=
  match attr with final_parts => true | not_final_parts => false end.

(** The group of [items] with its status line and its callback. *)
Definition make_group (items : list writable_item_t) (status_line_size : Z) (wscb : option Z)
  : outcome write_group_t :=
  let? wg := set_status_line_size status_line_size (write_group items) in
  Ok match wscb with Some cb => set_after_write_notificator cb wg | None => wg end.

(** The status line of a header. *)
Definition header_status_line_size (h : http_response_header_t) : Z :=
  8 + 1 + 3 + 1 + size (m_reason_phrase (m_status_line h)).

(** ** Groups *)

Definition sent_tokens (sent : list sent_t) : list token := flat_map (fun s => group_tokens (sent_group s)) sent.

Definition callback_tokens (wscb : option Z) : list token :=
  match wscb with Some cb => [callback cb] | None => [] end.

Lemma sent_tokens_app a b : sent_tokens (a ++ b) = sent_tokens a ++ sent_tokens b.
Proof. apply flat_map_app. Qed.

(** The status line is the beginning of the serialised header. *)
Lemma status_line_fits h presence : 0 < header_status_line_size h <= size (create_header_string h presence).
Proof.
  rewrite create_header_layout, size_app, size_status_line. unfold header_status_line_size, size. lia.
Qed.

Definition header_item (presence : content_length_field_presence_t) (h : http_response_header_t) : writable_item_t :=
  trivial_write_operation (create_header_string h presence).

(** A group that begins with its header is accepted. *)
Lemma make_group_header presence h rest wscb :
  exists g, make_group (header_item presence h :: rest) (header_status_line_size h) wscb = Ok g /\
    m_items g = header_item presence h :: rest /\ m_status_line_size g = header_status_line_size h /\
    group_tokens g = item (header_item presence h) :: map item rest ++ callback_tokens wscb.
Proof.
  pose proof (status_line_fits h presence) as Hs. unfold make_group, set_status_line_size. cbn [m_items write_group].
  rewrite (proj2 (Z.eqb_neq _ _)) by lia. cbn [negb header_item item_size]. fold (size (create_header_string h presence)).
  rewrite (proj2 (Z.ltb_ge _ _)) by lia. eexists. split; [done|]. by destruct wscb.
Qed.

Lemma make_group_rest items wscb :
  exists g, make_group items 0 wscb = Ok g /\ m_items g = items /\ m_status_line_size g = 0 /\
    group_tokens g = map item items ++ callback_tokens wscb.
Proof. unfold make_group, set_status_line_size. simpl. eexists. split; [done|]. by destruct wscb. Qed.

End ResponseBuilders.
