(* ===== verification/UserOutput.v ===== *)
(** * User-controlled responses

    Model of [response_builder_t< user_controlled_output_t >]
    (src/web/restinio/restinio/message_builders.hpp): the header and the parts of the
    body are handed to the connection when the user says so.  The builder refines an
    abstract response with a committed and a pending part. *)

From S2P Require Import Prelude Coordinator HttpFields HttpHeaders HttpResponse ResponseBuilders.

Module UserOutput.
Import HttpField Status Fields Buffers Response ResponseBuilders.
Import Coordinator(response_output_flags_t, mk_flags, response_parts_attr_t, final_parts, not_final_parts,
  response_connection_attr, response_connection_attr_t).

Record response_builder_t := mk_builder {
  m_header : http_response_header_t;
  m_connection : bool;                              (* the handle is there *)
  m_header_was_sent : bool;
  m_should_keep_alive_when_header_was_sent : bool;
  m_response_parts : list writable_item_t
}.

Definition create (h : http_response_header_t) : response_builder_t := mk_builder h true false true [].

(** What is done to the header through [header()] and the like. *)
Definition with_header (f : http_response_header_t -> http_response_header_t) (b : response_builder_t) :=
  mk_builder (f (m_header b)) (m_connection b) (m_header_was_sent b)
    (m_should_keep_alive_when_header_was_sent b) (m_response_parts b).
Definition with_parts (parts : list writable_item_t) (b : response_builder_t) : response_builder_t :=
  mk_builder (m_header b) (m_connection b) (m_header_was_sent b)
    (m_should_keep_alive_when_header_was_sent b) parts.

Definition set_content_length (content_length : Z) : response_builder_t -> response_builder_t :=
  with_header (with_content_length content_length).

Definition if_neccessary_reserve_first_element_for_header (b : response_builder_t) : response_builder_t :=
  match m_header_was_sent b, m_response_parts b with
  | false, [] => with_parts [trivial_write_operation []] b
  | _, _ => b
  end.

Definition set_body (body : writable_item_t) (b : response_builder_t) : response_builder_t :=
  let b := if_neccessary_reserve_first_element_for_header b in
  let parts := take (if m_header_was_sent b then 0 else 1) (m_response_parts b) in
  with_parts (if 0 <? item_size body then parts ++ [body] else parts) b.

Definition append_body (body_part : writable_item_t) (b : response_builder_t) : response_builder_t :=
  if item_size body_part =? 0 then b
  else
    let b := if_neccessary_reserve_first_element_for_header b in
    with_parts (m_response_parts b ++ [body_part]) b.

(** The header takes the first place unless it was sent. *)
Definition put_header (b : response_builder_t) : response_builder_t * Z :=
  if m_header_was_sent b then (b, 0)
  else
    let keep := should_keep_alive (m_header b) in
    let b := if_neccessary_reserve_first_element_for_header b in
    let parts := <[0%nat := trivial_write_operation (create_header_string (m_header b) add_content_length)]>
                   (m_response_parts b) in
    (mk_builder (m_header b) (m_connection b) true keep parts, header_status_line_size (m_header b)).

Definition send_ready_data (attr : response_parts_attr_t) (wscb : option Z) (b : response_builder_t)
  : outcome (response_builder_t * list sent_t) :=
  let '(b, status_line_size) := put_header b in
  if negb (match m_response_parts b with [] => true | _ => false end)
     || bool_decide (wscb <> None) || is_final attr
  then
    let flags := mk_flags attr (response_connection_attr (m_should_keep_alive_when_header_was_sent b)) in
    let? wg := make_group (m_response_parts b) status_line_size wscb in
    Ok (with_parts [] b, [mk_sent flags wg])
  else Ok (b, []).

Definition flush (wscb : option Z) (b : response_builder_t) : outcome (response_builder_t * list sent_t) :=
  if m_connection b then send_ready_data not_final_parts wscb b else Ok (b, []).

Definition done_ (wscb : option Z) (b : response_builder_t) : outcome (response_builder_t * list sent_t) :=
  if m_connection b then
    send_ready_data final_parts wscb
      (mk_builder (m_header b) false (m_header_was_sent b) (m_should_keep_alive_when_header_was_sent b)
         (m_response_parts b))
  else Throw "done() cannot be called twice".

(** What is done before [done]. *)
Inductive op :=
| op_header (f : http_response_header_t -> http_response_header_t)
| op_content_length (n : Z)
| op_set_body (body : writable_item_t)
| op_append_body (body_part : writable_item_t)
| op_flush (wscb : option Z).

Definition apply_op (o : op) (b : response_builder_t) : outcome (response_builder_t * list sent_t) :=
  match o with
  | op_header f => Ok (with_header f b, [])
  | op_content_length n => Ok (set_content_length n b, [])
  | op_set_body i => Ok (set_body i b, [])
  | op_append_body i => Ok (append_body i b, [])
  | op_flush wscb => flush wscb b
  end.

Fixpoint apply_ops (ops : list op) (b : response_builder_t) : outcome (response_builder_t * list sent_t) :=
  match ops with
  | [] => Ok (b, [])
  | o :: ops =>
      let? (b, sent) := apply_op o b in
      let? (b, sent') := apply_ops ops b in
      Ok (b, sent ++ sent')
  end.

(** ** What the calls mean *)

(** What the calls mean: the header the next group would have, the header that was
    sent, what was handed over and what was not yet. *)
Record response := mk_response {
  r_header : http_response_header_t;
  r_sent : option http_response_header_t;
  r_committed : list token;
  r_pending : list writable_item_t
}.

Definition start (h : http_response_header_t) : response := mk_response h None [] [].

Definition nonempty (i : writable_item_t) : list writable_item_t := if item_size i =? 0 then [] else [i].

Definition commit (wscb : option Z) (r : response) : response :=
  mk_response (r_header r) (Some (default (r_header r) (r_sent r)))
    (r_committed r ++ map item (r_pending r) ++ callback_tokens wscb) [].

Definition means (r : response) (o : op) : response :=
  match o with
  | op_header f => mk_response (f (r_header r)) (r_sent r) (r_committed r) (r_pending r)
  | op_content_length n =>
      mk_response (with_content_length n (r_header r)) (r_sent r) (r_committed r) (r_pending r)
  | op_set_body i => mk_response (r_header r) (r_sent r) (r_committed r) (nonempty i)
  | op_append_body i => mk_response (r_header r) (r_sent r) (r_committed r) (r_pending r ++ nonempty i)
  | op_flush wscb => commit wscb r
  end.

Definition meaning (h : http_response_header_t) (ops : list op) : response := fold_left means ops (start h).

(** The tokens of a response of which something was sent. *)
Definition response_tokens (r : response) : list token :=
  match r_sent r with
  | Some h => item (header_item add_content_length h) :: r_committed r
  | None => []
  end.

Definition attr_of (r : response) : Coordinator.response_connection_attr_t :=
  response_connection_attr (should_keep_alive (default (r_header r) (r_sent r))).

(** The builder and the response it stands for. *)
Record implements (b : response_builder_t) (r : response) : Prop := {
  i_header : m_header b = r_header r;
  i_was_sent : m_header_was_sent b = bool_decide (r_sent r <> None);
  i_keep : forall h, r_sent r = Some h -> m_should_keep_alive_when_header_was_sent b = should_keep_alive h;
  i_parts : match r_sent r with
            | Some _ => m_response_parts b = r_pending r
            | None => r_committed r = [] /\
                (m_response_parts b = [] /\ r_pending r = [] \/ exists x, m_response_parts b = x :: r_pending r)
            end
}.

Definition not_final (r : response) (s : sent_t) : Prop := sent_flags s = mk_flags not_final_parts (attr_of r).

Definition item_sizes_ok (o : op) : Prop :=
  match o with op_set_body i | op_append_body i => 0 <= item_size i | _ => True end.

Lemma nonempty_spec i l : 0 <= item_size i -> (if 0 <? item_size i then l ++ [i] else l) = l ++ nonempty i.
Proof.
  intros Hi. unfold nonempty. destruct (Z.ltb_spec 0 (item_size i)), (Z.eqb_spec (item_size i) 0); try lia; try done.
  by rewrite app_nil_r.
Qed.

(** Sending what is ready. *)
Lemma send_implements attr wscb b r :
  implements b r ->
  exists b' sent, send_ready_data attr wscb b = Ok (b', sent) /\ implements b' (commit wscb r) /\
    m_connection b' = m_connection b /\
    response_tokens (commit wscb r) = response_tokens r ++ sent_tokens sent /\
    Forall (fun s => sent_flags s = mk_flags attr (attr_of r)) sent /\
    (is_final attr = true -> length sent = 1%nat).
Proof.
  intros [Hh Hs Hk Hp]. destruct b as [h c was keep parts], r as [rh rs rc rp]; simpl in *. subst h was.
  unfold send_ready_data, put_header, response_tokens, attr_of, commit. destruct rs as [hs|]; cbn -[make_group negb].
  - subst parts. rewrite (Hk hs eq_refl).
    destruct (make_group_rest rp wscb) as (g & Eg & _ & _ & Ht). rewrite Eg.
    destruct (negb match rp with [] => true | _ => false end || bool_decide (wscb <> None) || is_final attr) eqn:Ec.
    + do 2 eexists. split; [done|]. split_and!; try done.
      * split; try done. by intros ? [= <-].
      * simpl. by rewrite app_nil_r, Ht.
      * by repeat constructor.
    + apply orb_false_iff in Ec as [[E1 E2]%orb_false_iff E3]. apply negb_false_iff in E1. destruct rp; [|done].
      apply bool_decide_eq_false in E2. destruct wscb; [by destruct E2|].
      do 2 eexists. split; [done|]. split_and!; try (by simpl; rewrite ?app_nil_r); try congruence.
      split; try done. by intros ? [= <-].
  - destruct Hp as [-> Hp].
    assert (Hparts : <[0%nat:=trivial_write_operation (create_header_string rh add_content_length)]>
        (match parts with [] => [trivial_write_operation []] | _ => parts end) = header_item add_content_length rh :: rp).
    { by destruct Hp as [[-> ->]|[x ->]]. }
    destruct (make_group_header add_content_length rh rp wscb) as (g & Eg & _ & _ & Ht).
    exists (mk_builder rh c true (should_keep_alive rh) []).
    exists [mk_sent (mk_flags attr (response_connection_attr (should_keep_alive rh))) g]. split_and!; try done.
    + unfold if_neccessary_reserve_first_element_for_header. cbn -[make_group].
      destruct parts as [|p parts]; cbn -[make_group] in *; injection Hparts as Hparts1; subst; cbn -[make_group];
        fold (header_item add_content_length rh); by rewrite Eg.
    + split; try done. by intros ? [= <-].
    + simpl. by rewrite app_nil_r, Ht.
    + by repeat constructor.
Qed.

(** The flags of the groups that go with a header. *)
Definition parts_of (h : http_response_header_t) (s : sent_t) : Prop :=
  sent_flags s = mk_flags not_final_parts (response_connection_attr (should_keep_alive h)).

Definition goes_with (r : response) (sent : list sent_t) : Prop :=
  match r_sent r with Some h => Forall (parts_of h) sent | None => sent = [] end.

Lemma reserve_implements b r :
  implements b r -> implements (if_neccessary_reserve_first_element_for_header b) r /\
    m_connection (if_neccessary_reserve_first_element_for_header b) = m_connection b /\
    (r_sent r = None -> exists x, m_response_parts (if_neccessary_reserve_first_element_for_header b) = x :: r_pending r).
Proof.
  intros [Hh Hs Hk Hp]. destruct b as [h c was keep parts], r as [rh rs rc rp]; simpl in *. subst h was.
  unfold if_neccessary_reserve_first_element_for_header. destruct rs as [hs|]; simpl.
  - split_and!; [|done|done]. by split.
  - destruct Hp as [-> [[-> ->]|[x ->]]]; simpl; (split_and!; [|done|intros _; by eexists]);
      (split; try done); split; try done; right; by eexists.
Qed.

Lemma apply_implements o b r :
  implements b r -> m_connection b = true -> item_sizes_ok o ->
  exists b' sent, apply_op o b = Ok (b', sent) /\ implements b' (means r o) /\ m_connection b' = true /\
    response_tokens (means r o) = response_tokens r ++ sent_tokens sent /\ goes_with (means r o) sent.
Proof.
  intros Hi Hc Ho.
  assert (Hquiet : forall b', implements b' (means r o) -> m_connection b' = true ->
    r_sent (means r o) = r_sent r -> r_committed (means r o) = r_committed r ->
    apply_op o b = Ok (b', []) ->
    exists b' sent, apply_op o b = Ok (b', sent) /\ implements b' (means r o) /\ m_connection b' = true /\
      response_tokens (means r o) = response_tokens r ++ sent_tokens sent /\ goes_with (means r o) sent).
  { intros b' H1 H2 H3 H4 H5. exists b', []. split_and!; try done.
    - unfold response_tokens. rewrite H3, H4. destruct (r_sent r); simpl; by rewrite ?app_nil_r.
    - unfold goes_with. by destruct (r_sent (means r o)). }
  destruct o as [f|n|i|i|wscb]; cbn [means apply_op item_sizes_ok] in *.
  - apply (Hquiet (with_header f b)); try done. destruct Hi as [Hh Hs Hk Hp]. split; try done. simpl. by rewrite Hh.
  - apply (Hquiet (set_content_length n b)); try done. destruct Hi as [Hh Hs Hk Hp]. split; try done. simpl. by rewrite Hh.
  - destruct (reserve_implements b r Hi) as ([Hh Hs Hk Hp] & Hcc & Hx). apply (Hquiet (set_body i b)); try done; [|by simpl; rewrite Hcc].
    unfold set_body. rewrite nonempty_spec by done. set (b1 := if_neccessary_reserve_first_element_for_header b) in *.
    split; try done. cbn [r_sent r_pending r_committed with_parts m_response_parts] in *. rewrite Hs.
    destruct (r_sent r) as [hs|]; cbn; [done|]. destruct Hp as [-> _]. split; [done|]. right.
    destruct (Hx eq_refl) as [x ->]. by exists x.
  - unfold append_body, nonempty in *. destruct (Z.eqb_spec (item_size i) 0).
    + apply (Hquiet b); try done. destruct Hi as [Hh Hs Hk Hp]. split; try done. simpl. by rewrite app_nil_r.
    + destruct (reserve_implements b r Hi) as ([Hh Hs Hk Hp] & Hcc & Hx). eapply Hquiet; [| |done..|done]; [|by simpl; rewrite Hcc].
      set (b1 := if_neccessary_reserve_first_element_for_header b) in *. split; try done. simpl in *.
      destruct (r_sent r) as [hs|]; [by rewrite Hp|]. destruct Hp as [-> _]. split; [done|]. right.
      destruct (Hx eq_refl) as [x ->]. by exists x.
  - unfold flush. rewrite Hc. destruct (send_implements not_final_parts wscb b r Hi)
      as (b' & sent & E & Hi' & Hc' & Ht & Hf & _).
    exists b', sent. split_and!; try done; try congruence.
Qed.

Lemma means_sent r o h : r_sent r = Some h -> r_sent (means r o) = Some h.
Proof. intros Hr. destruct o; simpl; by rewrite ?Hr. Qed.

Lemma fold_means_sent ops r h : r_sent r = Some h -> r_sent (fold_left means ops r) = Some h.
Proof. revert r. induction ops as [|o ops IH]; intros r Hr; simpl; [done|]. by apply IH, means_sent. Qed.

Lemma goes_with_app ops r r' sent sent' :
  r' = fold_left means ops r -> goes_with r sent -> goes_with r' sent' -> goes_with r' (sent ++ sent').
Proof.
  intros -> H1 H2. unfold goes_with in *. destruct (r_sent r) as [h|] eqn:E.
  - rewrite (fold_means_sent ops r h E) in *. by apply Forall_app.
  - subst sent. done.
Qed.

Lemma apply_ops_implements ops b r :
  implements b r -> m_connection b = true -> Forall item_sizes_ok ops ->
  exists b' sent, apply_ops ops b = Ok (b', sent) /\ implements b' (fold_left means ops r) /\ m_connection b' = true /\
    response_tokens (fold_left means ops r) = response_tokens r ++ sent_tokens sent /\
    goes_with (fold_left means ops r) sent.
Proof.
  intros Hi Hc Ho. revert b r Hi Hc. induction Ho as [|o ops Ho Hops IH]; intros b r Hi Hc.
  - exists b, []. simpl. rewrite app_nil_r. split_and!; try done. unfold goes_with. by destruct (r_sent r).
  - destruct (apply_implements o b r Hi Hc Ho) as (b1 & s1 & E1 & Hi1 & Hc1 & Ht1 & Hg1).
    destruct (IH b1 _ Hi1 Hc1) as (b2 & s2 & E2 & Hi2 & Hc2 & Ht2 & Hg2).
    exists b2, (s1 ++ s2). cbn [apply_ops fold_left]. rewrite E1. cbn. rewrite E2. split_and!; try done.
    + by rewrite Ht2, Ht1, sent_tokens_app, app_assoc.
    + by eapply goes_with_app.
Qed.

(** A whole response. *)
Lemma user_run (h : http_response_header_t) (ops : list op) (wscb : option Z) :
  Forall item_sizes_ok ops ->
  let r := commit wscb (meaning h ops) in
  exists b sent b' last hd,
    apply_ops ops (create h) = Ok (b, sent) /\ done_ wscb b = Ok (b', [last]) /\
    r_sent r = Some hd /\
    sent_tokens (sent ++ [last]) = item (header_item add_content_length hd) :: r_committed r /\
    Forall (parts_of hd) sent /\
    sent_flags last = mk_flags final_parts (response_connection_attr (should_keep_alive hd)) /\
    m_connection b' = false.
Proof.
  intros Ho. cbv zeta. assert (H0 : implements (create h) (start h)) by (split; try done; split; [done|by left]).
  destruct (apply_ops_implements ops _ _ H0 eq_refl Ho) as (b & sent & E & Hi & Hc & Ht & Hg). fold (meaning h ops) in *.
  assert (Hi' : implements (mk_builder (m_header b) false (m_header_was_sent b)
    (m_should_keep_alive_when_header_was_sent b) (m_response_parts b)) (meaning h ops)) by by destruct Hi.
  destruct (send_implements final_parts wscb _ _ Hi') as (b' & last & Ed & Hid & Hcd & Htd & Hfd & Hl).
  specialize (Hl eq_refl). destruct last as [|last [|? ?]]; try done. cbn [response_tokens start r_sent app] in Ht.
  exists b, sent, b', last, (default (r_header (meaning h ops)) (r_sent (meaning h ops))). simpl in Hcd.
  split_and!; try done.
  - unfold done_. by rewrite Hc.
  - rewrite sent_tokens_app, <- Ht, <- Htd. done.
  - unfold goes_with in Hg. destruct (r_sent (meaning h ops)); [done|by subst].
  - by inversion Hfd.
Qed.

(** C18. The user-controlled builder, for any sequence of calls before [done]: what is
    handed to the connection is the serialised header as it was when something was
    first sent, then every body part that was not replaced before it was flushed, in
    order and with each callback behind the parts it was given for.  All groups but
    the last are marked as not final, all have the connection attribute of the header
    that was sent; a second [done] throws and a later [flush] does nothing. *)
Theorem user_controlled_response (h : http_response_header_t) (ops : list op) (wscb : option Z) :
  Forall item_sizes_ok ops ->
  let r := commit wscb (meaning h ops) in
  exists b sent b' last hd,
    apply_ops ops (create h) = Ok (b, sent) /\ done_ wscb b = Ok (b', [last]) /\
    r_sent r = Some hd /\
    sent_tokens (sent ++ [last]) = item (header_item add_content_length hd) :: r_committed r /\
    Forall (parts_of hd) sent /\
    sent_flags last = mk_flags final_parts (response_connection_attr (should_keep_alive hd)) /\
    done_ wscb b' = Throw "done() cannot be called twice" /\ flush wscb b' = Ok (b', []).
Proof.
  intros Ho. destruct (user_run h ops wscb Ho) as (b & sent & b' & last & hd & E & Ed & Hs & Ht & Hf & Hl & Hc).
  exists b, sent, b', last, hd. split_and!; try done.
  - unfold done_. by rewrite Hc.
  - unfold flush. by rewrite Hc.
Qed.

(** A header, a replaced body, two flushes and a file. *)
Definition sample_ops : list op :=
  [op_content_length 9; op_set_body (trivial_write_operation (bs "old")); op_set_body (trivial_write_operation (bs "ab"));
   op_flush (Some 1); op_flush None; op_append_body (file_write_operation 5 7)].

Lemma user_controlled_response_witness :
  exists b sent b' last,
    apply_ops sample_ops (create (response_header (status_line ok))) = Ok (b, sent) /\ done_ None b = Ok (b', [last]) /\
    sent_tokens (sent ++ [last])
    = [item (header_item add_content_length (with_content_length 9 (response_header (status_line ok))));
       item (trivial_write_operation (bs "ab")); callback 1; item (file_write_operation 5 7)].
Proof.
  destruct (user_controlled_response (response_header (status_line ok)) sample_ops None)
    as (b & sent & b' & last & hd & E1 & E2 & E3 & E4 & _).
  - repeat constructor; vm_compute; discriminate.
  - exists b, sent, b', last. split; [exact E1|]. split; [exact E2|]. etransitivity; [exact E4|].
    vm_compute in E3. injection E3 as <-. reflexivity.
Defined.

End UserOutput.
