(* ===== verification/ChunkedOutput.v ===== *)
(** * Chunked responses

    Model of [response_builder_t< chunked_output_t >]
    (src/web/restinio/restinio/message_builders.hpp): chunks are handed to the
    connection with their sizes.  A decoder of the chunked encoding gives back the
    chunks.  fmt is the class [FmtUpperHex]. *)

From S2P Require Import Prelude Coordinator HttpFields HttpHeaders HttpResponse ResponseBuilders.

Module ChunkedOutput.
Import HttpField Status Fields Buffers Response ResponseBuilders.
Import Coordinator(response_output_flags_t, mk_flags, response_parts_attr_t, final_parts, not_final_parts,
  response_connection_attr, response_connection_attr_t).

(** [fmt::format( "{:X}", n )] *)
Class FmtUpperHex := { format_X : Z -> list byte }.

Section Chunked.
Context {Fm : FmtUpperHex}.

Record response_builder_t := mk_builder {
  m_header : http_response_header_t;
  m_connection : bool;
  m_header_was_sent : bool;
  m_should_keep_alive_when_header_was_sent : bool;
  m_chunks : list writable_item_t
}.

Definition create (h : http_response_header_t) : response_builder_t := mk_builder h true false true [].

Definition with_header (f : http_response_header_t -> http_response_header_t) (b : response_builder_t) :=
  mk_builder (f (m_header b)) (m_connection b) (m_header_was_sent b)
    (m_should_keep_alive_when_header_was_sent b) (m_chunks b).

Definition append_chunk (chunk : writable_item_t) (b : response_builder_t) : response_builder_t :=
  if item_size chunk =? 0 then b
  else mk_builder (m_header b) (m_connection b) (m_header_was_sent b)
         (m_should_keep_alive_when_header_was_sent b) (m_chunks b ++ [chunk]).

(** [std::string::find] *)
Fixpoint is_prefix (what where_ : list byte) : bool :=
  match what, where_ with
  | [], _ => true
  | x :: what, y :: where_ => Byte.eqb x y && is_prefix what where_
  | _ :: _, [] => false
  end.
Fixpoint found_in (what where_ : list byte) : bool :=
  is_prefix what where_ || match where_ with [] => false | _ :: where_ => found_in what where_ end.

(** The Transfer-Encoding field of the header. *)
Definition chunked_fields (fields : http_header_fields_t) : outcome http_header_fields_t :=
  if negb (has_field_id transfer_encoding fields) then
    Ok (add_field_by_id transfer_encoding (bs "chunked") fields)
  else
    let? current_value := get_field_by_id transfer_encoding fields in
    Ok (if found_in (bs "chunked") current_value then fields
        else append_field_by_id transfer_encoding (bs ",chunked") fields).

Definition prepare_header_for_sending (b : response_builder_t) : outcome response_builder_t :=
  let keep := should_keep_alive (m_header b) in
  let? fields := chunked_fields (m_fields (m_header b)) in
  Ok (mk_builder (with_fields fields (m_header b)) (m_connection b) (m_header_was_sent b) keep (m_chunks b)).

(** A chunk with the line of its size; [first] has no line end of another chunk
    before it.  [None]: [buf] of a file, which is undefined. *)
Definition chunk_items (first : bool) (chunk : writable_item_t) : option (list writable_item_t) :=
  match chunk with
  | trivial_write_operation d =>
      Some [trivial_write_operation ((if first then [] else crlf) ++ format_X (size d) ++ crlf); chunk]
  | file_write_operation _ _ => None
  end.

Fixpoint chunks_items (first : bool) (chunks : list writable_item_t) : option (list writable_item_t) :=
  match chunks with
  | [] => Some []
  | c :: chunks =>
      items ← chunk_items first c;
      rest ← chunks_items false chunks;
      Some (items ++ rest)
  end.

Definition create_bufs (add_zero_chunk : bool) (b : response_builder_t)
  : option (list writable_item_t * response_builder_t) :=
  let header := if m_header_was_sent b then []
                else [trivial_write_operation (create_header_string (m_header b) skip_content_length)] in
  items ← chunks_items true (m_chunks b);
  let appendix := (match m_chunks b with [] => [] | _ => crlf end)
                  ++ (if add_zero_chunk then bs "0" ++ crlf ++ crlf else []) in
  Some (header ++ items ++ (match appendix with [] => [] | _ => [trivial_write_operation appendix] end),
        mk_builder (m_header b) (m_connection b) (m_header_was_sent b)
          (m_should_keep_alive_when_header_was_sent b) []).

(** [None]: undefined. *)
Definition send_ready_data (attr : response_parts_attr_t) (wscb : option Z) (b : response_builder_t)
  : option (outcome (response_builder_t * list sent_t)) :=
  let status_line_size := if m_header_was_sent b then 0 else header_status_line_size (m_header b) in
  match (if m_header_was_sent b then Ok b else prepare_header_for_sending b) with
  | Throw w => Some (Throw w)
  | Ok b =>
      '(bufs, b) ← create_bufs (is_final attr) b;
      let b := mk_builder (m_header b) (m_connection b) true
                 (m_should_keep_alive_when_header_was_sent b) (m_chunks b) in
      let flags := mk_flags attr (response_connection_attr (m_should_keep_alive_when_header_was_sent b)) in
      Some (if negb (match bufs with [] => true | _ => false end) || bool_decide (wscb <> None) then
              let? wg := make_group bufs status_line_size wscb in
              Ok (b, [mk_sent flags wg])
            else Ok (b, []))
  end.

Definition flush (wscb : option Z) (b : response_builder_t) : option (outcome (response_builder_t * list sent_t)) :=
  if m_connection b then send_ready_data not_final_parts wscb b else Some (Ok (b, [])).

Definition done_ (wscb : option Z) (b : response_builder_t) : option (outcome (response_builder_t * list sent_t)) :=
  if m_connection b then
    send_ready_data final_parts wscb
      (mk_builder (m_header b) false (m_header_was_sent b) (m_should_keep_alive_when_header_was_sent b)
         (m_chunks b))
  else Some (Throw "done() cannot be called twice").

Inductive op :=
| op_header (f : http_response_header_t -> http_response_header_t)
| op_append_chunk (chunk : writable_item_t)
| op_flush (wscb : option Z).

Definition apply_op (o : op) (b : response_builder_t) : option (outcome (response_builder_t * list sent_t)) :=
  match o with
  | op_header f => Some (Ok (with_header f b, []))
  | op_append_chunk i => Some (Ok (append_chunk i b, []))
  | op_flush wscb => flush wscb b
  end.

Fixpoint apply_ops (ops : list op) (b : response_builder_t) : option (outcome (response_builder_t * list sent_t)) :=
  match ops with
  | [] => Some (Ok (b, []))
  | o :: ops =>
      r ← apply_op o b;
      match r with
      | Throw w => Some (Throw w)
      | Ok (b, sent) =>
          r ← apply_ops ops b;
          Some (let? (b, sent') := r in Ok (b, sent ++ sent'))
      end
  end.

End Chunked.

(** ** A decoder *)

Definition hex_digit (c : byte) : option Z :=
  let n := u8 c in
  if (0x30 <=? n) && (n <=? 0x39) then Some (n - 0x30)
  else if (0x41 <=? n) && (n <=? 0x46) then Some (n - 0x41 + 10)
  else if (0x61 <=? n) && (n <=? 0x66) then Some (n - 0x61 + 10)
  else None.

Fixpoint hex_value (acc : Z) (s : list byte) : option Z :=
  match s with
  | [] => Some acc
  | c :: s => d ← hex_digit c; hex_value (acc * 16 + d) s
  end.

(** The line with the size of a chunk. *)
Fixpoint read_size (acc : Z) (s : list byte) : option (Z * list byte) :=
  match s with
  | [] => None
  | c :: s' =>
      match hex_digit c with
      | Some d => read_size (acc * 16 + d) s'
      | None => match s with x0d :: x0a :: rest => Some (acc, rest) | _ => None end
      end
  end.

Definition strip (prefix s : list byte) : option (list byte) :=
  if bool_decide (take (length prefix) s = prefix) then Some (drop (length prefix) s) else None.

(** chunked-body of RFC 7230 without extensions and trailer: the chunks. *)
Fixpoint dechunk (fuel : nat) (s : list byte) : option (list (list byte)) :=
  match fuel with
  | O => None
  | S fuel =>
      '(n, rest) ← read_size 0 s;
      if n =? 0 then (if bool_decide (rest = crlf) then Some [] else None)
      else if Z.of_nat (length rest) <? n then None
      else
        rest' ← strip crlf (drop (Z.to_nat n) rest);
        chunks ← dechunk fuel rest';
        Some (take (Z.to_nat n) rest :: chunks)
  end.

(** Every chunk takes an octet at least. *)
Definition decode_chunked (s : list byte) : option (list (list byte)) := dechunk (S (length s)) s.

(** What fmt promises of [{:X}]. *)
Class FmtUpperHexLaws (Fm : FmtUpperHex) : Prop :=
  format_X_value n : 0 <= n < 2 ^ 64 -> hex_value 0 (format_X n) = Some n.

Section Laws.
Context {Fm : FmtUpperHex} {FL : FmtUpperHexLaws Fm}.

Definition encode_chunk (d : list byte) : list byte := format_X (size d) ++ crlf ++ d ++ crlf.
Definition last_chunk : list byte := bs "0" ++ crlf ++ crlf.

Lemma read_size_value acc s v rest : hex_value acc s = Some v -> read_size acc (s ++ crlf ++ rest) = Some (v, rest).
Proof.
  revert acc. induction s as [|c s IH]; intros acc; [by intros [= <-]|]. cbn [hex_value app read_size].
  destruct (hex_digit c); [apply IH|done].
Qed.

Lemma dechunk_chunk fuel d rest :
  d <> [] -> size d < 2 ^ 64 -> dechunk (S fuel) (encode_chunk d ++ rest) = (cons d) <$> dechunk fuel rest.
Proof using FL.
  intros Hd Hs. cbn [dechunk]. unfold encode_chunk. rewrite <- !app_assoc.
  rewrite (read_size_value 0 _ (size d)) by (apply format_X_value; unfold size in *; lia). cbn [mbind option_bind].
  assert (0 < size d) by (destruct d; [done|unfold size; simpl; lia]).
  rewrite (proj2 (Z.eqb_neq _ _)) by lia. unfold size in *. rewrite !Nat2Z.id.
  rewrite (proj2 (Z.ltb_ge _ _)) by (rewrite length_app; lia).
  rewrite take_app_length, drop_app_length. unfold strip. change (crlf ++ rest) with ([x0d; x0a] ++ rest).
  cbn [app]. unfold crlf. cbn [length take drop]. rewrite bool_decide_true by done. cbn [mbind option_bind].
  rewrite drop_0. by destruct (dechunk fuel rest).
Qed.

Lemma dechunk_all fuel ds :
  (length ds < fuel)%nat -> Forall (fun d => d <> [] /\ size d < 2 ^ 64) ds ->
  dechunk fuel (flat_map encode_chunk ds ++ last_chunk) = Some ds.
Proof using FL.
  intros Hf Hds. revert fuel Hf. induction Hds as [|d ds [Hd Hs] Hds IH]; intros fuel Hf; simpl in Hf.
  - destruct fuel as [|fuel]; [lia|]. reflexivity.
  - destruct fuel as [|fuel]; [lia|]. cbn [flat_map]. rewrite <- app_assoc, dechunk_chunk by done. rewrite IH by lia. done.
Qed.

Lemma decode_encoded ds :
  Forall (fun d => d <> [] /\ size d < 2 ^ 64) ds -> decode_chunked (flat_map encode_chunk ds ++ last_chunk) = Some ds.
Proof using FL.
  intros Hds. apply dechunk_all; [|done]. rewrite length_app.
  assert (length ds <= length (flat_map encode_chunk ds))%nat; [|lia].
  clear Hds. induction ds as [|d ds IH]; simpl; [lia|]. unfold encode_chunk at 1. rewrite !length_app. simpl. lia.
Qed.

(** ** The items of a group *)

Lemma chunks_items_bytes first ds :
  exists items, chunks_items first (map trivial_write_operation ds) = Some items /\
    flat_map item_bytes items ++ match ds with [] => [] | _ => crlf end
    = (if first then [] else match ds with [] => [] | _ => crlf end) ++ flat_map encode_chunk ds /\
    (items = [] -> ds = []).
Proof.
  revert first. induction ds as [|d ds IH]; intros first; [exists []; by destruct first|].
  destruct (IH false) as (items & E & Hb & _). cbn [map chunks_items chunk_items]. rewrite E. eexists. split; [done|].
  split; [|done]. cbn [flat_map app item_bytes]. unfold encode_chunk at 1.
  destruct ds as [|d' ds']; simpl in Hb |- *; destruct first; simpl; rewrite <- ?app_assoc; simpl; rewrite <- ?app_assoc;
    rewrite ?app_nil_r in *; rewrite ?Hb; simpl; by rewrite <- ?app_assoc.
Qed.

(** ** The Transfer-Encoding field *)

Lemma found_in_app what a b : found_in what b = true -> found_in what (a ++ b) = true.
Proof. intros Hb. induction a as [|x a IH]; [done|]. cbn [app found_in]. by rewrite IH, orb_true_r. Qed.

Definition says_chunked (fields : http_header_fields_t) : Prop :=
  exists v, try_get_field_by_id transfer_encoding fields = Some v /\ found_in (bs "chunked") v = true.

Lemma chunked_fields_ok fields : exists f, chunked_fields fields = Ok f /\ says_chunked f.
Proof.
  unfold chunked_fields, has_field_id, get_field_by_id, says_chunked, try_get_field_by_id, append_field_by_id, add_field_by_id.
  change (is_unspecified transfer_encoding) with false. cbn [negb].
  destruct (cfind_id transfer_encoding fields) as [f0|] eqn:E; cbn [negb].
  - destruct (found_in (bs "chunked") (m_value f0)) eqn:Ef.
    + eexists. split; [done|]. rewrite E. by eexists.
    + eexists. split; [done|]. unfold cfind_id in *. clear Ef.
      assert (Hm : exists l, modify_first (id_matches transfer_encoding) (append_value (bs ",chunked")) fields = Some l /\
        find_if (id_matches transfer_encoding) l = Some (append_value (bs ",chunked") f0)).
      { induction fields as [|x fields IH]; [done|]. cbn [find_if modify_first] in *.
        destruct (id_matches transfer_encoding x) eqn:Ex.
        - injection E as <-. eexists. split; [done|]. cbn [find_if].
          by replace (id_matches transfer_encoding (append_value (bs ",chunked") x)) with true by (symmetry; exact Ex).
        - destruct (IH E) as (l & -> & Hl). eexists. split; [done|]. cbn [find_if]. by rewrite Ex. }
      destruct Hm as (l & -> & ->). eexists. split; [done|]. by apply found_in_app.
  - eexists. split; [done|]. assert (Hc : cfind_id transfer_encoding (fields ++ [field_by_id transfer_encoding (bs "chunked")])
      = Some (field_by_id transfer_encoding (bs "chunked"))).
    { unfold cfind_id in *. induction fields as [|x fields IH]; [done|]. cbn [find_if app] in *.
      destruct (id_matches transfer_encoding x); [done|by apply IH]. }
    rewrite Hc. by eexists.
Qed.

(** The header that is sent for a header. *)
Definition with_chunked (h : http_response_header_t) : http_response_header_t :=
  match chunked_fields (m_fields h) with Ok f => with_fields f h | Throw _ => h end.

(** ** What the calls mean *)

Record response := mk_response {
  r_header : http_response_header_t;
  r_sent : option http_response_header_t;
  r_committed : list (list byte);
  r_pending : list (list byte);
  r_callbacks : list Z
}.

Definition start (h : http_response_header_t) : response := mk_response h None [] [] [].

Definition callbacks_of (wscb : option Z) : list Z := match wscb with Some cb => [cb] | None => [] end.

Definition commit (wscb : option Z) (r : response) : response :=
  mk_response (r_header r) (Some (default (with_chunked (r_header r)) (r_sent r)))
    (r_committed r ++ r_pending r) [] (r_callbacks r ++ callbacks_of wscb).

Definition means (r : response) (o : op) : response :=
  match o with
  | op_header f => mk_response (f (r_header r)) (r_sent r) (r_committed r) (r_pending r) (r_callbacks r)
  | op_append_chunk i =>
      mk_response (r_header r) (r_sent r) (r_committed r)
        (r_pending r ++ if bool_decide (item_bytes i = []) then [] else [item_bytes i]) (r_callbacks r)
  | op_flush wscb => commit wscb r
  end.

Definition meaning (h : http_response_header_t) (ops : list op) : response := fold_left means ops (start h).

Definition sent_bytes (sent : list sent_t) : list byte := flat_map (fun s => group_bytes (sent_group s)) sent.
Definition sent_callbacks (sent : list sent_t) : list Z :=
  flat_map (fun s => callbacks_of (m_after_write_notificator (sent_group s))) sent.

Definition response_bytes (r : response) : list byte :=
  match r_sent r with
  | Some h => create_header_string h skip_content_length ++ flat_map encode_chunk (r_committed r)
  | None => []
  end.

Record implements (b : response_builder_t) (r : response) : Prop := {
  i_header : r_sent r = None -> m_header b = r_header r /\ r_committed r = [];
  i_was_sent : m_header_was_sent b = bool_decide (r_sent r <> None);
  i_keep : forall h, r_sent r = Some h -> m_should_keep_alive_when_header_was_sent b = should_keep_alive h;
  i_chunks : m_chunks b = map trivial_write_operation (r_pending r)
}.

Definition attr_of (r : response) : Coordinator.response_connection_attr_t :=
  response_connection_attr (should_keep_alive (default (r_header r) (r_sent r))).

(** The octets and the callback of a group. *)
Lemma make_group_bytes items n wscb g :
  make_group items n wscb = Ok g ->
  group_bytes g = flat_map item_bytes items /\ m_after_write_notificator g = wscb.
Proof.
  unfold make_group, set_status_line_size, group_bytes. intros E.
  destruct (negb (0 =? n)), items as [|[] items], wscb; simpl in E; repeat case_match; by simplify_eq.
Qed.

Lemma with_chunked_keep h : should_keep_alive (with_chunked h) = should_keep_alive h.
Proof. unfold with_chunked. by destruct (chunked_fields (m_fields h)). Qed.

Lemma make_group_sent (was_sent : bool) h items wscb :
  exists g, make_group ((if was_sent then [] else [header_item skip_content_length h]) ++ items)
    (if was_sent then 0 else header_status_line_size h) wscb = Ok g.
Proof.
  destruct was_sent.
  - by destruct (make_group_rest items wscb) as (g & E & _); exists g.
  - by destruct (make_group_header skip_content_length h items wscb) as (g & E & _); exists g.
Qed.

Lemma create_bufs_bytes final b ds :
  m_chunks b = map trivial_write_operation ds ->
  exists items,
    create_bufs final b
    = Some ((if m_header_was_sent b then [] else [header_item skip_content_length (m_header b)]) ++ items,
            mk_builder (m_header b) (m_connection b) (m_header_was_sent b)
              (m_should_keep_alive_when_header_was_sent b) []) /\
    flat_map item_bytes items = flat_map encode_chunk ds ++ (if final then last_chunk else []) /\
    (items = [] -> ds = [] /\ final = false).
Proof.
  intros Hc. unfold create_bufs. rewrite Hc. destruct (chunks_items_bytes true ds) as (items & E & Hb & He).
  rewrite E. cbn [mbind option_bind].
  assert (Hm : match map trivial_write_operation ds with [] => [] | _ :: _ => crlf end
    = match ds with [] => [] | _ :: _ => crlf end) by by destruct ds.
  rewrite Hm. fold last_chunk. set (app := (match ds with [] => [] | _ :: _ => crlf end) ++ _).
  eexists. split; [done|]. split.
  - rewrite flat_map_app. rewrite app_nil_l in Hb. rewrite <- Hb, <- app_assoc. f_equal. fold app.
    destruct app; simpl; by rewrite ?app_nil_r.
  - intros [Hi Ha]%app_eq_nil. specialize (He Hi). subst ds. split; [done|]. by destruct final.
Qed.

(** Sending what is ready. *)
Lemma chunked_send_implements attr wscb b r :
  implements b r ->
  exists b' sent, send_ready_data attr wscb b = Some (Ok (b', sent)) /\ implements b' (commit wscb r) /\
    m_connection b' = m_connection b /\
    response_bytes (commit wscb r) ++ (if is_final attr then last_chunk else []) = response_bytes r ++ sent_bytes sent /\
    r_callbacks (commit wscb r) = r_callbacks r ++ sent_callbacks sent /\
    Forall (fun s => sent_flags s = mk_flags attr (attr_of r)) sent /\
    (is_final attr = true -> length sent = 1%nat).
Proof.
  intros Hi. pose proof Hi as [Hh Hs Hk Hp].
  (* the builder once its header is prepared *)
  assert (Hprep : exists b1, (if m_header_was_sent b then Ok b else prepare_header_for_sending b) = Ok b1 /\
    m_chunks b1 = m_chunks b /\ m_connection b1 = m_connection b /\ m_header_was_sent b1 = m_header_was_sent b /\
    m_should_keep_alive_when_header_was_sent b1 = should_keep_alive (default (r_header r) (r_sent r)) /\
    (if m_header_was_sent b then 0 else header_status_line_size (m_header b))
    = (if m_header_was_sent b then 0 else header_status_line_size (m_header b1)) /\
    (r_sent r = None -> m_header b1 = with_chunked (r_header r))).
  { destruct (r_sent r) as [h|] eqn:Er.
    - rewrite Hs, bool_decide_true by done. exists b. split_and!; try done. by rewrite (Hk h).
    - destruct (Hh eq_refl) as [Hb _]. rewrite Hs, bool_decide_false by (intros H; by apply H).
      unfold prepare_header_for_sending, with_chunked. rewrite <- Hb.
      destruct (chunked_fields_ok (m_fields (m_header b))) as (f & -> & _). eexists. split; [done|]. by split_and!. }
  destruct Hprep as (b1 & E1 & Hc1 & Hcn1 & Hw1 & Hk1 & Hsl & Hh1). unfold send_ready_data. rewrite E1, Hsl, <- Hw1.
  destruct (create_bufs_bytes (is_final attr) b1 (r_pending r)) as (items & Eb & Hbytes & Hempty); [congruence|].
  rewrite Eb. cbn [mbind option_bind m_header m_connection m_should_keep_alive_when_header_was_sent m_chunks]. rewrite Hk1.
  destruct (make_group_sent (m_header_was_sent b1) (m_header b1) items wscb) as [g Eg].
  set (bufs := _ ++ items) in *. rewrite Eg. destruct (make_group_bytes _ _ _ _ Eg) as [Hgb Hgc].
  assert (Hi' : implements (mk_builder (m_header b1) (m_connection b1) true
    (should_keep_alive (default (r_header r) (r_sent r))) []) (commit wscb r)).
  { split; try done. intros h [= <-]. destruct (r_sent r); simpl; [done|by rewrite with_chunked_keep]. }
  assert (Hall : response_bytes (commit wscb r) ++ (if is_final attr then last_chunk else [])
    = response_bytes r ++ flat_map item_bytes bufs).
  { unfold bufs, response_bytes. cbn [commit r_sent r_committed]. rewrite !flat_map_app, Hbytes, Hw1, Hs.
    destruct (r_sent r) as [h|] eqn:Er; simpl; [by rewrite <- !app_assoc|].
    destruct (Hh eq_refl) as [_ ->]. rewrite (Hh1 eq_refl). simpl. by rewrite app_nil_r, <- !app_assoc. }
  destruct (negb match bufs with [] => true | _ :: _ => false end || bool_decide (wscb <> None)) eqn:Ec.
  - do 2 eexists. split; [done|]. split_and!; try done.
    + cbn [sent_bytes flat_map sent_group]. by rewrite Hgb, app_nil_r.
    + cbn [sent_callbacks flat_map sent_group commit r_callbacks]. by rewrite Hgc, app_nil_r.
    + by repeat constructor.
  - apply orb_false_iff in Ec as [E2 E3]. apply negb_false_iff in E2. apply bool_decide_eq_false in E3.
    destruct bufs as [|? ?] eqn:Eu; [|done]. destruct wscb; [by destruct E3|]. apply app_eq_nil in Eu as [_ Eu].
    destruct (Hempty Eu) as [_ Hf]. do 2 eexists. split; [done|].
    split_and!; try done; simpl; rewrite ?app_nil_r; congruence.
Qed.

(** The flags of the groups that go with a header. *)
Definition parts_of (h : http_response_header_t) (s : sent_t) : Prop :=
  sent_flags s = mk_flags not_final_parts (response_connection_attr (should_keep_alive h)).

Definition goes_with (r : response) (sent : list sent_t) : Prop :=
  match r_sent r with Some h => Forall (parts_of h) sent | None => sent = [] end.

(** A chunk in memory of a size that a [std::size_t] holds. *)
Definition in_memory (o : op) : Prop :=
  match o with
  | op_append_chunk (trivial_write_operation d) => size d < 2 ^ 64
  | op_append_chunk (file_write_operation _ _) => False
  | _ => True
  end.

(** No file among the chunks. *)
Definition plain (o : op) : Prop :=
  match o with op_append_chunk (file_write_operation _ _) => False | _ => True end.

Lemma in_memory_plain o : in_memory o -> plain o.
Proof. by destruct o as [?|[]|?]. Qed.

Lemma chunked_apply_implements o b r :
  implements b r -> m_connection b = true -> plain o ->
  exists b' sent, apply_op o b = Some (Ok (b', sent)) /\ implements b' (means r o) /\ m_connection b' = true /\
    response_bytes (means r o) = response_bytes r ++ sent_bytes sent /\
    r_callbacks (means r o) = r_callbacks r ++ sent_callbacks sent /\ goes_with (means r o) sent.
Proof.
  intros Hi Hc Ho.
  assert (Hquiet : forall b', implements b' (means r o) -> m_connection b' = true ->
    response_bytes (means r o) = response_bytes r -> r_callbacks (means r o) = r_callbacks r ->
    apply_op o b = Some (Ok (b', [])) ->
    exists b' sent, apply_op o b = Some (Ok (b', sent)) /\ implements b' (means r o) /\ m_connection b' = true /\
      response_bytes (means r o) = response_bytes r ++ sent_bytes sent /\
      r_callbacks (means r o) = r_callbacks r ++ sent_callbacks sent /\ goes_with (means r o) sent).
  { intros b' H1 H2 H3 H4 H5. exists b', []. simpl. rewrite !app_nil_r. split_and!; try done.
    unfold goes_with. by destruct (r_sent (means r o)). }
  destruct o as [f|i|wscb]; cbn [means apply_op plain] in *.
  - apply (Hquiet (with_header f b)); try done. destruct Hi as [Hh Hs Hk Hp]. split; try done.
    intros Hn. destruct (Hh Hn) as [H1 H2]. simpl. by rewrite H1.
  - destruct i as [d|]; [|done]. unfold append_chunk, item_size, item_bytes in *. fold (size d) in *. case_bool_decide as Ed.
    + subst d. simpl in *. rewrite app_nil_r in *. apply (Hquiet b); try done; destruct Hi; by split.
    + rewrite (proj2 (Z.eqb_neq _ _)) in * by (destruct d; [done|unfold size; simpl; lia]).
      eapply Hquiet; [| | | |done]; try done.
      destruct Hi as [Hh Hs Hk Hp]. split; try done. simpl. by rewrite Hp, map_app.
  - unfold flush. rewrite Hc. destruct (chunked_send_implements not_final_parts wscb b r Hi)
      as (b' & sent & E & Hi' & Hc' & Hb & Hcb & Hf & _).
    exists b', sent. cbn [is_final] in Hb. rewrite app_nil_r in Hb. split_and!; try done; try congruence.
    unfold goes_with. cbn [commit r_sent]. unfold attr_of in Hf. destruct (r_sent r); [done|]. simpl.
    unfold parts_of. by rewrite with_chunked_keep.
Qed.

Lemma chunked_fold_means_sent ops r h : r_sent r = Some h -> r_sent (fold_left means ops r) = Some h.
Proof.
  revert r. induction ops as [|o ops IH]; intros r Hr; simpl; [done|]. apply IH. destruct o; simpl; by rewrite ?Hr.
Qed.

Lemma chunked_apply_ops_implements ops b r :
  implements b r -> m_connection b = true -> Forall plain ops ->
  exists b' sent, apply_ops ops b = Some (Ok (b', sent)) /\ implements b' (fold_left means ops r) /\
    m_connection b' = true /\ response_bytes (fold_left means ops r) = response_bytes r ++ sent_bytes sent /\
    r_callbacks (fold_left means ops r) = r_callbacks r ++ sent_callbacks sent /\
    goes_with (fold_left means ops r) sent.
Proof.
  intros Hi Hc Ho. revert b r Hi Hc. induction Ho as [|o ops Ho Hops IH]; intros b r Hi Hc.
  - exists b, []. simpl. rewrite !app_nil_r. split_and!; try done. unfold goes_with. by destruct (r_sent r).
  - destruct (chunked_apply_implements o b r Hi Hc Ho) as (b1 & s1 & E1 & Hi1 & Hc1 & Hb1 & Hcb1 & Hg1).
    destruct (IH b1 _ Hi1 Hc1) as (b2 & s2 & E2 & Hi2 & Hc2 & Hb2 & Hcb2 & Hg2).
    exists b2, (s1 ++ s2). cbn [apply_ops fold_left]. rewrite E1. cbn. rewrite E2. cbn. split_and!; try done.
    + rewrite Hb2, Hb1. unfold sent_bytes. by rewrite flat_map_app, app_assoc.
    + rewrite Hcb2, Hcb1. unfold sent_callbacks. by rewrite flat_map_app, app_assoc.
    + unfold goes_with in *. destruct (r_sent (means r o)) as [h|] eqn:Er; [|by subst s1].
      rewrite (chunked_fold_means_sent _ _ _ Er) in *. by apply Forall_app.
Qed.

(** The chunks that were appended; empty ones are not sent. *)
Definition chunks_of (ops : list op) : list (list byte) :=
  flat_map (fun o => match o with
                     | op_append_chunk i => if bool_decide (item_bytes i = []) then [] else [item_bytes i]
                     | _ => []
                     end) ops.

Lemma fold_means_chunks ops r :
  r_committed (fold_left means ops r) ++ r_pending (fold_left means ops r)
  = r_committed r ++ r_pending r ++ chunks_of ops.
Proof.
  revert r. induction ops as [|o ops IH]; intros r; simpl; [by rewrite app_nil_r|]. rewrite IH.
  destruct o as [f|i|wscb]; simpl; try done; by rewrite <- !app_assoc.
Qed.

(** The header that is sent names the encoding. *)
Lemma with_chunked_says h : says_chunked (m_fields (with_chunked h)).
Proof. unfold with_chunked. by destruct (chunked_fields_ok (m_fields h)) as (f & -> & Hf). Qed.

Lemma fold_means_says ops r :
  (forall h, r_sent r = Some h -> says_chunked (m_fields h)) ->
  forall h, r_sent (fold_left means ops r) = Some h -> says_chunked (m_fields h).
Proof.
  revert r. induction ops as [|o ops IH]; intros r Hr; [done|]. apply IH. destruct o; try done.
  cbn [means commit r_sent]. intros h [= <-]. destruct (r_sent r); [by apply Hr|apply with_chunked_says].
Qed.

(** A whole response. *)
Lemma chunked_run (h : http_response_header_t) (ops : list op) (wscb : option Z) :
  Forall plain ops ->
  exists b sent b' last hd,
    apply_ops ops (create h) = Some (Ok (b, sent)) /\ done_ wscb b = Some (Ok (b', [last])) /\
    r_sent (commit wscb (meaning h ops)) = Some hd /\ says_chunked (m_fields hd) /\
    sent_bytes (sent ++ [last])
    = create_header_string hd skip_content_length ++ flat_map encode_chunk (chunks_of ops) ++ last_chunk /\
    sent_callbacks (sent ++ [last]) = r_callbacks (commit wscb (meaning h ops)) /\
    Forall (parts_of hd) sent /\
    sent_flags last = mk_flags final_parts (response_connection_attr (should_keep_alive hd)) /\
    m_connection b' = false.
Proof.
  intros Ho. assert (H0 : implements (create h) (start h)) by by split.
  destruct (chunked_apply_ops_implements ops _ _ H0 eq_refl Ho) as (b & sent & E & Hi & Hc & Hb & Hcb & Hg).
  fold (meaning h ops) in *. set (r := meaning h ops) in *.
  assert (Hi' : implements (mk_builder (m_header b) false (m_header_was_sent b)
    (m_should_keep_alive_when_header_was_sent b) (m_chunks b)) r) by by destruct Hi.
  destruct (chunked_send_implements final_parts wscb _ _ Hi') as (b' & last & Ed & Hid & Hcd & Hbd & Hcbd & Hfd & Hl).
  specialize (Hl eq_refl). destruct last as [|last [|? ?]]; try done. simpl in Hcd.
  set (hd := default (with_chunked (r_header r)) (r_sent r)).
  assert (Hkeep : should_keep_alive hd = should_keep_alive (default (r_header r) (r_sent r))).
  { unfold hd. destruct (r_sent r); simpl; [done|apply with_chunked_keep]. }
  exists b, sent, b', last, hd. split_and!; try done.
  - unfold done_. by rewrite Hc.
  - unfold hd. destruct (r_sent r) as [x|] eqn:Er; [|apply with_chunked_says]. by apply (fold_means_says ops (start h)).
  - unfold sent_bytes in *. rewrite flat_map_app. cbn [start response_bytes r_sent app] in Hb. rewrite <- Hb, <- Hbd.
    unfold response_bytes at 1. cbn [commit r_sent r_committed is_final]. fold hd.
    unfold r, meaning. rewrite fold_means_chunks. by rewrite <- app_assoc.
  - unfold sent_callbacks in *. rewrite flat_map_app, Hcbd. cbn [start r_callbacks app] in Hcb. by rewrite Hcb.
  - unfold goes_with in Hg. unfold hd. destruct (r_sent r); [done|by subst].
  - rewrite Hkeep. by inversion Hfd.
Qed.

Lemma chunks_of_ok ops : Forall in_memory ops -> Forall (fun d => d <> [] /\ size d < 2 ^ 64) (chunks_of ops).
Proof.
  intros Ho. induction Ho as [|o ops Ho Hops IH]; [constructor|]. cbn [chunks_of flat_map]. apply Forall_app. split; [|done].
  destruct o as [f|[d|]|w]; cbn [in_memory item_bytes] in *; try done. case_bool_decide; by repeat constructor.
Qed.

(** C17. The chunked builder, for any sequence of calls before [done] with chunks in
    memory: what is handed to the connection is a header without a Content-Length
    whose Transfer-Encoding names chunked, and a body from which a decoder of the
    chunked encoding gets back exactly the chunks, in order and with nothing left;
    the callbacks are called in the order given.  All groups but the last are marked
    as not final; a second [done] throws. *)
Theorem chunked_response_decodes (h : http_response_header_t) (ops : list op) (wscb : option Z) :
  Forall in_memory ops ->
  exists b sent b' last hd body,
    apply_ops ops (create h) = Some (Ok (b, sent)) /\ done_ wscb b = Some (Ok (b', [last])) /\
    r_sent (commit wscb (meaning h ops)) = Some hd /\ says_chunked (m_fields hd) /\
    sent_bytes (sent ++ [last]) = create_header_string hd skip_content_length ++ body /\
    decode_chunked body = Some (chunks_of ops) /\
    sent_callbacks (sent ++ [last]) = r_callbacks (commit wscb (meaning h ops)) /\
    Forall (parts_of hd) sent /\
    sent_flags last = mk_flags final_parts (response_connection_attr (should_keep_alive hd)) /\
    done_ wscb b' = Some (Throw "done() cannot be called twice").
Proof using FL.
  intros Ho. assert (Hp : Forall plain ops) by (revert Ho; apply Forall_impl, in_memory_plain).
  destruct (chunked_run h ops wscb Hp) as (b & sent & b' & last & hd & E & Ed & Hs & Hsay & Hb & Hcb & Hf & Hfl & Hc).
  exists b, sent, b', last, hd, (flat_map encode_chunk (chunks_of ops) ++ last_chunk). split_and!; try done.
  - by apply decode_encoded, chunks_of_ok.
  - unfold done_. by rewrite Hc.
Qed.

End Laws.

(** ** A hexadecimal printer and a run *)

Definition upper_hex_digit (d : Z) : byte := b8 (if d <? 10 then 0x30 + d else 0x41 + d - 10).

(** 16 digits cover a 64-bit number. *)
Fixpoint upper_hex_go (fuel : nat) (n : Z) : list byte :=
  match fuel with
  | O => []
  | S fuel => (if n <? 16 then [] else upper_hex_go fuel (n / 16)) ++ [upper_hex_digit (n mod 16)]
  end.

#[export] Instance upper_hex : FmtUpperHex := {| format_X := upper_hex_go 16 |}.

Lemma hex_digit_upper d : 0 <= d < 16 -> hex_digit (upper_hex_digit d) = Some d.
Proof.
  intros Hd. apply (seqZ_all (fun d => bool_decide (hex_digit (upper_hex_digit d) = Some d)) 16) in Hd; [|done].
  by apply bool_decide_eq_true in Hd.
Qed.

Lemma hex_value_snoc acc s c v d :
  hex_value acc s = Some v -> hex_digit c = Some d -> hex_value acc (s ++ [c]) = Some (v * 16 + d).
Proof.
  revert acc. induction s as [|x s IH]; intros acc; cbn [hex_value app]; [by intros [= ->] ->|].
  destruct (hex_digit x); [apply IH|done].
Qed.

Lemma upper_hex_value fuel n : 0 <= n < 16 ^ Z.of_nat fuel -> hex_value 0 (upper_hex_go fuel n) = Some n.
Proof.
  revert n. induction fuel as [|fuel IH]; intros n Hn; [simpl in Hn; simpl; do 2 f_equal; lia|].
  rewrite Nat2Z.inj_succ, Z.pow_succ_r in Hn by lia. cbn [upper_hex_go].
  assert (Hm : 0 <= n mod 16 < 16) by (apply Z.mod_pos_bound; lia).
  pose proof (hex_digit_upper _ Hm) as Hd. destruct (Z.ltb_spec n 16).
  - rewrite (hex_value_snoc 0 [] _ 0 _ eq_refl Hd). f_equal. rewrite Z.mod_small; lia.
  - assert (Hq : 0 <= n / 16 < 16 ^ Z.of_nat fuel).
    { split; [apply Z.div_pos; lia|apply Z.div_lt_upper_bound; lia]. }
    rewrite (hex_value_snoc 0 _ _ (n / 16) _ (IH _ Hq) Hd). f_equal. rewrite (Z.div_mod n 16) at 3 by lia. lia.
Qed.

#[export] Instance upper_hex_laws : FmtUpperHexLaws upper_hex.
Proof. intros n Hn. apply upper_hex_value. by change (16 ^ Z.of_nat 16) with (2 ^ 64). Qed.

Definition sample_chunks : list op :=
  [op_append_chunk (trivial_write_operation (bs "Hello, wide world")); op_flush (Some 1);
   op_append_chunk (trivial_write_operation []); op_append_chunk (trivial_write_operation (bs "a"));
   op_append_chunk (trivial_write_operation (bs "bc")); op_flush None].

Lemma chunked_response_decodes_witness :
  exists b sent b' last hd body,
    apply_ops sample_chunks (create (response_header (status_line ok))) = Some (Ok (b, sent)) /\
    done_ (Some 2) b = Some (Ok (b', [last])) /\
    sent_bytes (sent ++ [last]) = create_header_string hd skip_content_length ++ body /\
    decode_chunked body = Some [bs "Hello, wide world"; bs "a"; bs "bc"].
Proof.
  destruct (chunked_response_decodes (response_header (status_line ok)) sample_chunks (Some 2))
    as (b & sent & b' & last & hd & body & E1 & E2 & _ & _ & E3 & E4 & _).
  - repeat constructor; vm_compute; reflexivity.
  - exists b, sent, b', last, hd, body. split; [exact E1|]. split; [exact E2|]. split; [exact E3|].
    etransitivity; [exact E4|]. vm_compute. reflexivity.
Defined.

(** A chunk that is a file cannot be sent: its size is asked for as that of a buffer
    in memory. *)
Lemma file_chunk_undefined h file n :
  n <> 0 -> done_ None (append_chunk (file_write_operation file n) (create h)) = None.
Proof.
  intros Hn. unfold append_chunk. cbn [item_size]. rewrite (proj2 (Z.eqb_neq _ _)) by done.
  unfold done_, send_ready_data, prepare_header_for_sending. cbn.
  by destruct (chunked_fields_ok (m_fields h)) as (f & -> & _).
Qed.

End ChunkedOutput.
