(* ===== verification/Sendfile.v ===== *)
(** * Files to be sent

    Model of src/web/restinio/restinio/sendfile.hpp: the guarded chunk size, the
    holders of file descriptors and the description [sendfile_t] of a piece of a
    file, with [open_file] and [get_file_meta] of sendfile_defs_posix.hpp.  The
    operating system is the class [Files].

    A descriptor that is handed from holder to holder is closed exactly once, and
    the piece a [sendfile_t] describes always lies inside the file. *)

From stdpp Require Import gmap.
From S2P Require Import Prelude.

Module Sendfile.

(** ** Chunk sizes *)

Definition sendfile_default_chunk_size : Z := 1024 * 1024.
Definition sendfile_max_chunk_size : Z := 1024 * 1024 * 1024.

Definition clarify_chunk_size (chunk_size_value : Z) : Z :=
  if 0 =? chunk_size_value then sendfile_default_chunk_size
  else if sendfile_max_chunk_size <? chunk_size_value then sendfile_max_chunk_size
  else chunk_size_value.

(** The value is in range; zero becomes the default. *)
Lemma clarify_chunk_size_range n : 0 <= n -> 1 <= clarify_chunk_size n <= sendfile_max_chunk_size.
Proof.
  unfold clarify_chunk_size, sendfile_default_chunk_size, sendfile_max_chunk_size. intros Hn.
  destruct (Z.eqb_spec 0 n); [lia|]. destruct (Z.ltb_spec (1024 * 1024 * 1024) n); lia.
Qed.

Lemma zero_chunk_is_default : clarify_chunk_size 0 = 1048576.
Proof. reflexivity. Qed.

(** ** Holders of descriptors *)

Definition file_descriptor_t := Z.
Definition null_file_descriptor : file_descriptor_t := -1.
Definition is_valid (fd : file_descriptor_t) : bool := negb (null_file_descriptor =? fd).

(** The holders that are alive, by name, and the descriptors [close] was called for. *)
Record holders := mk_holders {
  m_file_descriptor : gmap nat file_descriptor_t;
  closed : list file_descriptor_t
}.

Definition fd (v : nat) (h : holders) : file_descriptor_t := default null_file_descriptor (m_file_descriptor h !! v).

Definition with_fd (v : nat) (d : file_descriptor_t) (h : holders) : holders :=
  mk_holders (<[v := d]> (m_file_descriptor h)) (closed h).

Definition release (v : nat) : holders -> holders := with_fd v null_file_descriptor.

(** [close_file] of a destructor. *)
Definition close_if_valid (d : file_descriptor_t) (h : holders) : holders :=
  if is_valid d then mk_holders (m_file_descriptor h) (closed h ++ [d]) else h.

Definition destroy (v : nat) (h : holders) : holders :=
  let h' := close_if_valid (fd v h) h in
  mk_holders (delete v (m_file_descriptor h')) (closed h').

Definition move_construct (v from : nat) (h : holders) : holders := release from (with_fd v (fd from h) h).

(** The temporary that takes over the old descriptor is destroyed at once. *)
Definition move_assign (v from : nat) (h : holders) : holders :=
  if (v =? from)%nat then h
  else
    let tmp := fd from h in
    let h := release from h in
    let old := fd v h in
    close_if_valid old (with_fd v tmp h).

Inductive holder_op :=
| construct (v : nat) (d : file_descriptor_t)
| op_move_construct (v from : nat)
| op_move_assign (v from : nat)
| op_destroy (v : nat).

(** What a program may do: a name is constructed when it is free, with a descriptor
    that nobody has seen, and used while it is alive. *)
Definition allowed (seen : list file_descriptor_t) (o : holder_op) (h : holders) : bool :=
  match o with
  | construct v d => bool_decide (m_file_descriptor h !! v = None) && bool_decide (d ∉ seen) && is_valid d
  | op_move_construct v from =>
      bool_decide (m_file_descriptor h !! v = None) && bool_decide (is_Some (m_file_descriptor h !! from))
  | op_move_assign v from =>
      bool_decide (is_Some (m_file_descriptor h !! v)) && bool_decide (is_Some (m_file_descriptor h !! from))
  | op_destroy v => bool_decide (is_Some (m_file_descriptor h !! v))
  end.

Definition apply (o : holder_op) (h : holders) : holders :=
  match o with
  | construct v d => with_fd v d h
  | op_move_construct v from => move_construct v from h
  | op_move_assign v from => move_assign v from h
  | op_destroy v => destroy v h
  end.

Definition opened (o : holder_op) : list file_descriptor_t := match o with construct _ d => [d] | _ => [] end.

(** [None]: not allowed. *)
Fixpoint run (seen : list file_descriptor_t) (ops : list holder_op) (h : holders)
  : option (list file_descriptor_t * holders) :=
  match ops with
  | [] => Some (seen, h)
  | o :: ops => if allowed seen o h then run (seen ++ opened o) ops (apply o h) else None
  end.

(** The descriptors that are held. *)
Definition held (h : holders) : list file_descriptor_t :=
  filter (fun d => is_valid d = true) (map snd (map_to_list (m_file_descriptor h))).

(** Every descriptor that was opened is held or closed, once. *)
Definition accounted (seen : list file_descriptor_t) (h : holders) : Prop :=
  NoDup seen /\ closed h ++ held h ≡ₚ seen.

Lemma held_insert_new v d h :
  m_file_descriptor h !! v = None ->
  held (with_fd v d h) ≡ₚ (if is_valid d then [d] else []) ++ held h.
Proof.
  intros Hv. unfold held. cbn [with_fd m_file_descriptor]. rewrite map_to_list_insert by done. cbn [map snd].
  rewrite filter_cons. by destruct (is_valid d).
Qed.

Lemma held_delete v h :
  is_Some (m_file_descriptor h !! v) ->
  held h ≡ₚ (if is_valid (fd v h) then [fd v h] else []) ++ held (mk_holders (delete v (m_file_descriptor h)) (closed h)).
Proof.
  intros [d Hd]. unfold fd. rewrite Hd. simpl.
  rewrite <- (held_insert_new v d (mk_holders (delete v (m_file_descriptor h)) (closed h))) by (simpl; apply lookup_delete_eq).
  unfold held. simpl. by rewrite insert_delete_id.
Qed.

(** A holder is given another descriptor. *)
Lemma held_set v d h :
  is_Some (m_file_descriptor h !! v) ->
  (if is_valid (fd v h) then [fd v h] else []) ++ held (with_fd v d h)
  ≡ₚ (if is_valid d then [d] else []) ++ held h.
Proof.
  intros Hv. rewrite (held_delete v h Hv). rewrite app_assoc, (Permutation_app_comm (if is_valid d then _ else _)), <- app_assoc.
  apply Permutation_app_head.
  rewrite <- (held_insert_new v d (mk_holders (delete v (m_file_descriptor h)) (closed h))) by (simpl; apply lookup_delete_eq).
  unfold held. simpl. by rewrite insert_delete_eq.
Qed.

Lemma null_invalid : is_valid null_file_descriptor = false.
Proof. done. Qed.

Lemma held_closed m c c' : held (mk_holders m c) = held (mk_holders m c').
Proof. done. Qed.

Lemma accounted_step seen o h :
  accounted seen h -> allowed seen o h = true -> accounted (seen ++ opened o) (apply o h).
Proof.
  intros [Hnd Hp] Ha. destruct o as [v d|v from|v from|v]; cbn [allowed apply opened] in *.
  - apply andb_prop in Ha as [[Hv Hd]%andb_prop Hval]. apply bool_decide_eq_true in Hv, Hd. split.
    + apply list.NoDup_app. split_and!; [done| |apply NoDup_singleton]. intros x Hx ->%list_elem_of_singleton. done.
    + cbn [with_fd closed]. rewrite (held_insert_new v d h Hv), Hval, app_assoc, (Permutation_app_comm (closed h)), <- app_assoc.
      rewrite Hp. apply Permutation_app_comm.
  - apply andb_prop in Ha as [Hv Hf]. apply bool_decide_eq_true in Hv, Hf. rewrite app_nil_r. split; [done|].
    rewrite <- Hp. unfold move_construct. cbn [closed release with_fd]. apply Permutation_app_head.
    set (h1 := with_fd v (fd from h) h).
    assert (Hne : v <> from) by (intros ->; rewrite Hv in Hf; by destruct Hf).
    assert (Hf1 : m_file_descriptor h1 !! from = m_file_descriptor h !! from) by (by apply lookup_insert_ne).
    assert (Hfd : fd from h1 = fd from h) by (unfold fd; by rewrite Hf1).
    pose proof (held_set from null_file_descriptor h1 ltac:(by rewrite Hf1)) as H1.
    pose proof (held_insert_new v (fd from h) h Hv) as H2. fold h1 in H2.
    rewrite null_invalid, Hfd in H1. simpl in H1. rewrite H2 in H1. by apply Permutation_app_inv_l in H1.
  - apply andb_prop in Ha as [Hv Hf]. apply bool_decide_eq_true in Hv, Hf. rewrite app_nil_r. split; [done|].
    rewrite <- Hp. unfold move_assign. destruct (Nat.eqb_spec v from) as [->|Hne]; [done|].
    set (h1 := release from h).
    assert (Hv1 : m_file_descriptor h1 !! v = m_file_descriptor h !! v) by (by apply lookup_insert_ne).
    pose proof (held_set from null_file_descriptor h Hf) as H1. rewrite null_invalid in H1. simpl in H1. fold (release from h) in H1.
    pose proof (held_set v (fd from h) h1 ltac:(by rewrite Hv1)) as H2. fold h1 in H1.
    unfold close_if_valid. destruct (is_valid (fd v h1)) eqn:Ev.
    + change ((closed h ++ [fd v h1]) ++ held (with_fd v (fd from h) h1) ≡ₚ closed h ++ held h).
      rewrite <- app_assoc. apply Permutation_app_head. by rewrite H2.
    + change (closed h ++ held (with_fd v (fd from h) h1) ≡ₚ closed h ++ held h).
      apply Permutation_app_head. cbn [app] in H2. by rewrite H2.
  - apply bool_decide_eq_true in Ha. rewrite app_nil_r. split; [done|]. rewrite <- Hp.
    rewrite (held_delete v h Ha). unfold destroy, close_if_valid. destruct (is_valid (fd v h)); simpl; [|done].
    rewrite <- app_assoc. done.
Qed.

Lemma accounted_run seen ops h seen' h' :
  accounted seen h -> run seen ops h = Some (seen', h') -> accounted seen' h'.
Proof.
  revert seen h. induction ops as [|o ops IH]; intros seen h Hh; cbn [run]; [by intros [= <- <-]|].
  destruct (allowed seen o h) eqn:Ea; [|done]. by apply IH, accounted_step.
Qed.

(** Handing a descriptor from holder to holder loses nothing and closes nothing
    twice: when all holders are gone, exactly the descriptors that were given to one
    have been closed, each once. *)
Theorem descriptors_closed_once ops seen h :
  run [] ops (mk_holders ∅ []) = Some (seen, h) ->
  NoDup (closed h) /\ (forall d, d ∈ closed h -> d ∈ seen) /\
  (m_file_descriptor h = ∅ -> closed h ≡ₚ seen).
Proof.
  intros Hr. destruct (accounted_run [] ops (mk_holders ∅ []) seen h) as [Hnd Hp]; [by split; [constructor|]|done|].
  rewrite <- Hp in Hnd. apply list.NoDup_app in Hnd as (Hc & _ & _). split_and!; [done| |].
  - intros d Hd. rewrite <- Hp. apply elem_of_app. by left.
  - intros He. rewrite <- Hp. unfold held. rewrite He, map_to_list_empty. simpl. by rewrite app_nil_r.
Qed.

Lemma descriptors_closed_once_witness :
  exists seen h,
    run [] [construct 1 7; construct 2 8; op_move_construct 3 1; op_move_assign 2 3; op_move_assign 2 2;
            op_destroy 1; op_destroy 3; op_destroy 2] (mk_holders ∅ []) = Some (seen, h) /\
    NoDup (closed h) /\ closed h ≡ₚ seen.
Proof.
  do 2 eexists. split; [vm_compute; reflexivity|].
  destruct (descriptors_closed_once [construct 1 7; construct 2 8; op_move_construct 3 1; op_move_assign 2 3;
    op_move_assign 2 2; op_destroy 1; op_destroy 3; op_destroy 2] _ _ ltac:(vm_compute; reflexivity)) as (H1 & _ & H2).
  split; [exact H1|apply H2; reflexivity].
Defined.

(** ** sendfile_t *)

Record sendfile_t := mk_sendfile {
  sf_file_descriptor : file_descriptor_t;
  file_total_size : Z;               (* file_meta_t *)
  last_modified_at : Z;
  sf_offset : Z;                     (* std::int64_t *)
  sf_size : Z;                       (* std::uint64_t *)
  sf_chunk_size : Z;
  sf_timelimit : Z
}.

Definition sendfile (d : file_descriptor_t) (total_size modified chunk_size : Z) : sendfile_t :=
  mk_sendfile d total_size modified 0 total_size (clarify_chunk_size chunk_size) 0.

Definition check_file_is_valid (sf : sendfile_t) : outcome unit :=
  if is_valid (sf_file_descriptor sf) then Ok tt else Throw "invalid file descriptor".

(** The conversion of the offset to [std::uint64_t] wraps. *)
Definition offset_and_size (offset_value size_value : Z) (sf : sendfile_t) : outcome sendfile_t :=
  let? _ := check_file_is_valid sf in
  let offset64 := wrap 64 offset_value in
  if file_total_size sf <? offset64 then Throw "invalid file offset"
  else
    Ok (mk_sendfile (sf_file_descriptor sf) (file_total_size sf) (last_modified_at sf) offset_value
          (Z.min (file_total_size sf - offset64) size_value) (sf_chunk_size sf) (sf_timelimit sf)).

Definition set_chunk_size (chunk : Z) (sf : sendfile_t) : outcome sendfile_t :=
  let? _ := check_file_is_valid sf in
  Ok (mk_sendfile (sf_file_descriptor sf) (file_total_size sf) (last_modified_at sf) (sf_offset sf) (sf_size sf)
        (clarify_chunk_size chunk) (sf_timelimit sf)).

Definition set_timelimit (timelimit_value : Z) (sf : sendfile_t) : outcome sendfile_t :=
  let? _ := check_file_is_valid sf in
  Ok (mk_sendfile (sf_file_descriptor sf) (file_total_size sf) (last_modified_at sf) (sf_offset sf) (sf_size sf)
        (sf_chunk_size sf) (Z.max timelimit_value 0)).

(** The descriptor is moved out. *)
Definition takeaway_file_descriptor (sf : sendfile_t) : sendfile_t * file_descriptor_t :=
  (mk_sendfile null_file_descriptor (file_total_size sf) (last_modified_at sf) (sf_offset sf) (sf_size sf)
     (sf_chunk_size sf) (sf_timelimit sf), sf_file_descriptor sf).

(** [::open] and [fstat64]: the descriptor, the size and the time of a file. *)
Class Files := {
  open_ : list byte -> file_descriptor_t;
  fstat : file_descriptor_t -> option (Z * Z)
}.

Section Open.
Context {Fs : Files}.

Definition open_file (file_path : list byte) : outcome file_descriptor_t :=
  if null_file_descriptor =? open_ file_path then Throw "unable to openfile" else Ok (open_ file_path).

Definition get_file_meta (d : file_descriptor_t) : outcome (Z * Z) :=
  if null_file_descriptor =? d then Throw "invalid file descriptor"
  else match fstat d with Some m => Ok m | None => Throw "unable to get file stat " end.

Definition sendfile_path (file_path : list byte) (chunk_size : Z) : outcome sendfile_t :=
  let? d := open_file file_path in
  let? (total_size, modified) := get_file_meta d in
  Ok (sendfile d total_size modified chunk_size).

End Open.

(** The piece lies inside the file, and the chunk size is in its range. *)
Record sendfile_ok (sf : sendfile_t) : Prop := {
  ok_offset : 0 <= sf_offset sf;
  ok_size : 0 <= sf_size sf;
  ok_end : sf_offset sf + sf_size sf <= file_total_size sf;
  ok_chunk : 1 <= sf_chunk_size sf <= sendfile_max_chunk_size;
  ok_timelimit : 0 <= sf_timelimit sf
}.

Inductive sendfile_op :=
| op_offset_and_size (offset_value size_value : Z)
| op_chunk_size (chunk : Z)
| op_timelimit (timelimit_value : Z).

Definition apply_op (o : sendfile_op) (sf : sendfile_t) : outcome sendfile_t :=
  match o with
  | op_offset_and_size offset size => offset_and_size offset size sf
  | op_chunk_size chunk => set_chunk_size chunk sf
  | op_timelimit t => set_timelimit t sf
  end.

(** The arguments have their types: [std::int64_t] and [std::uint64_t]. *)
Definition typed (o : sendfile_op) : Prop :=
  match o with
  | op_offset_and_size offset size => - 2 ^ 63 <= offset < 2 ^ 63 /\ 0 <= size < 2 ^ 64
  | op_chunk_size chunk => 0 <= chunk < 2 ^ 64
  | op_timelimit _ => True
  end.

Lemma sendfile_starts_ok d total modified chunk :
  0 <= total -> 0 <= chunk -> sendfile_ok (sendfile d total modified chunk).
Proof. intros Ht Hc. pose proof (clarify_chunk_size_range chunk Hc). split; simpl; lia. Qed.

Lemma wrap_negative_offset offset : - 2 ^ 63 <= offset < 0 -> 2 ^ 63 <= wrap 64 offset.
Proof. intros Ho. unfold wrap. rewrite <- (Z.mod_add offset 1) by lia. rewrite Z.mod_small; lia. Qed.

(** Whatever the program asks for, a piece that is accepted lies inside the file,
    a negative offset is refused like one behind the end, and what is refused leaves
    the description as it was. *)
Theorem sendfile_stays_inside (sf sf' : sendfile_t) (o : sendfile_op) :
  sendfile_ok sf -> file_total_size sf < 2 ^ 63 -> typed o -> apply_op o sf = Ok sf' ->
  sendfile_ok sf' /\ file_total_size sf' = file_total_size sf /\
  match o with
  | op_offset_and_size offset size =>
      sf_offset sf' = offset /\ sf_size sf' = Z.min (file_total_size sf - offset) size
  | _ => sf_offset sf' = sf_offset sf /\ sf_size sf' = sf_size sf
  end.
Proof.
  intros [H1 H2 H3 H4 H5] Ht Hty Ha. destruct o as [offset size|chunk|t]; cbn [apply_op typed] in *;
    unfold offset_and_size, set_chunk_size, set_timelimit, check_file_is_valid in Ha;
    destruct (is_valid (sf_file_descriptor sf)); try done.
  - destruct (Z.ltb_spec (file_total_size sf) (wrap 64 offset)) as [|Hle]; [done|]. injection Ha as <-.
    destruct (Z_lt_le_dec offset 0) as [Hneg|Hpos]; [pose proof (wrap_negative_offset offset); lia|].
    assert (wrap 64 offset = offset) as E by (unfold wrap; rewrite Z.mod_small; lia). rewrite E in *.
    split_and!; try done. split; simpl; lia.
  - injection Ha as <-. pose proof (clarify_chunk_size_range chunk). split_and!; try done. split; simpl; lia.
  - injection Ha as <-. split_and!; try done. split; simpl; lia.
Qed.

Lemma sendfile_stays_inside_witness :
  sendfile_ok (mk_sendfile 3 100 0 40 60 1 0).
Proof.
  destruct (sendfile_stays_inside (sendfile 3 100 0 1) (mk_sendfile 3 100 0 40 60 1 0) (op_offset_and_size 40 1000))
    as (H & _); [apply sendfile_starts_ok; lia|reflexivity|simpl; lia|reflexivity|exact H].
Defined.

End Sendfile.
