(* ===== verification/SendfileRunner.v ===== *)
(** * Sending a file

    Model of src/web/restinio/restinio/impl/sendfile_operation_posix.ipp with the base
    class of impl/sendfile_operation.hpp, on Linux: the runner for plain sockets,
    which calls sendfile(2), and the runner for other sockets, which reads into a
    buffer and writes the buffer.  The kernel and Asio are the classes [Kernel] and
    [Reader], whose answers may depend on the number of the call in any way.

    A runner that reports success has sent exactly the piece of the file that was
    asked for; whatever it reports, the octets it counts are the first ones of the
    piece; it reports at most once. *)

From S2P Require Import Prelude Sendfile.

Module SendfileRunner.
Import Sendfile(sendfile_t, sf_offset, sf_size, sf_chunk_size, sendfile_ok, mk_sendfile, sendfile).

(** What a system call answers. *)
Inductive sys :=
| sys_bytes (n : Z)
| sys_again                         (* EAGAIN or EINTR *)
| sys_error (errno : Z).

(** The error codes that are not of the kernel. *)
Definition async_write_call_failed : Z := -1.
Definition asio_eof : Z := -2.

(** The members of the runners; [sock] is what went to the socket, [reports] the
    calls of [m_after_sendfile_cb], [waiting] whether a completion handler is
    pending, [calls] the number of system calls. *)
Record runner := mk_runner {
  m_next_write_offset : Z;
  m_remained_size : Z;
  m_transfered_size : Z;
  m_chunk_size : Z;
  sock : list byte;
  reports : list (option Z * Z);
  waiting : bool;
  calls : nat
}.

Definition new_runner (sf : sendfile_t) : runner :=
  mk_runner (sf_offset sf) (sf_size sf) 0 (sf_chunk_size sf) [] [] false 0.

Definition slice (offset n : Z) (file : list byte) : list byte :=
  take (Z.to_nat n) (drop (Z.to_nat offset) file).

(** [m_after_sendfile_cb( ec, m_transfered_size )] *)
Definition report (ec : option Z) (r : runner) : runner :=
  mk_runner (m_next_write_offset r) (m_remained_size r) (m_transfered_size r) (m_chunk_size r) (sock r)
    (reports r ++ [(ec, m_transfered_size r)]) (waiting r) (calls r).

Definition set_waiting (w : bool) (r : runner) : runner :=
  mk_runner (m_next_write_offset r) (m_remained_size r) (m_transfered_size r) (m_chunk_size r) (sock r) (reports r) w
    (calls r).

Definition count_call (r : runner) : runner :=
  mk_runner (m_next_write_offset r) (m_remained_size r) (m_transfered_size r) (m_chunk_size r) (sock r) (reports r)
    (waiting r) (S (calls r)).

Definition request_size (r : runner) : Z := Z.min (m_remained_size r) (m_chunk_size r).

(** ** Plain sockets *)

Class Kernel := {
  native_non_blocking : bool;
  turn_non_blocking : option Z;                     (* the error *)
  async_wait : nat -> bool;                         (* false: it throws *)
  sendfile64 : nat -> Z -> Z -> sys                 (* the call, the offset, the size *)
}.

Section Plain.
Context {K : Kernel} (file : list byte).

Definition try_turn_non_blocking_mode (r : runner) : runner * bool :=
  if native_non_blocking then (r, true)
  else match turn_non_blocking with
       | Some e => (report (Some e) r, false)
       | None => (r, true)
       end.

(** The socket is waited for; the handler is [on_ready]. *)
Definition try_initiate_waiting_for_write_readiness (r : runner) : runner :=
  if async_wait (calls r) then set_waiting true r else report (Some async_write_call_failed) r.

(** The kernel sends [n] octets from the offset on and advances it. *)
Definition sent_by_kernel (n : Z) (r : runner) : runner :=
  mk_runner (m_next_write_offset r + n) (m_remained_size r - n) (m_transfered_size r + n) (m_chunk_size r)
    (sock r ++ slice (m_next_write_offset r) n file) (reports r) (waiting r) (calls r).

(** [None]: out of fuel. *)
Fixpoint write_loop (fuel : nat) (r : runner) : option runner :=
  match fuel with
  | O => None
  | S fuel =>
      if m_remained_size r =? 0 then Some (try_initiate_waiting_for_write_readiness r)
      else
        let n := sendfile64 (calls r) (m_next_write_offset r) (request_size r) in
        let r := count_call r in
        match n with
        | sys_again => Some (try_initiate_waiting_for_write_readiness r)
        | sys_error e => Some (report (Some e) r)
        | sys_bytes n =>
            if n =? 0 then Some (try_initiate_waiting_for_write_readiness r)
            else write_loop fuel (sent_by_kernel n r)
        end
  end.

(** Every round sends an octet. *)
Definition init_next_write (r : runner) : option runner :=
  let '(r, ok) := try_turn_non_blocking_mode r in
  if ok then write_loop (S (Z.to_nat (m_remained_size r))) r else Some r.

Definition start (r : runner) : option runner := init_next_write r.

Definition on_ready (ec : option Z) (r : runner) : option runner :=
  let r := set_waiting false r in
  if bool_decide (ec <> None) || (m_remained_size r =? 0) then Some (report ec r) else init_next_write r.

(** A run: the outcomes of the waits, as far as they happen. *)
Fixpoint drive (evs : list (option Z)) (r : runner) : option runner :=
  match evs with
  | [] => Some r
  | ec :: evs => if waiting r then r ← on_ready ec r; drive evs r else Some r
  end.

Definition run (sf : sendfile_t) (evs : list (option Z)) : option runner :=
  r ← start (new_runner sf);
  drive evs r.

End Plain.

(** sendfile(2): no more than asked for and than the file has. *)
Class KernelLaws (K : Kernel) (file : list byte) : Prop :=
  sendfile64_bytes k offset count n :
    0 <= count -> sendfile64 k offset count = sys_bytes n ->
    0 <= n <= count /\ (offset <= Z.of_nat (length file) -> offset + n <= Z.of_nat (length file)).

(** ** What is sent *)

Section Sent.
Context (file : list byte) (sf : sendfile_t).

(** The state of a transfer. *)
Record sending (r : runner) : Prop := {
  s_remained : 0 <= m_remained_size r;
  s_total : m_transfered_size r + m_remained_size r = sf_size sf;
  s_transfered : 0 <= m_transfered_size r;
  s_offset : m_next_write_offset r = sf_offset sf + m_transfered_size r;
  s_chunk : 0 < m_chunk_size r;
  s_sock : sock r = slice (sf_offset sf) (m_transfered_size r) file
}.

(** Nothing was reported, or one thing and that is right. *)
Definition reported (r : runner) : Prop :=
  reports r = [] \/
  waiting r = false /\ exists ec, reports r = [(ec, m_transfered_size r)] /\ (ec = None -> m_remained_size r = 0).

Lemma slice_app offset n m :
  0 <= offset -> 0 <= n -> 0 <= m -> slice offset n file ++ slice (offset + n) m file = slice offset (n + m) file.
Proof.
  intros Ho Hn Hm. unfold slice. rewrite !Z2Nat.inj_add by lia. rewrite <- drop_drop.
  set (f := drop (Z.to_nat offset) file). rewrite <- (take_drop (Z.to_nat n) f) at 3.
  destruct (decide (Z.to_nat n <= length f)%nat).
  - rewrite take_app_ge by (rewrite length_take; lia). rewrite length_take_le by done.
    by replace (Z.to_nat n + Z.to_nat m - Z.to_nat n)%nat with (Z.to_nat m) by lia.
  - rewrite (drop_ge f) by lia. rewrite take_nil, !app_nil_r. rewrite (take_ge (take _ _)); [done|].
    rewrite length_take. lia.
Qed.

Lemma sending_new : sendfile_ok sf -> sending (new_runner sf).
Proof. intros []. split; simpl; try lia; try done. Qed.

Lemma sending_more n r :
  sendfile_ok sf -> sending r -> 0 <= n <= m_remained_size r ->
  sending (sent_by_kernel file n r).
Proof.
  intros [Ho _ _ _ _] [H1 H2 H3 H4 H6 H5] Hn. split; simpl; try lia.
  rewrite H5, H4. apply slice_app; lia.
Qed.

(** ** Plain sockets, safely *)

Section PlainSent.
Context {K : Kernel} {KL : KernelLaws K file} (Hsf : sendfile_ok sf).

Definition fine (r : runner) : Prop := sending r /\ reported r.

Lemma fine_report ec r :
  sending r -> reports r = [] -> waiting r = false -> (ec = None -> m_remained_size r = 0) -> fine (report ec r).
Proof.
  intros [] Hr Hw He. split; [by split|]. right. split; [done|]. exists ec. simpl. by rewrite Hr.
Qed.

Lemma fine_wait r : sending r -> reports r = [] -> waiting r = false -> fine (try_initiate_waiting_for_write_readiness r).
Proof.
  intros Hs Hr Hw. unfold try_initiate_waiting_for_write_readiness. destruct (async_wait _); [|by apply fine_report].
  destruct Hs. split; [by split|by left].
Qed.

Lemma write_loop_fine fuel r :
  (Z.to_nat (m_remained_size r) < fuel)%nat -> sending r -> reports r = [] -> waiting r = false ->
  exists r', write_loop file fuel r = Some r' /\ fine r'.
Proof using Hsf KL.
  revert r. induction fuel as [|fuel IH]; intros r Hf Hs Hr Hw; [lia|]. cbn [write_loop].
  destruct (Z.eqb_spec (m_remained_size r) 0) as [E0|E0]; [eexists; split; [done|by apply fine_wait]|].
  assert (Hs' : sending (count_call r)) by (destruct Hs; by split). pose proof Hs as [H1 _ _ _ Hch _].
  destruct (sendfile64 (calls r) (m_next_write_offset r) (request_size r)) as [n| |e] eqn:E.
  - assert (Hrq : 0 <= request_size r) by (unfold request_size; lia).
    destruct (sendfile64_bytes _ _ _ _ Hrq E) as [Hn _]. unfold request_size in Hn.
    destruct (Z.eqb_spec n 0) as [->|Hn0]; [eexists; split; [done|by apply fine_wait]|].
    apply IH; [simpl; lia| |done|done]. by apply sending_more; [| |simpl; lia].
  - eexists. split; [done|by apply fine_wait].
  - eexists. split; [done|]. by apply fine_report.
Qed.

Lemma init_next_write_fine r :
  sending r -> reports r = [] -> waiting r = false -> exists r', init_next_write file r = Some r' /\ fine r'.
Proof using Hsf KL.
  intros Hs Hr Hw. unfold init_next_write, try_turn_non_blocking_mode.
  destruct native_non_blocking; [apply write_loop_fine; [lia|done..]|].
  destruct turn_non_blocking; [|apply write_loop_fine; [lia|done..]].
  eexists. split; [done|]. by apply fine_report.
Qed.

Lemma on_ready_fine ec r :
  fine r -> waiting r = true -> exists r', on_ready file ec r = Some r' /\ fine r'.
Proof using Hsf KL.
  intros [Hs Hr] Hw. destruct Hr as [Hr|[Hn _]]; [|congruence]. unfold on_ready.
  assert (Hs' : sending (set_waiting false r)) by (destruct Hs; by split).
  destruct (bool_decide (ec <> None)) eqn:Ee; simpl.
  - eexists. split; [done|]. apply fine_report; try done. apply bool_decide_eq_true in Ee. done.
  - destruct (Z.eqb_spec (m_remained_size r) 0); [|by apply init_next_write_fine].
    eexists. split; [done|]. by apply fine_report.
Qed.

Lemma drive_fine evs r : fine r -> exists r', drive file evs r = Some r' /\ fine r'.
Proof using Hsf KL.
  revert r. induction evs as [|ec evs IH]; intros r Hf; cbn [drive]; [by exists r|].
  destruct (waiting r) eqn:Ew; [|by exists r]. destruct (on_ready_fine ec r Hf Ew) as (r' & -> & Hf'). simpl. by apply IH.
Qed.

Lemma run_fine evs : exists r, run file sf evs = Some r /\ fine r.
Proof using Hsf KL.
  unfold run, start.
  destruct (init_next_write_fine (new_runner sf) (sending_new Hsf) eq_refl eq_refl) as (r & -> & Hf). simpl.
  by apply drive_fine.
Qed.

End PlainSent.

End Sent.

(** C20. Sending a piece of a file over a plain socket, whatever sendfile(2) answers
    and however the waits for the socket end: every step comes to an end; the octets
    that went to the socket are the first ones of the piece, as many as are counted;
    the outcome is reported at most once, with that count; and when success is
    reported, the socket was given exactly the piece. *)
Theorem sendfile_sends_piece {K : Kernel} (file : list byte) {KL : KernelLaws K file} (sf : sendfile_t)
    (evs : list (option Z)) :
  sendfile_ok sf ->
  exists r, run file sf evs = Some r /\
    sock r = slice (sf_offset sf) (m_transfered_size r) file /\ 0 <= m_transfered_size r <= sf_size sf /\
    (reports r = [] \/ exists ec, reports r = [(ec, m_transfered_size r)] /\
       (ec = None -> m_transfered_size r = sf_size sf /\ sock r = slice (sf_offset sf) (sf_size sf) file)).
Proof.
  intros Hsf. destruct (run_fine file sf Hsf evs) as (r & Hr & [H1 H2 H3 H4 _ H5] & Hrep). exists r.
  split_and!; try done; try lia. destruct Hrep as [?|[_ (ec & He & Hok)]]; [by left|right].
  exists ec. split; [done|]. intros Hn. specialize (Hok Hn). assert (m_transfered_size r = sf_size sf) as E by lia.
  split; [done|]. by rewrite H5, E.
Qed.

(** ** Success *)

(** A kernel and a socket that work: after the socket had no room, waiting for it
    gives room for something. *)
Class KernelWorks (K : Kernel) (file : list byte) : Prop := {
  mode_turns : native_non_blocking = true \/ turn_non_blocking = None;
  wait_starts k : async_wait k = true;
  no_error k offset count e : sendfile64 k offset count <> sys_error e;
  nothing_at_end k offset count :
    0 < count -> offset < Z.of_nat (length file) -> sendfile64 k offset count <> sys_bytes 0;
  room_after_wait k offset count offset' count' :
    sendfile64 k offset count = sys_again -> 0 < count' -> offset' < Z.of_nat (length file) ->
    sendfile64 (S k) offset' count' <> sys_again
}.

Section Success.
Context {K : Kernel} (file : list byte) {KL : KernelLaws K file} {KW : KernelWorks K file}.
Context (sf : sendfile_t) (Hsf : sendfile_ok sf) (Hin : sf_offset sf + sf_size sf <= Z.of_nat (length file)).

(** The last call found no room. *)
Definition blocked (r : runner) : Prop :=
  exists k offset count, calls r = S k /\ sendfile64 k offset count = sys_again.

Record stalled (r : runner) : Prop := {
  st_sending : sending file sf r;
  st_reports : reports r = [];
  st_waiting : waiting r = true;
  st_chunk : 0 < m_chunk_size r;
  st_blocked : m_remained_size r = 0 \/ blocked r
}.

Lemma write_loop_stalls fuel r :
  (Z.to_nat (m_remained_size r) < fuel)%nat -> sending file sf r -> reports r = [] -> waiting r = false ->
  0 < m_chunk_size r ->
  exists r', write_loop file fuel r = Some r' /\ stalled r' /\ m_remained_size r' <= m_remained_size r /\
    (blocked r -> 0 < m_remained_size r -> m_remained_size r' < m_remained_size r).
Proof using Hin Hsf KL KW.
  revert r. induction fuel as [|fuel IH]; intros r Hf Hs Hr Hw Hc; [lia|]. cbn [write_loop].
  assert (Hwait : forall q, sending file sf q -> reports q = [] -> 0 < m_chunk_size q ->
    m_remained_size q = 0 \/ blocked q -> stalled (try_initiate_waiting_for_write_readiness q)).
  { intros q [] Hq Hqc Hb. unfold try_initiate_waiting_for_write_readiness. rewrite wait_starts. by split. }
  destruct (Z.eqb_spec (m_remained_size r) 0) as [E0|E0].
  { eexists. split; [done|]. split; [by apply Hwait; [..|left]|].
    unfold try_initiate_waiting_for_write_readiness. rewrite wait_starts. simpl. lia. }
  assert (Hs' : sending file sf (count_call r)) by (destruct Hs; by split). pose proof Hs as [H1 H2 H3 H4 _ _].
  assert (Hreq : 0 < request_size r) by (unfold request_size; lia).
  assert (Hoff : m_next_write_offset r < Z.of_nat (length file)) by lia.
  destruct (sendfile64 (calls r) (m_next_write_offset r) (request_size r)) as [n| |e] eqn:E.
  - assert (Hrq : 0 <= request_size r) by (unfold request_size; lia).
    destruct (sendfile64_bytes _ _ _ _ Hrq E) as [Hn _]. unfold request_size in Hn.
    destruct (Z.eqb_spec n 0) as [->|Hn0]; [by destruct (nothing_at_end _ _ _ Hreq Hoff E)|].
    destruct (IH (sent_by_kernel file n (count_call r))) as (r' & Hr' & Hst & Hle & _); [simpl; lia| |done..|].
    { by apply sending_more; [| |simpl; lia]. }
    exists r'. simpl in Hle. split_and!; try done; lia.
  - eexists. split; [done|]. split; [apply Hwait; [done..|]|].
    + right. by exists (calls r), (m_next_write_offset r), (request_size r).
    + unfold try_initiate_waiting_for_write_readiness. rewrite wait_starts. simpl. split; [lia|].
      intros (k & o & c & Ek & Eb). rewrite Ek in E. destruct (room_after_wait _ _ _ (m_next_write_offset r) (request_size r) Eb);
        [done|lia|done].
  - by destruct (no_error _ _ _ _ E).
Qed.

Lemma init_next_write_stalls r :
  sending file sf r -> reports r = [] -> waiting r = false -> 0 < m_chunk_size r ->
  exists r', init_next_write file r = Some r' /\ stalled r' /\ m_remained_size r' <= m_remained_size r /\
    (blocked r -> 0 < m_remained_size r -> m_remained_size r' < m_remained_size r).
Proof using Hin Hsf KL KW.
  intros. unfold init_next_write, try_turn_non_blocking_mode.
  destruct mode_turns as [->| ->]; [|destruct native_non_blocking]; apply write_loop_stalls; try done; lia.
Qed.

Lemma drive_succeeds n r :
  stalled r -> (Z.to_nat (m_remained_size r) < n)%nat ->
  exists r', drive file (repeat None n) r = Some r' /\ reports r' = [(None, sf_size sf)].
Proof using Hin Hsf KL KW.
  revert r. induction n as [|n IH]; intros r [Hs Hr Hw Hc Hb] Hn; [lia|]. cbn [repeat drive]. rewrite Hw. unfold on_ready.
  rewrite bool_decide_false by (intros Hx; by apply Hx). cbn [orb]. destruct (Z.eqb_spec (m_remained_size (set_waiting false r)) 0) as [E|E].
  - cbn [mbind option_bind]. simpl in E. exists (report None (set_waiting false r)). destruct Hs as [_ Ht _ _ _ _].
    split; [destruct n; done|]. simpl. rewrite Hr. simpl. do 2 f_equal. lia.
  - simpl in E. destruct Hb as [?|Hb]; [done|].
    destruct (init_next_write_stalls (set_waiting false r)) as (r' & -> & Hst & _ & Hlt); try done; [by destruct Hs|].
    cbn [mbind option_bind]. pose proof Hs as [? _ _ _ _ _]. apply IH; [done|].
    assert (m_remained_size r' < m_remained_size r) by (apply Hlt; [done|simpl; lia]). lia.
Qed.

End Success.

(** With a kernel that works, a piece that lies inside the file is sent: after as
    many waits as the piece has octets and one more, success is reported. *)
Theorem sendfile_completes {K : Kernel} (file : list byte) {KL : KernelLaws K file} {KW : KernelWorks K file}
    (sf : sendfile_t) :
  sendfile_ok sf -> sf_offset sf + sf_size sf <= Z.of_nat (length file) ->
  exists r, run file sf (repeat None (S (Z.to_nat (sf_size sf)))) = Some r /\ reports r = [(None, sf_size sf)].
Proof.
  intros Hsf Hin. pose proof Hsf as [_ _ _ Hch _]. unfold run, start.
  destruct (init_next_write_stalls file sf Hsf Hin (new_runner sf)) as (r & -> & Hst & Hle & _);
    [by apply sending_new|done|done|simpl; lia|].
  cbn [mbind option_bind]. destruct Hst as [Hs ? ? ? ?]. simpl in Hle.
  apply drive_succeeds; try done. destruct Hs. lia.
Qed.

(** *** A file that has become shorter *)

(** sendfile(2) answers 0 at the end of the file. *)
Definition at_end : Kernel := {|
  native_non_blocking := true;
  turn_non_blocking := None;
  async_wait _ := true;
  sendfile64 _ _ _ := sys_bytes 0
|}.

(** The runner waits for a socket that is ready, and calls sendfile(2) again, without
    end: nothing is ever reported. *)
Lemma truncated_file_spins file sf n :
  0 < sf_size sf ->
  exists r, run (K := at_end) file sf (repeat None n) = Some r /\ reports r = [] /\ waiting r = true /\
    calls r = S n.
Proof.
  intros Hs. unfold run, start.
  assert (Hinit : forall r, 0 < m_remained_size r -> init_next_write (K := at_end) file r
    = Some (set_waiting true (count_call r))).
  { intros r Hr. unfold init_next_write. cbn [try_turn_non_blocking_mode native_non_blocking at_end write_loop].
    rewrite (proj2 (Z.eqb_neq _ _)) by lia. reflexivity. }
  rewrite Hinit by done. cbn [mbind option_bind].
  assert (Hdrive : forall n r, 0 < m_remained_size r -> waiting r = true -> reports r = [] ->
    exists r', drive (K := at_end) file (repeat None n) r = Some r' /\ reports r' = [] /\ waiting r' = true /\
      calls r' = (calls r + n)%nat).
  { clear n Hs. intros n. induction n as [|n IH]; intros r H1 H2 H3; [exists r; by rewrite Nat.add_0_r|].
    cbn [repeat drive]. rewrite H2. unfold on_ready. rewrite bool_decide_false by (intros Hx; by apply Hx). cbn [orb].
    rewrite (proj2 (Z.eqb_neq _ _)) by (simpl; lia). rewrite Hinit by done. cbn [mbind option_bind].
    destruct (IH (set_waiting true (count_call (set_waiting false r)))) as (r' & Hr' & ? & ? & Hc); try done.
    exists r'. split_and!; try done. rewrite Hc. simpl. lia. }
  by apply Hdrive.
Qed.

(** *** A kernel that sends little by little *)

(** At most three octets at a time, and no room every third time. *)
Definition slow_kernel (file : list byte) : Kernel := {|
  native_non_blocking := false;
  turn_non_blocking := None;
  async_wait _ := true;
  sendfile64 k offset count :=
    if (k mod 3 =? 2)%nat then sys_again
    else sys_bytes (Z.max 0 (Z.min (Z.min 3 count) (Z.of_nat (length file) - offset)))
|}.

#[export] Instance slow_kernel_laws file : KernelLaws (slow_kernel file) file.
Proof.
  intros k o c n Hc. cbn [sendfile64 slow_kernel]. destruct (k mod 3 =? 2)%nat; [done|]. intros [= <-]. lia.
Qed.

#[export] Instance slow_kernel_works file : KernelWorks (slow_kernel file) file.
Proof.
  split; cbn [sendfile64 slow_kernel native_non_blocking turn_non_blocking async_wait]; try done.
  - by right.
  - intros k o c e. by destruct (k mod 3 =? 2)%nat.
  - intros k o c Hc Ho. destruct (k mod 3 =? 2)%nat; [done|]. intros [= E]. lia.
  - intros k o c o' c' E _ _. destruct (Nat.eqb_spec (k mod 3) 2); [|done].
    destruct (Nat.eqb_spec (S k mod 3) 2); [|done]. exfalso. rewrite <- Nat.add_1_r, Nat.Div0.add_mod in e0. rewrite e in e0. done.
Qed.

Definition sample_file : list byte := bs "0123456789abcdefghij".
Definition sample_sendfile : sendfile_t := mk_sendfile 3 20 0 4 11 5 0.

Lemma sample_sendfile_ok : sendfile_ok sample_sendfile.
Proof. split; vm_compute; by intuition. Qed.

Lemma sendfile_sends_piece_witness :
  exists r, run (K := slow_kernel sample_file) sample_file sample_sendfile (repeat None 3) = Some r /\
    reports r = [(None, 11)] /\ sock r = bs "456789abcde".
Proof.
  destruct (sendfile_sends_piece (K := slow_kernel sample_file) sample_file sample_sendfile (repeat None 3) sample_sendfile_ok)
    as (r & Hr & _ & _ & Hrep).
  exists r. split; [exact Hr|]. assert (Hrs : reports r = [(None, 11)]).
  { assert (E : option_map reports (Some r) = Some [(None, 11)]) by (rewrite <- Hr; vm_compute; reflexivity).
    injection E as E. exact E. }
  split; [exact Hrs|]. rewrite Hrs in Hrep. destruct Hrep as [Hrep|(ec & Hec & Hok)]; [discriminate|].
  injection Hec as <- _. destruct (Hok eq_refl) as [_ ->]. vm_compute. reflexivity.
Defined.

Lemma sendfile_completes_witness :
  exists r, run (K := slow_kernel sample_file) sample_file sample_sendfile (repeat None 12) = Some r /\
    reports r = [(None, 11)].
Proof.
  apply (sendfile_completes (K := slow_kernel sample_file) sample_file sample_sendfile sample_sendfile_ok).
  vm_compute. discriminate.
Defined.

(** ** Other sockets *)

(** [lseek64], [read] and whether [asio_ns::async_write] starts. *)
Class Reader := {
  lseek : Z -> option Z;                            (* the error *)
  read_ : nat -> Z -> Z -> sys;                     (* the call, the position, the size *)
  async_write : nat -> bool
}.

(** The runner, the position in the file and what [m_buffer] holds. *)
Record buffered := mk_buffered { b_runner : runner; b_pos : Z; b_buffer : list byte }.

Definition with_runner (f : runner -> runner) (b : buffered) : buffered :=
  mk_buffered (f (b_runner b)) (b_pos b) (b_buffer b).

Section Buffered.
Context {R : Reader} (file : list byte).

(** An interrupted read is tried again, [fuel] times; [None]: out of fuel. *)
Fixpoint buffered_init_next_write (fuel : nat) (b : buffered) : option buffered :=
  match fuel with
  | O => None
  | S fuel =>
      let n := read_ (calls (b_runner b)) (b_pos b) (request_size (b_runner b)) in
      let b := with_runner count_call b in
      match n with
      | sys_again => buffered_init_next_write fuel b
      | sys_error e => Some (with_runner (report (Some e)) b)
      | sys_bytes n =>
          if n =? 0 then Some (with_runner (report (Some asio_eof)) b)
          else if async_write (calls (b_runner b)) then
            Some (mk_buffered (set_waiting true (b_runner b)) (b_pos b + n) (slice (b_pos b) n file))
          else Some (with_runner (report (Some async_write_call_failed)) b)
      end
  end.

Definition buffered_start (fuel : nat) (sf : sendfile_t) : option buffered :=
  let b := mk_buffered (new_runner sf) (sf_offset sf) [] in
  match lseek (sf_offset sf) with
  | Some e => Some (with_runner (report (Some e)) b)
  | None => buffered_init_next_write fuel b
  end.

(** The buffer was written, or some of it before an error. *)
Inductive write_outcome := all_written | write_error (errno : Z) (written : nat).

Definition written_from_buffer (octets : list byte) (r : runner) : runner :=
  mk_runner (m_next_write_offset r) (m_remained_size r) (m_transfered_size r) (m_chunk_size r) (sock r ++ octets)
    (reports r) (waiting r) (calls r).

Definition count_written (n : Z) (r : runner) : runner :=
  mk_runner (m_next_write_offset r) (m_remained_size r - n) (m_transfered_size r + n) (m_chunk_size r) (sock r)
    (reports r) (waiting r) (calls r).

Definition on_buffer_written (fuel : nat) (o : write_outcome) (b : buffered) : option buffered :=
  let b := with_runner (set_waiting false) b in
  match o with
  | all_written =>
      let written := Z.of_nat (length (b_buffer b)) in
      let r := count_written written (written_from_buffer (b_buffer b) (b_runner b)) in
      let b := mk_buffered r (b_pos b) [] in
      if m_remained_size r =? 0 then Some (with_runner (report None) b) else buffered_init_next_write fuel b
  | write_error e k =>
      Some (with_runner (fun r => report (Some e) (written_from_buffer (take k (b_buffer b)) r)) b)
  end.

Fixpoint buffered_drive (fuel : nat) (evs : list write_outcome) (b : buffered) : option buffered :=
  match evs with
  | [] => Some b
  | o :: evs =>
      if waiting (b_runner b) then b ← on_buffer_written fuel o b; buffered_drive fuel evs b else Some b
  end.

Definition buffered_run (fuel : nat) (sf : sendfile_t) (evs : list write_outcome) : option buffered :=
  b ← buffered_start fuel sf;
  buffered_drive fuel evs b.

End Buffered.

(** read(2): no more than asked for and than the file has, and not interrupted
    [interrupts] times in a row. *)
Class ReaderLaws (R : Reader) (file : list byte) (interrupts : nat) : Prop := {
  read_bytes k pos count n :
    0 <= count -> read_ k pos count = sys_bytes n ->
    0 <= n <= count /\ (0 <= pos <= Z.of_nat (length file) -> pos + n <= Z.of_nat (length file));
  read_ends k pos count : exists j, (j < interrupts)%nat /\ read_ (k + j) pos count <> sys_again
}.

Section BufferedSent.
Context {R : Reader} (file : list byte) (interrupts : nat) {RL : ReaderLaws R file interrupts}.
Context (sf : sendfile_t) (Hsf : sendfile_ok sf) (Hfile : sf_offset sf + sf_size sf <= Z.of_nat (length file)).

(** The transfer, when the buffer is empty. *)
Record between (b : buffered) : Prop := {
  bt_remained : 0 < m_remained_size (b_runner b);
  bt_total : m_transfered_size (b_runner b) + m_remained_size (b_runner b) = sf_size sf;
  bt_transfered : 0 <= m_transfered_size (b_runner b);
  bt_chunk : 0 < m_chunk_size (b_runner b);
  bt_pos : b_pos b = sf_offset sf + m_transfered_size (b_runner b);
  bt_sock : sock (b_runner b) = slice (sf_offset sf) (m_transfered_size (b_runner b)) file;
  bt_reports : reports (b_runner b) = [];
  bt_waiting : waiting (b_runner b) = false
}.

(** A buffer is being written. *)
Record filled (b : buffered) : Prop := {
  fl_some : b_buffer b <> [];
  fl_fits : Z.of_nat (length (b_buffer b)) <= m_remained_size (b_runner b);
  fl_buffer : b_buffer b
    = slice (sf_offset sf + m_transfered_size (b_runner b)) (Z.of_nat (length (b_buffer b))) file;
  fl_rest : between (mk_buffered (set_waiting false (b_runner b)) (b_pos b - Z.of_nat (length (b_buffer b))) [])
}.

(** It is over. *)
Record over (b : buffered) : Prop := {
  ov_waiting : waiting (b_runner b) = false;
  ov_count : 0 <= m_transfered_size (b_runner b) <= sf_size sf;
  ov_report : exists ec, reports (b_runner b) = [(ec, m_transfered_size (b_runner b))] /\
    (ec = None -> m_transfered_size (b_runner b) = sf_size sf /\
       sock (b_runner b) = slice (sf_offset sf) (sf_size sf) file);
  ov_sock : exists rest, sock (b_runner b) = slice (sf_offset sf) (m_transfered_size (b_runner b)) file ++ rest
}.

Definition going (b : buffered) : Prop := waiting (b_runner b) = true /\ filled b \/ over b.

Lemma over_error e b : between b -> over (with_runner (report (Some e)) b).
Proof.
  intros [H1 H2 H3 _ _ H5 H6 H7]. split; simpl; [done|lia| |].
  - exists (Some e). by rewrite H6.
  - exists []. by rewrite app_nil_r.
Qed.

Lemma length_slice offset n : 0 <= n -> 0 <= offset -> offset + n <= Z.of_nat (length file) ->
  Z.of_nat (length (slice offset n file)) = n.
Proof. intros. unfold slice. rewrite length_take, length_drop. lia. Qed.

Lemma buffered_next fuel b :
  between b -> (exists j, (j < fuel)%nat /\ read_ (calls (b_runner b) + j) (b_pos b) (request_size (b_runner b)) <> sys_again) ->
  exists b', buffered_init_next_write file fuel b = Some b' /\ going b'.
Proof using Hfile Hsf RL.
  revert b. induction fuel as [|fuel IH]; intros b Hb (j & Hj & Hread); [lia|]. cbn [buffered_init_next_write].
  assert (Hb' : between (with_runner count_call b)) by (destruct Hb; by split). pose proof Hsf as [Ho _ _ _ _].
  destruct (read_ (calls (b_runner b)) (b_pos b) (request_size (b_runner b))) as [n| |e] eqn:E.
  - destruct Hb as [H1 H2 H3 H4 H5 H6 H7 H8].
    assert (Hrq : 0 <= request_size (b_runner b)) by (unfold request_size; lia).
    destruct (read_bytes _ _ _ _ Hrq E) as [Hn Hend]. unfold request_size in Hn.
    destruct (Z.eqb_spec n 0) as [->|Hn0]; [eexists; split; [done|]; right; by apply over_error|].
    destruct (async_write _); [|eexists; split; [done|]; right; by apply over_error].
    eexists. split; [done|]. left. split; [done|].
    assert (Hlen : Z.of_nat (length (slice (b_pos b) n file)) = n) by (apply length_slice; lia).
    split; cbn [b_buffer b_runner b_pos set_waiting with_runner count_call m_remained_size m_transfered_size].
    + intros Hnil. rewrite Hnil in Hlen. simpl in Hlen. lia.
    + lia.
    + rewrite Hlen. by rewrite H5.
    + rewrite Hlen. split; simpl; try done; try lia.
  - destruct j as [|j]; [by rewrite Nat.add_0_r in Hread|].
    apply IH; [done|]. exists j. split; [lia|]. simpl. by rewrite Nat.add_succ_r in Hread.
  - eexists. split; [done|]. right. by apply over_error.
Qed.

Lemma buffered_next_fine b : between b -> exists b', buffered_init_next_write file interrupts b = Some b' /\ going b'.
Proof using Hfile Hsf RL. intros Hb. apply buffered_next; [done|]. apply (read_ends (R := R) (file := file)). Qed.

(** What the write of a buffer leaves. *)
Definition buffer_written (b : buffered) : buffered :=
  mk_buffered (count_written (Z.of_nat (length (b_buffer b))) (written_from_buffer (b_buffer b) (set_waiting false (b_runner b)))) (b_pos b) [].

Lemma filled_written b :
  filled b ->
  if m_remained_size (b_runner (buffer_written b)) =? 0 then over (with_runner (report None) (buffer_written b))
  else between (buffer_written b).
Proof using Hsf.
  intros [Hf1 Hf2 Hf3 [H1 H2 H3 H4 H5 H6 H7 H8]]. simpl in *. pose proof Hsf as [Ho _ _ _ _].
  set (n := Z.of_nat (length (b_buffer b))) in *.
  assert (Hsock : sock (b_runner b) ++ b_buffer b = slice (sf_offset sf) (m_transfered_size (b_runner b) + n) file).
  { rewrite H6, Hf3. apply slice_app; lia. }
  destruct (Z.eqb_spec (m_remained_size (b_runner b) - n) 0) as [E|E].
  - assert (Et : m_transfered_size (b_runner b) + n = sf_size sf) by lia. split; simpl; fold n; [done|lia| |].
    + exists None. rewrite H7. split; [done|]. intros _. by rewrite Hsock, Et.
    + exists []. by rewrite app_nil_r.
  - split; simpl; fold n; try done; try lia.
Qed.

Lemma filled_error e k b :
  filled b -> over (with_runner (fun r => report (Some e) (written_from_buffer (take k (b_buffer b)) r)) (with_runner (set_waiting false) b)).
Proof.
  intros [_ Hf2 _ [H1 H2 H3 H4 H5 H6 H7 H8]]. simpl in *. split; simpl; [done|lia| |].
  - exists (Some e). by rewrite H7.
  - exists (take k (b_buffer b)). by rewrite H6.
Qed.

Lemma on_buffer_written_going o b :
  waiting (b_runner b) = true -> filled b -> exists b', on_buffer_written file interrupts o b = Some b' /\ going b'.
Proof using Hfile Hsf RL.
  intros Hw Hf. destruct o as [|e k]; cbn [on_buffer_written].
  - pose proof (filled_written b Hf) as Hb. unfold buffer_written in Hb. cbn [b_runner b_pos] in Hb.
    cbn [with_runner b_buffer b_runner b_pos]. destruct (_ =? 0); [|by apply buffered_next_fine].
    eexists. split; [done|]. by right.
  - eexists. split; [done|]. right. exact (filled_error e k b Hf).
Qed.

Lemma buffered_drive_going evs b : going b -> exists b', buffered_drive file interrupts evs b = Some b' /\ going b'.
Proof using Hfile Hsf RL.
  revert b. induction evs as [|o evs IH]; intros b Hg; cbn [buffered_drive]; [by exists b|].
  destruct (waiting (b_runner b)) eqn:Ew; [|by exists b]. destruct Hg as [[_ Hf]|Hov]; [|by destruct Hov; congruence].
  destruct (on_buffer_written_going o b Ew Hf) as (b' & -> & Hg'). simpl. by apply IH.
Qed.

End BufferedSent.

(** What the states of a transfer mean for the client. *)
Lemma going_sent file sf b :
  going file sf b ->
  (exists rest, sock (b_runner b) = slice (sf_offset sf) (m_transfered_size (b_runner b)) file ++ rest) /\
  (reports (b_runner b) = [] \/ exists ec, reports (b_runner b) = [(ec, m_transfered_size (b_runner b))] /\
     (ec = None -> sock (b_runner b) = slice (sf_offset sf) (sf_size sf) file)).
Proof.
  intros [[Hw [_ _ _ [_ _ _ _ _ H6 H7 _]]]|[_ _ (ec & He & Hok) Hrest]]; simpl in *.
  - split; [exists []; by rewrite app_nil_r|by left].
  - split; [done|]. right. exists ec. split; [done|]. intros Hn. by destruct (Hok Hn).
Qed.

Lemma between_new file sf : sendfile_ok sf -> 0 < sf_size sf -> between file sf (mk_buffered (new_runner sf) (sf_offset sf) []).
Proof. intros [? ? ? ? ?] Hpos. split; simpl; try done; lia. Qed.

(** The same for the runner that reads into a buffer: it reports at most once; when
    it reports success the socket was given exactly the piece; whatever it reports,
    what it counts are the first octets of the piece. *)
Theorem buffered_sends_piece {R : Reader} (file : list byte) (interrupts : nat) {RL : ReaderLaws R file interrupts}
    (sf : sendfile_t) (evs : list write_outcome) :
  sendfile_ok sf -> 0 < sf_size sf -> sf_offset sf + sf_size sf <= Z.of_nat (length file) ->
  exists b, buffered_run file interrupts sf evs = Some b /\
    (exists rest, sock (b_runner b) = slice (sf_offset sf) (m_transfered_size (b_runner b)) file ++ rest) /\
    (reports (b_runner b) = [] \/ exists ec, reports (b_runner b) = [(ec, m_transfered_size (b_runner b))] /\
       (ec = None -> sock (b_runner b) = slice (sf_offset sf) (sf_size sf) file)).
Proof.
  intros Hsf Hpos Hfile. unfold buffered_run, buffered_start. pose proof (between_new file sf Hsf Hpos) as Hb.
  assert (Hstart : exists b, (match lseek (sf_offset sf) with
    | Some e => Some (with_runner (report (Some e)) (mk_buffered (new_runner sf) (sf_offset sf) []))
    | None => buffered_init_next_write file interrupts (mk_buffered (new_runner sf) (sf_offset sf) []) end) = Some b /\
    going file sf b).
  { destruct (lseek (sf_offset sf)) as [e|]; [|by apply buffered_next_fine].
    eexists. split; [done|]. right. by apply over_error. }
  destruct Hstart as (b0 & -> & Hg0). simpl.
  destruct (buffered_drive_going file interrupts sf Hsf Hfile evs b0 Hg0) as (b & -> & Hg). exists b. split; [done|]. by apply going_sent.
Qed.

End SendfileRunner.
