(* ===== verification/SendfileDefault.v ===== *)
(** * Sending a file through the C library

    Model of src/web/restinio/restinio/impl/sendfile_operation_default.ipp and
    sendfile_defs_default.hpp: the runner and the file operations for platforms that are
    neither Windows nor POSIX, over std::FILE.  The C library is the class [Stdio].

    A piece that lies inside the file is sent as by the other runners ([SendfileRunner]).
    A failure, however, is reported with the value of std::ferror: a file that has become
    shorter, or a position that cannot be reached, counts as success. *)

From S2P Require Import Prelude Sendfile SendfileRunner.

Module SendfileDefault.
Import Sendfile(sendfile_t, sf_offset, sf_size, sf_chunk_size, sendfile_ok, mk_sendfile).
Import SendfileRunner.

(** std::fseek to the end and elsewhere, std::ftell there, the number of octets std::fread
    reads (of the call, the position, the size), std::ferror after so many calls, std::fopen,
    and whether [asio_ns::async_write] starts. *)
Class Stdio := {
  fopen : list byte -> option Z;
  fseek_end : Z -> bool;
  ftell_end : Z -> Z;
  fseek : Z -> bool;                                (* false: it fails *)
  fread : nat -> Z -> Z -> Z;
  ferror : nat -> Z;
  write_starts : nat -> bool
}.

(** ** Files *)

Section Files.
Context {C : Stdio}.

Definition default_open_file (path : list byte) : outcome Z :=
  match fopen path with None => Throw "std::fopen failed" | Some f => Ok f end.

(** The size; the time of the last modification is the current one.  [None] is the null
    descriptor. *)
Definition default_get_file_meta (fd : option Z) : outcome Z :=
  match fd with
  | None => Ok 0
  | Some f =>
      if fseek_end f then
        let end_pos := ftell_end f in
        if end_pos =? -1 then Throw "std::ftell failed" else Ok (wrap 64 end_pos)
      else Throw "std::fseek failed"
  end.

End Files.

(** ** The runner *)

(** [make_error_code]: an error code of value 0 is no error. *)
Definition make_error_code (e : Z) : option Z := if e =? 0 then None else Some e.

Section Runner.
Context {C : Stdio} (file : list byte).

Definition default_init_next_write (b : buffered) : buffered :=
  let desired_size := request_size (b_runner b) in
  let n := fread (calls (b_runner b)) (b_pos b) desired_size in
  let b := with_runner count_call b in
  if negb (desired_size =? n) then with_runner (report (make_error_code (ferror (calls (b_runner b))))) b
  else if write_starts (calls (b_runner b)) then
    mk_buffered (set_waiting true (b_runner b)) (b_pos b + n) (slice (b_pos b) desired_size file)
  else with_runner (report (Some async_write_call_failed)) b.

Definition default_start (sf : sendfile_t) : buffered :=
  let b := mk_buffered (new_runner sf) (sf_offset sf) [] in
  if fseek (sf_offset sf) then default_init_next_write b
  else with_runner (report (make_error_code (ferror 0))) b.

(** The handler of the write. *)
Definition default_written (o : write_outcome) (b : buffered) : buffered :=
  match o with
  | all_written =>
      let b := buffer_written b in
      if m_remained_size (b_runner b) =? 0 then with_runner (report None) b else default_init_next_write b
  | write_error e k =>
      with_runner (fun r => report (Some e) (written_from_buffer (take k (b_buffer b)) r)) (with_runner (set_waiting false) b)
  end.

Fixpoint default_drive (evs : list write_outcome) (b : buffered) : buffered :=
  match evs with
  | [] => b
  | o :: evs => if waiting (b_runner b) then default_drive evs (default_written o b) else b
  end.

Definition default_run (sf : sendfile_t) (evs : list write_outcome) : buffered := default_drive evs (default_start sf).

End Runner.

(** The C standard: std::fread reads what is there, and less than asked for only at the end
    of the file or with an error, which sets the indicator. *)
Class StdioLaws (C : Stdio) (file : list byte) : Prop := {
  fread_range k pos count : 0 <= count -> 0 <= fread k pos count <= count;
  fread_inside k pos count :
    0 <= pos -> pos + count <= Z.of_nat (length file) -> fread k pos count < count -> ferror (S k) <> 0
}.

(** ** A piece inside the file *)

Section Sent.
Context {C : Stdio} (file : list byte) {CL : StdioLaws C file}.
Context (sf : sendfile_t) (Hsf : sendfile_ok sf) (Hfile : sf_offset sf + sf_size sf <= Z.of_nat (length file)).

Lemma default_next b : between file sf b -> going file sf (default_init_next_write file b).
Proof using Hfile Hsf CL.
  intros Hb. unfold default_init_next_write. assert (Hb' : between file sf (with_runner count_call b)) by (destruct Hb; by split).
  pose proof Hsf as [Ho _ _ _ _]. pose proof Hb as [H1 H2 H3 H4 H5 H6 H7 H8].
  assert (Hrq : 0 < request_size (b_runner b) <= m_remained_size (b_runner b)) by (unfold request_size; lia).
  set (n := request_size (b_runner b)) in *.
  pose proof (fread_range (file := file) (calls (b_runner b)) (b_pos b) n ltac:(lia)) as Hr.
  destruct (Z.eqb_spec n (fread (calls (b_runner b)) (b_pos b) n)) as [E|E]; cbn [negb].
  - rewrite <- E. destruct (write_starts _); [|right; by apply over_error]. left. split; [done|].
    assert (Hlen : Z.of_nat (length (slice (b_pos b) n file)) = n) by (apply length_slice; lia).
    split; cbn [b_buffer b_runner b_pos set_waiting with_runner count_call m_remained_size m_transfered_size].
    + intros Hnil. rewrite Hnil in Hlen. simpl in Hlen. lia.
    + lia.
    + rewrite Hlen. by rewrite H5.
    + rewrite Hlen. split; simpl; try done; try lia.
  - right. assert (Hlt : fread (calls (b_runner b)) (b_pos b) n < n) by lia.
    pose proof (fread_inside (file := file) (calls (b_runner b)) (b_pos b) n ltac:(lia) ltac:(lia) Hlt) as He.
    unfold make_error_code. cbn [with_runner b_runner calls count_call].
    rewrite (proj2 (Z.eqb_neq _ _) He). by apply over_error.
Qed.

Lemma default_written_going o b :
  waiting (b_runner b) = true -> filled file sf b -> going file sf (default_written file o b).
Proof using Hfile Hsf CL.
  intros Hw Hf. destruct o as [|e k]; cbn [default_written].
  - pose proof (filled_written file sf Hsf b Hf) as Hb. destruct (_ =? 0); [by right|by apply default_next].
  - right. exact (filled_error file sf e k b Hf).
Qed.

Lemma default_drive_going evs b : going file sf b -> going file sf (default_drive file evs b).
Proof using Hfile Hsf CL.
  revert b. induction evs as [|o evs IH]; intros b Hg; cbn [default_drive]; [done|].
  destruct (waiting (b_runner b)) eqn:Ew; [|done]. destruct Hg as [[_ Hf]|Hov]; [|by destruct Hov; congruence].
  by apply IH, default_written_going.
Qed.

End Sent.

(** The runner over the C library sends a piece that lies inside the file as the others do:
    the octets it counts are the first ones of the piece, it reports at most once, and when
    it reports success the socket was given exactly the piece. *)
Theorem default_sends_piece {C : Stdio} (file : list byte) {CL : StdioLaws C file} (sf : sendfile_t) (evs : list write_outcome) :
  sendfile_ok sf -> 0 < sf_size sf -> sf_offset sf + sf_size sf <= Z.of_nat (length file) ->
  fseek (sf_offset sf) = true ->
  let b := default_run file sf evs in
  (exists rest, sock (b_runner b) = slice (sf_offset sf) (m_transfered_size (b_runner b)) file ++ rest) /\
  (reports (b_runner b) = [] \/ exists ec, reports (b_runner b) = [(ec, m_transfered_size (b_runner b))] /\
     (ec = None -> sock (b_runner b) = slice (sf_offset sf) (sf_size sf) file)).
Proof.
  intros Hsf Hpos Hfile Hseek b. apply going_sent. unfold b, default_run, default_start. rewrite Hseek.
  apply default_drive_going; [done..|]. apply default_next; [done..|]. by apply between_new.
Qed.

(** ** Failures that count as success *)

(** A C library over a file of its contents: reads what is there, without errors. *)
Definition plain_stdio (file : list byte) (seekable : bool) : Stdio := {|
  fopen _ := Some 3;
  fseek_end _ := true;
  ftell_end _ := Z.of_nat (length file);
  fseek _ := seekable;
  fread _ pos count := Z.max 0 (Z.min count (Z.of_nat (length file) - pos));
  ferror _ := 0;
  write_starts _ := true
|}.

#[export] Instance plain_stdio_laws file seekable : StdioLaws (plain_stdio file seekable) file.
Proof. split; cbn [fread ferror plain_stdio]; lia. Qed.

(** A file that has become shorter than the piece: success is reported with nothing sent. *)
Lemma truncated_file_is_success :
  let b := default_run (C := plain_stdio (bs "0123") true) (bs "0123") (mk_sendfile 3 20 0 2 8 5 0) [] in
  reports (b_runner b) = [(None, 0)] /\ sock (b_runner b) = [].
Proof. vm_compute. by split. Qed.

(** So it is when the position cannot be reached. *)
Lemma failed_fseek_is_success file sf evs :
  let b := default_run (C := plain_stdio file false) file sf evs in
  reports (b_runner b) = [(None, 0)] /\ sock (b_runner b) = [].
Proof. destruct evs; done. Qed.

(** The two runners with a buffer agree on a file that is there. *)
Lemma default_example :
  let b := default_run (C := plain_stdio sample_file true) sample_file sample_sendfile [all_written; all_written; all_written] in
  reports (b_runner b) = [(None, 11)] /\ sock (b_runner b) = bs "456789abcde".
Proof. vm_compute. by split. Qed.

End SendfileDefault.
