(* ===== verification/SyncChain.v ===== *)
(** * Chains of handlers, and requests

    Model of src/web/restinio/restinio/sync_chain/fixed_size.hpp and
    sync_chain/growable_size.hpp, and of the part of [generic_request_t]
    (request_handler.hpp) that gives the connection to a response builder.

    A handler is a stateful function that may throw: a value of the monad of
    [Effects] over whatever state the handlers share. *)

From S2P Require Import Prelude Effects.

Module SyncChain.
Import Effects.
Open Scope effects_scope.

Inductive request_handling_status_t := accepted | rejected | not_handled.

Section Chain.
Context {S Req : Type}.

Definition handler_t : Type := Req -> M S request_handling_status_t.

(** ** fixed_size_chain_t *)

(** [store_to< Index >], for a pack of handlers and an array. *)
Fixpoint store_to (index : nat) (handlers m_handlers : list handler_t) : list handler_t :=
  match handlers with
  | [] => m_handlers
  | head :: tail => store_to (index + 1) tail (<[index := head]> m_handlers)
  end.

(** The array is filled with empty functions first. *)
Definition fixed_size_chain (empty : handler_t) (handlers : list handler_t) : list handler_t :=
  store_to 0 handlers (repeat empty (length handlers)).

(** [operator()] *)
Fixpoint chain_call (m_handlers : list handler_t) (req : Req) : M S request_handling_status_t :=
  match m_handlers with
  | [] => ret not_handled
  | h :: m_handlers =>
      do result <- h req;
      match result with
      | accepted | rejected => ret result
      | not_handled => chain_call m_handlers req
      end
  end.

(** ** growable_size_chain_t::builder_t *)

(** [None]: the chain was released. *)
Definition builder_t : Type := option (list handler_t).

Definition new_builder : builder_t := Some [].

Definition release (b : builder_t) : builder_t * option (list handler_t) := (None, b).

Definition add (h : handler_t) (b : builder_t) : outcome builder_t :=
  match b with
  | None => Throw "an attempt to add a handler to a growable-size-chain builder that already released"
  | Some m_handlers => Ok (Some (m_handlers ++ [h]))
  end.

Fixpoint add_all (hs : list handler_t) (b : builder_t) : outcome builder_t :=
  match hs with [] => Ok b | h :: hs => let? b := add h b in add_all hs b end.

(** ** Laws *)

Lemma store_to_spec pre hs rest :
  length rest = length hs -> store_to (length pre) hs (pre ++ rest) = pre ++ hs.
Proof.
  revert pre rest. induction hs as [|h hs IH]; intros pre rest Hl; [by destruct rest|].
  destruct rest as [|x rest]; [done|]. cbn [store_to]. rewrite <- (Nat.add_0_r (length pre)) at 2.
  rewrite insert_app_r. cbn [insert list_insert]. rewrite (cons_middle h pre rest), app_assoc.
  rewrite Nat.add_1_r, <- (last_length pre h). rewrite IH by (simpl in Hl; lia). by rewrite <- app_assoc.
Qed.

(** Every handler is in its place. *)
Lemma fixed_size_chain_handlers empty hs : fixed_size_chain empty hs = hs.
Proof. apply (store_to_spec [] hs). by rewrite repeat_length. Qed.

Lemma add_all_spec hs pre : add_all hs (Some pre) = Ok (Some (pre ++ hs)).
Proof.
  revert pre. induction hs as [|h hs IH]; intros pre; simpl; [by rewrite app_nil_r|]. by rewrite IH, <- app_assoc.
Qed.

(** The chain of two lists of handlers: the second is asked when the first does not
    handle the request, in the state the first has left. *)
Lemma chain_call_app hs hs' req s :
  chain_call (hs ++ hs') req s
  = match chain_call hs req s with Ret not_handled s => chain_call hs' req s | r => r end.
Proof.
  revert s. induction hs as [|h hs IH]; intros s; [done|]. cbn [app chain_call]. unfold bind at 1 2.
  destruct (h req s) as [[] s'|s'|s'| | |]; try done; apply IH.
Qed.

(** Both kinds of chains run their handlers in the order in which they were given
    until one accepts or rejects the request or throws; the handlers behind it are
    not run.  When none does, the request is not handled. *)
Theorem chains_agree empty hs req s :
  exists b, add_all hs new_builder = Ok b /\
    match release b with
    | (None, Some chain) =>
        chain_call chain req s = chain_call (fixed_size_chain empty hs) req s /\
        (forall h, is_ok (add h (fst (release b))) = false)
    | _ => False
    end.
Proof.
  exists (Some hs). split; [apply (add_all_spec hs [])|]. simpl. by rewrite fixed_size_chain_handlers.
Qed.

(** The first handler that does not say [not_handled] decides. *)
Theorem chain_first_decides before h after req s s' r s'' :
  chain_call before req s = Ret not_handled s' -> h req s' = Ret r s'' -> r <> not_handled ->
  chain_call (before ++ h :: after) req s = Ret r s''.
Proof.
  intros Hb Hh Hr. rewrite chain_call_app, Hb. cbn [chain_call]. unfold bind. rewrite Hh. by destruct r.
Qed.

End Chain.

(** A handler that counts its calls and answers the same every time. *)
Definition counting (r : request_handling_status_t) : @handler_t nat unit := fun _ n => Ret r (n + 1)%nat.

Lemma chain_first_decides_witness :
  chain_call ([counting not_handled; counting not_handled] ++ counting rejected :: [counting accepted]) tt 0%nat
  = Ret rejected 3%nat.
Proof.
  apply (chain_first_decides [counting not_handled; counting not_handled] (counting rejected) [counting accepted]
    tt 0%nat 2%nat rejected 3%nat); [reflexivity|reflexivity|discriminate].
Defined.

(** ** The connection of a request *)

(** [m_connection] of [generic_request_t]: whether the handle is still there. *)
Definition check_connection (m_connection : bool) : outcome unit :=
  if m_connection then Ok tt else Throw "connection already moved".

(** The handle goes to the builder with the identifier and the keep-alive flag of
    the request. *)
Definition create_response {B : Type} (builder : Z -> bool -> B) (request_id : Z) (keep_alive m_connection : bool)
  : outcome (B * bool) :=
  let? _ := check_connection m_connection in
  Ok (builder request_id keep_alive, false).

(** One response can be made for a request. *)
Lemma one_response {B} (builder : Z -> bool -> B) id keep b c :
  create_response builder id keep true = Ok (b, c) ->
  b = builder id keep /\ create_response builder id keep c = Throw "connection already moved".
Proof. by intros [= <- <-]. Qed.

End SyncChain.
