(* ===== verification/Zlib.v ===== *)
(** * The zlib transformer

    Model of src/web/restinio/restinio/transforms/zlib.hpp: the parameters
    [params_t] (Module [Params]), the transformer [zlib_t] with its output buffer and
    the two loops around deflate() and inflate() (Module [Zlib]), and the functions
    that do a transformation in one call.

    zlib itself is the class [ZlibApi].  Allocation succeeds; the text of an
    exception of [zlib_t] is left out.  The width of [uInt], to which the size of
    the output space is narrowed, is kept. *)

From S2P Require Import Prelude Effects.

Module Params.

Inductive operation_t := compress | decompress.
Inductive format_t := deflate | gzip | identity.

#[export] Instance operation_t_eq_dec : EqDecision operation_t.
Proof. solve_decision. Defined.
#[export] Instance format_t_eq_dec : EqDecision format_t.
Proof. solve_decision. Defined.

(** Constants of zlib.h. *)
Definition MAX_WBITS : Z := 15.
Definition MAX_MEM_LEVEL : Z := 9.
Definition Z_FILTERED : Z := 1.
Definition Z_HUFFMAN_ONLY : Z := 2.
Definition Z_RLE : Z := 3.
Definition Z_DEFAULT_STRATEGY : Z := 0.

Definition default_output_reserve_buffer_size : Z := 256 * 1024.
Definition default_window_bits : Z := MAX_WBITS.
Definition default_mem_level : Z := MAX_MEM_LEVEL.
Definition default_strategy : Z := Z_DEFAULT_STRATEGY.

Record params_t := mk_params {
  m_operation : operation_t;
  m_format : format_t;
  m_level : Z;
  m_window_bits : Z;
  m_mem_level : Z;
  m_strategy : Z;
  m_reserve_buffer_size : Z
}.

Definition set_level (level_value : Z) (p : params_t) : outcome params_t :=
  if (level_value <? -1) || (level_value >? 9) then Throw "invalid compression level"
  else Ok (mk_params (m_operation p) (m_format p) level_value (m_window_bits p) (m_mem_level p) (m_strategy p)
             (m_reserve_buffer_size p)).

Definition set_window_bits (window_bits_value : Z) (p : params_t) : outcome params_t :=
  if ((window_bits_value <? 8) || (window_bits_value >? MAX_WBITS))
     && (negb (0 =? window_bits_value) || negb (bool_decide (decompress = m_operation p)))
  then Throw "invalid window_bits"
  else
    let window_bits_value := if 8 =? window_bits_value then 9 else window_bits_value in
    Ok (mk_params (m_operation p) (m_format p) (m_level p) window_bits_value (m_mem_level p) (m_strategy p)
          (m_reserve_buffer_size p)).

Definition set_mem_level (mem_level_value : Z) (p : params_t) : outcome params_t :=
  if (mem_level_value <? 1) || (mem_level_value >? MAX_MEM_LEVEL) then Throw "invalid compression mem_level"
  else Ok (mk_params (m_operation p) (m_format p) (m_level p) (m_window_bits p) mem_level_value (m_strategy p)
             (m_reserve_buffer_size p)).

Definition set_strategy (strategy_value : Z) (p : params_t) : outcome params_t :=
  if negb (Z_DEFAULT_STRATEGY =? strategy_value) && negb (Z_FILTERED =? strategy_value)
     && negb (Z_HUFFMAN_ONLY =? strategy_value) && negb (Z_RLE =? strategy_value)
  then Throw "invalid compression strategy"
  else Ok (mk_params (m_operation p) (m_format p) (m_level p) (m_window_bits p) (m_mem_level p) strategy_value
             (m_reserve_buffer_size p)).

Definition set_reserve_buffer_size (size : Z) (p : params_t) : outcome params_t :=
  if size <? 10 then Throw "too small reserve buffer size"
  else Ok (mk_params (m_operation p) (m_format p) (m_level p) (m_window_bits p) (m_mem_level p) (m_strategy p) size).

(** The constructor: the member initialisers, then [level( l )].  What [m_level] was
    before is not read. *)
Definition params (op : operation_t) (f : format_t) (l : Z) : outcome params_t :=
  set_level l
    (mk_params op f 0 default_window_bits default_mem_level default_strategy default_output_reserve_buffer_size).

Definition make_deflate_compress_params (compression_level : Z) : outcome params_t :=
  params compress deflate compression_level.
Definition make_deflate_decompress_params : outcome params_t := params decompress deflate (-1).
Definition make_gzip_compress_params (compression_level : Z) : outcome params_t :=
  params compress gzip compression_level.
Definition make_gzip_decompress_params : outcome params_t := params decompress gzip (-1).
Definition make_identity_params : outcome params_t := params compress identity (-1).

(** ** Reachable parameters *)

Inductive setter :=
| level_is (z : Z) | window_bits_is (z : Z) | mem_level_is (z : Z) | strategy_is (z : Z) | reserve_is (z : Z).

Definition apply_setter (s : setter) (p : params_t) : outcome params_t :=
  match s with
  | level_is z => set_level z p
  | window_bits_is z => set_window_bits z p
  | mem_level_is z => set_mem_level z p
  | strategy_is z => set_strategy z p
  | reserve_is z => set_reserve_buffer_size z p
  end.

(** A setter that throws leaves the object as it was. *)
Definition apply_setters (ss : list setter) (p : params_t) : params_t :=
  fold_left (fun p s => match apply_setter s p with Ok p => p | Throw _ => p end) ss p.

(** The values the documentation of the setters allows. *)
Definition params_ok (p : params_t) : Prop :=
  -1 <= m_level p <= 9 /\
  (9 <= m_window_bits p <= MAX_WBITS \/ m_window_bits p = 0 /\ m_operation p = decompress) /\
  1 <= m_mem_level p <= MAX_MEM_LEVEL /\
  m_strategy p ∈ [Z_DEFAULT_STRATEGY; Z_FILTERED; Z_HUFFMAN_ONLY; Z_RLE] /\
  10 <= m_reserve_buffer_size p.

(** Which values a setter takes. *)
Definition setter_allows (s : setter) (p : params_t) : Prop :=
  match s with
  | level_is z => -1 <= z <= 9
  | window_bits_is z => 8 <= z <= MAX_WBITS \/ z = 0 /\ m_operation p = decompress
  | mem_level_is z => 1 <= z <= MAX_MEM_LEVEL
  | strategy_is z => z ∈ [Z_DEFAULT_STRATEGY; Z_FILTERED; Z_HUFFMAN_ONLY; Z_RLE]
  | reserve_is z => 10 <= z
  end.

Lemma apply_setter_ok s p :
  params_ok p ->
  match apply_setter s p with
  | Ok p' => setter_allows s p /\ params_ok p' /\ m_operation p' = m_operation p /\ m_format p' = m_format p
  | Throw _ => ~ setter_allows s p
  end.
Proof.
  unfold params_ok, MAX_WBITS, MAX_MEM_LEVEL. intros (Hl & Hw & Hm & Hs & Hr).
  destruct s as [z|z|z|z|z]; cbn [apply_setter setter_allows];
    unfold set_level, set_window_bits, set_mem_level, set_strategy, set_reserve_buffer_size, MAX_WBITS, MAX_MEM_LEVEL,
      Z_DEFAULT_STRATEGY, Z_FILTERED, Z_HUFFMAN_ONLY, Z_RLE in *.
  - destruct (Z.ltb_spec z (-1)), (Z.gtb_spec z 9); simpl; split_and?; try lia; done.
  - destruct (Z.ltb_spec z 8), (Z.gtb_spec z 15), (Z.eqb_spec 0 z), (bool_decide_reflect (decompress = m_operation p)),
      (Z.eqb_spec 8 z); simpl; try lia; split_and?; try lia; try done; try (by left; lia); try (by right);
      intros [?|[? ?]]; try lia; congruence.
  - destruct (Z.ltb_spec z 1), (Z.gtb_spec z 9); simpl; split_and?; try lia; done.
  - rewrite !elem_of_cons, elem_of_nil in *.
    destruct (Z.eqb_spec 0 z), (Z.eqb_spec 1 z), (Z.eqb_spec 2 z), (Z.eqb_spec 3 z); simpl; split_and?;
      rewrite ?elem_of_cons, ?elem_of_nil; try lia; try done; lia.
  - destruct (Z.ltb_spec z 10); simpl; split_and?; try lia; done.
Qed.

Lemma apply_setters_ok ss p : params_ok p -> params_ok (apply_setters ss p).
Proof.
  revert p. induction ss as [|s ss IH]; intros p Hp; [done|]. apply IH.
  pose proof (apply_setter_ok s p Hp) as H. destruct (apply_setter s p); naive_solver.
Qed.

Lemma params_params_ok op f l p : params op f l = Ok p -> params_ok p /\ m_operation p = op /\ m_format p = f.
Proof.
  unfold params, set_level. destruct (Z.ltb_spec l (-1)), (Z.gtb_spec l 9); [done..|]. intros [= <-].
  unfold params_ok, MAX_WBITS, MAX_MEM_LEVEL, default_window_bits, default_mem_level, default_strategy,
    default_output_reserve_buffer_size, MAX_WBITS, MAX_MEM_LEVEL. simpl. split_and!; try done; try lia. apply elem_of_cons. by left.
Qed.

(** [impl::content_encoding_token] *)
Definition content_encoding_token (f : format_t) : list byte :=
  match f with deflate => bs "deflate" | gzip => bs "gzip" | identity => bs "identity" end.

End Params.

(** ** The transformer *)

Module Zlib.
Import Params Effects.
Open Scope effects_scope.

Definition Z_NO_FLUSH : Z := 0.
Definition Z_SYNC_FLUSH : Z := 2.
Definition Z_FINISH : Z := 4.
Definition Z_OK : Z := 0.
Definition Z_STREAM_END : Z := 1.
Definition Z_BUF_ERROR : Z := -5.

(** A call of deflate() or inflate(): its result, how far next_in moved, what was
    written from next_out on, and the stream afterwards. *)
Record zcall (S : Type) := mk_zcall { rc : Z; taken : nat; out : list byte; next : S }.
Arguments mk_zcall {S} _ _ _ _.
Arguments rc {S} _.
Arguments taken {S} _.
Arguments out {S} _.
Arguments next {S} _.

(** zlib: [z_stream] without the fields for input and output, which are arguments. *)
Class ZlibApi := {
  zstream : Type;
  deflateInit2 : Z -> Z -> Z -> Z -> Z * zstream;    (* level, windowBits, memLevel, strategy *)
  inflateInit2 : Z -> Z * zstream;                   (* windowBits *)
  deflate : Z -> list byte -> Z -> zstream -> zcall zstream;   (* flush, next_in, avail_out *)
  inflate : Z -> list byte -> Z -> zstream -> zcall zstream
}.

Section Transformer.
Context {Zl : ZlibApi}.

Record zlib_t := mk_zlib {
  m_params : params_t;
  m_zlib_stream : option zstream;    (* [None]: not initialised *)
  next_in : list byte;               (* the [avail_in] octets from [next_in] on *)
  avail_out : Z;
  m_out_buffer : list byte;
  m_write_pos : Z;
  m_operation_is_complete : bool
}.

Definition buffer_size (z : zlib_t) : Z := Z.of_nat (length (m_out_buffer z)).

Definition with_buffer (buf : list byte) (pos : Z) (z : zlib_t) : zlib_t :=
  mk_zlib (m_params z) (m_zlib_stream z) (next_in z) (avail_out z) buf pos (m_operation_is_complete z).
Definition with_input (input : list byte) (z : zlib_t) : zlib_t :=
  mk_zlib (m_params z) (m_zlib_stream z) input (avail_out z) (m_out_buffer z) (m_write_pos z)
    (m_operation_is_complete z).
Definition with_avail_out (n : Z) (z : zlib_t) : zlib_t :=
  mk_zlib (m_params z) (m_zlib_stream z) (next_in z) n (m_out_buffer z) (m_write_pos z) (m_operation_is_complete z).
Definition completed (z : zlib_t) : zlib_t :=
  mk_zlib (m_params z) (m_zlib_stream z) (next_in z) (avail_out z) (m_out_buffer z) (m_write_pos z) true.

Definition is_identity (z : zlib_t) : bool := bool_decide (identity = m_format (m_params z)).
Definition is_completed (z : zlib_t) : bool := m_operation_is_complete z.
Definition output_size (z : zlib_t) : Z := m_write_pos z.

(** [std::string::resize] *)
Definition resize (n : nat) (s : list byte) : list byte := take n s ++ replicate (n - length s) x00.

Definition enlarged (z : zlib_t) : zlib_t :=
  with_buffer (resize (Z.to_nat (buffer_size z + m_reserve_buffer_size (m_params z))) (m_out_buffer z))
    (m_write_pos z) z.
Definition inc_buffer : M zlib_t unit := upd enlarged.

Definition current_window_bits (p : params_t) : Z :=
  m_window_bits p + (if bool_decide (gzip = m_format p) then 16 else 0).

(** The constructor. *)
Definition construct (p : params_t) : outcome zlib_t :=
  let z := mk_zlib p None [] 0 [] 0 false in
  if is_identity z then Ok z
  else
    let '(init_result, s) :=
      match m_operation p with
      | compress => deflateInit2 (m_level p) (current_window_bits p) (m_mem_level p) (m_strategy p)
      | decompress => inflateInit2 (current_window_bits p)
      end in
    if negb (Z_OK =? init_result) then Throw "Failed to initialize zlib stream"
    else Ok (enlarged (mk_zlib p (Some s) [] 0 [] 0 false)).

(** The destructor: the stream it ends, if any. *)
Definition destruct_stream (z : zlib_t) : option operation_t :=
  _ ← m_zlib_stream z; Some (m_operation (m_params z)).

Definition ensure_operation_in_not_completed : M zlib_t unit :=
  do z <- gets id;
  if is_completed z then raise else ret tt.

Definition prepare_out_buffer : M zlib_t Z :=
  do z <- gets id;
  let provided_out_buffer_size := buffer_size z - m_write_pos z in
  upd (with_avail_out (wrap 32 provided_out_buffer_size));;
  ret provided_out_buffer_size.

(** A call into zlib with the fields of the stream: it writes into the buffer.  A call
    with a stream that was not initialised, or one that overruns the space it was
    given, is undefined. *)
Definition call_zlib (f : Z -> list byte -> Z -> zstream -> zcall zstream) (flush : Z) : M zlib_t Z := fun z =>
  match m_zlib_stream z with
  | None => Undef
  | Some s =>
      let r := f flush (next_in z) (avail_out z) s in
      let n := Z.of_nat (length (out r)) in
      if (avail_out z <? n) || (length (next_in z) <? taken r)%nat then Undef
      else
        let pos := Z.to_nat (m_write_pos z) in
        Ret (rc r)
          (mk_zlib (m_params z) (Some (next r)) (drop (taken r) (next_in z)) (avail_out z - n)
             (take pos (m_out_buffer z) ++ out r ++ drop (pos + length (out r)) (m_out_buffer z))
             (m_write_pos z) (m_operation_is_complete z))
  end.

(** The two loops differ in the call and in the results they take. *)
Definition compress_result_ok (flush operation_result : Z) : bool :=
  (Z_OK =? operation_result) || (Z_BUF_ERROR =? operation_result)
  || ((Z_STREAM_END =? operation_result) && (Z_FINISH =? flush)).
Definition decompress_result_ok (flush operation_result : Z) : bool :=
  (Z_OK =? operation_result) || (Z_BUF_ERROR =? operation_result) || (Z_STREAM_END =? operation_result).

Definition add_written (provided : Z) : M zlib_t unit :=
  upd (fun z => with_buffer (m_out_buffer z) (m_write_pos z + (provided - avail_out z)) z).

(** One round up to the decision whether to go on. *)
Definition write_round (call : Z -> list byte -> Z -> zstream -> zcall zstream) (result_ok : Z -> Z -> bool)
    (flush : Z) : M zlib_t bool :=
  do provided_out_buffer_size <- prepare_out_buffer;
  do operation_result <- call_zlib call flush;
  if negb (result_ok flush operation_result) then raise
  else
    add_written provided_out_buffer_size;;
    do z <- gets id;
    if (0 =? avail_out z) && negb (Z_STREAM_END =? operation_result) then inc_buffer;; ret true
    else ret (negb (match next_in z with [] => true | _ => false end)).

Fixpoint write_loop (rounds : nat) (call : Z -> list byte -> Z -> zstream -> zcall zstream)
    (result_ok : Z -> Z -> bool) (flush : Z) : M zlib_t unit :=
  match rounds with
  | O => deep
  | S rounds =>
      do again <- write_round call result_ok flush;
      if again then write_loop rounds call result_ok flush else ret tt
  end.

Definition write_compress_impl (rounds : nat) (flush : Z) : M zlib_t unit :=
  write_loop rounds deflate compress_result_ok flush.
Definition write_decompress_impl (rounds : nat) (flush : Z) : M zlib_t unit :=
  write_loop rounds inflate decompress_result_ok flush.

Definition write_impl (rounds : nat) (flush : Z) : M zlib_t unit :=
  do z <- gets id;
  match m_operation (m_params z) with
  | compress => write_compress_impl rounds flush
  | decompress => write_decompress_impl rounds flush
  end.

Definition write (rounds : nat) (input : list byte) : M zlib_t unit :=
  ensure_operation_in_not_completed;;
  do z <- gets id;
  if is_identity z then
    let buf := m_out_buffer z ++ input in
    upd (with_buffer buf (Z.of_nat (length buf)))
  else if 2 ^ 32 - 1 <? Z.of_nat (length input) then raise
  else if 0 <? Z.of_nat (length input) then upd (with_input input);; write_impl rounds Z_NO_FLUSH
  else ret tt.

Definition flush (rounds : nat) : M zlib_t unit :=
  ensure_operation_in_not_completed;;
  do z <- gets id;
  if is_identity z then ret tt else upd (with_input []);; write_impl rounds Z_SYNC_FLUSH.

Definition complete (rounds : nat) : M zlib_t unit :=
  ensure_operation_in_not_completed;;
  do z <- gets id;
  (if is_identity z then ret tt else upd (with_input []);; write_impl rounds Z_FINISH);;
  upd completed.

Definition giveaway_output : M zlib_t (list byte) :=
  do z <- gets id;
  let data_size := m_write_pos z in
  upd (with_buffer [] 0);;
  ret (resize (Z.to_nat data_size) (m_out_buffer z)).

(** ** Transformations in one call *)

(** What a function that owns its transformer gives: it returns, throws, or is
    still in its loop. *)
Inductive result := Value (s : list byte) | Exception | Undefined | Running.

Definition transform (rounds : nat) (input : list byte) (p : params_t) : result :=
  match construct p with
  | Throw _ => Exception
  | Ok z =>
      match (write rounds input;; complete rounds;; giveaway_output) z with
      | Ret s _ => Value s
      | Raise _ | RaiseOther _ | Terminate => Exception     (* only std::exceptions are thrown here *)
      | Undef => Undefined
      | Deep => Running
      end
  end.

Definition transform_with (rounds : nat) (input : list byte) (p : outcome params_t) : result :=
  match p with Ok p => transform rounds input p | Throw _ => Exception end.

Definition deflate_compress (rounds : nat) (input : list byte) (compression_level : Z) : result :=
  transform_with rounds input (make_deflate_compress_params compression_level).
Definition deflate_decompress (rounds : nat) (input : list byte) : result :=
  transform_with rounds input make_deflate_decompress_params.
Definition gzip_compress (rounds : nat) (input : list byte) (compression_level : Z) : result :=
  transform_with rounds input (make_gzip_compress_params compression_level).
Definition gzip_decompress (rounds : nat) (input : list byte) : result :=
  transform_with rounds input make_gzip_decompress_params.

End Transformer.

End Zlib.
