(* ===== verification/ZlibLaws.v ===== *)
(** * What zlib promises

    The behaviour of zlib that the transformer of [Zlib] relies on, as documented in
    src/web/restinio/restinio/third_party/zlib/zlib.h: streams of deflate() and of
    inflate() by what they have read and written so far ([deflating], [inflating], with
    the discipline of calls the documentation asks for), and the laws of the calls, the
    class [ZlibLaws].  Memory does not run out. *)

From S2P Require Import Prelude Effects Zlib.

Module ZlibLaws.
Import Params Zlib.

Definition gzip_bits (f : format_t) : Z := if bool_decide (gzip = f) then 16 else 0.

Definition flushes : list Z := [Z_NO_FLUSH; Z_SYNC_FLUSH; Z_FINISH].
Definition fine_results : list Z := [Z_OK; Z_BUF_ERROR; Z_STREAM_END].

Lemma flushes_all : Z_NO_FLUSH ∈ flushes /\ Z_SYNC_FLUSH ∈ flushes /\ Z_FINISH ∈ flushes.
Proof. unfold flushes. rewrite !elem_of_cons. tauto. Qed.

(** After a call of deflate(): any call may follow, or the same one has to follow with
    more space, or none. *)
Inductive phase := Free | Again (flush : Z) | Ended.

Section Streams.
Context {Zl : ZlibApi}.

Definition may (ph : phase) (flush : Z) (input : list byte) : Prop :=
  match ph with
  | Free => flush ∈ flushes
  | Again fl => flush = fl /\ (flush = Z_FINISH -> input = [])
  | Ended => False
  end.

(** Whether the call left no space. *)
Definition full (avail : Z) (r : zcall zstream) : bool := Z.of_nat (length (out r)) =? avail.

Definition phase_after (flush avail : Z) (r : zcall zstream) : phase :=
  if rc r =? Z_STREAM_END then Ended else if full avail r then Again flush else Free.

Definition uint (z : Z) : Prop := 0 <= z < 2 ^ 32.

(** A stream that compresses into format [f] with a window of [w] bits, has read [i]
    and has written [o]. *)
Inductive deflating (f : format_t) (w : Z) : phase -> zstream -> list byte -> list byte -> Prop :=
| deflating_init level mem_level strategy s :
    f <> identity -> -1 <= level <= 9 -> 9 <= w <= MAX_WBITS -> 1 <= mem_level <= MAX_MEM_LEVEL ->
    strategy ∈ [Z_DEFAULT_STRATEGY; Z_FILTERED; Z_HUFFMAN_ONLY; Z_RLE] ->
    deflateInit2 level (w + gzip_bits f) mem_level strategy = (Z_OK, s) ->
    deflating f w Free s [] []
| deflating_call ph s i o flush input avail :
    deflating f w ph s i o -> may ph flush input -> uint (Z.of_nat (length input)) -> uint avail ->
    let r := deflate flush input avail s in
    deflating f w (phase_after flush avail r) (next r) (i ++ take (taken r) input) (o ++ out r).

(** The same for a stream that decompresses; [w] may be zero, and inflate() has no rule
    about the order of calls. *)
Inductive inflating (f : format_t) (w : Z) : zstream -> list byte -> list byte -> Prop :=
| inflating_init s :
    f <> identity -> 9 <= w <= MAX_WBITS \/ w = 0 -> inflateInit2 (w + gzip_bits f) = (Z_OK, s) ->
    inflating f w s [] []
| inflating_call s i o flush input avail :
    inflating f w s i o -> flush ∈ flushes -> uint (Z.of_nat (length input)) -> uint avail ->
    let r := inflate flush input avail s in
    rc r ∈ fine_results ->
    inflating f w (next r) (i ++ take (taken r) input) (o ++ out r).

(** The part [room] of an input belongs to the compressed stream [c] of which [i] was
    read before, and [extra] comes after it. *)
Definition feeds (c i input room extra : list byte) : Prop :=
  exists more, c = i ++ room ++ more /\ input = room ++ extra /\ (extra = [] \/ more = []).

End Streams.

(** A format is given by what can be decoded from the beginning of a stream, and by
    which streams are complete; the latter with the window they need. *)
Class ZlibLaws (Zl : ZlibApi) := {
  decoded : format_t -> list byte -> list byte;
  is_stream : format_t -> Z -> list byte -> Prop;

  decoded_grows f w x y : is_stream f w (x ++ y) -> decoded f x `prefix_of` decoded f (x ++ y);

  deflate_init_ok f w level mem_level strategy :
    f <> identity -> -1 <= level <= 9 -> 9 <= w <= MAX_WBITS -> 1 <= mem_level <= MAX_MEM_LEVEL ->
    strategy ∈ [Z_DEFAULT_STRATEGY; Z_FILTERED; Z_HUFFMAN_ONLY; Z_RLE] ->
    exists s, deflateInit2 level (w + gzip_bits f) mem_level strategy = (Z_OK, s);

  deflate_bounds f w ph s i o flush input avail :
    deflating f w ph s i o -> may ph flush input -> uint (Z.of_nat (length input)) -> uint avail ->
    let r := deflate flush input avail s in
    (taken r <= length input)%nat /\ Z.of_nat (length (out r)) <= avail /\ rc r ∈ fine_results /\
    (rc r = Z_STREAM_END -> flush = Z_FINISH);

  (* It stops when the input is empty or the output is full; with space left a flush is
     complete and a stream is finished. *)
  deflate_with_space_left f w ph s i o flush input avail :
    deflating f w ph s i o -> may ph flush input -> uint (Z.of_nat (length input)) -> uint avail ->
    let r := deflate flush input avail s in
    full avail r = false ->
    taken r = length input /\
    (flush = Z_FINISH -> rc r = Z_STREAM_END) /\
    (flush = Z_SYNC_FLUSH -> decoded f (o ++ out r) = i ++ input);

  deflate_end f w ph s i o flush input avail :
    deflating f w ph s i o -> may ph flush input -> uint (Z.of_nat (length input)) -> uint avail ->
    let r := deflate flush input avail s in
    rc r = Z_STREAM_END ->
    taken r = length input /\ is_stream f w (o ++ out r) /\ decoded f (o ++ out r) = i ++ input;

  (* Calls with more than six octets of space come to an end. *)
  calls_left : zstream -> Z -> list byte -> nat;
  deflate_progress f w ph s i o flush input avail :
    deflating f w ph s i o -> may ph flush input -> uint (Z.of_nat (length input)) -> uint avail ->
    let r := deflate flush input avail s in
    6 < avail -> full avail r = true -> rc r <> Z_STREAM_END ->
    (calls_left (next r) flush (drop (taken r) input) < calls_left s flush input)%nat;

  inflate_init_ok f w :
    f <> identity -> 9 <= w <= MAX_WBITS \/ w = 0 -> exists s, inflateInit2 (w + gzip_bits f) = (Z_OK, s);

  (* On a stream whose window is not too large it reads as far as the stream goes and
     writes what can be decoded, as long as there is space; the end is reported there
     and nowhere else. *)
  inflate_stream f w w' c s i o flush input avail room extra :
    inflating f w' s i o -> is_stream f w c -> w' = 0 \/ w <= w' -> feeds c i input room extra ->
    flush ∈ flushes -> uint (Z.of_nat (length input)) -> uint avail ->
    let r := inflate flush input avail s in
    (taken r <= length room)%nat /\ Z.of_nat (length (out r)) <= avail /\ rc r ∈ fine_results /\
    o ++ out r `prefix_of` decoded f (i ++ take (taken r) room) /\
    (full avail r = false ->
       taken r = length room /\ o ++ out r = decoded f (i ++ room) /\ (i ++ room = c -> rc r = Z_STREAM_END)) /\
    (rc r = Z_STREAM_END -> i ++ take (taken r) room = c /\ o ++ out r = decoded f c)
}.

End ZlibLaws.
