(* ===== verification/ZlibTheory.v ===== *)
(** * Compression and decompression

    Theorems about the transformer of [Zlib] over any zlib that keeps [ZlibLaws]: what
    is taken out while compressing is, together, one stream that holds everything
    written; a decompressor returns what a stream holds, however the stream is cut.
    The loops end.  Two inputs the decompressor does not handle are here too: a stream
    that is cut short is accepted, and octets after the end of a stream keep it in its
    loop. *)

From S2P Require Import Prelude Effects Zlib ZlibLaws.

Module ZlibTheory.
Import Params Effects Zlib ZlibLaws.

#[local] Arguments Z.eqb : simpl never.
#[local] Arguments Z.sub : simpl never.
#[local] Arguments Z.add : simpl never.

Section Theory.
Context {Zl : ZlibApi} {ZL : ZlibLaws Zl}.

(** ** One round *)

Definition written (z : zlib_t) : list byte := take (Z.to_nat (m_write_pos z)) (m_out_buffer z).
Definition space (z : zlib_t) : Z := buffer_size z - m_write_pos z.

(** The size of a buffer must fit into [uInt]. *)
Definition narrow (p : params_t) : Prop := params_ok p /\ m_reserve_buffer_size p < 2 ^ 32.

Record fits (z : zlib_t) : Prop := {
  fits_params : narrow (m_params z);
  fits_pos : 0 <= m_write_pos z;
  fits_space : 0 <= space z <= m_reserve_buffer_size (m_params z)
}.

Lemma fits_written z : fits z -> Z.of_nat (length (written z)) = m_write_pos z.
Proof. intros [_ Hp Hs]. unfold written, space, buffer_size in *. rewrite length_take. lia. Qed.

Lemma enlarged_written z : fits z -> written (enlarged z) = written z.
Proof.
  intros [[(_ & _ & _ & _ & Hr) _] Hp Hs]. unfold written, enlarged, resize, space, buffer_size in *. simpl.
  rewrite take_app_le by (rewrite length_take; lia). rewrite take_take. f_equal. lia.
Qed.

Lemma enlarged_size z : narrow (m_params z) -> buffer_size (enlarged z) = buffer_size z + m_reserve_buffer_size (m_params z).
Proof.
  intros [(_ & _ & _ & _ & Hr) _]. unfold enlarged, resize, buffer_size. simpl.
  rewrite length_app, length_take, length_replicate. lia.
Qed.

(** What a round leaves behind, for a call that keeps to its space. *)
Record after_round (z : zlib_t) (r : zcall zstream) (z' : zlib_t) : Prop := {
  ar_params : m_params z' = m_params z;
  ar_stream : m_zlib_stream z' = Some (next r);
  ar_input : next_in z' = drop (taken r) (next_in z);
  ar_written : written z' = written z ++ out r;
  ar_fits : fits z';
  ar_complete : m_operation_is_complete z' = m_operation_is_complete z
}.

Definition goes_on (z : zlib_t) (r : zcall zstream) : bool := full (space z) r && negb (Z_STREAM_END =? rc r).

Lemma write_round_run call ok flush z s :
  fits z -> m_zlib_stream z = Some s ->
  let r := call flush (next_in z) (space z) s in
  (taken r <= length (next_in z))%nat -> Z.of_nat (length (out r)) <= space z -> ok flush (rc r) = true ->
  exists z', after_round z r z' /\
    write_round call ok flush z
    = Ret (goes_on z r || negb (match drop (taken r) (next_in z) with [] => true | _ => false end)) z' /\
    (goes_on z r = true -> space z' = m_reserve_buffer_size (m_params z)).
Proof.
  intros Hf Hs r Ht Ho Hok. pose proof Hf as [Hn Hp Hsp]. pose proof (fits_written z Hf) as Hw.
  assert (Hwrap : wrap 32 (buffer_size z - m_write_pos z) = space z).
  { unfold wrap, space in *. destruct Hn. apply Z.mod_small. lia. }
  unfold write_round, bind, prepare_out_buffer, gets, upd, ret, bind, call_zlib. simpl. rewrite Hs, Hwrap. fold r.
  rewrite (proj2 (Z.ltb_ge _ _)), (proj2 (Nat.ltb_ge _ _)) by done. simpl. rewrite Hok. simpl.
  unfold add_written, upd, with_buffer. simpl.
  set (z1 := mk_zlib _ _ _ _ _ _ _).
  assert (Hlen : buffer_size z1 = buffer_size z).
  { unfold buffer_size in *. simpl. rewrite !length_app, length_take, length_drop.
    unfold space, buffer_size in *. lia. }
  assert (Hpos : m_write_pos z1 = m_write_pos z + Z.of_nat (length (out r))).
  { simpl. fold (space z). lia. }
  assert (Hw1 : written z1 = written z ++ out r).
  { unfold written at 1. rewrite Hpos. simpl. fold (written z).
    rewrite app_assoc, take_app_le by (rewrite length_app; lia). apply take_ge. rewrite length_app. lia. }
  assert (Hf1 : fits z1).
  { split; [done|rewrite Hpos; lia|]. unfold space in *. rewrite Hlen, Hpos. simpl. lia. }
  assert (E : (0 =? space z - Z.of_nat (length (out r))) = full (space z) r).
  { unfold full. destruct (Z.eqb_spec 0 (space z - Z.of_nat (length (out r)))), (Z.eqb_spec (Z.of_nat (length (out r))) (space z)); lia. }
  rewrite E. unfold goes_on. destruct (full (space z) r && negb (Z_STREAM_END =? rc r)) eqn:Eg; simpl.
  - exists (enlarged z1). unfold inc_buffer, upd. split_and!; [|done|].
    + apply andb_true_iff in Eg as [Efull _]. unfold full in Efull. apply Z.eqb_eq in Efull.
      split; try done; [by rewrite enlarged_written|]. split; [done|apply Hf1|].
      unfold space in *. rewrite enlarged_size by done. change (m_write_pos (enlarged z1)) with (m_write_pos z1).
      rewrite Hpos, Hlen. destruct Hn as [(_ & _ & _ & _ & ?) _]. change (m_params (enlarged z1)) with (m_params z).
      change (m_params z1) with (m_params z). lia.
    + intros _. apply andb_true_iff in Eg as [Efull _]. unfold full in Efull. apply Z.eqb_eq in Efull.
      unfold space in *. rewrite enlarged_size by done. change (m_write_pos (enlarged z1)) with (m_write_pos z1).
      rewrite Hpos, Hlen. change (m_params z1) with (m_params z). lia.
  - exists z1. split_and!; try done.
Qed.

Lemma write_loop_S call ok flush rounds z again z' :
  write_round call ok flush z = Ret again z' ->
  write_loop (S rounds) call ok flush z = if again then write_loop rounds call ok flush z' else Ret tt z'.
Proof. intros E. cbn [write_loop]. unfold bind. rewrite E. by destruct again. Qed.

(** ** Compressing *)


(** The transformer has read [i]; [given] was taken out before. *)
Record compressing (ph : phase) (i given : list byte) (z : zlib_t) : Prop := {
  c_fits : fits z;
  c_op : m_operation (m_params z) = compress;
  c_stream : exists s, m_zlib_stream z = Some s /\ deflating (m_format (m_params z)) (m_window_bits (m_params z)) ph s i (given ++ written z)
}.

(** What was promised when a loop ends. *)
Definition compressed (fl : Z) (i given : list byte) (z : zlib_t) : Prop :=
  compressing (if bool_decide (fl = Z_FINISH) then Ended else Free) i given z /\ next_in z = [] /\
  (fl = Z_SYNC_FLUSH -> decoded (m_format (m_params z)) (given ++ written z) = i) /\
  (fl = Z_FINISH -> is_stream (m_format (m_params z)) (m_window_bits (m_params z)) (given ++ written z) /\ decoded (m_format (m_params z)) (given ++ written z) = i).

Definition stream_calls_left (z : zlib_t) (fl : Z) : nat :=
  match m_zlib_stream z with Some s => calls_left s fl (next_in z) | None => 0 end.

Definition same_object (z z' : zlib_t) : Prop :=
  m_params z' = m_params z /\ m_operation_is_complete z' = m_operation_is_complete z.

Lemma fine_compress_result fl c :
  c ∈ fine_results -> (c = Z_STREAM_END -> fl = Z_FINISH) -> compress_result_ok fl c = true.
Proof.
  unfold fine_results, compress_result_ok. rewrite !elem_of_cons, elem_of_nil. intros [->|[->|[->|[]]]] H; try done.
  by rewrite H.
Qed.

Lemma compress_round ph i given fl z :
  compressing ph i given z -> may ph fl (next_in z) -> uint (Z.of_nat (length (next_in z))) ->
  (fl = Z_FINISH -> next_in z = []) ->
  exists again z' i', write_round deflate compress_result_ok fl z = Ret again z' /\ same_object z z' /\
    i' ++ next_in z' = i ++ next_in z /\
    if again then
      compressing (Again fl) i' given z' /\ (length (next_in z') <= length (next_in z))%nat /\
      space z' = m_reserve_buffer_size (m_params z) /\ (fl = Z_FINISH -> next_in z' = []) /\
      (6 < space z -> (stream_calls_left z' fl < stream_calls_left z fl)%nat)
    else compressed fl i' given z'.
Proof.
  intros [Hf Hop (s & Es & Hd)] Hmay Hin Hfin.
  assert (Hsp : uint (space z)) by (destruct Hf as [[? ?] ? ?]; unfold uint; lia).
  destruct (deflate_bounds _ _ _ _ _ _ _ _ _ Hd Hmay Hin Hsp) as (Ht & Ho & Hrc & Hend).
  destruct (write_round_run deflate compress_result_ok fl z s Hf Es Ht Ho (fine_compress_result _ _ Hrc Hend))
    as (z' & [Ep Est Ei Ew Hf' Ec] & E & Hspace).
  pose proof (deflating_call _ _ _ _ _ _ _ _ _ Hd Hmay Hin Hsp) as Hd'.
  pose proof (deflate_with_space_left _ _ _ _ _ _ _ _ _ Hd Hmay Hin Hsp) as Hleft.
  pose proof (deflate_end _ _ _ _ _ _ _ _ _ Hd Hmay Hin Hsp) as HE.
  pose proof (deflate_progress _ _ _ _ _ _ _ _ _ Hd Hmay Hin Hsp) as Hprog.
  cbn zeta in *. set (r := deflate fl (next_in z) (space z) s) in *.
  set (i' := i ++ take (taken r) (next_in z)) in *.
  rewrite <- app_assoc, <- Ew in Hd', Hleft, HE.
  assert (Hc' : compressing (phase_after fl (space z) r) i' given z').
  { split; [done|by rewrite Ep|]. exists (next r). by rewrite Ep. }
  assert (Hi' : i' ++ next_in z' = i ++ next_in z).
  { unfold i'. rewrite Ei, <- app_assoc. by rewrite take_drop. }
  assert (Hso : same_object z z') by done.
  unfold goes_on in *. destruct (full (space z) r && negb (Z_STREAM_END =? rc r)) eqn:Eg.
  - exists true, z', i'. apply andb_true_iff in Eg as [Efull Hne].
    apply negb_true_iff, Z.eqb_neq in Hne. unfold phase_after in Hc'. rewrite (proj2 (Z.eqb_neq _ _)), Efull in Hc' by done.
    split_and!; try done.
    + rewrite Ei, length_drop. lia.
    + by apply Hspace.
    + intros Hz. rewrite Ei, (Hfin Hz). by rewrite drop_nil.
    + intros H6. unfold stream_calls_left. rewrite Est, Es, Ei. apply Hprog; done.
  - assert (Hall : taken r = length (next_in z) /\ (fl = Z_FINISH -> rc r = Z_STREAM_END)
                   /\ (fl = Z_SYNC_FLUSH -> decoded (m_format (m_params z)) (given ++ written z') = i ++ next_in z)).
    { apply andb_false_iff in Eg as [Eg|Eg]; [by apply Hleft|]. apply negb_false_iff, Z.eqb_eq in Eg.
      destruct (HE (eq_sym Eg)) as (? & _ & ?). done. }
    destruct Hall as (Hall & Hfe & Hsync). rewrite Hall, drop_all in Ei. rewrite Ei, app_nil_r in Hi'.
    exists false, z', i'. rewrite Hall, drop_all in E. split_and!; try done; [by rewrite Ei, app_nil_r|].
    unfold compressed. rewrite Ep. split_and!; try done.
    + unfold phase_after in Hc'. destruct (Z.eqb_spec (rc r) Z_STREAM_END) as [Er|Er].
      * by rewrite bool_decide_true by (by apply Hend).
      * rewrite bool_decide_false by (intros ?; by apply Er, Hfe).
        apply andb_false_iff in Eg as [Eg|Eg]; [by rewrite Eg in Hc'|]. apply negb_false_iff, Z.eqb_eq in Eg. congruence.
    + intros Hz. rewrite Hi'. by apply Hsync.
    + intros Hz. rewrite Hi'. destruct (HE (Hfe Hz)) as (_ & ? & ?). done.
Qed.

Lemma same_object_trans z1 z2 z3 : same_object z1 z2 -> same_object z2 z3 -> same_object z1 z3.
Proof. unfold same_object. intros [-> ->] [-> ->]. done. Qed.

(** A loop that has more than six octets of space. *)
Lemma compress_loop_wide n ph i given fl z :
  (stream_calls_left z fl < n)%nat -> 6 < space z ->
  compressing ph i given z -> may ph fl (next_in z) -> uint (Z.of_nat (length (next_in z))) ->
  (fl = Z_FINISH -> next_in z = []) ->
  exists z', (forall rounds, (n <= rounds)%nat -> write_compress_impl rounds fl z = Ret tt z') /\
    same_object z z' /\ compressed fl (i ++ next_in z) given z'.
Proof.
  revert ph i z. induction n as [|n IH]; intros ph i z Hn H6 Hc Hmay Hin Hfin; [lia|].
  destruct (compress_round ph i given fl z Hc Hmay Hin Hfin) as (again & z' & i' & E & Hso & Hi & Hpost).
  destruct again.
  - destruct Hpost as (Hc' & Hlen & Hsp & Hfin' & Hleft).
    destruct (IH (Again fl) i' z') as (z2 & Hrun & Hso2 & Hpost); try done.
    + specialize (Hleft H6). lia.
    + destruct Hc as [[[(_ & _ & _ & _ & ?) _] _ _] _ _]. lia.
    + unfold uint in *. lia.
    + exists z2. split_and!; [|by eapply same_object_trans|by rewrite <- Hi].
      intros rounds Hr. destruct rounds as [|rounds]; [lia|]. unfold write_compress_impl.
      rewrite (write_loop_S _ _ _ _ _ _ _ E). apply Hrun. lia.
  - exists z'. pose proof Hpost as (_ & Hnil & _). rewrite Hnil, app_nil_r in Hi. rewrite <- Hi. split_and!; try done.
    intros rounds Hr. destruct rounds as [|rounds]; [lia|]. unfold write_compress_impl. by rewrite (write_loop_S _ _ _ _ _ _ _ E).
Qed.

(** The loop ends, whatever space there is at first. *)
Lemma compress_loop i given fl z :
  compressing Free i given z -> fl ∈ flushes -> uint (Z.of_nat (length (next_in z))) ->
  (fl = Z_FINISH -> next_in z = []) ->
  exists n z', (forall rounds, (n <= rounds)%nat -> write_compress_impl rounds fl z = Ret tt z') /\
    same_object z z' /\ compressed fl (i ++ next_in z) given z'.
Proof.
  intros Hc Hfl Hin Hfin.
  destruct (compress_round Free i given fl z Hc Hfl Hin Hfin) as (again & z' & i' & E & Hso & Hi & Hpost).
  destruct again.
  - destruct Hpost as (Hc' & Hlen & Hsp & Hfin' & _).
    destruct (compress_loop_wide (S (stream_calls_left z' fl)) (Again fl) i' given fl z')
      as (z2 & Hrun & Hso2 & Hpost); try done.
    + lia.
    + destruct Hc as [[[(_ & _ & _ & _ & ?) _] _ _] _ _]. lia.
    + unfold uint in *. lia.
    + exists (S (S (stream_calls_left z' fl))), z2. split_and!; [|by eapply same_object_trans|by rewrite <- Hi].
      intros rounds Hr. destruct rounds as [|rounds]; [lia|]. unfold write_compress_impl.
      rewrite (write_loop_S _ _ _ _ _ _ _ E). apply Hrun. lia.
  - exists 1%nat, z'. pose proof Hpost as (_ & Hnil & _). rewrite Hnil, app_nil_r in Hi. rewrite <- Hi.
    split_and!; try done. intros rounds Hr. destruct rounds as [|rounds]; [lia|]. unfold write_compress_impl.
    by rewrite (write_loop_S _ _ _ _ _ _ _ E).
Qed.

(** ** A session of calls *)

Inductive zop := op_write (input : list byte) | op_flush | op_giveaway.

(** What a call takes out of the transformer. *)
Definition apply_zop (rounds : nat) (o : zop) : M zlib_t (list byte) :=
  match o with
  | op_write input => bind (write rounds input) (fun _ => ret [])
  | op_flush => bind (flush rounds) (fun _ => ret [])
  | op_giveaway => giveaway_output
  end.

Fixpoint run_zops (rounds : nat) (ops : list zop) : M zlib_t (list byte) :=
  match ops with
  | [] => ret []
  | o :: ops => bind (apply_zop rounds o) (fun a => bind (run_zops rounds ops) (fun b => ret (a ++ b)))
  end.

Definition finish_session (rounds : nat) (ops : list zop) : M zlib_t (list byte) :=
  bind (run_zops rounds ops) (fun a => bind (complete rounds) (fun _ => bind giveaway_output (fun b => ret (a ++ b)))).

Definition op_data (o : zop) : list byte := match o with op_write input => input | _ => [] end.
Definition data_of (ops : list zop) : list byte := flat_map op_data ops.
Definition zop_ok (o : zop) : Prop := uint (Z.of_nat (length (op_data o))).

Lemma giveaway_run z :
  fits z -> giveaway_output z = Ret (written z) (with_buffer [] 0 z) /\ fits (with_buffer [] 0 z).
Proof.
  intros Hf. pose proof (fits_written z Hf) as Hw. destruct Hf as [Hn Hp Hs]. split.
  - unfold giveaway_output, bind, gets, upd, ret, resize, written, space, buffer_size in *.
    replace (_ - _)%nat with 0%nat by (cbn [id] in *; lia). by rewrite app_nil_r.
  - split; try done. unfold space, buffer_size. simpl. destruct Hn as [(_ & _ & _ & _ & ?) _]. lia.
Qed.

Lemma giveaway_compressing ph i given z :
  compressing ph i given z -> compressing ph i (given ++ written z) (with_buffer [] 0 z).
Proof.
  intros [Hf Hop (s & Es & Hd)]. split; [by apply giveaway_run|done|]. exists s. simpl. split; [done|].
  unfold written at 2. simpl. by rewrite app_nil_r.
Qed.

Lemma with_input_compressing ph i given d z : compressing ph i given z -> compressing ph i given (with_input d z).
Proof. intros [[H1 H2 H3] Hop Hs]. by split. Qed.

Lemma is_identity_false z : m_format (m_params z) <> identity -> is_identity z = false.
Proof. intros H. unfold is_identity. apply bool_decide_false. congruence. Qed.

(** The three operations that run the loop. *)
Lemma compress_call i given fl d z :
  compressing Free i given z -> fl ∈ flushes -> uint (Z.of_nat (length d)) -> (fl = Z_FINISH -> d = []) ->
  exists n z', (forall rounds, (n <= rounds)%nat ->
      bind (upd (with_input d)) (fun _ => write_impl rounds fl) z = Ret tt z') /\
    same_object z z' /\ compressed fl (i ++ d) given z'.
Proof.
  intros Hc Hfl Hd Hfin.
  destruct (compress_loop i given fl (with_input d z)) as (n & z' & Hrun & Hso & Hpost); try done.
  { by apply with_input_compressing. }
  exists n, z'. split_and!; try done; try apply Hso. intros rounds Hr. unfold write_impl, bind, upd, gets. simpl.
  rewrite (c_op _ _ _ _ Hc). by apply Hrun.
Qed.

(** A transformer that is in use. *)
Definition active (z : zlib_t) : Prop := m_format (m_params z) <> identity /\ m_operation_is_complete z = false.

Lemma active_same z z' : same_object z z' -> active z -> active z'.
Proof. unfold same_object, active. by intros [-> ->]. Qed.

Lemma not_completed_run z : m_operation_is_complete z = false -> ensure_operation_in_not_completed z = Ret tt z.
Proof. intros H. unfold ensure_operation_in_not_completed, bind, gets, is_completed. simpl. by rewrite H. Qed.

Lemma write_active rounds d z :
  active z -> uint (Z.of_nat (length d)) ->
  write rounds d z
  = match d with [] => Ret tt z | _ => bind (upd (with_input d)) (fun _ => write_impl rounds Z_NO_FLUSH) z end.
Proof.
  intros [Hi Hc] Hd. unfold write, bind at 1. rewrite not_completed_run by done. unfold bind at 1, gets. cbn [id].
  rewrite is_identity_false by done. unfold uint in Hd. rewrite (proj2 (Z.ltb_ge _ _)) by lia.
  destruct d; simpl; reflexivity.
Qed.

Lemma flush_active rounds z :
  active z -> flush rounds z = bind (upd (with_input [])) (fun _ => write_impl rounds Z_SYNC_FLUSH) z.
Proof.
  intros [Hi Hc]. unfold flush, bind at 1. rewrite not_completed_run by done. unfold bind at 1, gets. cbn [id].
  by rewrite is_identity_false.
Qed.

Lemma complete_active rounds z :
  active z ->
  complete rounds z = bind (bind (upd (with_input [])) (fun _ => write_impl rounds Z_FINISH)) (fun _ => upd completed) z.
Proof.
  intros [Hi Hc]. unfold complete, bind at 1. rewrite not_completed_run by done. unfold bind at 1, gets. cbn [id].
  by rewrite is_identity_false.
Qed.

Lemma compress_zop o i given z :
  compressing Free i given z -> active z -> zop_ok o ->
  exists n out z', (forall rounds, (n <= rounds)%nat -> apply_zop rounds o z = Ret out z') /\
    same_object z z' /\ compressing Free (i ++ op_data o) (given ++ out) z' /\
    (o = op_flush -> decoded (m_format (m_params z)) (given ++ written z') = i).
Proof.
  intros Hc Ha Ho. destruct o as [d| |]; cbn [op_data apply_zop] in *.
  - destruct d as [|b d].
    + exists 0%nat, [], z. split_and!; try done; [|by rewrite !app_nil_r].
      intros rounds _. unfold bind. by rewrite write_active.
    + destruct (compress_call i given Z_NO_FLUSH (b :: d) z Hc) as (n & z' & Hrun & Hso & (Hc' & _)); try done.
      { apply flushes_all. }
      exists n, [], z'. rewrite app_nil_r. split_and!; try done; try apply Hso.
      intros rounds Hr. unfold bind at 1. by rewrite write_active, Hrun.
  - destruct (compress_call i given Z_SYNC_FLUSH [] z Hc) as (n & z' & Hrun & Hso & (Hc' & _ & Hsync & _)); try done.
    { apply flushes_all. }
    exists n, [], z'. rewrite !app_nil_r in *. split_and!; try done; try apply Hso.
    + intros rounds Hr. unfold bind at 1. by rewrite flush_active, Hrun.
    + intros _. destruct Hso as [<- _]. by apply Hsync.
  - destruct (giveaway_run z (c_fits _ _ _ _ Hc)) as [E _]. exists 0%nat, (written z), (with_buffer [] 0 z).
    rewrite app_nil_r. split_and!; try done. by apply giveaway_compressing.
Qed.

Lemma compress_zops ops i given z :
  compressing Free i given z -> active z -> Forall zop_ok ops ->
  exists n out z', (forall rounds, (n <= rounds)%nat -> run_zops rounds ops z = Ret out z') /\
    same_object z z' /\ compressing Free (i ++ data_of ops) (given ++ out) z'.
Proof.
  intros Hc Ha Hops. revert i given z Hc Ha. induction Hops as [|o ops Ho Hops IH]; intros i given z Hc Ha.
  - exists 0%nat, [], z. simpl. by rewrite !app_nil_r.
  - destruct (compress_zop o i given z Hc Ha Ho) as (n1 & o1 & z1 & R1 & S1 & C1 & _).
    destruct (IH _ _ _ C1 (active_same _ _ S1 Ha)) as (n2 & o2 & z2 & R2 & S2 & C2).
    exists (n1 + n2)%nat, (o1 ++ o2), z2. cbn [data_of flat_map]. rewrite !app_assoc in *.
    split_and!; try done; [|by eapply same_object_trans..].
    intros rounds Hr. cbn [run_zops]. unfold bind at 1. rewrite R1 by lia. unfold bind. by rewrite R2 by lia.
Qed.

Lemma narrow_resized p s :
  narrow p -> let z := enlarged (mk_zlib p (Some s) [] 0 [] 0 false) in fits z /\ written z = [].
Proof.
  intros Hn. assert (Hr : 10 <= m_reserve_buffer_size p) by (destruct Hn as [(_ & _ & _ & _ & ?) _]; lia).
  split; [|done]. split; [done|simpl; lia|]. unfold space. rewrite enlarged_size by done. unfold buffer_size. simpl. lia.
Qed.

Lemma construct_compressing p :
  narrow p -> m_operation p = compress -> m_format p <> identity ->
  exists z, construct p = Ok z /\ m_params z = p /\ active z /\ compressing Free [] [] z.
Proof.
  intros Hn Hop Hf. pose proof Hn as [(Hl & Hw & Hm & Hs & _) _].
  assert (Hw' : 9 <= m_window_bits p <= MAX_WBITS) by (destruct Hw as [?|[_ ?]]; [done|congruence]).
  destruct (deflate_init_ok _ _ _ _ _ Hf Hl Hw' Hm Hs) as (s & Es).
  exists (enlarged (mk_zlib p (Some s) [] 0 [] 0 false)). unfold construct, is_identity. cbn [m_params].
  rewrite bool_decide_false by congruence. rewrite Hop. unfold current_window_bits. fold (gzip_bits (m_format p)). rewrite Es.
  destruct (narrow_resized p s Hn) as [Hfit Hwr]. split_and!; try done.
  split; [done|done|]. exists s. split; [done|]. rewrite Hwr. by eapply deflating_init.
Qed.

Lemma complete_compressing i given z :
  compressing Free i given z -> active z ->
  exists n z', (forall rounds, (n <= rounds)%nat -> complete rounds z = Ret tt z') /\
    m_operation_is_complete z' = true /\ fits z' /\
    is_stream (m_format (m_params z)) (m_window_bits (m_params z)) (given ++ written z') /\
    decoded (m_format (m_params z)) (given ++ written z') = i.
Proof.
  intros Hc Ha. destruct (compress_call i given Z_FINISH [] z Hc) as (n & z' & Hrun & Hso & (Hc' & _ & _ & Hfin)); try done.
  { apply flushes_all. }
  exists n, (completed z'). destruct Hso as [Hp _]. rewrite app_nil_r, Hp in *. destruct (Hfin eq_refl). split_and!; try done.
  - intros rounds Hr. rewrite complete_active by done. unfold bind at 1. by rewrite Hrun.
  - by destruct Hc' as [[]].
Qed.

(** A completed transformer takes nothing more. *)
Definition closed (z : zlib_t) : Prop :=
  forall rounds d, write rounds d z = Raise z /\ flush rounds z = Raise z /\ complete rounds z = Raise z.

Lemma completed_closed z : m_operation_is_complete z = true -> closed z.
Proof.
  intros H rounds d. unfold write, flush, complete, ensure_operation_in_not_completed, bind, gets, is_completed, raise.
  cbn [id]. by rewrite H.
Qed.

(** ** Decompressing *)

(** The transformer has read the beginning [i] of a stream. *)
Record decompressing (i given : list byte) (z : zlib_t) : Prop := {
  d_fits : fits z;
  d_op : m_operation (m_params z) = decompress;
  d_stream : exists s, m_zlib_stream z = Some s /\
    inflating (m_format (m_params z)) (m_window_bits (m_params z)) s i (given ++ written z)
}.

(** The stream, and that its window is not too large. *)
Definition readable (w : Z) (c : list byte) (p : params_t) : Prop :=
  is_stream (m_format p) w c /\ (m_window_bits p = 0 \/ w <= m_window_bits p).

(** How much of what the stream holds is still to come. *)
Definition to_come (c given : list byte) (z : zlib_t) : nat :=
  length (decoded (m_format (m_params z)) c) - length (given ++ written z).
(** A round without space only makes some. *)
Definition rounds_left (c given : list byte) (z : zlib_t) : nat :=
  to_come c given z + (if 0 <? space z then 0 else 1).

Lemma fine_decompress_result fl c : c ∈ fine_results -> decompress_result_ok fl c = true.
Proof. unfold fine_results, decompress_result_ok. rewrite !elem_of_cons, elem_of_nil. by intros [->|[->|[->|[]]]]. Qed.

Lemma feeds_end c i input room extra n :
  feeds c i input room extra -> (n <= length room)%nat -> i ++ take n room = c -> n = length room.
Proof.
  intros (more & -> & _ & _) Hn E. apply app_inv_head in E. apply (f_equal length) in E.
  rewrite length_take, length_app in E. lia.
Qed.

Lemma feeds_step c i input room extra n :
  feeds c i input room extra -> (n <= length room)%nat ->
  feeds c (i ++ take n room) (drop n input) (drop n room) extra /\ take n input = take n room.
Proof.
  intros (more & -> & -> & H) Hn. split.
  - exists more. split_and!; [|by rewrite drop_app_le|done].
    rewrite <- app_assoc. f_equal. rewrite app_assoc. by rewrite take_drop.
  - by rewrite take_app_le.
Qed.

Lemma decompress_round w c i given fl room extra z :
  decompressing i given z -> readable w c (m_params z) -> feeds c i (next_in z) room extra -> fl ∈ flushes ->
  uint (Z.of_nat (length (next_in z))) ->
  exists again z' i' room', write_round inflate decompress_result_ok fl z = Ret again z' /\ same_object z z' /\
    decompressing i' given z' /\ feeds c i' (next_in z') room' extra /\ i' ++ room' = i ++ room /\
    (length (next_in z') <= length (next_in z))%nat /\
    (again = false -> next_in z' = [] /\ given ++ written z' = decoded (m_format (m_params z)) (i ++ room)) /\
    (again = true -> extra = [] -> (rounds_left c given z' < rounds_left c given z)%nat) /\
    (extra <> [] -> again = true).
Proof.
  intros [Hf Hop (s & Es & Hi)] [Hst Hwin] Hfeed Hfl Hin.
  assert (Hsp : uint (space z)) by (destruct Hf as [[? ?] ? ?]; unfold uint; lia).
  destruct (inflate_stream _ _ _ _ _ _ _ _ _ _ _ _ Hi Hst Hwin Hfeed Hfl Hin Hsp) as (Ht & Ho & Hrc & Hpre & Hleft & Hend).
  pose proof (inflating_call _ _ _ _ _ _ _ _ Hi Hfl Hin Hsp Hrc) as Hi'. cbn zeta in *.
  set (r := inflate fl (next_in z) (space z) s) in *.
  destruct (feeds_step _ _ _ _ _ _ Hfeed Ht) as [Hfeed' Etake].
  assert (Ht' : (taken r <= length (next_in z))%nat).
  { destruct Hfeed as (? & _ & -> & _). rewrite length_app. lia. }
  destruct (write_round_run inflate decompress_result_ok fl z s Hf Es Ht' Ho (fine_decompress_result _ _ Hrc))
    as (z' & [Ep Est Ei Ew Hf' Ec] & E & Hspace).
  fold r in E, Hspace, Ei, Est, Ew. rewrite <- Ei in E, Hfeed'. rewrite Etake in Hi'. rewrite <- app_assoc, <- Ew in Hi', Hleft, Hend, Hpre.
  set (i' := i ++ take (taken r) room) in *.
  assert (Hi2 : i' ++ drop (taken r) room = i ++ room).
  { unfold i'. rewrite <- app_assoc. by rewrite take_drop. }
  eexists _, z', i', (drop (taken r) room). split; [exact E|]. split_and!; try done.
  - split; [done|by rewrite Ep|]. exists (next r). by rewrite Ep.
  - rewrite Ei, length_drop. lia.
  - intros Hno. apply orb_false_iff in Hno as [Hno Hin0]. apply negb_false_iff in Hin0.
    destruct (next_in z') eqn:En; [|done]. split; [done|]. unfold goes_on in Hno.
    apply andb_false_iff in Hno as [Hno|Hno]; [by destruct (Hleft Hno) as (_ & ? & _)|].
    apply negb_false_iff, Z.eqb_eq in Hno. destruct (Hend (eq_sym Hno)) as [Hc ->].
    rewrite <- Hi2. pose proof (feeds_end _ _ _ _ _ _ Hfeed Ht Hc) as ->. rewrite drop_all, app_nil_r. by rewrite Hc.
  - intros Hag ->. assert (Hgo : goes_on z r = true).
    { destruct (goes_on z r) eqn:Hgo; [done|]. simpl in Hag. apply negb_true_iff in Hag.
      assert (taken r = length room) as Hall; [|rewrite Hall, drop_all in Hfeed'; destruct Hfeed' as (? & _ & En & _); by rewrite En in Hag].
      unfold goes_on in Hgo. apply andb_false_iff in Hgo as [Hgo|Hgo]; [by apply Hleft|].
      apply negb_false_iff, Z.eqb_eq in Hgo. eapply feeds_end; [done..|by apply Hend]. }
    assert (Hsp' : 10 <= space z').
    { rewrite Hspace by done. by destruct Hf as [[(_ & _ & _ & _ & ?) _] _ _]. }
    unfold goes_on, full in Hgo. apply andb_true_iff in Hgo as [Hfull _].
    apply Z.eqb_eq in Hfull. unfold rounds_left. rewrite (proj2 (Z.ltb_lt _ _)) by lia. destruct Hfeed' as (more & Hc & _ & _). unfold to_come. rewrite Ep.
    assert (Hle : (length (given ++ written z') <= length (decoded (m_format (m_params z)) c))%nat).
    { etransitivity; [by apply prefix_length|]. apply prefix_length. rewrite Hc. eapply decoded_grows. by rewrite <- Hc. }
    rewrite Ew, !length_app in *. destruct (Z.ltb_spec 0 (space z)); lia.
  - intros Hex. destruct Hfeed' as (? & _ & -> & _). destruct (goes_on z r); [done|]. simpl.
    destruct (drop (taken r) room), extra; done.
Qed.

Definition inflated (i given : list byte) (z : zlib_t) : Prop :=
  decompressing i given z /\ next_in z = [] /\ given ++ written z = decoded (m_format (m_params z)) i.

Lemma readable_same w c z z' : same_object z z' -> readable w c (m_params z) -> readable w c (m_params z').
Proof. by intros [-> _]. Qed.

Lemma decompress_loop n w c i given fl room z :
  (rounds_left c given z < n)%nat ->
  decompressing i given z -> readable w c (m_params z) -> feeds c i (next_in z) room [] -> fl ∈ flushes ->
  uint (Z.of_nat (length (next_in z))) ->
  exists z', (forall rounds, (n <= rounds)%nat -> write_decompress_impl rounds fl z = Ret tt z') /\
    same_object z z' /\ inflated (i ++ room) given z'.
Proof.
  revert i room z. induction n as [|n IH]; intros i room z Hn Hd Hr Hfeed Hfl Hin; [lia|].
  destruct (decompress_round w c i given fl room [] z Hd Hr Hfeed Hfl Hin)
    as (again & z' & i' & room' & E & Hso & Hd' & Hfeed' & Hi & Hlen & Hno & Hag & _).
  destruct again.
  - specialize (Hag eq_refl eq_refl).
    destruct (IH i' room' z') as (z2 & Hrun & Hso2 & Hpost); try done; [lia|by eapply readable_same|unfold uint in *; lia|].
    exists z2. split_and!; [|by eapply same_object_trans|by rewrite <- Hi].
    intros rounds Hro. destruct rounds as [|rounds]; [lia|]. unfold write_decompress_impl.
    rewrite (write_loop_S _ _ _ _ _ _ _ E). apply Hrun. lia.
  - exists z'. destruct (Hno eq_refl) as [Hnil Hdec]. split_and!; try done.
    + intros rounds Hro. destruct rounds as [|rounds]; [lia|]. unfold write_decompress_impl.
      by rewrite (write_loop_S _ _ _ _ _ _ _ E).
    + rewrite Hnil in Hfeed'. destruct Hfeed' as (? & _ & Hroom & _). symmetry in Hroom.
      apply app_nil in Hroom as [-> _]. rewrite app_nil_r in Hi. rewrite <- Hi in *. destruct Hso as [Ep _].
      split_and!; try done. by rewrite Ep.
Qed.

(** Octets after the end of the stream: the loop does not end. *)
Lemma decompress_loop_extra rounds w c i given fl room extra z :
  extra <> [] -> decompressing i given z -> readable w c (m_params z) -> feeds c i (next_in z) room extra ->
  fl ∈ flushes -> uint (Z.of_nat (length (next_in z))) -> write_decompress_impl rounds fl z = Deep.
Proof.
  intros Hex. revert i room z. induction rounds as [|rounds IH]; intros i room z Hd Hr Hfeed Hfl Hin; [done|].
  destruct (decompress_round w c i given fl room extra z Hd Hr Hfeed Hfl Hin)
    as (again & z' & i' & room' & E & Hso & Hd' & Hfeed' & Hi & Hlen & _ & _ & Hag).
  rewrite (Hag Hex) in E. unfold write_decompress_impl. rewrite (write_loop_S _ _ _ _ _ _ _ E).
  apply (IH i' room'); try done; [by eapply readable_same|unfold uint in *; lia].
Qed.

Lemma giveaway_decompressing i given z :
  decompressing i given z -> decompressing i (given ++ written z) (with_buffer [] 0 z).
Proof.
  intros [Hf Hop (s & Es & Hd)]. split; [by apply giveaway_run|done|]. exists s. simpl. split; [done|].
  unfold written at 2. simpl. by rewrite app_nil_r.
Qed.

Lemma with_input_decompressing i given d z : decompressing i given z -> decompressing i given (with_input d z).
Proof. intros [[H1 H2 H3] Hop Hs]. by split. Qed.

Lemma decompress_call w i given fl d more z :
  decompressing i given z -> readable w (i ++ d ++ more) (m_params z) -> fl ∈ flushes -> uint (Z.of_nat (length d)) ->
  exists n z', (forall rounds, (n <= rounds)%nat ->
      bind (upd (with_input d)) (fun _ => write_impl rounds fl) z = Ret tt z') /\
    same_object z z' /\ inflated (i ++ d) given z'.
Proof.
  intros Hd Hr Hfl Hin.
  destruct (decompress_loop (S (rounds_left (i ++ d ++ more) given (with_input d z))) w (i ++ d ++ more) i given fl d (with_input d z))
    as (z' & Hrun & Hso & Hpost); try done; [lia|by apply with_input_decompressing| |].
  { exists more. rewrite app_nil_r. split_and!; try done. by left. }
  eexists _, z'. split_and!; [|apply Hso..|done]. intros rounds Hro. unfold write_impl, bind, upd, gets. simpl.
  rewrite (d_op _ _ _ Hd). by apply Hrun.
Qed.

Lemma decompress_zop w o i given more z :
  decompressing i given z -> active z -> zop_ok o -> readable w (i ++ op_data o ++ more) (m_params z) ->
  exists n out z', (forall rounds, (n <= rounds)%nat -> apply_zop rounds o z = Ret out z') /\
    same_object z z' /\ decompressing (i ++ op_data o) (given ++ out) z'.
Proof.
  intros Hd Ha Ho Hr. destruct o as [d| |]; cbn [op_data apply_zop] in *.
  - destruct d as [|b d].
    + exists 0%nat, [], z. split_and!; try done; [|by rewrite !app_nil_r].
      intros rounds _. unfold bind. by rewrite write_active.
    + destruct (decompress_call w i given Z_NO_FLUSH (b :: d) more z Hd Hr) as (n & z' & Hrun & Hso & (Hd' & _)); try done.
      { apply flushes_all. }
      exists n, [], z'. rewrite app_nil_r. split_and!; try done; try apply Hso.
      intros rounds Hro. unfold bind at 1. by rewrite write_active, Hrun.
  - destruct (decompress_call w i given Z_SYNC_FLUSH [] more z Hd Hr) as (n & z' & Hrun & Hso & (Hd' & _)); try done.
    { apply flushes_all. }
    exists n, [], z'. rewrite !app_nil_r in *. split_and!; try done; try apply Hso.
    intros rounds Hro. unfold bind at 1. by rewrite flush_active, Hrun.
  - destruct (giveaway_run z (d_fits _ _ _ Hd)) as [E _]. exists 0%nat, (written z), (with_buffer [] 0 z).
    rewrite app_nil_r. split_and!; try done. by apply giveaway_decompressing.
Qed.

Lemma decompress_zops w ops i given more z :
  decompressing i given z -> active z -> Forall zop_ok ops -> readable w (i ++ data_of ops ++ more) (m_params z) ->
  exists n out z', (forall rounds, (n <= rounds)%nat -> run_zops rounds ops z = Ret out z') /\
    same_object z z' /\ decompressing (i ++ data_of ops) (given ++ out) z'.
Proof.
  intros Hd Ha Hops. revert i given z Hd Ha. induction Hops as [|o ops Ho Hops IH]; intros i given z Hd Ha Hr.
  - exists 0%nat, [], z. simpl. by rewrite !app_nil_r.
  - cbn [data_of flat_map] in Hr. rewrite <- app_assoc in Hr.
    destruct (decompress_zop w o i given (data_of ops ++ more) z Hd Ha Ho Hr) as (n1 & o1 & z1 & R1 & S1 & D1).
    destruct (IH _ _ _ D1 (active_same _ _ S1 Ha)) as (n2 & o2 & z2 & R2 & S2 & D2).
    { rewrite <- app_assoc. by eapply readable_same. }
    exists (n1 + n2)%nat, (o1 ++ o2), z2. cbn [data_of flat_map]. rewrite !app_assoc in *.
    split_and!; try done; [|by eapply same_object_trans..].
    intros rounds Hro. cbn [run_zops]. unfold bind at 1. rewrite R1 by lia. unfold bind. by rewrite R2 by lia.
Qed.

Lemma construct_decompressing p :
  narrow p -> m_operation p = decompress -> m_format p <> identity ->
  exists z, construct p = Ok z /\ m_params z = p /\ active z /\ decompressing [] [] z.
Proof.
  intros Hn Hop Hf. pose proof Hn as [(_ & Hw & _) _].
  assert (Hw' : 9 <= m_window_bits p <= MAX_WBITS \/ m_window_bits p = 0) by tauto.
  destruct (inflate_init_ok _ _ Hf Hw') as (s & Es).
  exists (enlarged (mk_zlib p (Some s) [] 0 [] 0 false)). unfold construct, is_identity. cbn [m_params].
  rewrite bool_decide_false by congruence. rewrite Hop. unfold current_window_bits. fold (gzip_bits (m_format p)). rewrite Es.
  destruct (narrow_resized p s Hn) as [Hfit Hwr]. split_and!; try done.
  split; [done|done|]. exists s. split; [done|]. rewrite Hwr. by eapply inflating_init.
Qed.

Lemma complete_decompressing w i given more z :
  decompressing i given z -> active z -> readable w (i ++ more) (m_params z) ->
  exists n z', (forall rounds, (n <= rounds)%nat -> complete rounds z = Ret tt z') /\
    m_operation_is_complete z' = true /\ fits z' /\ given ++ written z' = decoded (m_format (m_params z)) i.
Proof.
  intros Hd Ha Hr. destruct (decompress_call w i given Z_FINISH [] more z Hd Hr) as (n & z' & Hrun & Hso & (Hd' & _ & Hdec)); try done.
  { apply flushes_all. }
  exists n, (completed z'). destruct Hso as [Hp _]. rewrite app_nil_r, Hp in *. split_and!; try done.
  - intros rounds Hro. rewrite complete_active by done. unfold bind at 1. by rewrite Hrun.
  - by destruct Hd' as [[]].
Qed.

(** ** Sessions *)

Lemma finish_session_run n1 n2 ops z out1 z1 z2 :
  (forall rounds, (n1 <= rounds)%nat -> run_zops rounds ops z = Ret out1 z1) ->
  (forall rounds, (n2 <= rounds)%nat -> complete rounds z1 = Ret tt z2) -> fits z2 ->
  forall rounds, (n1 + n2 <= rounds)%nat -> finish_session rounds ops z = Ret (out1 ++ written z2) (with_buffer [] 0 z2).
Proof.
  intros R1 R2 Hf rounds Hr. unfold finish_session, bind at 1. rewrite R1 by lia. unfold bind at 1. rewrite R2 by lia.
  unfold bind. by destruct (giveaway_run z2 Hf) as [-> _].
Qed.

Lemma compression_session p ops :
  narrow p -> m_operation p = compress -> m_format p <> identity -> Forall zop_ok ops ->
  exists z n out z', construct p = Ok z /\
    (forall rounds, (n <= rounds)%nat -> finish_session rounds ops z = Ret out z') /\ closed z' /\
    is_stream (m_format p) (m_window_bits p) out /\ decoded (m_format p) out = data_of ops.
Proof.
  intros Hn Hop Hf Hops. destruct (construct_compressing p Hn Hop Hf) as (z & Ez & Ep & Ha & Hc).
  destruct (compress_zops ops [] [] z Hc Ha Hops) as (n1 & o1 & z1 & R1 & S1 & C1).
  destruct (complete_compressing _ _ _ C1 (active_same _ _ S1 Ha)) as (n2 & z2 & R2 & Hcomp & Hfit & Hst & Hdec).
  destruct S1 as [Ep1 _]. rewrite Ep1, Ep in *.
  eexists z, (n1 + n2)%nat, _, _. split; [done|]. split; [by eapply finish_session_run|]. split_and!; [|done..].
  by apply completed_closed.
Qed.

Lemma decompression_session w p ops more :
  narrow p -> m_operation p = decompress -> m_format p <> identity -> Forall zop_ok ops ->
  readable w (data_of ops ++ more) p ->
  exists z n z', construct p = Ok z /\ closed z' /\
    (forall rounds, (n <= rounds)%nat -> finish_session rounds ops z = Ret (decoded (m_format p) (data_of ops)) z').
Proof.
  intros Hn Hop Hf Hops Hr. destruct (construct_decompressing p Hn Hop Hf) as (z & Ez & Ep & Ha & Hd).
  rewrite <- Ep in Hr. destruct (decompress_zops w ops [] [] more z Hd Ha Hops Hr) as (n1 & o1 & z1 & R1 & S1 & D1).
  destruct (complete_decompressing w _ _ more _ D1 (active_same _ _ S1 Ha)) as (n2 & z2 & R2 & Hcomp & Hfit & Hdec).
  { by eapply readable_same. }
  destruct S1 as [Ep1 _]. rewrite Ep1, Ep in *. simpl in Hdec.
  eexists z, (n1 + n2)%nat, _. split_and!; [done| |rewrite <- Hdec; by eapply finish_session_run]. by apply completed_closed.
Qed.

End Theory.
End ZlibTheory.
