(* ===== verification/SmallZlib.v ===== *)
(** * A small compressor that keeps the laws

    An instance of [ZlibApi] with its [ZlibLaws], for runs of the code above zlib: an
    octet is written as 1 and itself, a flush leaves a 0, the end of a stream is 2.
    deflate() holds back what does not fit; inflate() keeps half a pair in mind. *)

From S2P Require Import Prelude Effects Zlib ZlibLaws.

Module SmallZlib.
Import Params Zlib ZlibLaws.

(** ** The format *)

Definition enc (d : list byte) : list byte := flat_map (fun b => [x01; b]) d.

(** [half]: a 1 was read. *)
Fixpoint dec (half : bool) (c : list byte) : list byte :=
  match c with
  | [] => []
  | b :: c =>
      if half then b :: dec false c
      else match b with x00 => dec false c | x01 => dec true c | _ => [] end
  end.

(** What follows the end of a stream. *)
Fixpoint scan (half : bool) (c : list byte) : option (list byte) :=
  match c with
  | [] => None
  | b :: c =>
      if half then scan false c
      else match b with x00 => scan false c | x01 => scan true c | x02 => Some c | _ => None end
  end.

(** After [x] one has [d] and is in state [half]. *)
Definition leads (from : bool) (x d : list byte) (half : bool) : Prop :=
  forall y, dec from (x ++ y) = d ++ dec half y /\ scan from (x ++ y) = scan half y.

Lemma leads_nil h : leads h [] [] h.
Proof. done. Qed.

Lemma leads_app h1 h2 h3 x y d e : leads h1 x d h2 -> leads h2 y e h3 -> leads h1 (x ++ y) (d ++ e) h3.
Proof.
  intros H1 H2 z. rewrite <- !app_assoc. destruct (H1 (y ++ z)) as [-> ->]. by destruct (H2 z) as [-> ->].
Qed.

Lemma leads_enc d : leads false (enc d) d false.
Proof.
  induction d as [|b d IH]; [apply leads_nil|]. change (enc (b :: d)) with ([x01; b] ++ enc d).
  change (b :: d) with ([b] ++ d). by eapply leads_app.
Qed.

Lemma leads_flush : leads false [x00] [] false.
Proof. done. Qed.

Lemma leads_end x d : leads false x d false -> dec false (x ++ [x02]) = d /\ scan false (x ++ [x02]) = Some [].
Proof. intros H. destruct (H [x02]) as [-> ->]. by rewrite app_nil_r. Qed.

Lemma dec_grows h x y : dec h x `prefix_of` dec h (x ++ y).
Proof.
  revert h. induction x as [|b x IH]; intros h; [apply prefix_nil|]. cbn [dec app].
  destruct h; [by apply prefix_cons|]. destruct b; try apply prefix_nil; apply IH.
Qed.

(** ** The calls *)

Inductive stream := Deflating (pending : list byte) (finishing : bool) | Inflating (half ended : bool).

Definition is_nil {A} (l : list A) : bool := match l with [] => true | _ => false end.

Definition small_deflate (flush : Z) (input : list byte) (avail : Z) (s : stream) : zcall stream :=
  match s with
  | Inflating _ _ => mk_zcall (-2) 0 [] s
  | Deflating pending finishing =>
      if avail =? 0 then mk_zcall Z_BUF_ERROR 0 [] s
      else
        let mark := if flush =? Z_SYNC_FLUSH then [x00]
                    else if (flush =? Z_FINISH) && negb finishing then [x02] else [] in
        let all := pending ++ enc input ++ mark in
        let rest := drop (Z.to_nat avail) all in
        mk_zcall (if (flush =? Z_FINISH) && is_nil rest then Z_STREAM_END
                  else if is_nil (take (Z.to_nat avail) all) then Z_BUF_ERROR else Z_OK)
          (length input) (take (Z.to_nat avail) all) (Deflating rest (finishing || (flush =? Z_FINISH)))
  end.

Inductive status := Going | Done | Bad.

Fixpoint inflate_go (half : bool) (avail : nat) (input : list byte) : nat * list byte * bool * status :=
  match input with
  | [] => (0%nat, [], half, Going)
  | b :: input =>
      if half then
        match avail with
        | O => (0%nat, [], half, Going)
        | S avail => let '(t, o, h, st) := inflate_go false avail input in (S t, b :: o, h, st)
        end
      else
        match b with
        | x00 => let '(t, o, h, st) := inflate_go false avail input in (S t, o, h, st)
        | x01 => let '(t, o, h, st) := inflate_go true avail input in (S t, o, h, st)
        | x02 => (1%nat, [], half, Done)
        | _ => (0%nat, [], half, Bad)
        end
  end.

Definition small_inflate (flush : Z) (input : list byte) (avail : Z) (s : stream) : zcall stream :=
  match s with
  | Deflating _ _ => mk_zcall (-2) 0 [] s
  | Inflating half true => mk_zcall Z_STREAM_END 0 [] s
  | Inflating half false =>
      let '(t, o, h, st) := inflate_go half (Z.to_nat avail) input in
      mk_zcall (match st with Going => if (t =? 0)%nat then Z_BUF_ERROR else Z_OK | Done => Z_STREAM_END | Bad => -3 end)
        t o (Inflating h (match st with Done => true | _ => false end))
  end.

#[export] Instance small_zlib : ZlibApi := {|
  zstream := stream;
  deflateInit2 := fun _ _ _ _ => (Z_OK, Deflating [] false);
  inflateInit2 := fun _ => (Z_OK, Inflating false false);
  deflate := small_deflate;
  inflate := small_inflate
|}.

(** ** Streams of deflate() *)

(** Everything written and held back. *)
Definition deflate_inv (ph : phase) (s : stream) (i o : list byte) : Prop :=
  match s with
  | Inflating _ _ => False
  | Deflating pending false => leads false (o ++ pending) i false
  | Deflating pending true =>
      (ph = Again Z_FINISH \/ ph = Ended) /\ exists x, o ++ pending = x ++ [x02] /\ leads false x i false
  end.

Lemma full_take avail all c t s :
  0 <= avail -> full (Zl := small_zlib) avail (mk_zcall c t (take (Z.to_nat avail) all) s) = false ->
  drop (Z.to_nat avail) all = [] /\ take (Z.to_nat avail) all = all.
Proof.
  unfold full. cbn [out]. intros Ha Hf. apply Z.eqb_neq in Hf. rewrite length_take in Hf.
  split; [apply drop_ge|apply take_ge]; lia.
Qed.

Lemma finish_phase avail all c t s :
  0 <= avail ->
  let r := mk_zcall (if is_nil (drop (Z.to_nat avail) all) then Z_STREAM_END else c) t (take (Z.to_nat avail) all) s in
  phase_after (Zl := small_zlib) Z_FINISH avail r = Again Z_FINISH \/ phase_after (Zl := small_zlib) Z_FINISH avail r = Ended.
Proof.
  intros Ha r. unfold phase_after. case_match; [by right|]. case_match eqn:Ef; [by left|].
  apply full_take in Ef as [Ed _]; [|done]. exfalso. subst r. cbn [rc] in *. by rewrite Ed in *.
Qed.

(** What one call writes and holds back, together. *)
Lemma small_deflate_inv ph s i o flush input avail :
  deflate_inv ph s i o -> may ph flush input -> 0 <= avail ->
  let r := small_deflate flush input avail s in
  deflate_inv (phase_after (Zl := small_zlib) flush avail r) (next r) (i ++ take (taken r) input) (o ++ out r).
Proof.
  intros Hi Hm Ha r. subst r. destruct s as [pending fin|]; [|done]. unfold small_deflate.
  destruct (Z.eqb_spec avail 0) as [->|Hne]; cbn [next taken out rc].
  { rewrite take_0, !app_nil_r. destruct fin; [|done]. destruct Hi as [[->| ->] Hx]; [|done]. split; [|done].
    destruct Hm as [-> _]. by left. }
  rewrite firstn_all. set (mark := if flush =? Z_SYNC_FLUSH then _ else _). set (all := pending ++ enc input ++ mark).
  assert (Hall : (o ++ take (Z.to_nat avail) all) ++ drop (Z.to_nat avail) all = o ++ all).
  { rewrite <- app_assoc. by rewrite take_drop. }
  destruct (Z.eqb_spec flush Z_FINISH) as [->|Hf]; rewrite ?orb_true_r, ?orb_false_r; cbn [andb].
  - unfold deflate_inv. split; [by apply finish_phase|]. rewrite Hall. unfold all, mark. destruct fin.
    + destruct Hi as [[->| ->] (x & Hx & Hl)]; [|done]. destruct Hm as [_ ->]; [|done]. exists x. simpl. by rewrite !app_nil_r.
    + exists (o ++ pending ++ enc input). simpl. rewrite !app_assoc. split; [done|].
      eapply leads_app; [done|apply leads_enc].
  - destruct fin.
    { destruct Hi as [[->| ->] _]; [by destruct Hm|done]. }
    unfold deflate_inv. rewrite Hall. unfold all. rewrite app_assoc. eapply leads_app; [done|].
    rewrite <- (app_nil_r input) at 2. eapply leads_app; [apply leads_enc|]. unfold mark.
    cbn [andb]. case_match; [apply leads_flush|apply leads_nil].
Qed.

Lemma deflating_inv f w ph s i o : deflating (Zl := small_zlib) f w ph s i o -> deflate_inv ph s i o.
Proof.
  intros H. induction H as [level ml st s Hf Hl Hw Hm Hs E|ph s i o flush input avail H IH Hm Hin Ha].
  - injection E as <-. apply leads_nil.
  - eapply small_deflate_inv; [done..|]. by destruct Ha.
Qed.

(** ** Streams of inflate() *)

Definition inflate_inv (s : stream) (i o : list byte) : Prop :=
  match s with
  | Deflating _ _ => False
  | Inflating half false => leads false i o half
  | Inflating _ true => scan false i = Some [] /\ o = dec false i
  end.

Lemma leads_cons from half x d h y :
  (forall z, dec from (x :: z) = d ++ dec half z /\ scan from (x :: z) = scan half z) ->
  forall e, leads half y e h -> leads from (x :: y) (d ++ e) h.
Proof. intros H1 e H2. change (x :: y) with ([x] ++ y). by apply (leads_app _ half). Qed.

(** A run of the decoder. *)
Lemma inflate_go_leads half avail input t o h st :
  inflate_go half avail input = (t, o, h, st) -> st <> Bad ->
  (t <= length input)%nat /\ (length o <= avail)%nat /\
  match st with
  | Going => leads half (take t input) o h /\ (length o <> avail -> t = length input)
  | _ => scan half (take t input) = Some [] /\ o = dec half (take t input)
  end.
Proof.
  revert half avail t o h. induction input as [|b input IH]; intros half avail t o h; cbn [inflate_go].
  { intros [= <- <- <- <-] _. simpl. split_and!; try lia; apply leads_nil. }
  destruct half.
  - destruct avail as [|avail].
    { intros [= <- <- <- <-] _. simpl. split_and!; try lia; apply leads_nil. }
    destruct (inflate_go false avail input) as [[[t' o'] h'] st'] eqn:E. intros [= <- <- <- <-] Hb.
    destruct (IH _ _ _ _ _ E Hb) as (H1 & H2 & H3). simpl. split_and!; [lia..|]. destruct st'; [|by destruct H3 as [? ->]..].
    destruct H3 as [H3 H4]. split; [|intros ?; rewrite H4; lia]. by apply (leads_cons _ false _ [b]).
  - destruct b; try (by intros [= <- <- <- <-]).
    + destruct (inflate_go false avail input) as [[[t' o'] h'] st'] eqn:E. intros [= <- <- <- <-] Hb.
      destruct (IH _ _ _ _ _ E Hb) as (H1 & H2 & H3). simpl. split_and!; [lia..|]. destruct st'; [|by destruct H3 as [? ->]..].
      destruct H3 as [H3 H4]. split; [|intros ?; rewrite H4; lia]. by apply (leads_cons _ false _ []).
    + destruct (inflate_go true avail input) as [[[t' o'] h'] st'] eqn:E. intros [= <- <- <- <-] Hb.
      destruct (IH _ _ _ _ _ E Hb) as (H1 & H2 & H3). simpl. split_and!; [lia..|]. destruct st'; [|by destruct H3 as [? ->]..].
      destruct H3 as [H3 H4]. split; [|intros ?; rewrite H4; lia]. by apply (leads_cons _ true _ []).
    + intros [= <- <- <- <-] _. simpl. split_and!; try done; lia.
Qed.

(** Inside a stream nothing is bad, and the decoder stays inside. *)
Lemma inflate_go_inside half avail room extra more t o h st :
  scan half (room ++ more) = Some [] -> extra = [] \/ more = [] ->
  inflate_go half avail (room ++ extra) = (t, o, h, st) -> st <> Bad /\ (t <= length room)%nat.
Proof.
  intros Hs He. revert half avail t o h Hs. induction room as [|b room IH]; intros half avail t o h Hs; cbn [app].
  { destruct He as [->| ->]; [|done]. by intros [= <- <- <- <-]. }
  cbn [inflate_go app scan] in *. destruct half.
  - destruct avail as [|avail]; [intros [= <- <- <- <-]; simpl; split; [done|lia]|].
    destruct (inflate_go false avail (room ++ extra)) as [[[t' o'] h'] st'] eqn:E. intros [= <- <- <- <-].
    destruct (IH _ _ _ _ _ Hs E). simpl. split; [done|lia].
  - destruct b; try done.
    + destruct (inflate_go false avail (room ++ extra)) as [[[t' o'] h'] st'] eqn:E. intros [= <- <- <- <-].
      destruct (IH _ _ _ _ _ Hs E). simpl. split; [done|lia].
    + destruct (inflate_go true avail (room ++ extra)) as [[[t' o'] h'] st'] eqn:E. intros [= <- <- <- <-].
      destruct (IH _ _ _ _ _ Hs E). simpl. split; [done|lia].
    + intros [= <- <- <- <-]. simpl. split; [done|lia].
Qed.

Lemma scan_leads x d h y : leads false x d h -> scan false (x ++ y) = scan h y.
Proof. intros H. apply H. Qed.

Lemma dec_leads x d h : leads false x d h -> dec false x = d.
Proof. intros H. destruct (H []) as [H1 _]. rewrite app_nil_r in H1. rewrite H1. by destruct h; rewrite app_nil_r. Qed.

Lemma scan_some h x y : scan h x = Some [] -> scan h (x ++ y) = Some y.
Proof.
  revert h. induction x as [|b x IH]; intros h; cbn [scan app]; [done|]. destruct h; [apply IH|].
  destruct b; try done; try apply IH. by intros [= ->].
Qed.

Lemma inflating_inv f w s i o : inflating (Zl := small_zlib) f w s i o -> inflate_inv s i o.
Proof.
  intros H. induction H as [s Hf Hw E|s i o flush input avail H IH Hfl Hin Ha r Hr].
  { injection E as <-. apply leads_nil. }
  subst r. cbn [inflate small_zlib] in *. destruct s as [|half [|]]; [done| |]; cbn [small_inflate] in *.
  { cbn [next taken out]. by rewrite take_0, !app_nil_r. }
  destruct (inflate_go half (Z.to_nat avail) input) as [[[t o'] h] st] eqn:E. cbn [next taken out rc] in *.
  destruct st; cbn [inflate_inv] in *.
  - destruct (inflate_go_leads _ _ _ _ _ _ _ E) as (_ & _ & Hl & _); [done|]. by eapply leads_app.
  - destruct (inflate_go_leads _ _ _ _ _ _ _ E) as (_ & _ & Hs & ->); [done|].
    destruct (IH (take t input)) as [-> ->]. done.
  - exfalso. unfold fine_results, Z_OK, Z_BUF_ERROR, Z_STREAM_END in Hr. rewrite !elem_of_cons, elem_of_nil in Hr. lia.
Qed.

(** ** The laws *)

Definition small_calls_left (s : stream) (flush : Z) (input : list byte) : nat :=
  match s with Deflating pending _ => length pending + 2 * length input + 1 | Inflating _ _ => 0 end.

Lemma length_enc d : length (enc d) = (2 * length d)%nat.
Proof. induction d as [|b d IH]; [done|]. change (enc (b :: d)) with ([x01; b] ++ enc d). rewrite length_app, IH. simpl. lia. Qed.

Lemma small_deflate_bounds ph s i o flush input avail :
  deflate_inv ph s i o -> 0 <= avail ->
  let r := small_deflate flush input avail s in
  (taken r <= length input)%nat /\ Z.of_nat (length (out r)) <= avail /\ rc r ∈ fine_results /\
  (rc r = Z_STREAM_END -> flush = Z_FINISH).
Proof.
  intros Hi Ha r. subst r. destruct s as [pending fin|]; [|done]. unfold small_deflate.
  assert (Hfine : Z_OK ∈ fine_results /\ Z_BUF_ERROR ∈ fine_results /\ Z_STREAM_END ∈ fine_results).
  { unfold fine_results. rewrite !elem_of_cons. tauto. }
  destruct (Z.eqb_spec avail 0) as [->|Hne]; cbn [taken out rc].
  { split_and!; [lia|simpl; lia|apply Hfine|done]. }
  split_and!; [lia|rewrite length_take; lia|repeat case_match; apply Hfine|].
  destruct (Z.eqb_spec flush Z_FINISH); [done|]. simpl. by case_match.
Qed.

Lemma small_deflate_left ph s i o flush input avail :
  deflate_inv ph s i o -> may ph flush input -> 0 <= avail ->
  let r := small_deflate flush input avail s in
  full (Zl := small_zlib) avail r = false ->
  taken r = length input /\ (flush = Z_FINISH -> rc r = Z_STREAM_END) /\
  (flush = Z_SYNC_FLUSH -> dec false (o ++ out r) = i ++ input).
Proof.
  intros Hi Hm Ha r Hfull. pose proof (small_deflate_inv ph s i o flush input avail Hi Hm Ha) as Hinv. fold r in Hinv.
  cbn zeta in Hinv. subst r. destruct s as [pending fin|]; [|done]. unfold small_deflate in *.
  destruct (Z.eqb_spec avail 0) as [->|Hne]; [done|]. pose proof (full_take _ _ _ _ _ Ha Hfull) as [Hd Ht].
  cbn [taken out rc next] in *. rewrite Hd, Ht in *. split_and!; [done|by intros ->|].
  intros ->. rewrite firstn_all in Hinv. destruct fin; simpl in Hinv.
  - destruct Hi as [[->| ->] _]; by destruct Hm.
  - rewrite app_nil_r in Hinv. by apply dec_leads in Hinv.
Qed.

Lemma small_deflate_end ph s i o flush input avail :
  deflate_inv ph s i o -> may ph flush input -> 0 <= avail ->
  let r := small_deflate flush input avail s in
  rc r = Z_STREAM_END ->
  taken r = length input /\ scan false (o ++ out r) = Some [] /\ dec false (o ++ out r) = i ++ input.
Proof.
  intros Hi Hm Ha r Hend. pose proof (small_deflate_inv ph s i o flush input avail Hi Hm Ha) as Hinv. fold r in Hinv.
  cbn zeta in Hinv. destruct (small_deflate_bounds ph s i o flush input avail Hi Ha) as (_ & _ & _ & Hf). fold r in Hf.
  specialize (Hf Hend) as ->. subst r. destruct s as [pending fin|]; [|done]. unfold small_deflate in *.
  destruct (Z.eqb_spec avail 0) as [->|Hne]; [done|]. cbn [taken out rc next] in *.
  destruct (drop (Z.to_nat avail) _) as [|b l]; simpl in Hend; [|by repeat case_match].
  rewrite firstn_all in Hinv. rewrite orb_true_r in Hinv. destruct Hinv as [_ (x & Hx & Hl)].
  rewrite app_nil_r in Hx. rewrite Hx. by destruct (leads_end _ _ Hl) as [-> ->].
Qed.

Lemma small_deflate_progress ph s i o flush input avail :
  deflate_inv ph s i o -> 6 < avail ->
  let r := small_deflate flush input avail s in
  full (Zl := small_zlib) avail r = true ->
  (small_calls_left (next r) flush (drop (taken r) input) < small_calls_left s flush input)%nat.
Proof.
  intros Hi Ha r Hfull. subst r. destruct s as [pending fin|]; [|done]. unfold small_deflate, full in *.
  destruct (Z.eqb_spec avail 0) as [->|Hne]; [lia|]. cbn [taken out rc next small_calls_left] in *.
  apply Z.eqb_eq in Hfull. rewrite length_take in Hfull. rewrite length_drop, drop_all. rewrite !length_app, length_enc in *.
  set (mark := if flush =? Z_SYNC_FLUSH then _ else _) in *.
  assert (length mark <= 1)%nat by (unfold mark; repeat case_match; simpl; lia).
  simpl. lia.
Qed.

Lemma small_inflate_stream c s i o flush input avail room extra :
  inflate_inv s i o -> scan false c = Some [] -> feeds c i input room extra -> 0 <= avail ->
  let r := small_inflate flush input avail s in
  (taken r <= length room)%nat /\ Z.of_nat (length (out r)) <= avail /\ rc r ∈ fine_results /\
  o ++ out r `prefix_of` dec false (i ++ take (taken r) room) /\
  (full (Zl := small_zlib) avail r = false ->
     taken r = length room /\ o ++ out r = dec false (i ++ room) /\ (i ++ room = c -> rc r = Z_STREAM_END)) /\
  (rc r = Z_STREAM_END -> i ++ take (taken r) room = c /\ o ++ out r = dec false c).
Proof.
  intros Hi Hc (more & Ec & Ein & Hor) Ha r. subst r.
  assert (Hfine : Z_OK ∈ fine_results /\ Z_BUF_ERROR ∈ fine_results /\ Z_STREAM_END ∈ fine_results).
  { unfold fine_results. rewrite !elem_of_cons. tauto. }
  destruct s as [|half [|]]; [done| |]; cbn [small_inflate inflate_inv] in *.
  { destruct Hi as [Hs ->]. rewrite Ec, (scan_some _ _ _ Hs) in Hc. injection Hc as Hc. apply app_nil in Hc as [-> ->].
    rewrite !app_nil_r in Ec. subst c. cbn [taken out rc]. rewrite take_0, !app_nil_r. split_and!; try done; apply Hfine. }
  assert (Hsc : scan half (room ++ more) = Some []) by (by rewrite Ec, (scan_leads _ _ _ _ Hi) in Hc).
  destruct (inflate_go half (Z.to_nat avail) input) as [[[t o'] h] st] eqn:E. rewrite Ein in E.
  destruct (inflate_go_inside _ _ _ _ _ _ _ _ _ Hsc Hor E) as [Hst Ht].
  destruct (inflate_go_leads _ _ _ _ _ _ _ E Hst) as (_ & Ho & Hpost). cbn [taken out rc]. unfold full. cbn [out].
  rewrite take_app_le in Hpost by done. destruct st; [| |done].
  - destruct Hpost as [Hl Hleft]. pose proof (leads_app _ _ _ _ _ _ _ Hi Hl) as Hl'.
    split_and!; [done|lia|case_match; apply Hfine|by rewrite (dec_leads _ _ _ Hl')| |by case_match].
    intros Hf. apply Z.eqb_neq in Hf. assert (t = length room) as ->.
    { assert (t = length (room ++ extra)) by (apply Hleft; lia). rewrite length_app in *. lia. }
    rewrite firstn_all in Hl'. split_and!; [done|by rewrite (dec_leads _ _ _ Hl')|]. intros Hic. exfalso.
    rewrite <- Hic in Hc. rewrite <- (app_nil_r (i ++ room)), (scan_leads _ _ _ _ Hl') in Hc. done.
  - destruct Hpost as [Hs ->]. assert (Hroom : take t room = room /\ more = []).
    { rewrite <- (take_drop t room), <- app_assoc, (scan_some _ _ _ Hs) in Hsc. injection Hsc as Hsc.
      apply app_nil in Hsc as [Hd ->]. split; [|done]. rewrite <- (take_drop t room) at 2. by rewrite Hd, app_nil_r. }
    destruct Hroom as [Hr ->]. rewrite Hr in *. rewrite app_nil_r in Ec. subst c. destruct (Hi room) as [<- _].
    split_and!; try done; [lia|apply Hfine|].
    intros _. split_and!; try done. apply (f_equal length) in Hr. rewrite length_take in Hr. lia.
Qed.

#[export] Instance small_zlib_laws : ZlibLaws small_zlib.
Proof.
  refine {| decoded := fun _ => dec false; is_stream := fun _ _ c => scan false c = Some [];
            calls_left := (small_calls_left : zstream -> _) |}.
  - intros f w x y _. apply dec_grows.
  - intros. by eexists.
  - intros f w ph s i o flush input avail H _ _ [Ha _]. apply deflating_inv in H. by eapply small_deflate_bounds.
  - intros f w ph s i o flush input avail H Hm _ [Ha _]. apply deflating_inv in H. by eapply small_deflate_left.
  - intros f w ph s i o flush input avail H Hm _ [Ha _]. apply deflating_inv in H. by eapply small_deflate_end.
  - intros f w ph s i o flush input avail H _ _ _ r H6 Hf _. apply deflating_inv in H. by eapply small_deflate_progress.
  - intros. by eexists.
  - intros f w w' c s i o flush input avail room extra H Hs _ Hfe _ _ [Ha _]. apply inflating_inv in H.
    by eapply small_inflate_stream.
Defined.

End SmallZlib.
