(* ===== verification/ZlibTheorems.v ===== *)
(** * Bodies in compressed form

    [handle_body] of src/web/restinio/restinio/transforms/zlib.hpp, and what the
    transformer of [Zlib] does to bodies: compression and decompression are inverse to
    each other whatever the pieces, a flush makes everything available, a request body
    is handed over decoded.  A body that is cut short is taken for a complete one, and
    an octet after the end of a stream keeps the server in a loop. *)

From S2P Require Import Prelude Effects HttpFields HttpHeaders Zlib ZlibLaws ZlibTheory SmallZlib.

Module ZlibTheorems.
Import Params Effects Caseless HttpField Zlib ZlibLaws ZlibTheory.

(** ** Handling a body *)

Inductive handled (A : Type) := Answer (a : A) | Thrown | UndefinedBody | StillDecoding.
Arguments Answer {A} a.
Arguments Thrown {A}.
Arguments UndefinedBody {A}.
Arguments StillDecoding {A}.

Section HandleBody.
Context {Zl : ZlibApi} {A : Type}.

Definition call_with (handler : list byte -> A) (r : result) : handled A :=
  match r with Value s => Answer (handler s) | Exception => Thrown | Undefined => UndefinedBody | Running => StillDecoding end.

Definition handle_body (rounds : nat) (fields : Fields.http_header_fields_t) (body : list byte)
    (handler : list byte -> A) : handled A :=
  let content_encoding_value := Fields.get_field_or_by_id content_encoding (bs "identity") fields in
  if is_equal_caseless content_encoding_value (bs "deflate") then call_with handler (deflate_decompress rounds body)
  else if is_equal_caseless content_encoding_value (bs "gzip") then call_with handler (gzip_decompress rounds body)
  else if negb (is_equal_caseless content_encoding_value (bs "identity")) then Thrown
  else Answer (handler body).

End HandleBody.

Section Theorems.
Context {Zl : ZlibApi} {ZL : ZlibLaws Zl}.

(** C21. Compression and decompression are inverse to each other.  Take any session with a
    compressing transformer: data written in pieces below 4 GiB, with flushes and with
    output taken out in between.  It ends, it can be completed, and everything taken out,
    cut into pieces in any way and fed to a decompressing transformer of the same format
    whose window is not smaller, gives back exactly what was written; that session ends
    too.  A completed transformer refuses every further call. *)
Theorem zlib_roundtrip (p q : params_t) (ops : list zop) :
  narrow p -> narrow q -> m_operation p = compress -> m_operation q = decompress ->
  m_format p = m_format q -> m_format p <> identity ->
  m_window_bits q = 0 \/ m_window_bits p <= m_window_bits q -> Forall zop_ok ops ->
  exists z n out z', construct p = Ok z /\ closed z' /\
    (forall rounds, (n <= rounds)%nat -> finish_session rounds ops z = Ret out z') /\
    forall ops', data_of ops' = out -> Forall zop_ok ops' ->
      exists y m y', construct q = Ok y /\ closed y' /\
        (forall rounds, (m <= rounds)%nat -> finish_session rounds ops' y = Ret (data_of ops) y').
Proof.
  intros Hp Hq Hop Hoq Ef Hf Hw Hops.
  destruct (compression_session p ops Hp Hop Hf Hops) as (z & n & out & z' & Ez & Hrun & Hcl & Hst & Hdec).
  exists z, n, out, z'. split_and!; try done. intros ops' <- Hops'.
  destruct (decompression_session (m_window_bits p) q ops' []) as (y & m & y' & Ey & Hcy & Hr); try done; [congruence| |].
  { rewrite app_nil_r. split; [|done]. by rewrite <- Ef. }
  exists y, m, y'. split_and!; try done. by rewrite <- Ef, Hdec in Hr.
Qed.

(** What was taken out up to a flush already decodes to everything written. *)
Lemma flush_makes_available p ops :
  narrow p -> m_operation p = compress -> m_format p <> identity -> Forall zop_ok ops ->
  exists z n out z', construct p = Ok z /\
    (forall rounds, (n <= rounds)%nat -> run_zops rounds (ops ++ [op_flush; op_giveaway]) z = Ret out z') /\
    decoded (m_format p) out = data_of ops.
Proof.
  intros Hp Hop Hf Hops. destruct (construct_compressing p Hp Hop Hf) as (z & Ez & Ep & Ha & Hc).
  destruct (compress_zops ops [] [] z Hc Ha Hops) as (n1 & o1 & z1 & R1 & S1 & C1).
  destruct (compress_zop op_flush _ _ _ C1 (active_same _ _ S1 Ha)) as (n2 & o2 & z2 & R2 & S2 & C2 & Hdec); [done|].
  destruct (giveaway_run z2 (c_fits _ _ _ _ C2)) as [E _]. specialize (Hdec eq_refl). destruct S1 as [Ep1 _].
  assert (o2 = []) as ->.
  { specialize (R2 n2 (le_n _)). cbn [apply_zop] in R2. unfold bind in R2. destruct (flush n2 z1); [|done..]. by injection R2. }
  exists z, (n1 + n2)%nat, (o1 ++ written z2), (with_buffer [] 0 z2). rewrite Ep1, Ep in Hdec. split_and!; [done| |done].
  intros rounds Hr.
  assert (R1' : run_zops rounds ops z = Ret o1 z1) by (apply R1; lia).
  assert (R2' : apply_zop rounds op_flush z1 = Ret [] z2) by (apply R2; lia).
  clear -E R1' R2'. revert z o1 R1'. induction ops as [|o ops IH]; intros z o1 R1'.
  - injection R1' as <- <-. cbn [run_zops app]. unfold bind at 1. rewrite R2'. unfold bind. cbn [run_zops apply_zop].
    unfold bind. rewrite E. cbn. by rewrite app_nil_r.
  - cbn [run_zops app] in *. unfold bind in *. destruct (apply_zop rounds o z) as [a c| | | | |]; [|done..].
    destruct (run_zops rounds ops c) as [b c'| | | | |] eqn:Er; [|done..]. injection R1' as <- ->.
    rewrite (IH _ _ Er). cbn. by rewrite app_assoc.
Qed.

(** ** Transformations in one call *)

Lemma transform_session rounds p z input s z' :
  construct p = Ok z -> finish_session rounds [op_write input] z = Ret s z' -> transform rounds input p = Value s.
Proof.
  intros Ez. unfold transform. rewrite Ez. unfold finish_session. cbn [run_zops apply_zop]. unfold bind, ret.
  destruct (write rounds input z) as [u c| | | | |]; [|done..]. destruct (complete rounds c) as [u' c'| | | | |]; [|done..].
  destruct (giveaway_output c') as [o c2| | | | |]; [|done..]. by intros [= -> _].
Qed.

Lemma compress_value p d :
  narrow p -> m_operation p = compress -> m_format p <> identity -> uint (Z.of_nat (length d)) ->
  exists n c, (forall rounds, (n <= rounds)%nat -> transform rounds d p = Value c) /\
    is_stream (m_format p) (m_window_bits p) c /\ decoded (m_format p) c = d.
Proof.
  intros Hp Hop Hf Hd. destruct (compression_session p [op_write d] Hp Hop Hf) as (z & n & c & z' & Ez & Hrun & _ & Hst & Hdec).
  { by apply Forall_singleton. }
  exists n, c. split_and!; [|done|by rewrite Hdec; simpl; rewrite app_nil_r].
  intros rounds Hr. eapply transform_session; [done|]. by apply Hrun.
Qed.

Lemma decompress_value w p c more :
  narrow p -> m_operation p = decompress -> m_format p <> identity -> uint (Z.of_nat (length c)) ->
  readable w (c ++ more) p ->
  exists n, forall rounds, (n <= rounds)%nat -> transform rounds c p = Value (decoded (m_format p) c).
Proof.
  intros Hp Hop Hf Hd Hr. assert (Hdata : data_of [op_write c] = c) by apply app_nil_r.
  destruct (decompression_session w p [op_write c] more Hp Hop Hf) as (z & n & z' & Ez & _ & Hrun).
  { by apply Forall_singleton. }
  { by rewrite Hdata. }
  exists n. rewrite Hdata in Hrun. intros rounds Hro. eapply transform_session; [done|]. by apply Hrun.
Qed.

(** Octets after the end of a stream: the call never returns. *)
Lemma decompress_never_returns w p c extra rounds :
  narrow p -> m_operation p = decompress -> m_format p <> identity -> uint (Z.of_nat (length (c ++ extra))) ->
  readable w c p -> extra <> [] -> transform rounds (c ++ extra) p = Running.
Proof.
  intros Hp Hop Hf Hd Hr Hex. destruct (construct_decompressing p Hp Hop Hf) as (z & Ez & Ep & Ha & Hdz).
  unfold transform. rewrite Ez. unfold bind at 1. rewrite write_active by done.
  destruct (c ++ extra) as [|b l] eqn:E; [by apply app_nil in E as [_ ->]|].
  unfold bind at 1, upd, write_impl, bind at 1, gets. cbn [id with_input m_params]. rewrite Ep, Hop.
  rewrite (decompress_loop_extra rounds w c [] [] Z_NO_FLUSH c extra); try done.
  - by apply with_input_decompressing.
  - cbn [with_input m_params]. by rewrite Ep.
  - exists []. simpl. rewrite app_nil_r. split_and!; [done|by rewrite E|by right].
  - apply flushes_all.
Qed.

(** ** Bodies of requests *)

(** The parameters [handle_body] decompresses with. *)
Definition body_params (f : format_t) : params_t :=
  mk_params decompress f (-1) default_window_bits default_mem_level default_strategy default_output_reserve_buffer_size.

Lemma body_params_narrow f : narrow (body_params f).
Proof.
  split; [|done]. destruct (params_params_ok decompress f (-1) (body_params f)) as [H _]; [reflexivity|exact H].
Qed.

Definition encoding_of (fields : Fields.http_header_fields_t) : list byte :=
  Fields.get_field_or_by_id content_encoding (bs "identity") fields.

Lemma caseless_same a b c : is_equal_caseless a b = true -> is_equal_caseless a c = is_equal_caseless b c.
Proof.
  intros H%is_equal_caseless_iff. apply eq_true_iff_eq. rewrite !is_equal_caseless_iff. by rewrite H.
Qed.

(** A body with a supported encoding. *)
Lemma handle_body_encoded {A} rounds fields body (handler : list byte -> A) f :
  f <> identity -> is_equal_caseless (encoding_of fields) (content_encoding_token f) = true ->
  handle_body rounds fields body handler = call_with handler (transform rounds body (body_params f)).
Proof.
  intros Hf He. unfold handle_body. fold (encoding_of fields). rewrite !(caseless_same _ _ _ He).
  by destruct f.
Qed.

Definition supported (f : format_t) (w : Z) (body : list byte) : Prop :=
  f <> identity /\ w <= MAX_WBITS /\ uint (Z.of_nat (length body)).

Lemma body_readable f w c : w <= MAX_WBITS -> is_stream f w c -> readable w c (body_params f).
Proof. intros Hw Hs. split; [done|]. right. exact Hw. Qed.

(** C22. [handle_body].  The name of the encoding is compared without regard to case.  A
    body in deflate or gzip form, below 4 GiB, is decompressed, which ends, and the
    handler is called with what it holds; in particular it gets back what was compressed
    for the same encoding.  With the encoding identity or none at all it gets the body as
    it is; any other encoding is an exception. *)
Theorem request_body_decoded {A} (fields : Fields.http_header_fields_t) (body : list byte) (handler : list byte -> A)
    (f : format_t) (w : Z) (d : list byte) :
  (is_equal_caseless (encoding_of fields) (content_encoding_token f) = true -> supported f w body ->
   is_stream f w body -> decoded f body = d ->
   exists n, forall rounds, (n <= rounds)%nat -> handle_body rounds fields body handler = Answer (handler d)) /\
  (is_equal_caseless (encoding_of fields) (content_encoding_token f) = true -> f <> identity -> uint (Z.of_nat (length d)) ->
   forall p, narrow p -> m_operation p = compress -> m_format p = f ->
   exists n c, (forall rounds, (n <= rounds)%nat -> transform rounds d p = Value c) /\
     (uint (Z.of_nat (length c)) -> exists m, forall rounds, (m <= rounds)%nat ->
        handle_body rounds fields c handler = Answer (handler d))) /\
  (is_equal_caseless (encoding_of fields) (bs "identity") = true ->
   forall rounds, handle_body rounds fields body handler = Answer (handler body)) /\
  ((forall g, is_equal_caseless (encoding_of fields) (content_encoding_token g) = false) ->
   forall rounds, handle_body rounds fields body handler = Thrown).
Proof using ZL.
  assert (Hval : forall c, is_equal_caseless (encoding_of fields) (content_encoding_token f) = true ->
    forall w, supported f w c -> is_stream f w c ->
    exists n, forall rounds, (n <= rounds)%nat -> handle_body rounds fields c handler = Answer (handler (decoded f c))).
  { intros c He w' (Hf & Hw & Hl) Hs.
    destruct (decompress_value w' (body_params f) c []) as (n & Hn); try done; [apply body_params_narrow| |].
    { rewrite app_nil_r. by apply body_readable. }
    exists n. intros rounds Hr. rewrite (handle_body_encoded _ _ _ _ f) by done. by rewrite Hn. }
  split_and!.
  - intros He Hsup Hs <-. by apply (Hval _ He w).
  - intros He Hf Hd p Hp Hop Ef. destruct (compress_value p d) as (n & c & Hn & Hs & Hdec); try done; [by rewrite Ef|].
    exists n, c. split; [done|]. intros Hc. rewrite Ef in *. rewrite <- Hdec. apply (Hval _ He (m_window_bits p)); [|done].
    split_and!; [done| |done]. destruct Hp as [(_ & [?|[_ ?]] & _) _]; [lia|congruence].
  - intros He rounds. unfold handle_body. fold (encoding_of fields). by rewrite !(caseless_same _ _ _ He).
  - intros Hn rounds. unfold handle_body. fold (encoding_of fields).
    by rewrite (Hn Params.deflate : is_equal_caseless _ (bs "deflate") = false), (Hn gzip : is_equal_caseless _ (bs "gzip") = false),
      (Hn identity : is_equal_caseless _ (bs "identity") = false).
Qed.

(** A body that is only the beginning of a stream is handed over like a complete one. *)
Lemma truncated_body_accepted {A} fields body more (handler : list byte -> A) f w :
  is_equal_caseless (encoding_of fields) (content_encoding_token f) = true -> supported f w body ->
  is_stream f w (body ++ more) ->
  exists n, forall rounds, (n <= rounds)%nat -> handle_body rounds fields body handler = Answer (handler (decoded f body)).
Proof.
  intros He (Hf & Hw & Hl) Hs.
  destruct (decompress_value w (body_params f) body more) as (n & Hn); try done; [apply body_params_narrow|by apply body_readable|].
  exists n. intros rounds Hr. rewrite (handle_body_encoded _ _ _ _ f) by done. by rewrite Hn.
Qed.

(** A body with octets after the end of its stream is never answered. *)
Lemma trailing_octets_never_answered {A} rounds fields body extra (handler : list byte -> A) f w :
  is_equal_caseless (encoding_of fields) (content_encoding_token f) = true -> supported f w (body ++ extra) ->
  is_stream f w body -> extra <> [] -> handle_body rounds fields (body ++ extra) handler = StillDecoding.
Proof.
  intros He (Hf & Hw & Hl) Hs Hex. rewrite (handle_body_encoded _ _ _ _ f) by done.
  by rewrite (decompress_never_returns w) by (done || apply body_params_narrow || by apply body_readable).
Qed.

(** ** Too large a reserve *)

(** The setter takes 2^32, and then a round counts 2^32 octets as written although zlib
    was given no space. *)
Lemma wide_reserve_counts_nothing p d :
  params_ok p -> m_reserve_buffer_size p = 2 ^ 32 -> m_operation p = compress -> m_format p <> identity ->
  uint (Z.of_nat (length d)) ->
  exists z z', construct p = Ok z /\ write_round Zlib.deflate compress_result_ok Z_NO_FLUSH (with_input d z) = Ret true z' /\
    m_write_pos z' = 2 ^ 32.
Proof.
  intros (Hl & Hw & Hm & Hs & _) Hr Hop Hf Hd.
  assert (Hw' : 9 <= m_window_bits p <= MAX_WBITS) by (destruct Hw as [?|[_ ?]]; [done|congruence]).
  destruct (deflate_init_ok _ _ _ _ _ Hf Hl Hw' Hm Hs) as (s & Es).
  pose proof (deflating_init _ _ _ _ _ _ Hf Hl Hw' Hm Hs Es) as Hdef.
  assert (Hmay : may Free Z_NO_FLUSH d) by apply flushes_all.
  destruct (deflate_bounds _ _ _ _ _ _ _ _ 0 Hdef Hmay Hd) as (Ht & Ho & Hrc & Hend); [done|]. cbn zeta in *.
  set (z := enlarged (mk_zlib p (Some s) [] 0 [] 0 false)).
  assert (Hsize : buffer_size z = 2 ^ 32).
  { unfold z, enlarged, buffer_size, with_buffer, resize. cbn [m_out_buffer m_params]. rewrite Hr, take_nil. cbn [app].
    rewrite length_replicate. cbn [length]. rewrite Nat.sub_0_r, Z2Nat.id; lia. }
  eexists z, _. split_and!.
  - unfold construct, is_identity. cbn [m_params]. rewrite bool_decide_false by congruence. rewrite Hop.
    unfold current_window_bits. fold (gzip_bits (m_format p)). by rewrite Es.
  - unfold write_round, bind, prepare_out_buffer, gets, upd, bind, ret. cbn [id].
    change (buffer_size (with_input d z)) with (buffer_size z). rewrite Hsize. cbn [with_input m_write_pos].
    change (m_write_pos z) with 0. change (wrap 32 (2 ^ 32 - 0)) with 0. unfold call_zlib. cbn [with_avail_out with_input m_zlib_stream next_in avail_out].
    change (m_zlib_stream z) with (Some s). cbn iota beta. rewrite (proj2 (Z.ltb_ge _ _)), (proj2 (Nat.ltb_ge _ _)) by done. cbn [orb].
    rewrite fine_compress_result by done. cbn [negb]. unfold add_written, upd. cbn [avail_out with_buffer].
    assert (length (out (Zlib.deflate Z_NO_FLUSH d 0 s)) = 0%nat) as -> by lia.
    rewrite (proj2 (Z.eqb_neq Z_STREAM_END _)).
    + reflexivity.
    + intros E. by apply (eq_sym) in E; apply Hend in E.
  - reflexivity.
Qed.

End Theorems.

(** ** Runs *)

#[local] Existing Instances SmallZlib.small_zlib SmallZlib.small_zlib_laws.

Definition sample_params (op : operation_t) : params_t := mk_params op gzip (-1) 12 9 0 16.

Lemma sample_params_narrow op : narrow (sample_params op).
Proof.
  split; [|done]. unfold params_ok, MAX_WBITS, MAX_MEM_LEVEL, Z_DEFAULT_STRATEGY. simpl.
  split_and!; try lia. apply elem_of_cons. by left.
Qed.

Definition sample_session : list zop :=
  [op_write (bs "Hello, "); op_flush; op_giveaway; op_write (bs "wide wide world"); op_giveaway; op_write []; op_write (bs "!")].

(** Everything that was taken out, one octet at a time. *)
Definition one_by_one (s : list byte) : list zop := map (fun b => op_write [b]) s.

Lemma one_by_one_data s : data_of (one_by_one s) = s.
Proof. induction s as [|b s IH]; [done|]. cbn. by rewrite <- IH at 2. Qed.

Lemma one_by_one_ok s : Forall zop_ok (one_by_one s).
Proof. apply Forall_map. apply Forall_true. done. Qed.

Lemma zlib_roundtrip_witness :
  exists z n out z', construct (sample_params compress) = Ok z /\
    (forall rounds, (n <= rounds)%nat -> finish_session rounds sample_session z = Ret out z') /\
    exists y m y', construct (sample_params decompress) = Ok y /\
      (forall rounds, (m <= rounds)%nat -> finish_session rounds (one_by_one out) y = Ret (bs "Hello, wide wide world!") y').
Proof.
  destruct (zlib_roundtrip (sample_params compress) (sample_params decompress) sample_session)
    as (z & n & out & z' & Ez & _ & Hrun & Hback).
  - apply sample_params_narrow.
  - apply sample_params_narrow.
  - reflexivity.
  - reflexivity.
  - reflexivity.
  - done.
  - right. done.
  - repeat (constructor; [unfold zop_ok, uint; simpl; lia|]). constructor.
  - exists z, n, out, z'. split; [exact Ez|]. split; [exact Hrun|].
    destruct (Hback (one_by_one out) (one_by_one_data out) (one_by_one_ok out)) as (y & m & y' & Ey & _ & Hr).
    exists y, m, y'. split; [exact Ey|]. exact Hr.
Defined.

(** The same session evaluated: 9 rounds are enough for every call. *)
Lemma sample_session_run :
  (let? z := construct (sample_params compress) in
   match finish_session 9 sample_session z with Ret out _ => Ok out | _ => Throw "" end)
  = Ok (SmallZlib.enc (bs "Hello, ") ++ [x00] ++ SmallZlib.enc (bs "wide wide world!") ++ [x02]).
Proof. vm_compute. reflexivity. Qed.

Definition gzip_fields : Fields.http_header_fields_t :=
  Fields.add_field_by_id content_encoding (bs "GZip") [].
Definition sample_body : list byte := SmallZlib.enc (bs "ab") ++ [x02].

Lemma request_body_decoded_witness :
  exists n, forall rounds, (n <= rounds)%nat -> handle_body rounds gzip_fields sample_body id = Answer (bs "ab").
Proof.
  destruct (request_body_decoded gzip_fields sample_body id gzip 15 (bs "ab")) as [H _]. apply H.
  - reflexivity.
  - split; [done|]. split; [done|]. split; reflexivity || (vm_compute; discriminate).
  - reflexivity.
  - reflexivity.
Defined.

(** A body without its last octets is answered all the same, one octet too many never. *)
Lemma cut_and_overlong_bodies rounds :
  (exists n, forall rounds, (n <= rounds)%nat -> handle_body rounds gzip_fields (take 3 sample_body) id = Answer (bs "a")) /\
  handle_body rounds gzip_fields (sample_body ++ [x2e]) (id : list byte -> list byte) = StillDecoding.
Proof.
  split.
  - change (bs "a") with (id (decoded gzip (take 3 sample_body))).
    apply (truncated_body_accepted gzip_fields (take 3 sample_body) (drop 3 sample_body) id gzip 15); try reflexivity.
    split; [done|]. split; [done|]. split; reflexivity || (vm_compute; discriminate).
  - apply (trailing_octets_never_answered _ _ _ _ _ gzip 15); try done.
Qed.

End ZlibTheorems.
