(* ===== verification/BodyAppender.v ===== *)
(** * Body appenders

    Model of the body appenders of src/web/restinio/restinio/transforms/zlib.hpp: a
    transformer ([Zlib]) in front of one of the three response builders ([Response],
    [UserOutput], [ChunkedOutput]).  The theorems are in [AppenderTheorems]. *)

From S2P Require Import Prelude Effects Coordinator HttpFields HttpHeaders HttpResponse ResponseBuilders UserOutput.
From S2P Require Import ChunkedOutput Zlib.

Module BodyAppender.
Import Params Effects HttpField Zlib Buffers.
Import Response(sent_t, http_response_header_t).
Open Scope effects_scope.

(** What an appender needs of the builder it works on: [append_header] for all,
    [append_body] for the restinio-controlled and the user-controlled one. *)
Class HeaderBuilder (B : Type) := builder_append_header : http_field_t -> list byte -> B -> B.
Class BodyBuilder (B : Type) := builder_append_body : list byte -> B -> B.

Definition add_header (id : http_field_t) (value : list byte) (h : http_response_header_t) : http_response_header_t :=
  Response.with_fields (Fields.add_field_by_id id value (Response.m_fields h)) h.

#[export] Instance restinio_header : HeaderBuilder Response.response_builder_t := Response.append_header_by_id.
#[export] Instance restinio_body : BodyBuilder Response.response_builder_t := Response.append_body.
#[export] Instance user_header : HeaderBuilder UserOutput.response_builder_t :=
  fun id value => UserOutput.with_header (add_header id value).
#[export] Instance user_body : BodyBuilder UserOutput.response_builder_t :=
  fun body => UserOutput.append_body (trivial_write_operation body).
#[export] Instance chunked_header : HeaderBuilder ChunkedOutput.response_builder_t :=
  fun id value => ChunkedOutput.with_header (add_header id value).

Section Base.
Context {Zl : ZlibApi} {B : Type}.

(** The appender with the builder it refers to, and what that builder has handed to the
    connection. *)
Record body_appender_t := mk_appender {
  m_ztransformator : option zlib_t;    (* [None]: moved from *)
  m_resp : B;
  m_sent : list sent_t
}.

Definition with_transformator (z : option zlib_t) (a : body_appender_t) : body_appender_t :=
  mk_appender z (m_resp a) (m_sent a).

Definition ensure_valid_transforator : M body_appender_t unit := fun a =>
  match m_ztransformator a with None => Raise a | Some _ => Ret tt a end.

(** A call through [m_ztransformator]. *)
Definition transformator {A} (m : M zlib_t A) : M body_appender_t A := fun a =>
  match m_ztransformator a with
  | None => Undef
  | Some z =>
      match m z with
      | Ret x z => Ret x (with_transformator (Some z) a)
      | Raise z => Raise (with_transformator (Some z) a)
      | RaiseOther z => RaiseOther (with_transformator (Some z) a)
      | Terminate => Terminate
      | Undef => Undef
      | Deep => Deep
      end
  end.

Definition resp (f : B -> B) : M body_appender_t unit :=
  upd (fun a => mk_appender (m_ztransformator a) (f (m_resp a)) (m_sent a)).

(** A call of the builder that may hand something to the connection. *)
Definition resp_sends (f : B -> outcome (B * list sent_t)) : M body_appender_t unit := fun a =>
  match f (m_resp a) with
  | Ok (b, sent) => Ret tt (mk_appender (m_ztransformator a) b (m_sent a ++ sent))
  | Throw _ => Raise a
  end.

(** The constructor of [body_appender_base_t]. *)
Definition body_appender {HB : HeaderBuilder B} (b : B) (p : params_t) : outcome body_appender_t :=
  let? z := construct p in
  if negb (bool_decide (compress = m_operation p)) then Throw "operation is not copress"
  else Ok (mk_appender (Some z) (builder_append_header content_encoding (content_encoding_token (m_format p)) b) []).

(** The move constructor: the new appender and what is left of the old one. *)
Definition move (a : body_appender_t) : body_appender_t * body_appender_t := (a, with_transformator None a).

Definition append (rounds : nat) (input : list byte) : M body_appender_t unit :=
  ensure_valid_transforator;;
  transformator (write rounds input).

(** [x_controlled_output_body_appender_base_t::complete] *)
Definition x_complete {BB : BodyBuilder B} (rounds : nat) : M body_appender_t unit :=
  ensure_valid_transforator;;
  transformator (complete rounds);;
  do out <- transformator giveaway_output;
  resp (builder_append_body out).

Definition deflate_body_appender {HB : HeaderBuilder B} (b : B) (compression_level : Z) : outcome body_appender_t :=
  let? p := make_deflate_compress_params compression_level in body_appender b p.
Definition gzip_body_appender {HB : HeaderBuilder B} (b : B) (compression_level : Z) : outcome body_appender_t :=
  let? p := make_gzip_compress_params compression_level in body_appender b p.
Definition identity_body_appender {HB : HeaderBuilder B} (b : B) : outcome body_appender_t :=
  let? p := make_identity_params in body_appender b p.

End Base.

Arguments body_appender_t {Zl} B.

Section Builders.
Context {Zl : ZlibApi} {Fm : ChunkedOutput.FmtUpperHex}.

(** [body_appender_t< restinio_controlled_output_t >::size] *)
Definition restinio_size : M (body_appender_t Response.response_builder_t) Z :=
  ensure_valid_transforator;;
  transformator (gets output_size).

(** [body_appender_t< user_controlled_output_t >::flush] *)
Definition user_flush (rounds : nat) : M (body_appender_t UserOutput.response_builder_t) unit :=
  ensure_valid_transforator;;
  transformator (flush rounds);;
  do out <- transformator giveaway_output;
  resp (builder_append_body out);;
  resp_sends (UserOutput.flush None).

(** A call of the chunked builder, which may be undefined. *)
Definition resp_chunked
    (f : ChunkedOutput.response_builder_t -> option (outcome (ChunkedOutput.response_builder_t * list sent_t)))
    : M (body_appender_t ChunkedOutput.response_builder_t) unit := fun a =>
  match f (m_resp a) with
  | Some r => resp_sends (fun _ => r) a
  | None => Undef
  end.

Definition append_chunk (out : list byte) : M (body_appender_t ChunkedOutput.response_builder_t) unit :=
  resp (ChunkedOutput.append_chunk (trivial_write_operation out)).

Definition make_chunk (rounds : nat) (input : list byte) : M (body_appender_t ChunkedOutput.response_builder_t) unit :=
  append rounds input;;
  transformator (flush rounds);;
  do out <- transformator giveaway_output;
  append_chunk out.

Definition chunked_flush (rounds : nat) : M (body_appender_t ChunkedOutput.response_builder_t) unit :=
  ensure_valid_transforator;;
  do is_complete <- transformator (gets is_completed);
  (if negb is_complete then
     transformator (flush rounds);;
     do out <- transformator giveaway_output;
     append_chunk out
   else ret tt);;
  resp_chunked (ChunkedOutput.flush None).

Definition chunked_complete (rounds : nat) : M (body_appender_t ChunkedOutput.response_builder_t) unit :=
  ensure_valid_transforator;;
  transformator (complete rounds);;
  do out <- transformator giveaway_output;
  append_chunk out.

End Builders.

End BodyAppender.
