(* ===== verification/AppenderTheorems.v ===== *)
(** * Compressed responses

    Theorems about the body appenders of [BodyAppender] over any zlib that keeps
    [ZlibLaws]: the body that reaches the client, taken out of its chunks if there are
    any, is one stream that holds the data appended, and the header says so. *)

From S2P Require Import Prelude Effects Coordinator HttpFields HttpHeaders HttpResponse ResponseBuilders UserOutput.
From S2P Require Import ChunkedOutput Zlib ZlibLaws ZlibTheory SmallZlib BodyAppender.

Module AppenderTheorems.
Import Params Effects HttpField Zlib ZlibLaws ZlibTheory Buffers BodyAppender.
Import Response(sent_t, http_response_header_t, size).

Section Theorems.
Context {Zl : ZlibApi} {ZL : ZlibLaws Zl}.

(** ** Transformers of any format *)

(** The octets [c] are what a transformer with parameters [p] makes of [d]. *)
Definition holds (p : params_t) (c d : list byte) : Prop :=
  if decide (m_format p = identity) then c = d
  else is_stream (m_format p) (m_window_bits p) c /\ decoded (m_format p) c = d.

(** The transformer has read [i]; [given] was taken out. *)
Definition transforming (p : params_t) (i given : list byte) (z : zlib_t) : Prop :=
  m_params z = p /\ m_operation_is_complete z = false /\
  if decide (m_format p = identity)
  then given ++ m_out_buffer z = i /\ m_write_pos z = Z.of_nat (length (m_out_buffer z))
  else compressing Free i given z.

Lemma transforming_active p i given z : transforming p i given z -> m_format p <> identity -> active z.
Proof. intros (<- & Hc & _) Hf. by split. Qed.

Lemma identity_giveaway z :
  m_write_pos z = Z.of_nat (length (m_out_buffer z)) -> giveaway_output z = Ret (m_out_buffer z) (with_buffer [] 0 z).
Proof.
  intros Hp. unfold giveaway_output, bind, gets, upd, ret, resize. cbn [id]. rewrite Hp, Nat2Z.id, firstn_all, Nat.sub_diag.
  by rewrite app_nil_r.
Qed.

Lemma is_identity_true z : m_format (m_params z) = identity -> is_identity z = true.
Proof. intros H. unfold is_identity. by rewrite bool_decide_true. Qed.

Lemma transforming_start p :
  narrow p -> m_operation p = compress -> exists z, construct p = Ok z /\ transforming p [] [] z.
Proof.
  intros Hn Hop. unfold transforming. destruct (decide (m_format p = identity)) as [Ef|Hf].
  - eexists. split; [unfold construct; by rewrite is_identity_true|]. done.
  - destruct (construct_compressing p Hn Hop Hf) as (z & Ez & Ep & [_ Ha] & Hc). exists z. by split_and!.
Qed.

Lemma transforming_write p i given d z :
  transforming p i given z -> uint (Z.of_nat (length d)) ->
  exists n z', (forall rounds, (n <= rounds)%nat -> write rounds d z = Ret tt z') /\ transforming p (i ++ d) given z'.
Proof.
  intros Ht Hd. pose proof Ht as (Ep & Hc & H). destruct (decide (m_format p = identity)) as [Ef|Hf].
  - destruct H as [<- Hp]. exists 0%nat. eexists. split.
    + intros rounds _. unfold write, bind at 1. rewrite not_completed_run by done. unfold bind, gets, upd. cbn [id].
      rewrite is_identity_true by (by rewrite Ep). reflexivity.
    + unfold transforming. rewrite decide_True by done. simpl. by rewrite app_assoc.
  - pose proof (transforming_active _ _ _ _ Ht Hf) as Ha.
    destruct (compress_zop (op_write d) i given z H Ha Hd) as (n & out & z' & Hrun & Hso & Hcomp & _).
    exists n, z'. cbn [apply_zop op_data] in *. destruct Hso as [Ep' Ec'].
    assert (Hout : forall rounds, (n <= rounds)%nat -> write rounds d z = Ret tt z' /\ out = []).
    { intros rounds Hr. specialize (Hrun rounds Hr). unfold bind in Hrun.
      destruct (write rounds d z) as [[] c| | | | |]; [|done..]. by injection Hrun as <- ->. }
    split; [intros; by apply Hout|]. destruct (Hout n (le_n _)) as [_ ->]. rewrite app_nil_r in Hcomp.
    unfold transforming. rewrite decide_False by done. split_and!; congruence.
Qed.

(** [flush] and [giveaway_output] in a row. *)
Lemma transforming_emit p i given z :
  transforming p i given z ->
  exists n z1 out z2, (forall rounds, (n <= rounds)%nat -> flush rounds z = Ret tt z1) /\
    giveaway_output z1 = Ret out z2 /\ transforming p i (given ++ out) z2.
Proof.
  intros Ht. pose proof Ht as (Ep & Hc & H). unfold transforming. destruct (decide (m_format p = identity)) as [Ef|Hf].
  - destruct H as [<- Hp]. exists 0%nat, z, (m_out_buffer z), (with_buffer [] 0 z). split_and!; try done.
    + intros rounds _. unfold flush, bind at 1. rewrite not_completed_run by done. unfold bind, gets, ret. cbn [id].
      by rewrite is_identity_true by (by rewrite Ep).
    + by apply identity_giveaway.
    + by rewrite app_nil_r.
  - pose proof (transforming_active _ _ _ _ Ht Hf) as Ha.
    destruct (compress_call i given Z_SYNC_FLUSH [] z H) as (n & z1 & Hrun & Hso & (Hc1 & _)); try done; [apply flushes_all|].
    rewrite app_nil_r in Hc1. destruct Hso as [Ep1 Ec1]. destruct (giveaway_run z1 (c_fits _ _ _ _ Hc1)) as [E _].
    exists n, z1, (written z1), (with_buffer [] 0 z1). split_and!; try done.
    + intros rounds Hr. by rewrite flush_active, Hrun.
    + simpl. congruence.
    + simpl. congruence.
    + by apply giveaway_compressing.
Qed.

(** [complete] and [giveaway_output] in a row. *)
Lemma transforming_finish p i given z :
  transforming p i given z ->
  exists n z1 out z2, (forall rounds, (n <= rounds)%nat -> complete rounds z = Ret tt z1) /\
    giveaway_output z1 = Ret out z2 /\ is_completed z2 = true /\ holds p (given ++ out) i.
Proof.
  intros Ht. pose proof Ht as (Ep & Hc & H). unfold holds. destruct (decide (m_format p = identity)) as [Ef|Hf].
  - destruct H as [<- Hp]. exists 0%nat, (completed z), (m_out_buffer z), (with_buffer [] 0 (completed z)). split_and!; try done.
    + intros rounds _. unfold complete, bind at 1. rewrite not_completed_run by done. unfold bind at 1, gets. cbn [id].
      by rewrite is_identity_true by (by rewrite Ep).
    + by apply (identity_giveaway (completed z)).
  - pose proof (transforming_active _ _ _ _ Ht Hf) as Ha.
    destruct (complete_compressing _ _ _ H Ha) as (n & z1 & Hrun & Hcomp & Hfit & Hst & Hdec).
    destruct (giveaway_run z1 Hfit) as [E _]. exists n, z1, (written z1), (with_buffer [] 0 z1). rewrite Ep in *.
    by split_and!.
Qed.

(** ** Calls of an appender *)

Lemma transformator_run {B A} (m : M zlib_t A) z (b : B) sent x z' :
  m z = Ret x z' -> transformator m (mk_appender (Some z) b sent) = Ret x (mk_appender (Some z') b sent).
Proof. intros E. unfold transformator. cbn [m_ztransformator]. by rewrite E. Qed.

Lemma ensure_valid_run {B} z (b : B) sent :
  ensure_valid_transforator (mk_appender (Some z) b sent) = Ret tt (mk_appender (Some z) b sent).
Proof. done. Qed.

Lemma append_run {B} rounds d z z' (b : B) sent :
  write rounds d z = Ret tt z' ->
  append rounds d (mk_appender (Some z) b sent) = Ret tt (mk_appender (Some z') b sent).
Proof. intros E. unfold append, bind. rewrite ensure_valid_run. by rewrite (transformator_run _ _ _ _ _ _ E). Qed.

(** What was moved from throws. *)
Lemma moved_appender_throws {B} (a : body_appender_t B) rounds d : append rounds d (move a).2 = Raise (move a).2.
Proof. done. Qed.

(** ** The chunked builder *)

Context {Fm : ChunkedOutput.FmtUpperHex} {FL : ChunkedOutput.FmtUpperHexLaws Fm}.

(** A builder after the calls [bops]. *)
Definition chunk_built (h : http_response_header_t) (bops : list ChunkedOutput.op) (b : ChunkedOutput.response_builder_t)
    (sent : list sent_t) : Prop :=
  ChunkedOutput.apply_ops bops (ChunkedOutput.create h) = Some (Ok (b, sent)) /\ Forall ChunkedOutput.plain bops.

Lemma chunked_apply_snoc ops o b b1 s1 b2 s2 :
  ChunkedOutput.apply_ops ops b = Some (Ok (b1, s1)) -> ChunkedOutput.apply_op o b1 = Some (Ok (b2, s2)) ->
  ChunkedOutput.apply_ops (ops ++ [o]) b = Some (Ok (b2, s1 ++ s2)).
Proof.
  revert b s1. induction ops as [|o' ops IH]; intros b s1.
  - intros [= -> <-] E. cbn [ChunkedOutput.apply_ops app]. rewrite E. cbn. by rewrite app_nil_r.
  - intros E1 E2. cbn [ChunkedOutput.apply_ops app] in *. destruct (ChunkedOutput.apply_op o' b) as [[[b' s']|]|]; try done.
    cbn [mbind option_bind] in *. destruct (ChunkedOutput.apply_ops ops b') as [[[b3 s3]|]|] eqn:E3; try done.
    cbn [mbind option_bind] in *. injection E1 as -> <-. rewrite (IH _ _ E3 E2). cbn. by rewrite app_assoc.
Qed.

Lemma chunk_built_step h bops b sent o :
  chunk_built h bops b sent -> ChunkedOutput.plain o ->
  exists b' s', ChunkedOutput.apply_op o b = Some (Ok (b', s')) /\ chunk_built h (bops ++ [o]) b' (sent ++ s').
Proof.
  intros [E Hp] Ho. assert (H0 : ChunkedOutput.implements (ChunkedOutput.create h) (ChunkedOutput.start h)) by by split.
  destruct (ChunkedOutput.chunked_apply_ops_implements bops _ _ H0 eq_refl Hp) as (b1 & s1 & E1 & Hi & Hc & _).
  rewrite E in E1. injection E1 as <- <-.
  destruct (ChunkedOutput.chunked_apply_implements o _ _ Hi Hc Ho) as (b' & s' & E' & _).
  exists b', s'. split; [done|]. split; [by eapply chunked_apply_snoc|]. apply Forall_app. split; [done|by apply Forall_singleton].
Qed.

Lemma chunks_of_app a b : ChunkedOutput.chunks_of (a ++ b) = ChunkedOutput.chunks_of a ++ ChunkedOutput.chunks_of b.
Proof. apply flat_map_app. Qed.

Lemma chunks_of_chunk out : concat (ChunkedOutput.chunks_of [ChunkedOutput.op_append_chunk (trivial_write_operation out)]) = out.
Proof. cbn. case_bool_decide as E; simpl; [by rewrite E|]. by rewrite app_nil_r. Qed.

Definition names_encoding (p : params_t) : http_response_header_t -> http_response_header_t :=
  add_header content_encoding (content_encoding_token (m_format p)).

Definition quiet (o : ChunkedOutput.op) : Prop := match o with ChunkedOutput.op_header _ => False | _ => True end.

(** The calls an appender makes: the field of its header, then chunks and flushes. *)
Definition appender_ops (p : params_t) (bops : list ChunkedOutput.op) : Prop :=
  exists rest, bops = ChunkedOutput.op_header (names_encoding p) :: rest /\ Forall quiet rest.

Lemma appender_ops_snoc p bops o : appender_ops p bops -> quiet o -> appender_ops p (bops ++ [o]).
Proof.
  intros (rest & -> & Hq) Ho. exists (rest ++ [o]). split; [done|]. apply Forall_app. split; [done|by apply Forall_singleton].
Qed.

(** The builder of an appender from which [given] was handed over. *)
Definition chunk_sink (h : http_response_header_t) (p : params_t) (given : list byte)
    (b : ChunkedOutput.response_builder_t) (sent : list sent_t) : Prop :=
  exists bops, chunk_built h bops b sent /\ appender_ops p bops /\ concat (ChunkedOutput.chunks_of bops) = given.

Lemma append_chunk_sink h p given out z b sent :
  chunk_sink h p given b sent ->
  exists b', append_chunk out (mk_appender z b sent) = Ret tt (mk_appender z b' sent) /\
    chunk_sink h p (given ++ out) b' sent.
Proof.
  intros (bops & Hb & Ha & <-). set (o := ChunkedOutput.op_append_chunk (trivial_write_operation out)).
  destruct (chunk_built_step _ _ _ _ o Hb) as (b' & s' & E & Hb'); [done|]. injection E as <- <-. rewrite app_nil_r in Hb'.
  eexists. split; [reflexivity|]. exists (bops ++ [o]). split; [done|]. split; [by apply appender_ops_snoc|].
  rewrite chunks_of_app, concat_app. f_equal. apply chunks_of_chunk.
Qed.

Lemma flush_sink h p given z b sent :
  chunk_sink h p given b sent ->
  exists b' s', resp_chunked (ChunkedOutput.flush None) (mk_appender z b sent) = Ret tt (mk_appender z b' (sent ++ s')) /\
    chunk_sink h p given b' (sent ++ s').
Proof.
  intros (bops & Hb & Ha & <-). destruct (chunk_built_step _ _ _ _ (ChunkedOutput.op_flush None) Hb) as (b' & s' & E & Hb'); [done|].
  exists b', s'. unfold resp_chunked. cbn [m_resp]. cbn [ChunkedOutput.apply_op] in E. rewrite E. split; [done|].
  eexists. split; [exact Hb'|]. split; [by apply appender_ops_snoc|]. by rewrite chunks_of_app, app_nil_r.
Qed.

(** ** A session with a chunked appender *)

Inductive call := call_append (d : list byte) | call_make_chunk (d : list byte) | call_flush.

Definition run_call (rounds : nat) (c : call) : M (body_appender_t ChunkedOutput.response_builder_t) unit :=
  match c with
  | call_append d => append rounds d
  | call_make_chunk d => make_chunk rounds d
  | call_flush => chunked_flush rounds
  end.

Fixpoint run_calls (rounds : nat) (cs : list call) : M (body_appender_t ChunkedOutput.response_builder_t) unit :=
  match cs with [] => ret tt | c :: cs => bind (run_call rounds c) (fun _ => run_calls rounds cs) end.

Definition call_data (c : call) : list byte := match c with call_append d | call_make_chunk d => d | call_flush => [] end.
Definition calls_data (cs : list call) : list byte := flat_map call_data cs.
Definition call_ok (c : call) : Prop := uint (Z.of_nat (length (call_data c))).

Definition appending (h : http_response_header_t) (p : params_t) (i : list byte)
    (a : body_appender_t ChunkedOutput.response_builder_t) : Prop :=
  exists z given, m_ztransformator a = Some z /\ transforming p i given z /\ chunk_sink h p given (m_resp a) (m_sent a).

(** Flushing the transformer and making a chunk of what it gives. *)
Lemma emit_chunk h p i z b sent given :
  transforming p i given z -> chunk_sink h p given b sent ->
  exists n a', appending h p i a' /\ (forall rounds, (n <= rounds)%nat ->
    bind (transformator (flush rounds)) (fun _ => bind (transformator giveaway_output) append_chunk) (mk_appender (Some z) b sent)
    = Ret tt a').
Proof.
  intros Ht Hs. destruct (transforming_emit _ _ _ _ Ht) as (n & z1 & out & z2 & R1 & R2 & Ht2).
  destruct (append_chunk_sink _ _ _ out (Some z2) _ _ Hs) as (b' & E & Hs').
  exists n, (mk_appender (Some z2) b' sent). split; [by exists z2, (given ++ out)|].
  intros rounds Hr. unfold bind. rewrite (transformator_run _ _ _ _ _ _ (R1 rounds Hr)).
  by rewrite (transformator_run _ _ _ _ _ _ R2).
Qed.

Lemma run_call_appending h p i c a :
  appending h p i a -> call_ok c ->
  exists n a', appending h p (i ++ call_data c) a' /\ forall rounds, (n <= rounds)%nat -> run_call rounds c a = Ret tt a'.
Proof.
  destruct a as [z0 b sent]. intros (z & given & Ez & Ht & Hs) Hok. cbn in Ez, Hs. subst z0. destruct c as [d|d|]; cbn [call_data run_call] in *.
  - destruct (transforming_write _ _ _ d _ Ht Hok) as (n & z' & R & Ht').
    exists n, (mk_appender (Some z') b sent). split; [by exists z', given|]. intros rounds Hr. apply append_run. by apply R.
  - destruct (transforming_write _ _ _ d _ Ht Hok) as (n & z' & R & Ht').
    destruct (emit_chunk _ _ _ _ _ _ _ Ht' Hs) as (m & a' & Ha' & R').
    exists (n + m)%nat, a'. split; [done|]. intros rounds Hr. unfold make_chunk, bind at 1.
    rewrite (append_run _ _ _ z') by (apply R; lia). apply R'. lia.
  - destruct (emit_chunk _ _ _ _ _ _ _ Ht Hs) as (m & [z1 b1 s1] & (z' & given' & Ez' & Ht' & Hs') & R').
    cbn in Ez', Hs'. subst z1. destruct (flush_sink _ _ _ (Some z') _ _ Hs') as (b2 & s2 & E2 & Hs2).
    exists m, (mk_appender (Some z') b2 (s1 ++ s2)). split; [rewrite app_nil_r; by exists z', given'|].
    intros rounds Hr. unfold chunked_flush, bind at 1. rewrite ensure_valid_run. unfold bind at 1.
    rewrite (transformator_run _ _ _ _ (is_completed z) z) by done.
    assert (is_completed z = false) as -> by apply Ht. cbn [negb]. unfold bind at 1. by rewrite R'.
Qed.

Lemma run_calls_appending h p i cs a :
  appending h p i a -> Forall call_ok cs ->
  exists n a', appending h p (i ++ calls_data cs) a' /\ forall rounds, (n <= rounds)%nat -> run_calls rounds cs a = Ret tt a'.
Proof.
  intros Ha Hcs. revert i a Ha. induction Hcs as [|c cs Hc Hcs IH]; intros i a Ha.
  - exists 0%nat, a. cbn. by rewrite app_nil_r.
  - destruct (run_call_appending _ _ _ c _ Ha Hc) as (n1 & a1 & Ha1 & R1).
    destruct (IH _ _ Ha1) as (n2 & a2 & Ha2 & R2). exists (n1 + n2)%nat, a2. cbn [calls_data flat_map].
    rewrite app_assoc. split; [done|]. intros rounds Hr. cbn [run_calls]. unfold bind. rewrite R1 by lia. apply R2. lia.
Qed.

(** ** The header of a compressed response *)

(** Naming the chunked encoding leaves the name of the content encoding alone. *)
Lemma chunked_fields_keep fields fields' :
  ChunkedOutput.chunked_fields fields = Ok fields' ->
  Fields.cfind_id content_encoding fields' = Fields.cfind_id content_encoding fields.
Proof.
  unfold ChunkedOutput.chunked_fields, Fields.get_field_by_id, Fields.append_field_by_id, Fields.add_field_by_id, Fields.cfind_id.
  change (Fields.is_unspecified transfer_encoding) with false. cbn [negb].
  destruct (negb (Fields.has_field_id transfer_encoding fields)).
  { intros [= <-]. rewrite Fields.find_if_app. by destruct (Fields.find_if _ fields). }
  destruct (Fields.find_if (Fields.id_matches transfer_encoding) fields) as [f|] eqn:E; [|done].
  destruct (ChunkedOutput.found_in _ _); intros [= <-]; [done|].
  destruct (Fields.modify_first _ _ fields) as [l|] eqn:Em.
  - clear E. revert l Em. induction fields as [|x fields IH]; [done|]. cbn [Fields.modify_first Fields.find_if].
    destruct (Fields.id_matches transfer_encoding x) eqn:Ex.
    + intros l [= <-]. cbn [Fields.find_if].
      change (Fields.id_matches content_encoding (Fields.append_value (bs ",chunked") x)) with (Fields.id_matches content_encoding x).
      destruct (Fields.id_matches content_encoding x) eqn:Ey; [|done]. unfold Fields.id_matches in *.
      destruct (Fields.m_field_id x); done.
    + destruct (Fields.modify_first _ _ fields) as [r|]; [|done]. intros l [= <-]. cbn [Fields.find_if]. by rewrite (IH r).
  - rewrite Fields.find_if_app. by destruct (Fields.find_if (Fields.id_matches content_encoding) fields).
Qed.

Lemma names_encoding_found p h :
  Fields.has_field_id content_encoding (Response.m_fields h) = false ->
  Fields.try_get_field_by_id content_encoding (Response.m_fields (ChunkedOutput.with_chunked (names_encoding p h)))
  = Some (content_encoding_token (m_format p)).
Proof.
  intros Hh. unfold Fields.try_get_field_by_id. change (Fields.is_unspecified content_encoding) with false. cbn [negb].
  assert (Hf : Fields.cfind_id content_encoding (Response.m_fields (names_encoding p h))
    = Some (Fields.field_by_id content_encoding (content_encoding_token (m_format p)))).
  { unfold Fields.has_field_id, Fields.cfind_id in *. cbn [names_encoding add_header Response.with_fields Response.m_fields].
    unfold Fields.add_field_by_id. change (Fields.is_unspecified content_encoding) with false. cbn [negb].
    rewrite Fields.find_if_app. by destruct (Fields.find_if _ (Response.m_fields h)). }
  unfold ChunkedOutput.with_chunked. destruct (ChunkedOutput.chunked_fields _) as [f|] eqn:E.
  - simpl. by rewrite (chunked_fields_keep _ _ E), Hf.
  - by rewrite Hf.
Qed.

(** The header that is sent is the one the appender has left. *)
Definition final_header (r : ChunkedOutput.response) : http_response_header_t :=
  default (ChunkedOutput.with_chunked (ChunkedOutput.r_header r)) (ChunkedOutput.r_sent r).

Lemma quiet_final_header ops r :
  Forall quiet ops -> final_header (fold_left ChunkedOutput.means ops r) = final_header r.
Proof.
  intros Hq. revert r. induction Hq as [|o ops Ho Hq IH]; intros r; [done|]. cbn [fold_left]. rewrite IH.
  by destruct o.
Qed.

(** ** The theorem *)

Definition chunked_session (rounds : nat) (cs : list call) (late : bool)
    : M (body_appender_t ChunkedOutput.response_builder_t) unit :=
  bind (run_calls rounds cs) (fun _ =>
  bind (chunked_complete rounds) (fun _ => if late then chunked_flush rounds else ret tt)).

Lemma chunked_session_run h p i cs late a :
  appending h p i a -> Forall call_ok cs ->
  exists n a' c bops, holds p c (i ++ calls_data cs) /\ chunk_built h bops (m_resp a') (m_sent a') /\ appender_ops p bops /\
    concat (ChunkedOutput.chunks_of bops) = c /\
    forall rounds, (n <= rounds)%nat -> chunked_session rounds cs late a = Ret tt a'.
Proof.
  intros Ha Hcs. destruct (run_calls_appending _ _ _ cs _ Ha Hcs) as (n1 & [z0 b sent] & (z & given & Ez & Ht & Hs) & R1).
  cbn in Ez, Hs. subst z0. destruct (transforming_finish _ _ _ _ Ht) as (n2 & z1 & out & z2 & R2 & E2 & Hc2 & Hh).
  destruct (append_chunk_sink _ _ _ out (Some z2) _ _ Hs) as (b' & E3 & Hs').
  assert (R3 : forall rounds, (n2 <= rounds)%nat ->
    chunked_complete rounds (mk_appender (Some z) b sent) = Ret tt (mk_appender (Some z2) b' sent)).
  { intros rounds Hr. unfold chunked_complete, bind at 1. rewrite ensure_valid_run. unfold bind.
    rewrite (transformator_run _ _ _ _ _ _ (R2 rounds Hr)). by rewrite (transformator_run _ _ _ _ _ _ E2). }
  destruct late.
  - destruct (flush_sink _ _ _ (Some z2) _ _ Hs') as (b2 & s2 & E4 & (bops & Hb & Hap & Hgiven)).
    exists (n1 + n2)%nat, (mk_appender (Some z2) b2 (sent ++ s2)), (given ++ out), bops. split_and!; try done.
    intros rounds Hr. unfold chunked_session, bind at 1. rewrite R1 by lia. unfold bind at 1. rewrite R3 by lia.
    unfold chunked_flush, bind at 1. rewrite ensure_valid_run. unfold bind at 1.
    rewrite (transformator_run _ _ _ _ (is_completed z2) z2) by done. by rewrite Hc2.
  - destruct Hs' as (bops & Hb & Hap & Hgiven). exists (n1 + n2)%nat, (mk_appender (Some z2) b' sent), (given ++ out), bops.
    split_and!; try done. intros rounds Hr. unfold chunked_session, bind at 1. rewrite R1 by lia. unfold bind at 1.
    by rewrite R3 by lia.
Qed.

(** C23. A response whose body is compressed and sent in chunks.  Whatever data are
    appended, made into chunks and flushed with a chunked body appender, which may also
    copy only: the calls end and the response can be completed and closed; what goes out
    is a header that names the content encoding and the chunked coding, and a body from
    which a decoder of the chunked coding gets chunks whose concatenation is one complete
    stream that holds exactly the data appended (below 2^64 octets). *)
Theorem compressed_chunks_decode (h : http_response_header_t) (p : params_t) (cs : list call) (late : bool) (wscb : option Z) :
  narrow p -> m_operation p = compress -> Forall call_ok cs ->
  Fields.has_field_id content_encoding (Response.m_fields h) = false ->
  exists a0 n a b' last hd body c,
    body_appender (ChunkedOutput.create h) p = Ok a0 /\
    (forall rounds, (n <= rounds)%nat -> chunked_session rounds cs late a0 = Ret tt a) /\
    ChunkedOutput.done_ wscb (m_resp a) = Some (Ok (b', [last])) /\
    ChunkedOutput.sent_bytes (m_sent a ++ [last]) = Response.create_header_string hd Response.skip_content_length ++ body /\
    Fields.try_get_field_by_id content_encoding (Response.m_fields hd) = Some (content_encoding_token (m_format p)) /\
    ChunkedOutput.says_chunked (Response.m_fields hd) /\
    holds p c (calls_data cs) /\
    (size c < 2 ^ 64 -> exists chunks, ChunkedOutput.decode_chunked body = Some chunks /\ concat chunks = c).
Proof using ZL FL.
  intros Hn Hop Hcs Hh. destruct (transforming_start p Hn Hop) as (z & Ez & Ht).
  set (b0 := builder_append_header content_encoding (content_encoding_token (m_format p)) (ChunkedOutput.create h)).
  assert (Ha0 : appending h p [] (mk_appender (Some z) b0 [])).
  { exists z, []. split; [done|]. split; [done|]. exists [ChunkedOutput.op_header (names_encoding p)].
    split; [split; [done|by apply Forall_singleton]|]. split; [by exists []|done]. }
  destruct (chunked_session_run h p [] cs late _ Ha0 Hcs) as (n & a & c & bops & Hc & [Hb Hp] & (rest & Erest & Hq) & Hcat & R).
  destruct (ChunkedOutput.chunked_run h bops wscb Hp) as (b & sent & b' & last & hd & E & Ed & Hsent & Hsay & Hbytes & _).
  rewrite Hb in E. injection E as E1 E2. subst b sent.
  exists (mk_appender (Some z) b0 []), n, a, b', last, hd. eexists _, c. split_and!; [|exact R|exact Ed|exact Hbytes| |done|done|].
  - unfold body_appender. by rewrite Ez, bool_decide_true by done.
  - assert (hd = ChunkedOutput.with_chunked (names_encoding p h)) as ->; [|by apply names_encoding_found].
    cbn [ChunkedOutput.commit ChunkedOutput.r_sent] in Hsent. injection Hsent as <-.
    fold (final_header (ChunkedOutput.meaning h bops)). rewrite Erest. unfold ChunkedOutput.meaning. cbn [fold_left].
    by rewrite quiet_final_header.
  - intros Hsize. exists (ChunkedOutput.chunks_of bops). split; [|done]. apply ChunkedOutput.decode_encoded.
    apply Forall_forall. intros d Hd. assert (Hin : Forall (fun d => d <> []) (ChunkedOutput.chunks_of bops)).
    { clear. induction bops as [|o bops IH]; [constructor|]. cbn [ChunkedOutput.chunks_of flat_map]. apply Forall_app. split; [|done].
      destruct o; try constructor. case_bool_decide; by repeat constructor. }
    split; [by apply (proj1 (Forall_forall _ _) Hin)|]. rewrite <- Hcat in Hsize. eapply Z.le_lt_trans; [|exact Hsize].
    revert Hd. clear. unfold size. induction (ChunkedOutput.chunks_of bops) as [|x l IH]; [done|]. cbn [concat In].
    rewrite length_app. intros [->|Hd]; [lia|]. specialize (IH Hd). lia.
Qed.

(** ** The restinio-controlled builder *)

Fixpoint append_all {B} (rounds : nat) (ds : list (list byte)) : M (body_appender_t B) unit :=
  match ds with [] => ret tt | d :: ds => bind (append rounds d) (fun _ => append_all rounds ds) end.

Lemma append_all_run {B} p i given ds z (b : B) sent :
  transforming p i given z -> Forall (fun d => uint (Z.of_nat (length d))) ds ->
  exists n z', transforming p (i ++ concat ds) given z' /\ forall rounds, (n <= rounds)%nat ->
    append_all rounds ds (mk_appender (Some z) b sent) = Ret tt (mk_appender (Some z') b sent).
Proof.
  intros Ht Hds. revert i z Ht. induction Hds as [|d ds Hd Hds IH]; intros i z Ht.
  - exists 0%nat, z. cbn. by rewrite app_nil_r.
  - destruct (transforming_write _ _ _ d _ Ht Hd) as (n1 & z1 & R1 & Ht1). destruct (IH _ _ Ht1) as (n2 & z2 & Ht2 & R2).
    exists (n1 + n2)%nat, z2. cbn [concat]. rewrite app_assoc. split; [done|]. intros rounds Hr. cbn [append_all].
    unfold bind. rewrite (append_run _ _ _ z1) by (apply R1; lia). apply R2. lia.
Qed.

Lemma x_complete_run {B} {BB : BodyBuilder B} p i given z (b : B) sent :
  transforming p i given z ->
  exists n out z', holds p (given ++ out) i /\ forall rounds, (n <= rounds)%nat ->
    x_complete rounds (mk_appender (Some z) b sent) = Ret tt (mk_appender (Some z') (builder_append_body out b) sent).
Proof.
  intros Ht. destruct (transforming_finish _ _ _ _ Ht) as (n & z1 & out & z2 & R & E & _ & Hh). exists n, out, z2. split; [done|].
  intros rounds Hr. unfold x_complete, bind at 1. rewrite ensure_valid_run. unfold bind.
  rewrite (transformator_run _ _ _ _ _ _ (R rounds Hr)). by rewrite (transformator_run _ _ _ _ _ _ E).
Qed.

(** The whole response: the length of the compressed body is announced. *)
Lemma compressed_response p ds b :
  narrow p -> m_operation p = compress -> Forall (fun d => uint (Z.of_nat (length d))) ds ->
  Response.m_conn b = true -> Response.m_body_size b = 0 -> Response.m_response_parts b = [] ->
  exists a0 n a c, body_appender b p = Ok a0 /\
    (forall rounds, (n <= rounds)%nat -> bind (append_all rounds ds) (fun _ => x_complete rounds) a0 = Ret tt a) /\
    holds p c (concat ds) /\
    (size c < 2 ^ 64 -> exists b' g,
       let h := Response.with_content_length (size c)
                  (add_header content_encoding (content_encoding_token (m_format p)) (Response.m_header b)) in
       Response.done_ (m_resp a) = Ok (b', g) /\
       group_bytes (Response.sent_group g) = Response.create_header_string h Response.add_content_length ++ c).
Proof.
  intros Hn Hop Hds Hconn Hsize Hparts. destruct (transforming_start p Hn Hop) as (z & Ez & Ht).
  set (b0 := builder_append_header content_encoding (content_encoding_token (m_format p)) b).
  destruct (append_all_run p [] [] ds z b0 [] Ht Hds) as (n1 & z1 & Ht1 & R1).
  destruct (x_complete_run p _ _ z1 b0 [] Ht1) as (n2 & c & z2 & Hh & R2).
  exists (mk_appender (Some z) b0 []), (n1 + n2)%nat, (mk_appender (Some z2) (builder_append_body c b0) []), c. split_and!; try done.
  - unfold body_appender. by rewrite Ez, bool_decide_true.
  - intros rounds Hr. unfold bind. rewrite R1 by lia. apply R2. lia.
  - intros Hc.
    destruct (Response.apply_body_op_ok [] b0 (Response.op_append_body c)) as ((Hbs & Hcat & _) & Hhd & Hcn); [|done|].
    { split_and!; [exact Hsize|by change (Response.m_response_parts b0) with (Response.m_response_parts b); rewrite Hparts|done]. }
    cbn [Response.apply_body_op app] in *. change (Response.append_body c b0) with (builder_append_body c b0) in *.
    eexists _, _. cbv zeta. split; [exact (Response.done_run (builder_append_body c b0) (eq_trans Hcn Hconn))|].
    cbn [Response.sent_group]. rewrite Hbs, Hhd. unfold group_bytes. cbn [m_items map flat_map item_bytes].
    by rewrite trivial_bytes, Hcat.
Qed.

(** ** The user-controlled builder *)

Inductive user_call := user_append (d : list byte) | user_sends.

Definition run_user_call (rounds : nat) (c : user_call) : M (body_appender_t UserOutput.response_builder_t) unit :=
  match c with user_append d => append rounds d | user_sends => user_flush rounds end.
Fixpoint run_user_calls (rounds : nat) (cs : list user_call) : M (body_appender_t UserOutput.response_builder_t) unit :=
  match cs with [] => ret tt | c :: cs => bind (run_user_call rounds c) (fun _ => run_user_calls rounds cs) end.

Definition user_data (cs : list user_call) : list byte :=
  flat_map (fun c => match c with user_append d => d | user_sends => [] end) cs.
Definition user_call_ok (c : user_call) : Prop :=
  match c with user_append d => uint (Z.of_nat (length d)) | user_sends => True end.

Definition token_bytes (t : token) : list byte := match t with item i => item_bytes i | callback _ => [] end.
Definition tokens_bytes (ts : list token) : list byte := flat_map token_bytes ts.

(** The builder after the calls [bops], none of which concerns the header but the first. *)
Definition user_built (h : http_response_header_t) (bops : list UserOutput.op) (b : UserOutput.response_builder_t)
    (sent : list sent_t) : Prop :=
  UserOutput.apply_ops bops (UserOutput.create h) = Ok (b, sent) /\ Forall UserOutput.item_sizes_ok bops.

Lemma user_apply_snoc ops o b b1 s1 b2 s2 :
  UserOutput.apply_ops ops b = Ok (b1, s1) -> UserOutput.apply_op o b1 = Ok (b2, s2) ->
  UserOutput.apply_ops (ops ++ [o]) b = Ok (b2, s1 ++ s2).
Proof.
  revert b s1. induction ops as [|o' ops IH]; intros b s1.
  - intros [= -> <-] E. cbn [UserOutput.apply_ops app]. rewrite E. by rewrite app_nil_r.
  - intros E1 E2. cbn [UserOutput.apply_ops app] in *. destruct (UserOutput.apply_op o' b) as [[b' s']|]; [|done].
    destruct (UserOutput.apply_ops ops b') as [[b3 s3]|] eqn:E3; [|done]. injection E1 as -> <-.
    rewrite (IH _ _ E3 E2). by rewrite app_assoc.
Qed.

Lemma user_built_step h bops b sent o :
  user_built h bops b sent -> UserOutput.item_sizes_ok o ->
  exists b' s', UserOutput.apply_op o b = Ok (b', s') /\ user_built h (bops ++ [o]) b' (sent ++ s').
Proof.
  intros [E Hp] Ho. assert (H0 : UserOutput.implements (UserOutput.create h) (UserOutput.start h)).
  { split; try done. split; [done|by left]. }
  destruct (UserOutput.apply_ops_implements bops _ _ H0 eq_refl Hp) as (b1 & s1 & E1 & Hi & Hc & _).
  rewrite E in E1. injection E1 as <- <-.
  destruct (UserOutput.apply_implements o _ _ Hi Hc Ho) as (b' & s' & E' & _).
  exists b', s'. split; [done|]. split; [by eapply user_apply_snoc|]. apply Forall_app. split; [done|by apply Forall_singleton].
Qed.

(** Calls that only add to the body and send. *)
Definition adds (o : UserOutput.op) : Prop :=
  match o with
  | UserOutput.op_append_body (trivial_write_operation _) => True
  | UserOutput.op_flush None => True
  | _ => False
  end.

Definition op_out (o : UserOutput.op) : list byte :=
  match o with UserOutput.op_append_body i => item_bytes i | _ => [] end.

Definition user_header (r : UserOutput.response) : http_response_header_t :=
  default (UserOutput.r_header r) (UserOutput.r_sent r).
Definition user_octets (r : UserOutput.response) : list byte :=
  tokens_bytes (UserOutput.r_committed r) ++ flat_map item_bytes (UserOutput.r_pending r).

Lemma tokens_bytes_items l : tokens_bytes (map item l) = flat_map item_bytes l.
Proof. unfold tokens_bytes. rewrite flat_map_concat_map, map_map, <- flat_map_concat_map. done. Qed.

Lemma nonempty_bytes d : flat_map item_bytes (UserOutput.nonempty (trivial_write_operation d)) = d.
Proof. unfold UserOutput.nonempty. destruct d; [done|].
  rewrite (proj2 (Z.eqb_neq _ _)) by (cbn; lia). cbn [flat_map item_bytes]. by rewrite app_nil_r.
Qed.

(** Such calls leave the header alone, and nothing gets lost or changes its place. *)
Lemma adds_meaning ops r :
  Forall adds ops ->
  user_header (fold_left UserOutput.means ops r) = user_header r /\
  user_octets (fold_left UserOutput.means ops r) = user_octets r ++ flat_map op_out ops.
Proof.
  intros Hops. revert r. induction Hops as [|o ops Ho Hops IH]; intros r; cbn [fold_left flat_map].
  { by rewrite app_nil_r. }
  destruct (IH (UserOutput.means r o)) as [-> ->]. clear IH. rewrite app_assoc.
  destruct o as [f|n|i|[d|]|[cb|]]; try done; unfold user_octets; cbn [UserOutput.means UserOutput.commit
    UserOutput.r_committed UserOutput.r_pending op_out item_bytes].
  - rewrite flat_map_app, nonempty_bytes. by rewrite <- !app_assoc.
  - unfold tokens_bytes. rewrite !flat_map_app. fold (tokens_bytes (map item (UserOutput.r_pending r))).
    rewrite tokens_bytes_items. cbn. by rewrite !app_nil_r.
Qed.

Lemma commit_octets wscb r : tokens_bytes (UserOutput.r_committed (UserOutput.commit wscb r)) = user_octets r.
Proof.
  unfold user_octets. cbn [UserOutput.commit UserOutput.r_committed]. unfold tokens_bytes. rewrite !flat_map_app.
  fold (tokens_bytes (map item (UserOutput.r_pending r))). rewrite tokens_bytes_items. destruct wscb; cbn; by rewrite app_nil_r.
Qed.

(** The builder of an appender from which [given] was handed over. *)
Definition user_sink (h : http_response_header_t) (p : params_t) (given : list byte) (b : UserOutput.response_builder_t)
    (sent : list sent_t) : Prop :=
  exists rest, user_built h (UserOutput.op_header (names_encoding p) :: rest) b sent /\ Forall adds rest /\
    flat_map op_out rest = given.

Lemma user_sink_step h p given b sent o :
  user_sink h p given b sent -> adds o ->
  exists b' s', UserOutput.apply_op o b = Ok (b', s') /\ user_sink h p (given ++ op_out o) b' (sent ++ s').
Proof.
  intros (rest & Hb & Hr & <-) Ho. destruct (user_built_step _ _ _ _ o Hb) as (b' & s' & E & Hb').
  { destruct o as [| | |[d|]|[]]; try done. cbn. lia. }
  exists b', s'. split; [done|]. exists (rest ++ [o]). split; [done|]. split.
  - apply Forall_app. split; [done|by apply Forall_singleton].
  - rewrite flat_map_app. cbn [flat_map]. by rewrite app_nil_r.
Qed.

Lemma run_user_call_appending h p i given c z b sent :
  transforming p i given z -> user_sink h p given b sent -> user_call_ok c ->
  exists n z' given' b' sent', transforming p (i ++ user_data [c]) given' z' /\ user_sink h p given' b' sent' /\
    forall rounds, (n <= rounds)%nat ->
      run_user_call rounds c (mk_appender (Some z) b sent) = Ret tt (mk_appender (Some z') b' sent').
Proof.
  intros Ht Hs Hok. destruct c as [d|]; cbn [user_data flat_map run_user_call]; rewrite app_nil_r.
  - destruct (transforming_write _ _ _ d _ Ht Hok) as (n & z' & R & Ht').
    exists n, z', given, b, sent. split_and!; try done. intros rounds Hr. apply append_run. by apply R.
  - destruct (transforming_emit _ _ _ _ Ht) as (n & z1 & out & z2 & R1 & E1 & Ht2).
    destruct (user_sink_step _ _ _ _ _ (UserOutput.op_append_body (trivial_write_operation out)) Hs) as (b1 & s1 & E2 & Hs1); [done|].
    injection E2 as <- <-. rewrite app_nil_r in Hs1.
    destruct (user_sink_step _ _ _ _ _ (UserOutput.op_flush None) Hs1) as (b2 & s2 & E3 & Hs2); [done|].
    cbn [op_out item_bytes] in Hs2. rewrite app_nil_r in Hs2.
    exists n, z2, (given ++ out), b2, (sent ++ s2). split_and!; try done.
    intros rounds Hr. unfold user_flush, bind at 1. rewrite ensure_valid_run. unfold bind.
    rewrite (transformator_run _ _ _ _ _ _ (R1 rounds Hr)). rewrite (transformator_run _ _ _ _ _ _ E1).
    cbn [resp upd m_ztransformator m_resp m_sent]. unfold upd, resp_sends. cbn [m_ztransformator m_resp m_sent].
    cbn [UserOutput.apply_op] in E3. unfold builder_append_body, user_body. by rewrite E3.
Qed.

Lemma run_user_calls_appending h p i given cs z b sent :
  transforming p i given z -> user_sink h p given b sent -> Forall user_call_ok cs ->
  exists n z' given' b' sent', transforming p (i ++ user_data cs) given' z' /\ user_sink h p given' b' sent' /\
    forall rounds, (n <= rounds)%nat ->
      run_user_calls rounds cs (mk_appender (Some z) b sent) = Ret tt (mk_appender (Some z') b' sent').
Proof.
  intros Ht Hs Hcs. revert i given z b sent Ht Hs. induction Hcs as [|c cs Hc Hcs IH]; intros i given z b sent Ht Hs.
  - exists 0%nat, z, given, b, sent. cbn. by rewrite app_nil_r.
  - destruct (run_user_call_appending _ _ _ _ c _ _ _ Ht Hs Hc) as (n1 & z1 & g1 & b1 & s1 & Ht1 & Hs1 & R1).
    destruct (IH _ _ _ _ _ Ht1 Hs1) as (n2 & z2 & g2 & b2 & s2 & Ht2 & Hs2 & R2).
    exists (n1 + n2)%nat, z2, g2, b2, s2. split_and!; [|done|].
    + change (c :: cs) with ([c] ++ cs). unfold user_data. rewrite flat_map_app, app_assoc. exact Ht2.
    + intros rounds Hr. cbn [run_user_calls]. unfold bind. rewrite R1 by lia. apply R2. lia.
Qed.

(** The whole response: what is sent after the header, in all flushes together, is one
    stream. *)
Lemma compressed_parts h p cs wscb :
  narrow p -> m_operation p = compress -> Forall user_call_ok cs ->
  exists a0 n a b' last c,
    body_appender (UserOutput.create h) p = Ok a0 /\
    (forall rounds, (n <= rounds)%nat -> bind (run_user_calls rounds cs) (fun _ => x_complete rounds) a0 = Ret tt a) /\
    UserOutput.done_ wscb (m_resp a) = Ok (b', [last]) /\ holds p c (user_data cs) /\
    tokens_bytes (ResponseBuilders.sent_tokens (m_sent a ++ [last]))
    = Response.create_header_string (names_encoding p h) Response.add_content_length ++ c.
Proof.
  intros Hn Hop Hcs. destruct (transforming_start p Hn Hop) as (z & Ez & Ht).
  set (b0 := builder_append_header content_encoding (content_encoding_token (m_format p)) (UserOutput.create h)).
  assert (Hs0 : user_sink h p [] b0 []).
  { exists []. split; [split; [done|by apply Forall_singleton]|done]. }
  destruct (run_user_calls_appending h p [] [] cs z b0 [] Ht Hs0 Hcs) as (n1 & z1 & g & b1 & s1 & Ht1 & Hs1 & R1).
  destruct (x_complete_run p _ _ z1 b1 s1 Ht1) as (n2 & out & z2 & Hh & R2).
  destruct (user_sink_step _ _ _ _ _ (UserOutput.op_append_body (trivial_write_operation out)) Hs1) as (b2 & s2 & E2 & Hs2); [done|].
  injection E2 as <- <-. rewrite app_nil_r in Hs2. destruct Hs2 as (rest & [Hb Hp] & Hrest & Hgiven).
  destruct (UserOutput.user_run h _ wscb Hp) as (b & sent & b' & last & hd & E & Ed & Hsent & Htok & _).
  rewrite Hb in E. injection E as <- <-.
  exists (mk_appender (Some z) b0 []), (n1 + n2)%nat, (mk_appender (Some z2) (builder_append_body out b1) s1), b', last, (g ++ out).
  split_and!; [|intros rounds Hr; unfold bind; rewrite R1 by lia; apply R2; lia|exact Ed|done|].
  - unfold body_appender. by rewrite Ez, bool_decide_true.
  - cbn [m_sent]. rewrite Htok. cbn [tokens_bytes flat_map token_bytes ResponseBuilders.header_item item_bytes].
    fold (tokens_bytes (UserOutput.r_committed (UserOutput.commit wscb (UserOutput.meaning h (UserOutput.op_header (names_encoding p) :: rest))))).
    rewrite commit_octets. unfold UserOutput.meaning. cbn [fold_left].
    destruct (adds_meaning rest (UserOutput.means (UserOutput.start h) (UserOutput.op_header (names_encoding p))) Hrest) as [Hhd Hoct].
    rewrite Hoct, Hgiven. cbn [UserOutput.commit UserOutput.r_sent] in Hsent. injection Hsent as <-.
    unfold UserOutput.meaning in *. cbn [fold_left] in *. fold (user_header (fold_left UserOutput.means rest
      (UserOutput.means (UserOutput.start h) (UserOutput.op_header (names_encoding p))))). by rewrite Hhd.
Qed.

End Theorems.

(** ** A run *)

#[local] Existing Instances SmallZlib.small_zlib SmallZlib.small_zlib_laws ChunkedOutput.upper_hex ChunkedOutput.upper_hex_laws.

Definition sample_calls : list call :=
  [call_append (bs "Hello, "); call_make_chunk (bs "wide "); call_flush; call_append (bs "wide world")].
Definition small_params : params_t := mk_params compress Params.deflate 9 15 9 0 16.
Definition sample_header : http_response_header_t := Response.response_header (Status.status_line Status.ok).

Lemma compressed_chunks_decode_witness :
  exists a0 n a b' last hd body c,
    body_appender (ChunkedOutput.create sample_header) small_params = Ok a0 /\
    (forall rounds, (n <= rounds)%nat -> chunked_session rounds sample_calls true a0 = Ret tt a) /\
    ChunkedOutput.done_ None (m_resp a) = Some (Ok (b', [last])) /\
    ChunkedOutput.sent_bytes (m_sent a ++ [last]) = Response.create_header_string hd Response.skip_content_length ++ body /\
    decoded Params.deflate c = bs "Hello, wide wide world".
Proof.
  destruct (compressed_chunks_decode sample_header small_params sample_calls true None)
    as (a0 & n & a & b' & last & hd & body & c & E1 & E2 & E3 & E4 & _ & _ & Hh & _).
  - split; [|done]. split; [done|]. split; [left; done|]. split; [done|]. split; [apply elem_of_cons; by left|done].
  - reflexivity.
  - repeat (constructor; [unfold call_ok, uint; simpl; lia|]). constructor.
  - reflexivity.
  - exists a0, n, a, b', last, hd, body, c. split; [exact E1|]. split; [exact E2|]. split; [exact E3|]. split; [exact E4|].
    exact (proj2 Hh).
Defined.

(** The same evaluated: two flushes and the end. *)
Lemma sample_calls_run :
  (let? a0 := body_appender (ChunkedOutput.create sample_header) small_params in
   match chunked_session 9 sample_calls true a0 with
   | Ret _ a => match ChunkedOutput.done_ None (m_resp a) with
                | Some (Ok (_, last)) => Ok (length (m_sent a ++ last))
                | _ => Throw "not closed"
                end
   | _ => Throw "not completed"
   end) = Ok 3%nat.
Proof. vm_compute. reflexivity. Qed.

End AppenderTheorems.
