(* ===== verification/HttpServer.v ===== *)
(** * Starting and stopping the server

    Model of [http_server_t] (src/web/restinio/restinio/http_server.hpp) with [open] and
    [close] of the acceptor (impl/acceptor.hpp): which calls are made, in which order,
    and what is left when one of them throws.  Which call throws, if any, and whether that
    is a std::exception, which is all that [open] catches, is an argument of the operation; the effects are kept in a log.  [ServerRun] has the loops the
    server runs in. *)

From S2P Require Import Prelude Effects.

Module HttpServer.
Import Effects.
Open Scope effects_scope.

(** ** Calls that may throw *)

(** The places in [acceptor_t::open]: the text of the address, the socket, the options
    setter of the user, bind, the hook of the user, the endpoint, listen. *)
Inductive open_step := resolve | open_socket | set_options | bind_socket | post_bind_hook | local_endpoint | listen.

#[export] Instance open_step_eq_dec : EqDecision open_step.
Proof. solve_decision. Defined.

(** An exception at a place; user code may throw what is no [std::exception]. *)
Record open_failure := mk_open_failure { fails_at : open_step; is_std_exception : bool }.

(** The places in [close_impl]: before the socket is closed, and the log entry after. *)
Inductive close_failure := fails_before_close | fails_after_close.

Inductive effect :=
| TimerStart | TimerStop
| Called (s : open_step)
| AcceptNext (i : nat)
| SocketClosed
| CleanupCalled.

Inductive running_state_t := not_running | running.

#[export] Instance running_state_t_eq_dec : EqDecision running_state_t.
Proof. solve_decision. Defined.

Record http_server_t := mk_server {
  m_running_state : running_state_t;
  m_cleanup_functor : bool;            (* there is one *)
  m_acceptor_is_open : bool;
  log : list effect
}.

Definition with_state (r : running_state_t) (s : http_server_t) : http_server_t :=
  mk_server r (m_cleanup_functor s) (m_acceptor_is_open s) (log s).
Definition with_open (o : bool) (s : http_server_t) : http_server_t :=
  mk_server (m_running_state s) (m_cleanup_functor s) o (log s).
Definition without_cleanup (s : http_server_t) : http_server_t :=
  mk_server (m_running_state s) false (m_acceptor_is_open s) (log s).
Definition emit (e : effect) : M http_server_t unit :=
  upd (fun s => mk_server (m_running_state s) (m_cleanup_functor s) (m_acceptor_is_open s) (log s ++ [e])).

(** A server that was just constructed. *)
Definition fresh (cleanup : bool) : http_server_t := mk_server not_running cleanup false [].

(** ** The acceptor *)

Definition throws_at (f : option open_failure) (s : open_step) : bool :=
  match f with Some f => bool_decide (fails_at f = s) | None => false end.

Definition exception_of (f : option open_failure) : exn :=
  match f with Some (mk_open_failure _ false) => other_exception | _ => std_exception end.

Definition call (f : option open_failure) (s : open_step) : M http_server_t unit :=
  if throws_at f s then throw (exception_of f) else emit (Called s).

(** [for( i = 0; i < count; ++i ) accept_next( i )]; [accept_next] does not throw. *)
Fixpoint accept_all (i count : nat) : M http_server_t unit :=
  match count with
  | O => ret tt
  | S count => emit (AcceptNext i);; accept_all (S i) count
  end.

(** The body of the [try] block. *)
Definition open_listener (f : option open_failure) (count : nat) : M http_server_t unit :=
  call f open_socket;;
  upd (with_open true);;
  call f set_options;;
  call f bind_socket;;
  call f post_bind_hook;;
  call f local_endpoint;;
  call f listen;;
  accept_all 0 count.

(** The handler of [std::exception]; what is none passes it by. *)
Definition close_after_error : M http_server_t unit :=
  (do s <- gets id;
   if m_acceptor_is_open s then emit SocketClosed;; upd (with_open false) else ret tt);;
  raise.

Definition acceptor_open (f : option open_failure) (count : nat) : M http_server_t unit :=
  do s <- gets id;
  if m_acceptor_is_open s then call f local_endpoint
  else
    call f resolve;;
    catch (open_listener f count) close_after_error.

Definition close_impl (f : option close_failure) : M http_server_t unit :=
  match f with
  | Some fails_before_close => raise
  | _ =>
      emit SocketClosed;;
      upd (with_open false);;
      match f with Some fails_after_close => raise | _ => ret tt end
  end.

Definition acceptor_close (f : option close_failure) : M http_server_t unit :=
  do s <- gets id;
  if m_acceptor_is_open s then close_impl f else ret tt.

(** ** The server *)

Definition call_cleanup_functor : M http_server_t unit :=
  do s <- gets id;
  if m_cleanup_functor s then upd without_cleanup;; emit CleanupCalled else ret tt.

Definition open_sync (f : option open_failure) (count : nat) : M http_server_t unit :=
  do s <- gets id;
  if bool_decide (not_running = m_running_state s) then
    emit TimerStart;;
    acceptor_open f count;;
    upd (with_state running)
  else ret tt.

Definition close_sync (f : option close_failure) : M http_server_t unit :=
  do s <- gets id;
  if bool_decide (running = m_running_state s) then
    emit TimerStop;;
    acceptor_close f;;
    call_cleanup_functor;;
    upd (with_state not_running)
  else ret tt.

(** The handlers [open_async] and [close_async] post: which callback is called, and the
    server afterwards. *)
Inductive callback := ok_cb | err_cb.

Definition async_handler (m : M http_server_t unit) : M http_server_t callback := fun s =>
  match m s with
  | Ret _ s => Ret ok_cb s
  | Raise s | RaiseOther s => Ret err_cb s
  | Terminate => Terminate
  | Undef => Undef
  | Deep => Deep
  end.

Definition open_handler (f : option open_failure) (count : nat) : M http_server_t callback :=
  async_handler (open_sync f count).
Definition close_handler (f : option close_failure) : M http_server_t callback := async_handler (close_sync f).

(** The destructor is [close_sync]; an exception there ends the program. *)
Definition destroy (f : option close_failure) : M http_server_t unit := close_sync f.

(** ** What an attempt to open leaves *)

Definition steps_before (s : open_step) : list open_step :=
  match s with
  | resolve => []
  | open_socket => [resolve]
  | set_options => [resolve; open_socket]
  | bind_socket => [resolve; open_socket; set_options]
  | post_bind_hook => [resolve; open_socket; set_options; bind_socket]
  | local_endpoint => [resolve; open_socket; set_options; bind_socket; post_bind_hook]
  | listen => [resolve; open_socket; set_options; bind_socket; post_bind_hook; local_endpoint]
  end.
Definition all_steps : list open_step :=
  [resolve; open_socket; set_options; bind_socket; post_bind_hook; local_endpoint; listen].

Definition logged (es : list effect) (s : http_server_t) : http_server_t :=
  mk_server (m_running_state s) (m_cleanup_functor s) (m_acceptor_is_open s) (log s ++ es).

Lemma logged_logged a b s : logged b (logged a s) = logged (a ++ b) s.
Proof. unfold logged. simpl. by rewrite app_assoc. Qed.

Lemma accept_all_run i count s : accept_all i count s = Ret tt (logged (map AcceptNext (seq i count)) s).
Proof.
  revert i s. induction count as [|count IH]; intros i s; cbn [accept_all seq map].
  - unfold ret, logged. rewrite app_nil_r. by destruct s.
  - unfold bind, emit, upd. rewrite IH. unfold logged. simpl. by rewrite <- app_assoc.
Qed.

Definition opening_effects (count : nat) : list effect := map Called all_steps ++ map AcceptNext (seq 0 count).

(** Without a failure everything is called, in order. *)
Lemma open_succeeds count s :
  m_acceptor_is_open s = false -> acceptor_open None count s = Ret tt (logged (opening_effects count) (with_open true s)).
Proof.
  destruct s as [r c o l]. intros Ho. simpl in Ho. subst o. unfold acceptor_open, bind, gets, id. simpl.
  unfold catch, open_listener, call, bind, emit, upd, ret. simpl. rewrite accept_all_run. unfold logged, with_open. simpl.
  unfold opening_effects. simpl. by rewrite <- !app_assoc.
Qed.

(** With a failure, the calls before it were made; an exception of the standard library
    leaves the acceptor closed. *)
Lemma open_fails f count s :
  m_acceptor_is_open s = false ->
  exists s', acceptor_open (Some f) count s = (if is_std_exception f then Raise s' else RaiseOther s') /\ m_running_state s' = m_running_state s /\
    m_cleanup_functor s' = m_cleanup_functor s /\
    m_acceptor_is_open s' = negb (bool_decide (fails_at f ∈ [resolve; open_socket])) && negb (is_std_exception f) /\
    log s' = log s ++ map Called (steps_before (fails_at f))
             ++ (if negb (bool_decide (fails_at f ∈ [resolve; open_socket])) && is_std_exception f then [SocketClosed] else []).
Proof.
  destruct s as [r c o l], f as [st std]. intros Ho. simpl in Ho. subst o.
  unfold acceptor_open, bind, gets, id. simpl.
  destruct st, std; unfold catch, open_listener, close_after_error, call, exception_of, throw, bind, emit, upd, ret, raise, gets, id; simpl;
    eexists; (split; [reflexivity|]); simpl; rewrite ?app_nil_r, <- ?app_assoc; done.
Qed.

(** ** Histories *)

Inductive request := Open (f : option open_failure) | Close (f : option close_failure).

(** The requests are served one after the other; an exception goes to whoever asked. *)
Definition serve (count : nat) (r : request) (s : http_server_t) : http_server_t :=
  let m := match r with Open f => open_sync f count | Close f => close_sync f end in
  match m s with Ret _ s | Raise s | RaiseOther s => s | _ => s end.

Definition history (count : nat) (rs : list request) (cleanup : bool) : http_server_t :=
  fold_left (fun s r => serve count r s) rs (fresh cleanup).

Definition standard (r : request) : Prop := match r with Open (Some f) => is_std_exception f = true | _ => True end.

Definition is_cleanup (e : effect) : bool := match e with CleanupCalled => true | _ => false end.
Definition cleanups (s : http_server_t) : nat := length (List.filter is_cleanup (log s)).

(** ** The invariant *)

Record lifecycle_inv (cleanup : bool) (s : http_server_t) : Prop := {
  cleanup_pending : m_cleanup_functor s = true -> cleanup = true;
  cleanup_once : cleanups s = if m_cleanup_functor s then 0%nat else if cleanup then 1%nat else 0%nat
}.

(** A server that does not run listens to nothing. *)
Definition closed_when_not_running (s : http_server_t) : Prop :=
  m_running_state s = not_running -> m_acceptor_is_open s = false.

Lemma no_cleanup_called l : List.filter is_cleanup (map Called l) = [].
Proof. by induction l. Qed.
Lemma no_cleanup_accept l : List.filter is_cleanup (map AcceptNext l) = [].
Proof. by induction l. Qed.

(** What an attempt to open leaves in the log, and the acceptor. *)
Definition past_socket (f : open_failure) : bool := negb (bool_decide (fails_at f ∈ [resolve; open_socket])).
Definition failing_effects (f : open_failure) : list effect :=
  map Called (steps_before (fails_at f)) ++ (if past_socket f && is_std_exception f then [SocketClosed] else []).

(** [open_sync], on every branch of a server that does not listen. *)
Lemma open_sync_run f count s :
  match m_running_state s, f with
  | running, _ => open_sync f count s = Ret tt s
  | not_running, None =>
      m_acceptor_is_open s = false ->
      open_sync f count s = Ret tt (mk_server running (m_cleanup_functor s) true (log s ++ TimerStart :: opening_effects count))
  | not_running, Some f' =>
      m_acceptor_is_open s = false ->
      let s' := mk_server not_running (m_cleanup_functor s) (past_socket f' && negb (is_std_exception f'))
                  (log s ++ TimerStart :: failing_effects f') in
      open_sync f count s = if is_std_exception f' then Raise s' else RaiseOther s'
  end.
Proof.
  destruct s as [r c o l]. cbn [m_running_state m_cleanup_functor m_acceptor_is_open log] in *.
  destruct r; [|done].
  assert (E0 : open_sync f count (mk_server not_running c o l)
    = bind (acceptor_open f count) (fun _ => upd (with_state running)) (mk_server not_running c o (l ++ [TimerStart])))
    by done.
  rewrite E0. unfold bind. destruct f as [f|]; intros ->.
  - destruct (open_fails f count (mk_server not_running c false (l ++ [TimerStart])) eq_refl)
      as ([r c' o' l'] & E & Hr & Hcl & Ho & Hl).
    simpl in Hr, Hcl, Ho, Hl. subst r c' o' l'. rewrite E. unfold failing_effects, past_socket.
    rewrite <- !app_assoc. by destruct (is_std_exception f).
  - rewrite (open_succeeds count (mk_server not_running c false (l ++ [TimerStart])) eq_refl).
    unfold logged, with_open, with_state, upd. simpl. by rewrite <- app_assoc.
Qed.

(** [open_sync] on a server whose last attempt left it listening: only the endpoint is asked for. *)
Lemma open_sync_again f count s :
  m_running_state s = not_running -> m_acceptor_is_open s = true ->
  let s' := mk_server not_running (m_cleanup_functor s) true (log s ++ [TimerStart]) in
  open_sync f count s =
    if throws_at f local_endpoint then
      match exception_of f with std_exception => Raise s' | other_exception => RaiseOther s' end
    else Ret tt (mk_server running (m_cleanup_functor s) true (log s ++ [TimerStart; Called local_endpoint])).
Proof.
  destruct s as [r c o l]. simpl. intros -> ->. unfold open_sync, acceptor_open, call, bind, gets, id, emit, upd. simpl.
  destruct (throws_at f local_endpoint); unfold throw; [by destruct (exception_of f)|]. unfold with_state. simpl.
  by rewrite <- app_assoc.
Qed.

(** [close_sync], on every branch. *)
Lemma close_sync_run f s :
  match m_running_state s with
  | not_running => close_sync f s = Ret tt s
  | running =>
      let closing := if m_acceptor_is_open s then [SocketClosed] else [] in
      let cleaning := if m_cleanup_functor s then [CleanupCalled] else [] in
      match f with
      | Some fails_before_close =>
          m_acceptor_is_open s = true ->
          close_sync f s = Raise (mk_server running (m_cleanup_functor s) true (log s ++ [TimerStop]))
      | Some fails_after_close =>
          m_acceptor_is_open s = true ->
          close_sync f s = Raise (mk_server running (m_cleanup_functor s) false (log s ++ [TimerStop; SocketClosed]))
      | None => close_sync f s = Ret tt (mk_server not_running false false (log s ++ TimerStop :: closing ++ cleaning))
      end /\
      (m_acceptor_is_open s = false ->
       close_sync f s = Ret tt (mk_server not_running false false (log s ++ TimerStop :: cleaning)))
  end.
Proof.
  destruct s as [r c o l]. simpl.
  unfold close_sync, acceptor_close, close_impl, call_cleanup_functor, bind, gets, id, emit, upd, raise, ret; destruct r; simpl; [done|].
  destruct f as [[]|], o, c; simpl; rewrite <- ?app_assoc; simpl; split; try done; intros; try done; by rewrite <- ?app_assoc.
Qed.

Lemma inv_logged cleanup r r' c o o' l es :
  lifecycle_inv cleanup (mk_server r c o l) -> List.filter is_cleanup es = [] ->
  lifecycle_inv cleanup (mk_server r' c o' (l ++ es)).
Proof.
  intros [H1 H2] He. split; [done|]. unfold cleanups in *. simpl in *. rewrite List.filter_app, He, app_nil_r. exact H2.
Qed.

Lemma no_cleanup_failing f : List.filter is_cleanup (TimerStart :: failing_effects f) = [].
Proof. unfold failing_effects. cbn [List.filter is_cleanup]. rewrite List.filter_app, no_cleanup_called. by destruct (_ && _). Qed.

Lemma serve_open_inv count cleanup f s : lifecycle_inv cleanup s -> lifecycle_inv cleanup (serve count (Open f) s).
Proof.
  intros Hi. destruct s as [st c o l]. unfold serve. pose proof (open_sync_run f count (mk_server st c o l)) as H.
  cbn [m_running_state m_cleanup_functor m_acceptor_is_open log] in H. destruct st; [|by rewrite H]. destruct o.
  - rewrite open_sync_again by done. cbn [m_cleanup_functor log].
    destruct (throws_at f local_endpoint); [destruct (exception_of f)|]; by eapply inv_logged.
  - destruct f as [f|]; rewrite H by done.
    + destruct (is_std_exception f); (eapply inv_logged; [exact Hi|apply no_cleanup_failing]).
    + eapply inv_logged; [exact Hi|]. cbn [List.filter is_cleanup].
      unfold opening_effects. by rewrite List.filter_app, no_cleanup_called, no_cleanup_accept.
Qed.

Lemma serve_close_inv count cleanup f s : lifecycle_inv cleanup s -> lifecycle_inv cleanup (serve count (Close f) s).
Proof.
  intros Hi. destruct s as [st c o l]. unfold serve. pose proof (close_sync_run f (mk_server st c o l)) as H.
  cbn [m_running_state m_cleanup_functor m_acceptor_is_open log] in H. destruct st; [by rewrite H|]. destruct H as [H1 H2].
  assert (Hdone : forall es, List.filter is_cleanup es = (if c then [CleanupCalled] else []) ->
    lifecycle_inv cleanup (mk_server not_running false false (l ++ es))).
  { intros es He. destruct Hi as [Hc Hn]. split; [done|]. unfold cleanups in *. simpl in *.
    rewrite List.filter_app, length_app, Hn, He. destruct c; [by rewrite Hc|done]. }
  destruct o.
  - destruct f as [[]|]; try rewrite H1 by done.
    + by eapply inv_logged.
    + by eapply inv_logged.
    + apply Hdone. by destruct c.
  - rewrite H2 by done. apply Hdone. by destruct c.
Qed.

Lemma history_inv count rs cleanup : lifecycle_inv cleanup (history count rs cleanup).
Proof.
  unfold history. assert (H0 : lifecycle_inv cleanup (fresh cleanup)) by (split; try done; by destruct cleanup).
  revert H0. generalize (fresh cleanup). induction rs as [|r rs IH]; intros s Hs; [done|]. cbn [fold_left].
  apply IH. destruct r; [by apply serve_open_inv|by apply serve_close_inv].
Qed.

Lemma serve_closed count r s : closed_when_not_running s -> standard r -> closed_when_not_running (serve count r s).
Proof.
  intros Hc Hs. destruct s as [st c o l]. unfold closed_when_not_running in *. simpl in Hc. destruct r as [f|f]; unfold serve.
  - pose proof (open_sync_run f count (mk_server st c o l)) as H.
    cbn [m_running_state m_cleanup_functor m_acceptor_is_open log] in H.
    destruct st; [|by rewrite H]. destruct f as [f|]; rewrite H by auto; [|done]. simpl in Hs. rewrite Hs.
    by rewrite andb_false_r.
  - pose proof (close_sync_run f (mk_server st c o l)) as H.
    cbn [m_running_state m_cleanup_functor m_acceptor_is_open log] in H. destruct st; [by rewrite H; auto|].
    destruct H as [H1 H2]. destruct o; [destruct f as [[]|]; rewrite H1 by done; done|by rewrite H2].
Qed.

Lemma history_closed count rs cleanup : Forall standard rs -> closed_when_not_running (history count rs cleanup).
Proof.
  intros Hrs. unfold history. assert (H0 : closed_when_not_running (fresh cleanup)) by done.
  revert H0. generalize (fresh cleanup). induction Hrs as [|r rs Hr Hrs IH]; intros s Hs; [done|]. cbn [fold_left].
  by apply IH, serve_closed.
Qed.

(** C24. The life of a server, after any history of requests to open and to close it in
    which calls of the acceptor may have thrown.  The cleanup functor was called at most
    once.  If all that opening threw were std::exceptions, a server that is not running
    has its socket closed.  From there, opening a server that does not run and whose
    socket is closed calls everything in its order and starts an accept on every socket,
    exactly once; if one call throws, so does the request, and the server is not running;
    its socket is closed again unless it was open and the exception is no
    std::exception.  Opening a server that does not run and whose socket was left open
    only asks for its endpoint.  Closing a server that runs, when that does not throw,
    closes the socket if it is open and calls the functor if it was not called before.
    Opening twice or closing twice does nothing. *)
Theorem server_lifecycle (count : nat) (rs : list request) (cleanup : bool) :
  let s := history count rs cleanup in
  (cleanups s <= 1)%nat /\ (m_cleanup_functor s = true -> cleanups s = 0%nat) /\
  (Forall standard rs -> m_running_state s = not_running -> m_acceptor_is_open s = false) /\
  match m_running_state s, m_acceptor_is_open s with
  | not_running, false =>
      open_sync None count s
      = Ret tt (mk_server running (m_cleanup_functor s) true (log s ++ TimerStart :: opening_effects count)) /\
      (forall f, exists s',
         open_sync (Some f) count s = (if is_std_exception f then Raise s' else RaiseOther s') /\
         m_running_state s' = not_running /\ m_cleanup_functor s' = m_cleanup_functor s /\
         m_acceptor_is_open s' = past_socket f && negb (is_std_exception f) /\
         log s' = log s ++ TimerStart :: failing_effects f) /\
      (forall f, close_sync f s = Ret tt s)
  | not_running, true =>
      open_sync None count s
      = Ret tt (mk_server running (m_cleanup_functor s) true (log s ++ [TimerStart; Called local_endpoint])) /\
      (forall f, close_sync f s = Ret tt s)
  | running, is_open =>
      (forall f, open_sync f count s = Ret tt s) /\
      close_sync None s
      = Ret tt (mk_server not_running false false
                  (log s ++ TimerStop :: (if is_open then [SocketClosed] else [])
                   ++ (if m_cleanup_functor s then [CleanupCalled] else [])))
  end.
Proof.
  intros s. pose proof (history_inv count rs cleanup) as Hi. fold s in Hi. pose proof Hi as [H2 H3].
  split_and!; [rewrite H3; repeat case_match; lia|intros E; by rewrite H3, E|by apply history_closed|].
  pose proof (fun f => close_sync_run f s) as Hc. pose proof (fun f => open_sync_run f count s) as Ho.
  destruct (m_running_state s) eqn:Er.
  - destruct (m_acceptor_is_open s) eqn:Ea.
    + split; [by apply (open_sync_again None)|exact Hc].
    + split_and!; [by apply (Ho None)| |exact Hc]. intros f. eexists. split; [by apply (Ho (Some f))|]. by split_and!.
  - split; [intros f; exact (Ho f)|apply (Hc None)].
Qed.

Definition sample_history : list request :=
  [Open (Some (mk_open_failure bind_socket true)); Open None; Close (Some fails_after_close); Close None; Open None].

Lemma server_lifecycle_witness :
  open_sync None 2 (history 2 sample_history true) = Ret tt (history 2 sample_history true) /\
  cleanups (history 2 sample_history true) = 1%nat.
Proof.
  destruct (server_lifecycle 2 sample_history true) as (_ & _ & _ & H).
  assert (E : m_running_state (history 2 sample_history true) = running) by (vm_compute; reflexivity).
  rewrite E in H. destruct H as [H _]. split; [exact (H None)|]. vm_compute. reflexivity.
Defined.

(** An exception of another kind leaves the socket open; the server that is opened next
    is said to run although nothing listens. *)
Lemma running_without_listening :
  let s := history 1 [Open (Some (mk_open_failure post_bind_hook false)); Open None] true in
  m_running_state s = running /\
  log s = [TimerStart; Called resolve; Called open_socket; Called set_options; Called bind_socket;
           TimerStart; Called local_endpoint].
Proof. split; reflexivity. Qed.

(** After a failed start the timer manager stays started: closing does nothing. *)
Lemma timer_stays_started :
  log (history 1 [Open (Some (mk_open_failure bind_socket true)); Close None] true)
  = [TimerStart; Called resolve; Called open_socket; Called set_options; SocketClosed].
Proof. reflexivity. Qed.

End HttpServer.
