(* ===== verification/ServerRun.v ===== *)
(** * Running the server

    Model of src/web/restinio/restinio/http_server_run.hpp: [run] on the calling thread
    (Module [OneThread]), which is what main.cpp uses.  [PoolRun] has the same on a pool.

    The handlers of requests are left out: what matters is who opens and closes the
    server and who stops the io_context.  The failures of the calls that open and close
    the acceptor, with exceptions of either kind, are parameters, and so is whether the
    connections have work left when the server is closed. *)

From S2P Require Import Prelude Effects HttpServer.

Module Handlers.
Import Effects HttpServer.

(** What [open_async] and [close_async] post. *)
Inductive handler := run_open | run_close.

Inductive caught := open_error | close_error.

(** How the acceptor behaves, and how many sockets it accepts on. *)
Record acceptor_behaviour := mk_behaviour {
  opening : option open_failure;
  closing : option close_failure;
  sockets : nat
}.

(** A handler run on the server: the callback that is called. *)
Definition run_handler (a : acceptor_behaviour) (h : handler) (s : http_server_t) : callback * http_server_t :=
  match (match h with run_open => open_handler (opening a) (sockets a) | run_close => close_handler (closing a) end) s with
  | Ret c s => (c, s)
  | _ => (err_cb, s)
  end.

End Handlers.

(** ** On the calling thread *)

Module OneThread.
Import Effects HttpServer Handlers.

Record world := mk_world {
  server : http_server_t;
  queue : list handler;                 (* posted to the io_context *)
  stopped : bool;                       (* [ioctx.stop()] was called *)
  waits_for_signal : bool;              (* [break_signals.async_wait] is outstanding *)
  exception_caught : option caught
}.

(** One handler: the callbacks [run] gives to [open_async] and [close_async]. *)
Definition handle (a : acceptor_behaviour) (h : handler) (w : world) : world :=
  let '(cb, s) := run_handler a h (server w) in
  match h, cb with
  | run_open, ok_cb => mk_world s (queue w) (stopped w) (waits_for_signal w) (exception_caught w)
  | run_open, err_cb => mk_world s (queue w) true (waits_for_signal w) (Some open_error)
  | run_close, ok_cb => mk_world s (queue w) true (waits_for_signal w) (exception_caught w)
  | run_close, err_cb => mk_world s (queue w) (stopped w) (waits_for_signal w) (Some close_error)
  end.

Definition set_queue (q : list handler) (w : world) : world :=
  mk_world (server w) q (stopped w) (waits_for_signal w) (exception_caught w).

(** The handlers that are ready, until the io_context is stopped. *)
Fixpoint drain (a : acceptor_behaviour) (q : list handler) (w : world) : world :=
  match q with
  | [] => set_queue [] w
  | h :: q => if stopped w then set_queue (h :: q) w else drain a q (handle a h w)
  end.

(** What may happen while the loop waits. *)
Inductive event := Sigint | Traffic.

Definition on_event (e : event) (w : world) : world :=
  match e with
  | Sigint =>
      if waits_for_signal w
      then mk_world (server w) (queue w ++ [run_close]) (stopped w) false (exception_caught w)
      else w
  | Traffic => w
  end.

(** Whether something is outstanding: the wait for the signal, an accept, or an operation
    of a connection.  The latter is a parameter. *)
Definition has_work (a : acceptor_behaviour) (connections : bool) (w : world) : bool :=
  waits_for_signal w || (m_acceptor_is_open (server w) && negb (sockets a =? 0)%nat) || connections.

(** [ioctx.run()]: [None] while it runs. *)
Fixpoint io_run (a : acceptor_behaviour) (connections : bool) (events : list event) (w : world) : option world :=
  let w := drain a (queue w) w in
  if stopped w || negb (has_work a connections w) then Some w
  else match events with [] => None | e :: events => io_run a connections events (on_event e w) end.

(** A run so far: still running, or returned, or thrown with what was caught, with the log
    of the server's effects, its destructor included; or the destructor has thrown. *)
Inductive run_result := Running | Returned (effects : list effect) | Rethrown (what : caught) (effects : list effect) | Aborted.

Definition run (a : acceptor_behaviour) (connections cleanup : bool) (events : list event) : run_result :=
  match io_run a connections events (mk_world (fresh cleanup) [run_open] false true None) with
  | None => Running
  | Some w =>
      match destroy (closing a) (server w) with
      | Ret _ s =>
          match exception_caught w with
          | Some c => Rethrown c (log s)
          | None => Returned (log s)
          end
      | _ => Aborted
      end
  end.

(** ** Theorems *)

Lemma io_run_quiet a connections events w :
  Forall (fun e => e = Traffic) events -> queue w = [] -> stopped w = false -> has_work a connections w = true ->
  io_run a connections events w = None.
Proof.
  intros He Hq Hs Hw. destruct w as [s q st wf ex]. simpl in *. subst.
  induction He as [|e events -> He IH]; cbn [io_run queue drain]; unfold set_queue;
    cbn [stopped server waits_for_signal exception_caught orb]; rewrite Hw; [done|]. exact IH.
Qed.

(** After a close that failed nothing listens to signals any more. *)
Lemma io_run_deaf a connections events w :
  queue w = [] -> stopped w = false -> waits_for_signal w = false -> has_work a connections w = true ->
  io_run a connections events w = None.
Proof.
  destruct w as [s q st wf ex]. simpl. intros -> -> -> Hw.
  induction events as [|e events IH]; cbn [io_run queue drain]; unfold set_queue;
    cbn [stopped server waits_for_signal exception_caught orb]; rewrite Hw; [done|]. by destruct e.
Qed.

Definition opened_log (count : nat) : list effect := TimerStart :: opening_effects count.
Definition closed_log (cleanup : bool) : list effect :=
  [TimerStop; SocketClosed] ++ (if cleanup then [CleanupCalled] else []).

Lemma open_fresh a cleanup :
  opening a = None ->
  run_handler a run_open (fresh cleanup) = (ok_cb, mk_server running cleanup true (opened_log (sockets a))).
Proof.
  intros Ho. unfold run_handler, open_handler, async_handler. rewrite Ho.
  pose proof (open_sync_run None (sockets a) (fresh cleanup) eq_refl) as H. by rewrite H.
Qed.

Lemma open_fresh_fails a cleanup f :
  opening a = Some f ->
  run_handler a run_open (fresh cleanup)
  = (err_cb, mk_server not_running cleanup (past_socket f && negb (is_std_exception f)) (TimerStart :: failing_effects f)).
Proof.
  intros Ho. unfold run_handler, open_handler, async_handler. rewrite Ho.
  pose proof (open_sync_run (Some f) (sockets a) (fresh cleanup) eq_refl) as H. cbv zeta in H. rewrite H.
  by destruct (is_std_exception f).
Qed.

(** The loop up to the first signal. *)
Lemma io_run_until_signal a connections before after w :
  Forall (fun e => e = Traffic) before -> queue w = [] -> stopped w = false -> waits_for_signal w = true ->
  io_run a connections (before ++ Sigint :: after) w
  = io_run a connections after (mk_world (server w) [run_close] false false (exception_caught w)).
Proof.
  destruct w as [s q st wf ex]. simpl. intros Hb -> -> ->.
  induction Hb as [|e before -> Hb IH]; cbn [io_run queue drain app]; unfold set_queue;
    cbn [stopped server waits_for_signal exception_caught orb]; [done|]. exact IH.
Qed.

Lemma close_opened a cleanup count :
  closing a = None ->
  run_handler a run_close (mk_server running cleanup true (opened_log count))
  = (ok_cb, mk_server not_running false false (opened_log count ++ closed_log cleanup)).
Proof.
  intros Hc. unfold run_handler, close_handler, async_handler. rewrite Hc. unfold close_sync, acceptor_close, close_impl,
    call_cleanup_functor, bind, gets, id, emit, upd, ret. simpl. destruct cleanup; simpl; rewrite <- ?app_assoc; reflexivity.
Qed.

Definition opened (a : acceptor_behaviour) (cleanup : bool) : world :=
  mk_world (mk_server running cleanup true (opened_log (sockets a))) [] false true None.

Lemma io_run_opens a connections cleanup events :
  opening a = None ->
  io_run a connections events (mk_world (fresh cleanup) [run_open] false true None)
  = io_run a connections events (opened a cleanup).
Proof.
  intros Ho. assert (E : drain a [run_open] (mk_world (fresh cleanup) [run_open] false true None) = opened a cleanup).
  { cbn [drain stopped handle server]. unfold handle. cbn [server]. by rewrite open_fresh. }
  destruct events; cbn [io_run queue]; by rewrite E.
Qed.

(** What the server has done when closing it failed. *)
Definition half_closed (a : acceptor_behaviour) (cleanup : bool) (f : close_failure) : http_server_t :=
  match f with
  | fails_before_close => mk_server running cleanup true (opened_log (sockets a) ++ [TimerStop])
  | fails_after_close => mk_server running cleanup false (opened_log (sockets a) ++ [TimerStop; SocketClosed])
  end.

Lemma close_opened_fails a cleanup f :
  closing a = Some f ->
  run_handler a run_close (mk_server running cleanup true (opened_log (sockets a))) = (err_cb, half_closed a cleanup f).
Proof.
  intros Hc. unfold run_handler, close_handler, async_handler. rewrite Hc. unfold close_sync, acceptor_close, close_impl,
    call_cleanup_functor, bind, gets, id, emit, upd, ret, raise. simpl. destruct f; simpl; rewrite <- ?app_assoc; reflexivity.
Qed.

(** The loop and what follows it, when closing has failed. *)
Lemma run_after_failed_close a connections cleanup after f :
  closing a = Some f ->
  let w := mk_world (mk_server running cleanup true (opened_log (sockets a))) [run_close] false false None in
  let w' := mk_world (half_closed a cleanup f) [] false false (Some close_error) in
  io_run a connections after w = if has_work a connections w' then None else Some w'.
Proof.
  intros Hc w w'. assert (Ed : drain a [run_close] w = w').
  { cbn [drain stopped w]. unfold handle. cbn [server w]. by rewrite (close_opened_fails a cleanup f Hc). }
  destruct after as [|e after]; cbn [io_run queue w]; fold w; rewrite Ed; cbn [stopped orb w']; fold w';
    destruct (has_work a connections w') eqn:Hw; try done.
  cbn [negb]. destruct e; by apply io_run_deaf.
Qed.

(** What [run] comes to, signal or not. *)
Definition after_signal (a : acceptor_behaviour) (connections cleanup : bool) : run_result :=
  match closing a with
  | None => Returned (opened_log (sockets a) ++ closed_log cleanup)
  | Some fails_before_close => if connections || negb (sockets a =? 0)%nat then Running else Aborted
  | Some fails_after_close =>
      if connections then Running
      else Rethrown close_error (opened_log (sockets a) ++ [TimerStop; SocketClosed; TimerStop]
                                 ++ (if cleanup then [CleanupCalled] else []))
  end.

Lemma run_signalled a connections cleanup before after :
  Forall (fun e => e = Traffic) before -> opening a = None ->
  run a connections cleanup (before ++ Sigint :: after) = after_signal a connections cleanup.
Proof.
  intros Hb Ho. unfold run. rewrite io_run_opens by done. rewrite io_run_until_signal by done. cbn [opened server exception_caught].
  unfold after_signal. destruct (closing a) as [f|] eqn:Hc.
  - rewrite (run_after_failed_close a connections cleanup after f Hc). unfold has_work. cbn [waits_for_signal server orb].
    destruct f; cbn [half_closed m_acceptor_is_open andb orb].
    + rewrite orb_comm. destruct (connections || negb (sockets a =? 0)%nat); [done|]. reflexivity.
    + destruct connections; [done|]. unfold destroy, close_sync, acceptor_close, call_cleanup_functor, bind, gets, id, emit, upd, ret.
      simpl. destruct cleanup; simpl; rewrite <- ?app_assoc; reflexivity.
  - assert (Ed : drain a [run_close] (mk_world (mk_server running cleanup true (opened_log (sockets a))) [run_close] false false None)
      = mk_world (mk_server not_running false false (opened_log (sockets a) ++ closed_log cleanup)) [] true false None).
    { cbn [drain stopped]. unfold handle. cbn [server]. by rewrite close_opened. }
    destruct after; cbn [io_run queue]; rewrite Ed; reflexivity.
Qed.

Lemma run_cases (a : acceptor_behaviour) (connections cleanup : bool) (before after : list event) :
  Forall (fun e => e = Traffic) before ->
  match opening a with
  | Some f => forall events, run a connections cleanup events = Rethrown open_error (TimerStart :: failing_effects f)
  | None =>
      run a connections cleanup before = Running /\
      run a connections cleanup (before ++ Sigint :: after) = after_signal a connections cleanup
  end.
Proof.
  intros Hb. destruct (opening a) as [f|] eqn:Ho.
  - intros events. unfold run. pose proof (open_fresh_fails a cleanup f Ho) as E.
    assert (Ed : drain a [run_open] (mk_world (fresh cleanup) [run_open] false true None)
      = mk_world (mk_server not_running cleanup (past_socket f && negb (is_std_exception f)) (TimerStart :: failing_effects f))
          [] true true (Some open_error)).
    { cbn [drain stopped]. unfold handle. cbn [server]. by rewrite E. }
    destruct events; cbn [io_run queue]; rewrite Ed; reflexivity.
  - split; [|by apply run_signalled]. unfold run. rewrite io_run_opens by done. by rewrite io_run_quiet.
Qed.

(** C25. [run] on the calling thread, as main.cpp calls it, with signal handling.  If the
    server cannot be opened, whatever is thrown, [run] returns at once by rethrowing it,
    whatever happens.  Otherwise it runs until the first SIGINT.  If closing does not fail
    then, it returns, and what the server has done is: start the timers, open the acceptor
    step by step, accept on every socket, stop the timers, close the socket, call the
    cleanup functor if there is one; nothing comes twice.  If closing fails before the
    socket is closed, [run] goes on as long as there is work, which the accepts are, and
    after that the destructor fails and ends the program.  If it fails after the socket is
    closed, [run] goes on while connections have work and rethrows the error then. *)
Theorem run_on_this_thread (a : acceptor_behaviour) (connections cleanup : bool) (before after : list event) :
  Forall (fun e => e = Traffic) before ->
  match opening a with
  | Some f => forall events, run a connections cleanup events = Rethrown open_error (TimerStart :: failing_effects f)
  | None =>
      run a connections cleanup before = Running /\
      run a connections cleanup (before ++ Sigint :: after) = after_signal a connections cleanup
  end.
Proof. exact (run_cases a connections cleanup before after). Qed.

Definition two_sockets : acceptor_behaviour := mk_behaviour None None 2.

Lemma run_on_this_thread_witness :
  run two_sockets true true [Traffic; Sigint; Traffic]
  = Returned ([TimerStart; Called resolve; Called open_socket; Called set_options; Called bind_socket; Called post_bind_hook;
               Called local_endpoint; Called listen; AcceptNext 0; AcceptNext 1] ++ [TimerStop; SocketClosed; CleanupCalled]).
Proof.
  destruct (run_on_this_thread two_sockets true true [Traffic] [Traffic]) as [_ H].
  - repeat constructor.
  - exact H.
Defined.

(** A close that fails before the socket is closed: [run] does not return, and no further
    signal ends it. *)
Lemma failed_close_runs_on a connections cleanup events :
  opening a = None -> closing a = Some fails_before_close -> sockets a <> 0%nat ->
  run a connections cleanup (Sigint :: events) = Running.
Proof.
  intros Ho Hc Hn. change (Sigint :: events) with ([] ++ Sigint :: events). rewrite run_signalled by done.
  unfold after_signal. rewrite Hc.
  rewrite (proj2 (Nat.eqb_neq _ _)) by done. by rewrite orb_true_r.
Qed.

End OneThread.
