(* ===== verification/PoolRun.v ===== *)
(** * Running the server on a pool of threads

    Model of [run] and [run_async] on a thread pool and of [initiate_shutdown]
    (src/web/restinio/restinio/http_server_run.hpp), and of the pool itself
    (impl/ioctx_on_thread_pool.hpp), as a step relation over the main thread, the threads
    of the pool and their io_context.  Handlers are atomic; those of the strand of the
    acceptor run in the order in which they were posted, the ones of [initiate_shutdown]
    at any time.  Every run is finite and comes to rest only where it should, but for a
    race between the start of the pool and its stop. *)

From S2P Require Import Prelude Effects HttpServer ServerRun.

Module OnPool.
Import Effects HttpServer Handlers.

(** Whether [run] handles SIGINT. *)
Inductive break_signal_handling_t := used | skipped.

(** [run] with settings, [run] of an existing server, or [run_async]. *)
Inductive program := run_settings | run_existing (break_handling : break_signal_handling_t) | run_async.

Definition handles_signal (p : program) : bool :=
  match p with run_settings | run_existing used => true | _ => false end.

(** An existing server outlives the run, and the user can reach it. *)
Definition owns_server (p : program) : bool := match p with run_existing _ => false | _ => true end.

#[export] Instance program_eq_dec : EqDecision program.
Proof. intros [|[]|] [|[]|]; try (by left); by right. Defined.

(** Where the main thread is: in [start] of the pool; joining after a thread could not be
    created; in [f.get()] of [run_async]; with the handle [run_async] has returned; in
    [wait]; at its end.  [Terminated] is the end of the whole program by
    [std::terminate]. *)
Inductive main_t := Starting | StartFailed | Getting | Serving | Joining | Finished (threw : bool) | Terminated.

Definition ended (m : main_t) : bool := match m with Finished _ | Terminated => true | _ => false end.

Record world := mk_world {
  main : main_t;
  m_pool : list bool;              (* the threads; [true]: has not ended *)
  started : bool;                  (* [m_status] *)
  stopped : bool;                  (* [io_context().stop()] was called *)
  queue : list handler;            (* posted to the strand *)
  waits_for_signal : bool;
  server : http_server_t;
  exception_caught : option caught;
  promise : option callback;
  stop_lost : bool;                (* a call of [stop] did nothing *)
  shutdowns : nat;                 (* calls of [initiate_shutdown] the user still makes *)
  shutdowns_posted : nat           (* handlers it has posted *)
}.

Definition set_main (m : main_t) (w : world) : world :=
  mk_world m (m_pool w) (started w) (stopped w) (queue w) (waits_for_signal w) (server w) (exception_caught w) (promise w) (stop_lost w) (shutdowns w) (shutdowns_posted w).
Definition set_pool (ts : list bool) (w : world) : world :=
  mk_world (main w) ts (started w) (stopped w) (queue w) (waits_for_signal w) (server w) (exception_caught w) (promise w) (stop_lost w) (shutdowns w) (shutdowns_posted w).
Definition set_started (b : bool) (w : world) : world :=
  mk_world (main w) (m_pool w) b (stopped w) (queue w) (waits_for_signal w) (server w) (exception_caught w) (promise w) (stop_lost w) (shutdowns w) (shutdowns_posted w).
Definition set_stopped (w : world) : world :=
  mk_world (main w) (m_pool w) (started w) true (queue w) (waits_for_signal w) (server w) (exception_caught w) (promise w) (stop_lost w) (shutdowns w) (shutdowns_posted w).
Definition set_queue (q : list handler) (w : world) : world :=
  mk_world (main w) (m_pool w) (started w) (stopped w) q (waits_for_signal w) (server w) (exception_caught w) (promise w) (stop_lost w) (shutdowns w) (shutdowns_posted w).
Definition set_signal (b : bool) (w : world) : world :=
  mk_world (main w) (m_pool w) (started w) (stopped w) (queue w) b (server w) (exception_caught w) (promise w) (stop_lost w) (shutdowns w) (shutdowns_posted w).
Definition set_server (s : http_server_t) (w : world) : world :=
  mk_world (main w) (m_pool w) (started w) (stopped w) (queue w) (waits_for_signal w) s (exception_caught w) (promise w) (stop_lost w) (shutdowns w) (shutdowns_posted w).
Definition set_caught (c : caught) (w : world) : world :=
  mk_world (main w) (m_pool w) (started w) (stopped w) (queue w) (waits_for_signal w) (server w) (Some c) (promise w) (stop_lost w) (shutdowns w) (shutdowns_posted w).
Definition set_promise (c : callback) (w : world) : world :=
  mk_world (main w) (m_pool w) (started w) (stopped w) (queue w) (waits_for_signal w) (server w) (exception_caught w) (Some c) (stop_lost w) (shutdowns w) (shutdowns_posted w).
Definition set_lost (w : world) : world :=
  mk_world (main w) (m_pool w) (started w) (stopped w) (queue w) (waits_for_signal w) (server w) (exception_caught w) (promise w) true (shutdowns w) (shutdowns_posted w).
Definition set_shutdowns (asked posted : nat) (w : world) : world :=
  mk_world (main w) (m_pool w) (started w) (stopped w) (queue w) (waits_for_signal w) (server w) (exception_caught w) (promise w) (stop_lost w) asked posted.

(** [ioctx_on_thread_pool_t::stop] *)
Definition stop (w : world) : world := if started w then set_stopped w else set_lost w.

(** ** The callbacks of the programs *)

(** [impl::run] *)
Definition callback_of_run (h : handler) (cb : callback) (w : world) : world :=
  match h, cb with
  | run_close, ok_cb => stop w
  | run_close, err_cb => set_caught close_error w
  | run_open, ok_cb => w
  | run_open, err_cb => set_caught open_error (stop w)
  end.

(** [impl::run_with_break_signal_handling] *)
Definition callback_with_break_signal_handling (h : handler) (cb : callback) (w : world) : world :=
  match h, cb with
  | run_close, ok_cb => stop w
  | run_close, err_cb => set_caught close_error w
  | run_open, ok_cb => w
  | run_open, err_cb => set_caught open_error (stop w)
  end.

(** [impl::run_without_break_signal_handling]; it does not call [close_async]. *)
Definition callback_without_break_signal_handling (h : handler) (cb : callback) (w : world) : world :=
  match h, cb with
  | run_close, _ => w
  | run_open, ok_cb => w
  | run_open, err_cb => set_caught open_error (stop w)
  end.

(** [on_pool_runner_t::start], with the callbacks of [running_server_instance_t::start]. *)
Definition callback_of_runner_start (cb : callback) (w : world) : world :=
  match cb with
  | ok_cb => set_promise ok_cb w
  | err_cb => set_promise err_cb (stop w)
  end.

(** [on_pool_runner_t::stop] *)
Definition callback_of_runner_stop (cb : callback) (w : world) : world :=
  match cb with
  | ok_cb => stop w
  | err_cb => w
  end.

Definition callback_of_runner (h : handler) : callback -> world -> world :=
  match h with run_open => callback_of_runner_start | run_close => callback_of_runner_stop end.

(** The cases of a step. *)
Ltac step_cases H :=
  destruct H as [w Hm Hl|w Hm Hl|w Hm Hp|w Hm Hl|w Hm Hp|w Hm Hp|w Hm|w Hm|w Hm|w Hm Hp|w h q He Ht Hs Hq|w k He Ht Hs Hk
    |w i He Hlook Hs|w He Hw|w k Ho He Hk].

Section Steps.
Variables (n : nat) (a : acceptor_behaviour) (p : program).

Definition on_callback (h : handler) (cb : callback) (w : world) : world :=
  match p with
  | run_settings => callback_of_run h cb w
  | run_existing used => callback_with_break_signal_handling h cb w
  | run_existing skipped => callback_without_break_signal_handling h cb w
  | run_async => callback_of_runner h cb w
  end.

Definition handle (h : handler) (w : world) : world :=
  let '(cb, s) := run_handler a h (server w) in on_callback h cb (set_server s w).

(** The handler of [initiate_shutdown]; what it throws leaves the thread's function. *)
Definition run_shutdown (w : world) : world :=
  match close_sync (closing a) (server w) with
  | Ret _ s => set_stopped (set_server s w)
  | Raise s | RaiseOther s => set_main Terminated (set_server s w)
  | _ => w
  end.

(** [exception_caught] is rethrown by [run], the error of the promise by [f.get()]. *)
Definition throws (w : world) : bool :=
  match p with
  | run_async => match promise w with Some err_cb => true | _ => false end
  | _ => bool_decide (exception_caught w <> None)
  end.

(** The end of the main thread; the destructor of the server does not throw. *)
Definition finish (threw : bool) (w : world) : world :=
  if owns_server p then
    match destroy (closing a) (server w) with
    | Ret _ s => set_main (Finished threw) (set_server s w)
    | Raise s | RaiseOther s => set_main Terminated (set_server s w)
    | _ => w
    end
  else set_main (Finished threw) w.

Inductive step : world -> world -> Prop :=
(* the main thread *)
| thread_created w :
    main w = Starting -> (length (m_pool w) < n)%nat -> step w (set_pool (m_pool w ++ [true]) w)
| thread_not_created w :
    main w = Starting -> (length (m_pool w) < n)%nat -> step w (set_main StartFailed (set_stopped w))
| all_joined_after_failure w :
    main w = StartFailed -> Forall (eq false) (m_pool w) -> step w (finish true w)
| all_created w :
    main w = Starting -> length (m_pool w) = n ->
    step w (set_main (match p with run_async => Getting | _ => Joining end) (set_started true w))
| promise_kept w : main w = Getting -> promise w = Some ok_cb -> step w (set_main Serving w)
| promise_broken w : main w = Getting -> promise w = Some err_cb -> step w (set_main Joining (stop w))
| handle_stopped w : main w = Serving -> step w (set_main Joining (set_queue (queue w ++ [run_close]) w))
| handle_destroyed w : main w = Serving -> step w (set_main Joining (stop w))
| handle_stopped_and_destroyed w :
    main w = Serving -> step w (set_main Joining (stop (set_queue (queue w ++ [run_close]) w)))
| all_joined w :
    main w = Joining -> Forall (eq false) (m_pool w) -> step w (finish (throws w) (set_started false w))
(* a thread of the pool *)
| handler_runs w h q :
    ended (main w) = false -> true ∈ m_pool w -> stopped w = false -> queue w = h :: q -> step w (handle h (set_queue q w))
| shutdown_runs w k :
    ended (main w) = false -> true ∈ m_pool w -> stopped w = false -> shutdowns_posted w = S k ->
    step w (run_shutdown (set_shutdowns (shutdowns w) k w))
| thread_ends w i :
    ended (main w) = false -> m_pool w !! i = Some true -> stopped w = true ->
    step w (set_pool (<[i := false]> (m_pool w)) w)
(* the user *)
| break_signal w :
    ended (main w) = false -> waits_for_signal w = true ->
    step w (set_signal false (set_queue (queue w ++ [run_close]) w))
| initiate_shutdown w k :
    owns_server p = false -> ended (main w) = false -> shutdowns w = S k ->
    step w (set_shutdowns k (S (shutdowns_posted w)) w).

(** The start of a run in which the user calls [initiate_shutdown] [calls] times. *)
Definition start (cleanup : bool) (calls : nat) : world :=
  mk_world Starting [] false false [run_open] (handles_signal p) (fresh cleanup) None None false calls 0.

Inductive reachable (cleanup : bool) (calls : nat) : world -> Prop :=
| reachable_start : reachable cleanup calls (start cleanup calls)
| reachable_step w w' : reachable cleanup calls w -> step w w' -> reachable cleanup calls w'.

(** Nothing happens any more. *)
Definition terminal (w : world) : Prop := forall w', ~ step w w'.

(** ** What the steps leave alone *)

Lemma handle_keeps h w :
  main (handle h w) = main w /\ m_pool (handle h w) = m_pool w /\ queue (handle h w) = queue w /\
  waits_for_signal (handle h w) = waits_for_signal w /\ started (handle h w) = started w /\
  shutdowns (handle h w) = shutdowns w /\ shutdowns_posted (handle h w) = shutdowns_posted w.
Proof.
  unfold handle. destruct (run_handler a h (server w)) as [cb s]. unfold on_callback, stop.
  destruct p as [|[]|], h, cb; try done; cbn; unfold stop; cbn; destruct (started w) eqn:E; cbn; by rewrite ?E.
Qed.

Lemma stop_keeps w :
  main (stop w) = main w /\ m_pool (stop w) = m_pool w /\ queue (stop w) = queue w /\
  waits_for_signal (stop w) = waits_for_signal w /\ started (stop w) = started w /\
  shutdowns (stop w) = shutdowns w /\ shutdowns_posted (stop w) = shutdowns_posted w.
Proof. unfold stop. destruct (started w) eqn:E; cbn; by rewrite ?E. Qed.

Lemma stop_asks w :
  (stopped (stop w) = true \/ stop_lost (stop w) = true) /\ (started w = true -> stopped (stop w) = true) /\
  (stopped (stop w) = false -> stopped w = false).
Proof. unfold stop. destruct (started w); split_and!; try done; [by left|by right]. Qed.

Lemma handle_stopped_keeps h w : stopped (handle h w) = false -> stopped w = false.
Proof.
  unfold handle. destruct (run_handler a h (server w)) as [cb s]. unfold on_callback.
  destruct p as [|[]|], h, cb; cbn; try done; apply (stop_asks (set_server s w)).
Qed.

Lemma close_sync_cases f s :
  (exists s', close_sync f s = Ret tt s' /\ m_running_state s' = not_running) \/
  (f <> None /\ exists s', close_sync f s = Raise s').
Proof.
  destruct s as [[] c o l]; unfold close_sync, acceptor_close, close_impl, call_cleanup_functor, bind, gets, id, emit, upd, raise, ret.
  - left. by eexists.
  - destruct o, f as [[]|], c; cbn; first [left; by eexists|right; split; [done|by eexists]].
Qed.

Lemma run_shutdown_keeps w :
  m_pool (run_shutdown w) = m_pool w /\ queue (run_shutdown w) = queue w /\
  waits_for_signal (run_shutdown w) = waits_for_signal w /\ started (run_shutdown w) = started w /\
  shutdowns (run_shutdown w) = shutdowns w /\ shutdowns_posted (run_shutdown w) = shutdowns_posted w /\
  (main (run_shutdown w) = main w /\ stopped (run_shutdown w) = true \/
   main (run_shutdown w) = Terminated /\ stopped (run_shutdown w) = stopped w /\ closing a <> None).
Proof.
  unfold run_shutdown. destruct (close_sync_cases (closing a) (server w)) as [(s' & -> & _)|(Hc & s' & ->)]; cbn;
    split_and!; try done; [by left|by right].
Qed.

Lemma finish_keeps t w :
  m_pool (finish t w) = m_pool w /\ queue (finish t w) = queue w /\
  waits_for_signal (finish t w) = waits_for_signal w /\ started (finish t w) = started w /\ stopped (finish t w) = stopped w /\
  shutdowns (finish t w) = shutdowns w /\ shutdowns_posted (finish t w) = shutdowns_posted w /\
  (main (finish t w) = Finished t /\ (owns_server p = true -> m_running_state (server (finish t w)) = not_running) \/
   main (finish t w) = Terminated /\ closing a <> None).
Proof.
  unfold finish, destroy. destruct (owns_server p); [|cbn; split_and!; try done; by left].
  destruct (close_sync_cases (closing a) (server w)) as [(s' & -> & Hr)|(Hc & s' & ->)]; cbn; split_and!; try done; [by left|by right].
Qed.

(** ** Every run ends *)

Definition stage (m : main_t) : nat :=
  match m with Starting => 5 | Getting => 4 | Serving => 3 | StartFailed => 1 | Joining => 1 | Finished _ | Terminated => 0 end.
Definition to_create (w : world) : nat := match main w with Starting => n - length (m_pool w) | _ => 0 end.
Definition alive (w : world) : nat := length (List.filter id (m_pool w)).

Definition weight (w : world) : nat :=
  stage (main w) + 2 * to_create w + alive w + length (queue w) + (if waits_for_signal w then 2 else 0)
  + 2 * shutdowns w + shutdowns_posted w.

Lemma filter_id_insert (l : list bool) i :
  l !! i = Some true -> S (length (List.filter id (<[i := false]> l))) = length (List.filter id l).
Proof.
  revert i. induction l as [|b l IH]; intros [|i]; cbn; [done|done|by intros [= ->]|]. intros H.
  destruct b; cbn; by rewrite <- (IH i H).
Qed.

Lemma finish_weight t w : stage (main w) = 1%nat -> (weight (finish t w) < weight w)%nat.
Proof.
  intros Hm. unfold weight, alive, to_create.
  destruct (finish_keeps t w) as (-> & -> & -> & _ & _ & -> & -> & [[-> _]|[-> _]]); cbn; destruct (main w); cbn in *; lia.
Qed.

Lemma step_weight w w' : step w w' -> (weight w' < weight w)%nat.
Proof.
  intros H. step_cases H; try (apply finish_weight; by rewrite Hm).
  - unfold weight, to_create, alive. cbn. rewrite Hm, List.filter_app, !length_app. cbn. lia.
  - unfold weight, to_create, alive. cbn. rewrite Hm. cbn. lia.
  - unfold weight, to_create, alive. cbn. rewrite Hm. destruct p; cbn; lia.
  - unfold weight, to_create, alive. cbn. rewrite Hm. cbn. lia.
  - unfold weight, to_create, alive. cbn -[stop]. destruct (stop_keeps w) as (_ & -> & -> & -> & _ & -> & ->). rewrite Hm. cbn. lia.
  - unfold weight, to_create, alive. cbn. rewrite Hm, length_app. cbn. lia.
  - unfold weight, to_create, alive. cbn -[stop]. destruct (stop_keeps w) as (_ & -> & -> & -> & _ & -> & ->). rewrite Hm. cbn. lia.
  - unfold weight, to_create, alive. cbn -[stop].
    destruct (stop_keeps (set_queue (queue w ++ [run_close]) w)) as (_ & -> & -> & -> & _ & -> & ->).
    cbn. rewrite Hm, length_app. cbn. lia.
  - pose proof (finish_weight (throws w) (set_started false w)) as H. cbn in H. rewrite Hm in H. exact (H eq_refl).
  - unfold weight, to_create, alive. destruct (handle_keeps h (set_queue q w)) as (-> & -> & -> & -> & _ & -> & ->).
    cbn. rewrite Hq. cbn. lia.
  - unfold weight, to_create, alive.
    destruct (run_shutdown_keeps (set_shutdowns (shutdowns w) k w)) as (-> & -> & -> & _ & -> & -> & [[-> _]|[-> _]]);
      cbn; rewrite Hk; destruct (main w); cbn; lia.
  - unfold weight, to_create, alive. cbn. rewrite length_insert. pose proof (filter_id_insert _ _ Hlook). lia.
  - unfold weight, to_create, alive. cbn. rewrite Hw, length_app. cbn. lia.
  - unfold weight, to_create, alive. cbn. rewrite Hk. lia.
Qed.

(** ** The pool *)

Definition past_start (m : main_t) : bool := match m with Getting | Serving | Joining => true | _ => false end.

Record pool_inv (w : world) : Prop := {
  pi_started : main w <> Terminated -> started w = past_start (main w);
  pi_length : (length (m_pool w) <= n)%nat;
  pi_all : past_start (main w) = true -> length (m_pool w) = n;
  pi_alive : stopped w = false -> Forall (eq true) (m_pool w);
  pi_failed : main w = StartFailed -> stopped w = true;
  pi_async : main w = Getting \/ main w = Serving -> p = run_async;
  pi_ended : forall t, main w = Finished t ->
    Forall (eq false) (m_pool w) /\ (owns_server p = true -> m_running_state (server w) = not_running);
  pi_terminated : main w = Terminated -> closing a <> None
}.

Ltac pool_auto := try done; try (by intros []); try (intros _; match goal with H : _ -> started _ = _ |- _ => by rewrite H end).

Lemma pool_inv_finish t w :
  pool_inv w -> started w = false -> Forall (eq false) (m_pool w) -> pool_inv (finish t w).
Proof.
  intros [I1 I2 I3 I4 I5 I6 I7 I8] Hst Hp.
  destruct (finish_keeps t w) as (Ep & _ & _ & Es & Ex & _ & _ & Hf).
  split; rewrite ?Ep, ?Es, ?Ex; try done; destruct Hf as [[-> Hr]|[-> Hc]]; try done; by intros [].
Qed.

Lemma pool_inv_stop m w : pool_inv w -> past_start (main w) = true -> m = Joining -> pool_inv (set_main m (stop w)).
Proof.
  intros [I1 I2 I3 I4 I5 I6 I7 I8] Hm ->. destruct (stop_keeps w) as (_ & Ep & _ & _ & Es & _).
  assert (main w <> Terminated) by (intros E; by rewrite E in Hm).
  split; cbn -[stop]; rewrite ?Ep, ?Es; try done; [by rewrite I1, Hm|intros _; by apply I3| |by intros []].
  intros Hs. apply I4. by apply stop_asks in Hs.
Qed.

Lemma pool_inv_step w w' : pool_inv w -> step w w' -> pool_inv w'.
Proof.
  intros Hinv H. pose proof Hinv as [I1 I2 I3 I4 I5 I6 I7 I8]. step_cases H.
  - split; cbn; rewrite ?Hm in *; pool_auto; [rewrite length_app; cbn; lia|]. intros Hs. apply Forall_app. split; [by apply I4|].
    by repeat constructor.
  - split; cbn; rewrite ?Hm in *; pool_auto.
  - apply pool_inv_finish; [done| |done]. rewrite I1 by (by rewrite Hm). by rewrite Hm.
  - split; cbn; rewrite ?Hm in *; pool_auto; destruct p; pool_auto.
  - split; cbn; rewrite ?Hm in *; pool_auto; tauto.
  - by apply pool_inv_stop; rewrite ?Hm.
  - split; cbn; rewrite ?Hm in *; pool_auto.
  - by apply pool_inv_stop; rewrite ?Hm.
  - by apply pool_inv_stop; cbn; rewrite ?Hm.
  - destruct (finish_keeps (throws w) (set_started false w)) as (Ep & _ & _ & Es & Ex & _ & _ & Hf).
    split; rewrite ?Ep, ?Es, ?Ex; try done; destruct Hf as [[-> Hr]|[-> Hc]]; try done; by intros [].
  - destruct (handle_keeps h (set_queue q w)) as (Em & Ep & _ & _ & Es & _).
    split; rewrite ?Em, ?Ep, ?Es; cbn; try done; [intros _; by apply I4|by intros E; rewrite I5 in Hs|].
    intros t E. by rewrite E in He.
  - destruct (run_shutdown_keeps (set_shutdowns (shutdowns w) k w)) as (Ep & _ & _ & Es & _ & _ & Hx).
    destruct Hx as [[Em Ex]|(Em & Ex & Hc)]; split; rewrite ?Em, ?Ep, ?Es, ?Ex; cbn; try done; [intros t E; by rewrite E in He|].
    by intros [].
  - split; cbn; rewrite ?length_insert; try done; [by rewrite Hs|]. intros t E. by rewrite E in He.
  - by split.
  - by split.
Qed.

Lemma reachable_pool_inv cleanup calls w : reachable cleanup calls w -> pool_inv w.
Proof.
  intros H. induction H as [|w w' H IH Hs]; [|by eapply pool_inv_step].
  split; cbn; try done; [lia|by intros []].
Qed.

(** ** What the handlers do to the server *)

Lemma open_fresh_any cleanup :
  match opening a with
  | None => (run_handler a run_open (fresh cleanup)).1 = ok_cb /\
            m_running_state (run_handler a run_open (fresh cleanup)).2 = running
  | Some _ => (run_handler a run_open (fresh cleanup)).1 = err_cb
  end.
Proof.
  destruct (opening a) as [f|] eqn:E; [|by rewrite OneThread.open_fresh].
  unfold run_handler, open_handler, async_handler. rewrite E.
  pose proof (open_sync_run (Some f) (sockets a) (fresh cleanup) eq_refl) as H. cbv zeta in H. rewrite H.
  by destruct (is_std_exception f).
Qed.

Lemma close_without_failure s : closing a = None -> (run_handler a run_close s).1 = ok_cb.
Proof.
  intros Hc. unfold run_handler, close_handler, async_handler. rewrite Hc. destruct s as [r c o l].
  unfold close_sync, acceptor_close, close_impl, call_cleanup_functor, bind, gets, id, emit, upd, ret.
  destruct r; [done|]. destruct o, c; done.
Qed.

(** ** The programs *)

Definition asked_to_stop (w : world) : Prop :=
  ended (main w) = true \/ stopped w = true \/ stop_lost w = true \/ exception_caught w = Some close_error.

(** [run]: as long as nobody has asked to stop, the server is about to be opened or runs,
    and the signal is waited for if it is handled at all. *)
Definition blocking_inv (cleanup : bool) (w : world) : Prop :=
  asked_to_stop w \/
  ((exists q, queue w = run_open :: q /\ server w = fresh cleanup) \/ m_running_state (server w) = running) /\
  (waits_for_signal w = true \/ run_close ∈ queue w \/ handles_signal p = false).

(** [run_async]: the promise is kept or broken by the only handler there is at first; who
    waits has stopped the pool or has posted the request to close. *)
Definition async_inv (cleanup : bool) (w : world) : Prop :=
  waits_for_signal w = false /\ shutdowns_posted w = 0%nat /\
  match main w with
  | Starting | Getting =>
      match promise w with
      | None => queue w = [run_open] /\ server w = fresh cleanup /\ stopped w = false
      | Some _ => queue w = []
      end
  | Serving => queue w = []
  | Joining => stopped w = true \/ run_close ∈ queue w \/ closing a <> None
  | _ => True
  end.

Definition program_inv (cleanup : bool) (w : world) : Prop :=
  match p with run_async => async_inv cleanup w | _ => blocking_inv cleanup w end.

Lemma handle_open_fresh cleanup w :
  server w = fresh cleanup ->
  handle run_open w = on_callback run_open (match opening a with None => ok_cb | Some _ => err_cb end)
                        (set_server (run_handler a run_open (fresh cleanup)).2 w) /\
  (opening a = None -> m_running_state (run_handler a run_open (fresh cleanup)).2 = running).
Proof.
  intros E. unfold handle. rewrite E. pose proof (open_fresh_any cleanup) as H.
  destruct (run_handler a run_open (fresh cleanup)) as [cb s]. cbn in H. destruct (opening a); [by subst cb|].
  destruct H as [-> H]. done.
Qed.

(** The callbacks of [run]: closing asks to stop, and so does a failure to open. *)
Lemma blocking_callback h cb w :
  p <> run_async -> (h = run_close -> handles_signal p = true) ->
  (asked_to_stop w -> asked_to_stop (on_callback h cb w)) /\
  (h = run_close \/ cb = err_cb -> asked_to_stop (on_callback h cb w)) /\
  (h = run_open -> cb = ok_cb -> on_callback h cb w = w).
Proof.
  intros Hp Hc. unfold on_callback, asked_to_stop, callback_of_run, callback_with_break_signal_handling,
    callback_without_break_signal_handling, stop.
  destruct p as [|[]|], h; try done; try (by specialize (Hc eq_refl)); destruct (started w), cb; cbn; split_and!; try done; try tauto;
    intros [?|?]; done.
Qed.

Lemma blocking_handler cleanup h q w :
  p <> run_async -> (run_close ∈ queue w -> handles_signal p = true) ->
  queue w = h :: q -> blocking_inv cleanup w -> blocking_inv cleanup (handle h (set_queue q w)).
Proof.
  intros Ep Hcl Hq Hi.
  assert (Hh : h = run_close -> handles_signal p = true) by (intros ->; apply Hcl; rewrite Hq; apply elem_of_cons; by left).
  destruct Hi as [Ha|[Hs Hw]].
  - left. unfold handle. destruct (run_handler a h (server (set_queue q w))) as [cb s].
    destruct (blocking_callback h cb (set_server s (set_queue q w)) Ep Hh) as (H & _). by apply H.
  - assert (Hrest : h = run_open -> waits_for_signal w = true \/ run_close ∈ q \/ handles_signal p = false).
    { intros ->. destruct Hw as [?|[Hw|?]]; [tauto| |tauto]. rewrite Hq in Hw. apply elem_of_cons in Hw as [?|?]; [done|tauto]. }
    destruct h.
    + destruct Hs as [(q' & Hq' & Hf)|Hr].
      * destruct (handle_open_fresh cleanup (set_queue q w) Hf) as [-> Hrun].
        destruct (blocking_callback run_open (match opening a with None => ok_cb | Some _ => err_cb end)
          (set_server (run_handler a run_open (fresh cleanup)).2 (set_queue q w)) Ep Hh) as (_ & H2 & H3).
        destruct (opening a) eqn:Eo; [left; apply H2; by right|]. rewrite H3 by done. right. cbn. split; [right; by apply Hrun|].
        by apply Hrest.
      * unfold handle. assert (E : run_handler a run_open (server (set_queue q w)) = (ok_cb, server w)).
        { unfold run_handler, open_handler, async_handler, open_sync, bind, gets, id. cbn. by rewrite Hr. }
        rewrite E. destruct (blocking_callback run_open ok_cb (set_server (server w) (set_queue q w)) Ep Hh) as (_ & _ & H3).
        rewrite H3 by done. right. cbn. split; [by right|by apply Hrest].
    + left. unfold handle. destruct (run_handler a run_close (server (set_queue q w))) as [cb s].
      apply (blocking_callback run_close cb (set_server s (set_queue q w)) Ep Hh). by left.
Qed.

(** Only [run] with signals posts a request to close. *)
Definition close_posted_inv (w : world) : Prop :=
  p <> run_async -> waits_for_signal w = true \/ run_close ∈ queue w -> handles_signal p = true.

Lemma serving_is_async w : pool_inv w -> main w = Getting \/ main w = Serving -> p <> run_async -> False.
Proof. intros Hi Hm Hp. by apply Hp, (pi_async w). Qed.

Lemma close_posted_step w w' : pool_inv w -> close_posted_inv w -> step w w' -> close_posted_inv w'.
Proof.
  intros Hpool Hi H Ep. specialize (Hi Ep).
  step_cases H; try (cbn in *; exact Hi); try (exfalso; eapply (serving_is_async w); auto; fail).
  - destruct (finish_keeps true w) as (_ & -> & -> & _). exact Hi.
  - destruct (finish_keeps (throws w) (set_started false w)) as (_ & -> & -> & _). exact Hi.
  - destruct (handle_keeps h (set_queue q w)) as (_ & _ & -> & -> & _). cbn. rewrite Hq in Hi. intros [?|Hc]; apply Hi; [by left|].
    right. apply elem_of_cons. by right.
  - destruct (run_shutdown_keeps (set_shutdowns (shutdowns w) k w)) as (_ & -> & -> & _). exact Hi.
  - intros _. apply Hi. by left.
Qed.

Lemma asked_to_stop_mono w w' :
  (ended (main w) = true -> ended (main w') = true) ->
  (stopped w = true -> stopped w' = true) -> (stop_lost w = true -> stop_lost w' = true) ->
  exception_caught w' = exception_caught w -> asked_to_stop w -> asked_to_stop w'.
Proof. unfold asked_to_stop. intros H0 H1 H2 -> [?|[?|[?|?]]]; tauto. Qed.

Lemma blocking_close_posted cleanup w :
  blocking_inv cleanup w -> blocking_inv cleanup (set_signal false (set_queue (queue w ++ [run_close]) w)).
Proof.
  intros [Hi|[H1 H2]]; [by left|]. right. cbn. split; [|right; left; apply elem_of_app; right; apply elem_of_cons; by left].
  destruct H1 as [(q & -> & E)|?]; [left; by exists (q ++ [run_close])|by right].
Qed.

Lemma blocking_step cleanup w w' :
  p <> run_async -> pool_inv w -> close_posted_inv w -> blocking_inv cleanup w -> step w w' -> blocking_inv cleanup w'.
Proof.
  intros Ep Hpool Hcl Hi H.
  assert (Hkeep : forall w', (ended (main w) = true -> ended (main w') = true) -> (stopped w = true -> stopped w' = true) ->
    (stop_lost w = true -> stop_lost w' = true) ->
    exception_caught w' = exception_caught w -> queue w' = queue w -> server w' = server w ->
    waits_for_signal w' = waits_for_signal w -> blocking_inv cleanup w').
  { intros v H0 H1 H2 H3 H4 H5 H6. destruct Hi as [Hi|Hi]; [left; by eapply asked_to_stop_mono|]. right. by rewrite H4, H5, H6. }
  assert (Hfin : forall t w, blocking_inv cleanup (finish t w)).
  { intros t v. left. left. destruct (finish_keeps t v) as (_ & _ & _ & _ & _ & _ & _ & [[-> _]|[-> _]]); done. }
  step_cases H; try (by apply Hfin); try (exfalso; eapply (serving_is_async w); auto; fail);
    try (apply Hkeep; cbn; try done; by rewrite Hm).
  - apply blocking_handler; try done. intros Hc. apply Hcl; [done|]. by right.
  - left. unfold asked_to_stop. destruct (run_shutdown_keeps (set_shutdowns (shutdowns w) k w)) as (_ & _ & _ & _ & _ & _ & [[_ ->]|(Em & _)]).
    + right; by left.
    + left. by rewrite Em.
  - by apply blocking_close_posted.
Qed.

Lemma async_handler_step cleanup h q w :
  p = run_async -> pool_inv w -> queue w = h :: q -> async_inv cleanup w -> async_inv cleanup (handle h (set_queue q w)).
Proof.
  intros Ep Hpool Hq (Hw & Hsp & Hi). destruct (handle_keeps h (set_queue q w)) as (Em & _ & Eq & Ew & _ & _ & Esp).
  split; [by rewrite Ew|]. split; [by rewrite Esp|]. rewrite Em. cbn [main set_queue]. pose proof (pi_started _ Hpool) as Hst.
  assert (Hearly : main w = Starting \/ main w = Getting -> promise (handle h (set_queue q w)) <> None /\ q = []).
  { intros Hm. assert (promise w = None /\ h = run_open /\ q = [] /\ server w = fresh cleanup) as (Hp & -> & -> & Hf).
    { destruct Hm as [Hm|Hm]; rewrite Hm in Hi; destruct (promise w); try congruence; destruct Hi as (Hi & ? & _);
        rewrite Hq in Hi; by injection Hi as -> ->. }
    split; [|done]. destruct (handle_open_fresh cleanup (set_queue [] w) Hf) as [-> _]. unfold on_callback. rewrite Ep.
    by destruct (opening a). }
  destruct (main w) eqn:Hm; try done.
  - destruct (Hearly (or_introl eq_refl)) as [Hp ->]. by destruct (promise (handle h (set_queue [] w))).
  - destruct (Hearly (or_intror eq_refl)) as [Hp ->]. by destruct (promise (handle h (set_queue [] w))).
  - congruence.
  - rewrite Eq. cbn [queue set_queue].
    assert (Hmono : stopped w = true -> stopped (handle h (set_queue q w)) = true).
    { intros Hs. destruct (stopped (handle h (set_queue q w))) eqn:E; [done|]. apply handle_stopped_keeps in E. cbn in E. congruence. }
    destruct Hi as [Hi|[Hi|Hi]]; [left; by apply Hmono| |by right; right].
    rewrite Hq in Hi. apply elem_of_cons in Hi as [<-|Hi]; [|by right; left].
    destruct (closing a) eqn:Ec; [by right; right|]. left. unfold handle.
    pose proof (close_without_failure (server (set_queue q w)) Ec) as Hok.
    destruct (run_handler a run_close (server (set_queue q w))) as [cb s']. cbn in Hok. subst cb.
    unfold on_callback. rewrite Ep. cbn. apply stop_asks. cbn. by apply Hst.
Qed.

Lemma async_finish cleanup t w : waits_for_signal w = false -> shutdowns_posted w = 0%nat -> async_inv cleanup (finish t w).
Proof.
  intros H1 H2. unfold async_inv. destruct (finish_keeps t w) as (_ & _ & -> & _ & _ & _ & -> & [[-> _]|[-> _]]); done.
Qed.

Lemma async_stop cleanup w :
  waits_for_signal w = false -> shutdowns_posted w = 0%nat -> started w = true -> async_inv cleanup (set_main Joining (stop w)).
Proof.
  intros H1 H2 H3. destruct (stop_keeps w) as (_ & _ & _ & Ew & _ & _ & Es). split_and!; cbn -[stop]; [by rewrite Ew|by rewrite Es|].
  left. by apply stop_asks.
Qed.

Lemma async_step cleanup w w' : p = run_async -> pool_inv w -> async_inv cleanup w -> step w w' -> async_inv cleanup w'.
Proof.
  intros Ep Hpool Hi H. pose proof (pi_started _ Hpool) as Hst. pose proof Hi as (Hw1 & Hsp & _). step_cases H.
  - done.
  - by split_and!.
  - by apply async_finish.
  - unfold async_inv in *. rewrite Hm in Hi. cbn. rewrite Ep. exact Hi.
  - unfold async_inv in *. rewrite Hm, Hp in Hi. exact Hi.
  - apply async_stop; try done. rewrite Hst by (by rewrite Hm). by rewrite Hm.
  - split_and!; try done. right; left. cbn. apply elem_of_app. right. apply elem_of_cons. by left.
  - apply async_stop; try done. rewrite Hst by (by rewrite Hm). by rewrite Hm.
  - apply async_stop; try done. cbn. rewrite Hst by (by rewrite Hm). by rewrite Hm.
  - by apply async_finish.
  - by apply async_handler_step.
  - congruence.
  - done.
  - congruence.
  - by rewrite Ep in Ho.
Qed.

Definition program_invs (cleanup : bool) (calls : nat) (w : world) : Prop :=
  program_inv cleanup w /\ close_posted_inv w /\
  (stopped w = true \/ ended (main w) = true \/ (shutdowns w + shutdowns_posted w)%nat = calls).

(** Calls of [initiate_shutdown] are not lost. *)
Lemma shutdowns_step calls w w' :
  stopped w = true \/ ended (main w) = true \/ (shutdowns w + shutdowns_posted w)%nat = calls -> step w w' ->
  stopped w' = true \/ ended (main w') = true \/ (shutdowns w' + shutdowns_posted w')%nat = calls.
Proof.
  intros Hi H.
  assert (Hstop : forall m w, stopped w = true \/ (shutdowns w + shutdowns_posted w)%nat = calls ->
    stopped (set_main m (stop w)) = true \/ ended (main (set_main m (stop w))) = true \/
    (shutdowns (set_main m (stop w)) + shutdowns_posted (set_main m (stop w)))%nat = calls).
  { intros m v Hv. destruct (stop_keeps v) as (_ & _ & _ & _ & _ & Ea & Ep). cbn -[stop]. rewrite Ea, Ep.
    destruct Hv; [|tauto]. left. destruct (stopped (stop v)) eqn:E; [done|]. apply stop_asks in E. congruence. }
  assert (Hfin : forall t w, ended (main (finish t w)) = true).
  { intros t v. destruct (finish_keeps t v) as (_ & _ & _ & _ & _ & _ & _ & [[-> _]|[-> _]]); done. }
  step_cases H; rewrite ?Hfin; try (by cbn in *; rewrite ?Hm in *; tauto); try (apply Hstop; rewrite Hm in Hi; cbn; destruct Hi as [?|[?|?]]; [by left|done|by right]).
  - cbn in *. rewrite Hm in Hi. destruct Hi as [?|[?|?]]; [tauto|done|tauto].
  - destruct (handle_keeps h (set_queue q w)) as (-> & _ & _ & _ & _ & -> & ->). cbn.
    destruct Hi as [?|[?|?]]; [congruence|congruence|tauto].
  - destruct (run_shutdown_keeps (set_shutdowns (shutdowns w) k w)) as (_ & _ & _ & _ & _ & _ & [[_ ->]|(-> & _)]); [by left|right; by left].
  - cbn. destruct Hi as [?|[?|?]]; [by left|congruence|]. right; right. lia.
Qed.

Lemma reachable_program_inv cleanup calls w : reachable cleanup calls w -> program_invs cleanup calls w.
Proof.
  intros H. unfold program_invs. induction H as [|w w' H IH Hs].
  - split_and!; [| |right; right; cbn; lia].
    + unfold program_inv. assert (Hb : blocking_inv cleanup (start cleanup calls)).
      { right. cbn. split; [left; by exists []|]. destruct (handles_signal p); tauto. }
      destruct p eqn:Ep; [exact Hb|exact Hb|]. unfold async_inv, start. cbn. rewrite Ep. by split_and!.
    + intros Ep. cbn. intros [?|Hc]; [done|]. apply elem_of_cons in Hc as [?|Hc]; [done|]. by apply elem_of_nil in Hc.
  - destruct IH as (I1 & I2 & I3). pose proof (reachable_pool_inv _ _ _ H) as Hpool.
    split_and!; [|by eapply close_posted_step|by eapply shutdowns_step].
    unfold program_inv in *. destruct (decide (p = run_async)) as [E|E].
    + rewrite E in *. by eapply async_step.
    + assert (blocking_inv cleanup w') by (eapply blocking_step; [done|done|done| |done]; by destruct p). by destruct p.
Qed.

(** Where a run may come to rest although it has not ended. *)
Lemma terminal_rests cleanup calls w :
  (0 < n)%nat -> reachable cleanup calls w -> terminal w -> ended (main w) = false ->
  main w = Joining /\ stopped w = false /\ queue w = [] /\ waits_for_signal w = false /\ shutdowns_posted w = 0%nat /\
  (owns_server p = false -> shutdowns w = 0%nat).
Proof.
  intros Hn Hr Ht He. pose proof (reachable_pool_inv _ _ _ Hr) as [I1 I2 I3 I4 I5 I6 I7 I8].
  pose proof (reachable_program_inv _ _ _ Hr) as (Hi & _ & _).
  assert (Hsig : waits_for_signal w = false).
  { destruct (waits_for_signal w) eqn:E; [|done]. exfalso. eapply Ht. by apply break_signal. }
  assert (Hasks : owns_server p = false -> shutdowns w = 0%nat).
  { intros Ho. destruct (shutdowns w) as [|k] eqn:E; [done|]. exfalso. eapply Ht. by eapply initiate_shutdown. }
  assert (Halive : stopped w = true -> Forall (eq false) (m_pool w)).
  { intros Hs. apply Forall_lookup. intros i [] Hl; [|done]. exfalso. eapply Ht. by apply (thread_ends w i). }
  assert (Hthread : stopped w = false -> m_pool w <> [] -> true ∈ m_pool w).
  { intros Hs Hp. specialize (I4 Hs). destruct (m_pool w) as [|b l]; [done|]. inversion I4 as [|x y <- ?]; subst. apply elem_of_cons. by left. }
  assert (Hrun : stopped w = false -> m_pool w <> [] -> queue w = [] /\ shutdowns_posted w = 0%nat).
  { intros Hs Hp. split.
    - destruct (queue w) as [|h q] eqn:Eq; [done|]. exfalso. eapply Ht. eapply handler_runs; [done|by apply Hthread|done|done].
    - destruct (shutdowns_posted w) as [|k] eqn:Eq; [done|]. exfalso. eapply Ht. eapply shutdown_runs; [done|by apply Hthread|done|done]. }
  assert (Hne : past_start (main w) = true -> m_pool w <> []).
  { intros Hp E. specialize (I3 Hp). rewrite E in I3. cbn in I3. lia. }
  destruct (main w) eqn:Em; cbn in Hne.
  - exfalso. destruct (decide (length (m_pool w) = n)) as [E|E]; eapply Ht; [by apply all_created|]. apply thread_created; [done|lia].
  - exfalso. eapply Ht. apply all_joined_after_failure; [done|]. by apply Halive, I5.
  - exfalso. unfold program_inv in Hi. rewrite I6 in Hi by (by left). destruct Hi as (_ & _ & Hi). rewrite Em in Hi. destruct (promise w) as [[]|] eqn:Epr.
    + eapply Ht. by apply promise_kept.
    + eapply Ht. by apply promise_broken.
    + destruct Hi as (Hq & _ & Hs). destruct (Hrun Hs (Hne eq_refl)). congruence.
  - exfalso. eapply Ht. by apply handle_stopped.
  - destruct (stopped w) eqn:Es; [exfalso; eapply Ht; apply all_joined; [done|by apply Halive]|].
    destruct (Hrun eq_refl (Hne eq_refl)). by split_and!.
  - done.
  - done.
Qed.

(** C26. Running on a pool of at least one thread, with any number of calls of
    [initiate_shutdown].  Every run is finite.  When the main thread has ended, all
    threads of the pool have, and a server that the run owned is closed; the program is
    terminated only if closing fails.  A run comes to rest nowhere else, except in these
    cases: for [run], a stop of the pool was asked for before the pool was marked as
    started and got lost, or closing the server failed, or signals are not handled and the
    server runs, and in all of them [initiate_shutdown] is not called; for [run_async],
    closing the server failed. *)
Theorem pool_comes_to_rest (cleanup : bool) (calls : nat) (w : world) :
  (0 < n)%nat -> reachable cleanup calls w ->
  (forall w', step w w' -> (weight w' < weight w)%nat) /\
  (forall t, main w = Finished t ->
     Forall (eq false) (m_pool w) /\ (owns_server p = true -> m_running_state (server w) = not_running)) /\
  (main w = Terminated -> closing a <> None) /\
  (terminal w ->
     ended (main w) = true \/
     match p with
     | run_settings => stop_lost w = true \/ exception_caught w = Some close_error
     | run_existing b =>
         calls = 0%nat /\
         (stop_lost w = true \/ exception_caught w = Some close_error \/ b = skipped /\ m_running_state (server w) = running)
     | run_async => closing a <> None
     end).
Proof.
  intros Hn Hr. pose proof (reachable_pool_inv _ _ _ Hr) as Hpool.
  split_and!; [apply step_weight|apply (pi_ended w Hpool)|apply (pi_terminated w Hpool)|]. intros Ht.
  destruct (ended (main w)) eqn:He; [by left|]. right.
  destruct (terminal_rests cleanup calls w Hn Hr Ht He) as (Hm & Hs & Hq & Hw & Hsp & Ha).
  pose proof (reachable_program_inv _ _ _ Hr) as (Hi & _ & Hc). unfold program_inv in Hi.
  assert (Hblocking : blocking_inv cleanup w ->
    stop_lost w = true \/ exception_caught w = Some close_error \/ handles_signal p = false /\ m_running_state (server w) = running).
  { intros [[?|[?|[?|?]]]|[H1 H2]]; [congruence|congruence|by left|by right; left|]. rewrite Hq in *. right; right. split.
    - destruct H2 as [?|[H2|?]]; [congruence|by apply elem_of_nil in H2|done].
    - by destruct H1 as [(q & ? & _)|?]. }
  destruct p as [|b|] eqn:Ep.
  - destruct (Hblocking Hi) as [?|[?|[? _]]]; [by left|by right|done].
  - split; [|by destruct (Hblocking Hi) as [?|[?|[? ?]]]; [left|right; left|right; right; destruct b]].
    destruct Hc as [?|[?|?]]; [congruence|congruence|]. specialize (Ha eq_refl). lia.
  - destruct Hi as (_ & _ & Hi). rewrite Hm in Hi. destruct Hi as [?|[Hi|?]]; [congruence| |done]. rewrite Hq in Hi. by apply elem_of_nil in Hi.
Qed.

End Steps.

(** ** Runs *)

(** An ordinary run on one thread: opened, SIGINT, closed, joined. *)
Definition one_socket : acceptor_behaviour := mk_behaviour None None 1.

Definition ordinary_end : world :=
  mk_world (Finished false) [false] false true [] false
    (mk_server not_running false false (OneThread.opened_log 1 ++ OneThread.closed_log true)) None None false 0 0.

Lemma ordinary_end_reachable : reachable 1 one_socket run_settings true 0 ordinary_end.
Proof.
  assert (H : exists w, reachable 1 one_socket run_settings true 0 w /\ w = ordinary_end).
  { eexists. split.
    - eapply reachable_step; [eapply reachable_step; [eapply reachable_step; [eapply reachable_step; [eapply reachable_step;
        [eapply reachable_step; [eapply reachable_step; [apply reachable_start|]|]|]|]|]|]|].
      + apply thread_created; [done|by apply Nat.ltb_lt].
      + by apply all_created.
      + eapply handler_runs; [done|apply elem_of_cons; by left|done|done].
      + by apply break_signal.
      + eapply (handler_runs 1 one_socket run_settings _ run_close []); [done|apply elem_of_cons; by left|done|done].
      + by apply (thread_ends 1 one_socket run_settings _ 0).
      + apply all_joined; [done|repeat constructor].
    - vm_compute. reflexivity. }
  by destruct H as (w & H & <-).
Qed.

Lemma pool_comes_to_rest_witness :
  Forall (eq false) (m_pool ordinary_end) /\
  (forall w', step 1 one_socket run_settings ordinary_end w' -> (weight 1 w' < weight 1 ordinary_end)%nat).
Proof.
  destruct (pool_comes_to_rest 1 one_socket run_settings true 0 ordinary_end) as (H1 & H2 & _ & _).
  - lia.
  - exact ordinary_end_reachable.
  - split; [by apply (H2 false)|exact H1].
Defined.

(** The threads of the pool start to work before [start] has marked the pool as started.
    If the server cannot be opened, and the handler runs in between, its call of [stop]
    does nothing: the error is never rethrown, [run] waits for ever. *)
Definition port_in_use : acceptor_behaviour := mk_behaviour (Some (mk_open_failure bind_socket true)) None 1.

Lemma failed_start_waits_forever :
  exists w, reachable 2 port_in_use (run_existing skipped) true 0 w /\ terminal 2 port_in_use (run_existing skipped) w /\
    main w = Joining /\ exception_caught w = Some open_error.
Proof.
  eexists. split; [|split; [|split]].
  - eapply reachable_step; [eapply reachable_step; [eapply reachable_step; [eapply reachable_step; [apply reachable_start|]|]|]|].
    + apply thread_created; [done|by apply Nat.ltb_lt].
    + eapply handler_runs; [done|apply elem_of_cons; by left|done|done].
    + apply thread_created; [done|by apply Nat.ltb_lt].
    + by apply all_created.
  - intros w' H. remember (set_main _ _) as w eqn:Ew.
    step_cases H;
      subst w; try done. vm_compute in Hp. by inversion Hp.
  - reflexivity.
  - reflexivity.
Qed.

(** The same with a SIGINT right after the start: the server is closed, but [run] does not
    return, and no further signal is waited for. *)
Lemma early_signal_waits_forever :
  exists w, reachable 2 one_socket run_settings true 0 w /\ terminal 2 one_socket run_settings w /\
    main w = Joining /\ m_running_state (server w) = not_running.
Proof.
  eexists. split; [|split; [|split]].
  - eapply reachable_step; [eapply reachable_step; [eapply reachable_step; [eapply reachable_step; [eapply reachable_step;
      [eapply reachable_step; [apply reachable_start|]|]|]|]|]|].
    + apply thread_created; [done|by apply Nat.ltb_lt].
    + eapply handler_runs; [done|apply elem_of_cons; by left|done|done].
    + by apply break_signal.
    + eapply (handler_runs 2 one_socket run_settings _ run_close []); [done|apply elem_of_cons; by left|done|done].
    + apply thread_created; [done|by apply Nat.ltb_lt].
    + by apply all_created.
  - intros w' H. remember (set_main _ _) as w eqn:Ew.
    step_cases H;
      subst w; try done. vm_compute in Hp. by inversion Hp.
  - reflexivity.
  - reflexivity.
Qed.

(** A pool of no threads: [run] returns at once without having opened anything, and
    [run_async] waits for ever. *)
Lemma empty_pool :
  (exists w, reachable 0 one_socket run_settings true 0 w /\ main w = Finished false /\ log (server w) = []) /\
  (exists w, reachable 0 one_socket run_async true 0 w /\ terminal 0 one_socket run_async w /\ main w = Getting).
Proof.
  split.
  - eexists. split; [|split].
    + eapply reachable_step; [eapply reachable_step; [apply reachable_start|by apply all_created]|]. by apply all_joined; [|constructor].
    + reflexivity.
    + reflexivity.
  - eexists. split; [|split].
    + eapply reachable_step; [apply reachable_start|by apply all_created].
    + intros w' H. remember (set_main _ _) as w eqn:Ew.
      step_cases H;
        subst w; try done. by apply elem_of_nil in Ht.
    + reflexivity.
Qed.

End OnPool.
