(* ===== verification/Settings.v ===== *)
(** * The settings of a server

    Model of src/web/restinio/restinio/settings.hpp: the parameters with their defaults,
    the calls that set them, one definition each, and the ones that hand objects over to
    the server.  What the user supplies, types and objects, is the class [Traits] (traits.hpp).

    The overloads for an rvalue call the ones for an lvalue; they are one definition.
    Arguments are values of their C++ type; durations are in nanoseconds. *)

From S2P Require Import Prelude HttpInput.

Module Settings.
Import Limits.

(** ** What the user supplies *)

(** [default_...] is there when the type is default constructible. *)
Class Traits := {
  request_handler_t : Type;
  timer_factory_t : Type;
  timer_manager_t : Type;
  logger_t : Type;
  acceptor_options_setter_t : Type;
  socket_options_setter_t : Type;
  acceptor_post_bind_hook_t : Type;
  cleanup_functor_t : Type;
  connection_state_listener_t : Type;
  ip_blocker_t : Type;
  extra_data_factory_t : Type;
  ip_address : Type;
  default_request_handler : option request_handler_t;
  is_default_request_handler_t : bool;       (* the handler is a [std::function] *)
  default_timer_factory : option timer_factory_t;
  default_logger : option logger_t;
  default_extra_data_factory : option extra_data_factory_t;
  timer_factory_create : timer_factory_t -> option timer_manager_t;
  reuse_address : acceptor_options_setter_t; (* the lambda of settings.hpp *)
  no_socket_options : socket_options_setter_t;
  no_post_bind_action : acceptor_post_bind_hook_t;
  has_actual_connection_state_listener : bool;
  has_actual_ip_blocker : bool;
  has_actual_max_parallel_connections : bool
}.

Section Settings.
Context `{Traits}.

Inductive protocol_t := v4 | v6.

#[export] Instance protocol_t_eq_dec : EqDecision protocol_t.
Proof. solve_decision. Defined.

(** [address_variant_t] *)
Inductive address_variant_t := no_address_specified | address_text (s : list byte) | address_value (a : ip_address).

(** Owning pointers and [std::function]s are options; [None] is null or empty. *)
Record settings_t := mk_settings {
  m_port : Z;
  m_protocol : protocol_t;
  m_address : address_variant_t;
  m_buffer_size : Z;
  m_read_next_http_message_timelimit : Z;
  m_write_http_response_timelimit : Z;
  m_handle_request_timeout : Z;
  m_max_pipelined_requests : Z;
  m_request_handler : option request_handler_t;
  m_timer_factory : option timer_factory_t;
  m_logger : option logger_t;
  m_acceptor_options_setter : option acceptor_options_setter_t;
  m_acceptor_post_bind_hook : option acceptor_post_bind_hook_t;
  m_socket_options_setter : option socket_options_setter_t;
  m_concurrent_accepts_count : Z;
  m_separate_accept_and_create_connect : bool;
  m_cleanup_functor : option cleanup_functor_t;
  m_incoming_http_msg_limits : incoming_http_msg_limits_t;
  m_extra_data_factory : option extra_data_factory_t;
  m_connection_state_listener : option connection_state_listener_t;
  m_ip_blocker : option ip_blocker_t;
  m_max_parallel_connections : Z
}.

Definition seconds (n : Z) : Z := n * 10 ^ 9.

(** The constructor. *)
Definition basic_server_settings (port : Z) (protocol : protocol_t) : settings_t :=
  mk_settings port protocol no_address_specified (4 * 1024) (seconds 60) (seconds 5) (seconds 10) 1 None None None None
    (Some no_post_bind_action) None 1 false None incoming_http_msg_limits None None None uint64_max.

Definition default_settings : settings_t := basic_server_settings 8080 v4.

(** ** Setting a parameter *)

Definition port (p : Z) (s : settings_t) : settings_t :=
  mk_settings p (m_protocol s) (m_address s) (m_buffer_size s) (m_read_next_http_message_timelimit s)
    (m_write_http_response_timelimit s) (m_handle_request_timeout s) (m_max_pipelined_requests s)
    (m_request_handler s) (m_timer_factory s) (m_logger s) (m_acceptor_options_setter s)
    (m_acceptor_post_bind_hook s) (m_socket_options_setter s) (m_concurrent_accepts_count s)
    (m_separate_accept_and_create_connect s) (m_cleanup_functor s) (m_incoming_http_msg_limits s)
    (m_extra_data_factory s) (m_connection_state_listener s) (m_ip_blocker s) (m_max_parallel_connections s).
Definition protocol (p : protocol_t) (s : settings_t) : settings_t :=
  mk_settings (m_port s) p (m_address s) (m_buffer_size s) (m_read_next_http_message_timelimit s)
    (m_write_http_response_timelimit s) (m_handle_request_timeout s) (m_max_pipelined_requests s)
    (m_request_handler s) (m_timer_factory s) (m_logger s) (m_acceptor_options_setter s)
    (m_acceptor_post_bind_hook s) (m_socket_options_setter s) (m_concurrent_accepts_count s)
    (m_separate_accept_and_create_connect s) (m_cleanup_functor s) (m_incoming_http_msg_limits s)
    (m_extra_data_factory s) (m_connection_state_listener s) (m_ip_blocker s) (m_max_parallel_connections s).
Definition address_string (addr : list byte) (s : settings_t) : settings_t :=
  mk_settings (m_port s) (m_protocol s) (address_text addr) (m_buffer_size s)
    (m_read_next_http_message_timelimit s) (m_write_http_response_timelimit s) (m_handle_request_timeout s)
    (m_max_pipelined_requests s) (m_request_handler s) (m_timer_factory s) (m_logger s)
    (m_acceptor_options_setter s) (m_acceptor_post_bind_hook s) (m_socket_options_setter s)
    (m_concurrent_accepts_count s) (m_separate_accept_and_create_connect s) (m_cleanup_functor s)
    (m_incoming_http_msg_limits s) (m_extra_data_factory s) (m_connection_state_listener s) (m_ip_blocker s)
    (m_max_parallel_connections s).
Definition address (addr : ip_address) (s : settings_t) : settings_t :=
  mk_settings (m_port s) (m_protocol s) (address_value addr) (m_buffer_size s)
    (m_read_next_http_message_timelimit s) (m_write_http_response_timelimit s) (m_handle_request_timeout s)
    (m_max_pipelined_requests s) (m_request_handler s) (m_timer_factory s) (m_logger s)
    (m_acceptor_options_setter s) (m_acceptor_post_bind_hook s) (m_socket_options_setter s)
    (m_concurrent_accepts_count s) (m_separate_accept_and_create_connect s) (m_cleanup_functor s)
    (m_incoming_http_msg_limits s) (m_extra_data_factory s) (m_connection_state_listener s) (m_ip_blocker s)
    (m_max_parallel_connections s).
Definition buffer_size (n : Z) (s : settings_t) : settings_t :=
  mk_settings (m_port s) (m_protocol s) (m_address s) n (m_read_next_http_message_timelimit s)
    (m_write_http_response_timelimit s) (m_handle_request_timeout s) (m_max_pipelined_requests s)
    (m_request_handler s) (m_timer_factory s) (m_logger s) (m_acceptor_options_setter s)
    (m_acceptor_post_bind_hook s) (m_socket_options_setter s) (m_concurrent_accepts_count s)
    (m_separate_accept_and_create_connect s) (m_cleanup_functor s) (m_incoming_http_msg_limits s)
    (m_extra_data_factory s) (m_connection_state_listener s) (m_ip_blocker s) (m_max_parallel_connections s).
Definition read_next_http_message_timelimit (d : Z) (s : settings_t) : settings_t :=
  mk_settings (m_port s) (m_protocol s) (m_address s) (m_buffer_size s) d (m_write_http_response_timelimit s)
    (m_handle_request_timeout s) (m_max_pipelined_requests s) (m_request_handler s) (m_timer_factory s)
    (m_logger s) (m_acceptor_options_setter s) (m_acceptor_post_bind_hook s) (m_socket_options_setter s)
    (m_concurrent_accepts_count s) (m_separate_accept_and_create_connect s) (m_cleanup_functor s)
    (m_incoming_http_msg_limits s) (m_extra_data_factory s) (m_connection_state_listener s) (m_ip_blocker s)
    (m_max_parallel_connections s).
Definition write_http_response_timelimit (d : Z) (s : settings_t) : settings_t :=
  mk_settings (m_port s) (m_protocol s) (m_address s) (m_buffer_size s) (m_read_next_http_message_timelimit s) d
    (m_handle_request_timeout s) (m_max_pipelined_requests s) (m_request_handler s) (m_timer_factory s)
    (m_logger s) (m_acceptor_options_setter s) (m_acceptor_post_bind_hook s) (m_socket_options_setter s)
    (m_concurrent_accepts_count s) (m_separate_accept_and_create_connect s) (m_cleanup_functor s)
    (m_incoming_http_msg_limits s) (m_extra_data_factory s) (m_connection_state_listener s) (m_ip_blocker s)
    (m_max_parallel_connections s).
Definition handle_request_timeout (d : Z) (s : settings_t) : settings_t :=
  mk_settings (m_port s) (m_protocol s) (m_address s) (m_buffer_size s) (m_read_next_http_message_timelimit s)
    (m_write_http_response_timelimit s) d (m_max_pipelined_requests s) (m_request_handler s) (m_timer_factory s)
    (m_logger s) (m_acceptor_options_setter s) (m_acceptor_post_bind_hook s) (m_socket_options_setter s)
    (m_concurrent_accepts_count s) (m_separate_accept_and_create_connect s) (m_cleanup_functor s)
    (m_incoming_http_msg_limits s) (m_extra_data_factory s) (m_connection_state_listener s) (m_ip_blocker s)
    (m_max_parallel_connections s).
Definition max_pipelined_requests (mpr : Z) (s : settings_t) : settings_t :=
  mk_settings (m_port s) (m_protocol s) (m_address s) (m_buffer_size s) (m_read_next_http_message_timelimit s)
    (m_write_http_response_timelimit s) (m_handle_request_timeout s) mpr (m_request_handler s)
    (m_timer_factory s) (m_logger s) (m_acceptor_options_setter s) (m_acceptor_post_bind_hook s)
    (m_socket_options_setter s) (m_concurrent_accepts_count s) (m_separate_accept_and_create_connect s)
    (m_cleanup_functor s) (m_incoming_http_msg_limits s) (m_extra_data_factory s)
    (m_connection_state_listener s) (m_ip_blocker s) (m_max_parallel_connections s).
Definition request_handler (handler : option request_handler_t) (s : settings_t) : settings_t :=
  mk_settings (m_port s) (m_protocol s) (m_address s) (m_buffer_size s) (m_read_next_http_message_timelimit s)
    (m_write_http_response_timelimit s) (m_handle_request_timeout s) (m_max_pipelined_requests s) handler
    (m_timer_factory s) (m_logger s) (m_acceptor_options_setter s) (m_acceptor_post_bind_hook s)
    (m_socket_options_setter s) (m_concurrent_accepts_count s) (m_separate_accept_and_create_connect s)
    (m_cleanup_functor s) (m_incoming_http_msg_limits s) (m_extra_data_factory s)
    (m_connection_state_listener s) (m_ip_blocker s) (m_max_parallel_connections s).
Definition timer_manager (factory : timer_factory_t) (s : settings_t) : settings_t :=
  mk_settings (m_port s) (m_protocol s) (m_address s) (m_buffer_size s) (m_read_next_http_message_timelimit s)
    (m_write_http_response_timelimit s) (m_handle_request_timeout s) (m_max_pipelined_requests s)
    (m_request_handler s) (Some factory) (m_logger s) (m_acceptor_options_setter s)
    (m_acceptor_post_bind_hook s) (m_socket_options_setter s) (m_concurrent_accepts_count s)
    (m_separate_accept_and_create_connect s) (m_cleanup_functor s) (m_incoming_http_msg_limits s)
    (m_extra_data_factory s) (m_connection_state_listener s) (m_ip_blocker s) (m_max_parallel_connections s).
Definition logger (l : logger_t) (s : settings_t) : settings_t :=
  mk_settings (m_port s) (m_protocol s) (m_address s) (m_buffer_size s) (m_read_next_http_message_timelimit s)
    (m_write_http_response_timelimit s) (m_handle_request_timeout s) (m_max_pipelined_requests s)
    (m_request_handler s) (m_timer_factory s) (Some l) (m_acceptor_options_setter s)
    (m_acceptor_post_bind_hook s) (m_socket_options_setter s) (m_concurrent_accepts_count s)
    (m_separate_accept_and_create_connect s) (m_cleanup_functor s) (m_incoming_http_msg_limits s)
    (m_extra_data_factory s) (m_connection_state_listener s) (m_ip_blocker s) (m_max_parallel_connections s).
Definition acceptor_options_setter (aos : option acceptor_options_setter_t) (s : settings_t) : outcome settings_t :=
  match aos with
  | None => Throw "acceptor options setter cannot be empty"
  | Some _ =>
      Ok (mk_settings (m_port s) (m_protocol s) (m_address s) (m_buffer_size s)
            (m_read_next_http_message_timelimit s) (m_write_http_response_timelimit s)
            (m_handle_request_timeout s) (m_max_pipelined_requests s) (m_request_handler s) (m_timer_factory s)
            (m_logger s) aos (m_acceptor_post_bind_hook s) (m_socket_options_setter s)
            (m_concurrent_accepts_count s) (m_separate_accept_and_create_connect s) (m_cleanup_functor s)
            (m_incoming_http_msg_limits s) (m_extra_data_factory s) (m_connection_state_listener s)
            (m_ip_blocker s) (m_max_parallel_connections s))
  end.
Definition socket_options_setter (sos : option socket_options_setter_t) (s : settings_t) : outcome settings_t :=
  match sos with
  | None => Throw "socket options setter cannot be empty"
  | Some _ =>
      Ok (mk_settings (m_port s) (m_protocol s) (m_address s) (m_buffer_size s)
            (m_read_next_http_message_timelimit s) (m_write_http_response_timelimit s)
            (m_handle_request_timeout s) (m_max_pipelined_requests s) (m_request_handler s) (m_timer_factory s)
            (m_logger s) (m_acceptor_options_setter s) (m_acceptor_post_bind_hook s) sos
            (m_concurrent_accepts_count s) (m_separate_accept_and_create_connect s) (m_cleanup_functor s)
            (m_incoming_http_msg_limits s) (m_extra_data_factory s) (m_connection_state_listener s)
            (m_ip_blocker s) (m_max_parallel_connections s))
  end.
Definition concurrent_accepts_count (n : Z) (s : settings_t) : outcome settings_t :=
  if (0 =? n) || (1024 <? n) then Throw "invalid value for number of cuncurrent connects"
  else Ok (mk_settings (m_port s) (m_protocol s) (m_address s) (m_buffer_size s)
          (m_read_next_http_message_timelimit s) (m_write_http_response_timelimit s)
          (m_handle_request_timeout s) (m_max_pipelined_requests s) (m_request_handler s) (m_timer_factory s)
          (m_logger s) (m_acceptor_options_setter s) (m_acceptor_post_bind_hook s) (m_socket_options_setter s) n
          (m_separate_accept_and_create_connect s) (m_cleanup_functor s) (m_incoming_http_msg_limits s)
          (m_extra_data_factory s) (m_connection_state_listener s) (m_ip_blocker s)
          (m_max_parallel_connections s)).
Definition separate_accept_and_create_connect (do_separate : bool) (s : settings_t) : settings_t :=
  mk_settings (m_port s) (m_protocol s) (m_address s) (m_buffer_size s) (m_read_next_http_message_timelimit s)
    (m_write_http_response_timelimit s) (m_handle_request_timeout s) (m_max_pipelined_requests s)
    (m_request_handler s) (m_timer_factory s) (m_logger s) (m_acceptor_options_setter s)
    (m_acceptor_post_bind_hook s) (m_socket_options_setter s) (m_concurrent_accepts_count s) do_separate
    (m_cleanup_functor s) (m_incoming_http_msg_limits s) (m_extra_data_factory s)
    (m_connection_state_listener s) (m_ip_blocker s) (m_max_parallel_connections s).
Definition cleanup_func (func : option cleanup_functor_t) (s : settings_t) : settings_t :=
  mk_settings (m_port s) (m_protocol s) (m_address s) (m_buffer_size s) (m_read_next_http_message_timelimit s)
    (m_write_http_response_timelimit s) (m_handle_request_timeout s) (m_max_pipelined_requests s)
    (m_request_handler s) (m_timer_factory s) (m_logger s) (m_acceptor_options_setter s)
    (m_acceptor_post_bind_hook s) (m_socket_options_setter s) (m_concurrent_accepts_count s)
    (m_separate_accept_and_create_connect s) func (m_incoming_http_msg_limits s) (m_extra_data_factory s)
    (m_connection_state_listener s) (m_ip_blocker s) (m_max_parallel_connections s).
Definition connection_state_listener (listener : option connection_state_listener_t) (s : settings_t) : settings_t :=
  mk_settings (m_port s) (m_protocol s) (m_address s) (m_buffer_size s) (m_read_next_http_message_timelimit s)
    (m_write_http_response_timelimit s) (m_handle_request_timeout s) (m_max_pipelined_requests s)
    (m_request_handler s) (m_timer_factory s) (m_logger s) (m_acceptor_options_setter s)
    (m_acceptor_post_bind_hook s) (m_socket_options_setter s) (m_concurrent_accepts_count s)
    (m_separate_accept_and_create_connect s) (m_cleanup_functor s) (m_incoming_http_msg_limits s)
    (m_extra_data_factory s) listener (m_ip_blocker s) (m_max_parallel_connections s).
Definition ip_blocker (blocker : option ip_blocker_t) (s : settings_t) : settings_t :=
  mk_settings (m_port s) (m_protocol s) (m_address s) (m_buffer_size s) (m_read_next_http_message_timelimit s)
    (m_write_http_response_timelimit s) (m_handle_request_timeout s) (m_max_pipelined_requests s)
    (m_request_handler s) (m_timer_factory s) (m_logger s) (m_acceptor_options_setter s)
    (m_acceptor_post_bind_hook s) (m_socket_options_setter s) (m_concurrent_accepts_count s)
    (m_separate_accept_and_create_connect s) (m_cleanup_functor s) (m_incoming_http_msg_limits s)
    (m_extra_data_factory s) (m_connection_state_listener s) blocker (m_max_parallel_connections s).
Definition acceptor_post_bind_hook (hook : option acceptor_post_bind_hook_t) (s : settings_t) : outcome settings_t :=
  match hook with
  | None => Throw "acceptor_post_bind_hook cannot be empty"
  | Some _ =>
      Ok (mk_settings (m_port s) (m_protocol s) (m_address s) (m_buffer_size s)
            (m_read_next_http_message_timelimit s) (m_write_http_response_timelimit s)
            (m_handle_request_timeout s) (m_max_pipelined_requests s) (m_request_handler s) (m_timer_factory s)
            (m_logger s) (m_acceptor_options_setter s) hook (m_socket_options_setter s)
            (m_concurrent_accepts_count s) (m_separate_accept_and_create_connect s) (m_cleanup_functor s)
            (m_incoming_http_msg_limits s) (m_extra_data_factory s) (m_connection_state_listener s)
            (m_ip_blocker s) (m_max_parallel_connections s))
  end.
Definition set_incoming_http_msg_limits (limits : incoming_http_msg_limits_t) (s : settings_t) : settings_t :=
  mk_settings (m_port s) (m_protocol s) (m_address s) (m_buffer_size s) (m_read_next_http_message_timelimit s)
    (m_write_http_response_timelimit s) (m_handle_request_timeout s) (m_max_pipelined_requests s)
    (m_request_handler s) (m_timer_factory s) (m_logger s) (m_acceptor_options_setter s)
    (m_acceptor_post_bind_hook s) (m_socket_options_setter s) (m_concurrent_accepts_count s)
    (m_separate_accept_and_create_connect s) (m_cleanup_functor s) limits (m_extra_data_factory s)
    (m_connection_state_listener s) (m_ip_blocker s) (m_max_parallel_connections s).
Definition set_max_parallel_connections (v : Z) (s : settings_t) : settings_t :=
  mk_settings (m_port s) (m_protocol s) (m_address s) (m_buffer_size s) (m_read_next_http_message_timelimit s)
    (m_write_http_response_timelimit s) (m_handle_request_timeout s) (m_max_pipelined_requests s)
    (m_request_handler s) (m_timer_factory s) (m_logger s) (m_acceptor_options_setter s)
    (m_acceptor_post_bind_hook s) (m_socket_options_setter s) (m_concurrent_accepts_count s)
    (m_separate_accept_and_create_connect s) (m_cleanup_functor s) (m_incoming_http_msg_limits s)
    (m_extra_data_factory s) (m_connection_state_listener s) (m_ip_blocker s) v.
Definition extra_data_factory (factory : option extra_data_factory_t) (s : settings_t) : settings_t :=
  mk_settings (m_port s) (m_protocol s) (m_address s) (m_buffer_size s) (m_read_next_http_message_timelimit s)
    (m_write_http_response_timelimit s) (m_handle_request_timeout s) (m_max_pipelined_requests s)
    (m_request_handler s) (m_timer_factory s) (m_logger s) (m_acceptor_options_setter s)
    (m_acceptor_post_bind_hook s) (m_socket_options_setter s) (m_concurrent_accepts_count s)
    (m_separate_accept_and_create_connect s) (m_cleanup_functor s) (m_incoming_http_msg_limits s) factory
    (m_connection_state_listener s) (m_ip_blocker s) (m_max_parallel_connections s).

(** A call of a setter.  The ones for a listener, a blocker and the limit on connections
    do not compile when the traits have none. *)
Inductive call :=
| set_port_to (p : Z)
| set_protocol_to (p : protocol_t)
| set_address_string_to (addr : list byte)
| set_address_to (addr : ip_address)
| set_buffer_size_to (n : Z)
| set_read_next_http_message_timelimit_to (d : Z)
| set_write_http_response_timelimit_to (d : Z)
| set_handle_request_timeout_to (d : Z)
| set_max_pipelined_requests_to (mpr : Z)
| set_request_handler_to (h : option request_handler_t)
| set_timer_manager_to (f : timer_factory_t)
| set_logger_to (l : logger_t)
| set_acceptor_options_setter_to (aos : option acceptor_options_setter_t)
| set_socket_options_setter_to (sos : option socket_options_setter_t)
| set_concurrent_accepts_count_to (n : Z)
| set_separate_accept_and_create_connect_to (b : bool)
| set_cleanup_func_to (f : option cleanup_functor_t)
| set_connection_state_listener_to (l : option connection_state_listener_t)
| set_ip_blocker_to (b : option ip_blocker_t)
| set_acceptor_post_bind_hook_to (h : option acceptor_post_bind_hook_t)
| set_incoming_http_msg_limits_to (l : incoming_http_msg_limits_t)
| set_max_parallel_connections_to (v : Z)
| set_extra_data_factory_to (f : option extra_data_factory_t).

Definition apply_call (c : call) (s : settings_t) : outcome settings_t :=
  match c with
  | set_port_to p => Ok (port p s)
  | set_protocol_to p => Ok (protocol p s)
  | set_address_string_to addr => Ok (address_string addr s)
  | set_address_to addr => Ok (address addr s)
  | set_buffer_size_to n => Ok (buffer_size n s)
  | set_read_next_http_message_timelimit_to d => Ok (read_next_http_message_timelimit d s)
  | set_write_http_response_timelimit_to d => Ok (write_http_response_timelimit d s)
  | set_handle_request_timeout_to d => Ok (handle_request_timeout d s)
  | set_max_pipelined_requests_to mpr => Ok (max_pipelined_requests mpr s)
  | set_request_handler_to h => Ok (request_handler h s)
  | set_timer_manager_to f => Ok (timer_manager f s)
  | set_logger_to l => Ok (logger l s)
  | set_acceptor_options_setter_to aos => acceptor_options_setter aos s
  | set_socket_options_setter_to sos => socket_options_setter sos s
  | set_concurrent_accepts_count_to n => concurrent_accepts_count n s
  | set_separate_accept_and_create_connect_to b => Ok (separate_accept_and_create_connect b s)
  | set_cleanup_func_to f => Ok (cleanup_func f s)
  | set_connection_state_listener_to l => Ok (connection_state_listener l s)
  | set_ip_blocker_to b => Ok (ip_blocker b s)
  | set_acceptor_post_bind_hook_to h => acceptor_post_bind_hook h s
  | set_incoming_http_msg_limits_to l => Ok (set_incoming_http_msg_limits l s)
  | set_max_parallel_connections_to v => Ok (set_max_parallel_connections v s)
  | set_extra_data_factory_to f => Ok (extra_data_factory f s)
  end.

(** A chain of calls, as in [settings.port( 80 ).address( "..." )...]. *)
Fixpoint configure (cs : list call) (s : settings_t) : outcome settings_t :=
  match cs with
  | [] => Ok s
  | c :: cs => let? s := apply_call c s in configure cs s
  end.

(** [exec_configurator], with the calls the configurator makes. *)
Definition exec_configurator (cs : list call) : outcome settings_t := configure cs default_settings.

(** ** Handing objects over *)

Definition create_default_unique_object_instance {A} (default : option A) : option A := default.

(** The specialisation for [default_request_handler_t] makes none. *)
Definition create_default_request_handler : option request_handler_t :=
  if is_default_request_handler_t then None else create_default_unique_object_instance default_request_handler.

Definition ensure_created {A} (mb_created_one default : option A) (fail_description : string) : outcome A :=
  let created_one := match mb_created_one with Some a => Some a | None => default end in
  match created_one with
  | None => Throw fail_description
  | Some a => Ok a
  end.

(** The members are moved from; the constructors of the server and its parts call each of
    these once, so what is left behind is not kept. *)
Definition take_request_handler (s : settings_t) : outcome request_handler_t :=
  ensure_created (m_request_handler s) create_default_request_handler "request handler must be set".
Definition take_timer_factory (s : settings_t) : outcome timer_factory_t :=
  ensure_created (m_timer_factory s) (create_default_unique_object_instance default_timer_factory) "timer manager is not set".
Definition take_logger (s : settings_t) : outcome logger_t :=
  ensure_created (m_logger s) (create_default_unique_object_instance default_logger) "logger must be set".

(** The specialisations of [create_default_unique_object_instance]. *)
Definition create_default_acceptor_options_setter : option acceptor_options_setter_t := Some reuse_address.
Definition create_default_socket_options_setter : option socket_options_setter_t := Some no_socket_options.

Definition take_acceptor_options_setter (s : settings_t) : outcome acceptor_options_setter_t :=
  ensure_created (m_acceptor_options_setter s) create_default_acceptor_options_setter "acceptor options setter must be set".
Definition take_socket_options_setter (s : settings_t) : outcome socket_options_setter_t :=
  ensure_created (m_socket_options_setter s) create_default_socket_options_setter "socket options setter must be set".
Definition giveaway_cleanup_func (s : settings_t) : option cleanup_functor_t := m_cleanup_functor s.
Definition giveaway_acceptor_post_bind_hook (s : settings_t) : option acceptor_post_bind_hook_t := m_acceptor_post_bind_hook s.

(** It is [noexcept]: [None] is the end of the program. *)
Definition giveaway_extra_data_factory (s : settings_t) : option extra_data_factory_t :=
  match ensure_created (m_extra_data_factory s) default_extra_data_factory "extra_data_factory is not set" with
  | Ok f => Some f
  | Throw _ => None
  end.

Definition check_valid_connection_state_listener_pointer (s : settings_t) : outcome unit :=
  if has_actual_connection_state_listener then
    match m_connection_state_listener s with
    | None => Throw "connection state listener is not specified"
    | Some _ => Ok tt
    end
  else Ok tt.

Definition check_valid_ip_blocker_pointer (s : settings_t) : outcome unit :=
  if has_actual_ip_blocker then
    match m_ip_blocker s with
    | None => Throw "IP-blocker is not specified"
    | Some _ => Ok tt
    end
  else Ok tt.

Definition max_parallel_connections (s : settings_t) : Z :=
  if has_actual_max_parallel_connections then m_max_parallel_connections s else uint64_max.

(** ** What a chain of calls leaves *)

(** Which calls the compiler accepts. *)
Definition compiles (c : call) : bool :=
  match c with
  | set_connection_state_listener_to _ => has_actual_connection_state_listener
  | set_ip_blocker_to _ => has_actual_ip_blocker
  | set_max_parallel_connections_to _ => has_actual_max_parallel_connections
  | _ => true
  end.

(** The message of a call that throws. *)
Definition refusal (c : call) : option string :=
  match c with
  | set_acceptor_options_setter_to None => Some "acceptor options setter cannot be empty"%string
  | set_socket_options_setter_to None => Some "socket options setter cannot be empty"%string
  | set_acceptor_post_bind_hook_to None => Some "acceptor_post_bind_hook cannot be empty"%string
  | set_concurrent_accepts_count_to n =>
      if (0 =? n) || (1024 <? n) then Some "invalid value for number of cuncurrent connects"%string else None
  | _ => None
  end.

(** The value the last of the calls gives to a parameter. *)
Definition last_set {A} (written : call -> option A) (default : A) (cs : list call) : A :=
  fold_left (fun a c => from_option id a (written c)) cs default.

Definition expected (cs : list call) (s : settings_t) : settings_t :=
  mk_settings
    (last_set (fun c => match c with set_port_to p => Some p | _ => None end) (m_port s) cs)
    (last_set (fun c => match c with set_protocol_to p => Some p | _ => None end) (m_protocol s) cs)
    (last_set (fun c => match c with set_address_string_to a => Some (address_text a) | set_address_to a => Some (address_value a)
                        | _ => None end) (m_address s) cs)
    (last_set (fun c => match c with set_buffer_size_to n => Some n | _ => None end) (m_buffer_size s) cs)
    (last_set (fun c => match c with set_read_next_http_message_timelimit_to d => Some d | _ => None end)
       (m_read_next_http_message_timelimit s) cs)
    (last_set (fun c => match c with set_write_http_response_timelimit_to d => Some d | _ => None end)
       (m_write_http_response_timelimit s) cs)
    (last_set (fun c => match c with set_handle_request_timeout_to d => Some d | _ => None end) (m_handle_request_timeout s) cs)
    (last_set (fun c => match c with set_max_pipelined_requests_to n => Some n | _ => None end) (m_max_pipelined_requests s) cs)
    (last_set (fun c => match c with set_request_handler_to h => Some h | _ => None end) (m_request_handler s) cs)
    (last_set (fun c => match c with set_timer_manager_to f => Some (Some f) | _ => None end) (m_timer_factory s) cs)
    (last_set (fun c => match c with set_logger_to l => Some (Some l) | _ => None end) (m_logger s) cs)
    (last_set (fun c => match c with set_acceptor_options_setter_to a => Some a | _ => None end) (m_acceptor_options_setter s) cs)
    (last_set (fun c => match c with set_acceptor_post_bind_hook_to h => Some h | _ => None end) (m_acceptor_post_bind_hook s) cs)
    (last_set (fun c => match c with set_socket_options_setter_to a => Some a | _ => None end) (m_socket_options_setter s) cs)
    (last_set (fun c => match c with set_concurrent_accepts_count_to n => Some n | _ => None end) (m_concurrent_accepts_count s) cs)
    (last_set (fun c => match c with set_separate_accept_and_create_connect_to b => Some b | _ => None end)
       (m_separate_accept_and_create_connect s) cs)
    (last_set (fun c => match c with set_cleanup_func_to f => Some f | _ => None end) (m_cleanup_functor s) cs)
    (last_set (fun c => match c with set_incoming_http_msg_limits_to l => Some l | _ => None end) (m_incoming_http_msg_limits s) cs)
    (last_set (fun c => match c with set_extra_data_factory_to f => Some f | _ => None end) (m_extra_data_factory s) cs)
    (last_set (fun c => match c with set_connection_state_listener_to l => Some l | _ => None end) (m_connection_state_listener s) cs)
    (last_set (fun c => match c with set_ip_blocker_to b => Some b | _ => None end) (m_ip_blocker s) cs)
    (last_set (fun c => match c with set_max_parallel_connections_to v => Some v | _ => None end) (m_max_parallel_connections s) cs).

Lemma apply_call_spec c s :
  apply_call c s = match refusal c with Some w => Throw w | None => Ok (expected [c] s) end.
Proof. destruct s, c as [| | | | | | | | | | | |[]|[]| | | | | |[]| | |]; try reflexivity.
  unfold apply_call, refusal, concurrent_accepts_count. by destruct ((0 =? n) || (1024 <? n)).
Qed.

Lemma expected_cons c cs s : expected (c :: cs) s = expected cs (expected [c] s).
Proof. reflexivity. Qed.

(** A chain of calls throws at the first call that is refused; otherwise every parameter
    has the value of the last call that set it. *)
Lemma configure_spec cs s :
  configure cs s
  = match head (omap refusal cs) with
    | Some w => Throw w
    | None => Ok (expected cs s)
    end.
Proof.
  revert s. induction cs as [|c cs IH]; intros s; [by destruct s|]. cbn [configure]. rewrite apply_call_spec.
  cbn [omap list_omap]. destruct (refusal c); [done|]. by rewrite IH, <- expected_cons.
Qed.

(** The number of accept operations is within its bounds. *)
Lemma accepts_in_range cs s s' :
  configure cs s = Ok s' -> 1 <= m_concurrent_accepts_count s <= 1024 ->
  Forall (fun c => match c with set_concurrent_accepts_count_to n => 0 <= n | _ => True end) cs ->
  1 <= m_concurrent_accepts_count s' <= 1024.
Proof.
  intros Hok Hs Hcs. revert s s' Hok Hs. induction Hcs as [|c cs Hc Hcs IH]; intros s s'; cbn; [by intros [= <-]|].
  rewrite apply_call_spec. destruct (refusal c) eqn:Er; [done|]. intros Hcfg Hs. apply (IH _ _ Hcfg).
  destruct c; try exact Hs. unfold refusal in Er. destruct ((0 =? n) || (1024 <? n)) eqn:E; [done|].
  apply orb_false_iff in E as [E1 E2]. unfold expected, last_set. cbn [fold_left from_option id m_concurrent_accepts_count]. unfold id. lia.
Qed.

End Settings.
End Settings.
