(* ===== verification/ServerSetup.v ===== *)
(** * From settings to a running server

    The constructors of [http_server_t] (src/web/restinio/restinio/http_server.hpp), of
    [connection_settings_t] (impl/connection_settings.hpp) and of [acceptor_t]
    (impl/acceptor.hpp), which take the settings apart, and the address the acceptor binds
    to.  All of it is generic in the traits; [Main] has the program. *)

From S2P Require Import Prelude HttpInput Effects Connection Acceptor Settings HttpServer ServerRun.

Module ServerSetup.
Import Limits Settings.

(** A constructor that returns, throws, or ends the program. *)
Inductive constructed (A : Type) : Type := Constructed (a : A) | Failed (what : string) | Terminated.
Arguments Constructed {A} a.
Arguments Failed {A} what.
Arguments Terminated {A}.

Definition cbind {A B} (m : constructed A) (k : A -> constructed B) : constructed B :=
  match m with Constructed a => k a | Failed w => Failed w | Terminated => Terminated end.
Definition call {A} (m : outcome A) : constructed A :=
  match m with Ok a => Constructed a | Throw w => Failed w end.
Definition call_noexcept {A} (m : option A) : constructed A :=
  match m with Some a => Constructed a | None => Terminated end.

Declare Scope construct_scope.
Notation "'do' x <- m ; k" := (cbind m (fun x => k))
  (at level 100, x pattern, m at level 99, k at level 200) : construct_scope.
Open Scope construct_scope.

Section Setup.
Context `{Traits}.

(** Limits of Asio and of [std::string]. *)
Variables (max_iov_len : nat) (max_string : Z).

(** ** connection_settings_t *)

Record connection_settings := mk_connection_settings {
  cs_listener : option connection_state_listener_t;
  cs_request_handler : request_handler_t;
  cs_parameters : Connection.connection_settings_t;
  cs_logger : logger_t;
  cs_timer_manager : timer_manager_t;
  cs_extra_data_factory : extra_data_factory_t
}.

Definition parameters_of (s : settings_t) : Connection.connection_settings_t :=
  Connection.mk_settings (Z.to_nat (m_buffer_size s)) (m_incoming_http_msg_limits s) (m_read_next_http_message_timelimit s)
    (m_write_http_response_timelimit s) (m_handle_request_timeout s) (Z.to_nat (m_max_pipelined_requests s))
    max_iov_len max_string.

(** The check for a missing factory of extra data comes after a call that never returns a
    null pointer. *)
Definition make_connection_settings (s : settings_t) (timer_manager : option timer_manager_t)
  : constructed connection_settings :=
  do handler <- call (take_request_handler s);
  do logger <- call (take_logger s);
  do factory <- call_noexcept (giveaway_extra_data_factory s);
  match timer_manager with
  | None => Failed "timer manager not set"
  | Some manager =>
      Constructed (mk_connection_settings (if has_actual_connection_state_listener then m_connection_state_listener s else None)
                     handler (parameters_of s) logger manager factory)
  end.

(** ** acceptor_t *)

Record acceptor := mk_acceptor {
  a_sockets : nat;
  a_ip_blocker : option ip_blocker_t;
  a_port : Z;
  a_protocol : protocol_t;
  a_address : address_variant_t;
  a_options_setter : acceptor_options_setter_t;
  a_post_bind_hook : option acceptor_post_bind_hook_t;
  a_separate : bool;
  a_connections : connection_settings;           (* of the connection factory *)
  a_socket_options_setter : socket_options_setter_t;
  a_limiter : option Limiter.actual_limiter_t   (* [None]: the limiter that does nothing *)
}.

Definition make_acceptor (s : settings_t) (conn : connection_settings) (sos : socket_options_setter_t) : constructed acceptor :=
  do aos <- call (take_acceptor_options_setter s);
  Constructed (mk_acceptor (Z.to_nat (m_concurrent_accepts_count s)) (if has_actual_ip_blocker then m_ip_blocker s else None)
    (m_port s) (m_protocol s) (m_address s) aos (giveaway_acceptor_post_bind_hook s) (m_separate_accept_and_create_connect s)
    conn sos
    (if has_actual_max_parallel_connections
     then Some (Limiter.make_limiter (max_parallel_connections s) (Z.to_nat (m_concurrent_accepts_count s)))
     else None)).

(** ** http_server_t *)

Record http_server := mk_http_server {
  sv_cleanup_functor : option cleanup_functor_t;
  sv_timer_manager : option timer_manager_t;
  sv_acceptor : acceptor
}.

Definition make_http_server (s : settings_t) : constructed http_server :=
  let cleanup := giveaway_cleanup_func s in
  do _ <- call (check_valid_connection_state_listener_pointer s);
  do _ <- call (check_valid_ip_blocker_pointer s);
  do factory <- call (take_timer_factory s);
  let timer_manager := timer_factory_create factory in
  do conn <- make_connection_settings s timer_manager;
  do sos <- call (take_socket_options_setter s);
  do acceptor <- make_acceptor s conn sos;
  Constructed (mk_http_server cleanup timer_manager acceptor).

(** ** The address to bind to *)

(** [asio::ip::address::from_string], which throws for a text that is no address, and the
    protocol an address belongs to. *)
Variable from_string : list byte -> option ip_address.
Variable protocol_of : ip_address -> protocol_t.

Definition try_extract_actual_address_from_variant (from : address_variant_t) : outcome (option ip_address) :=
  match from with
  | address_text str_addr =>
      let str_addr :=
        if bool_decide (str_addr = bs "localhost") then bs "127.0.0.1"
        else if bool_decide (str_addr = bs "ip6-localhost") then bs "::1"
        else str_addr in
      match from_string str_addr with
      | Some a => Ok (Some a)
      | None => Throw "Invalid argument"
      end
  | address_value a => Ok (Some a)
  | no_address_specified => Ok None
  end.

(** [asio::ip::tcp::endpoint]; without an address, any of the protocol. *)
Record endpoint := mk_endpoint { ep_protocol : protocol_t; ep_address : option ip_address; ep_port : Z }.

Definition endpoint_to_bind (a : acceptor) : outcome endpoint :=
  let ep := mk_endpoint (a_protocol a) None (a_port a) in
  let? actual_address := try_extract_actual_address_from_variant (a_address a) in
  Ok (match actual_address with
      | Some address => mk_endpoint (protocol_of address) (Some address) (ep_port ep)
      | None => ep
      end).

(** What opening it does, when the system answers [os]: the calls after the text of the
    address was understood. *)
Definition opening_of (os : endpoint -> option HttpServer.open_failure) (a : acceptor) : option HttpServer.open_failure :=
  match endpoint_to_bind a with
  | Throw _ => Some (HttpServer.mk_open_failure HttpServer.resolve true)
  | Ok ep => os ep
  end.

Definition behaviour (os : endpoint -> option HttpServer.open_failure) (closing : option HttpServer.close_failure)
  (sv : http_server) : Handlers.acceptor_behaviour :=
  Handlers.mk_behaviour (opening_of os (sv_acceptor sv)) closing (a_sockets (sv_acceptor sv)).

(** ** When construction succeeds, and with what *)

(** The object of the settings, or the default one. *)
Definition or_default {A} (mb default : option A) : option A := match mb with Some a => Some a | None => default end.

(** Everything is there that the traits ask for. *)
Definition complete (s : settings_t) : Prop :=
  (has_actual_connection_state_listener = true -> m_connection_state_listener s <> None) /\
  (has_actual_ip_blocker = true -> m_ip_blocker s <> None) /\
  or_default (m_timer_factory s) default_timer_factory ≫= timer_factory_create <> None /\
  or_default (m_request_handler s) create_default_request_handler <> None /\
  or_default (m_logger s) default_logger <> None /\
  or_default (m_extra_data_factory s) default_extra_data_factory <> None.

Record built_from (s : settings_t) (sv : http_server) : Prop := {
  bf_cleanup : sv_cleanup_functor sv = m_cleanup_functor s;
  bf_timers : sv_timer_manager sv = or_default (m_timer_factory s) default_timer_factory ≫= timer_factory_create;
  bf_timers_shared : Some (cs_timer_manager (a_connections (sv_acceptor sv))) = sv_timer_manager sv;
  bf_handler : Some (cs_request_handler (a_connections (sv_acceptor sv)))
               = or_default (m_request_handler s) create_default_request_handler;
  bf_logger : Some (cs_logger (a_connections (sv_acceptor sv))) = or_default (m_logger s) default_logger;
  bf_extra : Some (cs_extra_data_factory (a_connections (sv_acceptor sv)))
             = or_default (m_extra_data_factory s) default_extra_data_factory;
  bf_parameters : cs_parameters (a_connections (sv_acceptor sv)) = parameters_of s;
  bf_listener : has_actual_connection_state_listener = true ->
                cs_listener (a_connections (sv_acceptor sv)) = m_connection_state_listener s /\ m_connection_state_listener s <> None;
  bf_blocker : has_actual_ip_blocker = true -> a_ip_blocker (sv_acceptor sv) = m_ip_blocker s /\ m_ip_blocker s <> None;
  bf_endpoint : a_port (sv_acceptor sv) = m_port s /\ a_protocol (sv_acceptor sv) = m_protocol s /\
                a_address (sv_acceptor sv) = m_address s;
  bf_setters : Some (a_options_setter (sv_acceptor sv)) = or_default (m_acceptor_options_setter s) (Some reuse_address) /\
               Some (a_socket_options_setter (sv_acceptor sv)) = or_default (m_socket_options_setter s) (Some no_socket_options) /\
               a_post_bind_hook (sv_acceptor sv) = m_acceptor_post_bind_hook s;
  bf_sockets : a_sockets (sv_acceptor sv) = Z.to_nat (m_concurrent_accepts_count s);
  bf_separate : a_separate (sv_acceptor sv) = m_separate_accept_and_create_connect s;
  bf_limiter : a_limiter (sv_acceptor sv)
               = if has_actual_max_parallel_connections
                 then Some (Limiter.make_limiter (m_max_parallel_connections s) (Z.to_nat (m_concurrent_accepts_count s))) else None
}.

Lemma ensure_created_spec {A} (mb default : option A) w :
  ensure_created mb default w = match or_default mb default with Some a => Ok a | None => Throw w end.
Proof. by destruct mb. Qed.

Lemma check_listener_ok s :
  check_valid_connection_state_listener_pointer s = Ok tt <->
  (has_actual_connection_state_listener = true -> m_connection_state_listener s <> None).
Proof.
  unfold check_valid_connection_state_listener_pointer.
  destruct has_actual_connection_state_listener, (m_connection_state_listener s); split; try done; intros Hx; by specialize (Hx eq_refl).
Qed.

Lemma check_blocker_ok s :
  check_valid_ip_blocker_pointer s = Ok tt <-> (has_actual_ip_blocker = true -> m_ip_blocker s <> None).
Proof.
  unfold check_valid_ip_blocker_pointer.
  destruct has_actual_ip_blocker, (m_ip_blocker s); split; try done; intros Hx; by specialize (Hx eq_refl).
Qed.

(** A complete configuration gives a server made of it. *)
Lemma complete_constructs s : complete s -> exists sv, make_http_server s = Constructed sv /\ built_from s sv.
Proof.
  intros (Hl & Hb & Ht & Hh & Hg & He). pose proof (proj2 (check_listener_ok s) Hl) as El. pose proof (proj2 (check_blocker_ok s) Hb) as Eb.
  unfold make_http_server. rewrite El, Eb. cbn. unfold take_timer_factory. rewrite ensure_created_spec.
  unfold create_default_unique_object_instance.
  destruct (or_default (m_timer_factory s) default_timer_factory) as [tf|] eqn:Etf; [|done]. cbn in *.
  destruct (timer_factory_create tf) as [tm|] eqn:Etm; [|done].
  unfold make_connection_settings, take_request_handler, take_logger, giveaway_extra_data_factory. rewrite !ensure_created_spec.
  unfold create_default_unique_object_instance.
  destruct (or_default (m_request_handler s) create_default_request_handler) as [h|] eqn:Eh; [|done].
  destruct (or_default (m_logger s) default_logger) as [lg|] eqn:Elg; [|done].
  destruct (or_default (m_extra_data_factory s) default_extra_data_factory) as [ef|] eqn:Eef; [|done]. cbn.
  unfold take_socket_options_setter, make_acceptor, take_acceptor_options_setter. rewrite !ensure_created_spec.
  unfold create_default_socket_options_setter, create_default_acceptor_options_setter.
  destruct (or_default (m_socket_options_setter s) (Some no_socket_options)) as [sos|] eqn:Esos;
    [|by destruct (m_socket_options_setter s)]. cbn.
  destruct (or_default (m_acceptor_options_setter s) (Some reuse_address)) as [aos|] eqn:Eaos;
    [|by destruct (m_acceptor_options_setter s)]. cbn.
  eexists. split; [reflexivity|]. split; cbn; rewrite ?Etf, ?Eh, ?Elg, ?Eef, ?Esos, ?Eaos; cbn; rewrite ?Etm; try done.
  - intros E. rewrite E in *. split; [done|]. by apply Hl.
  - intros E. rewrite E in *. split; [done|]. by apply Hb.
  - unfold max_parallel_connections. by destruct has_actual_max_parallel_connections.
Qed.

(** Nothing else gives one. *)
Lemma constructed_complete s sv : make_http_server s = Constructed sv -> complete s.
Proof.
  unfold make_http_server, complete.
  destruct (check_valid_connection_state_listener_pointer s) as [[]|] eqn:El; [|done]. cbn.
  destruct (check_valid_ip_blocker_pointer s) as [[]|] eqn:Eb; [|done]. cbn.
  unfold take_timer_factory. rewrite ensure_created_spec. unfold create_default_unique_object_instance.
  destruct (or_default (m_timer_factory s) default_timer_factory) as [tf|] eqn:Etf; [|done]. cbn.
  unfold make_connection_settings, take_request_handler, take_logger, giveaway_extra_data_factory. rewrite !ensure_created_spec.
  unfold create_default_unique_object_instance.
  destruct (or_default (m_request_handler s) create_default_request_handler); [|done].
  destruct (or_default (m_logger s) default_logger); [|done].
  destruct (or_default (m_extra_data_factory s) default_extra_data_factory); [|done]. cbn.
  destruct (timer_factory_create tf); [|done]. intros _. split_and!; try done; [by apply check_listener_ok|by apply check_blocker_ok].
Qed.

(** The factory of extra data is asked for in a function that may not throw: without one
    the program ends, where the other parts give an exception. *)
Lemma missing_factory_terminates f s :
  m_extra_data_factory s = None -> default_extra_data_factory = None -> complete (extra_data_factory (Some f) s) ->
  make_http_server s = Terminated.
Proof.
  intros Hm Hd (Hl & Hb & Ht & Hh & Hg & _). cbn in Hl, Hb, Ht, Hh, Hg.
  unfold make_http_server. rewrite (proj2 (check_listener_ok s) Hl), (proj2 (check_blocker_ok s) Hb). cbn.
  unfold take_timer_factory. rewrite ensure_created_spec. unfold create_default_unique_object_instance.
  destruct (or_default (m_timer_factory s) default_timer_factory) as [tf|]; [|done]. cbn.
  unfold make_connection_settings, take_request_handler, take_logger, giveaway_extra_data_factory. rewrite !ensure_created_spec.
  unfold create_default_unique_object_instance.
  destruct (or_default (m_request_handler s) create_default_request_handler); [|done].
  destruct (or_default (m_logger s) default_logger); [|done]. cbn. by rewrite Hm, Hd.
Qed.

(** C27. A server made of a chain of calls on the default settings.  A call that is not
    allowed throws its message, and nothing is built.  Otherwise every parameter has the
    value of the last call that set it, or its default, and there are between 1 and 1024
    accept operations; a server results exactly if everything is there that the traits ask
    for, and it consists of those values: the handler, the logger, the timers, the limits
    and times of its connections, the address, the hooks, one socket per accept operation
    and the limiter. *)
Theorem configured_server (cs : list Settings.call) :
  Forall (fun c => match c with set_concurrent_accepts_count_to n => 0 <= n | _ => True end) cs ->
  match head (omap refusal cs) with
  | Some w => exec_configurator cs = Throw w
  | None =>
      let s := expected cs default_settings in
      exec_configurator cs = Ok s /\ 1 <= m_concurrent_accepts_count s <= 1024 /\
      (complete s -> exists sv, make_http_server s = Constructed sv /\ built_from s sv) /\
      (~ complete s -> forall sv, make_http_server s <> Constructed sv)
  end.
Proof.
  intros Hcs. pose proof (configure_spec cs default_settings) as Hc. unfold exec_configurator.
  destruct (head (omap refusal cs)); [done|]. cbn zeta. split; [done|]. split; [|split].
  - apply (accepts_in_range cs default_settings); [done|cbn; lia|done].
  - apply complete_constructs.
  - intros Hn sv E. by apply Hn, (constructed_complete _ sv).
Qed.

End Setup.
(** ** An example *)

(** Traits with a listener, and no factories by default. *)
#[local] Instance sample_traits : Traits := {|
  request_handler_t := nat; timer_factory_t := nat; timer_manager_t := nat; logger_t := nat;
  acceptor_options_setter_t := nat; socket_options_setter_t := nat; acceptor_post_bind_hook_t := nat;
  cleanup_functor_t := nat; connection_state_listener_t := nat; ip_blocker_t := nat; extra_data_factory_t := nat;
  ip_address := nat; default_request_handler := Some 0%nat; is_default_request_handler_t := true;
  default_timer_factory := Some 7%nat; default_logger := Some 8%nat; default_extra_data_factory := Some 9%nat;
  timer_factory_create := Some; reuse_address := 1%nat; no_socket_options := 2%nat; no_post_bind_action := 3%nat;
  has_actual_connection_state_listener := true; has_actual_ip_blocker := false; has_actual_max_parallel_connections := true
|}.

Definition sample_calls : list Settings.call :=
  [set_port_to 80; set_concurrent_accepts_count_to 4; set_connection_state_listener_to (Some 5%nat);
   set_max_parallel_connections_to 100; set_request_handler_to (Some 6%nat); set_concurrent_accepts_count_to 8].

Lemma configured_server_witness :
  exists sv, make_http_server 64 (2 ^ 62) (expected sample_calls default_settings) = Constructed sv /\
    a_sockets (sv_acceptor sv) = 8%nat /\ a_port (sv_acceptor sv) = 80.
Proof.
  destruct (configured_server 64 (2 ^ 62) sample_calls) as (_ & _ & Hc & _).
  - repeat constructor; lia.
  - destruct Hc as (sv & E & Hb); [by split_and!|]. exists sv. split; [exact E|]. split; [apply (bf_sockets _ _ _ _ Hb)|].
    apply (bf_endpoint _ _ _ _ Hb).
Defined.

End ServerSetup.
