(* ===== verification/Main.v ===== *)
(** * The program

    [main] of src/web/restinio/sample/express_router/main.cpp: the settings it makes, with
    its traits, the serial port it opens on the way, and the run of the server on the
    calling thread, with the code the program ends with. *)

From S2P Require Import Prelude HttpInput Effects Router Routing CardDealer Server.
From S2P Require Import Connection Settings HttpServer ServerRun ServerSetup.

(** ** asio_timer_manager_t *)

Module AsioTimer.

Record factory_t := mk_factory { f_check_period : Z }.
Record asio_timer_manager_t := mk_manager { m_check_period : Z }.
Record timer_guard_t := mk_guard { g_check_period : Z }.

Definition default_factory : factory_t := mk_factory (Settings.seconds 1).
Definition create (f : factory_t) : asio_timer_manager_t := mk_manager (f_check_period f).
Definition create_timer_guard (m : asio_timer_manager_t) : timer_guard_t := mk_guard (m_check_period m).

End AsioTimer.

Module Main.
Import Router HttpMethod Settings ServerSetup HttpServer Handlers OneThread.

Section Main.
Context `{HttpParserCodes} {P : SerialPort} (reserve : nat -> nat).

(** Addresses and their texts, as Asio has them. *)
Context {address_t : Type} (from_string : list byte -> option address_t) (protocol_of : address_t -> protocol_t).
Context (max_iov_len : nat) (max_string : Z).

(** [traits_t< asio_timer_manager_t, single_threaded_ostream_logger_t, router_t >]: a
    router, a logger and the factories can be made by default; there are no listener, no
    blocker and no limiter.  Functions and objects without state are [unit]. *)
#[local] Instance main_traits : Traits := {|
  request_handler_t := express_router_t DealerProps.route; timer_factory_t := AsioTimer.factory_t;
  timer_manager_t := AsioTimer.asio_timer_manager_t; logger_t := unit;
  acceptor_options_setter_t := unit; socket_options_setter_t := unit; acceptor_post_bind_hook_t := unit;
  cleanup_functor_t := unit; connection_state_listener_t := unit; ip_blocker_t := unit; extra_data_factory_t := unit;
  ip_address := address_t; default_request_handler := Some empty_router; is_default_request_handler_t := false;
  default_timer_factory := Some AsioTimer.default_factory; default_logger := Some tt; default_extra_data_factory := Some tt;
  timer_factory_create := fun f => Some (AsioTimer.create f);
  reuse_address := tt; no_socket_options := tt; no_post_bind_action := tt;
  has_actual_connection_state_listener := false; has_actual_ip_blocker := false; has_actual_max_parallel_connections := false
|}.

(** [on_this_thread< traits_t >().address( "0.0.0.0" )...] *)
Definition main_calls (router : express_router_t DealerProps.route) : list Settings.call :=
  [set_address_string_to (bs "0.0.0.0");
   set_request_handler_to (Some router);
   set_read_next_http_message_timelimit_to (seconds 10);
   set_write_http_response_timelimit_to (seconds 1);
   set_handle_request_timeout_to (seconds 1)].

(** The system: the failures of opening and closing the acceptor, and whether connections
    have operations outstanding when the loop looks. *)
Context (os : endpoint -> option open_failure) (closing : option close_failure) (connections : bool).

Inductive main_result := still_running | exited (code : Z) (effects : list effect) | aborted.

Definition is_some {A} (o : option A) : bool := match o with Some _ => true | None => false end.

(** [main] catches [std::exception]; for an exception of another kind the program is
    terminated. *)
Definition on_exception (std : bool) (effects : list effect) : main_result := if std then exited 1 effects else aborted.

Definition run_server (sv : http_server) (events : list event) : main_result :=
  let a := behaviour from_string protocol_of os closing sv in
  match run a connections (is_some (sv_cleanup_functor sv)) events with
  | Running => still_running
  | Returned effects => exited 0 effects
  | Rethrown open_error effects =>
      on_exception (match opening a with Some f => is_std_exception f | None => true end) effects
  | Rethrown close_error effects => exited 1 effects
  | Aborted => aborted
  end.

Definition main_ (events : list event) : main_result :=
  match Server.server_handler reserve with
  | inr _ => exited 1 []
  | inl router =>
      match configure (main_calls router) default_settings with
      | Throw _ => exited 1 []
      | Ok s =>
          match make_http_server max_iov_len max_string s with
          | Failed _ => exited 1 []
          | Terminated => aborted
          | Constructed sv => run_server sv events
          end
      end
  end.

(** ** What the program does *)

Definition main_settings (router : express_router_t DealerProps.route) : settings_t := expected (main_calls router) default_settings.

(** The server of the program. *)
Lemma main_server router :
  exists sv, make_http_server max_iov_len max_string (main_settings router) = Constructed sv /\
    built_from max_iov_len max_string (main_settings router) sv.
Proof. apply complete_constructs. by split_and!. Qed.

Lemma main_address router :
  try_extract_actual_address_from_variant from_string (m_address (main_settings router))
  = match from_string (bs "0.0.0.0") with Some a => Ok (Some a) | None => Throw "Invalid argument" end.
Proof.
  change (m_address (main_settings router)) with (address_text (bs "0.0.0.0")). unfold try_extract_actual_address_from_variant.
  by rewrite !bool_decide_eq_false_2 by (vm_compute; discriminate).
Qed.

Definition bound_endpoint (any : address_t) : endpoint := mk_endpoint v4 (Some any) 8080.

Section Reserve.
Context (Hreserve : Routing.reserves reserve).

Definition main_router : express_router_t DealerProps.route := mk_router (map Routing.entry_of Server.table) None.

Lemma main_runs_server sv events :
  Serial.Serial 57600 "/dev/ttyS0" = Ok tt ->
  make_http_server max_iov_len max_string (main_settings main_router) = Constructed sv -> main_ events = run_server sv events.
Proof using Hreserve.
  intros Hp Hsv. unfold main_. rewrite Server.server_handler_cases, Hp by done. fold main_router. rewrite configure_spec.
  change (head (omap refusal (main_calls main_router))) with (@None string). fold (main_settings main_router). cbv iota. by rewrite Hsv.
Qed.

(** The end of the program after SIGINT, by how closing fails. *)
Definition ending : main_result :=
  match closing with
  | None => exited 0 (opened_log 1 ++ closed_log false)
  | Some fails_before_close => still_running
  | Some fails_after_close =>
      if connections then still_running else exited 1 (opened_log 1 ++ [TimerStop; SocketClosed; TimerStop])
  end.

(** C4. The program from its start to its end.  When the serial port /dev/ttyS0 cannot be
    opened or set up, the program ends with code 1 and no server was made.  Otherwise its
    server answers with the router of [server_handler], reads into 4096 octets, takes one
    request at a time and waits at most 10 seconds for a request and 1 second for an answer
    and for its writing.  It listens on port 8080 of the address 0.0.0.0 over IPv4.  When
    the acceptor cannot be opened there, the program ends with code 1 if what is thrown is a
    std::exception, and is terminated if not.  Otherwise it runs until SIGINT.  When the
    acceptor is closed without a failure then, it ends with code 0, having opened, accepted
    on its one socket and closed, each once; when closing fails before the socket is closed,
    it goes on running; when it fails after that, it ends with code 1 as soon as no
    connection has anything to do. *)
Theorem main_program (any : address_t) (before after : list event) :
  from_string (bs "0.0.0.0") = Some any -> protocol_of any = v4 -> Forall (fun e => e = Traffic) before ->
  match Serial.Serial 57600 "/dev/ttyS0" with
  | Throw _ => forall events, main_ events = exited 1 []
  | Ok _ =>
      (exists sv, make_http_server max_iov_len max_string (main_settings main_router) = Constructed sv /\
         cs_request_handler (a_connections (sv_acceptor sv)) = main_router /\
         cs_parameters (a_connections (sv_acceptor sv))
         = Connection.mk_settings 4096 Limits.incoming_http_msg_limits (seconds 10) (seconds 1) (seconds 1) 1 max_iov_len max_string) /\
      match os (bound_endpoint any) with
      | Some f => forall events, main_ events = on_exception (is_std_exception f) (TimerStart :: failing_effects f)
      | None => main_ before = still_running /\ main_ (before ++ Sigint :: after) = ending
      end
  end.
Proof using Hreserve.
  intros Hany Hv4 Hb. destruct (Serial.Serial 57600 "/dev/ttyS0") as [[]|what] eqn:Hp.
  2:{ intros events. unfold main_. by rewrite Server.server_handler_cases, Hp by done. }
  destruct (main_server main_router) as (sv & Hsv & Hbf). split.
  { exists sv. split; [done|]. split; [|by rewrite (bf_parameters _ _ _ _ Hbf)]. pose proof (bf_handler _ _ _ _ Hbf) as E.
    by injection E as E. }
  assert (Ha : behaviour from_string protocol_of os closing sv = mk_behaviour (os (bound_endpoint any)) closing 1).
  { unfold behaviour, opening_of, endpoint_to_bind. destruct (bf_endpoint _ _ _ _ Hbf) as (Ep & Epr & Ea).
    rewrite Ea, Epr, Ep, (bf_sockets _ _ _ _ Hbf). cbv zeta. rewrite main_address, Hany. cbn. by rewrite Hv4. }
  assert (Hc : is_some (sv_cleanup_functor sv) = false) by (by rewrite (bf_cleanup _ _ _ _ Hbf)).
  pose proof (run_cases (mk_behaviour (os (bound_endpoint any)) closing 1) connections false before after Hb) as Hrun.
  cbn [opening Handlers.closing sockets] in Hrun.
  assert (Hm : forall events, main_ events = run_server sv events) by (intros; by apply main_runs_server).
  assert (Hr : forall events, run_server sv events = match run (mk_behaviour (os (bound_endpoint any)) closing 1) connections false events with
    | Running => still_running | Returned effects => exited 0 effects
    | Rethrown open_error effects => on_exception (match os (bound_endpoint any) with Some f => is_std_exception f | None => true end) effects
    | Rethrown close_error effects => exited 1 effects | Aborted => aborted end).
  { intros events. unfold run_server. by rewrite Ha, Hc. }
  destruct (os (bound_endpoint any)) as [f|] eqn:Eos.
  - intros events. by rewrite Hm, Hr, Hrun.
  - destruct Hrun as [H1 H2]. split; [by rewrite Hm, Hr, H1|]. rewrite Hm, Hr, H2. unfold after_signal, ending.
    cbn [Handlers.closing sockets]. destruct closing as [[]|]; [|by destruct connections|done]. cbn [Nat.eqb negb]. by rewrite orb_true_r.
Qed.

End Reserve.
End Main.

(** ** A run *)

Import NumberedMethods.

(** The two addresses that are needed here, by their protocol. *)
Definition two_addresses (text : list byte) : option protocol_t :=
  if bool_decide (text = bs "0.0.0.0") then Some v4 else if bool_decide (text = bs "::1") then Some v6 else None.

(** The program run to its end, without its serial port, and without its port 8080. *)
Lemma main_program_witness :
  main_ (P := Instances.eager_port) (fun n => n) two_addresses id 64 (2 ^ 62) (fun _ => None) None true [Traffic; Sigint]
  = exited 0 (opened_log 1 ++ closed_log false) /\
  main_ (P := Instances.absent_port) (fun n => n) two_addresses id 64 (2 ^ 62) (fun _ => None) None true [] = exited 1 [] /\
  exists effects,
    main_ (P := Instances.eager_port) (fun n => n) two_addresses id 64 (2 ^ 62) (fun _ => Some (mk_open_failure bind_socket true)) None true []
    = exited 1 effects.
Proof.
  split; [|split].
  - destruct (main_program (P := Instances.eager_port) (fun n => n) two_addresses id 64 (2 ^ 62) (fun _ => None) None true (fun n => le_n n) v4 [Traffic] [])
      as (_ & _ & Hx); [vm_compute; reflexivity|reflexivity|repeat constructor|exact Hx].
  - exact (main_program (P := Instances.absent_port) (fun n => n) two_addresses id 64 (2 ^ 62) (fun _ => None) None true (fun n => le_n n) v4 [] []
      eq_refl eq_refl (List.Forall_nil _) []).
  - eexists. refine (proj2 (main_program (P := Instances.eager_port) (fun n => n) two_addresses id 64 (2 ^ 62)
      (fun _ => Some (mk_open_failure bind_socket true)) None true (fun n => le_n n) v4 [] [] eq_refl eq_refl (List.Forall_nil _)) []).
Defined.

End Main.
