(* ===== verification/WritableItems.v ===== *)
(** * The storage of writable items

    Model of src/web/restinio/restinio/buffers.hpp below the level of [Coordinator]: the
    classes of buffers a [writable_item_t] keeps in its raw storage, placement new and
    [relocate_to], explicit destruction, the casts by [m_write_type], objects shared with
    the user and their use counts, and the operations of [write_group_t] on all that.
    [GroupRefinement] shows that these implement the groups of [Coordinator], whose items
    are just octets.

    What the standard leaves open after a move is [None].  A result of [None] is undefined
    behaviour: a null pointer or an object of another class. *)

From stdpp Require Import gmap.
From S2P Require Import Prelude Coordinator.

Module Storage.

(** ** The classes of buffers *)

Inductive stored :=
| empty_buf_t
| const_buf_t (m_data : nat) (m_size : nat)
| datasizeable_buf_t (m_custom_buffer : option (list byte))
| shared_datasizeable_buf_t (m_buf_ptr : option nat)
| sendfile_write_operation_t (m_sendfile_options : option (Z * Z)).   (* the file and its size *)

(** The objects shared with the user: octets and use count. *)
Abbreviation heap := (gmap nat (list byte * nat)).

Section Memory.
(** The memory constant buffers point to; it is the user's, and stays. *)
Variable static : nat -> list byte.

(** [buffer()] *)
Definition buffer (h : heap) (s : stored) : option (list byte) :=
  match s with
  | empty_buf_t => Some []
  | const_buf_t data size => Some (take size (static data))
  | datasizeable_buf_t custom => custom
  | shared_datasizeable_buf_t ptr => p ← ptr; fst <$> h !! p
  | sendfile_write_operation_t _ => None
  end.

(** [size()]; only a sendfile operation looks whether it was moved from. *)
Definition stored_size (h : heap) (s : stored) : option Z :=
  match s with
  | empty_buf_t => Some 0
  | const_buf_t _ size => Some (Z.of_nat size)
  | datasizeable_buf_t custom => Z.of_nat ∘ length <$> custom
  | shared_datasizeable_buf_t ptr => p ← ptr; Z.of_nat ∘ length ∘ fst <$> h !! p
  | sendfile_write_operation_t None => Some 0
  | sendfile_write_operation_t (Some (_, n)) => Some n
  end.

(** [relocate_to]: the new object, and what is left of the old one. *)
Definition relocate_to (s : stored) : stored * stored :=
  match s with
  | empty_buf_t => (empty_buf_t, empty_buf_t)
  | const_buf_t data size => (const_buf_t data size, const_buf_t data size)
  | datasizeable_buf_t custom => (datasizeable_buf_t custom, datasizeable_buf_t None)
  | shared_datasizeable_buf_t ptr => (shared_datasizeable_buf_t ptr, shared_datasizeable_buf_t None)
  | sendfile_write_operation_t opts => (sendfile_write_operation_t opts, sendfile_write_operation_t None)
  end.

(** ** Shared objects *)

Definition acquire (p : nat) (h : heap) : heap :=
  match h !! p with Some (d, k) => <[p := (d, S k)]> h | None => h end.

(** The last owner deletes the object. *)
Definition release (p : nat) (h : heap) : heap :=
  match h !! p with
  | Some (d, S (S k)) => <[p := (d, S k)]> h
  | Some (d, _) => delete p h
  | None => h
  end.

(** ** writable_item_t *)

Inductive writable_item_type_t := trivial_write_operation | file_write_operation.

Record item := mk_item { m_write_type : writable_item_type_t; m_storage : stored }.

Definition item_default : item := mk_item trivial_write_operation empty_buf_t.
Definition item_of_const_buffer (data size : nat) : item := mk_item trivial_write_operation (const_buf_t data size).
Definition item_of_datasizeable (ds : list byte) : item := mk_item trivial_write_operation (datasizeable_buf_t (Some ds)).

(** Up to the terminating zero. *)
Fixpoint c_string (l : list byte) : list byte :=
  match l with [] => [] | x00 :: _ => [] | c :: l => c :: c_string l end.
Definition item_of_c_string (str : list byte) : item := item_of_datasizeable (c_string str).

Definition item_of_shared_ptr (sp : option nat) : outcome item :=
  match sp with
  | None => Throw "empty shared_ptr cannot be used as buffer"
  | Some p => Ok (mk_item trivial_write_operation (shared_datasizeable_buf_t (Some p)))
  end.

Definition item_of_sendfile (file size : Z) : item :=
  mk_item file_write_operation (sendfile_write_operation_t (Some (file, size))).

(** The destructor of the stored object; a null pointer owns nothing. *)
Definition destroy_stored_buffer (i : item) (h : heap) : heap :=
  match m_storage i with
  | shared_datasizeable_buf_t (Some p) => release p h
  | _ => h
  end.

(** The move constructor: the new item and the source. *)
Definition move_item (b : item) : item * item :=
  let '(new, left_) := relocate_to (m_storage b) in (mk_item (m_write_type b) new, mk_item (m_write_type b) left_).

(** Move assignment from another item. *)
Definition assign_item (this b : item) (h : heap) : item * item * heap :=
  let h := destroy_stored_buffer this h in
  let '(new, left_) := relocate_to (m_storage b) in
  (mk_item (m_write_type b) new, mk_item (m_write_type b) left_, h).

Definition item_size (h : heap) (i : item) : option Z := stored_size h (m_storage i).

(** [buf()] and [sendfile_operation()], with the casts. *)
Definition buf (h : heap) (i : item) : option (list byte) := buffer h (m_storage i).
Definition sendfile_operation (i : item) : option (Z * Z) :=
  match m_storage i with sendfile_write_operation_t opts => opts | _ => None end.

(** ** write_group_t *)

Record write_group := mk_write_group {
  m_items : list item;
  m_status_line_size : Z;
  m_after_write_notificator : option Z
}.

Definition group_of_items (items : list item) : write_group := mk_write_group items 0 None.

Fixpoint destroy_items (l : list item) (h : heap) : heap :=
  match l with [] => h | i :: l => destroy_items l (destroy_stored_buffer i h) end.

(** A vector that grows moves its items to new storage. *)
Definition reserve (l : list item) (h : heap) : list item * heap :=
  (map (fun i => (move_item i).1) l, destroy_items (map (fun i => (move_item i).2) l) h).

Definition move_group (wg : write_group) : write_group * write_group :=
  (mk_write_group (m_items wg) (m_status_line_size wg) (m_after_write_notificator wg), mk_write_group [] 0 None).

(** The notificator that is called, with the error of a passive destruction. *)
Definition destroy_group (g : write_group) (h : heap) : option Z * heap :=
  (m_after_write_notificator g, destroy_items (m_items g) h).

(** Move assignment: by a temporary and a swap; the temporary takes the old value away. *)
Definition assign_group (this wg : write_group) (h : heap) : write_group * write_group * option Z * heap :=
  let '(tmp, wg) := move_group wg in
  let '(called, h) := destroy_group this h in
  (tmp, wg, called, h).

Definition status_line_size (n : Z) (h : heap) (g : write_group) : option (outcome write_group) :=
  if negb (0 =? n) then
    match m_items g with
    | [] => Some (Throw "cannot set status line size for empty write group")
    | i :: _ =>
        match m_write_type i with
        | file_write_operation => Some (Throw "first writable item must be trivial_write_operation")
        | trivial_write_operation =>
            size ← item_size h i;
            Some (if size <? n then Throw "first writable item size is less than provided value"
                  else Ok (mk_write_group (m_items g) n (m_after_write_notificator g)))
        end
    end
  else Some (Ok g).

Definition after_write_notificator (cb : Z) (g : write_group) : write_group :=
  mk_write_group (m_items g) (m_status_line_size g) (Some cb).

Definition invoke_after_write_notificator (g : write_group) : write_group * option Z :=
  (mk_write_group (m_items g) (m_status_line_size g) None, m_after_write_notificator g).

Definition reset (g : write_group) (h : heap) : write_group * heap :=
  (mk_write_group [] 0 None, destroy_items (m_items g) h).

(** The argument is a group of its own, destroyed at the end; its items are moved from and
    its notificator is gone. *)
Definition merge (g second : write_group) (h : heap) : write_group * heap :=
  let second_items := m_items second in
  let '(items, h) := reserve (m_items g) h in
  let moved := map move_item second_items in
  let g := mk_write_group (items ++ moved.*1) (m_status_line_size g) (m_after_write_notificator second) in
  let second := mk_write_group moved.*2 (m_status_line_size second) None in
  (g, (destroy_group second h).2).

End Memory.
End Storage.
