(* ===== verification/GroupRefinement.v ===== *)
(** * Groups of stored items implement groups of octets

    A program that makes, moves, merges, sends and destroys groups, and that shares
    objects with them, runs on the storage of [WritableItems] and, with the same calls, on
    the groups of [Coordinator].  The theorem says that the two agree at every point: what
    an item shows is what it was made of, as long as it is there, whatever the user does
    with its own pointers; nothing is deleted too early or twice, and nothing is kept. *)

From stdpp Require Import gmap.
From S2P Require Import Prelude Coordinator WritableItems.

Module GroupRefinement.
Import Storage.

Section Static.
Variable static : nat -> list byte.

(** ** Programs *)

(** What an item is made of; the user hands in a copy of a pointer it holds. *)
Inductive source :=
| from_nothing
| from_const_buffer (data size : nat)
| from_datasizeable (ds : list byte)
| from_c_string (str : list byte)
| from_shared_ptr (sp : option nat)
| from_sendfile (file size : Z).

(** Variables are numbered in the order in which they are made. *)
Inductive op :=
| make_shared (d : list byte)
| drop (p : nat)
| make_group (items : list source)
| move_construct (v : nat)
| move_assign (v from : nat)
| call_status_line_size (v : nat) (n : Z)
| call_after_write_notificator (v : nat) (cb : Z)
| call_invoke (v : nat)
| call_reset (v : nat)
| call_merge (v second : nat)
| destroy (v : nat).

Record state := mk_state {
  objects : heap;
  next_object : nat;
  user : list nat;                      (* the pointers the user holds *)
  vars : list (option write_group);     (* [None]: destroyed *)
  called : list Z                       (* notificators, in the order of their calls *)
}.

Definition initial : state := mk_state ∅ 0 [] [] [].

(** The items of a group, made from left to right; an exception destroys the ones made so
    far, which leaves everything as it was. *)
Fixpoint make_items (l : list source) (h : heap) : outcome (list item * heap) :=
  match l with
  | [] => Ok ([], h)
  | s :: l =>
      let? (i, h) :=
        match s with
        | from_nothing => Ok (item_default, h)
        | from_const_buffer d n => Ok (item_of_const_buffer d n, h)
        | from_datasizeable ds => Ok (item_of_datasizeable ds, h)
        | from_c_string str => Ok (item_of_c_string str, h)
        | from_shared_ptr sp =>
            let? i := item_of_shared_ptr sp in Ok (i, match sp with Some p => acquire p h | None => h end)
        | from_sendfile f n => Ok (item_of_sendfile f n, h)
        end in
      let? (items, h) := make_items l h in
      Ok (i :: items, h)
  end.

Definition held (us : list nat) (s : source) : bool :=
  match s with
  | from_shared_ptr (Some p) => bool_decide (p ∈ us)
  | from_const_buffer d n => (n <=? length (static d))%nat
  | _ => true
  end.

Definition note (c : option Z) (l : list Z) : list Z := l ++ match c with Some c => [c] | None => [] end.

(** A variable that is there. *)
Definition var (st : state) (v : nat) : option write_group := g ← vars st !! v; g.

Definition set_var (v : nat) (g : option write_group) (st : state) : state :=
  mk_state (objects st) (next_object st) (user st) (<[v := g]> (vars st)) (called st).
Definition add_var (g : write_group) (st : state) : state :=
  mk_state (objects st) (next_object st) (user st) (vars st ++ [Some g]) (called st).
Definition set_objects (h : heap) (st : state) : state :=
  mk_state h (next_object st) (user st) (vars st) (called st).
Definition add_called (c : option Z) (st : state) : state :=
  mk_state (objects st) (next_object st) (user st) (vars st) (note c (called st)).

Fixpoint remove_one (p : nat) (l : list nat) : list nat :=
  match l with [] => [] | q :: l => if (p =? q)%nat then l else q :: remove_one p l end.

(** [None] is a program that is not allowed (a variable that is not there, a pointer the
    user does not hold) or undefined behaviour of the groups. *)
Definition exec (o : op) (st : state) : option state :=
  match o with
  | make_shared d =>
      Some (mk_state (<[next_object st := (d, 1%nat)]> (objects st)) (S (next_object st)) (next_object st :: user st)
              (vars st) (called st))
  | drop p =>
      if bool_decide (p ∈ user st) then
        Some (mk_state (release p (objects st)) (next_object st) (remove_one p (user st)) (vars st) (called st))
      else None
  | make_group l =>
      if forallb (held (user st)) l then
        match make_items l (objects st) with
        | Ok (items, h) => Some (add_var (group_of_items items) (set_objects h st))
        | Throw _ => Some st
        end
      else None
  | move_construct v =>
      g ← var st v;
      let '(new, left_) := move_group g in
      Some (add_var new (set_var v (Some left_) st))
  | move_assign v from =>
      if (v =? from)%nat then None else
      g ← var st v;
      g' ← var st from;
      let '(this, left_, c, h) := assign_group g g' (objects st) in
      Some (add_called c (set_var v (Some this) (set_var from (Some left_) (set_objects h st))))
  | call_status_line_size v n =>
      g ← var st v;
      r ← status_line_size n (objects st) g;
      Some (match r with Ok g => set_var v (Some g) st | Throw _ => st end)
  | call_after_write_notificator v cb =>
      g ← var st v;
      Some (set_var v (Some (after_write_notificator cb g)) st)
  | call_invoke v =>
      g ← var st v;
      let '(g, c) := invoke_after_write_notificator g in
      Some (add_called c (set_var v (Some g) st))
  | call_reset v =>
      g ← var st v;
      let '(g, h) := reset g (objects st) in
      Some (set_var v (Some g) (set_objects h st))
  | call_merge v second =>
      if (v =? second)%nat then None else
      g ← var st v;
      g' ← var st second;
      let '(arg, left_) := move_group g' in
      let '(g, h) := merge g arg (objects st) in
      Some (set_var v (Some g) (set_var second (Some left_) (set_objects h st)))
  | destroy v =>
      g ← var st v;
      let '(c, h) := destroy_group g (objects st) in
      Some (add_called c (set_var v None (set_objects h st)))
  end.

Fixpoint run (os : list op) (st : state) : option state :=
  match os with [] => Some st | o :: os => st ← exec o st; run os st end.

(** ** The same program on groups of octets *)

Record astate := mk_astate {
  a_made : list (list byte);                      (* the shared objects ever made *)
  a_vars : list (option Buffers.write_group_t);
  a_called : list Z
}.

Definition a_initial : astate := mk_astate [] [] [].

Definition a_item (made : list (list byte)) (s : source) : option Buffers.writable_item_t :=
  match s with
  | from_nothing => Some (Buffers.trivial_write_operation [])
  | from_const_buffer d n => Some (Buffers.trivial_write_operation (take n (static d)))
  | from_datasizeable ds => Some (Buffers.trivial_write_operation ds)
  | from_c_string str => Some (Buffers.trivial_write_operation (c_string str))
  | from_shared_ptr sp => p ← sp; Buffers.trivial_write_operation <$> made !! p
  | from_sendfile f n => Some (Buffers.file_write_operation f n)
  end.

Definition a_var (st : astate) (v : nat) : option Buffers.write_group_t := g ← a_vars st !! v; g.
Definition a_set (v : nat) (g : option Buffers.write_group_t) (st : astate) : astate :=
  mk_astate (a_made st) (<[v := g]> (a_vars st)) (a_called st).
Definition a_add (g : Buffers.write_group_t) (st : astate) : astate :=
  mk_astate (a_made st) (a_vars st ++ [Some g]) (a_called st).
Definition a_call (c : option Z) (st : astate) : astate :=
  mk_astate (a_made st) (a_vars st) (note c (a_called st)).

Definition moved_from : Buffers.write_group_t := Buffers.write_group [].

Definition a_exec (o : op) (st : astate) : option astate :=
  match o with
  | make_shared d => Some (mk_astate (a_made st ++ [d]) (a_vars st) (a_called st))
  | drop _ => Some st
  | make_group l =>
      Some (match mapM (a_item (a_made st)) l with Some items => a_add (Buffers.write_group items) st | None => st end)
  | move_construct v => g ← a_var st v; Some (a_add g (a_set v (Some moved_from) st))
  | move_assign v from =>
      g ← a_var st v; g' ← a_var st from;
      Some (a_call (Buffers.m_after_write_notificator g) (a_set v (Some g') (a_set from (Some moved_from) st)))
  | call_status_line_size v n =>
      g ← a_var st v; Some (match Buffers.set_status_line_size n g with Ok g => a_set v (Some g) st | Throw _ => st end)
  | call_after_write_notificator v cb => g ← a_var st v; Some (a_set v (Some (Buffers.set_after_write_notificator cb g)) st)
  | call_invoke v =>
      g ← a_var st v;
      let '(g, c) := Buffers.invoke_after_write_notificator_if_exists g in Some (a_call c (a_set v (Some g) st))
  | call_reset v => g ← a_var st v; Some (a_set v (Some (Buffers.reset_group g)) st)
  | call_merge v second =>
      g ← a_var st v; g' ← a_var st second;
      Some (a_set v (Some (Buffers.merge g g')) (a_set second (Some moved_from) st))
  | destroy v => g ← a_var st v; Some (a_call (Buffers.m_after_write_notificator g) (a_set v None st))
  end.

Fixpoint a_run (os : list op) (st : astate) : option astate :=
  match os with [] => Some st | o :: os => st ← a_exec o st; a_run os st end.

(** ** Use counts *)

Definition occ (p : nat) (l : list nat) : nat := length (List.filter (Nat.eqb p) l).

Lemma occ_app p a b : occ p (a ++ b) = (occ p a + occ p b)%nat.
Proof. unfold occ. by rewrite List.filter_app, length_app. Qed.
Lemma occ_cons p q l : occ p (q :: l) = ((if (p =? q)%nat then 1 else 0) + occ p l)%nat.
Proof. unfold occ. cbn. by destruct (p =? q)%nat. Qed.
Lemma occ_perm p a b : a ≡ₚ b -> occ p a = occ p b.
Proof. induction 1; rewrite ?occ_cons; lia. Qed.
Lemma occ_pos p l : p ∈ l -> (0 < occ p l)%nat.
Proof. induction 1; rewrite occ_cons; [rewrite Nat.eqb_refl|]; lia. Qed.

(** Every object counts its owners. *)
Definition counted (h : heap) (os : list nat) : Prop :=
  forall p, match h !! p with
            | Some (_, k) => k = occ p os /\ (0 < k)%nat
            | None => occ p os = 0%nat
            end.

Lemma counted_perm h a b : a ≡ₚ b -> counted h a -> counted h b.
Proof. intros Hp Hc p. specialize (Hc p). by rewrite <- (occ_perm p a b Hp). Qed.

Lemma counted_lookup h os p : counted h os -> p ∈ os -> exists d k, h !! p = Some (d, k).
Proof. intros Hc Hp. specialize (Hc p). apply occ_pos in Hp. destruct (h !! p) as [[d k]|]; [by exists d, k|lia]. Qed.

Lemma counted_acquire h os p : counted h os -> p ∈ os -> counted (acquire p h) (p :: os).
Proof.
  intros Hc Hp q. destruct (counted_lookup _ _ _ Hc Hp) as (d & k & E). unfold acquire. rewrite E. cbv beta iota.
  pose proof (Hc p) as Hcp. pose proof (Hc q) as Hcq. rewrite E in Hcp. rewrite occ_cons. destruct (decide (q = p)) as [->|Hne].
  - rewrite lookup_insert_eq, Nat.eqb_refl. lia.
  - rewrite lookup_insert_ne by done. by rewrite (proj2 (Nat.eqb_neq q p) Hne).
Qed.

Lemma counted_release h os p : counted h (p :: os) -> counted (release p h) os.
Proof.
  intros Hc q. unfold release. pose proof (Hc p) as Hcp. pose proof (Hc q) as Hcq. rewrite occ_cons in Hcp, Hcq.
  rewrite Nat.eqb_refl in Hcp. destruct (h !! p) as [[d k]|] eqn:E; [|lia]. destruct Hcp as [Ek _].
  destruct (decide (q = p)) as [->|Hne].
  - destruct k as [|[|k]]; [lia|rewrite lookup_delete_eq; lia|rewrite lookup_insert_eq; lia].
  - rewrite (proj2 (Nat.eqb_neq q p) Hne) in Hcq.
    destruct k as [|[|k]]; [rewrite lookup_delete_ne by done|rewrite lookup_delete_ne by done|rewrite lookup_insert_ne by done]; exact Hcq.
Qed.

(** Objects are what they were made as. *)
Definition as_made (h : heap) (made : list (list byte)) : Prop := forall p d k, h !! p = Some (d, k) -> made !! p = Some d.

Lemma as_made_acquire h made p : as_made h made -> as_made (acquire p h) made.
Proof.
  intros Hm q d k. unfold acquire. destruct (h !! p) as [[d' k']|] eqn:E; [|apply Hm].
  destruct (decide (q = p)) as [->|Hne]; [|rewrite lookup_insert_ne by done; apply Hm].
  rewrite lookup_insert_eq. intros [= <- _]. by eapply Hm.
Qed.

Lemma as_made_release h made p : as_made h made -> as_made (release p h) made.
Proof.
  intros Hm q d k. unfold release. destruct (h !! p) as [[d' k']|] eqn:E; [|apply Hm].
  destruct (decide (q = p)) as [->|Hne].
  - destruct k' as [|[|k']]; [by rewrite lookup_delete_eq|by rewrite lookup_delete_eq|]. rewrite lookup_insert_eq.
    intros [= <- _]. by eapply Hm.
  - destruct k' as [|[|k']]; [rewrite lookup_delete_ne by done|rewrite lookup_delete_ne by done|rewrite lookup_insert_ne by done]; apply Hm.
Qed.

(** ** Items *)

Definition item_refs (i : item) : list nat :=
  match m_storage i with shared_datasizeable_buf_t (Some p) => [p] | _ => [] end.
Definition group_refs (g : write_group) : list nat := flat_map item_refs (m_items g).
Definition slot_refs (g : option write_group) : list nat := match g with Some g => group_refs g | None => [] end.
Definition owners (st : state) : list nat := user st ++ flat_map slot_refs (vars st).

Lemma destroy_items_ok l h os made :
  counted h (flat_map item_refs l ++ os) -> as_made h made -> counted (destroy_items l h) os /\ as_made (destroy_items l h) made.
Proof.
  revert h. induction l as [|[t s] l IH]; intros h Hc Hm; [done|]. cbn [destroy_items]. apply IH.
  - unfold destroy_stored_buffer. cbn in *. destruct s as [| | |[p|]|]; try exact Hc. cbn in Hc. by apply counted_release.
  - unfold destroy_stored_buffer. cbn. destruct s as [| | |[p|]|]; try exact Hm. by apply as_made_release.
Qed.

(** A move gives the item and leaves nothing to own. *)
Lemma move_item_1 i : (move_item i).1 = i.
Proof. by destruct i as [t []]. Qed.
Lemma destroy_moved l h : destroy_items (map (fun i => (move_item i).2) l) h = h.
Proof. induction l as [|[t []] l IH]; [done|..]; exact IH. Qed.

Lemma reserve_id l h : reserve l h = (l, h).
Proof.
  unfold reserve. rewrite destroy_moved. f_equal. rewrite <- (map_id l) at 2. apply map_ext. apply move_item_1.
Qed.

Lemma moves_1 l : (map move_item l).*1 = l.
Proof. induction l as [|i l IH]; [done|]. cbn in *. by rewrite IH, move_item_1. Qed.
Lemma moves_2 l : (map move_item l).*2 = map (fun i => (move_item i).2) l.
Proof. induction l as [|i l IH]; [done|]. cbn in *. by rewrite IH. Qed.

Lemma merge_spec g second h :
  merge g second h = (mk_write_group (m_items g ++ m_items second) (m_status_line_size g) (m_after_write_notificator second), h).
Proof.
  unfold merge. rewrite reserve_id. unfold destroy_group. cbn [m_items snd]. by rewrite moves_1, moves_2, destroy_moved.
Qed.

(** ** The relation *)

Definition item_rel (made : list (list byte)) (i : item) (a : Buffers.writable_item_t) : Prop :=
  match m_write_type i, m_storage i with
  | trivial_write_operation, empty_buf_t => a = Buffers.trivial_write_operation []
  | trivial_write_operation, const_buf_t d n => a = Buffers.trivial_write_operation (take n (static d)) /\ (n <= length (static d))%nat
  | trivial_write_operation, datasizeable_buf_t (Some l) => a = Buffers.trivial_write_operation l
  | trivial_write_operation, shared_datasizeable_buf_t (Some p) =>
      exists l, made !! p = Some l /\ a = Buffers.trivial_write_operation l
  | file_write_operation, sendfile_write_operation_t (Some (f, n)) => a = Buffers.file_write_operation f n
  | _, _ => False
  end.

Definition group_rel (made : list (list byte)) (g : write_group) (a : Buffers.write_group_t) : Prop :=
  Forall2 (item_rel made) (m_items g) (Buffers.m_items a) /\
  m_status_line_size g = Buffers.m_status_line_size a /\
  m_after_write_notificator g = Buffers.m_after_write_notificator a.

Definition slot_rel (made : list (list byte)) (g : option write_group) (a : option Buffers.write_group_t) : Prop :=
  match g, a with Some g, Some a => group_rel made g a | None, None => True | _, _ => False end.

Record sim (st : state) (ast : astate) : Prop := {
  sim_counted : counted (objects st) (owners st);
  sim_made : as_made (objects st) (a_made ast);
  sim_next : next_object st = length (a_made ast);
  sim_vars : Forall2 (slot_rel (a_made ast)) (vars st) (a_vars ast);
  sim_called : called st = a_called ast
}.

Lemma item_rel_made made d i a : item_rel made i a -> item_rel (made ++ [d]) i a.
Proof.
  unfold item_rel. destruct (m_write_type i), (m_storage i) as [| | |[p|]|]; try done.
  intros (l & E & ->). exists l. split; [|done]. by apply lookup_app_l_Some.
Qed.

Lemma slot_rel_made made d g a : slot_rel made g a -> slot_rel (made ++ [d]) g a.
Proof.
  destruct g as [g|], a as [a|]; try done. intros (H1 & H2 & H3). split_and!; try done.
  clear H2 H3. induction H1 as [|x y l l' Hx Hl IH]; constructor; [by apply item_rel_made|done].
Qed.

(** What the code reads from an item of a live group. *)
Lemma item_shows h os made i a :
  counted h os -> as_made h made -> Forall (fun p => p ∈ os) (item_refs i) -> item_rel made i a ->
  item_size h i = Some (Buffers.item_size a) /\
  match a with
  | Buffers.trivial_write_operation d => m_write_type i = trivial_write_operation /\ buf static h i = Some d
  | Buffers.file_write_operation f n => m_write_type i = file_write_operation /\ sendfile_operation i = Some (f, n)
  end.
Proof.
  intros Hc Hm Ho Hr. destruct i as [t s]. unfold item_rel in Hr. cbn in *.
  destruct t, s as [|d n|[l|]|[p|]|[[f n]|]]; try done; try (subst a; by split_and!).
  - destruct Hr as [-> Hn]. cbn. by rewrite length_take_le.
  - destruct Hr as (l & El & ->). apply Forall_cons_iff in Ho as [Ho _].
    destruct (counted_lookup _ _ _ Hc Ho) as (d & k & E). unfold item_size, buf. cbn. rewrite E. cbn.
    assert (d = l) as -> by (apply Hm in E; congruence). done.
Qed.

(** ** Making items *)

Lemma make_items_sim l h us os made :
  forallb (held us) l = true ->
  (forall p, p ∈ us -> p ∈ os) -> counted h os -> as_made h made ->
  match make_items l h with
  | Ok (items, h') =>
      exists aitems, mapM (a_item made) l = Some aitems /\ Forall2 (item_rel made) items aitems /\
        counted h' (flat_map item_refs items ++ os) /\ as_made h' made
  | Throw _ => mapM (a_item made) l = None
  end.
Proof.
  revert h os. induction l as [|s l IH]; intros h os Hl Hus Hc Hm; cbn [make_items].
  - exists []. by split_and!.
  - cbn [forallb] in Hl. apply andb_true_iff in Hl as [Hs Hl].
    assert (Hplain : forall i a, item_refs i = [] -> item_rel made i a -> a_item made s = Some a ->
      match (let? (items, h') := make_items l h in Ok (i :: items, h')) with
      | Ok (items, h') =>
          exists aitems, mapM (a_item made) (s :: l) = Some aitems /\ Forall2 (item_rel made) items aitems /\
            counted h' (flat_map item_refs items ++ os) /\ as_made h' made
      | Throw _ => mapM (a_item made) (s :: l) = None
      end).
    { intros i a Hi Hr Ha. specialize (IH h os Hl Hus Hc Hm). cbn [mapM]. rewrite Ha. cbn.
      destruct (make_items l h) as [[items h']|]; [|by rewrite IH].
      destruct IH as (aitems & E & Hf & Hc' & Hm'). exists (a :: aitems). rewrite E. split_and!; try done; [by constructor|].
      cbn. by rewrite Hi. }
    destruct s as [|d n|ds|str|[p|]|f n]; cbn in Hs |- *; try (by eapply Hplain).
    + eapply Hplain; [done| |done]. split; [done|]. by apply Nat.leb_le.
    + apply bool_decide_eq_true in Hs. apply Hus in Hs. destruct (counted_lookup _ _ _ Hc Hs) as (d & k & E). apply Hm in E as E'.
      rewrite E'. cbn. specialize (IH (acquire p h) (p :: os) Hl).
      destruct (make_items l (acquire p h)) as [[items h']|].
      * destruct IH as (aitems & Ea & Hf & Hc' & Hm'); [intros q Hq; apply elem_of_cons; right; by apply Hus|by apply counted_acquire
          |by apply as_made_acquire|].
        exists (Buffers.trivial_write_operation d :: aitems). rewrite Ea. split_and!; try done; [|].
        -- constructor; [by exists d|done].
        -- eapply counted_perm; [|exact Hc']. cbn. by rewrite Permutation_middle.
      * rewrite IH; [done|intros q Hq; apply elem_of_cons; right; by apply Hus|by apply counted_acquire|by apply as_made_acquire].
    + done.
Qed.

(** ** Variables *)

Lemma slots_update (l : list (option write_group)) v old x :
  l !! v = Some old -> slot_refs old ++ flat_map slot_refs (<[v := x]> l) ≡ₚ slot_refs x ++ flat_map slot_refs l.
Proof.
  intros E. pose proof (take_drop_middle l v old E) as El. pose proof (lookup_lt_Some _ _ _ E) as Hlt.
  rewrite insert_take_drop by done. rewrite <- El at 3. rewrite !flat_map_app. cbn [flat_map].
  rewrite (Permutation_app_swap_app (slot_refs old)), (Permutation_app_swap_app (slot_refs x) (flat_map slot_refs (take v l))).
  apply Permutation_app_head, Permutation_app_swap_app.
Qed.

Lemma var_lookup st v g : var st v = Some g -> vars st !! v = Some (Some g).
Proof. unfold var. destruct (vars st !! v) as [[g'|]|]; [by intros [= ->]|done|done]. Qed.

Lemma sim_var st ast v g :
  sim st ast -> var st v = Some g -> exists a, a_var ast v = Some a /\ group_rel (a_made ast) g a.
Proof.
  intros Hs Hv. apply var_lookup in Hv. destruct (Forall2_lookup_l _ _ _ _ _ (sim_vars _ _ Hs) Hv) as ([a|] & Ea & Hr); [|done].
  exists a. unfold a_var. by rewrite Ea.
Qed.

(** Replacing a variable: the owners change by its references. *)
Lemma owners_set v g st old :
  vars st !! v = Some old -> slot_refs old ++ owners (set_var v g st) ≡ₚ slot_refs g ++ owners st.
Proof.
  intros E. unfold owners. cbn. pose proof (slots_update (vars st) v old g E) as Hp.
  rewrite (Permutation_app_swap_app (slot_refs old)), Hp. apply Permutation_app_swap_app.
Qed.

Lemma sim_set v g a st ast :
  sim st ast -> slot_rel (a_made ast) g a -> counted (objects st) (owners (set_var v g st)) ->
  sim (set_var v g st) (a_set v a ast).
Proof. intros [H1 H2 H3 H4 H5] Hr Hc. split; try done. cbn. by apply Forall2_insert. Qed.

Lemma sim_add g a st ast :
  sim st ast -> group_rel (a_made ast) g a -> counted (objects st) (owners (add_var g st)) -> sim (add_var g st) (a_add a ast).
Proof. intros [H1 H2 H3 H4 H5] Hr Hc. split; try done. cbn. apply Forall2_app; [done|]. by apply Forall2_cons. Qed.

Lemma sim_call c st ast : sim st ast -> sim (add_called c st) (a_call c ast).
Proof. intros [H1 H2 H3 H4 H5]. split; try done. cbn. by rewrite H5. Qed.

(** A variable with the same references. *)
Lemma sim_same_refs v g g' a st ast :
  sim st ast -> var st v = Some g -> group_refs g' = group_refs g -> group_rel (a_made ast) g' a ->
  sim (set_var v (Some g') st) (a_set v (Some a) ast).
Proof.
  intros Hs Hv Hg Hr. apply sim_set; [done|done|]. eapply counted_perm; [|apply (sim_counted _ _ Hs)].
  apply var_lookup in Hv. pose proof (owners_set v (Some g') st _ Hv) as Hp. cbn in Hp. rewrite Hg in Hp.
  by apply Permutation_app_inv_l in Hp.
Qed.

(** ** The steps *)

Lemma moved_from_rel made : group_rel made (mk_write_group [] 0 None) moved_from.
Proof. by split_and!. Qed.

(** The references of a variable are owners. *)
Lemma refs_owned st v g i : var st v = Some g -> i ∈ m_items g -> Forall (fun p => p ∈ owners st) (item_refs i).
Proof.
  intros Hv Hi. apply Forall_forall. intros p Hp. apply var_lookup in Hv. unfold owners. apply elem_of_app. right.
  apply list_elem_of_In, in_flat_map. exists (Some g). split; [by apply list_elem_of_In; eapply list_elem_of_lookup_2|].
  apply in_flat_map. exists i. by split; [apply list_elem_of_In|].
Qed.

Lemma status_line_size_sim n st ast v g a :
  sim st ast -> var st v = Some g -> group_rel (a_made ast) g a ->
  exists r, status_line_size n (objects st) g = Some r /\
    match r, Buffers.set_status_line_size n a with
    | Ok g', Ok a' => group_refs g' = group_refs g /\ group_rel (a_made ast) g' a'
    | Throw _, Throw _ => True
    | _, _ => False
    end.
Proof.
  intros Hs Hv Hr. pose proof Hr as (Hi & Hst & Hn). unfold status_line_size, Buffers.set_status_line_size.
  destruct (negb (0 =? n)) eqn:En; [|by exists (Ok g)].
  destruct g as [items sz nt], a as [aitems asz ant]. cbn in *. destruct Hi as [|i ai l al Hx Hl]; [by eexists|].
  assert (Ho : Forall (fun p => p ∈ owners st) (item_refs i)) by (eapply refs_owned; [exact Hv|apply elem_of_cons; by left]).
  destruct (item_shows _ _ _ _ _ (sim_counted _ _ Hs) (sim_made _ _ Hs) Ho Hx) as [Hsz Hk].
  destruct ai as [d|f m]; destruct Hk as [-> _]; [|by eexists]. rewrite Hsz. eexists. split; [reflexivity|].
  destruct (Buffers.item_size (Buffers.trivial_write_operation d) <? n); [done|]. split; [done|]. split_and!; try done. by constructor.
Qed.

(** Destroying the items of a variable, which then is empty or gone. *)
Lemma sim_release v g x ax st ast :
  sim st ast -> var st v = Some g -> slot_rel (a_made ast) x ax -> slot_refs x = [] ->
  sim (set_var v x (set_objects (destroy_items (m_items g) (objects st)) st)) (a_set v ax ast).
Proof.
  intros Hs Hv Hr Hx. pose proof Hs as [H1 H2 H3 H4 H5]. apply var_lookup in Hv. pose proof (owners_set v x st _ Hv) as Hp.
  rewrite Hx in Hp. cbn in Hp.
  destruct (destroy_items_ok (m_items g) (objects st) (owners (set_var v x st)) (a_made ast)) as [Hc Hm]; [|done|].
  { eapply counted_perm; [symmetry; exact Hp|done]. }
  split; cbn; try done. by apply Forall2_insert.
Qed.

(** A group moved to a variable at whose place [g] was; the source is left empty. *)
Lemma owners_transfer v from g g' x st :
  v <> from -> var st v = Some g -> var st from = Some g' ->
  group_refs g ++ owners (set_var v (Some x) (set_var from (Some (mk_write_group [] 0 None)) st)) ++ group_refs g'
  ≡ₚ group_refs x ++ owners st.
Proof.
  intros Hne Hv Hf. apply var_lookup in Hv, Hf.
  pose proof (owners_set from (Some (mk_write_group [] 0 None)) st _ Hf) as H1. cbn [slot_refs app] in H1.
  assert (Hv' : vars (set_var from (Some (mk_write_group [] 0 None)) st) !! v = Some (Some g)) by (cbn; by rewrite list_lookup_insert_ne).
  pose proof (owners_set v (Some x) _ _ Hv') as H2. cbn [slot_refs] in H2. change (group_refs (mk_write_group [] 0 None)) with (@nil nat) in H1.
  cbn [app] in H1. rewrite app_assoc, H2, <- app_assoc. apply Permutation_app_head. rewrite Permutation_app_comm. exact H1.
Qed.

Lemma sim_transfer v from x ax h st ast :
  sim st ast -> group_rel (a_made ast) x ax -> as_made h (a_made ast) ->
  counted h (owners (set_var v (Some x) (set_var from (Some (mk_write_group [] 0 None)) st))) ->
  sim (set_var v (Some x) (set_var from (Some (mk_write_group [] 0 None)) (set_objects h st)))
      (a_set v (Some ax) (a_set from (Some moved_from) ast)).
Proof.
  intros [H1 H2 H3 H4 H5] Hr Hm Hc. split; cbn; try done. apply Forall2_insert; [|done]. apply Forall2_insert; [done|]. apply moved_from_rel.
Qed.

Lemma sim_move_construct v g a st ast :
  sim st ast -> var st v = Some g -> group_rel (a_made ast) g a ->
  sim (add_var (move_group g).1 (set_var v (Some (move_group g).2) st)) (a_add a (a_set v (Some moved_from) ast)).
Proof.
  intros [H1 H2 H3 H4 H5] Hv Hr. apply var_lookup in Hv. destruct g as [items sz nt]. cbn [move_group fst snd m_items m_status_line_size m_after_write_notificator].
  pose proof (owners_set v (Some (mk_write_group [] 0 None)) st _ Hv) as Hp. split; cbn; try done.
  - eapply counted_perm; [|exact H1]. rewrite <- Hp. unfold owners. cbn. rewrite flat_map_app. cbn. rewrite app_nil_r.
    rewrite (app_assoc (user st)). apply Permutation_app_comm.
  - apply Forall2_app; [|by apply Forall2_cons]. apply Forall2_insert; [done|]. apply moved_from_rel.
Qed.

Lemma sim_make_shared d st ast :
  sim st ast -> sim (mk_state (<[next_object st := (d, 1%nat)]> (objects st)) (S (next_object st)) (next_object st :: user st)
    (vars st) (called st)) (mk_astate (a_made ast ++ [d]) (a_vars ast) (a_called ast)).
Proof.
  intros [H1 H2 H3 H4 H5].
  assert (Hnew : objects st !! next_object st = None).
  { destruct (objects st !! next_object st) as [[d' k]|] eqn:E; [|done]. apply H2, lookup_lt_Some in E. lia. }
  split; cbn [objects next_object vars called a_made a_vars a_called]; try done.
  - intros p. pose proof (H1 p) as Hp. unfold owners in *. cbn [user vars]. rewrite <- app_comm_cons, occ_cons. destruct (decide (p = next_object st)) as [->|Hne].
    + rewrite lookup_insert_eq, Nat.eqb_refl. rewrite Hnew in Hp. lia.
    + rewrite lookup_insert_ne by done. by rewrite (proj2 (Nat.eqb_neq _ _) Hne).
  - intros p d' k. destruct (decide (p = next_object st)) as [->|Hne].
    + rewrite lookup_insert_eq. intros [= <- _]. rewrite H3. by rewrite lookup_app_r, Nat.sub_diag.
    + rewrite lookup_insert_ne by done. intros E. apply lookup_app_l_Some. by eapply H2.
  - rewrite length_app, H3. cbn. lia.
  - clear -H4. induction H4 as [|x y l l' Hx Hl IH]; constructor; [by apply slot_rel_made|done].
Qed.

Lemma remove_one_perm p l : p ∈ l -> p :: remove_one p l ≡ₚ l.
Proof.
  induction l as [|q l IH]; intros Hp; [by apply elem_of_nil in Hp|]. cbn. destruct (p =? q)%nat eqn:E.
  - by apply Nat.eqb_eq in E as ->.
  - apply elem_of_cons in Hp as [->|Hp]; [by rewrite Nat.eqb_refl in E|]. rewrite Permutation_swap. by rewrite IH.
Qed.

Lemma sim_drop p st ast :
  sim st ast -> p ∈ user st -> sim (mk_state (release p (objects st)) (next_object st) (remove_one p (user st)) (vars st) (called st)) ast.
Proof.
  intros [H1 H2 H3 H4 H5] Hp. split; cbn; try done; [|by apply as_made_release]. apply counted_release. eapply counted_perm; [|exact H1].
  unfold owners. cbn. by rewrite <- (remove_one_perm p (user st) Hp) at 1.
Qed.

Lemma sim_make_group l items h aitems st ast :
  sim st ast -> make_items l (objects st) = Ok (items, h) -> forallb (held (user st)) l = true ->
  mapM (a_item (a_made ast)) l = Some aitems ->
  sim (add_var (group_of_items items) (set_objects h st)) (a_add (Buffers.write_group aitems) ast).
Proof.
  intros Hs E Hl Ea. pose proof Hs as [H1 H2 H3 H4 H5].
  pose proof (make_items_sim l (objects st) (user st) (owners st) (a_made ast) Hl) as Hm. rewrite E in Hm.
  destruct Hm as (aitems' & Ea' & Hf & Hc & Hm); [intros p Hp; apply elem_of_app; by left|done|done|].
  assert (aitems' = aitems) as -> by congruence. split; cbn; try done.
  - eapply counted_perm; [|exact Hc]. unfold owners. cbn. rewrite flat_map_app. cbn. rewrite app_nil_r, (app_assoc (user st)).
    apply Permutation_app_comm.
  - apply Forall2_app; [done|]. by apply Forall2_cons.
Qed.

Lemma sim_move_assign v from g g' a a' st ast :
  v <> from -> sim st ast -> var st v = Some g -> var st from = Some g' ->
  group_rel (a_made ast) g a -> group_rel (a_made ast) g' a' ->
  sim (add_called (m_after_write_notificator g)
        (set_var v (Some g') (set_var from (Some (mk_write_group [] 0 None)) (set_objects (destroy_items (m_items g) (objects st)) st))))
      (a_call (Buffers.m_after_write_notificator a) (a_set v (Some a') (a_set from (Some moved_from) ast))).
Proof.
  intros Hne Hs Hv Hf Hr Hr'. destruct Hr as (_ & _ & <-). apply sim_call.
  pose proof (owners_transfer v from g g' g' st Hne Hv Hf) as Hp. rewrite app_assoc, (Permutation_app_comm _ (group_refs g')) in Hp.
  apply Permutation_app_inv_l in Hp.
  destruct (destroy_items_ok (m_items g) (objects st)
    (owners (set_var v (Some g') (set_var from (Some (mk_write_group [] 0 None)) st))) (a_made ast)) as [Hc Hm].
  { eapply counted_perm; [symmetry; exact Hp|apply (sim_counted _ _ Hs)]. }
  { apply (sim_made _ _ Hs). }
  by apply sim_transfer.
Qed.

Lemma sim_merge v second g g' a a' st ast :
  v <> second -> sim st ast -> var st v = Some g -> var st second = Some g' ->
  group_rel (a_made ast) g a -> group_rel (a_made ast) g' a' ->
  sim (set_var v (Some (merge g g' (objects st)).1)
        (set_var second (Some (mk_write_group [] 0 None)) (set_objects (merge g g' (objects st)).2 st)))
      (a_set v (Some (Buffers.merge a a')) (a_set second (Some moved_from) ast)).
Proof.
  intros Hne Hs Hv Hf (Hi & Hz & _) (Hi' & _ & Hn'). rewrite merge_spec. cbn [fst snd].
  set (x := mk_write_group (m_items g ++ m_items g') (m_status_line_size g) (m_after_write_notificator g')).
  pose proof (owners_transfer v second g g' x st Hne Hv Hf) as Hp. apply sim_transfer; [done| |apply (sim_made _ _ Hs)|].
  - split_and!; try done. by apply Forall2_app.
  - eapply counted_perm; [|apply (sim_counted _ _ Hs)]. unfold x at 2, group_refs in Hp. cbn [m_items] in Hp.
    rewrite flat_map_app, <- app_assoc in Hp. apply Permutation_app_inv_l in Hp. rewrite Permutation_app_comm in Hp.
    by apply Permutation_app_inv_l in Hp.
Qed.

(** Every step of the program is a step on groups of octets. *)
Lemma exec_sim o st st' ast :
  sim st ast -> exec o st = Some st' -> exists ast', a_exec o ast = Some ast' /\ sim st' ast'.
Proof.
  intros Hs. destruct o as [d|p|l|v|v from|v n|v cb|v|v|v second|v]; cbn [exec a_exec].
  - intros [= <-]. eexists. split; [reflexivity|]. by apply sim_make_shared.
  - destruct (bool_decide (p ∈ user st)) eqn:E; [|done]. apply bool_decide_eq_true in E. intros [= <-]. eexists. split; [reflexivity|].
    by apply sim_drop.
  - destruct (forallb (held (user st)) l) eqn:Hl; [|done].
    pose proof (make_items_sim l (objects st) (user st) (owners st) (a_made ast) Hl) as Hm.
    destruct (make_items l (objects st)) as [[items h]|] eqn:E.
    + intros [= <-]. destruct Hm as (aitems & Ea & _); [intros p Hp; apply elem_of_app; by left|apply (sim_counted _ _ Hs)|apply (sim_made _ _ Hs)|].
      rewrite Ea. eexists. split; [reflexivity|]. by eapply sim_make_group.
    + intros [= <-]. rewrite Hm; [by exists ast|intros p Hp; apply elem_of_app; by left|apply (sim_counted _ _ Hs)|apply (sim_made _ _ Hs)].
  - destruct (var st v) as [g|] eqn:Hv; [|done]. destruct (sim_var _ _ _ _ Hs Hv) as (a & Ea & Hr). rewrite Ea. cbn.
    intros [= <-]. eexists. split; [reflexivity|]. by apply sim_move_construct.
  - destruct (v =? from)%nat eqn:En; [done|]. apply Nat.eqb_neq in En.
    destruct (var st v) as [g|] eqn:Hv; [|done]. destruct (var st from) as [g'|] eqn:Hf; [|done].
    destruct (sim_var _ _ _ _ Hs Hv) as (a & Ea & Hr), (sim_var _ _ _ _ Hs Hf) as (a' & Ea' & Hr'). rewrite Ea, Ea'. cbn.
    intros [= <-]. eexists. split; [reflexivity|]. destruct g' as [it' sz' nt']. by apply sim_move_assign.
  - destruct (var st v) as [g|] eqn:Hv; [|done]. destruct (sim_var _ _ _ _ Hs Hv) as (a & Ea & Hr). rewrite Ea. cbn.
    destruct (status_line_size_sim n st ast v g a Hs Hv Hr) as (r & -> & Hx). cbn. intros [= <-]. eexists. split; [reflexivity|].
    destruct r as [g'|], (Buffers.set_status_line_size n a) as [a'|]; try done. destruct Hx as [Hg Hr']. by eapply sim_same_refs.
  - destruct (var st v) as [g|] eqn:Hv; [|done]. destruct (sim_var _ _ _ _ Hs Hv) as (a & Ea & Hr). rewrite Ea. cbn.
    intros [= <-]. eexists. split; [reflexivity|]. eapply sim_same_refs; [done|done|done|]. destruct Hr as (? & ? & ?). by split_and!.
  - destruct (var st v) as [g|] eqn:Hv; [|done]. destruct (sim_var _ _ _ _ Hs Hv) as (a & Ea & Hr). rewrite Ea. cbn.
    intros [= <-]. eexists. split; [reflexivity|]. destruct Hr as (? & ? & ->). apply sim_call.
    eapply sim_same_refs; [done|done|done|]. by split_and!.
  - destruct (var st v) as [g|] eqn:Hv; [|done]. destruct (sim_var _ _ _ _ Hs Hv) as (a & Ea & Hr). rewrite Ea. cbn.
    intros [= <-]. eexists. split; [reflexivity|]. by apply sim_release.
  - destruct (v =? second)%nat eqn:En; [done|]. apply Nat.eqb_neq in En.
    destruct (var st v) as [g|] eqn:Hv; [|done]. destruct (var st second) as [g'|] eqn:Hf; [|done].
    destruct (sim_var _ _ _ _ Hs Hv) as (a & Ea & Hr), (sim_var _ _ _ _ Hs Hf) as (a' & Ea' & Hr'). rewrite Ea, Ea'.
    pose proof (sim_merge v second g g' a a' st ast En Hs Hv Hf Hr Hr') as Hm. destruct g' as [it' sz' nt'].
    cbn [move_group m_items m_status_line_size m_after_write_notificator mbind option_bind].
    destruct (merge g (mk_write_group it' sz' nt') (objects st)) as [x h]. intros [= <-]. eexists. split; [reflexivity|]. exact Hm.
  - destruct (var st v) as [g|] eqn:Hv; [|done]. destruct (sim_var _ _ _ _ Hs Hv) as (a & Ea & Hr). rewrite Ea. cbn.
    intros [= <-]. eexists. split; [reflexivity|]. destruct Hr as (_ & _ & <-). apply sim_call. by apply sim_release.
Qed.

(** ** The theorem *)

(** The calls a program may make: on variables that are there, with pointers it holds. *)
Definition allowed (st : state) (o : op) : bool :=
  let there v := match var st v with Some _ => true | None => false end in
  match o with
  | make_shared _ => true
  | drop p => bool_decide (p ∈ user st)
  | make_group l => forallb (held (user st)) l
  | move_construct v | call_status_line_size v _ | call_after_write_notificator v _ | call_invoke v | call_reset v | destroy v =>
      there v
  | move_assign v from | call_merge v from => negb (v =? from)%nat && there v && there from
  end.

Lemma exec_defined o st ast : sim st ast -> allowed st o = true -> exists st', exec o st = Some st'.
Proof.
  intros Hs. destruct o as [d|p|l|v|v from|v n|v cb|v|v|v second|v]; cbn [exec allowed].
  - by eexists.
  - intros ->. by eexists.
  - intros ->. destruct (make_items l (objects st)) as [[items h]|]; by eexists.
  - destruct (var st v) as [g|]; [|done]. by eexists.
  - destruct (v =? from)%nat; [done|]. destruct (var st v) as [g|]; [|done]. destruct (var st from) as [g'|]; [|done]. by eexists.
  - destruct (var st v) as [g|] eqn:Hv; [|done]. intros _. destruct (sim_var _ _ _ _ Hs Hv) as (a & _ & Hr).
    destruct (status_line_size_sim n st ast v g a Hs Hv Hr) as (r & E & _). cbn. rewrite E. by eexists.
  - destruct (var st v) as [g|]; [|done]. by eexists.
  - destruct (var st v) as [g|]; [|done]. by eexists.
  - destruct (var st v) as [g|]; [|done]. by eexists.
  - destruct (v =? second)%nat; [done|]. destruct (var st v) as [g|]; [|done]. destruct (var st second) as [g'|]; [|done].
    cbn -[merge]. rewrite merge_spec. by eexists.
  - destruct (var st v) as [g|]; [|done]. by eexists.
Qed.

Lemma sim_initial : sim initial a_initial.
Proof. by split. Qed.

Lemma run_sim os st st' ast : sim st ast -> run os st = Some st' -> exists ast', a_run os ast = Some ast' /\ sim st' ast'.
Proof.
  revert st ast. induction os as [|o os IH]; intros st ast Hs; cbn [run a_run]; [intros [= <-]; by exists ast|].
  destruct (exec o st) as [st1|] eqn:E; [|done]. cbn. intros Hr. destruct (exec_sim o st st1 ast Hs E) as (ast1 & -> & Hs1). cbn.
  by eapply IH.
Qed.

(** What the code reads from an item of a group. *)
Definition item_agrees (h : heap) (i : item) (a : Buffers.writable_item_t) : Prop :=
  item_size h i = Some (Buffers.item_size a) /\
  match a with
  | Buffers.trivial_write_operation d => m_write_type i = trivial_write_operation /\ buf static h i = Some d
  | Buffers.file_write_operation f n => m_write_type i = file_write_operation /\ sendfile_operation i = Some (f, n)
  end.

Definition group_agrees (h : heap) (g : option write_group) (a : option Buffers.write_group_t) : Prop :=
  match g, a with
  | Some g, Some a =>
      Forall2 (item_agrees h) (m_items g) (Buffers.m_items a) /\ m_status_line_size g = Buffers.m_status_line_size a /\
      m_after_write_notificator g = Buffers.m_after_write_notificator a
  | None, None => True
  | _, _ => False
  end.

Lemma sim_agrees st ast : sim st ast -> Forall2 (group_agrees (objects st)) (vars st) (a_vars ast).
Proof.
  intros Hs. apply Forall2_same_length_lookup_2; [by eapply Forall2_length, sim_vars|]. intros v g a Hg Ha.
  pose proof (Forall2_lookup_lr _ _ _ _ _ _ (sim_vars _ _ Hs) Hg Ha) as Hr. destruct g as [g|], a as [a|]; try done.
  destruct Hr as (Hi & Hz & Hn). split_and!; try done.
  apply Forall2_same_length_lookup_2; [by eapply Forall2_length|]. intros k i ai Hk Hka.
  pose proof (Forall2_lookup_lr _ _ _ _ _ _ Hi Hk Hka) as Hx.
  eapply item_shows; [apply (sim_counted _ _ Hs)|apply (sim_made _ _ Hs)| |done].
  eapply refs_owned; [|by eapply list_elem_of_lookup_2]. unfold var. by rewrite Hg.
Qed.

Lemma no_owner_no_object st ast : sim st ast -> user st = [] -> Forall (eq None) (vars st) -> objects st = ∅.
Proof.
  intros Hs Hu Hv. apply map_eq. intros p. rewrite lookup_empty. pose proof (sim_counted _ _ Hs p) as Hp.
  assert (Ho : owners st = []).
  { unfold owners. rewrite Hu. cbn. clear -Hv. induction Hv as [|x l <- Hl IH]; [done|]. exact IH. }
  rewrite Ho in Hp. destruct (objects st !! p) as [[d k]|]; [cbn in Hp; lia|done].
Qed.

(** C19. Groups of stored items implement groups of octets.  For every program that makes,
    moves, merges, resets and destroys groups and that shares objects with them: the same
    calls on groups whose items are octets go through, the same notificators are called in
    the same order, and every group that is there shows the same: [write_type()], [size()],
    [buf()] and [sendfile_operation()] of its items are defined and give what the items
    were made of, even if the user has dropped its pointers.  No further allowed call is
    undefined, and when the user's pointers and the groups are gone, so are all objects. *)
Theorem groups_implemented (os : list op) (st : state) :
  run os initial = Some st ->
  exists ast, a_run os a_initial = Some ast /\ called st = a_called ast /\
    Forall2 (group_agrees (objects st)) (vars st) (a_vars ast) /\
    (forall o, allowed st o = true -> exists st', exec o st = Some st') /\
    (user st = [] -> Forall (eq None) (vars st) -> objects st = ∅).
Proof.
  intros Hr. destruct (run_sim os initial st a_initial sim_initial Hr) as (ast & Ha & Hs). exists ast.
  split_and!; [done|apply (sim_called _ _ Hs)|by apply sim_agrees|intros o; by apply (exec_defined o st ast)|by eapply no_owner_no_object].
Qed.

End Static.

(** ** A program *)

(** A shared body, dropped by the user while two groups hold it; they are merged and sent. *)
Definition sample_program : list op :=
  [make_shared (bs "body"); make_group [from_c_string (bs "HTTP/1.1 200 OK"); from_shared_ptr (Some 0%nat)];
   make_group [from_shared_ptr (Some 0%nat); from_sendfile 3 100]; drop 0; call_status_line_size 0 8;
   call_after_write_notificator 1 42; call_merge 0 1; move_construct 0; destroy 0; destroy 1; call_invoke 2; destroy 2].

Definition sample_end : state := mk_state ∅ 1 [] [None; None; None] [42].

Lemma groups_implemented_witness :
  exists ast, a_run (fun _ => []) sample_program a_initial = Some ast /\ a_called ast = [42] /\ objects sample_end = ∅.
Proof.
  destruct (groups_implemented (fun _ => []) sample_program sample_end) as (ast & Ha & Hc & _ & _ & Hf).
  - vm_compute. reflexivity.
  - exists ast. split; [exact Ha|]. split; [by rewrite <- Hc|]. apply Hf; [reflexivity|repeat constructor].
Defined.

End GroupRefinement.
