(* ===== verification/HeaderAccess.v ===== *)
(** * The rest of the header classes

    The members of [http_header_fields_t], [http_header_common_t], [http_status_line_t],
    [http_response_header_t] and [http_request_header_t] (http_headers.hpp) that the other
    files do not use: access to all fields, exchange of containers, and the setters.  What
    they mean for the header on the wire is stated at the end. *)

From S2P Require Import Prelude HttpFields HttpHeaders Coordinator HttpResponse Router HttpInput.

Module HeaderAccess.
Import Fields Status Response RequestTarget RequestHeader HttpMethod Decimal.

(** ** The container *)

(** Exchanges the contents of two containers. *)
Definition swap_fields (a b : http_header_fields_t) : http_header_fields_t * http_header_fields_t := (b, a).

(** The value as a view; [get_field] throws when there is no field. *)
Definition value_of (name : list byte) (h : http_header_fields_t) : outcome (list byte) := get_field name h.
Definition value_of_id (id : HttpField.http_field_t) (h : http_header_fields_t) : outcome (list byte) := get_field_by_id id h.

(** The lambda has a state of its own. *)
Definition for_each_field {S} (lambda : http_header_field_t -> S -> S) (h : http_header_fields_t) (s : S) : S :=
  fold_left (fun s f => lambda f s) h s.

Definition fields_count (h : http_header_fields_t) : Z := Z.of_nat (length h).

(** ** The common part *)

Definition http_major (v : Z) (h : http_response_header_t) : http_response_header_t :=
  mk_response_header v (m_http_minor h) (m_content_length h) (m_connection h) (m_status_line h) (m_fields h).
Definition http_minor (v : Z) (h : http_response_header_t) : http_response_header_t :=
  mk_response_header (m_http_major h) v (m_content_length h) (m_connection h) (m_status_line h) (m_fields h).

(** ** The status line *)

Definition default_status_line : http_status_line_t := mk_status_line (raw_code ok) [].
Definition line_status_code (c : http_status_code_t) (l : http_status_line_t) : http_status_line_t :=
  mk_status_line c (m_reason_phrase l).
Definition line_reason_phrase (r : list byte) (l : http_status_line_t) : http_status_line_t :=
  mk_status_line (m_status_code l) r.

Definition set_status_code (c : http_status_code_t) (h : http_response_header_t) : http_response_header_t :=
  with_status_line (line_status_code c (m_status_line h)) h.
Definition set_reason_phrase (r : list byte) (h : http_response_header_t) : http_response_header_t :=
  with_status_line (line_reason_phrase r (m_status_line h)) h.

(** ** The request *)

Section Request.
Context `{HttpParserCodes}.

(** [http_request_header_t( method, request_target )] *)
Definition request_header_of (method : http_method_id_t) (target : list byte) : http_request_header_t :=
  with_target (request_target target) (with_method method request_header).

End Request.

(** ** What they mean *)

Lemma for_each_field_app {S} (lambda : http_header_field_t -> S -> S) a b s :
  for_each_field lambda (a ++ b) s = for_each_field lambda b (for_each_field lambda a s).
Proof. apply fold_left_app. Qed.

Lemma for_each_field_visits h seen : for_each_field (fun f seen => seen ++ [f]) h seen = seen ++ h.
Proof.
  induction h as [|f h IH] using rev_ind; [by rewrite app_nil_r|]. by rewrite for_each_field_app, IH, app_assoc.
Qed.

(** Adding a field makes the container one longer, and the new field is visited last. *)
Lemma add_field_visited n v h :
  fields_count (add_field n v h) = fields_count h + 1 /\
  for_each_field (fun f _ => Some f) (add_field n v h) None = Some (field_by_name n v).
Proof.
  unfold add_field, fields_count. rewrite length_app, for_each_field_app. split; [cbn; lia|done].
Qed.

(** The value of a field that is there is the value of the first one of that name. *)
Lemma value_of_found n h v : value_of n h = Ok v <-> try_get_field n h = Some v.
Proof.
  unfold value_of, get_field, try_get_field. destruct (cfind n h) as [f|]; [|done]. split; by intros [= ->].
Qed.

(** A version above nine is not a number any more. *)
Lemma version_ten_is_a_colon h :
  exists rest, status_line_string (http_major 10 h) = bs "HTTP/:." ++ rest.
Proof. eexists. reflexivity. Qed.

End HeaderAccess.
