(* ===== verification/Dialogue.v ===== *)
(** * Dialogues, from messages to octets

    Module [Session]: what a connection of [Connection] does when it takes one request at a
    time, as is the default, and its handler answers, refuses or throws before it returns; the
    way of a request from the octets read to the octets written.

    Module [Dialogue]: a client that sends its requests one after the other, each in pieces of
    its own choice, and reads the answer before it goes on.  The connection hands exactly its
    requests to the handler and writes exactly the answers, in order; it closes after the first
    request whose answer says so or that is refused or fails. *)

From S2P Require Import Prelude HttpFields HttpHeaders Coordinator HttpResponse Router HttpInput HttpParserTheory HttpInputTheorems OutputCtx Effects Connection.

Module Session.
Import Buffers OutputCtx HttpMethod Limits ChunkedInput RequestHeader ParserCtx HttpParser Connection.
Import Coordinator(response_coordinator_t, response_output_flags_t, mk_flags, final_parts, not_final_parts,
  connection_close, connection_keepalive, response_connection_attr_t, mk_coordinator, mk_table, response_context_t, mk_context,
  initial_flags).

Lemma bind_eq {S A B} (m : Effects.M S A) (k : A -> Effects.M S B) c a c1 r :
  m c = Ret a c1 -> k a c1 = r -> bind m k c = r.
Proof. unfold bind. by intros ->. Qed.
Lemma catch_eq {S} (m h : Effects.M S unit) c c1 : m c = Ret tt c1 -> catch m h c = Ret tt c1.
Proof. unfold catch. by intros ->. Qed.
Lemma catch_raise {S} (m h : Effects.M S unit) c c1 r : m c = Raise c1 -> h c1 = r -> catch m h c = r.
Proof. unfold catch. by intros ->. Qed.

Lemma noexcept_eq {S} (m : Effects.M S unit) c c1 : m c = Ret tt c1 -> noexcept m c = Ret tt c1.
Proof. unfold noexcept. by intros ->. Qed.

(** Every call returns or throws a std::exception. *)
Definition surely : tolerance := mk_tolerance False False.

Lemma wp_catches {S} (m h : Effects.M S unit) Q E c : wp surely m Q (wp surely h Q E) c -> wp surely (catch m h) Q E c.
Proof. unfold wp, catch. by destruct (m c); try intros []. Qed.
Lemma wp_within {S} (m : Effects.M S unit) Q E c : wp surely m Q (fun _ => False) c -> wp surely (noexcept m) Q E c.
Proof. unfold wp, noexcept. by destruct (m c); try intros []. Qed.

(** A primitive call. *)
Ltac prim := eapply bind_eq; [reflexivity|cbv beta].

Section View.
Context {P : HttpParser}.

(** What matters of a connection; the timer and the times are left out. *)
Record view_t := mk_view {
  v_open : bool;
  v_parser : http_parser;
  v_ctx : http_parser_ctx_t;
  v_buf : list byte;
  v_stage : connection_upgrade_stage_t;
  v_read_running : bool;
  v_octx : write_group_output_ctx_t;
  v_init_read : bool;
  v_coordinator : response_coordinator_t;
  v_reading : bool;
  v_writing : bool;
  v_outside : nat;
  v_trace : list event
}.

Definition view (c : conn) : view_t :=
  mk_view (m_socket_open c) (m_parser c) (m_parser_ctx c) (m_buf c) (m_connection_upgrade_stage c)
    (m_read_operation_is_running c) (m_write_output_ctx c) (m_init_read_after_this_write c) (m_response_coordinator c)
    (reading c) (writing c) (outside_calls c) (trace c).

Lemma wp_returns {A} (m : Effects.M conn A) Q E c a c' : m c = Ret a c' -> Q a c' -> wp surely m Q E c.
Proof. unfold wp. by intros ->. Qed.
Lemma wp_gets {A B} (f : conn -> A) (k : A -> Effects.M conn B) Q E c : wp surely (k (f c)) Q E c -> wp surely (bind (gets f) k) Q E c.
Proof. done. Qed.
Lemma wp_upd {B} f (k : unit -> Effects.M conn B) Q E c : wp surely (k tt) Q E (f c) -> wp surely (bind (upd f) k) Q E c.
Proof. done. Qed.

End View.

Ltac returns := eapply wp_returns; [reflexivity|cbv beta].

(** A connection of which the view is known. *)
Ltac explicit c :=
  destruct c; intros Hview; unfold view in Hview; injection Hview; clear Hview; intros; subst.

Section Session.
Context {P : HttpParser} `{HttpParserCodes} {U : UserCode} {F : SendFile} (settings : connection_settings_t).

(** The coordinator with its one place free, taken, and taken with an answer. *)
Definition free_place (k : Z) (closed : bool) (ctx : response_context_t) : response_coordinator_t :=
  mk_coordinator k closed (mk_table [ctx] 0 0).
Definition taken_place (k : Z) (id : Z) (gs : list write_group_t) (fl : response_output_flags_t) : response_coordinator_t :=
  mk_coordinator k false (mk_table [mk_context id gs fl] 0 1).

(** ** The coordinator *)

Lemma register_free k ctx :
  Coordinator.m_write_groups ctx = [] ->
  Coordinator.register_new_request (free_place k false ctx) = Ok (taken_place (wrap 32 (k + 1)) k [] initial_flags, k).
Proof. destruct ctx as [i gs fl]. cbn. by intros ->. Qed.

Lemma append_taken k id fl g :
  Coordinator.append_response id fl g (taken_place k id [] initial_flags) = Ok (taken_place k id [g] fl).
Proof.
  unfold Coordinator.append_response, Coordinator.get_by_req_id, Coordinator.get_real_index. cbn. rewrite Z.ltb_irrefl. cbn.
  rewrite Z.sub_diag. reflexivity.
Qed.

Definition closes (cn : response_connection_attr_t) : bool := match cn with connection_close => true | connection_keepalive => false end.

Lemma pop_answer k id g cn :
  Coordinator.pop_ready_buffers (taken_place k id [g] (mk_flags final_parts cn))
  = Ok (free_place k (closes cn) (mk_context id [] (mk_flags final_parts cn)), Some (g, id)).
Proof. by destruct cn. Qed.

(** ** Writing an answer *)

(** Answers whose items go out in one write. *)
Record one_write (g : write_group_t) : Prop := {
  ow_trivial : Forall (fun i => exists d, i = trivial_write_operation d) (m_items g);
  ow_some : m_items g <> [];
  ow_few : (length (m_items g) <= Nat.min (asio_max_iov_len settings) 64)%nat;
  ow_notificator : m_after_write_notificator g = None
}.

Definition items_data (g : write_group_t) : list (list byte) := map item_bytes (m_items g).
Definition total_size (l : list (list byte)) : Z := fold_left (fun n d => wrap 64 (n + Z.of_nat (length d))) l 0.

Lemma gather_all room l :
  Forall (fun i => exists d, i = trivial_write_operation d) l -> (length l <= room)%nat -> gather room l = map item_bytes l.
Proof.
  intros Hl. revert room. induction Hl as [|i l (d & ->) Hl IH]; intros [|room] Hr; cbn in *; try done; [lia|].
  rewrite IH by lia. done.
Qed.

Lemma extract_one g :
  one_write g ->
  extract_next_write_operation (asio_max_iov_len settings) (mk_octx (Some g) 0)
  = Some (mk_octx (Some g) (length (m_items g)), trivial_write (items_data g) (total_size (items_data g))) /\
  extract_next_write_operation (asio_max_iov_len settings) (mk_octx (Some g) (length (m_items g)))
  = Some (mk_octx (Some g) (length (m_items g)), none_write_operation).
Proof.
  intros [Ht Hs Hf _]. split.
  - unfold extract_next_write_operation, prepare_trivial_buffers_wo. cbn [m_current_wg m_next_writable_item_index].
    destruct (m_items g) as [|i l] eqn:E; [done|]. pose proof Ht as Ht'. apply Forall_cons_iff in Ht' as [(d & ->) _].
    cbn [lookup list_lookup]. change (drop 0 (trivial_write_operation d :: l)) with (trivial_write_operation d :: l).
    unfold max_iov_len. rewrite gather_all by (done || lia). unfold items_data. rewrite E. by rewrite length_map.
  - unfold extract_next_write_operation. cbn [m_current_wg m_next_writable_item_index]. by rewrite lookup_ge_None_2.
Qed.

(** The trace of starting to write. *)
Definition starts (cn : response_connection_attr_t) (g : write_group_t) : list event :=
  (if closes cn then [socket_cancelled] else []) ++ [started (trivial_write (items_data g) (total_size (items_data g)))].

Lemma handle_ctx_starts self c p ctx buf st rr ir k id cn g rd n tr :
  one_write g ->
  view c = mk_view true p ctx buf st rr (mk_octx (Some g) 0) ir (free_place k (closes cn) (mk_context id [] (mk_flags final_parts cn)))
             rd false n tr ->
  exists c', enter settings self call_handle_current_write_ctx c = Ret tt c' /\
    view c' = mk_view true p ctx buf st rr (mk_octx (Some g) (length (m_items g))) ir
                (free_place k (closes cn) (mk_context id [] (mk_flags final_parts cn))) rd true n (tr ++ starts cn g).
Proof.
  intros Hg. explicit c. destruct (extract_one g Hg) as [E _]. destruct cn; eexists; split.
  - cbn [enter]. apply noexcept_eq, catch_eq. prim. cbn [m_write_output_ctx]. rewrite E. prim. reflexivity.
  - reflexivity.
  - cbn [enter]. apply noexcept_eq, catch_eq. prim. cbn [m_write_output_ctx]. rewrite E. prim. reflexivity.
  - cbn. by rewrite <- app_assoc.
Qed.

(** From a taken place without an answer to a write under way. *)
Definition answered (id : Z) (cn : response_connection_attr_t) (g : write_group_t) : list event :=
  appended id (mk_flags final_parts cn) g :: popped g :: starts cn g.

Lemma write_parts_starts d c p ctx buf rr ir k id cn g rd n tr :
  one_write g -> status_line_in_first_item g = true ->
  view c = mk_view true p ctx buf no_upgrade rr initial_ctx ir (taken_place k id [] initial_flags) rd false n tr ->
  exists c', write_response_parts_impl settings (run_entry settings (S d)) id (mk_flags final_parts cn) g c = Ret tt c' /\
    view c' = mk_view true p ctx buf no_upgrade rr (mk_octx (Some g) (length (m_items g))) true
                (free_place k (closes cn) (mk_context id [] (mk_flags final_parts cn))) rd true n (tr ++ answered id cn g).
Proof.
  intros Hg Hs. explicit c.
  match goal with |- exists c', write_response_parts_impl _ _ _ _ _ ?c = _ /\ _ => set (c0 := c) end.
  set (co := free_place k (closes cn) (mk_context id [] (mk_flags final_parts cn))).
  set (c1 := set_write_output_ctx (mk_octx (Some g) 0)
    (set_trace ((trace c0 ++ [appended id (mk_flags final_parts cn) g]) ++ [popped g])
       (set_init_read_after_this_write true (set_response_coordinator co c0)))).
  destruct (handle_ctx_starts (run_entry settings d) c1 p ctx buf no_upgrade rr true k id cn g rd n
    ((tr ++ [appended id (mk_flags final_parts cn) g]) ++ [popped g]) Hg eq_refl) as (c' & Hc & Hv).
  exists c'. split; [|rewrite Hv; unfold answered; by rewrite <- !app_assoc].
  unfold write_response_parts_impl. prim. cbn [m_socket_open]. prim. prim. prim. cbn [coordinator_closed m_response_coordinator].
  change (coordinator_closed c0) with false. cbv iota.
  eapply bind_eq. { unfold append_to_coordinator. prim. change (m_response_coordinator c0) with (taken_place k id [] initial_flags). rewrite append_taken. reflexivity. }
  unfold init_write_if_necessary. prim. prim. prim. cbv iota.
  unfold init_write. prim. prim. eapply bind_eq.
  { unfold lift. cbn [m_response_coordinator set_response_coordinator set_trace]. rewrite pop_answer. reflexivity. }
  cbv beta iota. prim. prim. prim. rewrite Hs. prim. prim. prim. exact Hc.
Qed.

(** ** A request *)

(** What the handler does with a request, as the connection sees it. *)
Inductive reply := answers (cn : response_connection_attr_t) (g : write_group_t) | refuses | throws.

Definition replies (n : nat) (r : request_t) (a : reply) : Prop :=
  make_extra_data n = None /\
  on_request (S n) r
  = match a with
    | answers cn g => ([op_write_response_parts (m_request_id r) (mk_flags final_parts cn) g], inl request_accepted)
    | refuses => ([], inl request_not_handled)
    | throws => ([], inr std_exception)
    end.

(** The response to a request that was not handled. *)
Definition not_implemented : write_group_t := write_group create_not_implemented_resp.

Definition good (a : reply) : Prop :=
  match a with
  | answers _ g => one_write g /\ status_line_in_first_item g = true
  | refuses => one_write not_implemented
  | throws => True
  end.

(** The request made of a complete message, and the context it leaves. *)
Definition request_of (id : Z) (ctx : http_parser_ctx_t) : request_t :=
  mk_request id (m_header ctx) (m_body ctx) (snd (make_chunked_input_info_if_necessary ctx)).
Definition after_request (ctx : http_parser_ctx_t) : http_parser_ctx_t :=
  let ctx' := fst (make_chunked_input_info_if_necessary ctx) in set_body [] (set_header (moved_from (m_header ctx')) ctx').

(** Up to the call of the handler. *)
Definition accepted_request (id : Z) (ctx : http_parser_ctx_t) : list event := [registered; handled (request_of id ctx)].

(** The calls the handler makes, and what it answers. *)
Definition calls_of (id : Z) (a : reply) : list conn_op :=
  match a with answers cn g => [op_write_response_parts id (mk_flags final_parts cn) g] | _ => [] end.
Definition status_of (a : reply) : request_handling_status_t + exn :=
  match a with answers _ _ => inl request_accepted | refuses => inl request_not_handled | throws => inr std_exception end.

Lemma handler_call self c p ctx buf st rr oc ir co id rd wr n tr a Q E :
  replies n (request_of id ctx) a ->
  (forall c1, view c1 = mk_view true p (after_request ctx) buf st rr oc ir co rd wr (S (S n)) (tr ++ [handled (request_of id ctx)]) ->
     wp surely (self (call_user (calls_of id a))) (fun _ => match status_of a with inl s => Q s | inr _ => E end) E c1) ->
  view c = mk_view true p ctx buf st rr oc ir co rd wr n tr ->
  wp surely (call_request_handler self id) Q E c.
Proof.
  intros [Hx Ho] Hk. explicit c. unfold call_request_handler. apply wp_gets. cbn [m_parser_ctx].
  unfold request_of, after_request in *. destruct (make_chunked_input_info_if_necessary ctx) as [ctx' info] eqn:Ei. cbn [fst snd] in *.
  apply wp_upd. apply wp_bind. returns. cbn [outside_calls set_parser_ctx]. rewrite Hx. apply wp_bind. returns.
  apply wp_bind. returns. apply wp_bind. returns. cbn [outside_calls set_parser_ctx set_outside_calls set_trace]. rewrite Ho.
  destruct a; cbn [calls_of status_of m_request_id] in *; apply wp_bind; (eapply wp_mono; [apply Hk; reflexivity|done|done]).
Qed.

(** What is left to do when the handler is called. *)
Lemma handler_called self c p ctx buf rr ir k id fl rd n tr a Q E :
  replies n (request_of k ctx) a -> parser_upgrade p = false ->
  (forall c1, view c1 = mk_view true p (after_request ctx) buf no_upgrade rr initial_ctx ir
                (taken_place (wrap 32 (k + 1)) k [] initial_flags) rd false (S (S n)) (tr ++ accepted_request k ctx) ->
     let E := wp surely (trigger_error_and_close self) Q E in
     match a with
     | answers cn g =>
         wp surely (self (call_user [op_write_response_parts k (mk_flags final_parts cn) g])) (fun _ =>
           wp surely (do more <- gets (fun c => Coordinator.is_able_to_get_more_messages (m_response_coordinator c));
                     if more then self call_wait_for_http_message else ret tt) Q E) E c1
     | refuses => wp surely (self (call_user [])) (fun _ => wp surely (refuse_request settings self k) Q E) E c1
     | throws => wp surely (self (call_user [])) (fun _ => E) E c1
     end) ->
  view c = mk_view true p ctx buf no_upgrade rr initial_ctx ir (free_place k false (mk_context id [] fl)) rd false n tr ->
  wp surely (on_request_message_complete settings self) Q E c.
Proof.
  intros Ha Hu Hk. explicit c. unfold on_request_message_complete. apply wp_catches, wp_gets. cbn [m_parser]. rewrite Hu.
  apply wp_bind. returns. apply wp_gets. cbn [m_connection_upgrade_stage]. rewrite bool_decide_eq_true_2 by done. apply wp_bind.
  eapply wp_returns.
  { unfold register_request. prim. eapply bind_eq.
    - unfold lift. cbn [m_response_coordinator]. rewrite register_free by done. reflexivity.
    - reflexivity. }
  cbv beta. apply wp_bind. returns. apply wp_bind.
  eapply handler_call; [done| |reflexivity]. intros c1 Hc1. cbn in Hc1. rewrite <- app_assoc in Hc1. apply Hk in Hc1. clear Hk.
  destruct a; exact Hc1.
Qed.

(** ** Closing *)

Definition closing : list event := [closed; noticed notice_closed].

(** Whatever the listener throws. *)
Lemma listener_suppressed x c (Q : unit -> conn -> Prop) E :
  Q tt (set_outside_calls (S (outside_calls c)) (set_trace (trace c ++ [noticed x]) c)) ->
  wp surely (catch_all (call_state_listener x) (ret tt)) Q E c.
Proof.
  intros Hq. unfold call_state_listener, outside, log, wp, catch_all, bind, gets, upd, ret. cbn [outside_calls set_trace].
  destruct (state_changed _ _) as [[]|]; exact Hq.
Qed.

Lemma closes_down self c op p ctx buf st rr oc ir co rd wr n tr (Q : unit -> conn -> Prop) E :
  snd (Coordinator.reset co) = [] ->
  (forall c1, view c1 = mk_view false p ctx buf st rr oc ir (fst (Coordinator.reset co)) rd wr (S n) (tr ++ closing) -> Q tt c1) ->
  view c = mk_view op p ctx buf st rr oc ir co rd wr n tr ->
  wp surely (close self) Q E c.
Proof.
  intros Hco Hq. explicit c. unfold close. apply wp_within, wp_upd, wp_upd. apply wp_bind. returns. apply wp_bind.
  unfold reset_coordinator. apply wp_gets.
  cbn [m_response_coordinator set_socket_open set_trace set_current_timeout_cb set_timer].
  destruct (Coordinator.reset co) as [co' cbs]. cbn [snd] in Hco. subst cbs. apply wp_upd. returns.
  apply listener_suppressed. apply Hq. cbn. by rewrite <- app_assoc.
Qed.

(** ** Waiting for the next request *)

Lemma guard_read_returns c : exists c', guard_read_operation settings c = Ret tt c' /\ view c' = view c.
Proof.
  unfold guard_read_operation, bind, gets. destruct (coordinator_empty c); eexists; (split; [reflexivity|by destruct c]).
Qed.

Lemma waits self c op p ctx st rr oc ir co wr n tr (Q : unit -> conn -> Prop) E :
  (forall c1, view c1 = mk_view op http_parser_init (ParserCtx.reset ctx) [] st true oc ir co true wr n tr -> Q tt c1) ->
  view c = mk_view op p ctx [] st rr oc ir co rr wr n tr ->
  wp surely (wait_for_http_message settings self) Q E c.
Proof.
  intros Hq. explicit c. unfold wait_for_http_message. apply wp_bind. unfold reset_parser. apply wp_upd. returns. apply wp_bind.
  match goal with |- wp _ (guard_read_operation _) _ _ ?c => destruct (guard_read_returns c) as (c1 & Hc1 & Hv1) end.
  eapply wp_returns; [exact Hc1|]. cbv beta. clear Hc1. revert Hv1. cbn. explicit c1.
  apply wp_gets. cbn [m_buf]. unfold consume_message. apply wp_gets. cbn [m_read_operation_is_running].
  match goal with |- context [if ?r then _ else _] => destruct r end; by apply Hq.
Qed.

(** Nothing to write next. *)
Lemma nothing_next self c p ctx buf rr ir k cx rd wr n tr (Q : unit -> conn -> Prop) E :
  Coordinator.m_write_groups cx = [] ->
  (forall c1, view c1 = mk_view true p ctx buf no_upgrade rr initial_ctx ir (free_place k false cx) rd wr n tr -> Q tt c1) ->
  view c = mk_view true p ctx buf no_upgrade rr initial_ctx ir (free_place k false cx) rd wr n tr ->
  wp surely (init_write_if_necessary settings self) Q E c.
Proof.
  intros Hcx Hq. explicit c. unfold init_write_if_necessary. apply wp_gets. apply wp_bind. returns. apply wp_gets.
  cbn [is_transmitting m_write_output_ctx transmitting initial_ctx m_current_wg]. unfold init_write.
  apply wp_gets, wp_gets, wp_bind. cbn [m_response_coordinator].
  eapply (wp_returns _ _ _ _ (free_place k false cx, None)); [reflexivity|]. cbv beta iota. apply wp_upd.
  unfold handle_nothing_to_write. apply wp_gets. cbv beta. cbn [coordinator_closed m_response_coordinator set_response_coordinator].
  match goal with |- context [if ?b then _ else _] => change b with false end. cbv iota. apply wp_gets.
  match goal with |- context [if ?b then _ else _] => change b with true end. cbv iota.
  match goal with |- wp _ (guard_read_operation _) _ _ ?c => destruct (guard_read_returns c) as (c1 & Hc1 & Hv1) end.
  eapply wp_returns; [exact Hc1|]. apply Hq. by rewrite Hv1.
Qed.

Definition is_over (c : conn) (rd : bool) (tr : list event) : Prop :=
  m_socket_open c = false /\ reading c = rd /\ writing c = false /\ trace c = tr.

(** The write has ended. *)
Lemma write_over d c p ctx rr k cn cx g n tr (Q : unit -> conn -> Prop) E :
  one_write g -> Coordinator.m_write_groups cx = [] ->
  (forall c1, match cn with
     | connection_close => is_over c1 rr (tr ++ closing)
     | connection_keepalive => view c1 = mk_view true http_parser_init (ParserCtx.reset ctx) [] no_upgrade true initial_ctx true
          (free_place k false cx) true false n tr
     end -> Q tt c1) ->
  view c = mk_view true p ctx [] no_upgrade rr (mk_octx (Some g) (length (m_items g))) true (free_place k (closes cn) cx) rr false n tr ->
  wp surely (enter settings (run_entry settings (S d)) call_handle_current_write_ctx) Q E c.
Proof.
  intros Hg Hcx Hq. explicit c. cbn [enter]. unfold handle_current_write_ctx. apply wp_within, wp_catches, wp_gets.
  destruct (extract_one g Hg) as [_ E2]. cbn [m_write_output_ctx]. rewrite E2. apply wp_upd.
  unfold finish_handling_current_write_ctx. apply wp_bind. unfold finish_write_group. apply wp_bind.
  unfold invoke_after_write_notificator_if_necessary. apply wp_catches, wp_gets. unfold take_notificator.
  cbn [m_write_output_ctx set_write_output_ctx m_current_wg m_next_writable_item_index invoke_after_write_notificator_if_exists].
  rewrite (ow_notificator g Hg). apply wp_upd. returns. returns. apply wp_gets. destruct cn.
  - match goal with |- context [if ?b then _ else _] => change b with false end. cbv iota.
    apply wp_gets. cbn [m_connection_upgrade_stage set_write_output_ctx]. rewrite bool_decide_eq_true_2 by done. apply wp_gets.
    cbn [m_init_read_after_this_write set_write_output_ctx]. apply wp_bind.
    eapply waits; [|reflexivity]. intros c1 Hc1. eapply nothing_next; [done|exact Hq|]. by rewrite Hc1.
  - match goal with |- context [if ?b then _ else _] => change b with true end. cbv iota.
    eapply closes_down; [|intros c1 Hc1; apply Hq|reflexivity]; [done|].
    revert Hc1. by explicit c1.
Qed.

(** ** Reading a request *)

(** What http_parser and its callbacks make of some octets. *)
Definition parse (p : http_parser) (c : http_parser_ctx_t) (data : list byte) : option (http_parser * nat * http_parser_ctx_t) :=
  run_callbacks (m_incoming_http_msg_limits settings) (string_max_size settings) (http_parser_execute p data) c.

(** The context of a message that arrives in pieces, each parsed to its end. *)
Fixpoint arrive (p : http_parser) (c : http_parser_ctx_t) (pieces : list (list byte)) : option (http_parser * http_parser_ctx_t) :=
  match pieces with
  | [] => None
  | d :: pieces =>
      match parse p c d with
      | Some (p, m, c) =>
          if (m =? length d)%nat && negb (bool_decide (http_errno p = HPE_FAILED)) then
            match pieces with
            | [] => if m_message_complete c && negb (parser_upgrade p) then Some (p, c) else None
            | _ => if m_message_complete c then None else arrive p c pieces
            end
          else None
      | None => None
      end
  end.

Definition read_piece (d : nat) (data : list byte) : Effects.M conn unit :=
  upd (set_reading false);; upd (set_read_operation_is_running false);; after_read settings (run_entry settings d) (received data).

(** Up to the end of [http_parser_execute]. *)
Lemma piece_parsed dp c p ctx ir co n tr data p1 ctx1 Q E :
  parse p ctx data = Some (p1, length data, ctx1) -> http_errno p1 <> HPE_FAILED ->
  (forall c1, view c1 = mk_view true p1 ctx1 [] no_upgrade false initial_ctx ir co false false n tr ->
     wp surely (if m_message_complete ctx1 then on_request_message_complete settings (run_entry settings dp) else consume_message)
       Q (wp surely (trigger_error_and_close (run_entry settings dp)) Q (fun _ => False)) c1) ->
  view c = mk_view true p ctx [] no_upgrade true initial_ctx ir co true false n tr ->
  wp surely (read_piece dp data) Q E c.
Proof.
  intros Hp He Hk. explicit c. unfold read_piece. apply wp_upd, wp_upd. unfold after_read. apply wp_within, wp_catches, wp_upd.
  unfold consume_data. apply wp_gets, wp_gets, wp_gets.
  cbn [m_parser m_parser_ctx m_buf set_buf set_read_operation_is_running set_reading]. unfold parse in Hp. rewrite Hp.
  apply wp_upd, wp_upd, wp_upd. destruct (http_errno p1) eqn:Ee; [| |done]; apply Hk; cbn; by rewrite drop_ge.
Qed.

Lemma middle_piece dp c p ctx ir co n tr data p1 ctx1 (Q : unit -> conn -> Prop) E :
  parse p ctx data = Some (p1, length data, ctx1) -> http_errno p1 <> HPE_FAILED -> m_message_complete ctx1 = false ->
  (forall c1, view c1 = mk_view true p1 ctx1 [] no_upgrade true initial_ctx ir co true false n tr -> Q tt c1) ->
  view c = mk_view true p ctx [] no_upgrade true initial_ctx ir co true false n tr ->
  wp surely (read_piece dp data) Q E c.
Proof.
  intros Hp He Hm Hq. apply (piece_parsed _ _ _ _ _ _ _ _ _ _ _ _ _ Hp He). rewrite Hm. intros c1. explicit c1. by apply Hq.
Qed.

(** The state when the answer to a request is being written. *)
Definition writes (cn : response_connection_attr_t) (k : Z) (ctx : http_parser_ctx_t) (g : write_group_t) (n : nat) (tr : list event)
    (c : conn) : Prop :=
  let go := negb (closes cn) in
  exists p ctx', view c = mk_view true p ctx' [] no_upgrade go (mk_octx (Some g) (length (m_items g))) true
    (free_place (wrap 32 (k + 1)) (closes cn) (mk_context k [] (mk_flags final_parts cn))) go true n tr /\
    (cn = connection_keepalive -> ctx' = ParserCtx.reset (after_request ctx)).

Lemma last_piece dp c p ctx ir k id fl n tr data p1 ctx1 a (Q : unit -> conn -> Prop) E :
  parse p ctx data = Some (p1, length data, ctx1) -> http_errno p1 <> HPE_FAILED -> m_message_complete ctx1 = true ->
  parser_upgrade p1 = false -> replies n (request_of k ctx1) a -> good a ->
  (forall c1, match a with
     | answers cn g => writes cn k ctx1 g (S (S n)) ((tr ++ accepted_request k ctx1) ++ answered k cn g) c1
     | refuses => writes connection_close k ctx1 not_implemented (S (S n))
                    ((tr ++ accepted_request k ctx1) ++ answered k connection_close not_implemented) c1
     | throws => is_over c1 false ((tr ++ accepted_request k ctx1) ++ closing)
     end -> Q tt c1) ->
  view c = mk_view true p ctx [] no_upgrade true initial_ctx ir (free_place k false (mk_context id [] fl)) true false n tr ->
  wp surely (read_piece (S (S dp)) data) Q E c.
Proof.
  intros Hp He Hm Hu Ha Hg Hq. apply (piece_parsed _ _ _ _ _ _ _ _ _ _ _ _ _ Hp He). rewrite Hm. intros c1.
  apply (handler_called _ _ _ _ _ _ _ _ _ _ _ _ _ _ _ _ Ha Hu). clear c1. intros c1 Hv. cbv zeta. destruct a as [cn g| |].
  - destruct Hg as [Hg Hs]. cbn [run_entry enter foldr conn_call].
    destruct (write_parts_starts dp c1 p1 (after_request ctx1) [] false ir _ k cn g false _ _ Hg Hs Hv) as (c2 & Hc2 & Hv2).
    eapply wp_returns.
    { eapply bind_eq; [|reflexivity]. unfold write_response_parts. apply noexcept_eq, catch_eq. exact Hc2. }
    cbv beta. apply wp_gets. replace (Coordinator.is_able_to_get_more_messages (m_response_coordinator c2)) with (negb (closes cn)).
    2:{ revert Hv2. explicit c2. by destruct cn. }
    destruct cn; cbn [closes negb].
    + cbn [run_entry enter]. eapply waits; [|exact Hv2]. intros c3 Hc3. apply Hq. eexists _, _. by split.
    + returns. apply Hq. eexists _, _. by split.
  - cbn [run_entry enter foldr]. returns. unfold refuse_request.
    destruct (write_parts_starts (S dp) c1 p1 (after_request ctx1) [] false ir _ k connection_close not_implemented false _ _ Hg eq_refl Hv)
      as (c2 & Hc2 & Hv2).
    eapply wp_returns; [exact Hc2|]. apply Hq. eexists _, _. by split.
  - cbn [run_entry enter foldr]. returns. eapply closes_down; [|intros c2 Hc2; apply Hq|exact Hv]; [done|].
    revert Hc2. by explicit c2.
Qed.

End Session.
End Session.

Module Dialogue.
Import Buffers OutputCtx HttpMethod Limits ChunkedInput RequestHeader ParserCtx HttpParser HttpParserTheory Connection Session.
Import Coordinator(mk_flags, final_parts, connection_close, connection_keepalive, response_connection_attr_t, mk_context, initial_flags).
Import HttpInputTheorems(message, process, accepted, processed, events_of, joined, sized, header_of, octets_of, block_of, msg_content).

Section Dialogue.
Context {P : HttpParser} `{HttpParserCodes} {U : UserCode} {F : SendFile} (settings : connection_settings_t).

Abbreviation limits := (m_incoming_http_msg_limits settings).
Abbreviation max_size := (string_max_size settings).

(** ** Messages as http_parser reports them *)

Definition quiet (evs : list HttpInput.ParserCtx.event) : list (HttpInput.ParserCtx.event * Z) := map (fun e => (e, 0)) evs.

(** http_parser goes through pieces to their ends and calls back with these events. *)
Inductive says : http_parser -> list (list byte) -> list HttpInput.ParserCtx.event -> http_parser -> Prop :=
| says_last p d evs p' :
    run (http_parser_execute p d) (quiet evs) p' (length d) -> http_errno p' <> HPE_FAILED -> says p [d] evs p'
| says_more p d evs p1 ds evs' p' :
    run (http_parser_execute p d) (quiet evs) p1 (length d) -> http_errno p1 <> HPE_FAILED ->
    existsb is_complete evs = false -> says p1 ds evs' p' -> says p (d :: ds) (evs ++ evs') p'.

(** The pieces are those of the message, which does not ask for an upgrade. *)
Definition spells (pieces : list (list byte)) (m : message) : Prop :=
  exists evs p, says http_parser_init pieces evs p /\ joined evs = joined (events_of m) /\ parser_upgrade p = false.

Lemma quiet_run (x : exec http_parser) : forall evs p n c c',
  run x (quiet evs) p n -> process limits max_size evs c = accepted c' -> run_callbacks limits max_size x c = Some (p, n, c').
Proof.
  induction x as [p n|k p resume IH]; intros evs p' n' c c' Hr Hp; inversion Hr; subst; destruct evs as [|e evs]; simplify_eq/=; try done.
  destruct (callback limits max_size (observed k (after_callback k p)) c) as [[c1 r1]|]; [|done].
  destruct (r1 =? 0) eqn:E; [|done]. apply Z.eqb_eq in E. subst r1. cbn. by eapply IH.
Qed.

Lemma process_complete evs : forall c c',
  process limits max_size evs c = accepted c' -> m_message_complete c' = m_message_complete c || existsb is_complete evs.
Proof.
  induction evs as [|e evs IH]; intros c c' Hp; simpl in Hp; [simplify_eq; by rewrite orb_false_r|].
  destruct (callback limits max_size e c) as [[c1 r]|] eqn:Ec; [|done]. destruct (Z.eqb_spec r 0) as [->|]; [|done].
  apply callback_complete in Ec as [_ Ec]. cbn [fst snd] in Ec. rewrite (IH _ _ Hp), Ec by done. cbn. by rewrite orb_assoc.
Qed.

Lemma says_arrive p pieces evs p' : says p pieces evs p' -> forall c c',
  m_message_complete c = false -> process limits max_size evs c = accepted c' ->
  m_message_complete c' = true -> parser_upgrade p' = false -> arrive settings p c pieces = Some (p', c').
Proof.
  induction 1 as [p d evs p' Hr He|p d evs p1 ds evs' p' Hr He Hn Hs IH]; intros c c' Hc Hp Hc' Hu; cbn [arrive]; unfold parse.
  - rewrite (quiet_run _ _ _ _ _ _ Hr Hp), Nat.eqb_refl, bool_decide_eq_false_2 by done. cbn. by rewrite Hc', Hu.
  - rewrite HttpInputTheorems.process_app in Hp. destruct (process limits max_size evs c) as [c1| |] eqn:E1; try done.
    rewrite (quiet_run _ _ _ _ _ _ Hr E1), Nat.eqb_refl, bool_decide_eq_false_2 by done. cbn [andb negb].
    assert (m_message_complete c1 = false) as Hc1 by (by rewrite (process_complete _ _ _ E1), Hc, Hn).
    rewrite Hc1. destruct Hs; by apply IH.
Qed.

(** The request made of a message. *)
Definition info_of (b : chunked_input_info_block_t) : option chunked_input_info_block_t :=
  match m_chunks b, m_trailing_fields b with [], [] => None | _, _ => Some b end.
Definition request_for (id : Z) (m : message) : request_t :=
  mk_request id (header_of m) (octets_of (msg_content m)) (info_of (block_of (msg_content m))).

Lemma message_arrives pieces m :
  spells pieces m -> sized limits m -> HttpInputTheorems.fits limits max_size m = true ->
  exists p c, arrive settings http_parser_init http_parser_ctx pieces = Some (p, c) /\
    (forall k, request_of k c = request_for k m) /\ ParserCtx.reset (after_request c) = http_parser_ctx.
Proof.
  intros (evs & p & Hs & Hj & Hu) Hz Hf. pose proof (HttpInputTheorems.process_message limits max_size m Hz) as Hp.
  rewrite Hf in Hp. destruct Hp as (c & Hp & Hh & Hb & Hi & Hc). exists p, c. split_and!.
  - apply (says_arrive _ _ _ _ Hs); try done. rewrite <- Hp.
    change http_parser_ctx with (reset (set_chunked_info_block empty_block http_parser_ctx)).
    assert (Ht : HttpInputTheorems.total_size evs = HttpInputTheorems.total_size (events_of m))
      by (by rewrite <- HttpInputTheorems.joined_total, Hj, HttpInputTheorems.joined_total).
    pose proof (HttpInputTheorems.sized_total _ _ Hz).
    rewrite HttpInputTheorems.process_joined, Hj, <- HttpInputTheorems.process_joined; [done| |];
      apply HttpInputTheorems.roomy_start; lia.
  - intros k. unfold request_of, request_for, info_of, make_chunked_input_info_if_necessary. rewrite Hh, Hb, Hi.
    by destruct (block_of (msg_content m)) as [[] []].
  - unfold after_request, ParserCtx.reset, make_chunked_input_info_if_necessary.
    destruct (m_chunked_info_block c) as [chs tf] eqn:Eb. cbn [m_chunks m_trailing_fields].
    destruct chs, tf; cbn; rewrite ?Eb; done.
Qed.

(** ** Dialogues *)

(** A request in the client's pieces, and what the handler does with it. *)
Record turn := mk_turn { t_pieces : list (list byte); t_message : message; t_reply : reply }.

(** What the client gets for a request, and whether the connection stays. *)
Definition answer_of (a : reply) : list byte :=
  match a with answers _ g => group_bytes g | refuses => group_bytes not_implemented | throws => [] end.
Definition stays (a : reply) : bool := match a with answers cn _ => negb (closes cn) | _ => false end.

(** The requests that are served: all up to the first one after which the connection closes. *)
Fixpoint served (ts : list turn) : list turn :=
  match ts with [] => [] | t :: ts => t :: if stays (t_reply t) then served ts else [] end.

(** What happens on the strand: the pieces are read, and the answer is written. *)
Definition turn_events (t : turn) : list strand_event :=
  map (fun d => ev_read (received d)) (t_pieces t) ++ match t_reply t with throws => [] | _ => [ev_write written] end.
Definition client (ts : list turn) : list strand_event := flat_map turn_events (served ts).

(** The [i]-th request has the number [i], at the width of the counter. *)
Definition nth_id (i : nat) : Z := wrap 32 (Z.of_nat i).

Fixpoint requests_from (i : nat) (ts : list turn) : list request_t :=
  match ts with [] => [] | t :: ts => request_for (nth_id i) (t_message t) :: requests_from (S i) ts end.

(** What a trace says: the requests handed to the handler and the octets written. *)
Definition handled_in (tr : list event) : list request_t :=
  flat_map (fun e => match e with handled r => [r] | _ => [] end) tr.
Definition octets_in (tr : list event) : list byte :=
  flat_map (fun e => match e with started (trivial_write bufs _) => concat bufs | _ => [] end) tr.

(** The handler of the [i]-th request is called between the other calls to the outside. *)
Record turn_ok (i : nat) (t : turn) : Prop := {
  ok_spells : spells (t_pieces t) (t_message t);
  ok_sized : sized limits (t_message t);
  ok_fits : HttpInputTheorems.fits limits max_size (t_message t) = true;
  ok_buffer : Forall (fun d => Connection.fits settings (received d) = true) (t_pieces t);
  ok_replies : replies (S (2 * i)) (request_for (nth_id i) (t_message t)) (t_reply t);
  ok_good : good settings (t_reply t)
}.

Lemma next_id i : wrap 32 (nth_id i + 1) = nth_id (S i).
Proof. unfold nth_id, wrap. rewrite Nat2Z.inj_succ, Zplus_mod_idemp_l. f_equal. Qed.

Lemma octets_starts cn g : octets_in (starts cn g) = group_bytes g.
Proof.
  unfold starts, octets_in. destruct cn; cbn; rewrite app_nil_r; unfold items_data, group_bytes; by rewrite flat_map_concat_map.
Qed.

(** The connection when it waits for the [i]-th request. *)
Definition waiting (i : nat) (tr : list event) (c : conn) : Prop :=
  exists ir id fl, view c = mk_view true http_parser_init http_parser_ctx [] no_upgrade true initial_ctx ir
    (free_place (nth_id i) false (mk_context id [] fl)) true false (S (2 * i)) tr.

(** A step that a weakest precondition describes. *)
Lemma wp_step dp e m (Q : conn -> Prop) c :
  step settings dp e c = Some (m c) -> wp surely m (fun _ c => Q c) (fun _ => False) c ->
  exists c', step settings dp e c = Some (Ret tt c') /\ Q c'.
Proof. unfold wp. intros Hs Hw. rewrite Hs. destruct (m c) as [[] c'| |c'| | |]; try done; [by exists c'|by destruct Hw]. Qed.

Lemma drive_step dp e es c c' :
  step settings dp e c = Some (Ret tt c') -> drive settings dp (e :: es) c = drive settings dp es c'.
Proof. cbn [drive]. by intros ->. Qed.

Lemma drive_app dp es es' c c' :
  drive settings dp es c = Some c' -> drive settings dp (es ++ es') c = drive settings dp es' c'.
Proof.
  revert c. induction es as [|e es IH]; intros c; cbn [drive app]; [by intros [= <-]|].
  destruct (step settings dp e c) as [[]|]; try done. apply IH.
Qed.

Definition played (k : Z) (ctx : http_parser_ctx_t) (a : reply) (n : nat) (tr : list event) (c : conn) : Prop :=
  match a with
  | answers cn g => writes cn k ctx g (S (S n)) ((tr ++ accepted_request k ctx) ++ answered k cn g) c
  | refuses => writes connection_close k ctx not_implemented (S (S n))
                 ((tr ++ accepted_request k ctx) ++ answered k connection_close not_implemented) c
  | throws => is_over c false ((tr ++ accepted_request k ctx) ++ closing)
  end.

Lemma pieces_read dp pieces p' ctx' ir k id fl n tr a : forall c p ctx,
  arrive settings p ctx pieces = Some (p', ctx') -> Forall (fun d => Connection.fits settings (received d) = true) pieces ->
  replies n (request_of k ctx') a -> good settings a ->
  view c = mk_view true p ctx [] no_upgrade true initial_ctx ir (free_place k false (mk_context id [] fl)) true false n tr ->
  exists c1, drive settings (S (S dp)) (map (fun d => ev_read (received d)) pieces) c = Some c1 /\ played k ctx' a n tr c1.
Proof.
  induction pieces as [|d pieces IH]; intros c p ctx Ha Hf Hr Hg Hv; [done|]. apply Forall_cons_iff in Hf as [Hd Hf].
  cbn [arrive] in Ha. destruct (parse settings p ctx d) as [[[p1 m] ctx1]|] eqn:Ep; [|done].
  destruct ((m =? length d)%nat && _) eqn:Em; [|done]. apply andb_prop in Em as [->%Nat.eqb_eq Em].
  apply negb_true_iff, bool_decide_eq_false in Em.
  assert (Hs : step settings (S (S dp)) (ev_read (received d)) c = Some (read_piece settings (S (S dp)) d c)).
  { unfold step. replace (reading c) with true by (by revert Hv; explicit c). by rewrite Hd. }
  destruct pieces as [|d' pieces].
  - destruct (m_message_complete ctx1 && negb (parser_upgrade p1)) eqn:Ec; [|done]. apply andb_prop in Ec as [Ec Eu].
    injection Ha as -> ->. apply negb_true_iff in Eu.
    destruct (wp_step _ _ _ (played k ctx' a n tr) _ Hs) as (c1 & Hc1 & Hp1).
    { eapply last_piece; [exact Ep|done|done|done|exact Hr|done| |exact Hv]. intros c1 Hc1. exact Hc1. }
    exists c1. split; [|done]. cbn [map]. by rewrite (drive_step _ _ _ _ _ Hc1).
  - destruct (m_message_complete ctx1) eqn:Ec; [done|].
    destruct (wp_step _ _ _ (fun c1 => view c1 = mk_view true p1 ctx1 [] no_upgrade true initial_ctx ir
      (free_place k false (mk_context id [] fl)) true false n tr) _ Hs) as (c1 & Hc1 & Hp1).
    { eapply middle_piece; [exact Ep|done|done| |exact Hv]. intros c1 Hc1. exact Hc1. }
    destruct (IH c1 p1 ctx1 Ha Hf Hr Hg Hp1) as (c2 & Hc2 & Hp2). exists c2. split; [|done].
    cbn [map] in Hc2 |- *. by rewrite (drive_step _ _ _ _ _ Hc1).
Qed.

(** What a turn adds to the trace. *)
Record adds (i : nat) (t : turn) (tr tr' : list event) : Prop := {
  adds_requests : handled_in tr' = handled_in tr ++ [request_for (nth_id i) (t_message t)];
  adds_octets : octets_in tr' = octets_in tr ++ answer_of (t_reply t)
}.

Lemma written_out dp c cn k ctx g n tr :
  one_write settings g -> writes cn k ctx g n tr c -> ParserCtx.reset (after_request ctx) = http_parser_ctx ->
  exists c', drive settings (S (S dp)) [ev_write written] c = Some c' /\
    match cn with
    | connection_close => is_over c' false (tr ++ closing)
    | connection_keepalive => view c' = mk_view true http_parser_init http_parser_ctx [] no_upgrade true initial_ctx true
        (free_place (wrap 32 (k + 1)) false (mk_context k [] (mk_flags final_parts cn))) true false n tr
    end.
Proof.
  intros Hg (p & ctx' & Hv & Hk) Hr.
  assert (Hs : step settings (S (S dp)) (ev_write written) c
    = Some ((upd (set_writing false);; noexcept (enter settings (run_entry settings (S dp)) call_handle_current_write_ctx)) c)).
  { unfold step. by replace (writing c) with true by (by revert Hv; explicit c). }
  destruct (wp_step _ _ _ (fun c' => match cn with
    | connection_close => is_over c' (negb (closes cn)) (tr ++ closing)
    | connection_keepalive => view c' = mk_view true http_parser_init (ParserCtx.reset ctx') [] no_upgrade true initial_ctx true
        (free_place (wrap 32 (k + 1)) false (mk_context k [] (mk_flags final_parts cn))) true false n tr
    end) _ Hs) as (c1 & Hc1 & Hp1).
  - apply wp_upd, wp_within. eapply write_over; [exact Hg| |intros c1 Hc1; exact Hc1|]; [done|]. revert Hv. by explicit c.
  - exists c1. rewrite (drive_step _ _ _ _ _ Hc1). split; [done|]. destruct cn; [|exact Hp1].
    rewrite Hp1, (Hk eq_refl), Hr. done.
Qed.

(** The end of a turn. *)
Definition after_turn (i : nat) (t : turn) (tr : list event) (c : conn) : Prop :=
  if stays (t_reply t) then waiting (S i) tr c else is_over c false tr.

Lemma handled_app tr tr' : handled_in (tr ++ tr') = handled_in tr ++ handled_in tr'.
Proof. apply flat_map_app. Qed.
Lemma octets_app tr tr' : octets_in (tr ++ tr') = octets_in tr ++ octets_in tr'.
Proof. apply flat_map_app. Qed.
Lemma handled_answered k cn g : handled_in (answered k cn g) = [].
Proof. by destruct cn. Qed.
Lemma octets_answered k cn g : octets_in (answered k cn g) = group_bytes g.
Proof. apply octets_starts. Qed.

Lemma turn_adds i t tr ctx tl :
  request_of (nth_id i) ctx = request_for (nth_id i) (t_message t) -> handled_in tl = [] -> octets_in tl = answer_of (t_reply t) ->
  adds i t tr ((tr ++ accepted_request (nth_id i) ctx) ++ tl).
Proof.
  intros Hr Hh Ho. unfold accepted_request. rewrite Hr. split.
  - by rewrite !handled_app, Hh, app_nil_r.
  - rewrite !octets_app, Ho, <- app_assoc. done.
Qed.

Lemma answered_closing k cn g :
  handled_in (answered k cn g ++ closing) = [] /\ octets_in (answered k cn g ++ closing) = group_bytes g.
Proof. rewrite handled_app, octets_app, handled_answered, octets_answered. split; [done|apply app_nil_r]. Qed.

Lemma turn_played dp i t tr c :
  turn_ok i t -> waiting i tr c ->
  exists c' tr', drive settings (S (S dp)) (turn_events t) c = Some c' /\ adds i t tr tr' /\ after_turn i t tr' c'.
Proof.
  intros [Hsp Hsz Hft Hbf Hrp Hgd] (ir & id & fl & Hv).
  destruct (message_arrives _ _ Hsp Hsz Hft) as (p & ctx & Ha & Hreq & Hrst). rewrite <- Hreq in Hrp.
  destruct (pieces_read dp _ _ _ _ _ _ _ _ _ _ c _ _ Ha Hbf Hrp Hgd Hv) as (c1 & Hc1 & Hp1).
  unfold turn_events, after_turn. rewrite (drive_app _ _ _ _ _ Hc1).
  destruct (t_reply t) as [cn g| |] eqn:Et; cbn [played stays] in *.
  - destruct Hgd as [Hg _]. destruct (written_out dp _ _ _ _ _ _ _ Hg Hp1 Hrst) as (c2 & Hc2 & Hp2).
    exists c2. destruct cn; cbn [closes negb].
    + eexists. split; [exact Hc2|]. split.
      * apply turn_adds; [done|apply handled_answered|rewrite Et; apply octets_answered].
      * exists true, (nth_id i), (mk_flags final_parts connection_keepalive). rewrite Hp2, next_id. do 2 f_equal. lia.
    + eexists. split; [exact Hc2|]. rewrite <- app_assoc in Hp2. split; [|exact Hp2].
      destruct (answered_closing (nth_id i) connection_close g). apply turn_adds; [done|done|by rewrite Et].
  - destruct (written_out dp _ _ _ _ _ _ _ Hgd Hp1 Hrst) as (c2 & Hc2 & Hp2).
    exists c2. eexists. split; [exact Hc2|]. rewrite <- app_assoc in Hp2. split; [|exact Hp2].
    destruct (answered_closing (nth_id i) connection_close not_implemented). apply turn_adds; [done|done|by rewrite Et].
  - exists c1. eexists. split; [done|]. split; [|exact Hp1]. apply turn_adds; [done|done|by rewrite Et].
Qed.

Abbreviation all_stay := (forallb (fun t => stays (t_reply t))).

Lemma dialogue_from dp ts : forall i tr c,
  (forall j t, served ts !! j = Some t -> turn_ok (i + j) t) -> waiting i tr c ->
  exists c' tr', drive settings (S (S dp)) (client ts) c = Some c' /\
    handled_in tr' = handled_in tr ++ requests_from i (served ts) /\
    octets_in tr' = octets_in tr ++ flat_map (fun t => answer_of (t_reply t)) (served ts) /\
    if all_stay ts then waiting (i + length ts) tr' c' else is_over c' false tr'.
Proof.
  induction ts as [|t ts IH]; intros i tr c Hok Hw.
  - exists c, tr. cbn. rewrite !app_nil_r, Nat.add_0_r. done.
  - pose proof (Hok 0%nat t eq_refl) as Ht. rewrite Nat.add_0_r in Ht.
    destruct (turn_played dp i t tr c Ht Hw) as (c1 & tr1 & Hc1 & [Hh Ho] & Ha). unfold after_turn in Ha.
    unfold client. cbn [served flat_map requests_from forallb length] in Hok |- *. rewrite (drive_app _ _ _ _ _ Hc1).
    destruct (stays (t_reply t)); cbn [andb].
    + destruct (IH (S i) tr1 c1) as (c2 & tr2 & Hc2 & Hh2 & Ho2 & Hw2); [|done|].
      { intros j t' Hj. rewrite Nat.add_succ_comm. by apply (Hok (S j)). }
      exists c2, tr2. rewrite Hh2, Ho2, Hh, Ho, <- !app_assoc, <- Nat.add_succ_comm. done.
    + exists c1, tr1. cbn [drive flat_map requests_from]. by rewrite app_nil_r.
Qed.

Lemma waits_first dp now :
  m_max_pipelined_requests settings = 1%nat -> state_changed 0 notice_accepted = None ->
  exists c, init settings (run_entry settings dp) (new_conn settings now) = Ret tt c /\ waiting 0 [noticed notice_accepted] c.
Proof.
  intros Hm Hs.
  assert (Hw : wp surely (init settings (run_entry settings dp)) (fun _ c => waiting 0 [noticed notice_accepted] c) (fun _ => False)
    (new_conn settings now)).
  { unfold init, new_conn. rewrite Hm. apply wp_bind. unfold call_state_listener. apply wp_upd, wp_bind. returns.
    cbn [outside_calls set_trace]. rewrite Hs. returns. apply wp_upd.
    eapply waits; [|reflexivity]. intros c1 Hc1. eexists _, _, _. exact Hc1. }
  unfold wp in Hw. destruct (init _ _ _) as [[] c| |c| | |]; try done; [by exists c|by destruct Hw].
Qed.

(** A dialogue is served: on a connection that takes one request at a time, let a
    client send messages, each in pieces that http_parser reads as the message and that
    fit the buffer, and wait for each answer; let the handler answer, refuse or throw at
    once.  Then every step returns; the handler is given exactly the requests that were
    sent, numbered in order, and the octets written are exactly its answers, with the
    answer 501 for a request it refused, up to and including the first request after
    which the connection is to be closed.  Then the connection is closed; before that it
    is open and reading. *)
Theorem dialogue_served (dp : nat) (now : Z) (ts : list turn) :
  m_max_pipelined_requests settings = 1%nat -> state_changed 0 notice_accepted = None ->
  (forall i t, served ts !! i = Some t -> turn_ok i t) ->
  exists c, run_events settings (S (S dp)) now (client ts) = Some c /\
    handled_in (trace c) = requests_from 0 (served ts) /\
    octets_in (trace c) = flat_map (fun t => answer_of (t_reply t)) (served ts) /\
    m_socket_open c = all_stay ts /\ reading c = all_stay ts /\ writing c = false.
Proof.
  intros Hm Hs Hok. destruct (waits_first (S (S dp)) now Hm Hs) as (c & Hc & Hw). unfold run_events. rewrite Hc.
  destruct (dialogue_from dp ts 0 _ _ Hok Hw) as (c' & tr' & Hd & Hh & Ho & He). exists c'. split; [done|].
  cbn [app handled_in octets_in flat_map] in Hh, Ho. destruct (all_stay ts).
  - destruct He as (ir & id & fl & Hv). revert Hv. explicit c'. done.
  - destruct He as (H1 & H2 & H3 & ->). done.
Qed.

End Dialogue.
End Dialogue.
