(* ===== verification/DealerAnswers.v ===== *)
(** * What the handlers answer

    The answer of every handler of the program as a function of the selection, the stored
    settings, the serial port, the pages and the request, and that the handlers of [CardDealer] give it. *)

From stdpp Require Import gmap.
From S2P Require Import Prelude PercentEncoding Coordinator HttpFields HttpHeaders HttpResponse CardDealer.

Module DealerAnswers.
Import Model Machine RPIdata Status Buffers Response Handler DealerProps.

Section Answers.
Context `{J : JsonDto} `{S : SerialPort} (now : list byte).

(** ** The abstract answers *)

(** What the client gets of a builder. *)
Definition wire (b : response_builder_t) : list byte :=
  create_header_string (with_content_length (m_body_size b) (m_header b)) add_content_length ++ concat (tail (m_response_parts b)).

Definition options_resp (req : request) : response_builder_t :=
  append_header_by_id HttpField.access_control_max_age (bs "86400")
    (append_header_by_id HttpField.access_control_allow_headers (bs "content-type")
      (append_header_by_id HttpField.access_control_allow_methods (bs "OPTIONS, GET, POST, PATCH, DELETE") (new_resp now req))).

Definition not_allowed_resp (req : request) : response_builder_t :=
  connection_close (create_response (status_line method_not_allowed) (req_keep_alive req)).

(** The pages are the files that no handler writes. *)
Definition pages_t : Type := string -> list byte.

(** The answer, and whether the connection may be kept; [None] is an exception. *)
Definition spec_reply (pages : pages_t) (st : dealer) (r : route) (req : request) : option (bool * list byte) :=
  let keep := req_keep_alive req in
  let good body := Some (keep, answer now keep (status_line ok) body) in
  let bad body := Some (keep, answer now keep (status_line bad_request) body) in
  let posted {A} (o : outcome A) := match o with Ok _ => good [] | Throw _ => None end in
  match r with
  | get_home =>
      match from_json_selected (d_stored st) with
      | Ok s => good (to_json s)
      | Throw _ => bad (pages "home.html"%string)
      end
  | get_game => good (pages "setGame.html"%string)
  | get_players => good (pages "setPlayers.html"%string)
  | get_startgame =>
      match from_json_selected (d_stored st) with
      | Ok s => if is_ok (write_some (d_sent st) (message_of s)) then good (pages "startGame.html"%string) else bad []
      | Throw _ => bad []
      end
  | get_settings => good (d_stored st)
  | post_players => posted (from_json_players (req_body req))
  | post_game => posted (from_json_game (req_body req))
  | options_home => Some (keep, wire (options_resp req))
  | other_method => Some (false, wire (not_allowed_resp req))
  end.

(** The program and its pages are those of the specification. *)
Record shows (pages : pages_t) (st : dealer) (w : world) : Prop := {
  sh_implements : implements st w;
  sh_pages : forall name, name <> settings_txt -> file name w = pages name
}.

(** ** The handlers *)

(** Answers of one piece for the header and at most one for the body. *)
Record sendable (keep : bool) (octets : list byte) (g : sent_t) : Prop := {
  sd_flags : sent_flags g = Coordinator.mk_flags Coordinator.final_parts (Coordinator.response_connection_attr keep);
  sd_octets : group_bytes (sent_group g) = octets;
  sd_trivial : Forall (fun i => exists d, i = trivial_write_operation d) (m_items (sent_group g));
  sd_some : m_items (sent_group g) <> [];
  sd_few : (length (m_items (sent_group g)) <= 2)%nat;
  sd_notificator : m_after_write_notificator (sent_group g) = None
}.

Lemma finish_sendable b w :
  m_conn b = true -> (length (m_response_parts b) <= 2)%nat ->
  exists g, finish b w = (Ret g, w) /\ sendable (should_keep_alive (m_header b)) (wire b) g.
Proof.
  intros Hc Hl. unfold finish, bind, lift. rewrite (done_run _ Hc). eexists. split; [reflexivity|]. split; cbn [snd sent_flags sent_group]; try done.
  - unfold group_bytes. cbn [m_items map flat_map item_bytes]. by rewrite trivial_bytes.
  - cbn [m_items]. apply Forall_fmap, Forall_forall. intros d _. by exists d.
  - cbn [m_items]. rewrite length_map. destruct (m_response_parts b) as [|? [|? [|]]]; cbn in *; lia.
Qed.

Lemma wire_set_body body b :
  m_conn b = true ->
  m_conn (set_body body b) = true /\ (length (m_response_parts (set_body body b)) <= 2)%nat /\
  m_header (set_body body b) = m_header b /\
  wire (set_body body b) = create_header_string (with_content_length (size body) (m_header b)) add_content_length ++ body.
Proof.
  intros Hc. unfold wire, set_body, if_neccessary_reserve_first_element_for_header.
  destruct b as [h c n [|p parts]]; cbn in Hc |- *; subst c;
    (destruct (Z.ltb_spec 0 (size body)) as [Hb|Hb]; cbn; rewrite ?take_0, ?app_nil_r; cbn; rewrite ?app_nil_r; split_and!; try done; try lia);
    (assert (body = []) as -> by (destruct body; [done|unfold size in Hb; cbn in Hb; lia]); by rewrite ?app_nil_r).
Qed.

Lemma answer_of_body req body sl h :
  h = with_status_line sl (m_header (new_resp now req)) ->
  create_header_string (with_content_length (size body) h) add_content_length ++ body = answer now (req_keep_alive req) sl body.
Proof. intros ->. by destruct req. Qed.

(** A handler that sets its body last; [b] has the status line already. *)
Lemma sends_body req body sl b w :
  m_conn b = true -> m_header b = with_status_line sl (m_header (new_resp now req)) ->
  exists g, finish (set_body body b) w = (Ret g, w) /\
    sendable (req_keep_alive req) (answer now (req_keep_alive req) sl body) g.
Proof.
  intros Hc Hh. destruct (wire_set_body body b Hc) as (H1 & H2 & H3 & H4).
  destruct (finish_sendable _ w H1 H2) as (g & Hg & Hs). exists g. split; [done|].
  rewrite H4, H3, Hh in Hs. rewrite (answer_of_body req body sl) in Hs by done.
  by destruct req as [? []].
Qed.

Lemma sends_nothing req sl b w :
  b = with_header (with_status_line sl (m_header (new_resp now req))) (new_resp now req) ->
  exists g, finish b w = (Ret g, w) /\
    sendable (req_keep_alive req) (answer now (req_keep_alive req) sl []) g.
Proof.
  intros ->. destruct (finish_sendable (with_header (with_status_line sl (m_header (new_resp now req))) (new_resp now req)) w)
    as (g & Hg & Hs); [done|cbn; lia|]. exists g. split; [done|].
  rewrite <- (answer_of_body req [] sl _ eq_refl). by destruct req as [? []].
Qed.

Lemma serve_file_finish name req w : serve_file now name req w = finish (set_body (file name w) (new_resp now req)) w.
Proof. unfold serve_file. by erewrite bind_ret by (apply try_ret; reflexivity). Qed.

Lemma home_finish st w req :
  implements st w ->
  handler now get_home req w
  = match from_json_selected (d_stored st) with
    | Ok s => finish (set_body (to_json s) (set_body (file "home.html" w) (new_resp now req))) (set_selected s w)
    | Throw _ => finish (set_body (file "home.html" w) (mark_as_bad_request (new_resp now req))) w
    end.
Proof.
  intros [_ _ Hf _ _]. pose proof (retrieve_run w) as Hret. rewrite Hf in Hret.
  cbn [handler]. unfold on_home. rewrite (bind_ret (read_file "home.html") _ _ _ _ eq_refl). fold (file "home.html" w).
  destruct (from_json_selected (d_stored st)).
  - erewrite bind_ret; [|apply try_ret; by rewrite (bind_ret _ _ _ _ _ Hret)]. done.
  - erewrite bind_ret; [|erewrite try_raise; [reflexivity|by apply (bind_raise _ _ _ _ _ Hret)]]. done.
Qed.

(** The handlers leave the pages alone. *)
Lemma step_world_pages st w ev name : name <> settings_txt -> file name (step_world st w ev) = file name w.
Proof.
  intros Hn. assert (Hs : forall s, file name (saved s w) = file name w).
  { intros s. unfold saved. destruct (w_writable w); [|done]. unfold file. cbn [w_files set_files set_selected].
    by rewrite lookup_insert_ne by done. }
  unfold step_world. destruct (fst ev); try done; repeat case_match; try done; apply Hs.
Qed.

(** What a handler does. *)
Definition performs (pages : pages_t) (st : dealer) (r : route) (req : request) (w : world) : Prop :=
  exists w', shows pages (spec_step st (r, req)) w' /\
    match spec_reply pages st r req with
    | Some (keep, octets) => exists g, handler now r req w = (Ret g, w') /\ sendable keep octets g
    | None => exists e, handler now r req w = (Raise e, w')
    end.

Lemma handler_performs pages st r req w :
  shows pages st w -> (is_start r = true -> startable st = true) -> performs pages st r req w.
Proof.
  intros [Hi Hp] Hst. exists (step_world st w (r, req)). split.
  { split; [by apply step_world_implements|]. intros name Hn. rewrite step_world_pages by done. by apply Hp. }
  pose proof Hi as [Hw Hb Hf Hs Hu]. set (keep := req_keep_alive req).
  assert (Hgood : forall body w', exists g, finish (set_body body (new_resp now req)) w' = (Ret g, w') /\
    sendable keep (answer now keep (status_line ok) body) g) by (intros; by apply sends_body).
  assert (Hnone : forall w', exists g, finish (new_resp now req) w' = (Ret g, w') /\
    sendable keep (answer now keep (status_line ok) []) g) by (intros; by apply sends_nothing).
  assert (Hbad : forall w', exists g, finish (mark_as_bad_request (new_resp now req)) w' = (Ret g, w') /\
    sendable keep (answer now keep (status_line bad_request) []) g) by (intros; by apply sends_nothing).
  unfold spec_reply, step_world. cbn [fst snd]. fold keep. destruct r.
  - rewrite (home_finish st w req Hi). destruct (from_json_selected (d_stored st)).
    + destruct (wire_set_body (file "home.html" w) (new_resp now req) eq_refl) as (H1 & _ & H3 & _). by apply sends_body.
    + rewrite <- (Hp "home.html"%string) by done. by apply sends_body.
  - cbn [handler]. unfold on_set_game. rewrite serve_file_finish, (Hp "setGame.html"%string) by done. apply Hgood.
  - cbn [handler]. unfold on_set_players. rewrite serve_file_finish, (Hp "setPlayers.html"%string) by done. apply Hgood.
  - cbn [handler]. rewrite (on_start_game_run now st w req Hi (Hst eq_refl)).
    destruct (from_json_selected (d_stored st)); [|apply Hbad]. rewrite <- (Hp "startGame.html"%string) by done.
    destruct (write_some _ _); [apply Hgood|apply Hbad].
  - cbn [handler]. unfold on_settings. rewrite serve_file_finish, <- Hf. apply Hgood.
  - cbn [handler]. unfold on_players_post. destruct (from_json_players (req_body req)) as [[p]|e]; [|by exists e].
    erewrite bind_ret by reflexivity. rewrite <- Hs, (store_run (fun s => mk_selected (s_game s) (mk_players p))). apply Hnone.
  - cbn [handler]. unfold on_game_post. destruct (from_json_game (req_body req)) as [[g]|e]; [|by exists e].
    erewrite bind_ret by reflexivity. rewrite <- Hs, (store_run (fun s => mk_selected (mk_game g) (s_players s))). apply Hnone.
  - destruct (finish_sendable (options_resp req) w) as (g & Hg & Hsd); [done|cbn; lia|]. exists g. split; [exact Hg|].
    by destruct req as [? []].
  - destruct (finish_sendable (not_allowed_resp req) w) as (g & Hg & Hsd); [done|cbn; lia|]. exists g. by split.
Qed.

End Answers.
End DealerAnswers.
