(* ===== verification/ServedDialogue.v ===== *)
(** * The server in dialogue with a browser

    The way of a request through the whole program: the octets of its message, in the pieces
    in which they arrive, are parsed and assembled ([HttpInput]), the connection hands the
    request to the router and its handlers ([Server], [CardDealer]), and what they build is
    written by the connection ([Session], [Dialogue]).  The theorem compares this with an
    abstract dealer, which keeps a selection and the stored settings, answers from them, and
    offers its messages to the serial port.

    Module [ServedWitness] has a small parser for whole requests and one such dialogue: a
    browser posts the number of players, starts the game and asks for a page that does not
    exist. *)

From stdpp Require Import gmap.
From S2P Require Import Prelude PercentEncoding Coordinator HttpFields HttpHeaders HttpResponse Regex RegexTheory Path2Regex RouteMatch RouteSyntax Router Routing CardDealer Server HttpInput HttpInputTheorems OutputCtx Effects Connection ConnectionRuns Dialogue DealerAnswers.

Module ServedDialogue.
Import HttpMethod Router Routing Server DealerAnswers.
Import Connection(request_t, m_request_id, m_request_header, m_request_body, connection_settings_t, run_events, trace, m_socket_open, UserCode, SendFile).
Import Session(reply, answers, refuses, throws, not_implemented, calls_of, status_of).
Import Dialogue(turn, mk_turn, t_pieces, t_message, t_reply, stays, answer_of, client, handled_in, octets_in, spells, nth_id, request_for).
Import HttpInputTheorems(message, msg_method, msg_target, msg_content, msg_keep_alive, msg_upgrade, octets_of, header_of).
Import HttpInput.RequestHeader HttpInput.HttpParser.
Import CardDealer.Machine(world) CardDealer.DealerProps(route, handler, spec_step, dealer).

Section Served.
Context `{J : JsonDto} `{S : SerialPort} (now : list byte) `{HttpParserCodes} (reserve : nat -> nat).
Context {P : HttpParser} {F : SendFile} (settings : connection_settings_t).

(** ** The handlers as the connection calls them *)

(** What the router and the handlers read of a request. *)
Definition handler_request (r : request_t) : Handler.request :=
  Handler.mk_request (m_request_body r)
    (match m_request_connection (m_request_header r) with Response.keep_alive => true | _ => false end).

(** The call of the request handler; [None] is undefined behaviour. *)
Definition respond (router : express_router_t route) (w : world) (r : request_t) : option (reply * world) :=
  match run_router router (m_method (m_request_header r)) (RequestTarget.path (m_target (m_request_header r))) with
  | Handled h =>
      match handler now h (handler_request r) w with
      | (Machine.Ret g, w) => Some (answers (Coordinator.m_response_connection (Response.sent_flags g)) (Response.sent_group g), w)
      | (Machine.Raise _, w) => Some (throws, w)
      | (Machine.Undef _, _) => None
      end
  | Not_handled => Some (refuses, w)
  | Bad_path _ => Some (throws, w)
  | Undefined => None
  end.

(** A dialogue: the turns, the world before each of them, and the world at the end. *)
Fixpoint conduct (router : express_router_t route) (w : world) (i : nat) (inputs : list (list (list byte) * message))
    : option (list turn * list world * world) :=
  match inputs with
  | [] => Some ([], [], w)
  | (pieces, m) :: inputs =>
      match respond router w (request_for (nth_id i) m) with
      | None => None
      | Some (a, w') =>
          if stays a then
            match conduct router w' (Datatypes.S i) inputs with
            | Some (ts, ws, w'') => Some (mk_turn pieces m a :: ts, w :: ws, w'')
            | None => None
            end
          else Some ([mk_turn pieces m a], [w], w')
      end
  end.

(** The handlers as user code of a connection: the [i]-th request finds the [i]-th world.
    The calls to the outside alternate between the extra data of a request and its handler. *)
Definition dealer_code (router : express_router_t route) (ws : list world) : UserCode := {|
  Connection.on_request n r :=
    match (ws !! Nat.pred (Nat.div2 n)) ≫= (fun w => respond router w r) with
    | Some (a, _) => (calls_of (m_request_id r) a, status_of a)
    | None => ([], inr Effects.std_exception)
    end;
  Connection.on_written _ _ _ := ([], None);
  Connection.state_changed _ _ := None;
  Connection.make_extra_data _ := None
|}.

(** ** The abstract dealer *)

Definition method_of (code : Z) : option http_method := find (fun m => code =? nodejs_code m) all_methods.

(** The request in a message. *)
Definition event_of (m : message) : event :=
  (method_of (msg_method m), RequestTarget.path (RequestTarget.request_target (msg_target m)),
   Handler.mk_request (octets_of (msg_content m)) (negb (msg_upgrade m) && msg_keep_alive m)).

(** The octets of the answer and whether the connection is kept. *)
Definition spec_answer (pages : pages_t) (st : dealer) (ev : event) : bool * list byte :=
  let '(m, path, req) := ev in
  match Percent.normalize_to path with
  | inl _ => (false, [])
  | inr t =>
      match dispatch m t with
      | None => (false, Buffers.group_bytes not_implemented)
      | Some h => default (false, []) (spec_reply now pages st h req)
      end
  end.

(** The requests that are served on one connection, the octets of their answers, the state
    they leave, and whether the connection is kept. *)
Fixpoint spec_dialogue (pages : pages_t) (st : dealer) (ms : list message)
    : list message * list byte * dealer * bool :=
  match ms with
  | [] => ([], [], st, true)
  | m :: ms =>
      let '(keep, octets) := spec_answer pages st (event_of m) in
      let st := spec_event st (event_of m) in
      if keep then
        let '(served, out, st, open) := spec_dialogue pages st ms in (m :: served, octets ++ out, st, open)
      else ([m], octets, st, false)
  end.

(** ** The handlers and the dealer *)

Lemma from_nodejs_method code : from_nodejs code = method_id (method_of code).
Proof.
  unfold from_nodejs, method_of. induction all_methods as [|m l IH]; [done|]. cbn [from_nodejs_in find]. by destruct (code =? nodejs_code m).
Qed.

Lemma request_event id m :
  let '(mm, path, req) := event_of m in
  m_method (m_request_header (request_for id m)) = method_id mm /\
  RequestTarget.path (m_target (m_request_header (request_for id m))) = path /\ handler_request (request_for id m) = req.
Proof.
  cbn [event_of]. split; [apply from_nodejs_method|]. split; [done|]. unfold handler_request, request_for, header_of.
  cbn [m_request_header m_request_body m_request_connection]. f_equal.
  unfold HttpInputTheorems.connection_of. by destruct (msg_upgrade m), (msg_keep_alive m).
Qed.

Context (enough_iov : (2 <= Connection.asio_max_iov_len settings)%nat).

Lemma sendable_good keep octets g :
  sendable keep octets g -> Session.good settings (answers (Coordinator.m_response_connection (Response.sent_flags g)) (Response.sent_group g)).
Proof using enough_iov.
  intros [_ _ Ht Hs Hf Hn]. split.
  - split; [done|done|lia|done].
  - unfold Connection.status_line_in_first_item. destruct (Buffers.m_items (Response.sent_group g)) as [|i l]; [done|].
    apply Forall_cons_iff in Ht as [(d & ->) _]. by destruct (0 <? _).
Qed.

Lemma refuses_good : Session.good settings refuses.
Proof using enough_iov. split; [by repeat econstructor|done|cbn; lia|done]. Qed.

Abbreviation table_router := (mk_router (map entry_of table) None).

Lemma responds pages st w id m :
  shows pages st w ->
  match route_of (event_of m) with Some (r, _) => negb (DealerProps.is_start r) || DealerProps.startable st | None => true end = true ->
  exists a w', respond table_router w (request_for id m) = Some (a, w') /\
    shows pages (spec_event st (event_of m)) w' /\ (stays a, answer_of a) = spec_answer pages st (event_of m) /\ Session.good settings a.
Proof using enough_iov.
  intros Hsh Hf. unfold respond, spec_event, spec_answer. revert Hf. pose proof (request_event id m) as E. destruct (event_of m) as [[mm path] req].
  destruct E as (-> & -> & ->). unfold route_of. intros Hf. rewrite run_server by done. destruct (Percent.normalize_to path) as [f|t].
  { exists throws, w. by split_and!. }
  destruct (dispatch mm t) as [h|]; [|exists refuses, w; split_and!; [done|done|done|apply refuses_good]].
  destruct (handler_performs now pages st h req w Hsh) as (w' & Hsh' & Hr); [intros Hh; by rewrite Hh in Hf|].
  destruct (spec_reply now pages st h req) as [[keep octets]|].
  - destruct Hr as (g & -> & Hg). eexists _, w'. split; [done|]. split; [done|]. split; [|by eapply sendable_good].
    destruct Hg as [Hfl Ho _ _ _ _]. cbn [stays answer_of default]. rewrite Ho, Hfl. by destruct keep.
  - destruct Hr as (e & ->). exists throws, w'. by split_and!.
Qed.

(** ** Dialogues *)

(** The [j]-th turn of a dialogue whose first request has the number [i]. *)
Definition conducted (i : nat) (ws : list world) (inputs : list (list (list byte) * message)) (j : nat) (t : turn) : Prop :=
  inputs !! j = Some (t_pieces t, t_message t) /\ Session.good settings (t_reply t) /\
  exists w w', ws !! j = Some w /\ respond table_router w (request_for (nth_id (i + j)) (t_message t)) = Some (t_reply t, w').

Lemma conducts pages inputs : forall st w i,
  shows pages st w ->
  starts_fit st (map event_of (map snd inputs)) = true ->
  exists ts ws w', conduct table_router w i inputs = Some (ts, ws, w') /\
    let '(served, out, st', open) := spec_dialogue pages st (map snd inputs) in
    map t_message ts = served /\ flat_map (fun t => answer_of (t_reply t)) ts = out /\ shows pages st' w' /\
    forallb (fun t => stays (t_reply t)) ts = open /\ Dialogue.served ts = ts /\
    forall j t, ts !! j = Some t -> conducted i ws inputs j t.
Proof using enough_iov.
  induction inputs as [|[pieces m] inputs IH]; intros st w i Hsh Hfit.
  { exists [], [], w. by split_and!. }
  cbn [map snd starts_fit] in Hfit. apply andb_prop in Hfit as [Hf1 Hfit].
  destruct (responds pages st w (nth_id i) m Hsh Hf1) as (a & w1 & Ha & Hsh1 & Hans & Hg).
  cbn [conduct map snd spec_dialogue]. rewrite Ha, <- Hans. destruct (stays a) eqn:Es.
  - destruct (IH _ w1 (Datatypes.S i) Hsh1 Hfit) as (ts & ws & w' & -> & Hr).
    exists (mk_turn pieces m a :: ts), (w :: ws), w'. split; [done|].
    destruct (spec_dialogue pages _ (map snd inputs)) as [[[served out] st'] open]. destruct Hr as (H1 & H2 & H3 & H4 & H5 & H6).
    cbn [map flat_map forallb Dialogue.served t_message t_reply]. rewrite Es, H1, H2, H4, H5. split_and!; try done.
    intros [|j] t; [intros [= <-]|intros Hj].
    + split_and!; [done|done|]. exists w, w1. by rewrite Nat.add_0_r.
    + destruct (H6 j t Hj) as (Hi & Hgt & wj & wj' & Hwj & Hrj). split_and!; [done|done|]. exists wj, wj'. by rewrite <- Nat.add_succ_comm.
  - exists [mk_turn pieces m a], [w], w1. split; [done|]. cbn [map flat_map forallb Dialogue.served t_message t_reply].
    rewrite Es, app_nil_r. split_and!; try done. intros [|j] t; [intros [= <-]|done].
    split_and!; [done|done|]. exists w, w1. by rewrite Nat.add_0_r.
Qed.

(** Messages in pieces that the connection can read. *)
Record input_ok (input : list (list byte) * message) : Prop := {
  in_spells : spells (fst input) (snd input);
  in_sized : HttpInputTheorems.sized (Connection.m_incoming_http_msg_limits settings) (snd input);
  in_fits : HttpInputTheorems.fits (Connection.m_incoming_http_msg_limits settings) (Connection.string_max_size settings) (snd input) = true;
  in_buffer : Forall (fun d => Connection.fits settings (Connection.received d) = true) (fst input)
}.

Lemma div2_calls i : Nat.pred (Nat.div2 (Datatypes.S (Datatypes.S (2 * i)))) = i.
Proof. cbn [Nat.div2 Nat.pred]. apply Nat.div2_double. Qed.

Lemma conducted_ok i ws inputs t :
  Forall input_ok inputs -> conducted 0 ws inputs i t -> Dialogue.turn_ok (U := dealer_code table_router ws) settings i t.
Proof.
  intros Hin (Hi & Hg & w & w' & Hw & Hr). rewrite Forall_lookup in Hin. destruct (Hin i _ Hi) as [H1 H2 H3 H4].
  split; try done. split; [done|]. cbn [Connection.on_request dealer_code]. rewrite div2_calls, Hw. cbn [mbind option_bind].
  cbn [Nat.add] in Hr. rewrite Hr. by destruct (t_reply t).
Qed.

Lemma requests_from_imap ts i :
  Dialogue.requests_from i ts = imap (fun j m => request_for (nth_id (i + j)) m) (map t_message ts).
Proof.
  revert i. induction ts as [|t ts IH]; intros i; [done|]. cbn [Dialogue.requests_from map imap]. rewrite Nat.add_0_r, IH. f_equal.
  apply imap_ext. intros j m _. cbn. by rewrite Nat.add_succ_r.
Qed.

End Served.

(** C2. The program from socket to socket, for a browser that sends one request after the
    other on a connection with the default of one request at a time, waits for each answer,
    and whose socket takes every write: let memory, settings file, UART and pages be those of
    the abstract dealer of [CardDealer], in whatever state; let each message come in pieces
    that http_parser reads as the message; and let games be started only when the stored
    selection fits the buffers or cannot be read.  Then every step of the connection returns;
    the handlers are given exactly the requests in the messages; the octets on the socket are
    exactly the answers of the dealer, in order, up to the first one after which the
    connection is closed; and the memory, the files and the octets on the UART are again
    those of the dealer.  The serial port may take part of a message or throw, and then the
    dealer says what is answered. *)
Theorem served_dialogue `{J : JsonDto} {S : SerialPort} (now : list byte) `{HttpParserCodes} (reserve : nat -> nat)
    {P : HttpParser} {F : SendFile} (settings : connection_settings_t) (depth : nat) (time : Z)
    (pages : pages_t) (st : dealer) (w : world) (inputs : list (list (list byte) * message))
    (router : express_router_t route) :
  reserves reserve -> server_handler reserve = inl router ->
  Connection.m_max_pipelined_requests settings = 1%nat -> (2 <= Connection.asio_max_iov_len settings)%nat -> (2 <= depth)%nat ->
  shows pages st w -> Forall (input_ok settings) inputs -> starts_fit st (map event_of (map snd inputs)) = true ->
  exists ts ws w' c,
    conduct now router w 0 inputs = Some (ts, ws, w') /\
    run_events (U := dealer_code now router ws) settings depth time (client ts) = Some c /\
    let '(served, octets, st', open) := spec_dialogue now pages st (map snd inputs) in
    handled_in (trace c) = imap (fun i m => request_for (nth_id i) m) served /\
    octets_in (trace c) = octets /\ m_socket_open c = open /\ shows pages st' w'.
Proof.
  intros Hres Hrouter Hmax Hiov Hd Hsh Hin Hfit. apply server_handler_router in Hrouter as ->; [|done].
  destruct depth as [|[|depth]]; [lia|lia|].
  destruct (conducts now settings Hiov pages inputs st w 0 Hsh Hfit) as (ts & ws & w' & Hc & Hr).
  destruct (spec_dialogue now pages st (map snd inputs)) as [[[served out] st'] open]. destruct Hr as (H1 & H2 & H3 & H4 & H5 & H6).
  destruct (Dialogue.dialogue_served (U := dealer_code now (mk_router (map entry_of table) None) ws) settings depth time ts Hmax eq_refl) as (c & Hrun & Hh & Ho & Hopen & _).
  { intros i t Ht. rewrite H5 in Ht. eapply conducted_ok; [exact Hin|]. by apply H6. }
  exists ts, ws, w', c. split_and!; try done.
  - rewrite Hh, H5, requests_from_imap, H1. done.
  - by rewrite Ho, H5, H2.
  - by rewrite Hopen, H4.
Qed.

End ServedDialogue.

(** ** A dialogue, run *)

Module ServedWitness.
Import HttpMethod NumberedMethods HttpInput.HttpParser ParserCtx Dialogue HttpInputTheorems.

(** ** The parser

    A request is the first letter of its method, the target up to a space, the length of the
    body as one octet, and the body. *)

Inductive phase := at_method | in_target | at_length | in_body (left_ : nat).

Record counted_parser := mk_counted {
  cp_errno : http_errno_t;
  cp_phase : phase;
  cp_method : Z;
  cp_length : Z;
  cp_read : Z
}.

Definition cp_fail (p : counted_parser) : counted_parser :=
  mk_counted HPE_FAILED (cp_phase p) (cp_method p) (cp_length p) (cp_read p).
Definition cp_to (ph : phase) (p : counted_parser) : counted_parser :=
  mk_counted (cp_errno p) ph (cp_method p) (cp_length p) (cp_read p + 1).

(** The end of a message, after [n] octets. *)
Definition cp_end (n : nat) (p : counted_parser) : exec counted_parser :=
  calls cb_message_complete p (fun r p => returns (if r =? 0 then p else cp_fail p) n).

Fixpoint cp_execute (data : list byte) (n : nat) (p : counted_parser) : exec counted_parser :=
  match data with
  | [] => returns p n
  | b :: data =>
      let next ph := cp_to ph p in
      let after k p rest := calls k p (fun r p => if r =? 0 then rest p else returns (cp_fail p) n) in
      match cp_phase p with
      | at_method =>
          let m := if Byte.eqb b "P"%byte then 3 else 1 in
          cp_execute data (S n) (mk_counted (cp_errno p) in_target m 0 (cp_read p + 1))
      | in_target =>
          if Byte.eqb b " "%byte then cp_execute data (S n) (next at_length)
          else after (cb_url [b]) (next in_target) (fun p => cp_execute data (S n) p)
      | at_length =>
          let len := N.to_nat (Byte.to_N b) in
          after cb_headers_complete (mk_counted (cp_errno p) (in_body len) (cp_method p) (Z.of_nat len) (cp_read p + 1))
            (fun p => match len with O => cp_end (S n) p | _ => cp_execute data (S n) p end)
      | in_body left_ =>
          after (cb_body [b]) (next (in_body (pred left_)))
            (fun p => match pred left_ with O => cp_end (S n) p | _ => cp_execute data (S n) p end)
      end
  end.

#[local] Instance counted_http_parser : HttpParser := {|
  http_parser := counted_parser;
  http_parser_init := mk_counted HPE_OK at_method 0 0 0;
  http_parser_execute p data := match cp_errno p with HPE_OK => cp_execute data 0 p | _ => returns (cp_fail p) 0 end;
  http_parser_pause p := mk_counted HPE_PAUSED (cp_phase p) (cp_method p) (cp_length p) (cp_read p);
  http_errno := cp_errno;
  parser_content_length := cp_length;
  parser_method := cp_method;
  parser_upgrade _ := false;
  http_should_keep_alive _ := true;
  nread := cp_read
|}.

(** A run in which every callback returns 0. *)
Fixpoint quiet_exec (x : exec counted_parser) : list ParserCtx.event * counted_parser * nat :=
  match x with
  | returns p n => ([], p, n)
  | calls k p resume =>
      let p := after_callback (P := counted_http_parser) k p in
      let '(evs, p', n) := quiet_exec (resume 0 p) in (observed (P := counted_http_parser) k p :: evs, p', n)
  end.

Lemma quiet_exec_run x evs p n : quiet_exec x = (evs, p, n) -> run (P := counted_http_parser) x (quiet evs) p n.
Proof.
  revert evs. induction x as [q m|k q resume IH]; intros evs E; cbn [quiet_exec] in E; [simplify_eq; constructor|].
  destruct (quiet_exec (resume 0 _)) as [[evs1 p1] n1] eqn:E1. simplify_eq. cbn [quiet map].
  apply (run_calls (P := counted_http_parser) k q resume 0). by apply IH.
Qed.

(** The events of pieces that are all parsed. *)
Fixpoint quiet_pieces (p : counted_parser) (pieces : list (list byte)) : option (list ParserCtx.event * counted_parser) :=
  match pieces with
  | [] => None
  | d :: rest =>
      let '(evs, p, n) := quiet_exec (http_parser_execute p d) in
      if (n =? length d)%nat && negb (bool_decide (cp_errno p = HPE_FAILED)) then
        match rest with
        | [] => Some (evs, p)
        | _ => if existsb is_complete evs then None
               else match quiet_pieces p rest with Some (evs', p) => Some (evs ++ evs', p) | None => None end
        end
      else None
  end.

Lemma quiet_pieces_says pieces : forall p evs p',
  quiet_pieces p pieces = Some (evs, p') -> says (P := counted_http_parser) p pieces evs p'.
Proof.
  induction pieces as [|d pieces IH]; intros p evs p' E; [done|]. cbn [quiet_pieces] in E.
  destruct (quiet_exec _) as [[evs1 p1] n] eqn:E1. apply quiet_exec_run in E1.
  destruct ((n =? length d)%nat && _) eqn:E2; [|done]. apply andb_prop in E2 as [->%Nat.eqb_eq E2].
  apply negb_true_iff, bool_decide_eq_false in E2.
  destruct pieces as [|d' pieces]; [simplify_eq; by apply says_last|].
  destruct (existsb is_complete evs1) eqn:E3; [done|].
  destruct (quiet_pieces p1 (d' :: pieces)) as [[evs' p2]|] eqn:E4; [|done]. simplify_eq. eapply says_more; try done. by apply IH.
Qed.

Lemma spells_by pieces evs p m :
  quiet_pieces http_parser_init pieces = Some (evs, p) -> joined evs = joined (events_of m) -> spells pieces m.
Proof. intros Hq Hj. exists evs, p. split; [by apply quiet_pieces_says|done]. Qed.

(** ** The dialogue *)

Import Server Instances ServerWitnesses ServedDialogue DealerAnswers.

Definition players_body : list byte := pre_players ++ bs "3" ++ [x22; x7d].
Definition post_message : message := mk_message (bs "/players") [] (whole players_body) 3 false true.
Definition get_message (target : list byte) : message := mk_message target [] (whole []) 1 false true.

Definition inputs : list (list (list byte) * message) :=
  [([bs "P/pla"; bs "yers " ++ [x0f] ++ take 4 players_body; drop 4 players_body], post_message);
   ([bs "G/startgame " ++ [x00]], get_message (bs "/startgame"));
   ([bs "G/now"; bs "here " ++ [x00]], get_message (bs "/nowhere"));
   ([bs "G/ " ++ [x00]], get_message (bs "/"))].

Definition no_pages : pages_t := fun _ => [].

#[local] Existing Instance ConnectionRuns.no_files.
Abbreviation one_at_a_time := (ConnectionRuns.settings_for 1).

Lemma input_ok_by pieces m evs p :
  quiet_pieces http_parser_init pieces = Some (evs, p) -> joined evs = joined (events_of m) ->
  (total_size (events_of m) <? 2 ^ 64 - 1) = true -> msg_fields m = [] -> chunks_of (msg_content m) = [] ->
  trailer_of (msg_content m) = [] ->
  fits (Connection.m_incoming_http_msg_limits one_at_a_time) (Connection.string_max_size one_at_a_time) m = true ->
  forallb (fun d => Connection.fits one_at_a_time (Connection.received d)) pieces = true ->
  input_ok one_at_a_time (pieces, m).
Proof.
  intros Hq Hj Ht Hf Hc Htr Hfit Hb. split; cbn [fst snd]; [by eapply spells_by| |done|by apply Forall_forall, forallb_forall].
  split; [by apply Z.ltb_lt|rewrite Hf, Htr; vm_compute; reflexivity|rewrite Hc; constructor|split; vm_compute; discriminate].
Qed.

Lemma inputs_ok : Forall (input_ok one_at_a_time) inputs.
Proof. do 4 (constructor; [eapply input_ok_by; vm_compute; reflexivity|]). constructor. Qed.

(** The server was restarted: the first POST forgets the game that was stored. *)
Lemma served_dialogue_witness :
  exists router ts ws w' c,
    server_handler (fun n => n) = inl router /\ conduct (bs "now") router (DealerProps.restart world0) 0 inputs = Some (ts, ws, w') /\
    Connection.run_events (U := dealer_code (bs "now") router ws) one_at_a_time 2 0 (client ts) = Some c /\
    length (handled_in (Connection.trace c)) = 3%nat /\ Connection.m_socket_open c = false /\
    Machine.w_uart w' = bs "R3C" /\
    take 15 (octets_in (Connection.trace c)) = bs "HTTP/1.1 200 OK".
Proof.
  pose proof (server_handler_cases (P := eager_port) (fun n => n) reserves_exact) as Er.
  set (router := Router.mk_router (map Routing.entry_of table) None) in Er.
  destruct (served_dialogue (bs "now") (fun n => n) one_at_a_time 2 0 no_pages
    (DealerProps.mk_dealer Model.selected_default (write_selected fisk4) true []) (DealerProps.restart world0) inputs router)
    as (ts & ws & w' & c & H2 & H3 & H4).
  - exact reserves_exact.
  - exact Er.
  - done.
  - cbn. lia.
  - lia.
  - split; [constructor; vm_compute; reflexivity|]. intros name Hn.
    unfold DealerProps.file. cbn [Machine.w_files world0 DealerProps.restart Machine.set_selected]. by rewrite lookup_singleton_ne.
  - exact inputs_ok.
  - vm_compute. reflexivity.
  - vm_compute spec_dialogue in H4. destruct H4 as (H5 & H6 & H7 & [[_ _ _ _ H8] _]).
    exists router, ts, ws, w', c. split; [exact Er|]. split; [exact H2|]. split; [exact H3|].
    split; [by rewrite H5|]. split; [exact H7|]. split; [exact H8|by rewrite H6].
Defined.

End ServedWitness.
